(* ===== verification/_CoqProject ===== *)
-Q . S2P
Prelude.v
Primitives.v
Address.v
CodecIO.v
Crypto.v
TxData.v
TxCodec.v
TxWire.v
TxTheorems.v
TxAuth.v
TxAuthTheorems.v
Nakamoto.v
Signers.v
SignerTheorems.v
NakamotoTheorems.v
Queue.v
FrameBudget.v
PeerWire.v
PeerWireTheorems.v
Relay.v
SortitionRules.v
Sbtc.v
BitcoinScript.v
BitcoinSource.v
SortitionDraw.v
SortitionTheorems.v
BitcoinTheorems.v
SourceTheorems.v
SnapshotChain.v
SortitionEngine.v
ChainTheorems.v
EngineTheorems.v
Mempool.v
MempoolTheorems.v
MempoolCandidates.v
MarfTrie.v
MarfVersions.v
MarfTheorems.v
MarfSealing.v
MarfTables.v
MarfRefinement.v
MarfCache.v
StackerDb.v
StackerDbTheorems.v
Effects.v
EmbeddedSigner.v
ProposalExecution.v
SignerSafety.v
SignerService.v
SignerServiceTheorems.v
Miner.v
MinerTheorems.v
BlockRules.v
BlockRulesTheorems.v
Clarity.v
TenureRewards.v
RewardsTheorems.v
PostConditions.v
PostConditionTheorems.v
ChainLedger.v
ChainState.v
SignerElection.v
TransactionExecution.v
BlockExecution.v
ChainSteps.v
ChainStateTheorems.v
CheckpointHistory.v
SyncClient.v
Sync.v
SyncTheorems.v
StagedBlocks.v
StagingTheorems.v
Instances.v
Witnesses.v
SortitionWitnesses.v
BitcoinWitnesses.v
MarfWitnesses.v
SignerWitnesses.v
ChainWitnesses.v
SyncWitnesses.v
