(* ===== verification/Prelude.v ===== *)
(** * Verification of nano-stacks

    nano-stacks is a Stacks node in Rust. This library models the layers that
    decide which bytes are a transaction, a block or a peer's message, who
    authorized them, what the node holds, relays and offers to the next block,
    which miner a Bitcoin block elects, which blocks are accepted, executed and
    retracted and what their state is, what a signer signs and a miner builds,
    which history is followed from peers, and how much memory a peer can make
    the node use; and proves them correct.

    ** The program's parts and their models

    Paths are under [src/crates/].

    - [nano-primitives/src/lib.rs] is [Primitives]: networks ([Network]), hashes
      as byte lists with a length predicate, and the bounded bit vector with its
      wire format ([BitVec]). [nano-address/src/lib.rs] is [Address]:
      [StacksAddress], [AddressHashMode] and [PoxAddress] with its Bitcoin
      output scripts.
    - [nano-crypto/src/lib.rs] is [Crypto]: recoverable signatures
      ([MessageSignature], [StacksPublicKey], [StacksPrivateKey]) and the VRF
      ([VrfProof], [Vrf]). The digests, secp256k1 and edwards25519 are crates
      the program links; they are the classes [Hashes], [Secp256k1] and
      [Edwards], and what the code relies on is in [HashesOk], [Secp256k1Ok] and
      [EdwardsOk] (digest lengths, a signature recovers its signer's key, the
      group laws, RFC 8032 key expansion).
    - [nano-codec/src/lib.rs]: [CodecIO] has [Reader], [Writer] and the class
      [Wire], the contract between a reader and a writer of one type: what is
      read is valid and is written back as the bytes it was read from, and what
      is valid is written and read back, wherever it lies in a slice. [TxData]
      has the types of a transaction, [TxCodec] one reader and one writer per
      type in the order of the source, and the grammar [clarity_wire] of
      serialized Clarity values. [TxWire] builds the [Wire] instances bottom-up
      and [TxTheorems] states what they give for [Transaction::decode] and
      [Transaction::encode]. [TxAuth] has sighashes, spending conditions,
      signing and the transaction root of a block, and [TxAuthTheorems] their
      properties.
    - [nano-queue/src/lib.rs] is [Queue]: the drop-oldest buffer ([Buffer]) and
      the accounting of a bounded channel ([Channel]), whose permits, queued
      values and leases move by the step relation [Channel.step]. The receiver's
      [Drop] is several steps, so a sender can act in between.
    - [nano-p2p]: [src/budget.rs] is [FrameBudget], bytes reserved for incoming
      frames, per address and in all; [src/wire.rs] is [PeerWire] with
      [PeerWireTheorems], preambles, frames and payloads; [src/relay.rs] is
      [Relay], whose abstract machine is [RelaySpec].
    - [nano-mempool/src/lib.rs] is [Mempool] with [MempoolTheorems] and
      [MempoolCandidates]: admission, replacement, limits, ageing, pages for
      peers, and the selection for the next block. [ChainTip], a trait in the
      source, is a class.
    - [nano-bitcoin/src/lib.rs] is [BitcoinScript] with [BitcoinTheorems] (the
      payloads a miner writes, the transactions that carry them, the decoder of
      a block) and [BitcoinSource] with [SourceTheorems] (the two sources that
      walk the chain and keep the [PreStx] window, over what the remote end
      answers); [src/sbtc.rs] is [Sbtc]. The [bitcoin] crate is the class
      [BitcoinLib] with [BitcoinLibOk].
    - [nano-sortition/src/lib.rs] is [SortitionRules] (reward cycles, payout
      rules, PoX history, leader keys, the window entry of a block),
      [SortitionDraw] (medians, chains of commitments, ranges, the winner, and
      the null miner of [src/carryover.rs]), both with [SortitionTheorems];
      [SnapshotChain] (snapshots and consensus hashes, with [ChainTheorems],
      whose [ArchiveChain] is the abstract chain that forgets nothing); and
      [SortitionEngine] with [EngineTheorems]. The table [CARRYOVER_ADVANTAGE]
      is written by the crate's build script and is the class [CarryoverTable].
    - [nano-marf]: [MarfTrie] has the nodes of the trie, their hashes and
      records, and the operations on a trie whose unchanged parts stay in the
      database; [MarfVersions] the sealed states and the one being written.
      [MarfTheorems] proves that reading and inserting are those of a map,
      [MarfSealing] that writing a state keeps it, [MarfTables] the invariant of
      the tables and the skip list, and [MarfRefinement] that all of it
      implements [MarfSpec], where a sealed state is a map with a parent, a
      height and a root. [MarfCache] is the two-generation cache of
      [src/storage.rs] and the reads through it.
    - [nano-stackerdb] is [StackerDb] with [StackerDbTheorems]: chunks, their
      signatures, and the messages of miners and signers.
    - [Effects] is the monad of the stateful components: a method on [&mut self]
      that returns [Result].
    - [nano-signer/src/lib.rs]: [EmbeddedSigner] (what a proposal must satisfy,
      the journal, the signer) with [SignerSafety]; [ProposalExecution] (the
      validator that executes a proposal); [SignerService] (which proposal is
      answered, the promises, the announcement of a view) with
      [SignerServiceTheorems]. [nano-miner] is [Miner] with [MinerTheorems]: the
      plan of a commitment, the blocks of a tenure, the wallet and the
      coordinator.
    - [nano-chainstate]: [src/nakamoto.rs] is [Nakamoto] with
      [NakamotoTheorems] (headers, blocks, their hashes and codec, the linkage
      rules) and [Signers] with [SignerTheorems] (the weighted signer set and
      its apportionment). [src/authenticate.rs] is [BlockRules] with
      [BlockRulesTheorems]. [src/lib.rs] is [TenureRewards] with
      [RewardsTheorems] (emission and accounting), [PostConditions] with
      [PostConditionTheorems], [ChainLedger] (what a block changes beside the
      MARF, and the virtual machine's interface with the table of ledgers its
      side store keeps, of [nano-vm/src/lib.rs]), [ChainState] (checks before
      execution, seals, retractions), [TransactionExecution], [BlockExecution]
      (with [src/receipts.rs] and [src/decision.rs]) and [CheckpointHistory];
      [src/signers.rs] is [SignerElection]. [ChainSteps] has the window of that
      table and the frame rules of a block's steps, [ChainStateTheorems] what
      holds of whole blocks.
      [Clarity] has the types of the [clarity] crate these rules read.
    - [nano-sync/src/lib.rs] is [SyncClient] (caches, responses, parsing,
      requests) and [Sync] (the tip followed, the pool of peers, the follower),
      with [SyncTheorems].
    - [nano-follower/src/staging.rs] is [StagedBlocks] with [StagingTheorems]:
      blocks that wait for execution and the branch of them that is next.

    The crates call each other as their models require each other: the codec is
    under blocks, peers' messages and the pool; the draw under the engine, and
    what the engine elects under the miner's plan and the checks of a block; the
    signer executes a proposal through the chain state, and the follower of
    peers reads blocks that the chain state authenticates. Where a crate is used
    through a trait or is not part of the repository it is a class.

    [Instances] gives small concrete instances of the third-party classes, and
    [Witnesses], [SortitionWitnesses], [BitcoinWitnesses], [MarfWitnesses],
    [SignerWitnesses], [ChainWitnesses] and [SyncWitnesses] run the models on
    concrete data and apply each theorem that has hypotheses at such an input.

    ** How the code is read

    An unsigned integer is a [Z] with its range as a predicate; checked,
    saturating and wrapping arithmetic are the definitions below, [usize] has 64
    bits. A byte buffer is a list of [Byte.byte]. [Result] is [result], and an
    [option] around a whole operation is [None] exactly where the Rust code
    would panic (an [expect], an index out of range, an overflow). A hash map is
    a [gmap]; where the source iterates one, the model takes the order as an
    argument. An instant is an integer argument. Readers are a state and error
    monad over [Reader], writers a state monad over the bytes written. An
    operation that mutates and can fail returns its result beside the state it
    leaves, so that what a failure leaves behind is visible. A lock is left out
    where only a panic could poison it, except in [Relay]. SQLite is the rows of
    its tables, statements that are executed or fail, and transactions that
    commit or leave the tables as they were. An HTTP or RPC client is a function
    of the state of the network, and an [async] call is one step of it.

    ** What the theorems show

    - Wire format: decoding a transaction is sound and canonical
      ([decode_transaction_sound]) and inverse to encoding, up to one size test
      ([decode_transaction_roundtrip]); the scanner of Clarity values is its
      grammar ([read_clarity_value_spec]); the size test refuses transactions
      the encoder makes ([pox_post_conditions_refused]).
    - Authorization: verification is a declarative condition on recovered keys
      ([verify_authorization_spec]); the signed digest commits to everything but
      the sponsor ([origin_digest_binds]); signing gives a transaction that
      verifies and decodes ([sign_standard_verifies]); the transaction root
      binds the transactions of a block of known length ([merkle_root_binds]).
    - Blocks: decoding is sound ([block_decode_sound]) and inverse to encoding
      ([block_roundtrip]); the block identifier binds the header
      ([block_id_binds]); a signer set accepts exactly seven tenths of its
      weight in reward-set order ([signer_set_verify_spec]), and its weights are
      the largest-remainder shares ([reward_slots_spec]).
    - Peers: messages round-trip and their decoder is sound
      ([message_roundtrip], [message_decode_sound], [message_digest_binds]); the
      relay refines its abstract machine ([relay_refines], [relay_once]).
    - Pool: the outcome of a submission on every branch ([submit_spec]), the
      invariant of all reachable pools ([pool_invariant]), the nonce rule
      ([check_nonces_spec]), ageing and paging ([advance_drops_stale],
      [pages_complete]). Its selection stays within a block
      ([candidates_within_block]), does not depend on the map's order
      ([candidates_order_independent]), gives an executable sequence when no
      sponsor is also an origin ([candidates_execute_in_order]), and can offer
      one nonce twice otherwise ([candidates_spend_nonce_twice]).
    - Bitcoin: what a miner builds is decoded and competes
      ([built_commitment_competes]); a source's cache is not observable
      ([source_reads_canonical]) and survives a reorganization in one source
      ([rest_reorg_recovers]) and not in the other ([rpc_reorg_loses_pre_stx]);
      an operation for an address is authenticated by it ([pre_stx_authentic]);
      a deposit's tree fixes its parameters ([deposit_root_binds]).
    - Sortition: the entry of a Bitcoin block ([window_block_spec]), the
      distribution ([distribution_spec]), the winner ([winner_spec],
      [epoch4_winner_spec]); the chain that forgets refines the one that does
      not, in its results ([chain_refines]) and in its answers
      ([chain_answers]), keeps what execution needs ([window_reaches_floor]) and
      follows a reorganization ([fork_recovery]); a consensus hash commits to
      the whole history ([consensus_hash_commits]); the engine never panics
      ([engine_never_panics]), elects what the draw says ([engine_append_spec]),
      undoes an append ([append_retract_roundtrip]), and can be left with too
      short a window ([retractions_drain_window]).
    - MARF: every operation, in any order, returns and leaves what [MarfSpec]
      says ([marf_refines]); a sealed root is the one announced before
      ([seal_returns_pending_root]); an ancestor is found in logarithmically
      many steps ([descent_is_logarithmic]); the tip is the highest state
      ([tip_is_highest]); a cache stays within its bytes and answers what the
      tables hold ([cache_bounded_and_faithful]).
    - Signer: over any run of starts, crashes and proposals, with any clock and
      any failing disk whose state file is found where it is, no two signatures
      of conflicting blocks are released ([signer_never_equivocates]), the
      journal it wrote always opens ([journal_always_reopens]), and it signs a
      block only when the slots whose chunks promise it weigh the threshold
      ([answer_signs_after_promises]).
    - Miner: a block it submits is approved by its signer set
      ([submitted_block_approved]); the first block of a tenure succeeds its
      parent and verifies ([tenure_start_extends_parent]).
    - Chain state: a block accepted alone is what a declarative description says
      ([authenticate_block_spec]); a sealed block satisfies every rule
      ([appended_block_rules]); a block that is refused or only looked at
      changes nothing, and one that seals leaves the ledger its row holds
      ([execution_atomic]); a retraction stands on the ledger the surviving
      block sealed while its row is in the window of 256 that the side store
      keeps ([retraction_restores]); post-conditions hold of the assets a
      transaction moved ([check_postconditions_spec]); a history adopted with a
      checkpoint is a chain whose miners, proofs and signers were checked
      ([history_authenticated]).
    - Following: a block fetched is the one named ([fetched_is_named]); a
      request goes once to each peer that is not set aside ([spread_spec]); the
      tip followed is the greatest of those not refused
      ([canonical_tip_spec]); the history of a follower is a chain within its
      limits ([follower_history]); the branch kept for execution is the one that
      would be selected again ([selection_is_current]), and what is removed with
      a rejected block is what descends from it ([remove_branch_spec]).
    - Memory: the buffer ([buffer_push_spec]), the channel
      ([channel_accounting], with the leak of [close_race_leaks]) and the frame
      budget ([frame_budget_bounds]) stay within their limits.
    - Keys and addresses: a VRF proof verifies ([vrf_prove_verify]), bit vectors
      and output scripts round-trip canonically ([bitvec_wire_canonical],
      [script_pubkey_canonical]), and so does base58 where the version allows it
      ([base58_roundtrip]).

    ** Fuel

    [scan_clarity_value] recurses on a fuel of 33: a value nested deeper than 32
    is an error of the code itself, and [read_clarity_value_spec] proves that
    more fuel changes nothing. [merkle_loop] has the length of its level as
    fuel, which halves in each round. [select] has [MAX_BLOCK_LEN] plus the
    number of entries: every round takes an entry of at least one byte off the
    budget or an entry off the heap ([candidates_within_block]).
    [Vrf.hash_to_curve] takes its fuel as an argument, and so do the operations
    that prove and verify; the code stops at a [u64] counter, and the theorems
    speak of a run that found its point. [all_pages], the client of the pages,
    needs one more than the number of transactions to send ([pages_complete]).
    [SnapshotChain.skip_hashes] has the 64 exponents the code allows. A descent
    in a trie takes at least one byte of its path in each step ([MarfTrie]). The
    walk over the stakers of [SignerElection] takes its fuel from the caller,
    since the code does not stop on a list that returns to a signer; the
    theorems about blocks hold with any. [accumulate] has one round for each
    height between the two tenures, [forget_oldest] one for each tenure kept. An eviction of [ByteCache] has
    one round more than there are entries, each of which takes one
    ([insert_cache_spec]); the parsers of streamed blocks and of pages have the
    bytes of the answer, of which each round takes one at least. [walk_down] has
    as many rounds as there are blocks ([walk_down_spec]), and [descendants] as
    many as there are rows ([descendants_spec]).

    ** What is not modelled

    Formatting, hex and serde implementations, and accessors that return a
    field, are left out. The base58 and c32 codecs of the libraries, the hash
    functions, the curves, JSON and HTTP are parameters. The time a mutex is
    held and the inside of tokio's channel are not modelled beyond the steps of
    [Channel]. Amounts and hashes that a Bitcoin library decodes are taken as
    decoded. The host side of the Clarity runtime ([nano-vm]) is an interface to
    the chain state, apart from its window of ledgers. Left out are the sessions and the peer table of [nano-p2p]
    (asynchronous I/O and a database), the import of checkpoints and bundles of
    [nano-marf] (files of another node), the executor, the archive and the
    other services of [nano-follower], the HTTP service [nano-rpc], the command
    line [nano-node], the cache of compiled modules, tables of constants that
    nothing here reads, and the user interface and test tools. *)

From stdpp Require Export base tactics list numbers option sets.
From stdpp Require Import countable.
From Stdlib Require Export Strings.Byte ZArith Lia ZifyBool.

(** ** Results

    Rust's [Result<A, E>]; the error type comes first so that [result E] is the
    monad of the [?] operator. *)

Inductive result (E A : Type) : Type :=
| Ok (a : A)
| Err (e : E).
Arguments Ok {E A} a.
Arguments Err {E A} e.

Declare Scope rust_scope.
Delimit Scope rust_scope with rust.
Open Scope rust_scope.

Notation "'let?' x ':=' e 'in' k" :=
  (match e with Ok x => k | Err err => Err err end)
  (at level 10, x pattern, e at level 100, k at level 200,
   format "'let?'  x  ':='  e  'in' '//' k") : rust_scope.

(** [Result::map_err] with a constant closure. *)
Definition or_err {E A} (o : option A) (e : E) : result E A :=
  match o with Some a => Ok a | None => Err e end.

Definition is_ok {E A} (r : result E A) : bool :=
  match r with Ok _ => true | Err _ => false end.

#[global] Instance result_eq_dec {E A} `{EqDecision E, EqDecision A} : EqDecision (result E A).
Proof. solve_decision. Defined.

(** ** Machine integers

    An unsigned [w]-bit integer is a [Z] in [0, 2^w); the operations below are
    the ones of the Rust integer types the source uses. *)

Open Scope Z_scope.

Definition U8_MAX : Z := 255.
Definition U16_MAX : Z := 65535.
Definition U32_MAX : Z := 4294967295.
Definition U64_MAX : Z := 18446744073709551615.
Definition U128_MAX : Z := 340282366920938463463374607431768211455.
(** [usize] on the 64-bit targets the node is built for. *)
Definition USIZE_MAX : Z := U64_MAX.

Definition is_u8 (z : Z) : Prop := 0 <= z <= U8_MAX.
Definition is_u16 (z : Z) : Prop := 0 <= z <= U16_MAX.
Definition is_u32 (z : Z) : Prop := 0 <= z <= U32_MAX.
Definition is_u64 (z : Z) : Prop := 0 <= z <= U64_MAX.
Definition is_usize (z : Z) : Prop := 0 <= z <= USIZE_MAX.

Definition checked_add (max a b : Z) : option Z :=
  if a + b <=? max then Some (a + b) else None.
Definition checked_sub (a b : Z) : option Z :=
  if b <=? a then Some (a - b) else None.
Definition saturating_add (max a b : Z) : Z := Z.min max (a + b).
Definition saturating_sub (a b : Z) : Z := Z.max 0 (a - b).
Definition wrapping_add (max a b : Z) : Z := (a + b) mod (max + 1).
(** [T::try_from(value)] for an unsigned [T] of maximum [max]. *)
Definition try_from (max a : Z) : option Z := if a <=? max then Some a else None.

Abbreviation len l := (Z.of_nat (length l)).

Lemma saturating_sub_le a b c : 0 <= a -> a <= saturating_sub b c <-> a <= b - c \/ a = 0.
Proof. unfold saturating_sub. lia. Qed.

Lemma checked_add_Some max a b c : checked_add max a b = Some c <-> c = a + b /\ a + b <= max.
Proof. unfold checked_add. destruct (Z.leb_spec (a + b) max); split; [intros [= <-]; lia|intros [-> _]; done|done|lia]. Qed.

Lemma try_from_Some max a c : try_from max a = Some c <-> c = a /\ a <= max.
Proof. unfold try_from. destruct (Z.leb_spec a max); split; [intros [= <-]; lia|intros [-> _]; done|done|lia]. Qed.

(** ** Bytes

    A [u8] buffer is a list of [Byte.byte], so every element is in range by
    construction; [u8] reads a byte as an integer. *)

Abbreviation byte := Byte.byte.

#[global] Instance byte_eq_dec : EqDecision byte := Byte.byte_eq_dec.

Definition u8 (b : byte) : Z := Z.of_N (Byte.to_N b).
(** The byte of an integer, [z as u8]. *)
Definition byte_of (z : Z) : byte :=
  match Byte.of_N (Z.to_N (z mod 256)) with Some b => b | None => x00 end.

(** Byte literals in decimal or hexadecimal, as the source writes them. *)
Definition byte_of_num (n : Number.uint) : option byte := Byte.of_N (N.of_num_uint n).
Definition num_of_byte (b : byte) : Number.uint := N.to_num_uint (Byte.to_N b).
Declare Scope u8_scope.
Delimit Scope u8_scope with u8.
Number Notation byte byte_of_num num_of_byte : u8_scope.
Bind Scope u8_scope with byte.

Lemma u8_range b : 0 <= u8 b <= 255.
Proof. unfold u8. pose proof (Byte.to_N_bounded b). lia. Qed.

Lemma u8_byte_of z : u8 (byte_of z) = z mod 256.
Proof.
  unfold u8, byte_of. pose proof (Z.mod_pos_bound z 256 ltac:(lia)) as Hz.
  destruct (Byte.of_N (Z.to_N (z mod 256))) as [b|] eqn:E.
  - apply Byte.to_of_N in E. rewrite E. lia.
  - apply Byte.of_N_None_iff in E. lia.
Qed.

Lemma byte_of_u8 b : byte_of (u8 b) = b.
Proof.
  unfold byte_of, u8. pose proof (Byte.to_N_bounded b).
  rewrite Z.mod_small by lia. by rewrite N2Z.id, Byte.of_to_N.
Qed.

#[global] Instance byte_countable : Countable byte := inj_countable' u8 byte_of byte_of_u8.

Lemma u8_inj a b : u8 a = u8 b -> a = b.
Proof. intros H. by rewrite <- (byte_of_u8 a), H, byte_of_u8. Qed.

(** ** Big-endian integers: [to_be_bytes] and [from_be_bytes]. *)

Definition from_be_bytes (l : list byte) : Z := fold_left (fun acc b => acc * 256 + u8 b) l 0.

Fixpoint to_be_bytes (n : nat) (z : Z) : list byte :=
  match n with
  | O => []
  | S n' => to_be_bytes n' (z / 256) ++ [byte_of z]
  end.

Lemma length_to_be_bytes n z : length (to_be_bytes n z) = n.
Proof. revert z. induction n as [|n IH]; intros z; simpl; [done|]. rewrite length_app, IH. simpl. lia. Qed.

Lemma from_be_bytes_snoc l b : from_be_bytes (l ++ [b]) = from_be_bytes l * 256 + u8 b.
Proof. unfold from_be_bytes. by rewrite fold_left_app. Qed.

Lemma from_be_bytes_range l : 0 <= from_be_bytes l < 256 ^ len l.
Proof.
  induction l as [|b l IH] using rev_ind; [vm_compute; split; [discriminate|done]|].
  rewrite from_be_bytes_snoc, length_app, Nat2Z.inj_add. simpl.
  rewrite Z.pow_add_r by lia. change (256 ^ 1) with 256. pose proof (u8_range b). lia.
Qed.

Lemma from_to_be_bytes n z : 0 <= z < 256 ^ Z.of_nat n -> from_be_bytes (to_be_bytes n z) = z.
Proof.
  revert z. induction n as [|n IH]; intros z Hz.
  - simpl in *. unfold from_be_bytes. simpl. lia.
  - cbn [to_be_bytes]. rewrite from_be_bytes_snoc, u8_byte_of, IH.
    + pose proof (Z.div_mod z 256 ltac:(lia)). lia.
    + rewrite Nat2Z.inj_succ, Z.pow_succ_r in Hz by lia.
      split; [apply Z.div_pos; lia | apply Z.div_lt_upper_bound; lia].
Qed.

Lemma to_from_be_bytes l : to_be_bytes (length l) (from_be_bytes l) = l.
Proof.
  induction l as [|b l IH] using rev_ind; [done|].
  rewrite length_app, Nat.add_comm. cbn [Nat.add length to_be_bytes].
  rewrite from_be_bytes_snoc. pose proof (u8_range b).
  replace ((from_be_bytes l * 256 + u8 b) / 256) with (from_be_bytes l)
    by (rewrite Z.div_add_l, Z.div_small by lia; lia).
  rewrite IH. f_equal. f_equal. apply u8_inj. rewrite u8_byte_of.
  rewrite Z.add_comm, Z_mod_plus_full, Z.mod_small by lia. done.
Qed.

Lemma to_from_be_bytes_length n l : length l = n -> to_be_bytes n (from_be_bytes l) = l.
Proof. intros <-. apply to_from_be_bytes. Qed.

Lemma to_be_bytes_inj n x y : 0 <= x < 256 ^ Z.of_nat n -> 0 <= y < 256 ^ Z.of_nat n ->
  to_be_bytes n x = to_be_bytes n y -> x = y.
Proof. intros Hx Hy H. by rewrite <- (from_to_be_bytes n x Hx), H, from_to_be_bytes. Qed.

Lemma u64_bytes_inj x y : is_u64 x -> is_u64 y -> to_be_bytes 8 x = to_be_bytes 8 y -> x = y.
Proof. intros Hx Hy. apply to_be_bytes_inj; change (256 ^ Z.of_nat 8) with (U64_MAX + 1); unfold is_u64 in *; lia. Qed.

(** ** Automation

    [words] unfolds the machine integers and [word_lia] closes what is then
    linear arithmetic; [lengths] computes the length of a concatenation and
    [length_lia] closes an equation or bound on lengths. *)

Create HintDb words.
#[export] Hint Unfold saturating_add saturating_sub is_u8 is_u16 is_u32 is_u64 is_usize
  USIZE_MAX U8_MAX U16_MAX U32_MAX U64_MAX U128_MAX : words.
Ltac word_lia := repeat autounfold with words in *; cbn in *; lia.

Create Rewrite HintDb lengths.
#[export] Hint Rewrite @length_app @length_replicate length_to_be_bytes : lengths.
Ltac length_lia := autorewrite with lengths in *; simpl in *; lia.

Create HintDb bytes.
#[export] Hint Resolve u8_range u8_inj from_be_bytes_range byte_of_u8 : bytes.

Arguments to_be_bytes : simpl never.
Arguments from_be_bytes : simpl never.
Arguments u8 : simpl never.
Arguments byte_of : simpl never.

(** ** The order on byte arrays

    [Ord] on [[u8; N]] is lexicographic. *)

Fixpoint compare_bytes (a b : list byte) : comparison :=
  match a, b with
  | [], [] => Eq
  | [], _ => Lt
  | _, [] => Gt
  | x :: a, y :: b => match u8 x ?= u8 y with Eq => compare_bytes a b | c => c end
  end.

Definition bytes_le (a b : list byte) : Prop := compare_bytes a b <> Gt.
#[global] Instance bytes_le_dec a b : Decision (bytes_le a b).
Proof. unfold bytes_le. destruct (compare_bytes a b); [left|left|right]; congruence. Defined.

Lemma compare_bytes_antisym a b : compare_bytes b a = CompOpp (compare_bytes a b).
Proof.
  revert b. induction a as [|x a IH]; intros [|y b]; cbn; [done..|].
  rewrite (Z.compare_antisym (u8 x) (u8 y)). destruct (u8 x ?= u8 y); cbn; [apply IH|done..].
Qed.

Lemma compare_bytes_eq a b : compare_bytes a b = Eq <-> a = b.
Proof.
  split; [|intros <-; induction a as [|x a IH]; [done|]; cbn; by rewrite Z.compare_refl].
  revert b. induction a as [|x a IH]; intros [|y b]; cbn; try done.
  destruct (Z.compare_spec (u8 x) (u8 y)) as [Hx|Hx|Hx]; try done. intros ->%IH. by apply u8_inj in Hx as ->.
Qed.

Lemma compare_bytes_lt_trans a b c : compare_bytes a b = Lt -> compare_bytes b c = Lt -> compare_bytes a c = Lt.
Proof.
  revert b c. induction a as [|x a IH]; intros [|y b] [|z c]; cbn; try done.
  destruct (Z.compare_spec (u8 x) (u8 y)), (Z.compare_spec (u8 y) (u8 z)), (Z.compare_spec (u8 x) (u8 z));
    try done; try lia. apply IH.
Qed.

Lemma bytes_le_lt_eq a b : bytes_le a b <-> compare_bytes a b = Lt \/ a = b.
Proof. unfold bytes_le. rewrite <- compare_bytes_eq. destruct (compare_bytes a b); split; auto; by intros []. Qed.

#[export] Instance bytes_le_total : Total bytes_le.
Proof. intros a b. unfold bytes_le. rewrite (compare_bytes_antisym a b). destruct (compare_bytes a b); [left|left|right]; done. Qed.

#[export] Instance bytes_le_trans : Transitive bytes_le.
Proof.
  intros a b c. rewrite !bytes_le_lt_eq. intros [H1|<-] [H2|<-]; auto. left. by eapply compare_bytes_lt_trans.
Qed.

#[export] Instance bytes_le_anti : AntiSymm (=) bytes_le.
Proof.
  intros a b. rewrite !bytes_le_lt_eq. intros [H1|?] [H2|?]; try done.
  rewrite compare_bytes_antisym, H1 in H2. done.
Qed.

(** ** Iterators *)

(** [u128::div_ceil] and [u64::div_ceil]. *)
Definition div_ceil (a b : Z) : Z := (a + b - 1) / b.

(** [iter().try_fold(0, |total, weight| total.checked_add(weight).ok_or(error))]. *)
Fixpoint checked_sum {E} (max : Z) (error : E) (total : Z) (l : list Z) : result E Z :=
  match l with
  | [] => Ok total
  | x :: l => let? total := or_err (checked_add max total x) error in checked_sum max error total l
  end.

(** [iter().map(f).collect::<Result<Vec<_>, _>>()]. *)
Fixpoint collect {E A B} (f : A -> result E B) (l : list A) : result E (list B) :=
  match l with
  | [] => Ok []
  | x :: l => let? y := f x in let? ys := collect f l in Ok (y :: ys)
  end.

(** The sum of a list. *)
Fixpoint zsum (l : list Z) : Z := match l with [] => 0 | x :: l => x + zsum l end.

Lemma zsum_app l1 l2 : zsum (l1 ++ l2) = zsum l1 + zsum l2.
Proof. induction l1 as [|x l1 IH]; cbn in *; lia. Qed.

Lemma zsum_perm l1 l2 : l1 ≡ₚ l2 -> zsum l1 = zsum l2.
Proof. induction 1; cbn in *; lia. Qed.

Lemma zsum_nonneg l : Forall (fun x => 0 <= x) l -> 0 <= zsum l.
Proof. induction 1; cbn in *; lia. Qed.

Lemma checked_sum_ok {E} max (e : E) total l n : Forall (fun x => 0 <= x) l -> total <= max ->
  checked_sum max e total l = Ok n <-> n = total + zsum l /\ n <= max.
Proof.
  intros HF. revert total. induction HF as [|x l Hx HF IH]; intros total Hmax; cbn [checked_sum zsum].
  - split; [intros [= <-]; lia|intros [-> _]; f_equal; lia].
  - pose proof (zsum_nonneg l HF) as Hs. unfold checked_add.
    destruct (Z.leb_spec (total + x) max); cbn [or_err]; [rewrite IH by lia; lia|]. split; [done|lia].
Qed.

Lemma checked_sum_err {E} max (e e' : E) total l : checked_sum max e total l = Err e' -> e' = e.
Proof.
  revert total. induction l as [|x l IH]; intros total; cbn [checked_sum]; [done|].
  destruct (checked_add _ _ _); cbn [or_err]; [apply IH|by intros [= <-]].
Qed.

Lemma collect_ok {E A B} (f : A -> result E B) l ys : collect f l = Ok ys -> Forall2 (fun x y => f x = Ok y) l ys.
Proof.
  revert ys. induction l as [|x l IH]; intros ys; cbn [collect]; [by intros [= <-]|].
  destruct (f x) as [y|] eqn:Hx; [|done]. destruct (collect f l) as [l'|]; [|done]. intros [= <-]. constructor; auto.
Qed.

(** ** Slices *)

(** [slice.get(start..stop)]. *)
Definition get_range {A} (l : list A) (start stop : Z) : option (list A) :=
  if (0 <=? start) && (start <=? stop) && (stop <=? len l)
  then Some (take (Z.to_nat (stop - start)) (drop (Z.to_nat start) l))
  else None.

Lemma get_range_Some {A} (l : list A) start stop s :
  get_range l start stop = Some s <->
  exists pre post, l = pre ++ s ++ post /\ start = len pre /\ stop = start + len s.
Proof.
  unfold get_range. split.
  - destruct (_ && _) eqn:E; [|done]. intros [= <-].
    exists (take (Z.to_nat start) l), (drop (Z.to_nat stop) l).
    rewrite <- (take_drop (Z.to_nat start) l) at 1.
    rewrite <- (take_drop (Z.to_nat (stop - start)) (drop (Z.to_nat start) l)) at 1.
    rewrite drop_drop, !length_take, length_drop.
    replace (Z.to_nat start + Z.to_nat (stop - start))%nat with (Z.to_nat stop) by lia.
    repeat split; lia.
  - intros (pre & post & -> & -> & ->). rewrite !length_app.
    destruct (_ && _) eqn:E; [f_equal|exfalso; lia].
    rewrite Nat2Z.id, drop_app_length.
    replace (Z.to_nat _) with (length s) by lia. apply take_app_length.
Qed.

(** [slice[i]]: [None] is the out-of-bounds panic. *)
Definition index {A} (l : list A) (i : Z) : option A :=
  if 0 <=? i then l !! Z.to_nat i else None.

(** [slice[i] = x]: [None] is the out-of-bounds panic. *)
Definition index_set {A} (l : list A) (i : Z) (x : A) : option (list A) :=
  if (0 <=? i) && (i <? len l) then Some (<[Z.to_nat i := x]> l) else None.

Lemma index_Some_lt {A} (l : list A) i : 0 <= i < len l -> exists x, index l i = Some x.
Proof.
  intros Hi. unfold index. rewrite (proj2 (Z.leb_le _ _)) by lia.
  apply lookup_lt_is_Some_2. lia.
Qed.

Lemma index_set_Some {A} (l l' : list A) i x :
  index_set l i x = Some l' <-> 0 <= i < len l /\ l' = <[Z.to_nat i := x]> l.
Proof.
  unfold index_set. destruct (_ && _) eqn:E; split; [intros [= <-]; split; [lia|done]|..];
    [by intros [_ ->]|done|lia].
Qed.

Lemma index_set_same {A} (l l' : list A) i x :
  index_set l i x = Some l' -> index l' i = Some x.
Proof.
  intros [Hi ->]%index_set_Some. unfold index. rewrite (proj2 (Z.leb_le _ _)) by lia.
  apply list_lookup_insert_eq. lia.
Qed.

Lemma index_set_other {A} (l l' : list A) i j x :
  index_set l i x = Some l' -> i <> j -> index l' j = index l j.
Proof.
  intros [Hi ->]%index_set_Some Hij. unfold index. destruct (0 <=? j) eqn:Hj; [|done].
  apply list_lookup_insert_ne. lia.
Qed.

Lemma index_set_length {A} (l l' : list A) i x : index_set l i x = Some l' -> length l' = length l.
Proof. intros [_ ->]%index_set_Some. apply length_insert. Qed.

Lemma mapM_snoc {A B} (f : A -> option B) l x :
  mapM f (l ++ [x]) = match mapM f l, f x with Some a, Some b => Some (a ++ [b]) | _, _ => None end.
Proof.
  induction l as [|y l IH]; cbn [app mapM]; [by destruct (f x)|].
  destruct (f y); cbn [mbind option_bind]; [|by destruct (mapM f l), (f x)].
  rewrite IH. destruct (mapM f l), (f x); done.
Qed.

(** ** Case analysis

    [destruct_match H] splits on the scrutinee of the outermost match in [H] and
    drops the impossible branch; [simpl_result] closes the equations left. *)

Ltac destruct_match H :=
  match type of H with
  | context [match ?x with _ => _ end] =>
      lazymatch x with
      | context [match _ with _ => _ end] => fail
      | _ => destruct x eqn:?; try discriminate H
      end
  end.

Ltac simpl_result := repeat match goal with
  | H : Ok _ = Ok _ |- _ => injection H as H; subst
  | H : Err _ = Err _ |- _ => injection H as H; subst
  | H : Some _ = Some _ |- _ => injection H as H; subst
  | H : (_, _) = (_, _) |- _ => injection H as H; subst
  | H : Ok _ = Err _ |- _ => discriminate H
  | H : Err _ = Ok _ |- _ => discriminate H
  end.
