(* ===== verification/Primitives.v ===== *)
(** * Primitives: [crates/nano-primitives/src/lib.rs]

    The fixed-size hash newtypes are byte lists whose length is an invariant
    ([is_hash n]); [Network] and the bit vector [BitVec] are modelled in full. *)

From S2P Require Import Prelude.

(** ** Hash types *)

(** The [hash_type!] newtypes ([TrieHash], [StacksBlockId], [Hash160], ...): an
    array [[u8; n]]. *)
Definition is_hash (n : nat) (bytes : list byte) : Prop := length bytes = n.
Definition zero_hash (n : nat) : list byte := replicate n 0%u8.

Abbreviation Hash160 := (list byte) (only parsing).
Abbreviation Sha256Sum := (list byte) (only parsing).
Abbreviation ConsensusHash := (list byte) (only parsing).
Abbreviation StacksBlockId := (list byte) (only parsing).

(** ** Network *)

Module Network.

Record t : Type := mk { mainnet : bool; chain_id : Z }.

Definition MAINNET : t := mk true 0x00000001.
Definition TESTNET : t := mk false 0x80000000.

Definition testnet_with_chain_id (id : Z) : t := mk false id.

Definition from_chain_id (id : Z) : t := mk (id =? chain_id MAINNET) id.

Definition is_mainnet (n : t) : bool := mainnet n.

End Network.

(** ** Bit vectors *)

Module BitVec.

Inductive BitVecError : Type :=
| Empty
| TooLong (length max : Z)
| OutOfBounds (i length : Z)
| Truncated
| InvalidWireLength.

Record t : Type := mk { data : list byte; bits : Z }.

Section Ops.
Context (MAX_SIZE : Z).

Definition data_len (length : Z) : Z := (length + 7) / 8.

(** [set]: the outer [None] is an index panic. *)
Definition set (v : t) (i : Z) (value : bool) : option (result BitVecError t) :=
  if bits v <=? i then Some (Err (OutOfBounds i (bits v)))
  else
    b ← index (data v) (i / 8);
    let mask := Z.shiftl 1 (i mod 8) in
    let b' := if value then Z.lor (u8 b) mask else Z.land (u8 b) (Z.lxor 255 mask) in
    d ← index_set (data v) (i / 8) (byte_of b');
    Some (Ok (mk d (bits v))).

Definition get (v : t) (i : Z) : option (option bool) :=
  if i <? bits v then
    b ← index (data v) (i / 8);
    Some (Some (negb (Z.land (u8 b) (Z.shiftl 1 (i mod 8)) =? 0)))
  else Some None.

(** The loop [for index in i..len { result.set(index, true)?; }]. *)
Fixpoint set_from (n : nat) (i : Z) (v : t) : option (result BitVecError t) :=
  match n with
  | O => Some (Ok v)
  | S n' =>
      r ← set v i true;
      match r with
      | Ok v' => set_from n' (i + 1) v'
      | Err e => Some (Err e)
      end
  end.

Definition new (length : Z) (value : bool) : option (result BitVecError t) :=
  if length =? 0 then Some (Err Empty)
  else if MAX_SIZE <? length then Some (Err (TooLong length MAX_SIZE))
  else
    let v := mk (replicate (Z.to_nat (data_len length)) 0%u8) length in
    if value then set_from (Z.to_nat length) 0 v else Some (Ok v).

Definition zeros (length : Z) := new length false.
Definition ones (length : Z) := new length true.

Definition wire_bytes (v : t) : option (list byte) :=
  n ← try_from U32_MAX (len (data v));
  Some (to_be_bytes 2 (bits v) ++ to_be_bytes 4 n ++ data v).

Definition from_wire_bytes (b : list byte) : option (result BitVecError t) :=
  match get_range b 0 6 with
  | None => Some (Err Truncated)
  | Some header =>
      let length := from_be_bytes (take 2 header) in
      let declared_length := from_be_bytes (drop 2 header) in
      let d := drop 6 b in
      if negb (declared_length =? len d) then Some (Err InvalidWireLength)
      else if negb (len d =? data_len length) then Some (Err InvalidWireLength)
      else
        r ← zeros length;
        match r with
        | Err e => Some (Err e)
        | Ok v => Some (Ok (mk d (bits v)))
        end
  end.

(** [iter]: the bits in order; [None] is a panic. *)
Definition iter (v : t) : option (list bool) :=
  mapM (fun i => r ← get v (Z.of_nat i); r) (seq 0 (Z.to_nat (bits v))).

(** *** The representation invariant *)

Definition wf (v : t) : Prop :=
  0 < bits v <= MAX_SIZE /\ len (data v) = data_len (bits v).

Lemma data_len_index n i : 0 <= i < n -> 0 <= i / 8 < data_len n.
Proof. unfold data_len. intros. split; [apply Z.div_pos; lia|]. apply Z.div_lt_upper_bound; [lia|]. pose proof (Z.div_mod (n + 7) 8). pose proof (Z.mod_pos_bound (n+7) 8). lia. Qed.

Lemma wf_index v i : wf v -> 0 <= i < bits v -> exists b, index (data v) (i / 8) = Some b.
Proof. intros [? E] Hi. apply index_Some_lt. rewrite E. by apply data_len_index. Qed.

Lemma testbit_land b k : 0 <= k -> negb (Z.land b (Z.shiftl 1 k) =? 0) = Z.testbit b k.
Proof.
  intros Hk. rewrite Z.shiftl_1_l. destruct (Z.testbit b k) eqn:E.
  - apply negb_true_iff, Z.eqb_neq. intros H0.
    apply (f_equal (fun z => Z.testbit z k)) in H0.
    rewrite Z.land_spec, E, Z.pow2_bits_true, Z.testbit_0_l in H0 by lia. done.
  - apply negb_false_iff, Z.eqb_eq. apply Z.bits_inj'. intros m Hm.
    rewrite Z.land_spec, Z.testbit_0_l. destruct (Z.eq_dec m k) as [->|Hne]; [by rewrite E|].
    rewrite Z.pow2_bits_false by lia. by rewrite andb_false_r.
Qed.

Lemma byte_masked_bit b k j (value : bool) : 0 <= k < 8 -> 0 <= j < 8 ->
  Z.testbit (u8 (byte_of (if value then Z.lor (u8 b) (Z.shiftl 1 k)
                          else Z.land (u8 b) (Z.lxor 255 (Z.shiftl 1 k))))) j
  = if Z.eq_dec k j then value else Z.testbit (u8 b) j.
Proof.
  intros Hk Hj. rewrite u8_byte_of. change 256 with (2 ^ 8).
  rewrite Z.mod_pow2_bits_low by lia. rewrite Z.shiftl_1_l.
  assert (Hff : Z.testbit 255 j = true).
  { change 255 with (Z.ones 8). apply Z.ones_spec_low. lia. }
  destruct value.
  - rewrite Z.lor_spec, Z.pow2_bits_eqb by lia.
    destruct (Z.eq_dec k j) as [->|]; [by rewrite Z.eqb_refl, orb_true_r|].
    rewrite (proj2 (Z.eqb_neq k j)) by lia. apply orb_false_r.
  - rewrite Z.land_spec, Z.lxor_spec, Z.pow2_bits_eqb, Hff by lia.
    destruct (Z.eq_dec k j) as [->|]; [by rewrite Z.eqb_refl, andb_false_r|].
    rewrite (proj2 (Z.eqb_neq k j)) by lia. apply andb_true_r.
Qed.

Lemma get_spec v i : wf v -> 0 <= i < bits v ->
  exists b, index (data v) (i / 8) = Some b /\ get v i = Some (Some (Z.testbit (u8 b) (i mod 8))).
Proof.
  intros Hwf Hi. destruct (wf_index v i Hwf Hi) as [b Hb]. exists b. split; [done|].
  unfold get. rewrite (proj2 (Z.ltb_lt _ _)), Hb by lia. simpl.
  rewrite testbit_land; [done|]. apply Z.mod_pos_bound; lia.
Qed.

(** [set] succeeds on every index below the length, keeps the invariant, and
    changes the bit it names and no other. *)
Lemma set_spec v i value : wf v -> 0 <= i < bits v ->
  exists v', set v i value = Some (Ok v') /\ wf v' /\ bits v' = bits v /\
    get v' i = Some (Some value) /\
    forall j, 0 <= j < bits v -> j <> i -> get v' j = get v j.
Proof.
  intros Hwf Hi. destruct (wf_index v i Hwf Hi) as [b Hb].
  pose proof (data_len_index (bits v) i Hi) as Hr. pose proof Hwf as [Hb0 Hlen].
  set (k := i mod 8). assert (Hk : 0 <= k < 8) by (apply Z.mod_pos_bound; lia).
  set (nb := byte_of (if value then Z.lor (u8 b) (Z.shiftl 1 k)
                      else Z.land (u8 b) (Z.lxor 255 (Z.shiftl 1 k)))).
  destruct (index_set (data v) (i / 8) nb) as [d|] eqn:Hd.
  2:{ unfold index_set in Hd. destruct (_ && _) eqn:E; [done|]. exfalso. lia. }
  assert (Hwf' : wf (mk d (bits v))).
  { split; [done|]. simpl. by rewrite (index_set_length _ _ _ _ Hd). }
  exists (mk d (bits v)). split; [|split; [done|split; [done|split]]].
  - unfold set. rewrite (proj2 (Z.leb_gt _ _)), Hb by lia. cbn [mbind option_bind]. change (byte_of _) with nb. by rewrite Hd.
  - destruct (get_spec _ i Hwf' Hi) as (b' & Hb' & ->). simpl in Hb'.
    rewrite (index_set_same _ _ _ _ Hd) in Hb'. injection Hb' as <-. fold k. unfold nb.
    rewrite byte_masked_bit by done. by destruct (Z.eq_dec k k).
  - intros j Hj Hne. destruct (get_spec _ j Hwf' Hj) as (b' & Hb' & ->). simpl in Hb'.
    destruct (get_spec v j (conj Hb0 Hlen) Hj) as (b0 & Hb0' & ->).
    assert (Hm : 0 <= j mod 8 < 8) by (apply Z.mod_pos_bound; lia).
    destruct (Z.eq_dec (i / 8) (j / 8)) as [Heq|Hneq].
    + rewrite <- Heq in *. rewrite (index_set_same _ _ _ _ Hd) in Hb'. injection Hb' as <-.
      rewrite Hb in Hb0'. injection Hb0' as <-. unfold nb. rewrite byte_masked_bit by done.
      destruct (Z.eq_dec k (j mod 8)) as [Hmod|]; [|done].
      exfalso. apply Hne. rewrite (Z.div_mod i 8), (Z.div_mod j 8) by lia. fold k. lia.
    + rewrite (index_set_other _ _ _ _ _ Hd Hneq) in Hb'. by simplify_eq.
Qed.
Lemma set_from_spec n i v : wf v -> 0 <= i -> i + Z.of_nat n = bits v ->
  exists v', set_from n i v = Some (Ok v') /\ wf v' /\ bits v' = bits v /\
    forall j, 0 <= j < bits v -> get v' j = if i <=? j then Some (Some true) else get v j.
Proof.
  revert i v. induction n as [|n IH]; intros i v Hwf Hi Hn.
  - exists v. do 3 (split; [done|]). intros j Hj. by rewrite (proj2 (Z.leb_gt _ _)) by lia.
  - destruct (set_spec v i true Hwf ltac:(lia)) as (v1 & Hs & Hwf1 & Hb1 & Hg1 & Ho1).
    destruct (IH (i + 1) v1 Hwf1 ltac:(lia) ltac:(lia)) as (v' & Hs' & Hwf' & Hb' & Hg').
    exists v'. split; [|split; [done|split; [congruence|]]].
    + cbn [set_from]. by rewrite Hs.
    + intros j Hj. rewrite Hg' by lia. destruct (Z.leb_spec (i + 1) j).
      * by rewrite (proj2 (Z.leb_le _ _)) by lia.
      * destruct (Z.leb_spec i j); [by replace j with i by lia|]. apply Ho1; lia.
Qed.

Lemma data_len_nonneg n : 0 <= n -> 0 <= data_len n.
Proof. intros. apply Z.div_pos; lia. Qed.

Lemma new_zeros_wf n : 0 < n <= MAX_SIZE -> wf (mk (replicate (Z.to_nat (data_len n)) 0%u8) n).
Proof.
  intros Hn. split; [done|]. simpl. rewrite length_replicate.
  pose proof (data_len_nonneg n). lia.
Qed.

Lemma replicate_zero_bit n i : 0 < n <= MAX_SIZE -> 0 <= i < n ->
  get (mk (replicate (Z.to_nat (data_len n)) 0%u8) n) i = Some (Some false).
Proof.
  intros Hn Hi. destruct (get_spec _ i (new_zeros_wf n Hn) Hi) as (b & Hb & ->).
  simpl in Hb. unfold index in Hb. destruct (0 <=? _); [|done].
  apply lookup_replicate in Hb as [-> _]. by rewrite Z.testbit_0_l.
Qed.

Lemma wf_data_u32 v : wf v -> MAX_SIZE <= U16_MAX -> try_from U32_MAX (len (data v)) = Some (len (data v)).
Proof.
  intros [Hb Hl] HM. apply try_from_Some. split; [done|]. rewrite Hl. unfold data_len, U32_MAX, U16_MAX in *.
  apply Z.lt_le_incl, Z.div_lt_upper_bound; lia.
Qed.

End Ops.
End BitVec.

(** ** Properties *)

Section BitVecProperties.
Import BitVec.
Context (MAX_SIZE : Z).

(** BitVec::new never panics; it refuses exactly the empty and the over-long
    lengths, and otherwise every bit of the result has the requested value. *)
Theorem bitvec_new_spec (HM : 0 <= MAX_SIZE <= U16_MAX) (n : Z) (Hn : is_u16 n) (value : bool) :
  match new MAX_SIZE n value with
  | Some (Ok v) =>
      0 < n <= MAX_SIZE /\ wf MAX_SIZE v /\ bits v = n /\
      forall i, 0 <= i < n -> get v i = Some (Some value)
  | Some (Err e) => (n = 0 /\ e = Empty) \/ (MAX_SIZE < n /\ e = TooLong n MAX_SIZE)
  | None => False
  end.
Proof.
  unfold new, is_u16 in *. destruct (Z.eqb_spec n 0); [auto|].
  destruct (Z.ltb_spec MAX_SIZE n); [right; auto|].
  pose proof (new_zeros_wf MAX_SIZE n ltac:(lia)) as Hz.
  destruct value.
  - destruct (set_from_spec MAX_SIZE (Z.to_nat n) 0 _ Hz) as (v' & -> & Hwf & Hb & Hg);
      [lia|simpl; lia|]. repeat split; try lia; try done; try apply Hwf.
    intros i Hi. rewrite Hg by (simpl; lia). by rewrite (proj2 (Z.leb_le _ _)) by lia.
  - repeat split; try lia; try apply Hz. intros i Hi. by apply (replicate_zero_bit MAX_SIZE); lia.
Qed.

Lemma wire_bytes_eq v : wf MAX_SIZE v -> MAX_SIZE <= U16_MAX ->
  wire_bytes v = Some (to_be_bytes 2 (bits v) ++ to_be_bytes 4 (len (data v)) ++ data v).
Proof. intros Hv HM. unfold wire_bytes. by rewrite (wf_data_u32 MAX_SIZE v Hv HM). Qed.

(** A well-formed bit vector serializes to its six-byte header and its data, and
    parses back. *)
Lemma wire_bytes_parse (HM : 0 <= MAX_SIZE <= U16_MAX) (v : t) (Hv : wf MAX_SIZE v) :
  exists w, wire_bytes v = Some w /\ len w = 6 + len (data v) /\
    from_wire_bytes MAX_SIZE w = Some (Ok v).
Proof.
  unfold wire_bytes. rewrite (wf_data_u32 MAX_SIZE) by (done || lia). cbn [mbind option_bind].
  eexists. split; [done|]. split.
  { length_lia. }
  pose proof Hv as [Hb Hl]. unfold from_wire_bytes.
  set (hd := to_be_bytes 2 (bits v) ++ to_be_bytes 4 (len (data v))).
  assert (Hhd : length hd = 6%nat) by (unfold hd; length_lia).
  rewrite app_assoc. fold hd.
  rewrite (proj2 (get_range_Some (hd ++ data v) 0 6 hd)) by (exists [], (data v); simpl; lia || (repeat split; simpl; rewrite ?Hhd; done)).
  rewrite (drop_app_length' hd) by lia. 
  assert (take 2 hd = to_be_bytes 2 (bits v)) as ->.
  { unfold hd. by rewrite take_app_length' by length_lia. }
  assert (drop 2 hd = to_be_bytes 4 (len (data v))) as ->.
  { unfold hd. by rewrite drop_app_length' by length_lia. }
  apply (wf_data_u32 MAX_SIZE) in Hv as Hd; [|lia]. apply try_from_Some in Hd as [_ Hd].
  unfold U16_MAX, U32_MAX in *.
  rewrite !from_to_be_bytes by (simpl; lia). rewrite Z.eqb_refl, Hl, Z.eqb_refl. simpl.
  unfold zeros, new. rewrite (proj2 (Z.eqb_neq _ _)), (proj2 (Z.ltb_ge _ _)) by lia.
  simpl. by destruct v.
Qed.

(** Parsing does not panic, and what it accepts serializes to the input. *)
Lemma from_wire_bytes_sound (HM : 0 <= MAX_SIZE <= U16_MAX) (b : list byte) :
  exists r, from_wire_bytes MAX_SIZE b = Some r /\
    forall v, r = Ok v -> wf MAX_SIZE v /\ wire_bytes v = Some b.
Proof.
  unfold from_wire_bytes. destruct (get_range b 0 6) as [hd|] eqn:Hg; [|eauto; by eexists].
  apply get_range_Some in Hg as (pre & post & -> & Hpre & Hhd).
  destruct pre; [|simpl in Hpre; lia]. simpl in *. clear Hpre.
  assert (Hlen : length hd = 6%nat) by lia.
  rewrite drop_app_length' by done.
  destruct (Z.eqb_spec (from_be_bytes (drop 2 hd)) (len post)) as [Hdecl|]; simpl; [|by eexists].
  destruct (Z.eqb_spec (len post) (data_len (from_be_bytes (take 2 hd)))) as [Hdl|]; simpl; [|by eexists].
  unfold zeros, new.
  destruct (Z.eqb_spec (from_be_bytes (take 2 hd)) 0); simpl; [by eexists|].
  destruct (Z.ltb_spec MAX_SIZE (from_be_bytes (take 2 hd))); simpl; [by eexists|].
  eexists. split; [done|]. intros v [= <-]. 
  pose proof (from_be_bytes_range (take 2 hd)) as Hr.
  split; [split; simpl; [lia|done]|].
  unfold wire_bytes. cbn [data bits]. pose proof (from_be_bytes_range (drop 2 hd)) as Hr'.
  rewrite length_drop, Hlen in Hr'. simpl in Hr'. rewrite Hdecl in Hr'.
  rewrite (proj2 (try_from_Some U32_MAX (len post) (len post))) by (unfold U32_MAX; lia). cbn [mbind option_bind].
  rewrite <- Hdecl.
  rewrite !to_from_be_bytes_length by (rewrite ?length_drop, ?length_take; lia).
  by rewrite app_assoc, take_drop.
Qed.

(** Parsing a bit vector never panics and accepts a byte string exactly when it
    is the serialization of a well-formed bit vector, which it returns: the encoding
    is canonical. *)
Theorem bitvec_wire_canonical (HM : 0 <= MAX_SIZE <= U16_MAX) (b : list byte) :
  is_Some (from_wire_bytes MAX_SIZE b) /\
  forall v, from_wire_bytes MAX_SIZE b = Some (Ok v) <-> wf MAX_SIZE v /\ wire_bytes v = Some b.
Proof.
  destruct (from_wire_bytes_sound HM b) as (r & Hr & Hs). split; [by rewrite Hr|]. intros v. split.
  - rewrite Hr. intros [= ->]. by apply Hs.
  - intros [Hv Hw]. destruct (wire_bytes_parse HM v Hv) as (w & Hw' & _ & Hp). congruence.
Qed.

End BitVecProperties.
