(* ===== verification/Address.v ===== *)
(** * Addresses: [crates/nano-address/src/lib.rs]

    Stacks addresses, their text forms and the Bitcoin output scripts of PoX
    addresses. The c32 and base58check text codecs and the [bitcoin] crate are
    third-party, so they are parameters. *)

From stdpp Require Import countable.
From S2P Require Import Prelude Primitives.

Inductive AddressError : Type :=
| InvalidVersion
| InvalidC32
| InvalidBase58
| InvalidBitcoinAddress.

#[global] Instance AddressError_eq_dec : EqDecision AddressError.
Proof. solve_decision. Defined.

Module StacksAddress.

Record t : Type := mk { version : byte; hash160 : Hash160 }.

#[global] Instance eq_dec : EqDecision t.
Proof. solve_decision. Defined.
#[global] Instance address_countable : Countable t.
Proof.
  apply (inj_countable' (fun a => (version a, hash160 a)) (fun p => mk p.1 p.2)). by intros [].
Defined.

Definition new (version : byte) (hash160 : Hash160) : result AddressError t :=
  if 31 <? u8 version then Err InvalidVersion else Ok (mk version hash160).

(** The values [new] builds from a 20-byte hash. *)
Definition valid (a : t) : Prop := u8 (version a) <= 31 /\ is_hash 20 (hash160 a).

Definition single_signature (hash160 : Hash160) (mainnet : bool) : t :=
  mk (if mainnet then 22%u8 else 26%u8) hash160.

Definition is_mainnet (a : t) : bool :=
  match version a with 20%u8 | 22%u8 => true | _ => false end.

Definition is_burn (a : t) : bool := forallb (fun b => bool_decide (b = 0%u8)) (hash160 a).

(** *** Text forms, over the third-party codecs *)

Section Text.
(** [bs58::encode(..).with_check()] and [bs58::decode(..).with_check(None)]. *)
Context {text : Type} (base58_encode : list byte -> text) (base58_decode : text -> option (list byte)).
(** [c32::encode_check_prefixed(.., 'S', version)] and [c32::decode_check_prefixed(.., 'S')]. *)
Context (c32_encode : list byte -> byte -> option text) (c32_decode : text -> option (list byte * byte)).

Definition from_bitcoin_base58 (address : text) : result AddressError t :=
  let? bytes := or_err (base58_decode address) InvalidBase58 in
  match bytes with
  | [] => Err InvalidBase58
  | version :: hash160 =>
      if negb (Nat.eqb (length hash160) 20) then Err InvalidBase58 else
      let? version :=
        match version with
        | 0%u8 => Ok 22%u8
        | 5%u8 => Ok 20%u8
        | 111%u8 => Ok 26%u8
        | 196%u8 => Ok 21%u8
        | _ => Err InvalidBase58
        end in
      new version hash160
  end.

Definition to_bitcoin_base58 (a : t) : text :=
  let version :=
    match version a with
    | 22%u8 => 0%u8
    | 20%u8 => 5%u8
    | 26%u8 => 111%u8
    | 21%u8 => 196%u8
    | other => other
    end in
  base58_encode (version :: hash160 a).

(** [Display::fmt]; [None] is [fmt::Error]. *)
Definition to_string (a : t) : option text := c32_encode (hash160 a) (version a).

Definition from_str (address : text) : result AddressError t :=
  let? (bytes, version) := or_err (c32_decode address) InvalidC32 in
  if negb (Nat.eqb (length bytes) 20) then Err InvalidC32 else new version bytes.

End Text.
End StacksAddress.

(** ** Hash modes and PoX addresses *)

Inductive AddressHashMode : Type := P2pkh | P2sh | P2wpkh | P2wsh.

#[global] Instance AddressHashMode_eq_dec : EqDecision AddressHashMode.
Proof. solve_decision. Defined.

Definition mainnet_version (m : AddressHashMode) : byte :=
  match m with P2pkh => 22%u8 | P2sh | P2wpkh | P2wsh => 20%u8 end.

Definition testnet_version (m : AddressHashMode) : byte :=
  match m with P2pkh => 26%u8 | P2sh | P2wpkh | P2wsh => 21%u8 end.

Module PoxAddress.

(** [PoxAddressType20] has the single value [P2wpkh]. *)
Inductive PoxAddressType20 : Type := Type20_P2wpkh.
Inductive PoxAddressType32 : Type := Type32_P2wsh | Type32_P2tr.

Inductive t : Type :=
| Standard (address : StacksAddress.t) (hash_mode : option AddressHashMode)
| Addr20 (mainnet : bool) (address_type : PoxAddressType20) (bytes : list byte)
| Addr32 (mainnet : bool) (address_type : PoxAddressType32) (bytes : list byte).

#[global] Instance Type32_eq_dec : EqDecision PoxAddressType32.
Proof. solve_decision. Defined.
#[global] Instance Type20_eq_dec : EqDecision PoxAddressType20.
Proof. solve_decision. Defined.
#[global] Instance eq_dec : EqDecision t.
Proof. solve_decision. Defined.

Definition as_stacks_address (a : t) : option StacksAddress.t :=
  match a with Standard address _ => Some address | _ => None end.

(** The slice pattern [[prefix.., bytes @ .., suffix..]]. *)
Definition between (prefix suffix l : list byte) : option (list byte) :=
  let n := (length l - length prefix - length suffix)%nat in
  if decide ((length prefix + length suffix <= length l)%nat /\
             take (length prefix) l = prefix /\ drop (length prefix + n) l = suffix)
  then Some (take n (drop (length prefix) l)) else None.

(** The guard [if bytes.len() == n]. *)
Definition between_n (prefix suffix l : list byte) (n : nat) : option (list byte) :=
  m ← between prefix suffix l; if Nat.eqb (length m) n then Some m else None.

Definition standard (version : byte) (hash_mode : AddressHashMode) (bytes : list byte)
  : result AddressError t :=
  let? address := StacksAddress.new version bytes in
  Ok (Standard address (Some hash_mode)).

Definition from_script_pubkey (script : list byte) (mainnet : bool) : result AddressError t :=
  match between_n [0x76; 0xa9; 0x14]%u8 [0x88; 0xac]%u8 script 20 with
  | Some bytes => standard (if mainnet then 22 else 26)%u8 P2pkh bytes
  | None =>
  match between_n [0xa9; 0x14]%u8 [0x87]%u8 script 20 with
  | Some bytes => standard (if mainnet then 20 else 21)%u8 P2sh bytes
  | None =>
  match between_n [0x00; 0x14]%u8 [] script 20 with
  | Some bytes => Ok (Addr20 mainnet Type20_P2wpkh bytes)
  | None =>
  match between_n [0x00; 0x20]%u8 [] script 32 with
  | Some bytes => Ok (Addr32 mainnet Type32_P2wsh bytes)
  | None =>
  match between_n [0x51; 0x20]%u8 [] script 32 with
  | Some bytes => Ok (Addr32 mainnet Type32_P2tr bytes)
  | None => Err InvalidBitcoinAddress
  end end end end end.

Definition bytes (a : t) : list byte :=
  match a with
  | Standard address _ => StacksAddress.hash160 address
  | Addr20 _ _ bytes | Addr32 _ _ bytes => bytes
  end.

Definition script_pubkey (a : t) : list byte :=
  match a with
  | Standard address _ =>
      match StacksAddress.version address with
      | 22%u8 | 26%u8 => [0x76; 0xa9; 0x14]%u8 ++ bytes a ++ [0x88; 0xac]%u8
      | _ => [0xa9; 0x14]%u8 ++ bytes a ++ [0x87]%u8
      end
  | Addr20 _ _ _ => [0x00; 0x14]%u8 ++ bytes a
  | Addr32 _ Type32_P2wsh _ => [0x00; 0x20]%u8 ++ bytes a
  | Addr32 _ Type32_P2tr _ => [0x51; 0x20]%u8 ++ bytes a
  end.

(** The network [bitcoin_address] renders for: [true] is [Network::Bitcoin]. *)
Definition bitcoin_network (a : t) : bool :=
  match a with
  | Standard address _ => StacksAddress.is_mainnet address
  | Addr20 mainnet _ _ | Addr32 mainnet _ _ => mainnet
  end.

(** The addresses [from_script_pubkey] can produce: the hash mode is the one the
    version byte announces. *)
Definition canonical (a : t) : Prop :=
  match a with
  | Standard address mode =>
      is_hash 20 (StacksAddress.hash160 address) /\
      ((mode = Some P2pkh /\ (StacksAddress.version address = 22%u8 \/ StacksAddress.version address = 26%u8)) \/
       (mode = Some P2sh /\ (StacksAddress.version address = 20%u8 \/ StacksAddress.version address = 21%u8)))
  | Addr20 _ _ bytes => is_hash 20 bytes
  | Addr32 _ _ bytes => is_hash 32 bytes
  end.

Lemma between_Some p s l m : between p s l = Some m <-> l = p ++ m ++ s.
Proof.
  unfold between. split.
  - destruct (decide _) as [(Hl & Hp & Hs)|]; [|done]. intros [= <-].
    set (n := (length l - length p - length s)%nat) in *.
    rewrite <- (take_drop (length p) l) at 1. rewrite Hp. f_equal.
    by rewrite <- Hs, <- drop_drop, take_drop.
  - intros ->. rewrite !length_app.
    replace (length p + (length m + length s) - length p - length s)%nat with (length m) by lia.
    rewrite drop_app_length, take_app_length, take_app_length.
    rewrite decide_True; [done|]. repeat split; [lia|].
    rewrite drop_app_ge by lia. by rewrite Nat.add_comm, Nat.add_sub, drop_app_length.
Qed.

Lemma between_n_Some p s l n m : between_n p s l n = Some m <-> l = p ++ m ++ s /\ length m = n.
Proof.
  unfold between_n. rewrite <- between_Some. destruct (between p s l) as [m'|]; simpl.
  - destruct (Nat.eqb_spec (length m') n); split; intros H; simplify_eq; try done.
    + by destruct H as [[= ->] _].
    + by destruct H as [[= ->] ?].
  - split; [done|by intros [? _]].
Qed.

Lemma between_n_app p s m n : length m = n -> between_n p s (p ++ m ++ s) n = Some m.
Proof. intros. by apply between_n_Some. Qed.

(** Two output patterns with different first bytes do not overlap. *)
Lemma between_n_hd b b' p p' s s' m n : b <> b' -> between_n (b :: p) s ((b' :: p') ++ m ++ s') n = None.
Proof.
  intros Hb. destruct (between_n _ _ _ n) eqn:E; [|done].
  apply between_n_Some in E as [E _]. simpl in E. congruence.
Qed.

Lemma between_n_hd2 a b b' p p' s s' m n : b <> b' -> between_n (a :: b :: p) s ((a :: b' :: p') ++ m ++ s') n = None.
Proof.
  intros Hb. destruct (between_n _ _ _ n) eqn:E; [|done].
  apply between_n_Some in E as [E _]. simpl in E. congruence.
Qed.

End PoxAddress.

Import PoxAddress.

Lemma new_valid v h a : StacksAddress.new v h = Ok a -> a = StacksAddress.mk v h /\ u8 v <= 31.
Proof. unfold StacksAddress.new. destruct (Z.ltb_spec 31 (u8 v)); [done|]. by intros [= <-]. Qed.

(** A recognised script is the script of the address it gives. *)
Lemma script_of_recognised (script : list byte) (mainnet : bool) (a : t)
  (H : from_script_pubkey script mainnet = Ok a) :
  script_pubkey a = script /\ bitcoin_network a = mainnet /\ canonical a.
Proof.
  unfold from_script_pubkey in H.
  repeat match type of H with
  | match between_n ?p ?s script ?n with _ => _ end = _ =>
      let E := fresh "E" in
      destruct (between_n p s script n) as [m|] eqn:E;
        [clear -H E; apply between_n_Some in E as [-> Hm]|clear E]
  end; try discriminate H; unfold standard in H; rewrite ?app_nil_r in *;
  destruct mainnet; simpl in H; simplify_eq; simpl; repeat split; auto.
Qed.

(** Expose a witness program as [prefix ++ bytes ++ suffix] with no suffix. *)
Ltac witness_script b :=
  cbn [script_pubkey bytes bitcoin_network];
  match goal with |- context [?p ++ b] =>
    replace (p ++ b) with (p ++ b ++ []) by by rewrite app_nil_r end.

(** The script of a canonical address is recognised. *)
Lemma recognise_script (a : t) (Ha : canonical a) :
  from_script_pubkey (script_pubkey a) (bitcoin_network a) = Ok a.
Proof.
  unfold from_script_pubkey, is_hash in *. destruct a as [[v h] mode|m [] b|m [] b]; simpl in Ha.
  - destruct Ha as [Hh [[-> [-> | ->]]|[-> [-> | ->]]]]; cbn in Hh;
      cbn [script_pubkey StacksAddress.version bytes StacksAddress.hash160];
      rewrite ?(between_n_hd 0x76%u8 0xa9%u8) by done;
      by rewrite (between_n_app _ _ h 20 Hh).
  - witness_script b.
    rewrite (between_n_hd 0x76%u8 0x00%u8), (between_n_hd 0xa9%u8 0x00%u8) by done.
    by rewrite (between_n_app _ _ b 20).
  - witness_script b.
    rewrite (between_n_hd 0x76%u8 0x00%u8), (between_n_hd 0xa9%u8 0x00%u8) by done.
    rewrite (between_n_hd2 0x00%u8 0x14%u8 0x20%u8) by done.
    by rewrite (between_n_app _ _ b 32).
  - witness_script b.
    rewrite (between_n_hd 0x76%u8 0x51%u8), (between_n_hd 0xa9%u8 0x51%u8) by done.
    rewrite !(between_n_hd 0x00%u8 0x51%u8) by done.
    by rewrite (between_n_app _ _ b 32).
Qed.

(** An output script is recognised as a PoX address of a network exactly when the
    address is canonical, of that network, and the script is the address's own. *)
Theorem script_pubkey_canonical (script : list byte) (mainnet : bool) (a : t) :
  from_script_pubkey script mainnet = Ok a <->
  canonical a /\ bitcoin_network a = mainnet /\ script_pubkey a = script.
Proof.
  split.
  - intros H. destruct (script_of_recognised _ _ _ H) as (? & ? & ?). done.
  - intros (Ha & <- & <-). by apply recognise_script.
Qed.

(** ** Base58 text *)

Section Base58.
Import StacksAddress.
Context {text : Type} (base58_encode : list byte -> text) (base58_decode : text -> option (list byte)).
(** Documented behaviour of base58check: decoding inverts encoding. *)
Hypothesis base58_inverse : forall b, base58_decode (base58_encode b) = Some b.

(** A Stacks address printed as Bitcoin base58 parses back to itself for the four
    standard versions; versions 0 and 5, whose Bitcoin byte is that of a standard
    version, come back as versions 22 and 20; every other version is refused. *)
Theorem base58_roundtrip (a : t) (Ha : valid a) :
  from_bitcoin_base58 base58_decode (to_bitcoin_base58 base58_encode a) =
  match version a with
  | 20%u8 | 21%u8 | 22%u8 | 26%u8 => Ok a
  | 0%u8 => Ok (mk 22%u8 (hash160 a))
  | 5%u8 => Ok (mk 20%u8 (hash160 a))
  | _ => Err InvalidBase58
  end.
Proof.
  destruct a as [v h]. destruct Ha as [Hv Hh]. cbn [version hash160] in *.
  unfold from_bitcoin_base58, to_bitcoin_base58. rewrite base58_inverse. cbn [or_err].
  unfold is_hash in Hh. cbn [hash160]. rewrite Hh. cbn [Nat.eqb negb].
  destruct v; first [reflexivity | exfalso; vm_compute in Hv; by apply Hv].
Qed.

End Base58.
