(* ===== verification/CodecIO.v ===== *)
(** * The codec's cursor and buffer: [Reader] and [Writer] of
      [crates/nano-codec/src/lib.rs]

    A reader is a byte slice and an offset; a reading function threads it as
    state and stops at the first error, the way [?] does. A writer is the bytes
    pushed so far; [None] is a panic of one of the [expect] calls. The class
    [Wire] is the contract between a reading function and a writing function
    that the message codecs are proved against. *)

From S2P Require Import Prelude Primitives Address.

Inductive CodecError : Type :=
| EndOfInput
| InvalidAuth
| InvalidCondition
| InvalidField
| InvalidKey
| InvalidLength
| InvalidTransaction
| InvalidPayload
| InvalidPostCondition
| InvalidPrincipal
| InvalidName
| InvalidString
| InvalidClarityValue.

#[global] Instance CodecError_eq_dec : EqDecision CodecError.
Proof. solve_decision. Defined.

Record Reader : Type := mkReader { rd_bytes : list byte; rd_offset : Z }.

(** Several crates read with a cursor of this shape and an error type of their
    own: what they report when an offset overflows or a count is too large, and
    when the input ends. *)
Class ReadError (E : Type) : Type := { length_error : E; end_error : E }.

#[export] Instance CodecError_read : ReadError CodecError :=
  {| length_error := InvalidLength; end_error := EndOfInput |}.

Definition ReaderE (E A : Type) : Type := Reader -> result E (A * Reader).
Abbreviation ReaderM := (ReaderE CodecError).

#[global] Instance ReaderE_ret {E} : MRet (ReaderE E) := fun A a r => Ok (a, r).
#[global] Instance ReaderE_bind {E} : MBind (ReaderE E) := fun A B k m r =>
  match m r with Ok (a, r') => k a r' | Err e => Err e end.

Definition fail {E A} (e : E) : ReaderE E A := fun _ => Err e.
(** Apply [?] to a plain [Result]. *)
Definition lift {E A} (x : result E A) : ReaderE E A := fun r =>
  match x with Ok a => Ok (a, r) | Err e => Err e end.

Module Reader.
Definition new (bytes : list byte) : Reader := mkReader bytes 0.
Definition position (r : Reader) : Z := rd_offset r.
Definition remaining (r : Reader) : Z := saturating_sub (len (rd_bytes r)) (rd_offset r).

Section Ops.
Context {E : Type} `{RE : ReadError E}.

Definition take (length : Z) : ReaderE E (list byte) := fun r =>
  match checked_add USIZE_MAX (rd_offset r) length with
  | None => Err length_error
  | Some stop =>
      match get_range (rd_bytes r) (rd_offset r) stop with
      | None => Err end_error
      | Some s => Ok (s, mkReader (rd_bytes r) stop)
      end
  end.

(** [self.take(1)?[0]]. *)
Definition byte : ReaderE E Byte.byte := b ← take 1; match b with b0 :: _ => mret b0 | [] => fail end_error end.
Definition u16 : ReaderE E Z := b ← take 2; mret (from_be_bytes b).
Definition u32 : ReaderE E Z := b ← take 4; mret (from_be_bytes b).
Definition u64 : ReaderE E Z := b ← take 8; mret (from_be_bytes b).
Definition hash160 : ReaderE E Hash160 := take 20.
(** [MessageSignature::from_bytes(self.take(65)?)]. *)
Definition signature : ReaderE E (list Byte.byte) := take 65.

(** [if too_many(reader.remaining()) { return Err(Length) }]. *)
Definition bounded (too_many : Z -> bool) : ReaderE E unit := fun r =>
  if too_many (remaining r) then Err length_error else Ok (tt, r).

(** The reading loop [for _ in 0..count { items.push(item()?) }]. *)
Fixpoint many {A} (n : nat) (item : ReaderE E A) : ReaderE E (list A) :=
  match n with
  | O => mret []
  | S n' => x ← item; xs ← many n' item; mret (x :: xs)
  end.

(** A counted vector: a [u32] count, the check that the input left can hold that
    many items ([too_many count remaining]), and the loop. *)
Definition vec {A} (too_many : Z -> Z -> bool) (item : ReaderE E A) : ReaderE E (list A) :=
  n ← u32;
  count ← lift (or_err (try_from USIZE_MAX n) length_error);
  _ ← bounded (too_many count);
  many (Z.to_nat count) item.

End Ops.

(** [T::decode(reader.rest())] then [reader.advance(consumed)?]. A decoder that
    panics returns [None], and so does the error of the reading. *)
Definition prefix {E F A} `{RE : ReadError (option E)} (wrap : F -> E)
  (decode : list Byte.byte -> option (result F (A * Z))) : ReaderE (option E) A := fun r =>
  match decode (drop (Z.to_nat (rd_offset r)) (rd_bytes r)) with
  | None => Err None
  | Some (Err e) => Err (Some (wrap e))
  | Some (Ok (x, consumed)) => let? (_, r') := take consumed r in Ok (x, r')
  end.

End Reader.

(** ** Writers *)

Definition WriterM : Type := list byte -> option (list byte).

Definition wseq (a b : WriterM) : WriterM := fun w => w' ← a w; b w'.
Notation "a ;;; b" := (wseq a b) (at level 100, right associativity) : rust_scope.
Definition wskip : WriterM := fun w => Some w.

Module Writer.

Definition finish (a : WriterM) : option (list byte) := a [].
Definition raw (value : list byte) : WriterM := fun w => Some (w ++ value).
Definition byte (value : byte) : WriterM := raw [value].
Definition u16 (value : Z) : WriterM := raw (to_be_bytes 2 value).
Definition u32 (value : Z) : WriterM := raw (to_be_bytes 4 value).
Definition u64 (value : Z) : WriterM := raw (to_be_bytes 8 value).
Definition hash160 (value : Hash160) : WriterM := raw value.
Definition signature (value : list Byte.byte) : WriterM := raw value.

Definition address (value : StacksAddress.t) : WriterM :=
  byte (StacksAddress.version value) ;;; hash160 (StacksAddress.hash160 value).

(** [self.byte(u8::try_from(value.len()).expect(..)); self.raw(value)]. *)
Definition name (value : list Byte.byte) : WriterM := fun w =>
  n ← try_from U8_MAX (len value);
  (byte (byte_of n) ;;; raw value) w.

Definition stacks_string (value : list Byte.byte) : WriterM := fun w =>
  n ← try_from U32_MAX (len value);
  (u32 n ;;; raw value) w.

(** [u32::try_from(items.len()).expect(..)] written as a [u32]. *)
Definition count (n : Z) : WriterM := fun w => n ← try_from U32_MAX n; u32 n w.

Fixpoint each {A} (item : A -> WriterM) (l : list A) : WriterM :=
  match l with
  | [] => wskip
  | x :: l' => item x ;;; each item l'
  end.

End Writer.

(** ** Reasoning: what a reader consumes and a writer appends *)

(** [reads r bs r']: the reader moved from [r] to [r'] over exactly [bs]. *)
Definition reads (r : Reader) (bs : list byte) (r' : Reader) : Prop :=
  exists pre post, r = mkReader (pre ++ bs ++ post) (len pre) /\
    r' = mkReader (pre ++ bs ++ post) (len (pre ++ bs)).

Definition reader_ok (r : Reader) : Prop :=
  0 <= rd_offset r <= len (rd_bytes r).

(** A slice is never longer than [usize] can index. *)
Definition fits (r : Reader) : Prop := len (rd_bytes r) <= USIZE_MAX.

(** [emits a bs]: the writer appends exactly [bs], whatever it holds already. *)
Definition emits (a : WriterM) (bs : list byte) : Prop := forall w, a w = Some (w ++ bs).

Lemma reads_ok r bs r' : reads r bs r' -> reader_ok r /\ reader_ok r'.
Proof. intros (pre & post & -> & ->). unfold reader_ok. simpl. rewrite !length_app. lia. Qed.

Lemma reads_fits r bs r' : reads r bs r' -> fits r -> fits r'.
Proof. intros (pre & post & -> & ->). by unfold fits. Qed.

Lemma reads_nil r : reader_ok r -> reads r [] r.
Proof.
  destruct r as [b o]. unfold reader_ok. simpl. intros Ho.
  exists (take (Z.to_nat o) b), (drop (Z.to_nat o) b). simpl.
  rewrite app_nil_r, take_drop, length_take.
  assert (Z.of_nat (Nat.min (Z.to_nat o) (length b)) = o) as -> by lia. done.
Qed.

Lemma reads_trans r b1 r1 b2 r2 : reads r b1 r1 -> reads r1 b2 r2 -> reads r (b1 ++ b2) r2.
Proof.
  intros (p & q & -> & ->) (p' & q' & E & ->). injection E as E El.
  rewrite app_assoc in E. apply app_inj_1 in E as [<- ->]; [|lia].
  exists p, q'. by rewrite <- !app_assoc.
Qed.

Lemma reads_split r b1 b2 r' : reads r (b1 ++ b2) r' -> exists r1, reads r b1 r1 /\ reads r1 b2 r'.
Proof.
  intros (p & q & -> & ->). exists (mkReader (p ++ (b1 ++ b2) ++ q) (len (p ++ b1))). split.
  - exists p, (b2 ++ q). by rewrite <- !app_assoc.
  - exists (p ++ b1), q. by rewrite <- !app_assoc.
Qed.

Lemma reads_nil_inv r r' : reads r [] r' -> r' = r.
Proof. intros (p & q & -> & ->). by rewrite app_nil_r. Qed.

Lemma reads_det r bs r1 r2 : reads r bs r1 -> reads r bs r2 -> r1 = r2.
Proof.
  intros (p & q & -> & ->) (p' & q' & E & ->). injection E as E El.
  rewrite E. f_equal. rewrite !length_app. lia.
Qed.

Lemma reads_remaining r bs r' : reads r bs r' -> Reader.remaining r = len bs + Reader.remaining r'.
Proof.
  intros (p & q & -> & ->). unfold Reader.remaining. simpl. autorewrite with lengths. word_lia.
Qed.

Lemma reads_position r bs r' : reads r bs r' -> rd_offset r' = rd_offset r + len bs /\ rd_bytes r' = rd_bytes r.
Proof. intros (p & q & -> & ->). simpl. rewrite length_app. split; [lia|done]. Qed.

(** The bytes between two positions, [reader.bytes[start..reader.position()]]. *)
Lemma reads_range r bs r' : reads r bs r' -> get_range (rd_bytes r') (rd_offset r) (rd_offset r') = Some bs.
Proof.
  intros (p & q & -> & ->). apply get_range_Some. exists p, q. simpl. rewrite length_app.
  split; [done|]. lia.
Qed.

Lemma reads_drop r bs r' : reads r bs r' ->
  reads (Reader.new (drop (Z.to_nat (rd_offset r)) (rd_bytes r))) bs
    (mkReader (drop (Z.to_nat (rd_offset r)) (rd_bytes r)) (len bs)).
Proof.
  intros (p & q & -> & ->). cbn. rewrite Nat2Z.id, drop_app_length. by exists [], q.
Qed.

Lemma reads_new b bs rest : b = bs ++ rest -> reads (Reader.new b) bs (mkReader b (len bs)).
Proof. intros ->. by exists [], rest. Qed.

Lemma reads_new_inv b bs r' : reads (Reader.new b) bs r' ->
  exists rest, b = bs ++ rest /\ r' = mkReader b (len bs).
Proof.
  intros (p & q & E & ->). injection E as -> E. destruct p; [|simpl in E; lia]. by exists q.
Qed.

Lemma emits_det a b1 b2 : emits a b1 -> emits a b2 -> b1 = b2.
Proof. intros H1 H2. specialize (H1 []). specialize (H2 []). simpl in *. congruence. Qed.

Lemma emits_raw b : emits (Writer.raw b) b.
Proof. intros w. done. Qed.

Lemma emits_skip : emits wskip [].
Proof. intros w. unfold wskip. by rewrite app_nil_r. Qed.

Lemma emits_seq a b x y : emits a x -> emits b y -> emits (a ;;; b) (x ++ y).
Proof. intros Ha Hb w. unfold wseq. rewrite Ha. simpl. rewrite Hb. by rewrite app_assoc. Qed.

Lemma emits_finish a bs : emits a bs -> Writer.finish a = Some bs.
Proof. intros H. apply (H []). Qed.

Lemma bind_ok {Er A B} (m : ReaderE Er A) (k : A -> ReaderE Er B) r y r'' :
  (m ≫= k) r = Ok (y, r'') <-> exists x r', m r = Ok (x, r') /\ k x r' = Ok (y, r'').
Proof.
  unfold mbind, ReaderE_bind. destruct (m r) as [[x r']|e]; split.
  - eauto.
  - by intros (? & ? & [= -> ->] & ?).
  - done.
  - by intros (? & ? & [=] & _).
Qed.

Lemma bind_run {Er A B} (m : ReaderE Er A) (k : A -> ReaderE Er B) r x r' :
  m r = Ok (x, r') -> (m ≫= k) r = k x r'.
Proof. intros H. unfold mbind, ReaderE_bind. by rewrite H. Qed.

Lemma take_ok {Er} `{RE : ReadError Er} n r s r' : 0 <= n -> Reader.take (E := Er) n r = Ok (s, r') <-> reads r s r' /\ len s = n /\ rd_offset r' <= USIZE_MAX.
Proof.
  intros Hn. unfold Reader.take. split.
  - destruct (checked_add _ _ _) as [stop|] eqn:Hc; [|done].
    destruct (get_range _ _ _) as [s'|] eqn:Hg; [|done]. intros [= <- <-].
    apply checked_add_Some in Hc as [-> Hle]. apply get_range_Some in Hg as (p & q & Hb & Ho & Hs).
    split; [|simpl; lia]. destruct r as [b o]; simpl in *. subst b o.
    exists p, q. rewrite length_app. split; [done|]. f_equal. lia.
  - intros ((p & q & -> & ->) & Hs & Hle). simpl in *. rewrite length_app in *.
    rewrite (proj2 (checked_add_Some USIZE_MAX (len p) n (len p + n))) by lia.
    rewrite (proj2 (get_range_Some (p ++ s ++ q) (len p) (len p + n) s)) by (exists p, q; split; [done|lia]).
    do 3 f_equal. lia.
Qed.

Lemma take_reads {Er} `{RE : ReadError Er} r s r' n : fits r -> reads r s r' -> len s = n -> Reader.take (E := Er) n r = Ok (s, r').
Proof.
  intros Hf Hr Hs. apply take_ok; [lia|]. split; [done|]. split; [done|].
  pose proof (reads_ok _ _ _ Hr) as [_ [_ Hok]]. pose proof (reads_fits _ _ _ Hr Hf). unfold fits in *. lia.
Qed.

(** ** The read/write contract *)

(** [codec_at w rd x]: [w] writes bytes from which [rd] reads [x], wherever they
    lie in a slice. *)
Definition codec_at {Er A} (w : WriterM) (rd : ReaderE Er A) (x : A) : Prop :=
  exists bs, emits w bs /\ forall r r', fits r -> reads r bs r' -> rd r = Ok (x, r').

Class Wire {Er A : Type} (rd : ReaderE Er A) (wr : A -> WriterM) (valid : A -> Prop) : Prop := {
  (** What is read is valid, and writing it back gives the bytes it was read from. *)
  wire_sound : forall r x r', reader_ok r -> rd r = Ok (x, r') ->
    valid x /\ exists bs, emits (wr x) bs /\ reads r bs r';
  (** Writing a valid value does not panic, and reading it back gives the value. *)
  wire_complete : forall x, valid x -> codec_at (wr x) rd x;
}.

Lemma codec_at_bind {Er A B} (w1 w2 : WriterM) (m : ReaderE Er A) (k : A -> ReaderE Er B) x y :
  codec_at w1 m x -> codec_at w2 (k x) y -> codec_at (w1 ;;; w2) (m ≫= k) y.
Proof.
  intros (b1 & E1 & C1) (b2 & E2 & C2). exists (b1 ++ b2). split; [by apply emits_seq|].
  intros r r' Hf (r1 & R1 & R2)%reads_split. rewrite (bind_run _ _ _ x r1) by auto.
  apply C2; [by eapply reads_fits|done].
Qed.

Lemma codec_at_last {Er A B} (w : WriterM) (m : ReaderE Er A) (k : A -> ReaderE Er B) x y :
  codec_at w m x -> (forall r, k x r = Ok (y, r)) -> codec_at w (m ≫= k) y.
Proof.
  intros (b & E & C) Hk. exists b. split; [done|]. intros r r' Hf R.
  rewrite (bind_run _ _ _ x r') by auto. apply Hk.
Qed.

Lemma codec_at_lift {Er A B} (w : WriterM) (e : result Er A) (k : A -> ReaderE Er B) x y :
  e = Ok x -> codec_at w (k x) y -> codec_at w (lift e ≫= k) y.
Proof. by intros ->. Qed.

Lemma codec_at_ret {Er A} (x : A) : codec_at wskip (mret x : ReaderE Er A) x.
Proof.
  exists []. split; [apply emits_skip|]. by intros r r' _ ->%reads_nil_inv.
Qed.

(** The bytes of a valid value are the ones its writer leaves in an empty buffer. *)
Lemma wire_emits {Er A} (rd : ReaderE Er A) wr valid `{!Wire rd wr valid} x b :
  valid x -> Writer.finish (wr x) = Some b -> emits (wr x) b.
Proof.
  intros Hv Hb. destruct (wire_complete x Hv) as (b' & E & _). rewrite (emits_finish _ _ E) in Hb.
  by injection Hb as <-.
Qed.

(** Reading succeeds on the bytes a previous reading consumed, in any slice. *)
Lemma wire_local {Er A} (rd : ReaderE Er A) wr valid `{!Wire rd wr valid} r x r' bs s s' :
  rd r = Ok (x, r') -> reads r bs r' -> fits s -> reads s bs s' -> rd s = Ok (x, s').
Proof.
  intros H R Hf S. destruct (wire_sound r x r' (proj1 (reads_ok _ _ _ R)) H) as (Hv & b & E & R').
  destruct (wire_complete x Hv) as (b' & E' & C).
  rewrite (emits_det _ _ _ E E') in *.
  assert (bs = b') as ->; [|by apply C].
  apply reads_position in R as HR. apply reads_position in R' as HR'.
  apply reads_range in R. apply reads_range in R'. congruence.
Qed.

(** ** Tactics *)

(** Open the binds of a successful reading, one hypothesis per read. *)
Ltac reader_inv H :=
  repeat match type of H with
  | (_ ≫= _) _ = Ok _ =>
      let x := fresh "x" in let r := fresh "r" in let Hm := fresh "Hm" in
      apply bind_ok in H as (x & r & Hm & H)
  | mret _ _ = Ok _ => unfold mret, ReaderE_ret in H; injection H; clear H; intros; subst
  | fail _ _ = Ok _ => discriminate H
  | (if negb ?c then fail _ else _) _ = Ok _ =>
      let E := fresh "Hc" in destruct c eqn:E; [cbn [negb] in H|discriminate H]
  | (if ?c then fail _ else _) _ = Ok _ =>
      let E := fresh "Hc" in destruct c eqn:E; [discriminate H|]
  | Ok _ = Ok _ => injection H; clear H; intros; subst
  end.

(** Use the contract of every reader that succeeded from a known position. *)
Ltac wire_steps :=
  repeat match goal with
  | Hm : ?rd ?r = Ok (?x, ?r'), Hok : reader_ok ?r |- _ =>
      let Hv := fresh "Hv" in let b := fresh "b" in let E := fresh "E" in let R := fresh "R" in
      destruct (wire_sound (rd := rd) r x r' Hok Hm) as (Hv & b & E & R);
      clear Hm;
      pose proof (proj2 (reads_ok _ _ _ R))
  end.

Ltac emits_tac :=
  repeat first [eassumption | apply emits_skip | apply emits_raw | eapply emits_seq].
Ltac reads_tac :=
  repeat first [eassumption | eapply reads_trans; [eassumption|]].

(** Prove the existential of [wire_sound] from the steps taken. *)
Ltac wire_finish := eexists; split; [emits_tac | reads_tac].

(** ** Instances for the primitive reads *)

#[export] Instance take_wire {Er} `{RE : ReadError Er} (p : positive) :
  Wire (Er := Er) (Reader.take (Zpos p)) Writer.raw (fun s => len s = Zpos p).
Proof.
  split.
  - intros r x r' _ (R & Hl & _)%take_ok; [|done]. split; [done|].
    exists x. split; [apply emits_raw|done].
  - intros x Hx. exists x. split; [apply emits_raw|]. intros. by apply take_reads.
Qed.

#[export] Instance byte_wire {Er} `{RE : ReadError Er} : Wire (Er := Er) Reader.byte Writer.byte (fun _ => True).
Proof.
  split.
  - intros r x r' Hok H. unfold Reader.byte in H. reader_inv H. wire_steps.
    destruct x0 as [|c [|]]; try (simpl in Hv; lia). reader_inv H.
    split; [done|]. by exists b.
  - intros x _. exists [x]. split; [apply emits_raw|]. intros r r' Hf R.
    unfold Reader.byte. rewrite (bind_run _ _ _ [x] r'); [done|]. by apply take_reads.
Qed.

(** Big-endian integers of [n] bytes. *)
Lemma be_wire {Er} `{RE : ReadError Er} (p : positive) n max : Zpos p = Z.of_nat n -> max + 1 = 256 ^ Z.of_nat n ->
  Wire (Er := Er) (b ← Reader.take (Zpos p); mret (from_be_bytes b)) (fun z => Writer.raw (to_be_bytes n z))
    (fun z => 0 <= z <= max).
Proof.
  intros Hp Hmax. split.
  - intros r x r' Hok H. reader_inv H. wire_steps.
    pose proof (from_be_bytes_range x0) as Hr. rewrite Hv, Hp in Hr. split; [lia|].
    exists b. by rewrite to_from_be_bytes_length by lia.
  - intros x Hx. exists (to_be_bytes n x). split; [apply emits_raw|]. intros r r' Hf R.
    rewrite (bind_run _ _ _ (to_be_bytes n x) r').
    + rewrite from_to_be_bytes by lia. done.
    + apply take_reads; [done|done|length_lia].
Qed.

#[export] Instance u16_wire {Er} `{RE : ReadError Er} : Wire (Er := Er) Reader.u16 Writer.u16 is_u16.
Proof. by apply (be_wire 2 2). Qed.
#[export] Instance u32_wire {Er} `{RE : ReadError Er} : Wire (Er := Er) Reader.u32 Writer.u32 is_u32.
Proof. by apply (be_wire 4 4). Qed.
#[export] Instance u64_wire {Er} `{RE : ReadError Er} : Wire (Er := Er) Reader.u64 Writer.u64 is_u64.
Proof. by apply (be_wire 8 8). Qed.
#[export] Instance hash160_wire {Er} `{RE : ReadError Er} : Wire (Er := Er) Reader.hash160 Writer.hash160 (fun s => len s = 20).
Proof. apply take_wire. Qed.
#[export] Instance signature_wire {Er} `{RE : ReadError Er} : Wire (Er := Er) Reader.signature Writer.signature (fun s => len s = 65).
Proof. apply take_wire. Qed.

(** A one-byte tag: [T::parse(reader.byte()?)?] and [writer.byte(tag.byte())]. *)
Lemma tag_wire {Er A} `{RE : ReadError Er} (parse : byte -> result Er A) (tag : A -> byte) :
  (forall b a, parse b = Ok a <-> tag a = b) ->
  Wire (b ← Reader.byte; lift (parse b)) (fun a => Writer.byte (tag a)) (fun _ => True).
Proof.
  intros Hpt. split.
  - intros r x r' Hok H. reader_inv H. unfold lift in H. destruct (parse x0) as [a|] eqn:Hp; [|done].
    reader_inv H. apply Hpt in Hp. wire_steps. split; [done|]. subst. wire_finish.
  - intros x _. eapply codec_at_last; [by apply wire_complete|]. intros r. unfold lift.
    by rewrite (proj2 (Hpt (tag x) x) eq_refl).
Qed.

Lemma many_sound {Er A} (rd : ReaderE Er A) wr valid `{!Wire rd wr valid} n r xs r' :
  reader_ok r -> Reader.many n rd r = Ok (xs, r') ->
  length xs = n /\ Forall valid xs /\ exists bs, emits (Writer.each wr xs) bs /\ reads r bs r'.
Proof.
  revert r xs. induction n as [|n IH]; intros r xs Hok H; cbn [Reader.many] in H.
  - reader_inv H. repeat split; [constructor|]. exists []. split; [apply emits_skip|by apply reads_nil].
  - reader_inv H.
    destruct (wire_sound r x r0 Hok Hm) as (Hv & b & E & R).
    destruct (IH r0 x0 (proj2 (reads_ok _ _ _ R)) Hm0) as (Hl & Hf & bs & E' & R').
    split; [simpl; lia|]. split; [by constructor|]. exists (b ++ bs).
    split; [by apply emits_seq|by eapply reads_trans].
Qed.

Lemma many_complete {Er A} (rd : ReaderE Er A) wr (valid : A -> Prop) xs :
  (forall x, valid x -> codec_at (wr x) rd x) -> Forall valid xs -> codec_at (Writer.each wr xs) (Reader.many (length xs) rd) xs.
Proof.
  intros Hc. induction 1 as [|x xs Hx _ IH]; cbn [Reader.many Writer.each length]; [apply codec_at_ret|].
  eapply codec_at_bind; [by apply Hc|]. by eapply codec_at_last.
Qed.

Lemma count_u32 n : is_u32 n -> emits (Writer.count n) (to_be_bytes 4 n).
Proof.
  intros Hn w. unfold Writer.count. rewrite (proj2 (try_from_Some U32_MAX n n)) by (unfold is_u32 in *; lia). done.
Qed.

Lemma lift_usize_ok {Er A} n (e : Er) (k : Z -> ReaderE Er A) : is_u32 n ->
  (lift (or_err (try_from USIZE_MAX n) e) ≫= k) = k n.
Proof.
  unfold is_u32, U32_MAX. intros Hn.
  rewrite (proj2 (try_from_Some USIZE_MAX n n)) by (unfold USIZE_MAX, U64_MAX; lia). done.
Qed.

(** ** Counted vectors *)

Definition write_vec {A} (wr : A -> WriterM) (xs : list A) : WriterM :=
  Writer.count (len xs) ;;; Writer.each wr xs.

Lemma vec_sound {Er A} `{RE : ReadError Er} (rd : ReaderE Er A) wr valid `{!Wire rd wr valid} too_many r xs r' :
  reader_ok r -> Reader.vec too_many rd r = Ok (xs, r') ->
  is_u32 (len xs) /\ Forall valid xs /\ exists bs, emits (write_vec wr xs) bs /\ reads r bs r'.
Proof.
  intros Hok H. unfold Reader.vec in H. apply bind_ok in H as (n & r0 & Hn & H). wire_steps.
  rewrite lift_usize_ok in H by done. apply bind_ok in H as (u & r1 & Hb & H).
  unfold Reader.bounded in Hb. destruct (too_many _ _); [done|]. simplify_eq.
  destruct (many_sound rd wr valid _ _ _ _ H0 H) as (Hl & HF & bs & E' & R').
  assert (n = len xs) as -> by (unfold is_u32 in Hv; lia). split; [done|]. split; [done|].
  exists (b ++ bs). split; [|by eapply reads_trans]. apply emits_seq; [|done].
  rewrite (emits_det _ _ _ E (emits_raw _)). by apply count_u32.
Qed.

(** A vector is read back wherever the guard passes. *)
Lemma vec_complete {Er A} `{RE : ReadError Er} (rd : ReaderE Er A) wr (valid : A -> Prop) too_many xs :
  (forall x, valid x -> codec_at (wr x) rd x) -> is_u32 (len xs) -> Forall valid xs ->
  exists bs, emits (write_vec wr xs) bs /\ forall r r', fits r -> reads r bs r' ->
    too_many (len xs) (Reader.remaining r - 4) = false ->
    Reader.vec too_many rd r = Ok (xs, r').
Proof.
  intros Hc Hu HF. destruct (many_complete rd wr valid xs Hc HF) as (bs & E & C).
  exists (to_be_bytes 4 (len xs) ++ bs). split; [apply emits_seq; [by apply count_u32|done]|].
  intros r r' Hf R Hg. apply reads_split in R as (r1 & R1 & R2). unfold Reader.vec.
  destruct (wire_complete (rd := Reader.u32) (len xs) Hu) as (b & Eb & Cb).
  rewrite (emits_det _ _ _ Eb (emits_raw _)) in Cb.
  rewrite (bind_run _ _ _ (len xs) r1), lift_usize_ok by auto.
  apply reads_remaining in R1 as Hrem. rewrite length_to_be_bytes in Hrem.
  replace (Reader.remaining r - 4) with (Reader.remaining r1) in Hg by lia.
  rewrite (bind_run _ _ _ tt r1) by (unfold Reader.bounded; by rewrite Hg).
  rewrite Nat2Z.id. apply C; [by eapply reads_fits|done].
Qed.

(** Items of at least [k] bytes: [n] of them take at least [n * k]. *)
Lemma each_min_length {A} (wr : A -> WriterM) (valid : A -> Prop) k xs bs :
  (forall x, valid x -> exists b, emits (wr x) b /\ k <= len b) ->
  Forall valid xs -> emits (Writer.each wr xs) bs -> len xs * k <= len bs.
Proof.
  intros Hk HF E.
  assert (exists b, emits (Writer.each wr xs) b /\ len xs * k <= len b) as (b & Eb & Hb).
  { clear E. induction HF as [|x xs Hx _ (b' & E' & H')]; [exists []; split; [apply emits_skip|simpl; lia]|].
    destruct (Hk x Hx) as (b & Eb & Hb). exists (b ++ b'). split; [by apply emits_seq|].
    rewrite length_app. simpl length. lia. }
  by rewrite (emits_det _ _ _ E Eb).
Qed.

(** When the guard only rejects counts the input cannot hold, a vector is read
    back from anywhere, and a vector of a [Wire] type is one. *)
Lemma vec_codec {Er A} `{RE : ReadError Er} (rd : ReaderE Er A) wr (valid : A -> Prop) too_many k xs :
  (forall x, valid x -> codec_at (wr x) rd x) ->
  (forall x, valid x -> exists b, emits (wr x) b /\ k <= len b) ->
  (forall n remaining, 0 <= n -> 0 <= remaining -> n * k <= remaining -> too_many n remaining = false) ->
  is_u32 (len xs) -> Forall valid xs -> codec_at (write_vec wr xs) (Reader.vec too_many rd) xs.
Proof.
  intros Hc Hk Hg Hu HF. destruct (vec_complete rd wr valid too_many xs Hc Hu HF) as (bs & E & C).
  exists bs. split; [done|]. intros r r' Hf R. apply C; [done|done|].
  apply reads_remaining in R as Hrem.
  destruct (many_complete rd wr valid xs Hc HF) as (b & Eb & _).
  pose proof (each_min_length wr valid k xs b Hk HF Eb) as Hmin.
  assert (emits (write_vec wr xs) (to_be_bytes 4 (len xs) ++ b)) as E2
    by (apply emits_seq; [by apply count_u32|done]).
  rewrite (emits_det _ _ _ E E2), length_app, length_to_be_bytes in Hrem.
  assert (0 <= Reader.remaining r') by (unfold Reader.remaining; word_lia).
  apply Hg; lia.
Qed.

Lemma vec_wire {Er A} `{RE : ReadError Er} (rd : ReaderE Er A) wr valid `{!Wire rd wr valid} too_many k :
  (forall x, valid x -> exists b, emits (wr x) b /\ k <= len b) ->
  (forall n remaining, 0 <= n -> 0 <= remaining -> n * k <= remaining -> too_many n remaining = false) ->
  Wire (Reader.vec too_many rd) (write_vec wr) (fun xs => is_u32 (len xs) /\ Forall valid xs).
Proof.
  intros Hk Hg. split.
  - intros r xs r' Hok H. destruct (vec_sound rd wr valid _ _ _ _ Hok H) as (? & ? & ?). done.
  - intros xs [Hu HF]. by apply (vec_codec rd wr valid too_many k xs wire_complete).
Qed.

(** ** Readings related to the bytes they consume *)

(** Reading [n] items, each related to the bytes it was read from. *)
Lemma many_reads {Er A} (rd : ReaderE Er A) (S : A -> list byte -> Prop) n r xs r' :
  (forall r x r', reader_ok r -> rd r = Ok (x, r') -> exists bs, S x bs /\ reads r bs r') ->
  reader_ok r -> Reader.many n rd r = Ok (xs, r') ->
  length xs = n /\ exists bss, Forall2 S xs bss /\ reads r (concat bss) r'.
Proof.
  intros Hrd. revert r xs. induction n as [|n IH]; intros r xs Hok H; cbn [Reader.many] in H.
  - reader_inv H. split; [done|]. exists []. split; [constructor|by apply reads_nil].
  - reader_inv H. destruct (Hrd _ _ _ Hok Hm) as (bs & HS & R). destruct (IH _ _ (proj2 (reads_ok _ _ _ R)) Hm0) as (<- & bss & HF & R').
    split; [done|]. exists (bs :: bss). split; [by constructor|by eapply reads_trans].
Qed.

Lemma vec_reads {Er A} `{RE : ReadError Er} (rd : ReaderE Er A) (S : A -> list byte -> Prop) too_many r xs r' :
  (forall r x r', reader_ok r -> rd r = Ok (x, r') -> exists bs, S x bs /\ reads r bs r') ->
  reader_ok r -> Reader.vec too_many rd r = Ok (xs, r') ->
  is_u32 (len xs) /\ exists bss, Forall2 S xs bss /\ reads r (to_be_bytes 4 (len xs) ++ concat bss) r'.
Proof.
  intros Hrd Hok H. unfold Reader.vec in H. apply bind_ok in H as (n & r0 & Hn & H). wire_steps.
  rewrite lift_usize_ok in H by done. apply bind_ok in H as (u & r1 & Hb & H).
  unfold Reader.bounded in Hb. destruct (too_many _ _); [done|]. simplify_eq.
  destruct (many_reads rd S _ _ _ _ Hrd H0 H) as (Hl & bss & HF & R').
  assert (n = len xs) as -> by (unfold is_u32 in Hv; lia). split; [done|]. exists bss. split; [done|].
  rewrite (emits_det _ _ _ E (emits_raw _)) in R. by eapply reads_trans.
Qed.

(** The value a nested decoder reads is related to the bytes it consumes. *)
Lemma prefix_reads {E F A} `{RE : ReadError (option E)} (wrap : F -> E) decode (S : A -> list byte -> Prop) r x r' :
  (forall b x n, decode b = Some (Ok (x, n)) -> exists raw rest, S x raw /\ b = raw ++ rest /\ n = len raw) ->
  Reader.prefix wrap decode r = Ok (x, r') -> exists raw, S x raw /\ reads r raw r'.
Proof.
  intros HS H. unfold Reader.prefix in H. destruct (decode _) as [[[x' n]|]|] eqn:Hd; [|done..].
  destruct (Reader.take n r) as [[s r1]|] eqn:Ht; [|done]. injection H as -> ->.
  apply HS in Hd as (raw & rest & Hx & Hdrop & ->). exists raw. split; [done|].
  apply take_ok in Ht as (R & Hlen & _); [|lia]. pose proof (reads_drop _ _ _ R) as R'. apply reads_new_inv in R' as (rest' & Heq & _).
  rewrite Hdrop in Heq. apply app_inj_1 in Heq as [-> _]; [done|lia].
Qed.

Lemma prefix_codec {E F A} `{RE : ReadError (option E)} (wrap : F -> E) decode (w : WriterM) bs (x : A) :
  emits w bs -> (forall rest, len (bs ++ rest) <= USIZE_MAX -> decode (bs ++ rest) = Some (Ok (x, len bs))) ->
  codec_at w (Reader.prefix wrap decode) x.
Proof.
  intros Hw Hd. exists bs. split; [done|]. intros r r' Hf R. unfold Reader.prefix.
  pose proof (reads_drop _ _ _ R) as R'. apply reads_new_inv in R' as (rest & Heq & _). rewrite Heq, Hd.
  - by rewrite (take_reads r bs r') by done.
  - rewrite <- Heq, length_drop. unfold fits in Hf. lia.
Qed.

(** ** Readings do not panic *)

(** Errors of a reading that can panic: [None] is a panic, so the errors of the
    cursor itself are not [None]. *)
Class SafeErrors (E : Type) `{RE : ReadError (option E)} : Prop := {
  length_safe : length_error <> None :> option E;
  end_safe : end_error <> None :> option E;
}.

(** From a position in the slice, [rd] stays in it and does not panic. *)
Definition safe {E A} (rd : ReaderE (option E) A) : Prop :=
  forall r, reader_ok r -> match rd r with Ok (_, r') => reader_ok r' | Err e => e <> None end.

Lemma safe_ret {E A} (x : A) : safe (mret x : ReaderE (option E) A).
Proof. by intros r Hok. Qed.

Lemma safe_bind {E A B} (m : ReaderE (option E) A) (k : A -> ReaderE (option E) B) : safe m -> (forall x, safe (k x)) -> safe (m ≫= k).
Proof.
  intros Hm Hk r Hok. unfold mbind, ReaderE_bind. specialize (Hm r Hok). destruct (m r) as [[x r']|e]; [|done]. by apply Hk.
Qed.

(** The same, with what is known of the first result. *)
Lemma safe_bind_post {E A B} (P : A -> Prop) (m : ReaderE (option E) A) (k : A -> ReaderE (option E) B) : safe m ->
  (forall r x r', reader_ok r -> m r = Ok (x, r') -> P x) -> (forall x, P x -> safe (k x)) -> safe (m ≫= k).
Proof.
  intros Hm HP Hk r Hok. unfold mbind, ReaderE_bind. specialize (Hm r Hok). destruct (m r) as [[x r']|e] eqn:Hx; [|done].
  apply Hk; [by eapply HP|done].
Qed.

Lemma safe_take `{SafeErrors E} n : 0 <= n -> safe (Reader.take (E := option E) n).
Proof.
  intros Hn r Hok. destruct (Reader.take n r) as [[x r']|e] eqn:Ht.
  - apply take_ok in Ht as (R & _); [|done]. by apply reads_ok in R as [_ ?].
  - unfold Reader.take in Ht. destruct (checked_add _ _ _); [destruct (get_range _ _ _)|]; simplify_eq; auto using length_safe, end_safe.
Qed.

Lemma safe_byte `{SafeErrors E} : safe (Reader.byte (E := option E)).
Proof. apply safe_bind; [by apply safe_take|]. intros [|b l]; [intros r Hok; apply end_safe|apply safe_ret]. Qed.

Lemma safe_many {E A} n (rd : ReaderE (option E) A) : safe rd -> safe (Reader.many n rd).
Proof.
  intros Hrd. induction n as [|n IH]; cbn [Reader.many]; [apply safe_ret|].
  apply safe_bind; [done|]. intros x. apply safe_bind; [done|]. intros xs. apply safe_ret.
Qed.

Lemma safe_vec `{SafeErrors E} {A} too_many (rd : ReaderE (option E) A) : safe rd -> safe (Reader.vec too_many rd).
Proof.
  intros Hrd. apply safe_bind; [apply safe_bind; [by apply safe_take|intros; apply safe_ret]|]. intros n.
  apply safe_bind; [intros r Hok; unfold lift; destruct (try_from _ _); [done|apply length_safe]|]. intros count.
  apply safe_bind; [intros r Hok; unfold Reader.bounded; destruct (too_many _ _); [apply length_safe|done]|]. intros _. by apply safe_many.
Qed.

Lemma safe_prefix `{SafeErrors E} {F A} (wrap : F -> E) (decode : list byte -> option (result F (A * Z))) :
  (forall b, match decode b with None => False | Some (Ok (_, n)) => 0 <= n | _ => True end) -> safe (Reader.prefix wrap decode).
Proof.
  intros Hd r Hok. unfold Reader.prefix. specialize (Hd (drop (Z.to_nat (rd_offset r)) (rd_bytes r))).
  destruct (decode _) as [[[x n]|]|]; [|done..]. pose proof (safe_take n Hd r Hok) as Ht.
  by destruct (Reader.take n r) as [[y r']|].
Qed.

Lemma safe_fail {E A} (e : E) : safe (fail (Some e) : ReaderE (option E) A).
Proof. by intros r Hok. Qed.

Create HintDb safe.
#[export] Hint Resolve safe_ret safe_fail safe_bind safe_many : safe.
#[export] Hint Extern 1 (safe Reader.byte) => apply safe_byte : safe.
#[export] Hint Extern 1 (safe (Reader.vec _ _)) => apply safe_vec : safe.
#[export] Hint Extern 1 (safe (Reader.take _)) => apply safe_take; done : safe.
#[export] Hint Extern 1 (safe Reader.signature) => apply safe_take; done : safe.
#[export] Hint Extern 1 (safe Reader.u16) => apply safe_bind; [apply safe_take; done|intros; apply safe_ret] : safe.
#[export] Hint Extern 1 (safe Reader.u64) => apply safe_bind; [apply safe_take; done|intros; apply safe_ret] : safe.
#[export] Hint Extern 1 (safe Reader.u32) => apply safe_bind; [apply safe_take; done|intros; apply safe_ret] : safe.
