(* ===== verification/Crypto.v ===== *)
(** * Keys, signatures and the VRF: [crates/nano-crypto/src/lib.rs]

    The hash functions and the two curve libraries ([secp256k1],
    [curve25519_dalek]/[ed25519_dalek]) are third-party. Each is a class of
    operations, with a second class for the documented laws the code relies on;
    the wrappers of this crate are defined over the operations. *)

From S2P Require Import Prelude Primitives.

(** ** Third-party operations *)

(** [sha2] and [ripemd]. *)
Class Hashes : Type := {
  sha512_256 : list byte -> list byte;
  sha256 : list byte -> list byte;
  sha512 : list byte -> list byte;
  ripemd160 : list byte -> list byte;
}.

Class HashesOk `{Hashes} : Prop := {
  sha512_256_length : forall b, length (sha512_256 b) = 32%nat;
  sha256_length : forall b, length (sha256 b) = 32%nat;
  sha512_length : forall b, length (sha512 b) = 64%nat;
  ripemd160_length : forall b, length (ripemd160 b) = 20%nat;
}.

(** [nano_primitives::hash160]. *)
Definition hash160 `{Hashes} (data : list byte) : Hash160 := ripemd160 (sha256 data).

Lemma hash160_length `{HashesOk} b : length (hash160 b) = 20%nat.
Proof. apply ripemd160_length. Qed.

(** The [secp256k1] crate. *)
Class Secp256k1 : Type := {
  secp_pk : Type;
  secp_pk_eq_dec : EqDecision secp_pk;
  secp_sk : Type;
  secp_sig : Type;
  secp_std : Type;
  secp_std_eq_dec : EqDecision secp_std;
  pk_from_slice : list byte -> option secp_pk;
  pk_serialize : secp_pk -> list byte;
  pk_serialize_uncompressed : secp_pk -> list byte;
  pk_from_secret_key : secp_sk -> secp_pk;
  (** [RecoverableSignature::from_compact(data, RecoveryId)]. *)
  sig_from_compact : list byte -> Z -> option secp_sig;
  sig_serialize_compact : secp_sig -> Z * list byte;
  sig_to_standard : secp_sig -> secp_std;
  std_normalize_s : secp_std -> secp_std;
  recover_ecdsa : list byte -> secp_sig -> option secp_pk;
  sign_ecdsa_recoverable : list byte -> secp_sk -> secp_sig;
}.
#[export] Existing Instance secp_pk_eq_dec.
#[export] Existing Instance secp_std_eq_dec.

Class Secp256k1Ok `{Secp256k1} : Prop := {
  pk_serialize_length : forall pk, length (pk_serialize pk) = 33%nat;
  pk_serialize_uncompressed_length : forall pk, length (pk_serialize_uncompressed pk) = 65%nat;
  (** A signature survives its compact form. *)
  sig_compact_inverse : forall s, let '(id, data) := sig_serialize_compact s in
    0 <= id <= 3 /\ length data = 64%nat /\ sig_from_compact data id = Some s;
  (** Public-key recovery returns the signer's key. *)
  recover_signed : forall digest sk,
    recover_ecdsa digest (sign_ecdsa_recoverable digest sk) = Some (pk_from_secret_key sk);
  (** The library signs with a low [s]. *)
  sign_low_s : forall digest sk,
    std_normalize_s (sig_to_standard (sign_ecdsa_recoverable digest sk)) =
    sig_to_standard (sign_ecdsa_recoverable digest sk);
}.

(** ** Message signatures and keys *)

Inductive CryptoError : Type :=
| InvalidDigest
| InvalidRecoveryId
| InvalidSignature
| InvalidPublicKey
| InvalidPrivateKey
| HighS
| SignatureMismatch.

Module MessageSignature.
Section Ops.
Context `{Secp256k1}.

(** [MessageSignature([u8; 65])] is a byte list; [self.0[0]] is its head. *)
Definition recoverable_signature (s : list byte) : result CryptoError secp_sig :=
  match s with
  | [] => Err InvalidRecoveryId
  | id :: compact =>
      if 3 <? u8 id then Err InvalidRecoveryId
      else or_err (sig_from_compact compact (u8 id)) InvalidSignature
  end.

Definition recover (s digest : list byte) : result CryptoError secp_pk :=
  let? signature := recoverable_signature s in
  or_err (recover_ecdsa digest signature) InvalidSignature.

Definition is_low_s (s : list byte) : result CryptoError bool :=
  let? signature := recoverable_signature s in
  let standard := sig_to_standard signature in
  Ok (bool_decide (std_normalize_s standard = standard)).

End Ops.
End MessageSignature.

Module StacksPublicKey.
Section Ops.
Context `{Secp256k1}.

Definition from_bytes (bytes : list byte) : result CryptoError secp_pk :=
  or_err (pk_from_slice bytes) InvalidPublicKey.

Definition to_bytes_compressed (k : secp_pk) : list byte := pk_serialize k.
Definition to_bytes_uncompressed (k : secp_pk) : list byte := pk_serialize_uncompressed k.

Definition verify_transaction (k : secp_pk) (digest signature : list byte) : result CryptoError unit :=
  let? low := MessageSignature.is_low_s signature in
  if negb low then Err HighS else
  let? recovered := MessageSignature.recover signature digest in
  if decide (recovered = k) then Ok tt else Err SignatureMismatch.

Definition verify_signer (k : secp_pk) (digest signature : list byte) : result CryptoError unit :=
  let? recovered := MessageSignature.recover signature digest in
  if decide (recovered = k) then Ok tt else Err SignatureMismatch.

End Ops.
End StacksPublicKey.

Module StacksPrivateKey.
Section Ops.
Context `{Secp256k1}.

Definition public_key (sk : secp_sk) : secp_pk := pk_from_secret_key sk.

(** [bytes[0] = recovery id; bytes[1..] = compact]. *)
Definition sign (sk : secp_sk) (digest : list byte) : list byte :=
  let '(recovery_id, compact) := sig_serialize_compact (sign_ecdsa_recoverable digest sk) in
  byte_of recovery_id :: compact.

End Ops.
End StacksPrivateKey.

Section SignatureLemmas.
Context `{Secp256k1Ok}.

Lemma sign_recoverable sk digest :
  MessageSignature.recoverable_signature (StacksPrivateKey.sign sk digest) =
  Ok (sign_ecdsa_recoverable digest sk).
Proof.
  unfold StacksPrivateKey.sign. pose proof (sig_compact_inverse (sign_ecdsa_recoverable digest sk)) as HI.
  destruct (sig_serialize_compact _) as [id data]. destruct HI as (Hid & _ & Hs).
  unfold MessageSignature.recoverable_signature. rewrite u8_byte_of, Z.mod_small by lia.
  rewrite (proj2 (Z.ltb_ge 3 id)) by lia. by rewrite Hs.
Qed.

Lemma recover_sign sk digest :
  MessageSignature.recover (StacksPrivateKey.sign sk digest) digest = Ok (StacksPrivateKey.public_key sk).
Proof. unfold MessageSignature.recover. by rewrite sign_recoverable, recover_signed. Qed.

Lemma is_low_s_sign sk digest : MessageSignature.is_low_s (StacksPrivateKey.sign sk digest) = Ok true.
Proof.
  unfold MessageSignature.is_low_s. rewrite sign_recoverable, sign_low_s.
  by rewrite bool_decide_eq_true_2.
Qed.

Lemma sign_length sk digest : length (StacksPrivateKey.sign sk digest) = 65%nat.
Proof.
  unfold StacksPrivateKey.sign. pose proof (sig_compact_inverse (sign_ecdsa_recoverable digest sk)) as HI.
  destruct (sig_serialize_compact _). simpl. destruct HI as (_ & -> & _). done.
Qed.

End SignatureLemmas.

(** ** The VRF over edwards25519 *)

Class Edwards : Type := {
  point : Type;
  scalar : Type;
  scalar_eq_dec : EqDecision scalar;
  basepoint : point;
  padd : point -> point -> point;
  psub : point -> point -> point;
  smul : scalar -> point -> point;
  sadd : scalar -> scalar -> scalar;
  smult : scalar -> scalar -> scalar;
  compress : point -> list byte;
  decompress : list byte -> option point;
  is_small_order : point -> bool;
  mul_by_cofactor : point -> point;
  (** In the prime-order subgroup; used by the laws only. *)
  is_torsion_free : point -> bool;
  scalar_from_canonical_bytes : list byte -> option scalar;
  scalar_to_bytes : scalar -> list byte;
  scalar_from_bytes_mod_order : list byte -> scalar;
  scalar_from_bytes_mod_order_wide : list byte -> scalar;
  clamp_integer : list byte -> list byte;
  (** [VerifyingKey::from_bytes] accepts the bytes. *)
  verifying_key_ok : list byte -> bool;
  (** [SigningKey::verifying_key().to_bytes()] of a secret key. *)
  verifying_key_of : list byte -> list byte;
}.
#[export] Existing Instance scalar_eq_dec.

Inductive VrfError : Type := VrfInvalidPublicKey | VrfInvalidProof | VrfInvalidChallenge.

Definition VRF_SUITE : byte := 0x03%u8.

Module VrfPublicKey.
Section Ops.
Context `{Edwards}.
(** A [VrfPublicKey] is kept as its 32 bytes, which is what [to_bytes] returns. *)
Definition from_bytes (bytes : list byte) : result VrfError (list byte) :=
  let? point := or_err (decompress bytes) VrfInvalidPublicKey in
  if is_small_order point then Err VrfInvalidPublicKey
  else if verifying_key_ok bytes then Ok bytes else Err VrfInvalidPublicKey.
End Ops.
End VrfPublicKey.

Module VrfProof.
Section Ops.
Context `{Edwards}.

Record t : Type := mk { gamma : point; challenge : scalar; response : scalar }.

Definition from_bytes (bytes : list byte) : result VrfError t :=
  if negb (Nat.eqb (length bytes) 80) then Err VrfInvalidProof else
  match decompress (take 32 bytes) with
  | None => Err VrfInvalidProof
  | Some gamma =>
      if is_small_order gamma then Err VrfInvalidProof else
      let challenge := take 16 (drop 32 bytes) ++ replicate 16 0%u8 in
      let response := drop 48 bytes in
      let? challenge := or_err (scalar_from_canonical_bytes challenge) VrfInvalidProof in
      let? response := or_err (scalar_from_canonical_bytes response) VrfInvalidProof in
      Ok (mk gamma challenge response)
  end.

Definition to_bytes (p : t) : list byte :=
  compress (gamma p) ++ take 16 (scalar_to_bytes (challenge p)) ++ scalar_to_bytes (response p).

End Ops.
End VrfProof.

Module Vrf.
Section Ops.
Context `{Hashes} `{Edwards}.

(** [counter.to_le_bytes()] filtered by [counter > 1 << (index * 8)]. *)
Definition counter_bytes (counter : Z) : list byte :=
  if counter =? 0 then [0%u8]
  else
    concat (map (fun '(index, b) =>
        if Z.shiftl 1 (Z.of_nat index * 8) <? counter then [b] else [])
      (zip (seq 0 8) (rev (to_be_bytes 8 counter)))).

(** The candidate point of one round of the loop. *)
Definition hash_candidate (public_key message : list byte) (counter : Z) : option point :=
  decompress (take 32 (sha512 ([VRF_SUITE; 0x01%u8] ++ public_key ++ message ++ counter_bytes counter))).

(** [fuel] bounds the rounds; [None] is an exhausted bound or counter. *)
Fixpoint hash_to_curve (fuel : nat) (public_key message : list byte) (counter : Z) : option point :=
  match fuel with
  | O => None
  | S fuel' =>
      match hash_candidate public_key message counter with
      | Some p => Some (mul_by_cofactor p)
      | None =>
          counter' ← checked_add U64_MAX counter 1;
          hash_to_curve fuel' public_key message counter'
      end
  end.

Definition challenge (first second third fourth : point) : result VrfError scalar :=
  let digest := sha512 ([VRF_SUITE; 0x02%u8] ++ compress first ++ compress second ++
                        compress third ++ compress fourth) in
  or_err (scalar_from_canonical_bytes (take 16 digest ++ replicate 16 0%u8)) VrfInvalidChallenge.

(** [scalar_bytes[0] &= 0xf8; scalar_bytes[31] &= 0x7f; scalar_bytes[31] |= 0x40]. *)
Definition clamp (b : list byte) : list byte :=
  alter (fun x => byte_of (Z.lor (Z.land (u8 x) 0x7f) 0x40)) 31%nat
    (alter (fun x => byte_of (Z.land (u8 x) 0xf8)) 0%nat b).

Definition expand_private_key (private_key : list byte) : list byte * scalar * list byte :=
  let digest := sha512 private_key in
  (verifying_key_of private_key,
   scalar_from_bytes_mod_order (clamp_integer (clamp (take 32 digest))),
   drop 32 digest).

Definition nonce (prefix : list byte) (hash_point : point) : scalar :=
  scalar_from_bytes_mod_order_wide (sha512 (prefix ++ compress hash_point)).

Definition prove (fuel : nat) (private_key message : list byte) : option (result VrfError VrfProof.t) :=
  let '(public_key, sk, nonce_prefix) := expand_private_key private_key in
  hash_point ← hash_to_curve fuel public_key message 0;
  let gamma := smul sk hash_point in
  let k := nonce nonce_prefix hash_point in
  Some (let? c := challenge hash_point gamma (smul k basepoint) (smul k hash_point) in
        Ok (VrfProof.mk gamma c (sadd k (smult c sk)))).

Definition verify (fuel : nat) (public_key : list byte) (proof : VrfProof.t) (message : list byte)
  : option (result VrfError bool) :=
  if is_small_order (VrfProof.gamma proof) then Some (Err VrfInvalidPublicKey)
  else
    hash_point ← hash_to_curve fuel public_key message 0;
    match decompress public_key with
    | None => Some (Err VrfInvalidPublicKey)
    | Some public_point =>
        let first := psub (smul (VrfProof.response proof) basepoint)
                          (smul (VrfProof.challenge proof) public_point) in
        let second := psub (smul (VrfProof.response proof) hash_point)
                           (smul (VrfProof.challenge proof) (VrfProof.gamma proof)) in
        Some (let? c := challenge hash_point (VrfProof.gamma proof) first second in
              Ok (bool_decide (c = VrfProof.challenge proof)))
    end.

End Ops.
End Vrf.

(** The laws of edwards25519 the VRF uses. Scalars are taken modulo the order of
    the prime-order subgroup, so they act linearly on that subgroup only. *)
Class EdwardsOk `{Hashes} `{Edwards} : Prop := {
  basepoint_subgroup : is_torsion_free basepoint = true;
  cofactor_subgroup : forall p, is_torsion_free (mul_by_cofactor p) = true;
  smul_sadd : forall a b p, is_torsion_free p = true -> smul (sadd a b) p = padd (smul a p) (smul b p);
  smul_smult : forall a b p, is_torsion_free p = true -> smul (smult a b) p = smul a (smul b p);
  psub_padd : forall p q, psub (padd p q) q = p;
  decompress_compress : forall p, decompress (compress p) = Some p;
  compress_length : forall p, length (compress p) = 32%nat;
  scalar_bytes_inverse : forall s, scalar_from_canonical_bytes (scalar_to_bytes s) = Some s;
  scalar_to_bytes_length : forall s, length (scalar_to_bytes s) = 32%nat;
  scalar_canonical : forall b s, scalar_from_canonical_bytes b = Some s -> scalar_to_bytes s = b;
  clamp_integer_spec : forall b, length b = 32%nat -> clamp_integer b = Vrf.clamp b;
  (** RFC 8032 key generation. *)
  verifying_key_spec : forall sk, verifying_key_of sk =
    compress (smul (scalar_from_bytes_mod_order (Vrf.clamp (take 32 (sha512 sk)))) basepoint);
}.

Section VrfLemmas.
Context `{HashesOk} `{!Edwards, !EdwardsOk}.

Lemma clamp_length b : length (Vrf.clamp b) = length b.
Proof. unfold Vrf.clamp. by rewrite !length_alter. Qed.

Lemma clamp_idempotent b : Vrf.clamp (Vrf.clamp b) = Vrf.clamp b.
Proof.
  unfold Vrf.clamp.
  rewrite (list_alter_alter_ne _ _ _ 0%nat 31%nat), !list_alter_alter_eq by done.
  rewrite !(list_alter_alter_ne _ _ _ 31%nat 0%nat) by done.
  apply list_alter_ext; [by intros []|]. by apply list_alter_ext; [intros []|].
Qed.

Lemma hash_to_curve_torsion_free fuel pk m c p :
  Vrf.hash_to_curve fuel pk m c = Some p -> is_torsion_free p = true.
Proof.
  revert c. induction fuel as [|fuel IH]; intros c; simpl; [done|].
  destruct (Vrf.hash_candidate _ _ _); [intros [= <-]; apply cofactor_subgroup|].
  destruct (checked_add _ _ _); simpl; [apply IH|done].
Qed.

(** Once the loop returns, more fuel does not change its result. *)
Lemma hash_to_curve_fuel fuel fuel' pk m c p :
  (fuel <= fuel')%nat -> Vrf.hash_to_curve fuel pk m c = Some p ->
  Vrf.hash_to_curve fuel' pk m c = Some p.
Proof.
  revert fuel' c. induction fuel as [|fuel IH]; intros [|fuel'] c Hle; simpl; try done; try lia.
  destruct (Vrf.hash_candidate _ _ _); [done|].
  destruct (checked_add _ _ _); simpl; [apply IH; lia|done].
Qed.

(** The linear combination [verify] computes undoes the response. *)
Lemma response_cancels k c s p : is_torsion_free p = true ->
  psub (smul (sadd k (smult c s)) p) (smul c (smul s p)) = smul k p.
Proof. intros Hp. by rewrite smul_sadd, smul_smult, psub_padd by done. Qed.

(** C26: A proof made by Vrf::prove for a key verifies under that key's public key for
    the same message, given the group laws of edwards25519 and a gamma that is not of
    small order. *)
Theorem vrf_prove_verify (fuel : nat) (private_key message : list byte) (proof : VrfProof.t)
  (Hprove : Vrf.prove fuel private_key message = Some (Ok proof))
  (Horder : is_small_order (VrfProof.gamma proof) = false) :
  Vrf.verify fuel (verifying_key_of private_key) proof message = Some (Ok true).
Proof.
  unfold Vrf.prove, Vrf.expand_private_key in Hprove.
  destruct (Vrf.hash_to_curve _ _ _ _) as [hp|] eqn:Hh; [|done]. cbn [mbind option_bind] in Hprove.
  rewrite clamp_integer_spec, clamp_idempotent in Hprove
    by (rewrite clamp_length, length_take, sha512_length; lia).
  set (sk := scalar_from_bytes_mod_order _) in Hprove.
  destruct (Vrf.challenge _ _ _ _) as [c|] eqn:Hc; [|done]. injection Hprove as <-.
  unfold Vrf.verify. rewrite Horder, Hh. cbn [mbind option_bind VrfProof.gamma VrfProof.challenge VrfProof.response].
  rewrite verifying_key_spec, decompress_compress. fold sk.
  rewrite !response_cancels by (apply basepoint_subgroup || by eapply hash_to_curve_torsion_free).
  rewrite Hc. by rewrite bool_decide_eq_true_2.
Qed.

(** A proof with a 128-bit challenge survives its 80-byte form. *)
Lemma proof_bytes_inverse (p : VrfProof.t)
  (Hg : is_small_order (VrfProof.gamma p) = false)
  (Hc : drop 16 (scalar_to_bytes (VrfProof.challenge p)) = replicate 16 0%u8) :
  length (VrfProof.to_bytes p) = 80%nat /\ VrfProof.from_bytes (VrfProof.to_bytes p) = Ok p.
Proof.
  destruct p as [g c r]. cbn [VrfProof.gamma VrfProof.challenge] in *.
  assert (Hl : length (VrfProof.to_bytes (VrfProof.mk g c r)) = 80%nat).
  { unfold VrfProof.to_bytes. cbn [VrfProof.gamma VrfProof.challenge VrfProof.response].
    rewrite !length_app, length_take, compress_length, !scalar_to_bytes_length. lia. }
  split; [done|]. unfold VrfProof.from_bytes. rewrite Hl. cbn [Nat.eqb negb].
  unfold VrfProof.to_bytes. cbn [VrfProof.gamma VrfProof.challenge VrfProof.response].
  pose proof (compress_length g) as Hcl. pose proof (scalar_to_bytes_length c) as Hsl.
  rewrite take_app_length', decompress_compress, Hg by done.
  rewrite drop_app_length' by done.
  rewrite (take_app_length' (take 16 _)) by (rewrite length_take; lia).
  rewrite <- Hc, take_drop, scalar_bytes_inverse. cbn [or_err].
  rewrite (app_assoc (compress g)), drop_app_length', scalar_bytes_inverse
    by (rewrite length_app, length_take; lia). done.
Qed.

Lemma challenge_short a b c d s : Vrf.challenge a b c d = Ok s ->
  drop 16 (scalar_to_bytes s) = replicate 16 0%u8.
Proof.
  unfold Vrf.challenge. destruct (scalar_from_canonical_bytes _) as [s'|] eqn:E; [|done].
  intros [= <-]. rewrite (scalar_canonical _ _ E). rewrite drop_app_length'; [done|].
  rewrite length_take, sha512_length. lia.
Qed.

(** A proof made by Vrf::prove serializes to 80 bytes that parse back to it. *)
Theorem vrf_proved_bytes_roundtrip (fuel : nat) (private_key message : list byte) (proof : VrfProof.t)
  (Hprove : Vrf.prove fuel private_key message = Some (Ok proof))
  (Horder : is_small_order (VrfProof.gamma proof) = false) :
  length (VrfProof.to_bytes proof) = 80%nat /\
  VrfProof.from_bytes (VrfProof.to_bytes proof) = Ok proof.
Proof.
  apply proof_bytes_inverse; [done|]. unfold Vrf.prove, Vrf.expand_private_key in Hprove.
  destruct (Vrf.hash_to_curve _ _ _ _) as [hp|]; [|done]. cbn [mbind option_bind] in Hprove.
  destruct (Vrf.challenge _ _ _ _) as [c|] eqn:Hc; [|done]. injection Hprove as <-.
  by eapply challenge_short.
Qed.

End VrfLemmas.
