(* ===== verification/TxData.v ===== *)
(** * Transaction data: the types of [crates/nano-codec/src/lib.rs]

    One inductive per Rust enum and one record per struct, with the one-byte tag
    of each enum ([byte]) and its parser ([parse]). Fixed-size arrays, strings
    and Clarity values are byte lists; [TxWire] states which ones are valid. *)

From S2P Require Import Prelude Primitives Address CodecIO.

Module KeyEncoding.

Inductive t : Type := Compressed | Uncompressed.
#[global] Instance eq_dec : EqDecision t.
Proof. solve_decision. Defined.
Definition byte (m : t) : Byte.byte :=
  match m with
  | Compressed => 0%u8
  | Uncompressed => 1%u8
  end.
Definition parse (value : Byte.byte) : result CodecError t :=
  match value with
  | 0%u8 => Ok Compressed
  | 1%u8 => Ok Uncompressed
  | _ => Err InvalidKey
  end.
Lemma parse_byte_keyEncoding b a : parse b = Ok a <-> byte a = b.
Proof. split; [destruct b; intros H; try discriminate H; by injection H as <-|by destruct a; intros <-]. Qed.

End KeyEncoding.

Module SinglesigHashMode.

Inductive t : Type := P2pkh | P2wpkh.
#[global] Instance eq_dec : EqDecision t.
Proof. solve_decision. Defined.
Definition byte (m : t) : Byte.byte :=
  match m with
  | P2pkh => 0%u8
  | P2wpkh => 2%u8
  end.
Definition parse (value : Byte.byte) : result CodecError t :=
  match value with
  | 0%u8 => Ok P2pkh
  | 2%u8 => Ok P2wpkh
  | _ => Err InvalidCondition
  end.
Lemma parse_byte_singlesigHashMode b a : parse b = Ok a <-> byte a = b.
Proof. split; [destruct b; intros H; try discriminate H; by injection H as <-|by destruct a; intros <-]. Qed.

End SinglesigHashMode.

Module MultisigHashMode.

Inductive t : Type := P2sh | P2wsh.
#[global] Instance eq_dec : EqDecision t.
Proof. solve_decision. Defined.
Definition byte (m : t) : Byte.byte :=
  match m with
  | P2sh => 1%u8
  | P2wsh => 3%u8
  end.
Definition parse (value : Byte.byte) : result CodecError t :=
  match value with
  | 1%u8 => Ok P2sh
  | 3%u8 => Ok P2wsh
  | _ => Err InvalidCondition
  end.
Lemma parse_byte_multisigHashMode b a : parse b = Ok a <-> byte a = b.
Proof. split; [destruct b; intros H; try discriminate H; by injection H as <-|by destruct a; intros <-]. Qed.

End MultisigHashMode.

Module OrderIndependentMultisigHashMode.

Inductive t : Type := P2sh | P2wsh.
#[global] Instance eq_dec : EqDecision t.
Proof. solve_decision. Defined.
Definition byte (m : t) : Byte.byte :=
  match m with
  | P2sh => 5%u8
  | P2wsh => 7%u8
  end.
Definition parse (value : Byte.byte) : result CodecError t :=
  match value with
  | 5%u8 => Ok P2sh
  | 7%u8 => Ok P2wsh
  | _ => Err InvalidCondition
  end.
Lemma parse_byte_orderIndependentMultisigHashMode b a : parse b = Ok a <-> byte a = b.
Proof. split; [destruct b; intros H; try discriminate H; by injection H as <-|by destruct a; intros <-]. Qed.

End OrderIndependentMultisigHashMode.

Module AnchorMode.

Inductive t : Type := OnChainOnly | OffChainOnly | Any.
#[global] Instance eq_dec : EqDecision t.
Proof. solve_decision. Defined.
Definition byte (m : t) : Byte.byte :=
  match m with
  | OnChainOnly => 1%u8
  | OffChainOnly => 2%u8
  | Any => 3%u8
  end.
Definition parse (value : Byte.byte) : result CodecError t :=
  match value with
  | 1%u8 => Ok OnChainOnly
  | 2%u8 => Ok OffChainOnly
  | 3%u8 => Ok Any
  | _ => Err InvalidTransaction
  end.
Lemma parse_byte_anchorMode b a : parse b = Ok a <-> byte a = b.
Proof. split; [destruct b; intros H; try discriminate H; by injection H as <-|by destruct a; intros <-]. Qed.

End AnchorMode.

Module PostConditionMode.

Inductive t : Type := Deny | Allow | Originator.
#[global] Instance eq_dec : EqDecision t.
Proof. solve_decision. Defined.
Definition byte (m : t) : Byte.byte :=
  match m with
  | Deny => 2%u8
  | Allow => 1%u8
  | Originator => 3%u8
  end.
Definition parse (value : Byte.byte) : result CodecError t :=
  match value with
  | 1%u8 => Ok Allow
  | 2%u8 => Ok Deny
  | 3%u8 => Ok Originator
  | _ => Err InvalidTransaction
  end.
Lemma parse_byte_postConditionMode b a : parse b = Ok a <-> byte a = b.
Proof. split; [destruct b; intros H; try discriminate H; by injection H as <-|by destruct a; intros <-]. Qed.

End PostConditionMode.

Module ClarityVersion.

Inductive t : Type := Clarity1 | Clarity2 | Clarity3 | Clarity4 | Clarity5 | Clarity6.
#[global] Instance eq_dec : EqDecision t.
Proof. solve_decision. Defined.
Definition byte (m : t) : Byte.byte :=
  match m with
  | Clarity1 => 1%u8
  | Clarity2 => 2%u8
  | Clarity3 => 3%u8
  | Clarity4 => 4%u8
  | Clarity5 => 5%u8
  | Clarity6 => 6%u8
  end.
Definition parse (value : Byte.byte) : result CodecError t :=
  match value with
  | 1%u8 => Ok Clarity1
  | 2%u8 => Ok Clarity2
  | 3%u8 => Ok Clarity3
  | 4%u8 => Ok Clarity4
  | 5%u8 => Ok Clarity5
  | 6%u8 => Ok Clarity6
  | _ => Err InvalidPayload
  end.
Lemma parse_byte_clarityVersion b a : parse b = Ok a <-> byte a = b.
Proof. split; [destruct b; intros H; try discriminate H; by injection H as <-|by destruct a; intros <-]. Qed.

End ClarityVersion.

Module TenureChangeCause.

Inductive t : Type := BlockFound | Extended | ExtendedRuntime | ExtendedReadCount | ExtendedReadLength | ExtendedWriteCount | ExtendedWriteLength.
#[global] Instance eq_dec : EqDecision t.
Proof. solve_decision. Defined.
Definition byte (m : t) : Byte.byte :=
  match m with
  | BlockFound => 0%u8
  | Extended => 1%u8
  | ExtendedRuntime => 2%u8
  | ExtendedReadCount => 3%u8
  | ExtendedReadLength => 4%u8
  | ExtendedWriteCount => 5%u8
  | ExtendedWriteLength => 6%u8
  end.
Definition parse (value : Byte.byte) : result CodecError t :=
  match value with
  | 0%u8 => Ok BlockFound
  | 1%u8 => Ok Extended
  | 2%u8 => Ok ExtendedRuntime
  | 3%u8 => Ok ExtendedReadCount
  | 4%u8 => Ok ExtendedReadLength
  | 5%u8 => Ok ExtendedWriteCount
  | 6%u8 => Ok ExtendedWriteLength
  | _ => Err InvalidPayload
  end.
Lemma parse_byte_tenureChangeCause b a : parse b = Ok a <-> byte a = b.
Proof. split; [destruct b; intros H; try discriminate H; by injection H as <-|by destruct a; intros <-]. Qed.

End TenureChangeCause.

Module TransactionPayloadType.

Inductive t : Type :=
| TokenTransfer | SmartContract | ContractCall | PoisonMicroblock | Coinbase
| CoinbaseToAltRecipient | VersionedSmartContract | TenureChange | NakamotoCoinbase.

Definition parse (value : Byte.byte) : result CodecError t :=
  match value with
  | 0%u8 => Ok TokenTransfer
  | 1%u8 => Ok SmartContract
  | 2%u8 => Ok ContractCall
  | 3%u8 => Ok PoisonMicroblock
  | 4%u8 => Ok Coinbase
  | 5%u8 => Ok CoinbaseToAltRecipient
  | 6%u8 => Ok VersionedSmartContract
  | 7%u8 => Ok TenureChange
  | 8%u8 => Ok NakamotoCoinbase
  | _ => Err InvalidPayload
  end.

End TransactionPayloadType.

Module TransactionVersion.

Inductive t : Type := Mainnet | Testnet.

#[global] Instance eq_dec : EqDecision t.
Proof. solve_decision. Defined.

Definition for_network (network : Network.t) : t :=
  if Network.is_mainnet network then Mainnet else Testnet.

(** Only the high bit counts. *)
Definition parse (value : Byte.byte) : t :=
  if Z.land (u8 value) 0x80 =? 0 then Mainnet else Testnet.

Definition byte (v : t) : Byte.byte :=
  match v with Mainnet => 0%u8 | Testnet => 0x80%u8 end.

Lemma parse_byte_version v : parse (byte v) = v.
Proof. by destruct v. Qed.

Lemma byte_parse_version b : u8 (byte (parse b)) = Z.land (u8 b) 0x80.
Proof. by destruct b. Qed.

End TransactionVersion.

(** ** Authorization *)

Inductive AuthField : Type :=
| PublicKey (encoding : KeyEncoding.t) (bytes : list byte)
| Signature (encoding : KeyEncoding.t) (signature : list byte).

Record SinglesigCondition : Type := mkSinglesig {
  ss_hash_mode : SinglesigHashMode.t;
  ss_signer : Hash160;
  ss_nonce : Z;
  ss_fee : Z;
  ss_key_encoding : KeyEncoding.t;
  ss_signature : list byte;
}.

Record MultisigCondition : Type := mkMultisig {
  ms_hash_mode : MultisigHashMode.t;
  ms_signer : Hash160;
  ms_nonce : Z;
  ms_fee : Z;
  ms_fields : list AuthField;
  ms_signatures_required : Z;
}.

Record OrderIndependentMultisigCondition : Type := mkOrderIndependent {
  oi_hash_mode : OrderIndependentMultisigHashMode.t;
  oi_signer : Hash160;
  oi_nonce : Z;
  oi_fee : Z;
  oi_fields : list AuthField;
  oi_signatures_required : Z;
}.

Inductive SpendingCondition : Type :=
| Singlesig (condition : SinglesigCondition)
| Multisig (condition : MultisigCondition)
| OrderIndependentMultisig (condition : OrderIndependentMultisigCondition).

Inductive TransactionAuth : Type :=
| AuthStandard (origin : SpendingCondition)
| AuthSponsored (origin sponsor : SpendingCondition).

(** ** Principals and post-conditions *)

Inductive Principal : Type :=
| PrincipalStandard (address : StacksAddress.t)
| PrincipalContract (address : StacksAddress.t) (contract_name : list byte).

Inductive PostConditionPrincipal : Type :=
| PcOrigin
| PcStandard (address : StacksAddress.t)
| PcContract (address : StacksAddress.t) (contract_name : list byte).

Record AssetInfo : Type := mkAssetInfo {
  asset_address : StacksAddress.t;
  asset_contract_name : list byte;
  asset_name : list byte;
}.

Inductive FungibleCondition : Type :=
| SentEqual | SentGreater | SentGreaterEqual | SentLess | SentLessEqual.

Inductive NonFungibleCondition : Type := DoesNotSend | DoesSend | MaySend.

Inductive PoxCondition : Type := NotPerformed | MaybePerformed | Performed.

(** [ClarityValue(Vec<u8>)]: the wire bytes, checked but not interpreted. *)
Abbreviation ClarityValue := (list byte) (only parsing).

Inductive PostConditionData : Type :=
| PcStx (principal : PostConditionPrincipal) (condition : FungibleCondition) (amount : Z)
| PcFungible (principal : PostConditionPrincipal) (asset : AssetInfo)
    (condition : FungibleCondition) (amount : Z)
| PcNonFungible (principal : PostConditionPrincipal) (asset : AssetInfo)
    (asset_value : ClarityValue) (condition : NonFungibleCondition)
| PcStaking (principal : PostConditionPrincipal) (condition : FungibleCondition) (amount : Z)
| PcPox (principal : PostConditionPrincipal) (condition : PoxCondition).

Record PostCondition : Type := mkPostCondition {
  pc_data : PostConditionData;
  pc_bytes : list byte;
}.

(** ** Payloads *)

Record MicroblockHeader : Type := mkMicroblockHeader {
  sequence : Z;
  previous_block : StacksBlockId;
  mb_bytes : list byte;
}.

Record TenureChangePayload : Type := mkTenureChange {
  tenure_consensus_hash : ConsensusHash;
  previous_tenure_consensus_hash : ConsensusHash;
  bitcoin_view_consensus_hash : ConsensusHash;
  previous_tenure_end : StacksBlockId;
  previous_tenure_blocks : Z;
  cause : TenureChangeCause.t;
  public_key_hash : Hash160;
}.

Inductive TransactionPayloadData : Type :=
| TokenTransfer (recipient : Principal) (amount : Z) (memo : list byte)
| SmartContract (contract_name source : list byte)
| ContractCall (address : StacksAddress.t) (contract_name function_name : list byte)
    (arguments : list ClarityValue)
| PoisonMicroblock (first second : MicroblockHeader)
| Coinbase (payload : list byte)
| CoinbaseToAltRecipient (payload : list byte) (recipient : Principal)
| VersionedSmartContract (clarity_version : ClarityVersion.t) (contract_name source : list byte)
| TenureChange (payload : TenureChangePayload)
| NakamotoCoinbase (payload : list byte) (recipient : option Principal) (vrf_proof : list byte).

Record TransactionPayload : Type := mkPayload {
  pl_data : TransactionPayloadData;
  pl_bytes : list byte;
}.

(** [TransactionPayload::kind]. *)
Definition payload_kind (data : TransactionPayloadData) : TransactionPayloadType.t :=
  match data with
  | TokenTransfer _ _ _ => TransactionPayloadType.TokenTransfer
  | SmartContract _ _ => TransactionPayloadType.SmartContract
  | ContractCall _ _ _ _ => TransactionPayloadType.ContractCall
  | PoisonMicroblock _ _ => TransactionPayloadType.PoisonMicroblock
  | Coinbase _ => TransactionPayloadType.Coinbase
  | CoinbaseToAltRecipient _ _ => TransactionPayloadType.CoinbaseToAltRecipient
  | VersionedSmartContract _ _ _ => TransactionPayloadType.VersionedSmartContract
  | TenureChange _ => TransactionPayloadType.TenureChange
  | NakamotoCoinbase _ _ _ => TransactionPayloadType.NakamotoCoinbase
  end.

Record Transaction : Type := mkTransaction {
  tx_bytes : list byte;
  tx_version : TransactionVersion.t;
  tx_chain_id : Z;
  tx_auth : TransactionAuth;
  tx_anchor_mode : AnchorMode.t;
  tx_post_condition_mode : PostConditionMode.t;
  tx_post_conditions : list PostCondition;
  tx_payload : TransactionPayload;
}.
