(* ===== verification/TxCodec.v ===== *)
(** * The transaction codec: [crates/nano-codec/src/lib.rs]

    The reading functions [read_*] and [decode], the writing functions
    [encode*], and the grammar of serialized Clarity values that the scanner is
    proved to recognise. Proofs are in [TxWire]. *)

From Stdlib Require Import Strings.String.
From S2P Require Import Prelude Primitives Address CodecIO Crypto TxData.

Definition byte_string (s : string) : list byte := String.list_byte_of_string s.

(** ** Names and strings *)

Definition is_ascii (b : byte) : bool := u8 b <? 128.
Definition is_ascii_alphabetic (b : byte) : bool :=
  ((65 <=? u8 b) && (u8 b <=? 90)) || ((97 <=? u8 b) && (u8 b <=? 122)).
Definition is_ascii_digit (b : byte) : bool := (48 <=? u8 b) && (u8 b <=? 57).
Definition is_ascii_alphanumeric (b : byte) : bool := is_ascii_alphabetic b || is_ascii_digit b.
Definition is_ascii_graphic (b : byte) : bool := (33 <=? u8 b) && (u8 b <=? 126).

(** [matches!(character, ..)] over a set of characters. *)
Definition one_of (s : string) (b : byte) : bool := existsb (Byte.eqb b) (byte_string s).

(** [name.strip_prefix(alphabetic).is_some_and(|rest| rest.chars().all(tail))]. *)
Definition starts_alphabetic (tail : byte -> bool) (name : list byte) : bool :=
  match name with
  | first :: rest => is_ascii_alphabetic first && forallb tail rest
  | [] => false
  end.

Definition contract_name_grammatical (name : list byte) : bool :=
  bool_decide (name = byte_string "__transient") ||
  starts_alphabetic (fun c => is_ascii_alphanumeric c || one_of "-_" c) name.

Definition clarity_name_grammatical (name : list byte) : bool :=
  bool_decide (name ∈ map byte_string ["-"; "+"; "="; "/"; "*"; "<"; ">"; "<="; ">="])%string ||
  starts_alphabetic (fun c => is_ascii_alphanumeric c || one_of "-_!?+<>=/*" c) name.

Definition read_name (maximum : Z) : ReaderM (list byte) :=
  b ← Reader.byte;
  let length := u8 b in
  if (length =? 0) || (maximum <? length) then fail InvalidName else
  bytes ← Reader.take length;
  if negb (forallb is_ascii bytes) then fail InvalidName else
  mret bytes.

Definition read_contract_name (maximum : Z) : ReaderM (list byte) :=
  name ← read_name maximum;
  if negb (contract_name_grammatical name) then fail InvalidName else mret name.

Definition read_clarity_name : ReaderM (list byte) :=
  name ← read_name 128;
  if negb (clarity_name_grammatical name) then fail InvalidName else mret name.

Definition stacks_string_char (b : byte) : bool :=
  is_ascii_graphic b || bool_decide (b = 32%u8) || bool_decide (b = 9%u8) || bool_decide (b = 10%u8).

Definition read_stacks_string : ReaderM (list byte) :=
  n ← Reader.u32;
  length ← lift (or_err (try_from USIZE_MAX n) InvalidLength);
  bytes ← Reader.take length;
  if negb (forallb stacks_string_char bytes) then fail InvalidString else mret bytes.

(** ** Addresses and hashes *)

Definition read_address : ReaderM StacksAddress.t :=
  bytes ← Reader.take 21;
  match bytes with
  | version :: hash160 =>
      match StacksAddress.new version hash160 with
      | Ok a => mret a
      | Err _ => fail InvalidPrincipal
      end
  | [] => fail EndOfInput (* [take] returned 21 bytes *)
  end.

Definition read_consensus_hash : ReaderM ConsensusHash := Reader.take 20.
Definition read_block_id : ReaderM StacksBlockId := Reader.take 32.

(** ** Serialized Clarity values *)

Definition MAX_CLARITY_LENGTH : Z := 1024 * 1024.

(** The depth check stops the recursion at depth 33, so a fuel of 33 from depth 0
    is never exhausted ([TxWire.scan_fuel]). *)
Fixpoint scan_clarity_value (fuel : nat) (depth : Z) : ReaderM unit :=
  if 32 <? depth then fail InvalidClarityValue else
  match fuel with
  | O => fail InvalidClarityValue
  | S fuel' =>
      tag ← Reader.byte;
      match tag with
      | 0%u8 | 1%u8 => _ ← Reader.take 16; mret tt
      | 2%u8 | 13%u8 | 14%u8 =>
          n ← Reader.u32;
          length ← lift (or_err (try_from USIZE_MAX n) InvalidLength);
          if MAX_CLARITY_LENGTH <? length then fail InvalidClarityValue else
          _ ← Reader.take length; mret tt
      | 3%u8 | 4%u8 | 9%u8 => mret tt
      | 5%u8 => _ ← read_address; mret tt
      | 6%u8 => _ ← read_address; _ ← read_contract_name 128; mret tt
      | 7%u8 | 8%u8 | 10%u8 => _ ← scan_clarity_value fuel' (depth + 1); mret tt
      | 11%u8 =>
          length ← Reader.u32;
          if MAX_CLARITY_LENGTH <? length then fail InvalidClarityValue else
          _ ← Reader.many (Z.to_nat length) (scan_clarity_value fuel' (depth + 1)); mret tt
      | 12%u8 =>
          length ← Reader.u32;
          if MAX_CLARITY_LENGTH <? length then fail InvalidClarityValue else
          _ ← Reader.many (Z.to_nat length)
                (_ ← read_clarity_name; scan_clarity_value fuel' (depth + 1));
          mret tt
      | _ => fail InvalidClarityValue
      end
  end.

(** [reader.bytes[start..reader.position()].to_vec()] after a reading; [None] is
    the slicing panic. *)
Definition recording {A} (rd : ReaderM A) : ReaderM (A * list byte) := fun r =>
  let? (a, r') := rd r in
  match get_range (rd_bytes r') (rd_offset r) (rd_offset r') with
  | Some bytes => Ok ((a, bytes), r')
  | None => Err EndOfInput (* the offset only grows, so the range exists *)
  end.

Definition read_clarity_value : ReaderM ClarityValue :=
  p ← recording (scan_clarity_value 33 0); mret p.2.

(** ** Principals and post-conditions *)

Definition read_principal : ReaderM Principal :=
  tag ← Reader.byte;
  match tag with
  | 5%u8 => a ← read_address; mret (PrincipalStandard a)
  | 6%u8 => a ← read_address; n ← read_contract_name 128; mret (PrincipalContract a n)
  | _ => fail InvalidPrincipal
  end.

Definition read_post_condition_principal : ReaderM PostConditionPrincipal :=
  tag ← Reader.byte;
  match tag with
  | 1%u8 => mret PcOrigin
  | 2%u8 => a ← read_address; mret (PcStandard a)
  | 3%u8 => a ← read_address; n ← read_contract_name 40; mret (PcContract a n)
  | _ => fail InvalidPostCondition
  end.

Definition read_asset_info : ReaderM AssetInfo :=
  a ← read_address;
  c ← read_contract_name 40;
  n ← read_clarity_name;
  mret (mkAssetInfo a c n).

Definition parse_fungible_condition (b : byte) : result CodecError FungibleCondition :=
  match b with
  | 1%u8 => Ok SentEqual
  | 2%u8 => Ok SentGreater
  | 3%u8 => Ok SentGreaterEqual
  | 4%u8 => Ok SentLess
  | 5%u8 => Ok SentLessEqual
  | _ => Err InvalidPostCondition
  end.
Definition read_fungible_condition : ReaderM FungibleCondition :=
  b ← Reader.byte; lift (parse_fungible_condition b).

Definition parse_non_fungible_condition (b : byte) : result CodecError NonFungibleCondition :=
  match b with
  | 0x10%u8 => Ok DoesSend
  | 0x11%u8 => Ok DoesNotSend
  | 0x12%u8 => Ok MaySend
  | _ => Err InvalidPostCondition
  end.

Definition parse_pox_condition (b : byte) : result CodecError PoxCondition :=
  match b with
  | 0x30%u8 => Ok NotPerformed
  | 0x31%u8 => Ok MaybePerformed
  | 0x32%u8 => Ok Performed
  | _ => Err InvalidPostCondition
  end.

Definition read_post_condition : ReaderM PostConditionData :=
  tag ← Reader.byte;
  match tag with
  | 0%u8 =>
      p ← read_post_condition_principal;
      c ← read_fungible_condition;
      a ← Reader.u64;
      mret (PcStx p c a)
  | 1%u8 =>
      p ← read_post_condition_principal;
      i ← read_asset_info;
      c ← read_fungible_condition;
      a ← Reader.u64;
      mret (PcFungible p i c a)
  | 2%u8 =>
      p ← read_post_condition_principal;
      i ← read_asset_info;
      v ← read_clarity_value;
      c ← (b ← Reader.byte; lift (parse_non_fungible_condition b));
      mret (PcNonFungible p i v c)
  | 3%u8 =>
      p ← read_post_condition_principal;
      c ← read_fungible_condition;
      a ← Reader.u64;
      mret (PcStaking p c a)
  | 4%u8 =>
      p ← read_post_condition_principal;
      c ← (b ← Reader.byte; lift (parse_pox_condition b));
      mret (PcPox p c)
  | _ => fail InvalidPostCondition
  end.

(** ** Payloads *)

Definition read_microblock_header : ReaderM MicroblockHeader :=
  bytes ← Reader.take 132;
  mret (mkMicroblockHeader (from_be_bytes (take 2 (drop 1 bytes))) (take 32 (drop 3 bytes)) bytes).

(** The optional recipient of a Nakamoto coinbase. *)
Definition read_coinbase_recipient : ReaderM (option Principal) :=
  tag ← Reader.byte;
  match tag with
  | 9%u8 => mret None
  | 10%u8 => p ← read_principal; mret (Some p)
  | _ => fail InvalidPayload
  end.

Section Payload.
Context `{ED : Edwards}.

Definition read_payload : ReaderM TransactionPayloadData :=
  tag ← Reader.byte;
  kind ← lift (TransactionPayloadType.parse tag);
  match kind with
  | TransactionPayloadType.TokenTransfer =>
      recipient ← read_principal;
      amount ← Reader.u64;
      memo ← Reader.take 34;
      mret (TokenTransfer recipient amount memo)
  | TransactionPayloadType.SmartContract =>
      contract_name ← read_contract_name 40;
      source ← read_stacks_string;
      mret (SmartContract contract_name source)
  | TransactionPayloadType.ContractCall =>
      address ← read_address;
      contract_name ← read_contract_name 40;
      function_name ← read_clarity_name;
      arguments ← Reader.vec (fun count remaining => remaining <? count) read_clarity_value;
      mret (ContractCall address contract_name function_name arguments)
  | TransactionPayloadType.PoisonMicroblock =>
      first ← read_microblock_header;
      second ← read_microblock_header;
      if bool_decide (mb_bytes first = mb_bytes second) ||
         (negb (sequence first =? sequence second) &&
          negb (bool_decide (previous_block first = previous_block second)))
      then fail InvalidPayload
      else mret (PoisonMicroblock first second)
  | TransactionPayloadType.Coinbase =>
      payload ← Reader.take 32;
      mret (Coinbase payload)
  | TransactionPayloadType.CoinbaseToAltRecipient =>
      payload ← Reader.take 32;
      recipient ← read_principal;
      mret (CoinbaseToAltRecipient payload recipient)
  | TransactionPayloadType.VersionedSmartContract =>
      version ← (b ← Reader.byte; lift (ClarityVersion.parse b));
      contract_name ← read_contract_name 40;
      source ← read_stacks_string;
      mret (VersionedSmartContract version contract_name source)
  | TransactionPayloadType.TenureChange =>
      tenure ← read_consensus_hash;
      previous ← read_consensus_hash;
      bitcoin_view ← read_consensus_hash;
      tenure_end ← read_block_id;
      blocks ← Reader.u32;
      cause ← (b ← Reader.byte; lift (TenureChangeCause.parse b));
      key_hash ← Reader.hash160;
      mret (TenureChange (mkTenureChange tenure previous bitcoin_view tenure_end blocks cause key_hash))
  | TransactionPayloadType.NakamotoCoinbase =>
      payload ← Reader.take 32;
      recipient ← read_coinbase_recipient;
      vrf_proof ← Reader.take 80;
      match VrfProof.from_bytes vrf_proof with
      | Err _ => fail InvalidPayload
      | Ok _ => mret (NakamotoCoinbase payload recipient vrf_proof)
      end
  end.

(** ** Spending conditions *)

Definition read_field : ReaderM AuthField :=
  tag ← Reader.byte;
  match tag with
  | 0%u8 => b ← Reader.take 33; mret (PublicKey KeyEncoding.Compressed b)
  | 1%u8 => b ← Reader.take 65; mret (PublicKey KeyEncoding.Uncompressed b)
  | 2%u8 => s ← Reader.signature; mret (Signature KeyEncoding.Compressed s)
  | 3%u8 => s ← Reader.signature; mret (Signature KeyEncoding.Uncompressed s)
  | _ => fail InvalidField
  end.

Definition is_signature (f : AuthField) : bool :=
  match f with Signature _ _ => true | PublicKey _ _ => false end.
Definition signature_count (fields : list AuthField) : Z := len (List.filter is_signature fields).

Definition has_uncompressed (fields : list AuthField) : bool :=
  existsb (fun f => match f with
    | PublicKey KeyEncoding.Uncompressed _ | Signature KeyEncoding.Uncompressed _ => true
    | _ => false
    end) fields.

Definition decode_fields : ReaderM (Hash160 * Z * Z * list AuthField * Z) :=
  signer ← Reader.hash160;
  nonce ← Reader.u64;
  fee ← Reader.u64;
  fields ← Reader.vec (fun length remaining => remaining / 34 <? length) read_field;
  required ← Reader.u16;
  mret (signer, nonce, fee, fields, required).

Definition decode_multisig (hash_mode : MultisigHashMode.t) : ReaderM MultisigCondition :=
  p ← decode_fields;
  let '(signer, nonce, fee, fields, required) := p in
  if negb (signature_count fields =? required) then fail InvalidCondition else
  if bool_decide (hash_mode = MultisigHashMode.P2wsh) && has_uncompressed fields
  then fail InvalidCondition else
  mret (mkMultisig hash_mode signer nonce fee fields required).

Definition decode_order_independent (hash_mode : OrderIndependentMultisigHashMode.t)
  : ReaderM OrderIndependentMultisigCondition :=
  p ← decode_fields;
  let '(signer, nonce, fee, fields, required) := p in
  if (signature_count fields <? required) ||
     (bool_decide (hash_mode = OrderIndependentMultisigHashMode.P2wsh) && has_uncompressed fields)
  then fail InvalidCondition else
  mret (mkOrderIndependent hash_mode signer nonce fee fields required).

Definition decode_condition : ReaderM SpendingCondition :=
  mode ← Reader.byte;
  match mode with
  | 0%u8 | 2%u8 =>
      hash_mode ← lift (SinglesigHashMode.parse mode);
      signer ← Reader.hash160;
      nonce ← Reader.u64;
      fee ← Reader.u64;
      key_encoding ← (b ← Reader.byte; lift (KeyEncoding.parse b));
      if bool_decide (hash_mode = SinglesigHashMode.P2wpkh) &&
         negb (bool_decide (key_encoding = KeyEncoding.Compressed))
      then fail InvalidCondition else
      signature ← Reader.signature;
      mret (Singlesig (mkSinglesig hash_mode signer nonce fee key_encoding signature))
  | 1%u8 | 3%u8 =>
      hash_mode ← lift (MultisigHashMode.parse mode);
      c ← decode_multisig hash_mode;
      mret (Multisig c)
  | 5%u8 | 7%u8 =>
      hash_mode ← lift (OrderIndependentMultisigHashMode.parse mode);
      c ← decode_order_independent hash_mode;
      mret (OrderIndependentMultisig c)
  | _ => fail InvalidCondition
  end.

Definition read_auth : ReaderM TransactionAuth :=
  tag ← Reader.byte;
  match tag with
  | 4%u8 => c ← decode_condition; mret (AuthStandard c)
  | 5%u8 => o ← decode_condition; s ← decode_condition; mret (AuthSponsored o s)
  | _ => fail InvalidAuth
  end.

(** [TransactionAuth::decode]. *)
Definition decode_auth (bytes : list byte) : result CodecError (TransactionAuth * Z) :=
  let? (auth, r) := read_auth (Reader.new bytes) in
  Ok (auth, Reader.position r).

(** ** Transactions *)

(** The payloads that must be anchored on-chain. *)
Definition anchored_payload (data : TransactionPayloadData) : bool :=
  match data with
  | Coinbase _ | CoinbaseToAltRecipient _ _ | NakamotoCoinbase _ _ _ | PoisonMicroblock _ _ => true
  | _ => false
  end.

Definition read_recorded_post_condition : ReaderM PostCondition :=
  p ← recording read_post_condition; mret (mkPostCondition p.1 p.2).

(** [TransactionAuth::decode(&bytes[auth_start..])?] then [reader.take(auth_length)?]. *)
Definition read_nested_auth : ReaderM TransactionAuth := fun r =>
  let? (auth, auth_length) := decode_auth (drop (Z.to_nat (rd_offset r)) (rd_bytes r)) in
  let? (_, r') := Reader.take auth_length r in
  Ok (auth, r').

(** The part of [Transaction::decode] after the version byte. *)
Definition read_body (version : TransactionVersion.t) : ReaderM Transaction :=
  chain_id ← Reader.u32;
  auth ← read_nested_auth;
  anchor_mode ← (b ← Reader.byte; lift (AnchorMode.parse b));
  post_condition_mode ← (b ← Reader.byte; lift (PostConditionMode.parse b));
  post_conditions ←
    Reader.vec (fun count remaining => remaining / 11 <? count) read_recorded_post_condition;
  p ← recording read_payload;
  if negb (bool_decide (anchor_mode = AnchorMode.OnChainOnly)) && anchored_payload p.1
  then fail InvalidTransaction else
  mret (mkTransaction [] version chain_id auth anchor_mode post_condition_mode
          post_conditions (mkPayload p.1 p.2)).

(** [Transaction::decode]: the recorded bytes are the consumed ones with the
    version byte made canonical. *)
Definition decode_transaction (bytes : list byte) : result CodecError (Transaction * Z) :=
  let? (version_byte, r) := Reader.byte (Reader.new bytes) in
  let version := TransactionVersion.parse version_byte in
  let? (tx, r') := read_body version r in
  let length := Reader.position r' in
  let canonical := <[0%nat := TransactionVersion.byte version]> (take (Z.to_nat length) bytes) in
  Ok (mkTransaction canonical (tx_version tx) (tx_chain_id tx) (tx_auth tx) (tx_anchor_mode tx)
        (tx_post_condition_mode tx) (tx_post_conditions tx) (tx_payload tx), length).

End Payload.

(** ** Writing *)

Definition fungible_condition_byte (c : FungibleCondition) : byte :=
  match c with
  | SentEqual => 1%u8
  | SentGreater => 2%u8
  | SentGreaterEqual => 3%u8
  | SentLess => 4%u8
  | SentLessEqual => 5%u8
  end.
Definition encode_fungible_condition (c : FungibleCondition) : WriterM :=
  Writer.byte (fungible_condition_byte c).

Definition non_fungible_condition_byte (c : NonFungibleCondition) : byte :=
  match c with DoesSend => 0x10%u8 | DoesNotSend => 0x11%u8 | MaySend => 0x12%u8 end.

Definition pox_condition_byte (c : PoxCondition) : byte :=
  match c with NotPerformed => 0x30%u8 | MaybePerformed => 0x31%u8 | Performed => 0x32%u8 end.

Definition encode_asset_info (asset : AssetInfo) : WriterM :=
  Writer.address (asset_address asset) ;;;
  Writer.name (asset_contract_name asset) ;;;
  Writer.name (asset_name asset).

Definition encode_post_condition_principal (principal : PostConditionPrincipal) : WriterM :=
  match principal with
  | PcOrigin => Writer.byte 1
  | PcStandard address => Writer.byte 2 ;;; Writer.address address
  | PcContract address contract_name =>
      Writer.byte 3 ;;; Writer.address address ;;; Writer.name contract_name
  end.

Definition encode_post_condition (pc : PostConditionData) : WriterM :=
  match pc with
  | PcStx principal condition amount =>
      Writer.byte 0 ;;;
      encode_post_condition_principal principal ;;;
      encode_fungible_condition condition ;;;
      Writer.u64 amount
  | PcFungible principal asset condition amount =>
      Writer.byte 1 ;;;
      encode_post_condition_principal principal ;;;
      encode_asset_info asset ;;;
      encode_fungible_condition condition ;;;
      Writer.u64 amount
  | PcNonFungible principal asset asset_value condition =>
      Writer.byte 2 ;;;
      encode_post_condition_principal principal ;;;
      encode_asset_info asset ;;;
      Writer.raw asset_value ;;;
      Writer.byte (non_fungible_condition_byte condition)
  | PcStaking principal condition amount =>
      Writer.byte 3 ;;;
      encode_post_condition_principal principal ;;;
      encode_fungible_condition condition ;;;
      Writer.u64 amount
  | PcPox principal condition =>
      Writer.byte 4 ;;;
      encode_post_condition_principal principal ;;;
      Writer.byte (pox_condition_byte condition)
  end.

Definition encode_principal (principal : Principal) : WriterM :=
  match principal with
  | PrincipalStandard address => Writer.byte 5 ;;; Writer.address address
  | PrincipalContract address contract_name =>
      Writer.byte 6 ;;; Writer.address address ;;; Writer.name contract_name
  end.

Definition encode_coinbase_recipient (recipient : option Principal) : WriterM :=
  match recipient with
  | Some principal => Writer.byte 10 ;;; encode_principal principal
  | None => Writer.byte 9
  end.

Definition encode_payload (payload : TransactionPayloadData) : WriterM :=
  match payload with
  | TokenTransfer recipient amount memo =>
      Writer.byte 0 ;;; encode_principal recipient ;;; Writer.u64 amount ;;; Writer.raw memo
  | SmartContract contract_name source =>
      Writer.byte 1 ;;; Writer.name contract_name ;;; Writer.stacks_string source
  | ContractCall address contract_name function_name arguments =>
      Writer.byte 2 ;;;
      Writer.address address ;;;
      Writer.name contract_name ;;;
      Writer.name function_name ;;;
      write_vec Writer.raw arguments
  | PoisonMicroblock first second =>
      Writer.byte 3 ;;; Writer.raw (mb_bytes first) ;;; Writer.raw (mb_bytes second)
  | Coinbase payload => Writer.byte 4 ;;; Writer.raw payload
  | CoinbaseToAltRecipient payload recipient =>
      Writer.byte 5 ;;; Writer.raw payload ;;; encode_principal recipient
  | VersionedSmartContract clarity_version contract_name source =>
      Writer.byte 6 ;;;
      Writer.byte (ClarityVersion.byte clarity_version) ;;;
      Writer.name contract_name ;;;
      Writer.stacks_string source
  | TenureChange p =>
      Writer.byte 7 ;;;
      Writer.raw (tenure_consensus_hash p) ;;;
      Writer.raw (previous_tenure_consensus_hash p) ;;;
      Writer.raw (bitcoin_view_consensus_hash p) ;;;
      Writer.raw (previous_tenure_end p) ;;;
      Writer.u32 (previous_tenure_blocks p) ;;;
      Writer.byte (TenureChangeCause.byte (cause p)) ;;;
      Writer.hash160 (public_key_hash p)
  | NakamotoCoinbase payload recipient vrf_proof =>
      Writer.byte 8 ;;;
      Writer.raw payload ;;;
      encode_coinbase_recipient recipient ;;;
      Writer.raw vrf_proof
  end.

(** [TransactionPayload::new]; [None] is a panic of the writer. *)
Definition payload_new (data : TransactionPayloadData) : option TransactionPayload :=
  bytes ← Writer.finish (encode_payload data);
  Some (mkPayload data bytes).

(** [Writer::field]. *)
Definition write_field (field : AuthField) : WriterM :=
  match field with
  | PublicKey encoding bytes =>
      Writer.byte (match encoding with KeyEncoding.Compressed => 0 | KeyEncoding.Uncompressed => 1 end)%u8 ;;;
      Writer.raw bytes
  | Signature encoding signature =>
      Writer.byte (match encoding with KeyEncoding.Compressed => 2 | KeyEncoding.Uncompressed => 3 end)%u8 ;;;
      Writer.signature signature
  end.

Definition encode_fields (hash_mode : byte) (signer : Hash160) (nonce fee : Z)
  (fields : list AuthField) (signatures_required : Z) : WriterM :=
  Writer.byte hash_mode ;;;
  Writer.hash160 signer ;;;
  Writer.u64 nonce ;;;
  Writer.u64 fee ;;;
  write_vec write_field fields ;;;
  Writer.u16 signatures_required.

(** [SpendingCondition::encode]. *)
Definition encode_condition (c : SpendingCondition) : WriterM :=
  match c with
  | Singlesig c =>
      Writer.byte (SinglesigHashMode.byte (ss_hash_mode c)) ;;;
      Writer.hash160 (ss_signer c) ;;;
      Writer.u64 (ss_nonce c) ;;;
      Writer.u64 (ss_fee c) ;;;
      Writer.byte (KeyEncoding.byte (ss_key_encoding c)) ;;;
      Writer.signature (ss_signature c)
  | Multisig c =>
      encode_fields (MultisigHashMode.byte (ms_hash_mode c)) (ms_signer c) (ms_nonce c) (ms_fee c)
        (ms_fields c) (ms_signatures_required c)
  | OrderIndependentMultisig c =>
      encode_fields (OrderIndependentMultisigHashMode.byte (oi_hash_mode c)) (oi_signer c)
        (oi_nonce c) (oi_fee c) (oi_fields c) (oi_signatures_required c)
  end.

Definition write_auth (auth : TransactionAuth) : WriterM :=
  match auth with
  | AuthStandard condition => Writer.byte 4 ;;; encode_condition condition
  | AuthSponsored origin sponsor =>
      Writer.byte 5 ;;; encode_condition origin ;;; encode_condition sponsor
  end.

(** [TransactionAuth::encode]. *)
Definition encode_auth (auth : TransactionAuth) : option (list byte) := Writer.finish (write_auth auth).

(** What [Transaction::encode] writes after the version byte. *)
Definition write_body (tx : Transaction) : WriterM :=
  Writer.u32 (tx_chain_id tx) ;;;
  (fun w => auth ← encode_auth (tx_auth tx); Writer.raw auth w) ;;;
  Writer.byte (AnchorMode.byte (tx_anchor_mode tx)) ;;;
  Writer.byte (PostConditionMode.byte (tx_post_condition_mode tx)) ;;;
  write_vec (fun pc => encode_post_condition (pc_data pc)) (tx_post_conditions tx) ;;;
  encode_payload (pl_data (tx_payload tx)).

Definition write_transaction (tx : Transaction) : WriterM :=
  Writer.byte (TransactionVersion.byte (tx_version tx)) ;;; write_body tx.

(** [Transaction::encode]. *)
Definition encode_transaction (tx : Transaction) : option (list byte) :=
  Writer.finish (write_transaction tx).

(** [Transaction::new]. *)
Definition transaction_new (version : TransactionVersion.t) (auth : TransactionAuth)
  (payload : TransactionPayloadData) : option Transaction :=
  p ← payload_new payload;
  Some (mkTransaction [] version 0 auth AnchorMode.Any PostConditionMode.Deny [] p).

(** ** The grammar of serialized Clarity values

    [clarity_wire depth b]: [b] is the serialization of a value nested [depth]
    deep. This is the reference the scanner is compared with. *)

Definition contract_name_ok (maximum : Z) (n : list byte) : Prop :=
  0 < len n <= maximum /\ forallb is_ascii n = true /\ contract_name_grammatical n = true.
Definition clarity_name_ok (n : list byte) : Prop :=
  0 < len n <= 128 /\ forallb is_ascii n = true /\ clarity_name_grammatical n = true.
Definition stacks_string_ok (s : list byte) : Prop :=
  len s <= U32_MAX /\ forallb stacks_string_char s = true.

Definition address_bytes (a : StacksAddress.t) : list byte :=
  StacksAddress.version a :: StacksAddress.hash160 a.
Definition name_bytes (n : list byte) : list byte := byte_of (len n) :: n.

Inductive clarity_wire : Z -> list byte -> Prop :=
| cw_int d tag b : d <= 32 -> tag ∈ [0; 1]%u8 -> len b = 16 -> clarity_wire d (tag :: b)
| cw_bytes d tag b : d <= 32 -> tag ∈ [2; 13; 14]%u8 -> len b <= MAX_CLARITY_LENGTH ->
    clarity_wire d (tag :: to_be_bytes 4 (len b) ++ b)
| cw_unit d tag : d <= 32 -> tag ∈ [3; 4; 9]%u8 -> clarity_wire d [tag]
| cw_standard d a : d <= 32 -> StacksAddress.valid a -> clarity_wire d (5%u8 :: address_bytes a)
| cw_contract d a n : d <= 32 -> StacksAddress.valid a -> contract_name_ok 128 n ->
    clarity_wire d (6%u8 :: address_bytes a ++ name_bytes n)
| cw_wrap d tag v : d <= 32 -> tag ∈ [7; 8; 10]%u8 -> clarity_wire (d + 1) v ->
    clarity_wire d (tag :: v)
| cw_list d vs : d <= 32 -> len vs <= MAX_CLARITY_LENGTH -> Forall (clarity_wire (d + 1)) vs ->
    clarity_wire d (11%u8 :: to_be_bytes 4 (len vs) ++ concat vs)
| cw_tuple d kvs : d <= 32 -> len kvs <= MAX_CLARITY_LENGTH ->
    Forall (fun kv => clarity_name_ok kv.1 /\ clarity_wire (d + 1) kv.2) kvs ->
    clarity_wire d (12%u8 :: to_be_bytes 4 (len kvs) ++
                    concat (map (fun kv => name_bytes kv.1 ++ kv.2) kvs)).
