(* ===== verification/TxWire.v ===== *)
(** * Correctness of the transaction codec

    Every reading function of [TxCodec] is related to its writing function by an
    instance of [Wire]; the theorems about [decode_transaction] and
    [encode_transaction] compose those instances. *)

From Stdlib Require Import Strings.String.
From S2P Require Import Prelude Primitives Address CodecIO Crypto TxData TxCodec.

(** ** Names, strings and addresses *)

Definition name_ok (maximum : Z) (n : list byte) : Prop :=
  0 < len n <= maximum /\ forallb is_ascii n = true.

Lemma emits_name n : len n <= 255 -> emits (Writer.name n) (name_bytes n).
Proof.
  intros Hn w. unfold Writer.name, name_bytes. rewrite (proj2 (try_from_Some U8_MAX _ (len n))) by done.
  cbn [mbind option_bind]. unfold wseq, Writer.byte, Writer.raw. cbn [mbind option_bind].
  by rewrite <- app_assoc.
Qed.

Lemma emits_stacks_string s : len s <= U32_MAX ->
  emits (Writer.stacks_string s) (to_be_bytes 4 (len s) ++ s).
Proof.
  intros Hn w. unfold Writer.stacks_string. rewrite (proj2 (try_from_Some U32_MAX _ (len s))) by done.
  cbn [mbind option_bind]. unfold wseq, Writer.u32, Writer.raw. cbn [mbind option_bind].
  by rewrite <- app_assoc.
Qed.

Lemma emits_address a : emits (Writer.address a) (address_bytes a).
Proof. intros w. unfold Writer.address, wseq, Writer.byte, Writer.hash160, Writer.raw. cbn [mbind option_bind]. by rewrite <- app_assoc. Qed.

#[export] Instance name_wire maximum : maximum <= 255 -> Wire (read_name maximum) Writer.name (name_ok maximum).
Proof.
  intros Hmax. split.
  - intros r x r' Hok H. unfold read_name in H.
    apply bind_ok in H as (b & r0 & Hb & H). wire_steps.
    cbv zeta in H. reader_inv H. pose proof (u8_range b).
    apply take_ok in Hm as (R2 & Hl & _); [|lia].
    split; [split; [lia|done]|]. exists (name_bytes x). split; [apply emits_name; lia|].
    rewrite (emits_det _ _ _ E (emits_raw [b])) in R. unfold name_bytes.
    rewrite Hl, byte_of_u8. apply (reads_trans _ [b] _ x _ R R2).
  - intros x (Hl & Ha). exists (name_bytes x). split; [apply emits_name; lia|].
    intros r r' Hf R. apply (reads_split r [byte_of (len x)] x) in R as (r1 & R1 & R2).
    unfold read_name. rewrite (bind_run _ _ _ (byte_of (len x)) r1); cycle 1.
    { unfold Reader.byte. by rewrite (bind_run _ _ _ [byte_of (len x)] r1) by by apply take_reads. }
    rewrite u8_byte_of, Z.mod_small by lia.
    replace ((len x =? 0) || (maximum <? len x)) with false by lia.
    rewrite (bind_run _ _ _ x r'); [by rewrite Ha|].
    apply take_reads; [by eapply reads_fits|done|done].
Qed.

(** A reader followed by a check of the value read. *)
Lemma checked_wire {A} (rd : ReaderM A) wr valid (check : A -> bool) e `{!Wire rd wr valid} :
  Wire (x ← rd; if negb (check x) then fail e else mret x) wr (fun x => valid x /\ check x = true).
Proof.
  split.
  - intros r x r' Hok H. apply bind_ok in H as (y & r0 & Hm & H).
    reader_inv H. wire_steps. split; [done|]. wire_finish.
  - intros x [Hv Hc]. eapply codec_at_last; [by apply wire_complete|]. intros r. by rewrite Hc.
Qed.

Lemma wire_valid_ext {A} (rd : ReaderM A) wr (P Q : A -> Prop) :
  (forall x, P x <-> Q x) -> Wire rd wr P -> Wire rd wr Q.
Proof.
  intros HPQ [S C]. split.
  - intros r x r' Hok H. destruct (S r x r' Hok H) as [? ?]. split; [by apply HPQ|done].
  - intros x Hx. by apply C, HPQ.
Qed.

Lemma contract_name_wire maximum : maximum <= 255 ->
  Wire (read_contract_name maximum) Writer.name (contract_name_ok maximum).
Proof.
  intros Hm. eapply wire_valid_ext; [|apply checked_wire; by apply name_wire].
  intros x. unfold name_ok, contract_name_ok. tauto.
Qed.

#[export] Instance contract_name_40_wire : Wire (read_contract_name 40) Writer.name (contract_name_ok 40).
Proof. by apply contract_name_wire. Qed.
#[export] Instance contract_name_128_wire : Wire (read_contract_name 128) Writer.name (contract_name_ok 128).
Proof. by apply contract_name_wire. Qed.

#[export] Instance clarity_name_wire : Wire read_clarity_name Writer.name clarity_name_ok.
Proof.
  eapply wire_valid_ext; [|apply checked_wire; by apply name_wire].
  intros x. unfold name_ok, clarity_name_ok. tauto.
Qed.

#[export] Instance stacks_string_wire : Wire read_stacks_string Writer.stacks_string stacks_string_ok.
Proof.
  split.
  - intros r x r' Hok H. unfold read_stacks_string in H.
    apply bind_ok in H as (n & r0 & Hn & H). wire_steps. rewrite lift_usize_ok in H by done.
    reader_inv H.
    apply take_ok in Hm as (R2 & Hl & _); [|apply Hv].
    split; [split; [rewrite Hl; apply Hv|done]|].
    exists (to_be_bytes 4 (len x) ++ x). split; [apply emits_stacks_string; rewrite Hl; apply Hv|].
    rewrite (emits_det _ _ _ E (emits_raw _)) in R. rewrite Hl. by eapply reads_trans.
  - intros x [Hl Hc]. exists (to_be_bytes 4 (len x) ++ x). split; [by apply emits_stacks_string|].
    intros r r' Hf (r1 & R1 & R2)%reads_split. unfold read_stacks_string.
    assert (Hu : is_u32 (len x)) by (unfold is_u32; lia).
    destruct (wire_complete (rd := Reader.u32) (len x) Hu) as (b & E & C).
    rewrite (emits_det _ _ _ E (emits_raw _)) in C.
    rewrite (bind_run _ _ _ (len x) r1), lift_usize_ok by auto.
    rewrite (bind_run _ _ _ x r'); [by rewrite Hc|].
    apply take_reads; [by eapply reads_fits|done|done].
Qed.

#[export] Instance address_wire : Wire read_address Writer.address StacksAddress.valid.
Proof.
  split.
  - intros r x r' Hok H. unfold read_address in H.
    apply bind_ok in H as (bs & r0 & Ht & H). wire_steps.
    destruct bs as [|v h]; [done|]. destruct (StacksAddress.new v h) as [a|] eqn:Hn; [|done].
    reader_inv H. apply new_valid in Hn as [-> Hv31].
    split; [split; [done|unfold is_hash; simpl in *; lia]|].
    exists b. split; [|done]. rewrite (emits_det _ _ _ E (emits_raw _)). apply emits_address.
  - intros [v h] [Hv Hh]. exists (address_bytes (StacksAddress.mk v h)). split; [apply emits_address|].
    intros r r' Hf R. unfold read_address.
    rewrite (bind_run _ _ _ (v :: h) r'); cycle 1.
    { apply take_reads; [done|done|]. unfold is_hash in Hh. simpl in *. lia. }
    unfold StacksAddress.new. simpl in Hv. by rewrite (proj2 (Z.ltb_ge 31 (u8 v))) by lia.
Qed.

#[export] Instance consensus_hash_wire : Wire read_consensus_hash Writer.raw (fun h => len h = 20).
Proof. apply take_wire. Qed.
#[export] Instance block_id_wire : Wire read_block_id Writer.raw (fun h => len h = 32).
Proof. apply take_wire. Qed.

(** ** Serialized Clarity values *)

(** [recognises rd P]: the scanner [rd] accepts exactly the prefixes in [P]. *)
Record recognises (rd : ReaderM unit) (P : list byte -> Prop) : Prop := {
  rec_sound : forall r u r', reader_ok r -> rd r = Ok (u, r') -> exists bs, P bs /\ reads r bs r';
  rec_complete : forall bs r r', P bs -> fits r -> reads r bs r' -> rd r = Ok (tt, r');
}.

Lemma run_byte b bs r r' : fits r -> reads r (b :: bs) r' ->
  exists r1, Reader.byte r = Ok (b, r1) /\ fits r1 /\ reads r1 bs r'.
Proof.
  intros Hf R. apply (reads_split r [b] bs) in R as (r1 & R1 & R2). exists r1. split; [|split; [by eapply reads_fits|done]].
  unfold Reader.byte. by rewrite (bind_run _ _ _ [b] r1) by by apply take_reads.
Qed.

(** Run a reader whose bytes are known to come first. *)
Lemma run_wire {A} (rd : ReaderM A) wr valid `{!Wire rd wr valid} x b bs r r' :
  valid x -> emits (wr x) b -> fits r -> reads r (b ++ bs) r' ->
  exists r1, rd r = Ok (x, r1) /\ fits r1 /\ reads r1 bs r'.
Proof.
  intros Hv E Hf (r1 & R1 & R2)%reads_split. exists r1. split; [|split; [by eapply reads_fits|done]].
  destruct (wire_complete x Hv) as (b' & E' & C). rewrite (emits_det _ _ _ E' E) in C. by apply C.
Qed.

Lemma sound_bytes {A} (rd : ReaderM A) wr valid `{!Wire rd wr valid} r x r' b :
  reader_ok r -> rd r = Ok (x, r') -> emits (wr x) b -> valid x /\ reads r b r'.
Proof.
  intros Hok H E. destruct (wire_sound r x r' Hok H) as (Hv & b' & E' & R).
  by rewrite (emits_det _ _ _ E E').
Qed.

Lemma recognises_many rd P n : recognises rd P ->
  (forall r us r', reader_ok r -> Reader.many n rd r = Ok (us, r') ->
     exists bss, length bss = n /\ Forall P bss /\ reads r (concat bss) r') /\
  (forall bss r r', length bss = n -> Forall P bss -> fits r -> reads r (concat bss) r' ->
     exists us, Reader.many n rd r = Ok (us, r')).
Proof.
  intros [S C]. induction n as [|n [IHs IHc]]; cbn [Reader.many]; split.
  - intros r us r' Hok H. reader_inv H. exists []. by repeat split; [constructor|apply reads_nil].
  - intros [|] r r' Hl _ _ R; [|done]. apply reads_nil_inv in R as ->. by eexists.
  - intros r us r' Hok H. reader_inv H. destruct (S _ _ _ Hok Hm) as (b & Pb & R).
    destruct (IHs _ _ _ (proj2 (reads_ok _ _ _ R)) Hm0) as (bss & Hl & HP & R').
    exists (b :: bss). split; [simpl; lia|]. split; [by constructor|]. by eapply reads_trans.
  - intros [|b bss] r r' Hl HP Hf R; [done|]. apply Forall_cons_iff in HP as [Pb HP].
    apply reads_split in R as (r1 & R1 & R2). rewrite (bind_run _ _ _ tt r1) by eauto.
    destruct (IHc bss r1 r' ltac:(simpl in Hl; lia) HP ltac:(by eapply reads_fits) R2) as [us Hus].
    rewrite (bind_run _ _ _ us r') by done. by eexists.
Qed.

Lemma recognises_entry fuel d : recognises (scan_clarity_value fuel d) (clarity_wire d) ->
  recognises (_ ← read_clarity_name; scan_clarity_value fuel d)
    (fun bs => exists k v, bs = name_bytes k ++ v /\ clarity_name_ok k /\ clarity_wire d v).
Proof.
  intros [S C]. split.
  - intros r u r' Hok H. apply bind_ok in H as (k & r1 & Hk & H).
    destruct (wire_sound r k r1 Hok Hk) as (Hv & b & E & R).
    destruct (S _ _ _ (proj2 (reads_ok _ _ _ R)) H) as (v & Hw & R').
    exists (b ++ v). split; [|by eapply reads_trans]. exists k, v. split; [|done].
    f_equal. apply (emits_det _ _ _ E), emits_name. unfold clarity_name_ok in Hv. lia.
  - intros bs r r' (k & v & -> & Hk & Hw) Hf R.
    destruct (run_wire read_clarity_name _ _ k _ _ _ _ Hk (emits_name k ltac:(unfold clarity_name_ok in Hk; lia)) Hf R)
      as (r1 & H1 & Hf1 & R1).
    rewrite (bind_run _ _ _ k r1) by done. by eapply C.
Qed.

Lemma clarity_wire_depth d b : clarity_wire d b -> d <= 32.
Proof. by destruct 1. Qed.

Lemma reads_byte r b r' : Reader.byte r = Ok (b, r') -> reader_ok r -> reads r [b] r'.
Proof. intros H Hok. by apply (sound_bytes Reader.byte _ _ r b r' [b] Hok H), emits_raw. Qed.

Lemma reads_u32 r n r' : Reader.u32 r = Ok (n, r') -> reader_ok r -> is_u32 n /\ reads r (to_be_bytes 4 n) r'.
Proof. intros H Hok. by apply (sound_bytes Reader.u32 _ _ r n r' _ Hok H), emits_raw. Qed.

(** The entries of a tuple, as the concatenation the grammar names. *)
Lemma entries_split d bss :
  Forall (fun bs => exists k v, bs = name_bytes k ++ v /\ clarity_name_ok k /\ clarity_wire d v) bss ->
  exists kvs, length kvs = length bss /\ concat bss = concat (map (fun kv => name_bytes kv.1 ++ kv.2) kvs) /\
    Forall (fun kv => clarity_name_ok kv.1 /\ clarity_wire d kv.2) kvs.
Proof.
  induction 1 as [|bs bss (k & v & -> & Hk & Hv) _ (kvs & Hl & Hc & HF)]; [by exists []|].
  exists ((k, v) :: kvs). simpl. rewrite Hc. split; [lia|]. split; [done|]. by constructor.
Qed.

(** Settle [tag] against the literals of a match. *)
Ltac tag_cases := repeat match goal with
  | H : _ ∈ _ :: _ |- _ => apply elem_of_cons in H as [-> | H]
  | H : _ ∈ [] |- _ => by apply elem_of_nil in H
  end.

Ltac elem_tac := repeat (apply elem_of_cons; first [left; reflexivity | right]).

Section Scan.
Context (fuel : nat) (d : Z) (Hd : d <= 32).
Context (IH : recognises (scan_clarity_value fuel (d + 1)) (clarity_wire (d + 1))).

Lemma scan_step_sound r u r' : reader_ok r -> scan_clarity_value (S fuel) d r = Ok (u, r') ->
  exists bs, clarity_wire d bs /\ reads r bs r'.
Proof.
  intros Hok H. cbn [scan_clarity_value] in H. rewrite (proj2 (Z.ltb_ge 32 d)) in H by lia.
  apply bind_ok in H as (tag & r0 & Ht & H). pose proof (reads_byte _ _ _ Ht Hok) as R0. clear Ht.
  pose proof (proj2 (reads_ok _ _ _ R0)) as Hok0.
  assert (Hone : forall bs, reads r0 bs r' -> reads r (tag :: bs) r').
  { intros bs R. by apply (reads_trans r [tag] r0 bs r'). }
  assert (Htake : (_ ← Reader.take 16; mret tt) r0 = Ok (u, r') -> exists bs, len bs = 16 /\ reads r0 bs r').
  { clear H. intros H. reader_inv H. apply take_ok in Hm as (R & Hl & _); [|done]. eauto. }
  assert (Hbuf : (n ← Reader.u32; length ← lift (or_err (try_from USIZE_MAX n) InvalidLength);
                  if MAX_CLARITY_LENGTH <? length then fail InvalidClarityValue else
                  _ ← Reader.take length; mret tt) r0 = Ok (u, r') ->
          exists b, len b <= MAX_CLARITY_LENGTH /\ reads r0 (to_be_bytes 4 (len b) ++ b) r').
  { clear H. intros H. apply bind_ok in H as (n & r1 & Hn & H). apply reads_u32 in Hn as [Hu R1]; [|done].
    rewrite lift_usize_ok in H by done. reader_inv H. apply take_ok in Hm as (R & Hl & _); [|apply Hu].
    exists x. rewrite Hl. split; [lia|]. by eapply reads_trans. }
  assert (Hwrap : (_ ← scan_clarity_value fuel (d + 1); mret tt) r0 = Ok (u, r') ->
          exists b, clarity_wire (d + 1) b /\ reads r0 b r').
  { clear H. intros H. reader_inv H. by eapply (rec_sound _ _ IH). }
  destruct tag; try discriminate H; clear -H Hd IH Hok0 Hone Htake Hbuf Hwrap.
  1,2: destruct (Htake H) as (b & Hl & R); eexists; split; [|by apply Hone]; apply cw_int; [done|elem_tac|done].
  1,12,13: destruct (Hbuf H) as (b & Hl & R); eexists; split; [|by apply Hone]; apply cw_bytes; [done|elem_tac|done].
  1,2,7: reader_inv H; eexists; split; [|by apply Hone, reads_nil]; apply cw_unit; [done|elem_tac].
  3,4,5: destruct (Hwrap H) as (b & Hw & R); eexists; split; [|by apply Hone]; apply cw_wrap; [done|elem_tac|done].
  - reader_inv H. destruct (sound_bytes read_address _ _ _ _ _ _ Hok0 Hm (emits_address x)) as [Hv R].
    eexists. split; [by apply cw_standard|]. by apply Hone.
  - reader_inv H. destruct (sound_bytes read_address _ _ _ _ _ _ Hok0 Hm (emits_address x)) as [Hv R].
    destruct (wire_sound _ _ _ (proj2 (reads_ok _ _ _ R)) Hm0) as (Hn & b & E & R').
    rewrite (emits_det _ _ _ E (emits_name x0 ltac:(unfold contract_name_ok in Hn; lia))) in R'.
    eexists. split; [by apply (cw_contract d x x0)|]. apply Hone. by eapply reads_trans.
  - reader_inv H. apply reads_u32 in Hm as [Hu R1]; [|done].
    destruct (proj1 (recognises_many _ _ (Z.to_nat x) IH) _ _ _ (proj2 (reads_ok _ _ _ R1)) Hm0) as (bss & Hl & HF & R2).
    assert (x = len bss) as -> by (unfold is_u32 in Hu; lia).
    eexists. split; [by apply (cw_list d bss); [|lia|]|]. apply Hone. by eapply reads_trans.
  - reader_inv H. apply reads_u32 in Hm as [Hu R1]; [|done].
    destruct (proj1 (recognises_many _ _ (Z.to_nat x) (recognises_entry _ _ IH)) _ _ _ (proj2 (reads_ok _ _ _ R1)) Hm0) as (bss & Hl & HF & R2).
    apply entries_split in HF as (kvs & Hk & Hcat & HF). rewrite Hcat in R2.
    assert (x = len kvs) as -> by (unfold is_u32 in Hu; lia).
    eexists. split; [by apply (cw_tuple d kvs); [|lia|]|]. apply Hone. by eapply reads_trans.
Qed.

Lemma scan_step_complete bs r r' : clarity_wire d bs -> fits r -> reads r bs r' ->
  scan_clarity_value (S fuel) d r = Ok (tt, r').
Proof.
  intros Hw Hf R. cbn [scan_clarity_value]. rewrite (proj2 (Z.ltb_ge 32 d)) by lia.
  destruct Hw as [d tag b _ Ht Hl|d tag b _ Ht Hl|d tag _ Ht|d a _ Ha|d a n _ Ha Hn|d tag v _ Ht Hv|d vs _ Hl HF|d kvs _ Hl HF];
    destruct (run_byte _ _ _ _ Hf R) as (r0 & Hb & Hf0 & R0);
    rewrite (bind_run _ _ _ _ _ Hb).
  - rewrite <- (app_nil_r b) in R0.
    destruct (run_wire (Reader.take 16) _ _ b b [] r0 r' Hl (emits_raw _) Hf0 R0) as (r1 & Hm & _ & R1).
    apply reads_nil_inv in R1 as <-. tag_cases; by rewrite (bind_run _ _ _ _ _ Hm).
  - assert (Hu : is_u32 (len b)) by (unfold is_u32, U32_MAX, MAX_CLARITY_LENGTH in *; lia).
    destruct (run_wire Reader.u32 _ _ (len b) _ b r0 r' Hu (emits_raw _) Hf0 R0) as (r1 & Hm & Hf1 & R1).
    assert (Ht' : Reader.take (len b) r1 = Ok (b, r')) by by apply take_reads.
    tag_cases; rewrite (bind_run _ _ _ _ _ Hm), lift_usize_ok by done;
      rewrite (proj2 (Z.ltb_ge _ _)) by lia; by rewrite (bind_run _ _ _ _ _ Ht').
  - apply reads_nil_inv in R0 as <-. by tag_cases.
  - rewrite <- (app_nil_r (address_bytes a)) in R0.
    destruct (run_wire read_address _ _ a _ [] r0 r' Ha (emits_address a) Hf0 R0) as (r1 & Hm & _ & R1).
    apply reads_nil_inv in R1 as <-. by rewrite (bind_run _ _ _ _ _ Hm).
  - destruct (run_wire read_address _ _ a _ _ r0 r' Ha (emits_address a) Hf0 R0) as (r1 & Hm & Hf1 & R1).
    rewrite (bind_run _ _ _ _ _ Hm). rewrite <- (app_nil_r (name_bytes n)) in R1.
    destruct (run_wire (read_contract_name 128) _ _ n _ [] r1 r' Hn
      (emits_name n ltac:(unfold contract_name_ok in Hn; lia)) Hf1 R1) as (r2 & Hm2 & _ & R2).
    apply reads_nil_inv in R2 as <-. by rewrite (bind_run _ _ _ _ _ Hm2).
  - pose proof (rec_complete _ _ IH v r0 r' Hv Hf0 R0) as Hm.
    tag_cases; by rewrite (bind_run _ _ _ _ _ Hm).
  - assert (Hu : is_u32 (len vs)) by (unfold is_u32, U32_MAX, MAX_CLARITY_LENGTH in *; lia).
    destruct (run_wire Reader.u32 _ _ (len vs) _ _ r0 r' Hu (emits_raw _) Hf0 R0) as (r1 & Hm & Hf1 & R1).
    rewrite (bind_run _ _ _ _ _ Hm), (proj2 (Z.ltb_ge _ _)) by lia.
    destruct (proj2 (recognises_many _ _ (Z.to_nat (len vs)) IH) vs r1 r' ltac:(lia) HF Hf1 R1) as [us Hus].
    by rewrite (bind_run _ _ _ _ _ Hus).
  - assert (Hu : is_u32 (len kvs)) by (unfold is_u32, U32_MAX, MAX_CLARITY_LENGTH in *; lia).
    destruct (run_wire Reader.u32 _ _ (len kvs) _ _ r0 r' Hu (emits_raw _) Hf0 R0) as (r1 & Hm & Hf1 & R1).
    rewrite (bind_run _ _ _ _ _ Hm), (proj2 (Z.ltb_ge _ _)) by lia.
    destruct (proj2 (recognises_many _ _ (Z.to_nat (len kvs)) (recognises_entry _ _ IH))
      (map (fun kv => name_bytes kv.1 ++ kv.2) kvs) r1 r') as [us Hus];
      [rewrite length_map; lia| |done|done|by rewrite (bind_run _ _ _ _ _ Hus)].
    apply Forall_map. eapply Forall_impl; [exact HF|]. intros [k v] [? ?]; simpl. eauto.
Qed.

End Scan.

(** The scanner recognises exactly the grammar, at every depth. *)
Lemma scan_recognises fuel d : 33 - d <= Z.of_nat fuel ->
  recognises (scan_clarity_value fuel d) (clarity_wire d).
Proof.
  revert d. induction fuel as [|fuel IH]; intros d Hfuel.
  - split.
    + intros r u r' _ H. cbn [scan_clarity_value] in H. by rewrite (proj2 (Z.ltb_lt 32 d)) in H by lia.
    + intros bs r r' Hw. apply clarity_wire_depth in Hw. lia.
  - destruct (Z.leb_spec d 32) as [Hd|Hd].
    + specialize (IH (d + 1) ltac:(lia)). split.
      * intros r u r'. by apply scan_step_sound.
      * intros bs r r'. by apply scan_step_complete.
    + split.
      * intros r u r' _ H. cbn [scan_clarity_value] in H. by rewrite (proj2 (Z.ltb_lt 32 d)) in H by lia.
      * intros bs r r' Hw. apply clarity_wire_depth in Hw. lia.
Qed.

Lemma bind_ext {A B} (m m' : ReaderM A) (k k' : A -> ReaderM B) r :
  (forall r, m r = m' r) -> (forall x r, k x r = k' x r) -> (m ≫= k) r = (m' ≫= k') r.
Proof. intros Hm Hk. unfold mbind, ReaderE_bind. rewrite Hm. by destruct (m' r) as [[? ?]|]. Qed.

Lemma many_ext {A} (rd rd' : ReaderM A) n : (forall r, rd r = rd' r) ->
  forall r, Reader.many n rd r = Reader.many n rd' r.
Proof.
  intros Hext. induction n as [|n IH]; intros r; cbn [Reader.many]; [done|].
  apply bind_ext; [done|]. intros x s. by apply bind_ext.
Qed.

(** With enough fuel for the depth left, more fuel changes nothing, errors included. *)
Lemma scan_fuel fuel fuel' d r : 33 - d <= Z.of_nat fuel -> 33 - d <= Z.of_nat fuel' ->
  scan_clarity_value fuel d r = scan_clarity_value fuel' d r.
Proof.
  revert fuel' d r. induction fuel as [|fuel IH]; intros [|fuel'] d r Hf Hf'; cbn [scan_clarity_value];
    try by rewrite (proj2 (Z.ltb_lt 32 d)) by lia.
  destruct (32 <? d) eqn:E; [done|].
  assert (IH' : forall r, scan_clarity_value fuel (d + 1) r = scan_clarity_value fuel' (d + 1) r)
    by (intros; apply IH; lia).
  apply bind_ext; [done|]. intros tag s.
  destruct tag; try done; try (apply bind_ext; [by apply IH'|done]).
  - apply bind_ext; [done|]. intros x s'. destruct (MAX_CLARITY_LENGTH <? x); [done|].
    apply bind_ext; [by apply many_ext|done].
  - apply bind_ext; [done|]. intros x s'. destruct (MAX_CLARITY_LENGTH <? x); [done|].
    apply bind_ext; [|done]. apply many_ext. intros s''. by apply bind_ext.
Qed.

Lemma recording_ok {A} (rd : ReaderM A) r a b r' :
  recording rd r = Ok ((a, b), r') <-> rd r = Ok (a, r') /\ get_range (rd_bytes r') (rd_offset r) (rd_offset r') = Some b.
Proof.
  unfold recording. destruct (rd r) as [[a' r0]|]; [|split; [done|by intros [? _]]].
  destruct (get_range _ _ _) as [bs|] eqn:E; split; intros H; simplify_eq; try done.
  - destruct H as [[= -> ->] H]. congruence.
  - destruct H as [[= -> ->] H]. congruence.
Qed.

Lemma recording_reads {A} (rd : ReaderM A) r a r' bs :
  rd r = Ok (a, r') -> reads r bs r' -> recording rd r = Ok ((a, bs), r').
Proof. intros H R. apply recording_ok. split; [done|]. by apply reads_range. Qed.

(** A scanner whose consumed bytes are kept. *)
Lemma recorded_wire rd P : recognises rd P -> Wire (p ← recording rd; mret p.2) Writer.raw P.
Proof.
  intros [S C]. split.
  - intros r x r' Hok H. apply bind_ok in H as ([u b] & r0 & Hr & H).
    reader_inv H. apply recording_ok in Hr as [Hs Hg]. destruct (S _ _ _ Hok Hs) as (bs & Hw & R).
    apply reads_range in R as R'. simpl. rewrite Hg in R'. simplify_eq.
    split; [done|]. exists bs. split; [apply emits_raw|done].
  - intros x Hx. exists x. split; [apply emits_raw|]. intros r r' Hf R.
    rewrite (bind_run _ _ _ (tt, x) r'); [done|]. by apply recording_reads; [apply (C x)|].
Qed.

#[export] Instance clarity_value_wire : Wire read_clarity_value Writer.raw (clarity_wire 0).
Proof. apply recorded_wire, scan_recognises. done. Qed.

(** ** Tags *)

#[export] Instance anchor_mode_wire : Wire (b ← Reader.byte; lift (AnchorMode.parse b))
  (fun m => Writer.byte (AnchorMode.byte m)) (fun _ => True).
Proof. apply tag_wire, AnchorMode.parse_byte_anchorMode. Qed.
#[export] Instance post_condition_mode_wire : Wire (b ← Reader.byte; lift (PostConditionMode.parse b))
  (fun m => Writer.byte (PostConditionMode.byte m)) (fun _ => True).
Proof. apply tag_wire, PostConditionMode.parse_byte_postConditionMode. Qed.
#[export] Instance clarity_version_wire : Wire (b ← Reader.byte; lift (ClarityVersion.parse b))
  (fun m => Writer.byte (ClarityVersion.byte m)) (fun _ => True).
Proof. apply tag_wire, ClarityVersion.parse_byte_clarityVersion. Qed.
#[export] Instance tenure_cause_wire : Wire (b ← Reader.byte; lift (TenureChangeCause.parse b))
  (fun m => Writer.byte (TenureChangeCause.byte m)) (fun _ => True).
Proof. apply tag_wire, TenureChangeCause.parse_byte_tenureChangeCause. Qed.
#[export] Instance key_encoding_wire : Wire (b ← Reader.byte; lift (KeyEncoding.parse b))
  (fun m => Writer.byte (KeyEncoding.byte m)) (fun _ => True).
Proof. apply tag_wire, KeyEncoding.parse_byte_keyEncoding. Qed.

Ltac tag_inverse := split; [match goal with |- ?p ?b = _ -> _ => destruct b end; intros H; try discriminate H;
  by injection H as <-|intros <-; match goal with |- _ = Ok ?a => by destruct a end].

#[export] Instance fungible_condition_wire : Wire read_fungible_condition encode_fungible_condition (fun _ => True).
Proof. apply tag_wire. intros b a. tag_inverse. Qed.
#[export] Instance non_fungible_condition_wire : Wire (b ← Reader.byte; lift (parse_non_fungible_condition b))
  (fun m => Writer.byte (non_fungible_condition_byte m)) (fun _ => True).
Proof. apply tag_wire. intros b a. tag_inverse. Qed.
#[export] Instance pox_condition_wire : Wire (b ← Reader.byte; lift (parse_pox_condition b))
  (fun m => Writer.byte (pox_condition_byte m)) (fun _ => True).
Proof. apply tag_wire. intros b a. tag_inverse. Qed.

(** ** Principals and post-conditions *)

(** One step of a completeness proof: run the reader that comes first on the
    bytes of the writer that comes first. *)
Ltac wire_at_step :=
  cbn beta iota;
  lazymatch goal with
  | |- codec_at _ (lift _ ≫= _) _ => eapply codec_at_lift; [reflexivity|]
  | |- codec_at (_ ;;; _) (?m ≫= _) _ =>
      let W := constr:(_ : Wire m _ _) in
      eapply codec_at_bind; [eapply (@wire_complete _ _ m _ _ W); solve [done | tauto]|]
  | |- codec_at _ (?m ≫= _) _ =>
      let W := constr:(_ : Wire m _ _) in
      eapply codec_at_last; [eapply (@wire_complete _ _ m _ _ W); solve [done | tauto]|try done]
  | |- codec_at _ ?m _ =>
      let W := constr:(_ : Wire m _ _) in
      eapply (@wire_complete _ _ m _ _ W); solve [done | tauto]
  end.
Ltac wire_at := repeat wire_at_step.

(** Soundness of a reader that dispatches on a tag byte. *)
Ltac wire_sound_tag rd :=
  let r := fresh "r" in let r' := fresh "r'" in let x := fresh "x" in
  let Hok := fresh "Hok" in let H := fresh "H" in
  intros r x r' Hok H; unfold rd in H;
  let tag := fresh "tag" in let r0 := fresh "r0" in let Ht := fresh "Ht" in
  apply bind_ok in H as (tag & r0 & Ht & H);
  destruct tag; try discriminate H; reader_inv H; wire_steps;
  (split; [first [done | cbn; tauto]|wire_finish]).

Definition principal_ok (p : Principal) : Prop :=
  match p with
  | PrincipalStandard a => StacksAddress.valid a
  | PrincipalContract a n => StacksAddress.valid a /\ contract_name_ok 128 n
  end.

#[export] Instance principal_wire : Wire read_principal encode_principal principal_ok.
Proof.
  split; [wire_sound_tag read_principal|]. intros [a|a n] Hx; cbn in Hx; cbn [encode_principal]; unfold read_principal; wire_at.
Qed.

Definition post_condition_principal_ok (p : PostConditionPrincipal) : Prop :=
  match p with
  | PcOrigin => True
  | PcStandard a => StacksAddress.valid a
  | PcContract a n => StacksAddress.valid a /\ contract_name_ok 40 n
  end.

#[export] Instance post_condition_principal_wire :
  Wire read_post_condition_principal encode_post_condition_principal post_condition_principal_ok.
Proof.
  split; [wire_sound_tag read_post_condition_principal|].
  intros [|a|a n] Hx; cbn in Hx; cbn [encode_post_condition_principal]; unfold read_post_condition_principal; wire_at.
Qed.

Definition asset_info_ok (a : AssetInfo) : Prop :=
  StacksAddress.valid (asset_address a) /\ contract_name_ok 40 (asset_contract_name a) /\
  clarity_name_ok (asset_name a).

#[export] Instance asset_info_wire : Wire read_asset_info encode_asset_info asset_info_ok.
Proof.
  split.
  - intros r x r' Hok H. unfold read_asset_info in H. reader_inv H. wire_steps. split; [done|wire_finish].
  - intros [a c n] Hx. unfold asset_info_ok, encode_asset_info, read_asset_info in *. cbn in Hx. cbn [asset_address asset_contract_name asset_name]. wire_at.
Qed.

Definition post_condition_ok (pc : PostConditionData) : Prop :=
  match pc with
  | PcStx p _ a | PcStaking p _ a => post_condition_principal_ok p /\ is_u64 a
  | PcFungible p i _ a => post_condition_principal_ok p /\ asset_info_ok i /\ is_u64 a
  | PcNonFungible p i v _ => post_condition_principal_ok p /\ asset_info_ok i /\ clarity_wire 0 v
  | PcPox p _ => post_condition_principal_ok p
  end.

#[export] Instance post_condition_wire : Wire read_post_condition encode_post_condition post_condition_ok.
Proof.
  split; [wire_sound_tag read_post_condition|].
  intros [] Hx; cbn in Hx; cbn [encode_post_condition]; unfold read_post_condition; wire_at.
Qed.

(** ** Payloads *)

Definition microblock_header_ok (h : MicroblockHeader) : Prop :=
  len (mb_bytes h) = 132 /\ sequence h = from_be_bytes (take 2 (drop 1 (mb_bytes h))) /\
  previous_block h = take 32 (drop 3 (mb_bytes h)).

#[export] Instance microblock_header_wire :
  Wire read_microblock_header (fun h => Writer.raw (mb_bytes h)) microblock_header_ok.
Proof.
  split.
  - intros r x r' Hok H. unfold read_microblock_header in H. reader_inv H. wire_steps.
    split; [done|wire_finish].
  - intros [s p b] (Hl & Hs & Hp). cbn in *. subst. unfold read_microblock_header.
    eapply codec_at_last; [|done]. by apply (wire_complete (rd := Reader.take 132)).
Qed.

(** The check on a poison-microblock pair. *)
Definition poison_ok (first second : MicroblockHeader) : Prop :=
  mb_bytes first <> mb_bytes second /\
  (sequence first = sequence second \/ previous_block first = previous_block second).

Lemma poison_check first second :
  bool_decide (mb_bytes first = mb_bytes second) ||
    (negb (sequence first =? sequence second) &&
     negb (bool_decide (previous_block first = previous_block second))) = false <-> poison_ok first second.
Proof.
  unfold poison_ok. rewrite orb_false_iff, bool_decide_eq_false, andb_false_iff, !negb_false_iff,
    Z.eqb_eq, bool_decide_eq_true. tauto.
Qed.

Definition coinbase_recipient_ok (recipient : option Principal) : Prop :=
  match recipient with Some p => principal_ok p | None => True end.

Section Payload.
Context `{ED : Edwards}.

Definition tenure_change_ok (p : TenureChangePayload) : Prop :=
  len (tenure_consensus_hash p) = 20 /\ len (previous_tenure_consensus_hash p) = 20 /\
  len (bitcoin_view_consensus_hash p) = 20 /\ len (previous_tenure_end p) = 32 /\
  is_u32 (previous_tenure_blocks p) /\ len (public_key_hash p) = 20.

Definition vrf_proof_ok (b : list byte) : Prop := len b = 80 /\ is_ok (VrfProof.from_bytes b) = true.

Definition payload_ok (p : TransactionPayloadData) : Prop :=
  match p with
  | TokenTransfer recipient amount memo => principal_ok recipient /\ is_u64 amount /\ len memo = 34
  | SmartContract n s => contract_name_ok 40 n /\ stacks_string_ok s
  | ContractCall a c f args => StacksAddress.valid a /\ contract_name_ok 40 c /\ clarity_name_ok f /\
      is_u32 (len args) /\ Forall (clarity_wire 0) args
  | PoisonMicroblock first second =>
      microblock_header_ok first /\ microblock_header_ok second /\ poison_ok first second
  | Coinbase payload => len payload = 32
  | CoinbaseToAltRecipient payload recipient => len payload = 32 /\ principal_ok recipient
  | VersionedSmartContract _ n s => contract_name_ok 40 n /\ stacks_string_ok s
  | TenureChange p => tenure_change_ok p
  | NakamotoCoinbase payload recipient proof =>
      len payload = 32 /\ coinbase_recipient_ok recipient /\ vrf_proof_ok proof
  end.

Lemma clarity_wire_nonempty d b : clarity_wire d b -> 1 <= len b.
Proof. destruct 1; simpl; lia. Qed.

#[export] Instance arguments_wire :
  Wire (Reader.vec (fun count remaining => remaining <? count) read_clarity_value)
    (write_vec Writer.raw) (fun xs => is_u32 (len xs) /\ Forall (clarity_wire 0) xs).
Proof.
  apply vec_wire with (k := 1).
  - apply clarity_value_wire.
  - intros x Hx. exists x. split; [apply emits_raw|by eapply clarity_wire_nonempty].
  - intros n rem ? ? ?. lia.
Qed.

#[export] Instance coinbase_recipient_wire :
  Wire read_coinbase_recipient encode_coinbase_recipient coinbase_recipient_ok.
Proof.
  split; [wire_sound_tag read_coinbase_recipient|].
  intros [p|] Hx; cbn [encode_coinbase_recipient]; unfold read_coinbase_recipient; wire_at.
Qed.

#[export] Instance payload_wire : Wire read_payload encode_payload payload_ok.
Proof.
  split.
  - intros r x r' Hok H. unfold read_payload in H.
    apply bind_ok in H as (tag & r0 & Ht & H). apply bind_ok in H as (kind & r1 & Hk & H).
    unfold lift in Hk.
    destruct tag; try discriminate Hk; cbn in Hk; injection Hk as <- <-; reader_inv H.
    all: try (wire_steps; split; [first [done | cbn; tauto]|wire_finish]).
    + wire_steps. apply poison_check in Hc. split; [done|wire_finish].
    + destruct (VrfProof.from_bytes x2) eqn:Hp; reader_inv H. wire_steps.
      split; [split; [done|split; [done|split; [done|by rewrite Hp]]]|wire_finish].
  - intros [| | | | | | |[]|] Hx; unfold payload_ok, tenure_change_ok, vrf_proof_ok in Hx; cbn in Hx;
      cbn [encode_payload]; unfold read_payload; wire_at.
    + intros r. rewrite (proj2 (poison_check first second)); tauto.
    + intros r. destruct Hx as (_ & _ & _ & Hp). by destruct (VrfProof.from_bytes vrf_proof).
Qed.

End Payload.

(** ** Spending conditions *)

Definition field_ok (f : AuthField) : Prop :=
  match f with
  | PublicKey KeyEncoding.Compressed b => len b = 33
  | PublicKey KeyEncoding.Uncompressed b => len b = 65
  | Signature _ s => len s = 65
  end.

#[export] Instance field_wire : Wire read_field write_field field_ok.
Proof.
  split; [wire_sound_tag read_field|].
  intros [[] b|[] b] Hx; cbn in Hx; cbn [write_field]; unfold read_field; wire_at.
Qed.

Lemma field_min_length f : field_ok f -> exists b, emits (write_field f) b /\ 34 <= len b.
Proof.
  intros Hf. destruct f as [[] b|[] b]; cbn in Hf; cbn [write_field];
    (eexists; split; [eapply emits_seq; apply emits_raw|]); rewrite length_app; simpl; lia.
Qed.

#[export] Instance fields_vec_wire :
  Wire (Reader.vec (fun length remaining => remaining / 34 <? length) read_field)
    (write_vec write_field) (fun xs => is_u32 (len xs) /\ Forall field_ok xs).
Proof.
  apply vec_wire with (k := 34); [apply field_wire|apply field_min_length|].
  intros n rem ? ? ?. apply Z.ltb_ge. apply Z.div_le_lower_bound; lia.
Qed.

(** What [decode_fields] reads, as the writer lays it out after the mode byte. *)
Definition write_fields_body (p : Hash160 * Z * Z * list AuthField * Z) : WriterM :=
  let '(signer, nonce, fee, fields, required) := p in
  Writer.hash160 signer ;;; Writer.u64 nonce ;;; Writer.u64 fee ;;;
  write_vec write_field fields ;;; Writer.u16 required.

Definition fields_body_ok (p : Hash160 * Z * Z * list AuthField * Z) : Prop :=
  let '(signer, nonce, fee, fields, required) := p in
  len signer = 20 /\ is_u64 nonce /\ is_u64 fee /\ (is_u32 (len fields) /\ Forall field_ok fields) /\
  is_u16 required.

#[export] Instance decode_fields_wire : Wire decode_fields write_fields_body fields_body_ok.
Proof.
  split.
  - intros r x r' Hok H. unfold decode_fields in H. reader_inv H. wire_steps. split; [done|wire_finish].
  - intros [[[[s n] f] fs] q] Hx. cbn in Hx. unfold write_fields_body, decode_fields. wire_at.
Qed.

Definition singlesig_ok (c : SinglesigCondition) : Prop :=
  len (ss_signer c) = 20 /\ is_u64 (ss_nonce c) /\ is_u64 (ss_fee c) /\ len (ss_signature c) = 65 /\
  (ss_hash_mode c = SinglesigHashMode.P2wpkh -> ss_key_encoding c = KeyEncoding.Compressed).

Definition multisig_body (c : MultisigCondition) :=
  (ms_signer c, ms_nonce c, ms_fee c, ms_fields c, ms_signatures_required c).
Definition multisig_ok (c : MultisigCondition) : Prop :=
  fields_body_ok (multisig_body c) /\ signature_count (ms_fields c) = ms_signatures_required c /\
  (ms_hash_mode c = MultisigHashMode.P2wsh -> has_uncompressed (ms_fields c) = false).

Definition order_independent_body (c : OrderIndependentMultisigCondition) :=
  (oi_signer c, oi_nonce c, oi_fee c, oi_fields c, oi_signatures_required c).
Definition order_independent_ok (c : OrderIndependentMultisigCondition) : Prop :=
  fields_body_ok (order_independent_body c) /\ oi_signatures_required c <= signature_count (oi_fields c) /\
  (oi_hash_mode c = OrderIndependentMultisigHashMode.P2wsh -> has_uncompressed (oi_fields c) = false).

Definition condition_ok (c : SpendingCondition) : Prop :=
  match c with
  | Singlesig c => singlesig_ok c
  | Multisig c => multisig_ok c
  | OrderIndependentMultisig c => order_independent_ok c
  end.

#[export] Instance multisig_wire mode :
  Wire (decode_multisig mode) (fun c => write_fields_body (multisig_body c))
    (fun c => ms_hash_mode c = mode /\ multisig_ok c).
Proof.
  split.
  - intros r x r' Hok H. unfold decode_multisig in H.
    apply bind_ok in H as ([[[[s n] f] fs] q] & r0 & Hm & H). reader_inv H. wire_steps.
    split; [|wire_finish]. split; [done|]. split; [done|]. cbn. split; [lia|].
    intros ->. by rewrite bool_decide_eq_true_2 in Hc0.
  - intros [m s n f fs q] (Hmode & Hb & Hq & Hu). cbn [ms_hash_mode ms_fields ms_signatures_required multisig_body] in *. subst m. unfold decode_multisig.
    eapply codec_at_last; [exact (@wire_complete _ _ _ _ _ decode_fields_wire (s, n, f, fs, q) Hb)|].
    intros r. cbn beta iota. rewrite (proj2 (Z.eqb_eq _ _)) by lia. cbn [negb].
    destruct (bool_decide _) eqn:E; [|done]. apply bool_decide_eq_true in E. by rewrite Hu.
Qed.

#[export] Instance order_independent_wire mode :
  Wire (decode_order_independent mode) (fun c => write_fields_body (order_independent_body c))
    (fun c => oi_hash_mode c = mode /\ order_independent_ok c).
Proof.
  split.
  - intros r x r' Hok H. unfold decode_order_independent in H.
    apply bind_ok in H as ([[[[s n] f] fs] q] & r0 & Hm & H). reader_inv H. wire_steps.
    apply orb_false_iff in Hc as [Hq Hu].
    split; [|wire_finish]. split; [done|]. split; [done|]. cbn. split; [lia|].
    intros ->. by rewrite bool_decide_eq_true_2 in Hu.
  - intros [m s n f fs q] (Hmode & Hb & Hq & Hu). cbn [oi_hash_mode oi_fields oi_signatures_required order_independent_body] in *. subst m. unfold decode_order_independent.
    eapply codec_at_last; [exact (@wire_complete _ _ _ _ _ decode_fields_wire (s, n, f, fs, q) Hb)|].
    intros r. cbn beta iota. rewrite (proj2 (Z.ltb_ge _ _)) by lia. cbn [orb].
    destruct (bool_decide _) eqn:E; [|done]. apply bool_decide_eq_true in E. by rewrite Hu.
Qed.

#[export] Instance condition_wire : Wire decode_condition encode_condition condition_ok.
Proof.
  split.
  - intros r x r' Hok H. unfold decode_condition in H.
    apply bind_ok in H as (mode & r0 & Ht & H).
    destruct mode; try discriminate H; apply bind_ok in H as (hm & r1 & Hk & H);
      unfold lift in Hk; cbn in Hk; injection Hk as <- <-; reader_inv H; wire_steps.
    1,3: split; [do 4 (split; [done|]); by destruct x3|wire_finish].
    all: destruct Hv0 as [Hmode Hok']; split; [done|]; destruct x0; cbn in Hmode; subst; wire_finish.
  - intros [[m s n f k g]|[m s n f fs q]|[m s n f fs q]] Hx; cbn [condition_ok] in Hx;
      unfold decode_condition; cbn [encode_condition].
    + destruct Hx as (? & ? & ? & ? & Hk). cbn in *.
      destruct m; cbn [SinglesigHashMode.byte]; wire_at; (replace (_ && _) with false by first [reflexivity | by rewrite (Hk eq_refl)]); wire_at.
    + unfold encode_fields. destruct m; wire_at_step;
        (eapply codec_at_lift; [reflexivity|]);
        (eapply codec_at_last; [exact (@wire_complete _ _ _ _ _ (multisig_wire _) _ (conj eq_refl Hx))|done]).
    + unfold encode_fields. destruct m; wire_at_step;
        (eapply codec_at_lift; [reflexivity|]);
        (eapply codec_at_last; [exact (@wire_complete _ _ _ _ _ (order_independent_wire _) _ (conj eq_refl Hx))|done]).
Qed.

Definition auth_ok (a : TransactionAuth) : Prop :=
  match a with
  | AuthStandard o => condition_ok o
  | AuthSponsored o s => condition_ok o /\ condition_ok s
  end.

#[export] Instance auth_wire : Wire read_auth write_auth auth_ok.
Proof.
  split; [wire_sound_tag read_auth|].
  intros [o|o s] Hx; cbn in Hx; cbn [write_auth]; unfold read_auth; wire_at.
Qed.
