(* ===== verification/TxTheorems.v ===== *)
(** * Theorems about [Transaction::decode] and [Transaction::encode] *)

From Stdlib Require Import Strings.String.
From S2P Require Import Prelude Primitives Address CodecIO Crypto TxData TxCodec TxWire.

(** ** Recorded readings *)

Lemma recording_wire {A} (rd : ReaderM A) wr valid `{!Wire rd wr valid} :
  Wire (recording rd) (fun p => wr p.1) (fun p => valid p.1 /\ emits (wr p.1) p.2).
Proof.
  split.
  - intros r [a b] r' Hok H. apply recording_ok in H as [H Hg].
    destruct (wire_sound r a r' Hok H) as (Hv & bs & E & R). cbn.
    apply reads_range in R as R'. rewrite Hg in R'. simplify_eq. split; [done|]. by exists bs.
  - intros [a b] [Hv E]. cbn in *. exists b. split; [done|]. intros r r' Hf R.
    apply recording_reads; [|done]. destruct (wire_complete a Hv) as (b' & E' & C).
    rewrite (emits_det _ _ _ E E') in R. by apply C.
Qed.

Definition recorded_post_condition_ok (pc : PostCondition) : Prop :=
  post_condition_ok (pc_data pc) /\ emits (encode_post_condition (pc_data pc)) (pc_bytes pc).

#[export] Instance recorded_post_condition_wire :
  Wire read_recorded_post_condition (fun pc => encode_post_condition (pc_data pc)) recorded_post_condition_ok.
Proof.
  pose proof (recording_wire read_post_condition _ _) as W. split.
  - intros r x r' Hok H. unfold read_recorded_post_condition in H. apply bind_ok in H as ([d b] & r0 & Hm & H).
    reader_inv H. destruct (@wire_sound _ _ _ _ _ W _ _ _ Hok Hm) as (Hv & bs & E & R).
    split; [done|by exists bs].
  - intros [d b] Hx. unfold read_recorded_post_condition.
    eapply codec_at_last; [exact (@wire_complete _ _ _ _ _ W (d, b) Hx)|done].
Qed.

(** ** The nested authorization *)

Definition write_nested_auth (a : TransactionAuth) : WriterM :=
  fun w => auth ← encode_auth a; Writer.raw auth w.

Lemma emits_nested_auth a b : emits (write_auth a) b -> emits (write_nested_auth a) b.
Proof. intros E w. unfold write_nested_auth, encode_auth. by rewrite (emits_finish _ _ E). Qed.

#[export] Instance nested_auth_wire : Wire read_nested_auth write_nested_auth auth_ok.
Proof.
  split.
  - intros r x r' Hok H. unfold read_nested_auth, decode_auth in H.
    set (sub := drop _ _) in H. destruct (read_auth _) as [[a r0]|] eqn:Ha; [|done].
    assert (Hsub : reader_ok (Reader.new sub)) by (unfold reader_ok; cbn; lia).
    destruct (wire_sound _ _ _ Hsub Ha) as (Hv & bs & E & R).
    apply reads_position in R as Hpos. cbn in Hpos. destruct Hpos as [Hpos _].
    unfold Reader.position in H. rewrite Hpos, Z.add_0_l in H.
    destruct (Reader.take (len bs) r) as [[s r1]|] eqn:Ht; [|done]. simplify_eq.
    apply take_ok in Ht as (R' & Hl & _); [|lia]. split; [done|].
    exists bs. split; [by apply emits_nested_auth|].
    apply reads_drop in R' as R''. fold sub in R''.
    destruct R as (p1 & q1 & E1 & _), R'' as (p2 & q2 & E2 & _). injection E1 as E1 L1. injection E2 as E2 L2.
    destruct p1; [|simpl in L1; lia]. destruct p2; [|simpl in L2; lia]. simpl in *.
    rewrite E1 in E2. apply app_inj_1 in E2 as [-> _]; [done|lia].
  - intros x Hx. destruct (wire_complete x Hx) as (bs & E & C). exists bs. split; [by apply emits_nested_auth|].
    intros r r' Hf R. unfold read_nested_auth, decode_auth.
    rewrite (C _ (mkReader (drop (Z.to_nat (rd_offset r)) (rd_bytes r)) (len bs)));
      [|unfold fits in *; cbn; rewrite length_drop; lia|by eapply reads_drop].
    cbn [Reader.position rd_offset]. by rewrite (take_reads r bs r') by done.
Qed.

(** The scanner of serialized Clarity values consumes [bytes] exactly when
    [bytes] is in the wire grammar [clarity_wire], which allows 32 levels of nesting;
    and fuel beyond 33 changes nothing, so the model is the code's recursion. *)
Theorem read_clarity_value_spec (bytes rest : list byte) (Hfits : len (bytes ++ rest) <= USIZE_MAX) :
  (read_clarity_value (Reader.new (bytes ++ rest)) = Ok (bytes, mkReader (bytes ++ rest) (len bytes)) <->
   clarity_wire 0 bytes) /\
  forall fuel r, (33 <= fuel)%nat -> scan_clarity_value fuel 0 r = scan_clarity_value 33 0 r.
Proof.
  split; [split|].
  - intros Hr. apply (wire_sound (rd := read_clarity_value)) in Hr; [by destruct Hr|].
    unfold reader_ok. cbn. lia.
  - intros Hw. destruct (wire_complete (rd := read_clarity_value) bytes Hw) as (b & E & C).
    rewrite (emits_det _ _ _ E (emits_raw bytes)) in C. apply C; [done|]. by exists [], rest.
  - intros fuel r Hf. apply scan_fuel; lia.
Qed.

(** ** Transactions *)

Section Transactions.
Context `{ED : Edwards}.

(** The payloads that need an on-chain anchor have one. *)
Definition anchor_ok (tx : Transaction) : Prop :=
  anchored_payload (pl_data (tx_payload tx)) = true -> tx_anchor_mode tx = AnchorMode.OnChainOnly.

Definition transaction_ok (tx : Transaction) : Prop :=
  is_u32 (tx_chain_id tx) /\ auth_ok (tx_auth tx) /\
  (is_u32 (len (tx_post_conditions tx)) /\ Forall recorded_post_condition_ok (tx_post_conditions tx)) /\
  (payload_ok (pl_data (tx_payload tx)) /\ emits (encode_payload (pl_data (tx_payload tx))) (pl_bytes (tx_payload tx))) /\
  anchor_ok tx.

Definition set_bytes (b : list byte) (tx : Transaction) : Transaction :=
  mkTransaction b (tx_version tx) (tx_chain_id tx) (tx_auth tx) (tx_anchor_mode tx)
    (tx_post_condition_mode tx) (tx_post_conditions tx) (tx_payload tx).

Lemma body_sound version r tx r' : reader_ok r -> read_body version r = Ok (tx, r') ->
  transaction_ok tx /\ tx_version tx = version /\ exists bs, emits (write_body tx) bs /\ reads r bs r'.
Proof.
  intros Hok H. unfold read_body in H.
  pose proof (recording_wire read_payload _ _) as W.
  do 4 (let x := fresh "x" in let r := fresh "r" in let Hm := fresh "Hm" in
        apply bind_ok in H as (x & r & Hm & H)).
  wire_steps. apply bind_ok in H as (pcs & r4 & Hpcs & H).
  destruct (vec_sound read_recorded_post_condition _ _ _ _ _ _ H3 Hpcs) as (Hu & HF & bp & Ep & Rp).
  apply bind_ok in H as ([pd pb] & r5 & Hpl & H).
  destruct (@wire_sound _ _ _ _ _ W _ _ _ (proj2 (reads_ok _ _ _ Rp)) Hpl) as ([Hpv Hpe] & bpl & Epl & Rpl).
  cbn [fst snd] in *. destruct (_ && _) eqn:Hanchor; [discriminate H|]. reader_inv H.
  split; [|split; [done|]].
  - do 4 (split; [done|]). intros Ha. cbn in *. rewrite Ha, andb_true_r in Hanchor.
    by apply negb_false_iff, bool_decide_eq_true in Hanchor.
  - exists (b ++ b0 ++ b1 ++ b2 ++ bp ++ bpl). split; [|reads_tac].
    unfold write_body. cbn [tx_chain_id tx_auth tx_anchor_mode tx_post_condition_mode tx_post_conditions tx_payload pl_data].
    repeat (apply emits_seq; [assumption|]). done.
Qed.

(** The bytes the post-conditions and the payload of a transaction take. *)
Definition tail_length (tx : Transaction) : Z :=
  len (concat (map pc_bytes (tx_post_conditions tx))) + len (pl_bytes (tx_payload tx)).

(** The count check of [Transaction::decode] passes with [extra] bytes after the
    transaction. *)
Definition count_admitted (tx : Transaction) (extra : Z) : Prop :=
  11 * len (tx_post_conditions tx) <= tail_length tx + extra.

Lemma emits_post_conditions pcs : Forall recorded_post_condition_ok pcs ->
  emits (Writer.each (fun pc => encode_post_condition (pc_data pc)) pcs) (concat (map pc_bytes pcs)).
Proof.
  induction 1 as [|pc pcs [_ E] _ IH]; cbn [Writer.each map concat]; [apply emits_skip|by apply emits_seq].
Qed.

Lemma body_complete tx : transaction_ok tx ->
  exists bs, emits (write_body tx) bs /\ forall r r', fits r -> reads r bs r' ->
    count_admitted tx (Reader.remaining r') ->
    read_body (tx_version tx) r = Ok (set_bytes [] tx, r').
Proof.
  destruct tx as [cb v c a am pm pcs [pd pb]]. intros (Hc & Ha & (Hu & HF) & (Hpv & Hpe) & Hanchor).
  cbn [tx_chain_id tx_auth tx_post_conditions tx_payload pl_data pl_bytes tx_anchor_mode tx_version] in *.
  destruct (wire_complete (rd := Reader.u32) c Hc) as (b1 & E1 & C1).
  destruct (wire_complete (rd := read_nested_auth) a Ha) as (b2 & E2 & C2).
  destruct (@wire_complete _ _ _ _ _ anchor_mode_wire am I) as (b3 & E3 & C3).
  destruct (@wire_complete _ _ _ _ _ post_condition_mode_wire pm I) as (b4 & E4 & C4).
  destruct (vec_complete read_recorded_post_condition _ _
    (fun count remaining => remaining / 11 <? count) pcs wire_complete Hu HF) as (b5 & E5 & C5).
  destruct (@wire_complete _ _ _ _ _ (recording_wire read_payload _ _) (pd, pb) (conj Hpv Hpe)) as (b6 & E6 & C6).
  assert (b6 = pb) as -> by exact (emits_det _ _ _ E6 Hpe).
  exists (b1 ++ b2 ++ b3 ++ b4 ++ b5 ++ pb). split.
  { unfold write_body. cbn. repeat (apply emits_seq; [assumption|]). done. }
  intros r r' Hf R Hcnt. unfold read_body.
  do 5 (let r1 := fresh "r" in let R1 := fresh "R" in
        apply reads_split in R as (r1 & R1 & R); pose proof (reads_fits _ _ _ R1 ltac:(assumption))).
  rewrite (bind_run _ _ _ _ _ (C1 _ _ Hf R0)), (bind_run _ _ _ _ _ (C2 _ _ H R1)),
    (bind_run _ _ _ _ _ (C3 _ _ H0 R2)), (bind_run _ _ _ _ _ (C4 _ _ H1 R3)).
  assert (E5' : emits (write_vec (fun pc => encode_post_condition (pc_data pc)) pcs)
                  (to_be_bytes 4 (len pcs) ++ concat (map pc_bytes pcs))).
  { apply emits_seq; [by apply count_u32|by apply emits_post_conditions]. }
  pose proof (emits_det _ _ _ E5 E5') as Hb5. subst b5.
  assert (Hg : ((Reader.remaining r3 - 4) / 11 <? len pcs) = false).
  { apply reads_remaining in R4. apply reads_remaining in R. rewrite length_app, length_to_be_bytes in R4.
    unfold count_admitted, tail_length in Hcnt. cbn in Hcnt.
    apply Z.ltb_ge, Z.div_le_lower_bound; lia. }
  rewrite (bind_run _ _ _ _ _ (C5 _ _ H2 R4 Hg)), (bind_run _ _ _ _ _ (C6 _ _ H3 R)). cbn [fst snd].
  replace (_ && _) with false; [done|]. symmetry. apply andb_false_iff. unfold anchor_ok in Hanchor. cbn in Hanchor.
  destruct (anchored_payload pd); [left|by right]. by rewrite Hanchor.
Qed.

Lemma decode_sound bytes tx n : decode_transaction bytes = Ok (tx, n) ->
  encode_transaction tx = Some (tx_bytes tx) /\ transaction_ok tx /\ n = len (tx_bytes tx) /\
  exists b0 tail rest, bytes = b0 :: tail ++ rest /\
    tx_bytes tx = TransactionVersion.byte (tx_version tx) :: tail /\
    tx_version tx = TransactionVersion.parse b0.
Proof.
  intros H. unfold decode_transaction in H. destruct (Reader.byte _) as [[b0 r]|] eqn:Hb; [|done].
  assert (Hok : reader_ok (Reader.new bytes)) by (unfold reader_ok; cbn; lia).
  pose proof (reads_byte _ _ _ Hb Hok) as R0.
  destruct (read_body _ r) as [[tx0 r']|] eqn:Hr; [|done]. injection H as <- <-.
  destruct (body_sound _ _ _ _ (proj2 (reads_ok _ _ _ R0)) Hr) as (Htx & Hv & bs & E & R).
  pose proof (reads_trans _ _ _ _ _ R0 R) as RR. apply reads_new_inv in RR as (rest & -> & ->).
  cbn [Reader.position rd_offset]. rewrite Nat2Z.id, take_app_length. cbn [tx_version tx_bytes].
  change (<[0%nat:=_]> ([b0] ++ bs)) with (TransactionVersion.byte (TransactionVersion.parse b0) :: bs).
  split; [|split; [done|split; [simpl; lia|]]].
  - apply emits_finish. rewrite <- Hv. apply (emits_seq _ _ [_] bs); [apply emits_raw|done].
  - exists b0, bs, rest. by rewrite Hv.
Qed.

(** C1: what [Transaction::decode] accepts re-encodes to exactly the bytes it
    recorded, which are the consumed prefix of the input with the version byte made
    canonical; the decoded transaction is well-formed, and the reported length is that
    of the recorded bytes. *)
Theorem decode_transaction_sound (bytes : list byte) (tx : Transaction) (n : Z)
  (H : decode_transaction bytes = Ok (tx, n)) :
  encode_transaction tx = Some (tx_bytes tx) /\ transaction_ok tx /\ n = len (tx_bytes tx) /\
  exists b0 tail rest, bytes = b0 :: tail ++ rest /\
    tx_bytes tx = TransactionVersion.byte (tx_version tx) :: tail /\
    tx_version tx = TransactionVersion.parse b0.
Proof. by apply (decode_sound bytes). Qed.

Lemma decode_encoded (tx : Transaction) (Htx : transaction_ok tx) :
  exists bs, encode_transaction tx = Some bs /\
    forall rest, len (bs ++ rest) <= USIZE_MAX -> count_admitted tx (len rest) ->
      decode_transaction (bs ++ rest) = Ok (set_bytes bs tx, len bs).
Proof.
  destruct (body_complete tx Htx) as (b & E & C).
  exists (TransactionVersion.byte (tx_version tx) :: b). split.
  { apply emits_finish. apply (emits_seq _ _ [_] b); [apply emits_raw|done]. }
  intros rest Hlen Hcnt. set (v := TransactionVersion.byte (tx_version tx)).
  set (bytes := (v :: b) ++ rest). unfold decode_transaction.
  assert (Hf : fits (Reader.new bytes)) by done.
  pose proof (reads_new bytes (v :: b) rest eq_refl) as R.
  destruct (run_byte _ _ _ _ Hf R) as (r1 & Hb & Hf1 & R1). rewrite Hb.
  unfold v. rewrite TransactionVersion.parse_byte_version.
  rewrite (C r1 (mkReader bytes (len (v :: b)))); [|done|done|].
  - cbn [Reader.position rd_offset]. f_equal. f_equal. rewrite Nat2Z.id. unfold bytes.
    rewrite take_app_length. done.
  - unfold Reader.remaining, saturating_sub, bytes. cbn [rd_bytes rd_offset].
    rewrite length_app, Nat2Z.inj_add. by replace (Z.max 0 _) with (len rest) by lia.
Qed.

(** A post-condition other than [Pox] takes at least the 11 bytes the count check
    of [Transaction::decode] charges for it. *)
Definition is_pox (pc : PostConditionData) : bool :=
  match pc with PcPox _ _ => true | _ => false end.

Lemma principal_nonempty p : post_condition_principal_ok p ->
  exists b, emits (encode_post_condition_principal p) b /\ 1 <= len b.
Proof.
  intros Hp. destruct p as [|a|a n]; cbn in Hp.
  - exists [1%u8]. split; [apply emits_raw|done].
  - exists ([2%u8] ++ address_bytes a).
    split; [apply emits_seq; [apply emits_raw|apply emits_address]|simpl; lia].
  - destruct Hp as [_ (Hn & _)]. exists ([3%u8] ++ address_bytes a ++ name_bytes n). split; [|simpl; lia].
    apply emits_seq; [apply emits_raw|]. apply emits_seq; [apply emits_address|apply emits_name; lia].
Qed.

Lemma post_condition_length pc b : post_condition_ok pc -> emits (encode_post_condition pc) b ->
  (if is_pox pc then 3 else 11) <= len b.
Proof.
  intros Hok E.
  destruct pc as [p c a|p i c a|p i v c|p c a|p c]; cbn [post_condition_ok] in Hok; cbn [is_pox];
    (destruct (principal_nonempty p ltac:(tauto)) as (bp & Ep & Lp));
    try (destruct (wire_complete i ltac:(tauto)) as (bi & Ei & _));
    cbn [encode_post_condition] in E.
  - rewrite (emits_det _ _ _ E (emits_seq _ _ _ _ (emits_raw _) (emits_seq _ _ _ _ Ep (emits_seq _ _ _ _ (emits_raw _) (emits_raw _))))).
    length_lia.
  - rewrite (emits_det _ _ _ E (emits_seq _ _ _ _ (emits_raw _) (emits_seq _ _ _ _ Ep (emits_seq _ _ _ _ Ei (emits_seq _ _ _ _ (emits_raw _) (emits_raw _)))))).
    length_lia.
  - assert (21 <= len bi).
    { unfold encode_asset_info in Ei. destruct Hok as (_ & ([_ Ha] & (Hc & _) & (Hn & _)) & _). unfold is_hash in Ha.
      rewrite (emits_det _ _ _ Ei (emits_seq _ _ _ _ (emits_address _) (emits_seq _ _ _ _ (emits_name (asset_contract_name i) ltac:(lia)) (emits_name (asset_name i) ltac:(lia))))).
      rewrite !length_app. simpl. lia. }
    rewrite (emits_det _ _ _ E (emits_seq _ _ _ _ (emits_raw _) (emits_seq _ _ _ _ Ep (emits_seq _ _ _ _ Ei (emits_seq _ _ _ _ (emits_raw _) (emits_raw _)))))).
    rewrite !length_app. simpl. lia.
  - rewrite (emits_det _ _ _ E (emits_seq _ _ _ _ (emits_raw _) (emits_seq _ _ _ _ Ep (emits_seq _ _ _ _ (emits_raw _) (emits_raw _))))).
    length_lia.
  - rewrite (emits_det _ _ _ E (emits_seq _ _ _ _ (emits_raw _) (emits_seq _ _ _ _ Ep (emits_raw _)))).
    rewrite !length_app. simpl. lia.
Qed.

Definition no_pox (tx : Transaction) : bool :=
  forallb (fun pc => negb (is_pox (pc_data pc))) (tx_post_conditions tx).

Lemma decode_no_pox tx : transaction_ok tx -> no_pox tx = true ->
  exists bs, encode_transaction tx = Some bs /\
    forall rest, len (bs ++ rest) <= USIZE_MAX ->
      decode_transaction (bs ++ rest) = Ok (set_bytes bs tx, len bs).
Proof.
  unfold no_pox. intros Htx Hpox. destruct (decode_encoded tx Htx) as (bs & E & C). exists bs. split; [done|].
  intros rest Hl. apply C; [done|]. unfold count_admitted, tail_length.
  destruct Htx as (_ & _ & (_ & HF) & _).
  assert (11 * len (tx_post_conditions tx) <= len (concat (map pc_bytes (tx_post_conditions tx)))); [|lia].
  induction HF as [|pc pcs [Hok He] _ IH]; [done|]. cbn [forallb map concat] in *.
  apply andb_true_iff in Hpox as [Hp Hpox]. specialize (IH Hpox).
  apply post_condition_length in He; [|done]. destruct (is_pox _); [done|].
  rewrite length_app. cbn [length]. lia.
Qed.

(** C2: Every well-formed transaction without Pox post-conditions encodes, and
    decoding its encoding, whatever follows it in the input, gives the transaction
    back and reports the encoding's length. *)
Theorem decode_transaction_roundtrip (tx : Transaction) (Htx : transaction_ok tx)
  (Hpox : no_pox tx = true) :
  exists bs, encode_transaction tx = Some bs /\
    forall rest, len (bs ++ rest) <= USIZE_MAX ->
      decode_transaction (bs ++ rest) = Ok (set_bytes bs tx, len bs).
Proof. by apply decode_no_pox. Qed.

(** ** The count check and [Pox] post-conditions *)

Definition sample_condition : SpendingCondition :=
  Singlesig (mkSinglesig SinglesigHashMode.P2pkh (replicate 20 0%u8) 0 0 KeyEncoding.Compressed
    (replicate 65 0%u8)).
Definition sample_transfer : TransactionPayloadData :=
  TokenTransfer (PrincipalStandard (StacksAddress.mk 26%u8 (replicate 20 0%u8))) 1 (replicate 34 0%u8).
Definition sample_transfer_bytes : list byte :=
  [0; 5; 26]%u8 ++ replicate 20 0%u8 ++ [0; 0; 0; 0; 0; 0; 0; 1]%u8 ++ replicate 34 0%u8.
Definition pox_post_condition : PostCondition :=
  mkPostCondition (PcPox PcOrigin Performed) [4; 1; 0x32]%u8.
(** A token transfer with [n] [Pox] post-conditions. *)
Definition pox_transfer (n : nat) : Transaction :=
  mkTransaction [] TransactionVersion.Testnet 0x80000000 (AuthStandard sample_condition) AnchorMode.Any
    PostConditionMode.Deny (replicate n pox_post_condition) (mkPayload sample_transfer sample_transfer_bytes).

Lemma sample_condition_ok : condition_ok sample_condition.
Proof. by repeat split. Qed.

Lemma sample_transfer_emits : payload_ok sample_transfer /\ emits (encode_payload sample_transfer) sample_transfer_bytes.
Proof. assert (payload_ok sample_transfer) by by repeat split. split; [done|].
  by apply (@wire_emits _ _ _ _ _ payload_wire). Qed.

Lemma pox_transfer_ok n : Z.of_nat n <= U32_MAX -> transaction_ok (pox_transfer n).
Proof.
  intros Hn. split; [done|]. split; [apply sample_condition_ok|].
  split; [split; [cbn; rewrite length_replicate; split; lia|]|split; [apply sample_transfer_emits|done]].
  apply Forall_replicate. split; [done|]. by apply (@wire_emits _ _ _ _ _ post_condition_wire).
Qed.

(** A well-formed transfer with nine Pox post-conditions encodes to bytes the
    decoder refuses, and accepts once unrelated bytes follow them: the decoder's size
    test assumes 11 bytes per post-condition and a Pox one can take 3. *)
Theorem pox_post_conditions_refused :
  transaction_ok (pox_transfer 9) /\
  exists bs, encode_transaction (pox_transfer 9) = Some bs /\
    decode_transaction bs = Err InvalidLength /\
    exists rest, decode_transaction (bs ++ rest) = Ok (set_bytes bs (pox_transfer 9), len bs).
Proof.
  split; [by apply pox_transfer_ok|]. eexists. split; [vm_compute; reflexivity|]. split; [reflexivity|].
  exists (replicate 7 0%u8). reflexivity.
Qed.

End Transactions.
