(* ===== verification/TxAuth.v ===== *)
(** * Authorization of transactions and the block's transaction root

    [crates/nano-codec/src/lib.rs]: sighashes, [SpendingCondition::verify],
    [Transaction::sign_standard], [Transaction::verify_authorization] and
    [transaction_merkle_root]. An [option] result is [None] exactly where the
    Rust code panics ([expect] on a count that does not fit). *)

From S2P Require Import Prelude Primitives Address CodecIO Crypto TxData TxCodec TxWire.
From S2P Require Import TxTheorems.

(** The codec's own [AddressHashMode]. *)
Module TxHashMode.
Inductive t : Type := P2pkh | P2sh | P2wpkh | P2wsh.
End TxHashMode.

Definition ORIGIN_AUTH_FLAG : byte := 0x04%u8.
Definition SPONSOR_AUTH_FLAG : byte := 0x05%u8.

(** ** Conditions *)

(** [SpendingCondition::nonce]. *)
Definition condition_nonce (c : SpendingCondition) : Z :=
  match c with
  | Singlesig c => ss_nonce c
  | Multisig c => ms_nonce c
  | OrderIndependentMultisig c => oi_nonce c
  end.

(** [SpendingCondition::fee]. *)
Definition condition_fee (c : SpendingCondition) : Z :=
  match c with
  | Singlesig c => ss_fee c
  | Multisig c => ms_fee c
  | OrderIndependentMultisig c => oi_fee c
  end.

(** [SpendingCondition::account_address]; [None] is the [expect]. *)
Definition account_address (c : SpendingCondition) (mainnet : bool) : option StacksAddress.t :=
  let '(signer, singlesig) :=
    match c with
    | Singlesig c => (ss_signer c, Some (ss_hash_mode c))
    | Multisig c => (ms_signer c, None)
    | OrderIndependentMultisig c => (oi_signer c, None)
    end in
  let version :=
    match mainnet, singlesig with
    | true, Some SinglesigHashMode.P2pkh => 22%u8
    | false, Some SinglesigHashMode.P2pkh => 26%u8
    | true, _ => 20%u8
    | false, _ => 21%u8
    end in
  match StacksAddress.new version signer with Ok a => Some a | Err _ => None end.

(** [SpendingCondition::cleared]. *)
Definition cleared (c : SpendingCondition) : SpendingCondition :=
  match c with
  | Singlesig c =>
      Singlesig (mkSinglesig (ss_hash_mode c) (ss_signer c) 0 0 (ss_key_encoding c) (replicate 65 0%u8))
  | Multisig c =>
      Multisig (mkMultisig (ms_hash_mode c) (ms_signer c) 0 0 [] (ms_signatures_required c))
  | OrderIndependentMultisig c =>
      OrderIndependentMultisig
        (mkOrderIndependent (oi_hash_mode c) (oi_signer c) 0 0 [] (oi_signatures_required c))
  end.

Definition auth_origin (a : TransactionAuth) : SpendingCondition :=
  match a with AuthStandard origin | AuthSponsored origin _ => origin end.

Definition auth_sponsor (a : TransactionAuth) : option SpendingCondition :=
  match a with AuthStandard _ => None | AuthSponsored _ sponsor => Some sponsor end.

Definition auth_payer (a : TransactionAuth) : SpendingCondition :=
  match a with AuthStandard origin => origin | AuthSponsored _ sponsor => sponsor end.

(** [TransactionAuth::initial_sighash_auth]. *)
Definition initial_sighash_auth (a : TransactionAuth) : TransactionAuth :=
  match a with
  | AuthStandard origin => AuthStandard (cleared origin)
  | AuthSponsored origin _ =>
      AuthSponsored (cleared origin)
        (Singlesig (mkSinglesig SinglesigHashMode.P2pkh (zero_hash 20) 0 0 KeyEncoding.Compressed
                      (replicate 65 0%u8)))
  end.

Definition set_auth (a : TransactionAuth) (tx : Transaction) : Transaction :=
  mkTransaction (tx_bytes tx) (tx_version tx) (tx_chain_id tx) a (tx_anchor_mode tx)
    (tx_post_condition_mode tx) (tx_post_conditions tx) (tx_payload tx).

Section Verification.
Context `{HS : Hashes} `{SECP : Secp256k1}.

(** ** Sighashes *)

Definition presign_sighash (current : Sha256Sum) (auth_flag : byte) (fee nonce : Z) : Sha256Sum :=
  sha512_256 (current ++ [auth_flag] ++ to_be_bytes 8 fee ++ to_be_bytes 8 nonce).

Definition postsign_sighash (current : Sha256Sum) (encoding : KeyEncoding.t) (signature : list byte)
  : Sha256Sum :=
  sha512_256 (current ++ [KeyEncoding.byte encoding] ++ signature).

Definition encoded_key (key : secp_pk) (encoding : KeyEncoding.t) : list byte :=
  match encoding with
  | KeyEncoding.Compressed => StacksPublicKey.to_bytes_compressed key
  | KeyEncoding.Uncompressed => StacksPublicKey.to_bytes_uncompressed key
  end.

Definition recover_key (current : Sha256Sum) (auth_flag : byte) (fee nonce : Z)
  (encoding : KeyEncoding.t) (signature : list byte) : result CodecError (list byte * Sha256Sum) :=
  match MessageSignature.is_low_s signature with
  | Err _ | Ok false => Err InvalidAuth
  | Ok true =>
      let presign := presign_sighash current auth_flag fee nonce in
      match MessageSignature.recover signature presign with
      | Err _ => Err InvalidAuth
      | Ok key => Ok (encoded_key key encoding, postsign_sighash presign encoding signature)
      end
  end.

(** ** Address hashes *)

Definition script_small_int (value : Z) : result CodecError byte :=
  match try_from U8_MAX value with
  | Some v => if (1 <=? v) && (v <=? 16) then Ok (byte_of (0x50 + v)) else Err InvalidAuth
  | None => Err InvalidAuth
  end.

Fixpoint push_keys (keys : list (list byte)) : result CodecError (list byte) :=
  match keys with
  | [] => Ok []
  | key :: rest =>
      let? length := or_err (try_from U8_MAX (len key)) InvalidAuth in
      let? script := push_keys rest in
      Ok (byte_of length :: key ++ script)
  end.

Definition multisig_script (signatures_required : Z) (keys : list (list byte))
  : result CodecError (list byte) :=
  let? required := script_small_int signatures_required in
  let? key_count := script_small_int (len keys) in
  let? pushes := push_keys keys in
  Ok (required :: pushes ++ [key_count; 0xae%u8]).

Definition address_hash (mode : TxHashMode.t) (signatures_required : Z) (keys : list (list byte))
  : result CodecError Hash160 :=
  if (signatures_required =? 0) || (len keys <? signatures_required) || (16 <? len keys)
  then Err InvalidAuth else
  match mode with
  | TxHashMode.P2pkh =>
      match keys with
      | [key] => if signatures_required =? 1 then Ok (hash160 key) else Err InvalidAuth
      | _ => Err InvalidAuth
      end
  | TxHashMode.P2wpkh =>
      match keys with
      | [key] =>
          if (signatures_required =? 1) && (len key =? 33)
          then Ok (hash160 ([0; 20]%u8 ++ hash160 key)) else Err InvalidAuth
      | _ => Err InvalidAuth
      end
  | TxHashMode.P2sh =>
      let? script := multisig_script signatures_required keys in Ok (hash160 script)
  | TxHashMode.P2wsh =>
      if existsb (fun key => negb (len key =? 33)) keys then Err InvalidAuth else
      let? script := multisig_script signatures_required keys in
      Ok (hash160 ([0; 32]%u8 ++ sha256 script))
  end.

(** ** Verification of a condition *)

Record MultisigVerification : Type := mkVerification {
  mv_signer : Hash160;
  mv_fee : Z;
  mv_nonce : Z;
  mv_fields : list AuthField;
  mv_signatures_required : Z;
  mv_mode : TxHashMode.t;
  mv_order_independent : bool;
}.

(** The loop of [verify_multisig] over the fields: its state is [keys],
    [current] and [signatures]. *)
Fixpoint verify_fields (v : MultisigVerification) (auth_flag : byte) (fields : list AuthField)
  (keys : list (list byte)) (current : Sha256Sum) (signatures : Z)
  : result CodecError (list (list byte) * Sha256Sum * Z) :=
  match fields with
  | [] => Ok (keys, current, signatures)
  | PublicKey encoding bytes :: rest =>
      match StacksPublicKey.from_bytes bytes with
      | Err _ => Err InvalidAuth
      | Ok key =>
          if decide (encoded_key key encoding = bytes)
          then verify_fields v auth_flag rest (keys ++ [bytes]) current signatures
          else Err InvalidAuth
      end
  | Signature encoding signature :: rest =>
      let? (key, next) := recover_key current auth_flag (mv_fee v) (mv_nonce v) encoding signature in
      let? signatures := or_err (checked_add U16_MAX signatures 1) InvalidAuth in
      verify_fields v auth_flag rest (keys ++ [key])
        (if mv_order_independent v then current else next) signatures
  end.

Definition verify_multisig (initial_sighash : Sha256Sum) (auth_flag : byte) (v : MultisigVerification)
  : result CodecError Sha256Sum :=
  let? (keys, current, signatures) := verify_fields v auth_flag (mv_fields v) [] initial_sighash 0 in
  let signatures_match :=
    if mv_order_independent v then mv_signatures_required v <=? signatures
    else signatures =? mv_signatures_required v in
  if negb signatures_match then Err InvalidAuth else
  let? hash := address_hash (mv_mode v) (mv_signatures_required v) keys in
  if decide (hash = mv_signer v)
  then Ok (if mv_order_independent v then initial_sighash else current)
  else Err InvalidAuth.

Definition singlesig_mode (m : SinglesigHashMode.t) : TxHashMode.t :=
  match m with SinglesigHashMode.P2pkh => TxHashMode.P2pkh | SinglesigHashMode.P2wpkh => TxHashMode.P2wpkh end.

Definition multisig_verification (c : MultisigCondition) : MultisigVerification :=
  mkVerification (ms_signer c) (ms_fee c) (ms_nonce c) (ms_fields c) (ms_signatures_required c)
    match ms_hash_mode c with
    | MultisigHashMode.P2sh => TxHashMode.P2sh
    | MultisigHashMode.P2wsh => TxHashMode.P2wsh
    end false.

Definition order_independent_verification (c : OrderIndependentMultisigCondition) : MultisigVerification :=
  mkVerification (oi_signer c) (oi_fee c) (oi_nonce c) (oi_fields c) (oi_signatures_required c)
    match oi_hash_mode c with
    | OrderIndependentMultisigHashMode.P2sh => TxHashMode.P2sh
    | OrderIndependentMultisigHashMode.P2wsh => TxHashMode.P2wsh
    end true.

(** [SpendingCondition::verify]. *)
Definition verify_condition (c : SpendingCondition) (initial_sighash : Sha256Sum) (auth_flag : byte)
  : result CodecError Sha256Sum :=
  match c with
  | Singlesig c =>
      let? (key, next_sighash) :=
        recover_key initial_sighash auth_flag (ss_fee c) (ss_nonce c) (ss_key_encoding c) (ss_signature c) in
      let? hash := address_hash (singlesig_mode (ss_hash_mode c)) 1 [key] in
      if decide (hash = ss_signer c) then Ok next_sighash else Err InvalidAuth
  | Multisig c => verify_multisig initial_sighash auth_flag (multisig_verification c)
  | OrderIndependentMultisig c =>
      verify_multisig initial_sighash auth_flag (order_independent_verification c)
  end.

(** [TransactionAuth::verify]. *)
Definition verify_auth (a : TransactionAuth) (initial_sighash : Sha256Sum) : result CodecError unit :=
  let? origin_sighash := verify_condition (auth_origin a) initial_sighash ORIGIN_AUTH_FLAG in
  match auth_sponsor a with
  | None => Ok tt
  | Some sponsor =>
      let? _ := verify_condition sponsor origin_sighash SPONSOR_AUTH_FLAG in Ok tt
  end.

(** ** Transactions *)

(** [Transaction::txid]. *)
Definition txid (tx : Transaction) : option Sha256Sum :=
  match tx_bytes tx with
  | [] => bytes ← encode_transaction tx; Some (sha512_256 bytes)
  | bytes => Some (sha512_256 bytes)
  end.

(** [Transaction::verify_authorization]. *)
Definition verify_authorization (tx : Transaction) : option (result CodecError unit) :=
  let initial := set_bytes [] (set_auth (initial_sighash_auth (tx_auth tx)) tx) in
  id ← txid initial; Some (verify_auth (tx_auth tx) id).

Definition network_mainnet (tx : Transaction) : bool :=
  match tx_version tx with TransactionVersion.Mainnet => true | TransactionVersion.Testnet => false end.

Definition origin_address (tx : Transaction) : option StacksAddress.t :=
  account_address (auth_origin (tx_auth tx)) (network_mainnet tx).

Definition sponsor_address (tx : Transaction) : option StacksAddress.t :=
  sponsor ← auth_sponsor (tx_auth tx); account_address sponsor (network_mainnet tx).

(** [Transaction::sign_standard]. *)
Definition sign_standard (version : TransactionVersion.t) (chain_id : Z) (anchor_mode : AnchorMode.t)
  (key : secp_sk) (nonce fee : Z) (payload : TransactionPayloadData)
  : option (result CodecError Transaction) :=
  let public_key := StacksPublicKey.to_bytes_compressed (StacksPrivateKey.public_key key) in
  match address_hash TxHashMode.P2pkh 1 [public_key] with
  | Err e => Some (Err e)
  | Ok signer =>
      let condition signature :=
        AuthStandard (Singlesig (mkSinglesig SinglesigHashMode.P2pkh signer nonce fee
                                   KeyEncoding.Compressed signature)) in
      payload ← payload_new payload;
      let transaction := mkTransaction [] version chain_id (condition (replicate 65 0%u8)) anchor_mode
                           PostConditionMode.Deny [] payload in
      cleared ← txid (set_auth (initial_sighash_auth (tx_auth transaction)) transaction);
      let presign := presign_sighash cleared ORIGIN_AUTH_FLAG fee nonce in
      let transaction := set_auth (condition (StacksPrivateKey.sign key presign)) transaction in
      bytes ← encode_transaction transaction;
      let transaction := set_bytes bytes transaction in
      verified ← verify_authorization transaction;
      Some (let? _ := verified in Ok transaction)
  end.

(** ** The transaction root of a block *)

Definition tagged_hash (tag : byte) (data : list byte) : Sha256Sum := sha512_256 (tag :: data).

(** [level.chunks_exact(2).map(...)]: an odd last element is dropped. *)
Fixpoint hash_pairs (level : list Sha256Sum) : list Sha256Sum :=
  match level with
  | one :: two :: rest => tagged_hash 1 (one ++ two) :: hash_pairs rest
  | _ => []
  end.

(** Push the last hash again when the level has an odd length. *)
Definition pad_even (level : list Sha256Sum) : list Sha256Sum :=
  if Nat.odd (length level) then
    match last level with Some x => level ++ [x] | None => level end
  else level.

(** [while level.len() > 1]; [None] when the fuel runs out. *)
Fixpoint merkle_loop (fuel : nat) (level : list Sha256Sum) : option Sha256Sum :=
  if Nat.leb (length level) 1 then index level 0 else
  match fuel with
  | O => None
  | S fuel => merkle_loop fuel (hash_pairs (pad_even level))
  end.

Definition transaction_merkle_root (transactions : list Transaction) : option Sha256Sum :=
  match transactions with
  | [] => Some (zero_hash 32)
  | _ =>
      txids ← mapM txid transactions;
      let level := pad_even (map (tagged_hash 0) txids) in
      merkle_loop (length level) level
  end.

End Verification.
