(* ===== verification/TxAuthTheorems.v ===== *)
(** * Theorems about signing, verification and the transaction root *)

From S2P Require Import Prelude Primitives Address CodecIO Crypto TxData TxCodec TxWire.
From S2P Require Import TxTheorems TxAuth.

(** ** Signing *)

Section Signing.
Context `{HO : HashesOk} `{SO : Secp256k1Ok} `{ED : Edwards}.

Lemma address_hash_p2pkh key : address_hash TxHashMode.P2pkh 1 [key] = Ok (hash160 key).
Proof. done. Qed.

Lemma payload_new_ok p : payload_ok p -> exists b, payload_new p = Some (mkPayload p b) /\ emits (encode_payload p) b.
Proof.
  intros Hp. destruct (@wire_complete _ _ _ _ _ payload_wire p Hp) as (b & E & _). exists b.
  split; [|done]. unfold payload_new. by rewrite (emits_finish _ _ E).
Qed.

Lemma recover_key_sign sk current flag fee nonce :
  recover_key current flag fee nonce KeyEncoding.Compressed
    (StacksPrivateKey.sign sk (presign_sighash current flag fee nonce)) =
  Ok (StacksPublicKey.to_bytes_compressed (StacksPrivateKey.public_key sk),
      postsign_sighash (presign_sighash current flag fee nonce) KeyEncoding.Compressed
        (StacksPrivateKey.sign sk (presign_sighash current flag fee nonce))).
Proof. unfold recover_key. by rewrite is_low_s_sign, recover_sign. Qed.

(** The transaction [sign_standard] returns. *)
Definition signed_transaction (version : TransactionVersion.t) (chain_id : Z) (anchor_mode : AnchorMode.t)
  (key : secp_sk) (nonce fee : Z) (signature : list byte) (payload : TransactionPayload) : Transaction :=
  mkTransaction [] version chain_id
    (AuthStandard (Singlesig (mkSinglesig SinglesigHashMode.P2pkh
       (hash160 (StacksPublicKey.to_bytes_compressed (StacksPrivateKey.public_key key)))
       nonce fee KeyEncoding.Compressed signature)))
    anchor_mode PostConditionMode.Deny [] payload.

Lemma signed_transaction_ok version chain_id anchor_mode key nonce fee signature p b :
  is_u32 chain_id -> is_u64 nonce -> is_u64 fee -> payload_ok p -> emits (encode_payload p) b ->
  (anchored_payload p = true -> anchor_mode = AnchorMode.OnChainOnly) ->
  length signature = 65%nat ->
  transaction_ok (signed_transaction version chain_id anchor_mode key nonce fee signature (mkPayload p b)).
Proof.
  intros ? ? ? ? ? ? Hs. unfold signed_transaction, transaction_ok, anchor_ok, auth_ok, condition_ok, singlesig_ok; cbn.
  rewrite hash160_length, Hs. split_and!; done.
Qed.

Lemma encode_set_bytes b tx : encode_transaction (set_bytes b tx) = encode_transaction tx.
Proof. done. Qed.

(** Transaction::sign_standard succeeds on every well-formed payload whose anchor
    mode fits it, and the transaction it returns verifies, has the signer's address as
    origin and the given nonce and fee, and decodes from its own bytes. *)
Theorem sign_standard_verifies version chain_id anchor_mode key nonce fee payload
  (Hchain : is_u32 chain_id) (Hnonce : is_u64 nonce) (Hfee : is_u64 fee) (Hpayload : payload_ok payload)
  (Hanchor : anchored_payload payload = true -> anchor_mode = AnchorMode.OnChainOnly) :
  exists tx, sign_standard version chain_id anchor_mode key nonce fee payload = Some (Ok tx) /\
    verify_authorization tx = Some (Ok tt) /\
    origin_address tx = Some (StacksAddress.single_signature
      (hash160 (StacksPublicKey.to_bytes_compressed (StacksPrivateKey.public_key key))) (network_mainnet tx)) /\
    condition_nonce (auth_origin (tx_auth tx)) = nonce /\ condition_fee (auth_payer (tx_auth tx)) = fee /\
    pl_data (tx_payload tx) = payload /\
    encode_transaction tx = Some (tx_bytes tx) /\
    (len (tx_bytes tx) <= USIZE_MAX -> decode_transaction (tx_bytes tx) = Ok (tx, len (tx_bytes tx))).
Proof.
  destruct (payload_new_ok payload Hpayload) as (pb & Hnew & Hemits).
  set (signed s := signed_transaction version chain_id anchor_mode key nonce fee s (mkPayload payload pb)).
  assert (Hok : forall s, length s = 65%nat -> transaction_ok (signed s)).
  { intros s Hs. by apply signed_transaction_ok. }
  set (initial := set_auth (initial_sighash_auth (tx_auth (signed (replicate 65 0%u8)))) (signed (replicate 65 0%u8))).
  assert (Hinit : transaction_ok initial).
  { destruct (Hok (replicate 65 0%u8)) as (? & _ & ? & ? & ?); [done|].
    split; [done|]. split; [|done]. cbn. unfold singlesig_ok; cbn. rewrite hash160_length. by split_and!. }
  destruct (decode_encoded initial Hinit) as (ib & Ei & _).
  set (presign := presign_sighash (sha512_256 ib) ORIGIN_AUTH_FLAG fee nonce).
  set (sg := StacksPrivateKey.sign key presign).
  destruct (decode_encoded (signed sg) (Hok sg (sign_length _ _))) as (bs & Eb & Db).
  assert (Hid : txid initial = Some (sha512_256 ib)) by (unfold txid; cbn [tx_bytes initial set_auth signed signed_transaction]; by rewrite Ei).
  assert (Hv : verify_authorization (set_bytes bs (signed sg)) = Some (Ok tt)).
  { unfold verify_authorization.
    change (txid _) with (txid initial). rewrite Hid. cbn [mbind option_bind set_bytes tx_auth signed signed_transaction].
    unfold verify_auth. cbn [auth_origin auth_sponsor verify_condition ss_fee ss_nonce ss_key_encoding ss_signature ss_hash_mode ss_signer singlesig_mode].
    unfold sg, presign. rewrite recover_key_sign, address_hash_p2pkh. by rewrite decide_True. }
  exists (set_bytes bs (signed sg)). split; [|split; [exact Hv|]].
  - unfold sign_standard. rewrite address_hash_p2pkh, Hnew. cbn [mbind option_bind].
    change (txid _) with (txid initial). rewrite Hid. cbn [mbind option_bind].
    fold presign sg. change (encode_transaction _) with (encode_transaction (signed sg)).
    rewrite Eb. cbn [mbind option_bind].
    change (verify_authorization _) with (verify_authorization (set_bytes bs (signed sg))). by rewrite Hv.
  - rewrite encode_set_bytes. split; [by destruct version|]. repeat split; try done.
    cbn [tx_bytes set_bytes]. intros Hl. specialize (Db []). rewrite app_nil_r in Db. apply Db; [done|]. unfold count_admitted, tail_length; cbn. lia.
Qed.

End Signing.

(** ** What a signature commits to *)

(** A writer that never panics on valid values and whose outputs are recovered
    unambiguously from any stream. *)
Class PrefixCode {A} (wr : A -> WriterM) (valid : A -> Prop) : Prop := {
  code_emits : forall x, valid x -> exists b, emits (wr x) b;
  code_inj : forall x y b1 b2 r1 r2, valid x -> valid y -> emits (wr x) b1 -> emits (wr y) b2 ->
    b1 ++ r1 = b2 ++ r2 -> len (b1 ++ r1) <= USIZE_MAX -> x = y;
}.

Lemma wire_prefix_code {A} (rd : ReaderM A) wr valid `{!Wire rd wr valid} :
  PrefixCode wr valid.
Proof.
  split. { intros x Hx. destruct (wire_complete x Hx) as (b & E & _). by exists b. }
  intros x y b1 b2 r1 r2 Hx Hy E1 E2 Heq Hl.
  destruct (wire_complete x Hx) as (b & E & C1). rewrite (emits_det _ _ _ E E1) in C1. clear b E.
  destruct (wire_complete y Hy) as (b & E & C2). rewrite (emits_det _ _ _ E E2) in C2. clear b E.
  pose proof (C1 (Reader.new (b1 ++ r1)) _ Hl (reads_new (b1 ++ r1) b1 r1 eq_refl)) as H1.
  pose proof (C2 (Reader.new (b1 ++ r1)) _ Hl (reads_new (b1 ++ r1) b2 r2 Heq)) as H2.
  rewrite H1 in H2. by injection H2.
Qed.

Lemma code_step {A} (wr : A -> WriterM) valid `{!PrefixCode wr valid} x y b1 b2 r1 r2 :
  valid x -> valid y -> emits (wr x) b1 -> emits (wr y) b2 ->
  b1 ++ r1 = b2 ++ r2 -> len (b1 ++ r1) <= USIZE_MAX -> x = y /\ r1 = r2 /\ len r1 <= USIZE_MAX.
Proof.
  intros Hx Hy E1 E2 Heq Hl. assert (x = y) as <- by by eapply code_inj.
  rewrite (emits_det _ _ _ E1 E2) in *. apply app_inv_head in Heq as ->.
  rewrite length_app in Hl. split_and!; [done..|lia].
Qed.

(** Codes are closed under sequencing and under relabelling of the values. *)
#[export] Instance seq_prefix_code {A B} (w1 : A -> WriterM) (w2 : B -> WriterM) v1 v2
  `{!PrefixCode w1 v1, !PrefixCode w2 v2} :
  PrefixCode (fun p => w1 p.1 ;;; w2 p.2) (fun p => v1 p.1 /\ v2 p.2).
Proof.
  split.
  - intros [a b] [(x & Hx)%code_emits (y & Hy)%code_emits]. exists (x ++ y). by apply emits_seq.
  - intros [a b] [a' b'] z1 z2 r1 r2 [Ha Hb] [Ha' Hb'] E1 E2 Heq Hl. cbn [fst snd] in *.
    destruct (code_emits a Ha) as (x & Ex), (code_emits b Hb) as (y & Ey),
      (code_emits a' Ha') as (x' & Ex'), (code_emits b' Hb') as (y' & Ey').
    rewrite (emits_det _ _ _ E1 (emits_seq _ _ _ _ Ex Ey)), (emits_det _ _ _ E2 (emits_seq _ _ _ _ Ex' Ey')) in *.
    rewrite <- !app_assoc in *.
    destruct (code_step w1 v1 _ _ _ _ _ _ Ha Ha' Ex Ex' Heq Hl) as (<- & Heq' & Hl').
    by destruct (code_step w2 v2 _ _ _ _ _ _ Hb Hb' Ey Ey' Heq' Hl') as (<- & _).
Qed.

Lemma map_prefix_code {A B} (f : B -> A) (wr : A -> WriterM) valid (wr' : B -> WriterM) (valid' : B -> Prop)
  `{!PrefixCode wr valid} :
  (forall x, valid' x -> valid (f x)) -> (forall x, wr' x = wr (f x)) ->
  (forall x y, f x = f y -> x = y) -> PrefixCode wr' valid'.
Proof.
  intros Hv Hw Hf. split.
  - intros x Hx. rewrite Hw. eauto using code_emits.
  - intros x y b1 b2 r1 r2 Hx Hy. rewrite !Hw. intros. apply Hf. eapply code_inj; eauto.
Qed.

(** A tag byte, then what the tag stands for. *)
Lemma tag_prefix_code {A} (tag : A -> byte) (body : A -> WriterM) valid :
  (forall x, valid x -> exists b, emits (body x) b) ->
  (forall x y b1 b2 r1 r2, valid x -> valid y -> tag x = tag y -> emits (body x) b1 -> emits (body y) b2 ->
     b1 ++ r1 = b2 ++ r2 -> len (b1 ++ r1) <= USIZE_MAX -> x = y) ->
  PrefixCode (fun x => Writer.byte (tag x) ;;; body x) valid.
Proof.
  intros Hb Hi. split.
  - intros x (b & E)%Hb. eexists. eapply emits_seq; [apply emits_raw|done].
  - intros x y b1 b2 r1 r2 Hx Hy E1 E2 Heq Hl.
    destruct (Hb x Hx) as (t1 & F1), (Hb y Hy) as (t2 & F2).
    rewrite (emits_det _ _ _ E1 (emits_seq _ _ _ _ (emits_raw _) F1)), (emits_det _ _ _ E2 (emits_seq _ _ _ _ (emits_raw _) F2)) in *.
    injection Heq as Ht Heq. eapply (Hi x y t1 t2 r1 r2); [done..|]. simpl in Hl. lia.
Qed.

(** The conditions sighashes are computed over: well formed up to the signatures
    [cleared] removes. *)
Definition sighash_condition_ok (c : SpendingCondition) : Prop :=
  match c with
  | Singlesig c => singlesig_ok c
  | Multisig c => fields_body_ok (multisig_body c)
  | OrderIndependentMultisig c => fields_body_ok (order_independent_body c)
  end.

Definition condition_mode (c : SpendingCondition) : byte :=
  match c with
  | Singlesig c => SinglesigHashMode.byte (ss_hash_mode c)
  | Multisig c => MultisigHashMode.byte (ms_hash_mode c)
  | OrderIndependentMultisig c => OrderIndependentMultisigHashMode.byte (oi_hash_mode c)
  end.

(** Split on the hash modes. *)
Ltac destruct_modes := repeat match goal with
  | m : SinglesigHashMode.t |- _ => destruct m
  | m : MultisigHashMode.t |- _ => destruct m
  | m : OrderIndependentMultisigHashMode.t |- _ => destruct m
  | H : context [ss_hash_mode ?c] |- _ => destruct (ss_hash_mode c)
  | H : context [ms_hash_mode ?c] |- _ => destruct (ms_hash_mode c)
  | H : context [oi_hash_mode ?c] |- _ => destruct (oi_hash_mode c)
  end; try done.

#[export] Instance u32_code : PrefixCode Writer.u32 is_u32.
Proof. by eapply wire_prefix_code, u32_wire. Qed.
#[export] Instance u64_code : PrefixCode Writer.u64 is_u64.
Proof. by eapply wire_prefix_code, u64_wire. Qed.
#[export] Instance hash160_code : PrefixCode Writer.hash160 (fun s => len s = 20).
Proof. by eapply wire_prefix_code, hash160_wire. Qed.
#[export] Instance signature_code : PrefixCode Writer.signature (fun s => len s = 65).
Proof. by eapply wire_prefix_code, signature_wire. Qed.
#[export] Instance key_encoding_code : PrefixCode (fun e => Writer.byte (KeyEncoding.byte e)) (fun _ => True).
Proof. by eapply wire_prefix_code, key_encoding_wire. Qed.
#[export] Instance fields_code : PrefixCode write_fields_body fields_body_ok.
Proof. by eapply wire_prefix_code, decode_fields_wire. Qed.

Definition singlesig_body (c : SinglesigCondition) :=
  (ss_signer c, (ss_nonce c, (ss_fee c, (ss_key_encoding c, ss_signature c)))).

Definition write_singlesig_body (p : Hash160 * (Z * (Z * (KeyEncoding.t * list byte)))) : WriterM :=
  Writer.hash160 p.1 ;;; Writer.u64 p.2.1 ;;; Writer.u64 p.2.2.1 ;;;
  Writer.byte (KeyEncoding.byte p.2.2.2.1) ;;; Writer.signature p.2.2.2.2.

#[export] Instance singlesig_body_code : PrefixCode write_singlesig_body
  (fun p => len p.1 = 20 /\ is_u64 p.2.1 /\ is_u64 p.2.2.1 /\ True /\ len p.2.2.2.2 = 65).
Proof.
  exact (seq_prefix_code _ _ _ _ (PrefixCode1 := seq_prefix_code _ _ _ _
    (PrefixCode1 := seq_prefix_code _ _ _ _ (PrefixCode1 := seq_prefix_code _ _ _ _)))).
Qed.

Definition write_condition_body (c : SpendingCondition) : WriterM :=
  match c with
  | Singlesig c => write_singlesig_body (singlesig_body c)
  | Multisig c => write_fields_body (multisig_body c)
  | OrderIndependentMultisig c => write_fields_body (order_independent_body c)
  end.

#[export] Instance condition_code : PrefixCode encode_condition sighash_condition_ok.
Proof.
  refine (map_prefix_code (fun c => c) (fun c => Writer.byte (condition_mode c) ;;; write_condition_body c)
    sighash_condition_ok _ _ (PrefixCode0 := tag_prefix_code _ _ _ _ _) _ _ _); [..|done|by intros []|done].
  - intros [c|c|c] Hc; cbn [write_condition_body]; apply code_emits; [|done..].
    by destruct Hc as (? & ? & ? & ? & _).
  - intros x y b1 b2 r1 r2 Hx Hy Hm E1 E2 Heq Hl.
    destruct x as [x|x|x], y as [y|y|y]; cbn [condition_mode write_condition_body sighash_condition_ok] in *;
      try (exfalso; by destruct_modes).
    1: destruct Hx as (? & ? & ? & ? & _), Hy as (? & ? & ? & ? & _).
    1: assert (Hb : singlesig_body x = singlesig_body y) by by eapply code_inj.
    2: assert (Hb : multisig_body x = multisig_body y) by by eapply code_inj.
    3: assert (Hb : order_independent_body x = order_independent_body y) by by eapply code_inj.
    all: destruct x, y; cbn in *; by destruct_modes; simplify_eq.
Qed.

Definition sighash_auth_ok (a : TransactionAuth) : Prop :=
  match a with
  | AuthStandard o => sighash_condition_ok o
  | AuthSponsored o s => sighash_condition_ok o /\ sighash_condition_ok s
  end.

Definition write_auth_body (a : TransactionAuth) : WriterM :=
  match a with
  | AuthStandard o => encode_condition o
  | AuthSponsored o s => encode_condition o ;;; encode_condition s
  end.

#[export] Instance auth_code : PrefixCode write_auth sighash_auth_ok.
Proof.
  refine (map_prefix_code (fun a => a) (fun a => Writer.byte (match a with AuthStandard _ => 4%u8 | _ => 5%u8 end) ;;;
    write_auth_body a) sighash_auth_ok _ _ (PrefixCode0 := tag_prefix_code _ _ _ _ _) _ _ _); [..|done|by intros []|done].
  - intros [o|o s] Ha; cbn [write_auth_body]; [by apply code_emits|].
    exact (code_emits (PrefixCode := seq_prefix_code encode_condition encode_condition _ _) (o, s) Ha).
  - intros [o|o s] [o'|o' s'] b1 b2 r1 r2 Hx Hy Hm E1 E2 Heq Hl; try done;
      cbn [write_auth_body] in *.
    + f_equal. by eapply code_inj.
    + pose proof (code_inj (PrefixCode := seq_prefix_code encode_condition encode_condition _ _)
        (o, s) (o', s') _ _ _ _ Hx Hy E1 E2 Heq Hl). by simplify_eq.
Qed.

(** ** The bytes a sighash starts from *)

#[export] Instance version_code : PrefixCode (fun v => Writer.byte (TransactionVersion.byte v)) (fun _ => True).
Proof.
  split; [intros v _; eexists; apply emits_raw|]. intros x y b1 b2 r1 r2 _ _ E1 E2 Heq _.
  rewrite (emits_det _ _ _ E1 (emits_raw _)), (emits_det _ _ _ E2 (emits_raw _)) in Heq. by destruct x, y.
Qed.

#[export] Instance anchor_mode_code : PrefixCode (fun m => Writer.byte (AnchorMode.byte m)) (fun _ => True).
Proof. by eapply wire_prefix_code, anchor_mode_wire. Qed.
#[export] Instance post_condition_mode_code :
  PrefixCode (fun m => Writer.byte (PostConditionMode.byte m)) (fun _ => True).
Proof. by eapply wire_prefix_code, post_condition_mode_wire. Qed.

#[export] Instance nested_auth_code :
  PrefixCode (fun a => (fun w => auth ← encode_auth a; Writer.raw auth w) : WriterM) sighash_auth_ok.
Proof.
  split.
  - intros a (b & E)%code_emits. exists b. by apply emits_nested_auth.
  - intros x y b1 b2 r1 r2 Hx Hy E1 E2 Heq Hl.
    destruct (code_emits x Hx) as (b1' & F1), (code_emits y Hy) as (b2' & F2).
    rewrite (emits_det _ _ _ E1 (emits_nested_auth _ _ F1)), (emits_det _ _ _ E2 (emits_nested_auth _ _ F2)) in *.
    by eapply code_inj.
Qed.

#[export] Instance post_conditions_code :
  PrefixCode (write_vec (fun pc => encode_post_condition (pc_data pc)))
    (fun pcs => is_u32 (len pcs) /\ Forall recorded_post_condition_ok pcs).
Proof.
  pose proof (fun pcs => vec_complete read_recorded_post_condition _ _ (fun _ _ => false) pcs wire_complete) as HV. split.
  - intros pcs [Hu HF]. destruct (HV pcs Hu HF) as (b & E & _). by exists b.
  - intros x y b1 b2 r1 r2 [Hx Fx] [Hy Fy] E1 E2 Heq Hl.
    destruct (HV x Hx Fx) as (b & E & C1). rewrite (emits_det _ _ _ E E1) in C1. clear b E.
    destruct (HV y Hy Fy) as (b & E & C2). rewrite (emits_det _ _ _ E E2) in C2. clear b E.
    pose proof (C1 (Reader.new (b1 ++ r1)) _ Hl (reads_new (b1 ++ r1) b1 r1 eq_refl) eq_refl) as H1.
    pose proof (C2 (Reader.new (b1 ++ r1)) _ Hl (reads_new (b1 ++ r1) b2 r2 Heq) eq_refl) as H2.
    rewrite H1 in H2. by injection H2.
Qed.

Section Binding.
Context `{ED : Edwards}.

#[local] Instance payload_code : PrefixCode (fun p => encode_payload p.1)
  (fun p => payload_ok p.1 /\ emits (encode_payload p.1) p.2).
Proof. apply (wire_prefix_code (recording read_payload)), recording_wire, payload_wire. Qed.

(** A transaction as the sighash sees it. *)
Definition sighash_transaction_ok (tx : Transaction) : Prop :=
  tx_bytes tx = [] /\ is_u32 (tx_chain_id tx) /\ sighash_auth_ok (tx_auth tx) /\
  (is_u32 (len (tx_post_conditions tx)) /\ Forall recorded_post_condition_ok (tx_post_conditions tx)) /\
  (payload_ok (pl_data (tx_payload tx)) /\ emits (encode_payload (pl_data (tx_payload tx))) (pl_bytes (tx_payload tx))).

Definition transaction_tuple (tx : Transaction) :=
  (tx_version tx, (tx_chain_id tx, (tx_auth tx, (tx_anchor_mode tx, (tx_post_condition_mode tx,
    (tx_post_conditions tx, (pl_data (tx_payload tx), pl_bytes (tx_payload tx)))))))).

#[local] Instance transaction_code : PrefixCode write_transaction sighash_transaction_ok.
Proof.
  pose proof (seq_prefix_code _ _ _ _ (PrefixCode0 := version_code) (PrefixCode1 := 
    seq_prefix_code _ _ _ _ (PrefixCode0 := u32_code) (PrefixCode1 :=
    seq_prefix_code _ _ _ _ (PrefixCode0 := nested_auth_code) (PrefixCode1 :=
    seq_prefix_code _ _ _ _ (PrefixCode0 := anchor_mode_code) (PrefixCode1 :=
    seq_prefix_code _ _ _ _ (PrefixCode0 := post_condition_mode_code) (PrefixCode1 :=
    seq_prefix_code _ _ _ _ (PrefixCode0 := post_conditions_code) (PrefixCode1 := payload_code))))))) as HC.
  split.
  - intros tx (? & ? & ? & ? & ?). apply (code_emits (PrefixCode := HC) (transaction_tuple tx)).
    unfold transaction_tuple; cbn [fst snd]. tauto.
  - intros x y b1 b2 r1 r2 (? & ? & ? & ? & ?) (? & ? & ? & ? & ?) E1 E2 Heq Hl.
    assert (transaction_tuple x = transaction_tuple y).
    { apply (code_inj (PrefixCode := HC) (transaction_tuple x) (transaction_tuple y) b1 b2 r1 r2);
        unfold transaction_tuple; cbn [fst snd]; tauto. }
    destruct x as [? ? ? ? ? ? ? []], y as [? ? ? ? ? ? ? []]. unfold transaction_tuple in *. cbn in *. by simplify_eq.
Qed.

Lemma cleared_ok c : condition_ok c -> sighash_condition_ok (cleared c).
Proof.
  destruct c as [c|c|c]; cbn.
  - intros (? & ? & ? & ? & ?). by split_and!.
  - intros ((? & ? & ? & ? & ?) & ? & ?). by split_and!.
  - intros ((? & ? & ? & ? & ?) & ? & ?). by split_and!.
Qed.

(** The transaction a sighash starts from: signatures, fees and nonces cleared. *)
Definition sighash_transaction (tx : Transaction) : Transaction :=
  set_bytes [] (set_auth (initial_sighash_auth (tx_auth tx)) tx).

Lemma sighash_transaction_valid tx : transaction_ok tx -> sighash_transaction_ok (sighash_transaction tx).
Proof.
  intros (Hc & Ha & Hpc & Hp & _). split; [done|]. split; [done|]. split; [|done]. cbn.
  destruct (tx_auth tx) as [o|o s]; cbn in *; [by apply cleared_ok|].
  split; [apply cleared_ok; tauto|by repeat split].
Qed.

Context `{HO : HashesOk} `{SO : Secp256k1Ok}.

(** The digest the first signature of the origin is made over. *)
Definition origin_digest (tx : Transaction) : option Sha256Sum :=
  id ← txid (sighash_transaction tx);
  Some (presign_sighash id ORIGIN_AUTH_FLAG (condition_fee (auth_origin (tx_auth tx)))
          (condition_nonce (auth_origin (tx_auth tx)))).

Lemma sighash_txid tx : transaction_ok tx -> is_Some (txid (sighash_transaction tx)).
Proof.
  intros (b & E)%sighash_transaction_valid%code_emits. unfold txid. cbn [tx_bytes sighash_transaction set_bytes].
  change (encode_transaction _) with (encode_transaction (sighash_transaction tx)).
  unfold encode_transaction. by rewrite (emits_finish _ _ E).
Qed.

Lemma verify_authorization_total tx : transaction_ok tx -> is_Some (verify_authorization tx).
Proof.
  intros [id Hid]%sighash_txid. unfold verify_authorization. fold (sighash_transaction tx). by rewrite Hid.
Qed.

Lemma account_address_total c mainnet : is_Some (account_address c mainnet).
Proof. destruct c as [c|c|c]; cbn; [destruct (ss_hash_mode c)| |]; by destruct mainnet. Qed.

(** The inputs hashed on the way to it. *)
Definition origin_digest_inputs (tx : Transaction) : list (list byte) :=
  match encode_transaction (sighash_transaction tx) with
  | Some b => [b; sha512_256 b ++ [ORIGIN_AUTH_FLAG] ++ to_be_bytes 8 (condition_fee (auth_origin (tx_auth tx)))
                    ++ to_be_bytes 8 (condition_nonce (auth_origin (tx_auth tx)))]
  | None => []
  end.

(** No two of the inputs collide. *)
Definition collision_free (inputs : list (list byte)) : Prop :=
  forall x y, x ∈ inputs -> y ∈ inputs -> sha512_256 x = sha512_256 y -> x = y.

Lemma condition_u64 c : condition_ok c -> is_u64 (condition_fee c) /\ is_u64 (condition_nonce c).
Proof.
  destruct c as [c|c|c]; cbn; [intros (? & ? & ? & ? & ?)|intros ((? & ? & ? & ? & ?) & ? & ?)..]; done.
Qed.

Lemma origin_condition_ok tx : transaction_ok tx -> condition_ok (auth_origin (tx_auth tx)).
Proof. intros (_ & Ha & _). destruct (tx_auth tx); cbn in *; tauto. Qed.

(** C5: what the origin's signature commits to. Two well-formed transactions whose
    origin signs the same digest agree on version, chain, anchor mode, post-condition
    mode, post-conditions, payload, cleared authorization, fee and nonce, when
    SHA-512/256 has no collision among the inputs hashed for the two. A sponsor's own
    condition is not among them. *)
Theorem origin_digest_binds tx1 tx2 d
  (H1 : transaction_ok tx1) (H2 : transaction_ok tx2)
  (Hd1 : origin_digest tx1 = Some d) (Hd2 : origin_digest tx2 = Some d)
  (Hfits : Forall (fun b => len b <= USIZE_MAX) (origin_digest_inputs tx1))
  (Hfree : collision_free (origin_digest_inputs tx1 ++ origin_digest_inputs tx2)) :
  tx_version tx1 = tx_version tx2 /\ tx_chain_id tx1 = tx_chain_id tx2 /\
  tx_anchor_mode tx1 = tx_anchor_mode tx2 /\ tx_post_condition_mode tx1 = tx_post_condition_mode tx2 /\
  tx_post_conditions tx1 = tx_post_conditions tx2 /\ tx_payload tx1 = tx_payload tx2 /\
  initial_sighash_auth (tx_auth tx1) = initial_sighash_auth (tx_auth tx2) /\
  condition_fee (auth_origin (tx_auth tx1)) = condition_fee (auth_origin (tx_auth tx2)) /\
  condition_nonce (auth_origin (tx_auth tx1)) = condition_nonce (auth_origin (tx_auth tx2)).
Proof.
  destruct (condition_u64 _ (origin_condition_ok tx1 H1)) as [Hf1 Hn1], (condition_u64 _ (origin_condition_ok tx2 H2)) as [Hf2 Hn2].
  pose proof (sighash_transaction_valid tx1 H1) as V1. pose proof (sighash_transaction_valid tx2 H2) as V2.
  destruct (code_emits _ V1) as (b1 & E1), (code_emits _ V2) as (b2 & E2).
  pose proof (emits_finish _ _ E1) as F1. pose proof (emits_finish _ _ E2) as F2. fold (encode_transaction (sighash_transaction tx1)) in F1.
  fold (encode_transaction (sighash_transaction tx2)) in F2.
  unfold origin_digest, txid in Hd1, Hd2. cbn [tx_bytes sighash_transaction set_bytes] in Hd1, Hd2.
  unfold origin_digest_inputs in Hfree, Hfits. fold (sighash_transaction tx1) in *. fold (sighash_transaction tx2) in *.
  rewrite F1 in *. rewrite F2 in *. cbn [mbind option_bind] in *. injection Hd1 as Hd1. injection Hd2 as Hd2.
  rewrite <- Hd2 in Hd1. apply Hfree in Hd1; [|set_solver..].
  apply app_inj_1 in Hd1 as [Hh Hd1]; [|by rewrite !sha512_256_length].
  apply Hfree in Hh; [|set_solver..]. subst b2. apply app_inv_head in Hd1.
  apply app_inj_1 in Hd1 as [Hfee Hnonce]; [|length_lia].
  apply u64_bytes_inj in Hfee; [|done..]. apply u64_bytes_inj in Hnonce; [|done..].
  apply Forall_cons_1 in Hfits as [Hl _].
  pose proof (code_inj _ _ b1 b1 [] [] V1 V2 E1 E2 eq_refl ltac:(by rewrite app_nil_r)) as Heq.
  destruct tx1, tx2. unfold sighash_transaction in Heq. cbn in *. by simplify_eq.
Qed.

End Binding.

(** ** Verified conditions *)

Section VerifySpec.
Context `{HO : HashesOk} `{SO : Secp256k1Ok}.

(** [signed_key]: [signature] is a low-[s] signature over [digest] by [key]. *)
Definition signed_key (signature digest : list byte) (key : secp_pk) : Prop :=
  MessageSignature.is_low_s signature = Ok true /\ MessageSignature.recover signature digest = Ok key.

(** The fields of a multisig condition and the keys they stand for: each
    signature is over the hash chained through the signatures before it, or over
    the initial hash when the order does not matter. *)
Inductive field_chain (order_independent : bool) (flag : byte) (fee nonce : Z)
  : Sha256Sum -> list AuthField -> list (list byte) -> Sha256Sum -> Prop :=
| chain_nil h : field_chain order_independent flag fee nonce h [] [] h
| chain_key h encoding bytes key rest keys h' :
    StacksPublicKey.from_bytes bytes = Ok key -> encoded_key key encoding = bytes ->
    field_chain order_independent flag fee nonce h rest keys h' ->
    field_chain order_independent flag fee nonce h (PublicKey encoding bytes :: rest) (bytes :: keys) h'
| chain_signature h encoding signature key rest keys h' :
    signed_key signature (presign_sighash h flag fee nonce) key ->
    field_chain order_independent flag fee nonce
      (if order_independent then h else postsign_sighash (presign_sighash h flag fee nonce) encoding signature)
      rest keys h' ->
    field_chain order_independent flag fee nonce h (Signature encoding signature :: rest)
      (encoded_key key encoding :: keys) h'.

Lemma recover_key_ok current flag fee nonce encoding signature key next :
  recover_key current flag fee nonce encoding signature = Ok (key, next) <->
  exists k, signed_key signature (presign_sighash current flag fee nonce) k /\ key = encoded_key k encoding /\
    next = postsign_sighash (presign_sighash current flag fee nonce) encoding signature.
Proof.
  unfold recover_key, signed_key. destruct (MessageSignature.is_low_s signature) as [[]|]; 
    [|split; [done|by intros (k & [] & _)]..].
  destruct (MessageSignature.recover _ _) as [k|]; [|split; [done|by intros (k & [] & _)]].
  split; [intros [= <- <-]; by exists k|]. intros (k' & [_ [= <-]] & -> & ->). done.
Qed.

Lemma signature_count_cons f fields :
  signature_count (f :: fields) = (if is_signature f then 1 else 0) + signature_count fields.
Proof. unfold signature_count. cbn [List.filter]. destruct (is_signature f); cbn [length]; lia. Qed.

Lemma signature_count_nonneg fields : 0 <= signature_count fields <= len fields.
Proof. induction fields as [|f fields IH]; [done|]. rewrite signature_count_cons. cbn [length]. destruct (is_signature f); lia. Qed.

Lemma verify_fields_ok v flag fields keys0 h n keys h' n' :
  0 <= n -> n + signature_count fields <= U16_MAX ->
  verify_fields v flag fields keys0 h n = Ok (keys, h', n') <->
  exists ks, keys = keys0 ++ ks /\ n' = n + signature_count fields /\
    field_chain (mv_order_independent v) flag (mv_fee v) (mv_nonce v) h fields ks h'.
Proof.
  revert keys0 h n. induction fields as [|f fields IH]; intros keys0 h n Hn Hc.
  - change (signature_count []) with 0. cbn [verify_fields]. rewrite Z.add_0_r. split.
    + intros [= <- <- <-]. exists []. rewrite app_nil_r. split_and!; [done..|constructor].
    + intros (ks & -> & -> & Hch). inversion Hch; subst. by rewrite app_nil_r.
  - rewrite signature_count_cons in *. pose proof (signature_count_nonneg fields).
    destruct f as [encoding bytes|encoding signature]; cbn [verify_fields is_signature] in *.
    + destruct (StacksPublicKey.from_bytes bytes) as [key|] eqn:Hk;
        [|split; [done|intros (ks & _ & _ & Hch); inversion Hch; congruence]].
      destruct (decide _) as [He|He]; [|split; [done|intros (ks & _ & _ & Hch); inversion Hch; congruence]].
      rewrite IH by lia. split.
      * intros (ks & -> & -> & Hch). exists (bytes :: ks). rewrite <- app_assoc. split_and!; [done|done|].
        by eapply chain_key.
      * intros (ks & -> & -> & Hch). inversion Hch; subst. eexists. rewrite <- app_assoc. by split_and!.
    + destruct (recover_key _ _ _ _ _ _) as [[key next]|] eqn:Hk.
      2:{ split; [done|intros (ks & _ & _ & Hch)]. inversion Hch; subst.
          assert (Hx : exists x, recover_key h flag (mv_fee v) (mv_nonce v) encoding signature = Ok x)
            by (eexists (_, _); apply recover_key_ok; eauto). destruct Hx; congruence. }
      apply recover_key_ok in Hk as (k & Hs & -> & ->).
      rewrite (proj2 (checked_add_Some U16_MAX n 1 (n + 1))) by lia. cbn [or_err]. rewrite IH by lia. split.
      * intros (ks & -> & -> & Hch). exists (encoded_key k encoding :: ks). rewrite <- app_assoc.
        split_and!; [done|lia|]. by apply chain_signature.
      * intros (ks & -> & -> & Hch). inversion Hch; subst.
        assert (key = k) as -> by (destruct Hs, H8; congruence).
        eexists. rewrite <- app_assoc. split_and!; [done|lia|done].
Qed.

Lemma field_chain_length oi flag fee nonce h fields keys h' :
  field_chain oi flag fee nonce h fields keys h' -> length keys = length fields.
Proof. induction 1; cbn [length]; congruence. Qed.

Lemma address_hash_bounds mode required keys hash :
  address_hash mode required keys = Ok hash -> required <> 0 /\ required <= len keys <= 16.
Proof. unfold address_hash. destruct (_ || _) eqn:E; [done|]. lia. Qed.

(** What [verify_multisig] accepts, declaratively. *)
Definition multisig_accepts (initial_sighash : Sha256Sum) (flag : byte) (v : MultisigVerification)
  (next : Sha256Sum) : Prop :=
  exists keys last,
    field_chain (mv_order_independent v) flag (mv_fee v) (mv_nonce v) initial_sighash (mv_fields v) keys last /\
    (if mv_order_independent v then mv_signatures_required v <= signature_count (mv_fields v)
     else signature_count (mv_fields v) = mv_signatures_required v) /\
    address_hash (mv_mode v) (mv_signatures_required v) keys = Ok (mv_signer v) /\
    next = (if mv_order_independent v then initial_sighash else last).

Lemma verify_fields_overflow v flag fields keys0 h n : 0 <= n <= U16_MAX ->
  U16_MAX < n + signature_count fields -> verify_fields v flag fields keys0 h n = Err InvalidAuth.
Proof.
  revert keys0 h n. induction fields as [|f fields IH]; intros keys0 h n Hn Hc.
  { change (signature_count []) with 0 in Hc. lia. }
  rewrite signature_count_cons in Hc. destruct f as [encoding bytes|encoding signature]; cbn [verify_fields is_signature] in *.
  - destruct (StacksPublicKey.from_bytes bytes); [|done]. destruct (decide _); [|done]. apply IH; lia.
  - destruct (recover_key _ _ _ _ _ _) as [[key next]|e] eqn:Hk.
    + destruct (checked_add U16_MAX n 1) as [m|] eqn:Hm; cbn [or_err]; [|done].
      apply checked_add_Some in Hm as [-> ?]. apply IH; lia.
    + unfold recover_key in Hk. by repeat case_match; simplify_eq.
Qed.

Lemma verify_multisig_ok h flag v next :
  verify_multisig h flag v = Ok next <-> multisig_accepts h flag v next.
Proof.
  pose proof (signature_count_nonneg (mv_fields v)).
  destruct (Z.le_gt_cases (signature_count (mv_fields v)) U16_MAX) as [Hle|Hgt].
  2:{ unfold verify_multisig. rewrite verify_fields_overflow by (unfold U16_MAX in *; lia).
      split; [done|]. intros (keys & l & Hch & _ & Ha & _). apply address_hash_bounds in Ha as [_ Ha].
      apply field_chain_length in Hch. unfold U16_MAX in *. lia. }
  unfold verify_multisig, multisig_accepts.
  destruct (verify_fields _ _ _ _ _ _) as [[[keys l] n]|] eqn:Hf.
  - apply verify_fields_ok in Hf as (ks & -> & -> & Hch); [|lia..]. cbn [app]. split.
    + destruct (negb _) eqn:Hm; [done|]. destruct (address_hash _ _ _) as [hash|] eqn:Ha; [|done].
      destruct (decide _) as [->|]; [|done]. intros [= <-]. exists ks, l. split_and!; [done| |done|done].
      destruct (mv_order_independent v); lia.
    + intros (ks' & l' & Hch' & Hm & Ha & ->).
      assert (ks' = ks /\ l' = l) as [-> ->].
      { assert (Heq : Ok (E := CodecError) (ks', l', 0 + signature_count (mv_fields v)) = Ok (ks, l, 0 + signature_count (mv_fields v))).
        { transitivity (verify_fields v flag (mv_fields v) [] h 0); [symmetry|]; apply verify_fields_ok; eauto with lia. }
        by simplify_eq. }
      rewrite Ha, decide_True by done. destruct (negb _) eqn:Hn; [|done]. destruct (mv_order_independent v); lia.
  - split; [done|]. intros (ks & l & Hch & _).
    assert (Hx : verify_fields v flag (mv_fields v) [] h 0 = Ok (ks, l, 0 + signature_count (mv_fields v)))
      by (apply verify_fields_ok; eauto with lia). congruence.
Qed.

(** What [SpendingCondition::verify] accepts. *)
Definition condition_accepts (c : SpendingCondition) (initial_sighash : Sha256Sum) (flag : byte)
  (next : Sha256Sum) : Prop :=
  match c with
  | Singlesig c =>
      let digest := presign_sighash initial_sighash flag (ss_fee c) (ss_nonce c) in
      exists key, signed_key (ss_signature c) digest key /\
        address_hash (singlesig_mode (ss_hash_mode c)) 1 [encoded_key key (ss_key_encoding c)] = Ok (ss_signer c) /\
        next = postsign_sighash digest (ss_key_encoding c) (ss_signature c)
  | Multisig c => multisig_accepts initial_sighash flag (multisig_verification c) next
  | OrderIndependentMultisig c => multisig_accepts initial_sighash flag (order_independent_verification c) next
  end.

Lemma verify_condition_ok c h flag next :
  verify_condition c h flag = Ok next <-> condition_accepts c h flag next.
Proof.
  destruct c as [c|c|c]; [|apply verify_multisig_ok..]. cbn [verify_condition condition_accepts].
  destruct (recover_key _ _ _ _ _ _) as [[key n]|] eqn:Hk.
  - apply recover_key_ok in Hk as (k & Hs & -> & ->). split.
    + destruct (address_hash _ _ _) as [hash|] eqn:Ha; [|done]. destruct (decide _) as [->|]; [|done].
      intros [= <-]. by exists k.
    + intros (k' & Hs' & Ha & ->). assert (k' = k) as -> by (destruct Hs, Hs'; congruence).
      rewrite Ha. by rewrite decide_True.
  - split; [done|]. intros (k & Hs & Ha & ->).
    assert (Hx : exists x, recover_key h flag (ss_fee c) (ss_nonce c) (ss_key_encoding c) (ss_signature c) = Ok x)
      by (eexists (_, _); apply recover_key_ok; eauto). destruct Hx; congruence.
Qed.

Lemma verify_auth_ok a id :
  verify_auth a id = Ok tt <->
  exists mid, condition_accepts (auth_origin a) id ORIGIN_AUTH_FLAG mid /\
    (forall sponsor, auth_sponsor a = Some sponsor -> exists last, condition_accepts sponsor mid SPONSOR_AUTH_FLAG last).
Proof.
  unfold verify_auth. setoid_rewrite <- verify_condition_ok.
  destruct (verify_condition (auth_origin a) id ORIGIN_AUTH_FLAG) as [mid|];
    [|split; [done|by intros (? & ? & _)]].
  destruct (auth_sponsor a) as [sp|]; [|split; [intros _; by exists mid|done]].
  destruct (verify_condition sp mid SPONSOR_AUTH_FLAG) as [l|] eqn:Hl; split; try done.
  - intros _. exists mid. split; [done|]. intros ? [= <-]. by exists l.
  - intros (? & [= <-] & Hs). destruct (Hs sp eq_refl) as [? ?]. congruence.
Qed.

(** C3: [Transaction::verify_authorization] accepts exactly when the origin's
    condition accepts the hash of the cleared transaction under the origin flag and,
    for a sponsored transaction, the sponsor's condition accepts the hash the origin's
    condition hands on, under the sponsor flag. [condition_accepts] states acceptance
    without the loop: a chain of low-S signatures with recovered keys, the number of
    signatures required, and the address hash of the keys. *)
Theorem verify_authorization_spec (tx : Transaction) :
  verify_authorization tx = Some (Ok tt) <->
  exists id mid, txid (sighash_transaction tx) = Some id /\
    condition_accepts (auth_origin (tx_auth tx)) id ORIGIN_AUTH_FLAG mid /\
    (forall sponsor, auth_sponsor (tx_auth tx) = Some sponsor ->
       exists last, condition_accepts sponsor mid SPONSOR_AUTH_FLAG last).
Proof.
  unfold verify_authorization. fold (sighash_transaction tx).
  destruct (txid (sighash_transaction tx)) as [id|]; cbn [mbind option_bind];
    [|split; [done|by intros (? & ? & ? & _)]].
  split.
  - intros [= Hv]. apply verify_auth_ok in Hv as (mid & ?). by exists id, mid.
  - intros (? & mid & [= <-] & ?). f_equal. apply verify_auth_ok. by exists mid.
Qed.

(** How many signatures and keys an accepted condition has. *)
Definition condition_fields (c : SpendingCondition) : list AuthField :=
  match c with
  | Singlesig c => [Signature (ss_key_encoding c) (ss_signature c)]
  | Multisig c => ms_fields c
  | OrderIndependentMultisig c => oi_fields c
  end.

Definition condition_required (c : SpendingCondition) : Z :=
  match c with
  | Singlesig _ => 1
  | Multisig c => ms_signatures_required c
  | OrderIndependentMultisig c => oi_signatures_required c
  end.

(** A condition that verifies requires at least one signature, carries at least
    as many as it requires, and has at most 16 fields. *)
Theorem verified_condition_bounds (c : SpendingCondition) (initial_sighash : Sha256Sum) (flag : byte)
  (next : Sha256Sum) (Hrequired : 0 <= condition_required c)
  (Hv : verify_condition c initial_sighash flag = Ok next) :
  1 <= condition_required c <= signature_count (condition_fields c) /\ len (condition_fields c) <= 16.
Proof.
  apply verify_condition_ok in Hv. destruct c as [c|c|c]; [done|..];
    destruct Hv as (keys & l & Hch & Hm & Ha & _); apply address_hash_bounds in Ha;
    apply field_chain_length in Hch; cbn in *; lia.
Qed.

End VerifySpec.

(** ** Multisig scripts *)

Lemma script_small_int_ok v b : script_small_int v = Ok b -> 1 <= v <= 16 /\ b = byte_of (0x50 + v).
Proof.
  unfold script_small_int. destruct (try_from U8_MAX v) eqn:E; [|done]. apply try_from_Some in E as [-> _].
  destruct (_ && _) eqn:E; [|done]. intros [= <-]. split; [lia|done].
Qed.

Lemma script_small_int_inj v w b : script_small_int v = Ok b -> script_small_int w = Ok b -> v = w.
Proof.
  intros [Hv Eb]%script_small_int_ok [Hw Ew]%script_small_int_ok. rewrite Eb in Ew.
  apply (f_equal u8) in Ew. rewrite !u8_byte_of, !Z.mod_small in Ew by lia. lia.
Qed.

Lemma push_keys_cons key rest script : push_keys (key :: rest) = Ok script ->
  len key <= U8_MAX /\ exists tail, push_keys rest = Ok tail /\ script = byte_of (len key) :: key ++ tail.
Proof.
  cbn. destruct (try_from U8_MAX (len key)) eqn:E; cbn; [|done]. apply try_from_Some in E as [-> E].
  destruct (push_keys rest) as [tail|]; [|done]. intros [= <-]. split; [done|]. by exists tail.
Qed.

Lemma push_keys_inj k1 k2 s1 s2 t1 t2 : push_keys k1 = Ok s1 -> push_keys k2 = Ok s2 ->
  length k1 = length k2 -> s1 ++ t1 = s2 ++ t2 -> k1 = k2.
Proof.
  revert k2 s1 s2. induction k1 as [|a k1 IH]; intros [|b k2] s1 s2 H1 H2 Hl Heq; try done.
  apply push_keys_cons in H1 as (La & u1 & H1 & ->). apply push_keys_cons in H2 as (Lb & u2 & H2 & ->).
  injection Heq as Hlen Heq. apply (f_equal u8) in Hlen. unfold U8_MAX in *. rewrite !u8_byte_of, !Z.mod_small in Hlen by lia.
  rewrite <- !app_assoc in Heq. apply app_inj_1 in Heq as [-> Heq]; [|lia].
  f_equal. by apply (IH k2 u1 u2); [..|injection Hl|].
Qed.

(** A multisig redeem script determines the number of signatures required and the
    list of keys. *)
Theorem multisig_script_injective (required1 required2 : Z) (keys1 keys2 : list (list byte)) (script : list byte)
  (H1 : multisig_script required1 keys1 = Ok script) (H2 : multisig_script required2 keys2 = Ok script) :
  required1 = required2 /\ keys1 = keys2.
Proof.
  unfold multisig_script in H1, H2.
  destruct (script_small_int required1) as [q1|] eqn:Q1, (script_small_int required2) as [q2|] eqn:Q2; try done.
  destruct (script_small_int (len keys1)) as [c1|] eqn:C1, (script_small_int (len keys2)) as [c2|] eqn:C2; try done.
  destruct (push_keys keys1) as [p1|] eqn:P1, (push_keys keys2) as [p2|] eqn:P2; try done.
  rewrite <- H2 in H1. injection H1 as -> Heq.
  split; [by apply (script_small_int_inj _ _ q2)|].
  apply app_inj_2 in Heq as [-> Hc]; [|done]. injection Hc as ->.
  apply (push_keys_inj _ _ _ _ [] [] P1 P2); [|done].
  pose proof (script_small_int_inj _ _ _ C1 C2). lia.
Qed.

(** ** The transaction root *)

Section Merkle.
Context `{HO : HashesOk}.

Lemma pad_even_length l : length (pad_even l) = (length l + if Nat.odd (length l) then 1 else 0)%nat.
Proof.
  unfold pad_even. destruct (Nat.odd (length l)) eqn:E; [|lia].
  destruct (last l) eqn:El; [by rewrite length_app|].
  apply last_None in El. by subst.
Qed.

Lemma pad_even_even l : Nat.Even (length (pad_even l)).
Proof.
  rewrite pad_even_length. destruct (Nat.odd (length l)) eqn:E.
  - apply Nat.odd_spec in E as [m ->]. exists (m + 1)%nat. lia.
  - rewrite Nat.add_0_r. apply Nat.even_spec. rewrite <- Nat.negb_odd. by rewrite E.
Qed.

Lemma list_pair_ind (P : list (list byte) -> Prop) :
  P [] -> (forall a, P [a]) -> (forall a b l, P l -> P (a :: b :: l)) -> forall l, P l.
Proof.
  intros H0 H1 H2. fix IH 1. intros [|a [|b l]]; [done|apply H1|apply H2, IH].
Qed.

Lemma hash_pairs_length l : (2 * length (hash_pairs l) <= length l <= 2 * length (hash_pairs l) + 1)%nat.
Proof. induction l as [|a|a b l IH] using list_pair_ind; cbn [hash_pairs length] in *; lia. Qed.

Lemma round_length l : (2 <= length l)%nat -> (1 <= length (hash_pairs (pad_even l)) < length l)%nat.
Proof.
  intros Hl. pose proof (hash_pairs_length (pad_even l)). pose proof (pad_even_length l).
  destruct (Nat.odd (length l)) eqn:E; [|lia].
  assert (length l <> 2)%nat by (intros E2; by rewrite E2 in E). lia.
Qed.

Definition is_level (l : list Sha256Sum) : Prop := Forall (is_hash 32) l.

Lemma hash_pairs_level l : is_level (hash_pairs l).
Proof. induction l as [|a|a b l IH] using list_pair_ind; cbn; constructor; [apply sha512_256_length|done]. Qed.

Lemma merkle_loop_total fuel l : is_level l -> (1 <= length l <= fuel)%nat ->
  exists h, merkle_loop fuel l = Some h /\ is_hash 32 h.
Proof.
  revert l. induction fuel as [|fuel IH]; intros l Hlv Hl; [lia|]. cbn [merkle_loop].
  destruct (Nat.leb_spec (length l) 1).
  - destruct l as [|h l]; [cbn in *; lia|]. exists h. split; [done|]. by inversion Hlv.
  - pose proof (round_length l ltac:(lia)). apply IH; [apply hash_pairs_level|lia].
Qed.

Lemma pad_even_level l : is_level l -> is_level (pad_even l).
Proof.
  intros Hl. unfold pad_even. destruct (Nat.odd _); [|done]. destruct (last l) eqn:E; [|done].
  apply Forall_app. split; [done|]. constructor; [|done].
  apply last_Some_elem_of in E. unfold is_level in Hl. rewrite Forall_forall in Hl. by apply Hl.
Qed.

Lemma leaves_level ids : is_level (map (tagged_hash 0) ids).
Proof. induction ids; cbn; constructor; [apply sha512_256_length|done]. Qed.

Lemma mapM_length {A B} (f : A -> option B) l k : mapM f l = Some k -> length k = length l.
Proof. intros Hm%mapM_Some. by apply Forall2_length in Hm. Qed.

Lemma root_total transactions : Forall (fun tx => is_Some (txid tx)) transactions ->
  exists root, transaction_merkle_root transactions = Some root /\ is_hash 32 root.
Proof.
  intros Hids. destruct transactions as [|tx txs]; [by exists (zero_hash 32)|].
  unfold transaction_merkle_root. destruct (mapM_is_Some_2 _ _ Hids) as [ids Hm]. rewrite Hm.
  cbn [mbind option_bind]. apply merkle_loop_total; [apply pad_even_level, leaves_level|].
  apply mapM_length in Hm. pose proof (pad_even_length (map (tagged_hash 0) ids)) as Hp.
  rewrite length_map, Hm in Hp. cbn [length] in Hp. lia.
Qed.

(** Transaction_merkle_root terminates without a panic on every list of
    transactions that have identifiers and returns a 32-byte hash. *)
Theorem merkle_root_total (transactions : list Transaction)
  (Hids : Forall (fun tx => is_Some (txid tx)) transactions) :
  exists root, transaction_merkle_root transactions = Some root /\ is_hash 32 root.
Proof. by apply root_total. Qed.

(** The inputs hashed by one round, and by all of them. *)
Fixpoint pair_inputs (level : list Sha256Sum) : list (list byte) :=
  match level with
  | one :: two :: rest => (1%u8 :: one ++ two) :: pair_inputs rest
  | _ => []
  end.

Fixpoint loop_inputs (fuel : nat) (level : list Sha256Sum) : list (list byte) :=
  if Nat.leb (length level) 1 then [] else
  match fuel with
  | O => []
  | S fuel => pair_inputs (pad_even level) ++ loop_inputs fuel (hash_pairs (pad_even level))
  end.

(** The bytes a transaction identifier is the hash of. *)
Definition txid_input (tx : Transaction) : option (list byte) :=
  match tx_bytes tx with [] => encode_transaction tx | bytes => Some bytes end.

Definition root_inputs (transactions : list Transaction) : list (list byte) :=
  match mapM txid_input transactions with
  | None => []
  | Some bytes =>
      let ids := map sha512_256 bytes in
      let level := pad_even (map (tagged_hash 0) ids) in
      bytes ++ map (cons 0%u8) ids ++ loop_inputs (length level) level
  end.

Lemma collision_free_mono i1 i2 : i1 ⊆ i2 -> collision_free i2 -> collision_free i1.
Proof. intros Hs Hf x y Hx Hy. by apply Hf; apply Hs. Qed.

(** Equal hashes of equally many inputs come from equal inputs. *)
Lemma map_hash_inj x y : collision_free (x ++ y) -> map sha512_256 x = map sha512_256 y -> x = y.
Proof.
  revert y. induction x as [|a x IH]; intros [|b y] Hf Heq; try done. injection Heq as Ha Heq.
  f_equal; [apply Hf; [set_solver..|done]|]. apply IH; [|done]. revert Hf. apply collision_free_mono. set_solver.
Qed.

Lemma hash_pairs_inputs l : hash_pairs l = map sha512_256 (pair_inputs l).
Proof. induction l as [|a|a b l IH] using list_pair_ind; cbn [hash_pairs pair_inputs map]; [done..|]. by f_equal. Qed.

Lemma even_SS n : Nat.Even (S (S n)) -> Nat.Even n.
Proof. intros [m Hm]. exists (m - 1)%nat. lia. Qed.

Lemma pair_inputs_inj l1 l2 : is_level l1 -> is_level l2 -> Nat.Even (length l1) -> Nat.Even (length l2) ->
  pair_inputs l1 = pair_inputs l2 -> l1 = l2.
Proof.
  revert l2. induction l1 as [|a|a b l1 IH] using list_pair_ind; intros l2 V1 V2 E1 E2 Heq.
  - destruct l2 as [|c [|d l2]]; [done| |done]. destruct E2 as [m Hm]. cbn in Hm. lia.
  - destruct E1 as [m Hm]. cbn in Hm. lia.
  - destruct l2 as [|c [|d l2]]; [done|done|]. apply even_SS in E1, E2.
    apply Forall_cons_1 in V1 as [Va [Vb V1]%Forall_cons_1]. apply Forall_cons_1 in V2 as [Vc [Vd V2]%Forall_cons_1].
    injection Heq as Hab Heq. apply app_inj_1 in Hab as [-> ->]; [|by rewrite Va, Vc].
    do 2 f_equal. by apply IH.
Qed.

Lemma pad_even_inj l1 l2 : length l1 = length l2 -> pad_even l1 = pad_even l2 -> l1 = l2.
Proof.
  intros Hl. unfold pad_even. rewrite Hl. destruct (Nat.odd (length l2)); [|done].
  destruct (last l1) eqn:E1, (last l2) eqn:E2; try done.
  - by intros [? _]%app_inj_2.
  - apply last_None in E2 as ->. by destruct l1.
  - apply last_None in E1 as ->. by destruct l2.
Qed.

Lemma round_inj l1 l2 : is_level l1 -> is_level l2 -> length l1 = length l2 ->
  collision_free (pair_inputs (pad_even l1) ++ pair_inputs (pad_even l2)) ->
  hash_pairs (pad_even l1) = hash_pairs (pad_even l2) -> l1 = l2.
Proof.
  intros V1 V2 Hl Hf. rewrite !hash_pairs_inputs. intros Heq%map_hash_inj; [|done].
  apply pair_inputs_inj in Heq; auto using pad_even_level, pad_even_even. by apply pad_even_inj.
Qed.

Lemma merkle_loop_inj fuel l1 l2 h : is_level l1 -> is_level l2 -> length l1 = length l2 ->
  collision_free (loop_inputs fuel l1 ++ loop_inputs fuel l2) ->
  merkle_loop fuel l1 = Some h -> merkle_loop fuel l2 = Some h -> l1 = l2.
Proof.
  revert l1 l2. induction fuel as [|fuel IH]; intros l1 l2 V1 V2 Hl Hf; cbn [merkle_loop loop_inputs] in *;
    rewrite <- Hl in *; destruct (Nat.leb_spec (length l1) 1) as [Hle|Hgt]; try done.
  1,2: destruct l1 as [|a [|? ?]], l2 as [|b [|? ?]]; cbn in *; try lia; try done; by intros [= ->] [= ->].
  intros H1 H2. apply round_inj; [done..| |].
  - revert Hf. apply collision_free_mono. set_solver.
  - apply IH; [apply hash_pairs_level..| | |done|done].
    + rewrite !hash_pairs_inputs, !length_map. pose proof (hash_pairs_length (pad_even l1)) as A1.
      pose proof (hash_pairs_length (pad_even l2)) as A2. rewrite !hash_pairs_inputs, !length_map in A1, A2.
      pose proof (pad_even_length l1). pose proof (pad_even_length l2). rewrite <- Hl in *.
      pose proof (pad_even_even l1) as [m1 ?]. pose proof (pad_even_even l2) as [m2 ?]. lia.
    + revert Hf. apply collision_free_mono. set_solver.
Qed.

Lemma txids_inputs txs ids : mapM txid txs = Some ids ->
  exists bytes, mapM txid_input txs = Some bytes /\ ids = map sha512_256 bytes.
Proof.
  revert ids. induction txs as [|tx txs IH]; intros ids; cbn [mapM]; [intros [= <-]; by exists []|].
  intros (id & Hid & (ids' & Hm & [= <-])%bind_Some)%bind_Some. destruct (IH _ Hm) as (bs & -> & ->).
  unfold txid in Hid. unfold txid_input. destruct (tx_bytes tx) as [|b0 b].
  - apply bind_Some in Hid as (b & -> & [= <-]). by exists (b :: bs).
  - injection Hid as <-. by exists ((b0 :: b) :: bs).
Qed.

Lemma root_loop txs root : txs <> [] -> transaction_merkle_root txs = Some root ->
  exists bytes, mapM txid_input txs = Some bytes /\ length bytes = length txs /\
    let level := pad_even (map (tagged_hash 0) (map sha512_256 bytes)) in
    merkle_loop (length level) level = Some root /\
    root_inputs txs = bytes ++ map (cons 0%u8) (map sha512_256 bytes) ++ loop_inputs (length level) level.
Proof.
  intros Hne Hr. destruct txs as [|tx txs]; [done|]. unfold transaction_merkle_root in Hr.
  apply bind_Some in Hr as (ids & Hm & Hr). apply txids_inputs in Hm as (bytes & Hb & ->).
  exists bytes. split; [done|]. split; [by apply mapM_length in Hb|]. split; [done|]. unfold root_inputs. by rewrite Hb.
Qed.

(** C10: two blocks with as many transactions and the same transaction root have the
    same transaction bytes in the same order, when SHA-512/256 has no collision among
    the inputs hashed for the two. *)
Theorem merkle_root_binds (txs1 txs2 : list Transaction) (root : Sha256Sum)
  (Hlength : length txs1 = length txs2)
  (H1 : transaction_merkle_root txs1 = Some root) (H2 : transaction_merkle_root txs2 = Some root)
  (Hfree : collision_free (root_inputs txs1 ++ root_inputs txs2)) :
  mapM txid_input txs1 = mapM txid_input txs2.
Proof.
  destruct (decide (txs1 = [])) as [->|N1]; [by destruct txs2|].
  assert (N2 : txs2 <> []) by (intros ->; by destruct txs1).
  apply root_loop in H1 as (b1 & M1 & L1 & R1 & I1); [|done]. apply root_loop in H2 as (b2 & M2 & L2 & R2 & I2); [|done].
  rewrite I1, I2 in Hfree. rewrite M1, M2. f_equal.
  assert (Hleaf : map (tagged_hash 0) (map sha512_256 b1) = map (tagged_hash 0) (map sha512_256 b2)).
  { apply pad_even_inj; [rewrite !length_map; congruence|].
    assert (Hl : length (pad_even (map (tagged_hash 0) (map sha512_256 b1))) = length (pad_even (map (tagged_hash 0) (map sha512_256 b2))))
      by (rewrite !pad_even_length, !length_map; by rewrite L1, L2, Hlength).
    rewrite Hl in R1, Hfree. eapply merkle_loop_inj; [apply pad_even_level, leaves_level..|done| |exact R1|exact R2].
    revert Hfree. apply collision_free_mono. set_solver. }
  assert (Hid : map (cons 0%u8) (map sha512_256 b1) = map (cons 0%u8) (map sha512_256 b2)).
  { apply map_hash_inj; [revert Hfree; apply collision_free_mono; set_solver|]. by rewrite !map_map in *. }
  apply map_hash_inj; [revert Hfree; apply collision_free_mono; set_solver|].
  apply list_fmap_eq_inj in Hid; [done|]. by intros ? ? [= ->].
Qed.

(** Repeating the last transaction of a list of odd length does not change its
    root: the root alone does not determine the number of transactions. *)
Theorem merkle_root_odd_duplicate (txs : list Transaction) (tx : Transaction)
  (Hodd : Nat.odd (length txs) = true) (Hlast : last txs = Some tx) :
  transaction_merkle_root (txs ++ [tx]) = transaction_merkle_root txs.
Proof.
  apply last_Some in Hlast as [init ->].
  assert (E : forall l, l <> [] -> transaction_merkle_root l =
    ids ← mapM txid l; let level := pad_even (map (tagged_hash 0) ids) in merkle_loop (length level) level)
    by (by intros []).
  rewrite !E by (by destruct init). rewrite mapM_snoc.
  destruct (mapM txid (init ++ [tx])) as [ids|] eqn:Hm; [|done].
  rewrite mapM_snoc in Hm. destruct (mapM txid init) as [ids0|] eqn:Hi; [|done].
  destruct (txid tx) as [id|]; [|done]. injection Hm as <-. cbn [mbind option_bind].
  apply mapM_length in Hi. rewrite <- Hi, length_app in Hodd || rewrite length_app, <- Hi in Hodd.
  replace (pad_even (map (tagged_hash 0) ((ids0 ++ [id]) ++ [id]))) with (pad_even (map (tagged_hash 0) (ids0 ++ [id])));
    [done|].
  unfold pad_even. rewrite !length_map, !length_app. cbn [length] in *. rewrite Hodd, Nat.add_1_r.
  rewrite Nat.odd_succ, <- Nat.negb_odd, Hodd. cbn [negb]. rewrite !map_app. cbn [map]. by rewrite last_snoc.
Qed.

End Merkle.
