(* ===== verification/Nakamoto.v ===== *)
(** * Nakamoto blocks and signer sets: [crates/nano-chainstate/src/nakamoto.rs]

    The block header with its hashes, the block codec, the weighted signer set
    of a reward cycle and the rules that link a block to its parent. The
    crate's [Reader] and [Writer] are the cursor and the buffer of [CodecIO];
    readings that can panic have [None] as the error of the panic, and [settle]
    turns it into the outer [option] used elsewhere. *)

From stdpp Require Import gmap sorting.
From S2P Require Import Prelude Primitives CodecIO Crypto TxData TxCodec TxAuth.

Inductive NakamotoCodecError : Type :=
| NakamotoEndOfInput
| NakamotoLength
| TrailingBytes
| NakamotoBitVec (e : BitVec.BitVecError)
| NakamotoTransaction (e : CodecError)
| DuplicateTransaction
| TransactionMerkleRoot.

#[export] Instance Nakamoto_read : ReadError (option NakamotoCodecError) :=
  {| length_error := Some NakamotoLength; end_error := Some NakamotoEndOfInput |}.

Abbreviation BlockM := (ReaderE (option NakamotoCodecError)).

(** A panic inside a reading becomes the outer [None]. *)
Definition settle {E A} (r : result (option E) A) : option (result E A) :=
  match r with
  | Ok a => Some (Ok a)
  | Err (Some e) => Some (Err e)
  | Err None => None
  end.

(** ** Headers *)

Record ProblematicTransaction : Type := mkProblematic { pt_index : Z; pt_category : byte }.

Record NakamotoBlockHeader : Type := mkHeader {
  hd_version : byte;
  hd_chain_length : Z;
  hd_bitcoin_spent : Z;
  hd_consensus_hash : ConsensusHash;
  hd_parent_block_id : StacksBlockId;
  hd_transaction_merkle_root : Sha256Sum;
  hd_state_index_root : list byte;
  hd_timestamp : Z;
  hd_miner_signature : list byte;
  hd_signer_signatures : list (list byte);
  hd_pox_treatment : BitVec.t;
  hd_problematic_transactions : list ProblematicTransaction;
}.

Record NakamotoBlock : Type := mkBlock {
  bl_header : NakamotoBlockHeader;
  bl_transactions : list Transaction;
}.

Definition set_signer_signatures (s : list (list byte)) (h : NakamotoBlockHeader) : NakamotoBlockHeader :=
  mkHeader (hd_version h) (hd_chain_length h) (hd_bitcoin_spent h) (hd_consensus_hash h) (hd_parent_block_id h)
    (hd_transaction_merkle_root h) (hd_state_index_root h) (hd_timestamp h) (hd_miner_signature h) s
    (hd_pox_treatment h) (hd_problematic_transactions h).

(** [version & 0x7f >= 1]. *)
Definition has_problematic (version : byte) : bool := 1 <=? Z.land (u8 version) 0x7f.

Definition encode_problematic_transaction (t : ProblematicTransaction) : WriterM :=
  Writer.u32 (pt_index t) ;;; Writer.byte (pt_category t).

Definition encode_problematic_transactions (h : NakamotoBlockHeader) : WriterM :=
  if has_problematic (hd_version h)
  then write_vec encode_problematic_transaction (hd_problematic_transactions h)
  else wskip.

Definition encode_without_signatures (h : NakamotoBlockHeader) : WriterM :=
  Writer.byte (hd_version h) ;;;
  Writer.u64 (hd_chain_length h) ;;;
  Writer.u64 (hd_bitcoin_spent h) ;;;
  Writer.raw (hd_consensus_hash h) ;;;
  Writer.raw (hd_parent_block_id h) ;;;
  Writer.raw (hd_transaction_merkle_root h) ;;;
  Writer.raw (hd_state_index_root h) ;;;
  Writer.u64 (hd_timestamp h).

Definition write_signatures (signatures : list (list byte)) : WriterM :=
  write_vec Writer.signature signatures.

Definition write_bit_vec (v : BitVec.t) : WriterM := fun w =>
  b ← BitVec.wire_bytes v; Writer.raw b w.

(** [NakamotoBlockHeader::encode]. *)
Definition encode_header (h : NakamotoBlockHeader) : WriterM :=
  encode_without_signatures h ;;;
  Writer.signature (hd_miner_signature h) ;;;
  write_signatures (hd_signer_signatures h) ;;;
  write_bit_vec (hd_pox_treatment h) ;;;
  encode_problematic_transactions h.

Definition signing_bytes (h : NakamotoBlockHeader) (include_miner_signature : bool) : option (list byte) :=
  Writer.finish (
    encode_without_signatures h ;;;
    (if include_miner_signature then Writer.signature (hd_miner_signature h) else wskip) ;;;
    write_bit_vec (hd_pox_treatment h) ;;;
    encode_problematic_transactions h).

Section Hashes.
Context `{HS : Hashes}.

Definition miner_signature_hash (h : NakamotoBlockHeader) : option Sha256Sum :=
  sha512_256 <$> signing_bytes h false.

Definition signer_signature_hash (h : NakamotoBlockHeader) : option Sha256Sum :=
  sha512_256 <$> signing_bytes h true.

Definition block_hash (h : NakamotoBlockHeader) : option (list byte) := signer_signature_hash h.

Definition header_block_id (h : NakamotoBlockHeader) : option StacksBlockId :=
  hash ← block_hash h; Some (sha512_256 (hash ++ hd_consensus_hash h)).

(** [NakamotoBlock::block_id]. *)
Definition block_id (b : NakamotoBlock) : option StacksBlockId := header_block_id (bl_header b).

End Hashes.

(** ** Reading and writing blocks *)

(** [Reader::signatures]. *)
Definition read_signatures : BlockM (list (list byte)) :=
  Reader.vec (fun count remaining => remaining / 65 <? count) Reader.signature.

(** [Reader::bit_vec]. *)
Definition read_bit_vec : BlockM BitVec.t :=
  length ← Reader.u16;
  let data_length := (length + 7) / 8 in
  declared ← Reader.u32;
  expected ← lift (or_err (try_from U32_MAX data_length) None);
  if negb (declared =? expected) then fail (Some NakamotoLength) else
  data ← Reader.take data_length;
  count ← lift (or_err (try_from U32_MAX (len data)) None);
  lift (match BitVec.from_wire_bytes 4000 (to_be_bytes 2 length ++ to_be_bytes 4 count ++ data) with
        | Some (Ok v) => Ok v
        | Some (Err e) => Err (Some (NakamotoBitVec e))
        | None => Err None
        end).

Definition read_problematic_transaction : BlockM ProblematicTransaction :=
  index ← Reader.u32;
  category ← Reader.byte;
  mret (mkProblematic index category).

(** [Reader::problematic_transactions]. *)
Definition read_problematic_transactions : BlockM (list ProblematicTransaction) :=
  Reader.vec (fun count remaining => remaining / 5 <? count) read_problematic_transaction.

(** The header read by [NakamotoBlock::decode_prefix]. *)
Definition read_header : BlockM NakamotoBlockHeader :=
  version ← Reader.byte;
  chain_length ← Reader.u64;
  bitcoin_spent ← Reader.u64;
  consensus_hash ← Reader.take 20;
  parent_block_id ← Reader.take 32;
  transaction_merkle_root ← Reader.take 32;
  state_index_root ← Reader.take 32;
  timestamp ← Reader.u64;
  miner_signature ← Reader.signature;
  signer_signatures ← read_signatures;
  pox_treatment ← read_bit_vec;
  problematic_transactions ←
    (if has_problematic version then read_problematic_transactions else mret []);
  mret (mkHeader version chain_length bitcoin_spent consensus_hash parent_block_id transaction_merkle_root
          state_index_root timestamp miner_signature signer_signatures pox_treatment problematic_transactions).

Section Blocks.
Context `{HS : Hashes} `{ED : Edwards}.

(** [Transaction::decode(reader.remaining_bytes())] then [reader.advance(consumed)?]. *)
Definition read_transaction : BlockM Transaction :=
  Reader.prefix NakamotoTransaction (fun bytes => Some (decode_transaction bytes)).

Definition read_transactions : BlockM (list Transaction) :=
  Reader.vec (fun count remaining => remaining <? count) read_transaction.

Definition validate_block (header : NakamotoBlockHeader) (transactions : list Transaction)
  : option (result NakamotoCodecError NakamotoBlock) :=
  ids ← mapM txid transactions;
  if negb (Nat.eqb (size (list_to_set ids : gset (list byte))) (length transactions))
  then Some (Err DuplicateTransaction) else
  root ← transaction_merkle_root transactions;
  if decide (root = hd_transaction_merkle_root header)
  then Some (Ok (mkBlock header transactions))
  else Some (Err TransactionMerkleRoot).

(** The readings of [NakamotoBlock::decode_prefix]. *)
Definition read_block : BlockM (NakamotoBlockHeader * list Transaction) :=
  header ← read_header;
  transactions ← read_transactions;
  mret (header, transactions).

Definition decode_prefix (bytes : list byte) : option (result NakamotoCodecError (NakamotoBlock * Z)) :=
  p ← settle (read_block (Reader.new bytes));
  match p with
  | Err e => Some (Err e)
  | Ok ((header, transactions), r) =>
      block ← validate_block header transactions;
      Some (let? block := block in Ok (block, Reader.position r))
  end.

(** [NakamotoBlock::decode]. *)
Definition decode_block (bytes : list byte) : option (result NakamotoCodecError NakamotoBlock) :=
  p ← decode_prefix bytes;
  Some (let? (block, consumed) := p in
        if negb (consumed =? len bytes) then Err TrailingBytes else Ok block).

Definition write_encoded (tx : Transaction) : WriterM := fun w =>
  b ← encode_transaction tx; Writer.raw b w.

(** [NakamotoBlock::encode]. *)
Definition encode_block (b : NakamotoBlock) : option (list byte) :=
  Writer.finish (encode_header (bl_header b) ;;; write_vec write_encoded (bl_transactions b)).

(** [NakamotoBlock::bitcoin_view_consensus_hash]: the first tenure change's view. *)
Fixpoint bitcoin_view (transactions : list Transaction) : option ConsensusHash :=
  match transactions with
  | [] => None
  | tx :: rest =>
      match pl_data (tx_payload tx) with
      | TenureChange payload => Some (bitcoin_view_consensus_hash payload)
      | _ => bitcoin_view rest
      end
  end.

(** ** Linkage to the parent *)

Inductive TenureError : Type := BadParentBlockId | BadChainLength | BadTimestamp | MissingTenureChange.

Definition is_tenure_change (tx : Transaction) : bool :=
  match payload_kind (pl_data (tx_payload tx)) with TransactionPayloadType.TenureChange => true | _ => false end.

Definition validate_successor (b : NakamotoBlock) (parent : NakamotoBlockHeader)
  : option (result TenureError unit) :=
  id ← header_block_id parent;
  let h := bl_header b in
  Some (
    if negb (bool_decide (hd_parent_block_id h = id)) then Err BadParentBlockId
    else if negb (hd_chain_length h =? saturating_add U64_MAX (hd_chain_length parent) 1) then Err BadChainLength
    else if hd_timestamp h <=? hd_timestamp parent then Err BadTimestamp
    else if negb (bool_decide (hd_consensus_hash h = hd_consensus_hash parent))
            && negb (existsb is_tenure_change (bl_transactions b))
    then Err MissingTenureChange
    else Ok tt).

End Blocks.
