(* ===== verification/Signers.v ===== *)
(** * Signer sets: [SignerSet] and [SignerWeights] of
      [crates/nano-chainstate/src/nakamoto.rs]

    The reward-set signers of a cycle with their voting weights: how weights
    are derived from stacked amounts, and when the signatures of a header
    approve it. An [option] result is [None] where the code panics. *)

From stdpp Require Import gmap sorting.
From S2P Require Import Prelude Primitives CodecIO Crypto Nakamoto.

Inductive SignerSetError : Type :=
| EmptySigners
| DuplicateSigner
| ZeroThreshold
| ZeroRewardSlots
| StackedAmountOverflow
| WeightOverflow
| BadSignature (e : CryptoError)
| UnknownOrUnorderedSigner
| InsufficientWeight.

(** ** Recorded weights *)

Module SignerWeights.

Definition t : Type := list (Hash160 * Z).

Definition new (entries : list (Hash160 * Z)) : result SignerSetError t :=
  match entries with
  | [] => Err EmptySigners
  | _ =>
      if negb (Nat.eqb (size (list_to_set entries.*1 : gset (list byte))) (length entries))
      then Err DuplicateSigner else Ok entries
  end.

Definition total_weight (entries : t) : result SignerSetError Z :=
  checked_sum U32_MAX WeightOverflow 0 entries.*2.

Definition approval_threshold (entries : t) : result SignerSetError Z :=
  let? total := total_weight entries in
  or_err (try_from U32_MAX (div_ceil (total * 7) 10)) WeightOverflow.

(** [enumerate().find(|(_, (hash, _))| hash == signing_hash)], counting from [i]. *)
Fixpoint find_signer (i : nat) (entries : t) (signing_hash : Hash160) : option (nat * Z) :=
  match entries with
  | [] => None
  | (hash, weight) :: rest =>
      if decide (hash = signing_hash) then Some (i, weight) else find_signer (S i) rest signing_hash
  end.

Section Ops.
Context `{HS : Hashes} `{SECP : Secp256k1}.

(** The hash of the key a signature recovers to. *)
Definition signing_hash (digest signature : list byte) : result SignerSetError Hash160 :=
  match MessageSignature.recover signature digest with
  | Err e => Err (BadSignature e)
  | Ok public_key => Ok (hash160 (StacksPublicKey.to_bytes_compressed public_key))
  end.

(** The loop of [verify]; [next_index] is the cursor. *)
Fixpoint verify_loop (entries : t) (digest : list byte) (signatures : list (list byte)) (next_index : nat)
  (signed_weight : Z) : result SignerSetError Z :=
  match signatures with
  | [] => Ok signed_weight
  | signature :: rest =>
      let? hash := signing_hash digest signature in
      match find_signer next_index (drop next_index entries) hash with
      | None => Err UnknownOrUnorderedSigner
      | Some (index, weight) =>
          let? signed_weight := or_err (checked_add U32_MAX signed_weight weight) WeightOverflow in
          verify_loop entries digest rest (index + 1) signed_weight
      end
  end.

Definition verify (entries : t) (h : NakamotoBlockHeader) : option (result SignerSetError Z) :=
  digest ← signer_signature_hash h;
  Some (
    let? signed_weight := verify_loop entries digest (hd_signer_signatures h) 0 0 in
    let? threshold := approval_threshold entries in
    if signed_weight <? threshold then Err InsufficientWeight else Ok signed_weight).

(** The loop of [order_responses] over the map from index to signature. *)
Fixpoint order_loop (entries : t) (digest : list byte) (responses : list (list byte))
  (ordered : gmap nat (list byte)) : result SignerSetError (gmap nat (list byte)) :=
  match responses with
  | [] => Ok ordered
  | signature :: rest =>
      let? hash := signing_hash digest signature in
      match find_signer 0 entries hash with
      | None => Err UnknownOrUnorderedSigner
      | Some (index, _) =>
          match ordered !! index with
          | Some _ => Err UnknownOrUnorderedSigner
          | None => order_loop entries digest rest (<[index := signature]> ordered)
          end
      end
  end.

(** [ordered.into_values()]: the values by increasing index. *)
Definition in_order (entries : t) (ordered : gmap nat (list byte)) : list (list byte) :=
  omap (fun i => ordered !! i) (seq 0 (length entries)).

Definition order_responses (entries : t) (h : NakamotoBlockHeader) (responses : list (list byte))
  : option (result SignerSetError (list (list byte))) :=
  digest ← signer_signature_hash h;
  match order_loop entries digest responses ∅ with
  | Err e => Some (Err e)
  | Ok ordered =>
      let signatures := in_order entries ordered in
      verified ← verify entries (set_signer_signatures signatures h);
      Some (let? _ := verified in Ok signatures)
  end.

End Ops.
End SignerWeights.

(** ** Signer sets *)

Section SignerSets.
Context `{HS : Hashes} `{SECP : Secp256k1}.

Record Signer : Type := mkSigner { sg_public_key : secp_pk; sg_weight : Z }.

Definition signer_key (s : Signer) : list byte := StacksPublicKey.to_bytes_compressed (sg_public_key s).

(** [SignerSet::new]: the set is the list of its signers. *)
Definition signer_set_new (signers : list Signer) : result SignerSetError (list Signer) :=
  match signers with
  | [] => Err EmptySigners
  | _ =>
      if negb (Nat.eqb (size (list_to_set (map signer_key signers) : gset (list byte))) (length signers))
      then Err DuplicateSigner else Ok signers
  end.

Definition from_stacked_amounts (signers : list (secp_pk * Z)) (threshold : Z)
  : result SignerSetError (list Signer) :=
  if threshold =? 0 then Err ZeroThreshold else
  let? signers := collect (fun '(public_key, stacked_amount) =>
    let? weight := or_err (try_from U32_MAX (stacked_amount / threshold)) WeightOverflow in
    Ok (mkSigner public_key weight)) signers in
  signer_set_new signers.

(** One row of the apportionment: key, public key, weight and remainder. *)
Record Row : Type := mkRow { row_key : list byte; row_public_key : secp_pk; row_weight : Z; row_remainder : Z }.

(** The loop that adds up the amounts of each key. *)
Fixpoint stack_amounts (signers : list (secp_pk * Z)) (stacked : gmap (list byte) (secp_pk * Z))
  : result SignerSetError (gmap (list byte) (secp_pk * Z)) :=
  match signers with
  | [] => Ok stacked
  | (public_key, amount) :: rest =>
      if amount =? 0 then stack_amounts rest stacked else
      let key := StacksPublicKey.to_bytes_compressed public_key in
      let '(held_key, held) := default (public_key, 0) (stacked !! key) in
      let? amount := or_err (checked_add U128_MAX held amount) StackedAmountOverflow in
      stack_amounts rest (<[key := (held_key, amount)]> stacked)
  end.

(** A [BTreeMap] in the order of its keys. *)
Definition key_le (a b : list byte * (secp_pk * Z)) : Prop := bytes_le a.1 b.1.
#[global] Instance key_le_dec a b : Decision (key_le a b).
Proof. unfold key_le. apply _. Defined.
Definition in_key_order (m : gmap (list byte) (secp_pk * Z)) : list (list byte * (secp_pk * Z)) :=
  merge_sort key_le (map_to_list m).

(** The first sort: by decreasing remainder, then by key. *)
Definition remainder_le (a b : Row) : Prop :=
  row_remainder b < row_remainder a \/ (row_remainder a = row_remainder b /\ bytes_le (row_key a) (row_key b)).
#[global] Instance remainder_le_dec a b : Decision (remainder_le a b).
Proof. unfold remainder_le. apply _. Defined.

(** The second sort: by key. *)
Definition row_key_le (a b : Row) : Prop := bytes_le (row_key a) (row_key b).
#[global] Instance row_key_le_dec a b : Decision (row_key_le a b).
Proof. unfold row_key_le. apply _. Defined.

(** [for row in &mut apportioned]: one more slot each while any is left. *)
Fixpoint add_slots (rows : list Row) (remaining : Z) : result SignerSetError (list Row) :=
  match rows with
  | [] => Ok []
  | row :: rest =>
      if remaining =? 0 then Ok (row :: rest) else
      let? weight := or_err (checked_add U128_MAX (row_weight row) 1) WeightOverflow in
      let? rest := add_slots rest (remaining - 1) in
      Ok (mkRow (row_key row) (row_public_key row) weight (row_remainder row) :: rest)
  end.

Definition apportion (threshold : Z) (e : list byte * (secp_pk * Z)) : Row :=
  mkRow e.1 e.2.1 (e.2.2 / threshold) (e.2.2 mod threshold).

Definition row_signer (row : Row) : result SignerSetError Signer :=
  let? weight := or_err (try_from U32_MAX (row_weight row)) WeightOverflow in
  Ok (mkSigner (row_public_key row) weight).

(** [SignerSet::from_reward_slots]. *)
Definition from_reward_slots (signers : list (secp_pk * Z)) (reward_slots : Z)
  : result SignerSetError (list Signer * Z) :=
  if reward_slots =? 0 then Err ZeroRewardSlots else
  let? stacked := stack_amounts signers ∅ in
  let stacked := in_key_order stacked in
  let? total := checked_sum U128_MAX StackedAmountOverflow 0 (map (fun e => e.2.2) stacked) in
  let threshold := Z.max (div_ceil total reward_slots) 1 in
  let apportioned := map (apportion threshold) stacked in
  let? assigned := checked_sum U128_MAX WeightOverflow 0 (map row_weight apportioned) in
  let remaining := saturating_sub reward_slots assigned in
  let? apportioned := add_slots (merge_sort remainder_le apportioned) remaining in
  let apportioned := merge_sort row_key_le apportioned in
  let? signers := collect row_signer (List.filter (fun row => negb (row_weight row =? 0)) apportioned) in
  let? signers := signer_set_new signers in
  Ok (signers, threshold).

(** [SignerSet::approval_threshold], its own copy of the rule. *)
Definition set_approval_threshold (signers : list Signer) : result SignerSetError Z :=
  let? total := checked_sum U32_MAX WeightOverflow 0 (map sg_weight signers) in
  or_err (try_from U32_MAX (div_ceil (total * 7) 10)) WeightOverflow.

Definition signing_weights (signers : list Signer) : result SignerSetError SignerWeights.t :=
  SignerWeights.new (map (fun s => (hash160 (signer_key s), sg_weight s)) signers).

Definition set_verify (signers : list Signer) (h : NakamotoBlockHeader) : option (result SignerSetError Z) :=
  match signing_weights signers with
  | Err e => Some (Err e)
  | Ok weights => SignerWeights.verify weights h
  end.

Definition set_order_responses (signers : list Signer) (h : NakamotoBlockHeader) (responses : list (list byte))
  : option (result SignerSetError (list (list byte))) :=
  match signing_weights signers with
  | Err e => Some (Err e)
  | Ok weights => SignerWeights.order_responses weights h responses
  end.

End SignerSets.
