(* ===== verification/SignerTheorems.v ===== *)
(** * Theorems about signer sets

    When the signatures of a header approve it, how responses are put in
    order, and how reward slots are shared out. *)

From stdpp Require Import gmap sorting.
From S2P Require Import Prelude Primitives CodecIO Crypto Nakamoto Signers.
Import SignerWeights.

Lemma div_ceil_le a b n : 0 < b -> div_ceil a b <= n <-> a <= n * b.
Proof.
  intros Hb. unfold div_ceil. split; intros H.
  - pose proof (Z.div_mod (a + b - 1) b ltac:(lia)). pose proof (Z.mod_pos_bound (a + b - 1) b Hb). nia.
  - apply Z.lt_succ_r, Z.div_lt_upper_bound; lia.
Qed.

(** ** Approval *)

Lemma find_signer_some i (l : list (Hash160 * Z)) h j w : find_signer i l h = Some (j, w) ->
  exists k, j = (i + k)%nat /\ l !! k = Some (h, w).
Proof.
  revert i. induction l as [|[h' w'] l IH]; intros i; cbn [find_signer]; [done|].
  case_decide as Hh; [intros [= <- <-]; subst; exists 0%nat; split; [lia|done]|].
  intros (k & -> & Hk)%IH. exists (S k). split; [lia|done].
Qed.

Lemma find_signer_at i (l : list (Hash160 * Z)) h k w : NoDup l.*1 -> l !! k = Some (h, w) -> find_signer i l h = Some ((i + k)%nat, w).
Proof.
  revert i k. induction l as [|[h' w'] l IH]; intros i [|k] Hnd Hk; cbn in Hnd, Hk; try done;
    apply NoDup_cons in Hnd as [Hni Hnd]; cbn [find_signer].
  - injection Hk as -> ->. rewrite decide_True by done. do 2 f_equal. lia.
  - rewrite decide_False.
    + rewrite (IH _ k) by done. do 2 f_equal. lia.
    + intros ->. apply Hni. apply list_elem_of_fmap. exists (h, w). split; [done|]. by eapply list_elem_of_lookup_2.
Qed.

Section Approval.
Context `{HS : Hashes} `{SECP : Secp256k1}.
Context (entries : list (Hash160 * Z)).
Hypothesis Hunique : NoDup entries.*1.
Hypothesis Hweights : Forall (fun w => is_u32 w) entries.*2.

(** The signature is by the signer at position [row.1], which weighs [row.2]. *)
Definition signed_by (digest signature : list byte) (row : nat * Z) : Prop :=
  exists hash, signing_hash digest signature = Ok hash /\ entries !! row.1 = Some (hash, row.2).

(** The signatures are by signers of the set, each once and in the set's order,
    and their weights sum to [weight]. *)
Definition approves (digest : list byte) (signatures : list (list byte)) (weight : Z) : Prop :=
  exists rows, StronglySorted lt rows.*1 /\ Forall2 (signed_by digest) signatures rows /\ weight = zsum rows.*2.

Lemma signed_weight digest s row : signed_by digest s row -> is_u32 row.2.
Proof.
  intros (hash & _ & Hl). rewrite Forall_forall in Hweights. apply Hweights. apply list_elem_of_fmap.
  exists (hash, row.2). split; [done|]. by eapply list_elem_of_lookup_2.
Qed.

Lemma signed_weights digest ss rows : Forall2 (signed_by digest) ss rows -> Forall (fun w => 0 <= w) rows.*2.
Proof. induction 1 as [|s row ss rows Hs _ IH]; constructor; [|done]. apply signed_weight in Hs. unfold is_u32 in Hs. lia. Qed.

Lemma verify_loop_ok digest ss next w0 w : w0 <= U32_MAX -> verify_loop entries digest ss next w0 = Ok w <->
  exists rows, StronglySorted lt rows.*1 /\ Forall (fun i => (next <= i)%nat) rows.*1 /\
    Forall2 (signed_by digest) ss rows /\ w = w0 + zsum rows.*2 /\ w <= U32_MAX.
Proof.
  revert next w0. induction ss as [|s ss IH]; intros next w0 Hw0; cbn [verify_loop].
  { split.
    - intros [= <-]. exists []. split_and!; [constructor..|cbn; lia|done].
    - intros (rows & _ & _ & H & -> & _). apply Forall2_nil_inv_l in H as ->. cbn. f_equal. lia. }
  destruct (signing_hash digest s) as [hash|e] eqn:Hh.
  2:{ split; [done|]. intros (rows & _ & _ & H & _). apply Forall2_cons_inv_l in H as (row & rows' & (h' & Hh' & _) & _). congruence. }
  split.
  - destruct (find_signer _ _ _) as [[j wt]|] eqn:Hf; [|done]. apply find_signer_some in Hf as (k & -> & Hk).
    rewrite lookup_drop in Hk. unfold checked_add. destruct (Z.leb_spec (w0 + wt) U32_MAX); [|done]. cbn [or_err].
    intros (rows & Hs & Hn & HF & -> & Hle)%IH; [|done]. exists (((next + k)%nat, wt) :: rows). cbn [fmap list_fmap fst snd].
    split_and!; [| | |cbn; lia|lia].
    + constructor; [done|]. eapply Forall_impl; [exact Hn|]. cbn. lia.
    + constructor; [lia|]. eapply Forall_impl; [exact Hn|]. cbn. lia.
    + constructor; [|done]. by exists hash.
  - intros (rows & Hs & Hn & HF & -> & Hle). apply Forall2_cons_inv_l in HF as ([j wt] & rows' & Hrow & HF & ->).
    pose proof (signed_weight _ _ _ Hrow) as Hwt. destruct Hrow as (h' & Hh' & Hj).
    cbn [fst snd fmap list_fmap zsum] in *.
    assert (h' = hash) as -> by congruence. apply Forall_cons in Hn as [Hnj Hn].
    apply StronglySorted_inv in Hs as [Hs Hlt]. pose proof (zsum_nonneg _ (signed_weights _ _ _ HF)).
    assert (Hd : drop next entries !! (j - next)%nat = Some (hash, wt)) by (rewrite lookup_drop; rewrite <- Hj; f_equal; lia).
    rewrite (find_signer_at next _ _ _ _ ltac:(rewrite fmap_drop; by eapply sublist_NoDup, sublist_drop) Hd).
    unfold checked_add. rewrite (proj2 (Z.leb_le _ _)) by lia. cbn [or_err].
    apply IH; [lia|]. exists rows'. split_and!; [done| |done|lia|lia].
    eapply Forall_impl; [exact Hlt|]. cbn. lia.
Qed.

(** The entries at the positions of [rows]. *)
Definition entries_at (rows : list (nat * Z)) : list (Hash160 * Z) := omap (fun row => entries !! row.1) rows.

Lemma entries_at_weights digest ss rows : Forall2 (signed_by digest) ss rows -> (entries_at rows).*2 = rows.*2.
Proof.
  induction 1 as [|s row ss rows (hash & _ & Hl) _ IH]; [done|]. unfold entries_at in *. cbn [omap list_omap].
  rewrite Hl. cbn. by rewrite IH.
Qed.

Lemma entries_at_NoDup rows : StronglySorted lt rows.*1 -> NoDup (entries_at rows).
Proof.
  induction rows as [|[i w] rows IH]; intros Hs; [constructor|]. cbn [fmap list_fmap fst] in Hs.
  apply StronglySorted_inv in Hs as [Hs Hlt]. unfold entries_at in *. cbn [omap list_omap fst].
  destruct (entries !! i) as [p|] eqn:Hp; [|by apply IH]. constructor; [|by apply IH].
  intros ([j w'] & Hin & Hj)%list_elem_of_omap. cbn in Hj. rewrite Forall_forall in Hlt.
  assert (i < j)%nat by (apply Hlt; apply list_elem_of_fmap; by exists (j, w')).
  assert (i = j); [|lia]. eapply (NoDup_lookup entries); [by apply (NoDup_fmap_1 fst)|done..].
Qed.

(** The signers at increasing positions weigh at most what all signers weigh. *)
Lemma rows_within digest ss rows : StronglySorted lt rows.*1 -> Forall2 (signed_by digest) ss rows ->
  zsum rows.*2 <= zsum entries.*2.
Proof.
  intros Hs HF. rewrite <- (entries_at_weights _ _ _ HF).
  assert (Hsub : entries_at rows ⊆+ entries).
  { apply NoDup_submseteq; [by apply entries_at_NoDup|]. intros p ([j w] & _ & Hj)%list_elem_of_omap.
    by eapply list_elem_of_lookup_2. }
  apply submseteq_Permutation in Hsub as [k Hk]. rewrite Hk in Hweights.
  rewrite (zsum_perm _ _ (fmap_Permutation snd _ _ Hk)), fmap_app, zsum_app.
  rewrite fmap_app in Hweights. apply Forall_app in Hweights as [_ Hw].
  assert (0 <= zsum k.*2); [|lia]. apply zsum_nonneg. eapply Forall_impl; [exact Hw|]. unfold is_u32. lia.
Qed.

Lemma total_weight_ok n : total_weight entries = Ok n <-> n = zsum entries.*2 /\ n <= U32_MAX.
Proof.
  unfold total_weight. rewrite checked_sum_ok; [cbn; by rewrite Z.add_0_l| |done].
  eapply Forall_impl; [exact Hweights|]. unfold is_u32. lia.
Qed.

Lemma approval_threshold_ok n : approval_threshold entries = Ok n <->
  n = div_ceil (zsum entries.*2 * 7) 10 /\ zsum entries.*2 <= U32_MAX.
Proof.
  assert (Hnn : 0 <= zsum entries.*2) by (apply zsum_nonneg; eapply Forall_impl; [exact Hweights|]; unfold is_u32; lia).
  unfold approval_threshold. destruct (total_weight entries) as [t|e] eqn:Ht.
  - apply total_weight_ok in Ht as [-> Hle]. rewrite (proj2 (try_from_Some U32_MAX (div_ceil (zsum entries.*2 * 7) 10) (div_ceil (zsum entries.*2 * 7) 10))).
    + cbn. split; [by intros [= <-]|by intros [-> _]].
    + split; [done|]. apply div_ceil_le; lia.
  - split; [done|]. intros [-> Hle]. assert (Hx : total_weight entries = Ok (zsum entries.*2)) by by apply total_weight_ok.
    congruence.
Qed.

Lemma verify_ok h w : verify entries h = Some (Ok w) <->
  exists digest, signer_signature_hash h = Some digest /\ approves digest (hd_signer_signatures h) w /\
    zsum entries.*2 <= U32_MAX /\ 7 * zsum entries.*2 <= 10 * w.
Proof.
  unfold verify. destruct (signer_signature_hash h) as [digest|]; cbn [mbind option_bind]; [|by split; [|intros (? & ? & _)]].
  split.
  - destruct (verify_loop _ _ _ _ _) as [w'|] eqn:Hv; [|done].
    apply verify_loop_ok in Hv as (rows & Hs & _ & HF & -> & Hle); [|done].
    destruct (approval_threshold entries) as [t|] eqn:Ht; [|done]. apply approval_threshold_ok in Ht as [-> Htot].
    destruct (Z.ltb_spec (0 + zsum rows.*2) (div_ceil (zsum entries.*2 * 7) 10)) as [|Hth]; [done|]. intros [= <-].
    exists digest. split; [done|]. split; [exists rows; by rewrite Z.add_0_l|]. split; [done|].
    apply div_ceil_le in Hth; lia.
  - intros (d & [= <-] & (rows & Hs & HF & ->) & Htot & Hth). pose proof (rows_within _ _ _ Hs HF) as Hle.
    rewrite (proj2 (verify_loop_ok digest (hd_signer_signatures h) 0 0 (zsum rows.*2) ltac:(done))).
    + rewrite (proj2 (approval_threshold_ok _) (conj eq_refl Htot)).
      rewrite (proj2 (Z.ltb_ge _ _)); [done|]. apply div_ceil_le; lia.
    + exists rows. split_and!; [done| |done|lia|lia]. apply Forall_forall. lia.
Qed.

(** ** Ordering responses *)

(** The position of the signer a signature is by. *)
Definition slot (digest signature : list byte) : option nat :=
  match signing_hash digest signature with
  | Ok hash => fst <$> find_signer 0 entries hash
  | Err _ => None
  end.

Lemma signed_by_slot digest s row : signed_by digest s row -> slot digest s = Some row.1.
Proof. intros (hash & Hh & Hl). unfold slot. rewrite Hh. by rewrite (find_signer_at 0 _ _ _ _ Hunique Hl). Qed.

Lemma slot_lt digest s i : slot digest s = Some i -> (i < length entries)%nat.
Proof.
  unfold slot. destruct (signing_hash digest s); [|done]. destruct (find_signer _ _ _) as [[j w]|] eqn:Hf; [|done].
  intros [= <-]. apply find_signer_some in Hf as (k & -> & Hk). by eapply lookup_lt_Some.
Qed.

(** The responses are by distinct signers of the set. *)
Definition distinct_signers (digest : list byte) (ss : list (list byte)) : Prop :=
  Forall (fun s => is_Some (slot digest s)) ss /\ NoDup (omap (slot digest) ss).

Lemma order_loop_ok digest ss m m' : order_loop entries digest ss m = Ok m' <->
  distinct_signers digest ss /\ Forall (fun i => m !! i = None) (omap (slot digest) ss) /\
  forall i s, m' !! i = Some s <-> (s ∈ ss /\ slot digest s = Some i) \/ m !! i = Some s.
Proof.
  revert m. induction ss as [|s ss IH]; intros m; cbn [order_loop].
  { split.
    - intros [= <-]. split; [by split; constructor|]. split; [constructor|]. set_solver.
    - intros (_ & _ & Heq). f_equal. apply map_eq. intros i. apply option_eq. intros s. rewrite Heq. set_solver. }
  unfold distinct_signers. cbn [omap list_omap]. rewrite Forall_cons.
  assert (Hs : slot digest s = match signing_hash digest s with Ok hash => fst <$> find_signer 0 entries hash | Err _ => None end) by done.
  destruct (signing_hash digest s) as [hash|].
  2:{ rewrite Hs. by split; [|intros [[[[? ?] _] _] _]]. }
  destruct (find_signer 0 entries hash) as [[j w]|]; cbn in Hs.
  2:{ rewrite Hs. by split; [|intros [[[[? ?] _] _] _]]. }
  rewrite Hs.
  rewrite NoDup_cons, Forall_cons. destruct (m !! j) as [old|] eqn:Hj; [by split; [|intros (_ & [? _] & _)]|].
  rewrite IH. split.
  - intros ([HF Hnd] & Hfree & Hm'). split; [|split].
    + split; [by split|]. split; [|done]. intros Hin. rewrite Forall_forall in Hfree. specialize (Hfree j Hin).
      by rewrite lookup_insert_eq in Hfree.
    + split; [done|]. eapply Forall_impl; [exact Hfree|]. intros i Hi. by apply lookup_insert_None in Hi as [? _].
    + intros i x. rewrite Hm', lookup_insert_Some, elem_of_cons. destruct (decide (i = j)) as [->|Hne]; naive_solver.
  - intros ([[_ HF] [Hni Hnd]] & [_ Hfree] & Hm'). split; [done|]. split.
    + apply Forall_forall. intros i Hi. rewrite Forall_forall in Hfree. apply lookup_insert_None. split; [by apply Hfree|].
      intros ->. done.
    + intros i x. rewrite Hm', lookup_insert_Some, elem_of_cons. destruct (decide (i = j)) as [->|Hne]; [|naive_solver].
      split; [|naive_solver]. intros [[[->|Hin] Hx]|Hx]; [naive_solver| |congruence]. exfalso. apply Hni.
      apply list_elem_of_omap. by exists x.
Qed.

Lemma order_loop_total digest ss m : distinct_signers digest ss ->
  Forall (fun i => m !! i = None) (omap (slot digest) ss) -> is_Some (match order_loop entries digest ss m with Ok m' => Some m' | Err _ => None end).
Proof.
  revert m. induction ss as [|s ss IH]; intros m [HF Hnd] Hfree; cbn [order_loop]; [done|].
  apply Forall_cons in HF as [[j Hj] HF]. cbn [omap list_omap] in Hnd, Hfree. rewrite Hj in Hnd, Hfree.
  apply NoDup_cons in Hnd as [Hni Hnd]. apply Forall_cons in Hfree as [Hmj Hfree]. unfold slot in Hj.
  destruct (signing_hash digest s) as [hash|]; [|done]. destruct (find_signer 0 entries hash) as [[j' w]|]; [|done].
  cbn in Hj. injection Hj as ->. rewrite Hmj. apply IH; [by split|].
  apply Forall_forall. intros i Hi. rewrite Forall_forall in Hfree. apply lookup_insert_None. split; [by apply Hfree|]. by intros ->.
Qed.

Lemma seq_sorted a n : StronglySorted lt (seq a n).
Proof.
  revert a. induction n as [|n IH]; intros a; cbn; constructor; [done|].
  apply Forall_forall. intros x Hx%elem_of_seq. lia.
Qed.

Lemma lt_sorted_NoDup l : StronglySorted lt l -> NoDup l.
Proof.
  induction 1 as [|i l _ IH Hlt]; constructor; [|done]. rewrite Forall_forall in Hlt. intros Hi%Hlt. lia.
Qed.

Lemma omap_NoDup {A B} (f : A -> option B) l : Forall (fun x => is_Some (f x)) l -> NoDup (omap f l) -> NoDup l.
Proof.
  induction 1 as [|x l [y Hy] _ IH]; cbn [omap list_omap]; [constructor|]. rewrite Hy.
  intros [Hni Hnd]%NoDup_cons. constructor; [|by apply IH]. intros Hx. apply Hni, list_elem_of_omap. by exists x.
Qed.

(** The positions of the values listed by index. *)
Lemma slots_listed digest (m : gmap nat (list byte)) l : (forall i s, m !! i = Some s -> slot digest s = Some i) ->
  omap (slot digest) (omap (fun i => m !! i) l) = List.filter (fun i => bool_decide (is_Some (m !! i))) l.
Proof.
  intros Hm. induction l as [|i l IH]; [done|]. cbn [omap list_omap List.filter]. destruct (m !! i) as [s|] eqn:Hi.
  - rewrite bool_decide_eq_true_2 by eauto. cbn [omap list_omap]. rewrite (Hm _ _ Hi). by rewrite IH.
  - by rewrite bool_decide_eq_false_2 by (intros [? ?]; done).
Qed.

Lemma filter_sorted (p : nat -> bool) l : StronglySorted lt l -> StronglySorted lt (List.filter p l).
Proof.
  induction 1 as [|i l Hs IH Hlt]; cbn; [constructor|]. destruct (p i); [|done]. constructor; [done|].
  rewrite Forall_forall in *. intros j Hj. apply Hlt. apply list_elem_of_In in Hj. apply List.filter_In in Hj as [Hj _].
  by apply list_elem_of_In.
Qed.

(** Listing the map by index gives the responses, sorted by position. *)
Lemma in_order_ok digest ss m : order_loop entries digest ss ∅ = Ok m ->
  in_order entries m ≡ₚ ss /\ StronglySorted lt (omap (slot digest) (in_order entries m)) /\
  Forall (fun s => is_Some (slot digest s)) (in_order entries m).
Proof.
  intros ([HF Hnd] & _ & Hm)%order_loop_ok.
  assert (Hlk : forall i s, m !! i = Some s <-> s ∈ ss /\ slot digest s = Some i) by (intros i s; rewrite Hm, lookup_empty; naive_solver).
  assert (Hs : StronglySorted lt (omap (slot digest) (in_order entries m))).
  { unfold in_order. rewrite slots_listed by naive_solver. apply filter_sorted, seq_sorted. }
  assert (Hall : Forall (fun s => is_Some (slot digest s)) (in_order entries m)).
  { apply Forall_forall. intros s (i & _ & [_ ->]%Hlk)%list_elem_of_omap. eauto. }
  split; [|done]. apply NoDup_Permutation; [by apply (omap_NoDup (slot digest)), lt_sorted_NoDup|by apply (omap_NoDup (slot digest))|].
  intros s. unfold in_order. rewrite list_elem_of_omap. setoid_rewrite Hlk. setoid_rewrite elem_of_seq. split; [naive_solver|].
  intros Hin. rewrite Forall_forall in HF. destruct (HF s Hin) as [i Hi]. exists i. split; [|done]. apply slot_lt in Hi. lia.
Qed.

(** Signatures sorted by position are determined by the set of them. *)
Lemma sorted_by_slot digest l1 l2 : l1 ≡ₚ l2 ->
  Forall (fun s => is_Some (slot digest s)) l1 ->
  StronglySorted lt (omap (slot digest) l1) -> StronglySorted lt (omap (slot digest) l2) -> l1 = l2.
Proof.
  revert l2. induction l1 as [|s1 l1 IH]; intros l2 Hp HF H1 H2; [by apply Permutation_nil_l in Hp|].
  destruct l2 as [|s2 l2]; [by apply Permutation_nil_r in Hp|].
  assert (HF2 : Forall (fun s => is_Some (slot digest s)) (s2 :: l2)) by by rewrite <- Hp.
  apply Forall_cons in HF as [[i1 Hi1] HF], HF2 as [[i2 Hi2] HF2].
  cbn [omap list_omap] in H1, H2. rewrite Hi1 in H1. rewrite Hi2 in H2.
  apply StronglySorted_inv in H1 as [H1 Hlt1], H2 as [H2 Hlt2]. rewrite Forall_forall in Hlt1, Hlt2.
  assert (s1 = s2) as <-.
  { assert (Hin1 : s1 ∈ s2 :: l2) by (rewrite <- Hp; set_solver). assert (Hin2 : s2 ∈ s1 :: l1) by (rewrite Hp; set_solver).
    apply elem_of_cons in Hin1 as [|Hin1], Hin2 as [|Hin2]; [done..|].
    assert (i1 < i2)%nat by (apply Hlt1, list_elem_of_omap; by exists s2).
    assert (i2 < i1)%nat by (apply Hlt2, list_elem_of_omap; by exists s1). lia. }
  f_equal. apply Permutation_cons_inv in Hp. by apply IH.
Qed.

Lemma signed_slots digest ss rows : Forall2 (signed_by digest) ss rows ->
  omap (slot digest) ss = rows.*1 /\ Forall (fun s => is_Some (slot digest s)) ss.
Proof.
  induction 1 as [|s row ss rows Hs _ [IH1 IH2]]; [by split|]. cbn [omap list_omap]. apply signed_by_slot in Hs. rewrite Hs.
  split; [cbn; by rewrite IH1|]. constructor; [by rewrite Hs|done].
Qed.

(** SignerWeights::order_responses succeeds exactly when some order of the
    responses verifies, and returns that order, which is unique. *)
Theorem order_responses_spec (h : NakamotoBlockHeader) (responses signatures : list (list byte)) :
  order_responses entries h responses = Some (Ok signatures) <->
  signatures ≡ₚ responses /\ exists w, verify entries (set_signer_signatures signatures h) = Some (Ok w).
Proof.
  unfold order_responses. split.
  - destruct (signer_signature_hash h) as [digest|]; cbn [mbind option_bind]; [|done].
    destruct (order_loop _ _ _ _) as [m|] eqn:Hm; [|done]. destruct (in_order_ok _ _ _ Hm) as (Hp & _).
    destruct (verify _ _) as [[w|]|] eqn:Hv; cbn [mbind option_bind]; [|done..]. intros [= <-]. eauto.
  - intros (Hp & w & Hv). apply verify_ok in Hv as Hv'. destruct Hv' as (digest & Hd & (rows & Hs & HF & _) & _).
    change (signer_signature_hash h = Some digest) in Hd. rewrite Hd. cbn [mbind option_bind]. cbn [hd_signer_signatures set_signer_signatures] in HF.
    destruct (signed_slots _ _ _ HF) as [Hslots Hall]. rewrite <- Hslots in Hs.
    assert (Hdist : distinct_signers digest responses).
    { split; [by rewrite <- Hp|]. rewrite <- (omap_Permutation _ _ _ Hp). by apply lt_sorted_NoDup. }
    destruct (order_loop_total digest responses ∅ Hdist) as [m Hm]; [by apply Forall_forall|].
    destruct (order_loop entries digest responses ∅) as [m'|e] eqn:Ho; [|done]. injection Hm as ->.
    destruct (in_order_ok _ _ _ Ho) as (Hp' & Hs' & _). assert (in_order entries m = signatures) as ->.
    { symmetry. apply (sorted_by_slot digest); [by rewrite Hp, Hp'|done..]. }
    by rewrite Hv.
Qed.

End Approval.

(** ** The set a reward cycle records *)

Lemma size_list_to_set_le (l : list (list byte)) : (size (list_to_set l : gset (list byte)) <= length l)%nat.
Proof. induction l as [|x l IH]; cbn; [by rewrite size_empty|]. rewrite size_union_alt, size_singleton. pose proof (subseteq_size ((list_to_set l : gset (list byte)) ∖ {[x]}) (list_to_set l)) as H. specialize (H ltac:(set_solver)). lia. Qed.

Lemma size_list_to_set_NoDup (l : list (list byte)) :
  size (list_to_set l : gset (list byte)) = length l <-> NoDup l.
Proof.
  split; [|apply size_list_to_set].
  induction l as [|x l IH]; cbn; intros Hl; [constructor|]. destruct (decide (x ∈ l)) as [Hin|Hni].
  - pose proof (size_list_to_set_le l). replace ({[x]} ∪ list_to_set l) with (list_to_set l : gset (list byte)) in Hl by set_solver. lia.
  - constructor; [done|]. apply IH. rewrite size_union, size_singleton in Hl by set_solver. lia.
Qed.

Lemma weights_new_ok (entries e : list (Hash160 * Z)) : SignerWeights.new entries = Ok e <->
  e = entries /\ entries <> [] /\ NoDup entries.*1.
Proof.
  unfold SignerWeights.new. rewrite <- size_list_to_set_NoDup, length_fmap. destruct entries as [|x entries]; [by split; [|intros (_ & ? & _)]|].
  destruct (Nat.eqb_spec (size (list_to_set (x :: entries).*1 : gset (list byte))) (length (x :: entries))); cbn [negb].
  - split; [by intros [= <-]|by intros [-> _]].
  - split; [done|]. by intros (_ & _ & ?).
Qed.

Section Sets.
Context `{HS : Hashes} `{SECP : Secp256k1}.

(** What state records of a signer set. *)
Definition recorded (signers : list Signer) : list (Hash160 * Z) :=
  map (fun s => (hash160 (signer_key s), sg_weight s)) signers.

(** C16: SignerSet::verify accepts a header with weight w exactly when the set is not
    empty, its key hashes are distinct, the header's signatures recover to signers in
    strictly increasing reward-set order whose weights sum to w, and w is at least
    seven tenths of the total weight, which fits u32. *)
Theorem signer_set_verify_spec (signers : list Signer) (h : NakamotoBlockHeader) (w : Z)
  (Hweights : Forall (fun w => is_u32 w) (map sg_weight signers)) :
  set_verify signers h = Some (Ok w) <->
  signers <> [] /\ NoDup (recorded signers).*1 /\
  exists digest, signer_signature_hash h = Some digest /\
    approves (recorded signers) digest (hd_signer_signatures h) w /\
    zsum (map sg_weight signers) <= U32_MAX /\ 7 * zsum (map sg_weight signers) <= 10 * w.
Proof.
  assert (Hw : (recorded signers).*2 = map sg_weight signers) by (unfold recorded; clear; induction signers as [|s l IH]; [done|cbn; by rewrite <- IH]).
  unfold set_verify, signing_weights. fold (recorded signers). rewrite <- Hw in *.
  assert (Hne : recorded signers <> [] <-> signers <> []) by by destruct signers.
  destruct (SignerWeights.new (recorded signers)) as [e|] eqn:Hnew.
  - apply weights_new_ok in Hnew as (-> & ? & Hnd). rewrite verify_ok by done. naive_solver.
  - split; [done|]. intros (? & Hnd & _). assert (Hok : SignerWeights.new (recorded signers) = Ok (recorded signers)) by (apply weights_new_ok; naive_solver).
    congruence.
Qed.

End Sets.

(** ** Reward slots *)

Section Slots.
Context `{SECP : Secp256k1}.

Abbreviation key_of p := (StacksPublicKey.to_bytes_compressed p.1).

(** What one key has stacked, over all its entries. *)
Definition stake (signers : list (secp_pk * Z)) (key : list byte) : Z :=
  zsum (map snd (List.filter (fun p => bool_decide (key_of p = key)) signers)).

Lemma stake_app l1 l2 k : stake (l1 ++ l2) k = stake l1 k + stake l2 k.
Proof. unfold stake. by rewrite List.filter_app, map_app, zsum_app. Qed.

Lemma stake_one p k : stake [p] k = if decide (key_of p = k) then p.2 else 0.
Proof. unfold stake. cbn. case_bool_decide; cbn; destruct (decide _); done || lia. Qed.

(** The sum of the amounts of a map. *)
Definition mtotal (m : gmap (list byte) (secp_pk * Z)) : Z := zsum (map (fun e => e.2.2) (map_to_list m)).

Lemma mtotal_insert m k pk a : mtotal (<[k := (pk, a)]> m) = a + mtotal m - default 0 (snd <$> m !! k).
Proof.
  unfold mtotal. destruct (m !! k) as [[pk' a']|] eqn:Hk; cbn [fmap option_fmap option_map snd default].
  - rewrite <- (insert_id m k (pk', a')) at 2 by done. rewrite <- !(insert_delete_eq m k).
    rewrite !(zsum_perm _ _ (Permutation_map _ (map_to_list_insert _ _ _ (lookup_delete_eq m k)))). cbn. lia.
  - rewrite (zsum_perm _ _ (Permutation_map _ (map_to_list_insert m k (pk, a) Hk))). cbn. lia.
Qed.

(** The map holds what has been stacked by each key of [seen]. *)
Definition stacked_ok (seen : list (secp_pk * Z)) (m : gmap (list byte) (secp_pk * Z)) : Prop :=
  mtotal m = zsum (map snd seen) /\
  forall k, match m !! k with
            | Some e => key_of e = k /\ e.2 = stake seen k /\ 0 < e.2
            | None => stake seen k = 0
            end.

Lemma stack_amounts_ok rest m m' seen : Forall (fun p => 0 <= p.2) rest -> stacked_ok seen m ->
  stack_amounts rest m = Ok m' -> stacked_ok (seen ++ rest) m'.
Proof.
  intros HF. revert seen m. induction HF as [|[pk a] rest Ha _ IH]; intros seen m [Htot Hm]; cbn [stack_amounts].
  { intros [= <-]. by rewrite app_nil_r. }
  replace (seen ++ (pk, a) :: rest) with ((seen ++ [(pk, a)]) ++ rest) by by rewrite <- app_assoc. cbn [snd] in Ha.
  set (key := StacksPublicKey.to_bytes_compressed pk).
  destruct (Z.eqb_spec a 0) as [->|Hne].
  { apply IH. split; [rewrite map_app, zsum_app; cbn; lia|]. intros k. specialize (Hm k). rewrite stake_app, stake_one.
    cbn [fst snd]. destruct (m !! k); destruct (decide _); rewrite ?Z.add_0_r; done. }
  destruct (default (pk, 0) (m !! key)) as [held_pk held] eqn:Hdef. unfold checked_add.
  destruct (Z.leb_spec (held + a) U128_MAX); [|done]. cbn [or_err]. apply IH.
  assert (Hheld : key_of (held_pk, held) = key /\ held = stake seen key /\ 0 <= held /\ held = default 0 (snd <$> m !! key)).
  { specialize (Hm key). destruct (m !! key) as [[pk' a']|]; cbn in Hdef; injection Hdef as <- <-; cbn in *; [|done].
    destruct Hm as (? & ? & ?). split_and!; [done..|lia|done]. }
  destruct Hheld as (Hkey & Hst & Hnn & Hdf). split.
  - rewrite mtotal_insert, <- Hdf, map_app, zsum_app. cbn. lia.
  - intros k. rewrite stake_app, stake_one. cbn [fst snd]. fold key. destruct (decide (key = k)) as [<-|Hk].
    + rewrite lookup_insert_eq. cbn [fst snd]. split_and!; [done|lia|lia].
    + rewrite lookup_insert_ne by done. specialize (Hm k). by rewrite Z.add_0_r.
Qed.

Lemma add_slots_ok rows n rows' : 0 <= n -> add_slots rows n = Ok rows' ->
  rows' = map (fun r => mkRow (row_key r) (row_public_key r) (row_weight r + 1) (row_remainder r)) (take (Z.to_nat n) rows)
          ++ drop (Z.to_nat n) rows.
Proof.
  revert n rows'. induction rows as [|row rows IH]; intros n rows' Hn; cbn [add_slots].
  { intros [= <-]. by rewrite take_nil, drop_nil. }
  destruct (Z.eqb_spec n 0) as [->|Hne]; [by intros [= <-]|]. unfold checked_add.
  destruct (Z.leb_spec (row_weight row + 1) U128_MAX); [|done]. cbn [or_err].
  destruct (add_slots rows (n - 1)) as [rest|] eqn:Hr; [|done]. intros [= <-]. apply IH in Hr as ->; [|lia].
  replace (Z.to_nat n) with (S (Z.to_nat (n - 1))) by lia. done.
Qed.

Lemma row_signer_ok row s : row_signer row = Ok s -> s = mkSigner (row_public_key row) (row_weight row).
Proof. unfold row_signer, try_from. destruct (_ <=? _); [|done]. by intros [= <-]. Qed.

(** The kept rows are the signers, in order. *)
Lemma signers_of_rows rows ss : collect row_signer (List.filter (fun r => negb (row_weight r =? 0)) rows) = Ok ss ->
  ss = map (fun r => mkSigner (row_public_key r) (row_weight r)) (List.filter (fun r => negb (row_weight r =? 0)) rows) /\
  zsum (map sg_weight ss) = zsum (map row_weight rows).
Proof.
  intros HF%collect_ok. assert (Hss : ss = map (fun r => mkSigner (row_public_key r) (row_weight r)) (List.filter (fun r => negb (row_weight r =? 0)) rows)).
  { induction HF as [|r s rs ss' Hr _ IH]; [done|]. apply row_signer_ok in Hr as ->. cbn. by f_equal. }
  split; [done|]. rewrite Hss. clear. induction rows as [|r rows IH]; [done|]. cbn [List.filter].
  destruct (Z.eqb_spec (row_weight r) 0); cbn in *; lia.
Qed.

#[export] Instance remainder_le_total : Total remainder_le.
Proof.
  intros a b. unfold remainder_le. destruct (total bytes_le (row_key a) (row_key b)), (Z.lt_trichotomy (row_remainder a) (row_remainder b)) as [|[|]]; auto.
Qed.
#[export] Instance remainder_le_trans : Transitive remainder_le.
Proof.
  intros a b c. unfold remainder_le. intros [H1|[H1 K1]] [H2|[H2 K2]]; [left; lia..|]. right. split; [lia|]. by etrans.
Qed.
#[export] Instance row_key_le_total : Total row_key_le.
Proof. intros a b. apply (total bytes_le). Qed.
#[export] Instance row_key_le_trans : Transitive row_key_le.
Proof. intros a b c. unfold row_key_le. by etrans. Qed.

(** A row with one more slot. *)
Definition bump_row (r : Row) : Row := mkRow (row_key r) (row_public_key r) (row_weight r + 1) (row_remainder r).

(** The whole slots never exceed the slots there are. *)
Lemma assigned_le t (l : list (list byte * (secp_pk * Z))) slots : 0 < t -> Forall (fun e => 0 <= e.2.2) l ->
  zsum (map (fun e => e.2.2) l) <= t * slots -> zsum (map row_weight (map (apportion t) l)) <= slots.
Proof.
  intros Ht HF Hle. assert (t * zsum (map row_weight (map (apportion t) l)) <= zsum (map (fun e => e.2.2) l)); [|nia].
  clear Hle. induction HF as [|e l He _ IH]; cbn in *; [lia|]. pose proof (Z.mul_div_le e.2.2 t Ht). lia.
Qed.

(** The steps of [from_reward_slots], as facts about its rows. *)
Lemma reward_slots_rows signers slots ss t : is_u32 slots -> Forall (fun p => 0 <= p.2) signers ->
  from_reward_slots signers slots = Ok (ss, t) ->
  t = Z.max (div_ceil (zsum (map snd signers)) slots) 1 /\
  exists m R R' n, stacked_ok signers m /\ R ≡ₚ map (apportion t) (map_to_list m) /\ StronglySorted remainder_le R /\
    n = slots - zsum (map row_weight R) /\ 0 <= n /\
    R' ≡ₚ map bump_row (take (Z.to_nat n) R) ++ drop (Z.to_nat n) R /\ StronglySorted row_key_le R' /\
    ss = map (fun r => mkSigner (row_public_key r) (row_weight r)) (List.filter (fun r => negb (row_weight r =? 0)) R') /\
    zsum (map sg_weight ss) = zsum (map row_weight R') /\ NoDup (map signer_key ss).
Proof.
  intros Hslots HF. unfold from_reward_slots. destruct (Z.eqb_spec slots 0) as [|Hs0]; [done|].
  destruct (stack_amounts signers ∅) as [m|] eqn:Hm; [|done].
  apply (stack_amounts_ok _ _ _ []) in Hm; [|done|split; [done|intros k; by rewrite lookup_empty]]. cbn [app] in Hm.
  set (l := in_key_order m). assert (Hl : l ≡ₚ map_to_list m) by apply merge_sort_Permutation.
  assert (Hpos : Forall (fun e => 0 <= e.2.2) l).
  { rewrite Hl. apply Forall_forall. intros [k e] He%elem_of_map_to_list. destruct Hm as [_ Hm]. specialize (Hm k). rewrite He in Hm. destruct Hm as (_ & _ & ?). cbn. lia. }
  destruct (checked_sum _ _ _ _) as [total|] eqn:Htot; [|done].
  apply checked_sum_ok in Htot as [-> _]; [|by apply Forall_map|done].
  assert (Htotal : zsum (map (fun e => e.2.2) l) = zsum (map snd signers)).
  { rewrite (zsum_perm _ _ (Permutation_map _ Hl)). apply Hm. }
  rewrite Z.add_0_l, Htotal. set (t' := Z.max (div_ceil (zsum (map snd signers)) slots) 1).
  assert (Hcap : zsum (map (fun e => e.2.2) l) <= t' * slots).
  { rewrite Htotal. apply div_ceil_le; unfold is_u32 in *; lia. }
  pose proof (assigned_le t' l slots ltac:(lia) Hpos Hcap) as Hassigned.
  destruct (checked_sum _ _ _ (map row_weight _)) as [assigned|] eqn:Has; [|done].
  apply checked_sum_ok in Has as [-> _]; [| |done].
  2:{ rewrite map_map. apply Forall_map. eapply Forall_impl; [exact Hpos|]. intros e He. cbn in He |- *. apply Z.div_pos; lia. }
  rewrite Z.add_0_l. set (R := merge_sort remainder_le (map (apportion t') l)).
  assert (HR : R ≡ₚ map (apportion t') l) by apply merge_sort_Permutation.
  rewrite <- (zsum_perm _ _ (Permutation_map row_weight HR)) in *.
  destruct (add_slots R _) as [R1|] eqn:Hadd; [|done]. apply add_slots_ok in Hadd; [|unfold saturating_sub; lia].
  replace (saturating_sub slots (zsum (map row_weight R))) with (slots - zsum (map row_weight R)) in Hadd by (unfold saturating_sub; lia).
  set (R' := merge_sort row_key_le R1). assert (HR' : R' ≡ₚ R1) by apply merge_sort_Permutation.
  destruct (collect row_signer _) as [ss'|] eqn:Hc; [|done]. apply signers_of_rows in Hc as [Hss Hsum].
  unfold signer_set_new. destruct ss' as [|s0 ss0]; [done|].
  destruct (Nat.eqb_spec (size (list_to_set (map signer_key (s0 :: ss0)) : gset (list byte))) (length (s0 :: ss0))) as [Hsz|]; [|done].
  cbn [negb]. intros [= <- <-]. split; [done|]. exists m, R, R', (slots - zsum (map row_weight R)).
  split_and!; [done|by rewrite HR, Hl|apply StronglySorted_merge_sort; apply _|done|lia| |apply StronglySorted_merge_sort; apply _|done|done|].
  - by rewrite HR', Hadd.
  - apply size_list_to_set_NoDup. by rewrite length_map.
Qed.

Section Shares.
Context (signers : list (secp_pk * Z)) (t : Z) (m : gmap (list byte) (secp_pk * Z)) (R : list Row).
Hypothesis Ht : 0 < t.
Hypothesis Hm : stacked_ok signers m.
Hypothesis HR : R ≡ₚ map (apportion t) (map_to_list m).

(** A row is the share of one key. *)
Lemma row_share r : r ∈ R -> StacksPublicKey.to_bytes_compressed (row_public_key r) = row_key r /\
  row_weight r = stake signers (row_key r) / t /\ row_remainder r = stake signers (row_key r) mod t /\ 0 <= row_weight r.
Proof.
  rewrite HR. intros ([k [pk a]] & -> & He%elem_of_map_to_list)%list_elem_of_fmap. destruct Hm as [_ Hk]. specialize (Hk k).
  rewrite He in Hk. cbn in *. destruct Hk as (? & <- & ?). split_and!; [done..|]. apply Z.div_pos; lia.
Qed.

(** Every key with a stake has a row. *)
Lemma row_of p : Forall (fun p => 0 <= p.2) signers -> p ∈ signers -> 0 < stake signers (key_of p) ->
  exists r, r ∈ R /\ row_key r = key_of p.
Proof.
  intros HF Hp Hpos. destruct Hm as [_ Hk]. specialize (Hk (key_of p)). destruct (m !! key_of p) as [e|] eqn:He; [|lia].
  exists (apportion t (key_of p, e)). split; [|done]. rewrite HR. apply list_elem_of_fmap. exists (key_of p, e).
  split; [done|]. by apply elem_of_map_to_list.
Qed.

End Shares.

(** Giving [n] rows one more slot adds at most [n] to the weights. *)
Lemma bumped_sum n R : 0 <= n -> zsum (map row_weight (map bump_row (take (Z.to_nat n) R) ++ drop (Z.to_nat n) R)) =
  zsum (map row_weight R) + Z.min n (len R).
Proof.
  intros Hn. rewrite map_app, zsum_app. rewrite <- (take_drop (Z.to_nat n) R) at 3. rewrite map_app, zsum_app.
  assert (Hb : forall l, zsum (map row_weight (map bump_row l)) = zsum (map row_weight l) + len l).
  { induction l as [|r l IH]; cbn in *; lia. }
  rewrite Hb, length_take. lia.
Qed.

Lemma filtered_keys_sorted R : StronglySorted row_key_le R ->
  (forall r, r ∈ R -> StacksPublicKey.to_bytes_compressed (row_public_key r) = row_key r) ->
  StronglySorted bytes_le (map signer_key (map (fun r => mkSigner (row_public_key r) (row_weight r))
    (List.filter (fun r => negb (row_weight r =? 0)) R))).
Proof.
  intros Hs Hk. induction Hs as [|r R Hs IH Hle]; [constructor|]. cbn [List.filter].
  specialize (IH ltac:(intros x Hx; apply Hk; set_solver)). destruct (negb _); [|done]. cbn. constructor; [done|].
  apply Forall_map, Forall_map. apply Forall_forall. intros x Hx%list_elem_of_In%List.filter_In. destruct Hx as [Hx%list_elem_of_In _].
  rewrite Forall_forall in Hle. specialize (Hle x Hx). unfold row_key_le in Hle.
  unfold signer_key. cbn. rewrite !Hk by set_solver. done.
Qed.

(** What a signer of the result comes from. *)
Lemma signer_row n R R' ss s : R' ≡ₚ map bump_row (take n R) ++ drop n R ->
  ss = map (fun r => mkSigner (row_public_key r) (row_weight r)) (List.filter (fun r => negb (row_weight r =? 0)) R') ->
  s ∈ ss <-> exists r, sg_public_key s = row_public_key r /\ sg_weight s <> 0 /\
    ((r ∈ take n R /\ sg_weight s = row_weight r + 1) \/ (r ∈ drop n R /\ sg_weight s = row_weight r)).
Proof.
  intros HR' ->. rewrite list_elem_of_fmap. setoid_rewrite list_elem_of_In. setoid_rewrite List.filter_In.
  setoid_rewrite <- list_elem_of_In. setoid_rewrite HR'. setoid_rewrite elem_of_app. setoid_rewrite list_elem_of_fmap.
  split.
  - intros (r & -> & [[(r0 & -> & Hr)|Hr] Hw]); [exists r0|exists r]; cbn in *; (split; [done|]); (split; [lia|auto]).
  - destruct s as [pk w]. cbn. intros (r & -> & Hw & [[Hr ->]|[Hr ->]]).
    + exists (bump_row r). split; [done|]. split; [left; eauto|]. cbn. lia.
    + exists r. split; [done|]. split; [auto|]. lia.
Qed.

(** SignerSet::from_reward_slots apportions by largest remainder: its threshold
    is the stacked total over the slots rounded up, each signer's weight is its share
    rounded down or one more, no signer is passed over for one with a smaller
    remainder, keys are sorted and distinct, and the weights never sum to more than
    the slots. *)
Theorem reward_slots_spec (signers : list (secp_pk * Z)) (slots t : Z) (ss : list Signer)
  (Hslots : is_u32 slots) (Hamounts : Forall (fun p => 0 <= p.2) signers)
  (H : from_reward_slots signers slots = Ok (ss, t)) :
  let share s := stake signers (signer_key s) / t in
  let remainder s := stake signers (signer_key s) mod t in
  t = Z.max (div_ceil (zsum (map snd signers)) slots) 1 /\
  StronglySorted bytes_le (map signer_key ss) /\ NoDup (map signer_key ss) /\
  (forall s, s ∈ ss -> 0 < sg_weight s /\ (sg_weight s = share s \/ sg_weight s = share s + 1)) /\
  (forall p, p ∈ signers -> t <= stake signers (key_of p) -> exists s, s ∈ ss /\ signer_key s = key_of p) /\
  (forall a b, a ∈ ss -> b ∈ ss -> sg_weight a = share a + 1 -> sg_weight b = share b -> remainder b <= remainder a) /\
  zsum (map sg_weight ss) <= slots /\
  (zsum (map sg_weight ss) < slots -> forall s, s ∈ ss -> sg_weight s = share s + 1).
Proof.
  intros share remainder. destruct (reward_slots_rows signers slots ss t Hslots Hamounts H)
    as (Ht & m & R & R' & n & Hm & HR & Hsorted & Hn & Hn0 & HR' & Hkeys & Hss & Hsum & Hnd).
  assert (Hpos : 0 < t) by lia. pose proof (row_share signers t m R Hpos Hm HR) as Hrow.
  pose proof (fun s => signer_row _ R R' ss s HR' Hss) as Hsigner.
  assert (Hin : forall r, r ∈ take (Z.to_nat n) R \/ r ∈ drop (Z.to_nat n) R -> r ∈ R).
  { intros r. rewrite <- elem_of_app, take_drop. done. }
  assert (Hs : forall s, s ∈ ss -> exists r, r ∈ R /\ row_weight r = share s /\ row_remainder r = remainder s /\ 0 < sg_weight s /\
    ((r ∈ take (Z.to_nat n) R /\ sg_weight s = share s + 1) \/ (r ∈ drop (Z.to_nat n) R /\ sg_weight s = share s))).
  { intros s Hs%Hsigner. destruct Hs as (r & Hpk & Hw & Hcase). assert (HrR : r ∈ R) by (apply Hin; tauto).
    destruct (Hrow r HrR) as (Hk & Hrw & Hrr & Hnn). unfold share, remainder, signer_key. rewrite Hpk, Hk, <- Hrw, <- Hrr.
    exists r. split_and!; try done. lia. }
  split_and!; [done| |done|..].
  - rewrite Hss. apply filtered_keys_sorted; [done|]. intros r. rewrite HR', elem_of_app, list_elem_of_fmap.
    intros [(r0 & -> & Hr0)|Hr]; cbn; apply Hrow, Hin; auto.
  - intros s Hx%Hs. destruct Hx as (r & _ & _ & _ & ? & [[_ ?]|[_ ?]]); auto.
  - intros p Hp Hst. destruct (row_of signers t m R Hm HR p Hamounts Hp ltac:(lia)) as (r & Hr & Hk).
    destruct (Hrow r Hr) as (Hpk & Hw & _ & Hnn). assert (1 <= row_weight r) by (rewrite Hw, Hk; apply Z.div_le_lower_bound; lia).
    rewrite <- (take_drop (Z.to_nat n) R) in Hr. apply elem_of_app in Hr.
    destruct Hr as [Hr|Hr]; [exists (mkSigner (row_public_key r) (row_weight r + 1))|exists (mkSigner (row_public_key r) (row_weight r))];
      (split; [apply Hsigner; exists r; cbn; split; [done|]; split; [lia|auto]|by unfold signer_key; cbn; rewrite Hpk]).
  - intros a b (ra & _ & _ & <- & _ & Ha)%Hs (rb & _ & _ & <- & _ & Hb)%Hs Hwa Hwb.
    destruct Ha as [[Ha _]|[_ ?]]; [|lia]. destruct Hb as [[_ ?]|[Hb _]]; [lia|].
    rewrite <- (take_drop (Z.to_nat n) R) in Hsorted. pose proof (StronglySorted_app_1_elem_of _ _ _ _ _ Hsorted Ha Hb) as Hle.
    unfold remainder_le in Hle. lia.
  - rewrite Hsum, (zsum_perm _ _ (Permutation_map row_weight HR')), bumped_sum by lia. lia.
  - rewrite Hsum, (zsum_perm _ _ (Permutation_map row_weight HR')), bumped_sum by lia. intros Hlt s (r & _ & _ & _ & _ & Hc)%Hs.
    destruct Hc as [[_ ?]|[Hd _]]; [done|]. rewrite drop_ge in Hd by lia. by apply elem_of_nil in Hd.
Qed.

End Slots.
