(* ===== verification/NakamotoTheorems.v ===== *)
(** * Theorems about Nakamoto blocks

    The header is a [Wire] type; the transactions of a block are read by
    [Transaction::decode] and so up to their version bytes. *)

From stdpp Require Import gmap.
From S2P Require Import Prelude Primitives CodecIO Crypto TxData TxCodec TxWire.
From S2P Require Import TxTheorems TxAuth TxAuthTheorems Nakamoto Signers SignerTheorems.

(** ** The header *)

Lemma pox_size_le : 4000 <= U16_MAX.
Proof. done. Qed.

Lemma pox_size_ok : 0 <= 4000 <= U16_MAX.
Proof. done. Qed.

Lemma emits_bit_vec v b : BitVec.wire_bytes v = Some b -> emits (write_bit_vec v) b.
Proof. intros Hb w. unfold write_bit_vec. by rewrite Hb. Qed.

Lemma lift_fits {Er A} n (e : Er) (k : Z -> ReaderE Er A) : n <= U32_MAX ->
  (lift (or_err (try_from U32_MAX n) e) ≫= k) = k n.
Proof. intros Hn. by rewrite (proj2 (try_from_Some U32_MAX n n)). Qed.

Lemma data_length_bound n : is_u16 n -> 0 <= (n + 7) / 8 <= 8192.
Proof. unfold is_u16, U16_MAX. intros Hn. split; [apply Z.div_pos; lia|]. apply Z.lt_succ_r, Z.div_lt_upper_bound; lia. Qed.

#[export] Instance bit_vec_wire : Wire read_bit_vec write_bit_vec (BitVec.wf 4000).
Proof.
  split.
  - intros r v r' Hok H. unfold read_bit_vec in H. apply bind_ok in H as (n & r1 & Hn & H). wire_steps.
    apply bind_ok in H as (declared & r2 & Hd & H). wire_steps. pose proof (data_length_bound n Hv) as Hdl.
    rewrite lift_fits in H by word_lia. destruct (Z.eqb_spec declared ((n + 7) / 8)) as [->|]; [|done]. cbn [negb] in H.
    apply bind_ok in H as (x & r3 & Hm & H). apply take_ok in Hm as (R1 & Hlen & _); [|lia].
    rewrite lift_fits in H by word_lia. rewrite Hlen in H. unfold lift in H.
    destruct (from_wire_bytes_sound 4000 pox_size_ok (to_be_bytes 2 n ++ to_be_bytes 4 ((n + 7) / 8) ++ x)) as (o & Ho & Hs).
    rewrite Ho in H. destruct o as [v'|e]; [|done]. injection H as -> ->. destruct (Hs v eq_refl) as [Hwf Hw].
    split; [done|]. eexists. split; [by apply emits_bit_vec|].
    rewrite (emits_det _ _ _ E (emits_raw _)), (emits_det _ _ _ E0 (emits_raw _)) in *. eapply reads_trans; [done|]. by eapply reads_trans.
  - intros v Hv. pose proof Hv as [Hb Hlen]. unfold BitVec.data_len in Hlen.
    assert (Hn : is_u16 (BitVec.bits v)) by word_lia. pose proof (data_length_bound _ Hn) as Hdl.
    destruct (wire_bytes_parse 4000 pox_size_ok v Hv) as (w & Hw & _ & Hp). rewrite (wire_bytes_eq 4000 v Hv pox_size_le) in Hw. apply (inj Some) in Hw as <-.
    eexists. split; [by apply emits_bit_vec, (wire_bytes_eq 4000)|]. intros r r' Hf R.
    apply reads_split in R as (r1 & R1 & R). apply reads_split in R as (r2 & R2 & R3).
    assert (Hu : is_u32 (len (BitVec.data v))) by (unfold is_u32, U32_MAX; lia).
    destruct (wire_complete (rd := Reader.u16 (E := option NakamotoCodecError)) _ Hn) as (b1 & E1 & C1).
    destruct (wire_complete (rd := Reader.u32 (E := option NakamotoCodecError)) (len (BitVec.data v)) Hu) as (b2 & E2 & C2).
    rewrite (emits_det _ _ _ E1 (emits_raw _)) in C1. rewrite (emits_det _ _ _ E2 (emits_raw _)) in C2.
    pose proof (reads_fits _ _ _ R1 Hf) as Hf1. pose proof (reads_fits _ _ _ R2 Hf1) as Hf2.
    unfold read_bit_vec. rewrite (bind_run _ _ _ _ _ (C1 _ _ Hf R1)), (bind_run _ _ _ _ _ (C2 _ _ Hf1 R2)).
    rewrite lift_fits by (unfold U32_MAX; lia). rewrite Hlen, Z.eqb_refl. cbn [negb].
    rewrite (bind_run _ _ _ (BitVec.data v) r' (take_reads _ _ _ _ Hf2 R3 Hlen)), lift_fits by (unfold U32_MAX; lia). by rewrite Hp.
Qed.

#[export] Instance signatures_wire : Wire read_signatures write_signatures
  (fun l => is_u32 (len l) /\ Forall (fun s => len s = 65) l).
Proof.
  eapply (vec_wire Reader.signature Writer.signature _ _ 65).
  - intros s Hs. exists s. split; [apply emits_raw|lia].
  - intros n remaining Hn Hr Hle. apply Z.ltb_ge, Z.div_le_lower_bound; lia.
Qed.

#[export] Instance problematic_transaction_wire :
  Wire read_problematic_transaction encode_problematic_transaction (fun t => is_u32 (pt_index t)).
Proof.
  split.
  - intros r x r' Hok H. unfold read_problematic_transaction in H. reader_inv H. wire_steps. split; [done|]. wire_finish.
  - intros [i c] Hx. unfold encode_problematic_transaction, read_problematic_transaction. cbn in Hx. cbn [pt_index pt_category]. wire_at.
Qed.

#[export] Instance problematic_transactions_wire :
  Wire read_problematic_transactions (write_vec encode_problematic_transaction)
    (fun l => is_u32 (len l) /\ Forall (fun t => is_u32 (pt_index t)) l).
Proof.
  eapply (vec_wire read_problematic_transaction encode_problematic_transaction _ _ 5).
  - intros [i c] Hs. exists (to_be_bytes 4 i ++ [c]). split; [apply emits_seq; apply emits_raw|length_lia].
  - intros n remaining Hn Hr Hle. apply Z.ltb_ge, Z.div_le_lower_bound; lia.
Qed.

(** A header of version 0 lists no problematic transactions. *)
Definition problematic_ok (version : byte) (l : list ProblematicTransaction) : Prop :=
  if has_problematic version then is_u32 (len l) /\ Forall (fun t => is_u32 (pt_index t)) l else l = [].

#[export] Instance problematic_wire version :
  Wire (if has_problematic version then read_problematic_transactions else mret [])
    (fun l => if has_problematic version then write_vec encode_problematic_transaction l else wskip) (problematic_ok version).
Proof.
  unfold problematic_ok. destruct (has_problematic version); [apply _|]. split.
  - intros r x r' Hok H. reader_inv H. split; [done|]. exists []. split; [apply emits_skip|by apply reads_nil].
  - intros x ->. apply codec_at_ret.
Qed.

Definition header_ok (h : NakamotoBlockHeader) : Prop :=
  is_u64 (hd_chain_length h) /\ is_u64 (hd_bitcoin_spent h) /\ len (hd_consensus_hash h) = 20 /\
  len (hd_parent_block_id h) = 32 /\ len (hd_transaction_merkle_root h) = 32 /\ len (hd_state_index_root h) = 32 /\
  is_u64 (hd_timestamp h) /\ len (hd_miner_signature h) = 65 /\
  (is_u32 (len (hd_signer_signatures h)) /\ Forall (fun s => len s = 65) (hd_signer_signatures h)) /\
  BitVec.wf 4000 (hd_pox_treatment h) /\ problematic_ok (hd_version h) (hd_problematic_transactions h).

(** [encode_header] with its writes in one sequence. *)
Definition write_header (h : NakamotoBlockHeader) : WriterM :=
  Writer.byte (hd_version h) ;;; Writer.u64 (hd_chain_length h) ;;; Writer.u64 (hd_bitcoin_spent h) ;;;
  Writer.raw (hd_consensus_hash h) ;;; Writer.raw (hd_parent_block_id h) ;;;
  Writer.raw (hd_transaction_merkle_root h) ;;; Writer.raw (hd_state_index_root h) ;;;
  Writer.u64 (hd_timestamp h) ;;; Writer.signature (hd_miner_signature h) ;;;
  write_signatures (hd_signer_signatures h) ;;; write_bit_vec (hd_pox_treatment h) ;;;
  (if has_problematic (hd_version h) then write_vec encode_problematic_transaction (hd_problematic_transactions h) else wskip).

Lemma encode_header_flat h w : encode_header h w = write_header h w.
Proof. reflexivity. Qed.

#[export] Instance header_wire : Wire read_header encode_header header_ok.
Proof.
  split.
  - intros r h r' Hok H. unfold read_header in H.
    do 11 (let x := fresh "x" in let r := fresh "r" in let Hm := fresh "Hm" in apply bind_ok in H as (x & r & Hm & H); wire_steps).
    apply bind_ok in H as (l & r12 & Hm & H). pose proof (problematic_wire x) as W.
    destruct (@wire_sound _ _ _ _ _ W _ _ _ ltac:(eassumption) Hm) as (Hl & bl & El & Rl). reader_inv H.
    split; [unfold header_ok; cbn -[len U32_MAX]; tauto|]. eexists. split; [|reads_tac].
    intros w0. rewrite encode_header_flat. revert w0. unfold write_header.
    cbn [hd_version hd_chain_length hd_bitcoin_spent hd_consensus_hash hd_parent_block_id hd_transaction_merkle_root
      hd_state_index_root hd_timestamp hd_miner_signature hd_signer_signatures hd_pox_treatment hd_problematic_transactions].
    repeat (apply emits_seq; [eassumption|]). exact El.
  - intros h (H1 & H2 & H3 & H4 & H5 & H6 & H7 & H8 & H9 & H10 & H11).
    assert (Hc : codec_at (write_header h) read_header h); [|exact Hc].
    destruct h; cbn in *. unfold write_header, read_header. cbn. wire_at.
Qed.

(** ** The transactions of a block *)

(** ** Readings do not panic *)

#[export] Instance Nakamoto_safe_errors : SafeErrors NakamotoCodecError.
Proof. done. Qed.

(** The conversions of [Reader::bit_vec] that [expect] do fit, and the bit vector it
    builds does not panic. *)
Lemma safe_bit_vec : safe read_bit_vec.
Proof.
  apply (safe_bind_post is_u16); [auto with safe|intros r x r' Hok H; by destruct (wire_sound r x r' Hok H) as [? _]|]. intros n Hn.
  pose proof (data_length_bound n Hn) as Hdl. apply safe_bind; [auto with safe|]. intros declared.
  rewrite lift_fits by (unfold U32_MAX; lia). destruct (negb _); [by intros r Hok|].
  apply (safe_bind_post (fun x => len x = (n + 7) / 8)); [apply safe_take; lia| |].
  { intros r x r' Hok H. by apply take_ok in H as (_ & ? & _); [|lia]. }
  intros x Hx. rewrite lift_fits by (unfold U32_MAX; lia). intros r Hok.
  destruct (from_wire_bytes_sound 4000 pox_size_ok (to_be_bytes 2 n ++ to_be_bytes 4 (len x) ++ x)) as (o & -> & _). by destruct o.
Qed.

Lemma safe_header : safe read_header.
Proof.
  assert (safe read_signatures) by (unfold read_signatures; auto with safe).
  assert (forall v, safe (if has_problematic v then read_problematic_transactions else mret [])).
  { intros v. unfold read_problematic_transactions, read_problematic_transaction. destruct (has_problematic v); auto 10 with safe. }
  unfold read_header. repeat first [solve [auto using safe_bit_vec with safe] | apply safe_bind; [|intros ?]].
Qed.

Section Blocks.
Context `{HS : Hashes} `{HO : !HashesOk} `{ED : Edwards}.

(** The transaction was decoded from [raw]: its recorded bytes are [raw] with the
    version byte made canonical. *)
Definition decoded_from (tx : Transaction) (raw : list byte) : Prop :=
  transaction_ok tx /\ encode_transaction tx = Some (tx_bytes tx) /\
  exists b0 tail, raw = b0 :: tail /\ tx_version tx = TransactionVersion.parse b0 /\
    tx_bytes tx = TransactionVersion.byte (tx_version tx) :: tail.

Lemma decode_decoded_from bytes tx n : Some (decode_transaction bytes) = Some (Ok (tx, n)) ->
  exists raw rest, decoded_from tx raw /\ bytes = raw ++ rest /\ n = len raw.
Proof.
  intros [= Hd]. apply decode_sound in Hd as (He & Htx & -> & b0 & tail & rest & Hdrop & Hbytes & Hv).
  exists (b0 :: tail), rest. split; [|by rewrite Hbytes]. split; [done|]. split; [done|]. by exists b0, tail.
Qed.

(** What a block needs of a transaction. *)
Definition block_transaction_ok (tx : Transaction) : Prop :=
  transaction_ok tx /\ encode_transaction tx = Some (tx_bytes tx).

Lemma encode_nonempty tx b : transaction_ok tx -> encode_transaction tx = Some b -> 1 <= len b.
Proof.
  intros Htx He. destruct (body_complete tx Htx) as (bs & E & _).
  assert (Hb : encode_transaction tx = Some ([TransactionVersion.byte (tx_version tx)] ++ bs)).
  { apply emits_finish, emits_seq; [apply emits_raw|done]. }
  rewrite He in Hb. injection Hb as ->. cbn. lia.
Qed.

Lemma emits_encoded tx : block_transaction_ok tx -> emits (write_encoded tx) (tx_bytes tx).
Proof. intros [_ He] w. unfold write_encoded. by rewrite He. Qed.

Lemma emits_all txs : Forall block_transaction_ok txs -> emits (Writer.each write_encoded txs) (concat (map tx_bytes txs)).
Proof. induction 1; cbn; [apply emits_skip|]. apply emits_seq; [by apply emits_encoded|done]. Qed.

Lemma transaction_codec tx : block_transaction_ok tx /\ no_pox tx = true -> codec_at (write_encoded tx) read_transaction tx.
Proof.
  intros [[Htx He] Hp]. apply (prefix_codec _ _ _ (tx_bytes tx)); [by apply emits_encoded|]. intros rest Hl.
  destruct (decode_no_pox tx Htx Hp) as (bs & He' & Hd). assert (bs = tx_bytes tx) as -> by congruence. rewrite Hd by done. by destruct tx.
Qed.

Lemma transactions_codec txs : is_u32 (len txs) -> Forall (fun tx => block_transaction_ok tx /\ no_pox tx = true) txs ->
  codec_at (write_vec write_encoded txs) read_transactions txs.
Proof.
  intros Hu HF. apply (vec_codec read_transaction write_encoded (fun tx => block_transaction_ok tx /\ no_pox tx = true) _ 1); try done.
  - apply transaction_codec.
  - intros tx [Hok _]. exists (tx_bytes tx). split; [by apply emits_encoded|]. destruct Hok. by eapply encode_nonempty.
  - intros n remaining Hn Hr Hle. apply Z.ltb_ge. lia.
Qed.

Lemma decode_transaction_safe bytes :
  match decode_transaction bytes with Ok (_, n) => 0 <= n | _ => True end.
Proof. destruct (decode_transaction bytes) as [[tx n]|] eqn:Hd; [|done]. apply decode_sound in Hd as (_ & _ & -> & _). lia. Qed.

Lemma safe_transaction : safe read_transaction.
Proof. apply safe_prefix, decode_transaction_safe. Qed.

Lemma safe_block : safe read_block.
Proof. unfold read_block, read_transactions. auto using safe_header, safe_transaction with safe. Qed.

(** ** Blocks *)

(** The block's transactions have distinct identifiers and the root of its header. *)
Definition sealed (b : NakamotoBlock) : Prop :=
  (exists ids, mapM txid (bl_transactions b) = Some ids /\ NoDup ids) /\
  transaction_merkle_root (bl_transactions b) = Some (hd_transaction_merkle_root (bl_header b)).

Definition block_ok (b : NakamotoBlock) : Prop :=
  header_ok (bl_header b) /\ is_u32 (len (bl_transactions b)) /\
  Forall block_transaction_ok (bl_transactions b) /\ sealed b.

Lemma validate_block_ok header txs b : validate_block header txs = Some (Ok b) <-> b = mkBlock header txs /\ sealed b.
Proof.
  unfold validate_block, sealed. split.
  - destruct (mapM txid txs) as [ids|] eqn:Hids; cbn [mbind option_bind]; [|done].
    destruct (Nat.eqb_spec (size (list_to_set ids : gset (list byte))) (length txs)) as [Hsz|]; cbn [negb]; [|done].
    destruct (transaction_merkle_root txs) as [root|] eqn:Hr; cbn [mbind option_bind]; [|done].
    case_decide as Hroot; [|done]. intros [= <-]. split; [done|]. split; [|by cbn; rewrite Hr, Hroot].
    exists ids. split; [done|]. apply size_list_to_set_NoDup. by rewrite Hsz, (mapM_length _ _ _ Hids).
  - intros (-> & (ids & Hids & Hnd) & Hr). cbn in Hids, Hr. rewrite Hids. cbn [mbind option_bind].
    rewrite (proj2 (Nat.eqb_eq _ _)) by (rewrite <- (mapM_length _ _ _ Hids); by apply size_list_to_set_NoDup). cbn [negb].
    rewrite Hr. cbn [mbind option_bind]. by rewrite decide_True.
Qed.

Lemma emits_block b hb : emits (encode_header (bl_header b)) hb -> is_u32 (len (bl_transactions b)) ->
  Forall block_transaction_ok (bl_transactions b) ->
  encode_block b = Some (hb ++ to_be_bytes 4 (len (bl_transactions b)) ++ concat (map tx_bytes (bl_transactions b))).
Proof.
  intros E Hu HF. apply emits_finish, emits_seq; [done|]. apply emits_seq; [by apply count_u32|by apply emits_all].
Qed.

Lemma read_block_sound r h txs r' : reader_ok r -> read_block r = Ok ((h, txs), r') ->
  header_ok h /\ is_u32 (len txs) /\ exists hb raws, emits (encode_header h) hb /\ Forall2 decoded_from txs raws /\
    reads r (hb ++ to_be_bytes 4 (len txs) ++ concat raws) r'.
Proof.
  intros Hok H. unfold read_block in H. reader_inv H. wire_steps. simplify_eq.
  destruct (vec_reads read_transaction decoded_from _ _ _ _ (fun r x r' _ => prefix_reads _ _ _ r x r' decode_decoded_from) ltac:(eassumption) Hm0) as (Hu & raws & HF & R').
  split; [done|]. split; [done|]. exists b, raws. split; [done|]. split; [done|]. by eapply reads_trans.
Qed.

Lemma txid_some tx : block_transaction_ok tx -> is_Some (txid tx).
Proof. intros [_ He]. unfold txid. rewrite He. destruct (tx_bytes tx); cbn; eauto. Qed.

Lemma validate_block_total header txs : Forall block_transaction_ok txs -> is_Some (validate_block header txs).
Proof.
  intros HF. assert (Hids : Forall (fun tx => is_Some (txid tx)) txs) by (eapply Forall_impl; [exact HF|apply txid_some]).
  unfold validate_block. destruct (mapM txid txs) as [ids|] eqn:Hm.
  - cbn [mbind option_bind]. destruct (negb _); [eauto|]. destruct (root_total txs Hids) as (root & -> & _). cbn. case_decide; eauto.
  - destruct (mapM_is_Some_2 _ _ Hids). congruence.
Qed.

Lemma decoded_block_transactions txs raws : Forall2 decoded_from txs raws -> Forall block_transaction_ok txs.
Proof. induction 1 as [|tx raw txs raws (? & ? & _) _ IH]; constructor; [by split|done]. Qed.

(** The block was decoded from [raw]: each transaction from its part of [raw], and
    the block's encoding is [raw] with their version bytes made canonical. *)
Definition block_from (b : NakamotoBlock) (raw : list byte) : Prop :=
  block_ok b /\ exists hb raws, Forall2 decoded_from (bl_transactions b) raws /\
    raw = hb ++ to_be_bytes 4 (len (bl_transactions b)) ++ concat raws /\
    encode_block b = Some (hb ++ to_be_bytes 4 (len (bl_transactions b)) ++ concat (map tx_bytes (bl_transactions b))).

Lemma decode_prefix_spec (bytes : list byte) :
  exists r, decode_prefix bytes = Some r /\ forall b n, r = Ok (b, n) ->
    exists raw rest, block_from b raw /\ bytes = raw ++ rest /\ n = len raw.
Proof.
  unfold decode_prefix. assert (Hok : reader_ok (Reader.new bytes)) by (unfold reader_ok; cbn; lia).
  pose proof (safe_block (Reader.new bytes) Hok) as Hsafe.
  destruct (read_block (Reader.new bytes)) as [[[h txs] r]|[e|]] eqn:Hr; cbn; [|by eexists|done].
  apply read_block_sound in Hr as (Hh & Hu & hb & raws & E & HF & R); [|done].
  pose proof (decoded_block_transactions _ _ HF) as HFt. destruct (validate_block_total h txs HFt) as [v Hv]. rewrite Hv. cbn.
  eexists. split; [done|]. destruct v as [b'|]; [|done]. intros b n [= -> <-]. apply validate_block_ok in Hv as [-> Hs].
  apply reads_new_inv in R as (rest & -> & ->). do 2 eexists. split; [|done]. split; [by split_and!|].
  exists hb, raws. split_and!; [done..|]. by apply (emits_block (mkBlock h txs)).
Qed.

Lemma decode_prefix_complete (b : NakamotoBlock) : block_ok b -> Forall (fun tx => no_pox tx = true) (bl_transactions b) ->
  exists bs, encode_block b = Some bs /\
    forall rest, len (bs ++ rest) <= USIZE_MAX -> decode_prefix (bs ++ rest) = Some (Ok (b, len bs)).
Proof.
  destruct b as [h txs]. intros (Hh & Hu & HF & Hs) Hpox. cbn [bl_header bl_transactions] in *.
  assert (Hc : codec_at (encode_header h ;;; write_vec write_encoded txs) read_block (h, txs)).
  { eapply codec_at_bind; [by apply wire_complete|]. eapply codec_at_last; [|done]. apply transactions_codec; [done|].
    apply Forall_and. by split. }
  destruct Hc as (bs & E & C). exists bs. split; [by apply emits_finish|]. intros rest Hl. unfold decode_prefix.
  rewrite (C (Reader.new (bs ++ rest)) _ Hl (reads_new (bs ++ rest) bs rest eq_refl)). cbn [settle mbind option_bind].
  rewrite (proj2 (validate_block_ok h txs _) (conj eq_refl Hs)). done.
Qed.

(** C15: NakamotoBlock::decode_prefix never panics, and a block it accepts is
    well-formed, has distinct transactions and the root its header states, and
    re-encodes to the consumed bytes with each transaction's version byte made
    canonical. *)
Theorem block_decode_sound (bytes : list byte) :
  exists r, decode_prefix bytes = Some r /\ forall b n, r = Ok (b, n) ->
    block_ok b /\ exists hb raws rest, Forall2 decoded_from (bl_transactions b) raws /\
      bytes = (hb ++ to_be_bytes 4 (len (bl_transactions b)) ++ concat raws) ++ rest /\
      n = len (hb ++ to_be_bytes 4 (len (bl_transactions b)) ++ concat raws) /\
      encode_block b = Some (hb ++ to_be_bytes 4 (len (bl_transactions b)) ++ concat (map tx_bytes (bl_transactions b))).
Proof.
  destruct (decode_prefix_spec bytes) as (r & Hr & Hs). exists r. split; [done|]. intros b n Hb.
  destruct (Hs b n Hb) as (raw & rest & (Hok & hb & raws & HF & -> & He) & -> & ->). split; [done|]. by exists hb, raws, rest.
Qed.

(** A well-formed block whose transactions have no Pox post-conditions encodes,
    and decoding its encoding gives it back, also from the front of a longer stream. *)
Theorem block_roundtrip (b : NakamotoBlock) (Hb : block_ok b)
  (Hpox : Forall (fun tx => no_pox tx = true) (bl_transactions b)) :
  exists bs, encode_block b = Some bs /\
    (len bs <= USIZE_MAX -> decode_block bs = Some (Ok b)) /\
    forall rest, len (bs ++ rest) <= USIZE_MAX -> decode_prefix (bs ++ rest) = Some (Ok (b, len bs)).
Proof.
  destruct (decode_prefix_complete b Hb Hpox) as (bs & He & Hp). exists bs. split; [done|]. split; [|done]. intros Hl.
  unfold decode_block. specialize (Hp []). rewrite app_nil_r in Hp. rewrite Hp by done. cbn [mbind option_bind]. by rewrite Z.eqb_refl.
Qed.

End Blocks.

(** ** What the block identifier commits to *)

Section Identifier.
Context `{HS : Hashes} `{HO : !HashesOk}.

(** The writes of [signing_bytes] with the miner's signature, in one sequence. *)
Definition write_signing (h : NakamotoBlockHeader) : WriterM :=
  Writer.byte (hd_version h) ;;; Writer.u64 (hd_chain_length h) ;;; Writer.u64 (hd_bitcoin_spent h) ;;;
  Writer.raw (hd_consensus_hash h) ;;; Writer.raw (hd_parent_block_id h) ;;;
  Writer.raw (hd_transaction_merkle_root h) ;;; Writer.raw (hd_state_index_root h) ;;;
  Writer.u64 (hd_timestamp h) ;;; Writer.signature (hd_miner_signature h) ;;;
  write_bit_vec (hd_pox_treatment h) ;;;
  (if has_problematic (hd_version h) then write_vec encode_problematic_transaction (hd_problematic_transactions h) else wskip).

Lemma signing_bytes_flat h : signing_bytes h true = Writer.finish (write_signing h).
Proof. reflexivity. Qed.

(** A reader of the signed fields: a header without signer signatures. *)
Definition read_signing : BlockM NakamotoBlockHeader :=
  version ← Reader.byte;
  chain_length ← Reader.u64;
  bitcoin_spent ← Reader.u64;
  consensus_hash ← Reader.take 20;
  parent_block_id ← Reader.take 32;
  transaction_merkle_root ← Reader.take 32;
  state_index_root ← Reader.take 32;
  timestamp ← Reader.u64;
  miner_signature ← Reader.signature;
  pox_treatment ← read_bit_vec;
  problematic ← (if has_problematic version then read_problematic_transactions else mret []);
  mret (mkHeader version chain_length bitcoin_spent consensus_hash parent_block_id transaction_merkle_root
          state_index_root timestamp miner_signature [] pox_treatment problematic).

Lemma signing_codec h : header_ok h -> codec_at (write_signing h) read_signing (set_signer_signatures [] h).
Proof.
  intros (H1 & H2 & H3 & H4 & H5 & H6 & H7 & H8 & H9 & H10 & H11). destruct h; cbn in *.
  unfold write_signing, read_signing, set_signer_signatures. cbn. wire_at.
Qed.

Lemma block_id_total h : header_ok h -> is_Some (header_block_id h).
Proof.
  intros Hh. destruct (signing_codec h Hh) as (bs & E & _). unfold header_block_id, block_hash, signer_signature_hash.
  rewrite signing_bytes_flat, (emits_finish _ _ E). cbn. eauto.
Qed.

(** Equal signed bytes are of headers that differ in the signer signatures only. *)
Lemma signing_bytes_inj h1 h2 b : header_ok h1 -> header_ok h2 -> len b <= USIZE_MAX ->
  signing_bytes h1 true = Some b -> signing_bytes h2 true = Some b ->
  set_signer_signatures [] h1 = set_signer_signatures [] h2.
Proof.
  intros Hh1 Hh2 Hfit. rewrite !signing_bytes_flat. destruct (signing_codec h1 Hh1) as (b1 & E1 & C1), (signing_codec h2 Hh2) as (b2 & E2 & C2).
  rewrite (emits_finish _ _ E1), (emits_finish _ _ E2). intros [= ->] [= ->].
  assert (R : reads (Reader.new b) b (mkReader b (len b))) by (apply (reads_new b b []); by rewrite app_nil_r).
  pose proof (C1 (Reader.new b) _ Hfit R) as R1. pose proof (C2 (Reader.new b) _ Hfit R) as R2. congruence.
Qed.

(** The inputs hashed for a block identifier. *)
Definition block_id_inputs (h : NakamotoBlockHeader) : list (list byte) :=
  match signing_bytes h true with
  | Some b => [b; sha512_256 b ++ hd_consensus_hash h]
  | None => []
  end.

(** C17: Two well-formed headers with the same block identifier agree on every field
    but the signer signatures, when the hash has no collision among the inputs hashed
    for the two. *)
Theorem block_id_binds (h1 h2 : NakamotoBlockHeader) (id : StacksBlockId)
  (Hok1 : header_ok h1) (Hok2 : header_ok h2)
  (H1 : header_block_id h1 = Some id) (H2 : header_block_id h2 = Some id)
  (Hfits : Forall (fun b => len b <= USIZE_MAX) (block_id_inputs h1))
  (Hfree : collision_free (block_id_inputs h1 ++ block_id_inputs h2)) :
  set_signer_signatures [] h1 = set_signer_signatures [] h2.
Proof.
  unfold header_block_id, block_hash, signer_signature_hash, block_id_inputs in *.
  destruct (signing_bytes h1 true) as [b1|] eqn:E1; [|done]. destruct (signing_bytes h2 true) as [b2|] eqn:E2; [|done]. cbn in H1, H2.
  assert (Hpair : sha512_256 b1 ++ hd_consensus_hash h1 = sha512_256 b2 ++ hd_consensus_hash h2) by (apply Hfree; [set_solver..|congruence]).
  apply app_inj_1 in Hpair as [Hb _]; [|by rewrite !sha512_256_length].
  assert (b1 = b2) as <- by (apply Hfree; [set_solver..|done]).
  apply (signing_bytes_inj h1 h2 b1); [done..| |done|done]. by apply Forall_cons in Hfits as [? _].
Qed.

End Identifier.
