(* ===== verification/Queue.v ===== *)
(** * Bounded hand-offs: [crates/nano-queue/src/lib.rs]

    [Buffer] is the drop-oldest buffer; [Channel] is the accounting shared by the
    sender, the permits, the queue and the leases of a bounded channel, with its
    steps. An instant is an integer the caller passes in. An [option] result is
    [None] exactly where the code panics: an [expect], or an arithmetic overflow
    or underflow of [usize]. *)

From stdpp Require Import gmap fin_maps.
From S2P Require Import Prelude.

Record Limits : Type := mkLimits { lim_items : Z; lim_bytes : Z }.

(** [Limits::new]; [None] is a failed assertion. *)
Definition limits_new (items bytes : Z) : option Limits :=
  if (0 <? items) && (0 <? bytes) then Some (mkLimits items bytes) else None.

Definition limits_ok (l : Limits) : Prop :=
  0 < lim_items l <= USIZE_MAX /\ 0 < lim_bytes l <= USIZE_MAX.

Record Status : Type := mkStatus {
  st_items : Z;
  st_bytes : Z;
  st_item_limit : Z;
  st_byte_limit : Z;
  st_oldest_age : option Z;
  st_dropped : Z;
  st_saturations : Z;
}.

Inductive ReserveError : Type := Full | Closed.

(** [counter.saturating_add(1)] on a [u64]. *)
Abbreviation bump c := (saturating_add U64_MAX c 1).

(** ** The drop-oldest buffer *)

Module Buffer.
Section Buffer.
Context {T : Type}.

Record Buffered : Type := mkBuffered { value : T; size : Z; at_ : Z }.

Record t : Type := mk {
  limits : Limits;
  entries : list Buffered;
  bytes : Z;
  dropped : Z;
  saturations : Z;
}.

Definition new (limits : Limits) : t := mk limits [] 0 0 0.

(** [entries.len() >= limits.items || bytes > limits.bytes.saturating_sub(held)]. *)
Definition rejects (l : Limits) (count held bytes : Z) : bool :=
  (lim_items l <=? count) || (saturating_sub (lim_bytes l) held <? bytes).

(** The [while] loop of [push] over [entries], [bytes] and [dropped]. *)
Fixpoint shed (l : Limits) (need : Z) (entries : list Buffered) (bytes dropped : Z)
  : option (list Buffered * Z * Z) :=
  if rejects l (len entries) bytes need then
    match entries with
    | [] => None
    | oldest :: rest =>
        bytes ← checked_sub bytes (size oldest);
        shed l need rest bytes (bump dropped)
    end
  else Some (entries, bytes, dropped).

Definition push (b : t) (v : T) (n now : Z) : option (bool * t) :=
  if lim_bytes (limits b) <? n then
    Some (false, mk (limits b) (entries b) (bytes b) (bump (dropped b)) (bump (saturations b)))
  else
    let saturated := rejects (limits b) (len (entries b)) (bytes b) n in
    let saturations := if saturated then bump (saturations b) else saturations b in
    '(kept, held, dropped) ← shed (limits b) n (entries b) (bytes b) (dropped b);
    held ← checked_add USIZE_MAX held n;
    Some (true, mk (limits b) (kept ++ [mkBuffered v n now]) held dropped saturations).

Definition take (b : t) : list T * t :=
  (map value (entries b), mk (limits b) [] 0 (dropped b) (saturations b)).

Definition status (b : t) (now : Z) : Status :=
  mkStatus (len (entries b)) (bytes b) (lim_items (limits b)) (lim_bytes (limits b))
    (match entries b with [] => None | e :: _ => Some (saturating_sub now (at_ e)) end)
    (dropped b) (saturations b).

(** ** Invariant and specification *)

Fixpoint sizes (l : list Buffered) : Z :=
  match l with [] => 0 | e :: l => size e + sizes l end.

Definition inv (b : t) : Prop :=
  limits_ok (limits b) /\ Forall (fun e => 0 <= size e) (entries b) /\
  bytes b = sizes (entries b) /\ bytes b <= lim_bytes (limits b) /\ len (entries b) <= lim_items (limits b).

(** [l] leaves room for an entry of [n] bytes. *)
Definition admits (lim : Limits) (n : Z) (l : list Buffered) : Prop :=
  len l < lim_items lim /\ sizes l + n <= lim_bytes lim.

(** [k] is the least number of oldest entries whose removal makes room. *)
Definition least_shed (lim : Limits) (n : Z) (l : list Buffered) (k : nat) : Prop :=
  (k <= length l)%nat /\ admits lim n (drop k l) /\ forall j, (j < k)%nat -> ~ admits lim n (drop j l).

(** [k] applications of [bump]. *)
Definition bump_n (k : nat) (c : Z) : Z := saturating_add U64_MAX c (Z.of_nat k).

Lemma sizes_nonneg l : Forall (fun e => 0 <= size e) l -> 0 <= sizes l.
Proof. induction 1; cbn; lia. Qed.

Lemma sizes_app l1 l2 : sizes (l1 ++ l2) = sizes l1 + sizes l2.
Proof. induction l1 as [|e l1 IH]; cbn in *; lia. Qed.

Lemma rejects_spec lim l n : 0 <= n <= lim_bytes lim -> sizes l <= lim_bytes lim ->
  rejects lim (len l) (sizes l) n = false <-> admits lim n l.
Proof. unfold rejects, admits. word_lia. Qed.

Lemma bump_n_S k c : 0 <= c -> bump_n k (bump c) = bump_n (S k) c.
Proof. unfold bump_n. word_lia. Qed.

Lemma shed_spec lim n l d : limits_ok lim -> 0 <= n <= lim_bytes lim -> 0 <= d <= U64_MAX ->
  Forall (fun e => 0 <= size e) l -> sizes l <= lim_bytes lim ->
  exists k, least_shed lim n l k /\
    shed lim n l (sizes l) d = Some (drop k l, sizes (drop k l), bump_n k d).
Proof.
  intros Hlim Hn Hd HF. revert d Hd. induction HF as [|e l He HF IH]; intros d Hd Hs.
  - exists 0%nat. split.
    + split; [done|]. split; [split; cbn; unfold limits_ok in Hlim; lia|]. intros j Hj. lia.
    + cbn [shed]. replace (rejects _ _ _ _) with false; [unfold bump_n; repeat f_equal; word_lia|].
      symmetry. unfold rejects, limits_ok in *. word_lia.
  - cbn [shed]. destruct (rejects _ _ _ _) eqn:Hr.
    + cbn [sizes] in *. unfold checked_sub. rewrite (proj2 (Z.leb_le _ _)) by (apply sizes_nonneg in HF; lia).
      cbn [mbind option_bind]. replace (size e + sizes l - size e) with (sizes l) by lia.
      destruct (IH (bump d)) as (k & (Hk & Ha & Hmin) & Heq); [word_lia|lia|].
      exists (S k). split; [|cbn [drop]; by rewrite Heq, bump_n_S by lia].
      split; [cbn; lia|]. split; [done|]. intros [|j] Hj; [|cbn; apply Hmin; lia].
      cbn [drop]. rewrite <- rejects_spec by (cbn [sizes]; lia).
      cbn [sizes]. by rewrite Hr.
    + exists 0%nat. split; [|unfold bump_n; cbn [drop]; repeat f_equal; word_lia].
      split; [lia|]. split; [by apply rejects_spec|]. intros j Hj. lia.
Qed.

Definition counters_ok (b : t) : Prop := is_u64 (dropped b) /\ is_u64 (saturations b).

Lemma push_ok b v n now : inv b -> counters_ok b -> 0 <= n -> exists kept b',
  push b v n now = Some (kept, b') /\ inv b' /\ counters_ok b' /\ limits b' = limits b /\
  (if kept then
     exists k, least_shed (limits b) n (entries b) k /\
       entries b' = drop k (entries b) ++ [mkBuffered v n now] /\ dropped b' = bump_n k (dropped b) /\
       saturations b' = (match k with O => saturations b | _ => bump (saturations b) end)
   else lim_bytes (limits b) < n /\ entries b' = entries b /\ bytes b' = bytes b /\
     dropped b' = bump (dropped b) /\ saturations b' = bump (saturations b)).
Proof.
  intros (Hl & HF & Hb & Hle & Hc) [Hd Hs] Hn. unfold push.
  destruct (Z.ltb_spec (lim_bytes (limits b)) n) as [Hbig|Hfit].
  { do 2 eexists. split; [done|]. cbn. split; [by split_and!|]. split; [|by split_and!].
    unfold counters_ok in *. word_lia. }
  rewrite Hb. destruct (shed_spec (limits b) n (entries b) (dropped b)) as (k & Hk & ->); [done|lia|done|done|lia|].
  cbn [mbind option_bind]. destruct Hk as (Hkl & [Ha1 Ha2] & Hmin).
  assert (HF' : Forall (fun e => 0 <= size e) (drop k (entries b))) by by apply Forall_drop.
  pose proof (sizes_nonneg _ HF').
  rewrite (proj2 (checked_add_Some USIZE_MAX _ n _)) by (split; [done|]; unfold limits_ok in Hl; lia).
  cbn [mbind option_bind]. do 2 eexists. split; [done|]. split; [|split; [|split; [done|]]]; cbn.
  - unfold inv; cbn. split; [done|]. rewrite sizes_app, length_app. cbn. split; [apply Forall_app; by repeat constructor|lia].
  - unfold counters_ok, bump_n in *. destruct (rejects _ _ _ _); word_lia.
  - exists k. split; [done|]. split; [done|]. split; [done|].
    destruct (rejects (limits b) (len (entries b)) (sizes (entries b)) n) eqn:Hr.
    + destruct k; [|done]. exfalso. assert (admits (limits b) n (entries b)) as Hx%rejects_spec by done; [congruence|lia..].
    + apply rejects_spec in Hr; [|lia..]. destruct k; [done|]. exfalso. by apply (Hmin 0%nat); [lia|].
Qed.

(** [Buffer::push] does not panic. It refuses only a value larger than the whole
    byte budget; otherwise it sheds the least number of oldest entries that makes
    room, appends the value, and counts the drops and at most one saturation. *)
Theorem buffer_push_spec (b : t) (v : T) (n now : Z) (Hinv : inv b) (Hcounters : counters_ok b) (Hn : 0 <= n) :
  exists kept b', push b v n now = Some (kept, b') /\
  (kept = true <-> n <= lim_bytes (limits b)) /\
  (kept = true -> exists k, least_shed (limits b) n (entries b) k /\
     entries b' = drop k (entries b) ++ [mkBuffered v n now] /\ dropped b' = bump_n k (dropped b) /\
     saturations b' = (match k with O => saturations b | _ => bump (saturations b) end)) /\
  (kept = false -> entries b' = entries b /\ dropped b' = bump (dropped b)).
Proof.
  destruct (push_ok b v n now Hinv Hcounters Hn) as ([] & b' & Hp & Hinv' & _ & Hl & Hspec).
  - exists true, b'. split_and!; [done| |done|done]. split; [|done]. intros _.
    destruct Hspec as (k & (_ & [_ Ha] & _) & _). destruct Hinv as (_ & HF & _).
    pose proof (sizes_nonneg (drop k (entries b)) ltac:(by apply Forall_drop)). lia.
  - exists false, b'. destruct Hspec as (Hbig & ? & ? & ? & ?). split_and!; [done| |done|done]. split; [done|lia].
Qed.

(** What a caller does with a buffer. *)
Inductive Op : Type := Push (v : T) (n now : Z) | Take.

Definition run_op (b : t) (o : Op) : option t :=
  match o with
  | Push v n now => snd <$> push b v n now
  | Take => Some (take b).2
  end.

Fixpoint run (b : t) (ops : list Op) : option t :=
  match ops with [] => Some b | o :: ops => b ← run_op b o; run b ops end.

Definition op_ok (o : Op) : Prop := match o with Push _ n _ => 0 <= n | Take => True end.

Lemma run_op_ok b o : inv b -> counters_ok b -> op_ok o ->
  exists b', run_op b o = Some b' /\ inv b' /\ counters_ok b' /\ limits b' = limits b.
Proof.
  intros Hi Hc Ho. destruct o as [v n now|]; cbn [run_op].
  - destruct (push_ok b v n now Hi Hc Ho) as (kept & b' & -> & Hi' & Hc' & Hl & _). by exists b'.
  - eexists. split; [done|]. destruct Hi as ((? & ?) & _ & _ & _ & _). unfold inv; cbn. split; [|done].
    split_and!; try done; try lia.
Qed.

(** Any sequence of pushes and takes on a new buffer runs without a panic and
    ends with the byte count equal to the sum of the entries and within both limits. *)
Theorem buffer_runs (l : Limits) (ops : list Op) (Hl : limits_ok l) (Hops : Forall op_ok ops) :
  exists b, run (new l) ops = Some b /\ bytes b = sizes (entries b) /\ bytes b <= lim_bytes l /\
    len (entries b) <= lim_items l.
Proof.
  assert (Hgen : forall b, inv b -> counters_ok b -> limits b = l -> exists b', run b ops = Some b' /\ inv b' /\ limits b' = l).
  { induction Hops as [|o ops Ho _ IH]; intros b Hi Hc Hlim; [by exists b|].
    destruct (run_op_ok b o Hi Hc Ho) as (b' & Hr & Hi' & Hc' & Hl'). cbn [run]. rewrite Hr. cbn [mbind option_bind].
    apply IH; [done..|congruence]. }
  destruct (Hgen (new l)) as (b & Hr & (_ & _ & ? & ? & ?) & Hlim).
  - unfold inv; cbn. destruct (Hl) as [? ?]. split; [done|]. split; [constructor|]. lia.
  - done.
  - done.
  - exists b. rewrite Hlim in *. by split_and!.
Qed.

End Buffer.
Arguments Buffered : clear implicits.
Arguments t : clear implicits.
End Buffer.

(** ** The channel's accounting *)

Module Channel.

Record Reservation : Type := mkReservation { res_at : Z; res_bytes : Z }.

Record Accounting : Type := mk {
  limits : Limits;
  entries : gmap Z Reservation;
  bytes : Z;
  next_id : Z;
  dropped : Z;
  saturations : Z;
}.

Definition new (limits : Limits) : Accounting := mk limits ∅ 0 0 0 0.

Definition set_dropped (d : Z) (a : Accounting) : Accounting :=
  mk (limits a) (entries a) (bytes a) (next_id a) d (saturations a).
Definition set_saturations (n : Z) (a : Accounting) : Accounting :=
  mk (limits a) (entries a) (bytes a) (next_id a) (dropped a) n.

(** [accounting.dropped = accounting.dropped.saturating_add(1)], and the same
    for [saturations]. *)
Definition drop_one (a : Accounting) : Accounting := set_dropped (bump (dropped a)) a.
Definition saturate_one (a : Accounting) : Accounting := set_saturations (bump (saturations a)) a.

Definition reserve (a : Accounting) (n now : Z) : option (Z * Accounting) :=
  let id := next_id a in
  held ← checked_add USIZE_MAX (bytes a) n;
  Some (id, mk (limits a) (<[id := mkReservation now n]> (entries a)) held
              (wrapping_add U64_MAX (next_id a) 1) (dropped a) (saturations a)).

Definition release (a : Accounting) (id : Z) : option Accounting :=
  match entries a !! id with
  | None => Some a
  | Some reservation =>
      held ← checked_sub (bytes a) (res_bytes reservation);
      Some (mk (limits a) (delete id (entries a)) held (next_id a) (dropped a) (saturations a))
  end.

Definition oldest (m : gmap Z Reservation) : option Z :=
  map_fold (fun _ r acc => Some (match acc with None => res_at r | Some t => Z.min (res_at r) t end)) None m.

Definition status (a : Accounting) (now : Z) : Status :=
  mkStatus (Z.of_nat (size (entries a))) (bytes a) (lim_items (limits a)) (lim_bytes (limits a))
    (saturating_sub now <$> oldest (entries a)) (dropped a) (saturations a).

(** What [try_reserve_owned] of the underlying channel answers. *)
Inductive ChannelAnswer : Type := Granted | ChannelFull | ChannelClosed.

(** [Sender::try_reserve]: [closed] is what [is_closed] says and [answer] what the
    underlying channel answers. *)
Definition try_reserve (a : Accounting) (closed : bool) (answer : ChannelAnswer) (n now : Z)
  : option (result ReserveError Z * Accounting) :=
  if closed then Some (Err Closed, drop_one a)
  else if (lim_items (limits a) <=? Z.of_nat (size (entries a)))
          || (saturating_sub (lim_bytes (limits a)) (bytes a) <? n)
  then Some (Err Full, saturate_one (drop_one a))
  else
    '(id, a) ← reserve a n now;
    match answer with
    | Granted => Some (Ok id, a)
    | ChannelFull => a ← release a id; Some (Err Full, saturate_one (drop_one a))
    | ChannelClosed => a ← release a id; Some (Err Closed, drop_one a)
    end.

(** ** The handles and their steps

    [permits] are reservations not yet filled; [sent] are permits that have put
    their value in the channel and not yet looked at [is_closed]; [queue] is the
    channel's content in order; [leases] are received values still charged. The
    receiver's [Drop] drains the queue and only then lets the channel close. *)

Inductive Phase : Type := Receiving | Draining | Drained | ChannelGone.

Section Steps.
Context {T : Type}.

Record State : Type := mkState {
  acc : Accounting;
  permits : list Z;
  sent : list Z;
  queue : list (Z * T);
  leases : list (Z * T);
  phase : Phase;
}.

Definition is_closed (p : Phase) : bool := match p with ChannelGone => true | _ => false end.

Definition init (l : Limits) : State := mkState (new l) [] [] [] [] Receiving.

Inductive step : State -> State -> Prop :=
(** [try_reserve] hands out a permit, or refuses. *)
| step_reserve a a' p s q l ph answer n now id : 0 <= n <= USIZE_MAX ->
    try_reserve a (is_closed ph) answer n now = Some (Ok id, a') ->
    step (mkState a p s q l ph) (mkState a' (id :: p) s q l ph)
| step_refuse a a' p s q l ph answer n now e : 0 <= n <= USIZE_MAX ->
    try_reserve a (is_closed ph) answer n now = Some (Err e, a') ->
    step (mkState a p s q l ph) (mkState a' p s q l ph)
(** [Permit::drop] of an unused permit. *)
| step_permit_drop a a' p1 id p2 s q l ph : release a id = Some a' ->
    step (mkState a (p1 ++ id :: p2) s q l ph) (mkState a' (p1 ++ p2) s q l ph)
(** [Permit::send], first half: the value goes in, or is discarded when the
    channel is gone. *)
| step_send a p1 id p2 s q l ph v :
    step (mkState a (p1 ++ id :: p2) s q l ph)
      (mkState a (p1 ++ p2) (id :: s) (if is_closed ph then q else q ++ [(id, v)]) l ph)
(** [Permit::send], second half: [if channel.is_closed() { release }]. *)
| step_sent_open a p s1 id s2 q l ph : is_closed ph = false ->
    step (mkState a p (s1 ++ id :: s2) q l ph) (mkState a p (s1 ++ s2) q l ph)
| step_sent_closed a a' p s1 id s2 q l ph : is_closed ph = true -> release a id = Some a' ->
    step (mkState a p (s1 ++ id :: s2) q l ph) (mkState a' p (s1 ++ s2) q l ph)
(** [recv_lease]. *)
| step_recv a p s id v q l :
    step (mkState a p s ((id, v) :: q) l Receiving) (mkState a p s q ((id, v) :: l) Receiving)
(** [Lease::drop] and [Lease::into_inner]. *)
| step_lease_drop a a' p s q l1 id v l2 ph : release a id = Some a' ->
    step (mkState a p s q (l1 ++ (id, v) :: l2) ph) (mkState a' p s q (l1 ++ l2) ph)
(** [Receiver::drop]: the drain loop, then the channel itself is dropped. *)
| step_receiver_drop a p s q l :
    step (mkState a p s q l Receiving) (mkState a p s q l Draining)
| step_drain a a' p s id v q l : release a id = Some a' ->
    step (mkState a p s ((id, v) :: q) l Draining) (mkState a' p s q l Draining)
| step_drained a p s l :
    step (mkState a p s [] l Draining) (mkState a p s [] l Drained)
| step_close a p s q l :
    step (mkState a p s q l Drained) (mkState a p s [] l ChannelGone).

(** States reached in [n] steps. *)
Inductive reachable (l : Limits) : nat -> State -> Prop :=
| reachable_init : reachable l 0 (init l)
| reachable_step n s s' : reachable l n s -> step s s' -> reachable l (S n) s'.

(** ** Invariants *)

Definition total (m : gmap Z Reservation) : Z := map_fold (fun _ r acc => res_bytes r + acc) 0 m.

Lemma total_insert m id r : m !! id = None -> total (<[id := r]> m) = res_bytes r + total m.
Proof. intros Hm. unfold total. rewrite map_fold_insert_L; [done| |done]. intros; lia. Qed.

Lemma total_delete m id r : m !! id = Some r -> total m = res_bytes r + total (delete id m).
Proof.
  intros Hm. rewrite <- (insert_delete_id m id r Hm) at 1. apply total_insert, lookup_delete_eq.
Qed.

(** The accounting is right, whatever the handles do. *)
Definition acc_ok (l : Limits) (a : Accounting) : Prop :=
  limits a = l /\ bytes a = total (entries a) /\ 0 <= bytes a <= lim_bytes l /\
  Z.of_nat (size (entries a)) <= lim_items l /\
  map_Forall (fun id r => 0 <= id < next_id a /\ 0 <= res_bytes r) (entries a) /\ 0 <= next_id a.

Lemma total_nonneg m : map_Forall (fun _ r => 0 <= res_bytes r) m -> 0 <= total m.
Proof.
  induction m as [|id r m Hm IH] using map_ind; [done|]. intros HF.
  apply map_Forall_insert in HF as [? ?]; [|done]. rewrite total_insert by done. cbn in *. specialize (IH ltac:(done)). lia.
Qed.

Lemma total_ge m id r : map_Forall (fun _ r => 0 <= res_bytes r) m -> m !! id = Some r -> res_bytes r <= total m.
Proof.
  intros HF Hm. rewrite (total_delete _ _ _ Hm).
  pose proof (total_nonneg (delete id m) ltac:(by apply map_Forall_delete)). lia.
Qed.

Lemma acc_ok_nonneg l a : acc_ok l a -> map_Forall (fun _ r => 0 <= res_bytes r) (entries a).
Proof. intros (_ & _ & _ & _ & HF & _) id r Hr. by apply (HF id r Hr). Qed.

Lemma release_ok l a id : acc_ok l a -> exists a', release a id = Some a' /\ acc_ok l a' /\
  entries a' = delete id (entries a) /\ next_id a' = next_id a.
Proof.
  intros Hok. pose proof (acc_ok_nonneg _ _ Hok) as Hnn. unfold release.
  destruct (entries a !! id) as [r|] eqn:Hr.
  - pose proof (total_ge _ _ _ Hnn Hr). pose proof (Hnn _ _ Hr). destruct Hok as (Hl & Hb & Hle & Hc & HF & Hn).
    unfold checked_sub. rewrite (proj2 (Z.leb_le _ _)) by (cbn in *; lia). cbn [mbind option_bind].
    eexists. split; [done|]. split; [|done]. unfold acc_ok; cbn.
    pose proof (total_delete _ _ _ Hr). assert (Hsz : size (delete id (entries a)) = pred (size (entries a))) by (by apply map_size_delete_Some).
    split_and!; [done|lia|cbn in *; lia..|by apply map_Forall_delete|done].
  - exists a. split; [done|]. split; [done|]. split; [|done]. by rewrite delete_id.
Qed.

Lemma acc_ok_counters l a d n : acc_ok l a -> acc_ok l (set_saturations n (set_dropped d a)).
Proof. done. Qed.

Lemma try_reserve_ok l a closed answer n now : limits_ok l -> acc_ok l a -> 0 <= n <= USIZE_MAX ->
  next_id a < U64_MAX ->
  exists r a', try_reserve a closed answer n now = Some (r, a') /\ acc_ok l a' /\
    next_id a <= next_id a' <= next_id a + 1 /\
    match r with
    | Ok id => id = next_id a /\ entries a !! id = None /\ closed = false /\
               entries a' = <[id := mkReservation now n]> (entries a) /\ next_id a' = next_id a + 1
    | Err _ => entries a' = entries a
    end.
Proof.
  intros Hlim Hok Hn Hid. unfold try_reserve. destruct closed; [do 2 eexists; split; [done|]; split; [done|]; cbn; split; [lia|done]|].
  destruct (_ || _) eqn:Hfull; [do 2 eexists; split; [done|]; split; [done|]; cbn; split; [lia|done]|].
  destruct (Hok) as (Hl & Hb & Hle & Hc & HF & Hn0). unfold saturating_sub in Hfull. rewrite Hl in Hfull.
  assert (Hfresh : entries a !! next_id a = None).
  { destruct (entries a !! next_id a) eqn:E; [|done]. apply HF in E. cbn in E. lia. }
  unfold reserve. unfold limits_ok in Hlim. rewrite (proj2 (checked_add_Some USIZE_MAX _ n _)) by (split; [done|lia]).
  cbn [mbind option_bind]. set (a1 := mk _ _ _ _ _ _).
  assert (Hw : next_id a1 = next_id a + 1).
  { cbn. unfold wrapping_add. rewrite Z.mod_small; [done|]. lia. }
  assert (Hok1 : acc_ok l a1).
  { unfold acc_ok. rewrite Hw. cbn. rewrite total_insert, map_size_insert_None by done. cbn.
    split_and!; [done|lia..| |lia]. apply map_Forall_insert; [done|]. split; [cbn; lia|].
    intros id r Hr. apply HF in Hr. cbn in *. lia. }
  assert (Hdel : delete (next_id a) (entries a1) = entries a) by (cbn; by apply delete_insert_id).
  destruct answer.
  - do 2 eexists. split; [done|]. split; [done|]. split; [lia|]. done.
  - destruct (release_ok l a1 (next_id a) Hok1) as (a2 & -> & Hok2 & He & Hn2). cbn [mbind option_bind].
    do 2 eexists. split; [done|]. split; [done|]. cbn. rewrite He, Hn2. split; [lia|done].
  - destruct (release_ok l a1 (next_id a) Hok1) as (a2 & -> & Hok2 & He & Hn2). cbn [mbind option_bind].
    do 2 eexists. split; [done|]. split; [done|]. cbn. rewrite He, Hn2. split; [lia|done].
Qed.

(** The reservations a handle answers for. *)
Definition handles (s : State) : list Z := permits s ++ map fst (queue s) ++ map fst (leases s).

(** The reservations are exactly those of [hs]. *)
Definition tracks (m : gmap Z Reservation) (hs : list Z) : Prop :=
  NoDup hs /\ forall id, is_Some (m !! id) <-> id ∈ hs.

(** Until the channel is gone, the reservations are exactly the handles'. *)
Definition state_ok (l : Limits) (n : nat) (s : State) : Prop :=
  acc_ok l (acc s) /\ next_id (acc s) <= Z.of_nat n /\
  (is_closed (phase s) = false -> tracks (entries (acc s)) (handles s)).

Lemma tracks_perm m hs hs' : hs ≡ₚ hs' -> tracks m hs -> tracks m hs'.
Proof. intros Hp [Hnd Hm]. split; [by rewrite <- Hp|]. intros id. by rewrite Hm, Hp. Qed.

Lemma tracks_insert m hs id r : m !! id = None -> tracks m hs -> tracks (<[id := r]> m) (id :: hs).
Proof.
  intros Hid [Hnd Hm]. split.
  - constructor; [|done]. rewrite <- Hm, Hid. by intros [? ?].
  - intros x. rewrite elem_of_cons, <- Hm. destruct (decide (x = id)) as [->|Hx].
    + rewrite lookup_insert_eq. split; [by left|done].
    + rewrite lookup_insert_ne by done. split; [by right|intros [?|?]; done].
Qed.

Lemma tracks_delete m hs hs' id : hs ≡ₚ id :: hs' -> tracks m hs -> tracks (delete id m) hs'.
Proof.
  intros Hp [Hnd Hm]%(tracks_perm _ _ _ Hp). apply NoDup_cons in Hnd as [Hin Hnd]. split; [done|].
  intros x. destruct (decide (x = id)) as [->|Hx].
  - rewrite lookup_delete_eq. split; [by intros [? ?]|by intros ?].
  - rewrite lookup_delete_ne by done. rewrite Hm, elem_of_cons. split; [intros [?|?]; done|by right].
Qed.

Lemma tracks_empty m : tracks m [] -> m = ∅.
Proof.
  intros [_ Hm]. apply map_eq. intros x. rewrite lookup_empty.
  destruct (m !! x) eqn:E; [|done]. assert (x ∈ @nil Z) as Hx by (apply Hm; by rewrite E). by apply not_elem_of_nil in Hx.
Qed.

(** A step that releases the reservation of one handle. *)
Lemma release_handle l n a a' id p s q lv ph p' s' q' lv' ph' :
  state_ok l n (mkState a p s q lv ph) -> release a id = Some a' ->
  (is_closed ph' = false -> is_closed ph = false /\
     handles (mkState a p s q lv ph) ≡ₚ id :: handles (mkState a' p' s' q' lv' ph')) ->
  state_ok l (S n) (mkState a' p' s' q' lv' ph').
Proof.
  intros (Hacc & Hid & Hh) Hrel Hp. cbn [acc phase] in *.
  destruct (release_ok l a id Hacc) as (a2 & Hrel' & Hacc2 & He2 & Hn2). rewrite Hrel in Hrel'. injection Hrel' as <-.
  split; [done|]. split; [cbn; lia|]. cbn [acc phase]. intros [Hc Hperm]%Hp. rewrite He2.
  by eapply tracks_delete, Hh.
Qed.

(** A step that leaves the accounting alone and only moves handles. *)
Lemma move_handle l n a p s q lv ph p' s' q' lv' ph' :
  state_ok l n (mkState a p s q lv ph) ->
  (is_closed ph' = false -> is_closed ph = false /\
     handles (mkState a p s q lv ph) ≡ₚ handles (mkState a p' s' q' lv' ph')) ->
  state_ok l (S n) (mkState a p' s' q' lv' ph').
Proof.
  intros (Hacc & Hid & Hh) Hp. cbn [acc phase] in *.
  split; [done|]. split; [cbn; lia|]. cbn [acc phase]. intros [Hc Hperm]%Hp. by eapply tracks_perm, Hh.
Qed.

Lemma step_ok l n s s' : limits_ok l -> Z.of_nat n < U64_MAX -> state_ok l n s -> step s s' -> state_ok l (S n) s'.
Proof.
  intros Hlim Hn Hs Hst.
  destruct Hst as [a a' p s q lv ph answer m now id Hm Ht|a a' p s q lv ph answer m now e Hm Ht| | | | | | | | | | ];
    try (eapply release_handle; [exact Hs|eassumption|]; intros Hc; split; [done || congruence|];
         unfold handles; cbn [permits queue leases]; rewrite ?map_app; cbn [map fst]; solve_Permutation);
    try (eapply move_handle; [exact Hs|]; intros Hc; split; [done || congruence|];
         unfold handles; cbn [permits queue leases]; rewrite ?Hc, ?map_app; cbn [map fst]; solve_Permutation).
  - destruct Hs as (Hacc & Hid & Hh). cbn [acc phase] in *.
    destruct (try_reserve_ok l a (is_closed ph) answer m now Hlim Hacc Hm ltac:(lia)) as (r & a2 & Ht' & Hacc2 & Hn2 & Hr).
    rewrite Ht in Ht'. injection Ht' as <- <-. destruct Hr as (-> & Hf & Hc & He & _).
    split; [done|]. split; [cbn; lia|]. cbn [acc phase]. intros _. rewrite He. apply tracks_insert; [done|]. by apply Hh.
  - destruct Hs as (Hacc & Hid & Hh). cbn [acc phase] in *.
    destruct (try_reserve_ok l a (is_closed ph) answer m now Hlim Hacc Hm ltac:(lia)) as (r & a2 & Ht' & Hacc2 & Hn2 & Hr).
    rewrite Ht in Ht'. injection Ht' as <- <-.
    split; [done|]. split; [cbn; lia|]. cbn [acc phase]. rewrite Hr. done.
  - eapply release_handle; [exact Hs|eassumption|]. congruence.
  - by eapply move_handle; [exact Hs|].
Qed.

Lemma reachable_ok l n s : limits_ok l -> Z.of_nat n <= U64_MAX -> reachable l n s -> state_ok l n s.
Proof.
  intros Hlim Hn Hr. revert Hn. induction Hr as [|n s s' Hr IH Hst]; intros Hn.
  - unfold limits_ok in Hlim. split; [|split; [done|]].
    + unfold acc_ok; cbn. rewrite map_size_empty. split_and!; [done|done|lia|lia|lia|apply map_Forall_empty|lia].
    + intros _. split; [constructor|]. intros id. cbn. rewrite lookup_empty, elem_of_nil. split; [by intros [? ?]|done].
  - eapply step_ok; [done|lia|apply IH; lia|done].
Qed.

(** C11: In every reachable state of a bounded channel the bytes charged are the sum
    of the live reservations and within both limits; until the channel is gone every
    reservation is owned by exactly one permit, queued value or lease, and when none
    is left nothing is charged. *)
Theorem channel_accounting (l : Limits) (n : nat) (s : State) (Hlimits : limits_ok l)
  (Hn : Z.of_nat n <= U64_MAX) (Hr : reachable l n s) :
  bytes (acc s) = total (entries (acc s)) /\ bytes (acc s) <= lim_bytes l /\
  Z.of_nat (size (entries (acc s))) <= lim_items l /\
  (phase s <> ChannelGone -> tracks (entries (acc s)) (handles s)) /\
  (phase s <> ChannelGone -> handles s = [] -> entries (acc s) = ∅ /\ bytes (acc s) = 0).
Proof.
  destruct (reachable_ok l n s Hlimits Hn Hr) as ((Hl & Hb & Hle & Hc & _) & _ & Hh).
  assert (Ht : phase s <> ChannelGone -> tracks (entries (acc s)) (handles s)) by (intros ?; apply Hh; by destruct (phase s)).
  split_and!; [done|lia|done|done|]. intros Hp Hnil. specialize (Ht Hp). rewrite Hnil in Ht.
  apply tracks_empty in Ht as He. rewrite He in Hb. done.
Qed.

(** In every reachable state of a bounded channel releasing any identifier and
    trying any reservation does not panic: no byte count overflows or underflows. *)
Theorem step_never_panics (l : Limits) (n : nat) (s : State) (id bytes now : Z) (answer : ChannelAnswer)
  (Hlimits : limits_ok l) (Hn : Z.of_nat n < U64_MAX) (Hr : reachable l n s) (Hbytes : 0 <= bytes <= USIZE_MAX) :
  is_Some (release (acc s) id) /\ is_Some (try_reserve (acc s) (is_closed (phase s)) answer bytes now).
Proof.
  destruct (reachable_ok l n s Hlimits ltac:(lia) Hr) as (Hacc & Hid & _). split.
  - destruct (release_ok l (acc s) id Hacc) as (a & -> & _). done.
  - destruct (try_reserve_ok l (acc s) (is_closed (phase s)) answer bytes now) as (r & a & -> & _); [done..|lia|done].
Qed.

End Steps.
Arguments State : clear implicits.

(** An interleaving that leaks a reservation. A permit's value is sent after the
    receiver's [Drop] has drained the queue and before the channel closes; afterwards
    no handle is left, one byte is still charged, and no step releases it. *)
Theorem close_race_leaks :
  exists n (s : State nat), reachable (mkLimits 1 1) n s /\
    permits s = [] /\ sent s = [] /\ queue s = [] /\ leases s = [] /\ bytes (acc s) = 1 /\
    forall s', step s s' -> bytes (acc s') = 1.
Proof.
  set (a0 := mk (mkLimits 1 1) {[0 := mkReservation 0 1]} 1 1 0 0).
  exists 6%nat, (mkState a0 [] [] [] [] ChannelGone). split; [|split_and!; try done].
  2:{ intros s' Hst. inversion Hst; subst; cbn in *; try done; try (by destruct p1); try (by destruct s1); try (by destruct l1).
      by simplify_eq. }
  eapply reachable_step; [|exact (step_close a0 [] [] [(0, 7%nat)] [])].
  eapply reachable_step; [|exact (step_sent_open a0 [] [] 0 [] [(0, 7%nat)] [] Drained eq_refl)].
  eapply reachable_step; [|exact (step_send a0 [] 0 [] [] [] [] Drained 7%nat)].
  eapply reachable_step; [|apply step_drained]. eapply reachable_step; [|apply step_receiver_drop].
  apply (reachable_step _ 0 (init (mkLimits 1 1))); [constructor|].
  by apply (step_reserve _ a0 [] [] [] [] Receiving Granted 1 0 0).
Qed.

End Channel.
