(* ===== verification/FrameBudget.v ===== *)
(** * Admission of peer frames: [crates/nano-p2p/src/budget.rs]

    One budget for all the frames held in memory, with a bound per peer address.
    [None] is a panic: the [expect] of [FramePermit::drop] or an overflow of
    [usize]. Every caller reserves a whole frame, header included, so at least
    [PREAMBLE_LEN] bytes; the steps ask for a positive size. *)

From stdpp Require Import gmap fin_maps.
From S2P Require Import Prelude.

Record FrameLimits : Type := mkFrameLimits { global_bytes : Z; per_address_bytes : Z }.

(** [FrameLimits::new]; [None] is a failed assertion. *)
Definition frame_limits_new (global per_address : Z) : option FrameLimits :=
  if (0 <? global) && (0 <? per_address) && (per_address <=? global)
  then Some (mkFrameLimits global per_address) else None.

Record FrameBudgetStatus : Type := mkFrameStatus {
  fs_bytes : Z;
  fs_addresses : Z;
  fs_global_byte_limit : Z;
  fs_per_address_byte_limit : Z;
  fs_saturations : Z;
}.

Module FrameBudget.
Section Budget.
Context {IpAddr : Type} `{Countable IpAddr}.

Record Accounting : Type := mk {
  limits : FrameLimits;
  bytes : Z;
  addresses : gmap IpAddr Z;
  saturations : Z;
}.

Record FramePermit : Type := mkPermit { address : IpAddr; size : Z }.

Definition new (l : FrameLimits) : Accounting := mk l 0 ∅ 0.

Definition bytes_for (a : Accounting) (ip : IpAddr) : Z := default 0 (addresses a !! ip).

(** [FrameBudget::try_reserve]; [Err tt] is [FrameBudgetFull]. *)
Definition try_reserve (a : Accounting) (ip : IpAddr) (n : Z) : option (result unit FramePermit * Accounting) :=
  let address_bytes := bytes_for a ip in
  if (saturating_sub (global_bytes (limits a)) (bytes a) <? n)
     || (saturating_sub (per_address_bytes (limits a)) address_bytes <? n)
  then Some (Err tt, mk (limits a) (bytes a) (addresses a) (saturating_add U64_MAX (saturations a) 1))
  else
    held ← checked_add USIZE_MAX (bytes a) n;
    own ← checked_add USIZE_MAX address_bytes n;
    Some (Ok (mkPermit ip n), mk (limits a) held (<[ip := own]> (addresses a)) (saturations a)).

(** [FramePermit::drop]. *)
Definition drop_permit (a : Accounting) (p : FramePermit) : option Accounting :=
  held ← checked_sub (bytes a) (size p);
  remaining ← addresses a !! address p;
  remaining ← checked_sub remaining (size p);
  Some (mk (limits a) held
          (if remaining =? 0 then delete (address p) (addresses a)
           else <[address p := remaining]> (addresses a)) (saturations a)).

Definition status (a : Accounting) : FrameBudgetStatus :=
  mkFrameStatus (bytes a) (Z.of_nat (base.size (addresses a))) (global_bytes (limits a))
    (per_address_bytes (limits a)) (saturations a).

(** ** Steps: reserving and dropping permits *)

Inductive step : Accounting * list FramePermit -> Accounting * list FramePermit -> Prop :=
| step_reserve a a' ps ip n p : 0 < n <= USIZE_MAX -> try_reserve a ip n = Some (Ok p, a') ->
    step (a, ps) (a', p :: ps)
| step_refuse a a' ps ip n : 0 < n <= USIZE_MAX -> try_reserve a ip n = Some (Err tt, a') ->
    step (a, ps) (a', ps)
| step_drop a a' ps1 p ps2 : drop_permit a p = Some a' -> step (a, ps1 ++ p :: ps2) (a', ps1 ++ ps2).

Inductive reachable (l : FrameLimits) : Accounting * list FramePermit -> Prop :=
| reachable_new : reachable l (new l, [])
| reachable_step s s' : reachable l s -> step s s' -> reachable l s'.

(** ** Invariant *)

Fixpoint held (ps : list FramePermit) : Z :=
  match ps with [] => 0 | p :: ps => size p + held ps end.

Fixpoint held_by (ip : IpAddr) (ps : list FramePermit) : Z :=
  match ps with [] => 0 | p :: ps => (if decide (address p = ip) then size p else 0) + held_by ip ps end.

Definition limits_ok (l : FrameLimits) : Prop :=
  0 < per_address_bytes l <= global_bytes l /\ global_bytes l <= USIZE_MAX.

Definition inv (l : FrameLimits) (s : Accounting * list FramePermit) : Prop :=
  limits s.1 = l /\ Forall (fun p => 0 < size p) s.2 /\ bytes s.1 = held s.2 /\ bytes s.1 <= global_bytes l /\
  forall ip, held_by ip s.2 <= per_address_bytes l /\
    addresses s.1 !! ip = if decide (held_by ip s.2 = 0) then None else Some (held_by ip s.2).

Lemma held_app ps qs : held (ps ++ qs) = held ps + held qs.
Proof. induction ps as [|p ps IH]; cbn; lia. Qed.

Lemma held_by_app ip ps qs : held_by ip (ps ++ qs) = held_by ip ps + held_by ip qs.
Proof. induction ps as [|p ps IH]; cbn; lia. Qed.

Lemma held_nonneg ps : Forall (fun p => 0 < size p) ps -> 0 <= held ps.
Proof. induction 1; cbn; lia. Qed.

Lemma held_by_nonneg ip ps : Forall (fun p => 0 < size p) ps -> 0 <= held_by ip ps.
Proof. induction 1; cbn; [lia|]. case_decide; lia. Qed.

Lemma bytes_for_held l a ps ip : inv l (a, ps) -> bytes_for a ip = held_by ip ps.
Proof.
  intros (_ & _ & _ & _ & Ha). cbn in Ha. unfold bytes_for. rewrite (proj2 (Ha ip)). case_decide; cbn; lia.
Qed.

Lemma frame_reserve_ok l a ps ip n : limits_ok l -> inv l (a, ps) -> 0 < n <= USIZE_MAX ->
  exists r a', try_reserve a ip n = Some (r, a') /\
    match r with
    | Ok p => p = mkPermit ip n /\ inv l (a', p :: ps)
    | Err _ => inv l (a', ps) /\ addresses a' = addresses a /\ bytes a' = bytes a /\
        (global_bytes l < bytes a + n \/ per_address_bytes l < bytes_for a ip + n)
    end.
Proof.
  intros (Hp & Hg) Hinv Hn. pose proof (bytes_for_held _ _ _ ip Hinv) as Hbf.
  destruct Hinv as (Hl & HF & Hb & Hle & Ha). cbn in *. unfold try_reserve. rewrite Hl.
  pose proof (held_by_nonneg ip ps HF). pose proof (held_nonneg ps HF).
  destruct (_ || _) eqn:E; unfold saturating_sub in E.
  - do 2 eexists. split; [done|]. cbn. split; [by split_and!|]. split_and!; [done..|lia].
  - rewrite (proj2 (checked_add_Some USIZE_MAX (bytes a) n _)) by (split; [done|lia]). cbn [mbind option_bind].
    rewrite (proj2 (checked_add_Some USIZE_MAX (bytes_for a ip) n _)) by (split; [done|lia]). cbn [mbind option_bind].
    do 2 eexists. split; [done|]. cbn. split; [done|]. unfold inv; cbn.
    split_and!; [done|constructor; [cbn; lia|done]|lia|lia|]. intros ip'. specialize (Ha ip'). destruct Ha as [Ha1 Ha2].
    destruct (decide (ip = ip')) as [<-|Hne]; [|by rewrite lookup_insert_ne, Z.add_0_l].
    rewrite lookup_insert_eq. split; [lia|]. rewrite decide_False by lia. f_equal. lia.
Qed.

Lemma drop_permit_ok l a ps1 p ps2 : inv l (a, ps1 ++ p :: ps2) ->
  exists a', drop_permit a p = Some a' /\ inv l (a', ps1 ++ ps2).
Proof.
  intros (Hl & HF & Hb & Hle & Ha). cbn in *. pose proof HF as HF'. apply Forall_app in HF as [HF1 HF2].
  apply Forall_cons in HF2 as [Hp HF2]. rewrite held_app in Hb. cbn in Hb.
  pose proof (held_nonneg _ HF1). pose proof (held_nonneg _ HF2).
  pose proof (held_by_nonneg (address p) _ HF1). pose proof (held_by_nonneg (address p) _ HF2).
  assert (Hby : held_by (address p) (ps1 ++ p :: ps2) = size p + held_by (address p) (ps1 ++ ps2)).
  { rewrite !held_by_app. cbn. rewrite decide_True by done. lia. }
  destruct (Ha (address p)) as [Hap Hlk]. rewrite Hby in Hap, Hlk. rewrite held_by_app in Hlk.
  rewrite decide_False in Hlk by lia.
  unfold drop_permit, checked_sub. rewrite (proj2 (Z.leb_le (size p) (bytes a))) by lia. cbn [mbind option_bind].
  rewrite Hlk. cbn [mbind option_bind]. rewrite (proj2 (Z.leb_le _ _)) by lia. cbn [mbind option_bind].
  eexists. split; [done|]. unfold inv; cbn. rewrite held_app.
  split_and!; [done|by apply Forall_app|lia|lia|]. intros ip. destruct (Ha ip) as [Ha1 Ha2].
  rewrite held_by_app in *. cbn in Ha1, Ha2. pose proof (held_by_nonneg ip _ HF1). pose proof (held_by_nonneg ip _ HF2).
  destruct (decide (address p = ip)) as [<-|Hne].
  - clear Ha2. split; [lia|]. case_decide.
    + rewrite (proj2 (Z.eqb_eq _ _)) by lia. apply lookup_delete_eq.
    + rewrite (proj2 (Z.eqb_neq _ _)) by lia. rewrite lookup_insert_eq. f_equal. lia.
  - rewrite Z.add_0_l in *. split; [lia|]. rewrite <- Ha2. destruct (_ =? 0).
    + by rewrite lookup_delete_ne.
    + by rewrite lookup_insert_ne.
Qed.

Lemma reachable_inv l s : limits_ok l -> reachable l s -> inv l s.
Proof.
  intros Hl Hr. induction Hr as [|s s' Hr IH Hst].
  - unfold limits_ok in Hl. split_and!; [done|constructor|done|cbn; lia|]. intros ip. cbn. split; [lia|]. by rewrite lookup_empty.
  - destruct Hst as [a a' ps ip n p Hn Ht|a a' ps ip n Hn Ht|a a' ps1 p ps2 Hd].
    + destruct (frame_reserve_ok l a ps ip n Hl IH Hn) as (r & a2 & Ht' & Hi). rewrite Ht in Ht'. simplify_eq. by destruct Hi.
    + destruct (frame_reserve_ok l a ps ip n Hl IH Hn) as (r & a2 & Ht' & Hi). rewrite Ht in Ht'. simplify_eq. by destruct Hi.
    + destruct (drop_permit_ok l a ps1 p ps2 IH) as (a2 & Hd' & Hi). by simplify_eq.
Qed.

(** In every reachable state of the frame budget the global and per-address byte
    counts are the sums over the live permits and within their limits; with no permit
    left the budget is as new, up to the saturation counter. *)
Theorem frame_budget_bounds (l : FrameLimits) (a : Accounting) (ps : list FramePermit)
  (Hl : limits_ok l) (Hr : reachable l (a, ps)) :
  bytes a = held ps /\ bytes a <= global_bytes l /\
  (forall ip, bytes_for a ip = held_by ip ps /\ bytes_for a ip <= per_address_bytes l) /\
  (ps = [] -> a = mk l 0 ∅ (saturations a)).
Proof.
  pose proof (reachable_inv l _ Hl Hr) as Hinv. pose proof (fun ip => bytes_for_held l a ps ip Hinv) as Hbf.
  destruct Hinv as (Hlim & HF & Hb & Hle & Ha). cbn in *. split_and!; [done..| |].
  - intros ip. rewrite Hbf. split; [done|apply Ha].
  - intros ->. destruct a as [al ab aa asat]. cbn in *. subst. f_equal. apply map_eq. intros ip.
    rewrite lookup_empty. by rewrite (proj2 (Ha ip)).
Qed.

(** In every reachable state of the frame budget dropping a live permit does not
    panic, and a reservation succeeds exactly when it keeps both the global and the
    address's bytes within their limits. *)
Theorem frame_budget_total (l : FrameLimits) (a : Accounting) (ps : list FramePermit) (Hl : limits_ok l)
  (Hr : reachable l (a, ps)) :
  (forall p, p ∈ ps -> is_Some (drop_permit a p)) /\
  (forall ip n, 0 < n <= USIZE_MAX -> exists r a', try_reserve a ip n = Some (r, a') /\
     (is_ok r = true <-> bytes a + n <= global_bytes l /\ bytes_for a ip + n <= per_address_bytes l)).
Proof.
  pose proof (reachable_inv l _ Hl Hr) as Hinv. split.
  - intros p (ps1 & ps2 & ->)%list_elem_of_split. destruct (drop_permit_ok l a ps1 p ps2 Hinv) as (a' & -> & _). done.
  - intros ip n Hn. destruct (frame_reserve_ok l a ps ip n Hl Hinv Hn) as (r & a' & Ht & Hi). exists r, a'. split; [done|].
    pose proof (bytes_for_held l a ps ip Hinv) as Hbf. destruct r as [p|[]]; cbn.
    + destruct Hi as [-> Hi]. destruct Hinv as (_ & _ & Hb & _), Hi as (_ & _ & Hb' & Hle & Ha). specialize (Ha ip). cbn in *.
      rewrite decide_True in Ha by done. split; [|done]. intros _. rewrite Hbf, Hb. split; [rewrite Hb' in Hle|]; lia.
    + split; [done|]. lia.
Qed.

End Budget.
Arguments Accounting IpAddr {_ _}.
Arguments FramePermit : clear implicits.
End FrameBudget.
