(* ===== verification/PeerWire.v ===== *)
(** * The peer-to-peer wire format: [crates/nano-p2p/src/wire.rs]

    A message is a signed preamble of fixed size and a frame: the list of its
    relayers and a payload. A reading has [None] as the error of a panic, as in
    [Nakamoto]; an outer [option] is [None] where the code panics. A [String] is
    its UTF-8 bytes. *)

From S2P Require Import Prelude Primitives CodecIO Crypto TxData TxCodec.
From S2P Require Import Nakamoto FrameBudget.

(** ** Constants *)

Definition PREAMBLE_LEN : Z := 4 + 4 + 4 + 8 + 32 + 8 + 32 + 4 + 65 + 4.
Definition MAX_PAYLOAD_LEN : Z := (1 + 16 * 1024 * 1024) + 16 * (38 + 4).
Definition MAX_WIRE_MESSAGE_LEN : Z := PREAMBLE_LEN + MAX_PAYLOAD_LEN.
Definition MIN_PAYLOAD_LEN : Z := 5.
Definition MAX_RELAYERS : Z := 16.
Definition MAX_NEIGHBORS : Z := 128.
Definition MAX_PUSHED_BLOCKS : Z := 32.
Definition MAX_URL_LEN : Z := 128.
(** [CONTRACT_NAME_LEN]: [1..=40]. *)
Definition CONTRACT_NAME_MIN : Z := 1.
Definition CONTRACT_NAME_MAX : Z := 40.
Definition STABLE_CONFIRMATIONS : Z := 7.

Inductive WireError : Type :=
| WireEndOfInput
| WireLength
| FrameLength (length : Z)
| UnstableView
| UnknownMessage (id : byte)
| InvalidUtf8
| InvalidContractName
| PayloadTooLong (length : Z)
| DuplicateBlock
| WireBlock (e : NakamotoCodecError)
| WireTransaction (e : CodecError)
| WireBitVec (e : BitVec.BitVecError)
| WireSignature (e : CryptoError).

#[export] Instance WireError_read : ReadError (option WireError) :=
  {| length_error := Some WireLength; end_error := Some WireEndOfInput |}.

Abbreviation WireM := (ReaderE (option WireError)).

(** ** Addresses *)

(** [std::net::IpAddr], as octets. *)
Inductive IpAddr : Type := V4 (octets : list byte) | V6 (octets : list byte).

Definition PeerAddress : Type := list byte.

(** [Ipv4Addr::to_ipv6_mapped]: [::ffff:a.b.c.d]. *)
Definition mapped_prefix : list byte := replicate 10 0%u8 ++ [255; 255]%u8.

Definition from_ip (address : IpAddr) : PeerAddress :=
  match address with
  | V4 octets => mapped_prefix ++ octets
  | V6 octets => octets
  end.

Definition to_ip (address : PeerAddress) : IpAddr :=
  if decide (take 12 address = mapped_prefix) then V4 (drop 12 address) else V6 address.

Record NeighborAddress : Type := mkNeighbor {
  nb_address : PeerAddress;
  nb_port : Z;
  nb_public_key_hash : Hash160;
}.

Record Handshake : Type := mkHandshake {
  hs_address : PeerAddress;
  hs_port : Z;
  hs_services : Z;
  hs_public_key : list byte;
  hs_expire_bitcoin_height : Z;
  hs_data_url : list byte;
}.

Record HandshakeAccept : Type := mkAccept {
  ac_handshake : Handshake;
  ac_heartbeat_interval : Z;
}.

Record ContractId : Type := mkContractId { ci_version : byte; ci_hash : Hash160; ci_name : list byte }.

Record StackerDbHandshake : Type := mkStackerDb {
  sd_reward_cycle_consensus_hash : ConsensusHash;
  sd_contracts : list ContractId;
}.

Record NatPunch : Type := mkNatPunch { np_address : PeerAddress; np_port : Z; np_nonce : Z }.

Record RelayData : Type := mkRelayData { rl_peer : NeighborAddress; rl_seq : Z }.

(** ** Payloads *)

Module Payload.

Inductive t : Type :=
| Handshake (handshake : Handshake)
| HandshakeAccept (accept : HandshakeAccept)
| HandshakeReject
| GetNeighbors
| Neighbors (neighbors : list NeighborAddress)
| Transaction (transaction : Transaction)
| Nack (word : Z)
| Ping (word : Z)
| Pong (word : Z)
| NatPunchRequest (word : Z)
| NatPunchReply (punch : NatPunch)
| StackerDbHandshakeAccept (accept : HandshakeAccept) (stackerdb : StackerDbHandshake)
| GetNakamotoInventory (consensus_hash : ConsensusHash)
| NakamotoInventory (tenures : BitVec.t)
| NakamotoBlocks (blocks : list NakamotoBlock)
| Unhandled (id : byte).

Definition id (p : t) : byte :=
  match p with
  | Handshake _ => 0
  | HandshakeAccept _ => 1
  | HandshakeReject => 2
  | GetNeighbors => 3
  | Neighbors _ => 4
  | Transaction _ => 13
  | Nack _ => 14
  | Ping _ => 15
  | Pong _ => 16
  | NatPunchRequest _ => 17
  | NatPunchReply _ => 18
  | StackerDbHandshakeAccept _ _ => 19
  | GetNakamotoInventory _ => 26
  | NakamotoInventory _ => 27
  | NakamotoBlocks _ => 28
  | Unhandled id => id
  end%u8.

(** [id::UNHANDLED]. *)
Definition UNHANDLED : list byte := [5; 6; 7; 8; 9; 10; 11; 12; 21; 22; 23; 24; 25]%u8.

End Payload.

(** ** Strings *)

Definition in_range (lo hi : Z) (b : byte) : bool := (lo <=? u8 b) && (u8 b <=? hi).
Definition continuation : byte -> bool := in_range 0x80 0xBF.

(** [String::from_utf8]: the well-formed byte sequences of Unicode. *)
Fixpoint utf8_valid (s : list byte) : bool :=
  match s with
  | [] => true
  | b0 :: s1 =>
      if in_range 0 0x7F b0 then utf8_valid s1 else
      match s1 with
      | [] => false
      | b1 :: s2 =>
          if in_range 0xC2 0xDF b0 then continuation b1 && utf8_valid s2 else
          match s2 with
          | [] => false
          | b2 :: s3 =>
              if in_range 0xE0 0xE0 b0 then in_range 0xA0 0xBF b1 && continuation b2 && utf8_valid s3
              else if in_range 0xED 0xED b0 then in_range 0x80 0x9F b1 && continuation b2 && utf8_valid s3
              else if in_range 0xE1 0xEF b0 then continuation b1 && continuation b2 && utf8_valid s3
              else
              match s3 with
              | [] => false
              | b3 :: s4 =>
                  if in_range 0xF0 0xF0 b0 then
                    in_range 0x90 0xBF b1 && continuation b2 && continuation b3 && utf8_valid s4
                  else if in_range 0xF1 0xF3 b0 then
                    continuation b1 && continuation b2 && continuation b3 && utf8_valid s4
                  else if in_range 0xF4 0xF4 b0 then
                    in_range 0x80 0x8F b1 && continuation b2 && continuation b3 && utf8_valid s4
                  else false
              end
          end
      end
  end.

(** [Reader::short_string]. *)
Definition read_short_string (maximum : Z) : WireM (list byte) :=
  length ← Reader.byte;
  if maximum <? u8 length then fail (Some WireLength) else
  s ← Reader.take (u8 length);
  if negb (utf8_valid s) then fail (Some InvalidUtf8) else mret s.

(** [Writer::short_string]: the length is clamped to 255, not refused. *)
Definition write_short_string (value : list byte) : WriterM :=
  Writer.byte (byte_of (default U8_MAX (try_from U8_MAX (len value)))) ;;; Writer.raw value.

(** [Reader::contract_name]. *)
Definition read_peer_contract_name : WireM (list byte) :=
  name ← read_short_string CONTRACT_NAME_MAX;
  if negb ((CONTRACT_NAME_MIN <=? len name) && (len name <=? CONTRACT_NAME_MAX))
  then fail (Some InvalidContractName) else mret name.

(** ** Counted vectors and bit vectors *)

(** [Reader::count]. *)
Definition read_count (maximum : Z) : WireM Z :=
  count ← Reader.u32;
  if maximum <? count then fail (Some WireLength) else
  lift (or_err (try_from USIZE_MAX count) (Some WireLength)).

(** [Reader::vector]. *)
Definition read_vector {A} (maximum : Z) (item : WireM A) : WireM (list A) :=
  count ← read_count maximum;
  Reader.many (Z.to_nat count) item.

(** [Reader::bit_vec]: the byte count is read ahead of the bytes it counts. *)
Definition peek_data_len : WireM Z := fun r =>
  if len (rd_bytes r) <? rd_offset r then Err (Some WireEndOfInput) else
  match get_range (drop (Z.to_nat (rd_offset r)) (rd_bytes r)) 2 6 with
  | None => Err (Some WireEndOfInput)
  | Some bytes => Ok (from_be_bytes bytes, r)
  end.

Definition read_bits (max : Z) : WireM BitVec.t :=
  data_len ← peek_data_len;
  data_len ← lift (or_err (try_from USIZE_MAX data_len) (Some WireLength));
  total ← lift (or_err (checked_add USIZE_MAX data_len 6) (Some WireLength));
  wire ← Reader.take total;
  lift (match BitVec.from_wire_bytes max wire with
        | Some (Ok v) => Ok v
        | Some (Err e) => Err (Some (WireBitVec e))
        | None => Err None
        end).

(** ** Parts of payloads *)

Definition write_handshake (h : Handshake) : WriterM :=
  Writer.raw (hs_address h) ;;;
  Writer.u16 (hs_port h) ;;;
  Writer.u16 (hs_services h) ;;;
  Writer.raw (hs_public_key h) ;;;
  Writer.u64 (hs_expire_bitcoin_height h) ;;;
  write_short_string (hs_data_url h).

Definition read_handshake : WireM Handshake :=
  address ← Reader.take 16;
  port ← Reader.u16;
  services ← Reader.u16;
  public_key ← Reader.take 33;
  expire_bitcoin_height ← Reader.u64;
  data_url ← read_short_string MAX_URL_LEN;
  mret (mkHandshake address port services public_key expire_bitcoin_height data_url).

Definition write_accept (a : HandshakeAccept) : WriterM :=
  write_handshake (ac_handshake a) ;;;
  Writer.u32 (ac_heartbeat_interval a).

Definition read_accept : WireM HandshakeAccept :=
  handshake ← read_handshake;
  heartbeat_interval ← Reader.u32;
  mret (mkAccept handshake heartbeat_interval).

Definition write_neighbor (n : NeighborAddress) : WriterM :=
  Writer.raw (nb_address n) ;;;
  Writer.u16 (nb_port n) ;;;
  Writer.raw (nb_public_key_hash n).

Definition read_neighbor : WireM NeighborAddress :=
  address ← Reader.take 16;
  port ← Reader.u16;
  public_key_hash ← Reader.take 20;
  mret (mkNeighbor address port public_key_hash).

Definition write_relay_data (d : RelayData) : WriterM :=
  write_neighbor (rl_peer d) ;;;
  Writer.u32 (rl_seq d).

Definition read_relay_data : WireM RelayData :=
  peer ← read_neighbor;
  seq ← Reader.u32;
  mret (mkRelayData peer seq).

Definition write_contract_id (c : ContractId) : WriterM :=
  Writer.byte (ci_version c) ;;;
  Writer.raw (ci_hash c) ;;;
  write_short_string (ci_name c).

Definition read_contract_id : WireM ContractId :=
  version ← Reader.byte;
  hash ← Reader.take 20;
  name ← read_peer_contract_name;
  mret (mkContractId version hash name).

(** The count is one byte; it is clamped to 255, not refused. *)
Definition write_stackerdb (d : StackerDbHandshake) : WriterM :=
  Writer.raw (sd_reward_cycle_consensus_hash d) ;;;
  Writer.byte (byte_of (default U8_MAX (try_from U8_MAX (len (sd_contracts d))))) ;;;
  Writer.each write_contract_id (sd_contracts d).

Definition read_stackerdb : WireM StackerDbHandshake :=
  reward_cycle_consensus_hash ← Reader.take 20;
  count ← Reader.byte;
  contracts ← Reader.many (Z.to_nat (u8 count)) read_contract_id;
  mret (mkStackerDb reward_cycle_consensus_hash contracts).

Definition write_punch (p : NatPunch) : WriterM :=
  Writer.raw (np_address p) ;;;
  Writer.u16 (np_port p) ;;;
  Writer.u32 (np_nonce p).

Definition read_punch : WireM NatPunch :=
  address ← Reader.take 16;
  port ← Reader.u16;
  nonce ← Reader.u32;
  mret (mkNatPunch address port nonce).

(** ** Frames *)

Section Frames.
Context `{HS : Hashes} `{ED : Edwards}.

(** [blocks.iter().any(|seen| seen.block_id() == block.block_id())]. *)
Fixpoint seen_before (blocks : list NakamotoBlock) (block : NakamotoBlock) : option bool :=
  match blocks with
  | [] => Some false
  | seen :: rest =>
      a ← block_id seen;
      b ← block_id block;
      if decide (a = b) then Some true else seen_before rest block
  end.

Definition read_block_prefix : WireM NakamotoBlock := Reader.prefix WireBlock decode_prefix.

(** The loop of [read_pushed_blocks]; [blocks] are those read so far. *)
Fixpoint read_blocks (n : nat) (blocks : list NakamotoBlock) : WireM (list NakamotoBlock) :=
  match n with
  | O => mret blocks
  | S n =>
      block ← read_block_prefix;
      duplicate ← lift (or_err (seen_before blocks block) None);
      if (duplicate : bool) then fail (Some DuplicateBlock) else read_blocks n (blocks ++ [block])
  end.

Definition read_pushed_blocks : WireM (list NakamotoBlock) :=
  count ← read_count MAX_PUSHED_BLOCKS;
  read_blocks (Z.to_nat count) [].

Definition write_block (b : NakamotoBlock) : WriterM := fun w =>
  bytes ← encode_block b; Writer.raw bytes w.

Definition encode_peer_payload_body (p : Payload.t) : WriterM :=
  match p with
  | Payload.HandshakeReject | Payload.GetNeighbors | Payload.Unhandled _ => wskip
  | Payload.Handshake handshake => write_handshake handshake
  | Payload.HandshakeAccept accept => write_accept accept
  | Payload.Neighbors neighbors => write_vec write_neighbor neighbors
  | Payload.Transaction transaction => write_encoded transaction
  | Payload.Nack word | Payload.Ping word | Payload.Pong word | Payload.NatPunchRequest word => Writer.u32 word
  | Payload.NatPunchReply punch => write_punch punch
  | Payload.StackerDbHandshakeAccept accept stackerdb => write_accept accept ;;; write_stackerdb stackerdb
  | Payload.GetNakamotoInventory consensus_hash => Writer.raw consensus_hash
  | Payload.NakamotoInventory tenures => write_bit_vec tenures
  | Payload.NakamotoBlocks blocks => write_vec write_block blocks
  end.

Definition encode_peer_payload (p : Payload.t) : WriterM :=
  Writer.byte (Payload.id p) ;;; encode_peer_payload_body p.

Definition read_peer_transaction : WireM Transaction :=
  Reader.prefix WireTransaction (fun bytes => Some (decode_transaction bytes)).

Definition decode_peer_payload : WireM Payload.t :=
  id ← Reader.byte;
  match Byte.to_N id with
  | 0 => h ← read_handshake; mret (Payload.Handshake h)
  | 1 => a ← read_accept; mret (Payload.HandshakeAccept a)
  | 2 => mret Payload.HandshakeReject
  | 3 => mret Payload.GetNeighbors
  | 4 => l ← read_vector MAX_NEIGHBORS read_neighbor; mret (Payload.Neighbors l)
  | 13 => tx ← read_peer_transaction; mret (Payload.Transaction tx)
  | 14 => w ← Reader.u32; mret (Payload.Nack w)
  | 15 => w ← Reader.u32; mret (Payload.Ping w)
  | 16 => w ← Reader.u32; mret (Payload.Pong w)
  | 17 => w ← Reader.u32; mret (Payload.NatPunchRequest w)
  | 18 => p ← read_punch; mret (Payload.NatPunchReply p)
  | 19 => a ← read_accept; d ← read_stackerdb; mret (Payload.StackerDbHandshakeAccept a d)
  | 26 => h ← Reader.take 20; mret (Payload.GetNakamotoInventory h)
  | 27 => v ← read_bits 2100; mret (Payload.NakamotoInventory v)
  | 28 => l ← read_pushed_blocks; mret (Payload.NakamotoBlocks l)
  | _ =>
      if decide (id ∈ Payload.UNHANDLED) then mret (Payload.Unhandled id)
      else fail (Some (UnknownMessage id))
  end%N.

Definition encode_frame (relayers : list RelayData) (payload : Payload.t) : option (result WireError (list byte)) :=
  match payload with
  | Payload.Unhandled id => Some (Err (UnknownMessage id))
  | _ => Ok <$> Writer.finish (write_vec write_relay_data relayers ;;; encode_peer_payload payload)
  end.

(** The readings of [Message::decode]. *)
Definition read_frame : WireM (list RelayData * Payload.t) :=
  relayers ← read_vector MAX_RELAYERS read_relay_data;
  payload ← decode_peer_payload;
  mret (relayers, payload).

End Frames.

(** ** Preambles *)

Record ChainView : Type := mkView {
  vw_height : Z;
  vw_hash : list byte;
  vw_stable_height : Z;
  vw_stable_hash : list byte;
}.

Definition with_stable_confirmations (height : Z) (hash stable_hash : list byte) (stable_confirmations : Z)
  : option ChainView :=
  stable_height ← checked_sub height stable_confirmations;
  Some (mkView height hash stable_height stable_hash).

Definition chain_view_new (height : Z) (hash stable_hash : list byte) : option ChainView :=
  with_stable_confirmations height hash stable_hash STABLE_CONFIRMATIONS.

Module Preamble.

Record t : Type := mk {
  peer_version : Z;
  network_id : Z;
  seq : Z;
  bitcoin_height : Z;
  bitcoin_hash : list byte;
  stable_bitcoin_height : Z;
  stable_bitcoin_hash : list byte;
  additional_data : Z;
  signature : list byte;
  payload_len : Z;
}.

Definition encode_into (p : t) : WriterM :=
  Writer.u32 (peer_version p) ;;;
  Writer.u32 (network_id p) ;;;
  Writer.u32 (seq p) ;;;
  Writer.u64 (bitcoin_height p) ;;;
  Writer.raw (bitcoin_hash p) ;;;
  Writer.u64 (stable_bitcoin_height p) ;;;
  Writer.raw (stable_bitcoin_hash p) ;;;
  Writer.u32 (additional_data p) ;;;
  Writer.raw (signature p) ;;;
  Writer.u32 (payload_len p).

Definition encode (p : t) : option (list byte) := Writer.finish (encode_into p).

Definition read : WireM t :=
  peer_version ← Reader.u32;
  network_id ← Reader.u32;
  seq ← Reader.u32;
  bitcoin_height ← Reader.u64;
  bitcoin_hash ← Reader.take 32;
  stable_bitcoin_height ← Reader.u64;
  stable_bitcoin_hash ← Reader.take 32;
  additional_data ← Reader.u32;
  signature ← Reader.take 65;
  payload_len ← Reader.u32;
  mret (mk peer_version network_id seq bitcoin_height bitcoin_hash stable_bitcoin_height stable_bitcoin_hash
          additional_data signature payload_len).

Definition decode (bytes : list byte) : option (result WireError t) :=
  p ← settle (read (Reader.new bytes));
  Some (
    let? (preamble, _) := p in
    if (payload_len preamble <? MIN_PAYLOAD_LEN) || (MAX_PAYLOAD_LEN <? payload_len preamble)
    then Err (FrameLength (payload_len preamble))
    else if bitcoin_height preamble <=? stable_bitcoin_height preamble then Err UnstableView
    else Ok preamble).

Definition set_signature (s : list byte) (p : t) : t :=
  mk (peer_version p) (network_id p) (seq p) (bitcoin_height p) (bitcoin_hash p) (stable_bitcoin_height p)
    (stable_bitcoin_hash p) (additional_data p) s (payload_len p).

(** The bytes hashed by [digest]. *)
Definition preimage (p : t) (frame : list byte) : option (list byte) :=
  bytes ← encode (set_signature (replicate 65 0%u8) p);
  Some (bytes ++ frame).

Definition digest `{HS : Hashes} (p : t) (frame : list byte) : option (list byte) :=
  sha512_256 <$> preimage p frame.

End Preamble.

(** ** Messages *)

Module Message.

Record t : Type := mk {
  preamble : Preamble.t;
  relayers : list RelayData;
  payload : Payload.t;
  frame : list byte;
  frame_permit : option (FrameBudget.FramePermit IpAddr);
}.

Section Ops.
Context `{HS : Hashes} `{ED : Edwards} `{SECP : Secp256k1}.

Definition relay (peer_version network_id : Z) (view : ChainView) (seq : Z) (relayers : list RelayData)
  (payload : Payload.t) (private_key : secp_sk) : option (result WireError t) :=
  encoded ← encode_frame relayers payload;
  match encoded with
  | Err e => Some (Err e)
  | Ok frame =>
      match try_from U32_MAX (len frame) with
      | None => Some (Err (PayloadTooLong (len frame)))
      | Some payload_len =>
          if MAX_PAYLOAD_LEN <? payload_len then Some (Err (PayloadTooLong (len frame))) else
          let preamble := Preamble.mk peer_version network_id seq (vw_height view) (vw_hash view)
            (vw_stable_height view) (vw_stable_hash view) 0 (replicate 65 0%u8) payload_len in
          digest ← Preamble.digest preamble frame;
          let preamble := Preamble.set_signature (StacksPrivateKey.sign private_key digest) preamble in
          Some (Ok (mk preamble relayers payload frame None))
      end
  end.

Definition sign (peer_version network_id : Z) (view : ChainView) (seq : Z) (payload : Payload.t)
  (private_key : secp_sk) : option (result WireError t) :=
  relay peer_version network_id view seq [] payload private_key.

Definition decode (preamble : Preamble.t) (frame : list byte) : option (result WireError t) :=
  p ← settle (read_frame (Reader.new frame));
  Some (let? ((relayers, payload), _) := p in Ok (mk preamble relayers payload frame None)).

Definition verify (m : t) (public_key : secp_pk) : option (result WireError unit) :=
  digest ← Preamble.digest (preamble m) (frame m);
  Some (match StacksPublicKey.verify_signer public_key digest (Preamble.signature (preamble m)) with
        | Ok u => Ok u
        | Err e => Err (WireSignature e)
        end).

Definition signer (m : t) : option (result WireError secp_pk) :=
  digest ← Preamble.digest (preamble m) (frame m);
  Some (match MessageSignature.recover (Preamble.signature (preamble m)) digest with
        | Ok k => Ok k
        | Err e => Err (WireSignature e)
        end).

Definition encode (m : t) : option (list byte) :=
  bytes ← Preamble.encode (preamble m);
  Some (bytes ++ frame m).

Definition wire_len (m : t) : Z := PREAMBLE_LEN + len (frame m).

Definition hold_frame_permit (permit : FrameBudget.FramePermit IpAddr) (m : t) : t :=
  mk (preamble m) (relayers m) (payload m) (frame m) (Some permit).

End Ops.
End Message.
