(* ===== verification/PeerWireTheorems.v ===== *)
(** * Theorems about peer-to-peer messages

    Every part of a payload without transactions is a [Wire] type. Payloads that
    carry transactions or blocks are read up to the version bytes of the
    transactions, so the contract of a whole frame relates the payload to the
    bytes it was read from. *)

From S2P Require Import Prelude Primitives CodecIO Crypto TxData TxCodec TxWire.
From S2P Require Import TxTheorems TxAuth TxAuthTheorems Nakamoto NakamotoTheorems PeerWire.

(** ** Strings, counts and bit vectors *)

Definition short_ok (maximum : Z) (s : list byte) : Prop := len s <= maximum /\ utf8_valid s = true.

Lemma clamp_len {A} (l : list A) : len l <= U8_MAX -> default U8_MAX (try_from U8_MAX (len l)) = len l.
Proof. intros Hl. by rewrite (proj2 (try_from_Some U8_MAX (len l) (len l))). Qed.

Lemma short_string_wire maximum : 0 <= maximum <= U8_MAX ->
  Wire (read_short_string maximum) write_short_string (short_ok maximum).
Proof.
  intros Hmax. unfold U8_MAX in Hmax. split.
  - intros r s r' Hok H. unfold read_short_string in H. apply bind_ok in H as (n & r1 & Hn & H). wire_steps.
    destruct (Z.ltb_spec maximum (u8 n)) as [|Hle]; [done|]. pose proof (u8_range n) as Hu.
    apply bind_ok in H as (s' & r2 & Hs & H). apply take_ok in Hs as (R' & Hlen & _); [|lia]. reader_inv H.
    split; [split; [lia|done]|]. eexists. split; [|by eapply reads_trans]. unfold write_short_string.
    apply emits_seq; [|apply emits_raw]. rewrite clamp_len, Hlen, byte_of_u8 by (unfold U8_MAX; lia). done.
  - intros s [Hlen Hu]. unfold write_short_string, read_short_string. rewrite clamp_len by (unfold U8_MAX; lia).
    eapply codec_at_bind; [by apply wire_complete|]. rewrite u8_byte_of, Z.mod_small by lia.
    rewrite (proj2 (Z.ltb_ge _ _)) by lia. eapply codec_at_last.
    + exists s. split; [apply emits_raw|]. intros r r' Hf R. by apply take_reads.
    + intros r. by rewrite Hu.
Qed.
#[export] Instance url_wire : Wire (read_short_string MAX_URL_LEN) write_short_string (short_ok MAX_URL_LEN).
Proof. by apply short_string_wire. Qed.
#[export] Instance name_string_wire : Wire (read_short_string CONTRACT_NAME_MAX) write_short_string (short_ok CONTRACT_NAME_MAX).
Proof. by apply short_string_wire. Qed.

Definition name_ok (s : list byte) : Prop := 1 <= len s <= CONTRACT_NAME_MAX /\ utf8_valid s = true.

#[export] Instance contract_name_wire : Wire read_peer_contract_name write_short_string name_ok.
Proof.
  unfold read_peer_contract_name. split.
  - intros r s r' Hok H. apply bind_ok in H as (s' & r1 & Hs & H). wire_steps. reader_inv H. destruct Hv.
    apply andb_true_iff in Hc as [?%Z.leb_le ?%Z.leb_le]. split; [done|]. wire_finish.
  - intros s [Hl Hu]. eapply codec_at_last; [apply wire_complete; split; [lia|done]|]. intros r.
    by rewrite !(proj2 (Z.leb_le _ _)) by (unfold CONTRACT_NAME_MIN; lia).
Qed.

Lemma read_vector_eq {A} maximum (item : WireM A) : maximum <= U32_MAX ->
  forall r, read_vector maximum item r = Reader.vec (fun count _ => maximum <? count) item r.
Proof.
  intros Hmax r. unfold read_vector, read_count, Reader.vec.
  unfold mbind, ReaderE_bind. destruct (Reader.u32 r) as [[n r1]|e]; [|done].
  unfold lift, Reader.bounded, fail, or_err. destruct (Z.ltb_spec maximum n) as [Hn|Hn].
  - destruct (try_from USIZE_MAX n) as [n'|] eqn:Ht; [|done]. apply try_from_Some in Ht as [-> _].
    by rewrite (proj2 (Z.ltb_lt _ _)) by lia.
  - rewrite (proj2 (try_from_Some USIZE_MAX n n)) by (unfold USIZE_MAX, U64_MAX, U32_MAX in *; lia).
    by rewrite (proj2 (Z.ltb_ge _ _)) by lia.
Qed.

Lemma vector_wire {A} maximum (rd : WireM A) wr valid `{!Wire rd wr valid} : maximum <= U32_MAX ->
  Wire (read_vector maximum rd) (write_vec wr) (fun xs => len xs <= maximum /\ Forall valid xs).
Proof.
  intros Hmax. split.
  - intros r xs r' Hok H. unfold read_vector, read_count in H. apply bind_ok in H as (c & r1 & Hc & H).
    apply bind_ok in Hc as (n & r0 & Hn & Hc). wire_steps. destruct (Z.ltb_spec maximum n) as [|Hle]; [done|].
    unfold lift, or_err in Hc. destruct (try_from USIZE_MAX n) as [n'|] eqn:Ht; [|done]. apply try_from_Some in Ht as [-> _].
    injection Hc as -> ->. destruct (many_sound rd wr valid _ _ _ _ ltac:(eassumption) H) as (Hl & HF & bs & E' & R').
    assert (c = len xs) as -> by word_lia. split; [done|]. eexists. split; [|by eapply reads_trans].
    apply emits_seq; [|done]. rewrite (emits_det _ _ _ E (emits_raw _)). by apply count_u32.
  - intros xs [Hl HF]. assert (Hu : is_u32 (len xs)) by (unfold is_u32; lia).
    destruct (vec_complete rd wr valid (fun count _ => maximum <? count) xs wire_complete Hu HF) as (bs & E & C).
    exists bs. split; [done|]. intros r r' Hf R. rewrite read_vector_eq by done. apply C; [done..|]. by apply Z.ltb_ge.
Qed.

Lemma inventory_size_ok : 0 <= 2100 <= U16_MAX.
Proof. done. Qed.

Lemma peek_data_len_ok r n r' : peek_data_len r = Ok (n, r') -> r' = r /\ 0 <= n.
Proof.
  unfold peek_data_len. destruct (_ <? _); [done|]. destruct (get_range _ _ _) as [b|]; [|done].
  intros [= <- <-]. split; [done|]. by apply from_be_bytes_range.
Qed.

Lemma peek_data_len_reads r r' (head tail : list byte) n : is_u32 n -> length head = 2%nat ->
  reads r (head ++ to_be_bytes 4 n ++ tail) r' -> peek_data_len r = Ok (n, r).
Proof.
  intros Hn Hh R. pose proof (reads_ok _ _ _ R) as [Hok _]. apply reads_drop in R. apply reads_new_inv in R as (rest & Hd & _).
  unfold peek_data_len, reader_ok in *. rewrite (proj2 (Z.ltb_ge _ _)), Hd by lia.
  rewrite (proj2 (get_range_Some _ 2 6 (to_be_bytes 4 n))).
  - rewrite from_to_be_bytes; [done|]. unfold is_u32, U32_MAX in Hn. cbn. lia.
  - exists head, (tail ++ rest). split; [by rewrite <- !app_assoc|]. length_lia.
Qed.

#[export] Instance bits_wire : Wire (read_bits 2100) write_bit_vec (BitVec.wf 2100).
Proof.
  split.
  - intros r v r' Hok H. unfold read_bits in H. apply bind_ok in H as (n & r0 & Hp & H). apply peek_data_len_ok in Hp as [-> Hn].
    apply bind_ok in H as (n' & r1 & Hm & H). unfold lift, or_err in Hm. destruct (try_from _ n) as [m|] eqn:Ht; [|done].
    apply try_from_Some in Ht as [-> _]. injection Hm as -> ->.
    apply bind_ok in H as (t & r2 & Hm & H). unfold lift, or_err in Hm. destruct (checked_add _ _ _) as [m|] eqn:Ht; [|done].
    apply checked_add_Some in Ht as [-> _]. injection Hm as <- ->.
    apply bind_ok in H as (w & r3 & Hm & H). apply take_ok in Hm as (R & _); [|lia]. unfold lift in H.
    destruct (from_wire_bytes_sound 2100 inventory_size_ok w) as (o & Ho & Hs). rewrite Ho in H. destruct o as [v'|e]; [|done].
    injection H as -> ->. destruct (Hs v eq_refl) as [Hwf Hw]. split; [done|]. exists w. split; [by apply emits_bit_vec|done].
  - intros v Hv. destruct (wire_bytes_parse 2100 inventory_size_ok v Hv) as (w & Hw & Hlen & Hp).
    exists w. split; [by apply emits_bit_vec|]. intros r r' Hf R. unfold read_bits.
    rewrite (wire_bytes_eq 2100 v Hv) in Hw by done. apply (inj Some) in Hw.
    pose proof (BitVec.wf_data_u32 2100 v Hv ltac:(done)) as Hd. apply try_from_Some in Hd as [_ Hd].
    assert (Hu : is_u32 (len (BitVec.data v))) by (unfold is_u32; lia).
    rewrite (bind_run _ _ _ (len (BitVec.data v)) r); [|eapply peek_data_len_reads; [done| |by rewrite Hw]; length_lia].
    rewrite lift_usize_ok by done. pose proof (reads_ok _ _ _ R) as [_ [_ Hok]].
    rewrite (proj2 (checked_add_Some USIZE_MAX _ 6 (len w))) by (split; [lia|]; unfold is_u32, U32_MAX in Hu; unfold USIZE_MAX, U64_MAX; lia).
    cbn [or_err]. rewrite (bind_run _ _ _ (len w) r) by done. rewrite (bind_run _ _ _ w r') by (by apply take_reads). by rewrite Hp.
Qed.

(** ** Parts of payloads *)

Definition handshake_ok (h : Handshake) : Prop :=
  len (hs_address h) = 16 /\ is_u16 (hs_port h) /\ is_u16 (hs_services h) /\ len (hs_public_key h) = 33 /\
  is_u64 (hs_expire_bitcoin_height h) /\ short_ok MAX_URL_LEN (hs_data_url h).

Definition accept_ok (a : HandshakeAccept) : Prop :=
  handshake_ok (ac_handshake a) /\ is_u32 (ac_heartbeat_interval a).

Definition neighbor_ok (n : NeighborAddress) : Prop :=
  len (nb_address n) = 16 /\ is_u16 (nb_port n) /\ len (nb_public_key_hash n) = 20.

Definition relay_data_ok (d : RelayData) : Prop := neighbor_ok (rl_peer d) /\ is_u32 (rl_seq d).

Definition contract_id_ok (c : ContractId) : Prop := len (ci_hash c) = 20 /\ name_ok (ci_name c).

Definition stackerdb_ok (d : StackerDbHandshake) : Prop :=
  len (sd_reward_cycle_consensus_hash d) = 20 /\ len (sd_contracts d) <= U8_MAX /\ Forall contract_id_ok (sd_contracts d).

Definition punch_ok (p : NatPunch) : Prop := len (np_address p) = 16 /\ is_u16 (np_port p) /\ is_u32 (np_nonce p).

Ltac record_wire rd wr ok :=
  split;
  [ let r := fresh "r" in let x := fresh "x" in let r' := fresh "r'" in let Hok := fresh "Hok" in let H := fresh "H" in
    intros r x r' Hok H; unfold rd in H; reader_inv H; wire_steps;
    split; [unfold ok; cbn -[len]; tauto|unfold wr; cbn [hs_address hs_port hs_services hs_public_key hs_expire_bitcoin_height
      hs_data_url ac_handshake ac_heartbeat_interval nb_address nb_port nb_public_key_hash rl_peer rl_seq ci_version ci_hash
      ci_name np_address np_port np_nonce]; wire_finish]
  | let x := fresh "x" in let Hx := fresh "Hx" in
    intros x Hx; unfold ok in Hx; destruct x; cbn -[len] in Hx; unfold wr, rd; cbn -[len]; wire_at ].

#[export] Instance handshake_wire : Wire read_handshake write_handshake handshake_ok.
Proof. record_wire read_handshake write_handshake handshake_ok. Qed.
#[export] Instance accept_wire : Wire read_accept write_accept accept_ok.
Proof. record_wire read_accept write_accept accept_ok. Qed.
#[export] Instance neighbor_wire : Wire read_neighbor write_neighbor neighbor_ok.
Proof. record_wire read_neighbor write_neighbor neighbor_ok. Qed.
#[export] Instance relay_data_wire : Wire read_relay_data write_relay_data relay_data_ok.
Proof. record_wire read_relay_data write_relay_data relay_data_ok. Qed.
#[export] Instance contract_id_wire : Wire read_contract_id write_contract_id contract_id_ok.
Proof. record_wire read_contract_id write_contract_id contract_id_ok. Qed.
#[export] Instance punch_wire : Wire read_punch write_punch punch_ok.
Proof. record_wire read_punch write_punch punch_ok. Qed.
#[export] Instance relayers_wire : Wire (read_vector MAX_RELAYERS read_relay_data) (write_vec write_relay_data)
  (fun l => len l <= MAX_RELAYERS /\ Forall relay_data_ok l).
Proof. by apply vector_wire; [apply _|]. Qed.
#[export] Instance neighbors_wire : Wire (read_vector MAX_NEIGHBORS read_neighbor) (write_vec write_neighbor)
  (fun l => len l <= MAX_NEIGHBORS /\ Forall neighbor_ok l).
Proof. by apply vector_wire; [apply _|]. Qed.

#[export] Instance stackerdb_wire : Wire read_stackerdb write_stackerdb stackerdb_ok.
Proof.
  split.
  - intros r x r' Hok H. unfold read_stackerdb in H. apply bind_ok in H as (h & r1 & Hm & H). wire_steps.
    apply bind_ok in H as (n & r2 & Hm & H). wire_steps. apply bind_ok in H as (l & r3 & Hm & H). reader_inv H.
    destruct (many_sound _ _ contract_id_ok _ _ _ _ ltac:(eassumption) Hm) as (Hl & HF & bs & Eb & Rb).
    pose proof (u8_range n) as Hu. assert (Hn : len l = u8 n) by lia.
    split; [split; [done|]; split; [cbn; unfold U8_MAX; lia|done]|]. unfold write_stackerdb. cbn [sd_reward_cycle_consensus_hash sd_contracts].
    rewrite clamp_len, Hn, byte_of_u8 by (unfold U8_MAX; lia). wire_finish.
  - intros [h l] (Hh & Hl & HF). cbn in Hh, Hl, HF. unfold write_stackerdb, read_stackerdb. cbn [sd_reward_cycle_consensus_hash sd_contracts].
    rewrite clamp_len by done. unfold U8_MAX in Hl. eapply codec_at_bind; [by apply wire_complete|]. eapply codec_at_bind; [by apply wire_complete|].
    rewrite u8_byte_of, Z.mod_small, Nat2Z.id by lia. eapply codec_at_last; [|done]. apply (many_complete _ _ contract_id_ok); [|done].
    apply wire_complete.
Qed.

(** ** Pushed blocks *)

Section Frames.
Context `{HS : Hashes} `{HO : !HashesOk} `{ED : Edwards}.

Definition pushed_ok (blocks : list NakamotoBlock) : Prop :=
  len blocks <= MAX_PUSHED_BLOCKS /\ Forall block_ok blocks /\ NoDup (map block_id blocks).

Lemma seen_before_eq blocks b : Forall block_ok blocks -> block_ok b ->
  seen_before blocks b = Some (bool_decide (block_id b ∈ map block_id blocks)).
Proof.
  intros HF [Hb _]. destruct (block_id_total _ Hb) as [id Hid]. change (block_id b = Some id) in Hid.
  induction HF as [|c l [Hc _] _ IH]; [done|]. destruct (block_id_total _ Hc) as [idc Hidc]. change (block_id c = Some idc) in Hidc.
  cbn [seen_before map]. rewrite Hidc, Hid in *. cbn [mbind option_bind]. destruct (decide (idc = id)) as [->|Heq].
  - by rewrite bool_decide_eq_true_2 by left.
  - rewrite IH. f_equal. apply bool_decide_ext. rewrite elem_of_cons. split; [auto|]. by intros [[= ->]|].
Qed.

Lemma block_from_ok blocks raws : Forall2 block_from blocks raws -> Forall block_ok blocks.
Proof. induction 1 as [|b raw bs raws [? _] _ IH]; by constructor. Qed.

Lemma decode_prefix_from bytes b n : decode_prefix bytes = Some (Ok (b, n)) ->
  exists raw rest, block_from b raw /\ bytes = raw ++ rest /\ n = len raw.
Proof. intros Hd. destruct (decode_prefix_spec bytes) as (r & Hr & Hs). rewrite Hd in Hr. injection Hr as <-. by apply Hs. Qed.

Lemma read_blocks_sound n acc r l r' : Forall block_ok acc -> NoDup (map block_id acc) -> reader_ok r ->
  read_blocks n acc r = Ok (l, r') -> exists new raws, l = acc ++ new /\ length new = n /\ Forall2 block_from new raws /\
    NoDup (map block_id l) /\ reads r (concat raws) r'.
Proof.
  revert acc r. induction n as [|n IH]; intros acc r HF Hnd Hok H; cbn [read_blocks] in H.
  { reader_inv H. exists [], []. rewrite app_nil_r. split_and!; [done..|constructor|done|by apply reads_nil]. }
  apply bind_ok in H as (b & r1 & Hb & H). unfold read_block_prefix in Hb. apply (prefix_reads _ _ _ _ _ _ decode_prefix_from) in Hb as (raw & Hfrom & R).
  pose proof Hfrom as [Hbok _]. rewrite (seen_before_eq acc b HF Hbok) in H. change (lift _) with (lift (E := option WireError) (Ok (bool_decide (block_id b ∈ map block_id acc)))) in H.
  apply bind_ok in H as (dup & r2 & Hd & H). injection Hd as <- <-. case_bool_decide as Hin; [done|].
  apply IH in H as (new & raws & -> & Hl & HF2 & Hnd' & R').
  - exists (b :: new), (raw :: raws). rewrite <- app_assoc in *. split_and!; [done|cbn; lia|by constructor|done|by eapply reads_trans].
  - apply Forall_app. split; [done|]. by constructor.
  - rewrite map_app. apply NoDup_app. split; [done|]. split; [|apply NoDup_singleton].
    intros x Hx Hx'. apply list_elem_of_singleton in Hx'. by subst x.
  - by apply reads_ok in R as [_ ?].
Qed.

Definition no_pox_block (b : NakamotoBlock) : Prop := Forall (fun tx => no_pox tx = true) (bl_transactions b).

Lemma block_prefix_codec b : block_ok b -> no_pox_block b -> codec_at (write_block b) read_block_prefix b.
Proof.
  intros Hb Hp. destruct (decode_prefix_complete b Hb Hp) as (bs & He & Hd). apply (prefix_codec _ _ _ bs); [|done].
  intros w. unfold write_block. by rewrite He.
Qed.

Lemma read_blocks_codec acc new : Forall block_ok (acc ++ new) -> Forall no_pox_block new -> NoDup (map block_id (acc ++ new)) ->
  codec_at (Writer.each write_block new) (read_blocks (length new) acc) (acc ++ new).
Proof.
  revert acc. induction new as [|b new IH]; intros acc HF Hp Hnd; cbn [Writer.each read_blocks length].
  { rewrite app_nil_r. apply codec_at_ret. }
  apply Forall_app in HF as HF'. destruct HF' as [HFa HFb]. apply Forall_cons in HFb as [Hb HFn]. apply Forall_cons in Hp as [Hpb Hpn].
  eapply codec_at_bind; [by apply block_prefix_codec|]. rewrite seen_before_eq by done. eapply codec_at_lift; [reflexivity|].
  rewrite bool_decide_eq_false_2.
  - specialize (IH (acc ++ [b])). rewrite <- app_assoc in IH. by apply IH.
  - rewrite map_app in Hnd. apply NoDup_app in Hnd as (_ & Hnd & _). intros Hin. apply (Hnd _ Hin). left.
Qed.

Lemma read_count_eq {A} maximum n (k : Z -> WireM A) r r' : n <= maximum -> is_u32 n -> fits r -> reads r (to_be_bytes 4 n) r' ->
  (read_count maximum ≫= k) r = k n r'.
Proof.
  intros Hle Hu Hf R. rewrite (bind_run _ _ _ n r'); [done|]. unfold read_count.
  destruct (wire_complete (rd := Reader.u32 (E := option WireError)) n Hu) as (b & E & C). rewrite (emits_det _ _ _ E (emits_raw _)) in C.
  rewrite (bind_run _ _ _ _ _ (C _ _ Hf R)), (proj2 (Z.ltb_ge _ _)) by lia. unfold lift, or_err.
  rewrite (proj2 (try_from_Some USIZE_MAX n n)); [done|]. unfold is_u32, U32_MAX, USIZE_MAX, U64_MAX in *. split; [done|lia].
Qed.

Lemma pushed_codec blocks : pushed_ok blocks -> Forall no_pox_block blocks ->
  codec_at (write_vec write_block blocks) read_pushed_blocks blocks.
Proof.
  intros (Hl & HF & Hnd) Hp. destruct (read_blocks_codec [] blocks HF Hp Hnd) as (bs & E & C).
  assert (Hu : is_u32 (len blocks)) by (unfold is_u32, U32_MAX, MAX_PUSHED_BLOCKS in *; lia).
  exists (to_be_bytes 4 (len blocks) ++ bs). split; [apply emits_seq; [by apply count_u32|done]|].
  intros r r' Hf R. apply reads_split in R as (r1 & R1 & R2). unfold read_pushed_blocks.
  rewrite (read_count_eq _ (len blocks) _ r r1), Nat2Z.id by done. apply C; [by eapply reads_fits|done].
Qed.

(** ** Payloads *)

Definition payload_ok (p : Payload.t) : Prop :=
  match p with
  | Payload.Handshake h => handshake_ok h
  | Payload.HandshakeAccept a => accept_ok a
  | Payload.HandshakeReject | Payload.GetNeighbors => True
  | Payload.Neighbors l => len l <= MAX_NEIGHBORS /\ Forall neighbor_ok l
  | Payload.Transaction tx => block_transaction_ok tx
  | Payload.Nack w | Payload.Ping w | Payload.Pong w | Payload.NatPunchRequest w => is_u32 w
  | Payload.NatPunchReply p => punch_ok p
  | Payload.StackerDbHandshakeAccept a d => accept_ok a /\ stackerdb_ok d
  | Payload.GetNakamotoInventory h => len h = 20
  | Payload.NakamotoInventory v => BitVec.wf 2100 v
  | Payload.NakamotoBlocks l => pushed_ok l
  | Payload.Unhandled id => id ∈ Payload.UNHANDLED
  end.

(** The payload was read from [raw]: its own encoding, but for the version bytes of
    transactions and for a message that is recognised and not modelled, of which
    the identifier alone is read. *)
Definition payload_from (p : Payload.t) (raw : list byte) : Prop :=
  payload_ok p /\
  match p with
  | Payload.Transaction tx => exists t, raw = Payload.id p :: t /\ decoded_from tx t
  | Payload.NakamotoBlocks l => exists raws,
      raw = Payload.id p :: to_be_bytes 4 (len l) ++ concat raws /\ Forall2 block_from l raws
  | _ => emits (encode_peer_payload p) raw
  end.

Definition no_pox_payload (p : Payload.t) : Prop :=
  match p with
  | Payload.Transaction tx => no_pox tx = true
  | Payload.NakamotoBlocks l => Forall no_pox_block l
  | _ => True
  end.

Definition handled (p : Payload.t) : Prop := match p with Payload.Unhandled _ => False | _ => True end.

Lemma pushed_sound r l r' : reader_ok r -> read_pushed_blocks r = Ok (l, r') ->
  pushed_ok l /\ exists raws, Forall2 block_from l raws /\ reads r (to_be_bytes 4 (len l) ++ concat raws) r'.
Proof.
  intros Hok H. unfold read_pushed_blocks, read_count in H. apply bind_ok in H as (n & r1 & Hn & H).
  apply bind_ok in Hn as (m & r2 & Hm & Hn). wire_steps. destruct (Z.ltb_spec MAX_PUSHED_BLOCKS m) as [|Hle]; [done|].
  unfold lift, or_err in Hn. destruct (try_from _ m) as [m'|] eqn:Ht; [|done]. apply try_from_Some in Ht as [-> _].
  injection Hn as -> ->. apply read_blocks_sound in H as (new & raws & -> & Hl & HF & Hnd & R'); [|constructor|constructor|done].
  cbn [app] in *. assert (n = len new) as -> by word_lia. split; [split_and!; [done|by eapply block_from_ok|done]|].
  exists raws. split; [done|]. rewrite (emits_det _ _ _ E (emits_raw _)) in R. by eapply reads_trans.
Qed.

(** The bytes a payload is encoded to: its identifier and its body. *)
Lemma emits_payload p body : emits (encode_peer_payload_body p) body -> emits (encode_peer_payload p) (Payload.id p :: body).
Proof. intros E. apply (emits_seq _ _ [_]); [apply emits_raw|done]. Qed.

Ltac payload_part H Hone :=
  reader_inv H; wire_steps; eexists; split;
  [split; [cbn; tauto|apply emits_payload; unfold encode_peer_payload_body; emits_tac]|apply Hone; reads_tac].

Lemma decode_peer_payload_sound r p r' : reader_ok r -> decode_peer_payload r = Ok (p, r') ->
  exists raw, payload_from p raw /\ reads r raw r'.
Proof.
  intros Hok H. unfold decode_peer_payload in H. apply bind_ok in H as (id & r1 & Hid & H). wire_steps.
  rewrite (emits_det _ _ _ E (emits_raw _)) in R. clear E. assert (Hone : forall body, reads r1 body r' -> reads r (id :: body) r').
  { intros body Rb. by apply (reads_trans _ [id] r1). }
  assert (Hempty : r' = r1 -> reads r [id] r') by by intros ->.
  destruct id; try discriminate H; cbn [Byte.to_N] in H; try solve [payload_part H Hone];
    try (destruct (decide _) as [Hin|]; [|discriminate H]; reader_inv H; eexists; split;
      [split; [exact Hin|apply emits_payload, emits_skip]|by apply Hempty]);
    try (reader_inv H; eexists; split; [split; [done|apply emits_payload, emits_skip]|by apply Hempty]).
  - reader_inv H. apply (prefix_reads _ _ _ _ _ _ decode_decoded_from) in Hm as (t & Ht & Rt).
    exists (13%u8 :: t). split; [|by apply Hone]. split; [|by exists t]. destruct Ht as (? & ? & _). by split.
  - reader_inv H. apply pushed_sound in Hm as (Hp & raws & HF & Rb); [|done].
    eexists. split; [split; [exact Hp|by exists raws]|]. by apply Hone.
Qed.

Lemma peer_transaction_codec tx : block_transaction_ok tx -> no_pox tx = true -> codec_at (write_encoded tx) read_peer_transaction tx.
Proof.
  intros [Htx He] Hp. apply (prefix_codec _ _ _ (tx_bytes tx)); [by apply emits_encoded|]. intros rest Hl.
  destruct (decode_no_pox tx Htx Hp) as (bs & He' & Hd). assert (bs = tx_bytes tx) as -> by congruence. rewrite Hd by done. by destruct tx.
Qed.

Lemma payload_codec p : payload_ok p -> no_pox_payload p -> handled p -> codec_at (encode_peer_payload p) decode_peer_payload p.
Proof.
  intros Hok Hp Hh. unfold encode_peer_payload, decode_peer_payload. eapply codec_at_bind; [by apply wire_complete|].
  destruct p; cbn in Hok, Hp, Hh; cbn [Payload.id Byte.to_N encode_peer_payload_body]; try done; try wire_at; try apply codec_at_ret.
  - eapply codec_at_last; [by apply peer_transaction_codec|done].
  - eapply codec_at_last; [by apply pushed_codec|done].
Qed.

(** ** Readings do not panic *)

#[export] Instance Wire_safe_errors : SafeErrors WireError.
Proof. done. Qed.

Lemma safe_short_string maximum : safe (read_short_string maximum).
Proof.
  apply safe_bind; [auto with safe|]. intros n. destruct (_ <? _); [auto with safe|].
  apply safe_bind; [apply safe_take; pose proof (u8_range n); lia|]. intros s. destruct (negb _); auto with safe.
Qed.

Lemma safe_count maximum : safe (read_count maximum).
Proof.
  apply safe_bind; [auto with safe|]. intros n. destruct (_ <? _); [auto with safe|]. intros r Hok. unfold lift, or_err.
  by destruct (try_from _ n).
Qed.

Lemma safe_contract_name : safe read_peer_contract_name.
Proof. apply safe_bind; [apply safe_short_string|]. intros s. destruct (negb _); auto with safe. Qed.

Lemma safe_vector {A} maximum (rd : WireM A) : safe rd -> safe (read_vector maximum rd).
Proof. intros Hrd. apply safe_bind; [apply safe_count|]. intros n. by apply safe_many. Qed.

Lemma safe_lift_or {A B} (o : option A) (e : WireError) (k : A -> WireM B) :
  (forall x, o = Some x -> safe (k x)) -> safe (lift (or_err o (Some e)) ≫= k).
Proof. intros Hk r Hok. destruct o as [x|]; [|done]. by apply (Hk x eq_refl). Qed.

Lemma safe_bits : safe (read_bits 2100).
Proof.
  apply (safe_bind_post (fun n => 0 <= n)).
  - intros r Hok. destruct (peek_data_len r) as [[n r']|e] eqn:Hp; [by apply peek_data_len_ok in Hp as [-> _]|].
    unfold peek_data_len in Hp. destruct (_ <? _); [by simplify_eq|destruct (get_range _ _ _); by simplify_eq].
  - intros r n r' _ Hp. by apply peek_data_len_ok in Hp as [_ ?].
  - intros n Hn. apply safe_lift_or. intros m [-> _]%try_from_Some. apply safe_lift_or. intros m [-> _]%checked_add_Some.
    apply safe_bind; [apply safe_take; lia|]. intros w r Hok.
    destruct (from_wire_bytes_sound 2100 inventory_size_ok w) as (o & -> & _). by destruct o.
Qed.

Lemma safe_blocks n acc : Forall block_ok acc -> safe (read_blocks n acc).
Proof.
  revert acc. induction n as [|n IH]; intros acc HF; cbn [read_blocks]; [auto with safe|].
  apply (safe_bind_post block_ok).
  - apply safe_prefix. intros b. destruct (decode_prefix_spec b) as (o & -> & Hs). destruct o as [[x k]|]; [|done].
    destruct (Hs x k eq_refl) as (raw & rest & _ & _ & ->). lia.
  - intros r b r' _ H. apply (prefix_reads _ _ _ _ _ _ decode_prefix_from) in H as (raw & [Hb _] & _). done.
  - intros b Hb. rewrite seen_before_eq by done. apply safe_bind; [by intros r Hok|]. intros [|]; [auto with safe|].
    apply IH, Forall_app. split; [done|]. by constructor.
Qed.

Lemma safe_handshake : safe read_handshake.
Proof. unfold read_handshake. auto 10 using safe_short_string with safe. Qed.
Lemma safe_accept : safe read_accept.
Proof. unfold read_accept. auto using safe_handshake with safe. Qed.
Lemma safe_neighbor : safe read_neighbor.
Proof. unfold read_neighbor. auto 10 with safe. Qed.
Lemma safe_stackerdb : safe read_stackerdb.
Proof. unfold read_stackerdb, read_contract_id. auto 12 using safe_contract_name with safe. Qed.
Lemma safe_pushed : safe read_pushed_blocks.
Proof. apply safe_bind; [apply safe_count|]. intros n. by apply safe_blocks. Qed.
Lemma safe_peer_transaction : safe read_peer_transaction.
Proof. apply safe_prefix, decode_transaction_safe. Qed.
Lemma safe_punch : safe read_punch.
Proof. unfold read_punch. auto 10 with safe. Qed.

Lemma safe_payload : safe decode_peer_payload.
Proof.
  apply safe_bind; [auto with safe|]. intros id. repeat case_match;
    auto using safe_handshake, safe_accept, safe_neighbor, safe_stackerdb, safe_pushed, safe_peer_transaction, safe_punch,
      safe_vector, safe_bits with safe.
Qed.

Lemma safe_frame : safe read_frame.
Proof.
  apply safe_bind; [apply safe_vector; unfold read_relay_data; auto using safe_neighbor with safe|]. intros l.
  apply safe_bind; [apply safe_payload|]. intros p. apply safe_ret.
Qed.

(** ** Messages *)

(** The payload carries no transaction and is one nano models. *)
Definition exact_payload (p : Payload.t) : Prop :=
  match p with Payload.Transaction _ | Payload.NakamotoBlocks _ | Payload.Unhandled _ => False | _ => True end.

Lemma encode_frame_eq relayers p bs : handled p ->
  emits (write_vec write_relay_data relayers ;;; encode_peer_payload p) bs -> encode_frame relayers p = Some (Ok bs).
Proof. intros Hh E. unfold encode_frame. rewrite (emits_finish _ _ E). by destruct p. Qed.

(** Message::decode never panics; an accepted message has at most 16 relayers,
    all well-formed, a well-formed payload, and keeps the frame, which begins with the
    relayers' encoding and the bytes of the payload, and is its exact re-encoding when
    the payload carries no transactions. *)
Theorem message_decode_sound (preamble : Preamble.t) (frame : list byte) :
  exists r, Message.decode preamble frame = Some r /\ forall m, r = Ok m ->
    Message.preamble m = preamble /\ Message.frame m = frame /\
    len (Message.relayers m) <= MAX_RELAYERS /\ Forall relay_data_ok (Message.relayers m) /\
    exists hb raw rest, emits (write_vec write_relay_data (Message.relayers m)) hb /\
      payload_from (Message.payload m) raw /\ frame = hb ++ raw ++ rest /\
      (exact_payload (Message.payload m) -> encode_frame (Message.relayers m) (Message.payload m) = Some (Ok (hb ++ raw))).
Proof.
  unfold Message.decode. assert (Hok : reader_ok (Reader.new frame)) by (unfold reader_ok; cbn; lia).
  pose proof (safe_frame (Reader.new frame) Hok) as Hsafe.
  destruct (read_frame (Reader.new frame)) as [[[relayers p] r]|[e|]] eqn:Hr; cbn; [|by eexists|done].
  eexists. split; [done|]. intros m [= <-]. cbn [Message.preamble Message.frame Message.relayers Message.payload].
  unfold read_frame in Hr. apply bind_ok in Hr as (l & r1 & Hl & Hr). destruct (wire_sound _ _ _ Hok Hl) as ([Hlen HF] & hb & E & R).
  apply bind_ok in Hr as (p' & r2 & Hp & Hr). reader_inv Hr.
  apply decode_peer_payload_sound in Hp as (raw & Hfrom & R'); [|by apply reads_ok in R as [_ ?]].
  pose proof (reads_trans _ _ _ _ _ R R') as R2. apply reads_new_inv in R2 as (rest & Hf & _).
  do 4 (split; [done|]). exists hb, raw, rest. split; [done|]. split; [done|]. split; [by rewrite app_assoc|].
  intros He. apply encode_frame_eq; [by destruct p|]. apply emits_seq; [done|]. destruct Hfrom as [_ Hfrom]. by destruct p.
Qed.

Lemma frame_codec relayers p : len relayers <= MAX_RELAYERS -> Forall relay_data_ok relayers -> payload_ok p -> no_pox_payload p ->
  handled p -> exists bs, encode_frame relayers p = Some (Ok bs) /\ MIN_PAYLOAD_LEN <= len bs /\
    (len bs <= USIZE_MAX -> settle (read_frame (Reader.new bs)) = Some (Ok ((relayers, p), mkReader bs (len bs)))).
Proof.
  intros Hl HF Hp Hpox Hh. destruct (wire_complete (rd := read_vector MAX_RELAYERS read_relay_data) relayers (conj Hl HF)) as (b1 & E1 & C1).
  destruct (payload_codec p Hp Hpox Hh) as (b2 & E2 & C2). exists (b1 ++ b2). split; [|split].
  - apply encode_frame_eq; [done|]. by apply emits_seq.
  - assert (4 <= len b1).
    { specialize (E1 []). unfold write_vec, wseq, Writer.count in E1. destruct (try_from _ _) as [n|]; [|done].
      cbn -[to_be_bytes] in E1. destruct (many_complete read_relay_data write_relay_data relay_data_ok relayers wire_complete HF) as (b3 & E3 & _).
      rewrite E3 in E1. injection E1 as <-. length_lia. }
    assert (1 <= len b2).
    { destruct b2; [|cbn; lia]. specialize (C2 (Reader.new []) (Reader.new []) ltac:(done) (reads_new [] [] [] eq_refl)). discriminate C2. }
    unfold MIN_PAYLOAD_LEN. rewrite length_app. lia.
  - intros Hu. assert (R : reads (Reader.new (b1 ++ b2)) (b1 ++ b2) (mkReader (b1 ++ b2) (len (b1 ++ b2)))).
    { apply (reads_new _ _ []). by rewrite app_nil_r. }
    apply reads_split in R as (r1 & R1 & R2). unfold read_frame. rewrite (bind_run _ _ _ relayers r1) by (by apply C1).
    rewrite (bind_run _ _ _ p _ (C2 _ _ (reads_fits _ _ _ R1 Hu) R2)). done.
Qed.

Definition preamble_ok (p : Preamble.t) : Prop :=
  is_u32 (Preamble.peer_version p) /\ is_u32 (Preamble.network_id p) /\ is_u32 (Preamble.seq p) /\
  is_u64 (Preamble.bitcoin_height p) /\ len (Preamble.bitcoin_hash p) = 32 /\
  is_u64 (Preamble.stable_bitcoin_height p) /\ len (Preamble.stable_bitcoin_hash p) = 32 /\
  is_u32 (Preamble.additional_data p) /\ len (Preamble.signature p) = 65 /\ is_u32 (Preamble.payload_len p).

#[export] Instance preamble_wire : Wire Preamble.read Preamble.encode_into preamble_ok.
Proof.
  split.
  - intros r x r' Hok H. unfold Preamble.read in H. reader_inv H. wire_steps. split; [unfold preamble_ok; cbn -[len]; tauto|].
    unfold Preamble.encode_into. cbn [Preamble.peer_version Preamble.network_id Preamble.seq Preamble.bitcoin_height
      Preamble.bitcoin_hash Preamble.stable_bitcoin_height Preamble.stable_bitcoin_hash Preamble.additional_data
      Preamble.signature Preamble.payload_len]. wire_finish.
  - intros [] Hx. unfold preamble_ok in Hx. cbn -[len] in Hx. unfold Preamble.encode_into, Preamble.read. cbn -[len]. wire_at.
Qed.

Lemma encode_preamble p : preamble_ok p -> exists bs, Preamble.encode p = Some bs /\ len bs = PREAMBLE_LEN.
Proof.
  intros (H1 & H2 & H3 & H4 & H5 & H6 & H7 & H8 & H9 & H10).
  eexists. split; [apply emits_finish; unfold Preamble.encode_into; repeat apply emits_seq; apply emits_raw|].
  rewrite !length_app, !length_to_be_bytes. unfold PREAMBLE_LEN. lia.
Qed.

(** What [Preamble::decode] demands of a preamble. *)
Definition preamble_valid (p : Preamble.t) : Prop :=
  preamble_ok p /\ MIN_PAYLOAD_LEN <= Preamble.payload_len p <= MAX_PAYLOAD_LEN /\
  Preamble.stable_bitcoin_height p < Preamble.bitcoin_height p.

Lemma preamble_decode p bs : preamble_valid p -> Preamble.encode p = Some bs -> Preamble.decode bs = Some (Ok p).
Proof.
  intros (Hok & Hlen & Hh) He. destruct (wire_complete p Hok) as (b & E & C). pose proof (emits_finish _ _ E) as Hf.
  unfold Preamble.encode in He. rewrite Hf in He. injection He as ->. destruct (encode_preamble p Hok) as (b' & He' & Hl).
  unfold Preamble.encode in He'. rewrite Hf in He'. injection He' as <-.
  unfold Preamble.decode. rewrite (C (Reader.new bs) (mkReader bs (len bs))).
  - cbn [settle mbind option_bind]. rewrite !(proj2 (Z.ltb_ge _ _)), (proj2 (Z.leb_gt _ _)) by lia. done.
  - unfold fits. cbn. rewrite Hl. done.
  - apply (reads_new _ _ []). by rewrite app_nil_r.
Qed.

End Frames.

Section Signed.
Context `{HS : Hashes} `{HO : !HashesOk} `{ED : Edwards} `{SECP : Secp256k1} `{SO : !Secp256k1Ok}.

Definition view_ok (v : ChainView) : Prop :=
  is_u64 (vw_height v) /\ len (vw_hash v) = 32 /\ is_u64 (vw_stable_height v) /\ len (vw_stable_hash v) = 32 /\
  vw_stable_height v < vw_height v.

(** The preamble of a message nano signs, before it is signed. *)
Definition unsigned (peer_version network_id seq : Z) (v : ChainView) (payload_len : Z) : Preamble.t :=
  Preamble.mk peer_version network_id seq (vw_height v) (vw_hash v) (vw_stable_height v) (vw_stable_hash v) 0
    (replicate 65 0%u8) payload_len.

Lemma unsigned_valid peer_version network_id seq v n signature : is_u32 peer_version -> is_u32 network_id -> is_u32 seq ->
  view_ok v -> MIN_PAYLOAD_LEN <= n <= MAX_PAYLOAD_LEN -> len signature = 65 ->
  preamble_valid (Preamble.set_signature signature (unsigned peer_version network_id seq v n)).
Proof.
  intros H1 H2 H3 (H4 & H5 & H6 & H7 & H8) Hn Hs. split; [|split; done]. unfold preamble_ok. cbn -[len].
  assert (is_u32 n) by (unfold is_u32, U32_MAX, MIN_PAYLOAD_LEN, MAX_PAYLOAD_LEN in *; lia). by split_and!.
Qed.

Lemma relay_ok peer_version network_id seq v relayers p sk frame :
  encode_frame relayers p = Some (Ok frame) -> len frame <= MAX_PAYLOAD_LEN ->
  preamble_ok (unsigned peer_version network_id seq v (len frame)) ->
  exists digest, Preamble.digest (unsigned peer_version network_id seq v (len frame)) frame = Some digest /\
    Message.relay peer_version network_id v seq relayers p sk = Some (Ok (Message.mk
      (Preamble.set_signature (StacksPrivateKey.sign sk digest) (unsigned peer_version network_id seq v (len frame)))
      relayers p frame None)).
Proof.
  intros He Hl Hok. destruct (encode_preamble _ Hok) as (bs & Hb & _).
  assert (Hd : Preamble.digest (unsigned peer_version network_id seq v (len frame)) frame = Some (sha512_256 (bs ++ frame))).
  { unfold Preamble.digest, Preamble.preimage. change (Preamble.set_signature _ (unsigned ?a ?b ?c ?d ?e)) with (unsigned a b c d e). by rewrite Hb. }
  exists (sha512_256 (bs ++ frame)). split; [done|]. unfold Message.relay. rewrite He. cbn [mbind option_bind].
  rewrite (proj2 (try_from_Some U32_MAX _ _)) by (split; [done|]; unfold U32_MAX, MAX_PAYLOAD_LEN in *; lia).
  rewrite (proj2 (Z.ltb_ge _ _)) by done. fold (unsigned peer_version network_id seq v (len frame)). by rewrite Hd.
Qed.

Lemma signed_checks m sk digest : Preamble.digest (Message.preamble m) (Message.frame m) = Some digest ->
  Preamble.signature (Message.preamble m) = StacksPrivateKey.sign sk digest ->
  Message.verify m (StacksPrivateKey.public_key sk) = Some (Ok tt) /\
  Message.signer m = Some (Ok (StacksPrivateKey.public_key sk)).
Proof.
  intros Hd Hs. unfold Message.verify, Message.signer. rewrite Hd, Hs. cbn [mbind option_bind].
  unfold StacksPublicKey.verify_signer. rewrite recover_sign. by rewrite decide_True.
Qed.

Lemma message_encode_split m bs frame : Preamble.encode (Message.preamble m) = Some bs -> len bs = PREAMBLE_LEN -> Message.frame m = frame ->
  exists bytes, Message.encode m = Some bytes /\ len bytes = Message.wire_len m /\
    take (Z.to_nat PREAMBLE_LEN) bytes = bs /\ drop (Z.to_nat PREAMBLE_LEN) bytes = frame.
Proof.
  intros Hb Hl <-. exists (bs ++ Message.frame m). unfold Message.encode, Message.wire_len. rewrite Hb, length_app.
  split; [done|]. split; [lia|]. split; [apply take_app_length'|apply drop_app_length']; lia.
Qed.

(** A message nano builds from a well-formed payload and relayer list, unless its
    frame is too long, encodes to bytes whose first 165 decode to its preamble and
    whose rest decodes to the message, and verifies under the signing key, which
    recovery also names; a frame that is too long is refused. *)
Theorem message_roundtrip (peer_version network_id seq : Z) (v : ChainView) (relayers : list RelayData) (p : Payload.t) (sk : secp_sk)
  (Hwords : is_u32 peer_version /\ is_u32 network_id /\ is_u32 seq) (Hview : view_ok v)
  (Hrelayers : len relayers <= MAX_RELAYERS /\ Forall relay_data_ok relayers)
  (Hp : payload_ok p) (Hpox : no_pox_payload p) (Hh : handled p) :
  exists frame, encode_frame relayers p = Some (Ok frame) /\
  (MAX_PAYLOAD_LEN < len frame ->
     Message.relay peer_version network_id v seq relayers p sk = Some (Err (PayloadTooLong (len frame)))) /\
  (len frame <= MAX_PAYLOAD_LEN -> exists m bytes,
     Message.relay peer_version network_id v seq relayers p sk = Some (Ok m) /\
     Message.encode m = Some bytes /\ len bytes = Message.wire_len m /\
     Preamble.decode (take (Z.to_nat PREAMBLE_LEN) bytes) = Some (Ok (Message.preamble m)) /\
     Message.decode (Message.preamble m) (drop (Z.to_nat PREAMBLE_LEN) bytes) = Some (Ok m) /\
     Message.verify m (StacksPrivateKey.public_key sk) = Some (Ok tt) /\
     Message.signer m = Some (Ok (StacksPrivateKey.public_key sk))).
Proof.
  destruct Hwords as (H1 & H2 & H3), Hrelayers as [H4 H5].
  destruct (frame_codec relayers p H4 H5 Hp Hpox Hh) as (frame & He & Hmin & Hread). exists frame. split; [done|]. split.
  - intros Hbig. unfold Message.relay. rewrite He. cbn [mbind option_bind]. destruct (try_from _ _) as [n|] eqn:Ht; [|done].
    apply try_from_Some in Ht as [-> _]. by rewrite (proj2 (Z.ltb_lt _ _)).
  - intros Hl. pose proof (fun s => unsigned_valid peer_version network_id seq v (len frame) s H1 H2 H3 Hview (conj Hmin Hl)) as Hvalid.
    destruct (relay_ok peer_version network_id seq v relayers p sk frame He Hl) as (digest & Hd & Hr); [by apply (Hvalid (replicate 65 0%u8))|].
    pose proof (Hvalid (StacksPrivateKey.sign sk digest) ltac:(rewrite sign_length; done)) as Hok. pose proof Hok as [Hok' _].
    destruct (encode_preamble _ Hok') as (bs & Hb & Hlb).
    edestruct (message_encode_split (Message.mk _ relayers p frame None) bs frame Hb Hlb) as (bytes & Hbytes & Hlen & Ht & Hdr); [done|].
    eexists _, bytes. split; [exact Hr|]. split; [done|]. split; [done|]. rewrite Ht, Hdr. split; [by apply preamble_decode|]. split.
    + unfold Message.decode. rewrite Hread by (unfold MAX_PAYLOAD_LEN, USIZE_MAX, U64_MAX in *; lia). done.
    + by apply (signed_checks _ sk digest).
Qed.

(** The inputs hashed for the digest of a message. *)
Definition message_inputs (m : Message.t) : list (list byte) := option_list (Preamble.preimage (Message.preamble m) (Message.frame m)).

(** Two decoded messages with the same signed digest have the same preamble apart
    from the signature, the same frame, relayers and payload, when the hash has no
    collision between the two inputs. *)
Theorem message_digest_binds (p1 p2 : Preamble.t) (f1 f2 : list byte) (m1 m2 : Message.t) (digest : list byte)
  (Hok1 : preamble_ok p1) (Hok2 : preamble_ok p2)
  (Hm1 : Message.decode p1 f1 = Some (Ok m1)) (Hm2 : Message.decode p2 f2 = Some (Ok m2))
  (Hd1 : Preamble.digest p1 f1 = Some digest) (Hd2 : Preamble.digest p2 f2 = Some digest)
  (Hfree : collision_free (message_inputs m1 ++ message_inputs m2)) :
  Preamble.set_signature [] p1 = Preamble.set_signature [] p2 /\ f1 = f2 /\
  Message.relayers m1 = Message.relayers m2 /\ Message.payload m1 = Message.payload m2.
Proof.
  assert (Hdec : forall p f m, Message.decode p f = Some (Ok m) -> exists r, settle (read_frame (Reader.new f)) =
    Some (Ok ((Message.relayers m, Message.payload m), r)) /\ Message.preamble m = p /\ Message.frame m = f).
  { intros p f m. unfold Message.decode. destruct (settle _) as [[[[l q] r]|]|]; cbn; [|done..]. intros [= <-]. by exists r. }
  apply Hdec in Hm1 as (r1 & Hr1 & Hp1 & Hf1), Hm2 as (r2 & Hr2 & Hp2 & Hf2). unfold message_inputs in Hfree.
  rewrite Hp1, Hp2, Hf1, Hf2 in Hfree. unfold Preamble.digest, Preamble.preimage in *.
  assert (Hz : forall p, preamble_ok p -> preamble_ok (Preamble.set_signature (replicate 65 0%u8) p)) by (intros p; unfold preamble_ok; cbn; tauto).
  destruct (encode_preamble _ (Hz p1 Hok1)) as (b1 & Hb1 & Hl1), (encode_preamble _ (Hz p2 Hok2)) as (b2 & Hb2 & Hl2).
  rewrite Hb1, Hb2 in *. cbn in Hd1, Hd2, Hfree. assert (Heq : b1 ++ f1 = b2 ++ f2) by (apply Hfree; [set_solver..|congruence]).
  apply app_inj_1 in Heq as [<- <-]; [|lia]. split; [|split; [done|]].
  - destruct (wire_complete (rd := Preamble.read) _ (Hz p1 Hok1)) as (c1 & E1 & C1), (wire_complete (rd := Preamble.read) _ (Hz p2 Hok2)) as (c2 & E2 & C2).
    unfold Preamble.encode in *. rewrite (emits_finish _ _ E1) in Hb1. rewrite (emits_finish _ _ E2) in Hb2. injection Hb1 as ->. injection Hb2 as ->.
    pose proof (reads_new b1 b1 [] ltac:(by rewrite app_nil_r)) as R. assert (Hf : fits (Reader.new b1)) by (unfold fits; cbn; rewrite Hl1; done).
    specialize (C1 _ _ Hf R). specialize (C2 _ _ Hf R). rewrite C1 in C2.
    apply (f_equal (fun o => match o with Ok (p, _) => Preamble.set_signature [] p | Err _ => p1 end)) in C2. exact C2.
  - rewrite Hr1 in Hr2. by injection Hr2.
Qed.

End Signed.
