(* ===== verification/Relay.v ===== *)
(** * The relay's hand-off: [crates/nano-p2p/src/relay.rs]

    Two drop-oldest buffers, one of what peers pushed and one of what passed the
    checks, and the window of identifiers already relayed. The lock around them is
    [Open] or [Poisoned]: a panic while it is held poisons it, and every operation
    on a poisoned relay does nothing. [RelaySpec] is the abstract machine the
    relay refines: it remembers every announcement ever made and says which of
    them still count. *)

From stdpp Require Import gmap.
From S2P Require Import Prelude Primitives CodecIO Crypto TxData TxCodec.
From S2P Require Import TxAuth Nakamoto NakamotoTheorems Queue PeerWire.

Definition MAX_QUEUED_OFFERS : Z := 1024.
Definition MAX_QUEUED_OFFER_BYTES : Z := 32 * 1024 * 1024.
Definition MAX_REMEMBERED : Z := 4096.

Inductive Pushed : Type :=
| PushedBlock (block : NakamotoBlock)
| PushedTransaction (transaction : Transaction).

Record Offer : Type := mkOffer { of_from : option Hash160; of_data : Pushed }.

Definition offer_block (from : option Hash160) (block : NakamotoBlock) : Offer := mkOffer from (PushedBlock block).
Definition offer_transaction (from : option Hash160) (transaction : Transaction) : Offer :=
  mkOffer from (PushedTransaction transaction).

Record RelayStatus : Type := mkRelayStatus {
  rs_offered : Z;
  rs_offered_bytes : Z;
  rs_offered_item_limit : Z;
  rs_offered_byte_limit : Z;
  rs_offered_oldest_age : option Z;
  rs_offered_dropped : Z;
  rs_offered_saturations : Z;
  rs_announcing : Z;
  rs_announcing_bytes : Z;
  rs_announcing_item_limit : Z;
  rs_announcing_byte_limit : Z;
  rs_announcing_oldest_age : option Z;
  rs_announcing_dropped : Z;
  rs_announcing_saturations : Z;
  rs_dropped : Z;
  rs_saturations : Z;
}.

Record Queues : Type := mkQueues {
  q_offered : Buffer.t Offer;
  q_announcing : Buffer.t Offer;
  q_accepted : gset (list byte);
  q_remembered : list (list byte);
}.

(** [Queues::new]. *)
Definition queues_new (limits : Limits) : Queues := mkQueues (Buffer.new limits) (Buffer.new limits) ∅ [].

(** [Queues::default]. *)
Definition queues_default : option Queues :=
  queues_new <$> limits_new MAX_QUEUED_OFFERS MAX_QUEUED_OFFER_BYTES.

Section Items.
Context `{HS : Hashes} `{ED : Edwards}.

(** [Pushed::id]. *)
Definition pushed_id (p : Pushed) : option (list byte) :=
  match p with
  | PushedBlock block => block_id block
  | PushedTransaction transaction => txid transaction
  end.

(** [Pushed::consensus_len]. *)
Definition consensus_len (p : Pushed) : option Z :=
  match p with
  | PushedBlock block => b ← encode_block block; Some (len b)
  | PushedTransaction transaction =>
      match tx_bytes transaction with
      | [] => b ← encode_transaction transaction; Some (len b)
      | bytes => Some (len bytes)
      end
  end.

End Items.

(** ** Operations *)

Module Relay.

(** The lock; what a call returns is [None] when the lock is poisoned. *)
Inductive t : Type := Open (queues : Queues) | Poisoned.
Inductive outcome (A : Type) : Type := Returned (a : A) | Panicked.
Arguments Returned {A} a.
Arguments Panicked {A}.

(** [Relay::with]. *)
Definition with_queues {A} (r : t) (act : Queues -> option (A * Queues)) : outcome (option A) * t :=
  match r with
  | Poisoned => (Returned None, Poisoned)
  | Open queues =>
      match act queues with
      | Some (a, queues) => (Returned (Some a), Open queues)
      | None => (Panicked, Poisoned)
      end
  end.

Definition map_outcome {A B} (f : A -> B) (o : outcome A * t) : outcome B * t :=
  match o with
  | (Returned a, r) => (Returned (f a), r)
  | (Panicked, r) => (Panicked, r)
  end.

Section Ops.
Context `{HS : Hashes} `{ED : Edwards}.

(** The closure of [Relay::offer]. *)
Definition queue_offer (offer : Offer) (now : Z) (q : Queues) : option (unit * Queues) :=
  id ← pushed_id (of_data offer);
  if decide (id ∈ q_accepted q) then Some (tt, q) else
  bytes ← consensus_len (of_data offer);
  '(_, offered) ← Buffer.push (q_offered q) offer bytes now;
  Some (tt, mkQueues offered (q_announcing q) (q_accepted q) (q_remembered q)).

Definition offer (r : t) (o : Offer) (now : Z) : outcome unit * t :=
  map_outcome (fun _ => tt) (with_queues r (queue_offer o now)).

Definition take_offered (r : t) : outcome (list Offer) * t :=
  map_outcome (default []) (with_queues r (fun q =>
    let '(items, offered) := Buffer.take (q_offered q) in
    Some (items, mkQueues offered (q_announcing q) (q_accepted q) (q_remembered q)))).

(** [while remembered.len() > MAX_REMEMBERED { accepted.remove(&remembered.pop_front()) }]. *)
Fixpoint forget (accepted : gset (list byte)) (remembered : list (list byte)) : gset (list byte) * list (list byte) :=
  if MAX_REMEMBERED <? len remembered then
    match remembered with
    | oldest :: rest => forget (accepted ∖ {[oldest]}) rest
    | [] => (accepted, [])
    end
  else (accepted, remembered).

(** The closure of [Relay::announce]. *)
Definition queue_announce (o : Offer) (now : Z) (q : Queues) : option (unit * Queues) :=
  id ← pushed_id (of_data o);
  if decide (id ∈ q_accepted q) then Some (tt, q) else
  let '(accepted, remembered) := forget ({[id]} ∪ q_accepted q) (q_remembered q ++ [id]) in
  bytes ← consensus_len (of_data o);
  '(_, announcing) ← Buffer.push (q_announcing q) o bytes now;
  Some (tt, mkQueues (q_offered q) announcing accepted remembered).

Definition announce (r : t) (o : Offer) (now : Z) : outcome unit * t :=
  map_outcome (fun _ => tt) (with_queues r (queue_announce o now)).

Definition take_announcing (r : t) : outcome (list Offer) * t :=
  map_outcome (default []) (with_queues r (fun q =>
    let '(items, announcing) := Buffer.take (q_announcing q) in
    Some (items, mkQueues (q_offered q) announcing (q_accepted q) (q_remembered q)))).

Definition dropped (r : t) : outcome Z * t :=
  map_outcome (default 0) (with_queues r (fun q =>
    Some (saturating_add U64_MAX (Buffer.dropped (q_offered q)) (Buffer.dropped (q_announcing q)), q))).

Definition status (r : t) (now : Z) : outcome (option RelayStatus) * t :=
  with_queues r (fun q =>
    let offered := Buffer.status (q_offered q) now in
    let announcing := Buffer.status (q_announcing q) now in
    Some (mkRelayStatus
      (st_items offered) (st_bytes offered) (st_item_limit offered) (st_byte_limit offered)
      (st_oldest_age offered) (st_dropped offered) (st_saturations offered)
      (st_items announcing) (st_bytes announcing) (st_item_limit announcing) (st_byte_limit announcing)
      (st_oldest_age announcing) (st_dropped announcing) (st_saturations announcing)
      (saturating_add U64_MAX (st_dropped offered) (st_dropped announcing))
      (saturating_add U64_MAX (st_saturations offered) (st_saturations announcing)), q)).

End Ops.
End Relay.

(** [relayed_by]. *)
Definition relayed_by (m : Message.t) (us : Hash160) : bool :=
  existsb (fun relayer => bool_decide (nb_public_key_hash (rl_peer relayer) = us)) (Message.relayers m).

(** ** What the relay promises *)

Module RelaySpec.
Section Spec.
Context `{HS : Hashes} `{ED : Edwards}.

(** Every identifier ever announced, oldest first, and the two queues. *)
Record t : Type := mk { sent : list (list byte); offered : list Offer; announcing : list Offer }.

Definition init : t := mk [] [] [].

(** The announcements that still count. *)
Definition recent (s : t) : list (list byte) := drop (length (sent s) - Z.to_nat MAX_REMEMBERED) (sent s).

Definition weight (o : Offer) : Z := default 0 (consensus_len (of_data o)).
Definition weights (l : list Offer) : Z := fold_right (fun o n => weight o + n) 0 l.

Definition room (l : Limits) (w : Z) (q : list Offer) : Prop :=
  len q < lim_items l /\ weights q + w <= lim_bytes l.

(** An item joins a queue: one larger than the queue's bytes is dropped, and
    otherwise the least number of oldest items makes room for it. *)
Inductive joins (l : Limits) (o : Offer) (q : list Offer) : list Offer -> Prop :=
| joins_too_large : lim_bytes l < weight o -> joins l o q q
| joins_sheds k : room l (weight o) (drop k q) -> (forall j, (j < k)%nat -> ~ room l (weight o) (drop j q)) ->
    joins l o q (drop k q ++ [o]).

Inductive event : Type :=
| Offered (o : Offer)
| Announced (o : Offer)
| TookOffered (items : list Offer)
| TookAnnouncing (items : list Offer).

Inductive step (l : Limits) : t -> event -> t -> Prop :=
| step_offer_known s o id : pushed_id (of_data o) = Some id -> id ∈ recent s -> step l s (Offered o) s
| step_offer s o id q : pushed_id (of_data o) = Some id -> id ∉ recent s -> joins l o (offered s) q ->
    step l s (Offered o) (mk (sent s) q (announcing s))
| step_announce_known s o id : pushed_id (of_data o) = Some id -> id ∈ recent s -> step l s (Announced o) s
| step_announce s o id q : pushed_id (of_data o) = Some id -> id ∉ recent s -> joins l o (announcing s) q ->
    step l s (Announced o) (mk (sent s ++ [id]) (offered s) q)
| step_take_offered s : step l s (TookOffered (offered s)) (mk (sent s) [] (announcing s))
| step_take_announcing s : step l s (TookAnnouncing (announcing s)) (mk (sent s) (offered s) []).

Inductive steps (l : Limits) : t -> list event -> t -> Prop :=
| steps_nil s : steps l s [] s
| steps_cons s e s' es s'' : step l s e s' -> steps l s' es s'' -> steps l s (e :: es) s''.

End Spec.
End RelaySpec.

(** ** The relay run by its callers *)

Section Refinement.
Context `{HS : Hashes} `{HO : !HashesOk} `{ED : Edwards}.

Inductive relay_op : Type :=
| OpOffer (o : Offer) (now : Z)
| OpAnnounce (o : Offer) (now : Z)
| OpTakeOffered
| OpTakeAnnouncing.

(** One call, and what an observer sees of it; [None] is a panic. *)
Definition perform (r : Relay.t) (op : relay_op) : option (RelaySpec.event * Relay.t) :=
  match op with
  | OpOffer o now =>
      match Relay.offer r o now with (Relay.Returned _, r') => Some (RelaySpec.Offered o, r') | _ => None end
  | OpAnnounce o now =>
      match Relay.announce r o now with (Relay.Returned _, r') => Some (RelaySpec.Announced o, r') | _ => None end
  | OpTakeOffered =>
      match Relay.take_offered r with (Relay.Returned l, r') => Some (RelaySpec.TookOffered l, r') | _ => None end
  | OpTakeAnnouncing =>
      match Relay.take_announcing r with (Relay.Returned l, r') => Some (RelaySpec.TookAnnouncing l, r') | _ => None end
  end.

Fixpoint perform_all (r : Relay.t) (ops : list relay_op) : option (list RelaySpec.event * Relay.t) :=
  match ops with
  | [] => Some ([], r)
  | op :: ops =>
      '(e, r) ← perform r op;
      '(es, r) ← perform_all r ops;
      Some (e :: es, r)
  end.

(** An item that was decoded, or that nano built. *)
Definition item_ok (p : Pushed) : Prop :=
  match p with
  | PushedBlock b => block_ok b
  | PushedTransaction tx => block_transaction_ok tx
  end.

Definition relay_op_ok (op : relay_op) : Prop :=
  match op with OpOffer o _ | OpAnnounce o _ => item_ok (of_data o) | _ => True end.

Lemma item_id p : item_ok p -> is_Some (pushed_id p).
Proof.
  destruct p as [b|tx]; cbn; [|apply txid_some]. intros [Hb _]. by apply block_id_total.
Qed.

Lemma item_len p : item_ok p -> exists n, consensus_len p = Some n /\ 0 <= n.
Proof.
  destruct p as [b|tx]; cbn [item_ok consensus_len].
  - intros (Hh & Hu & HF & _). destruct (wire_complete (rd := read_header) _ Hh) as (hb & E & _).
    rewrite (emits_block b hb E Hu HF). cbn [mbind option_bind]. eexists. split; [done|]. lia.
  - intros [_ He]. destruct (tx_bytes tx); [rewrite He|]; eexists; (split; [done|]); cbn; lia.
Qed.

(** ** The simulation *)

(** A buffer holds the items of an abstract queue, each charged its weight. *)
Definition holds (l : Limits) (b : Buffer.t Offer) (q : list Offer) : Prop :=
  Buffer.inv b /\ Buffer.counters_ok b /\ Buffer.limits b = l /\
  map Buffer.value (Buffer.entries b) = q /\
  Forall (fun e => Buffer.size e = RelaySpec.weight (Buffer.value e)) (Buffer.entries b).

Inductive simulates (l : Limits) : Relay.t -> RelaySpec.t -> Prop :=
| simulates_open q s : holds l (q_offered q) (RelaySpec.offered s) -> holds l (q_announcing q) (RelaySpec.announcing s) ->
    q_remembered q = RelaySpec.recent s -> q_accepted q = list_to_set (RelaySpec.recent s) -> NoDup (RelaySpec.recent s) ->
    simulates l (Relay.Open q) s.

Lemma holds_new l : limits_ok l -> holds l (Buffer.new l) [].
Proof.
  intros [? ?]. unfold holds, Buffer.inv. cbn. split_and!; first [done | lia | apply Forall_nil_2].
Qed.

Lemma holds_take l b q : holds l b q -> (Buffer.take b).1 = q /\ holds l (Buffer.take b).2 [].
Proof.
  intros (Hi & Hc & <- & <- & _). split; [done|]. destruct Hi as ([? ?] & _).
  unfold holds, Buffer.inv. cbn. split_and!; first [done | lia | apply Forall_nil_2].
Qed.

Lemma holds_sizes l b q : holds l b q -> forall k, Buffer.sizes (drop k (Buffer.entries b)) = RelaySpec.weights (drop k q).
Proof.
  intros (_ & _ & _ & <- & HF) k. rewrite skipn_map. apply (Forall_drop _ k) in HF.
  induction HF as [|e es He _ IH]; [done|]. cbn [Buffer.sizes map RelaySpec.weights fold_right]. rewrite He. unfold RelaySpec.weights in IH. lia.
Qed.

Lemma holds_room l b q k w : holds l b q -> Buffer.admits l w (drop k (Buffer.entries b)) <-> RelaySpec.room l w (drop k q).
Proof.
  intros H. unfold Buffer.admits, RelaySpec.room. rewrite (holds_sizes l b q H k). destruct H as (_ & _ & _ & <- & _).
  by rewrite skipn_map, length_map.
Qed.

Lemma holds_push l b q o n now : holds l b q -> consensus_len (of_data o) = Some n -> 0 <= n ->
  exists kept b' q', Buffer.push b o n now = Some (kept, b') /\ holds l b' q' /\ RelaySpec.joins l o q q'.
Proof.
  intros H Hn Hpos. pose proof H as (Hi & Hc & Hl & Hq & HF). assert (Hw : RelaySpec.weight o = n) by (unfold RelaySpec.weight; by rewrite Hn).
  destruct (Buffer.push_ok b o n now Hi Hc Hpos) as (kept & b' & Hp & Hi' & Hc' & Hl' & Hspec). destruct kept.
  - destruct Hspec as (k & (Hk & Ha & Hmin) & He & _). exists true, b', (drop k q ++ [o]). split; [done|]. split.
    + split_and!; [done|done|congruence| |].
      * rewrite He, map_app, <- skipn_map, Hq. done.
      * rewrite He. apply Forall_app. split; [by apply Forall_drop|]. by apply Forall_singleton.
    + rewrite Hl in Ha, Hmin. constructor.
      * rewrite Hw. by apply (holds_room l b q k n H).
      * intros j Hj. rewrite Hw, <- (holds_room l b q j n H). by apply Hmin.
  - destruct Hspec as (Hbig & He & _). exists false, b', q. split; [done|]. split.
    + split_and!; [done|done|congruence|congruence|by rewrite He].
    + apply RelaySpec.joins_too_large. rewrite Hw. congruence.
Qed.

Lemma nodup_drop {A} n (l : list A) : NoDup l -> NoDup (drop n l).
Proof. rewrite <- (take_drop n l) at 1. by intros (_ & _ & ?)%NoDup_app. Qed.

(** Forgetting keeps the latest [MAX_REMEMBERED]. *)
Lemma forget_spec acc l : NoDup l -> acc = list_to_set l ->
  let kept := drop (length l - Z.to_nat MAX_REMEMBERED) l in
  Relay.forget acc l = (list_to_set kept, kept).
Proof.
  revert acc. induction l as [|x l IH]; intros acc Hnd ->; [done|]. apply NoDup_cons in Hnd as [Hx Hnd].
  cbn zeta. change (Relay.forget ?a (x :: l)) with
    (if MAX_REMEMBERED <? len (x :: l) then Relay.forget (a ∖ {[x]}) l else (a, x :: l)).
  destruct (Z.ltb_spec MAX_REMEMBERED (len (x :: l))) as [Hlt|Hge].
  - rewrite IH; [|done|].
    + cbn zeta. replace (length (x :: l) - Z.to_nat MAX_REMEMBERED)%nat with (S (length l - Z.to_nat MAX_REMEMBERED)); [done|].
      cbn [length] in *. lia.
    + apply leibniz_equiv. intros y. rewrite elem_of_difference, !elem_of_list_to_set, elem_of_cons, elem_of_singleton.
      split; [intros [[->|] Hn]; [by destruct Hn|done]|]. intros Hy. split; [auto|]. by intros ->.
  - replace (length (x :: l) - Z.to_nat MAX_REMEMBERED)%nat with 0%nat; [done|]. lia.
Qed.

Lemma recent_snoc s id q1 q2 : NoDup (RelaySpec.recent s) -> id ∉ RelaySpec.recent s ->
  Relay.forget ({[id]} ∪ list_to_set (RelaySpec.recent s)) (RelaySpec.recent s ++ [id]) =
    (list_to_set (RelaySpec.recent (RelaySpec.mk (RelaySpec.sent s ++ [id]) q1 q2)),
     RelaySpec.recent (RelaySpec.mk (RelaySpec.sent s ++ [id]) q1 q2)) /\
  NoDup (RelaySpec.recent (RelaySpec.mk (RelaySpec.sent s ++ [id]) q1 q2)).
Proof.
  intros Hnd Hid. assert (Hnd' : NoDup (RelaySpec.recent s ++ [id])).
  { apply NoDup_app. split; [done|]. split; [|apply NoDup_singleton]. intros x Hx Hx'. apply list_elem_of_singleton in Hx'. by subst x. }
  assert (Heq : RelaySpec.recent (RelaySpec.mk (RelaySpec.sent s ++ [id]) q1 q2) =
    drop (length (RelaySpec.recent s ++ [id]) - Z.to_nat MAX_REMEMBERED) (RelaySpec.recent s ++ [id])).
  { unfold RelaySpec.recent. cbn [RelaySpec.sent]. set (n := Z.to_nat MAX_REMEMBERED). rewrite !length_app, length_drop. cbn [length].
    assert (0 < n)%nat by (unfold n, MAX_REMEMBERED; lia).
    rewrite <- (drop_app_le (RelaySpec.sent s) [id] (length (RelaySpec.sent s) - n)) by lia. rewrite drop_drop. f_equal. lia. }
  rewrite Heq. split; [|by apply nodup_drop]. apply forget_spec; [done|]. rewrite list_to_set_app_L. set_solver.
Qed.

Lemma perform_simulates l r s op : simulates l r s -> relay_op_ok op ->
  exists e r' s', perform r op = Some (e, r') /\ RelaySpec.step l s e s' /\ simulates l r' s'.
Proof.
  intros Hs Hop. destruct Hs as [q s Ho Ha Hr Hacc Hnd]. destruct op as [o now|o now| |]; cbn [relay_op_ok] in Hop.
  - destruct (item_id _ Hop) as [id Hid], (item_len _ Hop) as (n & Hn & Hpos).
    cbn [perform]. unfold Relay.offer, Relay.with_queues, Relay.queue_offer. rewrite Hid, Hacc. cbn [mbind option_bind].
    case_decide as Hin; rewrite elem_of_list_to_set in Hin.
    + do 3 eexists. split; [done|]. split; [by eapply RelaySpec.step_offer_known|by constructor].
    + destruct (holds_push l _ _ o n now Ho Hn Hpos) as (kept & b' & q' & Hp & Hb' & Hj). rewrite Hn. cbn [mbind option_bind]. rewrite Hp.
      do 3 eexists. split; [done|]. split; [by eapply RelaySpec.step_offer|by constructor].
  - destruct (item_id _ Hop) as [id Hid], (item_len _ Hop) as (n & Hn & Hpos).
    cbn [perform]. unfold Relay.announce, Relay.with_queues, Relay.queue_announce. rewrite Hid, Hacc. cbn [mbind option_bind].
    case_decide as Hin; rewrite elem_of_list_to_set in Hin.
    + do 3 eexists. split; [done|]. split; [by eapply RelaySpec.step_announce_known|by constructor].
    + destruct (holds_push l _ _ o n now Ha Hn Hpos) as (kept & b' & q' & Hp & Hb' & Hj).
      destruct (recent_snoc s id (RelaySpec.offered s) q' Hnd Hin) as [Hf Hnd']. rewrite Hr, Hf, Hn. cbn [mbind option_bind]. rewrite Hp.
      do 3 eexists. split; [done|]. split; [by eapply RelaySpec.step_announce|by constructor].
  - destruct (holds_take _ _ _ Ho) as [Ht Hb]. exists (RelaySpec.TookOffered (RelaySpec.offered s)).
    do 2 eexists. split; [rewrite <- Ht; reflexivity|]. split; [constructor|by constructor].
  - destruct (holds_take _ _ _ Ha) as [Ht Hb]. exists (RelaySpec.TookAnnouncing (RelaySpec.announcing s)).
    do 2 eexists. split; [rewrite <- Ht; reflexivity|]. split; [constructor|by constructor].
Qed.

Lemma perform_all_simulates l ops r s : simulates l r s -> Forall relay_op_ok ops ->
  exists events r' s', perform_all r ops = Some (events, r') /\ RelaySpec.steps l s events s' /\ simulates l r' s'.
Proof.
  intros Hs Hops. revert r s Hs. induction Hops as [|op ops Hop _ IH]; intros r s Hs; [by exists [], r, s; split_and!; [|constructor|]|].
  destruct (perform_simulates l r s op Hs Hop) as (e & r1 & s1 & Hp & Hst & Hs1).
  destruct (IH r1 s1 Hs1) as (es & r2 & s2 & Hp2 & Hst2 & Hs2). exists (e :: es), r2, s2. cbn [perform_all].
  rewrite Hp. cbn [mbind option_bind]. rewrite Hp2. split; [done|]. split; [by econstructor|done].
Qed.

Lemma simulates_init l : limits_ok l -> simulates l (Relay.Open (queues_new l)) RelaySpec.init.
Proof. intros Hl. constructor; try by apply holds_new. all: done || apply NoDup_nil_2. Qed.

(** C18: Whatever sequence of offers, announcements and takes peers and the node make
    with well-formed items, the relay does not panic or poison its lock, and what it
    returns is a run of the abstract relay, which remembers every announcement and
    says an item still counts as relayed while fewer than 4096 others followed it. *)
Theorem relay_refines (l : Limits) (ops : list relay_op) (Hl : limits_ok l) (Hops : Forall relay_op_ok ops) :
  exists events r s, perform_all (Relay.Open (queues_new l)) ops = Some (events, r) /\
    RelaySpec.steps l RelaySpec.init events s /\ simulates l r s.
Proof. apply perform_all_simulates; [by apply simulates_init|done]. Qed.

(** ** Each item goes out once *)

(** What went out to the peers. *)
Fixpoint relayed (events : list RelaySpec.event) : list Offer :=
  match events with
  | [] => []
  | RelaySpec.TookAnnouncing items :: es => items ++ relayed es
  | _ :: es => relayed es
  end.

(** Two announcements of one identifier are more than [MAX_REMEMBERED] apart. *)
Definition spaced (ids : list (list byte)) : Prop :=
  forall i j id, (i < j)%nat -> ids !! i = Some id -> ids !! j = Some id -> (i + Z.to_nat MAX_REMEMBERED < j)%nat.

Definition ids_of (l : list Offer) : list (option (list byte)) := map (fun o => pushed_id (of_data o)) l.

(** What went out and what is about to is, in order, among what was announced. *)
Lemma steps_relayed l s events s' out : RelaySpec.steps l s events s' -> spaced (RelaySpec.sent s) ->
  ids_of (out ++ RelaySpec.announcing s) `sublist_of` map Some (RelaySpec.sent s) ->
  spaced (RelaySpec.sent s') /\
  ids_of ((out ++ relayed events) ++ RelaySpec.announcing s') `sublist_of` map Some (RelaySpec.sent s').
Proof.
  intros Hst. revert out. induction Hst as [s|s e s1 es s2 Hst _ IH]; intros out Hsp Hsub; [by rewrite app_nil_r|].
  destruct Hst as [s o id Hid Hin|s o id q Hid Hin Hj|s o id Hid Hin|s o id q Hid Hin Hj|s|s]; cbn [relayed RelaySpec.announcing RelaySpec.sent] in *.
  1-3, 5: by apply IH.
  - apply IH; clear IH.
    + intros i j x Hij Hi Hjx. apply lookup_app_Some in Hjx as [Hjx|[Hge Hjx]].
      * rewrite lookup_app_l in Hi by (apply lookup_lt_Some in Hjx; lia). by eapply Hsp.
      * apply list_lookup_singleton_Some in Hjx as [Hjz ->]. rewrite lookup_app_l in Hi by lia.
        destruct (decide (i + Z.to_nat MAX_REMEMBERED < j)%nat); [done|]. exfalso. apply Hin. unfold RelaySpec.recent.
        apply list_elem_of_lookup. exists (i - (length (RelaySpec.sent s) - Z.to_nat MAX_REMEMBERED))%nat. rewrite lookup_drop. rewrite <- Hi. f_equal. lia.
    + unfold ids_of in *. rewrite map_app in Hsub |- *. rewrite (map_app Some). destruct Hj as [Hbig|k Hroom Hmin].
      * etrans; [exact Hsub|]. by apply sublist_inserts_r.
      * rewrite map_app. rewrite app_assoc. apply sublist_app; [|cbn; rewrite Hid; done].
        etrans; [|exact Hsub]. apply sublist_app; [done|]. rewrite <- skipn_map. apply sublist_drop.
  - rewrite (app_assoc out). apply IH; [done|]. by rewrite app_nil_r.
Qed.

(** The items the relay hands out to peers are, in order, among its
    announcements, and two announcements of one identifier are more than 4096
    announcements apart. *)
Theorem relay_once (l : Limits) (ops : list relay_op) (events : list RelaySpec.event) (r : Relay.t)
  (Hl : limits_ok l) (Hops : Forall relay_op_ok ops)
  (Hrun : perform_all (Relay.Open (queues_new l)) ops = Some (events, r)) :
  exists sent, spaced sent /\ ids_of (relayed events) `sublist_of` map Some sent.
Proof.
  destruct (perform_all_simulates l ops _ _ (simulates_init l Hl) Hops) as (es & r' & s & Hp & Hst & _).
  rewrite Hrun in Hp. injection Hp as <- <-. apply (steps_relayed _ _ _ _ []) in Hst as [Hsp Hsub].
  - exists (RelaySpec.sent s). split; [done|]. etrans; [|exact Hsub]. unfold ids_of. rewrite (map_app _ ([] ++ relayed events)).
    by apply sublist_inserts_r.
  - intros i j id _ Hi. cbn in Hi. by rewrite lookup_nil in Hi.
  - done.
Qed.

End Refinement.
