(* ===== verification/SortitionRules.v ===== *)
(** * Sortition rules: schedules, keys and commitments of [crates/nano-sortition/src/lib.rs]

    What one Bitcoin block contributes to the election of a miner: the reward
    cycle its height falls in, the leader keys registered, and the commitments
    that are admissible and on time. The data of a Bitcoin block is that of
    [crates/nano-bitcoin/src/lib.rs]. An [option] result is [None] where the
    arithmetic of the code overflows. *)

From stdpp Require Import gmap.
From S2P Require Import Prelude Primitives Address Crypto.

(** ** Bitcoin blocks *)

Inductive BitcoinOperationKind : Type :=
| LeaderBlockCommit (block_header_hash new_seed : list byte) (parent_block_height parent_transaction_index
    key_block_height key_transaction_index : Z) (memo parent_modulus : byte)
| LeaderKeyRegistrationOp (consensus_hash vrf_public_key : list byte) (block_signing_key_hash : option (list byte))
    (memo : list byte)
| PreStx (sender : StacksAddress.t)
| StackStx (sender : StacksAddress.t) (reward_address : PoxAddress.t) (amount : Z) (cycles : byte)
    (signer_key : option (list byte)) (max_amount authorization_id : option Z)
| TransferStx (sender recipient : StacksAddress.t) (amount : Z) (memo : list byte)
| DelegateStx (sender delegate : StacksAddress.t) (amount : Z) (reward_address : option PoxAddress.t)
    (reward_address_output until_bitcoin_height : option Z)
| VoteForAggregateKey (sender : StacksAddress.t) (signer_index : Z) (aggregate_key : list byte) (round reward_cycle : Z).

Record BitcoinInput : Type := mkInput { in_txid : list byte; in_output_index : Z }.
Record BitcoinOutput : Type := mkOutput { out_amount_sats : Z; out_recipient : PoxAddress.t }.

Record BitcoinOperation : Type := mkOperation {
  op_txid : list byte;
  op_transaction_index : Z;
  op_inputs : list BitcoinInput;
  op_outputs : list BitcoinOutput;
  op_kind : BitcoinOperationKind;
}.

Record BitcoinBlock : Type := mkBitcoinBlock {
  bb_height : Z;
  bb_hash : list byte;
  bb_timestamp : Z;
  bb_operations : list BitcoinOperation;
}.

(** ** Errors and hashes *)

Inductive SortitionError : Type :=
| EmptyCommitmentWindow
| InvalidCommitmentWindow
| WindowTooLong
| BurnOverflow
| ZeroBurnDistribution
| ZeroRewardCycleLength
| HeightOverflow
| UnexpectedHeight (expected actual : Z)
| ReorgBeyondChainRoot (root_bitcoin_height : Z)
| ReorgTooDeep (depth limit : Z).

Definition MINING_COMMITMENT_WINDOW : Z := 6.
Definition RETAINED_COMMITMENT_BLOCKS : Z := MINING_COMMITMENT_WINDOW * 2.
Definition SNAPSHOTS_KEPT : Z := 144.
Definition BURN_BLOCK_MINED_AT_MODULUS : Z := 5.
Definition OUTPUTS_PER_COMMIT : Z := 2.

(** [OpsHash::from_txids]. *)
Definition ops_hash `{HS : Hashes} (txids : list (list byte)) : list byte := sha256 (concat txids).

Module SortitionHash.
Section Ops.
Context `{HS : Hashes}.

Definition initial : list byte := replicate 32 0%u8.
Definition mix_bitcoin_header (self header : list byte) : list byte := sha256 (self ++ header).
Definition mix_vrf_seed (self seed : list byte) : list byte := sha256 (self ++ seed).

End Ops.
End SortitionHash.

(** ** Reward cycles *)

Module RewardCycleSchedule.

Record t : Type := mk {
  first_bitcoin_height : Z;
  reward_cycle_length : Z;
  first_waterfall_height : option Z;
}.

Definition new (first_bitcoin_height reward_cycle_length : Z) (first_waterfall_height : option Z)
  : result SortitionError t :=
  if reward_cycle_length =? 0 then Err ZeroRewardCycleLength
  else Ok (mk first_bitcoin_height reward_cycle_length first_waterfall_height).

Definition offset_in_cycle (s : t) (bitcoin_height : Z) : Z :=
  saturating_sub bitcoin_height (first_bitcoin_height s) mod reward_cycle_length s.

Definition is_waterfall_at (s : t) (bitcoin_height : Z) : bool :=
  match first_waterfall_height s with Some height => height <=? bitcoin_height | None => false end.

Definition starts_at (s : t) (bitcoin_height : Z) : bool :=
  let relative_height := saturating_sub bitcoin_height (first_bitcoin_height s) in
  if is_waterfall_at s bitcoin_height
  then relative_height mod reward_cycle_length s =? 0
  else relative_height mod reward_cycle_length s =? 1.

End RewardCycleSchedule.

Module PayoutSchedule.

Record t : Type := mk {
  cycles : RewardCycleSchedule.t;
  prepare_phase_length : Z;
  waterfall_recipient : option PoxAddress.t;
  epoch_four_activation : option Z;
}.

Definition new (cycles : RewardCycleSchedule.t) (prepare_phase_length : Z) : result SortitionError t :=
  if RewardCycleSchedule.reward_cycle_length cycles <=? prepare_phase_length then Err ZeroRewardCycleLength
  else Ok (mk cycles prepare_phase_length None None).

Definition paying_waterfall_to (recipient : PoxAddress.t) (s : t) : t :=
  mk (cycles s) (prepare_phase_length s) (Some recipient) (epoch_four_activation s).

Definition activating_epoch_four_at (bitcoin_height : Z) (s : t) : t :=
  mk (cycles s) (prepare_phase_length s) (waterfall_recipient s) (Some bitcoin_height).

Definition is_in_prepare_phase (s : t) (bitcoin_height : Z) : bool :=
  if bitcoin_height <=? RewardCycleSchedule.first_bitcoin_height (cycles s) then false else
  let offset := RewardCycleSchedule.offset_in_cycle (cycles s) bitcoin_height in
  (offset =? 0) || (RewardCycleSchedule.reward_cycle_length (cycles s) - prepare_phase_length s <? offset).

Definition is_waterfall_at (s : t) (bitcoin_height : Z) : bool :=
  RewardCycleSchedule.is_waterfall_at (cycles s) bitcoin_height.

Definition outputs_at (s : t) (bitcoin_height : Z) : Z :=
  if is_waterfall_at s bitcoin_height then 1
  else if is_in_prepare_phase s bitcoin_height then 1
  else OUTPUTS_PER_COMMIT.

Definition accepts_commitment_outputs (s : t) (bitcoin_height : Z) (outputs : list BitcoinOutput) : bool :=
  match outputs with
  | [] => false
  | first :: rest =>
      if negb (0 <? out_amount_sats first) then false
      else if is_waterfall_at s bitcoin_height then
        match waterfall_recipient s with
        | Some recipient =>
            bool_decide (PoxAddress.script_pubkey recipient = PoxAddress.script_pubkey (out_recipient first))
        | None => false
        end
      else if is_in_prepare_phase s bitcoin_height then
        match PoxAddress.as_stacks_address (out_recipient first) with
        | Some address => StacksAddress.is_burn address
        | None => false
        end
      else
        match rest with
        | second :: _ => (0 <? out_amount_sats second) && (out_amount_sats second =? out_amount_sats first)
        | [] => false
        end
  end.

Definition mining_window_at (s : t) (bitcoin_height : Z) : Z :=
  if is_in_prepare_phase s bitcoin_height then 1 else
  match epoch_four_activation s with
  | Some activation =>
      if (activation <=? bitcoin_height) && (bitcoin_height - activation <=? MINING_COMMITMENT_WINDOW) then 1
      else MINING_COMMITMENT_WINDOW
  | None => MINING_COMMITMENT_WINDOW
  end.

Definition starts_reward_cycle (s : t) (bitcoin_height : Z) : bool :=
  RewardCycleSchedule.starts_at (cycles s) bitcoin_height.

End PayoutSchedule.

(** ** The PoX history *)

Module PoxId.

Definition t : Type := list bool.
Definition initial : t := [true].
Definition extend_with_anchor (p : t) (present : bool) : t := p ++ [present].
(** [b'1'] and [b'0']. *)
Definition as_consensus_bytes (p : t) : list byte := map (fun present : bool => if present then 49%u8 else 48%u8) p.

End PoxId.

Module PoxIdTracker.

Record t : Type := mk {
  schedule : RewardCycleSchedule.t;
  pox_id : PoxId.t;
  bitcoin_height : Z;
}.

Definition new (schedule : RewardCycleSchedule.t) : t :=
  mk schedule PoxId.initial (RewardCycleSchedule.first_bitcoin_height schedule).

Definition advance (p : t) (height : Z) (anchor_known : bool) : result SortitionError t :=
  let? expected := or_err (checked_add U64_MAX (bitcoin_height p) 1) HeightOverflow in
  if negb (height =? expected) then Err (UnexpectedHeight expected height) else
  Ok (mk (schedule p)
        (if RewardCycleSchedule.starts_at (schedule p) height
         then PoxId.extend_with_anchor (pox_id p) anchor_known else pox_id p) height).

(** [(height + 1..=top).filter(starts_at).count()], over [n] heights. *)
Fixpoint count_starts (s : RewardCycleSchedule.t) (height : Z) (n : nat) : Z :=
  match n with
  | O => 0
  | S n => (if RewardCycleSchedule.starts_at s (height + 1) then 1 else 0) + count_starts s (height + 1) n
  end.

Definition retract_to (p : t) (height : Z) : result SortitionError t :=
  if bitcoin_height p <? height then Err (UnexpectedHeight (bitcoin_height p) height) else
  let retracted_starts := count_starts (schedule p) height (Z.to_nat (bitcoin_height p - height)) in
  Ok (mk (schedule p) (take (Z.to_nat (saturating_sub (len (pox_id p)) retracted_starts)) (pox_id p)) height).

End PoxIdTracker.

(** ** Leader keys *)

Record LeaderKeyRegistration : Type := mkRegistration {
  lk_vrf_public_key : list byte;
  lk_signing_key_hash : option (list byte);
}.

Module LeaderKeys.

Record t : Type := mk { registered : gmap (Z * Z) LeaderKeyRegistration; spent : gset (Z * Z) }.

Definition new : t := mk ∅ ∅.

Definition register (k : t) (block_height transaction_index : Z) (registration : LeaderKeyRegistration) : t :=
  mk (<[(block_height, transaction_index) := registration]> (registered k)) (spent k).

Definition registration (k : t) (block_height transaction_index : Z) : option LeaderKeyRegistration :=
  let at_ := (block_height, transaction_index) in
  if decide (at_ ∈ spent k) then None else registered k !! at_.

Definition usable (k : t) (block_height transaction_index : Z) : option (list byte) :=
  lk_vrf_public_key <$> registration k block_height transaction_index.

Definition spend (k : t) (block_height transaction_index : Z) : t :=
  mk (registered k) ({[(block_height, transaction_index)]} ∪ spent k).

(** [registered.keys().filter(|at| !spent.contains(at)).count()]. *)
Definition available (k : t) : Z := Z.of_nat (size (dom (registered k) ∖ spent k)).

End LeaderKeys.

(** ** Commitments *)

Record MiningCommitment : Type := mkCommitment {
  mc_txid : list byte;
  mc_spent_txid : list byte;
  mc_spent_output : Z;
  mc_burn_sats : Z;
  mc_vrf_seed : list byte;
  mc_vrf_public_key : option (list byte);
  mc_signing_key_hash : option (list byte);
  mc_committed_block_hash : list byte;
  mc_parent_bitcoin_height : Z;
}.

Record MissedCommitment : Type := mkMissed {
  ms_txid : list byte;
  ms_spent_txid : list byte;
  ms_spent_output : Z;
}.

Record CommitmentWindowBlock : Type := mkWindowBlock {
  wb_commitments : list MiningCommitment;
  wb_missed_commitments : list MissedCommitment;
  wb_requires_single_commit : bool;
}.

Definition commitment_miss_distance (parent_modulus : byte) (bitcoin_height : Z) : Z :=
  let intended := (u8 parent_modulus mod BURN_BLOCK_MINED_AT_MODULUS + 1) mod BURN_BLOCK_MINED_AT_MODULUS in
  let actual := bitcoin_height mod BURN_BLOCK_MINED_AT_MODULUS in
  if intended <=? actual then actual - intended
  else BURN_BLOCK_MINED_AT_MODULUS + actual - intended.

Definition commitment_is_on_time (parent_modulus : byte) (bitcoin_height : Z) : bool :=
  commitment_miss_distance parent_modulus bitcoin_height =? 0.

Definition commitment_is_admissible (bitcoin_height : Z) (operation : BitcoinOperation) (payouts : PayoutSchedule.t) : bool :=
  match op_kind operation with
  | LeaderBlockCommit _ _ parent_block_height parent_transaction_index key_block_height _ _ _ =>
      negb (Nat.eqb (length (op_inputs operation)) 0) &&
      (negb (parent_block_height =? 0) || (parent_transaction_index =? 0)) &&
      (parent_block_height <? bitcoin_height) &&
      negb (key_block_height =? 0) &&
      (key_block_height <? bitcoin_height) &&
      PayoutSchedule.accepts_commitment_outputs payouts bitcoin_height (op_outputs operation)
  | _ => false
  end.

Definition is_timely (height : Z) (operation : BitcoinOperation) : bool :=
  match op_kind operation with
  | LeaderBlockCommit _ _ _ _ _ _ _ parent_modulus => commitment_is_on_time parent_modulus height
  | _ => true
  end.

Definition timely_operation_txids (block : BitcoinBlock) : list (list byte) :=
  map op_txid (List.filter (is_timely (bb_height block)) (bb_operations block)).

Definition is_accepted (payouts : PayoutSchedule.t) (height : Z) (operation : BitcoinOperation) : bool :=
  match op_kind operation with
  | LeaderBlockCommit _ _ _ _ _ _ _ parent_modulus =>
      commitment_is_admissible height operation payouts && commitment_is_on_time parent_modulus height
  | _ => true
  end.

Definition accepted_operation_txids (block : BitcoinBlock) (payouts : PayoutSchedule.t) : list (list byte) :=
  map op_txid (List.filter (is_accepted payouts (bb_height block)) (bb_operations block)).

(** [iter().map(..).sum()] of [u64]s. *)
Fixpoint sum_sats (total : Z) (outputs : list BitcoinOutput) : option Z :=
  match outputs with
  | [] => Some total
  | o :: outputs => total ← checked_add U64_MAX total (out_amount_sats o); sum_sats total outputs
  end.

(** The body of the loop of [commitment_window_block], adding to the two lists. *)
Definition window_operation (height : Z) (payouts : PayoutSchedule.t) (keys : LeaderKeys.t) (operation : BitcoinOperation)
  (commitments : list MiningCommitment) (missed : list MissedCommitment)
  : option (list MiningCommitment * list MissedCommitment) :=
  match op_kind operation with
  | LeaderBlockCommit block_header_hash new_seed parent_block_height _ key_block_height key_transaction_index _ parent_modulus =>
      if negb (commitment_is_admissible height operation payouts) then Some (commitments, missed) else
      let '(spent_txid, spent_output) :=
        match op_inputs operation with
        | input :: _ => (in_txid input, in_output_index input)
        | [] => (replicate 32 0%u8, 0)
        end in
      let miss_distance := commitment_miss_distance parent_modulus height in
      if 1 <? miss_distance then Some (commitments, missed)
      else if miss_distance =? 0 then
        burn_sats ← sum_sats 0 (take (Z.to_nat (PayoutSchedule.outputs_at payouts height)) (op_outputs operation));
        let registration := LeaderKeys.registration keys key_block_height key_transaction_index in
        Some (commitments ++ [mkCommitment (op_txid operation) spent_txid spent_output burn_sats new_seed
                (lk_vrf_public_key <$> registration) (registration ≫= lk_signing_key_hash)
                block_header_hash parent_block_height], missed)
      else Some (commitments, missed ++ [mkMissed (op_txid operation) spent_txid spent_output])
  | _ => Some (commitments, missed)
  end.

Fixpoint window_operations (height : Z) (payouts : PayoutSchedule.t) (keys : LeaderKeys.t) (operations : list BitcoinOperation)
  (commitments : list MiningCommitment) (missed : list MissedCommitment)
  : option (list MiningCommitment * list MissedCommitment) :=
  match operations with
  | [] => Some (commitments, missed)
  | operation :: rest =>
      '(commitments, missed) ← window_operation height payouts keys operation commitments missed;
      window_operations height payouts keys rest commitments missed
  end.

Definition commitment_window_block (block : BitcoinBlock) (payouts : PayoutSchedule.t) (keys : LeaderKeys.t)
  : option CommitmentWindowBlock :=
  '(commitments, missed) ← window_operations (bb_height block) payouts keys (bb_operations block) [] [];
  Some (mkWindowBlock commitments missed (PayoutSchedule.outputs_at payouts (bb_height block) =? 1)).
