(* ===== verification/Sbtc.v ===== *)
(** * The sBTC deposit output, of [crates/nano-bitcoin/src/sbtc.rs]

    The scripts of a deposit, the tree they make, the output key, and that the
    root of the tree fixes every parameter of the deposit. *)

From S2P Require Import Prelude Primitives Address Crypto.

Module Sbtc.

Definition POX_5_SBTC_DEPOSIT_MAX_FEE_SATS : Z := 80000.

Definition NUMS_X_COORDINATE : list byte :=
  [0x50; 0x92; 0x9b; 0x74; 0xc1; 0xa0; 0x49; 0x54; 0xb7; 0x8b; 0x4b; 0x60; 0x35; 0xe9; 0x7a; 0x5e;
   0x07; 0x8a; 0x5a; 0x0f; 0x28; 0xec; 0x96; 0xd5; 0x47; 0xbf; 0xee; 0x9a; 0xce; 0x80; 0x3a; 0xc0]%u8.

(** The curve operations of [bitcoin::secp256k1] on keys without a sign. *)
Class XOnly : Type := {
  xonly_key : Type;
  xonly_from_slice : list byte -> option xonly_key;
  xonly_serialize : xonly_key -> list byte;
  (** [Scalar::from_be_bytes]: the bytes are below the group's order. *)
  tweak_ok : list byte -> bool;
  xonly_add_tweak : xonly_key -> list byte -> option xonly_key;
}.

Definition to_le_bytes (n : nat) (z : Z) : list byte := rev (to_be_bytes n z).

Definition push_header (n : Z) : option (list byte) :=
  if n =? 0 then Some [0%u8]
  else if n <=? 75 then Some [byte_of n]
  else if n <=? 255 then Some [0x4c%u8; byte_of n]
  else if n <=? 65535 then Some (0x4d%u8 :: to_le_bytes 2 n)
  else if n <=? 4294967295 then Some (0x4e%u8 :: to_le_bytes 4 n)
  else None.

Definition push_data (data : list byte) : result AddressError (list byte) :=
  let? result := or_err (push_header (len data)) InvalidBitcoinAddress in Ok (result ++ data).

Definition deposit_script (aggregate_public_key recipient_principal : list byte) (max_fee_sats : Z) : result AddressError (list byte) :=
  let? script := push_data (to_be_bytes 8 max_fee_sats ++ recipient_principal) in
  let? key := push_data aggregate_public_key in
  Ok (script ++ [0x75%u8] ++ key ++ [0xac%u8]).

(** [while bytes.last() == Some(&0) { bytes.pop(); }], on the bytes in reverse. *)
Fixpoint pop_zeros (reversed : list byte) : list byte :=
  match reversed with
  | b :: rest => if u8 b =? 0 then pop_zeros rest else reversed
  | [] => []
  end.

Definition encode_script_number (value : Z) : list byte :=
  if value =? 0 then [0%u8]
  else if value <=? 16 then [byte_of (0x50 + value)]
  else
    let reversed := pop_zeros (rev (to_le_bytes 2 value)) in
    let bytes := rev reversed ++ match reversed with b :: _ => if Z.land (u8 b) 0x80 =? 0 then [] else [0%u8] | [] => [] end in
    byte_of (len bytes) :: bytes.

Definition reclaim_script (lock_time : Z) (user_script : list byte) : list byte :=
  encode_script_number lock_time ++ [0xb2%u8] ++ user_script.

Definition compact_size (value : Z) : list byte :=
  if value <=? 252 then [byte_of value]
  else if value <=? 65535 then 0xfd%u8 :: to_le_bytes 2 value
  else if value <=? 4294967295 then 0xfe%u8 :: to_le_bytes 4 value
  else 0xff%u8 :: to_le_bytes 8 value.

(** The ASCII bytes of the tags. *)
Definition TAP_LEAF : list byte := [84; 97; 112; 76; 101; 97; 102]%u8.
Definition TAP_BRANCH : list byte := [84; 97; 112; 66; 114; 97; 110; 99; 104]%u8.
Definition TAP_TWEAK : list byte := [84; 97; 112; 84; 119; 101; 97; 107]%u8.

Section Tree.
Context `{H : Hashes}.

Definition tag_input (tag data : list byte) : list byte := sha256 tag ++ sha256 tag ++ data.

Definition tagged_sha256 (tag data : list byte) : list byte := sha256 (tag_input tag data).

Definition leaf_data (script : list byte) : list byte := 0xc0%u8 :: compact_size (len script) ++ script.

Definition tap_leaf_hash (script : list byte) : list byte := tagged_sha256 TAP_LEAF (leaf_data script).

Definition branch_data (left right : list byte) : list byte :=
  if match compare_bytes left right with Gt => false | _ => true end then left ++ right else right ++ left.

Definition tap_branch_hash (left right : list byte) : list byte := tagged_sha256 TAP_BRANCH (branch_data left right).

(** The part of [sbtc_deposit_taproot_output_key] that builds the tree. *)
Definition deposit_root (aggregate_public_key recipient_principal : list byte) (max_fee_sats reclaim_lock_time : Z) (user_reclaim_script : list byte)
  : result AddressError (list byte) :=
  let? deposit := deposit_script aggregate_public_key recipient_principal max_fee_sats in
  Ok (tap_branch_hash (tap_leaf_hash deposit) (tap_leaf_hash (reclaim_script reclaim_lock_time user_reclaim_script))).

Context `{X : XOnly}.

Definition sbtc_deposit_taproot_output_key (aggregate_public_key recipient_principal : list byte) (max_fee_sats reclaim_lock_time : Z)
  (user_reclaim_script : list byte) : result AddressError (list byte) :=
  let? _ := or_err (xonly_from_slice aggregate_public_key) InvalidBitcoinAddress in
  let? merkle_root := deposit_root aggregate_public_key recipient_principal max_fee_sats reclaim_lock_time user_reclaim_script in
  let? internal_key := or_err (xonly_from_slice NUMS_X_COORDINATE) InvalidBitcoinAddress in
  let tweak := tagged_sha256 TAP_TWEAK (NUMS_X_COORDINATE ++ merkle_root) in
  if negb (tweak_ok tweak) then Err InvalidBitcoinAddress else
  let? output_key := or_err (xonly_add_tweak internal_key tweak) InvalidBitcoinAddress in
  Ok (xonly_serialize output_key).

(** The key without its first byte. *)
Definition sbtc_pox5_deposit_taproot_output_key (aggregate_public_key recipient_principal : list byte) : result AddressError (list byte) :=
  sbtc_deposit_taproot_output_key (drop 1 aggregate_public_key) recipient_principal POX_5_SBTC_DEPOSIT_MAX_FEE_SATS U16_MAX [0x6a%u8].

End Tree.

(** ** The scripts can be read back *)

Lemma le_be n z : 0 <= z < 256 ^ Z.of_nat n -> from_be_bytes (rev (to_le_bytes n z)) = z.
Proof. intros H. unfold to_le_bytes. rewrite rev_involutive. by apply from_to_be_bytes. Qed.

Lemma length_le n z : length (to_le_bytes n z) = n.
Proof. unfold to_le_bytes. by rewrite length_rev, length_to_be_bytes. Qed.

(** A reader of the pushes [push_data] writes. *)
Definition read_sized (n : nat) (l : list byte) : option (list byte * list byte) :=
  let size := Z.to_nat (from_be_bytes (rev (take n l))) in
  Some (take size (drop n l), drop size (drop n l)).

Definition read_push (l : list byte) : option (list byte * list byte) :=
  match l with
  | b :: rest =>
      if u8 b <=? 75 then Some (take (Z.to_nat (u8 b)) rest, drop (Z.to_nat (u8 b)) rest)
      else if u8 b =? 0x4c then read_sized 1 rest
      else if u8 b =? 0x4d then read_sized 2 rest
      else if u8 b =? 0x4e then read_sized 4 rest
      else None
  | [] => None
  end.

Lemma read_sized_app n size (data rest : list byte) : length size = n -> from_be_bytes (rev size) = len data ->
  read_sized n (size ++ data ++ rest) = Some (data, rest).
Proof.
  intros Hn Hd. unfold read_sized. rewrite take_app_length', drop_app_length' by done. rewrite Hd, Nat2Z.id. by rewrite take_app_length, drop_app_length.
Qed.

Lemma push_data_ok data out : push_data data = Ok out -> exists header, push_header (len data) = Some header /\ out = header ++ data.
Proof. unfold push_data. destruct (push_header _) as [h|]; [|done]. intros Ho. exists h. split; [done|]. cbn [or_err] in Ho. congruence. Qed.

Lemma push_data_reads data out rest : push_data data = Ok out -> read_push (out ++ rest) = Some (data, rest).
Proof.
  intros (h & Hh & ->)%push_data_ok. rewrite <- app_assoc. unfold push_header in Hh. destruct (Z.eqb_spec (len data) 0) as [H0|H0].
  { assert (h = [0%u8]) as -> by congruence. destruct data; [done|]. cbn [length] in H0. lia. }
  destruct (Z.leb_spec (len data) 75) as [H1|H1].
  { assert (h = [byte_of (len data)]) as -> by congruence. cbn [app read_push]. rewrite u8_byte_of, Z.mod_small by lia.
    rewrite (proj2 (Z.leb_le _ _)) by lia. rewrite Nat2Z.id. by rewrite take_app_length, drop_app_length. }
  destruct (Z.leb_spec (len data) 255) as [H2|H2].
  { assert (h = [0x4c%u8] ++ [byte_of (len data)]) as -> by (cbn [app]; congruence). rewrite <- app_assoc. cbn [app read_push].
    change (read_sized 1 ([byte_of (len data)] ++ data ++ rest) = Some (data, rest)). apply read_sized_app; [done|].
    unfold from_be_bytes. cbn [rev app fold_left]. rewrite u8_byte_of, Z.mod_small by lia. done. }
  destruct (Z.leb_spec (len data) 65535) as [H3|H3].
  { assert (h = 0x4d%u8 :: to_le_bytes 2 (len data)) as -> by congruence. change (read_sized 2 (to_le_bytes 2 (len data) ++ data ++ rest) = Some (data, rest)).
    apply read_sized_app; [apply length_le|apply le_be; change (256 ^ Z.of_nat 2) with 65536; lia]. }
  destruct (Z.leb_spec (len data) 4294967295) as [H4|H4]; [|done].
  assert (h = 0x4e%u8 :: to_le_bytes 4 (len data)) as -> by congruence. change (read_sized 4 (to_le_bytes 4 (len data) ++ data ++ rest) = Some (data, rest)).
  apply read_sized_app; [apply length_le|apply le_be; change (256 ^ Z.of_nat 4) with 4294967296; lia].
Qed.

Lemma deposit_script_inj k1 r1 f1 k2 r2 f2 s : is_u64 f1 -> is_u64 f2 ->
  deposit_script k1 r1 f1 = Ok s -> deposit_script k2 r2 f2 = Ok s -> k1 = k2 /\ r1 = r2 /\ f1 = f2.
Proof.
  intros F1 F2. unfold deposit_script. destruct (push_data (to_be_bytes 8 f1 ++ r1)) as [d1|] eqn:E1; [|done]. destruct (push_data k1) as [p1|] eqn:P1; [|done].
  destruct (push_data (to_be_bytes 8 f2 ++ r2)) as [d2|] eqn:E2; [|done]. destruct (push_data k2) as [p2|] eqn:P2; [|done]. intros S1 S2.
  assert (Heq : d1 ++ [0x75%u8] ++ p1 ++ [0xac%u8] = d2 ++ [0x75%u8] ++ p2 ++ [0xac%u8]) by congruence.
  pose proof (push_data_reads _ _ ([0x75%u8] ++ p1 ++ [0xac%u8]) E1) as R1. rewrite Heq, (push_data_reads _ _ _ E2) in R1.
  assert (Hd : to_be_bytes 8 f2 ++ r2 = to_be_bytes 8 f1 ++ r1) by congruence. assert (Hp : p2 ++ [0xac%u8] = p1 ++ [0xac%u8]) by (cbn [app] in R1; congruence).
  apply app_inj_1 in Hd as [Hf ->]; [|by rewrite !length_to_be_bytes]. apply u64_bytes_inj in Hf as ->; [|done..].
  pose proof (push_data_reads _ _ [0xac%u8] P1) as Q1. rewrite <- Hp, (push_data_reads _ _ _ P2) in Q1. split; [congruence|done].
Qed.

(** The number a script begins with, and its size. *)
Definition number_at (l : list byte) : option (Z * nat) :=
  match l with
  | b :: rest =>
      if u8 b =? 0 then Some (0, 1%nat)
      else if (81 <=? u8 b) && (u8 b <=? 96) then Some (u8 b - 80, 1%nat)
      else if u8 b <=? 3 then Some (from_be_bytes (rev (take (Z.to_nat (u8 b)) rest)), S (Z.to_nat (u8 b)))
      else None
  | [] => None
  end.

Definition number_checked (value : Z) : bool :=
  bool_decide (number_at (encode_script_number value) = Some (value, length (encode_script_number value))).

Lemma numbers_checked : forallb (fun high => forallb (fun low => number_checked (high * 256 + low)) (seqZ 0 256)) (seqZ 0 256) = true.
Proof. vm_compute. reflexivity. Qed.

Lemma script_number_reads value rest : is_u16 value ->
  number_at (encode_script_number value ++ rest) = Some (value, length (encode_script_number value)).
Proof.
  intros Hv. assert (Hc : number_checked value = true).
  { unfold is_u16, U16_MAX in Hv. pose proof (Z.div_mod value 256 ltac:(lia)). pose proof (Z.mod_pos_bound value 256 ltac:(lia)).
    pose proof numbers_checked as Hall. rewrite forallb_forall in Hall.
    specialize (Hall (value / 256)). rewrite forallb_forall in Hall. specialize (Hall ltac:(apply list_elem_of_In, elem_of_seqZ; lia) (value mod 256)).
    replace value with (value / 256 * 256 + value mod 256) by lia. apply Hall, list_elem_of_In, elem_of_seqZ. lia. }
  apply bool_decide_eq_true in Hc. destruct (encode_script_number value) as [|b body]; [done|]. cbn [app number_at length] in *.
  destruct (u8 b =? 0); [done|]. destruct (_ && _); [done|]. destruct (u8 b <=? 3); [|done]. injection Hc as Hval Hlen.
  rewrite take_app_le by lia. rewrite Hval. by rewrite Hlen.
Qed.

Lemma reclaim_script_inj l1 u1 l2 u2 : is_u16 l1 -> is_u16 l2 -> reclaim_script l1 u1 = reclaim_script l2 u2 -> l1 = l2 /\ u1 = u2.
Proof.
  intros H1 H2 Heq. unfold reclaim_script in Heq. pose proof (script_number_reads l1 ([0xb2%u8] ++ u1) H1) as R1. rewrite Heq, script_number_reads in R1 by done.
  injection R1 as -> _. split; [done|]. apply app_inv_head in Heq. by injection Heq.
Qed.

(** A deposit script begins with a push of at least eight bytes, a reclaim script with a number. *)
Lemma deposit_not_reclaim k r f l u : is_u16 l -> deposit_script k r f <> Ok (reclaim_script l u).
Proof.
  intros Hl Hd. unfold deposit_script in Hd. destruct (push_data (to_be_bytes 8 f ++ r)) as [d|] eqn:E; [|done]. destruct (push_data k) as [p|]; [|done].
  assert (Heq : d ++ [0x75%u8] ++ p ++ [0xac%u8] = reclaim_script l u) by congruence. clear Hd. unfold reclaim_script in Heq.
  pose proof (script_number_reads l ([0xb2%u8] ++ u) Hl) as R. rewrite <- Heq in R. clear Heq. assert (Hn : 8 <= len (to_be_bytes 8 f ++ r)) by (rewrite length_app, length_to_be_bytes; lia).
  apply push_data_ok in E as (h & Hh & ->). rewrite <- app_assoc in R. unfold push_header in Hh. revert Hh R. generalize (len (to_be_bytes 8 f ++ r)) Hn. clear. intros n Hn.
  rewrite (proj2 (Z.eqb_neq _ 0)) by lia. destruct (Z.leb_spec n 75).
  { intros Hh. assert (h = [byte_of n]) as -> by congruence. cbn [app number_at]. rewrite u8_byte_of, Z.mod_small by lia.
    by rewrite (proj2 (Z.eqb_neq _ 0)), (proj2 (Z.leb_gt 81 _)), (proj2 (Z.leb_gt _ 3)) by lia. }
  repeat case_match; intros Hh; try done; [assert (h = [0x4c%u8; byte_of n]) as -> by congruence|assert (h = 0x4d%u8 :: to_le_bytes 2 n) as -> by congruence|
    assert (h = 0x4e%u8 :: to_le_bytes 4 n) as -> by congruence]; done.
Qed.

(** ** The root *)

Definition read_compact (l : list byte) : option Z :=
  match l with
  | b :: rest =>
      if u8 b <=? 252 then Some (u8 b)
      else Some (from_be_bytes (rev (take (if u8 b =? 253 then 2%nat else if u8 b =? 254 then 4%nat else 8%nat) rest)))
  | [] => None
  end.

Lemma compact_reads n rest : is_u64 n -> read_compact (compact_size n ++ rest) = Some n.
Proof.
  intros Hn. unfold is_u64, U64_MAX in Hn. unfold compact_size. destruct (Z.leb_spec n 252) as [H1|H1].
  { cbn [app read_compact]. rewrite u8_byte_of, Z.mod_small by lia. by rewrite (proj2 (Z.leb_le _ _)). }
  destruct (Z.leb_spec n 65535) as [H2|H2]; [|destruct (Z.leb_spec n 4294967295) as [H3|H3]]; cbn [app read_compact].
  - change (u8 0xfd%u8) with 253. cbn [Z.leb Z.eqb Z.compare Pos.compare Pos.compare_cont Pos.eqb]. rewrite take_app_length' by (by rewrite length_le). rewrite le_be by (cbn; lia). done.
  - change (u8 0xfe%u8) with 254. cbn [Z.leb Z.eqb Z.compare Pos.compare Pos.compare_cont Pos.eqb]. rewrite take_app_length' by (by rewrite length_le). rewrite le_be by (cbn; lia). done.
  - change (u8 0xff%u8) with 255. cbn [Z.leb Z.eqb Z.compare Pos.compare Pos.compare_cont Pos.eqb]. rewrite take_app_length' by (by rewrite length_le). rewrite le_be by (cbn; lia). done.
Qed.

Lemma leaf_data_inj s1 s2 : is_u64 (len s1) -> is_u64 (len s2) -> leaf_data s1 = leaf_data s2 -> s1 = s2.
Proof.
  intros H1 H2 Heq. unfold leaf_data in Heq. injection Heq as Heq. pose proof (compact_reads (len s1) s1 H1) as R. rewrite Heq, compact_reads in R by done.
  injection R as Hl. rewrite Hl in Heq. by apply app_inv_head in Heq.
Qed.

Section Binding.
Context `{HO : HashesOk}.

(** What SHA-256 is applied to for one deposit. *)
Definition root_inputs (deposit reclaim : list byte) : list (list byte) :=
  [tag_input TAP_LEAF (leaf_data deposit); tag_input TAP_LEAF (leaf_data reclaim);
   tag_input TAP_BRANCH (branch_data (tap_leaf_hash deposit) (tap_leaf_hash reclaim))].

Definition collision_free (inputs : list (list byte)) : Prop := forall x y, x ∈ inputs -> y ∈ inputs -> sha256 x = sha256 y -> x = y.

Lemma tag_input_inj tag d1 d2 : tag_input tag d1 = tag_input tag d2 -> d1 = d2.
Proof. unfold tag_input. intros H1%app_inv_head%app_inv_head. done. Qed.

(** A branch is the unordered pair of its children. *)
Lemma branch_data_inj a1 b1 a2 b2 : length a1 = 32%nat -> length b1 = 32%nat -> length a2 = 32%nat -> length b2 = 32%nat ->
  branch_data a1 b1 = branch_data a2 b2 -> (a1 = a2 /\ b1 = b2) \/ (a1 = b2 /\ b1 = a2).
Proof.
  intros La1 Lb1 La2 Lb2 Heq. unfold branch_data in Heq. repeat case_match; apply app_inj_1 in Heq as [-> ->]; auto; congruence.
Qed.

Lemma leaf_bound inputs s1 s2 : collision_free inputs -> tag_input TAP_LEAF (leaf_data s1) ∈ inputs -> tag_input TAP_LEAF (leaf_data s2) ∈ inputs ->
  is_u64 (len s1) -> is_u64 (len s2) -> tap_leaf_hash s1 = tap_leaf_hash s2 -> s1 = s2.
Proof. intros Hf H1 H2 L1 L2 Heq. apply Hf in Heq; [|done..]. by apply tag_input_inj, leaf_data_inj in Heq. Qed.

End Binding.

(** Two deposits with the same script-tree root agree on the aggregate key, the
    recipient, the maximal fee, the lock time and the reclaim script, when SHA-256 has
    no collision among the inputs hashed for the two. *)
Theorem deposit_root_binds `{HO : HashesOk} (k1 r1 u1 k2 r2 u2 d1 d2 root : list byte) (f1 l1 f2 l2 : Z)
  (F1 : is_u64 f1) (F2 : is_u64 f2) (L1 : is_u16 l1) (L2 : is_u16 l2)
  (D1 : deposit_script k1 r1 f1 = Ok d1) (D2 : deposit_script k2 r2 f2 = Ok d2)
  (Hsize : Forall (fun s => is_u64 (len s)) [d1; d2; reclaim_script l1 u1; reclaim_script l2 u2])
  (Hfree : collision_free (root_inputs d1 (reclaim_script l1 u1) ++ root_inputs d2 (reclaim_script l2 u2)))
  (H1 : deposit_root k1 r1 f1 l1 u1 = Ok root) (H2 : deposit_root k2 r2 f2 l2 u2 = Ok root) :
  k1 = k2 /\ r1 = r2 /\ f1 = f2 /\ l1 = l2 /\ u1 = u2.
Proof.
  unfold deposit_root in H1, H2. rewrite D1 in H1. rewrite D2 in H2.
  repeat (apply Forall_cons_1 in Hsize as [? Hsize]). assert (Heq : tap_branch_hash (tap_leaf_hash d1) (tap_leaf_hash (reclaim_script l1 u1)) =
    tap_branch_hash (tap_leaf_hash d2) (tap_leaf_hash (reclaim_script l2 u2))) by congruence. unfold root_inputs in Hfree.
  apply Hfree in Heq; [|set_solver..]. apply tag_input_inj, branch_data_inj in Heq; [|apply sha256_length..].
  destruct Heq as [[Hd Hr]|[Hd _]]; (eapply leaf_bound in Hd; [|exact Hfree|set_solver|set_solver|done|done]).
  - eapply leaf_bound in Hr; [|exact Hfree|set_solver|set_solver|done|done]. apply reclaim_script_inj in Hr as [-> ->]; [|done..].
    subst d2. by destruct (deposit_script_inj _ _ _ _ _ _ _ F1 F2 D1 D2) as (-> & -> & ->).
  - subst d1. by apply deposit_not_reclaim in D1.
Qed.

End Sbtc.
