(* ===== verification/BitcoinScript.v ===== *)
(** * Operations on the Bitcoin chain, of [crates/nano-bitcoin/src/lib.rs]

    The payloads a miner puts into an [OP_RETURN] output, the transactions that
    carry them, and the decoder of a Bitcoin block, which keeps the [PreStx]
    outputs that authenticate later operations. The [bitcoin] crate (blocks,
    scripts, transaction identifiers) is the class [BitcoinLib]. *)

From stdpp Require Import gmap.
From S2P Require Import Prelude Primitives Address Crypto SortitionRules.

(** ** The [bitcoin] crate *)

Inductive Instruction : Type := PushBytes (data : list byte) | Op (opcode : byte).

Record TxIn : Type := mkTxIn { ti_txid : list byte; ti_vout : Z }.
Record TxOut : Type := mkTxOut { to_value : Z; to_script : list byte }.
Record BtcTransaction : Type := mkBtcTransaction {
  bt_version : Z;
  bt_lock_time : Z;
  bt_input : list TxIn;
  bt_output : list TxOut;
}.
Record BtcBlock : Type := mkBtcBlock { bk_hash : list byte; bk_time : Z; bk_txdata : list BtcTransaction }.

Class BitcoinLib : Type := {
  (** [bitcoin::consensus::deserialize::<Block>]. *)
  deserialize_block : list byte -> option BtcBlock;
  (** [Transaction::compute_txid], in internal byte order. *)
  compute_txid : BtcTransaction -> list byte;
  (** [Script::instructions_minimal]: what each [next] gives, an error last. *)
  instructions_minimal : list byte -> list (option Instruction);
  (** [PushBytesBuf::try_from] accepts the bytes. *)
  push_bytes_ok : list byte -> bool;
  (** [ScriptBuf::new_op_return]. *)
  new_op_return : list byte -> list byte;
}.

Definition OP_RETURN : byte := 0x6a%u8.

(** What the program relies on: a push of more than one byte is minimal as the
    library writes it, and is pushed unless its length needs more than 32 bits. *)
Class BitcoinLibOk `{BitcoinLib} : Prop := {
  op_return_instructions data : 2 <= len data <= U32_MAX ->
    instructions_minimal (new_op_return data) = [Some (Op OP_RETURN); Some (PushBytes data)];
  push_bytes_fit data : len data <= U32_MAX -> push_bytes_ok data = true;
}.

(** ** Payloads *)

(** [array]: the slice as an array of [n] bytes. *)
Definition array (n : nat) (bytes : list byte) : option (list byte) :=
  if Nat.eqb (length bytes) n then Some bytes else None.

Definition get_array (n : nat) (data : list byte) (start stop : Z) : option (list byte) :=
  bytes ← get_range data start stop; array n bytes.

Definition be_at (n : nat) (data : list byte) (start stop : Z) : option Z :=
  from_be_bytes <$> get_array n data start stop.

(** [slice.get(start..)]. *)
Definition get_from {A} (l : list A) (start : Z) : option (list A) :=
  if start <=? len l then Some (drop (Z.to_nat start) l) else None.

Record LeaderBlockCommitment : Type := mkLeaderBlockCommitment {
  lc_block_header_hash : list byte;
  lc_new_seed : list byte;
  lc_parent_block_height : Z;
  lc_parent_transaction_index : Z;
  lc_key_block_height : Z;
  lc_key_transaction_index : Z;
  lc_memo : byte;
  lc_parent_modulus : byte;
}.

Inductive LeaderCommitmentError : Type := CommitmentMemoTooLarge | InvalidParentModulus.

(** [LeaderBlockCommitment::encode]. *)
Definition encode_commitment (c : LeaderBlockCommitment) : result LeaderCommitmentError (list byte) :=
  if 31 <? u8 (lc_memo c) then Err CommitmentMemoTooLarge
  else if 4 <? u8 (lc_parent_modulus c) then Err InvalidParentModulus
  else Ok (lc_block_header_hash c ++ lc_new_seed c ++ to_be_bytes 4 (lc_parent_block_height c) ++
           to_be_bytes 2 (lc_parent_transaction_index c) ++ to_be_bytes 4 (lc_key_block_height c) ++
           to_be_bytes 2 (lc_key_transaction_index c) ++
           [byte_of (Z.lor (Z.shiftl (u8 (lc_memo c)) 3) (u8 (lc_parent_modulus c)))]).

Record LeaderKeyPayload : Type := mkLeaderKeyPayload {
  kp_consensus_hash : list byte;
  kp_vrf_public_key : list byte;
  kp_block_signing_key_hash : list byte;
  kp_memo : list byte;
}.

Inductive LeaderKeyRegistrationError : Type := InvalidVrfPublicKey | KeyMemoTooLarge.

Section Payloads.
Context `{ED : Edwards}.

(** [LeaderKeyRegistration::encode]. *)
Definition encode_key_registration (k : LeaderKeyPayload) : result LeaderKeyRegistrationError (list byte) :=
  if 5 <? len (kp_memo k) then Err KeyMemoTooLarge else
  match VrfPublicKey.from_bytes (kp_vrf_public_key k) with
  | Err _ => Err InvalidVrfPublicKey
  | Ok _ => Ok (kp_consensus_hash k ++ kp_vrf_public_key k ++ kp_block_signing_key_hash k ++ kp_memo k)
  end.

Definition parse_leader_block_commit (data : list byte) : option BitcoinOperationKind :=
  block_header_hash ← get_array 32 data 0 32;
  new_seed ← get_array 32 data 32 64;
  parent_block_height ← be_at 4 data 64 68;
  parent_transaction_index ← be_at 2 data 68 70;
  key_block_height ← be_at 4 data 70 74;
  key_transaction_index ← be_at 2 data 74 76;
  flags ← index data 76;
  Some (LeaderBlockCommit block_header_hash new_seed parent_block_height parent_transaction_index
          key_block_height key_transaction_index
          (byte_of (Z.shiftr (u8 flags) 3)) (byte_of (Z.land (u8 flags) 7 mod 5))).

Definition parse_leader_key_registration (data : list byte) : option BitcoinOperationKind :=
  consensus_hash ← get_array 20 data 0 20;
  vrf_public_key ← get_array 32 data 20 52;
  match VrfPublicKey.from_bytes vrf_public_key with
  | Err _ => None
  | Ok _ =>
      memo ← get_from data 52;
      Some (LeaderKeyRegistrationOp consensus_hash vrf_public_key (get_array 20 memo 0 20) memo)
  end.

Definition parse_stack_stx (data : list byte) (outputs : list BitcoinOutput) (sender : StacksAddress.t) : option BitcoinOperationKind :=
  amount ← be_at 16 data 0 16;
  cycles ← index data 16;
  let signer_key := get_array 33 data 17 50 in
  let max_amount := be_at 16 data 50 66 in
  let authorization_id := be_at 4 data 66 70 in
  first ← head outputs;
  Some (StackStx sender (out_recipient first) amount cycles signer_key max_amount authorization_id).

Definition parse_transfer_stx (data : list byte) (outputs : list BitcoinOutput) (sender : StacksAddress.t) : option BitcoinOperationKind :=
  if negb ((16 <=? len data) && (len data <=? 77)) then None else
  first ← head outputs;
  recipient ← PoxAddress.as_stacks_address (out_recipient first);
  amount ← be_at 16 data 0 16;
  memo ← get_from data 16;
  Some (TransferStx sender recipient amount memo).

(** An optional integer behind a flag byte; the outer [None] refuses the flag or the slice. *)
Definition flagged (n : nat) (data : list byte) (flag start stop : Z) : option (option Z) :=
  b ← index data flag;
  if u8 b =? 0 then Some None
  else if u8 b =? 1 then v ← be_at n data start stop; Some (Some v)
  else None.

Definition parse_delegate_stx (data : list byte) (outputs : list BitcoinOutput) (sender : StacksAddress.t) : option BitcoinOperationKind :=
  amount ← be_at 16 data 0 16;
  reward_address_output ← flagged 4 data 16 17 21;
  until_bitcoin_height ← flagged 8 data 21 22 30;
  first ← head outputs;
  delegate ← PoxAddress.as_stacks_address (out_recipient first);
  Some (DelegateStx sender delegate amount (out_recipient <$> (i ← reward_address_output; index outputs i))
          reward_address_output until_bitcoin_height).

Definition parse_vote_for_aggregate_key (data : list byte) (sender : StacksAddress.t) : option BitcoinOperationKind :=
  if negb (len data =? 47) then None else
  signer_index ← be_at 2 data 0 2;
  aggregate_key ← get_array 33 data 2 35;
  round ← be_at 4 data 35 39;
  reward_cycle ← be_at 8 data 39 47;
  Some (VoteForAggregateKey sender signer_index aggregate_key round reward_cycle).

(** The opcodes are the ASCII characters of the source. *)
Definition parse_operation (opcode : byte) (data : list byte) (outputs : list BitcoinOutput) (sender : option StacksAddress.t)
  : option BitcoinOperationKind :=
  if u8 opcode =? 91 then parse_leader_block_commit data
  else if u8 opcode =? 94 then parse_leader_key_registration data
  else if u8 opcode =? 112 then
    first ← head outputs; sender ← PoxAddress.as_stacks_address (out_recipient first); Some (PreStx sender)
  else if u8 opcode =? 120 then sender ← sender; parse_stack_stx data outputs sender
  else if u8 opcode =? 36 then sender ← sender; parse_transfer_stx data outputs sender
  else if u8 opcode =? 35 then sender ← sender; parse_delegate_stx data outputs sender
  else if u8 opcode =? 118 then sender ← sender; parse_vote_for_aggregate_key data sender
  else None.

End Payloads.

(** ** Building transactions *)

Inductive LeaderCommitmentTransactionError : Type :=
| ZeroCommitmentAmount
| ZeroChangeAmount
| InvalidProtocolPayload
| Commitment (error : LeaderCommitmentError).

Inductive LeaderKeyRegistrationTransactionError : Type :=
| InvalidKeyPayload
| Registration (error : LeaderKeyRegistrationError).

Section Transactions.
Context `{ED : Edwards} `{BL : BitcoinLib}.

Definition build_leader_key_registration_transaction (magic : list byte) (registration : LeaderKeyPayload) (inputs : list TxIn)
  : result LeaderKeyRegistrationTransactionError BtcTransaction :=
  match encode_key_registration registration with
  | Err e => Err (Registration e)
  | Ok encoded =>
      let protocol_payload := magic ++ [94%u8] ++ encoded in
      if negb (push_bytes_ok protocol_payload) then Err InvalidKeyPayload else
      Ok (mkBtcTransaction 2 0 inputs [mkTxOut 0 (new_op_return protocol_payload)])
  end.

Definition build_leader_commitment_transaction (magic : list byte) (commitment : LeaderBlockCommitment) (inputs : list TxIn)
  (sbtc_address : PoxAddress.t) (commitment_amount : Z) (change : option (PoxAddress.t * Z))
  : result LeaderCommitmentTransactionError BtcTransaction :=
  if commitment_amount =? 0 then Err ZeroCommitmentAmount
  else if match change with Some (_, amount) => amount =? 0 | None => false end then Err ZeroChangeAmount
  else
    match encode_commitment commitment with
    | Err e => Err (Commitment e)
    | Ok encoded =>
        let protocol_payload := magic ++ [91%u8] ++ encoded in
        if negb (push_bytes_ok protocol_payload) then Err InvalidProtocolPayload else
        Ok (mkBtcTransaction 2 0 inputs
              ([mkTxOut 0 (new_op_return protocol_payload); mkTxOut commitment_amount (PoxAddress.script_pubkey sbtc_address)] ++
               match change with Some (address, amount) => [mkTxOut amount (PoxAddress.script_pubkey address)] | None => [] end))
    end.

End Transactions.

(** ** Decoding a block *)

Definition PRE_STX_WINDOW_BLOCKS : Z := 6.

Module PreStxCache.

(** The sender of each [PreStx] transaction, and the height it was seen at. *)
Notation t := (gmap (list byte) (StacksAddress.t * Z)).

Definition new : t := ∅.

Definition retain_window (c : t) (height : Z) : t :=
  filter (fun kv => saturating_sub height kv.2.2 <= PRE_STX_WINDOW_BLOCKS) c.

Definition invalidate_from (c : t) (height : Z) : t := filter (fun kv => kv.2.2 < height) c.

End PreStxCache.

Inductive BitcoinParseError : Type := InvalidBlock | TooManyTransactions.

Definition bitcoin_hash_bytes (bytes : list byte) : list byte := rev bytes.

Section Decoding.
Context `{ED : Edwards} `{BL : BitcoinLib}.

Definition protocol_payload (script magic : list byte) : option (byte * list byte) :=
  match instructions_minimal script with
  | Some (Op op_return) :: rest =>
      if negb (u8 op_return =? 0x6a) then None else
      match rest with
      | [Some (PushBytes data)] =>
          if bool_decide (take (length magic) data = magic) && (len magic <? len data)
          then opcode ← index data 2; payload ← get_from data 3; Some (opcode, payload)
          else None
      | _ => None
      end
  | _ => None
  end.

(** The outputs after the first, all of which must be addresses. *)
Definition output_of (o : TxOut) : option BitcoinOutput :=
  match PoxAddress.from_script_pubkey (to_script o) false with
  | Ok recipient => Some (mkOutput (to_value o) recipient)
  | Err _ => None
  end.

Definition input_of (i : TxIn) : BitcoinInput := mkInput (bitcoin_hash_bytes (ti_txid i)) (ti_vout i).

(** The sender a cached [PreStx] output pairs the inputs with. *)
Definition paired_sender (cache : PreStxCache.t) (inputs : list BitcoinInput) : option StacksAddress.t :=
  input ← head inputs;
  if in_output_index input =? 1 then fst <$> cache !! in_txid input else None.

(** One turn of the loop of [decode_block_with_pre_stx]. *)
Definition decode_operation (cache : PreStxCache.t) (magic : list byte) (index : Z) (transaction : BtcTransaction) : option BitcoinOperation :=
  first ← head (bt_output transaction);
  '(opcode, payload) ← protocol_payload (to_script first) magic;
  outputs ← mapM output_of (drop 1 (bt_output transaction));
  if bool_decide (bt_input transaction = []) || bool_decide (outputs = []) then None else
  let inputs := map input_of (bt_input transaction) in
  kind ← parse_operation opcode payload outputs (paired_sender cache inputs);
  Some (mkOperation (bitcoin_hash_bytes (compute_txid transaction)) index inputs outputs kind).

Definition remember_pre_stx (height : Z) (operation : BitcoinOperation) (cache : PreStxCache.t) : PreStxCache.t :=
  match op_kind operation with PreStx sender => <[op_txid operation := (sender, height)]> cache | _ => cache end.

Fixpoint decode_transactions (height : Z) (magic : list byte) (cache : PreStxCache.t) (index : Z) (txdata : list BtcTransaction)
  : result BitcoinParseError (list BitcoinOperation) * PreStxCache.t :=
  match txdata with
  | [] => (Ok [], cache)
  | transaction :: rest =>
      match try_from U32_MAX index with
      | None => (Err TooManyTransactions, cache)
      | Some i =>
          match decode_operation cache magic i transaction with
          | None => decode_transactions height magic cache (index + 1) rest
          | Some operation =>
              let '(r, cache) := decode_transactions height magic (remember_pre_stx height operation cache) (index + 1) rest in
              (let? operations := r in Ok (operation :: operations), cache)
          end
      end
  end.

Definition decode_block_with_pre_stx (height : Z) (bytes magic : list byte) (cache : PreStxCache.t)
  : result BitcoinParseError BitcoinBlock * PreStxCache.t :=
  let cache := PreStxCache.retain_window cache height in
  match deserialize_block bytes with
  | None => (Err InvalidBlock, cache)
  | Some block =>
      let '(r, cache) := decode_transactions height magic cache 0 (bk_txdata block) in
      (let? operations := r in Ok (mkBitcoinBlock height (bitcoin_hash_bytes (bk_hash block)) (bk_time block) operations), cache)
  end.

Definition decode_bitcoin_block (height : Z) (bytes magic : list byte) : result BitcoinParseError BitcoinBlock :=
  (decode_block_with_pre_stx height bytes magic PreStxCache.new).1.

End Decoding.
