(* ===== verification/BitcoinSource.v ===== *)
(** * Reading the Bitcoin chain, of [crates/nano-bitcoin/src/lib.rs]

    [BitcoinRpcSource] reads from Bitcoin Core, [BitcoinRestSource] from an
    Esplora server. Both walk forward block by block, keep the [PreStx] window,
    and check that the last block read is still there. What the remote end
    answers is an argument of each call, so it can change between calls. *)

From stdpp Require Import gmap.
From S2P Require Import Prelude Primitives Address CodecIO Crypto SortitionRules BitcoinScript PeerWire.

Definition MAX_BITCOIN_BLOCK_BYTES : Z := 4000000.
Definition MAX_BITCOIN_TEXT_BYTES : Z := 128.

Inductive BitcoinSourceError (E : Type) : Type :=
| Rpc (error : E)
| Rest (error : E)
| RestUnreadable (text : list byte)
| RestResponseTooLarge (limit : Z)
| Parse (error : BitcoinParseError)
| Reorganized (height : Z).
Arguments Rpc {E}. Arguments Rest {E}. Arguments RestUnreadable {E}. Arguments RestResponseTooLarge {E}.
Arguments Parse {E}. Arguments Reorganized {E}.

(** The fields the two sources have in common. *)
Record SourceState : Type := mkSource {
  src_magic : list byte;
  src_pre_stx : PreStxCache.t;
  src_last_height : option Z;
  src_last_block : option BitcoinBlock;
}.

Definition source_new (magic : list byte) : SourceState := mkSource magic PreStxCache.new None None.

(** What a reader of the chain asks its remote end. *)
Record Remote (E : Type) : Type := mkRemote {
  remote_hash_at : Z -> result (BitcoinSourceError E) (list byte);
  remote_raw_at : Z -> result (BitcoinSourceError E) (list byte);
}.
Arguments mkRemote {E}. Arguments remote_hash_at {E}. Arguments remote_raw_at {E}.

Section Walk.
Context {E : Type} `{ED : Edwards} `{BL : BitcoinLib}.
Variable invalidate : SourceState -> Z -> SourceState.
Variable remote : Remote E.

(** [check_last_read]. *)
Definition check_last_read (s : SourceState) : result (BitcoinSourceError E) unit * SourceState :=
  match src_last_block s with
  | None => (Ok tt, s)
  | Some block =>
      match remote_hash_at remote (bb_height block) with
      | Err e => (Err e, s)
      | Ok hash =>
          if decide (hash = bb_hash block) then (Ok tt, s)
          else (Err (Reorganized (bb_height block)), invalidate s (bb_height block))
      end
  end.

(** The loop over [n] heights from [height]; [current] is the last block read. *)
Fixpoint walk (s : SourceState) (height : Z) (n : nat) (current : option BitcoinBlock)
  : result (BitcoinSourceError E) (option BitcoinBlock) * SourceState :=
  match n with
  | O => (Ok current, s)
  | S n =>
      match remote_raw_at remote height with
      | Err e => (Err e, s)
      | Ok raw =>
          let '(r, cache) := decode_block_with_pre_stx height raw (src_magic s) (src_pre_stx s) in
          match r with
          | Err e => (Err (Parse e), mkSource (src_magic s) cache (src_last_height s) (src_last_block s))
          | Ok block => walk (mkSource (src_magic s) cache (Some height) (Some block)) (height + 1) n (Some block)
          end
      end
  end.

(** The first height [block_at] reads. *)
Definition first_height (s : SourceState) (height : Z) : Z :=
  match src_last_height s with
  | Some last => if last <? height then last + 1 else saturating_sub height PRE_STX_WINDOW_BLOCKS
  | None => saturating_sub height PRE_STX_WINDOW_BLOCKS
  end.

(** [block_at]. *)
Definition source_block_at (s : SourceState) (height : Z) : result (BitcoinSourceError E) BitcoinBlock * SourceState :=
  let '(r, s) := check_last_read s in
  match r with
  | Err e => (Err e, s)
  | Ok _ =>
      match (match src_last_block s with Some block => if bb_height block =? height then Some block else None | None => None end) with
      | Some block => (Ok block, s)
      | None =>
          let pre_stx := match src_last_height s with
                         | Some last => if height <? last then PreStxCache.new else src_pre_stx s
                         | None => src_pre_stx s
                         end in
          let first := first_height s height in
          let s := mkSource (src_magic s) pre_stx (src_last_height s) (src_last_block s) in
          let '(r, s) := walk s first (Z.to_nat (height - first + 1)) None in
          match r with
          | Err e => (Err e, s)
          | Ok (Some block) => (Ok block, s)
          | Ok None => (Err (Parse InvalidBlock), s)
          end
      end
  end.

End Walk.

Definition keep_below (height : Z) (block : option BitcoinBlock) : option BitcoinBlock :=
  block ← block; if bb_height block <? height then Some block else None.

Module BitcoinRpcSource.
Section Ops.
Context {E : Type} `{ED : Edwards} `{BL : BitcoinLib}.

(** Bitcoin Core: a hash in internal order at a height, and the serialized block of a hash. *)
Record Client : Type := mkClient { get_block_hash : Z -> result E (list byte); get_block : list byte -> result E (list byte) }.

Definition invalidate_from (s : SourceState) (height : Z) : SourceState :=
  mkSource (src_magic s) (PreStxCache.invalidate_from (src_pre_stx s) height)
    (last ← src_last_height s; if last <? height then Some last else checked_sub height 1)
    (keep_below height (src_last_block s)).

Definition block_hash_at (client : Client) (height : Z) : result (BitcoinSourceError E) (list byte) :=
  match get_block_hash client height with Ok hash => Ok (bitcoin_hash_bytes hash) | Err e => Err (Rpc e) end.

(** The two calls of the loop of [block_at]. *)
Definition raw_at (client : Client) (height : Z) : result (BitcoinSourceError E) (list byte) :=
  match get_block_hash client height with
  | Err e => Err (Rpc e)
  | Ok hash => match get_block client hash with Ok raw => Ok raw | Err e => Err (Rpc e) end
  end.

Definition remote (client : Client) : Remote E := mkRemote (block_hash_at client) (raw_at client).

Definition block_at (client : Client) (s : SourceState) (height : Z) : result (BitcoinSourceError E) BitcoinBlock * SourceState :=
  source_block_at invalidate_from (remote client) s height.

End Ops.
End BitcoinRpcSource.

(** ** Text *)

(** The UTF-8 encodings of the characters [char::is_whitespace] accepts. *)
Definition whitespace : list (list byte) :=
  [[9%u8]; [10%u8]; [11%u8]; [12%u8]; [13%u8]; [32%u8]; [0xC2; 0x85]%u8; [0xC2; 0xA0]%u8; [0xE1; 0x9A; 0x80]%u8;
   [0xE2; 0x80; 0x80]%u8; [0xE2; 0x80; 0x81]%u8; [0xE2; 0x80; 0x82]%u8; [0xE2; 0x80; 0x83]%u8; [0xE2; 0x80; 0x84]%u8;
   [0xE2; 0x80; 0x85]%u8; [0xE2; 0x80; 0x86]%u8; [0xE2; 0x80; 0x87]%u8; [0xE2; 0x80; 0x88]%u8; [0xE2; 0x80; 0x89]%u8;
   [0xE2; 0x80; 0x8A]%u8; [0xE2; 0x80; 0xA8]%u8; [0xE2; 0x80; 0xA9]%u8; [0xE2; 0x80; 0xAF]%u8; [0xE2; 0x81; 0x9F]%u8;
   [0xE3; 0x80; 0x80]%u8].

(** Strip the prefixes of [ws] from [l]; each takes at least one byte. *)
Fixpoint strip (ws : list (list byte)) (l : list byte) (fuel : nat) : list byte :=
  match fuel with
  | O => l
  | S fuel =>
      match List.find (fun w => bool_decide (take (length w) l = w)) ws with
      | Some w => strip ws (drop (length w) l) fuel
      | None => l
      end
  end.

(** [str::trim]. *)
Definition trim (l : list byte) : list byte :=
  let l := strip whitespace l (length l) in
  rev (strip (map (@rev byte) whitespace) (rev l) (length l)).

Definition hex_digit (b : byte) : option Z :=
  let z := u8 b in
  if (48 <=? z) && (z <=? 57) then Some (z - 48)
  else if (97 <=? z) && (z <=? 102) then Some (z - 87)
  else if (65 <=? z) && (z <=? 70) then Some (z - 55)
  else None.

(** [u8::from_str_radix] of two bytes, which takes a leading plus sign. *)
Definition hex_pair (a b : byte) : option byte :=
  low ← hex_digit b;
  if u8 a =? 43 then Some (byte_of low)
  else high ← hex_digit a; Some (byte_of (high * 16 + low)).

Fixpoint hex_pairs (text : list byte) : option (list byte) :=
  match text with
  | a :: b :: rest => x ← hex_pair a b; xs ← hex_pairs rest; Some (x :: xs)
  | [] => Some []
  | _ => None
  end.

Definition decode_block_hash (text : list byte) : option (list byte) :=
  if negb (len text =? 64) then None else hex_pairs text.

(** [str::parse::<u64>]. *)
Fixpoint digits (text : list byte) (value : Z) : option Z :=
  match text with
  | [] => Some value
  | b :: rest =>
      if (48 <=? u8 b) && (u8 b <=? 57) && (value * 10 + (u8 b - 48) <=? U64_MAX) then digits rest (value * 10 + (u8 b - 48)) else None
  end.

Definition parse_u64 (text : list byte) : option Z :=
  let text := match text with b :: rest => if u8 b =? 43 then rest else text | [] => [] end in
  match text with [] => None | _ => digits text 0 end.

Module BitcoinRestSource.
Section Ops.
Context {E : Type} `{ED : Edwards} `{BL : BitcoinLib}.

Inductive Path : Type := BlockHeight (height : Z) | BlockRaw (hash : list byte) | TipHeight.

(** What the server answers a request with, before any limit. *)
Definition Server : Type := Path -> result E (list byte).

Definition get (server : Server) (path : Path) (limit : Z) : result (BitcoinSourceError E) (list byte) :=
  match server path with
  | Err e => Err (Rest e)
  | Ok body =>
      let body := take (Z.to_nat (saturating_add U64_MAX limit 1)) body in
      if limit <? len body then Err (RestResponseTooLarge limit) else Ok body
  end.

(** [String::from_utf8(self.get(..)?)]. *)
Definition get_text (server : Server) (path : Path) : result (BitcoinSourceError E) (list byte) :=
  let? body := get server path MAX_BITCOIN_TEXT_BYTES in
  if utf8_valid body then Ok body else Err (RestUnreadable body).

Definition block_hash_at (server : Server) (height : Z) : result (BitcoinSourceError E) (list byte) :=
  let? text := get_text server (BlockHeight height) in
  or_err (decode_block_hash (trim text)) (RestUnreadable text).

Definition tip_height (server : Server) : result (BitcoinSourceError E) Z :=
  let? text := get_text server TipHeight in
  or_err (parse_u64 (trim text)) (RestUnreadable text).

Definition raw_at (server : Server) (height : Z) : result (BitcoinSourceError E) (list byte) :=
  let? hash := get_text server (BlockHeight height) in
  get server (BlockRaw (trim hash)) MAX_BITCOIN_BLOCK_BYTES.

Definition invalidate_from (s : SourceState) (height : Z) : SourceState :=
  mkSource (src_magic s) (PreStxCache.invalidate_from (src_pre_stx s) height)
    (last ← src_last_height s; if last <? height then Some last else None)
    (keep_below height (src_last_block s)).

Definition remote (server : Server) : Remote E := mkRemote (block_hash_at server) (raw_at server).

Definition block_at (server : Server) (s : SourceState) (height : Z) : result (BitcoinSourceError E) BitcoinBlock * SourceState :=
  source_block_at invalidate_from (remote server) s height.

End Ops.
End BitcoinRestSource.
