(* ===== verification/SortitionDraw.v ===== *)
(** * The draw of a sortition: distribution, ranges and winner of
      [crates/nano-sortition/src/lib.rs] and [carryover.rs]

    Candidates are weighed by the smaller of what they burn and the median of what
    their chain of commitments burned over the window; each gets a range of the
    256-bit numbers in proportion, and the winner's range holds the point the
    sortition hash draws. [Uint256] and [Uint512] are integers; the table of
    advantages is generated when the crate is built, so it is a class. An outer
    [option] is [None] where the code panics. *)

From stdpp Require Import gmap sorting.
From S2P Require Import Prelude Primitives Address Crypto SortitionRules.

Definition U256_MAX : Z := 2 ^ 256 - 1.
Definition U512_MAX : Z := 2 ^ 512 - 1.

(** [Uint256::from_little_endian]. *)
Definition from_little_endian (bytes : list byte) : Z := from_be_bytes (rev bytes).

(** Arithmetic of [Uint256] and [Uint512] panics on overflow. *)
Definition big_mul (max a b : Z) : option Z := if a * b <=? max then Some (a * b) else None.

(** ** Data *)

Record BurnSample : Type := mkSample {
  sa_candidate : MiningCommitment;
  sa_burn_sats : Z;
  sa_median_burn_sats : Z;
  sa_frequency : Z;
  sa_range_start : Z;
  sa_range_end : Z;
}.

Record SortitionParticipant : Type := mkParticipant {
  pa_txid : list byte;
  pa_signing_key_hash : option (list byte);
  pa_vrf_public_key : option (list byte);
  pa_committed_block_hash : list byte;
  pa_burn_sats : Z;
  pa_effective_burn_sats : Z;
  pa_median_burn_sats : Z;
  pa_frequency : Z;
}.

Record MiningCompetition : Type := mkCompetition {
  co_winner_txid : option (list byte);
  co_block_burn_sats : Z;
  co_window_median_burn_sats : Z;
  co_sampled_window_blocks : Z;
  co_participants : list SortitionParticipant;
}.

Record CommitmentBurnStatistics : Type := mkStatistics { bs_block_burn : Z; bs_window_median_burn : Z }.
Record BurnSpends : Type := mkSpends { sp_total : Z; sp_winner : Z }.

(** ** Medians *)

(** [u128::midpoint]. *)
Definition midpoint (a b : Z) : Z := (a + b) / 2.

(** The median of a slice after [sort_unstable]. *)
Definition median_burn (burns : list Z) : option Z :=
  let sorted := merge_sort Z.le burns in
  let middle := len sorted / 2 in
  if len sorted mod 2 =? 0 then
    below ← checked_sub middle 1;
    a ← index sorted below;
    b ← index sorted middle;
    try_from U64_MAX (midpoint a b)
  else index sorted middle.

(** [commitments.iter().try_fold(0, |total, c| total.checked_add(c.burn_sats).ok_or(BurnOverflow))]. *)
Definition block_total (b : CommitmentWindowBlock) : result SortitionError Z :=
  checked_sum U64_MAX BurnOverflow 0 (map mc_burn_sats (wb_commitments b)).

Definition commitment_burn_statistics (window : list CommitmentWindowBlock)
  : option (result SortitionError CommitmentBurnStatistics) :=
  match last window with
  | None => Some (Err EmptyCommitmentWindow)
  | Some latest =>
      match collect block_total window with
      | Err e => Some (Err e)
      | Ok block_burns =>
          window_median_burn ← median_burn block_burns;
          Some (let? block_burn := block_total latest in Ok (mkStatistics block_burn window_median_burn))
      end
  end.

(** ** Chains of commitments *)

Inductive Link : Type := LinkCommitment (c : MiningCommitment) | LinkMissed (m : MissedCommitment).

Definition link_burn_sats (l : Link) : Z :=
  match l with LinkCommitment c => mc_burn_sats c | LinkMissed _ => 1 end.

Definition link_spent (l : Link) : list byte * Z :=
  match l with
  | LinkCommitment c => (mc_spent_txid c, mc_spent_output c)
  | LinkMissed m => (ms_spent_txid m, ms_spent_output m)
  end.

(** [map(|c| (c.txid, c)).collect::<HashMap<_, _>>()]: the last of two equal keys stays. *)
Definition by_txid {A} (txid : A -> list byte) (l : list A) : gmap (list byte) A :=
  fold_left (fun m c => <[txid c := c]> m) l ∅.

(** [chain.iter().rev().find_map(Option::as_ref)]. *)
Fixpoint last_link (chain : list (option Link)) : option Link :=
  match chain with
  | [] => None
  | l :: chain => match last_link chain with Some x => Some x | None => l end
  end.

(** What extends a chain that ends in [last], and the commitments then not yet used. *)
Definition link_for (expected_output : Z) (commitments : gmap (list byte) MiningCommitment)
  (missed : gmap (list byte) MissedCommitment) (last : Link)
  : option Link * gmap (list byte) MiningCommitment * gmap (list byte) MissedCommitment :=
  let '(spent_txid, spent_output) := link_spent last in
  if negb (spent_output =? expected_output) then (None, commitments, missed)
  else match commitments !! spent_txid with
       | Some commitment => (Some (LinkCommitment commitment), delete spent_txid commitments, missed)
       | None =>
           match missed !! spent_txid with
           | Some commitment => (Some (LinkMissed commitment), commitments, delete spent_txid missed)
           | None => (None, commitments, missed)
           end
       end.

(** [for chain in &mut linked]. *)
Fixpoint link_chains (expected_output : Z) (commitments : gmap (list byte) MiningCommitment)
  (missed : gmap (list byte) MissedCommitment) (linked : list (list (option Link)))
  : result SortitionError (list (list (option Link))) :=
  match linked with
  | [] => Ok []
  | chain :: rest =>
      let? last := or_err (last_link chain) InvalidCommitmentWindow in
      let '(link, commitments, missed) := link_for expected_output commitments missed last in
      let? rest := link_chains expected_output commitments missed rest in
      Ok ((chain ++ [link]) :: rest)
  end.

(** [for (slot, block) in earlier.iter().enumerate().rev()]; [above] is [window.get(slot + 1)]. *)
Fixpoint link_slots (slots : list (CommitmentWindowBlock * option CommitmentWindowBlock)) (linked : list (list (option Link)))
  : result SortitionError (list (list (option Link))) :=
  match slots with
  | [] => Ok linked
  | (block, above) :: slots =>
      let expected_output := if wb_requires_single_commit block then 2 else 3 in
      let commitments := by_txid mc_txid (wb_commitments block) in
      let missed := by_txid ms_txid (match above with Some b => wb_missed_commitments b | None => [] end) in
      let? linked := link_chains expected_output commitments missed linked in
      link_slots slots linked
  end.

(** The slots below the latest block, each with the block above it, latest first. *)
Definition earlier_slots (window : list CommitmentWindowBlock) : list (CommitmentWindowBlock * option CommitmentWindowBlock) :=
  rev (imap (fun slot block => (block, window !! S slot)) (removelast window)).

Definition make_burn_sample (chain : list (option Link)) (window_len : Z) : option (result SortitionError BurnSample) :=
  match chain with
  | Some (LinkCommitment candidate) :: _ =>
      if negb (len chain =? window_len) then Some (Err InvalidCommitmentWindow) else
      let burns := map (fun l => match l with Some l => link_burn_sats l | None => 1 end) chain in
      median_burn_sats ← median_burn burns;
      frequency ← try_from U8_MAX (len (List.filter (fun l => match l with Some _ => true | None => false end) chain));
      first ← head burns;
      Some (Ok (mkSample candidate (Z.min first median_burn_sats) median_burn_sats frequency 0 0))
  | _ => Some (Err InvalidCommitmentWindow)
  end.

(** [linked.into_iter().map(|chain| make_burn_sample(&chain, window_len)).collect::<Result<Vec<_>, _>>()]. *)
Fixpoint make_samples (linked : list (list (option Link))) (window_len : Z) : option (result SortitionError (list BurnSample)) :=
  match linked with
  | [] => Some (Ok [])
  | chain :: rest =>
      sample ← make_burn_sample chain window_len;
      match sample with
      | Err e => Some (Err e)
      | Ok sample =>
          samples ← make_samples rest window_len;
          Some (let? samples := samples in Ok (sample :: samples))
      end
  end.

(** ** Ranges *)

Definition set_range (start stop : Z) (s : BurnSample) : BurnSample :=
  mkSample (sa_candidate s) (sa_burn_sats s) (sa_median_burn_sats s) (sa_frequency s) start stop.

(** The loop of [assign_ranges]. *)
Fixpoint range_loop (total accumulated range_end : Z) (samples : list BurnSample)
  : option (result SortitionError (list BurnSample)) :=
  match samples with
  | [] => Some (Ok [])
  | sample :: rest =>
      match checked_add U64_MAX accumulated (sa_burn_sats sample) with
      | None => Some (Err BurnOverflow)
      | Some accumulated =>
          scaled ← big_mul U512_MAX U256_MAX accumulated;
          next ← try_from U256_MAX (scaled / total);
          samples ← range_loop total accumulated next rest;
          Some (let? samples := samples in Ok (set_range range_end next sample :: samples))
      end
  end.

Definition assign_ranges (samples : list BurnSample) : option (result SortitionError (list BurnSample)) :=
  match samples with
  | [] => Some (Ok [])
  | [sample] => Some (Ok [set_range (sa_range_start sample) U256_MAX sample])
  | _ =>
      match checked_sum U64_MAX BurnOverflow 0 (map sa_burn_sats samples) with
      | Err e => Some (Err e)
      | Ok total =>
          if total =? 0 then Some (Err ZeroBurnDistribution) else range_loop total 0 0 samples
      end
  end.

Definition commitment_distribution (window : list CommitmentWindowBlock) : option (result SortitionError (list BurnSample)) :=
  match last window with
  | None => Some (Err EmptyCommitmentWindow)
  | Some latest =>
      match try_from U8_MAX (len window) with
      | None => Some (Err WindowTooLong)
      | Some window_len =>
          match link_slots (earlier_slots window) (map (fun c => [Some (LinkCommitment c)]) (wb_commitments latest)) with
          | Err e => Some (Err e)
          | Ok linked =>
              samples ← make_samples linked window_len;
              match samples with Err e => Some (Err e) | Ok samples => assign_ranges samples end
          end
      end
  end.

Definition participant (s : BurnSample) : SortitionParticipant :=
  let c := sa_candidate s in
  mkParticipant (mc_txid c) (mc_signing_key_hash c) (mc_vrf_public_key c) (mc_committed_block_hash c) (mc_burn_sats c)
    (sa_burn_sats s) (sa_median_burn_sats s) (sa_frequency s).

Definition mining_competition (distribution : list BurnSample) (statistics : CommitmentBurnStatistics)
  (sampled_window_blocks : Z) (winner_txid : option (list byte)) : option MiningCompetition :=
  blocks ← try_from U8_MAX sampled_window_blocks;
  Some (mkCompetition winner_txid (bs_block_burn statistics) (bs_window_median_burn statistics) blocks
          (map participant distribution)).

(** ** The null miner *)

(** [CARRYOVER_ADVANTAGE: [u64; 1024]], written by the crate's build script. *)
Class CarryoverTable : Type := { CARRYOVER_ADVANTAGE : list Z }.
Class CarryoverTableOk `{CarryoverTable} : Prop := {
  carryover_length : length CARRYOVER_ADVANTAGE = 1024%nat;
  carryover_u64 : Forall is_u64 CARRYOVER_ADVANTAGE;
}.

(** [value << shift] and [value >> shift] of [Uint256]. *)
Definition shl256 (value shift : Z) : Z := Z.land (Z.shiftl value shift) U256_MAX.
Definition shr256 (value shift : Z) : Z := Z.shiftr value shift.

Module FixedPoint.

Definition zero : Z := 0.
Definition one : Z := shl256 1 64.
(** [None] is a division by zero. *)
Definition fraction (numerator denominator : Z) : option Z :=
  if denominator =? 0 then None else Some (shl256 numerator 64 / denominator).
Definition minimum (self other : Z) : Z := Z.min self other.
Definition subtract (self other : Z) : option Z := if other <=? self then Some (self - other) else None.
Definition multiply (self other : Z) : option Z := product ← big_mul U256_MAX self other; Some (shr256 product 64).
(** [low_u64]. *)
Definition integer_part (self : Z) : Z := Z.land (shr256 self 64) U64_MAX.
Definition probability (self : Z) : Z := if one <=? self then shl256 (one - 1) 192 else shl256 self 192.

End FixedPoint.

Section Draw.
Context `{HS : Hashes} `{CT : CarryoverTable}.

Definition carryover (block_burn window_median_burn : Z) : option (option Z) :=
  if window_median_burn =? 0 then Some (Some FixedPoint.zero)
  else if block_burn <? window_median_burn then
    f ← FixedPoint.fraction block_burn window_median_burn; Some (Some f)
  else Some None.

Definition lookup_advantage (carryover : Z) : option Z :=
  let capped := FixedPoint.minimum carryover FixedPoint.one in
  scale ← FixedPoint.fraction 1024 1;
  product ← FixedPoint.multiply capped scale;
  let i := Z.min (FixedPoint.integer_part product) (len CARRYOVER_ADVANTAGE - 1) in
  index CARRYOVER_ADVANTAGE i.

(** The inner [option] is the code's; the outer one is a panic. *)
Definition null_miner_probability (block_burn window_median_burn : Z) : option (option Z) :=
  c ← carryover block_burn window_median_burn;
  match c with
  | None => Some None
  | Some carryover =>
      advantage ← lookup_advantage carryover;
      product ← FixedPoint.multiply carryover advantage;
      match FixedPoint.subtract FixedPoint.one carryover with
      | None => Some None
      | Some rest =>
          match checked_add U256_MAX product rest with
          | None => Some None
          | Some probability =>
              Some (Some (FixedPoint.probability (FixedPoint.minimum probability FixedPoint.one)))
          end
      end
  end.

(** ** The winner *)

Definition in_sample (point : Z) (s : BurnSample) : bool := (sa_range_start s <=? point) && (point <? sa_range_end s).

(** [iter().position(..)], counting from [i]. *)
Fixpoint position {A} (i : nat) (test : A -> bool) (l : list A) : option nat :=
  match l with
  | [] => None
  | x :: l => if test x then Some i else position (S i) test l
  end.

Definition draw_point (sortition_hash previous_vrf_seed : list byte) : Z :=
  from_little_endian (SortitionHash.mix_vrf_seed sortition_hash previous_vrf_seed).

Definition select_winner (distribution : list BurnSample) (sortition_hash previous_vrf_seed : list byte) : option nat :=
  match distribution with
  | [] => None
  | [_] => Some 0%nat
  | _ => position 0 (in_sample (draw_point sortition_hash previous_vrf_seed)) distribution
  end.

Definition select_epoch4_winner (distribution : list BurnSample) (sampled_window_len : Z)
  (sortition_hash previous_vrf_seed : list byte) (block_burn window_median_burn : Z) : option (option nat) :=
  match select_winner distribution sortition_hash previous_vrf_seed with
  | None => Some None
  | Some candidate =>
      sample ← distribution !! candidate;
      if sa_frequency sample <? Z.min 3 sampled_window_len then Some None else
      null_range_end ← null_miner_probability block_burn window_median_burn;
      match null_range_end with
      | None => Some (Some candidate)
      | Some null_range_end =>
          if null_range_end <=? draw_point sortition_hash previous_vrf_seed then Some (Some candidate) else Some None
      end
  end.

End Draw.
