(* ===== verification/SortitionTheorems.v ===== *)
(** * Theorems about the draw of a sortition

    The samples of a window follow chains of commitments that spend one another,
    each commitment used by at most one chain; the ranges cover the 256-bit
    numbers in proportion to the burns; and the winner is the one sample whose
    range holds the point drawn.

    And theorems about the commitments of a Bitcoin block and the PoX history. *)

From stdpp Require Import gmap sorting.
From S2P Require Import Prelude Primitives Address Crypto SortitionRules SortitionDraw.

(** ** Medians *)

Lemma index_elem {A} (l : list A) i x : index l i = Some x -> x ∈ l.
Proof. unfold index. destruct (0 <=? i); [|done]. apply list_elem_of_lookup_2. Qed.

Lemma median_total (burns : list Z) : burns <> [] -> Forall is_u64 burns ->
  exists m x y, median_burn burns = Some m /\ x ∈ burns /\ y ∈ burns /\ x <= m <= y.
Proof.
  intros Hne HF. unfold median_burn. pose proof (merge_sort_Permutation Z.le burns) as Hp.
  set (sorted := merge_sort Z.le burns) in *. assert (Hlen : 1 <= len sorted).
  { rewrite (Permutation_length Hp). destruct burns; [done|]. cbn. lia. }
  assert (Hin : forall i x, index sorted i = Some x -> x ∈ burns) by (intros i x Hx; rewrite <- Hp; by eapply index_elem).
  destruct (Z.eqb_spec (len sorted mod 2) 0) as [Heven|].
  - pose proof (Z.div_mod (len sorted) 2 ltac:(lia)). assert (1 <= len sorted / 2) by lia.
    unfold checked_sub. rewrite (proj2 (Z.leb_le _ _)) by lia. cbn [mbind option_bind].
    destruct (index_Some_lt sorted (len sorted / 2 - 1)) as [a Ha]; [lia|]. destruct (index_Some_lt sorted (len sorted / 2)) as [b Hb]; [lia|].
    rewrite Ha, Hb. cbn [mbind option_bind]. apply Hin in Ha, Hb.
    pose proof (proj1 (Forall_forall _ _) HF a Ha) as Hua. pose proof (proj1 (Forall_forall _ _) HF b Hb) as Hub.
    unfold midpoint, is_u64 in *. pose proof (Z.div_mod (a + b) 2 ltac:(lia)). pose proof (Z.mod_pos_bound (a + b) 2 ltac:(lia)).
    rewrite (proj2 (try_from_Some U64_MAX _ ((a + b) / 2))) by (split; [done|lia]).
    destruct (Z.le_ge_cases a b); [exists ((a + b) / 2), a, b|exists ((a + b) / 2), b, a]; (split; [done|]); (split; [done|]); (split; [done|]); lia.
  - assert (0 <= len sorted / 2 < len sorted) by (split; [apply Z.div_pos; lia|apply Z.div_lt; lia]).
    destruct (index_Some_lt sorted (len sorted / 2)) as [b Hb]; [done|]. exists b, b, b. split; [done|]. apply Hin in Hb. split; [done|]. split; [done|lia].
Qed.

(** ** Chains *)

Definition expected_output (b : CommitmentWindowBlock) : Z := if wb_requires_single_commit b then 2 else 3.

Definition slot_missed (slot : CommitmentWindowBlock * option CommitmentWindowBlock) : list MissedCommitment :=
  match slot.2 with Some b => wb_missed_commitments b | None => [] end.

(** [l] extends a chain that ends in [last] into a slot: a commitment of the slot's
    block, or a miss of the block above it, whose output [last] spends. *)
Definition slot_link (slot : CommitmentWindowBlock * option CommitmentWindowBlock) (last : Link) (l : option Link) : Prop :=
  match l with
  | None => True
  | Some (LinkCommitment c) => c ∈ wb_commitments slot.1 /\ link_spent last = (mc_txid c, expected_output slot.1)
  | Some (LinkMissed m) => m ∈ slot_missed slot /\ link_spent last = (ms_txid m, expected_output slot.1)
  end.

(** The links of a chain below the candidate [last], latest slot first. *)
Fixpoint valid_links (last : Link) (slots : list (CommitmentWindowBlock * option CommitmentWindowBlock)) (links : list (option Link)) : Prop :=
  match slots, links with
  | [], [] => True
  | slot :: slots, l :: links => slot_link slot last l /\ valid_links (default last l) slots links
  | _, _ => False
  end.

(** A chain of the candidate [c] through the slots. *)
Definition chain_of (slots : list (CommitmentWindowBlock * option CommitmentWindowBlock)) (c : MiningCommitment) (chain : list (option Link)) : Prop :=
  exists links, chain = Some (LinkCommitment c) :: links /\ valid_links (LinkCommitment c) slots links.

Lemma last_link_app chain l : last_link (chain ++ [l]) = match l with Some x => Some x | None => last_link chain end.
Proof.
  induction chain as [|x chain IH]; cbn [last_link app]; [by destruct l|]. rewrite IH. destruct l; [done|]. done.
Qed.

Lemma valid_links_snoc last slots links slot l last' : valid_links last slots links ->
  last_link (Some last :: links) = Some last' -> slot_link slot last' l -> valid_links last (slots ++ [slot]) (links ++ [l]).
Proof.
  revert last links. induction slots as [|s slots IH]; intros last [|x links] Hv Hl Hs; try done.
  - cbn in *. injection Hl as ->. done.
  - destruct Hv as [Hx Hv]. cbn [app valid_links]. split; [done|]. eapply IH; [done| |done].
    cbn [last_link] in Hl |- *. destruct (last_link links) as [y|]; [done|]. by destruct x.
Qed.

Lemma last_link_some c links : exists l, last_link (Some (LinkCommitment c) :: links) = Some l.
Proof. cbn. destruct (last_link links); eauto. Qed.

(** ** Maps by identifier *)

Lemma by_txid_spec {A} (txid : A -> list byte) l k c : by_txid txid l !! k = Some c -> c ∈ l /\ txid c = k.
Proof.
  unfold by_txid. assert (Hgen : forall m : gmap (list byte) A, fold_left (fun m c => <[txid c := c]> m) l m !! k = Some c -> (c ∈ l /\ txid c = k) \/ m !! k = Some c).
  { induction l as [|x l IH]; intros m; cbn [fold_left]; [auto|]. intros [[Hin Hk]|Hm]%IH; [left; set_solver|].
    apply lookup_insert_Some in Hm as [[<- <-]|[_ Hm]]; [left; set_solver|auto]. }
  intros H. apply Hgen in H as [?|H]; [done|]. by rewrite lookup_empty in H.
Qed.

(** ** Linking one slot *)

(** The links added in one pass: for each kind, those with distinct identifiers. *)
Definition commitment_ids (links : list (option Link)) : list (list byte) :=
  omap (fun l => match l with Some (LinkCommitment c) => Some (mc_txid c) | _ => None end) links.
Definition missed_ids (links : list (option Link)) : list (list byte) :=
  omap (fun l => match l with Some (LinkMissed m) => Some (ms_txid m) | _ => None end) links.

Definition used_once (links : list (option Link)) : Prop := NoDup (commitment_ids links) /\ NoDup (missed_ids links).

(** The maps hold commitments of the slot under their identifiers. *)
Definition slot_maps (slot : CommitmentWindowBlock * option CommitmentWindowBlock) (cm : gmap (list byte) MiningCommitment)
  (ms : gmap (list byte) MissedCommitment) : Prop :=
  (forall k c, cm !! k = Some c -> c ∈ wb_commitments slot.1 /\ mc_txid c = k) /\
  (forall k m, ms !! k = Some m -> m ∈ slot_missed slot /\ ms_txid m = k).

(** The identifiers used are keys of the maps. *)
Definition ids_in (cm : gmap (list byte) MiningCommitment) (ms : gmap (list byte) MissedCommitment) (links : list (option Link)) : Prop :=
  Forall (fun k => is_Some (cm !! k)) (commitment_ids links) /\ Forall (fun k => is_Some (ms !! k)) (missed_ids links).

Lemma link_for_spec slot cm ms last l cm' ms' : slot_maps slot cm ms ->
  link_for (expected_output slot.1) cm ms last = (l, cm', ms') ->
  slot_link slot last l /\ slot_maps slot cm' ms' /\
  forall links, used_once links -> ids_in cm' ms' links -> used_once (l :: links) /\ ids_in cm ms (l :: links).
Proof.
  intros [Hc Hm] Hl. unfold link_for in Hl. destruct (link_spent last) as [st so] eqn:Hspent.
  destruct (Z.eqb_spec so (expected_output slot.1)) as [->|]; cbn [negb] in Hl; [|by injection Hl as <- <- <-].
  destruct (cm !! st) as [c|] eqn:Hcm; [|destruct (ms !! st) as [m|] eqn:Hms; [|by injection Hl as <- <- <-]]; injection Hl as <- <- <-.
  - destruct (Hc _ _ Hcm) as [Hin Hid]. split; [split; [done|]; by rewrite Hspent, Hid|]. split.
    { split; [|done]. intros k x [_ Hx]%lookup_delete_Some. by apply Hc. }
    intros links [Hn1 Hn2] [Hi1 Hi2]. unfold used_once, ids_in, commitment_ids, missed_ids in *. cbn [omap list_omap]. rewrite Hid.
    split; (split; [|done]).
    + constructor; [|done]. intros [x Hx]%(proj1 (Forall_forall _ _) Hi1). by rewrite lookup_delete_eq in Hx.
    + constructor; [by rewrite Hcm|]. eapply Forall_impl; [exact Hi1|]. intros k [x [_ Hx]%lookup_delete_Some]. by rewrite Hx.
  - destruct (Hm _ _ Hms) as [Hin Hid]. split; [split; [done|]; by rewrite Hspent, Hid|]. split.
    { split; [done|]. intros k x [_ Hx]%lookup_delete_Some. by apply Hm. }
    intros links [Hn1 Hn2] [Hi1 Hi2]. unfold used_once, ids_in, commitment_ids, missed_ids in *. cbn [omap list_omap]. rewrite Hid.
    split; (split; [done|]).
    + constructor; [|done]. intros [x Hx]%(proj1 (Forall_forall _ _) Hi2). by rewrite lookup_delete_eq in Hx.
    + constructor; [by rewrite Hms|]. eapply Forall_impl; [exact Hi2|]. intros k [x [_ Hx]%lookup_delete_Some]. by rewrite Hx.
Qed.

Definition extend (linked : list (list (option Link))) (links : list (option Link)) : list (list (option Link)) :=
  zip_with (fun chain l => chain ++ [l]) linked links.

Lemma link_chains_spec slots slot cm ms cs linked : Forall2 (chain_of slots) cs linked -> slot_maps slot cm ms ->
  exists links, link_chains (expected_output slot.1) cm ms linked = Ok (extend linked links) /\
    Forall2 (chain_of (slots ++ [slot])) cs (extend linked links) /\ length links = length linked /\
    used_once links /\ ids_in cm ms links.
Proof.
  intros HF. revert cm ms. induction HF as [|c chain cs linked Hc _ IH]; intros cm ms Hmaps.
  { exists []. repeat split; constructor. }
  destruct Hc as (ls & -> & Hv). destruct (last_link_some c ls) as [last Hlast]. cbn [link_chains]. rewrite Hlast. cbn [or_err].
  destruct (link_for _ cm ms last) as [[l cm'] ms'] eqn:Hl. destruct (link_for_spec _ _ _ _ _ _ _ Hmaps Hl) as (Hs & Hmaps' & Hstep).
  destruct (IH cm' ms' Hmaps') as (links & Hlc & HF & Hlen & Hu & Hi). exists (l :: links). rewrite Hlc. split; [done|].
  destruct (Hstep links Hu Hi) as [Hu' Hi']. split_and!; [|cbn; lia|done|done]. cbn. constructor; [|done].
  exists (ls ++ [l]). split; [done|]. by eapply valid_links_snoc.
Qed.

(** ** Linking the whole window *)

Lemma valid_links_length last slots links : valid_links last slots links -> length links = length slots.
Proof. revert last links. induction slots as [|s slots IH]; intros last [|l links]; try done. intros [_ H]%id. cbn. f_equal. by eapply IH. Qed.

Lemma chain_of_length slots c chain : chain_of slots c chain -> length chain = S (length slots).
Proof. intros (links & -> & Hv). cbn. f_equal. by eapply valid_links_length. Qed.

(** The links of all chains in the [k]th place. *)
Definition column (k : nat) (linked : list (list (option Link))) : list (option Link) :=
  map (fun chain => mjoin (chain !! k)) linked.

Lemma column_extend k n linked links : Forall (fun chain => length chain = n) linked -> length links = length linked ->
  column k (extend linked links) = if decide (k = n) then links else column k linked.
Proof.
  intros HF. revert links. induction HF as [|chain linked Hn _ IH]; intros [|l links] Hlen; try done; [by case_decide|].
  cbn [extend zip_with column map]. change (map _ (zip_with _ linked links)) with (column k (extend linked links)).
  rewrite IH by (cbn in Hlen; lia). change (map _ linked) with (column k linked).
  destruct (decide (k = n)) as [->|Hk].
  - rewrite lookup_app_r, Hn, Nat.sub_diag by lia. done.
  - f_equal. destruct (decide (k < n)%nat); [by rewrite lookup_app_l by lia|].
    rewrite !lookup_ge_None_2; [done|lia|rewrite length_app; cbn; lia].
Qed.

Definition columns_once (linked : list (list (option Link))) : Prop := forall k, (1 <= k)%nat -> used_once (column k linked).

Lemma link_slots_spec slots done_ cs linked : Forall2 (chain_of done_) cs linked -> columns_once linked ->
  exists linked', link_slots slots linked = Ok linked' /\ Forall2 (chain_of (done_ ++ slots)) cs linked' /\ columns_once linked'.
Proof.
  revert done_ linked. induction slots as [|[block above] slots IH]; intros done_ linked HF Hcol.
  { exists linked. by rewrite app_nil_r. }
  assert (Hmaps : slot_maps (block, above) (by_txid mc_txid (wb_commitments block)) (by_txid ms_txid (slot_missed (block, above)))).
  { split; intros k x; apply by_txid_spec. }
  destruct (link_chains_spec done_ _ _ _ _ _ HF Hmaps) as (links & Hlc & HF' & Hlen & Hu & _).
  destruct (IH (done_ ++ [(block, above)]) (extend linked links) HF') as (linked' & Hls & HF2 & Hcol').
  - intros k Hk. rewrite (column_extend k (S (length done_))); [by case_decide; [|apply Hcol]| |done].
    clear -HF. induction HF; constructor; [by eapply chain_of_length|done].
  - exists linked'. rewrite <- app_assoc in HF2. split; [|done]. cbn [link_slots].
    change (if wb_requires_single_commit block then 2 else 3) with (expected_output (block, above).1).
    change (match above with Some b => wb_missed_commitments b | None => [] end) with (slot_missed (block, above)). by rewrite Hlc.
Qed.

Lemma columns_once_candidates cs : columns_once (map (fun c => [Some (LinkCommitment c)]) cs).
Proof.
  intros [|k] Hk; [lia|]. unfold used_once, commitment_ids, missed_ids, column.
  induction cs as [|c cs IH]; [split; constructor|]. cbn [map]. rewrite lookup_cons. cbn. destruct k; apply IH.
Qed.

Lemma candidates_chains cs : Forall2 (chain_of []) cs (map (fun c => [Some (LinkCommitment c)]) cs).
Proof. induction cs; constructor; [by exists []|done]. Qed.

(** ** Samples *)

Definition link_burn (l : option Link) : Z := match l with Some l => link_burn_sats l | None => 1 end.

(** The sample of a chain, before it has a range. *)
Definition sample_of (chain : list (option Link)) (s : BurnSample) : Prop :=
  (exists links, chain = Some (LinkCommitment (sa_candidate s)) :: links) /\
  median_burn (map link_burn chain) = Some (sa_median_burn_sats s) /\
  sa_burn_sats s = Z.min (mc_burn_sats (sa_candidate s)) (sa_median_burn_sats s) /\
  sa_frequency s = len (List.filter (fun l => match l with Some _ => true | None => false end) chain).

Definition commitment_burn_ok (c : MiningCommitment) : Prop := 1 <= mc_burn_sats c <= U64_MAX.

Definition window_ok (window : list CommitmentWindowBlock) : Prop :=
  Forall (fun b => Forall commitment_burn_ok (wb_commitments b)) window.

Lemma valid_links_burns last slots links : Forall (fun slot => Forall commitment_burn_ok (wb_commitments slot.1)) slots ->
  valid_links last slots links -> Forall (fun x => 1 <= x <= U64_MAX) (map link_burn links).
Proof.
  intros HF. revert last links. induction HF as [|s slots Hs _ IH]; intros last [|l links] Hv; try done.
  destruct Hv as [Hl Hv]. cbn [map]. constructor; [|by eapply IH]. destruct l as [[c|m]|]; cbn; [|done..].
  destruct Hl as [Hc _]. by apply (proj1 (Forall_forall _ _) Hs).
Qed.

Lemma make_burn_sample_spec slots c chain : chain_of slots c chain -> commitment_burn_ok c -> len slots <= 254 ->
  Forall (fun slot => Forall commitment_burn_ok (wb_commitments slot.1)) slots ->
  exists s, make_burn_sample chain (len slots + 1) = Some (Ok s) /\ sample_of chain s /\ sa_candidate s = c /\ 1 <= sa_burn_sats s <= U64_MAX /\
    sa_range_start s = 0.
Proof.
  intros Hch Hc Hlen HF. pose proof (chain_of_length _ _ _ Hch) as Hcl. destruct Hch as (links & -> & Hv). cbn [make_burn_sample].
  rewrite (proj2 (Z.eqb_eq _ _)) by lia. cbn [negb]. pose proof (valid_links_burns _ _ _ HF Hv) as HFl.
  assert (HFb : Forall (fun x => 1 <= x <= U64_MAX) (map link_burn (Some (LinkCommitment c) :: links))) by (constructor; done).
  destruct (median_total (map link_burn (Some (LinkCommitment c) :: links))) as (m & x & y & Hm & Hx & Hy & Hxy); [done| |].
  { eapply Forall_impl; [exact HFb|]. unfold is_u64. cbn. lia. }
  rewrite Forall_forall in HFb. apply HFb in Hx, Hy. change (map _ (Some (LinkCommitment c) :: links)) with (map link_burn (Some (LinkCommitment c) :: links)).
  rewrite Hm. cbn [mbind option_bind]. set (f := List.filter _ _).
  assert (Hf : 1 <= len f <= len slots + 1).
  { unfold f. cbn [List.filter length]. pose proof (List.filter_length_le (fun l : option Link => match l with Some _ => true | None => false end) links).
    cbn [length] in Hcl. lia. }
  rewrite (proj2 (try_from_Some U8_MAX (len f) (len f))) by (split; [done|]; unfold U8_MAX; lia). cbn [mbind option_bind map head].
  eexists. split; [done|]. unfold commitment_burn_ok in Hc. cbn [sa_candidate sa_burn_sats sa_frequency].
  split; [|split; [done|]; split; [cbn [link_burn link_burn_sats]; lia|done]].
  split; [by exists links|]. split; [done|]. by split.
Qed.

Lemma make_samples_spec slots cs linked : Forall2 (chain_of slots) cs linked -> Forall commitment_burn_ok cs -> len slots <= 254 ->
  Forall (fun slot => Forall commitment_burn_ok (wb_commitments slot.1)) slots ->
  exists samples, make_samples linked (len slots + 1) = Some (Ok samples) /\ Forall2 sample_of linked samples /\ map sa_candidate samples = cs /\
    Forall (fun s => 1 <= sa_burn_sats s <= U64_MAX /\ sa_range_start s = 0) samples.
Proof.
  intros HF Hcs Hlen Hslots. induction HF as [|c chain cs linked Hch _ IH]; [by exists []|].
  apply Forall_cons in Hcs as [Hc Hcs]. destruct (make_burn_sample_spec _ _ _ Hch Hc Hlen Hslots) as (s & Hs & Hso & <- & Hb & Hfr).
  destruct (IH Hcs) as (ss & Hss & HF2 & <- & HFb). exists (s :: ss). cbn [make_samples]. rewrite Hs. cbn [mbind option_bind]. rewrite Hss.
  split; [done|]. split; [by constructor|]. split; [done|]. by constructor.
Qed.

(** ** Ranges *)

(** The end of the range of a sample that, with those before it, burns [acc]. *)
Definition scaled (total acc : Z) : Z := U256_MAX * acc / total.

Fixpoint with_ranges (total acc : Z) (samples : list BurnSample) : list BurnSample :=
  match samples with
  | [] => []
  | s :: ss => set_range (scaled total acc) (scaled total (acc + sa_burn_sats s)) s :: with_ranges total (acc + sa_burn_sats s) ss
  end.

Lemma scaled_0 total : scaled total 0 = 0.
Proof. unfold scaled. by rewrite Z.mul_0_r, Zdiv_0_l. Qed.
Lemma scaled_all total : 0 < total -> scaled total total = U256_MAX.
Proof. intros Ht. apply Z.div_mul. lia. Qed.
Lemma scaled_mono total a b : 0 < total -> a <= b -> scaled total a <= scaled total b.
Proof. intros Ht Hab. apply Z.div_le_mono; [done|]. apply Z.mul_le_mono_nonneg_l; [done|done]. Qed.

Lemma range_loop_spec total acc samples : 0 < total <= U64_MAX -> 0 <= acc -> Forall (fun s => 0 <= sa_burn_sats s) samples ->
  acc + zsum (map sa_burn_sats samples) <= total ->
  range_loop total acc (scaled total acc) samples = Some (Ok (with_ranges total acc samples)).
Proof.
  intros Ht Hacc HF. revert acc Hacc. induction HF as [|s ss Hs HF IH]; intros acc Hacc Hsum; [done|]. cbn [map zsum] in Hsum.
  assert (0 <= zsum (map sa_burn_sats ss)) by (apply zsum_nonneg; by apply Forall_map).
  cbn [range_loop with_ranges]. rewrite (proj2 (checked_add_Some U64_MAX acc (sa_burn_sats s) _)) by (split; [done|lia]).
  unfold big_mul. rewrite (proj2 (Z.leb_le _ _)). 2:{ assert (U256_MAX * (acc + sa_burn_sats s) <= U256_MAX * U64_MAX) by (apply Z.mul_le_mono_nonneg_l; [done|lia]).
    assert (U256_MAX * U64_MAX <= U512_MAX) by done. lia. }
  cbn [mbind option_bind]. change (U256_MAX * (acc + sa_burn_sats s) / total) with (scaled total (acc + sa_burn_sats s)).
  rewrite (proj2 (try_from_Some U256_MAX _ (scaled total (acc + sa_burn_sats s)))).
  - cbn [mbind option_bind]. rewrite IH by lia. done.
  - split; [done|]. rewrite <- (scaled_all total) by lia. apply scaled_mono; lia.
Qed.

Lemma assign_ranges_spec samples : Forall (fun s => 1 <= sa_burn_sats s <= U64_MAX /\ sa_range_start s = 0) samples ->
  let total := zsum (map sa_burn_sats samples) in
  assign_ranges samples = Some (if U64_MAX <? total then Err BurnOverflow else Ok (with_ranges total 0 samples)).
Proof.
  intros HF. cbn zeta. assert (Hnn : Forall (fun s => 0 <= sa_burn_sats s) samples) by (eapply Forall_impl; [exact HF|]; cbn; lia).
  destruct samples as [|a [|b samples]]; [done| |].
  - apply Forall_singleton in HF as [Hb Hr]. cbn [map zsum assign_ranges with_ranges]. rewrite Z.add_0_r, Z.add_0_l, scaled_0, scaled_all by lia.
    rewrite (proj2 (Z.ltb_ge _ _)) by lia. by rewrite Hr.
  - set (l := a :: b :: samples) in *. unfold assign_ranges.
    change (match l with [] => _ | _ => _ end) with (match checked_sum U64_MAX BurnOverflow 0 (map sa_burn_sats l) with
      | Err e => Some (Err e) | Ok total => if total =? 0 then Some (Err ZeroBurnDistribution) else range_loop total 0 0 l end).
    assert (Hpos : 1 <= zsum (map sa_burn_sats l)).
    { unfold l. cbn [map zsum]. apply Forall_cons in HF as [[? _] HF]. apply Forall_cons in HF as [[? _] HF].
      assert (0 <= zsum (map sa_burn_sats samples)); [|lia]. apply zsum_nonneg, Forall_map. eapply Forall_impl; [exact HF|]. cbn. lia. }
    pose proof (fun n => checked_sum_ok U64_MAX BurnOverflow 0 (map sa_burn_sats l) n ltac:(by apply Forall_map) ltac:(done)) as Hsum.
    destruct (Z.ltb_spec U64_MAX (zsum (map sa_burn_sats l))) as [Hbig|Hfit].
    + destruct (checked_sum U64_MAX BurnOverflow 0 (map sa_burn_sats l)) as [n|e] eqn:Hc.
      * destruct (proj1 (Hsum n) eq_refl). lia.
      * apply checked_sum_err in Hc as ->. done.
    + rewrite (proj2 (Hsum (0 + zsum (map sa_burn_sats l)))) by (split; [done|lia]).
      rewrite (proj2 (Z.eqb_neq _ _)) by lia. rewrite Z.add_0_l. rewrite <- (scaled_0 (zsum (map sa_burn_sats l))) at 1.
      apply range_loop_spec; [lia|done|done|lia].
Qed.

(** ** The distribution *)

Lemma earlier_slots_ok window : window_ok window ->
  Forall (fun slot => Forall commitment_burn_ok (wb_commitments slot.1)) (earlier_slots window).
Proof.
  intros HF. unfold earlier_slots. apply Forall_forall. intros slot Hin. apply list_elem_of_In, in_rev, list_elem_of_In in Hin.
  apply list_elem_of_lookup_1 in Hin as [i Hi]. rewrite list_lookup_imap in Hi.
  destruct (removelast window !! i) as [b|] eqn:Hb; [|done]. injection Hi as <-. cbn.
  apply (proj1 (Forall_forall _ _) HF). destruct window as [|a l]; [done|].
  rewrite (app_removelast_last a (l := a :: l)) by done. apply elem_of_app. left. by eapply list_elem_of_lookup_2.
Qed.

Lemma earlier_slots_length window latest : last window = Some latest -> len (earlier_slots window) + 1 = len window.
Proof.
  intros Hl. unfold earlier_slots. rewrite length_rev, length_imap. destruct window as [|a l]; [done|].
  pose proof (app_removelast_last a (l := a :: l) ltac:(done)) as Heq. apply (f_equal length) in Heq. rewrite length_app in Heq. cbn in *. lia.
Qed.

(** Everything the draw needs to know of a distribution. *)
Lemma distribution_result window latest : last window = Some latest -> len window <= U8_MAX -> window_ok window ->
  exists chains samples,
    Forall2 (chain_of (earlier_slots window)) (wb_commitments latest) chains /\ columns_once chains /\
    Forall2 sample_of chains samples /\ Forall (fun s => 1 <= sa_burn_sats s <= U64_MAX) samples /\
    commitment_distribution window = Some (
      let total := zsum (map sa_burn_sats samples) in
      if U64_MAX <? total then Err BurnOverflow else Ok (with_ranges total 0 samples)).
Proof.
  intros Hl Hlen Hok. pose proof (earlier_slots_length _ _ Hl) as Hsl. pose proof (earlier_slots_ok _ Hok) as Hso.
  assert (Hcs : Forall commitment_burn_ok (wb_commitments latest)).
  { apply (proj1 (Forall_forall _ _) Hok). by apply last_Some_elem_of. }
  destruct (link_slots_spec (earlier_slots window) [] _ _ (candidates_chains (wb_commitments latest)) (columns_once_candidates _))
    as (linked & Hls & HF & Hcol). unfold U8_MAX in Hlen. cbn [app] in HF.
  destruct (make_samples_spec _ _ _ HF Hcs ltac:(lia) Hso) as (samples & Hms & HFs & _ & HFb).
  exists linked, samples. do 3 (split; [done|]). split; [eapply Forall_impl; [exact HFb|]; cbn; tauto|].
  unfold commitment_distribution. rewrite Hl, (proj2 (try_from_Some U8_MAX _ _)) by (split; [reflexivity|done]).
  rewrite Hls. rewrite <- Hsl, Hms. cbn [mbind option_bind]. by apply assign_ranges_spec.
Qed.

(** Commitment_distribution over a window of weighable commitments never panics:
    each candidate of the latest block heads a chain of commitments that spend one
    another, no commitment or miss is used by two chains in one slot, a candidate's
    burn is the lesser of its own and its chain's median, and the ranges are the
    burns' cumulative shares of the 256-bit numbers, unless the burns overflow. *)
Theorem distribution_spec (window : list CommitmentWindowBlock) (latest : CommitmentWindowBlock)
  (Hlast : last window = Some latest) (Hlen : len window <= U8_MAX) (Hok : window_ok window) :
  exists chains samples,
    Forall2 (chain_of (earlier_slots window)) (wb_commitments latest) chains /\ columns_once chains /\
    Forall2 sample_of chains samples /\
    commitment_distribution window = Some (
      let total := zsum (map sa_burn_sats samples) in
      if U64_MAX <? total then Err BurnOverflow else Ok (with_ranges total 0 samples)).
Proof.
  destruct (distribution_result _ _ Hlast Hlen Hok) as (chains & samples & H1 & H2 & H3 & _ & H4). by exists chains, samples.
Qed.

(** ** The winner *)

Lemma ranges_burns total acc samples : map sa_burn_sats (with_ranges total acc samples) = map sa_burn_sats samples.
Proof. revert acc. induction samples as [|s ss IH]; intros acc; [done|]. cbn. by rewrite IH. Qed.

Lemma with_ranges_length total acc samples : length (with_ranges total acc samples) = length samples.
Proof. revert acc. induction samples as [|s ss IH]; intros acc; [done|]. cbn. by rewrite IH. Qed.

(** The ranges of a tail start where the head's ends. *)
Lemma ranges_above total acc samples i s p : 0 < total -> Forall (fun s => 0 <= sa_burn_sats s) samples ->
  with_ranges total acc samples !! i = Some s -> in_sample p s = true -> scaled total acc <= p.
Proof.
  intros Ht HF. revert acc i. induction HF as [|x ss Hx HF IH]; intros acc i Hi Hp; [done|].
  destruct i as [|i]; cbn in Hi.
  - injection Hi as <-. unfold in_sample in Hp. cbn in Hp. lia.
  - specialize (IH _ _ Hi Hp). pose proof (scaled_mono total acc (acc + sa_burn_sats x) Ht ltac:(lia)). lia.
Qed.

Lemma position_ranges total acc samples j p i : 0 < total -> Forall (fun s => 0 <= sa_burn_sats s) samples ->
  position j (in_sample p) (with_ranges total acc samples) = Some (j + i)%nat <->
  exists s, with_ranges total acc samples !! i = Some s /\ in_sample p s = true.
Proof.
  intros Ht HF. revert acc i j. induction HF as [|x ss Hx HF IH]; intros acc i j; cbn [with_ranges position].
  { split; [done|]. by intros (s & Hs & _). }
  destruct (in_sample p _) eqn:Hin.
  - split.
    + intros [= Heq]. assert (i = 0%nat) as -> by lia. by eexists.
    + intros (s & Hs & Hp). destruct i as [|i]; [by rewrite Nat.add_0_r|]. cbn in Hs.
      pose proof (ranges_above _ _ _ _ _ _ Ht HF Hs Hp). unfold in_sample in Hin. cbn in Hin. lia.
  - destruct i as [|i].
    + split; [|intros (s & Hs & Hp); injection Hs as <-; congruence]. intros Hpos. exfalso.
      assert (Hge : forall l k n, position k (in_sample p) l = Some n -> (k <= n)%nat).
      { clear. induction l as [|y l IH]; intros k n; cbn; [done|]. destruct (in_sample p y); [intros [= ->]; lia|]. intros H%IH. lia. }
      apply Hge in Hpos. lia.
    + rewrite Nat.add_succ_r, <- Nat.add_succ_l. apply IH.
Qed.

Lemma ranges_cover total acc samples p : 0 < total -> Forall (fun s => 0 <= sa_burn_sats s) samples ->
  scaled total acc <= p < scaled total (acc + zsum (map sa_burn_sats samples)) ->
  exists i s, with_ranges total acc samples !! i = Some s /\ in_sample p s = true.
Proof.
  intros Ht HF. revert acc. induction HF as [|x ss Hx HF IH]; intros acc Hp; cbn [map zsum] in Hp; [rewrite Z.add_0_r in Hp; lia|].
  destruct (Z.lt_ge_cases p (scaled total (acc + sa_burn_sats x))) as [Hlt|Hge].
  - exists 0%nat. eexists. split; [done|]. unfold in_sample. cbn. lia.
  - destruct (IH (acc + sa_burn_sats x)) as (i & s & Hi & Hs); [rewrite <- Z.add_assoc; lia|]. by exists (S i), s.
Qed.

Lemma scaled_width total acc b : 0 < total ->
  U256_MAX * b - total < total * (scaled total (acc + b) - scaled total acc) < U256_MAX * b + total.
Proof.
  intros Ht. unfold scaled. pose proof (Z.div_mod (U256_MAX * (acc + b)) total ltac:(lia)). pose proof (Z.mod_pos_bound (U256_MAX * (acc + b)) total Ht).
  pose proof (Z.div_mod (U256_MAX * acc) total ltac:(lia)). pose proof (Z.mod_pos_bound (U256_MAX * acc) total Ht).
  rewrite Z.mul_sub_distr_l. rewrite (Z.mul_add_distr_l U256_MAX acc b) in *. lia.
Qed.

Lemma ranges_proportional total acc samples s : 0 < total -> s ∈ with_ranges total acc samples ->
  U256_MAX * sa_burn_sats s - total < total * (sa_range_end s - sa_range_start s) < U256_MAX * sa_burn_sats s + total.
Proof.
  intros Ht. revert acc. induction samples as [|x ss IH]; intros acc Hs; [by apply elem_of_nil in Hs|].
  cbn [with_ranges] in Hs. apply elem_of_cons in Hs as [->|Hs]; [cbn; by apply scaled_width|by apply (IH (acc + sa_burn_sats x))].
Qed.

Section Winner.
Context `{HS : Hashes} `{HO : !HashesOk}.

Lemma draw_point_range h seed : 0 <= draw_point h seed <= U256_MAX.
Proof.
  unfold draw_point, from_little_endian, SortitionHash.mix_vrf_seed. pose proof (from_be_bytes_range (rev (sha256 (h ++ seed)))) as Hr.
  rewrite length_rev, sha256_length in Hr. change (256 ^ Z.of_nat 32) with (U256_MAX + 1) in Hr. lia.
Qed.

(** C22: select_winner names exactly the sample whose range holds the point drawn;
    there is one unless the point is the greatest number or there is no candidate; and
    each range's share of the points is the candidate's share of the burn up to one
    part in the total. *)
Theorem winner_spec (window : list CommitmentWindowBlock) (latest : CommitmentWindowBlock) (samples : list BurnSample)
  (h seed : list byte) (Hlast : last window = Some latest) (Hlen : len window <= U8_MAX) (Hok : window_ok window)
  (Hd : commitment_distribution window = Some (Ok samples)) :
  let p := draw_point h seed in
  let total := zsum (map sa_burn_sats samples) in
  (forall i, select_winner samples h seed = Some i <->
     exists s, samples !! i = Some s /\ (length samples = 1%nat \/ in_sample p s = true)) /\
  (samples <> [] -> p <> U256_MAX -> is_Some (select_winner samples h seed)) /\
  (forall s, s ∈ samples ->
     U256_MAX * sa_burn_sats s - total < total * (sa_range_end s - sa_range_start s) < U256_MAX * sa_burn_sats s + total).
Proof.
  destruct (distribution_result _ _ Hlast Hlen Hok) as (chains & raw & _ & _ & _ & HFb & Heq). rewrite Heq in Hd. injection Hd as Hd.
  cbn zeta in Hd. destruct (U64_MAX <? _); [done|]. injection Hd as <-. intros p total. unfold total. rewrite ranges_burns. clear Heq.
  assert (Hnn : Forall (fun s => 0 <= sa_burn_sats s) raw) by (eapply Forall_impl; [exact HFb|]; cbn; lia).
  set (T := zsum (map sa_burn_sats raw)) in *. assert (Hpos : raw <> [] -> 0 < T).
  { unfold T. destruct HFb as [|x l Hx HFb]; [done|]. intros _. cbn [map zsum]. assert (0 <= zsum (map sa_burn_sats l)); [|lia].
    apply zsum_nonneg, Forall_map. eapply Forall_impl; [exact HFb|]. cbn. lia. }
  pose proof (draw_point_range h seed) as Hp. fold p in Hp.
  destruct raw as [|a [|b raw]].
  - split; [|split; [done|]]; [|intros s Hs; by apply elem_of_nil in Hs]. intros i. split; [done|]. by intros (s & Hs & _).
  - split; [|split; [by eexists|intros s Hs; eapply ranges_proportional; [by apply Hpos|exact Hs]]].
    intros i. split; [intros [= <-]; eexists; split; [reflexivity|by left]|]. intros (s & Hs & _). by destruct i.
  - assert (Ht : 0 < T) by by apply Hpos. set (l := with_ranges T 0 (a :: b :: raw)) in *.
    assert (Hsel : select_winner l h seed = position 0 (in_sample p) l) by done.
    split; [|split; [|intros s Hs; by eapply ranges_proportional]].
    + intros i. rewrite Hsel. rewrite <- (Nat.add_0_l i) at 1. unfold l. rewrite position_ranges by done.
      split; intros (s & Hs & Hx); exists s; (split; [done|]); [by right|]. destruct Hx as [Hx|]; [|done]. by rewrite with_ranges_length in Hx.
    + intros _ Hmax. destruct (ranges_cover T 0 (a :: b :: raw) p Ht Hnn) as (i & s & Hi & Hs).
      { rewrite scaled_0, Z.add_0_l. fold T. rewrite scaled_all by done. lia. }
      rewrite Hsel. exists (0 + i)%nat. apply position_ranges; [done|done|]. by exists s.
Qed.

End Winner.

(** ** The null miner *)

Lemma shl256_small x k : 0 <= k -> 0 <= x -> x * 2 ^ k <= U256_MAX -> shl256 x k = x * 2 ^ k.
Proof.
  intros Hk Hx Hle. unfold shl256, U256_MAX in *. change (2 ^ 256 - 1) with (Z.ones 256). rewrite Z.shiftl_mul_pow2, Z.land_ones by lia.
  apply Z.mod_small. split; [apply Z.mul_nonneg_nonneg; lia|]. change (Z.ones 256) with (2 ^ 256 - 1) in *. lia.
Qed.

Lemma fixed_one : FixedPoint.one = 2 ^ 64.
Proof. reflexivity. Qed.

Lemma multiply_small a b : 0 <= a <= 2 ^ 64 -> 0 <= b <= 2 ^ 74 -> FixedPoint.multiply a b = Some (a * b / 2 ^ 64).
Proof.
  intros Ha Hb. unfold FixedPoint.multiply, big_mul. rewrite (proj2 (Z.leb_le _ _)).
  - cbn [mbind option_bind]. unfold shr256. by rewrite Z.shiftr_div_pow2 by lia.
  - assert (a * b <= 2 ^ 64 * 2 ^ 74) by (apply Z.mul_le_mono_nonneg; lia). change (2 ^ 64 * 2 ^ 74) with (2 ^ 138) in *. unfold U256_MAX. lia.
Qed.

Lemma fraction_small n d : 0 <= n <= U64_MAX -> 0 < d -> FixedPoint.fraction n d = Some (n * 2 ^ 64 / d).
Proof.
  intros Hn Hd. unfold FixedPoint.fraction. rewrite (proj2 (Z.eqb_neq _ _)) by lia.
  rewrite shl256_small; [done|lia|lia|]. unfold U64_MAX, U256_MAX in *. lia.
Qed.

Lemma probability_range x : 0 <= x -> 0 <= FixedPoint.probability (FixedPoint.minimum x FixedPoint.one) < U256_MAX.
Proof.
  intros Hx. unfold FixedPoint.probability, FixedPoint.minimum. rewrite fixed_one.
  destruct (Z.leb_spec (2 ^ 64) (Z.min x (2 ^ 64))); [by split|]. rewrite shl256_small by (unfold U256_MAX; lia). unfold U256_MAX. lia.
Qed.

Section NullMiner.
Context `{HS : Hashes} `{CT : CarryoverTable} `{CO : !CarryoverTableOk}.

Lemma lookup_advantage_total c : 0 <= c <= 2 ^ 64 -> exists a, lookup_advantage c = Some a /\ is_u64 a.
Proof.
  intros Hc. unfold lookup_advantage. rewrite fraction_small by done. cbn [mbind option_bind].
  unfold FixedPoint.minimum. rewrite fixed_one, multiply_small by (try lia; by split). cbn [mbind option_bind].
  set (i := FixedPoint.integer_part _). assert (Hi : 0 <= i) by (unfold i, FixedPoint.integer_part; rewrite Z.land_nonneg; right; done).
  assert (Hl : len CARRYOVER_ADVANTAGE = 1024) by (by rewrite carryover_length).
  destruct (index_Some_lt CARRYOVER_ADVANTAGE (Z.min i (len CARRYOVER_ADVANTAGE - 1))) as [a Ha]; [lia|].
  exists a. split; [done|]. apply (proj1 (Forall_forall _ _) carryover_u64). by eapply index_elem.
Qed.

(** The null miner's share of the draw: none when the block burned at least the
    window's median, and otherwise a point below the end of the range. *)
Lemma null_miner_total block_burn median : is_u64 block_burn -> is_u64 median ->
  exists o, null_miner_probability block_burn median = Some o /\
    (o = None <-> 0 < median <= block_burn) /\ forall p, o = Some p -> 0 <= p < U256_MAX.
Proof.
  intros Hb Hm. unfold is_u64 in *. unfold null_miner_probability.
  assert (Hc : (0 < median <= block_burn /\ carryover block_burn median = Some None) \/
    (~ 0 < median <= block_burn /\ exists c, carryover block_burn median = Some (Some c) /\ 0 <= c <= 2 ^ 64)).
  { unfold carryover. destruct (Z.eqb_spec median 0) as [->|]; [right; split; [lia|]; exists 0; split; [done|lia]|].
    destruct (Z.ltb_spec block_burn median); [right; split; [lia|]|left; split; [lia|done]].
    rewrite fraction_small by lia. eexists. split; [done|]. split; [apply Z.div_pos; lia|]. apply Z.lt_le_incl, Z.div_lt_upper_bound; nia. }
  destruct Hc as [[Hle ->]|[Hnle (c & -> & Hc)]]; cbn [mbind option_bind]; [by exists None|].
  destruct (lookup_advantage_total c Hc) as (a & -> & Ha). cbn [mbind option_bind]. unfold is_u64, U64_MAX in Ha.
  rewrite multiply_small by (split; lia). cbn [mbind option_bind]. unfold FixedPoint.subtract. rewrite fixed_one, (proj2 (Z.leb_le _ _)) by lia.
  assert (Hprod : 0 <= c * a / 2 ^ 64 <= 2 ^ 64).
  { split; [apply Z.div_pos; nia|]. apply Z.lt_le_incl, Z.div_lt_upper_bound; nia. }
  rewrite (proj2 (checked_add_Some U256_MAX _ _ _)) by (split; [reflexivity|unfold U256_MAX; lia]).
  eexists. split; [done|]. split; [split; [done|tauto]|]. intros p [= <-]. apply probability_range. lia.
Qed.

Lemma epoch4_winner_result (samples : list BurnSample) (sampled : Z) (h seed : list byte) (block_burn median : Z)
  (Hb : is_u64 block_burn) (Hm : is_u64 median) :
  exists o, select_epoch4_winner samples sampled h seed block_burn median = Some o /\
    forall i, o = Some i <->
      select_winner samples h seed = Some i /\
      (exists s, samples !! i = Some s /\ Z.min 3 sampled <= sa_frequency s) /\
      (median <= block_burn /\ 0 < median \/
       exists p, null_miner_probability block_burn median = Some (Some p) /\ p < U256_MAX /\ p <= draw_point h seed).
Proof.
  unfold select_epoch4_winner. destruct (select_winner samples h seed) as [j|] eqn:Hw; [|exists None; split; [done|]; naive_solver].
  assert (Hj : is_Some (samples !! j)).
  { unfold select_winner in Hw. destruct samples as [|a [|b l]]; [done|injection Hw as <-; by eexists|].
    assert (Hpos : forall (l : list BurnSample) k n f, position k f l = Some n -> is_Some (l !! (n - k)%nat) /\ (k <= n)%nat).
    { clear. induction l as [|x l IH]; intros k n f; cbn [position]; [done|]. destruct (f x); [intros [= ->]; rewrite Nat.sub_diag; split; [by eexists|lia]|].
      intros H%IH. destruct H as [H ?]. replace (n - k)%nat with (S (n - S k)) by lia. split; [done|lia]. }
    apply Hpos in Hw as [Hw _]. by rewrite Nat.sub_0_r in Hw. }
  destruct Hj as [s Hs]. rewrite Hs. cbn [mbind option_bind]. destruct (null_miner_total block_burn median Hb Hm) as (o & Ho & Hnone & Hrange).
  destruct (Z.ltb_spec (sa_frequency s) (Z.min 3 sampled)) as [Hf|Hf].
  { exists None. split; [done|]. intros i. split; [done|]. intros ([= <-] & (s' & Hs' & Hle) & _). rewrite Hs in Hs'. injection Hs' as <-. lia. }
  rewrite Ho. cbn [mbind option_bind]. destruct o as [p|].
  - assert (Hno : ~ (median <= block_burn /\ 0 < median)) by (intros [? ?]; assert (Some p = None) by (apply Hnone; lia); done).
    destruct (Z.leb_spec p (draw_point h seed)); eexists; (split; [done|]); intros i; split.
    + intros [= <-]. split; [done|]. split; [by exists s|]. right. exists p. split; [done|]. split; [by apply Hrange|done].
    + by intros ([= <-] & _).
    + done.
    + intros ([= <-] & _ & [?|(q & [= <-] & _ & ?)]); [by destruct Hno|lia].
  - eexists. split; [done|]. intros i. split.
    + intros [= <-]. split; [done|]. split; [by exists s|]. left. assert (0 < median <= block_burn) by (by apply Hnone). lia.
    + by intros ([= <-] & _).
Qed.

(** Select_epoch4_winner never panics, and elects the drawn candidate exactly
    when it mined at least the lesser of three and the window's length of the sampled
    blocks and the point drawn is not in the null miner's share, which is empty when
    the block burned at least the window's median. *)
Theorem epoch4_winner_spec (samples : list BurnSample) (sampled : Z) (h seed : list byte) (block_burn median : Z)
  (Hb : is_u64 block_burn) (Hm : is_u64 median) :
  exists o, select_epoch4_winner samples sampled h seed block_burn median = Some o /\
    forall i, o = Some i <->
      select_winner samples h seed = Some i /\
      (exists s, samples !! i = Some s /\ Z.min 3 sampled <= sa_frequency s) /\
      (median <= block_burn /\ 0 < median \/
       exists p, null_miner_probability block_burn median = Some (Some p) /\ p < U256_MAX /\ p <= draw_point h seed).
Proof. by apply epoch4_winner_result. Qed.

End NullMiner.

(** * Theorems about the commitments of a Bitcoin block and the PoX history

    The window entry of a block holds its admissible, on-time commitments, each
    with a burn the draw can weigh; and the PoX history rewinds to what it was. *)

(** ** Commitments *)

Definition commitment_eligible (payouts : PayoutSchedule.t) (height : Z) (operation : BitcoinOperation) : bool :=
  match op_kind operation with
  | LeaderBlockCommit _ _ _ _ _ _ _ parent_modulus =>
      commitment_is_admissible height operation payouts && (commitment_miss_distance parent_modulus height =? 0)
  | _ => false
  end.

Definition commitment_late (payouts : PayoutSchedule.t) (height : Z) (operation : BitcoinOperation) : bool :=
  match op_kind operation with
  | LeaderBlockCommit _ _ _ _ _ _ _ parent_modulus =>
      commitment_is_admissible height operation payouts && (commitment_miss_distance parent_modulus height =? 1)
  | _ => false
  end.

(** No more than all the bitcoins there can be. *)
Definition MAX_MONEY : Z := 2100000000000000.
Definition amounts_ok (operation : BitcoinOperation) : Prop := Forall (fun o => 0 <= out_amount_sats o <= MAX_MONEY) (op_outputs operation).

(** The commitment the window keeps of an operation. *)
Definition commitment_of (payouts : PayoutSchedule.t) (height : Z) (operation : BitcoinOperation) (c : MiningCommitment) : Prop :=
  mc_txid c = op_txid operation /\
  (exists input rest, op_inputs operation = input :: rest /\ mc_spent_txid c = in_txid input /\ mc_spent_output c = in_output_index input) /\
  mc_burn_sats c = zsum (map out_amount_sats (take (Z.to_nat (PayoutSchedule.outputs_at payouts height)) (op_outputs operation))) /\
  commitment_burn_ok c.

Definition missed_of (operation : BitcoinOperation) (m : MissedCommitment) : Prop :=
  ms_txid m = op_txid operation /\
  exists input rest, op_inputs operation = input :: rest /\ ms_spent_txid m = in_txid input /\ ms_spent_output m = in_output_index input.

Lemma miss_distance_range parent_modulus height : 0 <= commitment_miss_distance parent_modulus height < 5.
Proof.
  unfold commitment_miss_distance, BURN_BLOCK_MINED_AT_MODULUS.
  pose proof (Z.mod_pos_bound (u8 parent_modulus mod 5 + 1) 5 ltac:(lia)). pose proof (Z.mod_pos_bound height 5 ltac:(lia)).
  destruct (Z.leb_spec ((u8 parent_modulus mod 5 + 1) mod 5) (height mod 5)); lia.
Qed.

Lemma outputs_at_range payouts height : 1 <= PayoutSchedule.outputs_at payouts height <= 2.
Proof. unfold PayoutSchedule.outputs_at, OUTPUTS_PER_COMMIT. repeat case_match; lia. Qed.

Lemma sum_sats_spec total outputs : Forall (fun o => 0 <= out_amount_sats o) outputs -> total + zsum (map out_amount_sats outputs) <= U64_MAX ->
  sum_sats total outputs = Some (total + zsum (map out_amount_sats outputs)).
Proof.
  intros HF. revert total. induction HF as [|o outputs Ho HF IH]; intros total Hsum; cbn [sum_sats map zsum] in *; [f_equal; lia|].
  assert (0 <= zsum (map out_amount_sats outputs)) by (apply zsum_nonneg; by apply Forall_map).
  rewrite (proj2 (checked_add_Some U64_MAX total (out_amount_sats o) _)) by (split; [done|lia]). cbn [mbind option_bind]. rewrite IH by lia. f_equal. lia.
Qed.

Lemma payout_sum n outputs : (1 <= n <= 2)%nat -> Forall (fun o => 0 <= out_amount_sats o <= MAX_MONEY) outputs ->
  0 <= zsum (map out_amount_sats (take n outputs)) <= 2 * MAX_MONEY /\
  (forall o rest, outputs = o :: rest -> out_amount_sats o <= zsum (map out_amount_sats (take n outputs))).
Proof.
  intros Hn HF. unfold MAX_MONEY in *. assert (n = 1%nat \/ n = 2%nat) as Hcase by lia. destruct outputs as [|a l].
  { split; [rewrite take_nil; cbn; lia|done]. }
  apply Forall_cons_1 in HF as [Ha HF]. destruct l as [|b l]; [|apply Forall_cons_1 in HF as [Hb _]];
    destruct Hcase as [-> | ->]; cbn [take map zsum]; rewrite ?take_0; cbn [map zsum]; (split; [lia|intros o rest [= <- _]; lia]).
Qed.

Lemma admissible_facts height operation payouts : commitment_is_admissible height operation payouts = true ->
  (exists input rest, op_inputs operation = input :: rest) /\
  (exists o rest, op_outputs operation = o :: rest /\ 0 < out_amount_sats o).
Proof.
  unfold commitment_is_admissible. destruct (op_kind operation); try done. rewrite !andb_true_iff. intros [[[[[Hin _] _] _] _] Hout]. split.
  - destruct (op_inputs operation) as [|input rest]; [done|]. by exists input, rest.
  - unfold PayoutSchedule.accepts_commitment_outputs in Hout. destruct (op_outputs operation) as [|o rest]; [done|]. exists o, rest. split; [done|].
    destruct (Z.ltb_spec 0 (out_amount_sats o)); [done|]. by cbn [negb] in Hout.
Qed.

Lemma window_operation_spec height payouts keys operation commitments missed : amounts_ok operation ->
  exists cs ms, window_operation height payouts keys operation commitments missed = Some (commitments ++ cs, missed ++ ms) /\
    Forall2 (commitment_of payouts height) (List.filter (commitment_eligible payouts height) [operation]) cs /\
    Forall2 missed_of (List.filter (commitment_late payouts height) [operation]) ms.
Proof.
  intros Hamt. unfold window_operation. cbn [List.filter]. unfold commitment_eligible, commitment_late.
  destruct (op_kind operation) as [hdr seed pbh pti kbh kti memo modulus| | | | | |];
    try (exists [], []; rewrite !app_nil_r; split; [done|]; split; constructor).
  destruct (commitment_is_admissible height operation payouts) eqn:Hadm; cbn [negb andb]; [|exists [], []; rewrite !app_nil_r; split; [done|]; split; constructor].
  destruct (admissible_facts _ _ _ Hadm) as [(input & rest & Hin) (o & outs & Hout & Ho)]. rewrite Hin.
  pose proof (miss_distance_range modulus height) as Hmd. set (md := commitment_miss_distance modulus height) in *.
  destruct (Z.ltb_spec 1 md) as [Hbig|Hsmall].
  { exists [], []. rewrite !app_nil_r, !(proj2 (Z.eqb_neq _ _)) by lia. split; [done|]. split; constructor. }
  destruct (Z.eqb_spec md 0) as [H0|H0].
  - rewrite (proj2 (Z.eqb_neq md 1)) by lia. pose proof (outputs_at_range payouts height) as Hoa. set (n := Z.to_nat _).
    destruct (payout_sum n (op_outputs operation) ltac:(lia) Hamt) as [Hsum Hfirst]. specialize (Hfirst _ _ Hout).
    rewrite sum_sats_spec; [|apply Forall_take; eapply Forall_impl; [exact Hamt|]; cbn; lia|unfold MAX_MONEY, U64_MAX in *; lia]. cbn [mbind option_bind].
    eexists [_], []. rewrite app_nil_r. split; [done|]. split; [|constructor]. constructor; [|constructor]. split; [done|]. split; [by exists input, rest|].
    split; [done|]. unfold commitment_burn_ok. cbn [mc_burn_sats]. unfold MAX_MONEY, U64_MAX in *. lia.
  - rewrite (proj2 (Z.eqb_eq md 1)) by lia. eexists [], [_]. rewrite app_nil_r. split; [done|]. split; [constructor|]. constructor; [|constructor].
    split; [done|]. by exists input, rest.
Qed.

Lemma window_operations_spec height payouts keys operations commitments missed : Forall amounts_ok operations ->
  exists cs ms, window_operations height payouts keys operations commitments missed = Some (commitments ++ cs, missed ++ ms) /\
    Forall2 (commitment_of payouts height) (List.filter (commitment_eligible payouts height) operations) cs /\
    Forall2 missed_of (List.filter (commitment_late payouts height) operations) ms.
Proof.
  intros HF. revert commitments missed. induction HF as [|op ops Hop HF IH]; intros commitments missed; [exists [], []; rewrite !app_nil_r; split; [done|]; split; constructor|].
  cbn [window_operations]. destruct (window_operation_spec height payouts keys op commitments missed Hop) as (cs & ms & -> & Hcs & Hms). cbn [mbind option_bind].
  destruct (IH (commitments ++ cs) (missed ++ ms)) as (cs' & ms' & -> & Hcs' & Hms'). exists (cs ++ cs'), (ms ++ ms'). rewrite !app_assoc. split; [done|].
  change (op :: ops) with ([op] ++ ops). rewrite !List.filter_app. split; by apply Forall2_app.
Qed.

(** Commitment_window_block keeps, in order, exactly the admissible commitments
    made for this block, each with the first input it spends and the satoshis of its
    payout outputs, at least one, and apart from them those that missed by one block;
    and every candidate is among the accepted operations the consensus hash mixes. *)
Theorem window_block_spec (block : BitcoinBlock) (payouts : PayoutSchedule.t) (keys : LeaderKeys.t)
  (Hamt : Forall amounts_ok (bb_operations block)) :
  exists b, commitment_window_block block payouts keys = Some b /\
    Forall2 (commitment_of payouts (bb_height block)) (List.filter (commitment_eligible payouts (bb_height block)) (bb_operations block)) (wb_commitments b) /\
    Forall2 missed_of (List.filter (commitment_late payouts (bb_height block)) (bb_operations block)) (wb_missed_commitments b) /\
    Forall commitment_burn_ok (wb_commitments b) /\
    forall c, c ∈ wb_commitments b -> mc_txid c ∈ accepted_operation_txids block payouts.
Proof.
  unfold commitment_window_block. destruct (window_operations_spec (bb_height block) payouts keys (bb_operations block) [] [] Hamt) as (cs & ms & -> & Hcs & Hms).
  cbn [mbind option_bind app]. eexists. split; [done|]. cbn [wb_commitments wb_missed_commitments]. split; [done|]. split; [done|]. split.
  - clear -Hcs. induction Hcs as [|op c ops cs Hc _ IH]; constructor; [by apply Hc|done].
  - intros c Hc. apply list_elem_of_lookup_1 in Hc as [i Hi]. destruct (Forall2_lookup_r _ _ _ _ _ Hcs Hi) as (op & Hop & Hid & _).
    apply list_elem_of_lookup_2, list_elem_of_In, filter_In in Hop as [Hop Hel]. unfold accepted_operation_txids. apply list_elem_of_fmap.
    exists op. split; [done|]. apply list_elem_of_In, filter_In. split; [done|]. unfold commitment_eligible in Hel. unfold is_accepted.
    destruct (op_kind op); try done.
Qed.

(** ** The PoX history *)

(** The anchors known at the heights above the tracker's, one after the other. *)
Fixpoint advance_all (p : PoxIdTracker.t) (anchors : list bool) : result SortitionError PoxIdTracker.t :=
  match anchors with
  | [] => Ok p
  | known :: anchors => let? p := PoxIdTracker.advance p (PoxIdTracker.bitcoin_height p + 1) known in advance_all p anchors
  end.

Lemma advance_all_spec p anchors : 0 <= PoxIdTracker.bitcoin_height p -> PoxIdTracker.bitcoin_height p + len anchors <= U64_MAX ->
  exists bits, advance_all p anchors = Ok (PoxIdTracker.mk (PoxIdTracker.schedule p) (PoxIdTracker.pox_id p ++ bits) (PoxIdTracker.bitcoin_height p + len anchors)) /\
    len bits = PoxIdTracker.count_starts (PoxIdTracker.schedule p) (PoxIdTracker.bitcoin_height p) (length anchors).
Proof.
  revert p. induction anchors as [|known anchors IH]; intros p H0 Hmax; cbn [advance_all length PoxIdTracker.count_starts].
  { exists []. rewrite app_nil_r, Z.add_0_r. by destruct p. }
  cbn [length] in Hmax. unfold PoxIdTracker.advance. rewrite (proj2 (checked_add_Some U64_MAX _ 1 _)) by (split; [done|lia]). cbn [or_err]. rewrite Z.eqb_refl. cbn [negb].
  set (p1 := PoxIdTracker.mk _ _ _). destruct (IH p1) as (bits & -> & Hbits); [cbn; lia|cbn [p1 PoxIdTracker.bitcoin_height]; lia|].
  cbn [p1 PoxIdTracker.schedule PoxIdTracker.pox_id PoxIdTracker.bitcoin_height] in *.
  replace (PoxIdTracker.bitcoin_height p + Z.of_nat (S (length anchors))) with (PoxIdTracker.bitcoin_height p + 1 + len anchors) by lia.
  destruct (RewardCycleSchedule.starts_at _ _); unfold PoxId.extend_with_anchor.
  - exists (known :: bits). rewrite <- app_assoc. split; [done|]. cbn [length]. lia.
  - exists bits. split; [done|]. lia.
Qed.

(** Advancing the PoX tracker over any number of heights and retracting to where
    it was gives the tracker back. *)
Theorem pox_tracker_roundtrip (p : PoxIdTracker.t) (anchors : list bool) (H0 : 0 <= PoxIdTracker.bitcoin_height p)
  (Hmax : PoxIdTracker.bitcoin_height p + len anchors <= U64_MAX) :
  exists p', advance_all p anchors = Ok p' /\ PoxIdTracker.retract_to p' (PoxIdTracker.bitcoin_height p) = Ok p.
Proof.
  destruct (advance_all_spec p anchors H0 Hmax) as (bits & -> & Hbits). eexists. split; [done|]. unfold PoxIdTracker.retract_to.
  cbn [PoxIdTracker.bitcoin_height PoxIdTracker.schedule PoxIdTracker.pox_id]. rewrite (proj2 (Z.ltb_ge _ _)) by lia.
  replace (Z.to_nat (PoxIdTracker.bitcoin_height p + len anchors - PoxIdTracker.bitcoin_height p)) with (length anchors) by lia. rewrite <- Hbits.
  replace (Z.to_nat _) with (length (PoxIdTracker.pox_id p)) by (rewrite length_app; unfold saturating_sub; lia).
  rewrite take_app_length. by destruct p.
Qed.
