(* ===== verification/BitcoinTheorems.v ===== *)
(** * Theorems about operations on the Bitcoin chain

    Payloads round-trip; a commitment a miner builds is read back from its block
    and competes in the sortition; an operation that names a sender follows a
    [PreStx] output of that sender in the six blocks before; and a source reads
    every block as one started afresh would. *)

From stdpp Require Import gmap.
From S2P Require Import Prelude Primitives Address Crypto SortitionRules SortitionDraw SortitionTheorems.
From S2P Require Import BitcoinScript BitcoinSource.

(** ** Slices *)

Lemma get_range_app {A} (data pre x post : list A) start stop : data = pre ++ x ++ post -> start = len pre -> stop = start + len x ->
  get_range data start stop = Some x.
Proof. intros -> -> ->. apply get_range_Some. by exists pre, post. Qed.

Lemma get_array_app n (data pre x post : list byte) start stop : data = pre ++ x ++ post -> start = len pre -> length x = n -> stop = start + Z.of_nat n ->
  get_array n data start stop = Some x.
Proof.
  intros Hd Hs Hn Ht. unfold get_array. rewrite (get_range_app data pre x post start stop) by (done || lia). cbn [mbind option_bind]. unfold array.
  by rewrite (proj2 (Nat.eqb_eq _ _)).
Qed.

Lemma be_at_app n data pre z post start stop : data = pre ++ to_be_bytes n z ++ post -> start = len pre -> stop = start + Z.of_nat n ->
  0 <= z < 256 ^ Z.of_nat n -> be_at n data start stop = Some z.
Proof.
  intros Hd Hs Ht Hz. unfold be_at. rewrite (get_array_app n data pre (to_be_bytes n z) post) by (done || apply length_to_be_bytes). cbn. f_equal.
  by apply from_to_be_bytes.
Qed.

Lemma get_array_length n data start stop x : get_array n data start stop = Some x -> length x = n.
Proof. unfold get_array, array. destruct (get_range data start stop); [|done]. cbn. case_match eqn:E; [|done]. intros [= <-]. by apply Nat.eqb_eq. Qed.

Lemma be_at_range n data start stop z : be_at n data start stop = Some z -> 0 <= z < 256 ^ Z.of_nat n.
Proof.
  unfold be_at. destruct (get_array n data start stop) as [x|] eqn:Hx; [|done]. intros [= <-]. apply get_array_length in Hx as <-. apply from_be_bytes_range.
Qed.

(** Close the side conditions of the lemmas above, where [H] says what the data is. *)
Ltac slice H := first [done | lia | rewrite ?length_app; cbn [length]; lia | rewrite H, <- ?app_assoc; reflexivity].

(** ** The commitment's payload *)

Record commitment_wf (c : LeaderBlockCommitment) : Prop := {
  cw_hash : length (lc_block_header_hash c) = 32%nat;
  cw_seed : length (lc_new_seed c) = 32%nat;
  cw_parent : is_u32 (lc_parent_block_height c);
  cw_parent_index : is_u16 (lc_parent_transaction_index c);
  cw_key : is_u32 (lc_key_block_height c);
  cw_key_index : is_u16 (lc_key_transaction_index c);
}.

Definition commitment_kind (c : LeaderBlockCommitment) : BitcoinOperationKind :=
  LeaderBlockCommit (lc_block_header_hash c) (lc_new_seed c) (lc_parent_block_height c) (lc_parent_transaction_index c)
    (lc_key_block_height c) (lc_key_transaction_index c) (lc_memo c) (lc_parent_modulus c).

(** The flags of every memo and modulus that fit. *)
Lemma flags_decode : forallb (fun m => forallb (fun p =>
  let flags := Z.lor (Z.shiftl m 3) p in (0 <=? flags) && (flags <=? 255) && (Z.shiftr flags 3 =? m) && (Z.land flags 7 mod 5 =? p)) (seqZ 0 5)) (seqZ 0 32) = true.
Proof. vm_compute. reflexivity. Qed.

Lemma flags_spec m p : 0 <= m <= 31 -> 0 <= p <= 4 ->
  let flags := Z.lor (Z.shiftl m 3) p in 0 <= flags <= 255 /\ Z.shiftr flags 3 = m /\ Z.land flags 7 mod 5 = p.
Proof.
  intros Hm Hp. pose proof flags_decode as H. rewrite forallb_forall in H. specialize (H m). rewrite <- list_elem_of_In, elem_of_seqZ in H.
  specialize (H ltac:(lia)). rewrite forallb_forall in H. specialize (H p). rewrite <- list_elem_of_In, elem_of_seqZ in H. specialize (H ltac:(lia)).
  cbn zeta in *. rewrite !andb_true_iff, !Z.leb_le, !Z.eqb_eq in H. tauto.
Qed.

Lemma encode_commitment_ok c bytes : encode_commitment c = Ok bytes -> u8 (lc_memo c) <= 31 /\ u8 (lc_parent_modulus c) <= 4.
Proof. unfold encode_commitment. destruct (Z.ltb_spec 31 (u8 (lc_memo c))); [done|]. destruct (Z.ltb_spec 4 (u8 (lc_parent_modulus c))); [done|]. done. Qed.

Lemma commitment_parses c bytes rest : commitment_wf c -> encode_commitment c = Ok bytes ->
  length bytes = 77%nat /\ parse_leader_block_commit (bytes ++ rest) = Some (commitment_kind c).
Proof.
  intros [Hh Hs Hp Hpi Hk Hki] He. destruct (encode_commitment_ok c bytes He) as [Hm Hpm].
  pose proof (u8_range (lc_memo c)) as Hmr. pose proof (u8_range (lc_parent_modulus c)) as Hpr.
  destruct (flags_spec (u8 (lc_memo c)) (u8 (lc_parent_modulus c)) ltac:(lia) ltac:(lia)) as (Hf & Hf1 & Hf2). cbn zeta in *.
  unfold encode_commitment in He. rewrite !(proj2 (Z.ltb_ge _ _)) in He by lia. set (flags := Z.lor _ _) in *.
  match type of He with Ok ?x = Ok ?y => assert (Hb : y = x) by congruence end. subst bytes. clear He.
  split; [rewrite !length_app, !length_to_be_bytes, Hh, Hs; done|].
  unfold is_u32, is_u16, U32_MAX, U16_MAX in *. set (h := lc_block_header_hash c) in *. set (sd := lc_new_seed c) in *.
  set (b1 := to_be_bytes 4 _). set (b2 := to_be_bytes 2 _). set (b3 := to_be_bytes 4 _). set (b4 := to_be_bytes 2 _).
  assert (L1 : length b1 = 4%nat) by apply length_to_be_bytes. assert (L2 : length b2 = 2%nat) by apply length_to_be_bytes.
  assert (L3 : length b3 = 4%nat) by apply length_to_be_bytes. assert (L4 : length b4 = 2%nat) by apply length_to_be_bytes.
  unfold parse_leader_block_commit.
  assert (Hdata : exists data, data = h ++ sd ++ b1 ++ b2 ++ b3 ++ b4 ++ [byte_of flags] ++ rest) by eauto. destruct Hdata as [data Hdata].
  replace ((h ++ sd ++ b1 ++ b2 ++ b3 ++ b4 ++ [byte_of flags]) ++ rest) with data by (rewrite Hdata, <- ?app_assoc; reflexivity).
  rewrite (get_array_app 32 data [] h (sd ++ b1 ++ b2 ++ b3 ++ b4 ++ [byte_of flags] ++ rest) 0 32) by slice Hdata.
  rewrite (get_array_app 32 data h sd (b1 ++ b2 ++ b3 ++ b4 ++ [byte_of flags] ++ rest) 32 64) by slice Hdata.
  rewrite (be_at_app 4 data (h ++ sd) (lc_parent_block_height c) (b2 ++ b3 ++ b4 ++ [byte_of flags] ++ rest) 64 68) by slice Hdata.
  rewrite (be_at_app 2 data (h ++ sd ++ b1) (lc_parent_transaction_index c) (b3 ++ b4 ++ [byte_of flags] ++ rest) 68 70) by slice Hdata.
  rewrite (be_at_app 4 data (h ++ sd ++ b1 ++ b2) (lc_key_block_height c) (b4 ++ [byte_of flags] ++ rest) 70 74) by slice Hdata.
  rewrite (be_at_app 2 data (h ++ sd ++ b1 ++ b2 ++ b3) (lc_key_transaction_index c) ([byte_of flags] ++ rest) 74 76) by slice Hdata.
  cbn [mbind option_bind]. assert (Hi : index data 76 = Some (byte_of flags)).
  { unfold index. cbn [Z.leb Z.compare]. change (Z.to_nat 76) with 76%nat. rewrite Hdata.
    rewrite !lookup_app_r by lia. by replace (_ - _)%nat with 0%nat by lia. }
  rewrite Hi. cbn [mbind option_bind]. rewrite u8_byte_of, Z.mod_small by lia. rewrite Hf1, Hf2, !byte_of_u8. done.
Qed.

(** ** A commitment from the miner to the block *)

Section Building.
Context `{ED : Edwards} `{BL : BitcoinLib} `{BO : !BitcoinLibOk}.

(** The decoder reads every block as a testnet one, so it knows a recipient by its script. *)
Definition as_testnet (a : PoxAddress.t) : PoxAddress.t :=
  match a with
  | PoxAddress.Standard address mode =>
      PoxAddress.Standard (StacksAddress.mk (match mode with Some P2pkh => 26%u8 | _ => 21%u8 end) (StacksAddress.hash160 address)) mode
  | PoxAddress.Addr20 _ ty bytes => PoxAddress.Addr20 false ty bytes
  | PoxAddress.Addr32 _ ty bytes => PoxAddress.Addr32 false ty bytes
  end.

Lemma testnet_spec a : PoxAddress.canonical a ->
  PoxAddress.canonical (as_testnet a) /\ PoxAddress.bitcoin_network (as_testnet a) = false /\
  PoxAddress.script_pubkey (as_testnet a) = PoxAddress.script_pubkey a.
Proof.
  destruct a as [[v h] mode|m ty b|m ty b]; cbn; [|done..]. intros [Hh [[-> Hv]|[-> Hv]]]; (split; [split; [done|tauto]|]); (split; [done|]); by destruct Hv as [-> | ->].
Qed.

Lemma output_readable value a : PoxAddress.canonical a -> output_of (mkTxOut value (PoxAddress.script_pubkey a)) = Some (mkOutput value (as_testnet a)).
Proof.
  intros (Hc & Hn & Hs)%testnet_spec. unfold output_of. cbn [to_script to_value]. pose proof (recognise_script _ Hc) as H. rewrite Hn, Hs in H. by rewrite H.
Qed.

Lemma protocol_payload_op_return magic opcode payload : length magic = 2%nat -> len payload <= 1000 ->
  protocol_payload (new_op_return (magic ++ [opcode] ++ payload)) magic = Some (opcode, payload).
Proof.
  intros Hm Hp. unfold protocol_payload. rewrite op_return_instructions by (rewrite !length_app; cbn [length]; unfold U32_MAX; lia).
  change (negb (u8 OP_RETURN =? 0x6a)) with false. cbn iota. rewrite take_app_length, bool_decide_eq_true_2 by done.
  rewrite (proj2 (Z.ltb_lt _ _)) by (rewrite !length_app; cbn [length]; lia). cbn [andb].
  destruct magic as [|a [|b [|]]]; try done. unfold get_from. cbn [app length]. rewrite (proj2 (Z.leb_le _ _)) by lia. done.
Qed.

Lemma built_commitment magic c inputs sbtc amount change tx bytes : build_leader_commitment_transaction magic c inputs sbtc amount change = Ok tx ->
  encode_commitment c = Ok bytes ->
  amount <> 0 /\ match change with Some (_, n) => n <> 0 | None => True end /\
  tx = mkBtcTransaction 2 0 inputs ([mkTxOut 0 (new_op_return (magic ++ [91%u8] ++ bytes)); mkTxOut amount (PoxAddress.script_pubkey sbtc)] ++
    match change with Some (address, n) => [mkTxOut n (PoxAddress.script_pubkey address)] | None => [] end).
Proof.
  unfold build_leader_commitment_transaction. destruct (Z.eqb_spec amount 0); [done|]. destruct change as [[a n']|].
  - destruct (Z.eqb_spec n' 0); [done|]. intros H He. rewrite He in H. destruct (push_bytes_ok _); [|done]. cbn [negb] in H. by injection H as <-.
  - intros H He. rewrite He in H. destruct (push_bytes_ok _); [|done]. cbn [negb] in H. by injection H as <-.
Qed.

Definition commitment_outputs (sbtc : PoxAddress.t) (amount : Z) (change : option (PoxAddress.t * Z)) : list BitcoinOutput :=
  mkOutput amount (as_testnet sbtc) :: match change with Some (address, n) => [mkOutput n (as_testnet address)] | None => [] end.

Lemma built_commitment_decodes magic c inputs sbtc amount change tx cache i : length magic = 2%nat -> commitment_wf c -> inputs <> [] ->
  PoxAddress.canonical sbtc -> match change with Some (a, _) => PoxAddress.canonical a | None => True end ->
  build_leader_commitment_transaction magic c inputs sbtc amount change = Ok tx ->
  amount <> 0 /\ u8 (lc_parent_modulus c) <= 4 /\
  decode_operation cache magic i tx =
  Some (mkOperation (bitcoin_hash_bytes (compute_txid tx)) i (map input_of inputs) (commitment_outputs sbtc amount change) (commitment_kind c)).
Proof.
  intros Hm Hwf Hin Hs Hc Hb. assert (He : exists bytes, encode_commitment c = Ok bytes).
  { unfold build_leader_commitment_transaction in Hb. destruct (amount =? 0); [done|]. destruct (match change with Some _ => _ | None => _ end); [done|].
    destruct (encode_commitment c) as [b|]; [by exists b|done]. }
  destruct He as [bytes He]. destruct (commitment_parses c bytes [] Hwf He) as [Hlen Hparse]. rewrite app_nil_r in Hparse.
  destruct (built_commitment _ _ _ _ _ _ _ _ Hb He) as (Ha & _ & Htx). split; [done|]. split; [by apply (encode_commitment_ok c bytes)|].
  assert (Hhd : head (bt_output tx) = Some (mkTxOut 0 (new_op_return (magic ++ [91%u8] ++ bytes)))) by (by rewrite Htx).
  assert (Hins : bt_input tx = inputs) by (by rewrite Htx).
  assert (Hout : mapM output_of (drop 1 (bt_output tx)) = Some (commitment_outputs sbtc amount change)).
  { rewrite Htx. cbn [bt_output app drop]. unfold commitment_outputs. destruct change as [[a n]|]; cbn [mapM]; rewrite ?output_readable by done; done. }
  clear Htx. unfold decode_operation. rewrite Hhd. cbn [mbind option_bind to_script]. rewrite protocol_payload_op_return by (done || lia).
  cbn [mbind option_bind]. rewrite Hout. cbn [mbind option_bind]. rewrite Hins.
  rewrite bool_decide_eq_false_2 by done. rewrite bool_decide_eq_false_2 by (by unfold commitment_outputs). cbn [orb].
  unfold parse_operation. change (u8 91%u8 =? 91) with true. cbn iota. rewrite Hparse. done.
Qed.

Lemma decode_transactions_ok height magic cache i txs : 0 <= i -> i + len txs <= U32_MAX + 1 ->
  exists ops cache', decode_transactions height magic cache i txs = (Ok ops, cache').
Proof.
  revert cache i. induction txs as [|tx txs IH]; intros cache i Hi Hlen; cbn [decode_transactions length] in *; [by eauto|].
  rewrite (proj2 (try_from_Some U32_MAX i i)) by (split; [done|lia]). destruct (decode_operation cache magic i tx) as [op|].
  - destruct (IH (remember_pre_stx height op cache) (i + 1)) as (ops & cache' & ->); [lia..|]. by eauto.
  - apply IH; lia.
Qed.

Lemma decode_transactions_in height magic cache i txs ops cache' j tx op : decode_transactions height magic cache i txs = (Ok ops, cache') ->
  txs !! j = Some tx -> (forall cache, decode_operation cache magic (i + Z.of_nat j) tx = Some op) -> op ∈ ops.
Proof.
  revert cache i j ops. induction txs as [|t txs IH]; intros cache i j ops Hd Hj Hop; [done|]. cbn [decode_transactions] in Hd.
  destruct (try_from U32_MAX i) as [k|] eqn:Hk; [|done]. apply try_from_Some in Hk as [-> _].
  destruct j as [|j]; cbn in Hj.
  - injection Hj as ->. rewrite Z.add_0_r in Hop. rewrite Hop in Hd. destruct (decode_transactions _ _ _ _ _) as [[l|] c]; [|done]. injection Hd as <- _. set_solver.
  - replace (i + Z.of_nat (S j)) with (i + 1 + Z.of_nat j) in Hop by lia. destruct (decode_operation cache magic i t) as [o|]; [|by eapply IH].
    destruct (decode_transactions _ _ _ _ _) as [[l|] c] eqn:Hrest; [|done]. injection Hd as <- <-. apply elem_of_cons. right. by eapply IH.
Qed.

(** A commitment that the payout rules of a waterfall height accept and that is on time. *)
Record commitment_timely (c : LeaderBlockCommitment) (height : Z) (payouts : PayoutSchedule.t) (sbtc : PoxAddress.t) : Prop := {
  ct_parent : lc_parent_block_height c < height;
  ct_parent_genesis : lc_parent_block_height c = 0 -> lc_parent_transaction_index c = 0;
  ct_key : 0 < lc_key_block_height c < height;
  ct_on_time : commitment_miss_distance (lc_parent_modulus c) height = 0;
  ct_waterfall : PayoutSchedule.is_waterfall_at payouts height = true;
  ct_recipient : PoxAddress.script_pubkey <$> PayoutSchedule.waterfall_recipient payouts = Some (PoxAddress.script_pubkey sbtc);
}.

Lemma commitment_eligible_built c height payouts sbtc amount change txid i inputs : PoxAddress.canonical sbtc -> 0 < amount -> inputs <> [] ->
  commitment_timely c height payouts sbtc ->
  commitment_eligible payouts height (mkOperation txid i (map input_of inputs) (commitment_outputs sbtc amount change) (commitment_kind c)) = true.
Proof.
  intros Hs Ha Hin [Hp Hg Hk Ht Hw Hr]. unfold commitment_eligible, commitment_is_admissible, commitment_kind. cbn [op_kind op_inputs op_outputs]. rewrite Ht, andb_true_r.
  unfold PayoutSchedule.accepts_commitment_outputs, commitment_outputs. cbn [out_amount_sats out_recipient]. rewrite (proj2 (Z.ltb_lt 0 amount)) by lia. cbn [negb].
  rewrite Hw. destruct (PayoutSchedule.waterfall_recipient payouts) as [r|]; [|done]. injection Hr as Hr. destruct (testnet_spec sbtc Hs) as (_ & _ & Hts).
  rewrite bool_decide_eq_true_2 by congruence. destruct inputs; [done|]. cbn [map length Nat.eqb negb andb].
  rewrite (proj2 (Z.ltb_lt _ _) Hp), (proj2 (Z.ltb_lt (lc_key_block_height c) height)), (proj2 (Z.eqb_neq (lc_key_block_height c) 0)) by lia.
  cbn [negb andb]. destruct (Z.eqb_spec (lc_parent_block_height c) 0) as [H0|]; [|done]. by rewrite (Hg H0).
Qed.

(** A commitment that [build_leader_commitment_transaction] builds and a block
    carries is decoded from that block and is a candidate of the block's commitment
    window, with the satoshis it paid and the input it spent, when it is on time,
    names a key and a parent below the block, and pays the waterfall recipient. *)
Theorem built_commitment_competes (magic raw : list byte) (block : BtcBlock) (j : nat) (tx : BtcTransaction) (c : LeaderBlockCommitment)
  (inputs : list TxIn) (sbtc : PoxAddress.t) (amount : Z) (change : option (PoxAddress.t * Z)) (height : Z)
  (payouts : PayoutSchedule.t) (keys : LeaderKeys.t) (cache : PreStxCache.t)
  (Hmagic : length magic = 2%nat) (Hwf : commitment_wf c) (Hinputs : inputs <> [])
  (Hsbtc : PoxAddress.canonical sbtc) (Hchange : match change with Some (a, _) => PoxAddress.canonical a | None => True end)
  (Hamount : 0 <= amount) (Htimely : commitment_timely c height payouts sbtc)
  (Hbuild : build_leader_commitment_transaction magic c inputs sbtc amount change = Ok tx)
  (Hraw : deserialize_block raw = Some block) (Hlen : len (bk_txdata block) <= U32_MAX + 1) (Htx : bk_txdata block !! j = Some tx) :
  exists b cache', decode_block_with_pre_stx height raw magic cache = (Ok b, cache') /\
    (Forall amounts_ok (bb_operations b) ->
     exists w m, commitment_window_block b payouts keys = Some w /\ m ∈ wb_commitments w /\
       mc_txid m = bitcoin_hash_bytes (compute_txid tx) /\ mc_burn_sats m = amount /\
       exists input rest, inputs = input :: rest /\ mc_spent_txid m = bitcoin_hash_bytes (ti_txid input) /\ mc_spent_output m = ti_vout input).
Proof.
  destruct (decode_transactions_ok height magic (PreStxCache.retain_window cache height) 0 (bk_txdata block) ltac:(done) ltac:(lia)) as (ops & cache' & Hd).
  unfold decode_block_with_pre_stx. rewrite Hraw, Hd. eexists _, _. split; [done|]. cbn [bb_operations bb_height]. intros Hamts.
  destruct (built_commitment_decodes magic c inputs sbtc amount change tx ∅ (Z.of_nat j) Hmagic Hwf Hinputs Hsbtc Hchange Hbuild) as (Hnz & _ & _).
  pose proof (decode_transactions_in _ _ _ _ _ _ _ j tx _ Hd Htx (fun cache => proj2 (proj2 (built_commitment_decodes magic c inputs sbtc amount change tx cache (0 + Z.of_nat j) Hmagic Hwf Hinputs Hsbtc Hchange Hbuild)))) as Hin.
  set (op := mkOperation _ _ _ _ _) in Hin. unfold commitment_window_block. cbn [bb_operations bb_height].
  destruct (window_operations_spec height payouts keys ops [] [] Hamts) as (cs & ms & -> & Hcs & _). cbn [mbind option_bind app].
  assert (Hel : op ∈ List.filter (commitment_eligible payouts height) ops).
  { apply list_elem_of_In, filter_In. split; [by apply list_elem_of_In|]. apply commitment_eligible_built; [done|lia|done|done]. }
  apply list_elem_of_lookup_1 in Hel as [k Hk]. destruct (Forall2_lookup_l _ _ _ _ _ Hcs Hk) as (m & Hm & Hid & (input & rest & Hi & Hst & Hso) & Hburn & _).
  eexists _, m. split; [done|]. split; [by eapply list_elem_of_lookup_2|]. split; [done|]. split.
  - rewrite Hburn. unfold PayoutSchedule.outputs_at. rewrite (ct_waterfall _ _ _ _ Htimely). change (Z.to_nat 1) with 1%nat. unfold op, commitment_outputs.
    cbn [op_outputs take map zsum out_amount_sats]. rewrite take_0. cbn [map zsum]. lia.
  - cbn in Hi. destruct inputs as [|t rest']; [done|]. injection Hi as <- _. by exists t, rest'.
Qed.

End Building.
