(* ===== verification/SourceTheorems.v ===== *)
(** * Theorems about reading the Bitcoin chain

    [window_cache] are the [PreStx] outputs of the six blocks before a height
    and [canonical_block] is the block decoded with them. A source that has read
    any heights in any order returns the canonical block; after a
    reorganization the REST source still does, and the RPC source need not. *)

From stdpp Require Import gmap.
From S2P Require Import Prelude Primitives Address CodecIO Crypto SortitionRules BitcoinScript BitcoinSource BitcoinTheorems.

(** ** [PreStx] outputs of a block *)

Definition pre_stx_of (k : BitcoinOperationKind) : option StacksAddress.t := match k with PreStx s => Some s | _ => None end.

Lemma bind_none {A B C} (o : option A) (f : A -> option B) (g : B -> option C) : (forall a, (f a ≫= g) = None) -> ((o ≫= f) ≫= g) = None.
Proof. intros H. by destruct o; cbn. Qed.

Section Entries.
Context `{ED : Edwards} `{BL : BitcoinLib}.
Variable magic : list byte.

Lemma parse_pre_stx opcode data outputs s1 s2 :
  (parse_operation opcode data outputs s1 ≫= pre_stx_of) = (parse_operation opcode data outputs s2 ≫= pre_stx_of).
Proof.
  assert (Hno : forall s, u8 opcode <> 112 -> (parse_operation opcode data outputs s ≫= pre_stx_of) = None).
  { intros s H112. unfold parse_operation, parse_leader_block_commit, parse_leader_key_registration, parse_stack_stx, parse_transfer_stx, parse_delegate_stx, parse_vote_for_aggregate_key.
    rewrite (proj2 (Z.eqb_neq _ 112)) by done.
    repeat first [reflexivity | apply bind_none; intros ? | progress cbn zeta | case_match]. }
  destruct (decide (u8 opcode = 112)) as [H|H]; [|by rewrite !Hno]. unfold parse_operation. by rewrite H.
Qed.

(** The identifier and the sender of a [PreStx] transaction. *)
Definition pre_entry (tx : BtcTransaction) : option (list byte * StacksAddress.t) :=
  op ← decode_operation ∅ magic 0 tx; s ← pre_stx_of (op_kind op); Some (op_txid op, s).

Lemma decode_operation_pre cache i tx :
  (op ← decode_operation cache magic i tx; s ← pre_stx_of (op_kind op); Some (op_txid op, s)) = pre_entry tx.
Proof.
  unfold pre_entry, decode_operation. destruct (head (bt_output tx)) as [o|]; [|done]. cbn [mbind option_bind]. destruct (protocol_payload _ _) as [[opcode payload]|]; [|done].
  cbn [mbind option_bind]. destruct (mapM _ _) as [outputs|]; [|done]. cbn [mbind option_bind]. destruct (_ || _); [done|].
  pose proof (parse_pre_stx opcode payload outputs (paired_sender cache (map input_of (bt_input tx))) (paired_sender ∅ (map input_of (bt_input tx)))) as H.
  destruct (parse_operation _ _ _ (paired_sender cache _)) as [k1|], (parse_operation _ _ _ (paired_sender ∅ _)) as [k2|]; cbn [mbind option_bind op_kind op_txid] in *.
  - by rewrite H.
  - by rewrite H.
  - by rewrite <- H.
  - done.
Qed.

Definition pre_entries (b : BtcBlock) : list (list byte * StacksAddress.t) := omap pre_entry (bk_txdata b).

Definition add_entries (height : Z) (entries : list (list byte * StacksAddress.t)) (cache : PreStxCache.t) : PreStxCache.t :=
  fold_left (fun c kv => <[kv.1 := (kv.2, height)]> c) entries cache.

Lemma decode_transactions_cache height cache i txs ops cache' : decode_transactions height magic cache i txs = (Ok ops, cache') ->
  cache' = add_entries height (omap pre_entry txs) cache.
Proof.
  revert cache i ops. induction txs as [|tx txs IH]; intros cache i ops Hd; cbn [decode_transactions omap list_omap] in *; [by injection Hd|].
  destruct (try_from U32_MAX i) as [k|]; [|done]. pose proof (decode_operation_pre cache k tx) as Hpre.
  destruct (decode_operation cache magic k tx) as [op|]; cbn [mbind option_bind] in Hpre.
  - destruct (decode_transactions _ _ _ _ _) as [[l|] c] eqn:Hr; [|done]. injection Hd as _ <-. apply IH in Hr as ->. rewrite <- Hpre.
    unfold remember_pre_stx. destruct (op_kind op); done.
  - rewrite <- Hpre. by eapply IH.
Qed.

Lemma add_entries_lookup height entries cache k : add_entries height entries cache !! k =
  match last (omap (fun kv => if decide (kv.1 = k) then Some kv.2 else None) entries) with Some s => Some (s, height) | None => cache !! k end.
Proof.
  revert cache. induction entries as [|[a s] l IH] using rev_ind; intros cache; [done|]. unfold add_entries. rewrite fold_left_app. cbn [fold_left fst snd].
  rewrite omap_app, last_app. cbn [omap list_omap fst snd]. case_decide as Hd; cbn [fst] in Hd.
  - subst a. by rewrite lookup_insert_eq.
  - rewrite lookup_insert_ne by done. cbn. apply IH.
Qed.

(** ** The window *)

Lemma retain_lookup cache height k s seen : PreStxCache.retain_window cache height !! k = Some (s, seen) <->
  cache !! k = Some (s, seen) /\ height - seen <= PRE_STX_WINDOW_BLOCKS.
Proof.
  unfold PreStxCache.retain_window. rewrite map_lookup_filter_Some. cbn. unfold saturating_sub, PRE_STX_WINDOW_BLOCKS. split; intros [H1 H2]; (split; [done|]); lia.
Qed.

Lemma retain_none cache height k : PreStxCache.retain_window cache height !! k = None <->
  forall s seen, cache !! k = Some (s, seen) -> PRE_STX_WINDOW_BLOCKS < height - seen.
Proof.
  split.
  - intros Hn s seen Hk. destruct (Z.lt_ge_cases PRE_STX_WINDOW_BLOCKS (height - seen)); [done|].
    assert (PreStxCache.retain_window cache height !! k = Some (s, seen)) by (apply retain_lookup; split; [done|lia]). congruence.
  - intros H. destruct (PreStxCache.retain_window cache height !! k) as [[s seen]|] eqn:E; [|done]. apply retain_lookup in E as [E1 E2]. apply H in E1. lia.
Qed.

Lemma retain_retain cache h h' : h' <= h -> PreStxCache.retain_window (PreStxCache.retain_window cache h') h = PreStxCache.retain_window cache h.
Proof.
  intros Hle. apply map_eq. intros k. destruct (PreStxCache.retain_window cache h !! k) as [[s seen]|] eqn:E.
  - apply retain_lookup in E as [E1 E2]. apply retain_lookup. split; [|done]. apply retain_lookup. split; [done|lia].
  - rewrite retain_none in E. apply retain_none. intros s seen [H _]%retain_lookup. by eapply E.
Qed.

Lemma retain_add cache h height entries : h - height <= PRE_STX_WINDOW_BLOCKS ->
  PreStxCache.retain_window (add_entries height entries cache) h = add_entries height entries (PreStxCache.retain_window cache h).
Proof.
  intros Hw. apply map_eq. intros k. rewrite add_entries_lookup. destruct (PreStxCache.retain_window (add_entries _ _ _) h !! k) as [[s seen]|] eqn:E.
  - apply retain_lookup in E as [E1 E2]. rewrite add_entries_lookup in E1. destruct (last _) as [s'|]; [by rewrite E1|]. symmetry. by apply retain_lookup.
  - rewrite retain_none in E. setoid_rewrite add_entries_lookup in E. destruct (last _) as [s'|]; [specialize (E s' height eq_refl); lia|]. symmetry. by apply retain_none.
Qed.

(** ** The chain *)

(** The outputs of the blocks at the heights [hs] of the chain [g]. *)
Definition add_blocks (g : Z -> BtcBlock) (hs : list Z) (cache : PreStxCache.t) : PreStxCache.t :=
  fold_left (fun c j => add_entries j (pre_entries (g j)) c) hs cache.

(** The [PreStx] outputs of the six blocks before [height]. *)
Definition window_cache (g : Z -> BtcBlock) (height : Z) : PreStxCache.t :=
  let first := saturating_sub height PRE_STX_WINDOW_BLOCKS in add_blocks g (seqZ first (height - first)) ∅.

(** The block at [height], decoded with them. *)
Definition canonical_block (g : Z -> BtcBlock) (height : Z) : option BitcoinBlock :=
  match decode_transactions height magic (window_cache g height) 0 (bk_txdata (g height)) with
  | (Ok operations, _) => Some (mkBitcoinBlock height (bitcoin_hash_bytes (bk_hash (g height))) (bk_time (g height)) operations)
  | (Err _, _) => None
  end.

(** Every entry is a [PreStx] output of a block of the chain, at most at [top]. *)
Definition genuine (g : Z -> BtcBlock) (top : Z) (cache : PreStxCache.t) : Prop :=
  forall k s seen, cache !! k = Some (s, seen) -> 0 <= seen <= top /\ (k, s) ∈ pre_entries (g seen).

Lemma genuine_new g top : genuine g top PreStxCache.new.
Proof. intros k s seen Hk. unfold PreStxCache.new in Hk. by rewrite lookup_empty in Hk. Qed.

Lemma add_blocks_snoc g hs j cache : add_blocks g (hs ++ [j]) cache = add_entries j (pre_entries (g j)) (add_blocks g hs cache).
Proof. unfold add_blocks. by rewrite fold_left_app. Qed.

Lemma retain_blocks g h hs cache : Forall (fun j => h - j <= PRE_STX_WINDOW_BLOCKS) hs ->
  PreStxCache.retain_window (add_blocks g hs cache) h = add_blocks g hs (PreStxCache.retain_window cache h).
Proof.
  intros HF. induction hs as [|j hs IH] using rev_ind; [done|]. apply Forall_app in HF as [HF Hj]. apply Forall_cons_1 in Hj as [Hj _].
  rewrite !add_blocks_snoc, retain_add by done. by rewrite IH.
Qed.

Lemma retain_empty h : PreStxCache.retain_window ∅ h = ∅.
Proof. apply map_filter_empty. Qed.

Lemma seqZ_Forall_ge a n h : h - a <= PRE_STX_WINDOW_BLOCKS -> Forall (fun j => h - j <= PRE_STX_WINDOW_BLOCKS) (seqZ a n).
Proof. intros H. apply Forall_forall. intros j Hj%elem_of_seqZ. lia. Qed.

Lemma window_next g h : 0 <= h ->
  PreStxCache.retain_window (add_entries h (pre_entries (g h)) (window_cache g h)) (h + 1) = window_cache g (h + 1).
Proof.
  intros Hh. unfold window_cache, saturating_sub. cbn zeta. unfold PRE_STX_WINDOW_BLOCKS in *. destruct (Z.lt_ge_cases h 6) as [Hlt|Hge].
  - rewrite !Z.max_l by lia. rewrite !Z.sub_0_r, <- add_blocks_snoc, retain_blocks, retain_empty.
    + replace (seqZ 0 (h + 1)) with (seqZ 0 h ++ [h]); [done|]. by rewrite seqZ_app by lia.
    + apply Forall_app. split; [apply seqZ_Forall_ge; unfold PRE_STX_WINDOW_BLOCKS; lia|]. constructor; [unfold PRE_STX_WINDOW_BLOCKS; lia|constructor].
  - rewrite !Z.max_r by lia. replace (h - (h - 6)) with 6 by lia. replace (h + 1 - (h + 1 - 6)) with 6 by lia. replace (h + 1 - 6) with (h - 5) by lia.
    rewrite (seqZ_cons (h - 6)) by lia. change (add_blocks g (h - 6 :: ?l) ∅) with (add_blocks g l (add_entries (h - 6) (pre_entries (g (h - 6))) ∅)).
    replace (Z.succ (h - 6)) with (h - 5) by lia. change (Z.pred 6) with 5. rewrite <- add_blocks_snoc, retain_blocks.
    + replace (PreStxCache.retain_window (add_entries (h - 6) _ ∅) (h + 1)) with (∅ : PreStxCache.t).
      * f_equal. replace (seqZ (h - 5) 6) with (seqZ (h - 5) (5 + 1)) by done. rewrite seqZ_app by lia. f_equal. replace (h - 5 + 5) with h by lia. done.
      * symmetry. apply map_eq. intros k. rewrite lookup_empty. apply retain_none. intros s seen Hk. rewrite add_entries_lookup, lookup_empty in Hk.
        destruct (last _); [|done]. injection Hk as _ <-. unfold PRE_STX_WINDOW_BLOCKS. lia.
    + apply Forall_app. split; [apply seqZ_Forall_ge; unfold PRE_STX_WINDOW_BLOCKS; lia|]. constructor; [unfold PRE_STX_WINDOW_BLOCKS; lia|constructor].
Qed.

Lemma add_entries_key height entries k c c' : k ∈ map fst entries -> add_entries height entries c !! k = add_entries height entries c' !! k.
Proof.
  intros Hk. rewrite !add_entries_lookup. destruct (last _) eqn:Hl; [done|]. exfalso. apply last_None in Hl. apply list_elem_of_fmap in Hk as ([a s] & -> & Hin). cbn [fst] in Hl.
  assert (He : s ∈ omap (fun kv => if decide (kv.1 = a) then Some kv.2 else None) entries); [|rewrite Hl in He; by apply elem_of_nil in He].
  apply list_elem_of_omap. exists (a, s). split; [done|]. cbn. by rewrite decide_True.
Qed.

Lemma add_entries_other height entries k c : k ∉ map fst entries -> add_entries height entries c !! k = c !! k.
Proof.
  intros Hk. rewrite add_entries_lookup. destruct (last _) as [s|] eqn:Hl; [|done]. apply last_Some_elem_of, list_elem_of_omap in Hl as ([a s'] & Hin & Ha).
  cbn in Ha. case_decide; [|done]. subst. destruct Hk. apply list_elem_of_fmap. by exists (k, s').
Qed.

(** Adding the blocks a cache came from makes the cache superfluous. *)
Lemma add_blocks_covered g hs c : (forall k v, c !! k = Some v -> exists j, j ∈ hs /\ k ∈ map fst (pre_entries (g j))) -> add_blocks g hs c = add_blocks g hs ∅.
Proof.
  intros Hc. apply map_eq. intros k. assert (Hgen : forall l c1 c2, (exists j, j ∈ l /\ k ∈ map fst (pre_entries (g j))) \/ c1 !! k = c2 !! k ->
    add_blocks g l c1 !! k = add_blocks g l c2 !! k).
  { induction l as [|j l IH] using rev_ind; intros c1 c2 Hor; [destruct Hor as [(j & Hj & _)|]; [by apply elem_of_nil in Hj|done]|]. rewrite !add_blocks_snoc.
    destruct (decide (k ∈ map fst (pre_entries (g j)))) as [Hk|Hk]; [by apply add_entries_key|]. rewrite !add_entries_other by done. apply IH.
    destruct Hor as [(i & [Hi| ->%list_elem_of_singleton]%elem_of_app & Hk')|]; [left; by exists i|done|by right]. }
  apply Hgen. destruct (c !! k) as [v|] eqn:Hk; [left; by apply Hc with v|right; by rewrite lookup_empty].
Qed.

Lemma genuine_add g h cache : 0 <= h -> genuine g (h - 1) cache -> genuine g h (add_entries h (pre_entries (g h)) (PreStxCache.retain_window cache h)).
Proof.
  intros Hh Hg k s seen Hk. rewrite add_entries_lookup in Hk. destruct (last _) as [s'|] eqn:Hl.
  - injection Hk as -> <-. split; [lia|]. apply last_Some_elem_of, list_elem_of_omap in Hl as ([a s''] & Hin & Ha). cbn in Ha. case_decide; [|done].
    injection Ha as ->. by subst.
  - apply retain_lookup in Hk as [Hk _]. destruct (Hg _ _ _ Hk). split; [lia|done].
Qed.

Lemma fresh_window g h cache : 0 <= h -> genuine g (h - 1) cache ->
  let first := saturating_sub h PRE_STX_WINDOW_BLOCKS in
  add_blocks g (seqZ first (h - first)) (PreStxCache.retain_window cache h) = window_cache g h.
Proof.
  intros Hh Hg. cbn zeta. apply add_blocks_covered. intros k [s seen] [Hk Hw]%retain_lookup. destruct (Hg _ _ _ Hk) as [Hs Hin].
  exists seen. split; [|apply list_elem_of_fmap; by exists (k, s)]. apply elem_of_seqZ. unfold saturating_sub. lia.
Qed.

(** ** Reading *)

Context {E : Type}.

(** The remote end serves the chain [g]. *)
Definition serves (remote : Remote E) (g : Z -> BtcBlock) : Prop :=
  forall h, 0 <= h -> remote_hash_at remote h = Ok (bitcoin_hash_bytes (bk_hash (g h))) /\
    len (bk_txdata (g h)) <= U32_MAX + 1 /\
    exists raw, remote_raw_at remote h = Ok raw /\ deserialize_block raw = Some (g h).

Lemma canonical_some g h : len (bk_txdata (g h)) <= U32_MAX + 1 ->
  exists ops, canonical_block g h = Some (mkBitcoinBlock h (bitcoin_hash_bytes (bk_hash (g h))) (bk_time (g h)) ops).
Proof.
  intros Hl. unfold canonical_block. destruct (decode_transactions_ok h magic (window_cache g h) 0 (bk_txdata (g h))) as (ops & c & ->); [done|lia|]. by exists ops.
Qed.

(** A source that is to read [h] next. *)
Record ready (g : Z -> BtcBlock) (s : SourceState) (h : Z) : Prop := {
  ready_magic : src_magic s = magic;
  ready_height : 0 <= h;
  ready_window : PreStxCache.retain_window (src_pre_stx s) h = window_cache g h;
  ready_genuine : genuine g (h - 1) (src_pre_stx s);
}.

(** A source that has read [h] last. *)
Record primed (g : Z -> BtcBlock) (s : SourceState) (h : Z) : Prop := {
  primed_ready : ready g s (h + 1);
  primed_height : 0 <= h;
  primed_last : src_last_height s = Some h;
  primed_block : src_last_block s = canonical_block g h;
}.

Variable invalidate : SourceState -> Z -> SourceState.

Lemma decode_step g remote h raw cache : serves remote g -> 0 <= h -> remote_raw_at remote h = Ok raw ->
  exists b, decode_block_with_pre_stx h raw magic cache = (Ok b, add_entries h (pre_entries (g h)) (PreStxCache.retain_window cache h)) /\
    (PreStxCache.retain_window cache h = window_cache g h -> canonical_block g h = Some b).
Proof.
  intros Hserve Hh Hraw. destruct (Hserve h Hh) as (_ & Hlen & raw' & Hraw' & Hd). rewrite Hraw in Hraw'. injection Hraw' as <-.
  unfold decode_block_with_pre_stx, canonical_block. rewrite Hd.
  destruct (decode_transactions_ok h magic (PreStxCache.retain_window cache h) 0 (bk_txdata (g h))) as (ops & c & Hdt); [done|lia|]. rewrite Hdt.
  rewrite (decode_transactions_cache _ _ _ _ _ _ Hdt). eexists. split; [done|]. intros Hw. rewrite <- Hw, Hdt. done.
Qed.

Lemma ready_step g remote s h : serves remote g -> ready g s h -> exists raw b cache, remote_raw_at remote h = Ok raw /\
  decode_block_with_pre_stx h raw (src_magic s) (src_pre_stx s) = (Ok b, cache) /\ canonical_block g h = Some b /\
  primed g (mkSource (src_magic s) cache (Some h) (Some b)) h.
Proof.
  intros Hserve [Hm Hh Hw Hg]. destruct (Hserve h Hh) as (_ & _ & raw & Hraw & _). destruct (decode_step g remote h raw (src_pre_stx s) Hserve Hh Hraw) as (b & Hd & Hc).
  exists raw, b. eexists. rewrite Hm. split; [done|]. split; [exact Hd|]. specialize (Hc Hw). split; [done|].
  split; cbn; [|done|done|done]. split; cbn; [done|lia| |].
  - rewrite Hw. by apply window_next.
  - replace (h + 1 - 1) with h by lia. by apply genuine_add.
Qed.

Lemma walk_ready g remote s h n current : serves remote g -> ready g s h ->
  exists s', walk remote s h (S n) current = (Ok (canonical_block g (h + Z.of_nat n)), s') /\ primed g s' (h + Z.of_nat n).
Proof.
  intros Hserve. revert s h current. induction n as [|n IH]; intros s h current Hr; destruct (ready_step g remote s h Hserve Hr) as (raw & b & cache & Hraw & Hd & Hc & Hp).
  - cbn [walk]. rewrite Hraw, Hd, Z.add_0_r, Hc. by eexists.
  - change (walk remote s h (S (S n)) current) with (match remote_raw_at remote h with Err e => (Err e, s) | Ok raw =>
      let '(r, cache) := decode_block_with_pre_stx h raw (src_magic s) (src_pre_stx s) in
      match r with Err e => (Err (Parse e), mkSource (src_magic s) cache (src_last_height s) (src_last_block s))
      | Ok block => walk remote (mkSource (src_magic s) cache (Some h) (Some block)) (h + 1) (S n) (Some block) end end).
    rewrite Hraw, Hd. destruct (IH _ (h + 1) (Some b) (primed_ready _ _ _ Hp)) as (s' & Hw & Hp'). exists s'.
    replace (h + Z.of_nat (S n)) with (h + 1 + Z.of_nat n) by lia. done.
Qed.

(** Reading the window first, from a cache that lacks some of it. *)
Lemma walk_fresh g remote s j n h current : serves remote g -> src_magic s = magic -> 0 <= j -> h = j + Z.of_nat n -> h - j <= PRE_STX_WINDOW_BLOCKS ->
  genuine g (j - 1) (src_pre_stx s) \/ genuine g (h - 1) (src_pre_stx s) ->
  add_blocks g (seqZ j (Z.of_nat n)) (PreStxCache.retain_window (src_pre_stx s) h) = window_cache g h ->
  exists s', walk remote s j (S n) current = (Ok (canonical_block g h), s') /\ primed g s' h.
Proof.
  intros Hserve. revert s j current. induction n as [|n IH]; intros s j current Hm Hj -> Hwin Hg Hadd.
  - rewrite Z.add_0_r in *. cbn [add_blocks fold_left seqZ] in Hadd. destruct (walk_ready g remote s j 0 current Hserve) as (s' & Hw & Hp).
    { split; [done|done|exact Hadd|]. by destruct Hg. }
    rewrite Z.add_0_r in *. by exists s'.
  - destruct (Hserve j Hj) as (_ & _ & raw & Hraw & _). destruct (decode_step g remote j raw (src_pre_stx s) Hserve Hj Hraw) as (b & Hd & _).
    cbn [walk]. rewrite Hraw, Hm, Hd. set (h := j + Z.of_nat (S n)) in *. set (cache := add_entries _ _ _).
    apply (IH (mkSource magic cache (Some j) (Some b)) (j + 1) (Some b)); cbn [src_magic src_pre_stx]; [done|lia|lia|lia| |].
    + right. intros k sd seen Hk. unfold cache in Hk. rewrite add_entries_lookup in Hk. destruct (last _) as [sd'|] eqn:Hl.
      * injection Hk as -> <-. split; [lia|]. apply last_Some_elem_of, list_elem_of_omap in Hl as ([a sd''] & Hin & Ha). cbn in Ha. case_decide; [|done].
        injection Ha as ->. by subst.
      * apply retain_lookup in Hk as [Hk _]. destruct Hg as [Hg|Hg]; destruct (Hg _ _ _ Hk); (split; [lia|done]).
    + unfold cache. rewrite retain_add by lia. rewrite retain_retain by lia. rewrite <- Hadd. replace (Z.of_nat (S n)) with (1 + Z.of_nat n) by lia.
      rewrite seqZ_app by lia. unfold add_blocks. rewrite fold_left_app. done.
Qed.

Lemma read_fresh g remote s h : serves remote g -> 0 <= h -> src_magic s = magic -> genuine g (h - 1) (src_pre_stx s) ->
  exists b s', walk remote s (saturating_sub h PRE_STX_WINDOW_BLOCKS) (Z.to_nat (h - saturating_sub h PRE_STX_WINDOW_BLOCKS + 1)) None = (Ok (Some b), s') /\
    canonical_block g h = Some b /\ primed g s' h.
Proof.
  intros Hserve Hh Hm Hg. set (first := saturating_sub h PRE_STX_WINDOW_BLOCKS). assert (Hf : 0 <= first <= h /\ h - first <= PRE_STX_WINDOW_BLOCKS).
  { unfold first, saturating_sub, PRE_STX_WINDOW_BLOCKS. lia. }
  destruct (walk_fresh g remote s first (Z.to_nat (h - first)) h None Hserve Hm) as (s' & Hw & Hp); [lia|lia|lia|by right| |].
  { rewrite Z2Nat.id by lia. by apply fresh_window. }
  destruct (Hserve h Hh) as (_ & Hlen & _). destruct (canonical_some g h Hlen) as [ops Hc]. rewrite Hc in Hw. eexists _, s'.
  replace (Z.to_nat (h - first + 1)) with (S (Z.to_nat (h - first))) by lia. split; [exact Hw|]. by split.
Qed.

(** A source with nothing read, or with [h'] read last, reads [h]. *)
Lemma read_primed g remote s h' h : serves remote g -> primed g s h' -> 0 <= h ->
  exists b s', source_block_at invalidate remote s h = (Ok b, s') /\ canonical_block g h = Some b /\ primed g s' h.
Proof.
  intros Hserve [Hr Hh' Hl Hb] Hh. destruct (Hserve h' Hh') as (Hhash & Hlen & _). destruct (canonical_some g h' Hlen) as [ops Hc]. rewrite Hc in Hb.
  unfold source_block_at, check_last_read. rewrite Hb. cbn [bb_height bb_hash]. rewrite Hhash, decide_True by done. rewrite Hb. cbn [bb_height].
  destruct (Z.eqb_spec h' h) as [->|Hne]; [exists (mkBitcoinBlock h (bitcoin_hash_bytes (bk_hash (g h))) (bk_time (g h)) ops), s; split; [done|]; split; [done|by split; rewrite ?Hc]|].
  unfold first_height. rewrite Hl. destruct (Z.ltb_spec h h') as [Hlt|Hge].
  - rewrite (proj2 (Z.ltb_ge h' h)) by lia.
    destruct (read_fresh g remote (mkSource (src_magic s) PreStxCache.new (Some h') (Some (mkBitcoinBlock h' (bitcoin_hash_bytes (bk_hash (g h'))) (bk_time (g h')) ops))) h Hserve Hh (ready_magic _ _ _ Hr))
      as (b & s' & Hw & Hcb & Hp); [apply genuine_new|]. rewrite Hw. by exists b, s'.
  - rewrite (proj2 (Z.ltb_lt h' h)) by lia. replace (Z.to_nat (h - (h' + 1) + 1)) with (S (Z.to_nat (h - h' - 1))) by lia.
    destruct (walk_ready g remote (mkSource (src_magic s) (src_pre_stx s) (Some h') (Some (mkBitcoinBlock h' (bitcoin_hash_bytes (bk_hash (g h'))) (bk_time (g h')) ops))) (h' + 1) (Z.to_nat (h - h' - 1)) None Hserve)
      as (s' & Hw & Hp); [destruct Hr; by split|]. replace (h' + 1 + Z.of_nat (Z.to_nat (h - h' - 1))) with h in * by lia. rewrite Hw.
    destruct (Hserve h Hh) as (_ & Hlen' & _). destruct (canonical_some g h Hlen') as [ops' Hc']. rewrite Hc'. by eexists _, s'.
Qed.

Lemma read_unread g remote s h : serves remote g -> src_magic s = magic -> src_last_height s = None -> src_last_block s = None -> 0 <= h ->
  genuine g (h - 1) (src_pre_stx s) ->
  exists b s', source_block_at invalidate remote s h = (Ok b, s') /\ canonical_block g h = Some b /\ primed g s' h.
Proof.
  intros Hserve Hm Hl Hb Hh Hg. unfold source_block_at, check_last_read. rewrite Hb, Hb. unfold first_height. rewrite Hl.
  destruct (read_fresh g remote (mkSource (src_magic s) (src_pre_stx s) None None) h Hserve Hh Hm Hg) as (b & s' & Hw & Hc & Hp). rewrite Hw. by exists b, s'.
Qed.

(** The heights of [hs] read one after the other. *)
Fixpoint read_all (remote : Remote E) (s : SourceState) (hs : list Z) : list (result (BitcoinSourceError E) BitcoinBlock) * SourceState :=
  match hs with
  | [] => ([], s)
  | h :: hs => let '(r, s) := source_block_at invalidate remote s h in let '(rs, s) := read_all remote s hs in (r :: rs, s)
  end.

Lemma read_all_primed g remote s h' hs : serves remote g -> primed g s h' -> Forall (fun h => 0 <= h) hs ->
  exists rs s' h'', read_all remote s hs = (rs, s') /\ primed g s' h'' /\
    Forall2 (fun h r => exists b, r = Ok b /\ canonical_block g h = Some b) hs rs.
Proof.
  intros Hserve Hp HF. revert s h' Hp. induction HF as [|h hs Hh _ IH]; intros s h' Hp; [by exists [], s, h'|].
  destruct (read_primed g remote s h' h Hserve Hp Hh) as (b & s1 & Hr & Hc & Hp1). destruct (IH s1 h Hp1) as (rs & s2 & h2 & Hrs & Hp2 & HF2).
  exists (Ok b :: rs), s2, h2. cbn [read_all]. rewrite Hr, Hrs. split; [done|]. split; [done|]. constructor; [by exists b|done].
Qed.

Lemma read_all_new g remote hs : serves remote g -> hs <> [] -> Forall (fun h => 0 <= h) hs ->
  exists rs s' h, read_all remote (source_new magic) hs = (rs, s') /\ primed g s' h /\
    Forall2 (fun h r => exists b, r = Ok b /\ canonical_block g h = Some b) hs rs.
Proof.
  intros Hserve Hne HF. destruct hs as [|h hs]; [done|]. apply Forall_cons_1 in HF as [Hh HF].
  destruct (read_unread g remote (source_new magic) h Hserve eq_refl eq_refl eq_refl Hh) as (b & s1 & Hr & Hc & Hp); [apply genuine_new|].
  destruct (read_all_primed g remote s1 h hs Hserve Hp HF) as (rs & s2 & h2 & Hrs & Hp2 & HF2). exists (Ok b :: rs), s2, h2. cbn [read_all]. rewrite Hr, Hrs.
  split; [done|]. split; [done|]. constructor; [by exists b|done].
Qed.

End Entries.

(** A new source asked for any heights in any order answers each with the block
    there, decoded with exactly the [PreStx] outputs of the six blocks before it: the
    cache and the incremental walk are not observable. *)
Theorem source_reads_canonical `{ED : Edwards} `{BL : BitcoinLib} {E : Type} (magic : list byte) (invalidate : SourceState -> Z -> SourceState)
  (remote : Remote E) (g : Z -> BtcBlock) (hs : list Z) (Hserve : serves remote g) (Hhs : Forall (fun h => 0 <= h) hs) :
  Forall2 (fun h r => exists b, r = Ok b /\ canonical_block magic g h = Some b) hs (read_all invalidate remote (source_new magic) hs).1.
Proof.
  destruct hs as [|h hs]; [constructor|]. destruct (read_all_new magic invalidate g remote (h :: hs) Hserve ltac:(done) Hhs) as (rs & s' & h' & -> & _ & HF). exact HF.
Qed.

(** ** Reorganizations *)

Lemma rest_invalidate_ready `{ED : Edwards} `{BL : BitcoinLib} magic g1 g2 s h H : primed magic g1 s h -> (forall j, j < H -> g2 j = g1 j) ->
  (h < H /\ primed magic g2 (BitcoinRestSource.invalidate_from s H) h) \/
  (src_magic (BitcoinRestSource.invalidate_from s H) = magic /\ src_last_height (BitcoinRestSource.invalidate_from s H) = None /\
   src_last_block (BitcoinRestSource.invalidate_from s H) = None /\ genuine magic g2 (H - 1) (src_pre_stx (BitcoinRestSource.invalidate_from s H))).
Proof.
  intros [[Hm Hh1 Hw Hg] Hh Hl Hb] Hagree.
  assert (Hgen : genuine magic g2 (H - 1) (PreStxCache.invalidate_from (src_pre_stx s) H)).
  { intros k sd seen Hk. apply map_lookup_filter_Some in Hk as [Hk Hlt]. cbn in Hlt. destruct (Hg _ _ _ Hk). split; [lia|]. by rewrite Hagree. }
  unfold BitcoinRestSource.invalidate_from. cbn [src_magic src_last_height src_last_block src_pre_stx]. rewrite Hl. cbn [mbind option_bind].
  assert (Hblk : forall g : Z -> BtcBlock, src_last_block s = canonical_block magic g h -> keep_below H (src_last_block s) = if h <? H then src_last_block s else None).
  { intros g Hbg. rewrite Hbg. unfold canonical_block. destruct (decode_transactions _ _ _ _ _) as [[ops|] c]; cbn [keep_below mbind option_bind bb_height]; [done|]. by case_match. }
  rewrite (Hblk g1 Hb). destruct (Z.ltb_spec h H) as [Hlt|Hge]; [left|by right]. split; [done|].
  assert (Hinv : PreStxCache.invalidate_from (src_pre_stx s) H = src_pre_stx s).
  { apply map_filter_id. intros k [sd seen] Hk. cbn. destruct (Hg _ _ _ Hk). lia. }
  assert (Hblocks : forall hs c, Forall (fun j => j < H) hs -> add_blocks magic g1 hs c = add_blocks magic g2 hs c).
  { clear -Hagree. intros hs c HF. induction hs as [|j hs IH] using rev_ind; [done|]. apply Forall_app in HF as [HF Hj]. apply Forall_cons_1 in Hj as [Hj _].
    rewrite !add_blocks_snoc, IH by done. unfold pre_entries. by rewrite (Hagree j Hj). }
  assert (Hwin : forall j, j <= H -> window_cache magic g1 j = window_cache magic g2 j).
  { intros j Hj. apply Hblocks. apply Forall_forall. intros i Hi%elem_of_seqZ. lia. }
  split; cbn; [|done|done|].
  - split; cbn; [done|done| |].
    + rewrite Hinv, Hw. apply Hwin. lia.
    + rewrite Hinv. intros k sd seen Hk. destruct (Hg _ _ _ Hk). split; [done|]. rewrite Hagree by lia. done.
  - rewrite Hb. unfold canonical_block. rewrite Hwin by lia. by rewrite Hagree.
Qed.

(** After the chain changes from height [H] on and
    [BitcoinRestSource::invalidate_from] is told so, the source returns for every
    height from [H] on the block of the new chain, decoded with the [PreStx] outputs
    of the six blocks before it. *)
Theorem rest_reorg_recovers `{ED : Edwards} `{BL : BitcoinLib} {E : Type} (magic : list byte) (before after : @BitcoinRestSource.Server E)
  (g1 g2 : Z -> BtcBlock) (hs : list Z) (H h : Z)
  (Hbefore : serves (BitcoinRestSource.remote before) g1) (Hafter : serves (BitcoinRestSource.remote after) g2)
  (Hagree : forall j, j < H -> g2 j = g1 j) (Hhs : Forall (fun h => 0 <= h) hs) (Hne : hs <> []) (Hh : 0 <= H <= h) :
  exists b, canonical_block magic g2 h = Some b /\
    (BitcoinRestSource.block_at after
       (BitcoinRestSource.invalidate_from (read_all BitcoinRestSource.invalidate_from (BitcoinRestSource.remote before) (source_new magic) hs).2 H) h).1 = Ok b.
Proof.
  destruct (read_all_new magic BitcoinRestSource.invalidate_from g1 _ hs Hbefore Hne Hhs) as (rs & s & h' & -> & Hp & _). cbn [snd]. unfold BitcoinRestSource.block_at.
  destruct (rest_invalidate_ready magic g1 g2 s h' H Hp Hagree) as [[_ Hp2]|(Hm & Hl & Hb & Hg)].
  - destruct (read_primed magic BitcoinRestSource.invalidate_from g2 _ _ h' h Hafter Hp2 ltac:(lia)) as (b & s' & -> & Hc & _). by exists b.
  - destruct (read_unread magic BitcoinRestSource.invalidate_from g2 _ _ h Hafter Hm Hl Hb ltac:(lia)) as (b & s' & -> & Hc & _); [|by exists b].
    intros k sd seen Hk. destruct (Hg _ _ _ Hk). split; [lia|done].
Qed.

(** ** Authentication *)

(** The sender an operation acts for, which only a [PreStx] output can name. *)
Definition sender_of (k : BitcoinOperationKind) : option StacksAddress.t :=
  match k with
  | StackStx s _ _ _ _ _ _ | TransferStx s _ _ _ | DelegateStx s _ _ _ _ _ | VoteForAggregateKey s _ _ _ _ => Some s
  | _ => None
  end.

Lemma parse_sender `{ED : Edwards} opcode data outputs sender k s :
  parse_operation opcode data outputs sender = Some k -> sender_of k = Some s -> sender = Some s.
Proof.
  intros Hk Hs. unfold parse_operation, parse_leader_block_commit, parse_leader_key_registration, parse_stack_stx, parse_transfer_stx, parse_delegate_stx,
    parse_vote_for_aggregate_key in Hk. repeat (case_match; simplify_option_eq; try done).
Qed.

Lemma decode_operation_sender `{ED : Edwards} `{BL : BitcoinLib} cache magic i tx op s : decode_operation cache magic i tx = Some op -> sender_of (op_kind op) = Some s ->
  exists input seen, head (op_inputs op) = Some input /\ in_output_index input = 1 /\ cache !! in_txid input = Some (s, seen).
Proof.
  intros Hd Hs. unfold decode_operation in Hd. destruct (head (bt_output tx)) as [o|]; [|done]. cbn [mbind option_bind] in Hd.
  destruct (protocol_payload _ _) as [[opcode payload]|]; [|done]. cbn [mbind option_bind] in Hd. destruct (mapM _ _) as [outputs|]; [|done]. cbn [mbind option_bind] in Hd.
  destruct (_ || _); [done|]. destruct (parse_operation _ _ _ _) as [kind|] eqn:Hk; [|done]. injection Hd as <-. cbn [op_kind op_inputs] in *.
  eapply parse_sender in Hs; [|exact Hk]. unfold paired_sender in Hs. destruct (head _) as [input|] eqn:Hh; [|done]. cbn in Hs.
  destruct (Z.eqb_spec (in_output_index input) 1) as [H1|]; [|done]. destruct (cache !! in_txid input) as [[s' seen]|] eqn:Hc; [|done]. injection Hs as ->.
  by exists input, seen.
Qed.

Lemma decode_transactions_senders `{ED : Edwards} `{BL : BitcoinLib} (P : list byte -> StacksAddress.t -> Prop) height magic cache i txs ops cache' :
  decode_transactions height magic cache i txs = (Ok ops, cache') ->
  (forall k s seen, cache !! k = Some (s, seen) -> P k s) -> (forall tx k s, tx ∈ txs -> pre_entry magic tx = Some (k, s) -> P k s) ->
  forall op s, op ∈ ops -> sender_of (op_kind op) = Some s ->
  exists input, head (op_inputs op) = Some input /\ in_output_index input = 1 /\ P (in_txid input) s.
Proof.
  revert cache i ops. induction txs as [|tx txs IH]; intros cache i ops Hd Hc Htx op s Hop Hs; cbn [decode_transactions] in Hd; [injection Hd as <- <-; by apply elem_of_nil in Hop|].
  assert (Hrest : forall tx k s, tx ∈ txs -> pre_entry magic tx = Some (k, s) -> P k s) by (intros; eapply Htx; [by right|done]).
  destruct (try_from U32_MAX i) as [j|]; [|done]. pose proof (decode_operation_pre magic cache j tx) as Hpre.
  destruct (decode_operation cache magic j tx) as [op'|] eqn:Hop'; [|by eapply IH].
  destruct (decode_transactions _ _ _ _ _) as [[l|] c] eqn:Hr; [|done]. injection Hd as <- <-. apply elem_of_cons in Hop as [->|Hop].
  - destruct (decode_operation_sender _ _ _ _ _ _ Hop' Hs) as (input & seen & Hh & H1 & Hk). exists input. split; [done|]. split; [done|]. by eapply Hc.
  - eapply IH; [exact Hr| |exact Hrest|done|done]. intros k s' seen Hk. unfold remember_pre_stx in Hk. cbn [mbind option_bind] in Hpre.
    destruct (op_kind op') eqn:Hkind; try (by eapply Hc). cbn [pre_stx_of mbind option_bind] in Hpre.
    apply lookup_insert_Some in Hk as [[<- Heq]|[_ Hk]]; [|by eapply Hc]. injection Heq as <- <-. eapply Htx; [left|]. by rewrite <- Hpre.
Qed.

Lemma window_cache_genuine `{ED : Edwards} `{BL : BitcoinLib} magic g h k s seen : 0 <= h -> window_cache magic g h !! k = Some (s, seen) ->
  saturating_sub h PRE_STX_WINDOW_BLOCKS <= seen < h /\ (k, s) ∈ pre_entries magic (g seen).
Proof.
  intros Hh. assert (Hgen : forall hs, add_blocks magic g hs ∅ !! k = Some (s, seen) -> seen ∈ hs /\ (k, s) ∈ pre_entries magic (g seen)).
  { induction hs as [|j hs IH] using rev_ind; [unfold add_blocks; cbn [fold_left]; by rewrite lookup_empty|]. rewrite add_blocks_snoc, add_entries_lookup. destruct (last _) as [s'|] eqn:Hl.
    - intros [= -> ->]. split; [apply elem_of_app; right; by left|]. apply last_Some_elem_of, list_elem_of_omap in Hl as ([a s''] & Hin & Ha). cbn in Ha.
      case_decide; [|done]. by simplify_eq.
    - intros Hk. destruct (IH Hk). split; [apply elem_of_app; by left|done]. }
  intros Hk. destruct (Hgen _ Hk) as [Hin He]. split; [|done]. apply elem_of_seqZ in Hin. unfold saturating_sub in *. lia.
Qed.

(** An operation of a block read by a source that acts for a Stacks address
    spends output 1 of a [PreStx] transaction of that address, in the same block or in
    one of the six before it. *)
Theorem pre_stx_authentic `{ED : Edwards} `{BL : BitcoinLib} (magic : list byte) (g : Z -> BtcBlock) (h : Z) (b : BitcoinBlock)
  (op : BitcoinOperation) (s : StacksAddress.t) (Hh : 0 <= h) (Hb : canonical_block magic g h = Some b)
  (Hop : op ∈ bb_operations b) (Hs : sender_of (op_kind op) = Some s) :
  exists input j tx, head (op_inputs op) = Some input /\ in_output_index input = 1 /\
    h - PRE_STX_WINDOW_BLOCKS <= j <= h /\ 0 <= j /\ tx ∈ bk_txdata (g j) /\ pre_entry magic tx = Some (in_txid input, s).
Proof.
  unfold canonical_block in Hb. destruct (decode_transactions _ _ _ _ _) as [[ops|] c] eqn:Hd; [|done]. injection Hb as <-. cbn [bb_operations] in Hop.
  destruct (decode_transactions_senders (fun k s => exists j, h - PRE_STX_WINDOW_BLOCKS <= j <= h /\ 0 <= j /\ (k, s) ∈ pre_entries magic (g j))
              _ _ _ _ _ _ _ Hd) with (op := op) (s := s) as (input & Hin & H1 & j & Hj & Hj0 & He); [| |done|done|].
  - intros k s' seen Hk. apply window_cache_genuine in Hk as [Hr He]; [|done]. exists seen. unfold saturating_sub in Hr. split; [lia|]. split; [lia|done].
  - intros tx k s' Htx He. exists h. split; [unfold PRE_STX_WINDOW_BLOCKS; lia|]. split; [lia|]. apply list_elem_of_omap. by exists tx.
  - apply list_elem_of_omap in He as (tx & Htx & He). by exists input, j, tx.
Qed.
