(* ===== verification/SnapshotChain.v ===== *)
(** * The chain of snapshots and the sortition engine of [crates/nano-sortition/src/lib.rs]

    One snapshot per Bitcoin block, with the consensus hash derived from the
    hashes behind it, and the engine that draws each block's winner from its
    window of commitments. Snapshots below a window are forgotten; consensus
    hashes are not. An outer [option] is [None] where the code panics. *)

From stdpp Require Import gmap sorting.
From S2P Require Import Prelude Primitives Address Crypto SortitionRules SortitionDraw.

Record SortitionWinner : Type := mkWinner {
  wn_txid : list byte;
  wn_vrf_seed : list byte;
  wn_vrf_public_key : option (list byte);
  wn_signing_key_hash : option (list byte);
  wn_committed_block_hash : list byte;
  wn_parent_bitcoin_height : Z;
}.

Record SortitionSnapshot : Type := mkSnapshot {
  sn_bitcoin_height : Z;
  sn_bitcoin_header_hash : list byte;
  sn_bitcoin_timestamp : Z;
  sn_sortition_id : list byte;
  sn_parent_sortition_id : list byte;
  sn_operations_hash : list byte;
  sn_consensus_hash : ConsensusHash;
  sn_total_burn : Z;
  sn_sortition_hash : list byte;
  sn_num_sortitions : option Z;
  sn_winner_txid : option (list byte);
  sn_winner_vrf_seed : option (list byte);
  sn_winner_vrf_public_key : option (list byte);
  sn_winner_signing_key_hash : option (list byte);
  sn_committed_block_hash : option (list byte);
  sn_parent_bitcoin_height : option Z;
  sn_burn_spends : option BurnSpends;
  sn_mining_competition : option MiningCompetition;
  sn_pox_id : PoxId.t;
}.

(** [SortitionSnapshot::genesis]. *)
Definition genesis (bitcoin_height : Z) (bitcoin_header_hash : list byte) : SortitionSnapshot :=
  mkSnapshot bitcoin_height bitcoin_header_hash 0 bitcoin_header_hash bitcoin_header_hash (replicate 32 0%u8)
    (replicate 20 0%u8) 0 SortitionHash.initial (Some 0) None None None None None None None None PoxId.initial.

Definition set_spends (spends : option BurnSpends) (s : SortitionSnapshot) : SortitionSnapshot :=
  mkSnapshot (sn_bitcoin_height s) (sn_bitcoin_header_hash s) (sn_bitcoin_timestamp s) (sn_sortition_id s) (sn_parent_sortition_id s)
    (sn_operations_hash s) (sn_consensus_hash s) (sn_total_burn s) (sn_sortition_hash s) (sn_num_sortitions s) (sn_winner_txid s)
    (sn_winner_vrf_seed s) (sn_winner_vrf_public_key s) (sn_winner_signing_key_hash s) (sn_committed_block_hash s)
    (sn_parent_bitcoin_height s) spends (sn_mining_competition s) (sn_pox_id s).
Definition set_competition (competition : option MiningCompetition) (s : SortitionSnapshot) : SortitionSnapshot :=
  mkSnapshot (sn_bitcoin_height s) (sn_bitcoin_header_hash s) (sn_bitcoin_timestamp s) (sn_sortition_id s) (sn_parent_sortition_id s)
    (sn_operations_hash s) (sn_consensus_hash s) (sn_total_burn s) (sn_sortition_hash s) (sn_num_sortitions s) (sn_winner_txid s)
    (sn_winner_vrf_seed s) (sn_winner_vrf_public_key s) (sn_winner_signing_key_hash s) (sn_committed_block_hash s)
    (sn_parent_bitcoin_height s) (sn_burn_spends s) competition (sn_pox_id s).
Definition set_seed (seed : list byte) (s : SortitionSnapshot) : SortitionSnapshot :=
  mkSnapshot (sn_bitcoin_height s) (sn_bitcoin_header_hash s) (sn_bitcoin_timestamp s) (sn_sortition_id s) (sn_parent_sortition_id s)
    (sn_operations_hash s) (sn_consensus_hash s) (sn_total_burn s) (sn_sortition_hash s) (sn_num_sortitions s) (sn_winner_txid s)
    (Some seed) (sn_winner_vrf_public_key s) (sn_winner_signing_key_hash s) (sn_committed_block_hash s)
    (sn_parent_bitcoin_height s) (sn_burn_spends s) (sn_mining_competition s) (sn_pox_id s).
Definition set_vrf_key (key : list byte) (s : SortitionSnapshot) : SortitionSnapshot :=
  mkSnapshot (sn_bitcoin_height s) (sn_bitcoin_header_hash s) (sn_bitcoin_timestamp s) (sn_sortition_id s) (sn_parent_sortition_id s)
    (sn_operations_hash s) (sn_consensus_hash s) (sn_total_burn s) (sn_sortition_hash s) (sn_num_sortitions s) (sn_winner_txid s)
    (sn_winner_vrf_seed s) (Some key) (sn_winner_signing_key_hash s) (sn_committed_block_hash s)
    (sn_parent_bitcoin_height s) (sn_burn_spends s) (sn_mining_competition s) (sn_pox_id s).
Definition set_timestamp (timestamp : Z) (s : SortitionSnapshot) : SortitionSnapshot :=
  mkSnapshot (sn_bitcoin_height s) (sn_bitcoin_header_hash s) timestamp (sn_sortition_id s) (sn_parent_sortition_id s)
    (sn_operations_hash s) (sn_consensus_hash s) (sn_total_burn s) (sn_sortition_hash s) (sn_num_sortitions s) (sn_winner_txid s)
    (sn_winner_vrf_seed s) (sn_winner_vrf_public_key s) (sn_winner_signing_key_hash s) (sn_committed_block_hash s)
    (sn_parent_bitcoin_height s) (sn_burn_spends s) (sn_mining_competition s) (sn_pox_id s).

Definition snapshot_for (block : BitcoinBlock) : SortitionSnapshot :=
  set_timestamp (bb_timestamp block) (genesis (bb_height block) (bb_hash block)).

(** ** Hashes *)

Definition SYSTEM_FORK_SET_VERSION : list byte := [23; 0; 0; 0]%u8.

Section Hashing.
Context `{HS : Hashes}.

Definition sortition_id (bitcoin_header_hash : list byte) (pox_id : PoxId.t) : list byte :=
  sha512_256 (bitcoin_header_hash ++ PoxId.as_consensus_bytes pox_id).

(** The bytes hashed by [consensus_hash]. *)
Definition consensus_bytes (bitcoin_header_hash operations_hash : list byte) (total_burn : Z)
  (previous_hashes : list ConsensusHash) (pox_id : PoxId.t) : list byte :=
  SYSTEM_FORK_SET_VERSION ++ bitcoin_header_hash ++ operations_hash ++ to_be_bytes 8 total_burn ++
  PoxId.as_consensus_bytes pox_id ++ concat previous_hashes.

Definition consensus_hash (bitcoin_header_hash operations_hash : list byte) (total_burn : Z)
  (previous_hashes : list ConsensusHash) (pox_id : PoxId.t) : ConsensusHash :=
  hash160 (consensus_bytes bitcoin_header_hash operations_hash total_burn previous_hashes pox_id).

(** [(1..=max_cycles).map(|cycles| from_bits(vec![true; cycles])).find(..)], from [cycles] on. *)
Fixpoint unbroken_from (bitcoin_header_hash identifier : list byte) (cycles fuel : nat) : option PoxId.t :=
  match fuel with
  | O => None
  | S fuel =>
      let pox_id := replicate cycles true in
      if decide (sortition_id bitcoin_header_hash pox_id = identifier) then Some pox_id
      else unbroken_from bitcoin_header_hash identifier (S cycles) fuel
  end.

Definition unbroken_pox_id_for (bitcoin_header_hash identifier : list byte) (max_cycles : Z) : option PoxId.t :=
  unbroken_from bitcoin_header_hash identifier 1 (Z.to_nat max_cycles).

End Hashing.

(** ** The chain *)

Inductive Fork : Type := Canonical | Above (bitcoin_height : Z) | BeyondChainRoot (root_bitcoin_height : Z).

Record SortitionReorg : Type := mkReorg { ro_valid_ancestor : SortitionSnapshot; ro_retracted : list SortitionSnapshot }.

Definition reorg_depth (r : SortitionReorg) : Z := len (ro_retracted r).
Definition resume_bitcoin_height (r : SortitionReorg) : Z :=
  saturating_add U64_MAX (sn_bitcoin_height (ro_valid_ancestor r)) 1.
Definition invalidated_consensus_hashes (r : SortitionReorg) : list ConsensusHash := map sn_consensus_hash (ro_retracted r).

Module SnapshotChain.

Record t : Type := mk {
  snapshots : list SortitionSnapshot;
  consensus_hashes : list ConsensusHash;
  sortitions_below_window : list Z;
  needed_from : option Z;
}.

Definition new (genesis : SortitionSnapshot) : t := mk [genesis] [sn_consensus_hash genesis] [] None.

Definition with_history (genesis : SortitionSnapshot) (history : list ConsensusHash) : option t :=
  if decide (last history = Some (sn_consensus_hash genesis)) then Some (mk [genesis] history [] None) else None.

(** [None] is the panic of [expect]. *)
Definition tip (c : t) : option SortitionSnapshot := last (snapshots c).
Definition root (c : t) : option SortitionSnapshot := head (snapshots c).

(** The walk of [find_fork] over the snapshots, latest first. *)
Fixpoint fork_walk {E} (canonical_hash : Z -> result E (list byte)) (tip_height root_height : Z) (latest_first : list SortitionSnapshot)
  : result E Fork :=
  match latest_first with
  | [] => Ok (BeyondChainRoot root_height)
  | snapshot :: rest =>
      let? hash := canonical_hash (sn_bitcoin_height snapshot) in
      if decide (hash = sn_bitcoin_header_hash snapshot) then
        Ok (if sn_bitcoin_height snapshot =? tip_height then Canonical else Above (sn_bitcoin_height snapshot))
      else fork_walk canonical_hash tip_height root_height rest
  end.

Definition find_fork {E} (c : t) (canonical_hash : Z -> result E (list byte)) : option (result E Fork) :=
  tip ← tip c;
  root ← root c;
  Some (fork_walk canonical_hash (sn_bitcoin_height tip) (sn_bitcoin_height root) (rev (snapshots c))).

Definition retract_above (c : t) (bitcoin_height : Z) : option (result SortitionError SortitionReorg * t) :=
  root ← root c;
  let root_bitcoin_height := sn_bitcoin_height root in
  match checked_sub bitcoin_height root_bitcoin_height with
  | None => Some (Err (ReorgBeyondChainRoot root_bitcoin_height), c)
  | Some above_root =>
      let kept := saturating_add USIZE_MAX (default USIZE_MAX (try_from USIZE_MAX above_root)) 1 in
      let dropped := saturating_sub (len (snapshots c)) kept in
      let hashes := take (Z.to_nat (saturating_sub (len (consensus_hashes c)) dropped)) (consensus_hashes c) in
      let retracted := if kept <? len (snapshots c) then drop (Z.to_nat kept) (snapshots c) else [] in
      let held := if kept <? len (snapshots c) then take (Z.to_nat kept) (snapshots c) else snapshots c in
      let c := mk held hashes (sortitions_below_window c) (needed_from c) in
      tip ← tip c;
      Some (Ok (mkReorg tip retracted), c)
  end.

(** [skip_while(|s| s.bitcoin_height > height).find_map(f)] over snapshots, latest first. *)
Fixpoint find_at_or_below {A} (f : SortitionSnapshot -> option A) (height : Z) (latest_first : list SortitionSnapshot) : option A :=
  match latest_first with
  | [] => None
  | s :: rest =>
      if height <? sn_bitcoin_height s then find_at_or_below f height rest
      else
        (fix find_map (l : list SortitionSnapshot) : option A :=
           match l with
           | [] => None
           | s :: l => match f s with Some a => Some a | None => find_map l end
           end) (s :: rest)
  end.

Definition effective_winner_seed_at_or_below (c : t) (bitcoin_height : Z) : option (list byte) :=
  find_at_or_below sn_winner_vrf_seed bitcoin_height (rev (snapshots c)).

Definition effective_winner_seed (c : t) : option (option (list byte)) :=
  tip ← tip c; Some (effective_winner_seed_at_or_below c (sn_bitcoin_height tip)).

Definition adopt_root_winner_seed (c : t) (seed : list byte) : bool * t :=
  match snapshots c with
  | [root] => (true, mk [set_seed seed root] (consensus_hashes c) (sortitions_below_window c) (needed_from c))
  | _ => (false, c)
  end.

Definition adopt_root_winner_vrf_public_key (c : t) (key : list byte) : bool * t :=
  match snapshots c with
  | [root] => (true, mk [set_vrf_key key root] (consensus_hashes c) (sortitions_below_window c) (needed_from c))
  | _ => (false, c)
  end.

(** The loop of [previous_consensus_hashes]; [fuel] exponents are left of the 64. *)
Fixpoint skip_hashes (hashes : list ConsensusHash) (parent_index exponent : Z) (fuel : nat) : option (list ConsensusHash) :=
  match fuel with
  | O => Some []
  | S fuel =>
      let offset := saturating_sub (Z.shiftl 1 exponent) 1 in
      match checked_sub parent_index offset with
      | None => Some []
      | Some i =>
          hash ← index hashes i;
          rest ← skip_hashes hashes parent_index (exponent + 1) fuel;
          Some (hash :: rest)
      end
  end.

Definition previous_consensus_hashes (c : t) : option (list ConsensusHash) :=
  parent_index ← checked_sub (len (consensus_hashes c)) 1;
  skip_hashes (consensus_hashes c) parent_index 0 64.

(** [remember_sortition_below_window] on the list alone. *)
Definition remember (heights : list Z) (bitcoin_height : Z) : list Z :=
  if decide (last heights = Some bitcoin_height) then heights else
  let heights := heights ++ [bitcoin_height] in
  if SNAPSHOTS_KEPT <? len heights then drop 1 heights else heights.

Definition snapshots_to_keep (needed_from : option Z) (tip_height : Z) : Z :=
  Z.max SNAPSHOTS_KEPT
    (match needed_from with
     | Some floor =>
         match checked_sub tip_height floor with
         | Some behind =>
             match try_from USIZE_MAX behind with Some behind => saturating_add USIZE_MAX behind 1 | None => 0 end
         | None => 0
         end
     | None => 0
     end).

(** [forget_snapshots_nothing_can_ask_for]; removing from the front keeps the tip. *)
Fixpoint forget (keep : Z) (snapshots : list SortitionSnapshot) (heights : list Z) : list SortitionSnapshot * list Z :=
  if keep <? len snapshots then
    match snapshots with
    | [] => ([], heights)
    | dropped :: rest =>
        forget keep rest (match sn_winner_txid dropped with Some _ => remember heights (sn_bitcoin_height dropped) | None => heights end)
    end
  else (snapshots, heights).

(** [keep_from]. *)
Definition keep_from (c : t) (bitcoin_height : Z) : t :=
  mk (snapshots c) (consensus_hashes c) (sortitions_below_window c)
    (match needed_from c with
     | Some floor => if floor <? bitcoin_height then Some bitcoin_height else Some floor
     | None => Some bitcoin_height
     end).

Definition snapshot_at (c : t) (bitcoin_height : Z) : option (option SortitionSnapshot) :=
  tip ← tip c;
  Some (back ← checked_sub (sn_bitcoin_height tip) bitcoin_height;
        back ← try_from USIZE_MAX back;
        i ← checked_sub (len (snapshots c)) (back + 1);
        snapshots c !! Z.to_nat i).

Definition last_sortition_at_or_below (c : t) (bitcoin_height : Z) : option Z :=
  match find_at_or_below (fun s => (fun _ => sn_bitcoin_height s) <$> sn_winner_txid s) bitcoin_height (rev (snapshots c)) with
  | Some height => Some height
  | None => List.find (fun height => height <=? bitcoin_height) (rev (sortitions_below_window c))
  end.

Definition seed_sortitions_below_window (c : t) (heights : list Z) : t :=
  mk (snapshots c) (consensus_hashes c) (remove_dups (merge_sort Z.le heights)) (needed_from c).

Definition seed_sortition_below_window (c : t) (bitcoin_height : option Z) : t :=
  mk (snapshots c) (consensus_hashes c) (option_list bitcoin_height) (needed_from c).

(** Apply [f] to the tip, as [snapshots.last_mut()] does. *)
Definition map_tip (f : SortitionSnapshot -> SortitionSnapshot) (c : t) : t :=
  mk (match last (snapshots c) with Some tip => removelast (snapshots c) ++ [f tip] | None => [] end)
    (consensus_hashes c) (sortitions_below_window c) (needed_from c).

Definition record_tip_burn_spends (c : t) (spends : option BurnSpends) : t := map_tip (set_spends spends) c.
Definition record_tip_mining_competition (c : t) (competition : option MiningCompetition) : t :=
  map_tip (set_competition competition) c.

Section Append.
Context `{HS : Hashes}.

(** The snapshot [append_with_operations] derives above [parent]. *)
Definition next_snapshot (parent : SortitionSnapshot) (previous : list ConsensusHash) (block : BitcoinBlock)
  (operation_txids : list (list byte)) (total_burn : Z) (pox_id : PoxId.t) (winner : option SortitionWinner) : SortitionSnapshot :=
  let operations_hash := ops_hash operation_txids in
  let bitcoin_header_hash := bb_hash block in
  let sortition_hash := SortitionHash.mix_bitcoin_header (sn_sortition_hash parent) bitcoin_header_hash in
  mkSnapshot (bb_height block) bitcoin_header_hash (bb_timestamp block) (sortition_id bitcoin_header_hash pox_id) (sn_sortition_id parent)
    operations_hash (consensus_hash bitcoin_header_hash operations_hash total_burn previous pox_id) total_burn
    (match winner with Some w => SortitionHash.mix_vrf_seed sortition_hash (wn_vrf_seed w) | None => sortition_hash end)
    (count ← sn_num_sortitions parent; checked_add U64_MAX count (match winner with Some _ => 1 | None => 0 end))
    (wn_txid <$> winner) (wn_vrf_seed <$> winner) (winner ≫= wn_vrf_public_key) (winner ≫= wn_signing_key_hash)
    (wn_committed_block_hash <$> winner) (wn_parent_bitcoin_height <$> winner) None None pox_id.

Definition append_with_operations (c : t) (block : BitcoinBlock) (operation_txids : list (list byte)) (total_burn : Z)
  (pox_id : PoxId.t) (winner : option SortitionWinner) : option (result SortitionError SortitionSnapshot * t) :=
  parent ← tip c;
  match checked_add U64_MAX (sn_bitcoin_height parent) 1 with
  | None => Some (Err HeightOverflow, c)
  | Some expected_height =>
      if negb (bb_height block =? expected_height) then Some (Err (UnexpectedHeight expected_height (bb_height block)), c) else
      previous ← previous_consensus_hashes c;
      let snapshot := next_snapshot parent previous block operation_txids total_burn pox_id winner in
      let keep := snapshots_to_keep (needed_from c) (sn_bitcoin_height snapshot) in
      let '(held, heights) := forget keep (snapshots c ++ [snapshot]) (sortitions_below_window c) in
      let c := mk held (consensus_hashes c ++ [sn_consensus_hash snapshot]) heights (needed_from c) in
      tip ← tip c;
      Some (Ok tip, c)
  end.

Definition append_with_winner (c : t) (block : BitcoinBlock) (total_burn : Z) (pox_id : PoxId.t) (winner : option SortitionWinner) :=
  append_with_operations c block (timely_operation_txids block) total_burn pox_id winner.

Definition append (c : t) (block : BitcoinBlock) (total_burn : Z) (pox_id : PoxId.t) :=
  append_with_winner c block total_burn pox_id None.

End Append.
End SnapshotChain.
