(* ===== verification/SortitionEngine.v ===== *)
(** * The sortition engine of [crates/nano-sortition/src/lib.rs]

    [SortitionEngine]: a chain of snapshots and the window of commitments the
    next draw weighs. An outer [option] is [None] where the code panics; an
    operation that can fail returns its result beside the engine it leaves. *)

From stdpp Require Import gmap sorting.
From S2P Require Import Prelude Primitives Address Crypto SortitionRules SortitionDraw SnapshotChain.

Module SortitionEngine.

Record t : Type := mk {
  snapshots : SnapshotChain.t;
  commitment_window : list CommitmentWindowBlock;
}.

Definition new (genesis : SortitionSnapshot) : t := mk (SnapshotChain.new genesis) [].

Definition with_history (genesis : SortitionSnapshot) (history : list ConsensusHash) : option t :=
  chain ← SnapshotChain.with_history genesis history; Some (mk chain []).

(** Push a block's commitments, dropping the oldest entry past [RETAINED_COMMITMENT_BLOCKS]. *)
Definition retain (window : list CommitmentWindowBlock) (commitments : CommitmentWindowBlock) : list CommitmentWindowBlock :=
  let window := window ++ [commitments] in
  if RETAINED_COMMITMENT_BLOCKS <? len window then drop 1 window else window.

(** [try_fold(0, |total, c| total.checked_add(c.burn_sats))]. *)
Fixpoint sum_burns (total : Z) (commitments : list MiningCommitment) : option Z :=
  match commitments with
  | [] => Some total
  | c :: cs => total ← checked_add U64_MAX total (mc_burn_sats c); sum_burns total cs
  end.

(** The body of [spends_at_tip], given the tip; its [None] is the code's. *)
Definition spends_of (window : list CommitmentWindowBlock) (tip : SortitionSnapshot) : option BurnSpends :=
  block ← last window;
  winner ← sn_winner_txid tip;
  winner ← List.find (fun c => bool_decide (mc_txid c = winner)) (wb_commitments block);
  total ← sum_burns 0 (wb_commitments block);
  Some (mkSpends total (mc_burn_sats winner)).

Definition spends_at_tip (e : t) : option (option BurnSpends) :=
  tip ← SnapshotChain.tip (snapshots e);
  Some (spends_of (commitment_window e) tip).

Definition prime (e : t) (bitcoin_height : Z) (commitments : CommitmentWindowBlock) : option t :=
  let e := mk (snapshots e) (retain (commitment_window e) commitments) in
  tip ← SnapshotChain.tip (snapshots e);
  if bitcoin_height =? sn_bitcoin_height tip then
    spends ← spends_at_tip e;
    Some (mk (SnapshotChain.record_tip_burn_spends (snapshots e) spends) (commitment_window e))
  else Some e.

Definition adopt_root_winner_seed (e : t) (seed : list byte) : bool * t :=
  let '(adopted, chain) := SnapshotChain.adopt_root_winner_seed (snapshots e) seed in
  (adopted, mk chain (commitment_window e)).

Definition adopt_root_winner_vrf_public_key (e : t) (key : list byte) : bool * t :=
  let '(adopted, chain) := SnapshotChain.adopt_root_winner_vrf_public_key (snapshots e) key in
  (adopted, mk chain (commitment_window e)).

Definition candidate_count (e : t) : Z :=
  match last (commitment_window e) with Some block => len (wb_commitments block) | None => 0 end.

Definition retract_above (e : t) (bitcoin_height : Z) : option (result SortitionError SortitionReorg * t) :=
  tip ← SnapshotChain.tip (snapshots e);
  let depth := default USIZE_MAX (try_from USIZE_MAX (saturating_sub (sn_bitcoin_height tip) bitcoin_height)) in
  if MINING_COMMITMENT_WINDOW <? depth then Some (Err (ReorgTooDeep depth MINING_COMMITMENT_WINDOW), e) else
  '(r, chain) ← SnapshotChain.retract_above (snapshots e) bitcoin_height;
  match r with
  | Err error => Some (Err error, mk chain (commitment_window e))
  | Ok reorg =>
      let held := saturating_sub (len (commitment_window e)) (reorg_depth reorg) in
      Some (Ok reorg, mk chain (take (Z.to_nat held) (commitment_window e)))
  end.

Section Append.
Context `{HS : Hashes} `{CT : CarryoverTable}.

(** The winner a sample names. *)
Definition sample_winner (s : BurnSample) : SortitionWinner :=
  let c := sa_candidate s in
  mkWinner (mc_txid c) (mc_vrf_seed c) (mc_vrf_public_key c) (mc_signing_key_hash c) (mc_committed_block_hash c)
    (mc_parent_bitcoin_height c).

(** The part of [append] before it changes the engine: what the draw over the
    last [window_len] entries of [retained] decides above [tip]. *)
Record Draw : Type := mkDraw { dr_total_burn : Z; dr_winner : option SortitionWinner; dr_competition : MiningCompetition }.

Definition draw (chain : SnapshotChain.t) (retained : list CommitmentWindowBlock) (block : BitcoinBlock) (window_len : Z)
  : option (result SortitionError Draw) :=
  let window := drop (Z.to_nat (saturating_sub (len retained) (Z.max window_len 1))) retained in
  statistics ← commitment_burn_statistics window;
  match statistics with
  | Err e => Some (Err e)
  | Ok statistics =>
      distribution ← commitment_distribution window;
      match distribution with
      | Err e => Some (Err e)
      | Ok distribution =>
          tip ← SnapshotChain.tip chain;
          let next_sortition_hash := SortitionHash.mix_bitcoin_header (sn_sortition_hash tip) (bb_hash block) in
          seed ← SnapshotChain.effective_winner_seed chain;
          let previous_vrf_seed := default (replicate 32 0%u8) seed in
          winner_index ←
            (if negb (bs_block_burn statistics =? 0) then
               select_epoch4_winner distribution (len window) next_sortition_hash previous_vrf_seed
                 (bs_block_burn statistics) (bs_window_median_burn statistics)
             else Some None);
          winner_sample ←
            match winner_index with
            | Some i => s ← distribution !! i; Some (Some s)
            | None => Some None
            end;
          competition ← mining_competition distribution statistics (len window) ((mc_txid ∘ sa_candidate) <$> winner_sample);
          let winner :=
            s ← winner_sample;
            total_burn ← checked_add U64_MAX (sn_total_burn tip) (bs_block_burn statistics);
            Some (total_burn, sample_winner s) in
          Some (Ok (match winner with
                    | Some (total_burn, winner) => mkDraw total_burn (Some winner) competition
                    | None => mkDraw (sn_total_burn tip) None competition
                    end))
      end
  end.

Definition append (e : t) (block : BitcoinBlock) (accepted_operation_txids : list (list byte)) (commitments : CommitmentWindowBlock)
  (pox_id : PoxId.t) (window_len : Z) : option (result SortitionError SortitionSnapshot * t) :=
  let retained := retain (commitment_window e) commitments in
  drawn ← draw (snapshots e) retained block window_len;
  match drawn with
  | Err error => Some (Err error, e)
  | Ok d =>
      '(r, chain) ← SnapshotChain.append_with_operations (snapshots e) block accepted_operation_txids (dr_total_burn d) pox_id (dr_winner d);
      let e := mk chain retained in
      match r with
      | Err error => Some (Err error, e)
      | Ok _ =>
          spends ← spends_at_tip e;
          let chain := SnapshotChain.record_tip_mining_competition (SnapshotChain.record_tip_burn_spends chain spends) (Some (dr_competition d)) in
          tip ← SnapshotChain.tip chain;
          Some (Ok tip, mk chain retained)
      end
  end.

End Append.
End SortitionEngine.
