(* ===== verification/ChainTheorems.v ===== *)
(** * The snapshot chain keeps what its callers can ask for

    [ArchiveChain] is the chain a reader would like to have: it keeps every
    snapshot since the root, and says which heights elected somebody. The chain
    of [SnapshotChain] forgets snapshots below a window, and the theorems below
    say that no caller can tell: every call returns what the archive returns,
    and every question it answers it answers as the archive does. *)

From stdpp Require Import gmap sorting.
From S2P Require Import Prelude Primitives Address Crypto SortitionRules SortitionDraw SnapshotChain.

(** ** Heights *)

(** The [i]th snapshot of [l] has height [base + i]. *)
Definition heights_from (base : Z) (l : list SortitionSnapshot) : Prop :=
  forall i x, l !! i = Some x -> sn_bitcoin_height x = base + Z.of_nat i.

Lemma heights_app base l1 l2 : heights_from base (l1 ++ l2) <-> heights_from base l1 /\ heights_from (base + len l1) l2.
Proof.
  split.
  - intros H. split; intros i x Hx; [apply H; by apply lookup_app_l_Some|].
    rewrite (H (length l1 + i)%nat x); [lia|]. rewrite lookup_app_r by lia. by replace (length l1 + i - length l1)%nat with i by lia.
  - intros [H1 H2] i x [Hx|[Hi Hx]]%lookup_app_Some; [by apply H1|]. rewrite (H2 _ _ Hx). lia.
Qed.

Lemma heights_elem base l x : heights_from base l -> x ∈ l -> base <= sn_bitcoin_height x < base + len l.
Proof. intros H [i Hi]%list_elem_of_lookup_1. rewrite (H _ _ Hi). apply lookup_lt_Some in Hi. lia. Qed.

Lemma heights_last base l x : heights_from base l -> last l = Some x -> sn_bitcoin_height x = base + len l - 1.
Proof. intros H Hl. rewrite last_lookup in Hl. rewrite (H _ _ Hl). apply lookup_lt_Some in Hl. lia. Qed.

Lemma heights_singleton x : heights_from (sn_bitcoin_height x) [x].
Proof. intros [|[]] y Hy; try done. injection Hy as ->. lia. Qed.

Lemma heights_snoc base l x : heights_from base l -> sn_bitcoin_height x = base + len l -> heights_from base (l ++ [x]).
Proof. intros Hl Hx. apply heights_app. split; [done|]. rewrite <- Hx. apply heights_singleton. Qed.

Lemma last_nonempty {A} (l : list A) : l <> [] -> exists x, last l = Some x.
Proof. intros H. destruct (last l) eqn:E; [eauto|]. by apply last_None in E. Qed.

(** ** The walks from the tip *)

(** The last value [f] gives at or below [height]. *)
Definition latest {A} (f : SortitionSnapshot -> option A) (height : Z) (l : list SortitionSnapshot) : option A :=
  last (omap f (List.filter (fun s => sn_bitcoin_height s <=? height) l)).

Lemma last_omap_snoc {A B} (f : A -> option B) l x : last (omap f (l ++ [x])) = match f x with Some b => Some b | None => last (omap f l) end.
Proof. rewrite omap_app. cbn. destruct (f x); [by rewrite last_snoc|by rewrite app_nil_r]. Qed.

Lemma find_map_rev {A} (f : SortitionSnapshot -> option A) l :
  (fix find_map (l : list SortitionSnapshot) : option A :=
     match l with [] => None | s :: l => match f s with Some a => Some a | None => find_map l end end) (rev l) = last (omap f l).
Proof. induction l as [|x l IH] using rev_ind; [done|]. rewrite rev_unit, last_omap_snoc. destruct (f x); [done|]. apply IH. Qed.

Lemma filter_all {A} (f : A -> bool) l : (forall x, x ∈ l -> f x = true) -> List.filter f l = l.
Proof. induction l as [|x l IH]; intros H; [done|]. cbn. rewrite H by set_solver. rewrite IH; [done|]. intros y Hy. apply H. set_solver. Qed.

Lemma find_at_or_below_latest {A} (f : SortitionSnapshot -> option A) height base l : heights_from base l ->
  SnapshotChain.find_at_or_below f height (rev l) = latest f height l.
Proof.
  intros Hl. induction l as [|x l IH] using rev_ind; [done|]. pose proof (proj1 (heights_app _ _ _) Hl) as [Hl1 Hx].
  specialize (Hx 0%nat x eq_refl). unfold latest. rewrite rev_unit, List.filter_app. cbn [SnapshotChain.find_at_or_below List.filter].
  rewrite Z.ltb_antisym. destruct (Z.leb_spec (sn_bitcoin_height x) height) as [Hle|_]; cbn [negb]; [|rewrite app_nil_r; by apply IH].
  rewrite last_omap_snoc, filter_all; [destruct (f x); [done|]; apply find_map_rev|].
  intros y Hy. pose proof (heights_elem _ _ _ Hl1 Hy). apply Z.leb_le. lia.
Qed.

Lemma latest_app {A} (f : SortitionSnapshot -> option A) height l1 l2 :
  latest f height (l1 ++ l2) = match latest f height l2 with Some a => Some a | None => latest f height l1 end.
Proof. unfold latest. rewrite List.filter_app, omap_app, last_app. done. Qed.

(** ** Forgetting *)

Definition elected_height (s : SortitionSnapshot) : option Z := (fun _ => sn_bitcoin_height s) <$> sn_winner_txid s.

Lemma forget_window_spec keep l rem : 0 <= keep ->
  let k := Z.to_nat (len l - keep) in
  SnapshotChain.forget keep l rem = (drop k l, fold_left SnapshotChain.remember (omap elected_height (take k l)) rem).
Proof.
  intros Hk. cbn zeta. revert rem. induction l as [|x l IH]; intros rem.
  { cbn [length SnapshotChain.forget]. rewrite take_nil, drop_nil. by case_match. }
  cbn [SnapshotChain.forget]. destruct (Z.ltb_spec keep (len (x :: l))) as [Hlt|Hge]; cbn [length] in *.
  - rewrite IH. replace (Z.to_nat (Z.of_nat (S (length l)) - keep)) with (S (Z.to_nat (len l - keep))) by lia. cbn [drop take omap list_omap].
    unfold elected_height at 2. destruct (sn_winner_txid x); done.
  - by replace (Z.to_nat (Z.of_nat (S (length l)) - keep)) with 0%nat by lia.
Qed.

(** What [remember] keeps of an ascending list. *)
Lemma remember_spec rem r : StronglySorted Z.lt rem -> Forall (fun x => x <= r) rem ->
  let rem' := SnapshotChain.remember rem r in
  StronglySorted Z.lt rem' /\ r ∈ rem' /\ (forall x, x ∈ rem' -> x ∈ rem \/ x = r) /\
  (forall x y, x ∈ rem -> y ∈ rem' -> y <= x -> x ∈ rem').
Proof.
  intros Hs HF. cbn zeta. unfold SnapshotChain.remember. case_decide as Hl.
  { split; [done|]. split; [by apply last_Some_elem_of|]. tauto. }
  assert (Hlt : Forall (fun x => x < r) rem).
  { destruct rem as [|y rem _] using rev_ind; [constructor|]. rewrite last_snoc in Hl. apply Forall_app in HF as [HF Hy].
    apply Forall_cons in Hy as [Hy _]. assert (y < r) by (assert (y <> r) by congruence; lia). apply Forall_app. split; [|by constructor].
    apply Forall_forall. intros z Hz. assert (z < y) by (eapply StronglySorted_app_1_elem_of; [exact Hs|done|set_solver]). lia. }
  assert (Hs' : StronglySorted Z.lt (rem ++ [r])).
  { apply StronglySorted_app. split; [|split; [done|by repeat constructor]]. intros x y Hx ->%list_elem_of_singleton.
    by apply (proj1 (Forall_forall _ _) Hlt). }
  case_match eqn:Hlen; [|split; [done|]; split; [set_solver|]; split; [set_solver|]; set_solver].
  destruct rem as [|a rem]; [done|]. cbn [app drop]. apply StronglySorted_inv in Hs' as [Hs' Ha]. split; [done|]. split; [set_solver|].
  split; [set_solver|]. intros x y [->|Hx]%elem_of_cons Hy Hyx; [|set_solver]. apply (proj1 (Forall_forall _ _) Ha) in Hy. lia.
Qed.

(** ** What is remembered of the heights that elected somebody *)

(** [rem] are the heights remembered below the window [w], which starts at
    [base], where [E] are all the heights that elected somebody. *)
Record remembers (E : Z -> Prop) (base : Z) (w : list SortitionSnapshot) (rem : list Z) : Prop := {
  rem_sorted : StronglySorted Z.lt rem;
  rem_below : Forall (fun x => x <= base) rem;
  rem_elected : forall x, x ∈ rem -> E x;
  rem_window : forall x, x ∈ omap elected_height w -> E x;
  rem_all : forall e, E e -> e ∈ omap elected_height w \/ e <= base /\ forall x, x ∈ rem -> x <= e -> e ∈ rem;
}.

Lemma elected_elem base w e : heights_from base w -> e ∈ omap elected_height w ->
  exists x, x ∈ w /\ is_Some (sn_winner_txid x) /\ sn_bitcoin_height x = e /\ base <= e.
Proof.
  intros Hw (x & Hx & He)%list_elem_of_omap. exists x. split; [done|]. pose proof (heights_elem _ _ _ Hw Hx).
  unfold elected_height in He. destruct (sn_winner_txid x); [|done]. injection He as <-. split; [done|]. split; [done|lia].
Qed.

Lemma remembers_forget E base l1 l2 rem : heights_from base (l1 ++ l2) -> remembers E base (l1 ++ l2) rem ->
  remembers E (base + len l1) l2 (fold_left SnapshotChain.remember (omap elected_height l1) rem).
Proof.
  revert base rem. induction l1 as [|x l1 IH]; intros base rem Hh HR; [by rewrite Z.add_0_r|].
  change ((x :: l1) ++ l2) with ([x] ++ (l1 ++ l2)) in Hh. pose proof (Hh 0%nat x eq_refl) as Hx. rewrite Z.add_0_r in Hx.
  apply heights_app in Hh as [_ Hh]. cbn [length] in Hh. replace (base + len (x :: l1)) with (base + 1 + len l1) by (cbn [length]; lia).
  destruct HR as [Hs Hb He Hw Ha]. cbn [omap list_omap app] in *. change (base + Z.of_nat 1) with (base + 1) in *.
  assert (Hb' : Forall (fun x => x <= base + 1) rem) by (eapply Forall_impl; [exact Hb|]; cbn; lia).
  destruct (elected_height x) as [y|] eqn:Hy; cbn [fold_left].
  - assert (y = base) as ->. { unfold elected_height in Hy. destruct (sn_winner_txid x); [|done]. injection Hy as <-. done. }
    destruct (remember_spec rem base Hs Hb) as (Hs' & Hin & Hsub & Hup). apply IH; [done|]. split; [done| | | |].
    + apply Forall_forall. intros z [Hz| ->]%Hsub; [|lia]. by apply (proj1 (Forall_forall _ _) Hb').
    + intros z [Hz| ->]%Hsub; [by apply He|]. apply Hw. set_solver.
    + intros z Hz. apply Hw. set_solver.
    + intros e HE. destruct (Ha e HE) as [[->|Hin']%elem_of_cons|[Hle Hall]]; [right|by left|right].
      * split; [lia|]. done.
      * split; [lia|]. intros z Hz Hze. destruct (Hsub z Hz) as [Hz'| ->]; [by apply (Hup e z); [apply (Hall z)|..]|].
        by assert (e = base) as -> by lia.
  - apply IH; [done|]. split; [done..|]. intros e HE. destruct (Ha e HE) as [?|[? ?]]; [by left|right]. split; [lia|done].
Qed.

Lemma find_remembered rem h x : StronglySorted Z.lt rem -> List.find (fun y => y <=? h) (rev rem) = Some x ->
  x ∈ rem /\ x <= h /\ forall y, y ∈ rem -> y <= h -> y <= x.
Proof.
  induction rem as [|z rem IH] using rev_ind; [done|]. intros (Hlt & Hs & _)%StronglySorted_app. rewrite rev_unit. cbn [List.find].
  destruct (Z.leb_spec z h) as [Hz|Hz].
  - intros [= ->]. split; [set_solver|]. split; [done|]. intros y [Hy| ->%list_elem_of_singleton]%elem_of_app _; [|lia].
    assert (y < x) by (apply Hlt; set_solver). lia.
  - intros (Hx & Hle & Hall)%IH; [|done]. split; [set_solver|]. split; [done|].
    intros y [Hy| ->%list_elem_of_singleton]%elem_of_app Hyh; [by apply Hall|lia].
Qed.

Lemma omap_filter_elem {A} (f : SortitionSnapshot -> option A) h l a :
  a ∈ omap f (List.filter (fun s => sn_bitcoin_height s <=? h) l) <-> exists x, x ∈ l /\ f x = Some a /\ sn_bitcoin_height x <= h.
Proof.
  rewrite list_elem_of_omap. split; intros (x & H).
  - destruct H as [Hx Hf]. apply list_elem_of_In, filter_In in Hx as [Hx Hh]. exists x. split; [by apply list_elem_of_In|]. lia || (split; [done|lia]).
  - destruct H as (Hx & Hf & Hh). exists x. split; [|done]. apply list_elem_of_In, filter_In. split; [by apply list_elem_of_In|lia].
Qed.

(** The last elected height at or below [h] of a window is its greatest. *)
Lemma latest_elected base w h x : heights_from base w -> latest elected_height h w = Some x ->
  x ∈ omap elected_height w /\ x <= h /\ forall e, e ∈ omap elected_height w -> e <= h -> e <= x.
Proof.
  intros Hw. induction w as [|s w IH] using rev_ind; [done|]. apply heights_app in Hw as [Hw Hs]. specialize (Hs 0%nat s eq_refl).
  rewrite latest_app. unfold latest at 1. cbn [List.filter]. rewrite omap_app. cbn [omap list_omap].
  assert (Hold : forall e, e ∈ omap elected_height w -> e < sn_bitcoin_height s).
  { intros e (y & Hy & _ & <- & _)%(elected_elem base); [|done]. pose proof (heights_elem _ _ _ Hw Hy). lia. }
  assert (Hval : forall y, elected_height s = Some y -> y = sn_bitcoin_height s).
  { unfold elected_height. destruct (sn_winner_txid s); [|done]. by intros y [= <-]. }
  destruct (Z.leb_spec (sn_bitcoin_height s) h) as [Hle|Hgt]; cbn [omap list_omap];
    destruct (elected_height s) as [y|] eqn:Hy; cbn [last]; try (specialize (Hval y eq_refl); subst y).
  - intros [= <-]. split; [set_solver|]. split; [done|]. intros e [He| ->%list_elem_of_singleton]%elem_of_app _; [apply Hold in He; lia|lia].
  - intros (H1 & H2 & H3)%IH; [|done]. rewrite app_nil_r. done.
  - intros (H1 & H2 & H3)%IH; [|done]. split; [set_solver|]. split; [done|]. intros e [He| ->%list_elem_of_singleton]%elem_of_app Heh; [by apply H3|lia].
  - intros (H1 & H2 & H3)%IH; [|done]. rewrite app_nil_r. done.
Qed.

Lemma latest_elected_none w h e : latest elected_height h w = None -> e ∈ omap elected_height w -> h < e.
Proof.
  intros Hn (x & Hx & He)%list_elem_of_omap. destruct (Z.lt_ge_cases h e) as [|Hle]; [done|]. exfalso. unfold latest in Hn. apply last_None in Hn.
  assert (Hin : e ∈ omap elected_height (List.filter (fun s => sn_bitcoin_height s <=? h) w)); [|rewrite Hn in Hin; by apply elem_of_nil in Hin].
  apply omap_filter_elem. exists x. split; [done|]. split; [done|]. unfold elected_height in He. destruct (sn_winner_txid x); [|done].
  injection He as <-. lia.
Qed.

Lemma last_sortition_sound E base c h x : heights_from base (SnapshotChain.snapshots c) ->
  remembers E base (SnapshotChain.snapshots c) (SnapshotChain.sortitions_below_window c) ->
  SnapshotChain.last_sortition_at_or_below c h = Some x -> E x /\ x <= h /\ forall e, E e -> e <= h -> e <= x.
Proof.
  intros Hh [Hs Hb He Hw Ha]. unfold SnapshotChain.last_sortition_at_or_below. change (fun s => _ <$> sn_winner_txid s) with elected_height.
  rewrite (find_at_or_below_latest _ _ base) by done. destruct (latest elected_height h _) as [y|] eqn:Hl.
  - intros [= ->]. destruct (latest_elected _ _ _ _ Hh Hl) as (Hx & Hle & Hmax). split; [by apply Hw|]. split; [done|].
    intros e HE Heh. destruct (Ha e HE) as [Hin|[Hle' _]]; [by apply Hmax|].
    destruct (elected_elem _ _ _ Hh Hx) as (_ & _ & _ & _ & ?). lia.
  - intros (Hx & Hle & Hmax)%find_remembered; [|done]. split; [by apply He|]. split; [done|].
    intros e HE Heh. destruct (Ha e HE) as [Hin|[_ Hall]]; [pose proof (latest_elected_none _ _ _ Hl Hin); lia|].
    destruct (Z.le_gt_cases e x); [done|]. apply Hmax; [|done]. apply (Hall x); [done|lia].
Qed.

(** ** The archive *)

Inductive chain_op : Type :=
| ChainAppend (block : BitcoinBlock) (txids : list (list byte)) (total_burn : Z) (pox_id : PoxId.t) (winner : option SortitionWinner)
| ChainRetract (bitcoin_height : Z)
| ChainKeep (bitcoin_height : Z)
| ChainSpends (spends : option BurnSpends)
| ChainCompetition (competition : option MiningCompetition)
| ChainAdoptSeed (seed : list byte)
| ChainAdoptKey (key : list byte).

Inductive chain_out : Type :=
| Appended (s : SortitionSnapshot)
| Retracted (r : SortitionReorg)
| Refused (e : SortitionError)
| Adopted (done : bool)
| Quiet.

Module ArchiveChain.

(** The consensus hashes before the root, the heights said to have elected
    somebody at or below it, and every snapshot from the root on. *)
Record t : Type := mk { history : list ConsensusHash; seeded : list Z; archive : list SortitionSnapshot }.

Definition hashes (s : t) : list ConsensusHash := history s ++ map sn_consensus_hash (archive s).

(** The hashes at distances [2^0 - 1], [2^1 - 1], ... behind the last. *)
Definition skips (hashes : list ConsensusHash) : list ConsensusHash :=
  omap (fun k => index (rev hashes) (2 ^ Z.of_nat k - 1)) (seq 0 64).

Definition elected (s : t) (height : Z) : Prop := height ∈ seeded s \/ height ∈ omap elected_height (archive s).

Section Steps.
Context `{HS : Hashes}.

Inductive step (s : t) : chain_op -> chain_out -> t -> Prop :=
| step_append parent block txids burn pox winner snapshot :
    last (archive s) = Some parent -> bb_height block = sn_bitcoin_height parent + 1 -> bb_height block <= U64_MAX ->
    snapshot = SnapshotChain.next_snapshot parent (skips (hashes s)) block txids burn pox winner ->
    step s (ChainAppend block txids burn pox winner) (Appended snapshot) (mk (history s) (seeded s) (archive s ++ [snapshot]))
| step_overflow parent block txids burn pox winner :
    last (archive s) = Some parent -> sn_bitcoin_height parent = U64_MAX ->
    step s (ChainAppend block txids burn pox winner) (Refused HeightOverflow) s
| step_unexpected parent block txids burn pox winner :
    last (archive s) = Some parent -> sn_bitcoin_height parent < U64_MAX -> bb_height block <> sn_bitcoin_height parent + 1 ->
    step s (ChainAppend block txids burn pox winner) (Refused (UnexpectedHeight (sn_bitcoin_height parent + 1) (bb_height block))) s
| step_retract kept retracted ancestor height :
    archive s = kept ++ retracted -> last kept = Some ancestor ->
    sn_bitcoin_height ancestor = height \/ (retracted = [] /\ sn_bitcoin_height ancestor <= height) ->
    step s (ChainRetract height) (Retracted (mkReorg ancestor retracted)) (mk (history s) (seeded s) kept)
| step_retract_refused root height :
    root ∈ archive s -> height < sn_bitcoin_height root ->
    step s (ChainRetract height) (Refused (ReorgBeyondChainRoot (sn_bitcoin_height root))) s
| step_keep height : step s (ChainKeep height) Quiet s
| step_spends below tip spends : archive s = below ++ [tip] ->
    step s (ChainSpends spends) Quiet (mk (history s) (seeded s) (below ++ [set_spends spends tip]))
| step_competition below tip competition : archive s = below ++ [tip] ->
    step s (ChainCompetition competition) Quiet (mk (history s) (seeded s) (below ++ [set_competition competition tip]))
| step_adopt_seed below tip seed : archive s = below ++ [tip] ->
    step s (ChainAdoptSeed seed) (Adopted true) (mk (history s) (seeded s) (below ++ [set_seed seed tip]))
| step_adopt_key below tip key : archive s = below ++ [tip] ->
    step s (ChainAdoptKey key) (Adopted true) (mk (history s) (seeded s) (below ++ [set_vrf_key key tip]))
| step_no_adopt_seed seed : (1 < length (archive s))%nat -> step s (ChainAdoptSeed seed) (Adopted false) s
| step_no_adopt_key key : (1 < length (archive s))%nat -> step s (ChainAdoptKey key) (Adopted false) s.

Inductive steps : t -> list chain_op -> list chain_out -> t -> Prop :=
| steps_nil s : steps s [] [] s
| steps_cons s op out s' ops outs s'' : step s op out s' -> steps s' ops outs s'' -> steps s (op :: ops) (out :: outs) s''.

End Steps.
End ArchiveChain.

(** ** The skip list *)

Lemma index_rev {A} (l : list A) i : 0 <= i < len l -> index (rev l) i = index l (len l - 1 - i).
Proof.
  intros Hi. unfold index. rewrite !(proj2 (Z.leb_le _ _)) by lia. rewrite rev_alt. change (rev_append l []) with (reverse l).
  rewrite reverse_lookup by lia. f_equal. lia.
Qed.

Lemma index_ge {A} (l : list A) i : len l <= i -> index l i = None.
Proof. intros Hi. unfold index. case_match; [|done]. apply lookup_ge_None. lia. Qed.

Lemma skip_hashes_spec (hashes : list ConsensusHash) k n :
  SnapshotChain.skip_hashes hashes (len hashes - 1) (Z.of_nat k) n =
  Some (omap (fun k => index (rev hashes) (2 ^ Z.of_nat k - 1)) (seq k n)).
Proof.
  revert k. induction n as [|n IH]; intros k; [done|]. cbn [SnapshotChain.skip_hashes seq].
  rewrite Z.shiftl_1_l. assert (Hp : 1 <= 2 ^ Z.of_nat k) by (apply (Z.pow_le_mono_r 2 0); lia).
  unfold saturating_sub. rewrite Z.max_r by lia. unfold checked_sub. destruct (Z.leb_spec (2 ^ Z.of_nat k - 1) (len hashes - 1)) as [Hle|Hgt].
  - replace (Z.of_nat k + 1) with (Z.of_nat (S k)) by lia. rewrite IH.
    rewrite <- index_rev by lia. cbn [omap list_omap]. destruct (index_Some_lt (rev hashes) (2 ^ Z.of_nat k - 1)) as [h Hh]; [rewrite length_rev; lia|].
    by rewrite Hh.
  - assert (Hnone : forall l, Forall (fun j => (k <= j)%nat) l -> omap (fun k => index (rev hashes) (2 ^ Z.of_nat k - 1)) l = []).
    { induction 1 as [|j l Hj _ IHl]; [done|]. cbn [omap list_omap]. rewrite index_ge; [done|]. rewrite length_rev.
      assert (2 ^ Z.of_nat k <= 2 ^ Z.of_nat j) by (apply Z.pow_le_mono_r; lia). lia. }
    change (k :: seq (S k) n) with (seq k (S n)). rewrite Hnone; [done|]. apply Forall_forall. intros j Hj. apply elem_of_seq in Hj. lia.
Qed.

Lemma skip_hashes_all (hashes : list ConsensusHash) :
  SnapshotChain.skip_hashes hashes (len hashes - 1) 0 64 = Some (ArchiveChain.skips hashes).
Proof. apply (skip_hashes_spec _ 0). Qed.

Lemma previous_hashes_spec c : SnapshotChain.consensus_hashes c <> [] ->
  SnapshotChain.previous_consensus_hashes c = Some (ArchiveChain.skips (SnapshotChain.consensus_hashes c)).
Proof.
  intros Hne. unfold SnapshotChain.previous_consensus_hashes, checked_sub. rewrite (proj2 (Z.leb_le _ _)).
  - apply skip_hashes_all.
  - destruct (SnapshotChain.consensus_hashes c); [done|]. cbn [length]. lia.
Qed.

(** ** The simulation *)

Record simulates_at (base : Z) (pre : list SortitionSnapshot) (c : SnapshotChain.t) (s : ArchiveChain.t) : Prop := {
  sim_archive : ArchiveChain.archive s = pre ++ SnapshotChain.snapshots c;
  sim_nonempty : SnapshotChain.snapshots c <> [];
  sim_hashes : SnapshotChain.consensus_hashes c = ArchiveChain.hashes s;
  sim_heights : heights_from base (ArchiveChain.archive s);
  sim_base : 1 <= base;
  sim_top : base + len (ArchiveChain.archive s) - 1 <= U64_MAX;
  sim_seeded : Forall (fun e => e <= base) (ArchiveChain.seeded s);
  sim_remembers : remembers (ArchiveChain.elected s) (base + len pre) (SnapshotChain.snapshots c) (SnapshotChain.sortitions_below_window c);
}.

Definition simulates (c : SnapshotChain.t) (s : ArchiveChain.t) : Prop := exists base pre, simulates_at base pre c s.

Lemma sim_window base pre c s : simulates_at base pre c s -> heights_from (base + len pre) (SnapshotChain.snapshots c).
Proof. intros S. pose proof (sim_heights _ _ _ _ S) as H. rewrite (sim_archive _ _ _ _ S) in H. by apply heights_app in H as [_ H]. Qed.

Lemma sim_tip base pre c s : simulates_at base pre c s -> exists tip, SnapshotChain.tip c = Some tip /\ last (ArchiveChain.archive s) = Some tip.
Proof.
  intros S. destruct (last_nonempty _ (sim_nonempty _ _ _ _ S)) as [tip Htip]. exists tip. split; [done|].
  by rewrite (sim_archive _ _ _ _ S), last_app, Htip.
Qed.

Lemma sim_root base pre c s : simulates_at base pre c s ->
  exists root, SnapshotChain.root c = Some root /\ root ∈ ArchiveChain.archive s /\ sn_bitcoin_height root = base + len pre.
Proof.
  intros S. pose proof (sim_window _ _ _ _ S) as Hw. pose proof (sim_nonempty _ _ _ _ S) as Hne. rewrite (sim_archive _ _ _ _ S). unfold SnapshotChain.root.
  destruct (SnapshotChain.snapshots c) as [|r l]; [done|]. exists r. split; [done|]. split; [set_solver|]. rewrite (Hw 0%nat r eq_refl). lia.
Qed.

Lemma remembers_ext (E E' : Z -> Prop) base w w' rem : (forall e, E e <-> E' e) -> omap elected_height w = omap elected_height w' ->
  remembers E base w rem -> remembers E' base w' rem.
Proof.
  intros HE Hw [H1 H2 H3 H4 H5]. rewrite Hw in *. split; [done|done| | |].
  - intros x Hx. by apply HE, H3.
  - intros x Hx. by apply HE, H4.
  - intros e He. by apply H5, HE.
Qed.

(** An edit of the tip that no walk looks at. *)
Record tip_edit (f : SortitionSnapshot -> SortitionSnapshot) : Prop := {
  edit_height : forall x, sn_bitcoin_height (f x) = sn_bitcoin_height x;
  edit_hash : forall x, sn_consensus_hash (f x) = sn_consensus_hash x;
  edit_winner : forall x, sn_winner_txid (f x) = sn_winner_txid x;
}.

Lemma elected_edit f x : tip_edit f -> elected_height (f x) = elected_height x.
Proof. intros [Hh _ Hw]. unfold elected_height. by rewrite Hh, Hw. Qed.

Lemma omap_edit f l x : tip_edit f -> omap elected_height (l ++ [f x]) = omap elected_height (l ++ [x]).
Proof. intros Hf. rewrite !omap_app. cbn. by rewrite elected_edit. Qed.

Lemma heights_edit f base l x : tip_edit f -> heights_from base (l ++ [x]) -> heights_from base (l ++ [f x]).
Proof.
  intros [Hh _ _] H. apply heights_app in H as [Hl Hx]. apply heights_snoc; [done|]. rewrite Hh. specialize (Hx 0%nat x eq_refl). lia.
Qed.

Lemma sim_edit f c s : tip_edit f -> simulates c s -> exists below tip, ArchiveChain.archive s = below ++ [tip] /\
  simulates (SnapshotChain.map_tip f c) (ArchiveChain.mk (ArchiveChain.history s) (ArchiveChain.seeded s) (below ++ [f tip])).
Proof.
  intros Hf (base & pre & S). pose proof (sim_nonempty _ _ _ _ S) as Hne. destruct S as [Ha _ Hh Hb H1 Ht Hsd Hr].
  unfold simulates, SnapshotChain.map_tip. destruct (SnapshotChain.snapshots c) as [|tip w _] using rev_ind; [done|].
  rewrite last_snoc, removelast_last. rewrite app_assoc in Ha. exists (pre ++ w), tip. split; [done|]. exists base, pre. rewrite Ha in *.
  split; cbn [SnapshotChain.snapshots SnapshotChain.consensus_hashes SnapshotChain.sortitions_below_window ArchiveChain.archive ArchiveChain.seeded].
  - by rewrite app_assoc.
  - by destruct w.
  - rewrite Hh. unfold ArchiveChain.hashes. cbn. rewrite Ha, !map_app. cbn. by rewrite (edit_hash _ Hf).
  - by apply heights_edit.
  - done.
  - by rewrite length_app in *.
  - done.
  - eapply remembers_ext; [|symmetry; by apply omap_edit|exact Hr]. intros e. unfold ArchiveChain.elected. cbn.
    by rewrite Ha, omap_edit.
Qed.

Lemma edit_spends sp : tip_edit (set_spends sp). Proof. done. Qed.
Lemma edit_competition co : tip_edit (set_competition co). Proof. done. Qed.
Lemma edit_seed seed : tip_edit (set_seed seed). Proof. done. Qed.
Lemma edit_key key : tip_edit (set_vrf_key key). Proof. done. Qed.
#[export] Hint Resolve edit_spends edit_competition edit_seed edit_key : chain.

(** ** Retraction *)

Lemma elected_first base w e k : heights_from base w -> (1 <= k)%nat -> e ∈ omap elected_height w -> e <= base ->
  e ∈ omap elected_height (take k w).
Proof.
  intros Hw Hk (x & Hx & He)%list_elem_of_omap Hle. apply list_elem_of_omap. exists x. split; [|done].
  apply list_elem_of_lookup_1 in Hx as [i Hi]. assert (Hxe : sn_bitcoin_height x = e).
  { unfold elected_height in He. destruct (sn_winner_txid x); [|done]. by injection He. }
  rewrite (Hw _ _ Hi) in Hxe. assert (i = 0%nat) as -> by lia. apply (list_elem_of_lookup_2 _ 0). rewrite lookup_take_lt by lia. done.
Qed.

Lemma remembers_retract sd base pre w rem k : heights_from base (pre ++ w) -> Forall (fun e => e <= base) sd -> (1 <= k)%nat ->
  remembers (fun e => e ∈ sd \/ e ∈ omap elected_height (pre ++ w)) (base + len pre) w rem ->
  remembers (fun e => e ∈ sd \/ e ∈ omap elected_height (pre ++ take k w)) (base + len pre) (take k w) rem.
Proof.
  intros Hh Hsd Hk [Hs Hb He Hw Ha]. pose proof (proj1 (heights_app _ _ _) Hh) as [Hpre Hwin].
  assert (Hlow : forall e, e ∈ omap elected_height w -> e <= base + len pre -> e ∈ omap elected_height (take k w)).
  { intros e Hin Hle. by eapply elected_first. }
  rewrite Forall_forall in Hb. split; [done|by apply Forall_forall| | |].
  - intros x Hx. rewrite omap_app, elem_of_app. destruct (He x Hx) as [?|Hin]; [by left|].
    rewrite omap_app in Hin. apply elem_of_app in Hin as [?|Hin]; [tauto|]. right. right. apply Hlow; [done|]. by apply Hb.
  - intros x Hx. right. rewrite omap_app. set_solver.
  - intros e HE. assert (Hcase : e ∈ omap elected_height (take k w) \/ e <= base + len pre).
    { destruct HE as [HE|HE]; [apply (proj1 (Forall_forall _ _) Hsd) in HE; lia|]. rewrite omap_app in HE.
      apply elem_of_app in HE as [HE|HE]; [right|by left]. destruct (elected_elem _ _ _ Hpre HE) as (x & Hx & _ & <- & _).
      pose proof (heights_elem _ _ _ Hpre Hx). lia. }
    destruct Hcase as [?|Hle]; [by left|]. destruct (Ha e) as [Hin|?]; [|left; by apply Hlow|by right].
    destruct HE as [?|HE]; [by left|right]. rewrite omap_app, elem_of_app in *. destruct HE as [?|HE]; [by left|right].
    apply list_elem_of_omap in HE as (x & Hx & Hxe). apply list_elem_of_omap. exists x. split; [|done].
    rewrite <- (take_drop k w). set_solver.
Qed.

Lemma sim_length base pre c s : simulates_at base pre c s -> 1 <= len (SnapshotChain.snapshots c) <= USIZE_MAX.
Proof.
  intros S. pose proof (sim_top _ _ _ _ S) as Ht. pose proof (sim_base _ _ _ _ S). rewrite (sim_archive _ _ _ _ S), length_app in Ht.
  pose proof (sim_nonempty _ _ _ _ S). destruct (SnapshotChain.snapshots c); [done|]. cbn [length] in *. unfold USIZE_MAX. lia.
Qed.

(** Keeping the first [k] snapshots of the window. *)
Lemma sim_take base pre c s k nf : simulates_at base pre c s -> (1 <= k <= length (SnapshotChain.snapshots c))%nat ->
  let hs := SnapshotChain.consensus_hashes c in let w := SnapshotChain.snapshots c in
  simulates_at base pre
    (SnapshotChain.mk (take k w) (take (length hs - (length w - k)) hs) (SnapshotChain.sortitions_below_window c) nf)
    (ArchiveChain.mk (ArchiveChain.history s) (ArchiveChain.seeded s) (pre ++ take k w)).
Proof.
  intros [Ha Hne Hh Hb H1 Ht Hsd Hr] Hk hs w. fold w in Ha, Hne, Hr, Hk. rewrite Ha in *. pose proof (proj1 (heights_app _ _ _) Hb) as [Hpre Hw].
  assert (Hb' : heights_from base (pre ++ take k w)).
  { rewrite <- (take_drop k w), app_assoc in Hb. by apply heights_app in Hb as [Hb _]. }
  split; cbn [SnapshotChain.snapshots SnapshotChain.consensus_hashes SnapshotChain.sortitions_below_window ArchiveChain.archive ArchiveChain.seeded]; try done.
  - intros Hnil. apply (f_equal length) in Hnil. rewrite length_take in Hnil. cbn in Hnil. lia.
  - subst hs. rewrite Hh. unfold ArchiveChain.hashes. cbn. rewrite Ha, !map_app, !length_app, !length_map, <- firstn_map, !(app_assoc (ArchiveChain.history s)).
    rewrite take_app_ge by (rewrite length_app, length_map; lia).
    rewrite length_app, length_map. do 2 f_equal. lia.
  - rewrite length_app in *. rewrite length_take. lia.
  - apply remembers_retract; [done|done|lia|]. unfold ArchiveChain.elected in Hr. by rewrite Ha in Hr.
Qed.

Definition kept_of (above : Z) : Z := saturating_add USIZE_MAX (default USIZE_MAX (try_from USIZE_MAX above)) 1.

Lemma kept_of_spec above : 0 <= above -> kept_of above = Z.min USIZE_MAX (above + 1).
Proof.
  intros H. unfold kept_of, saturating_add, try_from. destruct (Z.leb_spec above USIZE_MAX); cbn; unfold USIZE_MAX in *; lia.
Qed.

(** [retract_above] at or above the root keeps the snapshots up to the height. *)
Lemma retract_above_eq c root height : SnapshotChain.root c = Some root -> sn_bitcoin_height root <= height ->
  1 <= len (SnapshotChain.snapshots c) <= USIZE_MAX ->
  let hs := SnapshotChain.consensus_hashes c in let w := SnapshotChain.snapshots c in
  let k := Nat.min (length w) (Z.to_nat (height - sn_bitcoin_height root + 1)) in
  let c' := SnapshotChain.mk (take k w) (take (length hs - (length w - k)) hs) (SnapshotChain.sortitions_below_window c) (SnapshotChain.needed_from c) in
  SnapshotChain.retract_above c height = (tip ← SnapshotChain.tip c'; Some (Ok (mkReorg tip (drop k w)), c')).
Proof.
  intros Hroot Hle Hlen hs w k c'. fold w in Hlen. unfold SnapshotChain.retract_above. rewrite Hroot. cbn [mbind option_bind].
  unfold checked_sub. rewrite (proj2 (Z.leb_le _ _)) by done. fold hs w. set (above := height - sn_bitcoin_height root) in *.
  fold (kept_of above). rewrite kept_of_spec by lia. unfold saturating_sub.
  destruct (Z.ltb_spec (Z.min USIZE_MAX (above + 1)) (len w)) as [Hlt|Hge].
  - replace (Z.to_nat (Z.min USIZE_MAX (above + 1))) with k by lia.
    replace (Z.to_nat (Z.max 0 (len hs - Z.max 0 (len w - Z.min USIZE_MAX (above + 1))))) with (length hs - (length w - k))%nat by lia. done.
  - assert (Hk : k = length w) by lia. unfold c'. rewrite Hk, drop_all, (take_ge w) by lia.
    replace (Z.to_nat (Z.max 0 (len hs - Z.max 0 (len w - Z.min USIZE_MAX (above + 1))))) with (length hs - (length w - length w))%nat by lia. done.
Qed.

Section Simulation.
Context `{HS : Hashes}.

Lemma sim_retract c s height : simulates c s -> exists r c' s', SnapshotChain.retract_above c height = Some (r, c') /\
  ArchiveChain.step s (ChainRetract height) (match r with Ok reorg => Retracted reorg | Err e => Refused e end) s' /\ simulates c' s'.
Proof.
  intros (base & pre & S). destruct (sim_root _ _ _ _ S) as (root & Hroot & Hin & Hrh). pose proof (sim_length _ _ _ _ S) as Hlen.
  destruct (Z.lt_ge_cases height (sn_bitcoin_height root)) as [Hlt|Hge].
  { exists (Err (ReorgBeyondChainRoot (sn_bitcoin_height root))), c, s. split; [|split; [by constructor|by exists base, pre]].
    unfold SnapshotChain.retract_above, checked_sub. rewrite Hroot. cbn [mbind option_bind]. by rewrite (proj2 (Z.leb_gt _ _)) by lia. }
  rewrite (retract_above_eq c root) by (done || lia). set (w := SnapshotChain.snapshots c) in *. set (k := Nat.min _ _).
  assert (Hk : (1 <= k <= length w)%nat) by lia. pose proof (sim_take _ _ _ _ k (SnapshotChain.needed_from c) S Hk) as S'. cbn zeta in S'. fold w in S'.
  set (c' := SnapshotChain.mk (take k w) _ _ _) in *. destruct (sim_tip _ _ _ _ S') as (tip & Htip & Hlast). rewrite Htip. cbn [mbind option_bind].
  do 3 eexists. split; [done|]. split; [|by exists base, pre]. apply ArchiveChain.step_retract.
  - cbn. rewrite <- app_assoc, take_drop. by rewrite (sim_archive _ _ _ _ S).
  - exact Hlast.
  - pose proof (heights_last _ _ _ (sim_heights _ _ _ _ S') Hlast) as Hh. cbn in Hh. rewrite length_app, length_take in Hh.
    destruct (decide (k = length w)) as [Hkw|Hkw]; [right|left; lia]. split; [by apply drop_ge; lia|]. lia.
Qed.

Lemma snapshots_to_keep_ge needed tip_height : SNAPSHOTS_KEPT <= SnapshotChain.snapshots_to_keep needed tip_height.
Proof. apply Z.le_max_l. Qed.

(** Appending a snapshot above the tip, and forgetting all but [keep]. *)
Lemma sim_extend base pre c s x keep nf : simulates_at base pre c s -> 1 <= keep -> sn_bitcoin_height x = base + len (ArchiveChain.archive s) ->
  sn_bitcoin_height x <= U64_MAX ->
  let '(held, heights) := SnapshotChain.forget keep (SnapshotChain.snapshots c ++ [x]) (SnapshotChain.sortitions_below_window c) in
  last held = Some x /\
  simulates (SnapshotChain.mk held (SnapshotChain.consensus_hashes c ++ [sn_consensus_hash x]) heights nf)
    (ArchiveChain.mk (ArchiveChain.history s) (ArchiveChain.seeded s) (ArchiveChain.archive s ++ [x])).
Proof.
  intros [Ha Hne Hh Hb H1 Ht Hsd Hr] Hk Hx Hmax. set (w := SnapshotChain.snapshots c) in *. rewrite forget_window_spec by lia. set (k := Z.to_nat _).
  assert (Hkl : (k <= length w)%nat) by (unfold k; rewrite length_app; cbn; lia). split; [by rewrite drop_app_le, last_snoc by done|].
  assert (Hb' : heights_from base (ArchiveChain.archive s ++ [x])) by (by apply heights_snoc). rewrite Ha in Hb'. rewrite <- app_assoc in Hb'.
  exists base, (pre ++ take k (w ++ [x])).
  split; cbn [SnapshotChain.snapshots SnapshotChain.consensus_hashes SnapshotChain.sortitions_below_window ArchiveChain.archive ArchiveChain.seeded]; try done.
  - rewrite <- app_assoc, take_drop, Ha. by rewrite <- app_assoc.
  - rewrite drop_app_le by done. by destruct (drop k w).
  - rewrite Hh. unfold ArchiveChain.hashes. cbn. by rewrite map_app, app_assoc.
  - by rewrite Ha, <- app_assoc.
  - rewrite length_app. cbn. lia.
  - rewrite length_app, Nat2Z.inj_add, Z.add_assoc. apply remembers_forget; rewrite take_drop; [by apply heights_app in Hb' as [_ Hb']|].
    destruct Hr as [Hs Hbl He Hw Hal]. unfold ArchiveChain.elected in *. cbn. rewrite Ha, !omap_app in *. split; [done|done| | |].
    + intros y Hy. destruct (He y Hy); [by left|right]. set_solver.
    + intros y Hy. right. rewrite omap_app in Hy. rewrite !elem_of_app in *. tauto.
    + intros e HE. rewrite !elem_of_app in HE. rewrite omap_app, elem_of_app. destruct HE as [HE|[HE|HE]]; [| |by left; right].
      * destruct (Hal e) as [?|?]; [by left|by left; left|by right].
      * destruct (Hal e) as [?|?]; [by right; apply elem_of_app|by left; left|by right].
Qed.

Lemma sim_append c s block txids burn pox winner : simulates c s ->
  exists r c' s', SnapshotChain.append_with_operations c block txids burn pox winner = Some (r, c') /\
  ArchiveChain.step s (ChainAppend block txids burn pox winner) (match r with Ok x => Appended x | Err e => Refused e end) s' /\
  simulates c' s'.
Proof.
  intros (base & pre & S). destruct (sim_tip _ _ _ _ S) as (parent & Htip & Hlast). pose proof (heights_last _ _ _ (sim_heights _ _ _ _ S) Hlast) as Hph.
  pose proof (sim_top _ _ _ _ S) as Htop. unfold SnapshotChain.append_with_operations. rewrite Htip. cbn [mbind option_bind].
  unfold checked_add. destruct (Z.leb_spec (sn_bitcoin_height parent + 1) U64_MAX) as [Hfit|Hbig].
  2:{ do 3 eexists. split; [done|]. split; [|by exists base, pre]. apply ArchiveChain.step_overflow with parent; [done|lia]. }
  destruct (Z.eqb_spec (bb_height block) (sn_bitcoin_height parent + 1)) as [Heq|Hneq]; cbn [negb].
  2:{ do 3 eexists. split; [done|]. split; [|by exists base, pre]. apply ArchiveChain.step_unexpected; [done|lia|done]. }
  rewrite previous_hashes_spec. 2:{ rewrite (sim_hashes _ _ _ _ S), <- length_zero_iff_nil. unfold ArchiveChain.hashes. rewrite length_app, length_map.
    destruct (ArchiveChain.archive s); [done|]. cbn. lia. }
  cbn [mbind option_bind]. rewrite (sim_hashes _ _ _ _ S). set (x := SnapshotChain.next_snapshot _ _ _ _ _ _ _).
  pose proof (snapshots_to_keep_ge (SnapshotChain.needed_from c) (sn_bitcoin_height x)) as Hkeep. set (keep := SnapshotChain.snapshots_to_keep _ _) in *.
  pose proof (sim_extend base pre c s x keep (SnapshotChain.needed_from c) S ltac:(unfold SNAPSHOTS_KEPT in *; lia) ltac:(cbn; lia) ltac:(cbn; lia)) as Hext.
  destruct (SnapshotChain.forget _ _ _) as [held heights]. destruct Hext as [Hheld S']. unfold SnapshotChain.tip. cbn [SnapshotChain.snapshots].
  rewrite Hheld. cbn [mbind option_bind]. do 3 eexists. split; [done|]. split; [|rewrite <- (sim_hashes _ _ _ _ S); exact S'].
  apply ArchiveChain.step_append with parent; [done|lia|lia|done].
Qed.

(** ** Runs of calls *)

(** One call, and what its caller sees. *)
Definition perform_chain (c : SnapshotChain.t) (op : chain_op) : option (chain_out * SnapshotChain.t) :=
  match op with
  | ChainAppend block txids burn pox winner =>
      '(r, c) ← SnapshotChain.append_with_operations c block txids burn pox winner;
      Some (match r with Ok x => Appended x | Err e => Refused e end, c)
  | ChainRetract height =>
      '(r, c) ← SnapshotChain.retract_above c height;
      Some (match r with Ok reorg => Retracted reorg | Err e => Refused e end, c)
  | ChainKeep height => Some (Quiet, SnapshotChain.keep_from c height)
  | ChainSpends spends => Some (Quiet, SnapshotChain.record_tip_burn_spends c spends)
  | ChainCompetition competition => Some (Quiet, SnapshotChain.record_tip_mining_competition c competition)
  | ChainAdoptSeed seed => let '(b, c) := SnapshotChain.adopt_root_winner_seed c seed in Some (Adopted b, c)
  | ChainAdoptKey key => let '(b, c) := SnapshotChain.adopt_root_winner_vrf_public_key c key in Some (Adopted b, c)
  end.

Fixpoint run_chain (c : SnapshotChain.t) (ops : list chain_op) : option (list chain_out * SnapshotChain.t) :=
  match ops with
  | [] => Some ([], c)
  | op :: ops =>
      '(out, c) ← perform_chain c op;
      '(outs, c) ← run_chain c ops;
      Some (out :: outs, c)
  end.

(** A chain started at a checkpoint, as the node does: its hashes, then the heights that elected somebody. *)
Definition start_chain (genesis : SortitionSnapshot) (history : list ConsensusHash) (heights : list Z) : option SnapshotChain.t :=
  c ← SnapshotChain.with_history genesis history;
  Some (SnapshotChain.seed_sortitions_below_window c heights).

Definition start_archive (genesis : SortitionSnapshot) (history : list ConsensusHash) (heights : list Z) : ArchiveChain.t :=
  ArchiveChain.mk (removelast history) heights [genesis].

(** A checkpoint above Bitcoin's first block, seeded with heights at or below it. *)
Definition root_ok (genesis : SortitionSnapshot) (heights : list Z) : Prop :=
  1 <= sn_bitcoin_height genesis <= U64_MAX /\ Forall (fun e => e <= sn_bitcoin_height genesis) heights.

Lemma sorted_dedup l : StronglySorted Z.le l -> StronglySorted Z.lt (remove_dups l).
Proof.
  induction 1 as [|x l Hs IH HF]; [constructor|]. cbn [remove_dups]. case_decide as Hin; [done|]. constructor; [done|].
  apply Forall_forall. intros y Hy. rewrite elem_of_remove_dups in Hy. pose proof (proj1 (Forall_forall _ _) HF y Hy). assert (x <> y) by congruence. lia.
Qed.

Lemma start_simulates genesis history heights c : start_chain genesis history heights = Some c -> root_ok genesis heights ->
  simulates c (start_archive genesis history heights).
Proof.
  unfold start_chain, SnapshotChain.with_history. case_decide as Hl; [|done]. cbn [mbind option_bind]. intros [= <-] [Hg Hh].
  assert (Hmem : forall e, e ∈ remove_dups (merge_sort Z.le heights) <-> e ∈ heights) by (intros e; by rewrite elem_of_remove_dups, merge_sort_Permutation).
  exists (sn_bitcoin_height genesis), [].
  split; cbn [SnapshotChain.snapshots SnapshotChain.consensus_hashes SnapshotChain.sortitions_below_window SnapshotChain.seed_sortitions_below_window start_archive ArchiveChain.archive ArchiveChain.seeded length]; try done.
  - unfold ArchiveChain.hashes. cbn. destruct history as [|h history _] using rev_ind; [done|]. rewrite last_snoc in Hl. injection Hl as ->.
    by rewrite removelast_last.
  - apply heights_singleton.
  - lia.
  - lia.
  - cbn. rewrite Z.add_0_r. split.
    + apply sorted_dedup, StronglySorted_merge_sort; apply _.
    + apply Forall_forall. intros e He%Hmem. by apply (proj1 (Forall_forall _ _) Hh).
    + intros e He%Hmem. by left.
    + intros e He. by right.
    + intros e [He|He]; [right|by left]. pose proof (proj1 (Forall_forall _ _) Hh e He). split; [done|]. intros _ _ _. by apply Hmem.
Qed.

Lemma adopt_simulates f c s : tip_edit f -> simulates c s ->
  match SnapshotChain.snapshots c with
  | [_] => exists below tip, ArchiveChain.archive s = below ++ [tip] /\
      simulates (SnapshotChain.map_tip f c) (ArchiveChain.mk (ArchiveChain.history s) (ArchiveChain.seeded s) (below ++ [f tip]))
  | _ => (1 < length (ArchiveChain.archive s))%nat
  end.
Proof.
  intros Hf Hs. pose proof (sim_edit f c s Hf Hs) as He. destruct Hs as (base & pre & [Ha Hne _ _ _ _ _ _]).
  destruct (SnapshotChain.snapshots c) as [|x [|y l]]; [done|exact He|]. rewrite Ha, length_app. cbn. lia.
Qed.

Lemma perform_chain_simulates c s op : simulates c s -> exists out c' s', perform_chain c op = Some (out, c') /\
  ArchiveChain.step s op out s' /\ simulates c' s'.
Proof.
  intros Hs. destruct op as [block txids burn pox winner|height|height|sp|co|seed|key]; cbn [perform_chain].
  - destruct (sim_append c s block txids burn pox winner Hs) as (r & c' & s' & Hr & Hstep & Hs'). rewrite Hr. by eexists _, c', s'.
  - destruct (sim_retract c s height Hs) as (r & c' & s' & Hr & Hstep & Hs'). rewrite Hr. by eexists _, c', s'.
  - eexists _, _, s. split; [done|]. split; [constructor|]. destruct Hs as (base & pre & [? ? ? ? ? ? ? ?]). by exists base, pre.
  - destruct (sim_edit (set_spends sp) c s (edit_spends _) Hs) as (below & tip & Ha & Hs'). eexists _, _, _. split; [done|]. split; [by constructor|done].
  - destruct (sim_edit (set_competition co) c s (edit_competition _) Hs) as (below & tip & Ha & Hs'). eexists _, _, _. split; [done|]. split; [by constructor|done].
  - pose proof (adopt_simulates (set_seed seed) c s (edit_seed _) Hs) as Had. unfold SnapshotChain.adopt_root_winner_seed, SnapshotChain.map_tip in *.
    destruct (SnapshotChain.snapshots c) as [|x [|y l]]; [by exists (Adopted false), c, s; split; [|split; [constructor|]]| |by exists (Adopted false), c, s; split; [|split; [constructor|]]].
    destruct Had as (below & tip & Ha & Hs'). eexists _, _, _. split; [done|]. split; [by constructor|done].
  - pose proof (adopt_simulates (set_vrf_key key) c s (edit_key _) Hs) as Had. unfold SnapshotChain.adopt_root_winner_vrf_public_key, SnapshotChain.map_tip in *.
    destruct (SnapshotChain.snapshots c) as [|x [|y l]]; [by exists (Adopted false), c, s; split; [|split; [constructor|]]| |by exists (Adopted false), c, s; split; [|split; [constructor|]]].
    destruct Had as (below & tip & Ha & Hs'). eexists _, _, _. split; [done|]. split; [by constructor|done].
Qed.

Lemma run_chain_simulates c s ops : simulates c s -> exists outs c' s', run_chain c ops = Some (outs, c') /\
  ArchiveChain.steps s ops outs s' /\ simulates c' s'.
Proof.
  revert c s. induction ops as [|op ops IH]; intros c s Hs; [exists [], c, s; split; [done|]; split; [constructor|done]|].
  destruct (perform_chain_simulates c s op Hs) as (out & c1 & s1 & Hp & Hstep & Hs1). destruct (IH c1 s1 Hs1) as (outs & c2 & s2 & Hr & Hsteps & Hs2).
  exists (out :: outs), c2, s2. cbn [run_chain]. rewrite Hp. cbn [mbind option_bind]. rewrite Hr. split; [done|]. split; [|done]. by econstructor.
Qed.

(** C20: Whatever sequence of appends, retractions, floors, records and adoptions is
    run on a snapshot chain started at a checkpoint, no call panics, every result is
    that of an archive that never forgets a snapshot, and the tip and all consensus
    hashes are the archive's; the snapshots held are its last ones. *)
Theorem chain_refines (genesis : SortitionSnapshot) (history : list ConsensusHash) (heights : list Z) (c : SnapshotChain.t) (ops : list chain_op)
  (Hstart : start_chain genesis history heights = Some c) (Hroot : root_ok genesis heights) :
  exists outs c' s', run_chain c ops = Some (outs, c') /\
    ArchiveChain.steps (start_archive genesis history heights) ops outs s' /\
    SnapshotChain.tip c' = last (ArchiveChain.archive s') /\
    SnapshotChain.consensus_hashes c' = ArchiveChain.hashes s' /\
    exists forgotten, ArchiveChain.archive s' = forgotten ++ SnapshotChain.snapshots c'.
Proof.
  destruct (run_chain_simulates c _ ops (start_simulates _ _ _ _ Hstart Hroot)) as (outs & c' & s' & Hr & Hsteps & base & pre & S).
  exists outs, c', s'. split; [done|]. split; [done|]. destruct (sim_tip _ _ _ _ S) as (tip & -> & ->). split; [done|].
  split; [by apply (sim_hashes _ _ _ _ S)|]. exists pre. by apply (sim_archive _ _ _ _ S).
Qed.

(** ** Questions *)

Lemma snapshot_at_spec base pre c s height : simulates_at base pre c s ->
  exists o, SnapshotChain.snapshot_at c height = Some o /\
    forall x, o = Some x <-> x ∈ SnapshotChain.snapshots c /\ sn_bitcoin_height x = height.
Proof.
  intros S. destruct (sim_tip _ _ _ _ S) as (tip & Htip & _). pose proof (sim_window _ _ _ _ S) as Hw. pose proof (heights_last _ _ _ Hw Htip) as Hth.
  pose proof (sim_length _ _ _ _ S) as Hlen. pose proof (sim_top _ _ _ _ S) as Htop. pose proof (sim_base _ _ _ _ S) as Hbase.
  rewrite (sim_archive _ _ _ _ S), length_app in Htop. unfold SnapshotChain.snapshot_at. rewrite Htip. cbn [mbind option_bind].
  set (w := SnapshotChain.snapshots c) in *. set (b := base + len pre) in *.
  assert (Hin : forall x, x ∈ w /\ sn_bitcoin_height x = height <-> b <= height /\ w !! Z.to_nat (height - b) = Some x).
  { intros x. split.
    - intros [Hx <-]. pose proof (heights_elem _ _ _ Hw Hx). apply list_elem_of_lookup_1 in Hx as [i Hi]. rewrite (Hw _ _ Hi). split; [lia|].
      by replace (Z.to_nat (b + Z.of_nat i - b)) with i by lia.
    - intros [Hb Hx]. split; [by eapply list_elem_of_lookup_2|]. rewrite (Hw _ _ Hx). lia. }
  eexists. split; [done|]. intros x. rewrite Hin. clear Hin. unfold checked_sub.
  destruct (Z.leb_spec height (sn_bitcoin_height tip)) as [Hle|Hgt]; cbn [mbind option_bind].
  - unfold try_from. destruct (Z.leb_spec (sn_bitcoin_height tip - height) USIZE_MAX) as [Hu|Hu]; cbn [mbind option_bind].
    + destruct (Z.leb_spec (sn_bitcoin_height tip - height + 1) (len w)) as [Hb|Hb]; cbn [mbind option_bind].
      * replace (len w - (sn_bitcoin_height tip - height + 1)) with (height - b) by lia. split; [split; [lia|done]|by intros [_ ?]].
      * split; [done|]. intros [? _]. lia.
    + split; [done|]. intros [? _]. unfold USIZE_MAX in *. lia.
  - split; [done|]. intros [_ Hx]. apply lookup_lt_Some in Hx. lia.
Qed.

(** On every reachable snapshot chain snapshot_at finds exactly the held snapshot
    of a height; the effective winner seed it names at a height is the last one of the
    archive; and the last sortition it names at a height is the greatest height at or
    below it that elected anybody since or before the checkpoint. *)
Theorem chain_answers (genesis : SortitionSnapshot) (history : list ConsensusHash) (heights : list Z) (c c' : SnapshotChain.t)
  (ops : list chain_op) (outs : list chain_out) (height : Z)
  (Hstart : start_chain genesis history heights = Some c) (Hroot : root_ok genesis heights) (Hrun : run_chain c ops = Some (outs, c')) :
  exists s, ArchiveChain.steps (start_archive genesis history heights) ops outs s /\
    (exists o, SnapshotChain.snapshot_at c' height = Some o /\
       forall x, o = Some x <-> x ∈ SnapshotChain.snapshots c' /\ sn_bitcoin_height x = height) /\
    (forall seed, SnapshotChain.effective_winner_seed_at_or_below c' height = Some seed ->
       latest sn_winner_vrf_seed height (ArchiveChain.archive s) = Some seed) /\
    (forall x, SnapshotChain.last_sortition_at_or_below c' height = Some x ->
       ArchiveChain.elected s x /\ x <= height /\ forall e, ArchiveChain.elected s e -> e <= height -> e <= x).
Proof.
  destruct (run_chain_simulates c _ ops (start_simulates _ _ _ _ Hstart Hroot)) as (outs' & c'' & s & Hr & Hsteps & base & pre & S).
  rewrite Hrun in Hr. injection Hr as <- <-. exists s. split; [done|]. split; [by eapply snapshot_at_spec|].
  pose proof (sim_window _ _ _ _ S) as Hw. split.
  - intros seed. unfold SnapshotChain.effective_winner_seed_at_or_below. rewrite (find_at_or_below_latest _ _ _ _ Hw).
    intros Hseed. by rewrite (sim_archive _ _ _ _ S), latest_app, Hseed.
  - intros x Hx. eapply last_sortition_sound; [exact Hw|by apply (sim_remembers _ _ _ _ S)|done].
Qed.

(** ** The window reaches the floor *)

Lemma append_window c block txids burn pox winner x c' :
  SnapshotChain.append_with_operations c block txids burn pox winner = Some (Ok x, c') ->
  SnapshotChain.needed_from c' = SnapshotChain.needed_from c /\
  exists y, sn_bitcoin_height y = bb_height block /\
    SnapshotChain.snapshots c' = drop (Z.to_nat (len (SnapshotChain.snapshots c) + 1 - SnapshotChain.snapshots_to_keep (SnapshotChain.needed_from c) (bb_height block)))
      (SnapshotChain.snapshots c ++ [y]).
Proof.
  unfold SnapshotChain.append_with_operations. destruct (SnapshotChain.tip c) as [parent|]; [|done]. cbn [mbind option_bind].
  destruct (checked_add _ _ _); [|done]. destruct (negb _); [done|]. destruct (SnapshotChain.previous_consensus_hashes c) as [prev|]; [|done].
  cbn [mbind option_bind]. set (y := SnapshotChain.next_snapshot _ _ _ _ _ _ _). pose proof (snapshots_to_keep_ge (SnapshotChain.needed_from c) (sn_bitcoin_height y)).
  rewrite forget_window_spec by (unfold SNAPSHOTS_KEPT in *; lia). unfold SnapshotChain.tip. cbn [SnapshotChain.snapshots].
  destruct (last _); [|done]. cbn [mbind option_bind]. intros [= _ <-]. split; [done|]. exists y. split; [done|]. cbn [SnapshotChain.snapshots].
  rewrite length_app. cbn [length]. do 2 f_equal. change (sn_bitcoin_height y) with (bb_height block). lia.
Qed.

(** An append drops no snapshot of the last 144 heights and none at or above the
    burn view execution has reached. *)
Theorem window_reaches_floor (genesis : SortitionSnapshot) (history : list ConsensusHash) (heights : list Z) (c c1 c2 : SnapshotChain.t)
  (ops : list chain_op) (outs : list chain_out) (block : BitcoinBlock) (txids : list (list byte)) (burn : Z) (pox : PoxId.t)
  (winner : option SortitionWinner) (x : SortitionSnapshot)
  (Hstart : start_chain genesis history heights = Some c) (Hroot : root_ok genesis heights) (Hrun : run_chain c ops = Some (outs, c1))
  (Happ : SnapshotChain.append_with_operations c1 block txids burn pox winner = Some (Ok x, c2)) :
  forall y, y ∈ SnapshotChain.snapshots c1 ->
    (sn_bitcoin_height x - SNAPSHOTS_KEPT < sn_bitcoin_height y \/
     exists floor, SnapshotChain.needed_from c1 = Some floor /\ 0 <= floor <= sn_bitcoin_height y) ->
    y ∈ SnapshotChain.snapshots c2.
Proof.
  destruct (run_chain_simulates c _ ops (start_simulates _ _ _ _ Hstart Hroot)) as (outs' & c'' & s & Hr & _ & base & pre & S).
  rewrite Hrun in Hr. injection Hr as <- <-. intros y Hy Hcase. pose proof (sim_window _ _ _ _ S) as Hw.
  destruct (append_window _ _ _ _ _ _ _ _ Happ) as (_ & z & Hz & Hc2).
  assert (Hx : sn_bitcoin_height x = bb_height block /\ bb_height block = base + len pre + len (SnapshotChain.snapshots c1) /\ bb_height block <= U64_MAX).
  { destruct (sim_append c1 s block txids burn pox winner ltac:(by exists base, pre)) as (r & c3 & s' & Hr & Hstep & _). rewrite Happ in Hr.
    injection Hr as <- <-. inversion Hstep as [parent b t bu po wi sn Hl Hb Hm Hsn| | | | | | | | | | |]; subst. cbn. split; [done|].
    pose proof (heights_last _ _ _ (sim_heights _ _ _ _ S) Hl) as Hp. rewrite (sim_archive _ _ _ _ S), length_app in Hp. lia. }
  rewrite Hc2. apply list_elem_of_lookup_1 in Hy as [i Hi]. pose proof (Hw _ _ Hi) as Hyh. apply lookup_lt_Some in Hi as Hil.
  set (w := SnapshotChain.snapshots c1) in *. set (keep := SnapshotChain.snapshots_to_keep _ _). pose proof (sim_base _ _ _ _ S) as Hbase.
  assert (Hk : len w + 1 - keep <= Z.of_nat i).
  { unfold keep, SnapshotChain.snapshots_to_keep. destruct Hcase as [Hc|(floor & Hf & Hc)]; [lia|]. rewrite Hf. unfold checked_sub.
    rewrite (proj2 (Z.leb_le _ _)) by lia. unfold try_from.
    destruct (Z.leb_spec (bb_height block - floor) USIZE_MAX) as [Hu|Hu]; [|]; unfold saturating_add, USIZE_MAX in *; lia. }
  apply (list_elem_of_lookup_2 _ (i - Z.to_nat (len w + 1 - keep))). rewrite lookup_drop.
  replace (Z.to_nat (len w + 1 - keep) + (i - Z.to_nat (len w + 1 - keep)))%nat with i by lia. by apply lookup_app_l_Some.
Qed.

(** ** Reorganizations *)

(** Bitcoin, which holds the header [g height] at each height, still holds the snapshot's block. *)
Definition agrees (g : Z -> list byte) (x : SortitionSnapshot) : Prop := g (sn_bitcoin_height x) = sn_bitcoin_header_hash x.

Lemma fork_walk_spec {E} g tip_height root_height w :
  (exists below x above, w = below ++ x :: above /\ agrees g x /\ Forall (fun y => ~ agrees g y) above /\
     SnapshotChain.fork_walk (E := E) (fun h => Ok (g h)) tip_height root_height (rev w) =
     Ok (if sn_bitcoin_height x =? tip_height then Canonical else Above (sn_bitcoin_height x))) \/
  (Forall (fun y => ~ agrees g y) w /\
     SnapshotChain.fork_walk (E := E) (fun h => Ok (g h)) tip_height root_height (rev w) = Ok (BeyondChainRoot root_height)).
Proof.
  induction w as [|x w IH] using rev_ind; [by right|]. rewrite rev_unit. cbn [SnapshotChain.fork_walk]. case_decide as Hd.
  - left. exists w, x, []. done.
  - destruct IH as [(below & y & above & -> & Hy & Hab & Hw)|[Hall Hw]]; [left|right].
    + exists below, y, (above ++ [x]). rewrite <- app_assoc. split; [done|]. split; [done|]. split; [|done]. apply Forall_app. split; [done|by constructor].
    + split; [|done]. apply Forall_app. split; [done|by constructor].
Qed.

Lemma find_fork_tip {E} c tip root g : SnapshotChain.tip c = Some tip -> SnapshotChain.root c = Some root -> agrees g tip ->
  SnapshotChain.find_fork (E := E) c (fun h => Ok (g h)) = Some (Ok Canonical).
Proof.
  intros Htip Hroot Ha. unfold SnapshotChain.find_fork. rewrite Htip, Hroot. cbn [mbind option_bind]. unfold SnapshotChain.tip in Htip.
  destruct (SnapshotChain.snapshots c) as [|x w _] using rev_ind; [done|]. rewrite last_snoc in Htip. injection Htip as ->.
  rewrite rev_unit. cbn [SnapshotChain.fork_walk]. rewrite decide_True by done. by rewrite Z.eqb_refl.
Qed.

(** C23: For every Bitcoin chain, find_fork on a reachable chain returns: canonical
    only if the tip's block is still held; a fork above a height, at which
    retract_above then succeeds, drops only snapshots Bitcoin no longer holds and at
    least one, and leaves a chain that is canonical; or beyond the root, only if no
    snapshot is still held. *)
Theorem fork_recovery (genesis : SortitionSnapshot) (history : list ConsensusHash) (heights : list Z) (c c1 : SnapshotChain.t)
  (ops : list chain_op) (outs : list chain_out) (g : Z -> list byte)
  (Hstart : start_chain genesis history heights = Some c) (Hroot : root_ok genesis heights) (Hrun : run_chain c ops = Some (outs, c1)) :
  exists fork, SnapshotChain.find_fork (E := Empty_set) c1 (fun h => Ok (g h)) = Some (Ok fork) /\
  match fork with
  | Canonical => exists tip, SnapshotChain.tip c1 = Some tip /\ agrees g tip
  | Above height =>
      exists reorg c2, SnapshotChain.retract_above c1 height = Some (Ok reorg, c2) /\
        SnapshotChain.snapshots c1 = SnapshotChain.snapshots c2 ++ ro_retracted reorg /\
        SnapshotChain.tip c2 = Some (ro_valid_ancestor reorg) /\ agrees g (ro_valid_ancestor reorg) /\
        ro_retracted reorg <> [] /\ Forall (fun y => ~ agrees g y) (ro_retracted reorg) /\
        SnapshotChain.find_fork (E := Empty_set) c2 (fun h => Ok (g h)) = Some (Ok Canonical)
  | BeyondChainRoot root_height =>
      Forall (fun y => ~ agrees g y) (SnapshotChain.snapshots c1) /\ sn_bitcoin_height <$> SnapshotChain.root c1 = Some root_height
  end.
Proof.
  destruct (run_chain_simulates c _ ops (start_simulates _ _ _ _ Hstart Hroot)) as (outs' & c'' & s & Hr & _ & base & pre & S).
  rewrite Hrun in Hr. injection Hr as <- <-. destruct (sim_tip _ _ _ _ S) as (tip & Htip & _). destruct (sim_root _ _ _ _ S) as (root & Hrt & _ & Hrh).
  pose proof (sim_window _ _ _ _ S) as Hw. pose proof (heights_last _ _ _ Hw Htip) as Hth. unfold SnapshotChain.find_fork at 1. rewrite Htip, Hrt. cbn [mbind option_bind].
  destruct (@fork_walk_spec Empty_set g (sn_bitcoin_height tip) (sn_bitcoin_height root) (SnapshotChain.snapshots c1)) as [(below & x & above & Hsp & Hx & Hab & ->)|[Hall ->]];
    eexists; (split; [reflexivity|]); [|by split].
  pose proof Hw as Hw'. rewrite Hsp in Hw'. assert (Hxh : sn_bitcoin_height x = base + len pre + len below).
  { apply Hw'. by apply list_lookup_middle. }
  rewrite Hsp, length_app in Hth. cbn [length] in Hth. destruct (Z.eqb_spec (sn_bitcoin_height x) (sn_bitcoin_height tip)) as [Heq|Hneq].
  { exists tip. split; [done|]. assert (length above = 0%nat) as ->%length_zero_iff_nil by lia. unfold SnapshotChain.tip in Htip.
    rewrite Hsp, last_snoc in Htip. by injection Htip as <-. }
  rewrite (retract_above_eq c1 root) by (done || lia || by eapply sim_length).
  assert (Hsp' : SnapshotChain.snapshots c1 = (below ++ [x]) ++ above) by (by rewrite <- app_assoc).
  rewrite Hsp'. replace (Nat.min _ _) with (length (below ++ [x])) by (rewrite !length_app; cbn; lia).
  rewrite take_app_length, drop_app_length. unfold SnapshotChain.tip at 1. cbn [SnapshotChain.snapshots]. rewrite last_snoc. cbn [mbind option_bind].
  do 2 eexists. split; [done|]. cbn [SnapshotChain.snapshots ro_retracted ro_valid_ancestor]. split; [done|]. split; [apply last_snoc|]. split; [done|].
  split; [intros ->; cbn in Hth; lia|]. split; [done|]. destruct below as [|b0 below]; (eapply find_fork_tip; [apply last_snoc|done|done]).
Qed.

End Simulation.
