(* ===== verification/EngineTheorems.v ===== *)
(** * Theorems about the sortition engine

    A block appended to an engine is drawn over its window, and the snapshot it
    leaves is the draw's; no call panics; a retraction takes the retracted
    blocks' commitments with it.

    And what a consensus hash commits to. *)

From stdpp Require Import gmap sorting.
From S2P Require Import Prelude Primitives Address Crypto SortitionRules SortitionDraw SortitionTheorems SnapshotChain SortitionEngine ChainTheorems.

(** ** The statistics of a window *)

Lemma commitments_burns cs : Forall commitment_burn_ok cs -> Forall (fun x => 0 <= x) (map mc_burn_sats cs).
Proof. intros HF. apply Forall_map. eapply Forall_impl; [exact HF|]. unfold commitment_burn_ok. cbn. lia. Qed.

Lemma block_total_spec b : Forall commitment_burn_ok (wb_commitments b) ->
  block_total b = (let n := zsum (map mc_burn_sats (wb_commitments b)) in if n <=? U64_MAX then Ok n else Err BurnOverflow) /\
  0 <= zsum (map mc_burn_sats (wb_commitments b)).
Proof.
  intros HF%commitments_burns. pose proof (zsum_nonneg _ HF) as Hn. split; [|done]. unfold block_total. cbn zeta.
  pose proof (fun n => checked_sum_ok U64_MAX BurnOverflow 0 _ n HF ltac:(done)) as Hs.
  destruct (Z.leb_spec (zsum (map mc_burn_sats (wb_commitments b))) U64_MAX); [by apply Hs|].
  destruct (checked_sum _ _ _ _) as [n|e] eqn:E; [destruct (proj1 (Hs n) eq_refl); lia|]. by apply checked_sum_err in E as ->.
Qed.

Lemma collect_totals window : window_ok window ->
  (exists l, collect block_total window = Ok l /\ Forall is_u64 l /\ length l = length window) \/ collect block_total window = Err BurnOverflow.
Proof.
  induction 1 as [|b window Hb _ IH]; [left; by exists []|]. cbn [collect]. destruct (block_total_spec b Hb) as [-> Hn]. cbn zeta.
  destruct (Z.leb_spec (zsum (map mc_burn_sats (wb_commitments b))) U64_MAX); [|by right].
  destruct IH as [(l & -> & HF & Hl)| ->]; [left|by right]. eexists. split; [done|]. split; [by constructor|cbn; lia].
Qed.

Lemma statistics_total window latest : last window = Some latest -> window_ok window ->
  exists r, commitment_burn_statistics window = Some r /\
    match r with
    | Ok st => is_u64 (bs_window_median_burn st) /\ is_u64 (bs_block_burn st) /\ bs_block_burn st = zsum (map mc_burn_sats (wb_commitments latest))
    | Err e => e = BurnOverflow
    end.
Proof.
  intros Hl Hok. unfold commitment_burn_statistics. rewrite Hl. destruct (collect_totals window Hok) as [(l & -> & HF & Hlen)| ->]; [|by eexists].
  destruct (median_total l) as (m & x & y & -> & Hx & Hy & Hm); [|done|].
  { intros ->. destruct window; [done|]. cbn in Hlen. lia. }
  rewrite Forall_forall in HF. apply HF in Hx, Hy. cbn [mbind option_bind]. eexists. split; [done|].
  assert (Hlat : Forall commitment_burn_ok (wb_commitments latest)).
  { apply (proj1 (Forall_forall _ _) Hok). by apply last_Some_elem_of. }
  destruct (block_total_spec latest Hlat) as [-> Hn]. cbn zeta. destruct (Z.leb_spec (zsum (map mc_burn_sats (wb_commitments latest))) U64_MAX); [|done].
  cbn. unfold is_u64 in *. split; [lia|]. split; [lia|done].
Qed.

(** ** The engine's window *)

Lemma retain_spec window b : exists pre, window ++ [b] = pre ++ SortitionEngine.retain window b /\ last (SortitionEngine.retain window b) = Some b /\
  len (SortitionEngine.retain window b) = Z.min (len window + 1) (Z.max RETAINED_COMMITMENT_BLOCKS (len window)).
Proof.
  unfold SortitionEngine.retain. cbn zeta. destruct (Z.ltb_spec RETAINED_COMMITMENT_BLOCKS (len (window ++ [b]))) as [Hlt|Hge]; rewrite length_app in *; cbn [length] in *.
  - destruct window as [|a window]; [done|]. exists [a]. cbn [app drop]. rewrite drop_0. split; [done|]. split; [apply last_snoc|]. rewrite ?length_app. cbn [length] in *. lia.
  - exists []. split; [done|]. split; [apply last_snoc|]. rewrite ?length_app. cbn [length]. lia.
Qed.

(** The blocks a draw samples. *)
Definition sampled (retained : list CommitmentWindowBlock) (window_len : Z) : list CommitmentWindowBlock :=
  drop (Z.to_nat (saturating_sub (len retained) (Z.max window_len 1))) retained.

Lemma sampled_last retained window_len : last (sampled retained window_len) = last retained.
Proof.
  unfold sampled, saturating_sub. destruct retained as [|b retained _] using rev_ind; [by rewrite drop_nil|]. rewrite length_app. cbn [length].
  rewrite drop_app_le by lia. by rewrite !last_snoc.
Qed.

Lemma sampled_length retained window_len : retained <> [] -> len (sampled retained window_len) = Z.min (len retained) (Z.max window_len 1).
Proof. intros Hne. unfold sampled, saturating_sub. rewrite length_drop. destruct retained; [done|]. cbn [length]. lia. Qed.

Lemma sampled_ok retained window_len : window_ok retained -> window_ok (sampled retained window_len).
Proof. intros HF. by apply Forall_drop. Qed.

(** ** Engines *)

Record engine_ok (e : SortitionEngine.t) : Prop := {
  engine_chain : exists s, simulates (SortitionEngine.snapshots e) s;
  engine_window : window_ok (SortitionEngine.commitment_window e);
  engine_retained : len (SortitionEngine.commitment_window e) <= RETAINED_COMMITMENT_BLOCKS;
}.

Section Engine.
Context `{HS : Hashes} `{CT : CarryoverTable} `{CO : !CarryoverTableOk}.

(** What a draw over the blocks [window] decides above [tip]. *)
Definition drawn (chain : SnapshotChain.t) (tip : SortitionSnapshot) (window : list CommitmentWindowBlock) (block : BitcoinBlock)
  (d : SortitionEngine.Draw) : Prop :=
  exists samples st index,
    commitment_distribution window = Some (Ok samples) /\ commitment_burn_statistics window = Some (Ok st) /\
    let hash := SortitionHash.mix_bitcoin_header (sn_sortition_hash tip) (bb_hash block) in
    let seed := default (replicate 32 0%u8) (SnapshotChain.effective_winner_seed_at_or_below chain (sn_bitcoin_height tip)) in
    (if bs_block_burn st =? 0 then index = None else
     select_epoch4_winner samples (len window) hash seed (bs_block_burn st) (bs_window_median_burn st) = Some index) /\
    match index with
    | None => SortitionEngine.dr_winner d = None /\ SortitionEngine.dr_total_burn d = sn_total_burn tip
    | Some i => exists s, samples !! i = Some s /\
        if sn_total_burn tip + bs_block_burn st <=? U64_MAX
        then SortitionEngine.dr_winner d = Some (SortitionEngine.sample_winner s) /\ SortitionEngine.dr_total_burn d = sn_total_burn tip + bs_block_burn st
        else SortitionEngine.dr_winner d = None /\ SortitionEngine.dr_total_burn d = sn_total_burn tip
    end.

Lemma draw_spec chain tip retained block window_len : SnapshotChain.tip chain = Some tip -> retained <> [] -> window_ok retained ->
  len retained <= RETAINED_COMMITMENT_BLOCKS ->
  exists r, SortitionEngine.draw chain retained block window_len = Some r /\
    match r with Ok d => drawn chain tip (sampled retained window_len) block d | Err e => e = BurnOverflow end.
Proof.
  intros Htip Hne Hok Hlen. destruct (last_nonempty _ Hne) as [latest Hl]. rewrite <- (sampled_last _ window_len) in Hl.
  apply (sampled_ok _ window_len) in Hok. pose proof (sampled_length retained window_len Hne) as Hsl. unfold SortitionEngine.draw. fold (sampled retained window_len).
  set (window := sampled retained window_len) in *. unfold RETAINED_COMMITMENT_BLOCKS, MINING_COMMITMENT_WINDOW in Hlen.
  assert (Hwl : len window <= U8_MAX) by (unfold U8_MAX; lia).
  destruct (statistics_total _ _ Hl Hok) as (rs & Hst & Hrs). rewrite Hst. cbn [mbind option_bind]. destruct rs as [st|err]; [|by eexists].
  destruct Hrs as (Hm & Hb & _). destruct (distribution_result _ _ Hl Hwl Hok) as (chains & raw & _ & _ & _ & _ & Hd). rewrite Hd. cbn [mbind option_bind]. cbn zeta in *.
  destruct (U64_MAX <? _); [by eexists|]. set (samples := with_ranges _ _ _) in *. rewrite Htip. cbn [mbind option_bind].
  unfold SnapshotChain.effective_winner_seed. rewrite Htip. cbn [mbind option_bind]. set (hash := SortitionHash.mix_bitcoin_header _ _). set (seed := default _ _).
  destruct (epoch4_winner_result samples (len window) hash seed (bs_block_burn st) (bs_window_median_burn st) Hb Hm) as (o & Ho & Hspec).
  assert (Hindex : exists index, (if negb (bs_block_burn st =? 0) then
      select_epoch4_winner samples (len window) hash seed (bs_block_burn st) (bs_window_median_burn st) else Some None) = Some index /\
      (if bs_block_burn st =? 0 then index = None else
       select_epoch4_winner samples (len window) hash seed (bs_block_burn st) (bs_window_median_burn st) = Some index) /\
      forall i, index = Some i -> is_Some (samples !! i)).
  { destruct (bs_block_burn st =? 0); cbn [negb]; [by exists None|]. exists o. split; [done|]. split; [done|].
    intros i (_ & (s & Hs & _) & _)%Hspec. by exists s. }
  destruct Hindex as (index & -> & Hi & Hsome). cbn [mbind option_bind].
  unfold mining_competition. rewrite (proj2 (try_from_Some U8_MAX _ _)) by (split; [reflexivity|done]).
  destruct index as [i|]; cbn [mbind option_bind fmap option_fmap option_map].
  - destruct (Hsome i eq_refl) as [s Hs]. rewrite Hs. cbn [mbind option_bind fmap option_fmap option_map]. eexists. split; [reflexivity|].
    exists samples, st, (Some i). split; [exact Hd|]. split; [exact Hst|]. cbn zeta. split; [exact Hi|]. exists s. split; [done|]. unfold checked_add.
    by destruct (sn_total_burn tip + bs_block_burn st <=? U64_MAX).
  - eexists. split; [reflexivity|]. by exists samples, st, None.
Qed.

Lemma append_err c block txids burn pox winner error c' :
  SnapshotChain.append_with_operations c block txids burn pox winner = Some (Err error, c') ->
  c' = c /\ (error = HeightOverflow \/ exists expected actual, error = UnexpectedHeight expected actual).
Proof.
  unfold SnapshotChain.append_with_operations. destruct (SnapshotChain.tip c) as [parent|]; [|done]. cbn [mbind option_bind].
  destruct (checked_add _ _ _); [|intros [= <- <-]; by eauto]. destruct (negb _); [intros [= <- <-]; by eauto|].
  destruct (SnapshotChain.previous_consensus_hashes c); [|done]. cbn [mbind option_bind]. destruct (SnapshotChain.forget _ _ _) as [held heights].
  destruct (SnapshotChain.tip _); [|done]. by cbn [mbind option_bind].
Qed.

Lemma append_ok c s block txids burn pox winner x c' : simulates c s ->
  SnapshotChain.append_with_operations c block txids burn pox winner = Some (Ok x, c') ->
  exists parent, SnapshotChain.tip c = Some parent /\ SnapshotChain.tip c' = Some x /\ bb_height block = sn_bitcoin_height parent + 1 /\
    x = SnapshotChain.next_snapshot parent (ArchiveChain.skips (SnapshotChain.consensus_hashes c)) block txids burn pox winner /\
    exists s', simulates c' s'.
Proof.
  intros Hs Happ. destruct (sim_append c s block txids burn pox winner Hs) as (r & c1 & s' & Hr & Hstep & Hs'). rewrite Happ in Hr. injection Hr as <- <-.
  inversion Hstep as [parent b t bu po wi sn Hl Hb Hm Hsn| | | | | | | | | | |]; subst. destruct Hs as (base & pre & Hs). destruct Hs' as (base' & pre' & Hs').
  destruct (sim_tip _ _ _ _ Hs) as (tip & Htip & Hl'). destruct (sim_tip _ _ _ _ Hs') as (tip' & Htip' & Hl2).
  rewrite Hl in Hl'. injection Hl' as <-. cbn [ArchiveChain.archive] in Hl2. rewrite last_snoc in Hl2. injection Hl2 as <-. exists parent.
  rewrite (sim_hashes _ _ _ _ Hs). split; [done|]. split; [done|]. split; [done|]. split; [done|]. eexists. by exists base', pre'.
Qed.

Lemma tip_map_tip f c tip : SnapshotChain.tip c = Some tip -> SnapshotChain.tip (SnapshotChain.map_tip f c) = Some (f tip).
Proof. intros Htip. unfold SnapshotChain.tip, SnapshotChain.map_tip in *. cbn. rewrite Htip. apply last_snoc. Qed.

Lemma map_tip_simulates f c : tip_edit f -> (exists s, simulates c s) -> exists s, simulates (SnapshotChain.map_tip f c) s.
Proof. intros Hf [s Hs]. destruct (sim_edit f c s Hf Hs) as (? & ? & _ & ?). by eexists. Qed.

Lemma engine_tip e : engine_ok e -> exists tip, SnapshotChain.tip (SortitionEngine.snapshots e) = Some tip.
Proof. intros [(s & base & pre & S) _ _]. destruct (sim_tip _ _ _ _ S) as (tip & ? & _). by exists tip. Qed.

Lemma retain_ok window b : window_ok window -> Forall commitment_burn_ok (wb_commitments b) -> len window <= RETAINED_COMMITMENT_BLOCKS ->
  let retained := SortitionEngine.retain window b in
  retained <> [] /\ window_ok retained /\ len retained <= RETAINED_COMMITMENT_BLOCKS.
Proof.
  intros Hok Hb Hlen. destruct (retain_spec window b) as (pre & Heq & Hl & Hr). cbn zeta. split; [by intros Hnil; rewrite Hnil in Hl|]. split; [|lia].
  assert (HF : window_ok (window ++ [b])) by (apply Forall_app; split; [done|by constructor]). rewrite Heq in HF. by apply Forall_app in HF as [_ HF].
Qed.

Lemma append_result e block txids commitments pox window_len :
  engine_ok e -> Forall commitment_burn_ok (wb_commitments commitments) ->
  let retained := SortitionEngine.retain (SortitionEngine.commitment_window e) commitments in
  exists tip r e', SnapshotChain.tip (SortitionEngine.snapshots e) = Some tip /\
    SortitionEngine.append e block txids commitments pox window_len = Some (r, e') /\ engine_ok e' /\
    match r with
    | Ok x => exists d, drawn (SortitionEngine.snapshots e) tip (sampled retained window_len) block d /\
        SortitionEngine.commitment_window e' = retained /\ SnapshotChain.tip (SortitionEngine.snapshots e') = Some x /\
        bb_height block = sn_bitcoin_height tip + 1 /\ sn_burn_spends x = SortitionEngine.spends_of retained x /\
        set_competition None (set_spends None x) = SnapshotChain.next_snapshot tip
          (ArchiveChain.skips (SnapshotChain.consensus_hashes (SortitionEngine.snapshots e))) block txids (SortitionEngine.dr_total_burn d) pox (SortitionEngine.dr_winner d)
    | Err BurnOverflow => e' = e
    | Err HeightOverflow | Err (UnexpectedHeight _ _) => e' = SortitionEngine.mk (SortitionEngine.snapshots e) retained
    | Err _ => False
    end.
Proof.
  intros He Hc retained. destruct (engine_tip e He) as [tip Htip]. pose proof He as [[s Hs] Hok Hlen]. destruct (retain_ok _ _ Hok Hc Hlen) as (Hne & Hok' & Hlen').
  fold retained in Hne, Hok', Hlen'. destruct (draw_spec _ tip retained block window_len Htip Hne Hok' Hlen') as (rd & Hd & Hrd).
  unfold SortitionEngine.append. fold retained. rewrite Hd. cbn [mbind option_bind]. exists tip. destruct rd as [d|err]; [|subst err; exists (Err BurnOverflow), e; done].
  destruct (sim_append _ s block txids (SortitionEngine.dr_total_burn d) pox (SortitionEngine.dr_winner d) Hs) as (r & c' & s' & Hr & _ & Hs'). rewrite Hr.
  cbn [mbind option_bind]. destruct r as [x|err].
  - destruct (append_ok _ _ _ _ _ _ _ _ _ Hs Hr) as (parent & Htip' & Hx & Hh & Heq & _). rewrite Htip in Htip'. injection Htip' as <-.
    unfold SortitionEngine.spends_at_tip. cbn [SortitionEngine.snapshots]. rewrite Hx. cbn [mbind option_bind].
    unfold SnapshotChain.record_tip_mining_competition, SnapshotChain.record_tip_burn_spends. erewrite tip_map_tip by (by apply tip_map_tip). cbn [mbind option_bind].
    eexists _, _. split; [done|]. split; [done|]. split.
    { split; cbn; [|done|done]. apply map_tip_simulates; [done|]. apply map_tip_simulates; [done|]. by exists s'. }
    exists d. split; [done|]. split; [done|]. split; [cbn [SortitionEngine.snapshots]; erewrite tip_map_tip by (by apply tip_map_tip); done|]. split; [done|]. split; [done|]. by subst x.
  - destruct (append_err _ _ _ _ _ _ _ _ Hr) as [-> Herr]. eexists _, _. split; [done|]. split; [done|]. split; [by split; cbn; [exists s| |]|].
    by destruct Herr as [->|(a & b & ->)].
Qed.

(** C21: SortitionEngine::append on a consistent engine never panics and leaves it
    consistent. A success is the snapshot of the draw over the sampled window: its
    winner, its burn total and its spends; a burn overflow changes nothing; a block at
    the wrong height is refused, keeps the chain, and leaves its commitments in the
    window. *)
Theorem engine_append_spec (e : SortitionEngine.t) (block : BitcoinBlock) (txids : list (list byte)) (commitments : CommitmentWindowBlock)
  (pox : PoxId.t) (window_len : Z) (He : engine_ok e) (Hc : Forall commitment_burn_ok (wb_commitments commitments)) :
  let retained := SortitionEngine.retain (SortitionEngine.commitment_window e) commitments in
  exists tip r e', SnapshotChain.tip (SortitionEngine.snapshots e) = Some tip /\
    SortitionEngine.append e block txids commitments pox window_len = Some (r, e') /\ engine_ok e' /\
    match r with
    | Ok x => exists d, drawn (SortitionEngine.snapshots e) tip (sampled retained window_len) block d /\
        SortitionEngine.commitment_window e' = retained /\ SnapshotChain.tip (SortitionEngine.snapshots e') = Some x /\
        bb_height block = sn_bitcoin_height tip + 1 /\ sn_burn_spends x = SortitionEngine.spends_of retained x /\
        set_competition None (set_spends None x) = SnapshotChain.next_snapshot tip
          (ArchiveChain.skips (SnapshotChain.consensus_hashes (SortitionEngine.snapshots e))) block txids (SortitionEngine.dr_total_burn d) pox (SortitionEngine.dr_winner d)
    | Err BurnOverflow => e' = e
    | Err HeightOverflow | Err (UnexpectedHeight _ _) => e' = SortitionEngine.mk (SortitionEngine.snapshots e) retained
    | Err _ => False
    end.
Proof. by apply append_result. Qed.

(** ** Retraction *)

Lemma window_take k window : window_ok window -> window_ok (take k window).
Proof. apply Forall_take. Qed.

Lemma retract_err c height error c' : SnapshotChain.retract_above c height = Some (Err error, c') -> c' = c.
Proof.
  unfold SnapshotChain.retract_above. destruct (SnapshotChain.root c); [|done]. cbn [mbind option_bind]. destruct (checked_sub _ _); [|by intros [= _ <-]].
  destruct (SnapshotChain.tip _); [|done]. by cbn [mbind option_bind].
Qed.

Lemma retract_result e height : engine_ok e -> exists r e', SortitionEngine.retract_above e height = Some (r, e') /\ engine_ok e' /\
  match r with
  | Ok reorg => SnapshotChain.snapshots (SortitionEngine.snapshots e) = SnapshotChain.snapshots (SortitionEngine.snapshots e') ++ ro_retracted reorg /\
      reorg_depth reorg <= MINING_COMMITMENT_WINDOW /\
      SortitionEngine.commitment_window e' = take (length (SortitionEngine.commitment_window e) - length (ro_retracted reorg)) (SortitionEngine.commitment_window e)
  | Err _ => e' = e
  end.
Proof.
  intros He. destruct (engine_tip e He) as [tip Htip]. pose proof He as [(s & Hs) Hok Hlen]. unfold SortitionEngine.retract_above. rewrite Htip. cbn [mbind option_bind].
  destruct (Z.ltb_spec MINING_COMMITMENT_WINDOW (default USIZE_MAX (try_from USIZE_MAX (saturating_sub (sn_bitcoin_height tip) height)))) as [Hdeep|Hdepth]; [by eexists _, e|].
  destruct (sim_retract _ s height Hs) as (r & c' & s' & Hr & Hstep & Hs'). rewrite Hr. cbn [mbind option_bind]. destruct r as [reorg|err].
  - eexists _, _. split; [done|]. split; [split; cbn; [by exists s'|by apply window_take|rewrite length_take; lia]|].
    destruct Hs as (base & pre & S). destruct (sim_root _ _ _ _ S) as (root & Hroot & _ & Hrh). pose proof (sim_length _ _ _ _ S) as Hl.
    pose proof (heights_last _ _ _ (sim_window _ _ _ _ S) Htip) as Hth.
    assert (Hge : sn_bitcoin_height root <= height).
    { destruct (Z.le_gt_cases (sn_bitcoin_height root) height) as [|Hlt]; [done|]. unfold SnapshotChain.retract_above, checked_sub in Hr.
      rewrite Hroot in Hr. cbn [mbind option_bind] in Hr. by rewrite (proj2 (Z.leb_gt _ _)) in Hr by lia. }
    rewrite (retract_above_eq _ root) in Hr by done. set (w := SnapshotChain.snapshots (SortitionEngine.snapshots e)) in *. set (k := Nat.min _ _) in Hr.
    destruct (SnapshotChain.tip (SnapshotChain.mk _ _ _ _)); [|done]. cbn [mbind option_bind] in Hr. injection Hr as <- <-.
    cbn [SortitionEngine.snapshots SnapshotChain.snapshots ro_retracted SortitionEngine.commitment_window reorg_depth]. rewrite take_drop. split; [done|].
    unfold reorg_depth, saturating_sub, try_from in *. cbn [ro_retracted]. rewrite length_drop. unfold MINING_COMMITMENT_WINDOW in *.
    split; [|f_equal; lia]. assert (Hd : Z.max 0 (sn_bitcoin_height tip - height) <= 6).
    { destruct (Z.leb_spec (Z.max 0 (sn_bitcoin_height tip - height)) USIZE_MAX); [exact Hdepth|by exfalso; apply Hdepth]. }
    lia.
  - eexists _, _. split; [done|]. apply retract_err in Hr as ->. by destruct e.
Qed.

(** A retraction never panics; a refused one changes nothing, and an accepted one
    drops at most six snapshots and as many entries of the window. *)
Theorem engine_retract_spec (e : SortitionEngine.t) (height : Z) (He : engine_ok e) :
  exists r e', SortitionEngine.retract_above e height = Some (r, e') /\ engine_ok e' /\
  match r with
  | Ok reorg => SnapshotChain.snapshots (SortitionEngine.snapshots e) = SnapshotChain.snapshots (SortitionEngine.snapshots e') ++ ro_retracted reorg /\
      reorg_depth reorg <= MINING_COMMITMENT_WINDOW /\
      SortitionEngine.commitment_window e' = take (length (SortitionEngine.commitment_window e) - length (ro_retracted reorg)) (SortitionEngine.commitment_window e)
  | Err _ => e' = e
  end.
Proof. by apply retract_result. Qed.

(** ** Runs of the engine *)

Inductive engine_op : Type :=
| EngineAppend (block : BitcoinBlock) (txids : list (list byte)) (commitments : CommitmentWindowBlock) (pox : PoxId.t) (window_len : Z)
| EngineRetract (height : Z)
| EnginePrime (height : Z) (commitments : CommitmentWindowBlock)
| EngineAdoptSeed (seed : list byte)
| EngineAdoptKey (key : list byte).

Definition engine_op_ok (op : engine_op) : Prop :=
  match op with
  | EngineAppend _ _ commitments _ _ | EnginePrime _ commitments => Forall commitment_burn_ok (wb_commitments commitments)
  | _ => True
  end.

Definition perform_engine (e : SortitionEngine.t) (op : engine_op) : option SortitionEngine.t :=
  match op with
  | EngineAppend block txids commitments pox window_len => snd <$> SortitionEngine.append e block txids commitments pox window_len
  | EngineRetract height => snd <$> SortitionEngine.retract_above e height
  | EnginePrime height commitments => SortitionEngine.prime e height commitments
  | EngineAdoptSeed seed => Some (SortitionEngine.adopt_root_winner_seed e seed).2
  | EngineAdoptKey key => Some (SortitionEngine.adopt_root_winner_vrf_public_key e key).2
  end.

Fixpoint run_engine (e : SortitionEngine.t) (ops : list engine_op) : option SortitionEngine.t :=
  match ops with [] => Some e | op :: ops => e ← perform_engine e op; run_engine e ops end.

Lemma adopt_ok e f : engine_ok e -> tip_edit f ->
  engine_ok (SortitionEngine.mk (match SnapshotChain.snapshots (SortitionEngine.snapshots e) with
    | [_] => SnapshotChain.map_tip f (SortitionEngine.snapshots e) | _ => SortitionEngine.snapshots e end) (SortitionEngine.commitment_window e)).
Proof.
  intros [Hs Hok Hlen] Hf. pose proof (map_tip_simulates f _ Hf Hs) as Hm. split; cbn [SortitionEngine.snapshots SortitionEngine.commitment_window]; [|done|done].
  by destruct (SnapshotChain.snapshots _) as [|x [|y l]].
Qed.

Lemma perform_engine_ok e op : engine_ok e -> engine_op_ok op -> exists e', perform_engine e op = Some e' /\ engine_ok e'.
Proof.
  intros He Hop. destruct op as [block txids commitments pox wl|height|height commitments|seed|key]; cbn [perform_engine].
  - destruct (append_result e block txids commitments pox wl He Hop) as (tip & r & e' & _ & -> & He' & _). by exists e'.
  - destruct (retract_result e height He) as (r & e' & -> & He' & _). by exists e'.
  - destruct (engine_tip e He) as [tip Htip]. pose proof He as [Hs Hok Hlen]. destruct (retain_ok _ _ Hok Hop Hlen) as (_ & Hok' & Hlen').
    unfold SortitionEngine.prime, SortitionEngine.spends_at_tip. cbn [SortitionEngine.snapshots SortitionEngine.commitment_window]. rewrite Htip. cbn [mbind option_bind].
    destruct (height =? sn_bitcoin_height tip); eexists; (split; [done|]); split; cbn; try done. by apply map_tip_simulates.
  - eexists. split; [done|]. pose proof (adopt_ok e (set_seed seed) He (edit_seed _)) as Ha. unfold SortitionEngine.adopt_root_winner_seed, SnapshotChain.adopt_root_winner_seed, SnapshotChain.map_tip in *.
    by destruct (SnapshotChain.snapshots _) as [|x [|y l]].
  - eexists. split; [done|]. pose proof (adopt_ok e (set_vrf_key key) He (edit_key _)) as Ha. unfold SortitionEngine.adopt_root_winner_vrf_public_key, SnapshotChain.adopt_root_winner_vrf_public_key, SnapshotChain.map_tip in *.
    by destruct (SnapshotChain.snapshots _) as [|x [|y l]].
Qed.

Lemma run_engine_ok e ops : engine_ok e -> Forall engine_op_ok ops -> exists e', run_engine e ops = Some e' /\ engine_ok e'.
Proof.
  intros He HF. revert e He. induction HF as [|op ops Hop _ IH]; intros e He; [by exists e|]. cbn [run_engine].
  destruct (perform_engine_ok e op He Hop) as (e1 & -> & He1). cbn [mbind option_bind]. by apply IH.
Qed.

Lemma engine_start_ok genesis history e : SortitionEngine.with_history genesis history = Some e -> 1 <= sn_bitcoin_height genesis <= U64_MAX -> engine_ok e.
Proof.
  unfold SortitionEngine.with_history. destruct (SnapshotChain.with_history genesis history) as [c|] eqn:Hc; [|done]. cbn [mbind option_bind]. intros [= <-] Hg.
  split; cbn; [|constructor|done]. exists (start_archive genesis history []).
  assert (Hst : start_chain genesis history [] = Some c) by (unfold start_chain; rewrite Hc; unfold SnapshotChain.with_history in Hc; case_decide; [|done]; by injection Hc as <-).
  by apply start_simulates.
Qed.

(** C24: Every sequence of appends, retractions, primings and adoptions on an engine
    started at a checkpoint, whose commitments burn a positive number of satoshis,
    runs without a panic and leaves an engine with a chain contiguous in height, at
    most twelve window blocks, and weighable commitments. *)
Theorem engine_never_panics (genesis : SortitionSnapshot) (history : list ConsensusHash) (e : SortitionEngine.t) (ops : list engine_op)
  (Hstart : SortitionEngine.with_history genesis history = Some e) (Hroot : 1 <= sn_bitcoin_height genesis <= U64_MAX)
  (Hops : Forall engine_op_ok ops) :
  exists e', run_engine e ops = Some e' /\ engine_ok e'.
Proof. apply run_engine_ok; [by eapply engine_start_ok|done]. Qed.

(** ** What a retraction leaves to draw with *)

(** Retracting [k] blocks of a window that holds more. *)
Lemma retract_exact e tip k : engine_ok e -> SnapshotChain.tip (SortitionEngine.snapshots e) = Some tip -> 0 <= k <= MINING_COMMITMENT_WINDOW ->
  k < len (SnapshotChain.snapshots (SortitionEngine.snapshots e)) ->
  exists reorg e' tip', SortitionEngine.retract_above e (sn_bitcoin_height tip - k) = Some (Ok reorg, e') /\ engine_ok e' /\
    SnapshotChain.tip (SortitionEngine.snapshots e') = Some tip' /\ sn_bitcoin_height tip' = sn_bitcoin_height tip - k /\
    SnapshotChain.snapshots (SortitionEngine.snapshots e') = take (length (SnapshotChain.snapshots (SortitionEngine.snapshots e)) - Z.to_nat k) (SnapshotChain.snapshots (SortitionEngine.snapshots e)) /\
    SortitionEngine.commitment_window e' = take (length (SortitionEngine.commitment_window e) - Z.to_nat k) (SortitionEngine.commitment_window e).
Proof.
  intros He Htip Hk Hlen. destruct (retract_result e (sn_bitcoin_height tip - k) He) as (r & e' & Hr & He' & Hres). pose proof He as [(s & base & pre & S) _ _].
  destruct (sim_root _ _ _ _ S) as (root & Hroot & _ & Hrh). pose proof (heights_last _ _ _ (sim_window _ _ _ _ S) Htip) as Hth. pose proof (sim_length _ _ _ _ S) as Hl.
  unfold MINING_COMMITMENT_WINDOW in Hk. pose proof Hr as Hr'. unfold SortitionEngine.retract_above in Hr'. rewrite Htip in Hr'. cbn [mbind option_bind] in Hr'.
  replace (saturating_sub _ _) with k in Hr' by (unfold saturating_sub; lia). rewrite (proj2 (try_from_Some USIZE_MAX k k)) in Hr' by (split; [done|]; unfold USIZE_MAX, U64_MAX; lia).
  change (default USIZE_MAX (Some k)) with k in Hr'. rewrite (proj2 (Z.ltb_ge _ _)) in Hr' by (unfold MINING_COMMITMENT_WINDOW; lia).
  rewrite (retract_above_eq _ root) in Hr' by (done || lia). set (w := SnapshotChain.snapshots (SortitionEngine.snapshots e)) in *.
  replace (Nat.min _ _) with (length w - Z.to_nat k)%nat in Hr' by lia. destruct (SnapshotChain.tip (SnapshotChain.mk _ _ _ _)) as [tip'|] eqn:Ht'; [|done].
  cbn [mbind option_bind] in Hr'. injection Hr' as <- Heq. destruct Hres as (Hsp & Hdp & Hcw). cbn [ro_retracted] in *.
  assert (Hsn : SnapshotChain.snapshots (SortitionEngine.snapshots e') = take (length w - Z.to_nat k) w) by (by rewrite <- Heq).
  exists (mkReorg tip' (drop (length w - Z.to_nat k) w)), e', tip'. split; [done|]. split; [done|].
  assert (Htip' : SnapshotChain.tip (SortitionEngine.snapshots e') = Some tip') by (rewrite <- Heq; exact Ht'). split; [done|]. split; [|split; [done|]].
  - pose proof (sim_window _ _ _ _ S) as Hw. fold w in Hw. rewrite <- (take_drop (length w - Z.to_nat k) w) in Hw. apply heights_app in Hw as [Hw _].
    unfold SnapshotChain.tip in Htip'. rewrite Hsn in Htip'. rewrite (heights_last _ _ _ Hw Htip'), length_take. lia.
  - rewrite Hcw, length_drop. do 2 f_equal. lia.
Qed.

(** Two retractions of six blocks in a row are both allowed by the limit of six
    blocks and leave the commitment window empty, so the next draws sample too few
    blocks. *)
Theorem retractions_drain_window (e : SortitionEngine.t) (tip : SortitionSnapshot) (He : engine_ok e)
  (Htip : SnapshotChain.tip (SortitionEngine.snapshots e) = Some tip) (Hwin : len (SortitionEngine.commitment_window e) = RETAINED_COMMITMENT_BLOCKS)
  (Hlen : RETAINED_COMMITMENT_BLOCKS < len (SnapshotChain.snapshots (SortitionEngine.snapshots e))) :
  exists r1 e1 r2 e2,
    SortitionEngine.retract_above e (sn_bitcoin_height tip - MINING_COMMITMENT_WINDOW) = Some (Ok r1, e1) /\
    SortitionEngine.retract_above e1 (sn_bitcoin_height tip - RETAINED_COMMITMENT_BLOCKS) = Some (Ok r2, e2) /\
    SortitionEngine.commitment_window e2 = [].
Proof.
  unfold RETAINED_COMMITMENT_BLOCKS, MINING_COMMITMENT_WINDOW in *.
  destruct (retract_exact e tip 6 He Htip) as (r1 & e1 & tip1 & Hr1 & He1 & Ht1 & Hh1 & Hs1 & Hc1); [by vm_compute|lia|].
  destruct (retract_exact e1 tip1 6 He1 Ht1) as (r2 & e2 & tip2 & Hr2 & _ & _ & _ & _ & Hc2); [by vm_compute|rewrite Hs1, length_take; lia|].
  exists r1, e1, r2, e2. split; [done|]. split; [rewrite <- Hr2; f_equal; lia|]. rewrite Hc2, Hc1, length_take. apply length_zero_iff_nil. rewrite !length_take. lia.
Qed.

(** ** Undoing an append *)

Lemma append_unpruned c block txids burn pox winner x c' : len (SnapshotChain.snapshots c) < SNAPSHOTS_KEPT ->
  SnapshotChain.append_with_operations c block txids burn pox winner = Some (Ok x, c') ->
  c' = SnapshotChain.mk (SnapshotChain.snapshots c ++ [x]) (SnapshotChain.consensus_hashes c ++ [sn_consensus_hash x])
    (SnapshotChain.sortitions_below_window c) (SnapshotChain.needed_from c).
Proof.
  intros Hlen. unfold SnapshotChain.append_with_operations. destruct (SnapshotChain.tip c) as [parent|]; [|done]. cbn [mbind option_bind].
  destruct (checked_add _ _ _); [|done]. destruct (negb _); [done|]. destruct (SnapshotChain.previous_consensus_hashes c) as [prev|]; [|done].
  cbn [mbind option_bind]. set (y := SnapshotChain.next_snapshot _ _ _ _ _ _ _). pose proof (snapshots_to_keep_ge (SnapshotChain.needed_from c) (sn_bitcoin_height y)) as Hkeep.
  rewrite forget_window_spec by (unfold SNAPSHOTS_KEPT in *; lia). replace (Z.to_nat _) with 0%nat by (rewrite length_app; cbn [length]; lia).
  unfold SnapshotChain.tip. cbn [SnapshotChain.snapshots drop take omap list_omap fold_left]. rewrite drop_0, last_snoc. cbn [mbind option_bind]. by intros [= <- <-].
Qed.

Lemma engine_append_unpruned e block txids commitments pox window_len x e1 :
  len (SnapshotChain.snapshots (SortitionEngine.snapshots e)) < SNAPSHOTS_KEPT ->
  SortitionEngine.append e block txids commitments pox window_len = Some (Ok x, e1) ->
  SortitionEngine.snapshots e1 = SnapshotChain.mk (SnapshotChain.snapshots (SortitionEngine.snapshots e) ++ [x])
    (SnapshotChain.consensus_hashes (SortitionEngine.snapshots e) ++ [sn_consensus_hash x])
    (SnapshotChain.sortitions_below_window (SortitionEngine.snapshots e)) (SnapshotChain.needed_from (SortitionEngine.snapshots e)).
Proof.
  intros Hlen Happ. unfold SortitionEngine.append in Happ. destruct (SortitionEngine.draw _ _ _ _) as [[d'|]|]; [|done..]. cbn [mbind option_bind] in Happ.
  destruct (SnapshotChain.append_with_operations _ _ _ _ _ _) as [[[y|] c']|] eqn:Hop; [|done..]. apply append_unpruned in Hop as ->; [|done]. cbn [mbind option_bind] in Happ.
  destruct (SortitionEngine.spends_at_tip _) as [sp|]; [|done]. cbn [mbind option_bind] in Happ.
  unfold SnapshotChain.tip, SnapshotChain.record_tip_mining_competition, SnapshotChain.record_tip_burn_spends, SnapshotChain.map_tip in Happ.
  cbn [SortitionEngine.snapshots SnapshotChain.snapshots SnapshotChain.consensus_hashes SnapshotChain.sortitions_below_window SnapshotChain.needed_from] in Happ.
  repeat first [rewrite last_snoc in Happ|rewrite removelast_last in Happ]. cbn [mbind option_bind] in Happ. by injection Happ as <- <-.
Qed.

(** Retracting to the height of the tip a block was appended to gives back the
    very engine there was before, and reports that tip and the appended snapshot,
    while nothing was forgotten. *)
Theorem append_retract_roundtrip (e e1 : SortitionEngine.t) (tip x : SortitionSnapshot) (block : BitcoinBlock) (txids : list (list byte))
  (commitments : CommitmentWindowBlock) (pox : PoxId.t) (window_len : Z) (He : engine_ok e)
  (Hc : Forall commitment_burn_ok (wb_commitments commitments)) (Htip : SnapshotChain.tip (SortitionEngine.snapshots e) = Some tip)
  (Hwin : len (SortitionEngine.commitment_window e) < RETAINED_COMMITMENT_BLOCKS)
  (Hlen : len (SnapshotChain.snapshots (SortitionEngine.snapshots e)) < SNAPSHOTS_KEPT)
  (Happ : SortitionEngine.append e block txids commitments pox window_len = Some (Ok x, e1)) :
  SortitionEngine.retract_above e1 (sn_bitcoin_height tip) = Some (Ok (mkReorg tip [x]), e).
Proof.
  destruct (append_result e block txids commitments pox window_len He Hc) as (tip' & r & e' & Htip' & Ha & He1 & Hr). rewrite Happ in Ha. injection Ha as <- <-.
  rewrite Htip in Htip'. injection Htip' as <-. destruct Hr as (d & Hd & Hcw & Hx & Hbh & _ & Hxe). pose proof He as [(s & Hs) _ _].
  pose proof (engine_append_unpruned _ _ _ _ _ _ _ _ Hlen Happ) as Hch.
  destruct Hs as (base & pre & S). destruct (sim_root _ _ _ _ S) as (root & Hroot & _ & Hrh). pose proof (heights_last _ _ _ (sim_window _ _ _ _ S) Htip) as Hth.
  pose proof (sim_length _ _ _ _ S) as Hl. unfold SortitionEngine.retract_above. rewrite Hx. cbn [mbind option_bind].
  assert (Hxh : sn_bitcoin_height x = sn_bitcoin_height tip + 1) by (apply (f_equal sn_bitcoin_height) in Hxe; cbn in Hxe; lia).
  replace (saturating_sub _ _) with 1 by (unfold saturating_sub; lia). change (MINING_COMMITMENT_WINDOW <? default USIZE_MAX (try_from USIZE_MAX 1)) with false.
  assert (Hroot1 : SnapshotChain.root (SortitionEngine.snapshots e1) = Some root).
  { rewrite Hch. unfold SnapshotChain.root in *. cbn [SnapshotChain.snapshots]. by destruct (SnapshotChain.snapshots (SortitionEngine.snapshots e)). }
  rewrite (retract_above_eq _ root _ Hroot1) by (rewrite ?Hch; cbn [SnapshotChain.snapshots]; rewrite ?length_app; cbn [length]; unfold SNAPSHOTS_KEPT, USIZE_MAX, U64_MAX in *; lia).
  rewrite Hch. cbn [SnapshotChain.snapshots SnapshotChain.consensus_hashes SnapshotChain.sortitions_below_window SnapshotChain.needed_from].
  set (w := SnapshotChain.snapshots (SortitionEngine.snapshots e)) in *. set (hs := SnapshotChain.consensus_hashes (SortitionEngine.snapshots e)) in *.
  replace (Nat.min _ _) with (length w) by (rewrite length_app; cbn [length]; lia). rewrite take_app_length, drop_app_length.
  replace (length (hs ++ _) - _)%nat with (length hs) by (rewrite !length_app; cbn [length]; lia). rewrite take_app_length.
  replace (SnapshotChain.mk w hs _ _) with (SortitionEngine.snapshots e) by (unfold w, hs; by destruct (SortitionEngine.snapshots e)).
  rewrite Htip. cbn [mbind option_bind]. rewrite Hcw. destruct (retain_spec (SortitionEngine.commitment_window e) commitments) as (pr & Hpr & _ & Hrl).
  unfold SortitionEngine.retain, reorg_depth. cbn zeta. rewrite (proj2 (Z.ltb_ge _ _)) by (rewrite length_app; cbn [length]; lia). cbn [ro_retracted length].
  replace (Z.to_nat _) with (length (SortitionEngine.commitment_window e)) by (rewrite length_app; unfold saturating_sub; cbn [length]; lia).
  rewrite take_app_length. by destruct e.
Qed.

End Engine.

(** * What a consensus hash commits to

    Each consensus hash mixes the ones at power-of-two distances behind it, so
    the hash of a chain's tip fixes every Bitcoin header, every set of accepted
    operations, every burn total and every PoX history since the common root. *)

Record ChainInput : Type := mkChainInput {
  ci_block : BitcoinBlock;
  ci_txids : list (list byte);
  ci_total_burn : Z;
  ci_pox_id : PoxId.t;
  ci_winner : option SortitionWinner;
}.

Definition chain_input_ok (i : ChainInput) : Prop := length (bb_hash (ci_block i)) = 32%nat /\ is_u64 (ci_total_burn i).

Lemma pox_bytes_inj p q : PoxId.as_consensus_bytes p = PoxId.as_consensus_bytes q -> p = q.
Proof.
  revert q. induction p as [|a p IH]; intros [|b q] H; try done. cbn in H. injection H as Hab Hpq. f_equal; [by destruct a, b|by apply IH].
Qed.

Lemma concat_inj {A} n (l1 l2 : list (list A)) : Forall (fun x => length x = n) l1 -> Forall (fun x => length x = n) l2 -> length l1 = length l2 ->
  concat l1 = concat l2 -> l1 = l2.
Proof.
  intros H1. revert l2. induction H1 as [|x l1 Hx _ IH]; intros [|y l2] H2 Hlen Heq; try done. apply Forall_cons_1 in H2 as [Hy H2]. cbn in *.
  apply app_inj_1 in Heq as [-> Heq]; [|lia]. f_equal. apply IH; [done|lia|done].
Qed.

Lemma omap_head {A B} (f : A -> option B) x l y : f x = Some y -> head (omap f (x :: l)) = Some y.
Proof. intros Hf. cbn [omap list_omap]. by rewrite Hf. Qed.

Section Commitment.
Context `{HS : Hashes} `{HO : !HashesOk}.

(** Appending one input after another; [Err] is the first refusal. *)
Fixpoint append_all (c : SnapshotChain.t) (inputs : list ChainInput) : option (result SortitionError SnapshotChain.t) :=
  match inputs with
  | [] => Some (Ok c)
  | i :: inputs =>
      '(r, c) ← SnapshotChain.append_with_operations c (ci_block i) (ci_txids i) (ci_total_burn i) (ci_pox_id i) (ci_winner i);
      match r with Ok _ => append_all c inputs | Err e => Some (Err e) end
  end.

(** The bytes the next consensus hash digests. *)
Definition next_bytes (hashes : list ConsensusHash) (i : ChainInput) : list byte :=
  consensus_bytes (bb_hash (ci_block i)) (ops_hash (ci_txids i)) (ci_total_burn i) (ArchiveChain.skips hashes) (ci_pox_id i).

Definition chain_hashes (hashes : list ConsensusHash) (inputs : list ChainInput) : list ConsensusHash :=
  fold_left (fun hs i => hs ++ [hash160 (next_bytes hs i)]) inputs hashes.

(** All the bytes digested. *)
Fixpoint digested (hashes : list ConsensusHash) (inputs : list ChainInput) : list (list byte) :=
  match inputs with
  | [] => []
  | i :: inputs => next_bytes hashes i :: digested (hashes ++ [hash160 (next_bytes hashes i)]) inputs
  end.

Lemma chain_hashes_snoc hs l i : chain_hashes hs (l ++ [i]) = chain_hashes hs l ++ [hash160 (next_bytes (chain_hashes hs l) i)].
Proof. unfold chain_hashes. by rewrite fold_left_app. Qed.

Lemma digested_snoc hs l i : digested hs (l ++ [i]) = digested hs l ++ [next_bytes (chain_hashes hs l) i].
Proof. revert hs. induction l as [|j l IH]; intros hs; [done|]. cbn [app digested]. rewrite IH. done. Qed.

Lemma chain_hashes_length hs l : length (chain_hashes hs l) = (length hs + length l)%nat.
Proof. induction l as [|i l IH] using rev_ind; [cbn; lia|]. rewrite chain_hashes_snoc, !length_app, IH. cbn. lia. Qed.

Lemma chain_hashes_width hs l : Forall (fun h => length h = 20%nat) hs -> Forall (fun h => length h = 20%nat) (chain_hashes hs l).
Proof.
  intros HF. induction l as [|i l IH] using rev_ind; [done|]. rewrite chain_hashes_snoc. apply Forall_app. split; [done|].
  constructor; [|constructor]. apply hash160_length.
Qed.

Lemma append_all_hashes c s inputs c' : simulates c s -> append_all c inputs = Some (Ok c') ->
  SnapshotChain.consensus_hashes c' = chain_hashes (SnapshotChain.consensus_hashes c) inputs.
Proof.
  revert c s. induction inputs as [|i inputs IH]; intros c s Hs Ha; cbn [append_all] in Ha; [by injection Ha as <-|].
  destruct (SnapshotChain.append_with_operations _ _ _ _ _ _) as [[[x|] c1]|] eqn:Happ; [|done..]. cbn [mbind option_bind] in Ha.
  destruct (append_ok _ _ _ _ _ _ _ _ _ Hs Happ) as (parent & Htip & _ & _ & Hx & s1 & Hs1). rewrite (IH c1 s1 Hs1 Ha). cbn [chain_hashes fold_left]. f_equal.
  unfold SnapshotChain.append_with_operations in Happ. rewrite Htip in Happ. cbn [mbind option_bind] in Happ.
  destruct (checked_add _ _ _); [|done]. destruct (negb _); [done|]. destruct (SnapshotChain.previous_consensus_hashes c) as [prev|] eqn:Hprev; [|done].
  destruct Hs as (base & pre & S). rewrite previous_hashes_spec in Hprev.
  2:{ rewrite (sim_hashes _ _ _ _ S), <- length_zero_iff_nil. unfold ArchiveChain.hashes. rewrite length_app, length_map, (sim_archive _ _ _ _ S), length_app.
      pose proof (sim_length _ _ _ _ S). lia. }
  injection Hprev as <-. cbn [mbind option_bind] in Happ. destruct (SnapshotChain.forget _ _ _) as [held heights].
  destruct (SnapshotChain.tip _); [|done]. cbn [mbind option_bind] in Happ. by injection Happ as _ <-.
Qed.

Lemma skips_length hs1 hs2 : length hs1 = length hs2 -> length (ArchiveChain.skips hs1) = length (ArchiveChain.skips hs2).
Proof.
  intros Hl. unfold ArchiveChain.skips. induction (seq 0 64) as [|k l IH]; [done|]. cbn [omap list_omap].
  destruct (Z.lt_ge_cases (2 ^ Z.of_nat k - 1) (len hs1)) as [Hlt|Hge].
  - assert (0 < 2 ^ Z.of_nat k) by (apply Z.pow_pos_nonneg; lia).
    destruct (index_Some_lt (rev hs1) (2 ^ Z.of_nat k - 1)) as [x ->]; [rewrite length_rev; lia|].
    destruct (index_Some_lt (rev hs2) (2 ^ Z.of_nat k - 1)) as [y ->]; [rewrite length_rev; lia|]. cbn [length]. by rewrite IH.
  - rewrite !index_ge by (rewrite length_rev; lia). done.
Qed.

Lemma skips_head hs : head (ArchiveChain.skips hs) = last hs.
Proof.
  destruct hs as [|x hs _] using rev_ind; [reflexivity|]. unfold ArchiveChain.skips. rewrite last_snoc.
  apply (omap_head (fun k => index (rev (hs ++ [x])) (2 ^ Z.of_nat k - 1)) 0%nat). by rewrite rev_unit.
Qed.

Lemma index_rev_Forall {A} (P : A -> Prop) (l : list A) k h : Forall P l -> index (rev l) k = Some h -> P h.
Proof.
  intros HF Hh. unfold index in Hh. destruct (0 <=? k); [|done].
  apply list_elem_of_lookup_2, list_elem_of_In, in_rev, list_elem_of_In in Hh. by apply (proj1 (Forall_forall _ _) HF).
Qed.

Lemma skips_width hs : Forall (fun h => length h = 20%nat) hs -> Forall (fun h => length h = 20%nat) (ArchiveChain.skips hs).
Proof.
  intros HF. unfold ArchiveChain.skips. generalize (seq 0 64). intros ks. induction ks as [|k ks IH]; [constructor|]. cbn [omap list_omap].
  destruct (index _ _) as [h|] eqn:Hh; [|done]. constructor; [|done]. by apply (index_rev_Forall _ _ _ _ HF Hh).
Qed.

(** What one input puts into the consensus hash. *)
Definition committed (i : ChainInput) : list byte * list byte * Z * PoxId.t :=
  (bb_hash (ci_block i), ops_hash (ci_txids i), ci_total_burn i, ci_pox_id i).

Lemma next_bytes_inj hs1 hs2 i1 i2 : length hs1 = length hs2 -> Forall (fun h => length h = 20%nat) hs1 -> Forall (fun h => length h = 20%nat) hs2 ->
  chain_input_ok i1 -> chain_input_ok i2 -> next_bytes hs1 i1 = next_bytes hs2 i2 -> committed i1 = committed i2 /\ last hs1 = last hs2.
Proof.
  intros Hl HF1 HF2 [Hw1 Hb1] [Hw2 Hb2] Heq. unfold next_bytes, consensus_bytes in Heq. apply app_inv_head in Heq.
  apply app_inj_1 in Heq as [Hhdr Heq]; [|congruence]. apply app_inj_1 in Heq as [Hops Heq]; [|unfold ops_hash; by rewrite !sha256_length].
  apply app_inj_1 in Heq as [Hburn Heq]; [|by rewrite !length_to_be_bytes]. apply u64_bytes_inj in Hburn; [|done..].
  pose proof (skips_length hs1 hs2 Hl) as Hsl. pose proof (skips_width hs1 HF1) as Hsw1. pose proof (skips_width hs2 HF2) as Hsw2.
  assert (Hcl : forall l : list ConsensusHash, Forall (fun h => length h = 20%nat) l -> length (concat l) = (20 * length l)%nat).
  { induction 1 as [|h l Hh _ IH]; [done|]. cbn [concat length]. rewrite length_app. lia. }
  apply app_inj_2 in Heq as [Hpox Hprev]; [|rewrite !Hcl by done; lia]. apply pox_bytes_inj in Hpox.
  apply (concat_inj 20) in Hprev; [|done..]. split; [unfold committed; congruence|]. by rewrite <- !skips_head, Hprev.
Qed.

(** Two chains grown from one checkpoint by as many blocks with the same
    consensus hash at the tip agree on every Bitcoin header hash, operations hash,
    burn total and PoX history since the checkpoint, when the hash has no collision
    between the inputs hashed for the two. *)
Theorem consensus_hash_commits (genesis : SortitionSnapshot) (history : list ConsensusHash) (heights : list Z) (c c1 c2 : SnapshotChain.t)
  (inputs1 inputs2 : list ChainInput)
  (Hstart : start_chain genesis history heights = Some c) (Hroot : root_ok genesis heights)
  (Hwidth : Forall (fun h => length h = 20%nat) history)
  (Hok1 : Forall chain_input_ok inputs1) (Hok2 : Forall chain_input_ok inputs2) (Hlen : length inputs1 = length inputs2)
  (H1 : append_all c inputs1 = Some (Ok c1)) (H2 : append_all c inputs2 = Some (Ok c2))
  (Htip : last (SnapshotChain.consensus_hashes c1) = last (SnapshotChain.consensus_hashes c2))
  (Hfree : forall x y, x ∈ digested history inputs1 -> y ∈ digested history inputs2 -> hash160 x = hash160 y -> x = y) :
  map committed inputs1 = map committed inputs2.
Proof.
  pose proof (start_simulates _ _ _ _ Hstart Hroot) as Hs.
  assert (Hh : SnapshotChain.consensus_hashes c = history).
  { unfold start_chain, SnapshotChain.with_history in Hstart. case_decide; [|done]. by injection Hstart as <-. }
  apply (append_all_hashes _ _ _ _ Hs) in H1, H2. rewrite H1, H2, Hh in Htip. clear H1 H2 Hs Hstart Hroot Hh. revert inputs2 Hok2 Hlen Htip Hfree.
  induction inputs1 as [|i1 l1 IH] using rev_ind; intros inputs2 Hok2 Hlen Htip Hfree; [by destruct inputs2|].
  destruct inputs2 as [|i2 l2 _] using rev_ind; [rewrite length_app in Hlen; cbn in Hlen; lia|].
  rewrite !length_app in Hlen. cbn [length] in Hlen. rewrite !chain_hashes_snoc, !last_snoc in Htip. injection Htip as Htip.
  apply Forall_app in Hok1 as [Hl1 Hi1], Hok2 as [Hl2 Hi2]. apply Forall_cons_1 in Hi1 as [Hi1 _], Hi2 as [Hi2 _].
  rewrite !digested_snoc in Hfree. apply Hfree in Htip; [|set_solver..].
  apply next_bytes_inj in Htip as [Hc Hlast]; [|rewrite !chain_hashes_length; lia|by apply chain_hashes_width..|done|done].
  rewrite !map_app. cbn [map]. rewrite Hc, (IH Hl1 l2); [done|done|lia|done|]. intros x y Hx Hy. apply Hfree; set_solver.
Qed.

End Commitment.
