(* ===== verification/Mempool.v ===== *)
(** * The transaction pool: [crates/nano-mempool/src/lib.rs]

    Hash maps are [gmap]s; the order in which [values()] and [keys()] enumerate
    them is an argument ([candidates]) or sorted away ([page], [advance]). An
    [option] result is [None] where the code panics (a missing key, a failed
    [expect]); [+] on the nonces wraps, as in the release profile the node is
    built with. JSON rendering of a rejection is not modelled. *)

From stdpp Require Import gmap fin_maps sorting.
From Stdlib Require Import Strings.String.
From S2P Require Import Prelude Primitives Address CodecIO Crypto TxData TxCodec TxWire.
From S2P Require Import TxTheorems TxAuth.

Definition MAXIMUM_MEMPOOL_TX_CHAINING : Z := 25.
Definition MINIMUM_TX_FEE : Z := 1.
Definition MINIMUM_TX_FEE_RATE_PER_BYTE : Z := 1.
Definition MAX_TRANSACTION_AGE_SECS : Z := 256 * 10 * 60.
Definition MAX_BLOCK_LEN : Z := 2 * 1024 * 1024.
Definition MAX_MEMPOOL_TRANSACTIONS : Z := 8192.
Definition MAX_MEMPOOL_BYTES : Z := 64 * 1024 * 1024.

Record MempoolLimits : Type := mkMempoolLimits { lim_transactions : Z; lim_bytes : Z }.

(** [MempoolLimits::new]; [None] is a failed assertion. *)
Definition mempool_limits_new (transactions bytes : Z) : option MempoolLimits :=
  if (0 <? transactions) && (0 <? bytes) then Some (mkMempoolLimits transactions bytes) else None.

Record MempoolStatus : Type := mkMempoolStatus {
  ms_transactions : Z;
  ms_bytes : Z;
  ms_transaction_limit : Z;
  ms_byte_limit : Z;
  ms_saturations : Z;
}.

(** What a chain tip says about one account. *)
Record Account : Type := mkAccount { acct_nonce : Z; acct_balance : option Z }.

(** The trait [ChainTip]. *)
Class ChainTip (T : Type) : Type := account : T -> StacksAddress.t -> Account.

#[export] Instance map_chain_tip : ChainTip (gmap StacksAddress.t Account) :=
  fun m a => default (mkAccount 0 None) (m !! a).

Record NonceMismatch : Type := mkMismatch {
  expected : Z;
  actual : Z;
  mismatch_principal : StacksAddress.t;
  is_origin : bool;
}.

(** The text a rejection carries: what is formatted into it. *)
Inductive Message : Type :=
| MsgCodec (error : CodecError)
| MsgChainId (actual expected : Z)
| MsgPoisonMicroblock.

Module Rejection.

Inductive t : Type :=
| BadTransactionVersion
| SignatureValidation (message : Message)
| FeeTooLow (expected actual : Z)
| BadNonce (mismatch : NonceMismatch)
| TooMuchChaining (mismatch : NonceMismatch)
| NotEnoughFunds (expected actual : Z)
| ConflictingNonceInMempool
| MempoolFull (max_transactions max_bytes : Z)
| TransferRecipientCannotEqualSender (recipient : StacksAddress.t)
| TransferAmountMustBePositive
| BadAddressVersionByte
| NoCoinbaseViaMempool
| NoTenureChangeViaMempool
| Other (message : Message).

Definition reason (r : t) : string :=
  match r with
  | BadTransactionVersion => "BadTransactionVersion"
  | SignatureValidation _ => "SignatureValidation"
  | FeeTooLow _ _ => "FeeTooLow"
  | BadNonce _ => "BadNonce"
  | TooMuchChaining _ => "TooMuchChaining"
  | NotEnoughFunds _ _ => "NotEnoughFunds"
  | ConflictingNonceInMempool => "ConflictingNonceInMempool"
  | MempoolFull _ _ | Other _ => "ServerFailureOther"
  | TransferRecipientCannotEqualSender _ => "TransferRecipientCannotEqualSender"
  | TransferAmountMustBePositive => "TransferAmountMustBePositive"
  | BadAddressVersionByte => "BadAddressVersionByte"
  | NoCoinbaseViaMempool => "NoCoinbaseViaMempool"
  | NoTenureChangeViaMempool => "NoTenureChangeViaMempool"
  end.

End Rejection.

Inductive Admission : Type := Added | Replaced (txids : list Sha256Sum) | AlreadyPresent.

(** ** Entries *)

Record Entry : Type := mkEntry {
  en_transaction : Transaction;
  en_txid : Sha256Sum;
  en_origin : StacksAddress.t;
  en_origin_nonce : Z;
  en_sponsor : option (StacksAddress.t * Z);
  en_payer : StacksAddress.t;
  en_fee : Z;
  en_length : Z;
  en_accepted_at : Z;
}.

Definition set_accepted_at (now : Z) (e : Entry) : Entry :=
  mkEntry (en_transaction e) (en_txid e) (en_origin e) (en_origin_nonce e) (en_sponsor e) (en_payer e)
    (en_fee e) (en_length e) now.

(** [Entry::is_stale]. *)
Definition is_stale `{ChainTip T} (tip : T) (now : Z) (e : Entry) : bool :=
  if MAX_TRANSACTION_AGE_SECS <? saturating_sub now (en_accepted_at e) then true
  else if en_origin_nonce e <? acct_nonce (account tip (en_origin e)) then true
  else if match en_sponsor e with
          | Some (sponsor, nonce) => nonce <? acct_nonce (account tip sponsor)
          | None => false
          end then true
  else match acct_balance (account tip (en_payer e)) with
       | Some balance => balance <? en_fee e
       | None => false
       end.

(** [Ord for Candidate]: the best fee rate is the greatest. *)
Definition candidate_cmp (self other : Entry) : comparison :=
  match en_fee self * en_length other ?= en_fee other * en_length self with
  | Eq => compare_bytes (en_txid other) (en_txid self)
  | c => c
  end.

(** ** The pool *)

Record Mempool : Type := mkMempool {
  mp_network : Network.t;
  mp_limits : MempoolLimits;
  mp_entries : gmap Sha256Sum Entry;
  mp_origins : gmap (StacksAddress.t * Z) Sha256Sum;
  mp_sponsors : gmap (StacksAddress.t * Z) Sha256Sum;
  mp_bytes : Z;
  mp_saturations : Z;
}.

Definition with_limits (network : Network.t) (limits : MempoolLimits) : Mempool :=
  mkMempool network limits ∅ ∅ ∅ 0 0.

Definition mempool_new (network : Network.t) : option Mempool :=
  with_limits network <$> mempool_limits_new MAX_MEMPOOL_TRANSACTIONS MAX_MEMPOOL_BYTES.

Definition mempool_status (m : Mempool) : MempoolStatus :=
  mkMempoolStatus (Z.of_nat (size (mp_entries m))) (mp_bytes m) (lim_transactions (mp_limits m))
    (lim_bytes (mp_limits m)) (mp_saturations m).

Definition contains (m : Mempool) (txid : Sha256Sum) : bool := bool_decide (is_Some (mp_entries m !! txid)).

Definition get (m : Mempool) (txid : Sha256Sum) : option Transaction := en_transaction <$> mp_entries m !! txid.

Definition entry_bytes (e : Entry) : Z := default USIZE_MAX (try_from USIZE_MAX (en_length e)).

(** [Mempool::remove]. *)
Definition remove (m : Mempool) (txid : Sha256Sum) : option (option Transaction * Mempool) :=
  match mp_entries m !! txid with
  | None => Some (None, m)
  | Some entry =>
      bytes ← checked_sub (mp_bytes m) (entry_bytes entry);
      Some (Some (en_transaction entry),
            mkMempool (mp_network m) (mp_limits m) (delete txid (mp_entries m))
              (delete (en_origin entry, en_origin_nonce entry) (mp_origins m))
              (match en_sponsor entry with Some sponsor => delete sponsor (mp_sponsors m) | None => mp_sponsors m end)
              bytes (mp_saturations m))
  end.

(** [for txid in txids { self.remove(txid); }]. *)
Fixpoint remove_all (m : Mempool) (txids : list Sha256Sum) : option Mempool :=
  match txids with
  | [] => Some m
  | txid :: rest => '(_, m) ← remove m txid; remove_all m rest
  end.

(** [Mempool::addresses], as a set. *)
Definition addresses (m : Mempool) : gset StacksAddress.t :=
  map_fold (fun _ e seen => {[en_origin e]} ∪ match en_sponsor e with Some (s, _) => {[s]} | None => ∅ end ∪ seen)
    ∅ (mp_entries m).

(** [sort_unstable] on transaction identifiers. *)
Definition sort_txids (txids : list Sha256Sum) : list Sha256Sum := merge_sort bytes_le txids.

(** [Mempool::advance]. *)
Definition advance `{ChainTip T} (m : Mempool) (tip : T) (now : Z) : option (list Sha256Sum * Mempool) :=
  let dropped := sort_txids (en_txid <$> List.filter (is_stale tip now) (map_to_list (mp_entries m)).*2) in
  m ← remove_all m dropped;
  Some (dropped, m).

(** ** Pages *)

(** The loop of [Mempool::page]: [transactions], [bytes] and whether it broke off
    with more to send. *)
Fixpoint page_loop (m : Mempool) (after : option Sha256Sum) (max_transactions max_bytes : Z)
  (wanted : Sha256Sum -> bool) (txids : list Sha256Sum) (transactions : list Transaction) (bytes : Z)
  : option (list Transaction * bool) :=
  match txids with
  | [] => Some (transactions, false)
  | txid :: rest =>
      if match after with Some after => bool_decide (bytes_le txid after) | None => false end
         || negb (wanted txid)
      then page_loop m after max_transactions max_bytes wanted rest transactions bytes
      else
        entry ← mp_entries m !! txid;
        let length := len (tx_bytes (en_transaction entry)) in
        if bool_decide (transactions = []) && (max_bytes <? length)
        then page_loop m after max_transactions max_bytes wanted rest transactions bytes
        else if (len transactions =? max_transactions)
                || match checked_add USIZE_MAX bytes length with None => true | Some sum => max_bytes <? sum end
        then Some (transactions, true)
        else page_loop m after max_transactions max_bytes wanted rest
               (transactions ++ [en_transaction entry]) (bytes + length)
  end.

Section Txids.
Context `{HS : Hashes} `{SECP : Secp256k1}.

(** [Mempool::page]. *)
Definition page (m : Mempool) (after : option Sha256Sum) (max_transactions max_bytes : Z)
  (wanted : Sha256Sum -> bool) : option (list Transaction * option Sha256Sum) :=
  if max_transactions =? 0 then Some ([], None) else
  let txids := sort_txids (map_to_list (mp_entries m)).*1 in
  '(transactions, more) ← page_loop m after max_transactions max_bytes wanted txids [] 0;
  if negb more then Some (transactions, None) else
  t ← last transactions;
  next ← txid t;
  Some (transactions, Some next).

(** ** Admission *)

Definition principal_version (p : Principal) : byte :=
  match p with PrincipalStandard a | PrincipalContract a _ => StacksAddress.version a end.

Definition valid_address_version (mainnet : bool) (version : byte) : bool :=
  if mainnet then match version with 22%u8 | 20%u8 => true | _ => false end
  else match version with 26%u8 | 21%u8 => true | _ => false end.

Definition semantic_checks (payload : TransactionPayloadData) (origin : StacksAddress.t) (mainnet : bool)
  : result Rejection.t unit :=
  match payload with
  | TokenTransfer recipient amount _ =>
      if match recipient with PrincipalStandard a => bool_decide (a = origin) | _ => false end
      then Err (Rejection.TransferRecipientCannotEqualSender origin)
      else if amount =? 0 then Err Rejection.TransferAmountMustBePositive
      else if negb (valid_address_version mainnet (principal_version recipient))
      then Err Rejection.BadAddressVersionByte
      else Ok tt
  | _ => Ok tt
  end.

(** The nonces a transaction claims. *)
Record NonceCheck : Type := mkNonceCheck {
  nc_origin : StacksAddress.t;
  nc_origin_nonce : Z;
  nc_sponsor : option StacksAddress.t;
  nc_payer_nonce : Z;
}.

Definition check_nonces `{ChainTip T} (tip : T) (claimed : NonceCheck) : result Rejection.t unit :=
  let expected_origin := acct_nonce (account tip (nc_origin claimed)) in
  let payer := default (nc_origin claimed) (nc_sponsor claimed) in
  let expected_payer := acct_nonce (account tip payer) in
  let sponsored := bool_decide (is_Some (nc_sponsor claimed)) in
  let mismatch :=
    if sponsored && negb (nc_payer_nonce claimed =? expected_payer)
    then Some (mkMismatch expected_payer (nc_payer_nonce claimed) payer false)
    else if negb (nc_origin_nonce claimed =? expected_origin)
    then Some (mkMismatch expected_origin (nc_origin_nonce claimed) (nc_origin claimed) true)
    else None in
  match mismatch with
  | None => Ok tt
  | Some mismatch =>
      if actual mismatch <? expected mismatch then Err (Rejection.BadNonce mismatch) else
      let origin_max :=
        wrapping_add U64_MAX (wrapping_add U64_MAX expected_origin 1) MAXIMUM_MEMPOOL_TX_CHAINING in
      if origin_max <? nc_origin_nonce claimed
      then Err (Rejection.TooMuchChaining
             (mkMismatch origin_max (nc_origin_nonce claimed) (nc_origin claimed) true)) else
      let payer_max :=
        wrapping_add U64_MAX (wrapping_add U64_MAX expected_payer 1) MAXIMUM_MEMPOOL_TX_CHAINING in
      if sponsored && (payer_max <? nc_payer_nonce claimed)
      then Err (Rejection.TooMuchChaining
             (mkMismatch payer_max (nc_payer_nonce claimed) payer false))
      else Ok tt
  end.

(** The accounts a transaction spends from. *)
Record Spend : Type := mkSpend { sp_origin : StacksAddress.t; sp_payer : StacksAddress.t; sp_fee : Z }.

Definition payload_checks `{ChainTip T} (payload : TransactionPayloadData) (tip : T) (mainnet : bool)
  (spend : Spend) : result Rejection.t unit :=
  match payload with
  | TokenTransfer recipient amount _ =>
      if negb (valid_address_version mainnet (principal_version recipient))
      then Err Rejection.BadAddressVersionByte else
      let total := amount + (if decide (sp_origin spend = sp_payer spend) then sp_fee spend else 0) in
      match acct_balance (account tip (sp_origin spend)) with
      | Some balance => if balance <? total then Err (Rejection.NotEnoughFunds total balance) else Ok tt
      | None => Ok tt
      end
  | Coinbase _ | CoinbaseToAltRecipient _ _ | NakamotoCoinbase _ _ _ => Err Rejection.NoCoinbaseViaMempool
  | TenureChange _ => Err Rejection.NoTenureChangeViaMempool
  | _ => Ok tt
  end.

Definition is_transfer (p : TransactionPayloadData) : bool :=
  match p with TokenTransfer _ _ _ => true | _ => false end.
Definition is_poison (p : TransactionPayloadData) : bool :=
  match p with PoisonMicroblock _ _ => true | _ => false end.

(** [if !transfer && let Some(balance) = balance.filter(|balance| *balance < fee)]. *)
Definition payer_check `{ChainTip T} (payload : TransactionPayloadData) (tip : T) (payer : StacksAddress.t)
  (fee : Z) : result Rejection.t unit :=
  match acct_balance (account tip payer) with
  | Some balance =>
      if negb (is_transfer payload) && (balance <? fee) then Err (Rejection.NotEnoughFunds fee balance) else Ok tt
  | None => Ok tt
  end.

(** The fee, nonce, address, balance and payload checks at the end of
    [Mempool::judge], and the entry it builds. *)
Definition judge_account `{ChainTip T} (tip : T) (mainnet : bool) (transaction : Transaction)
  (origin : StacksAddress.t) (sponsor : option StacksAddress.t) (txid : Sha256Sum)
  : result Rejection.t Entry :=
  let payload := pl_data (tx_payload transaction) in
  let length := Z.max (len (tx_bytes transaction)) 1 in
  let fee := condition_fee (auth_payer (tx_auth transaction)) in
  if (fee <? MINIMUM_TX_FEE) || (fee / length <? MINIMUM_TX_FEE_RATE_PER_BYTE)
  then Err (Rejection.FeeTooLow (Z.max MINIMUM_TX_FEE (length * MINIMUM_TX_FEE_RATE_PER_BYTE)) fee) else
  let origin_nonce := condition_nonce (auth_origin (tx_auth transaction)) in
  let payer := default origin sponsor in
  let payer_nonce := condition_nonce (auth_payer (tx_auth transaction)) in
  let? _ := check_nonces tip (mkNonceCheck origin origin_nonce sponsor payer_nonce) in
  if negb (valid_address_version mainnet (StacksAddress.version origin))
     || negb (valid_address_version mainnet (StacksAddress.version payer))
  then Err Rejection.BadAddressVersionByte else
  let? _ := payer_check payload tip payer fee in
  let? _ := payload_checks payload tip mainnet (mkSpend origin payer fee) in
  Ok (mkEntry transaction txid origin origin_nonce ((fun s => (s, payer_nonce)) <$> sponsor) payer fee length 0).

(** [transaction.auth().sponsor().map(|sponsor| sponsor.account_address(mainnet))]. *)
Definition sponsor_of (transaction : Transaction) (mainnet : bool) : option (option StacksAddress.t) :=
  match auth_sponsor (tx_auth transaction) with
  | None => Some None
  | Some condition => a ← account_address condition mainnet; Some (Some a)
  end.

(** [Mempool::judge]. *)
Definition judge `{ChainTip T} (m : Mempool) (transaction : Transaction) (tip : T)
  : option (result Rejection.t Entry) :=
  let mainnet :=
    match tx_version transaction with TransactionVersion.Mainnet => true | TransactionVersion.Testnet => false end in
  if negb (Bool.eqb mainnet (Network.is_mainnet (mp_network m)))
  then Some (Err Rejection.BadTransactionVersion) else
  origin ← account_address (auth_origin (tx_auth transaction)) mainnet;
  sponsor ← sponsor_of transaction mainnet;
  let payload := pl_data (tx_payload transaction) in
  match semantic_checks payload origin mainnet with
  | Err e => Some (Err e)
  | Ok _ =>
      if is_poison payload then Some (Err (Rejection.Other MsgPoisonMicroblock)) else
      authorization ← verify_authorization transaction;
      match authorization with
      | Err e => Some (Err (Rejection.SignatureValidation (MsgCodec e)))
      | Ok _ =>
          if negb (tx_chain_id transaction =? Network.chain_id (mp_network m))
          then Some (Err (Rejection.SignatureValidation
                 (MsgChainId (tx_chain_id transaction) (Network.chain_id (mp_network m))))) else
          id ← txid transaction;
          Some (judge_account tip mainnet transaction origin sponsor id)
      end
  end.

(** [Vec::dedup]: consecutive repetitions go. *)
Fixpoint dedup (l : list Sha256Sum) : list Sha256Sum :=
  match l with
  | x :: ((y :: _) as rest) => if decide (x = y) then dedup rest else x :: dedup rest
  | l => l
  end.

(** [Mempool::outbid]; [None] is a missing entry. *)
Fixpoint outbids (m : Mempool) (entry : Entry) (replaced : list Sha256Sum) : option (result Rejection.t unit) :=
  match replaced with
  | [] => Some (Ok tt)
  | prior :: rest =>
      e ← mp_entries m !! prior;
      if en_fee entry <=? en_fee e then Some (Err Rejection.ConflictingNonceInMempool)
      else outbids m entry rest
  end.

Definition outbid (m : Mempool) (entry : Entry) : option (result Rejection.t (list Sha256Sum)) :=
  let replaced := dedup (sort_txids
    (option_list (mp_origins m !! (en_origin entry, en_origin_nonce entry)) ++
     option_list (sponsor ← en_sponsor entry; mp_sponsors m !! sponsor))) in
  r ← outbids m entry replaced;
  Some (let? _ := r in Ok replaced).

(** The sum of [entry_bytes] over held transactions. *)
Fixpoint bytes_of (m : Mempool) (txids : list Sha256Sum) : option Z :=
  match txids with
  | [] => Some 0
  | txid :: rest => e ← mp_entries m !! txid; n ← bytes_of m rest; checked_add USIZE_MAX (entry_bytes e) n
  end.

Definition insert_entry (m : Mempool) (txid : Sha256Sum) (entry : Entry) : option Mempool :=
  bytes ← checked_add USIZE_MAX (mp_bytes m) (entry_bytes entry);
  Some (mkMempool (mp_network m) (mp_limits m) (<[txid := entry]> (mp_entries m))
          (<[(en_origin entry, en_origin_nonce entry) := txid]> (mp_origins m))
          (match en_sponsor entry with Some s => <[s := txid]> (mp_sponsors m) | None => mp_sponsors m end)
          bytes (mp_saturations m)).

(** [Mempool::submit]. *)
Definition submit `{ChainTip T} (m : Mempool) (transaction : Transaction) (tip : T) (now : Z)
  : option (result Rejection.t Admission * Mempool) :=
  id ← txid transaction;
  if contains m id then Some (Ok AlreadyPresent, m) else
  judged ← judge m transaction tip;
  match judged with
  | Err e => Some (Err e, m)
  | Ok entry =>
      let entry := set_accepted_at now entry in
      bid ← outbid m entry;
      match bid with
      | Err e => Some (Err e, m)
      | Ok replaced =>
          replaced_bytes ← bytes_of m replaced;
          retained_transactions ← checked_sub (Z.of_nat (size (mp_entries m)) + 1) (len replaced);
          retained_bytes ← checked_sub (mp_bytes m) replaced_bytes;
          let limits := mp_limits m in
          if (lim_transactions limits <? retained_transactions)
             || (saturating_sub (lim_bytes limits) retained_bytes <? entry_bytes entry)
          then Some (Err (Rejection.MempoolFull (lim_transactions limits) (lim_bytes limits)),
                 mkMempool (mp_network m) limits (mp_entries m) (mp_origins m) (mp_sponsors m) (mp_bytes m)
                   (saturating_add U64_MAX (mp_saturations m) 1)) else
          m ← remove_all m replaced;
          m ← insert_entry m id entry;
          Some (Ok (match replaced with [] => Added | _ => Replaced replaced end), m)
      end
  end.

End Txids.

(** ** Candidates for the next block *)

Section Candidates.
Context `{ChainTip T} (tip : T).

(** [*nonces.entry(address).or_insert_with(|| tip.account(&address).nonce)]. *)
Definition nonce_entry (nonces : gmap StacksAddress.t Z) (address : StacksAddress.t)
  : Z * gmap StacksAddress.t Z :=
  match nonces !! address with
  | Some n => (n, nonces)
  | None => let n := acct_nonce (account tip address) in (n, <[address := n]> nonces)
  end.

(** The first loop: the entries at their account's next nonce. *)
Fixpoint gather (order : list Entry) (nonces : gmap StacksAddress.t Z) (heap : list Entry)
  : gmap StacksAddress.t Z * list Entry :=
  match order with
  | [] => (nonces, heap)
  | entry :: rest =>
      let '(next, nonces) := nonce_entry nonces (en_origin entry) in
      gather rest nonces (if en_origin_nonce entry =? next then entry :: heap else heap)
  end.

(** [BinaryHeap::pop]: a greatest candidate. *)
Fixpoint heap_pop (heap : list Entry) : option (Entry * list Entry) :=
  match heap with
  | [] => None
  | e :: rest =>
      match heap_pop rest with
      | None => Some (e, [])
      | Some (best, others) =>
          match candidate_cmp e best with
          | Lt => Some (best, e :: others)
          | _ => Some (e, best :: others)
          end
      end
  end.

(** Whether the sponsor of [entry] is at its next nonce. *)
Definition sponsor_ready (nonces : gmap StacksAddress.t Z) (entry : Entry)
  : bool * gmap StacksAddress.t Z :=
  match en_sponsor entry with
  | None => (true, nonces)
  | Some (sponsor, nonce) => let '(next, nonces) := nonce_entry nonces sponsor in (nonce =? next, nonces)
  end.

(** Move the sponsor's nonce on, when it is another account than the origin. *)
Definition bump_sponsor (nonces : gmap StacksAddress.t Z) (entry : Entry) : gmap StacksAddress.t Z :=
  match en_sponsor entry with
  | Some (sponsor, _) =>
      if decide (sponsor = en_origin entry) then nonces
      else match nonces !! sponsor with
           | Some next => <[sponsor := saturating_add U64_MAX next 1]> nonces
           | None => nonces
           end
  | None => nonces
  end.

(** What taking [entry] changes: the nonces, and the entry it makes next.
    [None] is the [expect]. *)
Definition take_entry (m : Mempool) (nonces : gmap StacksAddress.t Z) (heap : list Entry) (entry : Entry)
  : option (gmap StacksAddress.t Z * list Entry) :=
  let nonces := bump_sponsor nonces entry in
  next ← nonces !! en_origin entry;
  let next := saturating_add U64_MAX next 1 in
  let nonces := <[en_origin entry := next]> nonces in
  Some (nonces,
        match (txid ← mp_origins m !! (en_origin entry, next); mp_entries m !! txid) with
        | Some following => following :: heap
        | None => heap
        end).

(** The [while let Some(Candidate(entry)) = heap.pop()] loop, as the list of the
    entries selected. *)
Fixpoint select (fuel : nat) (m : Mempool) (nonces : gmap StacksAddress.t Z) (heap : list Entry)
  (budget : Z) : option (list Entry) :=
  match heap_pop heap with
  | None => Some []
  | Some (entry, heap) =>
      match fuel with
      | O => None
      | S fuel =>
          let '(ready, nonces) := sponsor_ready nonces entry in
          if negb ready then select fuel m nonces heap budget else
          match checked_sub budget (en_length entry) with
          | None => select fuel m nonces heap budget
          | Some budget =>
              '(nonces, heap) ← take_entry m nonces heap entry;
              selected ← select fuel m nonces heap budget;
              Some (entry :: selected)
          end
      end
  end.

(** [Mempool::candidates] when [entries.values()] enumerates [order]. Each round
    takes a candidate off the heap and puts at most one back, and only when the
    budget went down. *)
Definition candidates_in (m : Mempool) (order : list Entry) : option (list Entry) :=
  let '(nonces, heap) := gather order ∅ [] in
  select (Z.to_nat MAX_BLOCK_LEN + length order) m nonces heap MAX_BLOCK_LEN.

Definition candidates (m : Mempool) : option (list Transaction) :=
  map en_transaction <$> candidates_in m (map_to_list (mp_entries m)).*2.

End Candidates.
