(* ===== verification/MempoolTheorems.v ===== *)
(** * Theorems about the transaction pool *)

From stdpp Require Import gmap fin_maps sorting.
From S2P Require Import Prelude Primitives Address CodecIO Crypto TxData TxCodec TxWire.
From S2P Require Import TxTheorems TxAuth TxAuthTheorems Mempool.

(** ** The order on identifiers *)

Lemma sort_txids_sorted l : StronglySorted bytes_le (sort_txids l).
Proof. apply StronglySorted_merge_sort; apply _. Qed.

Lemma sort_txids_perm l : sort_txids l ≡ₚ l.
Proof. apply merge_sort_Permutation. Qed.

(** ** Indexes *)

(** [index] maps each key of a held entry to the entry's identifier, and nothing else. *)
Definition indexes {K} `{Countable K} (index : gmap K Sha256Sum) (entries : gmap Sha256Sum Entry)
  (key : Entry -> option K) : Prop :=
  forall k id, index !! k = Some id <-> exists e, entries !! id = Some e /\ key e = Some k.

Definition origin_key (e : Entry) : option (StacksAddress.t * Z) := Some (en_origin e, en_origin_nonce e).

Section Indexes.
Context {K : Type} `{Countable K}.
Implicit Types index : gmap K Sha256Sum.

Lemma indexes_empty key : indexes (K := K) ∅ ∅ key.
Proof. intros k id. rewrite lookup_empty. split; [done|]. intros (e & He & _). by rewrite lookup_empty in He. Qed.

Lemma indexes_delete index entries key id e : indexes index entries key -> entries !! id = Some e ->
  indexes (match key e with Some k => delete k index | None => index end) (delete id entries) key.
Proof.
  intros Hi He k id'. destruct (key e) as [k0|] eqn:Hk.
  - destruct (decide (k = k0)) as [->|Hne].
    + rewrite lookup_delete_eq. split; [done|]. intros (e' & [Hne He']%lookup_delete_Some & Hk').
      assert (index !! k0 = Some id) by (apply Hi; eauto). assert (index !! k0 = Some id') by (apply Hi; eauto). congruence.
    + rewrite lookup_delete_ne by done. rewrite (Hi k id'). split.
      * intros (e' & He' & Hk'). exists e'. split; [|done]. apply lookup_delete_Some. split; [|done]. intros <-. congruence.
      * intros (e' & [_ He']%lookup_delete_Some & Hk'). by exists e'.
  - rewrite (Hi k id'). split.
    + intros (e' & He' & Hk'). exists e'. split; [|done]. apply lookup_delete_Some. split; [|done]. intros <-. congruence.
    + intros (e' & [_ He']%lookup_delete_Some & Hk'). by exists e'.
Qed.

Lemma indexes_insert index entries key id e : indexes index entries key -> entries !! id = None ->
  (forall k, key e = Some k -> index !! k = None) ->
  indexes (match key e with Some k => <[k := id]> index | None => index end) (<[id := e]> entries) key.
Proof.
  intros Hi Hid Hfree k id'.
  assert (Hr : (exists e', <[id := e]> entries !! id' = Some e' /\ key e' = Some k) <->
               (id' = id /\ key e = Some k) \/ (id' <> id /\ index !! k = Some id')).
  { destruct (decide (id' = id)) as [->|Hne].
    - rewrite lookup_insert_eq. split; [intros (e' & [= <-] & ?); by left|]. intros [[_ ?]|[? _]]; [by exists e|done].
    - rewrite lookup_insert_ne by done. rewrite (Hi k id'). split; [by right|]. intros [[? _]|[_ ?]]; done. }
  rewrite Hr. clear Hr. destruct (key e) as [k0|] eqn:Hk.
  - destruct (decide (k = k0)) as [->|Hne].
    + rewrite lookup_insert_eq, (Hfree k0 eq_refl). split; [intros [= <-]; by left|]. intros [[-> _]|[_ ?]]; done.
    + rewrite lookup_insert_ne by done. split.
      * intros Hx. right. split; [|done]. intros ->. apply Hi in Hx as (e' & He' & _). congruence.
      * intros [[_ [= ?]]|[_ ?]]; [congruence|done].
  - split; [|intros [[_ ?]|[_ ?]]; done]. intros Hx. right. split; [|done]. intros ->.
    apply Hi in Hx as (e' & He' & _). congruence.
Qed.

Lemma indexes_unique index entries key id1 id2 e1 e2 k : indexes index entries key ->
  entries !! id1 = Some e1 -> entries !! id2 = Some e2 -> key e1 = Some k -> key e2 = Some k -> id1 = id2.
Proof.
  intros Hi H1 H2 K1 K2. assert (index !! k = Some id1) by (apply Hi; eauto).
  assert (index !! k = Some id2) by (apply Hi; eauto). congruence.
Qed.

End Indexes.

(** ** The pool's invariant *)

Definition pool_total (entries : gmap Sha256Sum Entry) : Z := map_fold (fun _ e acc => en_length e + acc) 0 entries.

Definition pool_ok (m : Mempool) : Prop :=
  map_Forall (fun id e => en_txid e = id /\ 1 <= en_length e <= USIZE_MAX) (mp_entries m) /\
  indexes (mp_origins m) (mp_entries m) origin_key /\
  indexes (mp_sponsors m) (mp_entries m) en_sponsor /\
  mp_bytes m = pool_total (mp_entries m) /\
  0 <= mp_bytes m <= lim_bytes (mp_limits m) /\ lim_bytes (mp_limits m) <= USIZE_MAX /\
  Z.of_nat (size (mp_entries m)) <= lim_transactions (mp_limits m).

Lemma pool_total_insert entries id e : entries !! id = None ->
  pool_total (<[id := e]> entries) = en_length e + pool_total entries.
Proof. intros Hid. unfold pool_total. rewrite map_fold_insert_L; [done|intros; lia|done]. Qed.

Lemma pool_total_delete entries id e : entries !! id = Some e ->
  pool_total entries = en_length e + pool_total (delete id entries).
Proof. intros Hid. rewrite <- (insert_delete_id entries id e Hid) at 1. apply pool_total_insert, lookup_delete_eq. Qed.

Lemma pool_total_nonneg entries : map_Forall (fun _ e => 0 <= en_length e) entries -> 0 <= pool_total entries.
Proof.
  induction entries as [|id e entries Hid IH] using map_ind; [done|]. intros HF.
  apply map_Forall_insert in HF as [? HF]; [|done]. rewrite pool_total_insert by done. specialize (IH HF). cbn in *. lia.
Qed.

Lemma pool_lengths m : pool_ok m -> map_Forall (fun _ e => 0 <= en_length e) (mp_entries m).
Proof. intros (HF & _) id e He. apply HF in He. cbn in *. lia. Qed.

Lemma entry_bytes_length e : en_length e <= USIZE_MAX -> entry_bytes e = en_length e.
Proof. intros He. unfold entry_bytes. by rewrite (proj2 (try_from_Some USIZE_MAX (en_length e) _) (conj eq_refl He)). Qed.

Lemma pool_empty network limits : 0 < lim_transactions limits -> 0 < lim_bytes limits <= USIZE_MAX ->
  pool_ok (with_limits network limits).
Proof.
  intros Ht Hb. split_and!; cbn; [apply map_Forall_empty|apply indexes_empty..|done|lia|lia|lia|]. rewrite map_size_empty. lia.
Qed.

(** ** Removal *)

Lemma remove_ok m id : pool_ok m -> exists r m', remove m id = Some (r, m') /\ pool_ok m' /\
  mp_entries m' = delete id (mp_entries m) /\ mp_network m' = mp_network m /\ mp_limits m' = mp_limits m /\
  r = get m id.
Proof.
  intros Hok. pose proof (pool_lengths _ Hok) as Hlen. destruct (Hok) as (HF & Ho & Hs & Hb & Hle & Hu & Hsz).
  unfold remove, get. destruct (mp_entries m !! id) as [e|] eqn:He.
  - destruct (HF _ _ He) as [_ Hl]. rewrite entry_bytes_length by lia.
    pose proof (pool_total_delete _ _ _ He) as Ht.
    pose proof (pool_total_nonneg (delete id (mp_entries m)) ltac:(by apply map_Forall_delete)).
    unfold checked_sub. rewrite (proj2 (Z.leb_le _ _)) by lia. cbn [mbind option_bind].
    do 2 eexists. split; [done|]. cbn. split; [|by split_and!].
    assert (size (delete id (mp_entries m)) = pred (size (mp_entries m))) as Hsz' by (by apply map_size_delete_Some).
    split_and!; cbn; [by apply map_Forall_delete|by apply (indexes_delete _ _ origin_key)|by apply (indexes_delete _ _ en_sponsor)|lia..].
  - do 2 eexists. split; [done|]. split; [done|]. split; [|by split_and!]. by rewrite delete_id.
Qed.

Fixpoint delete_all (entries : gmap Sha256Sum Entry) (ids : list Sha256Sum) : gmap Sha256Sum Entry :=
  match ids with [] => entries | id :: ids => delete_all (delete id entries) ids end.

Lemma delete_all_lookup entries ids id :
  delete_all entries ids !! id = if decide (id ∈ ids) then None else entries !! id.
Proof.
  revert entries. induction ids as [|x ids IH]; intros entries; cbn [delete_all]; [done|]. rewrite IH.
  destruct (decide (id ∈ ids)) as [Hin|Hin]; [by rewrite decide_True by by right|].
  destruct (decide (id = x)) as [->|Hne]; [rewrite decide_True by left; apply lookup_delete_eq|].
  rewrite lookup_delete_ne by done. rewrite decide_False; [done|]. by intros [?|?]%elem_of_cons.
Qed.

Lemma remove_all_ok m ids : pool_ok m -> exists m', remove_all m ids = Some m' /\ pool_ok m' /\
  mp_entries m' = delete_all (mp_entries m) ids /\ mp_network m' = mp_network m /\ mp_limits m' = mp_limits m.
Proof.
  revert m. induction ids as [|id ids IH]; intros m Hok; [by exists m|].
  destruct (remove_ok m id Hok) as (r & m1 & Hr & Hok1 & He & Hn & Hl & _). cbn [remove_all]. rewrite Hr.
  cbn [mbind option_bind]. destruct (IH m1 Hok1) as (m' & Hm' & Hok' & He' & Hn' & Hl').
  exists m'. split; [done|]. split; [done|]. rewrite He', He, Hn', Hl'. done.
Qed.

(** Mempool::advance reports, sorted, exactly the stale transactions, drops them,
    keeps the other entries as they are and leaves the pool consistent. *)
Theorem advance_drops_stale `{ChainTip T} (m : Mempool) (tip : T) (now : Z) (Hok : pool_ok m) :
  exists dropped m', advance m tip now = Some (dropped, m') /\ pool_ok m' /\
    StronglySorted bytes_le dropped /\
    (forall id, id ∈ dropped <-> exists e, mp_entries m !! id = Some e /\ is_stale tip now e = true) /\
    (forall id, mp_entries m' !! id =
       match mp_entries m !! id with Some e => if is_stale tip now e then None else Some e | None => None end).
Proof.
  unfold advance. set (dropped := sort_txids _).
  assert (Hd : forall id, id ∈ dropped <-> exists e, mp_entries m !! id = Some e /\ is_stale tip now e = true).
  { intros id. unfold dropped. rewrite sort_txids_perm, list_elem_of_fmap. destruct Hok as (HF & _). split.
    - intros (e & -> & He). apply list_elem_of_In, filter_In in He as [He Hst]. apply list_elem_of_In, list_elem_of_fmap in He as ([id' e'] & -> & He).
      apply elem_of_map_to_list in He. cbn in *. exists e'. destruct (HF _ _ He) as [-> _]. done.
    - intros (e & He & Hst). destruct (HF _ _ He) as [Hid _]. exists e. split; [done|].
      apply list_elem_of_In, filter_In. split; [|done]. apply list_elem_of_In, list_elem_of_fmap. exists (id, e). split; [done|].
      by apply elem_of_map_to_list. }
  destruct (remove_all_ok m dropped Hok) as (m' & -> & Hok' & He & _). cbn [mbind option_bind].
  exists dropped, m'. split; [done|]. split; [done|]. split; [apply sort_txids_sorted|]. split; [done|].
  intros id. rewrite He, delete_all_lookup. destruct (decide (id ∈ dropped)) as [Hin|Hin].
  - apply Hd in Hin as (e & -> & ->). done.
  - destruct (mp_entries m !! id) as [e|] eqn:E; [|done]. destruct (is_stale tip now e) eqn:Hst; [|done].
    exfalso. apply Hin, Hd. eauto.
Qed.

(** ** Outbidding *)

(** Two transactions that spend the same nonce of the same account, as origins or
    as sponsors. *)
Definition conflicts (old e : Entry) : Prop :=
  origin_key old = origin_key e \/ exists k, en_sponsor old = Some k /\ en_sponsor e = Some k.

Lemma elem_of_option_list {A} (x : A) o : x ∈ option_list o <-> o = Some x.
Proof. destruct o; cbn; [rewrite list_elem_of_singleton; split; [by intros ->|by intros [= ->]]|rewrite elem_of_nil; done]. Qed.

Lemma dedup_cons a b l : dedup (a :: b :: l) = if decide (a = b) then dedup (b :: l) else a :: dedup (b :: l).
Proof. done. Qed.

Lemma dedup_elem l x : x ∈ dedup l <-> x ∈ l.
Proof.
  induction l as [|a [|b l] IH]; [done..|]. rewrite dedup_cons.
  destruct (decide (a = b)) as [->|Hne].
  - rewrite IH, !elem_of_cons. tauto.
  - rewrite elem_of_cons, IH, !elem_of_cons. tauto.
Qed.

Lemma dedup_NoDup l : StronglySorted bytes_le l -> NoDup (dedup l).
Proof.
  induction l as [|a [|b l] IH]; intros Hs; [constructor|repeat constructor; set_solver|].
  apply StronglySorted_inv in Hs as [Hs HF]. rewrite dedup_cons.
  destruct (decide (a = b)) as [->|Hne]; [by apply IH|]. constructor; [|by apply IH].
  rewrite dedup_elem, elem_of_cons. intros [?|Hin]; [done|]. apply Hne.
  apply StronglySorted_inv in Hs as [_ HF2]. rewrite Forall_forall in HF2. specialize (HF2 a Hin).
  apply Forall_cons in HF as [Hab _]. by apply (anti_symm bytes_le).
Qed.

Lemma outbids_ok m e l : (forall id, id ∈ l -> is_Some (mp_entries m !! id)) ->
  (outbids m e l = Some (Ok tt) /\ forall id old, id ∈ l -> mp_entries m !! id = Some old -> en_fee old < en_fee e) \/
  (outbids m e l = Some (Err Rejection.ConflictingNonceInMempool) /\
   exists id old, id ∈ l /\ mp_entries m !! id = Some old /\ en_fee e <= en_fee old).
Proof.
  induction l as [|id l IH]; intros Hl; [left; split; [done|]; set_solver|]. cbn [outbids].
  destruct (Hl id ltac:(set_solver)) as [old Hold]. rewrite Hold. cbn [mbind option_bind].
  destruct (Z.leb_spec (en_fee e) (en_fee old)) as [Hle|Hgt].
  - right. split; [done|]. exists id, old. split; [set_solver|done].
  - destruct (IH ltac:(set_solver)) as [[-> Hf]|[-> (id' & old' & Hin & ?)]].
    + left. split; [done|]. intros id' old' [->|Hin]%elem_of_cons Hold'; [congruence|eauto].
    + right. split; [done|]. exists id', old'. split; [set_solver|done].
Qed.

Lemma outbid_ok m e : pool_ok m -> exists r, outbid m e = Some r /\
  match r with
  | Err rej => rej = Rejection.ConflictingNonceInMempool /\
      exists id old, mp_entries m !! id = Some old /\ conflicts old e /\ en_fee e <= en_fee old
  | Ok l => NoDup l /\
      (forall id, id ∈ l <-> exists old, mp_entries m !! id = Some old /\ conflicts old e) /\
      (forall id old, id ∈ l -> mp_entries m !! id = Some old -> en_fee old < en_fee e)
  end.
Proof.
  intros (HF & Ho & Hs & _). unfold outbid. set (l := dedup _).
  assert (Hl : forall id, id ∈ l <-> exists old, mp_entries m !! id = Some old /\ conflicts old e).
  { intros id. unfold l. rewrite dedup_elem, sort_txids_perm, elem_of_app, !elem_of_option_list. split.
    - intros [Hx|Hx].
      + apply Ho in Hx as (old & Hold & Hk). exists old. split; [done|]. by left.
      + apply bind_Some in Hx as (k & Hk & Hx). apply Hs in Hx as (old & Hold & Hk'). exists old. split; [done|]. right. eauto.
    - intros (old & Hold & [Hk|(k & Hk & Hk')]).
      + left. apply Ho. exists old. split; [done|]. by rewrite Hk.
      + right. rewrite Hk'. cbn [mbind option_bind]. apply Hs. eauto. }
  destruct (outbids_ok m e l) as [[-> Hfee]|[-> (id & old & Hin & Hold & Hfee)]].
  - intros id (old & Hold & _)%Hl. eauto.
  - eexists. split; [done|]. cbn. split; [apply dedup_NoDup, sort_txids_sorted|]. by split.
  - eexists. split; [done|]. cbn. split; [done|]. apply Hl in Hin as (old' & Hold' & Hc). exists id, old'.
    split; [done|]. split; [done|]. congruence.
Qed.

Lemma delete_all_size entries l : NoDup l -> (forall id, id ∈ l -> is_Some (entries !! id)) ->
  (size (delete_all entries l) + length l = size entries)%nat.
Proof.
  revert entries. induction l as [|id l IH]; intros entries Hnd Hl; cbn [delete_all length]; [lia|].
  apply NoDup_cons in Hnd as [Hni Hnd]. destruct (Hl id ltac:(set_solver)) as [e He].
  assert (size (delete id entries) = pred (size entries)) as Hsz by (by apply map_size_delete_Some).
  assert (size entries <> 0%nat) by (intros Hz%map_size_empty_inv; subst; by rewrite lookup_empty in He).
  assert (size (delete_all (delete id entries) l) + length l = size (delete id entries))%nat; [apply IH; [done|]|lia].
  intros x Hx. rewrite lookup_delete_ne by set_solver. apply Hl. set_solver.
Qed.

Lemma bytes_of_ok m l : map_Forall (fun id e => en_txid e = id /\ 1 <= en_length e <= USIZE_MAX) (mp_entries m) ->
  pool_total (mp_entries m) <= USIZE_MAX -> NoDup l -> (forall id, id ∈ l -> is_Some (mp_entries m !! id)) ->
  exists n, bytes_of m l = Some n /\ 0 <= n /\ pool_total (mp_entries m) = n + pool_total (delete_all (mp_entries m) l).
Proof.
  intros HF Ht.
  assert (Hgen : forall entries, entries ⊆ mp_entries m -> pool_total entries <= USIZE_MAX -> NoDup l ->
    (forall id, id ∈ l -> is_Some (entries !! id)) ->
    exists n, bytes_of m l = Some n /\ 0 <= n /\ pool_total entries = n + pool_total (delete_all entries l)).
  { clear Ht. induction l as [|id l IH]; intros entries Hsub Ht Hnd Hl; [exists 0; split_and!; done|].
    apply NoDup_cons in Hnd as [Hni Hnd]. destruct (Hl id ltac:(set_solver)) as [e He].
    pose proof (lookup_weaken _ _ _ _ He Hsub) as Hm. destruct (HF _ _ Hm) as [_ Hlen].
    pose proof (pool_total_delete _ _ _ He) as Hd.
    destruct (IH (delete id entries)) as (n & Hn & Hn0 & Heq).
    - etrans; [apply delete_subseteq|done].
    - lia.
    - done.
    - intros x Hx. rewrite lookup_delete_ne by set_solver. apply Hl. set_solver.
    - cbn [bytes_of delete_all]. rewrite Hm. cbn [mbind option_bind]. rewrite Hn. cbn [mbind option_bind].
      rewrite entry_bytes_length by lia. exists (en_length e + n).
      assert (0 <= pool_total (delete_all (delete id entries) l)).
      { apply pool_total_nonneg. intros x e' Hx. rewrite delete_all_lookup in Hx. case_decide; [done|].
        apply lookup_delete_Some in Hx as [_ Hx]. apply (lookup_weaken _ _ _ _ Hx) in Hsub. apply HF in Hsub. cbn in *. lia. }
      split_and!; [apply checked_add_Some; lia|lia|lia]. }
  intros Hnd Hl. by apply Hgen.
Qed.

(** ** Admission *)

Definition nonce_window (expected actual : Z) : Prop :=
  expected <= actual <= expected + 1 + MAXIMUM_MEMPOOL_TX_CHAINING.

(** Check_nonces accepts exactly this: without a sponsor, a nonce in the chaining
    window of the origin; with one, a sponsor nonce in the sponsor's window and an
    origin nonce not beyond the origin's, the lower end of which is enforced only when
    the sponsor's nonce is the expected one. *)
Theorem check_nonces_spec `{ChainTip T} (tip : T) (c : NonceCheck)
  (Horigin : 0 <= acct_nonce (account tip (nc_origin c)) <= U64_MAX - 1 - MAXIMUM_MEMPOOL_TX_CHAINING)
  (Hpayer : 0 <= acct_nonce (account tip (default (nc_origin c) (nc_sponsor c)))
            <= U64_MAX - 1 - MAXIMUM_MEMPOOL_TX_CHAINING) :
  check_nonces tip c = Ok tt <->
  match nc_sponsor c with
  | None => nonce_window (acct_nonce (account tip (nc_origin c))) (nc_origin_nonce c)
  | Some sponsor =>
      let expected_origin := acct_nonce (account tip (nc_origin c)) in
      let expected_sponsor := acct_nonce (account tip sponsor) in
      nonce_window expected_sponsor (nc_payer_nonce c) /\
      nc_origin_nonce c <= expected_origin + 1 + MAXIMUM_MEMPOOL_TX_CHAINING /\
      (nc_payer_nonce c = expected_sponsor -> expected_origin <= nc_origin_nonce c)
  end.
Proof.
  unfold check_nonces, nonce_window, wrapping_add, MAXIMUM_MEMPOOL_TX_CHAINING in *.
  set (eo := acct_nonce (account tip (nc_origin c))) in *.
  rewrite !(Z.mod_small _ (U64_MAX + 1)) by (rewrite ?(Z.mod_small _ (U64_MAX + 1)); unfold U64_MAX in *; lia).
  destruct (nc_sponsor c) as [s|] eqn:Hs; cbn [default is_Some] in *; unfold U64_MAX in *;
    repeat case_bool_decide; cbn [andb];
    repeat match goal with
           | |- context [negb (?a =? ?b)] => destruct (Z.eqb_spec a b); cbn [negb andb actual expected]
           | |- context [?a <? ?b] => destruct (Z.ltb_spec a b); cbn [andb]
           end; cbn [id] in *; split; intros; try done; try lia; try (exfalso; by eauto); try tauto.
Qed.

Section Submission.
Context `{HO : HashesOk} `{SO : Secp256k1Ok} `{ED : Edwards} `{TIP : ChainTip T}.

(** The facts [judge] reads off a transaction it accepts. *)
Definition entry_of (tx : Transaction) (mainnet : bool) (id : Sha256Sum) (e : Entry) : Prop :=
  en_transaction e = tx /\ en_txid e = id /\
  account_address (auth_origin (tx_auth tx)) mainnet = Some (en_origin e) /\
  en_origin_nonce e = condition_nonce (auth_origin (tx_auth tx)) /\
  en_sponsor e = (sponsor ← auth_sponsor (tx_auth tx);
                  (fun a => (a, condition_nonce sponsor)) <$> account_address sponsor mainnet) /\
  en_payer e = default (en_origin e) (fst <$> en_sponsor e) /\
  en_fee e = condition_fee (auth_payer (tx_auth tx)) /\
  en_length e = Z.max (len (tx_bytes tx)) 1.

(** The highest nonce that may be chained onto an account; the sum wraps. *)
Definition chaining_limit (expected : Z) : Z := (expected + 1 + MAXIMUM_MEMPOOL_TX_CHAINING) mod (U64_MAX + 1).

(** The nonces of an entry: the next ones of their accounts, or in the chaining window. With
    a sponsor, the lower end of the origin's window is enforced only when the sponsor's nonce
    is the next one. *)
Definition nonces_chain (tip : T) (origin : StacksAddress.t) (origin_nonce : Z) (sponsor : option (StacksAddress.t * Z)) : Prop :=
  let expected := acct_nonce (account tip origin) in
  match sponsor with
  | None => origin_nonce = expected \/ expected <= origin_nonce <= chaining_limit expected
  | Some (payer, nonce) =>
      let expected_payer := acct_nonce (account tip payer) in
      (nonce = expected_payer /\ origin_nonce = expected) \/
      (expected_payer <= nonce <= chaining_limit expected_payer /\ origin_nonce <= chaining_limit expected /\
       (nonce = expected_payer -> expected <= origin_nonce))
  end.

(** What [judge] asks of a transaction: its version, chain and signatures; its fee; its
    nonces; the versions of the addresses that spend; and what its payload needs. *)
Definition admissible (network : Network.t) (tip : T) (tx : Transaction) (e : Entry) : Prop :=
  verify_authorization tx = Some (Ok tt) /\
  tx_chain_id tx = Network.chain_id network /\
  network_mainnet tx = Network.is_mainnet network /\
  Z.max 1 (en_length e) <= en_fee e /\
  nonces_chain tip (en_origin e) (en_origin_nonce e) (en_sponsor e) /\
  valid_address_version (network_mainnet tx) (StacksAddress.version (en_origin e)) = true /\
  valid_address_version (network_mainnet tx) (StacksAddress.version (en_payer e)) = true /\
  match pl_data (tx_payload tx) with
  | TokenTransfer recipient amount _ =>
      amount <> 0 /\ recipient <> PrincipalStandard (en_origin e) /\
      valid_address_version (network_mainnet tx) (principal_version recipient) = true /\
      (forall balance, acct_balance (account tip (en_origin e)) = Some balance ->
         amount + (if decide (en_origin e = en_payer e) then en_fee e else 0) <= balance)
  | PoisonMicroblock _ _ | Coinbase _ | CoinbaseToAltRecipient _ _ | NakamotoCoinbase _ _ _ | TenureChange _ => False
  | _ => forall balance, acct_balance (account tip (en_payer e)) = Some balance -> en_fee e <= balance
  end.

Lemma check_nonces_chain tip origin n sponsor payer_nonce :
  check_nonces tip (mkNonceCheck origin n sponsor payer_nonce) = Ok tt <->
  nonces_chain tip origin n ((fun s => (s, payer_nonce)) <$> sponsor).
Proof.
  unfold check_nonces, nonces_chain, wrapping_add, chaining_limit. cbn [nc_origin nc_origin_nonce nc_sponsor nc_payer_nonce].
  rewrite !Zplus_mod_idemp_l. set (eo := acct_nonce (account tip origin)).
  destruct sponsor as [s|]; cbn [default fmap option_fmap option_map]; [rewrite bool_decide_eq_true_2 by eauto|rewrite bool_decide_eq_false_2 by (by intros [? ?])]; cbn [id andb];
    repeat match goal with
           | |- context [negb (?a =? ?b)] => destruct (Z.eqb_spec a b); cbn [negb andb actual expected]
           | |- context [?a <? ?b] => destruct (Z.ltb_spec a b); cbn [andb]
           end; split; intros; try done; try (exfalso; lia); lia.
Qed.

(** What the payload asks, in [semantic_checks], [payer_check] and [payload_checks]. *)
Definition payload_admissible (tip : T) (mainnet : bool) (payload : TransactionPayloadData) (origin payer : StacksAddress.t) (fee : Z) : Prop :=
  match payload with
  | TokenTransfer recipient amount _ =>
      amount <> 0 /\ recipient <> PrincipalStandard origin /\
      valid_address_version mainnet (principal_version recipient) = true /\
      (forall balance, acct_balance (account tip origin) = Some balance ->
         amount + (if decide (origin = payer) then fee else 0) <= balance)
  | PoisonMicroblock _ _ | Coinbase _ | CoinbaseToAltRecipient _ _ | NakamotoCoinbase _ _ _ | TenureChange _ => False
  | _ => forall balance, acct_balance (account tip payer) = Some balance -> fee <= balance
  end.

Lemma payload_checks_spec tip mainnet payload origin payer fee :
  (semantic_checks payload origin mainnet = Ok tt /\ is_poison payload = false /\
   payer_check payload tip payer fee = Ok tt /\ payload_checks payload tip mainnet (mkSpend origin payer fee) = Ok tt) <->
  payload_admissible tip mainnet payload origin payer fee.
Proof.
  assert (Hpayer : is_transfer payload = false -> payer_check payload tip payer fee = Ok tt <-> forall balance, acct_balance (account tip payer) = Some balance -> fee <= balance).
  { intros Ht. unfold payer_check. rewrite Ht. destruct (acct_balance (account tip payer)) as [balance|]; [|done]. cbn. destruct (Z.ltb_spec balance fee); (split; [|done || intros Hb; specialize (Hb _ eq_refl); lia]); [done|]. by intros _ ? [= <-]. }
  destruct payload as [r a memo| | | | | | | |]; cbn [semantic_checks is_poison payload_checks payload_admissible]; try (rewrite Hpayer by done; tauto); try (split; [by intros (_ & ? & _ & ?)|done]).
  clear Hpayer. unfold payer_check. cbn [is_transfer negb andb].
  assert (Hr : (match r with PrincipalStandard x => bool_decide (x = origin) | _ => false end) = true <-> r = PrincipalStandard origin) by (destruct r; [rewrite bool_decide_eq_true; naive_solver|done]).
  cbn [sp_origin sp_payer sp_fee]. destruct (match r with PrincipalStandard x => bool_decide (x = origin) | _ => false end); [split; [by intros [? _]|intros (_ & Hn & _); by destruct Hn; apply Hr]|].
  assert (Ho : r <> PrincipalStandard origin) by (by intros ?%Hr). clear Hr. destruct (Z.eqb_spec a 0) as [->|Ha]; [split; [by intros [? _]|tauto]|].
  destruct (valid_address_version mainnet (principal_version r)); cbn [negb]; [|split; [by intros [? _]|naive_solver]].
  destruct (acct_balance (account tip origin)) as [balance|]; [|split; intros _; split_and!; try done; by destruct (acct_balance (account tip payer))].
  destruct (Z.ltb_spec balance (a + (if decide (origin = payer) then fee else 0))) as [Hlt|Hle]; split.
  - by intros (_ & _ & _ & ?).
  - intros (_ & _ & _ & Hb). specialize (Hb _ eq_refl). lia.
  - intros _. split_and!; [done..|]. by intros ? [= <-].
  - intros _. split_and!; try done. by destruct (acct_balance (account tip payer)).
Qed.

(** The entry [judge_account] builds. *)
Definition account_entry (tx : Transaction) (origin : StacksAddress.t) (sponsor : option StacksAddress.t) (id : Sha256Sum) : Entry :=
  mkEntry tx id origin (condition_nonce (auth_origin (tx_auth tx))) ((fun s => (s, condition_nonce (auth_payer (tx_auth tx)))) <$> sponsor)
    (default origin sponsor) (condition_fee (auth_payer (tx_auth tx))) (Z.max (len (tx_bytes tx)) 1) 0.

Lemma fee_rule fee length : 0 < length -> (fee <? MINIMUM_TX_FEE) || (fee / length <? MINIMUM_TX_FEE_RATE_PER_BYTE) = false <-> Z.max 1 length <= fee.
Proof.
  intros Hl. unfold MINIMUM_TX_FEE, MINIMUM_TX_FEE_RATE_PER_BYTE. rewrite orb_false_iff, !Z.ltb_ge. split.
  - intros [H1 H2]. pose proof (Z.mul_div_le fee length Hl). nia.
  - intros Hle. split; [lia|]. apply Z.div_le_lower_bound; lia.
Qed.

Lemma judge_account_spec tip mainnet tx origin sponsor id :
  let e := account_entry tx origin sponsor id in
  let accepted := Z.max 1 (en_length e) <= en_fee e /\ nonces_chain tip origin (en_origin_nonce e) (en_sponsor e) /\
    valid_address_version mainnet (StacksAddress.version origin) = true /\ valid_address_version mainnet (StacksAddress.version (en_payer e)) = true /\
    payer_check (pl_data (tx_payload tx)) tip (en_payer e) (en_fee e) = Ok tt /\ payload_checks (pl_data (tx_payload tx)) tip mainnet (mkSpend origin (en_payer e) (en_fee e)) = Ok tt in
  match judge_account tip mainnet tx origin sponsor id with Ok e' => e' = e /\ accepted | Err _ => ~ accepted end.
Proof.
  intros e accepted. unfold judge_account. set (fee := condition_fee _). set (length := Z.max _ _).
  pose proof (fee_rule fee length ltac:(unfold length; lia)) as Hfee. destruct (_ || _) in Hfee |- *; [intros (Hx & _); by apply Hfee in Hx|]. pose proof (proj1 Hfee eq_refl) as Hf.
  pose proof (check_nonces_chain tip origin (condition_nonce (auth_origin (tx_auth tx))) sponsor (condition_nonce (auth_payer (tx_auth tx)))) as Hn.
  destruct (check_nonces _ _) as [[]|]; [|intros (_ & Hx & _); by apply Hn in Hx]. pose proof (proj1 Hn eq_refl) as Hc.
  unfold accepted. cbn [e account_entry en_payer en_fee en_length en_origin_nonce en_sponsor]. fold fee length.
  destruct (valid_address_version mainnet (StacksAddress.version origin)); [|cbn; naive_solver]. destruct (valid_address_version mainnet (StacksAddress.version (default origin sponsor))); [|cbn; naive_solver]. cbn [negb orb].
  destruct (payer_check _ _ _ _) as [[]|]; [|cbn; naive_solver]. destruct (payload_checks _ _ _ _) as [[]|]; cbn; [|naive_solver]. done.
Qed.

(** [judge] accepts exactly the transactions that are admissible. *)
Lemma judge_ok m tx tip id : transaction_ok tx -> txid tx = Some id ->
  exists r e, judge m tx tip = Some r /\ entry_of tx (network_mainnet tx) id e /\
    match r with Ok e' => e' = e /\ admissible (mp_network m) tip tx e | Err _ => ~ admissible (mp_network m) tip tx e end.
Proof.
  intros Htx Hid. unfold judge. fold (network_mainnet tx).
  destruct (account_address_total (auth_origin (tx_auth tx)) (network_mainnet tx)) as [origin Horigin].
  assert (Hsp : exists sponsor, sponsor_of tx (network_mainnet tx) = Some sponsor /\
    ((fun s => (s, condition_nonce (auth_payer (tx_auth tx)))) <$> sponsor) =
    (c ← auth_sponsor (tx_auth tx); (fun a => (a, condition_nonce c)) <$> account_address c (network_mainnet tx))).
  { unfold sponsor_of. destruct (tx_auth tx) as [o|o s]; cbn; [by exists None|].
    destruct (account_address_total s (network_mainnet tx)) as [a ->]. cbn. by exists (Some a). }
  destruct Hsp as (sponsor & Hsp & Hsponsor). set (e := account_entry tx origin sponsor id).
  assert (Hent : entry_of tx (network_mainnet tx) id e) by (unfold entry_of; cbn; split_and!; try done; by destruct sponsor).
  assert (Hpay : admissible (mp_network m) tip tx e -> payload_admissible tip (network_mainnet tx) (pl_data (tx_payload tx)) origin (en_payer e) (en_fee e)) by (unfold admissible; tauto).
  rewrite <- payload_checks_spec in Hpay.
  destruct (Bool.eqb _ _) eqn:Hnet; cbn [negb]; [|exists (Err Rejection.BadTransactionVersion), e; split_and!; try done; intros (_ & _ & Hn & _); apply Bool.eqb_false_iff in Hnet; done].
  apply Bool.eqb_prop in Hnet. rewrite Horigin. cbn [mbind option_bind]. rewrite Hsp. cbn [mbind option_bind].
  destruct (semantic_checks _ _ _) as [[]|] eqn:Hsem; [|do 2 eexists; split; [done|split; [exact Hent|by intros [? _]%Hpay]]].
  destruct (is_poison _) eqn:Hpoison; [do 2 eexists; split; [done|split; [exact Hent|by intros (_ & ? & _)%Hpay]]|].
  destruct (verify_authorization_total tx Htx) as [auth Hauth]. rewrite Hauth. cbn [mbind option_bind].
  destruct auth as [[]|]; [|do 2 eexists; split; [done|split; [exact Hent|intros [Ha _]; by rewrite Hauth in Ha]]].
  destruct (Z.eqb_spec (tx_chain_id tx) (Network.chain_id (mp_network m))) as [Hchain|Hchain]; cbn [negb]; [|do 2 eexists; split; [done|split; [exact Hent|by intros (_ & ? & _)]]].
  rewrite Hid. cbn [mbind option_bind]. do 2 eexists. split; [done|]. split; [exact Hent|].
  pose proof (judge_account_spec tip (network_mainnet tx) tx origin sponsor id) as Hj. cbv zeta in Hj. fold e in Hj.
  assert (Hiff : admissible (mp_network m) tip tx e <-> Z.max 1 (en_length e) <= en_fee e /\ nonces_chain tip origin (en_origin_nonce e) (en_sponsor e) /\
    valid_address_version (network_mainnet tx) (StacksAddress.version origin) = true /\ valid_address_version (network_mainnet tx) (StacksAddress.version (en_payer e)) = true /\
    payer_check (pl_data (tx_payload tx)) tip (en_payer e) (en_fee e) = Ok tt /\ payload_checks (pl_data (tx_payload tx)) tip (network_mainnet tx) (mkSpend origin (en_payer e) (en_fee e)) = Ok tt).
  { split; [intros Ha; pose proof (Hpay Ha); unfold admissible in Ha; cbn [e account_entry en_origin] in Ha; tauto|]. intros (H1 & H2 & H3 & H4 & H5 & H6).
    assert (Hp : payload_admissible tip (network_mainnet tx) (pl_data (tx_payload tx)) origin (en_payer e) (en_fee e)) by (by apply payload_checks_spec).
    unfold admissible. split_and!; done. }
  destruct (judge_account _ _ _ _ _ _) as [e'|]; rewrite Hiff; exact Hj.
Qed.

(** The pool after [e] took the place of the transactions it conflicts with. *)
Definition holds_instead (m m' : Mempool) (id : Sha256Sum) (e : Entry) (replaced : list Sha256Sum) : Prop :=
  mp_entries m' = <[id := e]> (delete_all (mp_entries m) replaced) /\ NoDup replaced /\
  (forall prior, prior ∈ replaced <-> exists old, mp_entries m !! prior = Some old /\ conflicts old e) /\
  (forall prior old, prior ∈ replaced -> mp_entries m !! prior = Some old -> en_fee old < en_fee e).

(** Why an entry is refused: it is not admissible, or one it conflicts with pays as much,
    or it does not fit in the place of those it conflicts with. *)
Definition refused (m : Mempool) (tip : T) (tx : Transaction) (e : Entry) : Prop :=
  ~ admissible (mp_network m) tip tx e \/
  (exists prior old, mp_entries m !! prior = Some old /\ conflicts old e /\ en_fee e <= en_fee old) \/
  (exists replaced, NoDup replaced /\ (forall prior, prior ∈ replaced <-> exists old, mp_entries m !! prior = Some old /\ conflicts old e) /\
     (lim_transactions (mp_limits m) < Z.of_nat (size (delete_all (mp_entries m) replaced)) + 1 \/
      lim_bytes (mp_limits m) < pool_total (delete_all (mp_entries m) replaced) + en_length e)).

(** Replacing the conflicting entries by [e] keeps the invariant. *)
Lemma replace_ok m id e replaced : pool_ok m -> mp_entries m !! id = None -> en_txid e = id ->
  1 <= en_length e <= USIZE_MAX -> NoDup replaced ->
  (forall prior, prior ∈ replaced <-> exists old, mp_entries m !! prior = Some old /\ conflicts old e) ->
  Z.of_nat (size (delete_all (mp_entries m) replaced)) + 1 <= lim_transactions (mp_limits m) ->
  pool_total (delete_all (mp_entries m) replaced) + en_length e <= lim_bytes (mp_limits m) ->
  exists m1 m', remove_all m replaced = Some m1 /\ insert_entry m1 id e = Some m' /\ pool_ok m' /\
    mp_entries m' = <[id := e]> (delete_all (mp_entries m) replaced).
Proof.
  intros Hok Hid Htxid Hlen Hnd Hrep Hcount Hbytes.
  destruct (remove_all_ok m replaced Hok) as (m1 & Hr & Hok1 & He & Hn & Hl).
  destruct (Hok1) as (HF1 & Ho1 & Hs1 & Hb1 & Hle1 & Hu1 & Hsz1). rewrite He in *.
  assert (Hid1 : delete_all (mp_entries m) replaced !! id = None) by (rewrite delete_all_lookup; by case_decide).
  assert (Hfree : forall old x, delete_all (mp_entries m) replaced !! x = Some old -> ~ conflicts old e).
  { intros old x Hx Hc. rewrite delete_all_lookup in Hx. case_decide as Hin; [done|]. apply Hin, Hrep. eauto. }
  exists m1. unfold insert_entry. rewrite entry_bytes_length by lia.
  rewrite (proj2 (checked_add_Some USIZE_MAX (mp_bytes m1) (en_length e) _)) by (split; [done|]; rewrite Hl in *; lia).
  cbn [mbind option_bind]. eexists. split; [done|]. split; [done|]. cbn. rewrite He. split; [|done].
  split_and!; cbn; rewrite ?He.
  - by apply map_Forall_insert.
  - apply (indexes_insert _ _ origin_key); [done..|]. intros k Hk. destruct (mp_origins m1 !! k) as [x|] eqn:Hx; [|done].
    apply Ho1 in Hx as (old & Hold & Hk'). exfalso. apply (Hfree old x Hold). left. congruence.
  - apply (indexes_insert _ _ en_sponsor); [done..|]. intros k Hk. destruct (mp_sponsors m1 !! k) as [x|] eqn:Hx; [|done].
    apply Hs1 in Hx as (old & Hold & Hk'). exfalso. apply (Hfree old x Hold). right. eauto.
  - rewrite pool_total_insert by done. lia.
  - lia.
  - rewrite Hl in *. lia.
  - done.
  - rewrite map_size_insert_None by done. rewrite Hl. lia.
Qed.

Lemma submit_ok m tx tip now id : pool_ok m -> transaction_ok tx -> txid tx = Some id ->
  len (tx_bytes tx) <= USIZE_MAX ->
  exists r m', submit m tx tip now = Some (r, m') /\ pool_ok m' /\
    match r with
    | Ok AlreadyPresent => m' = m /\ is_Some (mp_entries m !! id)
    | Ok admission => exists e replaced, entry_of tx (network_mainnet tx) id e /\
        admissible (mp_network m) tip tx e /\ en_accepted_at e = now /\ mp_entries m !! id = None /\
        holds_instead m m' id e replaced /\
        admission = match replaced with [] => Added | _ => Replaced replaced end
    | Err _ => mp_entries m' = mp_entries m /\ mp_entries m !! id = None /\
        exists e, entry_of tx (network_mainnet tx) id e /\ refused m tip tx e
    end.
Proof.
  intros Hok Htx Hid Hfits. unfold submit. rewrite Hid. cbn [mbind option_bind]. unfold contains.
  case_bool_decide as Hin; [do 2 eexists; by split_and!|]. rewrite <- eq_None_not_Some in Hin.
  destruct (judge_ok m tx tip id Htx Hid) as (r & e0 & -> & Hent & Hj). cbn [mbind option_bind].
  destruct r as [e1|rej]; [|do 2 eexists; split; [done|]; split; [done|]; split; [done|]; split; [done|]; exists e0; split; [done|by left]].
  destruct Hj as [-> Hadm]. set (e := set_accepted_at now e0).
  assert (Hent' : entry_of tx (network_mainnet tx) id e) by done.
  assert (Hadm' : admissible (mp_network m) tip tx e) by done.
  destruct (outbid_ok m e Hok) as (b & -> & Hb). cbn [mbind option_bind].
  destruct b as [replaced|rej]; [|destruct Hb as [_ Hb]; do 2 eexists; split; [done|]; split; [done|]; split; [done|]; split; [done|]; exists e; split; [done|right; by left]].
  destruct Hb as (Hnd & Hrep & Hfee). pose proof Hok as (HF & _ & _ & Hbytes & Hle & Hu & Hsz).
  assert (Hpresent : forall x, x ∈ replaced -> is_Some (mp_entries m !! x)) by (intros x (old & ? & _)%Hrep; eauto).
  destruct (bytes_of_ok m replaced HF ltac:(lia) Hnd Hpresent) as (n & -> & Hn & Ht). cbn [mbind option_bind].
  pose proof (delete_all_size _ _ Hnd Hpresent) as Hs.
  assert (Hpos : 0 <= pool_total (delete_all (mp_entries m) replaced)).
  { destruct (remove_all_ok m replaced Hok) as (m1 & _ & (_ & _ & _ & Hb1 & Hle1 & _) & He1 & _). rewrite <- He1. lia. }
  unfold checked_sub. rewrite (proj2 (Z.leb_le (len replaced) _)) by lia. cbn [mbind option_bind].
  rewrite (proj2 (Z.leb_le n _)) by lia. cbn [mbind option_bind].
  assert (Hlen : 1 <= en_length e <= USIZE_MAX).
  { destruct Hent' as (_ & _ & _ & _ & _ & _ & _ & ->). unfold USIZE_MAX, U64_MAX in *. lia. }
  rewrite entry_bytes_length by lia. unfold saturating_sub. destruct (_ || _) eqn:Hfull.
  { do 2 eexists. split; [done|]. split; [exact Hok|]. split; [done|]. split; [done|]. exists e. split; [done|]. right. right. exists replaced. split; [done|]. split; [done|].
    apply orb_true_iff in Hfull as [Hf%Z.ltb_lt|Hf%Z.ltb_lt]; [left|right]; lia. }
  destruct (replace_ok m id e replaced) as (m1 & m' & -> & Hi & Hok' & He); [done|done|by destruct Hent' as (_ & ? & _)|done..|lia|lia|].
  cbn [mbind option_bind]. rewrite Hi. cbn [mbind option_bind].
  do 2 eexists. split; [done|]. split; [done|].
  assert (Hh : holds_instead m m' id e replaced) by (by split_and!).
  destruct replaced as [|x replaced]; [exists e, []|exists e, (x :: replaced)]; split_and!; done.
Qed.

(** C6: [Mempool::submit] on a consistent pool does not panic and has one of three
    outcomes. The transaction was held already and nothing changes; or it is admitted,
    its entry meets every admission rule, exactly the conflicting entries left and
    each of them paid a lower fee; or it is rejected, the entries are as they were,
    and its entry breaks an admission rule, conflicts with one that pays as much, or
    does not fit. The rules include the versions of the addresses and the nonces of
    origin and payer. *)
Theorem submit_spec (m : Mempool) (tx : Transaction) (tip : T) (now : Z) (id : Sha256Sum)
  (Hok : pool_ok m) (Htx : transaction_ok tx) (Hid : txid tx = Some id) (Hfits : len (tx_bytes tx) <= USIZE_MAX) :
  exists r m', submit m tx tip now = Some (r, m') /\
    match r with
    | Ok AlreadyPresent => m' = m /\ is_Some (mp_entries m !! id)
    | Ok admission => exists e replaced, entry_of tx (network_mainnet tx) id e /\
        admissible (mp_network m) tip tx e /\ en_accepted_at e = now /\ mp_entries m !! id = None /\
        holds_instead m m' id e replaced /\
        admission = match replaced with [] => Added | _ => Replaced replaced end
    | Err _ => mp_entries m' = mp_entries m /\ mp_entries m !! id = None /\
        exists e, entry_of tx (network_mainnet tx) id e /\ refused m tip tx e
    end.
Proof.
  destruct (submit_ok m tx tip now id Hok Htx Hid Hfits) as (r & m' & ? & _ & ?). by exists r, m'.
Qed.

(** ** Reachable pools *)

Inductive pool_step : Mempool -> Mempool -> Prop :=
| pool_submit m tx tip now r m' : transaction_ok tx -> is_Some (txid tx) -> len (tx_bytes tx) <= USIZE_MAX ->
    submit m tx tip now = Some (r, m') -> pool_step m m'
| pool_remove m id r m' : remove m id = Some (r, m') -> pool_step m m'
| pool_advance m tip now dropped m' : advance m (tip : T) now = Some (dropped, m') -> pool_step m m'.

Inductive pool_reachable (network : Network.t) (limits : MempoolLimits) : Mempool -> Prop :=
| pool_start : pool_reachable network limits (with_limits network limits)
| pool_next m m' : pool_reachable network limits m -> pool_step m m' -> pool_reachable network limits m'.

Lemma pool_step_ok m m' : pool_ok m -> pool_step m m' -> pool_ok m'.
Proof.
  intros Hok Hst. destruct Hst as [m tx tip now r m' Htx [id Hid] Hfits Hs|m id r m' Hr|m tip now dropped m' Ha].
  - destruct (submit_ok m tx tip now id Hok Htx Hid Hfits) as (r' & m2 & Hs' & Hok2 & _). by simplify_eq.
  - destruct (remove_ok m id Hok) as (r' & m2 & Hr' & Hok2 & _). by simplify_eq.
  - unfold advance in Ha. apply bind_Some in Ha as (m2 & Ha & [= <- <-]).
    match type of Ha with remove_all _ ?l = _ => destruct (remove_all_ok m l Hok) as (m3 & Ha' & Hok3 & _) end. by simplify_eq.
Qed.

Lemma pool_reachable_ok network limits m : 0 < lim_transactions limits -> 0 < lim_bytes limits <= USIZE_MAX ->
  pool_reachable network limits m -> pool_ok m.
Proof. intros Ht Hb. induction 1; [by apply pool_empty|by eapply pool_step_ok]. Qed.

(** C7: In every pool reached by submit, remove and advance the byte count is the sum
    over the entries, both limits hold, no two entries spend the same origin nonce or
    the same sponsor nonce, and both nonce indexes describe exactly the entries. *)
Theorem pool_invariant (network : Network.t) (limits : MempoolLimits) (m : Mempool)
  (Ht : 0 < lim_transactions limits) (Hb : 0 < lim_bytes limits <= USIZE_MAX)
  (Hr : pool_reachable network limits m) :
  mp_bytes m = pool_total (mp_entries m) /\ mp_bytes m <= lim_bytes (mp_limits m) /\
  Z.of_nat (size (mp_entries m)) <= lim_transactions (mp_limits m) /\
  (forall id1 id2 e1 e2, mp_entries m !! id1 = Some e1 -> mp_entries m !! id2 = Some e2 -> conflicts e1 e2 -> id1 = id2) /\
  indexes (mp_origins m) (mp_entries m) origin_key /\ indexes (mp_sponsors m) (mp_entries m) en_sponsor.
Proof.
  destruct (pool_reachable_ok _ _ _ Ht Hb Hr) as (_ & Ho & Hs & Hbytes & Hle & _ & Hsz).
  split_and!; [done|lia|done| |done|done]. intros id1 id2 e1 e2 H1 H2 [Hk|(k & K1 & K2)].
  - by eapply (indexes_unique _ _ origin_key).
  - by eapply (indexes_unique _ _ en_sponsor).
Qed.

End Submission.

(** ** Pages *)

Section Pages.
Context `{HO : HashesOk} `{SO : Secp256k1Ok}.

Fixpoint tx_sizes (txs : list Transaction) : Z :=
  match txs with [] => 0 | tx :: txs => len (tx_bytes tx) + tx_sizes txs end.

Lemma tx_sizes_app l1 l2 : tx_sizes (l1 ++ l2) = tx_sizes l1 + tx_sizes l2.
Proof. induction l1 as [|t l1 IH]; cbn [app tx_sizes]; lia. Qed.

(** The transaction identifiers a page may send: past the cursor, wanted, and not
    larger than a whole page. *)
Definition sendable (m : Mempool) (after : option Sha256Sum) (max_bytes : Z) (wanted : Sha256Sum -> bool)
  (id : Sha256Sum) : bool :=
  negb (match after with Some after => bool_decide (bytes_le id after) | None => false end || negb (wanted id)) &&
  match get m id with Some tx => len (tx_bytes tx) <=? max_bytes | None => false end.

Lemma page_loop_ok m after max_transactions max_bytes wanted ids acc :
  0 < max_transactions -> 0 <= max_bytes <= USIZE_MAX -> (forall id, id ∈ ids -> is_Some (mp_entries m !! id)) ->
  tx_sizes acc <= max_bytes -> len acc <= max_transactions ->
  exists ids1 ids2 txs more,
    page_loop m after max_transactions max_bytes wanted ids acc (tx_sizes acc) = Some (txs, more) /\
    ids = ids1 ++ ids2 /\ txs = acc ++ omap (get m) (List.filter (sendable m after max_bytes wanted) ids1) /\
    tx_sizes txs <= max_bytes /\ len txs <= max_transactions /\ (if more then txs <> [] else ids2 = []).
Proof.
  intros Hmt Hmb. revert acc. induction ids as [|id ids IH]; intros acc Hin Hsz Hlen.
  { exists [], [], acc, false. cbn. by rewrite app_nil_r. }
  assert (Hskip : sendable m after max_bytes wanted id = false ->
    exists ids1 ids2 txs more,
    page_loop m after max_transactions max_bytes wanted ids acc (tx_sizes acc) = Some (txs, more) /\
    id :: ids = ids1 ++ ids2 /\ txs = acc ++ omap (get m) (List.filter (sendable m after max_bytes wanted) ids1) /\
    tx_sizes txs <= max_bytes /\ len txs <= max_transactions /\ (if more then txs <> [] else ids2 = [])).
  { intros Hs. destruct (IH acc) as (i1 & i2 & txs & more & ? & -> & -> & ?); [set_solver|done|done|].
    exists (id :: i1), i2. do 2 eexists. split; [done|]. split; [done|]. cbn [List.filter]. by rewrite Hs. }
  cbn [page_loop]. destruct (_ || negb (wanted id)) eqn:He.
  { apply Hskip. unfold sendable. by rewrite He. }
  destruct (Hin id ltac:(set_solver)) as [e Hid]. rewrite Hid. cbn [mbind option_bind].
  assert (Hget : get m id = Some (en_transaction e)) by (unfold get; by rewrite Hid).
  destruct (bool_decide (acc = []) && _) eqn:Hbig.
  { apply Hskip. unfold sendable. rewrite Hget. apply andb_true_iff in Hbig as [_ Hbig].
    apply andb_false_iff. right. lia. }
  assert (Hnn : 0 <= tx_sizes acc) by (clear; induction acc; cbn in *; lia).
  match goal with |- context [if ?b then Some (acc, true) else _] => destruct b eqn:Hstop end.
  - exists [], (id :: ids), acc, true. rewrite app_nil_r. split_and!; try done. intros ->. cbn in Hbig, Hstop.
    destruct (checked_add _ _ _) as [sum|] eqn:Hc.
    + apply checked_add_Some in Hc as [-> ?]. lia.
    + unfold checked_add in Hc. destruct (Z.leb_spec (0 + len (tx_bytes (en_transaction e))) USIZE_MAX); [done|]. lia.
  - apply orb_false_iff in Hstop as [Hne Hstop]. destruct (checked_add _ _ _) as [sum|] eqn:Hc; [|done].
    apply checked_add_Some in Hc as [-> Hc].
    replace (tx_sizes acc + len (tx_bytes (en_transaction e))) with (tx_sizes (acc ++ [en_transaction e])) in *
      by (rewrite tx_sizes_app; cbn; lia).
    destruct (IH (acc ++ [en_transaction e])) as (i1 & i2 & txs & more & ? & -> & -> & ?);
      [set_solver|lia|rewrite length_app; cbn; lia|].
    exists (id :: i1), i2. do 2 eexists. split; [done|]. split; [done|]. cbn [List.filter].
    assert (Hs : sendable m after max_bytes wanted id = true).
    { unfold sendable. rewrite He, Hget. cbn. rewrite tx_sizes_app in Hstop. cbn in Hstop. lia. }
    rewrite Hs. cbn [omap list_omap]. rewrite Hget. by rewrite <- app_assoc in *.
Qed.

Lemma filter_snoc_split {A} (p : A -> bool) l l0 x : List.filter p l = l0 ++ [x] ->
  exists a b, l = a ++ x :: b /\ p x = true /\ List.filter p b = [].
Proof.
  revert l0 x. induction l as [|y l IH] using rev_ind; intros l0 x Hf; [by destruct l0|].
  rewrite List.filter_app in Hf. cbn in Hf. destruct (p y) eqn:Hy.
  - apply app_inj_tail in Hf as [_ ->]. by exists l, [].
  - rewrite app_nil_r in Hf. destruct (IH _ _ Hf) as (a & b & -> & Hx & Hb). exists a, (b ++ [y]).
    rewrite <- app_assoc, List.filter_app, Hb. cbn. by rewrite Hy.
Qed.

(** The identifiers of the pool, in the order pages send them. *)
Definition sorted_ids (m : Mempool) : list Sha256Sum := sort_txids (map_to_list (mp_entries m)).*1.

Lemma sorted_ids_elem m id : id ∈ sorted_ids m <-> is_Some (mp_entries m !! id).
Proof.
  unfold sorted_ids. rewrite sort_txids_perm, list_elem_of_fmap. split.
  - intros ([id' e] & -> & He%elem_of_map_to_list). eauto.
  - intros [e He]. exists (id, e). split; [done|]. by apply elem_of_map_to_list.
Qed.

Lemma sorted_ids_order m i1 x i2 : sorted_ids m = i1 ++ x :: i2 ->
  (forall y, y ∈ i1 -> bytes_le y x) /\ (forall y, y ∈ i2 -> ~ bytes_le y x).
Proof.
  intros Heq. assert (Hnd : NoDup (sorted_ids m)) by (unfold sorted_ids; rewrite sort_txids_perm; apply NoDup_fst_map_to_list).
  pose proof (sort_txids_sorted (map_to_list (mp_entries m)).*1) as Hs. fold (sorted_ids m) in Hs. rewrite Heq in *.
  apply NoDup_app in Hnd as (_ & Hdis & Hnd). apply NoDup_cons in Hnd as [Hnx Hnd].
  assert (Hx : forall y, y ∈ i2 -> bytes_le x y).
  { intros y Hy. assert (Hs2 : StronglySorted bytes_le (x :: i2)).
    { clear -Hs. induction i1 as [|z i1 IH]; [done|]. apply IH. by apply StronglySorted_inv in Hs as [? _]. }
    apply StronglySorted_inv in Hs2 as [_ HF]. rewrite Forall_forall in HF. by apply HF. }
  split.
  - intros y Hy. clear -Hs Hy. induction i1 as [|z i1 IH]; [by apply elem_of_nil in Hy|]. cbn in Hs.
    apply StronglySorted_inv in Hs as [Hs HF]. apply elem_of_cons in Hy as [->|Hy]; [|by apply IH].
    rewrite Forall_forall in HF. apply HF. set_solver.
  - intros y Hy Hle. assert (x = y) as -> by (apply (anti_symm bytes_le); auto). done.
Qed.

Lemma filter_none {A} (p : A -> bool) l : (forall y, y ∈ l -> p y = false) -> List.filter p l = [].
Proof.
  induction l as [|x l IH]; intros Hp; [done|]. cbn. rewrite Hp by set_solver. apply IH. set_solver.
Qed.

Lemma filter_same {A} (p q : A -> bool) l : (forall y, y ∈ l -> p y = q y) -> List.filter p l = List.filter q l.
Proof.
  induction l as [|x l IH]; intros Hp; [done|]. cbn. rewrite Hp by set_solver. rewrite IH by set_solver. done.
Qed.

(** Resuming after the last transaction of a page sends exactly what was left. *)
Lemma sendable_resume m after max_bytes wanted a x b i2 :
  sorted_ids m = (a ++ x :: b) ++ i2 -> sendable m after max_bytes wanted x = true ->
  List.filter (sendable m after max_bytes wanted) b = [] ->
  List.filter (sendable m (Some x) max_bytes wanted) (sorted_ids m) =
  List.filter (sendable m after max_bytes wanted) i2.
Proof.
  intros Heq Hx Hb. rewrite <- app_assoc in Heq. cbn in Heq. destruct (sorted_ids_order _ _ _ _ Heq) as [Hlo Hhi]. rewrite Heq.
  assert (Hsame : forall y, y ∈ b ++ i2 -> sendable m (Some x) max_bytes wanted y = sendable m after max_bytes wanted y).
  { intros y Hy. apply Hhi in Hy. unfold sendable in *. rewrite (bool_decide_eq_false_2 (bytes_le y x)) by done.
    apply andb_true_iff in Hx as [Hx _]. destruct after as [af|]; [|done]. rewrite (bool_decide_eq_false_2 (bytes_le y af)); [done|].
    apply negb_true_iff, orb_false_iff in Hx as [Hx _]. apply bool_decide_eq_false in Hx.
    intros Hle. destruct (total bytes_le af x); [|done]. apply Hy. by trans af. }
  assert (Hnone : forall y, y ∈ a ++ [x] -> sendable m (Some x) max_bytes wanted y = false).
  { intros y Hy. unfold sendable. rewrite bool_decide_eq_true_2; [done|].
    apply elem_of_app in Hy as [Hy|Hy]; [by apply Hlo|]. apply list_elem_of_singleton in Hy as ->. apply bytes_le_lt_eq. by right. }
  replace (a ++ x :: b ++ i2) with ((a ++ [x]) ++ b ++ i2) by by rewrite <- !app_assoc.
  rewrite List.filter_app, (filter_none _ _ Hnone), (filter_same _ _ _ Hsame), List.filter_app, Hb. done.
Qed.

Section Paging.
Context (m : Mempool) (max_transactions max_bytes : Z) (wanted : Sha256Sum -> bool).
Hypothesis Hmt : 0 < max_transactions.
Hypothesis Hmb : 0 <= max_bytes <= USIZE_MAX.
Hypothesis Hids : map_Forall (fun id e => txid (en_transaction e) = Some id) (mp_entries m).

(** What is still to be sent after a cursor. *)
Definition to_send (after : option Sha256Sum) : list Sha256Sum :=
  List.filter (sendable m after max_bytes wanted) (sorted_ids m).

Lemma page_ok after : exists txs next sent,
  page m after max_transactions max_bytes wanted = Some (txs, next) /\ txs = omap (get m) sent /\
  tx_sizes txs <= max_bytes /\ len txs <= max_transactions /\
  match next with
  | None => to_send after = sent
  | Some cursor => sent <> [] /\ to_send after = sent ++ to_send (Some cursor)
  end.
Proof.
  unfold page. rewrite (proj2 (Z.eqb_neq max_transactions 0)) by lia. fold (sorted_ids m).
  destruct (page_loop_ok m after max_transactions max_bytes wanted (sorted_ids m) []) as
    (i1 & i2 & txs & more & Hpl & Heq & Htxs & Hsz & Hlen & Hmore); [done|done|by intros id ?%sorted_ids_elem|cbn; lia|cbn; lia|].
  change (tx_sizes []) with 0 in Hpl. rewrite Hpl. cbn [mbind option_bind]. cbn [app] in Htxs.
  set (sent := List.filter (sendable m after max_bytes wanted) i1) in *.
  destruct more; cbn [negb].
  - assert (Hsent : sent <> []) by (intros Hn; by rewrite Hn in Htxs).
    destruct (exists_last Hsent) as (l0 & x & Hl0). destruct (filter_snoc_split _ _ _ _ Hl0) as (a & b & Hi1 & Hx & Hb).
    destruct (get m x) as [tx|] eqn:Hget; [|unfold sendable in Hx; rewrite Hget, andb_false_r in Hx; done].
    assert (Hlast : last txs = Some tx).
    { rewrite Htxs, Hl0, omap_app. cbn. rewrite Hget. apply last_snoc. }
    rewrite Hlast. cbn [mbind option_bind].
    assert (Hid : txid tx = Some x).
    { unfold get in Hget. destruct (mp_entries m !! x) as [e|] eqn:He; [|done]. injection Hget as <-. by apply Hids. }
    rewrite Hid. cbn [mbind option_bind]. exists txs, (Some x), sent. split_and!; try done.
    unfold to_send. rewrite (sendable_resume m after max_bytes wanted a x b i2) by (by rewrite <- ?Hi1).
    by rewrite Heq, List.filter_app.
  - exists txs, None, sent. split_and!; try done. unfold to_send. rewrite Heq, Hmore, app_nil_r. done.
Qed.

(** A peer that asks page after page. *)
Fixpoint all_pages (fuel : nat) (after : option Sha256Sum) : option (list Transaction) :=
  match fuel with
  | O => None
  | S fuel =>
      '(txs, next) ← page m after max_transactions max_bytes wanted;
      match next with
      | None => Some txs
      | Some cursor => rest ← all_pages fuel (Some cursor); Some (txs ++ rest)
      end
  end.

Lemma all_pages_complete fuel after : (length (to_send after) < fuel)%nat ->
  all_pages fuel after = Some (omap (get m) (to_send after)).
Proof.
  revert after. induction fuel as [|fuel IH]; intros after Hf; [lia|]. cbn [all_pages].
  destruct (page_ok after) as (txs & next & sent & -> & -> & _ & _ & Hnext). cbn [mbind option_bind].
  destruct next as [cursor|]; [|by rewrite Hnext]. destruct Hnext as [Hne Heq]. rewrite Heq in *.
  rewrite length_app in Hf. rewrite IH; [|destruct sent; [done|cbn in Hf; lia]].
  cbn [mbind option_bind]. by rewrite omap_app.
Qed.

(** C25: A peer that asks for page after page, resuming at each cursor, receives every
    held transaction it wants that fits a page, once, in identifier order, after at
    most as many pages as there are such transactions plus one. *)
Theorem pages_complete (after : option Sha256Sum) :
  (exists txs next, page m after max_transactions max_bytes wanted = Some (txs, next) /\
    tx_sizes txs <= max_bytes /\ len txs <= max_transactions) /\
  forall fuel, (length (to_send after) < fuel)%nat -> all_pages fuel after = Some (omap (get m) (to_send after)).
Proof.
  split; [|intros fuel; apply all_pages_complete].
  destruct (page_ok after) as (txs & next & sent & ? & _ & ? & ? & _). by exists txs, next.
Qed.

End Paging.
End Pages.
