(* ===== verification/MempoolCandidates.v ===== *)
(** * Theorems about the candidates the pool offers a block *)

From stdpp Require Import gmap fin_maps sorting.
From S2P Require Import Prelude Primitives Address CodecIO Crypto TxData TxCodec TxWire.
From S2P Require Import TxTheorems TxAuth TxAuthTheorems Mempool MempoolTheorems.

(** ** The heap *)

(** Cross products order by fee per byte, whatever the lengths. *)
Lemma rate_lt_trans f1 l1 f2 l2 f3 l3 : 0 < l1 -> 0 < l2 -> 0 < l3 ->
  f1 * l2 <= f2 * l1 -> f2 * l3 <= f3 * l2 -> f1 * l3 <= f3 * l1.
Proof.
  intros H1 H2 H3 Ha Hb. apply (Z.mul_le_mono_pos_r _ _ l2 H2).
  transitivity (f2 * l1 * l3); [nia|]. transitivity (f3 * l2 * l1); [nia|]. nia.
Qed.

Lemma rate_lt_trans_strict f1 l1 f2 l2 f3 l3 : 0 < l1 -> 0 < l2 -> 0 < l3 ->
  (f1 * l2 < f2 * l1 /\ f2 * l3 <= f3 * l2) \/ (f1 * l2 <= f2 * l1 /\ f2 * l3 < f3 * l2) ->
  f1 * l3 < f3 * l1.
Proof.
  intros H1 H2 H3 Hab. apply (Z.mul_lt_mono_pos_r l2 _ _ H2).
  destruct Hab as [[Ha Hb]|[Ha Hb]].
  - apply (Z.lt_le_trans _ (f2 * l1 * l3)); nia.
  - apply (Z.le_lt_trans _ (f2 * l1 * l3)); nia.
Qed.

Lemma candidate_cmp_antisym a b : candidate_cmp b a = CompOpp (candidate_cmp a b).
Proof.
  unfold candidate_cmp. rewrite (Z.compare_antisym (en_fee a * en_length b)).
  destruct (_ ?= _); cbn; [|done..]. by rewrite (compare_bytes_antisym (en_txid b)).
Qed.

Lemma candidate_cmp_eq a b : candidate_cmp a b = Eq -> en_txid a = en_txid b.
Proof. unfold candidate_cmp. destruct (_ ?= _); [|done..]. by intros ->%compare_bytes_eq. Qed.

Lemma candidate_cmp_refl a : candidate_cmp a a = Eq.
Proof. unfold candidate_cmp. rewrite Z.compare_refl. by apply compare_bytes_eq. Qed.

(** [a] is at most as good a candidate as [b]. *)
Definition cand_le (a b : Entry) : Prop := candidate_cmp a b <> Gt.

Lemma cand_le_trans a b c : 0 < en_length a -> 0 < en_length b -> 0 < en_length c ->
  cand_le a b -> cand_le b c -> cand_le a c.
Proof.
  intros Ha Hb Hc. unfold cand_le, candidate_cmp.
  destruct (Z.compare_spec (en_fee a * en_length b) (en_fee b * en_length a)) as [E1|E1|E1];
  destruct (Z.compare_spec (en_fee b * en_length c) (en_fee c * en_length b)) as [E2|E2|E2]; try done;
  destruct (Z.compare_spec (en_fee a * en_length c) (en_fee c * en_length a)) as [E3|E3|E3]; try done; intros H1 H2.
  1: { assert (bytes_le (en_txid c) (en_txid a)); [|done]. by trans (en_txid b). }
  all: exfalso.
  all: try (pose proof (rate_lt_trans _ _ _ _ _ _ Ha Hb Hc (Z.eq_le_incl _ _ E1) (Z.eq_le_incl _ _ E2)); lia).
  all: pose proof (rate_lt_trans_strict (en_fee a) (en_length a) (en_fee b) (en_length b) (en_fee c) (en_length c) Ha Hb Hc ltac:(lia)); lia.
Qed.

Lemma heap_pop_spec h : (forall e, e ∈ h -> 0 < en_length e) ->
  match heap_pop h with
  | None => h = []
  | Some (b, r) => h ≡ₚ b :: r /\ forall e, e ∈ r -> cand_le e b
  end.
Proof.
  induction h as [|e h IH]; intros Hl; [done|]. cbn [heap_pop]. specialize (IH ltac:(set_solver)).
  destruct (heap_pop h) as [[b r]|]; [|subst; split; [done|]; set_solver].
  destruct IH as [Hp Hmax]. assert (Hb : 0 < en_length b) by (apply Hl; rewrite Hp; set_solver).
  assert (He : 0 < en_length e) by (apply Hl; set_solver).
  destruct (candidate_cmp e b) eqn:Hc.
  2: { split; [rewrite Hp; apply Permutation_swap|]. intros x [->|Hx]%elem_of_cons; [by unfold cand_le; rewrite Hc|by apply Hmax]. }
  all: (split; [by rewrite Hp|]); intros x [->|Hx]%elem_of_cons;
    [unfold cand_le; by rewrite candidate_cmp_antisym, Hc|];
    eapply (cand_le_trans x b e); [apply Hl; rewrite Hp; set_solver|done|done|by apply Hmax|];
    unfold cand_le; by rewrite candidate_cmp_antisym, Hc.
Qed.

(** ** The selection loop *)

Section Selection.
Context `{TIP : ChainTip T} (tip : T) (m : Mempool).
Hypothesis Hok : pool_ok m.

(** [e] is an entry of the pool. *)
Definition held (e : Entry) : Prop := mp_entries m !! en_txid e = Some e.

Lemma held_length e : held e -> 1 <= en_length e.
Proof. intros He. destruct Hok as (HF & _). apply HF in He. cbn in He. lia. Qed.

Lemma held_inj a b : held a -> held b -> en_txid a = en_txid b -> a = b.
Proof. unfold held. congruence. Qed.

(** What the loop maintains: the heap holds pool entries whose origin's nonce was read. *)
Definition heap_ok (nonces : gmap StacksAddress.t Z) (heap : list Entry) : Prop :=
  forall e, e ∈ heap -> held e /\ is_Some (nonces !! en_origin e).

Lemma nonce_entry_grows nonces a n nonces' : nonce_entry tip nonces a = (n, nonces') ->
  nonces' !! a = Some n /\ forall b, is_Some (nonces !! b) -> nonces' !! b = nonces !! b.
Proof.
  unfold nonce_entry. destruct (nonces !! a) eqn:Ha; intros [= <- <-]; [done|].
  split; [apply lookup_insert_eq|]. intros b [x Hb]. rewrite lookup_insert_ne; [done|congruence].
Qed.

Lemma sponsor_ready_grows nonces e ready nonces' : sponsor_ready tip nonces e = (ready, nonces') ->
  forall b, is_Some (nonces !! b) -> nonces' !! b = nonces !! b.
Proof.
  unfold sponsor_ready. destruct (en_sponsor e) as [[s n]|]; [|by intros [= <- <-]].
  destruct (nonce_entry tip nonces s) as [next nonces2] eqn:Hn. intros [= <- <-]. by apply nonce_entry_grows in Hn as [_ ?].
Qed.

Lemma bump_sponsor_dom nonces e b : is_Some (nonces !! b) -> is_Some (bump_sponsor nonces e !! b).
Proof.
  unfold bump_sponsor. destruct (en_sponsor e) as [[s n]|]; [|done]. destruct (decide _); [done|].
  destruct (nonces !! s) eqn:Hs; [|done]. intros Hb. destruct (decide (b = s)) as [->|Hne].
  - by rewrite lookup_insert_eq.
  - by rewrite lookup_insert_ne.
Qed.

(** The entry after [(origin, next)] in the pool, if any, is that account's. *)
Lemma following_held k e : (txid ← mp_origins m !! k; mp_entries m !! txid) = Some e -> held e /\ origin_key e = Some k.
Proof.
  intros (id & Hid & He)%bind_Some. destruct Hok as (HF & Ho & _). destruct (HF _ _ He) as [Htx _].
  split; [unfold held; congruence|]. apply Ho in Hid as (e' & He' & Hk). congruence.
Qed.

Lemma take_entry_ok nonces heap e : heap_ok nonces (e :: heap) -> exists nonces' heap',
  take_entry m nonces heap e = Some (nonces', heap') /\ heap_ok nonces' heap' /\ (length heap' <= S (length heap))%nat.
Proof.
  intros Hh. unfold take_entry. destruct (Hh e ltac:(set_solver)) as [He Hn].
  destruct (bump_sponsor_dom nonces e _ Hn) as [next Hnext]. rewrite Hnext. cbn [mbind option_bind].
  set (nonces2 := <[_ := _]> (bump_sponsor nonces e)).
  assert (Hdom : forall b, is_Some (nonces !! b) -> is_Some (nonces2 !! b)).
  { intros b Hb. unfold nonces2. destruct (decide (b = en_origin e)) as [->|Hne]; [by rewrite lookup_insert_eq|].
    rewrite lookup_insert_ne by done. by apply bump_sponsor_dom. }
  do 2 eexists. split; [done|]. set (k := (en_origin e, _)).
  destruct (_ ≫= _) as [f|] eqn:Hf.
  - apply following_held in Hf as [Hheld Hkey]. split; [|cbn; lia]. intros x [->|Hx]%elem_of_cons.
    + split; [done|]. apply Hdom. unfold origin_key, k in Hkey. injection Hkey as -> _. done.
    + destruct (Hh x ltac:(set_solver)). auto.
  - split; [|lia]. intros x Hx. destruct (Hh x ltac:(set_solver)). auto.
Qed.

Fixpoint lengths (l : list Entry) : Z := match l with [] => 0 | e :: l => en_length e + lengths l end.

(** The loop ends within the fuel, never fails, and stays within the budget. *)
Lemma select_ok fuel nonces heap budget : heap_ok nonces heap -> 0 <= budget ->
  (Z.to_nat budget + length heap <= fuel)%nat ->
  exists selected, select tip fuel m nonces heap budget = Some selected /\
    lengths selected <= budget /\ Forall held selected.
Proof.
  revert nonces heap budget. induction fuel as [|fuel IH]; intros nonces heap budget Hh Hb Hf.
  - assert (heap = []) as -> by (destruct heap; [done|cbn in Hf; lia]). exists []. split_and!; [done|cbn; lia|constructor].
  - cbn [select].
    assert (Hlen : forall e, e ∈ heap -> 0 < en_length e) by (intros e He; pose proof (held_length e (proj1 (Hh e He))); lia).
    pose proof (heap_pop_spec heap Hlen) as Hpop. destruct (heap_pop heap) as [[e rest]|].
    2:{ exists []. split_and!; [done|cbn; lia|constructor]. }
    destruct Hpop as [Hperm _]. apply Permutation_length in Hperm as Hl. cbn in Hl.
    assert (Hh' : heap_ok nonces (e :: rest)) by (intros x Hx; apply Hh; by rewrite Hperm).
    destruct (sponsor_ready tip nonces e) as [ready nonces2] eqn:Hr.
    assert (Hh2 : heap_ok nonces2 (e :: rest)).
    { intros x Hx. destruct (Hh' x Hx) as [? Hd]. split; [done|]. by rewrite (sponsor_ready_grows _ _ _ _ Hr _ Hd). }
    destruct ready; cbn [negb]; [|apply IH; [intros x Hx; apply Hh2; set_solver|done|lia]].
    destruct (checked_sub budget (en_length e)) as [budget'|] eqn:Hc; [|apply IH; [intros x Hx; apply Hh2; set_solver|done|lia]].
    unfold checked_sub in Hc. destruct (Z.leb_spec (en_length e) budget); [|done]. injection Hc as <-.
    pose proof (held_length e (proj1 (Hh' e ltac:(set_solver)))).
    destruct (take_entry_ok nonces2 rest e Hh2) as (nonces3 & heap3 & -> & Hh3 & Hl3). cbn [mbind option_bind].
    destruct (IH nonces3 heap3 (budget - en_length e) Hh3 ltac:(lia) ltac:(lia)) as (sel & -> & Hs & HF).
    cbn [mbind option_bind]. exists (e :: sel). split_and!; [done|cbn; lia|]. constructor; [by apply Hh'; set_solver|done].
Qed.

Lemma gather_ok order nonces heap nonces' heap' : gather tip order nonces heap = (nonces', heap') ->
  Forall held order -> heap_ok nonces heap -> heap_ok nonces' heap' /\ (length heap' <= length order + length heap)%nat.
Proof.
  revert nonces heap. induction order as [|e order IH]; intros nonces heap Hg HF Hh; cbn [gather] in Hg.
  - injection Hg as <- <-. split; [done|cbn; lia].
  - destruct (nonce_entry tip nonces (en_origin e)) as [next nonces2] eqn:Hn. apply Forall_cons in HF as [He HF].
    apply nonce_entry_grows in Hn as [Hn Hgrow].
    assert (Hh2 : heap_ok nonces2 heap) by (intros x Hx; destruct (Hh x Hx) as [? Hd]; split; [done|by rewrite Hgrow]).
    apply IH in Hg as [? Hl]; [|done|].
    + split; [done|]. cbn [length]. destruct (_ =? _) in Hl; cbn in Hl; lia.
    + destruct (_ =? _); [|done]. intros x [->|Hx]%elem_of_cons; [|by apply Hh2]. split; [done|]. by rewrite Hn.
Qed.

(** An enumeration of the pool. *)
Definition enumerates (order : list Entry) : Prop := order ≡ₚ (map_to_list (mp_entries m)).*2.

Lemma enumerates_held order : enumerates order -> Forall held order.
Proof.
  intros Hen. apply Forall_forall. intros e He. unfold enumerates in Hen. rewrite Hen, list_elem_of_fmap in He.
  destruct He as ([id e'] & -> & He%elem_of_map_to_list). destruct Hok as (HF & _). destruct (HF _ _ He) as [Hid _].
  unfold held. cbn. by rewrite Hid.
Qed.

Lemma candidates_in_ok order : enumerates order ->
  exists selected, candidates_in tip m order = Some selected /\ lengths selected <= MAX_BLOCK_LEN /\ Forall held selected.
Proof.
  intros Hen. unfold candidates_in. destruct (gather tip order ∅ []) as [nonces heap] eqn:Hg.
  destruct (gather_ok _ _ _ _ _ Hg (enumerates_held _ Hen)) as [Hh Hl]; [by intros e He%elem_of_nil|].
  apply select_ok; [done|done|]. cbn [length] in Hl. lia.
Qed.

(** Mempool::candidates terminates without a panic, its transactions are held
    ones, and their lengths sum to at most MAX_BLOCK_LEN. *)
Theorem candidates_within_block (order : list Entry) (Horder : enumerates order) :
  exists selected, candidates_in tip m order = Some selected /\
    lengths selected <= MAX_BLOCK_LEN /\ Forall held selected.
Proof. by apply candidates_in_ok. Qed.

(** ** The order of enumeration does not matter *)

Lemma heap_pop_perm h1 h2 : h1 ≡ₚ h2 -> (forall e, e ∈ h1 -> held e) ->
  match heap_pop h1, heap_pop h2 with
  | None, None => True
  | Some (b1, r1), Some (b2, r2) => b1 = b2 /\ r1 ≡ₚ r2
  | _, _ => False
  end.
Proof.
  intros Hp Hh.
  assert (Hlen : forall e, e ∈ h1 -> 0 < en_length e) by (intros e He; pose proof (held_length e (Hh e He)); lia).
  pose proof (heap_pop_spec h1 Hlen) as H1. pose proof (heap_pop_spec h2 ltac:(intros e He; apply Hlen; by rewrite Hp)) as H2.
  destruct (heap_pop h1) as [[b1 r1]|], (heap_pop h2) as [[b2 r2]|]; try done.
  2:{ subst. destruct H1 as [H1 _]. rewrite Hp in H1. by apply Permutation_nil_cons in H1. }
  2:{ subst. destruct H2 as [H2 _]. rewrite <- Hp in H2. by apply Permutation_nil_cons in H2. }
  destruct H1 as [H1 M1], H2 as [H2 M2].
  assert (Hb1 : held b1) by (apply Hh; rewrite H1; set_solver).
  assert (Hb2 : held b2) by (apply Hh; rewrite Hp, H2; set_solver).
  assert (b1 = b2) as <-.
  { assert (I1 : b1 ∈ b2 :: r2) by (rewrite <- H2, <- Hp, H1; set_solver).
    assert (I2 : b2 ∈ b1 :: r1) by (rewrite <- H1, Hp, H2; set_solver).
    apply elem_of_cons in I1 as [|I1]; [done|]. apply elem_of_cons in I2 as [|I2]; [done|].
    apply M2 in I1. apply M1 in I2. unfold cand_le in *. apply held_inj; [done..|]. apply candidate_cmp_eq.
    rewrite (candidate_cmp_antisym b1 b2) in I2. by destruct (candidate_cmp b1 b2). }
  split; [done|]. apply (Permutation_cons_inv (a := b1)). by rewrite <- H1, Hp, H2.
Qed.

Lemma select_perm fuel nonces h1 h2 budget : h1 ≡ₚ h2 -> heap_ok nonces h1 ->
  select tip fuel m nonces h1 budget = select tip fuel m nonces h2 budget.
Proof.
  revert nonces h1 h2 budget. induction fuel as [|fuel IH]; intros nonces h1 h2 budget Hp Hh; cbn [select];
    pose proof (heap_pop_perm h1 h2 Hp (fun e He => proj1 (Hh e He))) as Hpop;
    assert (Hlen : forall e, e ∈ h1 -> 0 < en_length e)
      by (intros e He; pose proof (held_length e (proj1 (Hh e He))); lia);
    pose proof (heap_pop_spec h1 Hlen) as Hs;
    destruct (heap_pop h1) as [[b1 r1]|], (heap_pop h2) as [[b2 r2]|]; try done.
  destruct Hpop as [<- Hr], Hs as [Hperm _].
  assert (Hh' : heap_ok nonces (b1 :: r1)) by (intros x Hx; apply Hh; by rewrite Hperm).
  destruct (sponsor_ready tip nonces b1) as [ready nonces2] eqn:Hsr.
  assert (Hh2 : heap_ok nonces2 (b1 :: r1)).
  { intros x Hx. destruct (Hh' x Hx) as [? Hd]. split; [done|]. by rewrite (sponsor_ready_grows _ _ _ _ Hsr _ Hd). }
  assert (Hrest : heap_ok nonces2 r1) by (intros x Hx; apply Hh2; set_solver).
  destruct (negb ready); [by apply IH|]. destruct (checked_sub budget (en_length b1)) as [budget'|]; [|by apply IH].
  destruct (take_entry_ok nonces2 r1 b1 Hh2) as (n3 & h3 & Ht & Hh3 & _).
  assert (Ht2 : exists h4, take_entry m nonces2 r2 b1 = Some (n3, h4) /\ h3 ≡ₚ h4).
  { unfold take_entry in *. destruct (bump_sponsor nonces2 b1 !! en_origin b1) as [next|]; cbn [mbind option_bind] in *; [|done].
    injection Ht as <- <-. eexists. split; [done|]. destruct (_ ≫= _); [by rewrite Hr|done]. }
  destruct Ht2 as (h4 & Ht2 & Hp34). rewrite Ht, Ht2. cbn [mbind option_bind]. by rewrite (IH n3 h3 h4).
Qed.

(** The nonces read by the first loop are the tip's, for the origins seen. *)
Lemma gather_spec order nonces heap :
  (forall a n, nonces !! a = Some n -> n = acct_nonce (account tip a)) ->
  let '(nonces', heap') := gather tip order nonces heap in
  (forall a, nonces' !! a = if decide (a ∈ map en_origin order) then Some (acct_nonce (account tip a)) else nonces !! a) /\
  heap' ≡ₚ List.filter (fun e => en_origin_nonce e =? acct_nonce (account tip (en_origin e))) order ++ heap.
Proof using Type.
  clear Hok m. revert nonces heap. induction order as [|e order IH]; intros nonces heap Hn; cbn [gather]; [done|].
  destruct (nonce_entry tip nonces (en_origin e)) as [next nonces2] eqn:Hne.
  assert (Hnext : next = acct_nonce (account tip (en_origin e)) /\
    forall a, nonces2 !! a = if decide (a = en_origin e) then Some (acct_nonce (account tip a)) else nonces !! a).
  { unfold nonce_entry in Hne. destruct (nonces !! en_origin e) as [x|] eqn:Hx; injection Hne as <- <-.
    - pose proof (Hn _ _ Hx). subst. split; [done|]. intros a. by case_decide as Ha; [rewrite Ha|].
    - split; [done|]. intros a. case_decide as Ha; [subst; apply lookup_insert_eq|]. by rewrite lookup_insert_ne. }
  destruct Hnext as [-> Hn2].
  specialize (IH nonces2 (if en_origin_nonce e =? acct_nonce (account tip (en_origin e)) then e :: heap else heap)).
  destruct (gather tip order nonces2 _) as [nonces' heap'].
  destruct IH as [IH1 IH2]. { intros a n. rewrite Hn2. case_decide; [by intros [= <-]|apply Hn]. }
  split.
  - intros a. rewrite IH1, Hn2. cbn [map]. repeat case_decide; set_solver.
  - rewrite IH2. cbn [List.filter]. destruct (_ =? _); [|done]. cbn [app]. by rewrite Permutation_middle.
Qed.

(** The candidates do not depend on the order in which the hash map of entries is
    iterated. *)
Theorem candidates_order_independent (order1 order2 : list Entry)
  (H1 : enumerates order1) (H2 : enumerates order2) :
  candidates_in tip m order1 = candidates_in tip m order2.
Proof.
  unfold candidates_in. pose proof (gather_spec order1 ∅ []) as G1. pose proof (gather_spec order2 ∅ []) as G2.
  destruct (gather tip order1 ∅ []) as [n1 h1] eqn:E1, (gather tip order2 ∅ []) as [n2 h2] eqn:E2.
  destruct G1 as [G1 P1]; [by intros a n; rewrite lookup_empty|]. destruct G2 as [G2 P2]; [by intros a n; rewrite lookup_empty|].
  assert (Hp : order1 ≡ₚ order2) by (unfold enumerates in *; by rewrite H1, H2).
  assert (n1 = n2) as <-.
  { apply map_eq. intros a. rewrite G1, G2.
    assert (Ha : a ∈ map en_origin order1 <-> a ∈ map en_origin order2) by (by rewrite (Permutation_map en_origin Hp)).
    repeat case_decide; tauto. }
  rewrite (Permutation_length Hp). apply select_perm.
  - rewrite P1, P2, !app_nil_r. clear -Hp. induction Hp; cbn; repeat destruct (_ =? _); try done.
    + by f_equiv. + apply Permutation_swap. + by etrans.
  - eapply gather_ok; [exact E1|by apply enumerates_held|]. by intros e He%elem_of_nil.
Qed.

End Selection.

(** ** Nonce order

    [executes nonces l]: applied in order to accounts at [nonces], every
    transaction of [l] finds its origin's and its sponsor's nonce as it claims. *)

Definition bump_nonce (a : StacksAddress.t) (nonces : StacksAddress.t -> Z) : StacksAddress.t -> Z :=
  fun x => if decide (x = a) then nonces x + 1 else nonces x.

Definition spend (e : Entry) (nonces : StacksAddress.t -> Z) : StacksAddress.t -> Z :=
  bump_nonce (en_origin e)
    match en_sponsor e with
    | Some (s, _) => if decide (s = en_origin e) then nonces else bump_nonce s nonces
    | None => nonces
    end.

Fixpoint executes (nonces : StacksAddress.t -> Z) (l : list Entry) : Prop :=
  match l with
  | [] => True
  | e :: l =>
      en_origin_nonce e = nonces (en_origin e) /\
      (forall s n, en_sponsor e = Some (s, n) -> n = nonces s) /\ executes (spend e nonces) l
  end.

Section Order.
Context `{TIP : ChainTip T} (tip : T) (m : Mempool).
Hypothesis Hok : pool_ok m.

(** No account sponsors another's transaction while it has one of its own. *)
Definition sponsors_apart : Prop :=
  forall e1 e2 s n, held m e1 -> held m e2 -> en_sponsor e1 = Some (s, n) -> s <> en_origin e1 -> s <> en_origin e2.

(** The nonces leave room to count. *)
Definition nonces_fit : Prop :=
  forall e, held m e -> en_origin_nonce e < U64_MAX /\ forall s n, en_sponsor e = Some (s, n) -> n < U64_MAX.

Hypothesis Hapart : sponsors_apart.
Hypothesis Hfit : nonces_fit.

(** The map of nonces stands for the accounts' state [N]. *)
Definition agrees (N : StacksAddress.t -> Z) (nonces : gmap StacksAddress.t Z) : Prop :=
  forall a, N a = default (acct_nonce (account tip a)) (nonces !! a).

(** The heap has one entry per origin, at the origin's next nonce. *)
Definition heap_ready (N : StacksAddress.t -> Z) (heap : list Entry) : Prop :=
  NoDup (map en_origin heap) /\ forall e, e ∈ heap -> en_origin_nonce e = N (en_origin e).

Lemma agrees_nonce_entry N nonces a n nonces' : agrees N nonces -> nonce_entry tip nonces a = (n, nonces') ->
  n = N a /\ agrees N nonces'.
Proof.
  intros Hag. unfold nonce_entry. destruct (nonces !! a) as [x|] eqn:Ha; intros [= <- <-].
  - split; [|done]. by rewrite Hag, Ha.
  - split; [by rewrite Hag, Ha|]. intros b. rewrite Hag. destruct (decide (b = a)) as [->|Hne].
    + by rewrite lookup_insert_eq, Ha.
    + by rewrite lookup_insert_ne.
Qed.

Lemma agrees_sponsor_ready N nonces e ready nonces' : agrees N nonces -> sponsor_ready tip nonces e = (ready, nonces') ->
  agrees N nonces' /\ (ready = true -> forall s n, en_sponsor e = Some (s, n) -> n = N s /\ nonces' !! s = Some n).
Proof.
  intros Hag. unfold sponsor_ready. destruct (en_sponsor e) as [[s n]|]; [|intros [= <- <-]; by split].
  destruct (nonce_entry tip nonces s) as [next nonces2] eqn:Hn. intros [= <- <-].
  pose proof (nonce_entry_grows tip _ _ _ _ Hn) as [Hlk _]. apply (agrees_nonce_entry N) in Hn as [-> Hag2]; [|done].
  split; [done|]. intros Heq s' n' [= <- <-]. apply Z.eqb_eq in Heq. subst. done.
Qed.

Lemma saturating_bump n : n < U64_MAX -> saturating_add U64_MAX n 1 = n + 1.
Proof. word_lia. Qed.

(** Taking an entry at its nonces spends them. *)
Lemma take_entry_spends N nonces heap e nonces' heap' : agrees N nonces -> held m e ->
  en_origin_nonce e = N (en_origin e) ->
  (forall s n, en_sponsor e = Some (s, n) -> n = N s /\ nonces !! s = Some n) ->
  is_Some (nonces !! en_origin e) -> heap_ready N (e :: heap) -> (forall x, x ∈ heap -> held m x) ->
  take_entry m nonces heap e = Some (nonces', heap') ->
  agrees (spend e N) nonces' /\ heap_ready (spend e N) heap'.
Proof.
  intros Hag He Horig Hsp Hdom [Hnd Hready] Hheld Ht. destruct (Hfit e He) as [Hfo Hfs].
  set (N1 := match en_sponsor e with Some (s, _) => if decide (s = en_origin e) then N else bump_nonce s N | None => N end).
  assert (H1 : agrees N1 (bump_sponsor nonces e) /\ N1 (en_origin e) = N (en_origin e) /\
               is_Some (bump_sponsor nonces e !! en_origin e)).
  { split_and!; [| |by apply bump_sponsor_dom]; unfold N1, bump_sponsor.
    - destruct (en_sponsor e) as [[s n]|] eqn:Hs; [|done]. destruct (decide _) as [|Hne]; [done|].
      destruct (Hsp s n eq_refl) as [-> Hlk]. rewrite Hlk. rewrite saturating_bump by by eapply Hfs.
      intros a. unfold bump_nonce. destruct (decide (a = s)) as [->|Ha]; [by rewrite lookup_insert_eq|].
      by rewrite lookup_insert_ne.
    - destruct (en_sponsor e) as [[s n]|]; [|done]. destruct (decide _) as [|Hne]; [done|]. unfold bump_nonce. by rewrite decide_False. }
  destruct H1 as (Hag1 & HN1 & [next Hnext]). unfold take_entry in Ht. rewrite Hnext in Ht. cbn [mbind option_bind] in Ht.
  assert (Hn : next = N (en_origin e)) by (pose proof (Hag1 (en_origin e)) as Hx; rewrite Hnext in Hx; cbn in Hx; lia).
  rewrite saturating_bump in Ht by lia. injection Ht as <- <-.
  assert (Hspend : spend e N = bump_nonce (en_origin e) N1) by done.
  split.
  - intros a. rewrite Hspend. unfold bump_nonce. destruct (decide (a = en_origin e)) as [->|Ha].
    + rewrite lookup_insert_eq, HN1. cbn. lia.
    + rewrite lookup_insert_ne by done. apply Hag1.
  - apply NoDup_cons in Hnd as [Hni Hnd].
    assert (Hrest : forall x, x ∈ heap -> en_origin_nonce x = spend e N (en_origin x)).
    { intros x Hx. assert (Hox : en_origin x <> en_origin e).
      { intros Heq. apply Hni. rewrite <- Heq. by apply list_elem_of_fmap_2. }
      rewrite Hspend. unfold bump_nonce at 1. rewrite decide_False by done. unfold N1.
      rewrite (Hready x) by set_solver. destruct (en_sponsor e) as [[s n]|] eqn:Hs; [|done].
      destruct (decide (s = en_origin e)) as [|Hne]; [done|]. unfold bump_nonce. rewrite decide_False; [done|].
      intros Heq. by apply (Hapart e x s n He (Hheld x Hx) Hs Hne). }
    destruct (_ ≫= _) as [f|] eqn:Hf; [|by split].
    apply following_held in Hf as [Hheldf Hkey]; [|done]. unfold origin_key in Hkey. injection Hkey as Ho Hon.
    split.
    + cbn [map]. rewrite Ho. by constructor.
    + intros x [->|Hx]%elem_of_cons; [|by apply Hrest]. rewrite Hon, Ho, Hspend. unfold bump_nonce. rewrite decide_True by done. lia.
Qed.

Lemma select_executes fuel N nonces heap budget selected : agrees N nonces -> heap_ready N heap ->
  heap_ok m nonces heap -> select tip fuel m nonces heap budget = Some selected -> executes N selected.
Proof.
  revert N nonces heap budget selected.
  induction fuel as [|fuel IH]; intros N nonces heap budget selected Hag [Hnd Hready] Hh Hsel; cbn [select] in Hsel;
    assert (Hlen : forall e, e ∈ heap -> 0 < en_length e)
      by (intros e He; pose proof (held_length m Hok e (proj1 (Hh e He))); lia);
    pose proof (heap_pop_spec heap Hlen) as Hs;
    destruct (heap_pop heap) as [[e rest]|]; try done; [by injection Hsel as <-| |by injection Hsel as <-].
  destruct Hs as [Hperm _].
  assert (Hr' : heap_ready N (e :: rest)).
  { split; [by rewrite <- (Permutation_map en_origin Hperm)|]. intros x Hx. apply Hready. by rewrite Hperm. }
  assert (Hrest : heap_ready N rest).
  { destruct Hr' as [Hnd' Hx]. split; [by apply NoDup_cons in Hnd' as [_ ?]|]. intros x ?. apply Hx. set_solver. }
  assert (Hh' : heap_ok m nonces (e :: rest)) by (intros x Hx; apply Hh; by rewrite Hperm).
  destruct (sponsor_ready tip nonces e) as [ready nonces2] eqn:Hsr.
  assert (Hh2 : heap_ok m nonces2 (e :: rest)).
  { intros x Hx. destruct (Hh' x Hx) as [? Hd]. split; [done|]. by rewrite (sponsor_ready_grows _ _ _ _ _ Hsr _ Hd). }
  assert (Hh2r : heap_ok m nonces2 rest) by (intros x Hx; apply Hh2; set_solver).
  apply (agrees_sponsor_ready N) in Hsr as [Hag2 Hsp]; [|done].
  destruct ready; cbn [negb] in Hsel; [|by eapply IH].
  destruct (checked_sub budget (en_length e)) as [budget'|]; [|by eapply IH].
  apply bind_Some in Hsel as ([nonces3 heap3] & Ht & Hsel). apply bind_Some in Hsel as (sel & Hsel & [= <-]).
  destruct (take_entry_ok m Hok nonces2 rest e Hh2) as (n3 & h3 & Ht' & Hh3 & _). rewrite Ht in Ht'. injection Ht' as <- <-.
  destruct (Hh2 e ltac:(set_solver)) as [He Hdom]. pose proof (proj2 Hr' e ltac:(set_solver)) as Horig.
  destruct (take_entry_spends N nonces2 rest e nonces3 heap3) as [Hag3 Hr3]; auto.
  { intros x Hx. by apply Hh2r. }
  cbn [executes]. split_and!; [done|by intros s n Hs; apply Hsp|by eapply IH].
Qed.

(** C9: when no sponsoring account also has a transaction of its own in the pool, the
    candidates execute in the order given: each is at its origin's next nonce and at
    its sponsor's, counting what the ones before it spent. *)
Theorem candidates_execute_in_order (order selected : list Entry) (Horder : enumerates m order)
  (Hsel : candidates_in tip m order = Some selected) :
  executes (fun a => acct_nonce (account tip a)) selected.
Proof.
  unfold candidates_in in Hsel. pose proof (gather_spec tip order ∅ []) as G.
  destruct (gather tip order ∅ []) as [nonces heap] eqn:Hg.
  destruct G as [G P]; [by intros a n; rewrite lookup_empty|]. rewrite app_nil_r in P.
  pose proof (enumerates_held m Hok order Horder) as HF.
  eapply (select_executes _ _ nonces heap); [| | |exact Hsel].
  - intros a. rewrite G, lookup_empty. by case_decide.
  - split.
    + rewrite (Permutation_map en_origin P).
      assert (Hnd : NoDup order).
      { unfold enumerates in Horder. rewrite Horder. apply NoDup_fmap_2_strong; [|apply NoDup_map_to_list].
        destruct Hok as (HFok & _). intros [i1 e1] [i2 e2] H1%elem_of_map_to_list H2%elem_of_map_to_list Heq. cbn in Heq. subst.
        destruct (HFok _ _ H1) as [<- _], (HFok _ _ H2) as [<- _]. done. }
      clear -Hok HF Hnd. induction order as [|e order IH]; [constructor|].
      apply NoDup_cons in Hnd as [Hni Hnd]. apply Forall_cons in HF as [He HF]. cbn [List.filter].
      destruct (Z.eqb_spec (en_origin_nonce e) (acct_nonce (account tip (en_origin e)))) as [Hn|_]; [|by apply IH].
      cbn [map]. constructor; [|by apply IH]. intros Hin. apply list_elem_of_fmap in Hin as (x & Hx & Hin).
      apply list_elem_of_In, filter_In in Hin as [Hin%list_elem_of_In Hxn]. apply Z.eqb_eq in Hxn.
      rewrite Forall_forall in HF. specialize (HF x Hin). apply Hni. destruct Hok as (_ & Ho & _).
      assert (en_txid x = en_txid e).
      { apply (indexes_unique _ _ origin_key _ _ x e (en_origin e, en_origin_nonce e) Ho HF He); unfold origin_key; [|done].
        rewrite Hx. do 2 f_equal. rewrite Hn, Hxn, Hx. done. }
      by rewrite <- (held_inj m x e HF He).
    + intros e He. rewrite P in He. apply list_elem_of_In, filter_In in He as [_ He]. by apply Z.eqb_eq.
  - eapply gather_ok; [exact Hg|done|]. by intros e He%elem_of_nil.
Qed.

End Order.
