(* ===== verification/MarfTrie.v ===== *)
(** * The trie of the MARF, of [crates/nano-marf/src/lib.rs] and [src/storage.rs]

    Nodes, their hashes and their records, the table that holds sealed nodes,
    and the operations on a trie whose unchanged parts stay in that table. An
    operation that descends is given fuel; each step takes at least one byte of
    the path, so a path of [n] bytes needs [n + 1]. [None] is a panic. The caches
    of the storage are [MarfCache]; here a read is a read of the table. *)

From stdpp Require Import gmap.
From S2P Require Import Prelude Primitives Crypto.

Notation MarfBlockId := (list byte) (only parsing).
Notation TrieHash := (list byte) (only parsing).

(** ** Errors *)

Inductive StorageReason : Type := MissingBlock | MissingNode | CorruptRecord | NotPersisted | RootIsLeaf | IdentifierOverflow | DuplicateHash.

Inductive MarfError : Type :=
| InvalidPath
| InvalidPointerCount
| InvalidBackPointer
| UnknownVersion
| VersionAlreadyExists
| WriteInProgress
| WriteNotBegun
| HeightOverflow
| Storage (reason : StorageReason).

(** An operation that can fail and can panic. *)
Notation "'let!' x ':=' e 'in' k" :=
  (match e with None => None | Some (Err err) => Some (Err err) | Some (Ok x) => k end)
  (at level 10, x pattern, e at level 100, k at level 200, format "'let!'  x  ':='  e  'in' '//' k").

Section Collect.
Context {E A B : Type} (f : A -> option (result E B)).

(** [iter().map(f).collect::<Result<Vec<_>, _>>()]. *)
Fixpoint collect_all (l : list A) : option (result E (list B)) :=
  match l with
  | [] => Some (Ok [])
  | a :: l => let! b := f a in let! bs := collect_all l in Some (Ok (b :: bs))
  end.

End Collect.

(** ** Values and nodes *)

Definition zeroes (n : nat) : list byte := replicate n 0%u8.

(** Little-endian bytes. *)
Definition le_bytes (n : nat) (z : Z) : list byte := rev (to_be_bytes n z).
Definition from_le_bytes (l : list byte) : Z := from_be_bytes (rev l).

Module MarfValue.
Section Of.
Context `{H : Hashes}.

(** Forty bytes. *)
Definition from_value_hash (hash : list byte) : list byte := hash ++ zeroes 8.
Definition from_value (value : list byte) : list byte := from_value_hash (sha512_256 value).
Definition from_u32 (value : Z) : list byte := le_bytes 4 value ++ zeroes 36.
Definition from_block_id (block : MarfBlockId) : list byte := block ++ zeroes 8.
Definition value_hash (value : list byte) : TrieHash := take 32 value.

End Of.
End MarfValue.

Inductive TrieNodeId : Type := NodeLeaf | Node4 | Node16 | Node48 | Node256.

#[global] Instance TrieNodeId_eq_dec : EqDecision TrieNodeId.
Proof. solve_decision. Defined.

Definition node_id_byte (id : TrieNodeId) : Z :=
  match id with NodeLeaf => 1 | Node4 => 2 | Node16 => 3 | Node48 => 4 | Node256 => 5 end.

Definition pointer_count (id : TrieNodeId) : nat :=
  match id with NodeLeaf => 0 | Node4 => 4 | Node16 => 16 | Node48 => 48 | Node256 => 256 end.

Definition node_id_from_byte (b : Z) : result MarfError TrieNodeId :=
  if b =? 1 then Ok NodeLeaf
  else if b =? 2 then Ok Node4
  else if b =? 3 then Ok Node16
  else if b =? 4 then Ok Node48
  else if b =? 5 then Ok Node256
  else Err InvalidPointerCount.

(** [node_id_for_children]. *)
Definition node_id_for_children (children : nat) : option TrieNodeId :=
  if Nat.ltb children 2 then None
  else if Nat.leb children 4 then Some Node4
  else if Nat.leb children 16 then Some Node16
  else if Nat.leb children 48 then Some Node48
  else Some Node256.

Record TriePointer : Type := mkPointer { tp_id : Z; tp_character : byte; tp_referenced_block : option MarfBlockId }.

Inductive ChildTarget (N : Type) : Type :=
| Memory (node : N)
| Stored (block index : Z) (kind : TrieNodeId).
Arguments Memory {N}. Arguments Stored {N}.

Record TrieChildOf (N : Type) : Type := mkChild { ch_character : byte; ch_referenced_block : option MarfBlockId; ch_target : ChildTarget N }.
Arguments mkChild {N}. Arguments ch_character {N}. Arguments ch_referenced_block {N}. Arguments ch_target {N}.

Inductive TrieNode : Type :=
| Leaf (path : list byte) (value : list byte)
| Internal (path : list byte) (children : list (TrieChildOf TrieNode)).

Notation TrieChild := (TrieChildOf TrieNode).

(** [TrieChild::local]. *)
Definition local_child (character : byte) (node : TrieNode) : TrieChild := mkChild character None (Memory node).

Definition node_id (n : TrieNode) : option TrieNodeId :=
  match n with Leaf _ _ => Some NodeLeaf | Internal _ children => node_id_for_children (length children) end.

(** [TrieChild::kind]. *)
Definition child_kind (c : TrieChild) : option TrieNodeId :=
  match ch_target c with Memory n => node_id n | Stored _ _ kind => Some kind end.

Definition has_character (character : byte) (c : TrieChild) : bool := bool_decide (ch_character c = character).

(** [find] and [iter_mut().find]: the first child of the character, and where it is. *)
Fixpoint find_child (character : byte) (children : list TrieChild) : option (nat * TrieChild) :=
  match children with
  | [] => None
  | c :: rest =>
      if has_character character c then Some (0%nat, c)
      else match find_child character rest with Some (i, c) => Some (S i, c) | None => None end
  end.

(** [prepare_for_copy] and [prepare_root_for_copy] on children. *)
Definition prepare_children (block : MarfBlockId) (children : list TrieChild) : list TrieChild :=
  map (fun c => mkChild (ch_character c) (Some (default block (ch_referenced_block c))) (ch_target c)) children.

Definition prepare_for_copy (block : MarfBlockId) (n : TrieNode) : TrieNode :=
  match n with Leaf path value => Leaf path value | Internal path children => Internal path (prepare_children block children) end.

Fixpoint shared_prefix (xs ys : list byte) : nat :=
  match xs, ys with
  | a :: xs, b :: ys => if decide (a = b) then S (shared_prefix xs ys) else 0%nat
  | _, _ => 0%nat
  end.

(** [slice::strip_prefix]. *)
Definition strip_path (prefix path : list byte) : option (list byte) :=
  if bool_decide (take (length prefix) path = prefix) then Some (drop (length prefix) path) else None.

(** ** Hashes *)

Section Hashing.
Context `{H : Hashes}.

Definition EMPTY_TRIE_HASH : TrieHash :=
  [0xc6; 0x72; 0xb8; 0xd1; 0xef; 0x56; 0xed; 0x28; 0xab; 0x87; 0xc3; 0x62; 0x2c; 0x51; 0x14; 0x06;
   0x9b; 0xdd; 0x3a; 0xd7; 0xb8; 0xf9; 0x73; 0x74; 0x98; 0xd0; 0xc0; 0x1e; 0xce; 0xf0; 0x96; 0x7a]%u8.

(** [TrieHash::from_data]. *)
Definition key_path (key : list byte) : TrieHash :=
  match key with [] => EMPTY_TRIE_HASH | _ => sha512_256 key end.

Definition pointer_bytes (p : TriePointer) : result MarfError (list byte) :=
  let head := [byte_of (Z.land (tp_id p) 0x8f); tp_character p] in
  match negb (Z.land (tp_id p) 0x80 =? 0), tp_referenced_block p with
  | true, Some block => Ok (head ++ block)
  | false, None => Ok (head ++ zeroes 32)
  | _, _ => Err InvalidBackPointer
  end.

Definition internal_node_hash (id : TrieNodeId) (pointers : list TriePointer) (path : list byte) (child_hashes : list TrieHash) : result MarfError TrieHash :=
  if 32 <? len path then Err InvalidPath
  else if negb (Nat.eqb (length pointers) (pointer_count id) && Nat.eqb (length child_hashes) (length pointers)) then Err InvalidPointerCount
  else
    let? pointer_parts := collect pointer_bytes pointers in
    Ok (sha512_256 ([byte_of (node_id_byte id)] ++ concat pointer_parts ++ [byte_of (len path)] ++ path ++ concat child_hashes)).

Definition leaf_hash (path value : list byte) : result MarfError TrieHash :=
  if 32 <? len path then Err InvalidPath
  else Ok (sha512_256 ([byte_of (node_id_byte NodeLeaf)] ++ [byte_of (len path)] ++ path ++ value)).

Definition state_root (content : TrieHash) (ancestor_roots : list TrieHash) : TrieHash :=
  match ancestor_roots with [] => content | _ => sha512_256 (content ++ concat ancestor_roots) end.

Definition empty_pointer : TriePointer := mkPointer 0 0%u8 None.

Definition child_pointer (c : TrieChild) : option TriePointer :=
  kind ← child_kind c;
  Some (mkPointer (Z.lor (node_id_byte kind) (match ch_referenced_block c with Some _ => 0x80 | None => 0 end))
          (ch_character c) (ch_referenced_block c)).

(** The loop of [slots] from slot [index] on. *)
Fixpoint fill_slots (id : TrieNodeId) (index : nat) (children : list TrieChild) (hashes : list TrieHash)
  (slots : list TriePointer * list TrieHash) : option (list TriePointer * list TrieHash) :=
  match children, hashes with
  | c :: children, h :: hashes =>
      let slot := if decide (id = Node256) then Z.of_N (Byte.to_N (ch_character c)) else Z.of_nat index in
      p ← child_pointer c;
      pointers ← index_set slots.1 slot p;
      slot_hashes ← index_set slots.2 slot h;
      fill_slots id (S index) children hashes (pointers, slot_hashes)
  | _, _ => Some slots
  end.

Definition slots (id : TrieNodeId) (children : list TrieChild) (hashes : list TrieHash) : option (list TriePointer * list TrieHash) :=
  fill_slots id 0 children hashes (replicate (pointer_count id) empty_pointer, replicate (pointer_count id) EMPTY_TRIE_HASH).

(** [slots] and then [internal_node_hash]. *)
Definition hash_slots (id : TrieNodeId) (path : list byte) (children : list TrieChild) (hashes : list TrieHash) : option (result MarfError TrieHash) :=
  '(pointers, slot_hashes) ← slots id children hashes; Some (internal_node_hash id pointers path slot_hashes).

End Hashing.

(** ** Records *)

Definition LEAF_RECORD : byte := 0%u8.
Definition INTERNAL_RECORD : byte := 1%u8.
Definition BACK_POINTER : Z := 0x80.

Definition path_length (path : list byte) : result MarfError byte :=
  if len path <=? U8_MAX then Ok (byte_of (len path)) else Err InvalidPath.

Definition encode_child (c : TrieChild) : result MarfError (list byte) :=
  match ch_target c with
  | Memory _ => Err (Storage NotPersisted)
  | Stored block index kind =>
      Ok ([byte_of (Z.lor (node_id_byte kind) (match ch_referenced_block c with Some _ => 0x80 | None => 0 end)); ch_character c] ++
          le_bytes 4 block ++ le_bytes 4 index)
  end.

(** [encode]. *)
Definition encode_node (n : TrieNode) : result MarfError (list byte) :=
  match n with
  | Leaf path value => let? size := path_length path in Ok ([LEAF_RECORD; size] ++ path ++ value)
  | Internal path children =>
      let? size := path_length path in
      if U16_MAX <? len children then Err (Storage CorruptRecord) else
      let? parts := collect encode_child children in
      Ok ([INTERNAL_RECORD; size] ++ path ++ le_bytes 2 (len children) ++ concat parts)
  end.

(** [Reader::take], over the bytes not yet read. *)
Definition take_bytes (length : Z) (bytes : list byte) : result MarfError (list byte * list byte) :=
  if length <=? len bytes then Ok (take (Z.to_nat length) bytes, drop (Z.to_nat length) bytes) else Err (Storage CorruptRecord).

Definition take_byte (bytes : list byte) : result MarfError (byte * list byte) :=
  match bytes with b :: rest => Ok (b, rest) | [] => Err (Storage CorruptRecord) end.

(** [Reader::path]. *)
Definition take_path (bytes : list byte) : result MarfError (list byte * list byte) :=
  let? (length, bytes) := take_byte bytes in
  if 32 <? u8 length then Err InvalidPath else take_bytes (u8 length) bytes.

(** ** The table *)

Record BlockRow : Type := mkRow {
  row_id : Z;
  row_hash : MarfBlockId;
  row_parent : option Z;
  row_height : Z;
  row_root : TrieHash;
  row_content : TrieHash;
  row_node : option Z;
  row_jumps : list MarfBlockId;
}.

(** The tables [marf_block] and [marf_node], and the sequence of identifiers. *)
Record TrieStorage : Type := mkStorage {
  st_blocks : list BlockRow;
  st_nodes : gmap (Z * Z) (TrieHash * list byte);
  st_sequence : Z;
}.

Definition empty_storage : TrieStorage := mkStorage [] ∅ 0.

Section Reading.
Variable st : TrieStorage.

(** [TrieStorage::block]. *)
Definition storage_block (hash : MarfBlockId) : option BlockRow :=
  List.find (fun r => bool_decide (row_hash r = hash)) (st_blocks st).

Definition storage_block_hash (id : Z) : result MarfError MarfBlockId :=
  match List.find (fun r => row_id r =? id) (st_blocks st) with Some r => Ok (row_hash r) | None => Err (Storage MissingBlock) end.

Definition storage_jumps (hash : MarfBlockId) : result MarfError (list MarfBlockId) :=
  match storage_block hash with Some r => Ok (row_jumps r) | None => Err (Storage MissingBlock) end.

(** One child of a record. *)
Definition decode_child (block : Z) (bytes : list byte) : result MarfError (TrieChild * list byte) :=
  let? (flags, bytes) := take_byte bytes in
  let? (character, bytes) := take_byte bytes in
  let? (target, bytes) := take_bytes 4 bytes in
  let? (index, bytes) := take_bytes 4 bytes in
  let? kind := node_id_from_byte (Z.land (u8 flags) 0x7f) in
  if Z.land (u8 flags) BACK_POINTER =? 0
  then Ok (mkChild character None (Stored block (from_le_bytes index) kind), bytes)
  else
    let? hash := storage_block_hash (from_le_bytes target) in
    Ok (mkChild character (Some hash) (Stored (from_le_bytes target) (from_le_bytes index) kind), bytes).

Fixpoint decode_children (block : Z) (count : nat) (bytes : list byte) : result MarfError (list TrieChild) :=
  match count with
  | O => Ok []
  | S count =>
      let? (c, bytes) := decode_child block bytes in
      let? rest := decode_children block count bytes in
      Ok (c :: rest)
  end.

(** [TrieStorage::decode]. *)
Definition decode_node (block : Z) (bytes : list byte) : result MarfError TrieNode :=
  let? (kind, bytes) := take_byte bytes in
  let? (path, bytes) := take_path bytes in
  if decide (kind = LEAF_RECORD) then
    let? (value, bytes) := take_bytes 40 bytes in Ok (Leaf path value)
  else if decide (kind = INTERNAL_RECORD) then
    let? (count, bytes) := take_bytes 2 bytes in
    let? children := decode_children block (Z.to_nat (from_le_bytes count)) bytes in
    Ok (Internal path children)
  else Err (Storage CorruptRecord).

Definition storage_node (block index : Z) : result MarfError TrieNode :=
  match st_nodes st !! (block, index) with
  | Some (_, data) => decode_node block data
  | None => Err (Storage MissingNode)
  end.

Definition storage_node_hash (block index : Z) : result MarfError TrieHash :=
  match st_nodes st !! (block, index) with Some (hash, _) => Ok hash | None => Err (Storage MissingNode) end.

(** ** Reading a trie *)

(** [TrieChild::node]. *)
Definition child_node (c : TrieChild) : result MarfError TrieNode :=
  match ch_target c with Memory n => Ok n | Stored block index _ => storage_node block index end.

(** [TrieNode::get]. *)
Fixpoint node_get (fuel : nat) (n : TrieNode) (path : list byte) : option (result MarfError (option (list byte))) :=
  match fuel with
  | O => None
  | S fuel =>
      match n with
      | Leaf leaf_path value => Some (Ok (if decide (leaf_path = path) then Some value else None))
      | Internal node_path children =>
          match strip_path node_path path with
          | None | Some [] => Some (Ok None)
          | Some (character :: remaining) =>
              match find_child character children with
              | None => Some (Ok None)
              | Some (_, child) => let! node := Some (child_node child) in node_get fuel node remaining
              end
          end
      end
  end.

(** [find_path]. *)
Definition find_path (root_children : list TrieChild) (path : list byte) : option (result MarfError (option (list byte))) :=
  match path with
  | [] => None
  | character :: rest =>
      match find_child character root_children with
      | None => Some (Ok None)
      | Some (_, child) => let! node := Some (child_node child) in node_get (S (length rest)) node rest
      end
  end.

(** [TrieChild::owned]: the node, and the child that now owns it. *)
Definition child_owned (c : TrieChild) : result MarfError TrieNode :=
  match ch_target c with
  | Stored block index _ =>
      let? owner := match ch_referenced_block c with Some owner => Ok owner | None => storage_block_hash block end in
      let? node := storage_node block index in
      Ok (prepare_for_copy owner node)
  | Memory node => match ch_referenced_block c with Some block => Ok (prepare_for_copy block node) | None => Ok node end
  end.

(** [TrieNode::insert]: the result, and the node it leaves. *)
Fixpoint node_insert (fuel : nat) (n : TrieNode) (path value : list byte) : option (result MarfError unit * TrieNode) :=
  match fuel with
  | O => None
  | S fuel =>
      match n with
      | Leaf leaf_path leaf_value =>
          if decide (leaf_path = path) then Some (Ok tt, Leaf leaf_path value) else
          let shared := shared_prefix leaf_path path in
          old_character ← leaf_path !! shared;
          new_character ← path !! shared;
          Some (Ok tt, Internal (take shared leaf_path)
            [local_child old_character (Leaf (drop (S shared) leaf_path) leaf_value);
             local_child new_character (Leaf (drop (S shared) path) value)])
      | Internal node_path children =>
          let shared := shared_prefix node_path path in
          if Nat.ltb shared (length node_path) then
            old_character ← node_path !! shared;
            new_character ← path !! shared;
            Some (Ok tt, Internal (take shared node_path)
              [local_child new_character (Leaf (drop (S shared) path) value);
               local_child old_character (Internal (drop (S shared) node_path) children)])
          else
            child_character ← path !! length node_path;
            let suffix := drop (S (length node_path)) path in
            match find_child child_character children with
            | None => Some (Ok tt, Internal node_path (children ++ [local_child child_character (Leaf suffix value)]))
            | Some (i, child) =>
                match child_owned child with
                | Err e => Some (Err e, n)
                | Ok node =>
                    '(r, node) ← node_insert fuel node suffix value;
                    Some (r, Internal node_path (<[i := local_child (ch_character child) node]> children))
                end
            end
      end
  end.

(** [insert_under_root]. *)
Definition insert_under_root (root_children : list TrieChild) (path value : list byte) : option (result MarfError unit * list TrieChild) :=
  match path with
  | [] => None
  | root_character :: suffix =>
      match find_child root_character root_children with
      | None => Some (Ok tt, root_children ++ [local_child root_character (Leaf suffix value)])
      | Some (i, child) =>
          match child_owned child with
          | Err e => Some (Err e, root_children)
          | Ok node =>
              '(r, node) ← node_insert (S (length suffix)) node suffix value;
              Some (r, <[i := local_child (ch_character child) node]> root_children)
          end
      end
  end.

(** ** Hashing a trie *)

Section TrieHash.
Context `{H : Hashes}.

(** [TrieChild::hash], given the hash of a node in memory. *)
Definition child_hash_by (hash : TrieNode -> option (result MarfError TrieHash)) (c : TrieChild) : option (result MarfError TrieHash) :=
  match ch_referenced_block c with
  | Some block => Some (Ok block)
  | None => match ch_target c with Memory n => hash n | Stored block index _ => Some (storage_node_hash block index) end
  end.

(** [TrieNode::hash] and [hash_children]. *)
Fixpoint node_hash (n : TrieNode) : option (result MarfError TrieHash) :=
  match n with
  | Leaf path value => Some (leaf_hash path value)
  | Internal path children =>
      id ← node_id_for_children (length children);
      let! hashes := collect_all (child_hash_by node_hash) children in hash_slots id path children hashes
  end.

Definition child_hash (c : TrieChild) : option (result MarfError TrieHash) := child_hash_by node_hash c.

Definition hash_children (id : TrieNodeId) (path : list byte) (children : list TrieChild) : option (result MarfError TrieHash) :=
  let! hashes := collect_all child_hash children in hash_slots id path children hashes.

End TrieHash.

(** ** Leaves *)

(** [TrieNode::collect_leaves] of a node reached by [path]. The copy into 32 bytes
    panics on another length. *)
Fixpoint node_leaves (fuel : nat) (path : list byte) (n : TrieNode) : option (result MarfError (list (list byte * list byte))) :=
  match fuel with
  | O => None
  | S fuel =>
      match n with
      | Leaf suffix value => if Nat.eqb (length (path ++ suffix)) 32 then Some (Ok [(path ++ suffix, value)]) else None
      | Internal prefix children =>
          let! parts := collect_all (fun c => let! node := Some (child_node c) in node_leaves fuel (path ++ prefix ++ [ch_character c]) node) children in
          Some (Ok (concat parts))
      end
  end.

End Reading.
