(* ===== verification/MarfVersions.v ===== *)
(** * The versions of the MARF, of [crates/nano-marf/src/lib.rs]

    [VersionedMarf] keeps sealed states in the table of [MarfTrie] and at most
    one state that is being written. A transaction of the database that fails
    leaves the table as it was. The text a failure carries is left out. *)

From stdpp Require Import gmap sorting.
From Stdlib Require Import Strings.String.
From S2P Require Import Prelude Primitives Crypto MarfTrie.

Section Thread.
Context {S E A B : Type} (f : S -> A -> option (result E (B * S))).

(** A loop that threads the storage. *)
Fixpoint thread_all (s : S) (l : list A) : option (result E (list B * S)) :=
  match l with
  | [] => Some (Ok ([], s))
  | a :: l => let! (b, s) := f s a in let! (bs, s) := thread_all s l in Some (Ok (b :: bs, s))
  end.

End Thread.

(** ** Writing the nodes of a state *)

Section Persist.
Context `{H : Hashes}.
Variable block : Z.

(** The table, and the index of the next node. *)
Notation Writer := (TrieStorage * Z)%type.

(** [insert_node]: the row of a node, added or replaced. *)
Definition storage_insert_node (st : TrieStorage) (index : Z) (hash : TrieHash) (n : TrieNode) : result MarfError TrieStorage :=
  let? data := encode_node n in
  Ok (mkStorage (st_blocks st) (<[(block, index) := (hash, data)]> (st_nodes st)) (st_sequence st)).

(** The last steps of [persist_node] and [persist_root]. *)
Definition write_node (w : Writer) (hash : TrieHash) (n : TrieNode) : result MarfError (Z * Writer) :=
  let (st, next) := w in
  let? following := or_err (checked_add U32_MAX next 1) HeightOverflow in
  let? st := storage_insert_node st next hash n in
  Ok (next, (st, following)).

(** One turn of [persist_children], given how a node in memory is written. *)
Definition persist_child_by (persist : Writer -> TrieNode -> option (result MarfError ((Z * TrieHash * TrieNodeId) * Writer)))
  (w : Writer) (c : TrieChild) : option (result MarfError ((TrieChild * TrieHash) * Writer)) :=
  match ch_target c with
  | Memory n =>
      match ch_referenced_block c with
      | Some _ => Some (Err InvalidBackPointer)
      | None => let! (index, hash, kind, w) := persist w n in Some (Ok ((mkChild (ch_character c) None (Stored block index kind), hash), w))
      end
  | Stored owner index _ =>
      let! hash := Some (match ch_referenced_block c with Some referenced => Ok referenced | None => storage_node_hash w.1 owner index end) in
      Some (Ok ((c, hash), w))
  end.

Fixpoint persist_node (w : Writer) (n : TrieNode) {struct n} : option (result MarfError ((Z * TrieHash * TrieNodeId) * Writer)) :=
  match n with
  | Leaf path value =>
      let! hash := Some (leaf_hash path value) in
      let! (index, w) := Some (write_node w hash n) in Some (Ok ((index, hash, NodeLeaf), w))
  | Internal path children =>
      let! (rows, w) := thread_all (persist_child_by persist_node) w children in
      id ← node_id_for_children (length rows.*1);
      let! hash := hash_slots id path rows.*1 rows.*2 in
      let! (index, w) := Some (write_node w hash (Internal path rows.*1)) in Some (Ok ((index, hash, id), w))
  end.

Definition persist_root (w : Writer) (root_children : list TrieChild) : option (result MarfError ((Z * TrieHash) * Writer)) :=
  let! (rows, w) := thread_all (persist_child_by persist_node) w root_children in
  let! hash := hash_slots Node256 [] rows.*1 rows.*2 in
  let! (index, w) := Some (write_node w hash (Internal [] rows.*1)) in Some (Ok ((index, hash), w)).

End Persist.

(** ** The block table *)

(** [reserve_block]: the new row's identifier, and the table with it. *)
Definition reserve_block (st : TrieStorage) (hash : MarfBlockId) (parent : option Z) (height : Z) (jumps : list MarfBlockId)
  : result MarfError (Z * TrieStorage) :=
  match storage_block st hash with
  | Some _ => Err (Storage DuplicateHash)
  | None =>
      let id := st_sequence st + 1 in
      if U32_MAX <? id then Err (Storage IdentifierOverflow) else
      Ok (id, mkStorage (st_blocks st ++ [mkRow id hash parent height (zeroes 32) (zeroes 32) None jumps]) (st_nodes st) id)
  end.

Definition complete_block (st : TrieStorage) (id : Z) (root content : TrieHash) (node : option Z) : TrieStorage :=
  mkStorage (map (fun r => if row_id r =? id then mkRow (row_id r) (row_hash r) (row_parent r) (row_height r) root content node (row_jumps r) else r) (st_blocks st))
    (st_nodes st) (st_sequence st).

(** [TrieStorage::discard_above]: how many states went, and the table without them. *)
Definition storage_discard_above (st : TrieStorage) (height : Z) : Z * TrieStorage :=
  let gone := List.filter (fun r => height <? row_height r) (st_blocks st) in
  (len gone,
   mkStorage (List.filter (fun r => row_height r <=? height) (st_blocks st))
     (filter (fun kv : (Z * Z) * (TrieHash * list byte) => kv.1.1 ∉ map row_id gone) (st_nodes st)) (st_sequence st)).

(** [ORDER BY height DESC, id DESC LIMIT 1]. *)
Definition later_row (best : option BlockRow) (r : BlockRow) : option BlockRow :=
  match best with
  | None => Some r
  | Some b => if (row_height b <? row_height r) || ((row_height b =? row_height r) && (row_id b <? row_id r)) then Some r else Some b
  end.

Definition storage_tip (st : TrieStorage) : option MarfBlockId := row_hash <$> fold_left later_row (st_blocks st) None.

(** ** Keys of the MARF's own *)

Definition BLOCK_HASH_TO_HEIGHT_KEY : list byte := list_byte_of_string "__MARF_BLOCK_HASH_TO_HEIGHT".
Definition BLOCK_HEIGHT_TO_HASH_KEY : list byte := list_byte_of_string "__MARF_BLOCK_HEIGHT_TO_HASH".
Definition OWN_BLOCK_HEIGHT_KEY : list byte := list_byte_of_string "__MARF_BLOCK_HEIGHT_SELF".
Definition KEY_SEPARATOR : list byte := list_byte_of_string "::".

(** The decimal digits of a [u32], which has at most ten. *)
Fixpoint decimal (fuel : nat) (z : Z) (acc : list byte) : list byte :=
  match fuel with
  | O => acc
  | S fuel => let acc := byte_of (48 + z mod 10) :: acc in if z <? 10 then acc else decimal fuel (z / 10) acc
  end.

Definition hex_nibble (z : Z) : byte := byte_of (if z <? 10 then 48 + z else 87 + z).
Definition block_hex (block : MarfBlockId) : list byte := concat (map (fun b => [hex_nibble (u8 b / 16); hex_nibble (u8 b mod 16)]) block).

Definition height_key (height : Z) : list byte := BLOCK_HEIGHT_TO_HASH_KEY ++ KEY_SEPARATOR ++ decimal 10 height [].
Definition hash_key (block : MarfBlockId) : list byte := BLOCK_HASH_TO_HEIGHT_KEY ++ KEY_SEPARATOR ++ block_hex block.

(** [height_keys]; a parent at height zero panics. *)
Definition height_keys (parent : option MarfBlockId) (block : MarfBlockId) (height : Z) : option (list (list byte * list byte)) :=
  let entries := [(OWN_BLOCK_HEIGHT_KEY, MarfValue.from_u32 height);
                  (height_key height, MarfValue.from_block_id block);
                  (hash_key block, MarfValue.from_u32 height)] in
  match parent with
  | None => Some entries
  | Some parent =>
      previous ← checked_sub height 1;
      Some (entries ++ [(height_key previous, MarfValue.from_block_id parent); (hash_key parent, MarfValue.from_u32 previous)])
  end.

Section Versions.
Context `{H : Hashes}.

(** The inserts one after the other; the first that fails ends them. *)
Fixpoint insert_entries (st : TrieStorage) (root_children : list TrieChild) (entries : list (list byte * list byte))
  : option (result MarfError (list TrieChild)) :=
  match entries with
  | [] => Some (Ok root_children)
  | (key, value) :: rest =>
      '(r, root_children) ← insert_under_root st root_children (key_path key) value;
      match r with Err e => Some (Err e) | Ok _ => insert_entries st root_children rest end
  end.

Definition insert_metadata (st : TrieStorage) (root_children : list TrieChild) (parent : option MarfBlockId) (block : MarfBlockId) (height : Z)
  : option (result MarfError (list TrieChild)) :=
  entries ← height_keys parent block height; insert_entries st root_children entries.

Definition extend_root (st : TrieStorage) (parent : BlockRow) : result MarfError (list TrieChild) :=
  let? children := match row_node parent with
                   | Some index =>
                       let? node := storage_node st (row_id parent) index in
                       match node with Internal _ children => Ok children | Leaf _ _ => Err (Storage RootIsLeaf) end
                   | None => Ok []
                   end in
  Ok (prepare_children (row_hash parent) children).

End Versions.

(** ** The states *)

Module VersionedMarf.
Section Ops.
Context `{H : Hashes}.

Record ActiveVersion : Type := mkActive {
  av_block : MarfBlockId;
  av_parent : option MarfBlockId;
  av_height : Z;
  av_root_children : list TrieChild;
}.

Record t : Type := mkMarf { vm_storage : TrieStorage; vm_active : option ActiveVersion }.

Definition new : t := mkMarf empty_storage None.

Definition snapshot (m : t) : option ActiveVersion := vm_active m.
Definition restore (m : t) (s : option ActiveVersion) : t := mkMarf (vm_storage m) s.

Definition tip (m : t) : option MarfBlockId := storage_tip (vm_storage m).
Definition contains (m : t) (block : MarfBlockId) : bool := bool_decide (is_Some (storage_block (vm_storage m) block)).

Definition active_block (m : t) : option MarfBlockId := av_block <$> vm_active m.
Definition active_height (m : t) : option Z := av_height <$> vm_active m.

Definition discard_above (m : t) (height : Z) : result MarfError Z * t :=
  match vm_active m with
  | Some _ => (Err WriteInProgress, m)
  | None => let (removed, st) := storage_discard_above (vm_storage m) height in (Ok removed, mkMarf st None)
  end.

Definition begin (m : t) (parent : option MarfBlockId) (block : MarfBlockId) : option (result MarfError unit * t) :=
  let st := vm_storage m in
  match vm_active m with
  | Some _ => Some (Err WriteInProgress, m)
  | None =>
      match storage_block st block with
      | Some _ => Some (Err VersionAlreadyExists, m)
      | None =>
          let start := match parent with
                       | None => Ok ([], 0)
                       | Some parent =>
                           let? record := or_err (storage_block st parent) UnknownVersion in
                           let? children := extend_root st record in
                           let? height := or_err (checked_add U32_MAX (row_height record) 1) HeightOverflow in
                           Ok (children, height)
                       end in
          match start with
          | Err e => Some (Err e, m)
          | Ok (root_children, height) =>
              r ← insert_metadata st root_children parent block height;
              match r with
              | Err e => Some (Err e, m)
              | Ok root_children => Some (Ok tt, mkMarf st (Some (mkActive block parent height root_children)))
              end
          end
      end
  end.

Definition insert_path (m : t) (path value : list byte) : option (result MarfError unit * t) :=
  match vm_active m with
  | None => Some (Err WriteNotBegun, m)
  | Some a =>
      '(r, children) ← insert_under_root (vm_storage m) (av_root_children a) path value;
      Some (r, mkMarf (vm_storage m) (Some (mkActive (av_block a) (av_parent a) (av_height a) children)))
  end.

Definition insert (m : t) (key value : list byte) : option (result MarfError unit * t) :=
  insert_path m (key_path key) value.

(** ** Ancestors *)

(** The loop of [jumps] from [step] on; a height has fewer than 32 bits to spare. *)
Fixpoint jumps_loop (st : TrieStorage) (height : Z) (fuel step : nat) (jumps : list MarfBlockId) : option (result MarfError (list MarfBlockId)) :=
  match fuel with
  | O => None
  | S fuel =>
      if 2 ^ Z.of_nat step <=? height then
        previous ← jumps !! (step - 1)%nat;
        let! theirs := Some (storage_jumps st previous) in
        let! ancestor := Some (or_err (theirs !! (step - 1)%nat) UnknownVersion) in
        jumps_loop st height fuel (S step) (jumps ++ [ancestor])
      else Some (Ok jumps)
  end.

Definition jumps_for (st : TrieStorage) (parent : option MarfBlockId) (height : Z) : option (result MarfError (list MarfBlockId)) :=
  match parent with None => Some (Ok []) | Some parent => jumps_loop st height 32 1 [parent] end.

Definition ancestor_roots_for (st : TrieStorage) (jumps : list MarfBlockId) : result MarfError (list TrieHash) :=
  collect (fun block => match storage_block st block with Some r => Ok (row_root r) | None => Err UnknownVersion end) jumps.

Definition ancestor_roots (st : TrieStorage) (parent : option MarfBlockId) (height : Z) : option (result MarfError (list TrieHash)) :=
  let! jumps := jumps_for st parent height in Some (ancestor_roots_for st jumps).

(** ** Sealing *)

Definition pending_root (m : t) : option (result MarfError TrieHash) :=
  match vm_active m with
  | None => Some (Err WriteNotBegun)
  | Some a =>
      let! content := hash_children (vm_storage m) Node256 [] (av_root_children a) in
      let! roots := ancestor_roots (vm_storage m) (av_parent a) (av_height a) in
      Some (Ok (state_root content roots))
  end.

Definition pending_root_children (m : t) : option (result MarfError (list (byte * TrieHash))) :=
  match vm_active m with
  | None => Some (Err WriteNotBegun)
  | Some a => collect_all (fun c => let! hash := child_hash (vm_storage m) c in Some (Ok (ch_character c, hash))) (av_root_children a)
  end.

(** [write_sealed]: the root, and the table once the transaction is committed. *)
Definition write_sealed (st : TrieStorage) (block : MarfBlockId) (a : ActiveVersion) : option (result MarfError (TrieHash * TrieStorage)) :=
  let parent := parent ← av_parent a; row_id <$> storage_block st parent in
  let! jumps := jumps_for st (av_parent a) (av_height a) in
  let! roots := Some (ancestor_roots_for st jumps) in
  let! (id, reserved) := Some (reserve_block st block parent (av_height a) jumps) in
  let! (node, content, (written, _)) := persist_root id (reserved, 0) (av_root_children a) in
  let root := state_root content roots in
  Some (Ok (root, complete_block written id root content (Some node))).

Definition seal_to (m : t) (block : MarfBlockId) : option (result MarfError TrieHash * t) :=
  match storage_block (vm_storage m) block with
  | Some _ => Some (Err VersionAlreadyExists, m)
  | None =>
      match vm_active m with
      | None => Some (Err WriteNotBegun, m)
      | Some a =>
          r ← write_sealed (vm_storage m) block a;
          match r with Err e => Some (Err e, m) | Ok (root, st) => Some (Ok root, mkMarf st None) end
      end
  end.

Definition seal (m : t) : option (result MarfError TrieHash * t) :=
  match vm_active m with None => Some (Err WriteNotBegun, m) | Some a => seal_to m (av_block a) end.

Definition abort (m : t) : result MarfError unit * t :=
  match vm_active m with None => (Err WriteNotBegun, m) | Some _ => (Ok tt, mkMarf (vm_storage m) None) end.

(** ** Reading *)

Definition sealed_root (m : t) (block : MarfBlockId) : result MarfError (option TrieNode) :=
  match storage_block (vm_storage m) block with
  | None => Ok None
  | Some r => match row_node r with
              | None => Ok None
              | Some index => let? node := storage_node (vm_storage m) (row_id r) index in Ok (Some node)
              end
  end.

Definition get_path (m : t) (block : MarfBlockId) (path : list byte) : option (result MarfError (option (list byte))) :=
  let! root := Some (sealed_root m block) in
  match root with None => Some (Ok None) | Some root => node_get (vm_storage m) (S (length path)) root path end.

Definition get (m : t) (block : MarfBlockId) (key : list byte) : option (result MarfError (option (list byte))) :=
  get_path m block (key_path key).

Definition get_active_path (m : t) (path : list byte) : option (result MarfError (option (list byte))) :=
  match vm_active m with None => Some (Ok None) | Some a => find_path (vm_storage m) (av_root_children a) path end.

Definition get_active (m : t) (key : list byte) : option (result MarfError (option (list byte))) := get_active_path m (key_path key).

Definition root (m : t) (block : MarfBlockId) : option TrieHash := row_root <$> storage_block (vm_storage m) block.
Definition content_root (m : t) (block : MarfBlockId) : option TrieHash := row_content <$> storage_block (vm_storage m) block.
Definition height (m : t) (block : MarfBlockId) : option Z := row_height <$> storage_block (vm_storage m) block.

Definition parent (m : t) (block : MarfBlockId) : result MarfError (option (option MarfBlockId)) :=
  match storage_block (vm_storage m) block with
  | None => Ok None
  | Some r => match row_parent r with
              | None => Ok (Some None)
              | Some id => let? hash := storage_block_hash (vm_storage m) id in Ok (Some (Some hash))
              end
  end.

(** [collect_leaves]. *)
Definition collect_leaves (st : TrieStorage) (root_children : list TrieChild) : option (result MarfError (list (list byte * list byte))) :=
  let! parts := collect_all (fun c => let! node := Some (child_node st c) in node_leaves st 33 [ch_character c] node) root_children in
  Some (Ok (merge_sort (fun a b => bytes_le a.1 b.1) (concat parts))).

Definition leaves (m : t) (block : MarfBlockId) : option (result MarfError (option (list (list byte * list byte)))) :=
  let! root := Some (sealed_root m block) in
  match root with
  | Some (Internal _ children) => let! l := collect_leaves (vm_storage m) children in Some (Ok (Some l))
  | _ => Some (Ok None)
  end.

(** The loop of [block_at_height]. *)
Fixpoint descend_to (st : TrieStorage) (fuel : nat) (record : BlockRow) (height : Z) : option (result MarfError (option MarfBlockId)) :=
  match fuel with
  | O => None
  | S fuel =>
      if height <? row_height record then
        let! jumps := Some (storage_jumps st (row_hash record)) in
        match jumps !! Z.to_nat (Z.log2 (row_height record - height)) with
        | None => Some (Ok None)
        | Some step => match storage_block st step with None => Some (Ok None) | Some next => descend_to st fuel next height end
        end
      else Some (Ok (if row_height record =? height then Some (row_hash record) else None))
  end.

Definition block_at_height (m : t) (block : MarfBlockId) (height : Z) : option (result MarfError (option MarfBlockId)) :=
  match storage_block (vm_storage m) block with
  | None => Some (Ok None)
  | Some record => descend_to (vm_storage m) 33 record height
  end.

Definition verify_tip (m : t) : result MarfError (option MarfBlockId) :=
  match storage_tip (vm_storage m) with
  | None => Ok None
  | Some tip =>
      let? record := or_err (storage_block (vm_storage m) tip) UnknownVersion in
      let? sealed := sealed_root m tip in
      if bool_decide (sealed = None /\ is_Some (row_node record)) then Err UnknownVersion else
      let? jumps := storage_jumps (vm_storage m) tip in
      let? _ := ancestor_roots_for (vm_storage m) jumps in
      Ok (Some tip)
  end.

End Ops.
End VersionedMarf.

(** ** One trie *)

(** [MarfTrie]: the writes of one state over a table of their own. *)
Module OneTrie.
Section Ops.
Context `{H : Hashes}.

Record t : Type := mkTrie { ot_storage : TrieStorage; ot_root_children : list TrieChild }.

Definition new : t := mkTrie empty_storage [].

Definition insert_path (m : t) (path value : list byte) : option (result MarfError unit * t) :=
  '(r, children) ← insert_under_root (ot_storage m) (ot_root_children m) path value; Some (r, mkTrie (ot_storage m) children).

Definition insert (m : t) (key value : list byte) : option (result MarfError unit * t) := insert_path m (key_path key) value.

Definition get_path (m : t) (path : list byte) : option (result MarfError (option (list byte))) := find_path (ot_storage m) (ot_root_children m) path.
Definition get (m : t) (key : list byte) : option (result MarfError (option (list byte))) := get_path m (key_path key).
Definition root_hash (m : t) : option (result MarfError TrieHash) := hash_children (ot_storage m) Node256 [] (ot_root_children m).
Definition leaves (m : t) : option (result MarfError (list (list byte * list byte))) := VersionedMarf.collect_leaves (ot_storage m) (ot_root_children m).

End Ops.
End OneTrie.
