(* ===== verification/MarfTheorems.v ===== *)
(** * Theorems about the trie of the MARF

    Well-formed nodes over a table, that records decode to the nodes they encode,
    that reading and inserting behave like a map from paths to values, and that
    a larger table changes neither. *)

From stdpp Require Import gmap.
From S2P Require Import Prelude Primitives Crypto MarfTrie.

(** ** Records *)

Lemma length_le_bytes n z : length (le_bytes n z) = n.
Proof. unfold le_bytes. by rewrite length_rev, length_to_be_bytes. Qed.

Lemma from_le_le n z : 0 <= z < 256 ^ Z.of_nat n -> from_le_bytes (le_bytes n z) = z.
Proof. intros H. unfold from_le_bytes, le_bytes. rewrite rev_involutive. by apply from_to_be_bytes. Qed.

Lemma u32_le_bytes z : is_u32 z -> from_le_bytes (le_bytes 4 z) = z.
Proof. intros H. apply from_le_le. unfold is_u32, U32_MAX in H. change (256 ^ Z.of_nat 4) with 4294967296. lia. Qed.

Lemma take_bytes_app n a rest : length a = Z.to_nat n -> 0 <= n -> take_bytes n (a ++ rest) = Ok (a, rest).
Proof.
  intros Ha Hn. unfold take_bytes. rewrite length_app. rewrite (proj2 (Z.leb_le _ _)) by lia.
  by rewrite take_app_length', drop_app_length' by lia.
Qed.

(** A child as a sealed record of block [own] holds it. *)
Definition record_child (st : TrieStorage) (own : Z) (c : TrieChild) : Prop :=
  match ch_target c with
  | Memory _ => False
  | Stored b i kind =>
      is_u32 b /\ is_u32 i /\
      match ch_referenced_block c with Some h => storage_block_hash st b = Ok h | None => b = own end
  end.

Lemma flags_back kind : Z.land (u8 (byte_of (Z.lor (node_id_byte kind) 0x80))) 0x7f = node_id_byte kind /\
  Z.land (u8 (byte_of (Z.lor (node_id_byte kind) 0x80))) BACK_POINTER <> 0.
Proof. by destruct kind. Qed.

Lemma flags_local kind : Z.land (u8 (byte_of (Z.lor (node_id_byte kind) 0))) 0x7f = node_id_byte kind /\
  Z.land (u8 (byte_of (Z.lor (node_id_byte kind) 0))) BACK_POINTER = 0.
Proof. by destruct kind. Qed.

Lemma node_id_roundtrip kind : node_id_from_byte (node_id_byte kind) = Ok kind.
Proof. by destruct kind. Qed.

Lemma child_roundtrip st own c bytes rest : record_child st own c -> encode_child c = Ok bytes ->
  decode_child st own (bytes ++ rest) = Ok (c, rest).
Proof.
  unfold record_child, encode_child. destruct c as [ch ref [n|b i kind]]; cbn [ch_target ch_referenced_block ch_character]; [done|]. intros (Hb & Hi & Href) He.
  set (flags := byte_of _) in He. assert (bytes = [flags; ch] ++ le_bytes 4 b ++ le_bytes 4 i) as -> by congruence.
  unfold decode_child. rewrite <- !app_assoc. cbn [app take_byte].
  rewrite (take_bytes_app 4) by (done || by rewrite length_le_bytes). rewrite (take_bytes_app 4) by (done || by rewrite length_le_bytes).
  destruct ref as [h|]; unfold flags; [destruct (flags_back kind) as [-> Hb1]|destruct (flags_local kind) as [-> Hb1]]; rewrite node_id_roundtrip.
  - rewrite (proj2 (Z.eqb_neq _ 0) Hb1), !u32_le_bytes by done. by rewrite Href.
  - rewrite Hb1, Z.eqb_refl, u32_le_bytes by done. by rewrite Href.
Qed.

Lemma children_roundtrip st own cs parts rest : Forall (record_child st own) cs -> collect encode_child cs = Ok parts ->
  decode_children st own (length cs) (concat parts ++ rest) = Ok cs.
Proof.
  intros HF. revert parts. induction HF as [|c cs Hc _ IH]; intros parts Hp; cbn [collect] in Hp; [by injection Hp as <-|].
  destruct (encode_child c) as [b|] eqn:Hb; [|done]. destruct (collect encode_child cs) as [bs|] eqn:Hbs; [|done].
  assert (parts = b :: bs) as -> by congruence. cbn [length decode_children concat]. rewrite <- app_assoc, (child_roundtrip st own c b) by done.
  by rewrite IH.
Qed.

Lemma children_encode st own cs : Forall (record_child st own) cs -> exists parts, collect encode_child cs = Ok parts.
Proof.
  induction 1 as [|c cs Hc _ [parts IH]]; [by exists []|]. unfold record_child, encode_child in *. cbn [collect]. destruct (ch_target c) as [n|b i k]; [done|].
  rewrite IH. by eexists.
Qed.

(** A node as a sealed record of block [own] holds it. *)
Definition record_node (st : TrieStorage) (own : Z) (n : TrieNode) : Prop :=
  match n with
  | Leaf path value => (length path <= 32)%nat /\ length value = 40%nat
  | Internal path children => (length path <= 32)%nat /\ len children <= U16_MAX /\ Forall (record_child st own) children
  end.

Lemma path_roundtrip path size rest : (length path <= 32)%nat -> path_length path = Ok size -> take_path (size :: path ++ rest) = Ok (path, rest).
Proof.
  intros Hp Hs. unfold path_length, U8_MAX in Hs. rewrite (proj2 (Z.leb_le _ _)) in Hs by lia. assert (size = byte_of (len path)) as -> by congruence.
  unfold take_path. cbn [take_byte]. rewrite u8_byte_of, Z.mod_small by lia. rewrite (proj2 (Z.ltb_ge _ _)) by lia. apply take_bytes_app; lia.
Qed.

(** What [encode] writes, [decode] reads back, given the rows the back-pointers name. *)
Lemma record_roundtrip st own n bytes : record_node st own n -> encode_node n = Ok bytes -> decode_node st own bytes = Ok n.
Proof.
  destruct n as [path value|path children]; cbn [record_node encode_node].
  - intros [Hp Hv] He. destruct (path_length path) as [size|] eqn:Hs; [|done]. assert (bytes = LEAF_RECORD :: size :: path ++ value) as -> by (cbn [app] in He; congruence).
    unfold decode_node. cbn [take_byte]. rewrite path_roundtrip by done. rewrite decide_True by done.
    rewrite <- (app_nil_r value), take_bytes_app by (done || lia). by rewrite app_nil_r.
  - intros (Hp & Hl & HF) He. destruct (path_length path) as [size|] eqn:Hs; [|done]. rewrite (proj2 (Z.ltb_ge _ _)) in He by lia.
    destruct (collect encode_child children) as [parts|] eqn:Hparts; [|done].
    assert (bytes = INTERNAL_RECORD :: size :: path ++ le_bytes 2 (len children) ++ concat parts) as -> by (cbn [app] in He; congruence).
    unfold decode_node. cbn [take_byte]. rewrite path_roundtrip by done. rewrite decide_False by done. rewrite decide_True by done.
    rewrite (take_bytes_app 2) by (done || by rewrite length_le_bytes).
    rewrite from_le_le by (unfold U16_MAX in Hl; change (256 ^ Z.of_nat 2) with 65536; lia). rewrite Nat2Z.id.
    by rewrite <- (app_nil_r (concat parts)), (children_roundtrip st own).
Qed.

Lemma record_encodes st own n : record_node st own n -> exists bytes, encode_node n = Ok bytes.
Proof.
  destruct n as [path value|path children]; cbn [record_node encode_node]; unfold path_length, U8_MAX.
  - intros [Hp _]. rewrite (proj2 (Z.leb_le _ _)) by lia. by eexists.
  - intros (Hp & Hl & HF). rewrite (proj2 (Z.leb_le _ _)) by lia. rewrite (proj2 (Z.ltb_ge _ _)) by lia.
    destruct (children_encode st own children HF) as [parts ->]. by eexists.
Qed.

(** ** Children of a node *)

Lemma find_child_Some ch cs i c : find_child ch cs = Some (i, c) -> cs !! i = Some c /\ ch_character c = ch.
Proof.
  revert i c. induction cs as [|c' cs IH]; intros i c; cbn [find_child]; [done|]. unfold has_character. case_bool_decide as Hc.
  - intros [= <- <-]. done.
  - destruct (find_child ch cs) as [[j d]|]; [|done]. intros [= <- <-]. by apply IH.
Qed.

Lemma find_child_None ch (cs : list TrieChild) : find_child ch cs = None <-> ch ∉ map ch_character cs.
Proof.
  induction cs as [|c cs IH]; cbn [find_child map]; [split; [intros _; apply not_elem_of_nil|done]|]. unfold has_character. rewrite not_elem_of_cons. case_bool_decide as Hc.
  - split; [done|]. intros [Hne _]. congruence.
  - destruct (find_child ch cs) as [[j d]|]; [split; [done|]; intros [_ Hn]; by apply IH in Hn|]. split; [|done]. intros _. split; [congruence|by apply IH].
Qed.

Lemma find_child_at (cs : list TrieChild) i c : NoDup (map ch_character cs) -> cs !! i = Some c -> find_child (ch_character c) cs = Some (i, c).
Proof.
  intros Hnd Hi. destruct (find_child (ch_character c) cs) as [[j d]|] eqn:Hf.
  - destruct (find_child_Some _ _ _ _ Hf) as [Hj Hd]. assert (j = i) as ->.
    { eapply (NoDup_lookup (map ch_character cs)); [done| |]; rewrite list_lookup_fmap; [by rewrite Hj|]. rewrite Hi. cbn. congruence. }
    congruence.
  - apply find_child_None in Hf. destruct Hf. apply list_elem_of_fmap. exists c. split; [done|]. by eapply list_elem_of_lookup_2.
Qed.

Lemma find_child_app ch (cs : list TrieChild) c : ch_character c ∉ map ch_character cs ->
  find_child ch (cs ++ [c]) = if decide (ch_character c = ch) then Some (length cs, c) else find_child ch cs.
Proof.
  intros Hc. induction cs as [|d cs IH]; cbn [app find_child map length] in *.
  - unfold has_character. by repeat case_decide || case_bool_decide.
  - apply not_elem_of_cons in Hc as [Hcd Hc]. rewrite (IH Hc). unfold has_character. case_bool_decide as Hd.
    + rewrite decide_False by congruence. done.
    + by case_decide.
Qed.

Lemma characters_set (cs : list TrieChild) i c c' : cs !! i = Some c -> ch_character c' = ch_character c -> map ch_character (<[i := c']> cs) = map ch_character cs.
Proof.
  intros Hi Hc. change (map ch_character (<[i := c']> cs)) with (ch_character <$> <[i := c']> cs). rewrite list_fmap_insert. apply list_insert_id.
  rewrite list_lookup_fmap, Hi. cbn. by rewrite Hc.
Qed.

Lemma find_child_set ch (cs : list TrieChild) i c c' : NoDup (map ch_character cs) -> cs !! i = Some c -> ch_character c' = ch_character c ->
  find_child ch (<[i := c']> cs) = if decide (ch = ch_character c) then Some (i, c') else find_child ch cs.
Proof.
  intros Hnd Hi Hc. assert (Hlt : (i < length cs)%nat) by (by eapply lookup_lt_Some). case_decide as Hd.
  - subst ch. rewrite <- Hc. apply find_child_at; [by erewrite characters_set|]. by apply list_lookup_insert_eq.
  - destruct (find_child ch cs) as [[j d]|] eqn:Hf.
    + destruct (find_child_Some _ _ _ _ Hf) as [Hj Hjc]. rewrite <- Hjc. apply find_child_at; [by erewrite characters_set|].
      rewrite list_lookup_insert_ne; [done|]. intros ->. congruence.
    + apply find_child_None. erewrite characters_set by done. by apply find_child_None.
Qed.

Lemma strip_path_Some prefix path rest : strip_path prefix path = Some rest <-> path = prefix ++ rest.
Proof.
  unfold strip_path. case_bool_decide as Hp; split.
  - intros [= <-]. rewrite <- Hp at 1. by rewrite take_drop.
  - intros ->. by rewrite drop_app_length.
  - done.
  - intros ->. by rewrite take_app_length in Hp.
Qed.

Lemma shared_prefix_spec a b : let s := shared_prefix a b in take s a = take s b /\ (s <= length a)%nat /\ (s <= length b)%nat /\
  (forall x y, a !! s = Some x -> b !! s = Some y -> x <> y).
Proof.
  revert b. induction a as [|x a IH]; intros [|y b]; cbn; [repeat split; [lia..|done]| repeat split; [lia..|done]|repeat split; [lia..|done]|].
  case_decide as Hxy; [|by repeat split; [lia..|intros ? ? [= <-] [= <-]]]. subst y. destruct (IH b) as (Ht & Ha & Hb & Hn). cbn. by repeat split; [f_equal|lia|lia|].
Qed.

(** Where two paths part. *)
Lemma shared_split a b s : s = shared_prefix a b -> (s < length a)%nat -> (s < length b)%nat ->
  exists x y, a !! s = Some x /\ b !! s = Some y /\ x <> y /\ a = take s a ++ x :: drop (S s) a /\ b = take s a ++ y :: drop (S s) b.
Proof.
  intros -> Ha Hb. destruct (shared_prefix_spec a b) as (Ht & _ & _ & Hn). set (s := shared_prefix a b) in *.
  destruct (lookup_lt_is_Some_2 a s Ha) as [x Hx]. destruct (lookup_lt_is_Some_2 b s Hb) as [y Hy]. exists x, y. split; [done|]. split; [done|].
  split; [by apply Hn|]. split; [by rewrite take_drop_middle|]. rewrite Ht. by rewrite take_drop_middle.
Qed.

(** ** Well-formed nodes *)

Definition id_row (st : TrieStorage) (id : Z) : option BlockRow := List.find (fun r => row_id r =? id) (st_blocks st).

(** The block that owns the node a child leads to, and its height. *)
Definition child_scope (st : TrieStorage) (own : option Z) (top : Z) (c : TrieChild) : option Z * Z :=
  match ch_target c with Memory _ => (own, top) | Stored b _ _ => (Some b, match id_row st b with Some r => row_height r | None => 0 end) end.

(** A child of a node that block [own] at height [top] owns, [None] for the state
    being written: what is in the table is there, with the kind the child says,
    and a back-pointer names a block below [top]. *)
Definition child_ok (st : TrieStorage) (own : option Z) (top : Z) (c : TrieChild) : Prop :=
  match ch_target c with
  | Memory _ => own = None /\ ch_referenced_block c = None
  | Stored b i kind =>
      is_u32 b /\ is_u32 i /\ (exists node, storage_node st b i = Ok node /\ node_id node = Some kind) /\
      exists r, id_row st b = Some r /\
        match ch_referenced_block c with Some h => row_hash r = h /\ row_height r < top | None => own = Some b /\ row_height r = top end
  end.

(** A node that consumes paths of the given length. *)
Inductive node_wf (st : TrieStorage) : option Z -> Z -> nat -> TrieNode -> Prop :=
| leaf_wf own top path value : length value = 40%nat -> node_wf st own top (length path) (Leaf path value)
| internal_wf own top m path children :
    (2 <= length children)%nat -> NoDup (map ch_character children) ->
    (forall c, c ∈ children -> child_ok st own top c) ->
    (forall c node, c ∈ children -> child_node st c = Ok node -> node_wf st (child_scope st own top c).1 (child_scope st own top c).2 m node) ->
    node_wf st own top (length path + S m) (Internal path children).

(** ** Reading *)

Definition node_lookup (st : TrieStorage) (n : TrieNode) (path : list byte) : option (list byte) :=
  match node_get st (S (length path)) n path with Some (Ok r) => r | _ => None end.

Definition child_lookup (st : TrieStorage) (c : TrieChild) (path : list byte) : option (list byte) :=
  match child_node st c with Ok n => node_lookup st n path | Err _ => None end.

Lemma child_resolves st own top c : child_ok st own top c -> exists node, child_node st c = Ok node.
Proof. unfold child_ok, child_node. destruct (ch_target c); [by eexists|]. intros (_ & _ & (node & Hn & _) & _). by exists node. Qed.

(** Fuel beyond the length of the path changes nothing. *)
Lemma node_get_total st own top n node : node_wf st own top n node -> forall path, length path = n ->
  exists r, forall fuel, (n < fuel)%nat -> node_get st fuel node path = Some (Ok r).
Proof.
  induction 1 as [own top lp value Hv|own top m np children Hlen Hnd Hok Hwf IH]; intros path Hpath.
  - exists (if decide (lp = path) then Some value else None). intros [|fuel] Hf; [lia|done].
  - destruct (strip_path np path) as [[|ch rest]|] eqn:Hs; [exists None; intros [|fuel] Hf; [lia|]; cbn [node_get]; by rewrite Hs| |
      exists None; intros [|fuel] Hf; [lia|]; cbn [node_get]; by rewrite Hs].
    assert (Hrest : length rest = m). { apply strip_path_Some in Hs. subst path. rewrite length_app in Hpath. cbn in Hpath. lia. }
    destruct (find_child ch children) as [[i c]|] eqn:Hf; [|exists None; intros [|fuel] Hfu; [lia|]; cbn [node_get]; by rewrite Hs, Hf].
    destruct (find_child_Some _ _ _ _ Hf) as [Hi Hc]. assert (Hin : c ∈ children) by (by eapply list_elem_of_lookup_2).
    destruct (child_resolves _ _ _ _ (Hok c Hin)) as [node Hnode]. destruct (IH c node Hin Hnode rest Hrest) as [r Hr].
    exists r. intros [|fuel] Hfu; [lia|]. cbn [node_get]. rewrite Hs, Hf, Hnode. apply Hr. lia.
Qed.

Lemma node_get_lookup st own top n node path fuel : node_wf st own top n node -> length path = n -> (n < fuel)%nat ->
  node_get st fuel node path = Some (Ok (node_lookup st node path)).
Proof.
  intros Hwf Hp Hf. destruct (node_get_total _ _ _ _ _ Hwf path Hp) as [r Hr]. unfold node_lookup. rewrite (Hr (S (length path))) by lia. by apply Hr.
Qed.

Lemma lookup_leaf st lp value path : node_lookup st (Leaf lp value) path = if decide (lp = path) then Some value else None.
Proof. done. Qed.

Lemma lookup_internal st own top n np children path : node_wf st own top n (Internal np children) -> length path = n ->
  node_lookup st (Internal np children) path =
  match strip_path np path with
  | Some (ch :: rest) => match find_child ch children with Some (_, c) => child_lookup st c rest | None => None end
  | _ => None
  end.
Proof.
  intros Hwf Hpath. unfold node_lookup at 1. cbn [node_get]. destruct (strip_path np path) as [[|ch rest]|] eqn:Hs; [done| |done].
  destruct (find_child ch children) as [[i c]|] eqn:Hf; [|done]. unfold child_lookup. destruct (child_node st c) as [node|] eqn:Hn; [|done].
  inversion Hwf as [|? ? m ? ? Hlen Hnd Hok Hsub Hm]; subst.
  destruct (find_child_Some _ _ _ _ Hf) as [Hi _]. assert (Hin : c ∈ children) by (by eapply list_elem_of_lookup_2). apply strip_path_Some in Hs. subst path. rewrite length_app in *. cbn [length] in *.
  rewrite (node_get_lookup _ _ _ _ _ rest _ (Hsub c node Hin Hn)); [done|lia|lia].
Qed.

(** ** Inserting *)

Lemma local_child_ok st top ch n : child_ok st None top (local_child ch n).
Proof. done. Qed.

Lemma fork_wf st top m pre x n1 y n2 : x <> y -> node_wf st None top m n1 -> node_wf st None top m n2 ->
  node_wf st None top (length pre + S m) (Internal pre [local_child x n1; local_child y n2]).
Proof.
  intros Hxy H1 H2. constructor.
  - done.
  - cbn [map local_child ch_character]. apply NoDup_cons. split; [by rewrite list_elem_of_singleton|apply NoDup_singleton].
  - intros c. rewrite elem_of_cons, list_elem_of_singleton. intros [->| ->]; apply local_child_ok.
  - intros c node. rewrite elem_of_cons, list_elem_of_singleton. intros [->| ->]; cbn; by intros [= <-].
Qed.

Lemma fork_lookup st top m pre x n1 y n2 q : x <> y -> node_wf st None top m n1 -> node_wf st None top m n2 -> length q = (length pre + S m)%nat ->
  node_lookup st (Internal pre [local_child x n1; local_child y n2]) q =
  match strip_path pre q with
  | Some (ch :: rest) => if decide (ch = x) then node_lookup st n1 rest else if decide (ch = y) then node_lookup st n2 rest else None
  | _ => None
  end.
Proof.
  intros Hxy H1 H2 Hq. rewrite (lookup_internal _ _ _ _ _ _ _ (fork_wf st top m pre x n1 y n2 Hxy H1 H2) Hq). destruct (strip_path pre q) as [[|ch rest]|]; [done| |done].
  cbn [find_child]. unfold has_character. cbn [local_child ch_character]. case_bool_decide as Hx; [by rewrite decide_True by done|]. rewrite (decide_False (P := ch = x)) by congruence.
  case_bool_decide as Hy; [by rewrite decide_True by done|by rewrite decide_False by congruence].
Qed.

Lemma prepare_characters block cs : map ch_character (prepare_children block cs) = map ch_character cs.
Proof. unfold prepare_children. rewrite map_map. done. Qed.

Lemma prepare_find ch block cs : find_child ch (prepare_children block cs) =
  match find_child ch cs with Some (i, c) => Some (i, mkChild (ch_character c) (Some (default block (ch_referenced_block c))) (ch_target c)) | None => None end.
Proof.
  induction cs as [|c cs IH]; [done|]. cbn [prepare_children map find_child]. unfold has_character at 1. cbn [ch_character]. unfold has_character. case_bool_decide; [done|].
  change (map _ cs) with (prepare_children block cs). rewrite IH. by destruct (find_child ch cs) as [[i d]|].
Qed.

Lemma prepare_elem c block cs : c ∈ prepare_children block cs -> exists d, d ∈ cs /\ c = mkChild (ch_character d) (Some (default block (ch_referenced_block d))) (ch_target d).
Proof. intros (d & -> & Hd)%list_elem_of_fmap. by exists d. Qed.

(** Children that lead to nodes of one length, as the root and an inner node have. *)
Record children_wf (st : TrieStorage) (own : option Z) (top : Z) (m : nat) (cs : list TrieChild) : Prop := {
  cs_nodup : NoDup (map ch_character cs);
  cs_ok : forall c, c ∈ cs -> child_ok st own top c;
  cs_sub : forall c node, c ∈ cs -> child_node st c = Ok node -> node_wf st (child_scope st own top c).1 (child_scope st own top c).2 m node;
}.

Lemma internal_children st own top n np cs : node_wf st own top n (Internal np cs) <->
  exists m, n = (length np + S m)%nat /\ (2 <= length cs)%nat /\ children_wf st own top m cs.
Proof.
  split.
  - intros Hwf. inversion Hwf as [|? ? m ? ? Hlen Hnd Hok Hsub]; subst. exists m. by repeat split.
  - intros (m & -> & Hlen & [Hnd Hok Hsub]). by constructor.
Qed.

(** Children, and a node, taken over from the block that owns them. *)
Lemma prepared_children st b r top m cs : id_row st b = Some r -> row_height r < top -> children_wf st (Some b) (row_height r) m cs ->
  children_wf st None top m (prepare_children (row_hash r) cs).
Proof.
  intros Hr Hlt [Hnd Hok Hsub]. split.
  - by rewrite prepare_characters.
  - intros c (d & Hd & ->)%prepare_elem. specialize (Hok d Hd). unfold child_ok in *. cbn [ch_target ch_referenced_block]. destruct (ch_target d) as [|b' i k]; [by destruct Hok|].
    destruct Hok as (Hb & Hi & Hn & r' & Hr' & Href). split; [done|]. split; [done|]. split; [done|]. exists r'. split; [done|]. destruct (ch_referenced_block d) as [h|]; cbn.
    + destruct Href. split; [done|lia].
    + destruct Href as [[= ->] Hh]. assert (r' = r) as -> by congruence. done.
  - intros c node (d & Hd & ->)%prepare_elem Hn. unfold child_node in Hn. cbn [ch_target] in Hn. specialize (Hsub d node Hd Hn). unfold child_scope in *. cbn [ch_target].
    specialize (Hok d Hd). unfold child_ok in Hok. destruct (ch_target d); [by destruct Hok|done].
Qed.

Lemma prepared_wf st b r top m node : id_row st b = Some r -> row_height r < top -> node_wf st (Some b) (row_height r) m node ->
  node_wf st None top m (prepare_for_copy (row_hash r) node).
Proof.
  intros Hr Hlt Hwf. destruct node as [lp lv|np cs]; cbn [prepare_for_copy]; [inversion Hwf; by constructor|]. apply internal_children in Hwf as (m' & -> & Hlen & Hcs).
  apply internal_children. exists m'. split; [done|]. split; [unfold prepare_children; by rewrite length_map|]. by eapply prepared_children.
Qed.

Lemma prepared_lookup st b r top m node q : id_row st b = Some r -> row_height r < top -> node_wf st (Some b) (row_height r) m node -> length q = m ->
  node_lookup st (prepare_for_copy (row_hash r) node) q = node_lookup st node q.
Proof.
  intros Hr Hlt Hwf Hq. pose proof (prepared_wf _ _ _ top _ _ Hr Hlt Hwf) as Hwf'. destruct node as [|np cs]; [done|]. cbn [prepare_for_copy] in *.
  inversion Hwf as [|? ? m' ? ? Hlen Hnd Hok Hsub]; subst. rewrite (lookup_internal _ _ _ _ _ _ _ Hwf), (lookup_internal _ _ _ _ _ _ _ Hwf') by done.
  destruct (strip_path np q) as [[|ch rest]|]; [done| |done]. rewrite prepare_find. by destruct (find_child ch cs) as [[i c]|].
Qed.

(** What the code turns a child into before it writes below it. *)
Lemma child_owned_spec st top m c : child_ok st None top c ->
  (forall node, child_node st c = Ok node -> node_wf st (child_scope st None top c).1 (child_scope st None top c).2 m node) ->
  exists node, child_owned st c = Ok node /\ node_wf st None top m node /\ forall q, length q = m -> node_lookup st node q = child_lookup st c q.
Proof.
  intros Hok Hsub. unfold child_ok, child_owned, child_lookup, child_scope, child_node in *. destruct (ch_target c) as [n|b i k].
  - destruct Hok as [_ ->]. exists n. split; [done|]. split; [by apply Hsub|done].
  - destruct Hok as (Hb & Hi & (node & Hn & Hk) & r & Hr & Href). destruct (ch_referenced_block c) as [h|]; [|by destruct Href]. destruct Href as [<- Hlt].
    specialize (Hsub node Hn). rewrite Hr in Hsub. cbn [fst snd] in Hsub. rewrite Hn. exists (prepare_for_copy (row_hash r) node). split; [done|].
    split; [by eapply prepared_wf|]. intros q Hq. by eapply prepared_lookup.
Qed.

(** The path of a node can be cut or extended. *)
Lemma rebase_wf st own top m np np' cs : node_wf st own top (length np + S m) (Internal np cs) -> node_wf st own top (length np' + S m) (Internal np' cs).
Proof. intros Hwf. inversion Hwf as [|? ? m' ? ? Hlen Hnd Hok Hsub Hm]; subst. constructor; try done. by replace m with m' by lia. Qed.

(** The three shapes an insert into a node leaves. *)

Lemma insert_at_leaf st top lp lv path value : length path = length lp -> lp <> path -> length value = 40%nat -> length lv = 40%nat ->
  let s := shared_prefix lp path in
  exists x y, lp !! s = Some x /\ path !! s = Some y /\
  let node := Internal (take s lp) [local_child x (Leaf (drop (S s) lp) lv); local_child y (Leaf (drop (S s) path) value)] in
  node_wf st None top (length path) node /\
  forall q, length q = length path -> node_lookup st node q = if decide (q = path) then Some value else node_lookup st (Leaf lp lv) q.
Proof.
  intros Hl Hne Hv Hlv s. destruct (shared_prefix_spec lp path) as (Ht & Hs1 & Hs2 & Hn). fold s in Ht, Hs1, Hs2, Hn.
  assert (Hs : (s < length lp)%nat).
  { destruct (decide (s = length lp)) as [E|]; [|lia]. exfalso. apply Hne. rewrite E in Ht. rewrite take_ge in Ht by lia. rewrite take_ge in Ht by lia. done. }
  destruct (shared_split lp path s eq_refl Hs ltac:(lia)) as (x & y & Hx & Hy & Hxy & Elp & Ep). exists x, y. split; [done|]. split; [done|]. cbn zeta.
  set (pre := take s lp) in *. set (a := drop (S s) lp) in *. set (b := drop (S s) path) in *.
  assert (Hab : length b = length a) by (rewrite Elp, Ep, !length_app in Hl; cbn [length] in Hl; lia).
  assert (Wa : node_wf st None top (length a) (Leaf a lv)) by (by constructor). assert (Wb : node_wf st None top (length a) (Leaf b value)) by (rewrite <- Hab; by constructor).
  assert (Hlen : length path = (length pre + S (length a))%nat) by (rewrite Ep, length_app; cbn [length]; lia).
  split; [rewrite Hlen; by apply fork_wf|]. intros q Hq. rewrite (fork_lookup _ top (length a)) by (done || lia). rewrite !lookup_leaf.
  destruct (strip_path pre q) as [rest|] eqn:Hst.
  - apply strip_path_Some in Hst. subst q. destruct rest as [|ch rest]; [rewrite length_app in Hq; cbn [length] in Hq; lia|]. rewrite !lookup_leaf. rewrite Ep, Elp.
    repeat case_decide; simplify_list_eq; try done; simplify_eq; try congruence.
  - assert (q <> path) by (intros ->; rewrite Ep in Hst; by rewrite (proj2 (strip_path_Some pre _ (y :: b)) eq_refl) in Hst).
    assert (lp <> q) by (intros <-; rewrite Elp in Hst; by rewrite (proj2 (strip_path_Some pre _ (x :: a)) eq_refl) in Hst). by rewrite !decide_False.
Qed.

Lemma insert_at_split st top m np cs path value : node_wf st None top (length np + S m) (Internal np cs) -> length path = (length np + S m)%nat -> length value = 40%nat ->
  let s := shared_prefix np path in (s < length np)%nat ->
  exists x y, np !! s = Some x /\ path !! s = Some y /\
  let node := Internal (take s np) [local_child y (Leaf (drop (S s) path) value); local_child x (Internal (drop (S s) np) cs)] in
  node_wf st None top (length path) node /\
  forall q, length q = length path -> node_lookup st node q = if decide (q = path) then Some value else node_lookup st (Internal np cs) q.
Proof.
  intros Hwf Hl Hv s Hs. destruct (shared_split np path s eq_refl Hs ltac:(lia)) as (x & y & Hx & Hy & Hxy & En & Ep). exists x, y. split; [done|]. split; [done|]. cbn zeta.
  set (pre := take s np) in *. set (a := drop (S s) np) in *. set (b := drop (S s) path) in *.
  assert (Ha : length np = (length pre + S (length a))%nat) by (rewrite En, length_app; cbn [length]; lia).
  assert (Hb : length b = (length a + S m)%nat) by (rewrite Ep, length_app in Hl; cbn [length] in Hl; lia).
  assert (Wb : node_wf st None top (length a + S m) (Leaf b value)) by (rewrite <- Hb; by constructor).
  assert (Wa : node_wf st None top (length a + S m) (Internal a cs)) by (by apply (rebase_wf _ _ _ _ np)).
  assert (Hlen : length path = (length pre + S (length a + S m))%nat) by lia. split; [rewrite Hlen; by apply fork_wf|].
  intros q Hq. rewrite (fork_lookup _ top (length a + S m)) by (done || lia). rewrite (lookup_internal _ _ _ _ _ _ _ Hwf) by lia. destruct (strip_path pre q) as [rest|] eqn:Hst.
  - apply strip_path_Some in Hst. subst q. destruct rest as [|ch rest]; [rewrite length_app in Hq; cbn [length] in Hq; lia|]. rewrite length_app in Hq. cbn [length] in Hq.
    case_decide as Hcy; [subst ch|].
    + rewrite lookup_leaf. destruct (strip_path np (pre ++ y :: rest)) as [r|] eqn:Hs2.
      { exfalso. apply strip_path_Some in Hs2. rewrite En, <- app_assoc in Hs2. apply app_inv_head in Hs2. cbn [app] in Hs2. congruence. }
      rewrite Ep. repeat case_decide; simplify_list_eq; done.
    + rewrite (decide_False (P := pre ++ ch :: rest = path)) by (rewrite Ep; intros E%app_inv_head; congruence). case_decide as Hcx; [subst ch|].
      * rewrite (lookup_internal _ _ _ _ _ _ _ Wa) by lia. destruct (strip_path a rest) as [r|] eqn:Hs2.
        { apply strip_path_Some in Hs2. subst rest. replace (strip_path np (pre ++ x :: a ++ r)) with (Some r); [done|]. symmetry. apply strip_path_Some. rewrite En. by rewrite <- app_assoc. }
        destruct (strip_path np (pre ++ x :: rest)) as [r|] eqn:Hs3; [|done]. exfalso. apply strip_path_Some in Hs3. rewrite En, <- app_assoc in Hs3. apply app_inv_head in Hs3.
        injection Hs3 as Hs3. by rewrite (proj2 (strip_path_Some a rest r) Hs3) in Hs2.
      * destruct (strip_path np (pre ++ ch :: rest)) as [r|] eqn:Hs2; [|done]. exfalso. apply strip_path_Some in Hs2. rewrite En, <- app_assoc in Hs2. apply app_inv_head in Hs2. cbn [app] in Hs2. congruence.
  - assert (q <> path) by (intros ->; rewrite Ep in Hst; by rewrite (proj2 (strip_path_Some pre _ (y :: b)) eq_refl) in Hst). rewrite decide_False by done.
    destruct (strip_path np q) as [r|] eqn:Hs2; [|done]. exfalso. apply strip_path_Some in Hs2. subst q. rewrite En, <- app_assoc in Hst.
    by rewrite (proj2 (strip_path_Some pre _ _) eq_refl) in Hst.
Qed.

Definition children_lookup (st : TrieStorage) (cs : list TrieChild) (path : list byte) : option (list byte) :=
  match path with ch :: rest => match find_child ch cs with Some (_, c) => child_lookup st c rest | None => None end | [] => None end.

Lemma prepare_lookup st block cs q : children_lookup st (prepare_children block cs) q = children_lookup st cs q.
Proof. destruct q as [|ch rest]; [done|]. cbn [children_lookup]. rewrite prepare_find. by destruct (find_child ch cs) as [[i c]|]. Qed.

Lemma lookup_children st own top n np cs path : node_wf st own top n (Internal np cs) -> length path = n ->
  node_lookup st (Internal np cs) path = match strip_path np path with Some rest => children_lookup st cs rest | None => None end.
Proof. intros Hwf Hp. rewrite (lookup_internal _ _ _ _ _ _ _ Hwf Hp). by destruct (strip_path np path) as [[|ch rest]|]. Qed.

Lemma children_push st top m cs ch n : children_wf st None top m cs -> ch ∉ map ch_character cs -> node_wf st None top m n ->
  children_wf st None top m (cs ++ [local_child ch n]) /\
  forall q, children_lookup st (cs ++ [local_child ch n]) q =
    match q with x :: rest => if decide (x = ch) then node_lookup st n rest else children_lookup st cs q | [] => None end.
Proof.
  intros [Hnd Hok Hsub] Hch Hn. split; [split|].
  - rewrite map_app. apply NoDup_app. split; [done|]. split; [|apply NoDup_singleton]. intros x Hx. cbn [map local_child ch_character]. rewrite list_elem_of_singleton. by intros ->.
  - intros c [Hc| ->%list_elem_of_singleton]%elem_of_app; [by apply Hok|done].
  - intros c node [Hc| ->%list_elem_of_singleton]%elem_of_app; [by apply Hsub|]. cbn. by intros [= <-].
  - intros [|x rest]; [done|]. cbn [children_lookup]. rewrite find_child_app by done. cbn [local_child ch_character].
    case_decide as Hx; [by rewrite decide_True|by rewrite decide_False by congruence].
Qed.

Lemma children_set st top m cs i c n : children_wf st None top m cs -> cs !! i = Some c -> node_wf st None top m n ->
  children_wf st None top m (<[i := local_child (ch_character c) n]> cs) /\
  forall q, children_lookup st (<[i := local_child (ch_character c) n]> cs) q =
    match q with x :: rest => if decide (x = ch_character c) then node_lookup st n rest else children_lookup st cs q | [] => None end.
Proof.
  intros [Hnd Hok Hsub] Hi Hn. split; [split|].
  - by erewrite characters_set.
  - intros d Hd. apply list_elem_of_lookup in Hd as [j Hj]. apply list_lookup_insert_Some in Hj as [(-> & <- & _)|[_ Hj]]; [done|]. apply Hok. by eapply list_elem_of_lookup_2.
  - intros d node Hd. apply list_elem_of_lookup in Hd as [j Hj]. apply list_lookup_insert_Some in Hj as [(-> & <- & _)|[_ Hj]]; [cbn; by intros [= <-]|].
    apply Hsub. by eapply list_elem_of_lookup_2.
  - intros [|x rest]; [done|]. cbn [children_lookup]. rewrite (find_child_set _ _ _ c) by done. by case_decide.
Qed.

Lemma child_at st top m cs ch i c : children_wf st None top m cs -> find_child ch cs = Some (i, c) ->
  cs !! i = Some c /\ ch_character c = ch /\
  exists node, child_owned st c = Ok node /\ node_wf st None top m node /\ forall q, length q = m -> node_lookup st node q = child_lookup st c q.
Proof.
  intros [Hnd Hok Hsub] Hf. destruct (find_child_Some _ _ _ _ Hf) as [Hi Hc]. split; [done|]. split; [done|].
  assert (Hin : c ∈ cs) by (by eapply list_elem_of_lookup_2). apply child_owned_spec; [by apply Hok|]. intros node. by apply Hsub.
Qed.

Lemma leaf_wf_inv st own top n lp lv : node_wf st own top n (Leaf lp lv) <-> n = length lp /\ length lv = 40%nat.
Proof. split; [intros Hwf; by inversion Hwf|intros [-> Hv]; by constructor]. Qed.

(** New children below the same path. *)
Lemma internal_update st top m np cs cs' ch suffix value node : node_wf st None top (length np + S m) (Internal np cs) -> children_wf st None top m cs' -> (2 <= length cs')%nat ->
  (forall q, children_lookup st cs' q = match q with x :: rest => if decide (x = ch) then node_lookup st node rest else children_lookup st cs q | [] => None end) ->
  (forall q, length q = m -> node_lookup st node q = if decide (q = suffix) then Some value else children_lookup st cs (ch :: q)) ->
  node_wf st None top (length np + S m) (Internal np cs') /\
  forall q, length q = (length np + S m)%nat -> node_lookup st (Internal np cs') q = if decide (q = np ++ ch :: suffix) then Some value else node_lookup st (Internal np cs) q.
Proof.
  intros Hwf Hcs' Hlen' Hl' Hn. assert (Hwf' : node_wf st None top (length np + S m) (Internal np cs')) by (apply internal_children; by exists m). split; [done|].
  intros q Hq. rewrite (lookup_children _ _ _ _ _ _ _ Hwf' Hq), (lookup_children _ _ _ _ _ _ _ Hwf Hq). destruct (strip_path np q) as [rest|] eqn:Hst.
  - apply strip_path_Some in Hst. subst q. rewrite length_app in Hq. rewrite Hl'. destruct rest as [|x rest]; [cbn [length] in Hq; lia|]. cbn [length] in Hq.
    destruct (decide (x = ch)) as [->|Hx]; [|by rewrite decide_False by (intros E%app_inv_head; congruence)]. rewrite Hn by lia. case_decide as Hr; [subst; by rewrite decide_True|].
    by rewrite decide_False by (intros E%app_inv_head; congruence).
  - rewrite decide_False; [done|]. intros ->. by rewrite (proj2 (strip_path_Some np _ _) eq_refl) in Hst.
Qed.

Lemma node_insert_spec st top n : forall node, node_wf st None top n node -> forall fuel path value, length path = n -> (n < fuel)%nat -> length value = 40%nat ->
  exists node', node_insert st fuel node path value = Some (Ok tt, node') /\ node_wf st None top n node' /\
  forall q, length q = n -> node_lookup st node' q = if decide (q = path) then Some value else node_lookup st node q.
Proof.
  induction (lt_wf n) as [n _ IH]. intros node Hwf [|fuel] path value Hp Hf Hv; [lia|]. destruct node as [lp lv|np cs].
  - apply leaf_wf_inv in Hwf as [-> Hlv]. cbn [node_insert]. case_decide as Hd.
    + subst path. eexists. split; [done|]. split; [by constructor|]. intros q Hq. rewrite !lookup_leaf. by repeat case_decide.
    + destruct (insert_at_leaf st top lp lv path value) as (x & y & Hx & Hy & Hw & Hl); [done..|]. rewrite Hx. cbn [mbind option_bind]. rewrite Hy. eexists. split; [done|]. rewrite <- Hp. by split.
  - cbn [node_insert]. pose proof Hwf as (m & -> & Hlen & Hcs)%internal_children. destruct (Nat.ltb_spec (shared_prefix np path) (length np)) as [Hs|Hs].
    + destruct (insert_at_split st top m np cs path value Hwf Hp Hv Hs) as (x & y & Hx & Hy & Hw & Hl). rewrite Hx. cbn [mbind option_bind]. rewrite Hy. eexists. split; [done|]. rewrite <- Hp. by split.
    + destruct (shared_prefix_spec np path) as (Ht & Hs1 & Hs2 & _). replace (shared_prefix np path) with (length np) in Ht by lia. rewrite take_ge in Ht by lia.
      destruct (lookup_lt_is_Some_2 path (length np)) as [ch Hch]; [lia|]. rewrite Hch. cbn [mbind option_bind]. set (suffix := drop (S (length np)) path).
      assert (Epath : path = np ++ ch :: suffix) by (unfold suffix; etransitivity; [symmetry; by apply take_drop_middle|by rewrite <- Ht]).
      assert (Hsuf : length suffix = m) by (rewrite Epath, length_app in Hp; cbn [length] in Hp; lia). clearbody suffix. subst path. destruct (find_child ch cs) as [[i c]|] eqn:Hfc.
      * destruct (child_at st top m cs ch i c Hcs Hfc) as (Hi & Hc & node & Hown & Hnwf & Hnl). rewrite Hown.
        destruct (IH m ltac:(lia) node Hnwf fuel suffix value Hsuf ltac:(lia) Hv) as (node' & -> & Hwf' & Hl'). cbn [mbind option_bind].
        destruct (children_set st top m cs i c node' Hcs Hi Hwf') as [Hcs' Hlcs']. eexists. split; [done|]. rewrite Hc in *.
        apply (internal_update st top m np cs _ ch suffix value node' Hwf Hcs'); [by rewrite length_insert|done|].
        intros q Hq. rewrite Hl' by done. case_decide; [done|]. rewrite Hnl by done. cbn [children_lookup]. by rewrite Hfc.
      * destruct (children_push st top m cs ch (Leaf suffix value) Hcs) as [Hcs' Hlcs']; [by apply find_child_None|rewrite <- Hsuf; by constructor|]. eexists. split; [done|].
        apply (internal_update st top m np cs _ ch suffix value (Leaf suffix value) Hwf Hcs'); [rewrite length_app; lia|done|].
        intros q Hq. rewrite lookup_leaf. cbn [children_lookup]. rewrite Hfc. by repeat case_decide.
Qed.

(** The root's children, whose paths have 32 bytes. *)
Lemma insert_under_root_spec st top cs path value : children_wf st None top 31 cs -> length path = 32%nat -> length value = 40%nat ->
  exists cs', insert_under_root st cs path value = Some (Ok tt, cs') /\ children_wf st None top 31 cs' /\
  forall q, length q = 32%nat -> children_lookup st cs' q = if decide (q = path) then Some value else children_lookup st cs q.
Proof.
  intros Hcs Hp Hv. destruct path as [|ch suffix]; [done|]. injection Hp as Hp. cbn [insert_under_root].
  assert (Hfin : forall cs' node, (forall q, children_lookup st cs' q = match q with x :: rest => if decide (x = ch) then node_lookup st node rest else children_lookup st cs q | [] => None end) ->
    (forall q, length q = 31%nat -> node_lookup st node q = if decide (q = suffix) then Some value else children_lookup st cs (ch :: q)) ->
    forall q, length q = 32%nat -> children_lookup st cs' q = if decide (q = ch :: suffix) then Some value else children_lookup st cs q).
  { intros cs' node Hl Hn [|x rest] Hq; [done|]. injection Hq as Hq. rewrite Hl. destruct (decide (x = ch)) as [->|Hx]; [|by rewrite decide_False by congruence].
    rewrite Hn by done. case_decide as Hr; [subst; by rewrite decide_True|by rewrite decide_False by congruence]. }
  destruct (find_child ch cs) as [[i c]|] eqn:Hfc.
  - destruct (child_at st top 31 cs ch i c Hcs Hfc) as (Hi & Hc & node & Hown & Hnwf & Hnl). rewrite Hown.
    destruct (node_insert_spec st top 31 node Hnwf (S (length suffix)) suffix value Hp ltac:(lia) Hv) as (node' & -> & Hwf' & Hl'). cbn [mbind option_bind].
    destruct (children_set st top 31 cs i c node' Hcs Hi Hwf') as [Hcs' Hlcs']. eexists. split; [done|]. split; [done|]. rewrite Hc in *. apply (Hfin _ node' Hlcs').
    intros q Hq. rewrite Hl' by done. case_decide; [done|]. rewrite Hnl by done. cbn [children_lookup]. by rewrite Hfc.
  - destruct (children_push st top 31 cs ch (Leaf suffix value) Hcs) as [Hcs' Hlcs']; [by apply find_child_None|rewrite <- Hp; by constructor|].
    eexists. split; [done|]. split; [done|]. apply (Hfin _ (Leaf suffix value) Hlcs'). intros q Hq. rewrite lookup_leaf. cbn [children_lookup]. rewrite Hfc. by repeat case_decide.
Qed.

Lemma find_path_spec st own top cs path : children_wf st own top 31 cs -> length path = 32%nat -> find_path st cs path = Some (Ok (children_lookup st cs path)).
Proof.
  intros [Hnd Hok Hsub] Hp. destruct path as [|ch rest]; [done|]. injection Hp as Hp. cbn [find_path children_lookup]. destruct (find_child ch cs) as [[i c]|] eqn:Hf; [|done].
  destruct (find_child_Some _ _ _ _ Hf) as [Hi _]. assert (Hin : c ∈ cs) by (by eapply list_elem_of_lookup_2). destruct (child_resolves _ _ _ _ (Hok c Hin)) as [node Hn].
  unfold child_lookup. rewrite Hn. eapply node_get_lookup; [by apply (Hsub c)|done|lia].
Qed.

(** The root of a sealed state. *)
Lemma root_get_spec st own top cs path : children_wf st own top 31 cs -> length path = 32%nat ->
  node_get st 33 (Internal [] cs) path = Some (Ok (children_lookup st cs path)).
Proof.
  intros Hcs Hp. destruct path as [|ch rest]; [done|]. pose proof (find_path_spec st own top cs (ch :: rest) Hcs Hp) as Hf. injection Hp as Hp. rewrite <- Hf.
  change (strip_path [] (ch :: rest)) with (Some (ch :: rest)). cbn [node_get find_path]. change (strip_path [] (ch :: rest)) with (Some (ch :: rest)). cbn iota. by rewrite Hp.
Qed.

(** ** A larger table *)

(** Rows are kept up to the fields that sealing fills in, node rows as they are. *)
Record extends (st st' : TrieStorage) : Prop := {
  ex_rows : forall id r, id_row st id = Some r -> exists r', id_row st' id = Some r' /\ row_hash r' = row_hash r /\ row_height r' = row_height r;
  ex_nodes : st_nodes st ⊆ st_nodes st';
}.

Lemma block_hash_row st id : storage_block_hash st id = match id_row st id with Some r => Ok (row_hash r) | None => Err (Storage MissingBlock) end.
Proof. done. Qed.

Lemma extends_refl st : extends st st.
Proof. split; [|done]. intros id r Hr. by exists r. Qed.

Lemma extends_trans st1 st2 st3 : extends st1 st2 -> extends st2 st3 -> extends st1 st3.
Proof.
  intros [R1 N1] [R2 N2]. split; [|by etransitivity]. intros id r Hr. destruct (R1 id r Hr) as (r' & Hr' & Hh & Hg). destruct (R2 id r' Hr') as (r'' & Hr'' & Hh' & Hg').
  exists r''. split; [done|]. split; congruence.
Qed.

Lemma block_hash_extends st st' id h : extends st st' -> storage_block_hash st id = Ok h -> storage_block_hash st' id = Ok h.
Proof.
  intros [HR _]. rewrite !block_hash_row. destruct (id_row st id) as [r|] eqn:Hr; [|done]. destruct (HR id r Hr) as (r' & -> & Hh & _). intros [= <-]. by rewrite Hh.
Qed.

Lemma decode_child_extends st st' own bytes c rest : extends st st' -> decode_child st own bytes = Ok (c, rest) -> decode_child st' own bytes = Ok (c, rest).
Proof.
  intros Hex. unfold decode_child. destruct (take_byte bytes) as [[flags b1]|]; [|done]. destruct (take_byte b1) as [[ch b2]|]; [|done]. destruct (take_bytes 4 b2) as [[tg b3]|]; [|done].
  destruct (take_bytes 4 b3) as [[ix b4]|]; [|done]. destruct (node_id_from_byte _) as [k|]; [|done]. destruct (_ =? 0); [done|].
  destruct (storage_block_hash st _) as [h|] eqn:Hh; [|done]. by rewrite (block_hash_extends _ _ _ _ Hex Hh).
Qed.

Lemma decode_children_extends st st' own n bytes cs : extends st st' -> decode_children st own n bytes = Ok cs -> decode_children st' own n bytes = Ok cs.
Proof.
  intros Hex. revert bytes cs. induction n as [|n IH]; intros bytes cs; cbn [decode_children]; [done|]. destruct (decode_child st own bytes) as [[c rest]|] eqn:Hc; [|done].
  rewrite (decode_child_extends _ _ _ _ _ _ Hex Hc). destruct (decode_children st own n rest) as [ds|] eqn:Hds; [|done]. by rewrite (IH _ _ Hds).
Qed.

Lemma decode_node_extends st st' own bytes n : extends st st' -> decode_node st own bytes = Ok n -> decode_node st' own bytes = Ok n.
Proof.
  intros Hex. unfold decode_node. destruct (take_byte bytes) as [[kind b1]|]; [|done]. destruct (take_path b1) as [[path b2]|]; [|done]. case_decide; [done|]. case_decide; [|done].
  destruct (take_bytes 2 b2) as [[count b3]|]; [|done]. destruct (decode_children st own _ b3) as [cs|] eqn:Hc; [|done]. by rewrite (decode_children_extends _ _ _ _ _ _ Hex Hc).
Qed.

Lemma storage_node_extends st st' b i n : extends st st' -> storage_node st b i = Ok n -> storage_node st' b i = Ok n.
Proof.
  intros Hex. unfold storage_node. destruct (st_nodes st !! (b, i)) as [[h data]|] eqn:Hn; [|done]. rewrite (lookup_weaken _ _ _ _ Hn (ex_nodes _ _ Hex)). by apply decode_node_extends.
Qed.

Lemma child_ok_extends st st' own top c : extends st st' -> child_ok st own top c -> child_ok st' own top c.
Proof.
  intros Hex. unfold child_ok. destruct (ch_target c) as [|b i k]; [done|]. intros (Hb & Hi & (n & Hn & Hk) & r & Hr & Href). split; [done|]. split; [done|].
  split; [exists n; split; [by eapply storage_node_extends|done]|]. destruct (ex_rows _ _ Hex b r Hr) as (r' & Hr' & Hh & Hg). exists r'. split; [done|]. by rewrite Hh, Hg.
Qed.

(** Only what a child resolves to in the smaller table matters. *)
Lemma child_node_extends st st' own top c n : extends st st' -> child_ok st own top c -> child_node st' c = Ok n -> child_node st c = Ok n.
Proof.
  intros Hex Hok Hn. destruct (child_resolves _ _ _ _ Hok) as [n' Hn']. enough (n' = n) as -> by done. unfold child_node in *. destruct (ch_target c); [congruence|].
  rewrite (storage_node_extends _ _ _ _ _ Hex Hn') in Hn. congruence.
Qed.

Lemma child_scope_extends st st' own top c : extends st st' -> child_ok st own top c -> child_scope st' own top c = child_scope st own top c.
Proof.
  intros Hex. unfold child_scope, child_ok. destruct (ch_target c) as [|b i k]; [done|]. intros (_ & _ & _ & r & Hr & _). destruct (ex_rows _ _ Hex b r Hr) as (r' & -> & _ & Hg).
  by rewrite Hr, Hg.
Qed.

Lemma node_wf_extends st st' own top n node : extends st st' -> node_wf st own top n node -> node_wf st' own top n node.
Proof.
  intros Hex. induction 1 as [|own top m np cs Hlen Hnd Hok Hsub IH]; [by constructor|]. constructor; [done|done| |].
  - intros c Hc. by eapply child_ok_extends, Hok.
  - intros c nd Hc Hn. specialize (Hok c Hc). rewrite (child_scope_extends _ _ _ _ _ Hex Hok). apply IH; [done|]. by eapply child_node_extends.
Qed.

Lemma children_wf_extends st st' own top m cs : extends st st' -> children_wf st own top m cs -> children_wf st' own top m cs.
Proof.
  intros Hex [Hnd Hok Hsub]. split; [done| |].
  - intros c Hc. by eapply child_ok_extends, Hok.
  - intros c nd Hc Hn. specialize (Hok c Hc). rewrite (child_scope_extends _ _ _ _ _ Hex Hok). eapply node_wf_extends; [done|]. apply Hsub; [done|]. by eapply child_node_extends.
Qed.

Lemma node_lookup_extends st st' own top n node : extends st st' -> node_wf st own top n node -> forall q, length q = n -> node_lookup st' node q = node_lookup st node q.
Proof.
  intros Hex. induction 1 as [|own top m np cs Hlen Hnd Hok Hsub IH]; intros q Hq; [done|].
  assert (Hwf : node_wf st own top (length np + S m) (Internal np cs)) by (by constructor). pose proof (node_wf_extends _ _ _ _ _ _ Hex Hwf) as Hwf'.
  rewrite (lookup_internal _ _ _ _ _ _ _ Hwf Hq), (lookup_internal _ _ _ _ _ _ _ Hwf' Hq). destruct (strip_path np q) as [[|ch rest]|] eqn:Hst; [done| |done].
  destruct (find_child ch cs) as [[i c]|] eqn:Hf; [|done]. destruct (find_child_Some _ _ _ _ Hf) as [Hi _]. assert (Hin : c ∈ cs) by (by eapply list_elem_of_lookup_2).
  destruct (child_resolves _ _ _ _ (child_ok_extends _ _ _ _ _ Hex (Hok c Hin))) as [nd Hnd']. pose proof (child_node_extends _ _ _ _ _ _ Hex (Hok c Hin) Hnd') as Hnd0.
  unfold child_lookup. rewrite Hnd', Hnd0. apply (IH c nd Hin Hnd0). apply strip_path_Some in Hst. subst q. rewrite length_app in Hq. cbn [length] in Hq. lia.
Qed.

Lemma children_lookup_extends st st' own top m cs q : extends st st' -> children_wf st own top m cs -> length q = S m -> children_lookup st' cs q = children_lookup st cs q.
Proof.
  intros Hex [Hnd Hok Hsub] Hq. destruct q as [|ch rest]; [done|]. injection Hq as Hq. cbn [children_lookup]. destruct (find_child ch cs) as [[i c]|] eqn:Hf; [|done].
  destruct (find_child_Some _ _ _ _ Hf) as [Hi _]. assert (Hin : c ∈ cs) by (by eapply list_elem_of_lookup_2).
  destruct (child_resolves _ _ _ _ (child_ok_extends _ _ _ _ _ Hex (Hok c Hin))) as [nd Hnd']. pose proof (child_node_extends _ _ _ _ _ _ Hex (Hok c Hin) Hnd') as Hnd0.
  unfold child_lookup. rewrite Hnd', Hnd0. eapply node_lookup_extends; [done|by apply (Hsub c)|done].
Qed.
