(* ===== verification/MarfSealing.v ===== *)
(** * Sealing a state of the MARF

    The hash of a well-formed trie exists, writing the nodes of a state gives the
    hash computed before, and the nodes read back hold the same values. *)

From stdpp Require Import gmap.
From S2P Require Import Prelude Primitives Crypto MarfTrie MarfVersions MarfTheorems.

Lemma Forall2_impl_l {A B} (P Q : A -> B -> Prop) l k : Forall2 P l k -> (forall x y, x ∈ l -> P x y -> Q x y) -> Forall2 Q l k.
Proof. induction 1 as [|x y l k Hxy _ IH]; intros Hi; constructor; [apply Hi; [by left|done]|]. apply IH. intros; apply Hi; [by right|done]. Qed.

(** ** Slots *)

Lemma nodup_bytes (l : list byte) : NoDup l -> (length l <= 256)%nat.
Proof.
  intros Hnd. assert (Hs : map (fun b => Z.to_nat (u8 b)) l ⊆+ seq 0 256).
  { apply NoDup_submseteq; [|intros x (b & -> & _)%list_elem_of_fmap; apply elem_of_seq; pose proof (u8_range b); lia].
    apply (NoDup_fmap_2_strong); [|done]. intros x y _ _ Hxy. pose proof (u8_range x). pose proof (u8_range y). apply u8_inj. lia. }
  apply submseteq_length in Hs. by rewrite length_map, length_seq in Hs.
Qed.

Definition pointer_valid (p : TriePointer) : Prop := negb (Z.land (tp_id p) 0x80 =? 0) = bool_decide (is_Some (tp_referenced_block p)).

Lemma child_pointer_valid c p : child_pointer c = Some p -> pointer_valid p.
Proof.
  unfold child_pointer. destruct (child_kind c) as [k|]; [|done]. intros [= <-]. unfold pointer_valid. cbn [tp_id tp_referenced_block].
  destruct (ch_referenced_block c); by destruct k.
Qed.

Lemma fill_slots_ok id index cs hashes ps hs : length cs = length hashes -> length ps = pointer_count id -> length hs = pointer_count id ->
  Forall pointer_valid ps -> (id = Node256 \/ (index + length cs <= pointer_count id)%nat) -> (forall c, c ∈ cs -> is_Some (child_kind c)) ->
  exists ps' hs', fill_slots id index cs hashes (ps, hs) = Some (ps', hs') /\ length ps' = pointer_count id /\ length hs' = pointer_count id /\ Forall pointer_valid ps'.
Proof.
  revert index hashes ps hs. induction cs as [|c cs IH]; intros index [|h hashes] ps hs Hl Hps Hhs Hv Hcap Hk; try done; [by exists ps, hs|].
  cbn [fill_slots fst snd]. destruct (Hk c ltac:(by left)) as [k Hc]. assert (Hp : exists p, child_pointer c = Some p) by (unfold child_pointer; rewrite Hc; by eexists).
  destruct Hp as [p Hp]. rewrite Hp. cbn [mbind option_bind]. set (slot := if decide (id = Node256) then _ else _). assert (Hslot : 0 <= slot < Z.of_nat (pointer_count id)).
  { unfold slot. case_decide as Hd; [|destruct Hcap as [|Hcap]; [done|]; cbn [length] in Hcap; lia]. subst id. change (Z.of_N (Byte.to_N (ch_character c))) with (u8 (ch_character c)).
    pose proof (u8_range (ch_character c)). cbn. lia. }
  assert (Hset : forall A (l : list A) x, length l = pointer_count id -> index_set l slot x = Some (<[Z.to_nat slot := x]> l)).
  { intros A l x Hlen. unfold index_set. by rewrite (proj2 (Z.leb_le _ _)), (proj2 (Z.ltb_lt _ _)) by lia. }
  rewrite Hset by done. cbn [mbind option_bind]. rewrite Hset by done. cbn [mbind option_bind]. injection Hl as Hl. apply IH; [done|by rewrite length_insert..| | |].
  - apply Forall_insert; [done|]. by eapply child_pointer_valid.
  - destruct Hcap as [|Hcap]; [by left|]. right. cbn [length] in Hcap. lia.
  - intros d Hd. apply Hk. by right.
Qed.

Lemma node_id_capacity n id : node_id_for_children n = Some id -> (n <= 256)%nat -> id = Node256 \/ (n <= pointer_count id)%nat.
Proof.
  unfold node_id_for_children. intros H Hn. repeat (case_match; try done); injection H as <-; cbn; try (by left); right; by apply Nat.leb_le.
Qed.

Section Sealing.
Context `{H : Hashes}.

Lemma hash_slots_ok id path cs hashes : length cs = length hashes -> (length path <= 32)%nat -> (id = Node256 \/ (length cs <= pointer_count id)%nat) ->
  (forall c, c ∈ cs -> is_Some (child_kind c)) -> exists hash, hash_slots id path cs hashes = Some (Ok hash).
Proof.
  intros Hl Hp Hcap Hk. unfold hash_slots, slots.
  destruct (fill_slots_ok id 0 cs hashes (replicate (pointer_count id) empty_pointer) (replicate (pointer_count id) EMPTY_TRIE_HASH)) as (ps & hs & -> & Lp & Lh & Hv);
    [done|apply length_replicate..|by apply Forall_replicate|done|done|]. cbn [mbind option_bind]. unfold internal_node_hash. rewrite (proj2 (Z.ltb_ge _ _)) by lia.
  rewrite Lp, Lh, !Nat.eqb_refl. cbn [andb negb]. assert (Hc : exists parts, collect pointer_bytes ps = Ok parts).
  { clear -Hv. induction Hv as [|p ps Hv _ [parts IH]]; [by exists []|]. assert (Hb : exists b, pointer_bytes p = Ok b).
    { unfold pointer_bytes, pointer_valid in *. rewrite Hv. destruct (tp_referenced_block p); by eexists. }
    destruct Hb as [b Hb]. cbn [collect]. rewrite Hb, IH. by eexists. }
  destruct Hc as [parts ->]. by eexists.
Qed.

Lemma hash_slots_pointers id path cs cs' hashes : map child_pointer cs = map child_pointer cs' -> map ch_character cs = map ch_character cs' ->
  hash_slots id path cs hashes = hash_slots id path cs' hashes.
Proof.
  intros Hp Hc. unfold hash_slots, slots. set (start := (_, _)). replace (fill_slots id 0 cs' hashes start) with (fill_slots id 0 cs hashes start); [done|].
  clearbody start. generalize 0%nat. revert cs' hashes Hp Hc start. induction cs as [|c cs IH]; intros [|c' cs'] hashes Hp Hc start index; try done.
  injection Hp as Hp Hps. injection Hc as Hc Hcs. destruct hashes as [|h hashes]; [done|]. cbn [fill_slots]. rewrite Hc, Hp. destruct (child_pointer c') as [p|]; [|done].
  cbn [mbind option_bind]. destruct (index_set start.1 _ p) as [ps|]; [|done]. cbn [mbind option_bind]. destruct (index_set start.2 _ h) as [hs|]; [|done]. by apply IH.
Qed.

(** ** Hashing the state being written *)

Lemma collect_all_ok {E A B} (f : A -> option (result E B)) l : (forall a, a ∈ l -> exists b, f a = Some (Ok b)) -> exists bs, collect_all f l = Some (Ok bs) /\ length bs = length l.
Proof.
  induction l as [|a l IH]; intros Hf; [by exists []|]. destruct (Hf a) as [b Hb]; [by left|]. destruct IH as (bs & Hbs & Hl); [intros; apply Hf; by right|].
  exists (b :: bs). cbn [collect_all]. rewrite Hb, Hbs. split; [done|]. cbn. by rewrite Hl.
Qed.

Lemma collect_all_ext {E A B} (f g : A -> option (result E B)) l : (forall a, a ∈ l -> f a = g a) -> collect_all f l = collect_all g l.
Proof. induction l as [|a l IH]; intros Hf; [done|]. cbn [collect_all]. rewrite Hf by (by left). rewrite IH; [done|]. intros; apply Hf. by right. Qed.

Lemma children_kinds st own top m cs c : children_wf st own top m cs -> c ∈ cs -> is_Some (child_kind c).
Proof.
  intros [Hnd Hok Hsub] Hc. specialize (Hok c Hc). unfold child_ok, child_kind, child_node in *. destruct (ch_target c) as [n|b i k] eqn:Ht; [|by eexists].
  specialize (Hsub c n Hc). unfold child_node in Hsub. rewrite Ht in Hsub. specialize (Hsub eq_refl). destruct n as [|np cs']; [by eexists|].
  apply internal_children in Hsub as (m' & _ & Hlen & _). cbn [node_id]. unfold node_id_for_children. rewrite (proj2 (Nat.ltb_ge _ _)) by lia. repeat case_match; by eexists.
Qed.

Lemma children_count st own top m cs : children_wf st own top m cs -> (length cs <= 256)%nat.
Proof. intros [Hnd _ _]. apply nodup_bytes in Hnd. by rewrite length_map in Hnd. Qed.

(** The hash of a node being written reads no table. *)
Lemma node_hash_ok st top n node : node_wf st None top n node -> (n <= 32)%nat ->
  exists hash, forall st', node_hash st' node = Some (Ok hash).
Proof.
  revert node. induction (lt_wf n) as [n _ IH]. intros node Hwf Hn. destruct node as [lp lv|np cs].
  - apply leaf_wf_inv in Hwf as [-> _]. eexists. intros st'. cbn [node_hash]. unfold leaf_hash. rewrite (proj2 (Z.ltb_ge _ _)) by lia. done.
  - apply internal_children in Hwf as (m & -> & Hlen & Hcs).
    assert (Hh : forall c, c ∈ cs -> exists hash, forall st', child_hash_by st' (node_hash st') c = Some (Ok hash)).
    { intros c Hc. pose proof (cs_ok _ _ _ _ _ Hcs c Hc) as Hok. pose proof (fun nd => cs_sub _ _ _ _ _ Hcs c nd Hc) as Hsub. unfold child_hash_by, child_ok, child_node, child_scope in *.
      destruct (ch_target c) as [nd|b i k].
      - destruct Hok as [_ ->]. destruct (IH m ltac:(lia) nd (Hsub nd eq_refl) ltac:(lia)) as [hash Hhash]. by exists hash.
      - destruct Hok as (_ & _ & _ & r & _ & Href). destruct (ch_referenced_block c) as [h|]; [by exists h|by destruct Href]. }
    destruct (collect_all_ok (child_hash_by st (node_hash st)) cs) as (hashes & Hhs & Hlh); [intros c Hc; destruct (Hh c Hc) as [hash Hhash]; by exists hash|].
    assert (Hid : exists id, node_id_for_children (length cs) = Some id) by (unfold node_id_for_children; rewrite (proj2 (Nat.ltb_ge _ _)) by lia; repeat case_match; by eexists).
    destruct Hid as [id Hid]. destruct (hash_slots_ok id np cs hashes) as [hash Hhash]; [done|lia|apply (node_id_capacity _ _ Hid); by eapply children_count|intros; by eapply children_kinds|].
    exists hash. intros st'. cbn [node_hash]. rewrite Hid. cbn [mbind option_bind].
    rewrite (collect_all_ext _ (child_hash_by st (node_hash st))), Hhs; [done|]. intros c Hc. destruct (Hh c Hc) as [h' Hh']. by rewrite !Hh'.
Qed.

Lemma child_hash_ok st top m c : (m <= 32)%nat -> child_ok st None top c ->
  (forall node, child_node st c = Ok node -> node_wf st (child_scope st None top c).1 (child_scope st None top c).2 m node) ->
  exists hash, forall st', child_hash st' c = Some (Ok hash).
Proof.
  intros Hm Hok Hsub. unfold child_hash, child_hash_by, child_ok, child_node, child_scope in *. destruct (ch_target c) as [nd|b i k].
  - destruct Hok as [_ ->]. apply (node_hash_ok st top m nd (Hsub nd eq_refl) Hm).
  - destruct Hok as (_ & _ & _ & r & _ & Href). destruct (ch_referenced_block c) as [h|]; [by exists h|by destruct Href].
Qed.

(** The content hash of a state being written. *)
Lemma hash_children_ok st top cs : children_wf st None top 31 cs -> exists content, forall st', hash_children st' Node256 [] cs = Some (Ok content).
Proof.
  intros Hcs. assert (Hh : forall c, c ∈ cs -> exists hash, forall st', child_hash st' c = Some (Ok hash)).
  { intros c Hc. apply (child_hash_ok st top 31 c ltac:(lia) (cs_ok _ _ _ _ _ Hcs c Hc)). intros nd. by apply (cs_sub _ _ _ _ _ Hcs c nd). }
  destruct (collect_all_ok (child_hash st) cs) as (hashes & Hhs & Hlh); [intros c Hc; destruct (Hh c Hc) as [hash Hhash]; by exists hash|].
  destruct (hash_slots_ok Node256 [] cs hashes) as [hash Hhash]; [done|cbn; lia|by left|intros; by eapply children_kinds|].
  exists hash. intros st'. unfold hash_children. rewrite (collect_all_ext _ (child_hash st)), Hhs; [done|]. intros c Hc. destruct (Hh c Hc) as [h' Hh']. by rewrite !Hh'.
Qed.

(** ** Writing the nodes *)

Section Persisting.
Variables (blk top : Z).

(** The table has the row of the block being written, and no node of it from [next] on. *)
Record writing (st : TrieStorage) (next : Z) : Prop := {
  wr_row : exists r, id_row st blk = Some r /\ row_height r = top;
  wr_id : is_u32 blk;
  wr_next : is_u32 next;
  wr_fresh : forall i, next <= i -> st_nodes st !! (blk, i) = None;
}.

(** What writing nodes does to the table. *)
Record wrote (st : TrieStorage) (next : Z) (st' : TrieStorage) (next' : Z) : Prop := {
  wo_extends : extends st st';
  wo_blocks : st_blocks st' = st_blocks st;
  wo_sequence : st_sequence st' = st_sequence st;
  wo_writing : writing st' next';
  wo_owner : forall k v, st_nodes st' !! k = Some v -> st_nodes st !! k = Some v \/ k.1 = blk;
}.

Lemma wrote_refl st next : writing st next -> wrote st next st next.
Proof. intros Hw. split; [apply extends_refl|done|done|done|]. by left. Qed.

Lemma wrote_trans st1 n1 st2 n2 st3 n3 : wrote st1 n1 st2 n2 -> wrote st2 n2 st3 n3 -> wrote st1 n1 st3 n3.
Proof.
  intros [E1 B1 S1 W1 O1] [E2 B2 S2 W2 O2]. split; [by eapply extends_trans|congruence|congruence|done|]. intros k v Hk. destruct (O2 k v Hk) as [Hk'|]; [by apply O1|by right].
Qed.

(** A node that can be a record of the block is written and read back. *)
Lemma write_node_spec st next hash n : writing st next -> record_node st blk n ->
  write_node blk (st, next) hash n = Err HeightOverflow \/
  exists st' next', write_node blk (st, next) hash n = Ok (next, (st', next')) /\ wrote st next st' next' /\ storage_node st' blk next = Ok n.
Proof.
  intros Hw Hn. pose proof Hw as [(r & Hr & Ht) Hb Hnx Hf]. unfold write_node, checked_add. destruct (Z.leb_spec (next + 1) U32_MAX) as [Hle|Hgt]; [|by left]. right. cbn [or_err].
  destruct (record_encodes st blk n Hn) as [bytes He]. unfold storage_insert_node. rewrite He. eexists _, _. split; [done|].
  set (st' := mkStorage _ _ _). assert (Hex : extends st st').
  { split; [intros id r' Hr'; by exists r'|]. cbn. apply insert_subseteq, Hf. lia. }
  split; [|unfold storage_node; cbn [st' st_nodes]; rewrite lookup_insert_eq; apply (decode_node_extends st); [done|by apply record_roundtrip]].
  split; [done|done|done| |].
  - split; [by exists r|done|unfold is_u32 in *; lia|]. intros i Hi. cbn. rewrite lookup_insert_ne by (intros [=]; lia). apply Hf. lia.
  - intros k v. cbn. destruct (decide (k = (blk, next))) as [->|Hk]; [by right|]. rewrite lookup_insert_ne by done. by left.
Qed.

(** A child, and the child of the record it became. *)
Record persisted (st st' : TrieStorage) (m : nat) (c c' : TrieChild) : Prop := {
  ps_character : ch_character c' = ch_character c;
  ps_pointer : child_pointer c' = child_pointer c;
  ps_record : record_child st' blk c';
  ps_ok : child_ok st' (Some blk) top c';
  ps_sub : forall node, child_node st' c' = Ok node -> node_wf st' (child_scope st' (Some blk) top c').1 (child_scope st' (Some blk) top c').2 m node;
  ps_lookup : forall q, length q = m -> child_lookup st' c' q = child_lookup st c q;
}.

Lemma record_child_extends st st' c : extends st st' -> record_child st blk c -> record_child st' blk c.
Proof.
  intros Hex. unfold record_child. destruct (ch_target c) as [|b i k]; [done|]. intros (Hb & Hi & Href). split; [done|]. split; [done|].
  destruct (ch_referenced_block c); [by eapply block_hash_extends|done].
Qed.

Lemma persisted_extends st st' st'' m c c' : extends st' st'' -> persisted st st' m c c' -> persisted st st'' m c c'.
Proof.
  intros Hex [Hc Hp Hr Hok Hsub Hl]. split; [done|done|by eapply record_child_extends|by eapply child_ok_extends| |].
  - intros node Hn. rewrite (child_scope_extends _ _ _ _ _ Hex Hok). eapply node_wf_extends; [done|]. apply Hsub. by eapply child_node_extends.
  - intros q Hq. rewrite <- Hl by done. destruct (child_resolves _ _ _ _ (child_ok_extends _ _ _ _ _ Hex Hok)) as [nd Hnd]. pose proof (child_node_extends _ _ _ _ _ _ Hex Hok Hnd) as Hnd0.
    unfold child_lookup. rewrite Hnd, Hnd0. eapply node_lookup_extends; [done|by apply Hsub|done].
Qed.

(** The lookup of a child that stays where it is. *)
Lemma child_lookup_extends st st' own m c q : extends st st' -> child_ok st own top c ->
  (forall node, child_node st c = Ok node -> node_wf st (child_scope st own top c).1 (child_scope st own top c).2 m node) -> length q = m ->
  child_lookup st' c q = child_lookup st c q.
Proof.
  intros Hex Hok Hsub Hq. destruct (child_resolves _ _ _ _ (child_ok_extends _ _ _ _ _ Hex Hok)) as [nd Hnd]. pose proof (child_node_extends _ _ _ _ _ _ Hex Hok Hnd) as Hnd0.
  unfold child_lookup. rewrite Hnd, Hnd0. eapply node_lookup_extends; [done|by apply Hsub|done].
Qed.

(** The contract of [persist_node] for nodes that consume [n] bytes. *)
Definition persists_nodes (n : nat) : Prop := forall st next node, writing st next -> node_wf st None top n node ->
  exists hash, (forall st', node_hash st' node = Some (Ok hash)) /\
  (persist_node blk (st, next) node = Some (Err HeightOverflow) \/
   exists index kind st' next' record, persist_node blk (st, next) node = Some (Ok ((index, hash, kind), (st', next'))) /\ wrote st next st' next' /\
     node_id node = Some kind /\ is_u32 index /\ storage_node st' blk index = Ok record /\ node_id record = Some kind /\ node_wf st' (Some blk) top n record /\
     forall q, length q = n -> node_lookup st' record q = node_lookup st node q).

Lemma persist_child_spec m st next c : (m <= 32)%nat -> persists_nodes m -> writing st next -> child_ok st None top c ->
  (forall node, child_node st c = Ok node -> node_wf st (child_scope st None top c).1 (child_scope st None top c).2 m node) ->
  exists hash, (forall st', child_hash st' c = Some (Ok hash)) /\
  (persist_child_by blk (persist_node blk) (st, next) c = Some (Err HeightOverflow) \/
   exists c' st' next', persist_child_by blk (persist_node blk) (st, next) c = Some (Ok ((c', hash), (st', next'))) /\ wrote st next st' next' /\ persisted st st' m c c').
Proof.
  intros Hm Hnodes Hw Hok Hsub. destruct c as [ch ref [nd|b i k]].
  - destruct Hok as [_ Hnone]. cbn in Hnone. subst ref. unfold persist_child_by, child_hash, child_hash_by. cbn [ch_target ch_referenced_block].
    destruct (Hnodes st next nd Hw (Hsub nd eq_refl)) as (hash & Hh & Hp). exists hash. split; [done|]. destruct Hp as [->|(index & kind & st' & next' & rec & -> & Hwr & Hk & Hi & Hs & Hrk & Hrw & Hl)]; [by left|].
    right. eexists _, st', next'. split; [done|]. split; [done|]. destruct (wr_row _ _ (wo_writing _ _ _ _ Hwr)) as (r & Hr & Ht).
    split; cbn [ch_character ch_target ch_referenced_block].
    + done.
    + unfold child_pointer, child_kind. cbn [ch_target ch_referenced_block ch_character]. by rewrite Hk.
    + split; [apply (wr_id _ _ Hw)|done].
    + split; [apply (wr_id _ _ Hw)|]. split; [done|]. split; [by exists rec|]. by exists r.
    + unfold child_node, child_scope. cbn [ch_target]. intros node Hn. rewrite Hr. cbn [fst snd]. rewrite Hs in Hn. injection Hn as <-. by rewrite Ht.
    + intros q Hq. unfold child_lookup, child_node. cbn [ch_target]. rewrite Hs. by apply Hl.
  - pose proof Hok as (Hb & Hi & Hn & r & Hr & Href). cbn [ch_referenced_block] in Href. destruct ref as [h|]; [|by destruct Href].
    exists h. split; [done|]. right. exists (mkChild ch (Some h) (Stored b i k)), st, next. split; [done|]. split; [by apply wrote_refl|]. destruct Href as [Hh Hlt].
    split; [done|done| | |done|done].
    + split; [done|]. split; [done|]. cbn. rewrite block_hash_row, Hr. by rewrite Hh.
    + split; [done|]. split; [done|]. split; [done|]. by exists r.
Qed.

Lemma persist_children_spec m st next cs : (m <= 32)%nat -> persists_nodes m -> writing st next -> (forall c, c ∈ cs -> child_ok st None top c) ->
  (forall c node, c ∈ cs -> child_node st c = Ok node -> node_wf st (child_scope st None top c).1 (child_scope st None top c).2 m node) ->
  exists hashes, (forall st', collect_all (child_hash st') cs = Some (Ok hashes)) /\
  (thread_all (persist_child_by blk (persist_node blk)) (st, next) cs = Some (Err HeightOverflow) \/
   exists rows st' next', thread_all (persist_child_by blk (persist_node blk)) (st, next) cs = Some (Ok (rows, (st', next'))) /\ rows.*2 = hashes /\
     wrote st next st' next' /\ Forall2 (persisted st st' m) cs rows.*1).
Proof.
  intros Hm Hnodes. revert st next. induction cs as [|c cs IH]; intros st next Hw Hok Hsub.
  { exists []. split; [done|]. right. exists [], st, next. split; [done|]. split; [done|]. split; [by apply wrote_refl|constructor]. }
  destruct (persist_child_spec m st next c Hm Hnodes Hw) as (hash & Hh & Hp); [apply Hok; by left|intros nd; apply Hsub; by left|].
  cbn [thread_all]. destruct Hp as [->|(c' & st1 & next1 & -> & Hw1 & Hp1)].
  - assert (Hall : exists hs, forall st', collect_all (child_hash st') cs = Some (Ok hs)) by (destruct (IH st next Hw) as (hs & Hhs & _); [intros; apply Hok; by right|intros c0 nd ?; apply Hsub; by right|]; by exists hs).
    destruct Hall as [hs Hhs]. exists (hash :: hs). split; [intros st'; cbn [collect_all]; by rewrite Hh, Hhs|by left].
  - pose proof (wo_extends _ _ _ _ Hw1) as Hex. destruct (IH st1 next1 (wo_writing _ _ _ _ Hw1)) as (hs & Hhs & Hrest).
    + intros d Hd. eapply child_ok_extends; [done|]. apply Hok. by right.
    + intros d nd Hd Hn. assert (Hokd : child_ok st None top d) by (apply Hok; by right). rewrite (child_scope_extends _ _ _ _ _ Hex Hokd). eapply node_wf_extends; [done|].
      apply Hsub; [by right|]. by eapply child_node_extends.
    + exists (hash :: hs). split; [intros st'; cbn [collect_all]; by rewrite Hh, Hhs|]. destruct Hrest as [->|(rows & st2 & next2 & -> & Hhashes & Hw2 & HF)]; [by left|]. right.
      eexists _, st2, next2. split; [done|]. split; [cbn; by rewrite Hhashes|]. split; [by eapply wrote_trans|]. cbn [fmap list_fmap fst]. constructor; [by eapply persisted_extends, Hp1; apply Hw2|].
      eapply Forall2_impl_l; [exact HF|]. intros d d' Hd [Hc Hp Hr Hokd Hsubd Hl]. split; try done. intros q Hq. rewrite Hl by done.
      eapply child_lookup_extends; [done|apply Hok; by right|intros nd; apply Hsub; by right|done].
Qed.

Lemma persisted_characters st st' m cs cs' : Forall2 (persisted st st' m) cs cs' -> map ch_character cs' = map ch_character cs.
Proof. induction 1 as [|c c' cs cs' Hc _ IH]; [done|]. cbn. by rewrite (ps_character _ _ _ _ _ Hc), IH. Qed.

Lemma persisted_pointers st st' m cs cs' : Forall2 (persisted st st' m) cs cs' -> map child_pointer cs' = map child_pointer cs.
Proof. induction 1 as [|c c' cs cs' Hc _ IH]; [done|]. cbn. by rewrite (ps_pointer _ _ _ _ _ Hc), IH. Qed.

Lemma persisted_wf st st' m cs cs' : NoDup (map ch_character cs) -> Forall2 (persisted st st' m) cs cs' -> children_wf st' (Some blk) top m cs'.
Proof.
  intros Hnd HF. split; [by erewrite persisted_characters| |].
  - intros c' Hc. apply list_elem_of_lookup in Hc as [i Hi]. destruct (Forall2_lookup_r _ _ _ _ _ HF Hi) as (c & _ & Hp). by apply (ps_ok _ _ _ _ _ Hp).
  - intros c' node Hc. apply list_elem_of_lookup in Hc as [i Hi]. destruct (Forall2_lookup_r _ _ _ _ _ HF Hi) as (c & _ & Hp). by apply (ps_sub _ _ _ _ _ Hp).
Qed.

Lemma persisted_lookup st st' m cs cs' q : Forall2 (persisted st st' m) cs cs' -> length q = S m -> children_lookup st' cs' q = children_lookup st cs q.
Proof.
  intros HF Hq. destruct q as [|ch rest]; [done|]. injection Hq as Hq. cbn [children_lookup].
  assert (Hf : match find_child ch cs, find_child ch cs' with Some (i, c), Some (j, c') => persisted st st' m c c' | None, None => True | _, _ => False end).
  { clear Hq. induction HF as [|c c' cs cs' Hc _ IH]; [done|]. cbn [find_child]. unfold has_character. rewrite (ps_character _ _ _ _ _ Hc). case_bool_decide; [done|].
    by destruct (find_child ch cs) as [[i d]|], (find_child ch cs') as [[j d']|]. }
  destruct (find_child ch cs) as [[i c]|], (find_child ch cs') as [[j c']|]; try done. by apply (ps_lookup _ _ _ _ _ Hf).
Qed.

Lemma persisted_record st st' m np cs cs' : (length np <= 32)%nat -> NoDup (map ch_character cs) -> Forall2 (persisted st st' m) cs cs' -> record_node st' blk (Internal np cs').
Proof.
  intros Hp Hnd HF. split; [done|]. split.
  - rewrite <- (Forall2_length _ _ _ HF). apply nodup_bytes in Hnd. rewrite length_map in Hnd. unfold U16_MAX. lia.
  - apply Forall_forall. intros c' Hc. apply list_elem_of_lookup in Hc as [i Hi]. destruct (Forall2_lookup_r _ _ _ _ _ HF Hi) as (c & _ & Hpc). by apply (ps_record _ _ _ _ _ Hpc).
Qed.

(** An inner node, or the root: its children, then itself. *)
Lemma persist_internal_spec m st next np cs id : (length np <= 32)%nat -> (m <= 32)%nat -> persists_nodes m -> writing st next -> children_wf st None top m cs ->
  (id = Node256 \/ (length cs <= pointer_count id)%nat) ->
  exists hashes hash, (forall st', collect_all (child_hash st') cs = Some (Ok hashes)) /\ hash_slots id np cs hashes = Some (Ok hash) /\
  (thread_all (persist_child_by blk (persist_node blk)) (st, next) cs = Some (Err HeightOverflow) \/
   exists rows st1 next1, thread_all (persist_child_by blk (persist_node blk)) (st, next) cs = Some (Ok (rows, (st1, next1))) /\ length rows.*1 = length cs /\
     hash_slots id np rows.*1 rows.*2 = Some (Ok hash) /\
     (write_node blk (st1, next1) hash (Internal np rows.*1) = Err HeightOverflow \/
      exists st' next', write_node blk (st1, next1) hash (Internal np rows.*1) = Ok (next1, (st', next')) /\ wrote st next st' next' /\ is_u32 next1 /\
        storage_node st' blk next1 = Ok (Internal np rows.*1) /\ children_wf st' (Some blk) top m rows.*1 /\
        forall q, length q = S m -> children_lookup st' rows.*1 q = children_lookup st cs q)).
Proof.
  intros Hp Hm Hnodes Hw Hcs Hcap. destruct (persist_children_spec m st next cs Hm Hnodes Hw (cs_ok _ _ _ _ _ Hcs) (cs_sub _ _ _ _ _ Hcs)) as (hashes & Hh & Hth).
  assert (Hlh : length hashes = length cs).
  { specialize (Hh st). clear -Hh. revert hashes Hh. induction cs as [|c cs IH]; intros hashes Hh; cbn [collect_all] in Hh; [by injection Hh as <-|].
    destruct (child_hash st c) as [[h|]|]; try done. destruct (collect_all (child_hash st) cs) as [[hs|]|]; try done. injection Hh as <-. cbn. f_equal. by apply IH. }
  destruct (hash_slots_ok id np cs hashes) as [hash Hhash]; [done|done|done|intros; by eapply children_kinds|]. exists hashes, hash. split; [done|]. split; [done|].
  destruct Hth as [->|(rows & st1 & next1 & -> & Hrh & Hw1 & HF)]; [by left|]. right. exists rows, st1, next1. split; [done|]. split; [by rewrite <- (Forall2_length _ _ _ HF)|].
  split; [by rewrite Hrh, <- Hhash; symmetry; apply hash_slots_pointers; [rewrite (persisted_pointers _ _ _ _ _ HF)|rewrite (persisted_characters _ _ _ _ _ HF)]|].
  destruct (write_node_spec st1 next1 hash (Internal np rows.*1) (wo_writing _ _ _ _ Hw1)) as [->|(st' & next' & -> & Hw2 & Hs)];
    [eapply persisted_record; [done|apply Hcs|done]|by left|]. right. exists st', next'. split; [done|]. split; [by eapply wrote_trans|].
  split; [apply (wr_next _ _ (wo_writing _ _ _ _ Hw1))|]. split; [done|].
  assert (HF' : Forall2 (persisted st st' m) cs rows.*1) by (eapply Forall2_impl; [exact HF|]; intros; by eapply persisted_extends; [apply Hw2|]).
  split; [by eapply persisted_wf; [apply Hcs|]|]. intros q Hq. by eapply persisted_lookup.
Qed.

Lemma persist_nodes_spec n : (n <= 32)%nat -> persists_nodes n.
Proof.
  induction (lt_wf n) as [n _ IH]. intros Hn st next node Hw Hwf. destruct (node_hash_ok st top n node Hwf Hn) as [hash Hhash]. exists hash. split; [done|]. specialize (Hhash st).
  destruct node as [lp lv|np cs].
  - apply leaf_wf_inv in Hwf as [-> Hlv]. cbn [node_hash] in Hhash. cbn [persist_node]. assert (leaf_hash lp lv = Ok hash) as -> by congruence.
    destruct (write_node_spec st next hash (Leaf lp lv) Hw) as [->|(st' & next' & -> & Hw' & Hs)]; [by split|by left|]. right.
    exists next, NodeLeaf, st', next', (Leaf lp lv). split; [done|]. split; [done|]. split; [done|]. split; [apply Hw|]. split; [done|]. split; [done|]. split; [by constructor|done].
  - pose proof Hwf as (m & -> & Hlen & Hcs)%internal_children. cbn [node_hash] in Hhash. destruct (node_id_for_children (length cs)) as [id|] eqn:Hid; [|done]. cbn [mbind option_bind] in Hhash.
    destruct (persist_internal_spec m st next np cs id) as (hashes & hash' & Hhs & Hslots & Hth); [lia|lia|by apply IH; lia|done|done|apply (node_id_capacity _ _ Hid); by eapply children_count|].
    change (child_hash_by st (node_hash st)) with (child_hash st) in Hhash. rewrite Hhs, Hslots in Hhash. injection Hhash as ->. cbn [persist_node].
    destruct Hth as [->|(rows & st1 & next1 & -> & Hlr & Hsl & Hwn)]; [by left|]. rewrite Hlr, Hid. cbn [mbind option_bind]. rewrite Hsl.
    destruct Hwn as [->|(st' & next' & -> & Hw' & Hi & Hs & Hcs' & Hl)]; [by left|]. right. exists next1, id, st', next', (Internal np rows.*1). split; [done|]. split; [done|]. split; [done|].
    split; [done|]. split; [done|]. split; [by cbn [node_id]; rewrite Hlr|]. assert (Hwf' : node_wf st' (Some blk) top (length np + S m) (Internal np rows.*1)) by (apply internal_children; exists m; split; [done|]; split; [lia|done]).
    split; [done|]. intros q Hq. rewrite (lookup_children _ _ _ _ _ _ _ Hwf' Hq), (lookup_children _ _ _ _ _ _ _ Hwf Hq). destruct (strip_path np q) as [rest|] eqn:Hst; [|done]. apply Hl.
    apply strip_path_Some in Hst. subst q. rewrite length_app in Hq. lia.
Qed.

Lemma persist_root_spec st next cs : writing st next -> children_wf st None top 31 cs ->
  exists content, (forall st', hash_children st' Node256 [] cs = Some (Ok content)) /\
  (persist_root blk (st, next) cs = Some (Err HeightOverflow) \/
   exists index st' next' cs', persist_root blk (st, next) cs = Some (Ok ((index, content), (st', next'))) /\ wrote st next st' next' /\
     storage_node st' blk index = Ok (Internal [] cs') /\ children_wf st' (Some blk) top 31 cs' /\
     forall q, length q = 32%nat -> children_lookup st' cs' q = children_lookup st cs q).
Proof.
  intros Hw Hcs. destruct (persist_internal_spec 31 st next [] cs Node256) as (hashes & hash & Hhs & Hslots & Hth); [cbn; lia|lia|apply persist_nodes_spec; lia|done|done|by left|].
  exists hash. split; [intros st'; unfold hash_children; by rewrite Hhs|]. unfold persist_root. destruct Hth as [->|(rows & st1 & next1 & -> & Hlr & Hsl & Hwn)]; [by left|]. rewrite Hsl.
  destruct Hwn as [->|(st' & next' & -> & Hw' & Hi & Hs & Hcs' & Hl)]; [by left|]. right. by exists next1, st', next', rows.*1.
Qed.

End Persisting.

End Sealing.
