(* ===== verification/MarfTables.v ===== *)
(** * The table of sealed states

    The invariant of the tables, the ancestors of a state and the skip list that
    finds them, and what discarding states leaves as it was.

    And what discarding and sealing leave in the tables. *)

From stdpp Require Import gmap.
From S2P Require Import Prelude Primitives Crypto MarfTrie MarfVersions MarfTheorems MarfSealing.

(** ** Finding a row *)

Lemma find_unique {A B} `{EqDecision B} (key : A -> B) (p : A -> bool) (l : list A) (x : A) (b : B) : (forall y, p y = true <-> key y = b) -> NoDup (map key l) ->
  List.find p l = Some x <-> x ∈ l /\ key x = b.
Proof.
  intros Hp Hnd. split.
  - intros Hf. apply find_some in Hf as [Hin Hpx]. split; [by apply list_elem_of_In|by apply Hp].
  - intros [Hin Hk]. destruct (List.find p l) as [y|] eqn:Hf.
    + apply find_some in Hf as [Hy Hpy]. apply Hp in Hpy. apply list_elem_of_In in Hy. f_equal. apply list_elem_of_lookup in Hin as [i Hi]. apply list_elem_of_lookup in Hy as [j Hj].
      assert (i = j) as <- by (eapply (NoDup_lookup (map key l)); [done|rewrite list_lookup_fmap, Hi; by cbn; rewrite Hk|rewrite list_lookup_fmap, Hj; by cbn; rewrite Hpy]). congruence.
    + apply find_none with (x := x) in Hf; [|by apply list_elem_of_In]. rewrite (proj2 (Hp x) Hk) in Hf. done.
Qed.

Lemma find_absent {A B} (key : A -> B) (p : A -> bool) (l : list A) (b : B) : (forall y, p y = true <-> key y = b) -> List.find p l = None <-> b ∉ map key l.
Proof.
  intros Hp. split.
  - intros Hf (x & -> & Hx)%list_elem_of_fmap. apply find_none with (x := x) in Hf; [|by apply list_elem_of_In]. by rewrite (proj2 (Hp x)) in Hf.
  - intros Hb. destruct (List.find p l) as [y|] eqn:Hf; [|done]. apply find_some in Hf as [Hy Hpy]. destruct Hb. apply list_elem_of_fmap. exists y. split; [symmetry; by apply Hp|by apply list_elem_of_In].
Qed.

Record rows_ok (st : TrieStorage) : Prop := {
  ro_ids : NoDup (map row_id (st_blocks st));
  ro_hashes : NoDup (map row_hash (st_blocks st));
}.

Lemma id_row_Some st id r : rows_ok st -> id_row st id = Some r <-> r ∈ st_blocks st /\ row_id r = id.
Proof. intros [Hi _]. apply find_unique; [|done]. intros y. apply Z.eqb_eq. Qed.

Lemma storage_block_Some st hash r : rows_ok st -> storage_block st hash = Some r <-> r ∈ st_blocks st /\ row_hash r = hash.
Proof. intros [_ Hh]. apply (find_unique row_hash); [|done]. intros y. apply bool_decide_eq_true. Qed.

Lemma storage_block_None st hash : storage_block st hash = None <-> hash ∉ map row_hash (st_blocks st).
Proof. apply find_absent. intros y. apply bool_decide_eq_true. Qed.

(** ** Ancestors *)

Definition parent_row (st : TrieStorage) (r : BlockRow) : option BlockRow := id ← row_parent r; id_row st id.

Fixpoint ancestor (st : TrieStorage) (r : BlockRow) (distance : nat) : option BlockRow :=
  match distance with O => Some r | S d => p ← parent_row st r; ancestor st p d end.

Lemma ancestor_add st r a b : ancestor st r (a + b) = (p ← ancestor st r a; ancestor st p b).
Proof. revert r. induction a as [|a IH]; intros r; [done|]. cbn [Nat.add ancestor]. destruct (parent_row st r) as [p|]; [|done]. cbn [mbind option_bind]. apply IH. Qed.

(** Each state is one above its parent, and one without a parent is at height zero. *)
Definition linked (st : TrieStorage) (r : BlockRow) : Prop :=
  match row_parent r with
  | Some id => exists p, id_row st id = Some p /\ row_height r = row_height p + 1
  | None => row_height r = 0
  end.

Lemma ancestor_exists st r d : (forall x, x ∈ st_blocks st -> linked st x /\ 0 <= row_height x) -> rows_ok st -> r ∈ st_blocks st -> Z.of_nat d <= row_height r ->
  exists p, ancestor st r d = Some p /\ p ∈ st_blocks st /\ row_height p = row_height r - Z.of_nat d.
Proof.
  intros Hl Hro. revert r. induction d as [|d IH]; intros r Hr Hd; [exists r; split; [done|]; split; [done|lia]|].
  destruct (Hl r Hr) as [Hlk Hnn]. unfold linked in Hlk. cbn [ancestor]. unfold parent_row. destruct (row_parent r) as [id|]; [|lia]. destruct Hlk as (p & Hp & Hh).
  cbn [mbind option_bind]. rewrite Hp. cbn [mbind option_bind]. assert (Hin : p ∈ st_blocks st) by (by apply (id_row_Some st id p Hro)).
  destruct (IH p Hin ltac:(lia)) as (q & Hq & Hqin & Hqh). exists q. split; [done|]. split; [done|lia].
Qed.

(** The ancestors at distances 1, 2, 4, ... *)
Definition jumps_ok (st : TrieStorage) (r : BlockRow) : Prop :=
  forall k, row_jumps r !! k = if 2 ^ Z.of_nat k <=? row_height r then row_hash <$> ancestor st r (2 ^ k) else None.

(** The root of a sealed state, and what it holds. *)
Definition root_children_of (st : TrieStorage) (r : BlockRow) (cs : list TrieChild) : Prop :=
  exists index, row_node r = Some index /\ storage_node st (row_id r) index = Ok (Internal [] cs) /\ children_wf st (Some (row_id r)) (row_height r) 31 cs.

Record row_ok (st : TrieStorage) (r : BlockRow) : Prop := {
  rk_id : 1 <= row_id r <= st_sequence st;
  rk_height : is_u32 (row_height r);
  rk_linked : linked st r;
  rk_jumps : jumps_ok st r;
  rk_root : exists cs, root_children_of st r cs;
}.

Record store_ok (st : TrieStorage) : Prop := {
  so_rows : rows_ok st;
  so_sequence : is_u32 (st_sequence st);
  so_row : forall r, r ∈ st_blocks st -> row_ok st r;
  so_nodes : forall k v, st_nodes st !! k = Some v -> exists r, r ∈ st_blocks st /\ row_id r = k.1;
}.

Lemma store_ancestor st r d : store_ok st -> r ∈ st_blocks st -> Z.of_nat d <= row_height r ->
  exists p, ancestor st r d = Some p /\ p ∈ st_blocks st /\ row_height p = row_height r - Z.of_nat d.
Proof.
  intros Hst Hr Hd. apply ancestor_exists; [|apply Hst|done|done]. intros x Hx. destruct (so_row _ Hst x Hx) as [_ [Hh _] Hl _ _]. done.
Qed.

Lemma pow2_nat k : Z.of_nat (2 ^ k) = 2 ^ Z.of_nat k.
Proof. by rewrite Nat2Z.inj_pow. Qed.

(** The jump of a state that is there. *)
Lemma jump_at st r k : store_ok st -> r ∈ st_blocks st -> 2 ^ Z.of_nat k <= row_height r ->
  exists p, ancestor st r (2 ^ k) = Some p /\ p ∈ st_blocks st /\ row_height p = row_height r - 2 ^ Z.of_nat k /\
    storage_jumps st (row_hash r) = Ok (row_jumps r) /\ row_jumps r !! k = Some (row_hash p) /\ storage_block st (row_hash p) = Some p.
Proof.
  intros Hst Hr Hk. destruct (store_ancestor st r (2 ^ k) Hst Hr) as (p & Hp & Hin & Hh); [by rewrite pow2_nat|]. exists p. split; [done|]. split; [done|]. split; [by rewrite pow2_nat in Hh|].
  split; [unfold storage_jumps; by rewrite (proj2 (storage_block_Some st _ r (so_rows _ Hst)) (conj Hr eq_refl))|].
  split; [|by apply (storage_block_Some st _ _ (so_rows _ Hst))]. rewrite (rk_jumps _ _ (so_row _ Hst r Hr) k). rewrite (proj2 (Z.leb_le _ _)) by done. by rewrite Hp.
Qed.

(** ** The skip list *)

(** The loop of [block_at_height] halves the distance, so it ends, at the ancestor sought. *)
Lemma descend_to_spec st r target n fuel : store_ok st -> r ∈ st_blocks st -> 0 <= target <= row_height r -> row_height r - target < 2 ^ Z.of_nat n -> (n < fuel)%nat ->
  VersionedMarf.descend_to st fuel r target = Some (Ok (row_hash <$> ancestor st r (Z.to_nat (row_height r - target)))).
Proof.
  intros Hst. revert r fuel. induction n as [|n IH]; intros r [|fuel] Hr Ht Hd Hf; try lia; cbn [VersionedMarf.descend_to].
  - rewrite (proj2 (Z.ltb_ge _ _)) by (cbn in Hd; lia). rewrite (proj2 (Z.eqb_eq _ _)) by (cbn in Hd; lia). replace (row_height r - target) with 0 by (cbn in Hd; lia). done.
  - destruct (Z.ltb_spec target (row_height r)) as [Hlt|Hge]; [|rewrite (proj2 (Z.eqb_eq _ _)) by lia; by replace (row_height r - target) with 0 by lia].
    set (distance := row_height r - target) in *. set (k := Z.to_nat (Z.log2 distance)). assert (Hlog : 2 ^ Z.log2 distance <= distance < 2 ^ Z.succ (Z.log2 distance)) by (apply Z.log2_spec; lia).
    assert (Hk0 : 0 <= Z.log2 distance) by apply Z.log2_nonneg. assert (Hkz : Z.of_nat k = Z.log2 distance) by (unfold k; lia).
    destruct (jump_at st r k Hst Hr) as (p & Hp & Hin & Hph & Hj & Hjk & Hb); [rewrite Hkz; lia|]. rewrite Hj, Hjk, Hb. rewrite Hkz in Hph.
    assert (Hkn : Z.log2 distance <= Z.of_nat n) by (apply Z.lt_succ_r, Z.log2_lt_pow2; [lia|]; replace (Z.succ (Z.of_nat n)) with (Z.of_nat (S n)) by lia; lia).
    rewrite (IH p fuel Hin ltac:(lia)); [|rewrite Z.pow_succ_r in Hlog by lia; assert (2 ^ Z.log2 distance <= 2 ^ Z.of_nat n) by (apply Z.pow_le_mono_r; lia); lia|lia].
    replace (Z.to_nat distance) with (2 ^ k + Z.to_nat (row_height p - target))%nat; [by rewrite ancestor_add, Hp|]. pose proof (pow2_nat k) as Hpk. rewrite Hkz in Hpk. lia.
Qed.

(** The ancestors of the state about to be sealed on top of [p]. *)
Definition above (st : TrieStorage) (p : BlockRow) (distance : nat) : option MarfBlockId := row_hash <$> ancestor st p (distance - 1).

Lemma jumps_loop_spec st p height fuel step jumps : store_ok st -> p ∈ st_blocks st -> height = row_height p + 1 -> (1 <= step)%nat -> height < 2 ^ (Z.of_nat step + Z.of_nat fuel - 1) ->
  length jumps = step -> 2 ^ (Z.of_nat step - 1) <= height -> (forall k, (k < step)%nat -> jumps !! k = above st p (2 ^ k)) ->
  exists all, VersionedMarf.jumps_loop st height fuel step jumps = Some (Ok all) /\ forall k, all !! k = if 2 ^ Z.of_nat k <=? height then above st p (2 ^ k) else None.
Proof.
  intros Hst Hp Hh. revert step jumps. induction fuel as [|fuel IH]; intros step jumps Hs Hfuel Hl Hlow Hj.
  { exfalso. replace (Z.of_nat step + Z.of_nat 0 - 1) with (Z.of_nat step - 1) in Hfuel by lia. lia. }
  cbn [VersionedMarf.jumps_loop]. destruct (Z.leb_spec (2 ^ Z.of_nat step) height) as [Hle|Hgt].
  - assert (Hpow : 2 ^ Z.of_nat step = 2 * 2 ^ (Z.of_nat step - 1)) by (rewrite <- Z.pow_succ_r by lia; f_equal; lia).
    set (k := (step - 1)%nat). assert (Hkz : Z.of_nat k = Z.of_nat step - 1) by lia. assert (Hpk : Z.of_nat (2 ^ k) = 2 ^ (Z.of_nat step - 1)) by (rewrite pow2_nat; f_equal; lia).
    assert (Hpos : (1 <= 2 ^ k)%nat) by (assert (0 < 2 ^ (Z.of_nat step - 1)) by (apply Z.pow_pos_nonneg; lia); lia).
    destruct (store_ancestor st p (2 ^ k - 1) Hst Hp) as (a & Ha & Hain & Hah); [lia|]. rewrite (Hj k) by lia. unfold above. rewrite Ha. cbn [fmap option_fmap option_map mbind option_bind].
    destruct (jump_at st a k Hst Hain) as (b & Hb & Hbin & Hbh & Hsj & Hjk & Hbb); [rewrite Hkz; lia|]. rewrite Hsj, Hjk. cbn [or_err].
    assert (Hab : above st p (2 ^ step) = Some (row_hash b)).
    { unfold above. replace (2 ^ step - 1)%nat with (2 ^ k - 1 + 2 ^ k)%nat; [by rewrite ancestor_add, Ha; cbn; rewrite Hb|]. pose proof (pow2_nat step). lia. }
    apply IH; [lia|replace (Z.of_nat (S step) + Z.of_nat fuel - 1) with (Z.of_nat step + Z.of_nat (S fuel) - 1) by lia; done|rewrite length_app; cbn; lia|replace (Z.of_nat (S step) - 1) with (Z.of_nat step) by lia; done|].
    intros j Hjs. destruct (decide (j = step)) as [->|]; [|rewrite lookup_app_l by lia; apply Hj; lia]. rewrite lookup_app_r by lia. rewrite Hl, Nat.sub_diag. cbn. by rewrite Hab.
  - exists jumps. split; [done|]. intros k. destruct (Z.leb_spec (2 ^ Z.of_nat k) height) as [Hk|Hk].
    + apply Hj. assert (Z.of_nat k < Z.of_nat step); [|lia]. apply (Z.pow_lt_mono_r_iff 2); lia.
    + apply lookup_ge_None. rewrite Hl. assert (Z.of_nat step <= Z.of_nat k); [|lia].
      destruct (Z.le_gt_cases (Z.of_nat step) (Z.of_nat k)) as [|Hgt']; [done|]. exfalso. assert (2 ^ Z.of_nat k <= 2 ^ (Z.of_nat step - 1)) by (apply Z.pow_le_mono_r; lia). lia.
Qed.

Lemma jumps_for_spec st p : store_ok st -> p ∈ st_blocks st -> row_height p + 1 <= U32_MAX ->
  exists all, VersionedMarf.jumps_for st (Some (row_hash p)) (row_height p + 1) = Some (Ok all) /\ forall k, all !! k = if 2 ^ Z.of_nat k <=? row_height p + 1 then above st p (2 ^ k) else None.
Proof.
  intros Hst Hp Hh. unfold VersionedMarf.jumps_for. apply jumps_loop_spec; try done; [unfold U32_MAX in Hh; cbn; lia|destruct (rk_height _ _ (so_row _ Hst p Hp)); cbn; lia|].
  intros k Hk. replace k with 0%nat by lia. done.
Qed.

(** * What discarding and sealing leave in the tables

    Both keep the invariant of the tables. States at or below the height of a
    discard, and every sealed state when another is sealed, hold what they held. *)

(** ** States at or below a height *)

Record kept (st st' : TrieStorage) (h : Z) : Prop := {
  kp_extends : extends st' st;
  kp_rows : forall id r, id_row st id = Some r -> row_height r <= h -> id_row st' id = Some r;
  kp_nodes : forall id r i, id_row st id = Some r -> row_height r <= h -> st_nodes st' !! (id, i) = st_nodes st !! (id, i);
}.

Lemma scope_height st own top c : child_ok st own top c -> (child_scope st own top c).2 <= top.
Proof.
  unfold child_ok, child_scope. destruct (ch_target c) as [|b i k]; [done|]. intros (_ & _ & _ & r & Hr & Href). rewrite Hr. cbn. destruct (ch_referenced_block c); destruct Href; lia.
Qed.

Lemma node_children_ok st own top m path cs c : node_wf st own top m (Internal path cs) -> c ∈ cs -> child_ok st own top c.
Proof. intros (m' & _ & _ & [_ Hok _])%internal_children. apply Hok. Qed.

Section Kept.
Context (st st' : TrieStorage) (h : Z) (K : kept st st' h).

Lemma decode_child_kept own top bytes c rest : top <= h -> child_ok st (Some own) top c -> decode_child st own bytes = Ok (c, rest) -> decode_child st' own bytes = Ok (c, rest).
Proof using K.
  intros Htop Hok. unfold decode_child. destruct (take_byte bytes) as [[flags b1]|]; [|done]. destruct (take_byte b1) as [[ch b2]|]; [|done]. destruct (take_bytes 4 b2) as [[tg b3]|]; [|done].
  destruct (take_bytes 4 b3) as [[ix b4]|]; [|done]. destruct (node_id_from_byte _) as [k|]; [|done]. destruct (_ =? 0); [done|].
  rewrite !block_hash_row. destruct (id_row st _) as [r|] eqn:Hr; [|done]. intros [= <- <-]. destruct Hok as (_ & _ & _ & r0 & Hr0 & Hh & Hlt). cbn in Hr0, Hh. assert (r0 = r) as -> by congruence.
  by rewrite (kp_rows _ _ _ K _ _ Hr) by lia.
Qed.

Lemma decode_children_kept own top n bytes cs : top <= h -> (forall c, c ∈ cs -> child_ok st (Some own) top c) -> decode_children st own n bytes = Ok cs -> decode_children st' own n bytes = Ok cs.
Proof using K.
  intros Htop. revert bytes cs. induction n as [|n IH]; intros bytes cs Hok; cbn [decode_children]; [done|]. destruct (decode_child st own bytes) as [[c rest]|] eqn:Hc; [|done].
  destruct (decode_children st own n rest) as [ds|] eqn:Hds; [|done]. intros [= <-].
  rewrite (decode_child_kept _ _ _ _ _ Htop (Hok c ltac:(by left)) Hc). by rewrite (IH _ ds ltac:(intros; apply Hok; by right) Hds).
Qed.

Lemma storage_node_kept b r i node : id_row st b = Some r -> row_height r <= h -> (forall path cs c, node = Internal path cs -> c ∈ cs -> child_ok st (Some b) (row_height r) c) ->
  storage_node st b i = Ok node -> storage_node st' b i = Ok node.
Proof using K.
  intros Hr Hh Hok. unfold storage_node. rewrite (kp_nodes _ _ _ K b r i Hr Hh). destruct (st_nodes st !! (b, i)) as [[hash data]|]; [|done].
  unfold decode_node. destruct (take_byte data) as [[kind b1]|]; [|done]. destruct (take_path b1) as [[path b2]|]; [|done]. case_decide; [done|]. case_decide; [|done].
  destruct (take_bytes 2 b2) as [[count b3]|]; [|done]. destruct (decode_children st b _ b3) as [cs|] eqn:Hc; [|done]. intros [= <-].
  by rewrite (decode_children_kept _ _ _ _ _ Hh (fun c => Hok _ _ c eq_refl) Hc).
Qed.

Lemma child_ok_kept own top m c : top <= h -> child_ok st own top c ->
  (forall node, child_node st c = Ok node -> node_wf st (child_scope st own top c).1 (child_scope st own top c).2 m node) -> child_ok st' own top c.
Proof using K.
  intros Htop Hok Hsub. unfold child_ok, child_node, child_scope in *. destruct (ch_target c) as [|b i k]; [done|]. destruct Hok as (Hb & Hi & (n & Hn & Hk) & r & Hr & Href).
  assert (Hle : row_height r <= h) by (destruct (ch_referenced_block c); destruct Href; lia). rewrite Hr in Hsub. split; [done|]. split; [done|].
  split; [exists n; split; [|done]; eapply storage_node_kept; [done|done| |done]; intros path cs d -> Hd; by eapply node_children_ok; [apply Hsub|]|]. exists r. split; [by apply (kp_rows _ _ _ K)|done].
Qed.

Lemma node_wf_kept own top n node : node_wf st own top n node -> top <= h -> node_wf st' own top n node.
Proof using K.
  induction 1 as [|own top m np cs Hlen Hnd Hok Hsub IH]; intros Htop; [by constructor|].
  assert (Hok' : forall c, c ∈ cs -> child_ok st' own top c) by (intros c Hc; eapply child_ok_kept; [done|by apply Hok|intros; by apply Hsub]).
  constructor; [done|done|done|]. intros c nd Hc Hn. rewrite <- (child_scope_extends _ _ _ _ _ (kp_extends _ _ _ K) (Hok' c Hc)). apply IH; [done| |].
  - destruct (child_resolves _ _ _ _ (Hok c Hc)) as [nd' Hn']. rewrite Hn'. f_equal. unfold child_node in *. destruct (ch_target c) as [|b i k]; [congruence|].
    rewrite (storage_node_extends _ _ _ _ _ (kp_extends _ _ _ K) Hn) in Hn'. congruence.
  - pose proof (scope_height _ _ _ _ (Hok c Hc)). lia.
Qed.

Lemma children_wf_kept own top m cs : top <= h -> children_wf st own top m cs -> children_wf st' own top m cs.
Proof using K.
  intros Htop [Hnd Hok Hsub]. assert (Hok' : forall c, c ∈ cs -> child_ok st' own top c) by (intros c Hc; eapply child_ok_kept; [done|by apply Hok|intros; by apply Hsub]).
  split; [done|done|]. intros c nd Hc Hn. rewrite <- (child_scope_extends _ _ _ _ _ (kp_extends _ _ _ K) (Hok' c Hc)). apply node_wf_kept.
  - apply Hsub; [done|]. unfold child_node in *. destruct (ch_target c) as [|b i k]; [done|]. by apply (storage_node_extends _ _ _ _ _ (kp_extends _ _ _ K)).
  - pose proof (scope_height _ _ _ _ (Hok c Hc)). lia.
Qed.

Lemma root_kept r cs : id_row st (row_id r) = Some r -> row_height r <= h -> root_children_of st r cs -> root_children_of st' r cs.
Proof using K.
  intros Hr Hh (i & Hi & Hn & Hcs). exists i. split; [done|]. split; [|by apply children_wf_kept].
  eapply storage_node_kept; [done|done| |done]. intros path cs' c [= <- <-] Hc. by apply Hcs.
Qed.

Lemma parent_row_kept r : linked st r -> row_height r <= h -> parent_row st' r = parent_row st r.
Proof using K.
  intros Hl Hh. unfold parent_row, linked in *. destruct (row_parent r) as [id|]; [|done]. destruct Hl as (p & Hp & Hph). cbn. rewrite Hp. apply (kp_rows _ _ _ K); [done|lia].
Qed.

Lemma ancestor_kept r d : (forall x, x ∈ st_blocks st -> linked st x) -> rows_ok st -> r ∈ st_blocks st -> row_height r <= h -> ancestor st' r d = ancestor st r d.
Proof using K.
  intros Hl Hro. revert r. induction d as [|d IH]; intros r Hr Hh; [done|]. cbn [ancestor]. rewrite (parent_row_kept r (Hl r Hr) Hh). specialize (Hl r Hr). unfold parent_row, linked in *.
  destruct (row_parent r) as [id|]; [|done]. destruct Hl as (p & Hp & Hph). cbn. rewrite Hp. cbn. apply IH; [|lia]. by apply (id_row_Some st id p Hro).
Qed.

End Kept.

(** ** Discarding *)

Section Discard.
Context (st : TrieStorage) (h : Z) (Hst : store_ok st).

Let st' := (storage_discard_above st h).2.

Lemma discard_elem r : r ∈ st_blocks st' <-> r ∈ st_blocks st /\ row_height r <= h.
Proof. cbn. by rewrite !list_elem_of_In, filter_In, Z.leb_le. Qed.

Lemma discard_rows : rows_ok st'.
Proof using Hst.
  assert (Hsub : st_blocks st' `sublist_of` st_blocks st) by (cbn; induction (st_blocks st) as [|r l IH]; cbn; [constructor|]; case_match; by constructor).
  destruct (so_rows _ Hst) as [Hi Hh]. split; (eapply sublist_NoDup; [|by apply (fmap_sublist _ _ _ Hsub)]); done.
Qed.

Lemma discard_node id i r : id_row st id = Some r -> st_nodes st' !! (id, i) = if row_height r <=? h then st_nodes st !! (id, i) else None.
Proof using Hst.
  intros Hr. apply (id_row_Some st id r (so_rows _ Hst)) in Hr as [Hin Hid]. cbn. rewrite map_lookup_filter. destruct (st_nodes st !! (id, i)) as [v|]; cbn; [|by case_match].
  destruct (Z.leb_spec (row_height r) h) as [Hle|Hgt].
  - rewrite option_guard_True; [done|]. cbn. intros (x & Hx & Hxin)%list_elem_of_fmap. apply list_elem_of_In, filter_In in Hxin as [Hxin Hlt]. apply Z.ltb_lt in Hlt.
    assert (x = r); [|subst; lia]. assert (Hx' : id_row st id = Some x) by (apply id_row_Some; [apply Hst|]; by rewrite list_elem_of_In).
    assert (Hr' : id_row st id = Some r) by (by apply id_row_Some; [apply Hst|]). congruence.
  - rewrite option_guard_False; [done|]. cbn. intros Hno. apply Hno, list_elem_of_fmap. exists r. split; [done|]. rewrite list_elem_of_In, filter_In, Z.ltb_lt. split; [by apply list_elem_of_In|lia].
Qed.

Lemma discard_kept : kept st st' h.
Proof using Hst.
  split; [split| |].
  - intros id r (Hin & Hid)%(id_row_Some st' id r discard_rows). apply discard_elem in Hin as [Hin _]. exists r. split; [|done]. by apply id_row_Some; [apply Hst|].
  - apply map_filter_subseteq.
  - intros id r (Hin & Hid)%(id_row_Some st id r (so_rows _ Hst)) Hh. apply (id_row_Some st' id r discard_rows). split; [by apply discard_elem|done].
  - intros id r i Hr Hh. rewrite (discard_node _ _ _ Hr). by rewrite (proj2 (Z.leb_le _ _)).
Qed.

Lemma discard_block hash : storage_block st' hash = r ← storage_block st hash; if row_height r <=? h then Some r else None.
Proof using Hst.
  destruct (storage_block st hash) as [r|] eqn:Hr; cbn [mbind option_bind].
  - apply (storage_block_Some st hash r (so_rows _ Hst)) in Hr as [Hin Hh]. destruct (Z.leb_spec (row_height r) h) as [Hle|Hgt].
    + apply (storage_block_Some st' hash r discard_rows). by rewrite discard_elem.
    + apply storage_block_None. intros (x & Hx & Hxin)%list_elem_of_fmap. apply discard_elem in Hxin as [Hxin Hle].
      assert (storage_block st hash = Some r) by (by apply storage_block_Some; [apply Hst|]). assert (storage_block st hash = Some x) by (by apply storage_block_Some; [apply Hst|]).
      assert (x = r) as -> by congruence. lia.
  - apply storage_block_None in Hr. apply storage_block_None. intros (x & Hx & Hxin)%list_elem_of_fmap. apply discard_elem in Hxin as [Hxin _]. apply Hr, list_elem_of_fmap. by exists x.
Qed.

Lemma discard_ok : store_ok st'.
Proof using Hst.
  split; [apply discard_rows|apply Hst| |].
  - intros r (Hin & Hh)%discard_elem. destruct (so_row _ Hst r Hin) as [Hid Hu Hl Hj [cs Hroot]].
    assert (Hanc : forall d, ancestor st' r d = ancestor st r d) by (intros d; apply (ancestor_kept st st' h discard_kept); [intros x Hx; apply (so_row _ Hst x Hx)|apply Hst|done|done]).
    split; [done|done| | |].
    + unfold linked in *. destruct (row_parent r) as [id|]; [|done]. destruct Hl as (p & Hp & Hph). exists p. split; [|done]. apply (kp_rows _ _ _ discard_kept); [done|lia].
    + intros k. by rewrite Hanc.
    + exists cs. apply (root_kept st st' h discard_kept); [|done|done]. by apply id_row_Some; [apply Hst|].
  - intros k v Hk. assert (Hk' : st_nodes st !! k = Some v) by (by eapply lookup_weaken; [|apply discard_kept]). destruct (so_nodes _ Hst k v Hk') as (r & Hin & Hid).
    exists r. split; [|done]. apply discard_elem. split; [done|]. destruct k as [id i]. cbn in Hid. assert (Hr : id_row st id = Some r) by (by apply id_row_Some; [apply Hst|]).
    rewrite (discard_node _ _ _ Hr) in Hk. by destruct (Z.leb_spec (row_height r) h).
Qed.

End Discard.

(** ** A new row *)

(** [st'] is [st] with one row more, whose identifier is the next of the sequence. *)
Record one_more (st st' : TrieStorage) (row : BlockRow) : Prop := {
  om_blocks : st_blocks st' = st_blocks st ++ [row];
  om_id : row_id row = st_sequence st + 1;
  om_sequence : st_sequence st' = st_sequence st + 1;
  om_hash : storage_block st (row_hash row) = None;
  om_nodes : st_nodes st ⊆ st_nodes st';
}.

Section OneMore.
Context (st st' : TrieStorage) (row : BlockRow) (Hst : store_ok st) (M : one_more st st' row).

Lemma new_row_fresh r : r ∈ st_blocks st -> row_id r <> row_id row.
Proof using Hst M. intros Hr. rewrite (om_id _ _ _ M). destruct (rk_id _ _ (so_row _ Hst r Hr)). lia. Qed.

Lemma new_rows_ok : rows_ok st'.
Proof using Hst M.
  destruct (so_rows _ Hst) as [Hi Hh]. split; rewrite (om_blocks _ _ _ M), map_app; cbn; (apply NoDup_app; split; [done|]; split; [|apply NoDup_singleton]); intros x Hx ->%list_elem_of_singleton.
  - apply list_elem_of_fmap in Hx as (r & Hr & Hin). by apply (new_row_fresh r Hin).
  - pose proof (proj1 (storage_block_None st (row_hash row)) (om_hash _ _ _ M)). done.
Qed.

Lemma new_elem r : r ∈ st_blocks st' <-> r ∈ st_blocks st \/ r = row.
Proof using M. rewrite (om_blocks _ _ _ M), elem_of_app. by rewrite list_elem_of_singleton. Qed.

Lemma new_old_row id r : id_row st id = Some r -> id_row st' id = Some r.
Proof using Hst M. intros (Hin & Hid)%(id_row_Some st id r (so_rows _ Hst)). apply (id_row_Some st' id r new_rows_ok). by rewrite new_elem; split; [left|]. Qed.

Lemma new_row_found : id_row st' (row_id row) = Some row.
Proof using Hst M. apply (id_row_Some st' _ _ new_rows_ok). rewrite new_elem. split; [by right|done]. Qed.

Lemma new_extends : extends st st'.
Proof using Hst M. split; [|apply M]. intros id r Hr. exists r. by rewrite (new_old_row id r Hr). Qed.

Lemma new_block hash : storage_block st' hash = if decide (hash = row_hash row) then Some row else storage_block st hash.
Proof using Hst M.
  case_decide as Hh; [subst hash; apply (storage_block_Some st' _ _ new_rows_ok); rewrite new_elem; split; [by right|done]|].
  destruct (storage_block st hash) as [r|] eqn:Hr.
  - apply (storage_block_Some st _ _ (so_rows _ Hst)) in Hr as [Hin Hrh]. apply (storage_block_Some st' _ _ new_rows_ok). rewrite new_elem. by split; [left|].
  - apply storage_block_None. apply storage_block_None in Hr. rewrite (om_blocks _ _ _ M), map_app, elem_of_app. intros [Hin|Hin]; [done|]. cbn in Hin. by apply list_elem_of_singleton in Hin.
Qed.

Lemma new_parent_row r : r ∈ st_blocks st -> parent_row st' r = parent_row st r.
Proof using Hst M.
  intros Hr. pose proof (rk_linked _ _ (so_row _ Hst r Hr)) as Hl. unfold parent_row, linked in *. destruct (row_parent r) as [id|]; [|done]. destruct Hl as (p & Hp & _). cbn. rewrite Hp. by apply new_old_row.
Qed.

Lemma new_ancestor r d : r ∈ st_blocks st -> ancestor st' r d = ancestor st r d.
Proof using Hst M.
  revert r. induction d as [|d IH]; intros r Hr; [done|]. cbn [ancestor]. rewrite (new_parent_row r Hr). destruct (parent_row st r) as [p|] eqn:Hp; [|done]. cbn. apply IH.
  unfold parent_row in Hp. destruct (row_parent r) as [id|]; [|done]. cbn in Hp. by apply (id_row_Some st id p (so_rows _ Hst)).
Qed.

Lemma new_root r cs : root_children_of st r cs -> root_children_of st' r cs.
Proof using Hst M.
  intros (i & Hi & Hn & Hcs). exists i. split; [done|]. split; [by apply (storage_node_extends _ _ _ _ _ new_extends)|by apply (children_wf_extends _ _ _ _ _ _ new_extends)].
Qed.

(** The row itself: its parent is there, its jumps are its ancestors', and it has a root. *)
Record row_fits : Prop := {
  rf_sequence : st_sequence st + 1 <= U32_MAX;
  rf_height : is_u32 (row_height row);
  rf_parent : match row_parent row with
              | Some id => exists p, id_row st id = Some p /\ row_height row = row_height p + 1 /\
                  forall k, row_jumps row !! k = if 2 ^ Z.of_nat k <=? row_height row then above st p (2 ^ k) else None
              | None => row_height row = 0 /\ row_jumps row = []
              end;
  rf_root : exists cs, root_children_of st' row cs;
  rf_nodes : forall k v, st_nodes st' !! k = Some v -> st_nodes st !! k = Some v \/ k.1 = row_id row;
}.

Lemma new_row_ok : row_fits -> row_ok st' row.
Proof using Hst M.
  intros [Hs Hh Hp Hr Hn]. pose proof (so_sequence _ Hst) as [Hlo _]. split; [rewrite (om_id _ _ _ M), (om_sequence _ _ _ M); lia|done| | |done].
  - unfold linked. destruct (row_parent row) as [id|]; [|apply Hp]. destruct Hp as (p & Hp & Hph & _). exists p. split; [by apply new_old_row|done].
  - intros k. destruct (row_parent row) as [id|] eqn:Hid.
    + destruct Hp as (p & Hp & Hph & Hj). rewrite Hj. case_match; [|done]. unfold above. assert (Hpos : (1 <= 2 ^ k)%nat) by (pose proof (pow2_nat k); assert (0 < 2 ^ Z.of_nat k) by (apply Z.pow_pos_nonneg; lia); lia).
      replace (2 ^ k)%nat with (S (2 ^ k - 1)) at 2 by lia. cbn [ancestor]. unfold parent_row. rewrite Hid. cbn [mbind option_bind]. rewrite (new_old_row _ _ Hp). cbn [mbind option_bind].
      rewrite new_ancestor; [done|]. by apply (id_row_Some st id p (so_rows _ Hst)).
    + destruct Hp as [H0 ->]. rewrite H0. rewrite (proj2 (Z.leb_gt _ _)) by (apply Z.pow_pos_nonneg; lia). done.
Qed.

Lemma new_store_ok : row_fits -> store_ok st'.
Proof using Hst M.
  intros Hfit. pose proof (so_sequence _ Hst) as [Hlo _]. split; [apply new_rows_ok|rewrite (om_sequence _ _ _ M); destruct Hfit; split; lia| |].
  - intros r [Hr| ->]%new_elem; [|by apply new_row_ok]. destruct (so_row _ Hst r Hr) as [Hid Hu Hl Hj [cs Hroot]]. split; [rewrite (om_sequence _ _ _ M); lia|done| | |].
    + unfold linked in *. destruct (row_parent r) as [id|]; [|done]. destruct Hl as (p & Hp & Hph). exists p. split; [by apply new_old_row|done].
    + intros k. by rewrite new_ancestor.
    + exists cs. by apply new_root.
  - intros k v Hk. destruct (rf_nodes Hfit k v Hk) as [Hold|Hnew].
    + destruct (so_nodes _ Hst k v Hold) as (r & Hin & Hid). exists r. rewrite new_elem. by split; [left|].
    + exists row. rewrite new_elem. by split; [right|].
Qed.

End OneMore.

(** ** Sealing *)

Lemma collect_each {E A B} (f : A -> result E B) l : (forall a, a ∈ l -> exists b, f a = Ok b) -> exists bs, collect f l = Ok bs.
Proof.
  induction l as [|a l IH]; intros Hf; [by exists []|]. destruct (Hf a) as [b Hb]; [by left|]. destruct IH as [bs Hbs]; [intros; apply Hf; by right|].
  exists (b :: bs). cbn [collect]. by rewrite Hb, Hbs.
Qed.

Section Seal.
Context `{H : Hashes}.
Import VersionedMarf.

(** The state being written extends a sealed one, or starts anew. *)
Record active_ok (st : TrieStorage) (a : ActiveVersion) : Prop := {
  ao_parent : match av_parent a with
              | Some p => exists r, storage_block st p = Some r /\ av_height a = row_height r + 1 /\ av_height a <= U32_MAX
              | None => av_height a = 0
              end;
  ao_children : children_wf st None (av_height a) 31 (av_root_children a);
}.

Lemma active_height st a : store_ok st -> active_ok st a -> is_u32 (av_height a).
Proof.
  intros Hst [Hp _]. destruct (av_parent a) as [p|]; [|rewrite Hp; done]. destruct Hp as (r & Hr & -> & Hle). apply (storage_block_Some st p r (so_rows _ Hst)) in Hr as [Hin _].
  destruct (rk_height _ _ (so_row _ Hst r Hin)). split; lia.
Qed.

Lemma active_jumps st a : store_ok st -> active_ok st a ->
  exists jumps roots, jumps_for st (av_parent a) (av_height a) = Some (Ok jumps) /\ ancestor_roots_for st jumps = Ok roots /\
  match av_parent a with
  | Some p => exists r, storage_block st p = Some r /\ forall k, jumps !! k = if 2 ^ Z.of_nat k <=? av_height a then above st r (2 ^ k) else None
  | None => jumps = []
  end.
Proof.
  intros Hst [Hp _]. destruct (av_parent a) as [p|]; [|by exists [], []]. destruct Hp as (r & Hr & Hh & Hle). pose proof Hr as Hr'. apply (storage_block_Some st p r (so_rows _ Hst)) in Hr' as [Hin Hrh].
  destruct (jumps_for_spec st r Hst Hin ltac:(lia)) as (jumps & Hj & Hk). rewrite Hrh, <- Hh in Hj. rewrite <- Hh in Hk.
  destruct (collect_each (fun block => match storage_block st block with Some r => Ok (row_root r) | None => Err UnknownVersion end) jumps) as [roots Hroots].
  - intros x Hx. apply list_elem_of_lookup in Hx as [k Hx]. rewrite Hk in Hx. destruct (Z.leb_spec (2 ^ Z.of_nat k) (av_height a)); [|done]. unfold above in Hx.
    assert (Hpos : 0 < 2 ^ Z.of_nat k) by (apply Z.pow_pos_nonneg; lia). pose proof (pow2_nat k).
    destruct (store_ancestor st r (2 ^ k - 1) Hst Hin ltac:(lia)) as (q & Hq & Hqin & _). rewrite Hq in Hx. injection Hx as <-.
    rewrite (proj2 (storage_block_Some st _ q (so_rows _ Hst)) (conj Hqin eq_refl)). by eexists.
  - exists jumps, roots. split; [done|]. split; [done|]. by exists r.
Qed.

(** The rows a reservation and its completion leave. *)
Lemma complete_rows st row id root content node : (forall r, r ∈ st_blocks st -> row_id r <> id) -> row_id row = id ->
  map (fun r => if row_id r =? id then mkRow (row_id r) (row_hash r) (row_parent r) (row_height r) root content node (row_jumps r) else r) (st_blocks st ++ [row]) =
  st_blocks st ++ [mkRow id (row_hash row) (row_parent row) (row_height row) root content node (row_jumps row)].
Proof.
  intros Hf <-. rewrite map_app. cbn. rewrite Z.eqb_refl. f_equal. rewrite <- (map_id (st_blocks st)) at 2. apply map_ext_in. intros r Hr. rewrite (proj2 (Z.eqb_neq _ _)); [done|]. by apply Hf, list_elem_of_In.
Qed.

(** A sealed state: it is the only new one, and holds what was being written. *)
Record sealed_as (st st' : TrieStorage) (a : ActiveVersion) (block : MarfBlockId) (root : TrieHash) (row : BlockRow) : Prop := {
  sa_store : store_ok st';
  sa_more : one_more st st' row;
  sa_hash : row_hash row = block;
  sa_height : row_height row = av_height a;
  sa_root : row_root row = root;
  sa_parent : row_parent row = (p ← av_parent a; row_id <$> storage_block st p);
  sa_contents : exists cs, root_children_of st' row cs /\ forall q, length q = 32%nat -> children_lookup st' cs q = children_lookup st (av_root_children a) q;
}.

Lemma write_sealed_spec st block a : store_ok st -> active_ok st a -> storage_block st block = None ->
  exists content roots, hash_children st Node256 [] (av_root_children a) = Some (Ok content) /\ ancestor_roots st (av_parent a) (av_height a) = Some (Ok roots) /\
  (write_sealed st block a = Some (Err HeightOverflow) \/ write_sealed st block a = Some (Err (Storage IdentifierOverflow)) \/
   exists st' row, write_sealed st block a = Some (Ok (state_root content roots, st')) /\ sealed_as st st' a block (state_root content roots) row).
Proof.
  intros Hst Ha Hnew. destruct (active_jumps st a Hst Ha) as (jumps & roots & Hj & Hroots & Hjk). pose proof (active_height st a Hst Ha) as Hu. pose proof (so_sequence _ Hst) as Hseq.
  unfold write_sealed. rewrite Hj, Hroots. unfold reserve_block. rewrite Hnew. set (id := st_sequence st + 1). set (parent := mbind _ (av_parent a)). set (row0 := mkRow id block parent _ _ _ _ _).
  set (reserved := mkStorage _ (st_nodes st) id). assert (M0 : one_more st reserved row0) by (by split). pose proof (new_extends st reserved row0 Hst M0) as Hex0.
  assert (Hcs : children_wf reserved None (av_height a) 31 (av_root_children a)) by (by apply (children_wf_extends st reserved), Ha).
  assert (Hw : id <= U32_MAX -> writing id (av_height a) reserved 0).
  { intros Hid. split; [exists row0; split; [by apply (new_row_found st reserved row0)|done]|split; destruct Hseq; lia|done|]. intros i Hi. destruct (st_nodes reserved !! (id, i)) as [v|] eqn:Hv; [|done].
    destruct (so_nodes _ Hst _ _ Hv) as (r & Hin & Hrid). by destruct (new_row_fresh st reserved row0 Hst M0 r Hin). }
  destruct (hash_children_ok st (av_height a) _ (ao_children _ _ Ha)) as [content Hc]. exists content, roots. split; [done|]. split; [unfold ancestor_roots; by rewrite Hj, Hroots|]. destruct (Z.ltb_spec U32_MAX id) as [Hover|Hid]; [by right; left|].
  destruct (persist_root_spec id (av_height a) reserved 0 _ (Hw Hid) Hcs) as (content' & Hc' & Hp). assert (content' = content) as -> by (specialize (Hc st); specialize (Hc' st); congruence).
  destruct Hp as [->|(index & written & next' & cs' & -> & Hwrote & Hn & Hcs' & Hl)]; [by left|]. right. right. set (root := state_root content roots).
  set (row := mkRow id block parent (av_height a) root content (Some index) jumps). exists (complete_block written id root content (Some index)), row. split; [done|].
  set (st' := complete_block _ _ _ _ _). assert (Hblocks : st_blocks st' = st_blocks st ++ [row]).
  { cbn. rewrite (wo_blocks _ _ _ _ _ _ Hwrote). apply complete_rows; [|done]. intros r Hr. by apply (new_row_fresh st reserved row0 Hst M0). }
  assert (M : one_more st st' row) by (split; [done|done|apply (wo_sequence _ _ _ _ _ _ Hwrote)|done|apply (ex_nodes _ _ (wo_extends _ _ _ _ _ _ Hwrote))]).
  assert (Hex : extends written st').
  { split; [|done]. intros i r Hr. unfold id_row in Hr. rewrite (wo_blocks _ _ _ _ _ _ Hwrote) in Hr. change (id_row reserved i = Some r) in Hr.
    apply (id_row_Some reserved i r (new_rows_ok st reserved row0 Hst M0)) in Hr as [Hin Hri]. apply (new_elem st reserved row0 M0) in Hin as [Hin|Hin].
    - exists r. split; [|done]. apply (new_old_row st st' row Hst M). by apply id_row_Some; [apply Hst|].
    - exists row. subst r i. split; [by apply (new_row_found st st' row Hst M)|done]. }
  assert (Hroot : root_children_of st' row cs').
  { exists index. split; [done|]. split; [by apply (storage_node_extends written)|by apply (children_wf_extends written)]. }
  split; [|done..|].
  - apply (new_store_ok st st' row Hst M). split; [done|done| |by exists cs'|apply (wo_owner _ _ _ _ _ _ Hwrote)].
    cbn [row_parent row_height row_jumps row]. unfold parent. pose proof (ao_parent _ _ Ha) as Hp. destruct (av_parent a) as [p|]; cbn [mbind option_bind]; [|done].
    destruct Hp as (r & Hr & Hh & Hle), Hjk as (r' & Hr' & Hk). assert (r' = r) as -> by congruence. rewrite Hr. exists r. split; [|done].
    apply (storage_block_Some st p r (so_rows _ Hst)) in Hr as [Hin _]. by apply id_row_Some; [apply Hst|].
  - exists cs'. split; [done|]. intros q Hq. rewrite (children_lookup_extends written st' _ _ 31 cs' q Hex Hcs' Hq), Hl by done. apply (children_lookup_extends st reserved None (av_height a) 31 _ q Hex0 (ao_children _ _ Ha) Hq).
Qed.

End Seal.
