(* ===== verification/MarfRefinement.v ===== *)
(** * What the MARF promises

    [MarfSpec] is the contract: a sealed state is a map from paths to values with
    a parent, a height and a root; one more may be in the making. The tables, the
    tries and the skip list of [VersionedMarf] implement it.

    And the leaves of a state, and its tip. *)

From stdpp Require Import gmap sorting.
From S2P Require Import Prelude Primitives Crypto MarfTrie MarfVersions MarfTheorems MarfSealing MarfTables.

(** ** Operations *)

Inductive MarfOp : Type :=
| Begin (parent : option MarfBlockId) (block : MarfBlockId)
| InsertPath (path value : list byte)
| SealTo (block : MarfBlockId)
| Seal
| Abort
| DiscardAbove (height : Z).

Inductive MarfReply : Type :=
| Done (r : result MarfError unit)
| Root (r : result MarfError TrieHash)
| Removed (r : result MarfError Z).

(** The types of the arguments: 32-byte blocks and paths, 40-byte values. *)
Definition op_typed (op : MarfOp) : Prop :=
  match op with
  | Begin parent block => (forall p, parent = Some p -> length p = 32%nat) /\ length block = 32%nat
  | InsertPath path value => length path = 32%nat /\ length value = 40%nat
  | SealTo block => length block = 32%nat
  | Seal | Abort => True
  | DiscardAbove height => is_u32 height
  end.

(** ** The contract *)

Module MarfSpec.
Section Contract.
Context `{H : Hashes}.

Record Version : Type := mkVersion { v_contents : gmap (list byte) (list byte); v_parent : option MarfBlockId; v_height : Z; v_root : TrieHash }.

Record Draft : Type := mkDraft { d_block : MarfBlockId; d_parent : option MarfBlockId; d_height : Z; d_contents : gmap (list byte) (list byte) }.

Record t : Type := mkSpec { sealed : gmap (list byte) Version; draft : option Draft }.

Definition new : t := mkSpec ∅ None.

(** What each state says of the heights it knows. *)
Definition metadata (parent : option MarfBlockId) (block : MarfBlockId) (height : Z) : list (list byte * list byte) :=
  [(OWN_BLOCK_HEIGHT_KEY, MarfValue.from_u32 height); (height_key height, MarfValue.from_block_id block); (hash_key block, MarfValue.from_u32 height)] ++
  match parent with
  | Some parent => [(height_key (height - 1), MarfValue.from_block_id parent); (hash_key parent, MarfValue.from_u32 (height - 1))]
  | None => []
  end.

Definition write_all (contents : gmap (list byte) (list byte)) (entries : list (list byte * list byte)) : gmap (list byte) (list byte) :=
  fold_left (fun m e => <[key_path e.1 := e.2]> m) entries contents.

Definition begin (s : t) (parent : option MarfBlockId) (block : MarfBlockId) : result MarfError unit * t :=
  if decide (is_Some (draft s)) then (Err WriteInProgress, s)
  else if decide (is_Some (sealed s !! block)) then (Err VersionAlreadyExists, s)
  else
    let start (contents : gmap (list byte) (list byte)) height :=
      (Ok tt, mkSpec (sealed s) (Some (mkDraft block parent height (write_all contents (metadata parent block height))))) in
    match parent with
    | None => start ∅ 0
    | Some p =>
        match sealed s !! p with
        | None => (Err UnknownVersion, s)
        | Some v => if v_height v =? U32_MAX then (Err HeightOverflow, s) else start (v_contents v) (v_height v + 1)
        end
    end.

Definition insert_path (s : t) (path value : list byte) : result MarfError unit * t :=
  match draft s with
  | None => (Err WriteNotBegun, s)
  | Some d => (Ok tt, mkSpec (sealed s) (Some (mkDraft (d_block d) (d_parent d) (d_height d) (<[path := value]> (d_contents d)))))
  end.

(** The root is left to the implementation. *)
Definition seal_to (s : t) (block : MarfBlockId) (root : TrieHash) : result MarfError TrieHash * t :=
  if decide (is_Some (sealed s !! block)) then (Err VersionAlreadyExists, s)
  else match draft s with
       | None => (Err WriteNotBegun, s)
       | Some d => (Ok root, mkSpec (<[block := mkVersion (d_contents d) (d_parent d) (d_height d) root]> (sealed s)) None)
       end.

Definition abort (s : t) : result MarfError unit * t :=
  match draft s with None => (Err WriteNotBegun, s) | Some _ => (Ok tt, mkSpec (sealed s) None) end.

Definition discard_above (s : t) (height : Z) : result MarfError Z * t :=
  if decide (is_Some (draft s)) then (Err WriteInProgress, s)
  else (Ok (Z.of_nat (size (filter (fun kv : _ * Version => height < v_height kv.2) (sealed s)))),
        mkSpec (filter (fun kv : _ * Version => v_height kv.2 <= height) (sealed s)) None).

(** Sealing may find that the table is full: then nothing changes. *)
Inductive seals (s : t) (block : MarfBlockId) : MarfReply -> t -> Prop :=
| seals_to root : seals s block (Root (seal_to s block root).1) (seal_to s block root).2
| seals_full e : e = HeightOverflow \/ e = Storage IdentifierOverflow -> is_Some (draft s) -> sealed s !! block = None -> seals s block (Root (Err e)) s.

Inductive step (s : t) : MarfOp -> MarfReply -> t -> Prop :=
| step_begin parent block : step s (Begin parent block) (Done (begin s parent block).1) (begin s parent block).2
| step_insert path value : step s (InsertPath path value) (Done (insert_path s path value).1) (insert_path s path value).2
| step_seal_to block r s' : seals s block r s' -> step s (SealTo block) r s'
| step_seal d r s' : draft s = Some d -> seals s (d_block d) r s' -> step s Seal r s'
| step_seal_none : draft s = None -> step s Seal (Root (Err WriteNotBegun)) s
| step_abort : step s Abort (Done (abort s).1) (abort s).2
| step_discard height : step s (DiscardAbove height) (Removed (discard_above s height).1) (discard_above s height).2.

Inductive runs : t -> list MarfOp -> list MarfReply -> t -> Prop :=
| runs_nil s : runs s [] [] s
| runs_cons s op r s' ops rs s'' : step s op r s' -> runs s' ops rs s'' -> runs s (op :: ops) (r :: rs) s''.

(** ** Reading *)

Definition get (s : t) (block path : list byte) : option (list byte) := v ← sealed s !! block; v_contents v !! path.
Definition get_active (s : t) (path : list byte) : option (list byte) := d ← draft s; d_contents d !! path.

Fixpoint ancestor (s : t) (block : MarfBlockId) (distance : nat) : option MarfBlockId :=
  match distance with O => Some block | S d => v ← sealed s !! block; p ← v_parent v; ancestor s p d end.

Definition block_at_height (s : t) (block : MarfBlockId) (height : Z) : option MarfBlockId :=
  v ← sealed s !! block; if v_height v <? height then None else ancestor s block (Z.to_nat (v_height v - height)).

End Contract.
End MarfSpec.

(** ** The implementation *)

Section Refinement.
Context `{H : Hashes} `{!HashesOk}.

Definition marf_step (m : VersionedMarf.t) (op : MarfOp) : option (MarfReply * VersionedMarf.t) :=
  match op with
  | Begin parent block => '(r, m) ← VersionedMarf.begin m parent block; Some (Done r, m)
  | InsertPath path value => '(r, m) ← VersionedMarf.insert_path m path value; Some (Done r, m)
  | SealTo block => '(r, m) ← VersionedMarf.seal_to m block; Some (Root r, m)
  | Seal => '(r, m) ← VersionedMarf.seal m; Some (Root r, m)
  | Abort => let (r, m) := VersionedMarf.abort m in Some (Done r, m)
  | DiscardAbove height => let (r, m) := VersionedMarf.discard_above m height in Some (Removed r, m)
  end.

Fixpoint marf_run (m : VersionedMarf.t) (ops : list MarfOp) : option (list MarfReply * VersionedMarf.t) :=
  match ops with
  | [] => Some ([], m)
  | op :: ops => '(r, m) ← marf_step m op; '(rs, m) ← marf_run m ops; Some (r :: rs, m)
  end.

(** Every read answers as the contract says, and ends. *)
Record observes (m : VersionedMarf.t) (s : MarfSpec.t) : Prop := {
  ob_get : forall block path, length path = 32%nat -> VersionedMarf.get_path m block path = Some (Ok (MarfSpec.get s block path));
  ob_active : forall path, length path = 32%nat -> VersionedMarf.get_active_path m path = Some (Ok (MarfSpec.get_active s path));
  ob_contains : forall block, VersionedMarf.contains m block = bool_decide (is_Some (MarfSpec.sealed s !! block));
  ob_root : forall block, VersionedMarf.root m block = MarfSpec.v_root <$> MarfSpec.sealed s !! block;
  ob_height : forall block, VersionedMarf.height m block = MarfSpec.v_height <$> MarfSpec.sealed s !! block;
  ob_parent : forall block, VersionedMarf.parent m block = Ok (MarfSpec.v_parent <$> MarfSpec.sealed s !! block);
  ob_at_height : forall block height, 0 <= height -> VersionedMarf.block_at_height m block height = Some (Ok (MarfSpec.block_at_height s block height));
}.

(** ** The relation *)

Definition holds (st : TrieStorage) (cs : list TrieChild) (contents : gmap (list byte) (list byte)) : Prop :=
  forall q, length q = 32%nat -> children_lookup st cs q = contents !! q.

Record version_rel (st : TrieStorage) (r : BlockRow) (v : MarfSpec.Version) : Prop := {
  vr_height : row_height r = MarfSpec.v_height v;
  vr_root : row_root r = MarfSpec.v_root v;
  vr_parent : row_hash <$> parent_row st r = MarfSpec.v_parent v;
  vr_contents : exists cs, root_children_of st r cs /\ holds st cs (MarfSpec.v_contents v);
}.

Record draft_rel (st : TrieStorage) (a : VersionedMarf.ActiveVersion) (d : MarfSpec.Draft) : Prop := {
  dr_ok : active_ok st a;
  dr_block : VersionedMarf.av_block a = MarfSpec.d_block d;
  dr_parent : VersionedMarf.av_parent a = MarfSpec.d_parent d;
  dr_height : VersionedMarf.av_height a = MarfSpec.d_height d;
  dr_contents : holds st (VersionedMarf.av_root_children a) (MarfSpec.d_contents d);
}.

Record implements (m : VersionedMarf.t) (s : MarfSpec.t) : Prop := {
  im_store : store_ok (VersionedMarf.vm_storage m);
  im_sealed : forall block, option_Forall2 (version_rel (VersionedMarf.vm_storage m)) (storage_block (VersionedMarf.vm_storage m) block) (MarfSpec.sealed s !! block);
  im_draft : option_Forall2 (draft_rel (VersionedMarf.vm_storage m)) (VersionedMarf.vm_active m) (MarfSpec.draft s);
}.

Lemma implements_new : implements VersionedMarf.new MarfSpec.new.
Proof.
  split; [|intros block; cbn; rewrite lookup_empty; constructor|constructor]. split; [split; constructor|done|intros r Hr; by apply elem_of_nil in Hr|intros k v Hk; cbn in Hk; by rewrite lookup_empty in Hk].
Qed.

(** ** Reads *)

Section Reads.
Context (m : VersionedMarf.t) (s : MarfSpec.t) (R : implements m s).

Notation st := (VersionedMarf.vm_storage m).

Lemma row_version block r : storage_block st block = Some r -> r ∈ st_blocks st /\ row_hash r = block /\ exists v, MarfSpec.sealed s !! block = Some v /\ version_rel st r v.
Proof using R.
  intros Hr. pose proof (im_sealed _ _ R block) as Hs. rewrite Hr in Hs. inversion Hs as [? v Hv Hx Hy|]; subst. apply (storage_block_Some st block r (so_rows _ (im_store _ _ R))) in Hr as [Hin Hh].
  split; [done|]. split; [done|]. by exists v.
Qed.

Lemma no_version block : storage_block st block = None -> MarfSpec.sealed s !! block = None.
Proof using R. intros Hr. pose proof (im_sealed _ _ R block) as Hs. rewrite Hr in Hs. by inversion Hs. Qed.

Lemma no_row block : MarfSpec.sealed s !! block = None -> storage_block st block = None.
Proof using R. intros Hr. pose proof (im_sealed _ _ R block) as Hs. rewrite Hr in Hs. by inversion Hs. Qed.

Lemma ancestor_rel r d : r ∈ st_blocks st -> row_hash <$> ancestor st r d = MarfSpec.ancestor s (row_hash r) d.
Proof using R.
  revert r. induction d as [|d IH]; intros r Hr; [done|]. cbn [ancestor MarfSpec.ancestor].
  destruct (row_version (row_hash r) r) as (_ & _ & v & -> & Hv); [by apply storage_block_Some; [apply R|]|]. cbn [mbind option_bind]. rewrite <- (vr_parent _ _ _ Hv).
  destruct (parent_row st r) as [p|] eqn:Hp; [|done]. cbn. apply IH. unfold parent_row in Hp. destruct (row_parent r) as [id|]; [|done]. by apply (id_row_Some st id p (so_rows _ (im_store _ _ R))).
Qed.

Lemma at_height_rel block height : 0 <= height -> VersionedMarf.block_at_height m block height = Some (Ok (MarfSpec.block_at_height s block height)).
Proof using R.
  intros Hh. unfold VersionedMarf.block_at_height, MarfSpec.block_at_height. destruct (storage_block st block) as [r|] eqn:Hr; [|by rewrite (no_version _ Hr)].
  destruct (row_version _ _ Hr) as (Hin & Hrh & v & -> & Hv). cbn [mbind option_bind]. rewrite <- (vr_height _ _ _ Hv). destruct (Z.ltb_spec (row_height r) height) as [Hlt|Hge].
  - cbn [VersionedMarf.descend_to]. rewrite (proj2 (Z.ltb_ge _ _)) by lia. by rewrite (proj2 (Z.eqb_neq _ _)) by lia.
  - destruct (rk_height _ _ (so_row _ (im_store _ _ R) r Hin)) as [_ Hu]. rewrite (descend_to_spec st r height 32); [|apply R|done|lia|unfold U32_MAX in Hu; cbn; lia|lia].
    by rewrite ancestor_rel, Hrh.
Qed.

Lemma get_path_rel block path : length path = 32%nat -> VersionedMarf.get_path m block path = Some (Ok (MarfSpec.get s block path)).
Proof using R.
  intros Hp. unfold VersionedMarf.get_path, VersionedMarf.sealed_root, MarfSpec.get. destruct (storage_block st block) as [r|] eqn:Hr; [|by rewrite (no_version _ Hr)].
  destruct (row_version _ _ Hr) as (Hin & Hrh & v & -> & Hv). destruct (vr_contents _ _ _ Hv) as (cs & (i & -> & -> & Hcs) & Hl). cbn [mbind option_bind]. rewrite Hp, (root_get_spec _ _ _ _ _ Hcs Hp). by rewrite Hl.
Qed.

Lemma implements_observes : observes m s.
Proof using R.
  split.
  - apply get_path_rel.
  - intros path Hp. unfold VersionedMarf.get_active_path, MarfSpec.get_active. destruct (im_draft _ _ R) as [a d Hd|]; [|done]. cbn [mbind option_bind].
    rewrite (find_path_spec _ _ _ _ _ (ao_children _ _ (dr_ok _ _ _ Hd)) Hp). by rewrite (dr_contents _ _ _ Hd).
  - intros block. unfold VersionedMarf.contains. by destruct (im_sealed _ _ R block).
  - intros block. unfold VersionedMarf.root. destruct (im_sealed _ _ R block) as [r v Hv|]; [|done]. cbn. by rewrite (vr_root _ _ _ Hv).
  - intros block. unfold VersionedMarf.height. destruct (im_sealed _ _ R block) as [r v Hv|]; [|done]. cbn. by rewrite (vr_height _ _ _ Hv).
  - intros block. unfold VersionedMarf.parent. destruct (storage_block st block) as [r|] eqn:Hr; [|by rewrite (no_version _ Hr)]. destruct (row_version _ _ Hr) as (Hin & _ & v & -> & Hv).
    cbn [fmap option_fmap option_map]. rewrite <- (vr_parent _ _ _ Hv). pose proof (rk_linked _ _ (so_row _ (im_store _ _ R) r Hin)) as Hl. unfold parent_row, linked in *. destruct (row_parent r) as [id|]; [|done].
    cbn. destruct Hl as (p & Hp & _). rewrite block_hash_row, Hp. done.
  - apply at_height_rel.
Qed.

End Reads.

(** ** Writing *)

Lemma key_path_length key : length (key_path key) = 32%nat.
Proof. destruct key; [done|]. apply sha512_256_length. Qed.

Lemma insert_entries_spec st top cs contents entries : children_wf st None top 31 cs -> holds st cs contents -> Forall (fun e => length e.2 = 40%nat) entries ->
  exists cs', insert_entries st cs entries = Some (Ok cs') /\ children_wf st None top 31 cs' /\ holds st cs' (MarfSpec.write_all contents entries).
Proof.
  intros Hcs Hl HF. revert cs contents Hcs Hl. induction HF as [|[k x] entries Hx _ IH]; intros cs contents Hcs Hl; [by exists cs|]. cbn [insert_entries].
  destruct (insert_under_root_spec st top cs (key_path k) x Hcs (key_path_length k) Hx) as (cs1 & -> & Hcs1 & Hl1). cbn [mbind option_bind].
  apply IH; [done|]. intros q Hq. rewrite (Hl1 q Hq). cbn. case_decide as Hd; [subst q; by rewrite lookup_insert_eq|]. rewrite lookup_insert_ne by done. by apply Hl.
Qed.

Lemma metadata_keys parent block height : (forall p, parent = Some p -> 1 <= height) -> height_keys parent block height = Some (MarfSpec.metadata parent block height).
Proof.
  intros Hp. unfold height_keys, MarfSpec.metadata. destruct parent as [p|]; [|done]. unfold checked_sub. specialize (Hp p eq_refl). rewrite (proj2 (Z.leb_le _ _)) by lia. done.
Qed.

Lemma metadata_typed parent block height : (forall p, parent = Some p -> length p = 32%nat) -> length block = 32%nat ->
  Forall (fun e => length e.2 = 40%nat) (MarfSpec.metadata parent block height).
Proof.
  intros Hp Hb. unfold MarfSpec.metadata, MarfValue.from_u32, MarfValue.from_block_id, zeroes. destruct parent as [p|]; [specialize (Hp p eq_refl)|];
    repeat constructor; cbn [snd]; rewrite length_app, length_replicate, ?length_le_bytes; lia.
Qed.

Lemma implements_draft m s a d : implements m s -> draft_rel (VersionedMarf.vm_storage m) a d ->
  implements (VersionedMarf.mkMarf (VersionedMarf.vm_storage m) (Some a)) (MarfSpec.mkSpec (MarfSpec.sealed s) (Some d)).
Proof. intros [Hst Hs _] Hd. split; [done|done|by constructor]. Qed.

Lemma begin_refines m s parent block : implements m s -> op_typed (Begin parent block) ->
  exists m', VersionedMarf.begin m parent block = Some ((MarfSpec.begin s parent block).1, m') /\ implements m' (MarfSpec.begin s parent block).2.
Proof.
  intros R [Hpt Hbt]. unfold VersionedMarf.begin, MarfSpec.begin. set (st := VersionedMarf.vm_storage m). pose proof (im_draft _ _ R) as Hd. destruct (VersionedMarf.vm_active m) as [a|].
  { exists m. inversion Hd as [? ? ? Ha Hb|]. rewrite decide_True by (by eexists). done. }
  inversion Hd as [|Ha Hb]. rewrite decide_False by (intros [? ?]; congruence). destruct (storage_block st block) as [r|] eqn:Hblock.
  { exists m. destruct (row_version m s R _ _ Hblock) as (_ & _ & v & Hv & _). rewrite decide_True by (by eexists). done. }
  rewrite decide_False by (rewrite (no_version m s R _ Hblock); intros [? ?]; done).
  assert (Hfinish : forall cs contents height, children_wf st None height 31 cs -> holds st cs contents -> (forall p, parent = Some p -> 1 <= height) ->
    match parent with Some p => exists r, storage_block st p = Some r /\ height = row_height r + 1 /\ height <= U32_MAX | None => height = 0 end ->
    exists cs', insert_metadata st cs parent block height = Some (Ok cs') /\
      implements (VersionedMarf.mkMarf st (Some (VersionedMarf.mkActive block parent height cs')))
        (MarfSpec.mkSpec (MarfSpec.sealed s) (Some (MarfSpec.mkDraft block parent height (MarfSpec.write_all contents (MarfSpec.metadata parent block height)))))).
  { intros cs contents height Hcs Hl Hp Hpar. unfold insert_metadata. rewrite (metadata_keys parent block height Hp). cbn [mbind option_bind].
    destruct (insert_entries_spec st height cs contents _ Hcs Hl (metadata_typed parent block height Hpt Hbt)) as (cs' & -> & Hcs' & Hl'). exists cs'. split; [done|].
    apply implements_draft; [done|]. by split. }
  destruct parent as [p|].
  - destruct (storage_block st p) as [r|] eqn:Hr; cbn [or_err]; [|exists m; by rewrite (no_version m s R _ Hr)]. destruct (row_version m s R _ _ Hr) as (Hin & Hrh & v & -> & Hv).
    destruct (vr_contents _ _ _ Hv) as (cs & (i & Hi & Hn & Hcs) & Hl). fold st in Hn, Hcs, Hl. unfold extend_root. rewrite Hi, Hn. rewrite <- (vr_height _ _ _ Hv). unfold checked_add.
    destruct (rk_height _ _ (so_row _ (im_store _ _ R) r Hin)) as [Hlo Hhi]. destruct (Z.eqb_spec (row_height r) U32_MAX) as [Hmax|Hne].
    + rewrite (proj2 (Z.leb_gt _ _)) by lia. by exists m.
    + rewrite (proj2 (Z.leb_le _ _)) by lia. cbn [or_err]. rewrite Hrh.
      destruct (Hfinish (prepare_children p cs) (MarfSpec.v_contents v) (row_height r + 1)) as (cs' & -> & Him); [|intros q Hq; rewrite prepare_lookup; by apply Hl|intros; lia|exists r; split; [done|lia]|].
      * rewrite <- Hrh. eapply prepared_children; [|lia|exact Hcs]. by apply id_row_Some; [apply R|].
      * cbn [mbind option_bind]. eexists. by split.
  - destruct (Hfinish [] ∅ 0) as (cs' & -> & Him); [split; [constructor|intros c Hc; by apply elem_of_nil in Hc|intros c node Hc; by apply elem_of_nil in Hc]| |done|done|].
    + intros q Hq. rewrite lookup_empty. by destruct q.
    + cbn [mbind option_bind]. eexists. by split.
Qed.

Lemma insert_refines m s path value : implements m s -> op_typed (InsertPath path value) ->
  exists m', VersionedMarf.insert_path m path value = Some ((MarfSpec.insert_path s path value).1, m') /\ implements m' (MarfSpec.insert_path s path value).2.
Proof.
  intros R [Hp Hx]. unfold VersionedMarf.insert_path, MarfSpec.insert_path. destruct (im_draft _ _ R) as [a d Hd|]; [|by exists m].
  destruct (insert_under_root_spec _ _ _ path value (ao_children _ _ (dr_ok _ _ _ Hd)) Hp Hx) as (cs' & -> & Hcs' & Hl'). cbn [mbind option_bind]. eexists. split; [done|].
  apply implements_draft; [done|]. destruct Hd as [[Hpar Hcs] Hb Hpa Hh Hl]. split; [by split|done..|]. intros q Hq. cbn. rewrite (Hl' q Hq).
  case_decide as Hqp; [subst q; by rewrite lookup_insert_eq|]. rewrite lookup_insert_ne by done. by apply Hl.
Qed.

Lemma abort_refines m s : implements m s -> exists m', VersionedMarf.abort m = ((MarfSpec.abort s).1, m') /\ implements m' (MarfSpec.abort s).2.
Proof.
  intros R. unfold VersionedMarf.abort, MarfSpec.abort. pose proof R as [Hst Hs Hd]. destruct Hd as [a d Hd|]; [|by exists m]. eexists. split; [done|]. split; [done|done|constructor].
Qed.

(** A state that was there is as it was. *)
Lemma version_rel_more st st' row r v : store_ok st -> one_more st st' row -> r ∈ st_blocks st -> version_rel st r v -> version_rel st' r v.
Proof.
  intros Hst M Hr [Hh Hroot Hp (cs & Hcs & Hl)]. split; [done|done|by rewrite (new_parent_row st st' row Hst M r Hr)|]. exists cs. split; [by apply (new_root st st' row)|].
  intros q Hq. destruct Hcs as (i & _ & _ & Hcs). rewrite (children_lookup_extends st st' _ _ 31 cs q (new_extends st st' row Hst M) Hcs Hq). by apply Hl.
Qed.

Lemma sealed_rel st st' a d block root row : store_ok st -> draft_rel st a d -> sealed_as st st' a block root row ->
  version_rel st' row (MarfSpec.mkVersion (MarfSpec.d_contents d) (MarfSpec.d_parent d) (MarfSpec.d_height d) root).
Proof.
  intros Hst Hd Hsa. destruct Hd as [Hok Hb Hp Hh Hl]. pose proof (sa_more _ _ _ _ _ _ Hsa) as M. split; cbn.
  - by rewrite (sa_height _ _ _ _ _ _ Hsa).
  - apply (sa_root _ _ _ _ _ _ Hsa).
  - rewrite <- Hp. unfold parent_row. rewrite (sa_parent _ _ _ _ _ _ Hsa). pose proof (ao_parent _ _ Hok) as Hpar. destruct (VersionedMarf.av_parent a) as [p|]; [|done].
    cbn. destruct Hpar as (r & Hr & _). rewrite Hr. cbn. apply (storage_block_Some st p r (so_rows _ Hst)) in Hr as [Hin Hrh].
    rewrite (new_old_row st st' row Hst M (row_id r) r); [cbn; by rewrite Hrh|]. by apply id_row_Some; [apply Hst|].
  - destruct (sa_contents _ _ _ _ _ _ Hsa) as (cs & Hcs & Hl'). exists cs. split; [done|]. intros q Hq. rewrite (Hl' q Hq). by apply Hl.
Qed.

Lemma seal_to_refines m s block : implements m s ->
  exists r m' s', VersionedMarf.seal_to m block = Some (r, m') /\ MarfSpec.seals s block (Root r) s' /\ implements m' s' /\
    forall root, r = Ok root -> VersionedMarf.pending_root m = Some (Ok root).
Proof.
  intros R. unfold VersionedMarf.seal_to, VersionedMarf.pending_root. pose proof (MarfSpec.seals_to s block []) as Hseals. unfold MarfSpec.seal_to in Hseals. destruct (storage_block _ block) as [r|] eqn:Hr.
  { destruct (row_version m s R _ _ Hr) as (_ & _ & v & Hv & _). rewrite decide_True in Hseals by (by eexists). exists (Err VersionAlreadyExists), m, s. by split. }
  pose proof (no_version m s R _ Hr) as Hnv. assert (Hns : ~ is_Some (MarfSpec.sealed s !! block)) by (rewrite Hnv; by intros [? ?]). rewrite decide_False in Hseals by done.
  pose proof R as [Hst Hsealed Hdraft]. inversion Hdraft as [a d Hd Ha Hb|Ha Hb].
  - destruct (write_sealed_spec _ block a Hst (dr_ok _ _ _ Hd) Hr) as (content & roots & Hc & Hroots & Hw).
    destruct Hw as [Hw|[Hw|(st' & row & Hw & Hsa)]]; rewrite Hw; cbn [mbind option_bind].
    + exists (Err HeightOverflow), m, s. split; [done|]. split; [|done]. constructor; [by left|by rewrite <- Hb; eexists|done].
    + exists (Err (Storage IdentifierOverflow)), m, s. split; [done|]. split; [|done]. constructor; [by right|by rewrite <- Hb; eexists|done].
    + set (root := state_root content roots) in *. exists (Ok root), (VersionedMarf.mkMarf st' None), (MarfSpec.seal_to s block root).2. split; [done|].
      split; [|split; [|intros x [= <-]; by rewrite Hc, Hroots]].
      * pose proof (MarfSpec.seals_to s block root) as Hseals'. unfold MarfSpec.seal_to in *. rewrite decide_False in * by done. by rewrite <- Hb in *.
      * unfold MarfSpec.seal_to. rewrite decide_False by done. rewrite <- Hb. cbn [snd]. split; [apply Hsa| |constructor]. intros b. cbn. pose proof (sa_more _ _ _ _ _ _ Hsa) as M.
        rewrite (new_block _ st' row Hst M b). rewrite (sa_hash _ _ _ _ _ _ Hsa). case_decide as Hbb.
        -- subst b. rewrite lookup_insert_eq. constructor. by eapply sealed_rel.
        -- rewrite lookup_insert_ne by done. pose proof (Hsealed b) as Hrel. destruct (storage_block (VersionedMarf.vm_storage m) b) as [r|] eqn:Hbr; inversion Hrel as [? v Hv|]; constructor.
           apply (version_rel_more _ st' row r v Hst M); [|done]. by apply (row_version m s R b).
  - rewrite <- Hb in Hseals. exists (Err WriteNotBegun), m, s. by split.
Qed.

Lemma seal_refines m s : implements m s -> exists r m' s', VersionedMarf.seal m = Some (r, m') /\ MarfSpec.step s Seal (Root r) s' /\ implements m' s'.
Proof.
  intros R. unfold VersionedMarf.seal. pose proof (im_draft _ _ R) as Hd. inversion Hd as [a d Hrel Ha Hb|Ha Hb].
  - destruct (seal_to_refines m s (VersionedMarf.av_block a) R) as (r & m' & s' & -> & Hs & Him & _). exists r, m', s'. split; [done|]. split; [|done].
    rewrite (dr_block _ _ _ Hrel) in Hs. by eapply MarfSpec.step_seal.
  - exists (Err WriteNotBegun), m, s. split; [done|]. split; [by constructor|done].
Qed.

(** ** Discarding *)

Lemma version_rel_discard st h r v : store_ok st -> r ∈ st_blocks st -> row_height r <= h -> version_rel st r v -> version_rel (storage_discard_above st h).2 r v.
Proof.
  intros Hst Hr Hh [Hvh Hroot Hp (cs & Hcs & Hl)]. pose proof (discard_kept st h Hst) as K. split; [done|done| |].
  - rewrite (parent_row_kept _ _ _ K r); [done|apply (so_row _ Hst r Hr)|done].
  - assert (Hcs' : root_children_of (storage_discard_above st h).2 r cs) by (apply (root_kept _ _ _ K); [by apply id_row_Some; [apply Hst|]|done|done]). exists cs. split; [done|].
    intros q Hq. rewrite <- Hl by done. destruct Hcs' as (i & _ & _ & Hcs'). symmetry. by apply (children_lookup_extends _ st _ _ 31 cs q (kp_extends _ _ _ K) Hcs').
Qed.

(** The rows and the versions above a height are as many. *)
Lemma discarded_count m s h : implements m s ->
  length (List.filter (fun r => h <? row_height r) (st_blocks (VersionedMarf.vm_storage m))) = size (filter (fun kv : _ * MarfSpec.Version => h < MarfSpec.v_height kv.2) (MarfSpec.sealed s)).
Proof.
  intros R. set (gone := List.filter _ _). destruct (so_rows _ (im_store _ _ R)) as [_ Hnd].
  assert (Hgone : NoDup (map row_hash gone)).
  { eapply sublist_NoDup; [exact Hnd|]. apply (fmap_sublist row_hash). unfold gone. clear. induction (st_blocks _) as [|r l IH]; cbn; [constructor|]. case_match; by constructor. }
  rewrite <- size_dom. rewrite <- (length_map row_hash). rewrite <- (size_list_to_set (C := gset (list byte)) _ Hgone). f_equal. apply set_eq. intros b.
  rewrite elem_of_list_to_set, elem_of_dom. split.
  - intros (r & -> & Hr)%list_elem_of_fmap. apply list_elem_of_In, filter_In in Hr as [Hr Hh]. apply Z.ltb_lt in Hh. apply list_elem_of_In in Hr.
    destruct (row_version m s R (row_hash r) r) as (_ & _ & v & Hv & Hrel); [by apply storage_block_Some; [apply R|]|]. exists v. apply map_lookup_filter_Some. split; [done|]. cbn. by rewrite <- (vr_height _ _ _ Hrel).
  - intros [v (Hv & Hh)%map_lookup_filter_Some]. pose proof (im_sealed _ _ R b) as Hs. rewrite Hv in Hs. inversion Hs as [r ? Hrel Hr|]; subst. symmetry in Hr.
    destruct (row_version m s R _ _ Hr) as (Hin & Hrh & _). apply list_elem_of_fmap. exists r. split; [done|]. apply list_elem_of_In, filter_In. split; [by apply list_elem_of_In|]. apply Z.ltb_lt. by rewrite (vr_height _ _ _ Hrel).
Qed.

Lemma discard_refines m s h : implements m s -> exists m', VersionedMarf.discard_above m h = ((MarfSpec.discard_above s h).1, m') /\ implements m' (MarfSpec.discard_above s h).2.
Proof.
  intros R. unfold VersionedMarf.discard_above, MarfSpec.discard_above. pose proof (im_draft _ _ R) as Hd. inversion Hd as [a d Hrel Ha Hb|Ha Hb].
  - exists m. rewrite decide_True by (by eexists). done.
  - rewrite decide_False by (intros [? ?]; congruence). destruct (storage_discard_above (VersionedMarf.vm_storage m) h) as [n st'] eqn:Hst'.
    exists (VersionedMarf.mkMarf st' None). cbn [fst snd]. split; [|split; cbn].
    + rewrite <- (discarded_count m s h R). unfold storage_discard_above in Hst'. by injection Hst' as <- _.
    + replace st' with (storage_discard_above (VersionedMarf.vm_storage m) h).2 by (by rewrite Hst'). apply discard_ok, R.
    + intros b. replace st' with (storage_discard_above (VersionedMarf.vm_storage m) h).2 by (by rewrite Hst'). rewrite (discard_block _ h (im_store _ _ R)).
      destruct (storage_block (VersionedMarf.vm_storage m) b) as [r|] eqn:Hr; cbn [mbind option_bind].
      * destruct (row_version m s R _ _ Hr) as (Hin & _ & v & Hv & Hrel). rewrite map_lookup_filter, Hv. pose proof (vr_height _ _ _ Hrel). destruct (Z.leb_spec (row_height r) h) as [Hle|Hgt].
        -- cbn. rewrite option_guard_True by (cbn; lia). constructor. by apply version_rel_discard; [apply R| | |].
        -- cbn. rewrite option_guard_False by (cbn; lia). constructor.
      * rewrite map_lookup_filter, (no_version m s R _ Hr). constructor.
    + constructor.
Qed.

Lemma step_refines m s op : implements m s -> op_typed op -> exists r m' s', marf_step m op = Some (r, m') /\ MarfSpec.step s op r s' /\ implements m' s'.
Proof.
  intros R Ht. destruct op as [parent block|path value|block| | |h]; cbn [marf_step].
  - destruct (begin_refines m s parent block R Ht) as (m' & -> & Him). eexists _, m', _. by split; [|split; [constructor|]].
  - destruct (insert_refines m s path value R Ht) as (m' & -> & Him). eexists _, m', _. by split; [|split; [constructor|]].
  - destruct (seal_to_refines m s block R) as (r & m' & s' & -> & Hs & Him & _). eexists _, m', s'. by split; [|split; [constructor|]].
  - destruct (seal_refines m s R) as (r & m' & s' & -> & Hs & Him). by eexists _, m', s'.
  - destruct (abort_refines m s R) as (m' & -> & Him). eexists _, m', _. by split; [|split; [constructor|]].
  - destruct (discard_refines m s h R) as (m' & -> & Him). eexists _, m', _. by split; [|split; [constructor|]].
Qed.

Lemma run_refines m s ops : implements m s -> Forall op_typed ops -> exists rs m' s', marf_run m ops = Some (rs, m') /\ MarfSpec.runs s ops rs s' /\ implements m' s'.
Proof.
  intros R HF. revert m s R. induction HF as [|op ops Hop _ IH]; intros m s R; [exists [], m, s; by split; [|split; [constructor|]]|]. cbn [marf_run].
  destruct (step_refines m s op R Hop) as (r & m1 & s1 & -> & Hs & R1). cbn [mbind option_bind]. destruct (IH m1 s1 R1) as (rs & m2 & s2 & -> & Hrs & R2).
  exists (r :: rs), m2, s2. split; [done|]. split; [by econstructor|done].
Qed.

(** ** Theorems *)

(** C8: whatever sequence of begins, inserts, seals, aborts and discards is run on a
    new MARF, no operation panics or runs out of fuel, each replies as [MarfSpec]
    says, and afterwards every read answers from it: a sealed state is a map that no
    later operation changes, with its parent's contents where it wrote nothing; an
    ancestor is found at every height. *)
Theorem marf_refines ops : Forall op_typed ops ->
  exists rs m s, marf_run VersionedMarf.new ops = Some (rs, m) /\ MarfSpec.runs MarfSpec.new ops rs s /\ observes m s.
Proof. intros HF. destruct (run_refines _ _ ops implements_new HF) as (rs & m & s & Hr & Hs & R). exists rs, m, s. split; [done|]. split; [done|]. by apply implements_observes. Qed.

(** C27: The root seal_to returns is the one pending_root computes from the unsealed
    state without writing anything, and it is the root the sealed state then has:
    hashing the trie in memory and hashing it while its nodes are written agree. *)
Theorem seal_returns_pending_root ops block rs m root m' : Forall op_typed ops -> marf_run VersionedMarf.new ops = Some (rs, m) ->
  VersionedMarf.seal_to m block = Some (Ok root, m') -> VersionedMarf.pending_root m = Some (Ok root) /\ VersionedMarf.root m' block = Some root.
Proof.
  intros HF Hr Hs. destruct (run_refines _ _ ops implements_new HF) as (rs' & m0 & s & Hr' & _ & R). assert (m0 = m) as -> by congruence.
  destruct (seal_to_refines m s block R) as (r & m1 & s' & Hs' & Hspec & R' & Hp). rewrite Hs in Hs'. injection Hs' as <- <-. split; [by apply Hp|].
  rewrite (ob_root _ _ (implements_observes _ _ R')). inversion Hspec as [root' Hroot Hst|]; subst. unfold MarfSpec.seal_to in *. case_decide; [done|].
  destruct (MarfSpec.draft s); [|done]. cbn in *. injection Hroot as ->. by rewrite lookup_insert_eq.
Qed.

End Refinement.

(** * The leaves of a state, and its tip *)

Lemma collect_all_Forall2 {E A B} (f : A -> option (result E B)) (P : A -> B -> Prop) l : (forall a, a ∈ l -> exists b, f a = Some (Ok b) /\ P a b) ->
  exists bs, collect_all f l = Some (Ok bs) /\ Forall2 P l bs.
Proof.
  induction l as [|a l IH]; intros Hf; [by exists []|]. destruct (Hf a) as (b & Hb & Hp); [by left|]. destruct IH as (bs & Hbs & HF); [intros; apply Hf; by right|].
  exists (b :: bs). cbn [collect_all]. rewrite Hb, Hbs. by split; [|constructor].
Qed.

(** The leaves below a node, each under [pre] and the rest of its path. *)
Definition lists (pre : list byte) (n : nat) (lookup : list byte -> option (list byte)) (l : list (list byte * list byte)) : Prop :=
  NoDup l.*1 /\ forall q x, (q, x) ∈ l <-> exists r, q = pre ++ r /\ length r = n /\ lookup r = Some x.

Lemma parts_list st pre m cs parts : NoDup (map ch_character cs) -> Forall2 (fun c => lists (pre ++ [ch_character c]) m (child_lookup st c)) cs parts ->
  lists pre (S m) (children_lookup st cs) (concat parts).
Proof.
  intros Hnd HF. induction HF as [|c l cs parts [Hkeys Hl] _ IH].
  { split; [constructor|]. intros q x. split; [intros Hq; by apply elem_of_nil in Hq|]. intros ([|ch r] & _ & _ & Hr); done. }
  apply NoDup_cons in Hnd as [Hc Hnd]. destruct (IH Hnd) as [Hkeys' Hl']. cbn [concat]. split.
  - rewrite fmap_app. apply NoDup_app. split; [done|]. split; [|done]. intros q Hq Hq'. apply list_elem_of_fmap in Hq as ([q1 x1] & -> & Hq). apply list_elem_of_fmap in Hq' as ([q2 x2] & Hqe & Hq'). cbn in Hqe.
    apply Hl in Hq as (r & Hr & _ & _). apply Hl' in Hq' as ([|ch r'] & Hr' & _ & Hlk); [done|]. rewrite <- Hqe, Hr, <- app_assoc in Hr'. apply app_inv_head in Hr'. injection Hr' as <- _.
    cbn [children_lookup] in Hlk. by rewrite (proj2 (find_child_None (ch_character c) cs) Hc) in Hlk.
  - intros q x. rewrite elem_of_app, Hl, Hl'. split.
    + intros [(r & -> & Hr & Hx)|([|ch r] & -> & Hr & Hx)]; [| done|].
      * exists (ch_character c :: r). split; [by rewrite <- app_assoc|]. split; [cbn; lia|]. cbn [children_lookup find_child]. unfold has_character. by rewrite bool_decide_true.
      * exists (ch :: r). split; [done|]. split; [done|]. cbn [children_lookup find_child] in *. unfold has_character. case_bool_decide as Hch; [subst ch; by rewrite (proj2 (find_child_None _ cs) Hc) in Hx|].
        by destruct (find_child ch cs) as [[i d]|].
    + intros ([|ch r] & -> & Hr & Hx); [done|]. cbn [children_lookup find_child] in Hx. unfold has_character in Hx. case_bool_decide as Hch.
      * left. exists r. subst ch. split; [by rewrite <- app_assoc|]. split; [cbn in Hr; lia|done].
      * right. exists (ch :: r). split; [done|]. split; [done|]. cbn [children_lookup]. by destruct (find_child ch cs) as [[i d]|].
Qed.

Lemma node_leaves_spec st own top n node : node_wf st own top n node -> forall fuel pre, (n < fuel)%nat -> (length pre + n)%nat = 32%nat ->
  exists l, node_leaves st fuel pre node = Some (Ok l) /\ lists pre n (node_lookup st node) l.
Proof.
  induction 1 as [own top lp value Hv|own top m np cs Hlen Hnd Hok Hsub IH]; intros [|fuel] pre Hf Hp; try lia; cbn [node_leaves].
  - rewrite length_app, Hp, Nat.eqb_refl. eexists. split; [done|]. split; [apply NoDup_singleton|]. intros q x. rewrite list_elem_of_singleton. split.
    + intros [= -> ->]. exists lp. rewrite lookup_leaf, decide_True by done. done.
    + intros (r & -> & _ & Hx). rewrite lookup_leaf in Hx. case_decide; [|done]. congruence.
  - destruct (collect_all_Forall2 (fun c => let! node := Some (child_node st c) in node_leaves st fuel (pre ++ np ++ [ch_character c]) node)
      (fun c => lists ((pre ++ np) ++ [ch_character c]) m (child_lookup st c)) cs) as (parts & -> & HF).
    { intros c Hc. destruct (child_resolves _ _ _ _ (Hok c Hc)) as [node Hn]. rewrite Hn. destruct (IH c node Hc Hn fuel (pre ++ np ++ [ch_character c])) as (l & Hl & Hs); [lia|rewrite !length_app; cbn; lia|].
      exists l. split; [done|]. rewrite <- app_assoc. unfold child_lookup. by rewrite Hn. }
    eexists. split; [done|]. destruct (parts_list st (pre ++ np) m cs parts Hnd HF) as [Hk Hl]. split; [done|]. intros q x. rewrite Hl. split.
    + intros (r & -> & Hr & Hx). exists (np ++ r). split; [by rewrite app_assoc|]. split; [rewrite length_app; lia|].
      rewrite (lookup_children st own top (length np + S m)); [|by constructor|rewrite length_app; lia]. by rewrite (proj2 (strip_path_Some np _ r) eq_refl).
    + intros (r & -> & Hr & Hx). rewrite (lookup_children st own top (length np + S m)) in Hx; [|by constructor|done]. destruct (strip_path np r) as [rest|] eqn:Hs; [|done].
      apply strip_path_Some in Hs. subst r. exists rest. split; [by rewrite app_assoc|]. split; [rewrite length_app in Hr; lia|done].
Qed.

Lemma collect_leaves_spec st own top cs : children_wf st own top 31 cs ->
  exists l, VersionedMarf.collect_leaves st cs = Some (Ok l) /\ Sorted (fun a b => bytes_le a.1 b.1) l /\ lists [] 32 (children_lookup st cs) l.
Proof.
  intros [Hnd Hok Hsub]. unfold VersionedMarf.collect_leaves.
  destruct (collect_all_Forall2 (fun c => let! node := Some (child_node st c) in node_leaves st 33 [ch_character c] node) (fun c => lists ([] ++ [ch_character c]) 31 (child_lookup st c)) cs) as (parts & -> & HF).
  { intros c Hc. destruct (child_resolves _ _ _ _ (Hok c Hc)) as [node Hn]. rewrite Hn. destruct (node_leaves_spec _ _ _ _ _ (Hsub c node Hc Hn) 33 [ch_character c]) as (l & Hl & Hs); [lia|done|].
    exists l. split; [done|]. unfold child_lookup. by rewrite Hn. }
  eexists. split; [done|]. destruct (parts_list st [] 31 cs parts Hnd HF) as [Hk Hl]. pose proof (merge_sort_Permutation (fun a b : list byte * list byte => bytes_le a.1 b.1) (concat parts)) as Hperm.
  split; [apply Sorted_merge_sort; intros a b; apply (total bytes_le)|]. split; [by rewrite Hperm|]. intros q x. by rewrite Hperm.
Qed.

(** ** The tip *)

Lemma later_row_spec l b : exists r, fold_left later_row l (Some b) = Some r /\ (r = b \/ r ∈ l) /\ row_height b <= row_height r /\ forall x, x ∈ l -> row_height x <= row_height r.
Proof.
  revert b. induction l as [|x l IH]; intros b; cbn [fold_left]; [exists b; split; [done|]; split; [by left|]; split; [done|]; intros x Hx; by apply elem_of_nil in Hx|].
  assert (Hx : exists c, later_row (Some b) x = Some c /\ (c = b \/ c = x) /\ row_height b <= row_height c /\ row_height x <= row_height c).
  { cbn [later_row]. destruct (Z.ltb_spec (row_height b) (row_height x)) as [Hlt|Hge]; cbn [orb]; [exists x; split; [done|]; split; [by right|lia]|].
    destruct (Z.eqb_spec (row_height b) (row_height x)) as [He|Hne]; cbn [andb]; [|exists b; split; [done|]; split; [by left|lia]].
    destruct (row_id b <? row_id x); [exists x; split; [done|]; split; [by right|lia]|exists b; split; [done|]; split; [by left|lia]]. }
  destruct Hx as (c & -> & Hc & Hbc & Hxc). destruct (IH c) as (r & -> & Hr & Hcr & Hl). exists r. split; [done|]. split; [|split; [lia|intros y [->|Hy]%elem_of_cons; [lia|by apply Hl]]].
  destruct Hr as [->|Hr]; [destruct Hc as [->| ->]; [by left|right; by left]|right; by right].
Qed.

Lemma storage_tip_spec st : match storage_tip st with
  | Some b => exists r, r ∈ st_blocks st /\ row_hash r = b /\ forall x, x ∈ st_blocks st -> row_height x <= row_height r
  | None => st_blocks st = []
  end.
Proof.
  unfold storage_tip. destruct (st_blocks st) as [|b l]; [done|]. cbn [fold_left later_row]. destruct (later_row_spec l b) as (r & -> & Hr & Hb & Hl). cbn. exists r. split; [destruct Hr as [->|Hr]; [by left|by right]|].
  split; [done|]. intros x [->|Hx]%elem_of_cons; [done|by apply Hl].
Qed.

Lemma row_roots st r : store_ok st -> r ∈ st_blocks st -> exists roots, VersionedMarf.ancestor_roots_for st (row_jumps r) = Ok roots.
Proof.
  intros Hst Hr. apply collect_each. intros x (k & Hx)%list_elem_of_lookup. rewrite (rk_jumps _ _ (so_row _ Hst r Hr) k) in Hx. destruct (Z.leb_spec (2 ^ Z.of_nat k) (row_height r)) as [Hk|]; [|done].
  destruct (jump_at st r k Hst Hr Hk) as (p & Hp & _ & _ & _ & _ & Hb). rewrite Hp in Hx. injection Hx as <-. rewrite Hb. by eexists.
Qed.

Lemma tip_verifies m s : implements m s -> VersionedMarf.verify_tip m = Ok (VersionedMarf.tip m).
Proof.
  intros R. unfold VersionedMarf.verify_tip, VersionedMarf.tip. pose proof (storage_tip_spec (VersionedMarf.vm_storage m)) as Ht. destruct (storage_tip _) as [b|]; [|done]. destruct Ht as (r & Hr & Hb & _).
  pose proof (im_store _ _ R) as Hst. assert (Hrow : storage_block (VersionedMarf.vm_storage m) b = Some r) by (by apply storage_block_Some; [apply Hst|]). unfold VersionedMarf.sealed_root, storage_jumps. rewrite Hrow. cbn [or_err].
  destruct (rk_root _ _ (so_row _ Hst r Hr)) as (cs & i & -> & -> & _). rewrite bool_decide_false by (intros [? _]; done). destruct (row_roots _ r Hst Hr) as [roots ->]. done.
Qed.

Section Theorems.
Context `{H : Hashes} `{!HashesOk}.

(** Leaves of a sealed state lists, in the order of the paths and each path once,
    exactly the paths get_path finds, with the values it finds; of an unknown state it
    is None. *)
Theorem leaves_are_contents ops rs m block : Forall op_typed ops -> marf_run VersionedMarf.new ops = Some (rs, m) ->
  if VersionedMarf.contains m block
  then exists l, VersionedMarf.leaves m block = Some (Ok (Some l)) /\ NoDup l.*1 /\ Sorted (fun a b => bytes_le a.1 b.1) l /\
    forall path value, (path, value) ∈ l <-> length path = 32%nat /\ VersionedMarf.get_path m block path = Some (Ok (Some value))
  else VersionedMarf.leaves m block = Some (Ok None).
Proof.
  intros HF Hr. destruct (run_refines _ _ ops implements_new HF) as (rs' & m0 & s & Hr' & _ & R). assert (m0 = m) as -> by congruence. unfold VersionedMarf.leaves, VersionedMarf.contains.
  unfold VersionedMarf.sealed_root. destruct (storage_block (VersionedMarf.vm_storage m) block) as [r|] eqn:Hb; [|done]. rewrite bool_decide_true by (by eexists).
  destruct (row_version m s R _ _ Hb) as (Hin & _ & v & Hv & Hrel). destruct (vr_contents _ _ _ Hrel) as (cs & (i & -> & -> & Hcs) & Hl). destruct (collect_leaves_spec _ _ _ _ Hcs) as (l & -> & Hs & Hnd & Hm).
  exists l. split; [done|]. split; [done|]. split; [done|]. intros path value. rewrite Hm. split.
  - intros (q & -> & Hq & Hx). split; [done|]. cbn [app]. rewrite (get_path_rel m s R block q Hq). unfold MarfSpec.get. rewrite Hv. cbn. by rewrite <- Hl, Hx.
  - intros [Hp Hx]. rewrite (get_path_rel m s R block path Hp) in Hx. unfold MarfSpec.get in Hx. rewrite Hv in Hx. cbn in Hx. exists path. split; [done|]. split; [done|]. rewrite Hl by done. congruence.
Qed.

(** C29: On every MARF that operations lead to, verify_tip finds the tip's record,
    root node and all ancestors of its skip list and returns the tip, and no sealed
    state is higher than the tip. *)
Theorem tip_is_highest ops rs m : Forall op_typed ops -> marf_run VersionedMarf.new ops = Some (rs, m) ->
  VersionedMarf.verify_tip m = Ok (VersionedMarf.tip m) /\
  forall block h, VersionedMarf.height m block = Some h -> exists tip top, VersionedMarf.tip m = Some tip /\ VersionedMarf.height m tip = Some top /\ h <= top.
Proof.
  intros HF Hr. destruct (run_refines _ _ ops implements_new HF) as (rs' & m0 & s & Hr' & _ & R). assert (m0 = m) as -> by congruence. split; [by eapply tip_verifies|].
  unfold VersionedMarf.height, VersionedMarf.tip. intros block h Hh. destruct (storage_block (VersionedMarf.vm_storage m) block) as [r|] eqn:Hb; [|done]. injection Hh as <-. destruct (row_version m s R _ _ Hb) as (Hin & _).
  pose proof (storage_tip_spec (VersionedMarf.vm_storage m)) as Ht. destruct (storage_tip _) as [b|]; [|rewrite Ht in Hin; by apply elem_of_nil in Hin]. destruct Ht as (t & Ht & Htb & Hmax).
  exists b, (row_height t). split; [done|]. rewrite (proj2 (storage_block_Some _ b t (so_rows _ (im_store _ _ R))) (conj Ht Htb)). split; [done|]. by apply Hmax.
Qed.

(** The state that many parents above another. *)
Inductive ancestor_at (m : VersionedMarf.t) : MarfBlockId -> nat -> MarfBlockId -> Prop :=
| ancestor_self block : ancestor_at m block 0 block
| ancestor_parent block parent n above : VersionedMarf.parent m block = Ok (Some (Some parent)) -> ancestor_at m parent n above -> ancestor_at m block (S n) above.

Lemma ancestor_parents m r n p : store_ok (VersionedMarf.vm_storage m) -> r ∈ st_blocks (VersionedMarf.vm_storage m) -> ancestor (VersionedMarf.vm_storage m) r n = Some p ->
  ancestor_at m (row_hash r) n (row_hash p).
Proof.
  intros Hst. revert r. induction n as [|n IH]; intros r Hr; cbn [ancestor]; [intros [= <-]; constructor|]. unfold parent_row. destruct (row_parent r) as [id|] eqn:Hid; [|done]. cbn [mbind option_bind].
  destruct (id_row _ id) as [q|] eqn:Hq; [|done]. cbn [mbind option_bind]. intros Hp. apply ancestor_parent with (row_hash q); [|apply IH; [by apply (id_row_Some _ id q (so_rows _ Hst))|done]].
  unfold VersionedMarf.parent. rewrite (proj2 (storage_block_Some _ _ r (so_rows _ Hst)) (conj Hr eq_refl)), Hid. unfold storage_block_hash. unfold id_row in Hq. by rewrite Hq.
Qed.

Lemma descent_bound distance : 0 <= distance -> distance < 2 ^ Z.of_nat (Z.to_nat (Z.log2 distance + 1)).
Proof.
  intros Hd. pose proof (Z.log2_nonneg distance). rewrite Z2Nat.id by lia. destruct (Z.eq_dec distance 0) as [->|Hne]; [done|]. apply Z.log2_spec. lia.
Qed.

(** C28: From any sealed state the loop of block_at_height ends within log2 of the
    distance plus two turns at the ancestor a given number of parents above it, which
    is a sealed state of exactly the height asked for; and the 33 turns
    block_at_height has are enough. *)
Theorem descent_is_logarithmic ops rs m r target fuel : Forall op_typed ops -> marf_run VersionedMarf.new ops = Some (rs, m) -> r ∈ st_blocks (VersionedMarf.vm_storage m) ->
  0 <= target <= row_height r -> Z.log2 (row_height r - target) + 1 < Z.of_nat fuel ->
  exists block, VersionedMarf.descend_to (VersionedMarf.vm_storage m) fuel r target = Some (Ok (Some block)) /\
    ancestor_at m (row_hash r) (Z.to_nat (row_height r - target)) block /\ VersionedMarf.height m block = Some target /\
    VersionedMarf.block_at_height m (row_hash r) target = Some (Ok (Some block)).
Proof.
  intros HF Hr Hin Ht Hfuel. destruct (run_refines _ _ ops implements_new HF) as (rs' & m0 & s & Hr' & _ & R). assert (m0 = m) as -> by congruence. pose proof (im_store _ _ R) as Hst.
  pose proof (descent_bound (row_height r - target) ltac:(lia)) as Hpow. pose proof (Z.log2_nonneg (row_height r - target)) as Hn.
  destruct (store_ancestor _ r (Z.to_nat (row_height r - target)) Hst Hin ltac:(lia)) as (p & Ha & Hp & Hph). exists (row_hash p).
  rewrite (descend_to_spec _ r target _ fuel Hst Hin Ht Hpow) by lia. rewrite Ha. split; [done|]. split; [by apply ancestor_parents|]. split.
  - unfold VersionedMarf.height. rewrite (proj2 (storage_block_Some _ (row_hash p) p (so_rows _ Hst)) (conj Hp eq_refl)). cbn. f_equal. lia.
  - unfold VersionedMarf.block_at_height. rewrite (proj2 (storage_block_Some _ (row_hash r) r (so_rows _ Hst)) (conj Hin eq_refl)).
    rewrite (descend_to_spec _ r target 32 33 Hst Hin Ht); [by rewrite Ha| |lia]. pose proof (rk_height _ _ (so_row _ Hst r Hin)) as [_ Hu]. unfold U32_MAX in Hu. change (2 ^ Z.of_nat 32) with 4294967296. lia.
Qed.

(** A trie on its own: after any inserts every path reads as the last write to it,
    and the root can be computed. *)
Theorem one_trie_is_a_map writes : Forall (fun w => length w.1 = 32%nat /\ length w.2 = 40%nat) writes ->
  exists m, foldl (fun m w => m ← m; '(r, m) ← OneTrie.insert_path m w.1 w.2; match r with Ok _ => Some m | Err _ => None end) (Some OneTrie.new) writes = Some m /\
  (forall path, length path = 32%nat -> OneTrie.get_path m path = Some (Ok (foldl (fun c w => <[w.1 := w.2]> c) (∅ : gmap (list byte) (list byte)) writes !! path))) /\
  exists root, OneTrie.root_hash m = Some (Ok root).
Proof.
  intros HF. assert (Hgen : forall cs contents, children_wf empty_storage None 0 31 cs -> holds empty_storage cs contents ->
    exists cs', foldl (fun m w => m ← m; '(r, m) ← OneTrie.insert_path m w.1 w.2; match r with Ok _ => Some m | Err _ => None end) (Some (OneTrie.mkTrie empty_storage cs)) writes = Some (OneTrie.mkTrie empty_storage cs') /\
      children_wf empty_storage None 0 31 cs' /\ holds empty_storage cs' (foldl (fun c w => <[w.1 := w.2]> c) contents writes)).
  { induction HF as [|[p x] writes [Hp Hx] _ IH]; intros cs contents Hcs Hl; [by exists cs|]. cbn [foldl mbind option_bind]. unfold OneTrie.insert_path at 2. cbn [OneTrie.ot_storage OneTrie.ot_root_children fst snd].
    destruct (insert_under_root_spec _ _ _ p x Hcs Hp Hx) as (cs1 & -> & Hcs1 & Hl1). cbn [mbind option_bind]. apply IH; [done|]. intros q Hq. rewrite (Hl1 q Hq). cbn.
    case_decide as Hd; [subst q; by rewrite lookup_insert_eq|]. rewrite lookup_insert_ne by done. by apply Hl. }
  destruct (Hgen [] ∅) as (cs & Hrun & Hcs & Hl); [split; [constructor|intros c Hc; by apply elem_of_nil in Hc|intros c node Hc; by apply elem_of_nil in Hc]|intros q Hq; rewrite lookup_empty; by destruct q|].
  exists (OneTrie.mkTrie empty_storage cs). split; [done|]. split.
  - intros path Hp. unfold OneTrie.get_path. cbn. rewrite (find_path_spec _ _ _ _ _ Hcs Hp). by rewrite Hl.
  - destruct (hash_children_ok _ _ _ Hcs) as [root Hr]. exists root. apply Hr.
Qed.

End Theorems.
