(* ===== verification/MarfCache.v ===== *)
(** * The caches of the MARF, of [crates/nano-marf/src/storage.rs]

    The two-generation [Cache], bounded in bytes, and the reads of [TrieStorage]
    through its caches and its arena of block hashes. [MarfTrie] reads the tables
    directly; here a read through the caches is shown to be that read. A sum or a
    difference outside [usize] is a panic, [None]. *)

From stdpp Require Import gmap sorting.
From S2P Require Import Prelude Primitives Crypto MarfTrie MarfVersions MarfTheorems MarfSealing MarfTables.

Definition ENTRY_OVERHEAD : Z := 64.

(** ** A cache *)

Module Cache.
Section Ops.
Context {K V : Type} `{Countable K}.

(** [Weight::weight]: the estimate reads allocated capacities, which are the allocator's. *)
Context (weight : V -> Z).

Record t : Type := mkCache { hot : gmap K V; cold : gmap K V; hot_bytes : Z; cold_bytes : Z; capacity : Z }.

Definition new (capacity : Z) : t := mkCache ∅ ∅ 0 0 capacity.

(** Turning the generations over when the newer one is full. *)
Definition turn (c : t) : t :=
  if capacity c <=? hot_bytes c then mkCache ∅ (hot c) 0 (hot_bytes c) (capacity c) else c.

Definition insert (c : t) (key : K) (value : V) : option t :=
  let c := turn c in
  let w := ENTRY_OVERHEAD + weight value in
  cold_bytes ← match cold c !! key with Some prior => checked_sub (cold_bytes c) (ENTRY_OVERHEAD + weight prior) | None => Some (cold_bytes c) end;
  hot_bytes' ← checked_add USIZE_MAX (hot_bytes c) w;
  hot_bytes' ← checked_sub hot_bytes' (match hot c !! key with Some prior => ENTRY_OVERHEAD + weight prior | None => 0 end);
  Some (mkCache (<[key := value]> (hot c)) (delete key (cold c)) hot_bytes' cold_bytes (capacity c)).

Definition get (c : t) (key : K) : option (option V * t) :=
  match hot c !! key with
  | Some value => Some (Some value, c)
  | None =>
      match cold c !! key with
      | None => Some (None, c)
      | Some value =>
          cold_bytes' ← checked_sub (cold_bytes c) (ENTRY_OVERHEAD + weight value);
          c ← insert (mkCache (hot c) (delete key (cold c)) (hot_bytes c) cold_bytes' (capacity c)) key value;
          Some (Some value, c)
      end
  end.

Definition remove (c : t) (key : K) : option t :=
  hot_bytes' ← match hot c !! key with Some value => checked_sub (hot_bytes c) (ENTRY_OVERHEAD + weight value) | None => Some (hot_bytes c) end;
  cold_bytes' ← match cold c !! key with Some value => checked_sub (cold_bytes c) (ENTRY_OVERHEAD + weight value) | None => Some (cold_bytes c) end;
  Some (mkCache (delete key (hot c)) (delete key (cold c)) hot_bytes' cold_bytes' (capacity c)).

Definition usage (c : t) : Z * Z := (Z.of_nat (size (hot c)) + Z.of_nat (size (cold c)), hot_bytes c + cold_bytes c).

(** What a key finds. *)
Definition find (c : t) (key : K) : option V := match hot c !! key with Some v => Some v | None => cold c !! key end.

(** ** Invariant *)

Definition bytes_of (m : gmap K V) : Z := map_fold (fun _ v a => ENTRY_OVERHEAD + weight v + a) 0 m.

Context (W : Z) (Hweight : forall v, 0 <= weight v <= W).

Record ok (c : t) : Prop := {
  ok_hot : hot_bytes c = bytes_of (hot c);
  ok_cold : cold_bytes c = bytes_of (cold c);
  ok_apart : hot c ##ₘ cold c;
  ok_hot_bound : hot_bytes c <= capacity c + ENTRY_OVERHEAD + W;
  ok_cold_bound : cold_bytes c <= capacity c + ENTRY_OVERHEAD + W;
  ok_room : 0 <= capacity c /\ capacity c + ENTRY_OVERHEAD + W <= USIZE_MAX;
}.

Lemma bytes_insert m k v : m !! k = None -> bytes_of (<[k := v]> m) = ENTRY_OVERHEAD + weight v + bytes_of m.
Proof using Type. intros Hk. unfold bytes_of. rewrite map_fold_insert_L; [done| |done]. intros. lia. Qed.

Lemma bytes_delete m k v : m !! k = Some v -> bytes_of m = ENTRY_OVERHEAD + weight v + bytes_of (delete k m).
Proof using Type. intros Hk. rewrite <- (bytes_insert (delete k m) k v) by apply lookup_delete_eq. by rewrite insert_delete_id. Qed.

Lemma bytes_nonneg m : 0 <= bytes_of m.
Proof using Hweight.
  induction m as [|k v m Hk IH] using map_ind; [done|]. rewrite bytes_insert by done. destruct (Hweight v). unfold ENTRY_OVERHEAD. lia.
Qed.

Lemma bytes_replace m k v : bytes_of (<[k := v]> m) = ENTRY_OVERHEAD + weight v + bytes_of (delete k m).
Proof using Type. rewrite <- (bytes_insert (delete k m) k v) by apply lookup_delete_eq. by rewrite insert_delete_eq. Qed.

Lemma new_ok c : 0 <= c -> c + ENTRY_OVERHEAD + W <= USIZE_MAX -> 0 <= W -> ok (new c).
Proof using Type. intros Hc Hr HW. split; cbn; unfold ENTRY_OVERHEAD in *; [done|done|apply map_disjoint_empty_l|lia|lia|done]. Qed.

Lemma turn_ok c : ok c -> ok (turn c) /\ (hot_bytes (turn c) < capacity c \/ hot_bytes (turn c) = 0) /\ capacity (turn c) = capacity c.
Proof using Hweight.
  intros [Hh Hc Ha Hb Hcb [H0 Hr]]. unfold turn. destruct (Z.leb_spec (capacity c) (hot_bytes c)) as [Hle|Hgt]; [|split; [done|]; split; [by left|done]].
  split; [|split; [by right|done]]. split; cbn; [done|done|apply map_disjoint_empty_l| |done|done]. pose proof (bytes_nonneg (hot c)). lia.
Qed.

Lemma turn_find c k : find (turn c) k = find c k \/ find (turn c) k = None.
Proof using Type.
  unfold turn. destruct (capacity c <=? hot_bytes c); [|by left]. unfold find. cbn. rewrite lookup_empty. destruct (hot c !! k); [by left|by right].
Qed.

(** Adding an entry never leaves [usize], takes over the key, and may drop others. *)
Lemma insert_ok c key value : ok c ->
  exists c', insert c key value = Some c' /\ ok c' /\ capacity c' = capacity c /\ find c' key = Some value /\ forall k, k <> key -> find c' k = find c k \/ find c' k = None.
Proof using Hweight.
  intros Hok. destruct (turn_ok c Hok) as ([Hh Hc Ha Hb Hcb [H0 Hr]] & Hsmall & Hcap). pose proof (turn_find c) as Hf. unfold insert. set (d := turn c) in *.
  destruct (Hweight value) as [Hw0 HwW]. pose proof (bytes_nonneg (hot d)) as Hnn. pose proof (bytes_nonneg (delete key (cold d))) as Hnc. pose proof (bytes_nonneg (delete key (hot d))) as Hnh.
  assert (Hcold : match cold d !! key with Some prior => checked_sub (cold_bytes d) (ENTRY_OVERHEAD + weight prior) | None => Some (cold_bytes d) end = Some (bytes_of (delete key (cold d)))).
  { destruct (cold d !! key) as [prior|] eqn:Hp; [|by rewrite delete_id, Hc]. unfold checked_sub. rewrite Hc, (bytes_delete _ _ _ Hp). rewrite (proj2 (Z.leb_le _ _)) by lia. f_equal. lia. }
  rewrite Hcold. cbn [mbind option_bind]. unfold checked_add. rewrite (proj2 (Z.leb_le _ _)) by lia. cbn [mbind option_bind].
  assert (Hhot : checked_sub (hot_bytes d + (ENTRY_OVERHEAD + weight value)) (match hot d !! key with Some prior => ENTRY_OVERHEAD + weight prior | None => 0 end) = Some (bytes_of (<[key := value]> (hot d)))).
  { rewrite bytes_replace, Hh. unfold checked_sub. destruct (hot d !! key) as [prior|] eqn:Hp.
    - rewrite (bytes_delete _ _ _ Hp). rewrite (proj2 (Z.leb_le _ _)) by (unfold ENTRY_OVERHEAD in *; lia). f_equal. lia.
    - rewrite delete_id by done. rewrite (proj2 (Z.leb_le _ _)) by (unfold ENTRY_OVERHEAD; lia). f_equal. lia. }
  rewrite Hhot. cbn [mbind option_bind]. eexists. split; [done|]. split; [|split; [done|split]].
  - split; cbn; [done|done| | | |by rewrite Hcap in *].
    + apply map_disjoint_insert_l. split; [by rewrite lookup_delete_eq|]. by apply map_disjoint_delete_r.
    + rewrite bytes_replace. assert (bytes_of (delete key (hot d)) <= hot_bytes d); [|unfold ENTRY_OVERHEAD in *; lia].
      destruct (hot d !! key) as [prior|] eqn:Hp; [rewrite Hh, (bytes_delete _ _ _ Hp); destruct (Hweight prior); unfold ENTRY_OVERHEAD; lia|by rewrite delete_id, Hh].
    + assert (bytes_of (delete key (cold d)) <= cold_bytes d); [|lia].
      destruct (cold d !! key) as [prior|] eqn:Hp; [rewrite Hc, (bytes_delete _ _ _ Hp); destruct (Hweight prior); unfold ENTRY_OVERHEAD; lia|by rewrite delete_id, Hc].
  - unfold find. cbn. by rewrite lookup_insert_eq.
  - intros k Hk. unfold find at 1 3. cbn. rewrite lookup_insert_ne, lookup_delete_ne by done. apply Hf.
Qed.

(** Reading hands out what the key finds, and forgets at most others. *)
Lemma get_ok c key : ok c -> exists c', get c key = Some (find c key, c') /\ ok c' /\ capacity c' = capacity c /\ find c' key = find c key /\ forall k, find c' k = find c k \/ find c' k = None.
Proof using Hweight.
  intros Hok. unfold get, find at 1 3. destruct (hot c !! key) as [v|] eqn:Hh; [exists c; split; [done|]; split; [done|]; split; [done|]; split; [unfold find; by rewrite Hh|by left]|].
  destruct (cold c !! key) as [v|] eqn:Hc; [|exists c; split; [done|]; split; [done|]; split; [done|]; split; [unfold find; by rewrite Hh|by left]].
  pose proof Hok as [Hhb Hcb Ha Hb Hcbd Hr]. pose proof (bytes_nonneg (delete key (cold c))) as Hn. destruct (Hweight v) as [Hv _]. unfold checked_sub. rewrite Hcb, (bytes_delete _ _ _ Hc).
  rewrite (proj2 (Z.leb_le _ _)) by lia. cbn [mbind option_bind]. set (c1 := mkCache _ _ _ _ _). assert (Hok1 : ok c1).
  { split; cbn; [done|lia|by apply map_disjoint_delete_r|done| |done]. rewrite Hcb, (bytes_delete _ _ _ Hc) in Hcbd. unfold ENTRY_OVERHEAD in *. lia. }
  destruct (insert_ok c1 key v Hok1) as (c' & -> & Hok' & Hcap & Hf & Hothers). exists c'. split; [done|]. split; [done|]. split; [done|]. split; [done|].
  intros k. destruct (decide (k = key)) as [->|Hk]; [left; rewrite Hf; unfold find; by rewrite Hh, Hc|]. destruct (Hothers k Hk) as [->|]; [|by right]. left. unfold find. cbn. by rewrite lookup_delete_ne.
Qed.

Lemma forget_ok c key : ok c -> exists c', remove c key = Some c' /\ ok c' /\ capacity c' = capacity c /\ forall k, find c' k = if decide (k = key) then None else find c k.
Proof using Hweight.
  intros [Hh Hc Ha Hb Hcb Hr]. unfold remove. pose proof (bytes_nonneg (delete key (cold c))) as Hnc. pose proof (bytes_nonneg (delete key (hot c))) as Hnh.
  assert (Hsub : forall (m : gmap K V) b, b = bytes_of m -> 0 <= bytes_of (delete key m) ->
    match m !! key with Some v => checked_sub b (ENTRY_OVERHEAD + weight v) | None => Some b end = Some (bytes_of (delete key m)) /\ bytes_of (delete key m) <= b).
  { intros m b -> Hn. destruct (m !! key) as [v|] eqn:Hv; [|by rewrite delete_id]. destruct (Hweight v). unfold checked_sub. rewrite (bytes_delete _ _ _ Hv). rewrite (proj2 (Z.leb_le _ _)) by lia.
    split; [f_equal; lia|unfold ENTRY_OVERHEAD; lia]. }
  destruct (Hsub _ _ Hh Hnh) as [-> Hh']. destruct (Hsub _ _ Hc Hnc) as [-> Hc']. cbn [mbind option_bind]. eexists. split; [done|]. split; [split; cbn; [done|done|by apply map_disjoint_delete_l, map_disjoint_delete_r|lia|lia|done]|].
  split; [done|]. intros k. unfold find. cbn. case_decide as Hk; [subst k; by rewrite !lookup_delete_eq|]. by rewrite !lookup_delete_ne.
Qed.

End Ops.
End Cache.

(** ** A sequence of uses *)

Inductive CacheOp (K V : Type) : Type := CacheGet (key : K) | CacheInsert (key : K) (value : V) | CacheRemove (key : K).
Arguments CacheGet {K V}. Arguments CacheInsert {K V}. Arguments CacheRemove {K V}.

Section CacheRun.
Context {K V : Type} `{Countable K} (weight : V -> Z) (W : Z) (Hweight : forall v, 0 <= weight v <= W).

(** The answers of the reads, and the cache left. *)
Fixpoint cache_run (c : Cache.t (K := K) (V := V)) (ops : list (CacheOp K V)) : option (list (option V) * Cache.t) :=
  match ops with
  | [] => Some ([], c)
  | CacheGet k :: ops => '(r, c) ← Cache.get weight c k; '(rs, c) ← cache_run c ops; Some (r :: rs, c)
  | CacheInsert k v :: ops => c ← Cache.insert weight c k v; cache_run c ops
  | CacheRemove k :: ops => c ← Cache.remove weight c k; cache_run c ops
  end.

(** What each read would find if nothing were ever dropped. *)
Fixpoint written (truth : gmap K V) (ops : list (CacheOp K V)) : list (option V) :=
  match ops with
  | [] => []
  | CacheGet k :: ops => truth !! k :: written truth ops
  | CacheInsert k v :: ops => written (<[k := v]> truth) ops
  | CacheRemove k :: ops => written (delete k truth) ops
  end.

Definition faithful (c : Cache.t (K := K) (V := V)) (truth : gmap K V) : Prop := forall k v, Cache.find c k = Some v -> truth !! k = Some v.

Lemma cache_run_ok c truth ops : Cache.ok weight W c -> faithful c truth ->
  exists rs c', cache_run c ops = Some (rs, c') /\ Cache.ok weight W c' /\ Cache.capacity c' = Cache.capacity c /\ Forall2 (fun r t => r = None \/ r = t) rs (written truth ops).
Proof using Hweight.
  revert c truth. induction ops as [|[k|k v|k] ops IH]; intros c truth Hok Hf; cbn [cache_run written]; [exists [], c; by split; [|split; [|split; [|constructor]]]| | |].
  - destruct (Cache.get_ok weight W Hweight c k Hok) as (c1 & -> & Hok1 & Hcap1 & _ & Hkeep). cbn [mbind option_bind].
    destruct (IH c1 truth Hok1) as (rs & c2 & -> & Hok2 & Hcap2 & HF); [intros j v Hj; destruct (Hkeep j) as [Hk|Hk]; rewrite Hk in Hj; [by apply Hf|done]|].
    exists (Cache.find c k :: rs), c2. split; [done|]. split; [done|]. split; [congruence|]. constructor; [|done]. destruct (Cache.find c k) as [v|] eqn:Hv; [right; symmetry; by apply Hf|by left].
  - destruct (Cache.insert_ok weight W Hweight c k v Hok) as (c1 & -> & Hok1 & Hcap1 & Hk & Hothers). cbn [mbind option_bind].
    destruct (IH c1 (<[k := v]> truth) Hok1) as (rs & c2 & -> & Hok2 & Hcap2 & HF); [|exists rs, c2; split; [done|]; split; [done|]; split; [congruence|done]].
    intros j x Hj. destruct (decide (j = k)) as [->|Hne]; [rewrite lookup_insert_eq; congruence|]. rewrite lookup_insert_ne by done. destruct (Hothers j Hne) as [Hj'|Hj']; rewrite Hj' in Hj; [by apply Hf|done].
  - destruct (Cache.forget_ok weight W Hweight c k Hok) as (c1 & -> & Hok1 & Hcap1 & Hk). cbn [mbind option_bind].
    destruct (IH c1 (delete k truth) Hok1) as (rs & c2 & -> & Hok2 & Hcap2 & HF); [|exists rs, c2; split; [done|]; split; [done|]; split; [congruence|done]].
    intros j x Hj. rewrite Hk in Hj. case_decide as Hd; [done|]. rewrite lookup_delete_ne by done. by apply Hf.
Qed.

(** C30: Whatever reads, inserts and removals a two-generation cache sees, its byte
    counts never leave usize and are exactly the weight of the entries held, which is
    at most twice the capacity and one entry; a key is held once; and a read answers
    nothing or the value last inserted under the key and not removed since. *)
Theorem cache_bounded_and_faithful capacity ops : 0 <= W -> 0 <= capacity -> capacity + ENTRY_OVERHEAD + W <= USIZE_MAX ->
  exists rs c, cache_run (Cache.new capacity) ops = Some (rs, c) /\ Forall2 (fun r t => r = None \/ r = t) rs (written ∅ ops) /\
    (Cache.usage c).2 <= 2 * (capacity + ENTRY_OVERHEAD + W) /\ (Cache.usage c).2 = Cache.bytes_of weight (Cache.hot c ∪ Cache.cold c) /\
    (Cache.usage c).1 = Z.of_nat (size (Cache.hot c ∪ Cache.cold c)).
Proof using Hweight.
  intros HW Hc Hroom. destruct (cache_run_ok (Cache.new capacity) ∅ ops (Cache.new_ok weight W capacity Hc Hroom HW)) as (rs & c & Hr & [Hh Hcd Ha Hb Hcb _] & Hcap & HF).
  { intros k v Hk. unfold Cache.find, Cache.new in Hk. cbn in Hk. by rewrite !lookup_empty in Hk. }
  cbn in Hcap. rewrite Hcap in *. exists rs, c. split; [done|]. split; [done|]. cbn [Cache.usage fst snd]. split; [lia|]. split; [|rewrite map_size_disj_union by done; lia].
  rewrite Hh, Hcd. clear -Ha. revert Ha. generalize (Cache.hot c). intros m. induction m as [|k v m Hk IH] using map_ind; intros Ha; [by rewrite map_empty_union|].
  apply map_disjoint_insert_l in Ha as [Hck Ha]. rewrite <- insert_union_l, !Cache.bytes_insert; [|by apply lookup_union_None|done]. rewrite <- IH by done. lia.
Qed.

End CacheRun.

(** ** The table behind its caches *)

Record BlockRecord : Type := mkRecord {
  br_id : Z; br_hash : MarfBlockId; br_parent : option Z; br_height : Z; br_root : TrieHash; br_content : TrieHash; br_node : option Z;
}.

Definition record_of (r : BlockRow) : BlockRecord := mkRecord (row_id r) (row_hash r) (row_parent r) (row_height r) (row_root r) (row_content r) (row_node r).

Definition row_before (a b : BlockRow) : Prop := row_id a <= row_id b.
#[global] Instance row_before_dec : RelDecision row_before := fun a b => Z.le_dec (row_id a) (row_id b).

Definition NODE_CACHE_BYTES : Z := 512 * 1024 * 1024.
Definition NODE_HASH_CACHE_BYTES : Z := 100000000.
Definition BLOCK_CACHE_BYTES : Z := 12000000.

Module CachedStorage.
Section Ops.
Context (node_weight : TrieNode -> Z) (hash_weight : TrieHash -> Z) (record_weight : BlockRecord -> Z).

Record t : Type := mkCached {
  table : TrieStorage;
  nodes : Cache.t (K := Z * Z) (V := TrieNode);
  node_hashes : Cache.t (K := Z * Z) (V := TrieHash);
  blocks : Cache.t (K := list byte) (V := BlockRecord);
  hashes_by_id : list MarfBlockId;
}.

(** [arena.resize(index + 1, [0; 32])] where it is shorter, and the write. *)
Definition arena_set (arena : list MarfBlockId) (index : nat) (hash : MarfBlockId) : list MarfBlockId :=
  <[index := hash]> (arena ++ replicate (S index - length arena) (zeroes 32)).

Definition remember_hash (c : t) (id : Z) (hash : MarfBlockId) : option t :=
  index ← checked_sub id 1;
  Some (mkCached (table c) (nodes c) (node_hashes c) (blocks c) (arena_set (hashes_by_id c) (Z.to_nat index) hash)).

(** [preload_hashes]: the rows in the order of their identifiers, which start at one. *)
Definition preload_hashes (st : TrieStorage) (arena : list MarfBlockId) : list MarfBlockId :=
  fold_left (fun arena r => arena_set arena (Z.to_nat (row_id r - 1)) (row_hash r)) (merge_sort row_before (st_blocks st)) arena.

(** [from_connection] and [forget]. *)
Definition fresh (st : TrieStorage) : t :=
  mkCached st (Cache.new NODE_CACHE_BYTES) (Cache.new NODE_HASH_CACHE_BYTES) (Cache.new BLOCK_CACHE_BYTES) (preload_hashes st []).

Definition forget (c : t) : t := fresh (table c).

Definition block_hash (c : t) (id : Z) : option (result MarfError MarfBlockId * t) :=
  match checked_sub id 1 with
  | None => Some (Err (Storage MissingBlock), c)
  | Some index =>
      match hash ← hashes_by_id c !! Z.to_nat index; if decide (hash = zeroes 32) then None else Some hash with
      | Some hash => Some (Ok hash, c)
      | None =>
          match storage_block_hash (table c) id with
          | Err e => Some (Err e, c)
          | Ok hash => c ← remember_hash c id hash; Some (Ok hash, c)
          end
      end
  end.

Definition block (c : t) (hash : MarfBlockId) : option (option BlockRecord * t) :=
  '(cached, cache) ← Cache.get record_weight (blocks c) hash;
  let c := mkCached (table c) (nodes c) (node_hashes c) cache (hashes_by_id c) in
  match cached with
  | Some record => Some (Some record, c)
  | None =>
      match storage_block (table c) hash with
      | None => Some (None, c)
      | Some row =>
          cache ← Cache.insert record_weight (blocks c) hash (record_of row);
          c ← remember_hash (mkCached (table c) (nodes c) (node_hashes c) cache (hashes_by_id c)) (row_id row) hash;
          Some (Some (record_of row), c)
      end
  end.

(** The decoding of [MarfTrie], with the hashes of other blocks from [block_hash]. *)
Definition decode_child (c : t) (own : Z) (bytes : list byte) : option (result MarfError (TrieChild * list byte) * t) :=
  let head :=
    let? (flags, bytes) := take_byte bytes in
    let? (character, bytes) := take_byte bytes in
    let? (target, bytes) := take_bytes 4 bytes in
    let? (index, bytes) := take_bytes 4 bytes in
    let? kind := node_id_from_byte (Z.land (u8 flags) 0x7f) in
    Ok (flags, character, from_le_bytes target, from_le_bytes index, kind, bytes) in
  match head with
  | Err e => Some (Err e, c)
  | Ok (flags, character, target, index, kind, bytes) =>
      if Z.land (u8 flags) BACK_POINTER =? 0 then Some (Ok (mkChild character None (Stored own index kind), bytes), c)
      else
        '(hash, c) ← block_hash c target;
        Some (let? hash := hash in Ok (mkChild character (Some hash) (Stored target index kind), bytes), c)
  end.

Fixpoint decode_children (c : t) (own : Z) (count : nat) (bytes : list byte) : option (result MarfError (list TrieChild) * t) :=
  match count with
  | O => Some (Ok [], c)
  | S count =>
      '(r, c) ← decode_child c own bytes;
      match r with
      | Err e => Some (Err e, c)
      | Ok (child, bytes) => '(r, c) ← decode_children c own count bytes; Some (let? rest := r in Ok (child :: rest), c)
      end
  end.

Definition decode (c : t) (own : Z) (bytes : list byte) : option (result MarfError TrieNode * t) :=
  let head := let? (kind, bytes) := take_byte bytes in let? (path, bytes) := take_path bytes in Ok (kind, path, bytes) in
  match head with
  | Err e => Some (Err e, c)
  | Ok (kind, path, bytes) =>
      if decide (kind = LEAF_RECORD) then Some (let? (value, _) := take_bytes 40 bytes in Ok (Leaf path value), c)
      else if decide (kind = INTERNAL_RECORD) then
        match take_bytes 2 bytes with
        | Err e => Some (Err e, c)
        | Ok (count, bytes) =>
            '(r, c) ← decode_children c own (Z.to_nat (from_le_bytes count)) bytes;
            Some (let? children := r in Ok (Internal path children), c)
        end
      else Some (Err (Storage CorruptRecord), c)
  end.

Definition node (c : t) (owner index : Z) : option (result MarfError TrieNode * t) :=
  '(cached, cache) ← Cache.get node_weight (nodes c) (owner, index);
  let c := mkCached (table c) cache (node_hashes c) (blocks c) (hashes_by_id c) in
  match cached with
  | Some n => Some (Ok n, c)
  | None =>
      match st_nodes (table c) !! (owner, index) with
      | None => Some (Err (Storage MissingNode), c)
      | Some (_, data) =>
          '(r, c) ← decode c owner data;
          match r with
          | Err e => Some (Err e, c)
          | Ok n =>
              cache ← Cache.insert node_weight (nodes c) (owner, index) n;
              Some (Ok n, mkCached (table c) cache (node_hashes c) (blocks c) (hashes_by_id c))
          end
      end
  end.

Definition node_hash (c : t) (owner index : Z) : option (result MarfError TrieHash * t) :=
  '(cached, cache) ← Cache.get hash_weight (node_hashes c) (owner, index);
  let c := mkCached (table c) (nodes c) cache (blocks c) (hashes_by_id c) in
  match cached with
  | Some hash => Some (Ok hash, c)
  | None =>
      match st_nodes (table c) !! (owner, index) with
      | None => Some (Err (Storage MissingNode), c)
      | Some (hash, _) =>
          cache ← Cache.insert hash_weight (node_hashes c) (owner, index) hash;
          Some (Ok hash, mkCached (table c) (nodes c) cache (blocks c) (hashes_by_id c))
      end
  end.

(** [remember]. *)
Definition remember (c : t) (owner index : Z) (n : TrieNode) : option t :=
  cache ← Cache.insert node_weight (nodes c) (owner, index) n;
  Some (mkCached (table c) cache (node_hashes c) (blocks c) (hashes_by_id c)).

(** [discard_above]: the rows, then everything cached. *)
Definition discard_above (c : t) (height : Z) : Z * t :=
  let (removed, st) := storage_discard_above (table c) height in (removed, fresh st).

(** [complete_block]: the row, and what was cached of it. *)
Definition complete (c : t) (hash : MarfBlockId) (id : Z) (root content : TrieHash) (node : option Z) : option t :=
  cache ← Cache.remove record_weight (blocks c) hash;
  Some (mkCached (complete_block (table c) id root content node) (nodes c) (node_hashes c) cache (hashes_by_id c)).

End Ops.
End CachedStorage.

(** ** Coherence *)

Section Coherence.
Context (node_weight : TrieNode -> Z) (hash_weight : TrieHash -> Z) (record_weight : BlockRecord -> Z) (W : Z).
Context (HWn : forall n, 0 <= node_weight n <= W) (HWh : forall h, 0 <= hash_weight h <= W) (HWr : forall r, 0 <= record_weight r <= W).
Import CachedStorage.

(** Everything cached is what the table holds. *)
Record coherent (c : t) : Prop := {
  co_rows : rows_ok (table c) /\ forall r, r ∈ st_blocks (table c) -> 1 <= row_id r;
  co_bounds : Cache.ok node_weight W (nodes c) /\ Cache.ok hash_weight W (node_hashes c) /\ Cache.ok record_weight W (blocks c);
  co_nodes : forall k n, Cache.find (nodes c) k = Some n -> storage_node (table c) k.1 k.2 = Ok n;
  co_hashes : forall k h, Cache.find (node_hashes c) k = Some h -> storage_node_hash (table c) k.1 k.2 = Ok h;
  co_blocks : forall hash record, Cache.find (blocks c) hash = Some record -> record_of <$> storage_block (table c) hash = Some record;
  co_arena : forall i hash, hashes_by_id c !! i = Some hash -> hash <> zeroes 32 -> storage_block_hash (table c) (Z.of_nat i + 1) = Ok hash;
}.

(** A read that answers [v], from the cache or the table, and leaves the table alone. *)
Definition answers {A} (c : t) (r : option (A * t)) (v : A) : Prop := exists c', r = Some (v, c') /\ coherent c' /\ table c' = table c.

Lemma arena_set_lookup arena index hash i h : arena_set arena index hash !! i = Some h -> (i = index /\ h = hash) \/ (i <> index /\ (arena !! i = Some h \/ h = zeroes 32)).
Proof using Type.
  unfold arena_set. intros Hi. destruct (decide (i = index)) as [->|Hne].
  - left. split; [done|]. rewrite list_lookup_insert_eq in Hi; [congruence|]. rewrite length_app, length_replicate. lia.
  - right. split; [done|]. rewrite list_lookup_insert_ne in Hi by done. apply lookup_app_Some in Hi as [Hi|[_ Hi]]; [by left|]. apply lookup_replicate in Hi as [-> _]. by right.
Qed.

Lemma preload_coherent st i h : rows_ok st -> (forall r, r ∈ st_blocks st -> 1 <= row_id r) -> preload_hashes st [] !! i = Some h -> h <> zeroes 32 -> storage_block_hash st (Z.of_nat i + 1) = Ok h.
Proof using Type.
  intros Hro Hids. unfold preload_hashes. assert (Hin : forall r, r ∈ merge_sort row_before (st_blocks st) -> r ∈ st_blocks st) by (intros r; by rewrite merge_sort_Permutation).
  assert (Hgen : forall l arena, (forall r, r ∈ l -> r ∈ st_blocks st) -> (forall i h, arena !! i = Some h -> h <> zeroes 32 -> storage_block_hash st (Z.of_nat i + 1) = Ok h) ->
    forall i h, fold_left (fun arena r => arena_set arena (Z.to_nat (row_id r - 1)) (row_hash r)) l arena !! i = Some h -> h <> zeroes 32 -> storage_block_hash st (Z.of_nat i + 1) = Ok h).
  { induction l as [|r l IH]; intros arena Hl Ha j g; cbn [fold_left]; [apply Ha|]. apply IH; [intros; apply Hl; by right|]. intros k x Hk Hx. apply arena_set_lookup in Hk as [[-> ->]|[_ [Hk| ->]]]; [|by apply Ha|done].
    assert (Hr : r ∈ st_blocks st) by (apply Hl; by left). pose proof (Hids r Hr). rewrite block_hash_row. replace (Z.of_nat (Z.to_nat (row_id r - 1)) + 1) with (row_id r) by lia.
    by rewrite (proj2 (id_row_Some st (row_id r) r Hro) (conj Hr eq_refl)). }
  apply Hgen; [done|]. intros k x Hk. by rewrite lookup_nil in Hk.
Qed.

(** Nothing is cached after a rollback or a discard but the hashes read again. *)
Lemma fresh_coherent st : rows_ok st -> (forall r, r ∈ st_blocks st -> 1 <= row_id r) -> NODE_CACHE_BYTES + ENTRY_OVERHEAD + W <= USIZE_MAX -> 0 <= W -> coherent (fresh st).
Proof using Type.
  intros Hro Hids Hroom HW. assert (Hn : forall (K V : Type) `{Countable K} cap (k : K), Cache.find (V := V) (Cache.new cap) k = None) by (intros; unfold Cache.find, Cache.new; cbn; by rewrite !lookup_empty).
  split; cbn; [done| |intros k n; by rewrite Hn|intros k n; by rewrite Hn|intros k n; by rewrite Hn|intros i h; by apply preload_coherent].
  unfold NODE_CACHE_BYTES, NODE_HASH_CACHE_BYTES, BLOCK_CACHE_BYTES in *. split; [|split]; apply Cache.new_ok; lia.
Qed.

(** ** Reads *)

Lemma remember_hash_coherent c id hash : coherent c -> 1 <= id -> storage_block_hash (table c) id = Ok hash -> exists c', remember_hash c id hash = Some c' /\ coherent c' /\ table c' = table c.
Proof using Type.
  intros [Hr Hb Hn Hh Hbl Ha] Hid Hhash. unfold remember_hash, checked_sub. rewrite (proj2 (Z.leb_le _ _)) by lia. cbn. eexists. split; [done|]. split; [|done]. split; try done.
  cbn. intros i h Hi Hz. apply arena_set_lookup in Hi as [[-> ->]|[_ [Hi| ->]]]; [|by apply Ha|done]. by replace (Z.of_nat (Z.to_nat (id - 1)) + 1) with id by lia.
Qed.

Lemma block_hash_answers c id : coherent c -> 0 <= id -> answers c (block_hash c id) (storage_block_hash (table c) id).
Proof using Type.
  intros Hc Hid. unfold block_hash, checked_sub. destruct (Z.leb_spec 1 id) as [Hle|Hgt].
  - destruct (mbind _ _) as [hash|] eqn:Ha.
    + exists c. split; [|done]. do 2 f_equal. destruct (hashes_by_id c !! Z.to_nat (id - 1)) as [h|] eqn:Hi; [|done]. cbn in Ha. case_decide as Hz; [done|]. injection Ha as ->.
      pose proof (co_arena _ Hc _ _ Hi Hz) as Hs. by replace (Z.of_nat (Z.to_nat (id - 1)) + 1) with id in Hs by lia.
    + destruct (storage_block_hash (table c) id) as [hash|e] eqn:Hs; [|by exists c]. destruct (remember_hash_coherent c id hash Hc Hle Hs) as (c' & -> & Hc' & Ht). by exists c'.
  - exists c. split; [|done]. do 2 f_equal. rewrite block_hash_row. destruct (id_row (table c) id) as [r|] eqn:Hr; [|done]. destruct (co_rows _ Hc) as [Hro Hids].
    apply (id_row_Some _ _ _ Hro) in Hr as [Hin <-]. specialize (Hids r Hin). lia.
Qed.

Lemma from_le_nonneg l : 0 <= from_le_bytes l.
Proof using Type. unfold from_le_bytes. apply from_be_bytes_range. Qed.

Lemma decode_child_answers c own bytes : coherent c -> answers c (decode_child c own bytes) (MarfTrie.decode_child (table c) own bytes).
Proof using Type.
  intros Hc. unfold decode_child, MarfTrie.decode_child. destruct (take_byte bytes) as [[flags b1]|]; [|by exists c]. destruct (take_byte b1) as [[ch b2]|]; [|by exists c]. destruct (take_bytes 4 b2) as [[tg b3]|]; [|by exists c].
  destruct (take_bytes 4 b3) as [[ix b4]|]; [|by exists c]. destruct (node_id_from_byte _) as [k|]; [|by exists c]. destruct (_ =? 0); [by exists c|].
  destruct (block_hash_answers c (from_le_bytes tg) Hc (from_le_nonneg _)) as (c' & -> & Hc' & Ht). cbn [mbind option_bind]. by exists c'.
Qed.

Lemma decode_children_answers c own n bytes : coherent c -> answers c (decode_children c own n bytes) (MarfTrie.decode_children (table c) own n bytes).
Proof using Type.
  revert c bytes. induction n as [|n IH]; intros c bytes Hc; cbn [decode_children MarfTrie.decode_children]; [by exists c|]. destruct (decode_child_answers c own bytes Hc) as (c1 & -> & Hc1 & Ht1). cbn [mbind option_bind].
  destruct (MarfTrie.decode_child (table c) own bytes) as [[child rest]|e]; [|by exists c1]. destruct (IH c1 rest Hc1) as (c2 & -> & Hc2 & Ht2). cbn [mbind option_bind]. rewrite Ht1. exists c2. split; [done|]. split; [done|congruence].
Qed.

Lemma decode_answers c own bytes : coherent c -> answers c (decode c own bytes) (decode_node (table c) own bytes).
Proof using Type.
  intros Hc. unfold decode, decode_node. destruct (take_byte bytes) as [[kind b1]|]; [|by exists c]. destruct (take_path b1) as [[path b2]|]; [|by exists c]. case_decide; [by exists c|]. case_decide; [|by exists c].
  destruct (take_bytes 2 b2) as [[count b3]|]; [|by exists c]. destruct (decode_children_answers c own (Z.to_nat (from_le_bytes count)) b3 Hc) as (c' & -> & Hc' & Ht). cbn [mbind option_bind]. by exists c'.
Qed.

Lemma node_answers c owner index : coherent c -> answers c (node node_weight c owner index) (storage_node (table c) owner index).
Proof using HWn.
  intros Hc. pose proof Hc as [Hr (Bn & Bh & Bb) Hn Hh Hbl Ha]. unfold node. destruct (Cache.get_ok node_weight W HWn (nodes c) (owner, index) Bn) as (cache & -> & Bn' & _ & _ & Hkeep). cbn [mbind option_bind].
  set (c1 := mkCached _ cache _ _ _). assert (Hc1 : coherent c1) by (split; try done; cbn; intros k n Hk; destruct (Hkeep k) as [E|E]; rewrite E in Hk; [by apply Hn|done]).
  destruct (Cache.find (nodes c) (owner, index)) as [n|] eqn:Hf; [exists c1; by rewrite <- (Hn _ _ Hf)|]. unfold storage_node. cbn [table c1].
  destruct (st_nodes (table c) !! (owner, index)) as [[h data]|] eqn:Hd; [|by exists c1]. destruct (decode_answers c1 owner data Hc1) as (c2 & -> & Hc2 & Ht2). cbn [mbind option_bind table c1].
  destruct (decode_node (table c) owner data) as [n|e] eqn:Hdec; [|by exists c2]. pose proof Hc2 as [Hr2 (Bn2 & Bh2 & Bb2) Hn2 Hh2 Hbl2 Ha2].
  destruct (Cache.insert_ok node_weight W HWn (nodes c2) (owner, index) n Bn2) as (cache2 & -> & Bn3 & _ & Hk & Hothers). cbn [mbind option_bind]. eexists. split; [done|]. split; [|done].
  split; try done. cbn. intros k x Hx. destruct (decide (k = (owner, index))) as [->|Hne]; [|destruct (Hothers k Hne) as [E|E]; rewrite E in Hx; [by apply Hn2|done]].
  rewrite Hk in Hx. injection Hx as <-. unfold storage_node. rewrite Ht2. cbn. by rewrite Hd.
Qed.

Lemma node_hash_answers c owner index : coherent c -> answers c (node_hash hash_weight c owner index) (storage_node_hash (table c) owner index).
Proof using HWh.
  intros Hc. pose proof Hc as [Hr (Bn & Bh & Bb) Hn Hh Hbl Ha]. unfold node_hash. destruct (Cache.get_ok hash_weight W HWh (node_hashes c) (owner, index) Bh) as (cache & -> & Bh' & _ & _ & Hkeep). cbn [mbind option_bind].
  set (c1 := mkCached _ _ cache _ _). assert (Hk1 : forall k h, Cache.find cache k = Some h -> storage_node_hash (table c) k.1 k.2 = Ok h) by (intros k h Hk; destruct (Hkeep k) as [E|E]; rewrite E in Hk; [by apply Hh|done]).
  assert (Hc1 : coherent c1) by (split; done).
  destruct (Cache.find (node_hashes c) (owner, index)) as [h|] eqn:Hf; [exists c1; by rewrite <- (Hh _ _ Hf)|]. unfold storage_node_hash. cbn [table c1].
  destruct (st_nodes (table c) !! (owner, index)) as [[h data]|] eqn:Hd; [|by exists c1]. cbn [node_hashes c1].
  destruct (Cache.insert_ok hash_weight W HWh cache (owner, index) h Bh') as (cache2 & -> & Bh3 & _ & Hk & Hothers). cbn [mbind option_bind]. eexists. split; [done|]. split; [|done].
  split; try done. cbn. intros k x Hx. destruct (decide (k = (owner, index))) as [->|Hne]; [|destruct (Hothers k Hne) as [E|E]; rewrite E in Hx; [by apply Hk1|done]].
  rewrite Hk in Hx. injection Hx as <-. unfold storage_node_hash. cbn. by rewrite Hd.
Qed.

Lemma block_answers c hash : coherent c -> answers c (block record_weight c hash) (record_of <$> storage_block (table c) hash).
Proof using HWr.
  intros Hc. pose proof Hc as [Hr (Bn & Bh & Bb) Hn Hh Hbl Ha]. unfold block. destruct (Cache.get_ok record_weight W HWr (blocks c) hash Bb) as (cache & -> & Bb' & _ & _ & Hkeep). cbn [mbind option_bind].
  set (c1 := mkCached _ _ _ cache _). assert (Hk1 : forall k r, Cache.find cache k = Some r -> record_of <$> storage_block (table c) k = Some r) by (intros k r Hk; destruct (Hkeep k) as [E|E]; rewrite E in Hk; [by apply Hbl|done]).
  assert (Hc1 : coherent c1) by (split; done).
  destruct (Cache.find (blocks c) hash) as [r|] eqn:Hf; [exists c1; by rewrite <- (Hbl _ _ Hf)|]. cbn [table c1].
  destruct (storage_block (table c) hash) as [row|] eqn:Hrow; [|by exists c1]. cbn [blocks c1].
  destruct (Cache.insert_ok record_weight W HWr cache hash (record_of row) Bb') as (cache2 & -> & Bb3 & _ & Hk & Hothers). cbn [mbind option_bind]. set (c2 := mkCached _ _ _ cache2 _).
  assert (Hc2 : coherent c2).
  { split; try done. cbn. intros k x Hx. destruct (decide (k = hash)) as [->|Hne]; [|destruct (Hothers k Hne) as [E|E]; rewrite E in Hx; [by apply Hk1|done]]. rewrite Hk in Hx. injection Hx as <-. by rewrite Hrow. }
  destruct Hr as [Hro Hids]. apply (storage_block_Some _ _ _ Hro) in Hrow as [Hin Hrh]. destruct (remember_hash_coherent c2 (row_id row) hash Hc2 (Hids row Hin)) as (c3 & -> & Hc3 & Ht3); [|by exists c3].
  rewrite block_hash_row. cbn. by rewrite (proj2 (id_row_Some _ (row_id row) row Hro) (conj Hin eq_refl)), Hrh.
Qed.

(** ** Writes *)

(** A new row leaves what is cached true. *)
Lemma reserve_coherent c st' row : store_ok (table c) -> one_more (table c) st' row -> coherent c -> coherent (mkCached st' (nodes c) (node_hashes c) (blocks c) (hashes_by_id c)).
Proof using Type.
  intros Hst M [Hr Hb Hn Hh Hbl Ha]. pose proof (new_extends _ _ _ Hst M) as Hex. split; cbn; [|done| | | |].
  - split; [by apply (new_rows_ok (table c) st' row)|]. intros r [Hr'| ->]%(new_elem _ _ _ M); [by apply Hr|]. rewrite (om_id _ _ _ M). destruct (so_sequence _ Hst). lia.
  - intros k n Hk. by eapply storage_node_extends, Hn.
  - intros k h Hk. specialize (Hh k h Hk). unfold storage_node_hash in *. destruct (st_nodes (table c) !! _) as [[h' data]|] eqn:Hd; [|done]. by rewrite (lookup_weaken _ _ _ _ Hd (ex_nodes _ _ Hex)).
  - intros hash record Hk. specialize (Hbl hash record Hk). rewrite (new_block _ _ _ Hst M). case_decide as Hd; [|done]. subst hash. by rewrite (om_hash _ _ _ M) in Hbl.
  - intros i hash Hi Hz. by eapply block_hash_extends, Ha.
Qed.

(** What is remembered of a node is what the table gives back. *)
Lemma remember_coherent c owner index n : coherent c -> storage_node (table c) owner index = Ok n -> exists c', remember node_weight c owner index n = Some c' /\ coherent c' /\ table c' = table c.
Proof using HWn.
  intros [Hr (Bn & Bh & Bb) Hn Hh Hbl Ha] Hs. unfold remember. destruct (Cache.insert_ok node_weight W HWn (nodes c) (owner, index) n Bn) as (cache & -> & Bn' & _ & Hk & Hothers). cbn. eexists. split; [done|]. split; [|done].
  split; try done. cbn. intros k x Hx. destruct (decide (k = (owner, index))) as [->|Hne]; [rewrite Hk in Hx; by injection Hx as <-|]. destruct (Hothers k Hne) as [E|E]; rewrite E in Hx; [by apply Hn|done].
Qed.

(** Completing a block drops the record that has just become stale. *)
Lemma complete_coherent c row root content index : coherent c -> row ∈ st_blocks (table c) ->
  exists c', complete record_weight c (row_hash row) (row_id row) root content index = Some c' /\ coherent c' /\ table c' = complete_block (table c) (row_id row) root content index.
Proof using HWr.
  intros [[Hro Hids] (Bn & Bh & Bb) Hn Hh Hbl Ha] Hrow. unfold complete. destruct (Cache.forget_ok record_weight W HWr (blocks c) (row_hash row) Bb) as (cache & -> & Bb' & _ & Hf). cbn [mbind option_bind]. eexists. split; [done|]. split; [|done].
  set (upd := fun r => if row_id r =? row_id row then mkRow (row_id r) (row_hash r) (row_parent r) (row_height r) root content index (row_jumps r) else r).
  assert (Hupd : forall r, row_id (upd r) = row_id r /\ row_hash (upd r) = row_hash r /\ row_height (upd r) = row_height r) by (intros r; unfold upd; by destruct (row_id r =? row_id row)).
  set (st' := complete_block _ _ _ _ _). change (st_blocks st') with (map upd (st_blocks (table c))) in *. assert (Hro' : rows_ok st').
  { destruct Hro as [Hi Hhs]. split; change (st_blocks st') with (map upd (st_blocks (table c))); rewrite map_map; [erewrite map_ext; [exact Hi|]|erewrite map_ext; [exact Hhs|]]; intros r; apply Hupd. }
  assert (Hin' : forall r, r ∈ st_blocks (table c) -> upd r ∈ st_blocks st') by (intros r Hr; apply list_elem_of_fmap; by exists r).
  assert (Hex : extends (table c) st').
  { split; [|done]. intros id r [Hin Hid]%(id_row_Some _ _ _ Hro). exists (upd r). destruct (Hupd r) as (U1 & U2 & U3). split; [|done]. apply (id_row_Some st' id _ Hro'). split; [by apply Hin'|congruence]. }
  split; cbn [table nodes node_hashes blocks hashes_by_id]; [|done| | | |].
  - split; [done|]. intros r (r0 & -> & Hr0)%list_elem_of_fmap. destruct (Hupd r0) as (U1 & _). change (1 <= row_id (upd r0)). rewrite U1. by apply Hids.
  - intros k n Hk. by eapply storage_node_extends, Hn.
  - intros k h Hk. by apply Hh.
  - intros hash record Hk. rewrite Hf in Hk. case_decide as Hd; [done|]. specialize (Hbl hash record Hk). destruct (storage_block (table c) hash) as [r|] eqn:Hr; [|done].
    apply (storage_block_Some _ _ _ Hro) in Hr as [Hin Hrh]. assert (Hne : row_id r <> row_id row).
    { intros E. apply Hd. rewrite <- Hrh. assert (id_row (table c) (row_id row) = Some r) by (by apply (id_row_Some _ _ _ Hro)). assert (id_row (table c) (row_id row) = Some row) by (by apply (id_row_Some _ _ _ Hro)). congruence. }
    assert (Hsame : upd r = r) by (unfold upd; by rewrite (proj2 (Z.eqb_neq _ _) Hne)). rewrite (proj2 (storage_block_Some st' hash r Hro')); [done|]. split; [|done]. rewrite <- Hsame. by apply Hin'.
  - intros i hash Hi Hz. by eapply block_hash_extends, Ha.
Qed.

(** While everything cached agrees with the tables, reading a node, a node's
    hash, a block's record or a block's hash through the caches and the arena never
    panics, answers what the tables answer, errors included, and leaves everything
    cached in agreement. *)
Theorem cached_reads_are_reads c : coherent c ->
  (forall owner index, answers c (node node_weight c owner index) (storage_node (table c) owner index)) /\
  (forall owner index, answers c (node_hash hash_weight c owner index) (storage_node_hash (table c) owner index)) /\
  (forall hash, answers c (block record_weight c hash) (record_of <$> storage_block (table c) hash)) /\
  (forall id, 0 <= id -> answers c (block_hash c id) (storage_block_hash (table c) id)).
Proof using HWh HWn HWr.
  intros Hc. split; [intros; by apply node_answers|]. split; [intros; by apply node_hash_answers|]. split; [intros; by apply block_answers|]. intros. by apply block_hash_answers.
Qed.

(** After discard_above everything cached agrees with the tables again, and the
    tables hold no state above the height: no hash of a state that is gone can enter a
    root. *)
Theorem discard_leaves_no_stale_entry c height : coherent c -> store_ok (table c) -> NODE_CACHE_BYTES + ENTRY_OVERHEAD + W <= USIZE_MAX -> 0 <= W ->
  coherent (discard_above c height).2 /\ table (discard_above c height).2 = (storage_discard_above (table c) height).2 /\
  forall hash r, storage_block (table (discard_above c height).2) hash = Some r -> row_height r <= height.
Proof using Type.
  intros Hc Hst Hroom HW. unfold discard_above. pose proof (discard_ok (table c) height Hst) as Hok. pose proof (discard_block (table c) height Hst) as Hb. destruct (storage_discard_above (table c) height) as [n st'].
  cbn [fst snd table fresh] in *. split; [apply fresh_coherent; [apply Hok|intros r Hr; apply (so_row _ Hok r Hr)|done|done]|]. split; [done|]. intros hash r. rewrite Hb. destruct (storage_block (table c) hash) as [r0|]; [|done]. cbn.
  destruct (Z.leb_spec (row_height r0) height); [|done]. by intros [= <-].
Qed.

End Coherence.
