(* ===== verification/StackerDb.v ===== *)
(** * StackerDB chunks and signer messages

    [crates/nano-stackerdb/src/lib.rs], the chunks a slot's writer signs, and
    [src/signer_message.rs], the messages miners and signers put in them. The text
    of an error is left out; a [String] is its UTF-8 bytes. The HTTP client is
    outside the model. *)

From S2P Require Import Prelude Primitives CodecIO Crypto TxData TxCodec.
From S2P Require Import Nakamoto PeerWire.
From Stdlib Require Import Strings.String.

Definition MAX_CHUNK_SIZE : Z := 2 * 1024 * 1024.

(** ** Chunks *)

Module StackerDbError.
Inductive t : Type := ChunkTooLarge | Truncated | TrailingBytes | InvalidSignature | Crypto (e : CryptoError).
End StackerDbError.

#[export] Instance StackerDbError_read : ReadError StackerDbError.t :=
  {| length_error := StackerDbError.Truncated; end_error := StackerDbError.Truncated |}.

Record SlotMetadata : Type := mkSlotMetadata { sm_slot_id : Z; sm_slot_version : Z; sm_data_hash : Sha256Sum; sm_signature : list byte }.
Record Chunk : Type := mkChunk { ck_slot_id : Z; ck_slot_version : Z; ck_signature : list byte; ck_data : list byte }.

Definition unsigned_signature : list byte := replicate 65 0%u8.

Module SlotMetadata.
Section Ops.
Context `{HS : Hashes} `{SE : Secp256k1}.

Definition unsigned (slot_id slot_version : Z) (data_hash : Sha256Sum) : SlotMetadata := mkSlotMetadata slot_id slot_version data_hash unsigned_signature.

Definition digest (m : SlotMetadata) : Sha256Sum := sha512_256 (to_be_bytes 4 (sm_slot_id m) ++ to_be_bytes 4 (sm_slot_version m) ++ sm_data_hash m).

Definition sign (m : SlotMetadata) (key : secp_sk) : SlotMetadata :=
  mkSlotMetadata (sm_slot_id m) (sm_slot_version m) (sm_data_hash m) (StacksPrivateKey.sign key (digest m)).

Definition writer (m : SlotMetadata) : result StackerDbError.t Hash160 :=
  match MessageSignature.recover (sm_signature m) (digest m) with
  | Ok public_key => Ok (hash160 (StacksPublicKey.to_bytes_compressed public_key))
  | Err e => Err (StackerDbError.Crypto e)
  end.

Definition verify (m : SlotMetadata) (expected : Hash160) : result StackerDbError.t bool :=
  let? actual := writer m in Ok (bool_decide (actual = expected)).

End Ops.
End SlotMetadata.

Module Chunk.
Section Ops.
Context `{HS : Hashes} `{SE : Secp256k1}.

Definition new (slot_id slot_version : Z) (data : list byte) : Chunk := mkChunk slot_id slot_version unsigned_signature data.

Definition metadata (c : Chunk) : SlotMetadata := mkSlotMetadata (ck_slot_id c) (ck_slot_version c) (sha512_256 (ck_data c)) (ck_signature c).

Definition sign (c : Chunk) (key : secp_sk) : result StackerDbError.t Chunk :=
  if MAX_CHUNK_SIZE <? len (ck_data c) then Err StackerDbError.ChunkTooLarge
  else Ok (mkChunk (ck_slot_id c) (ck_slot_version c) (sm_signature (SlotMetadata.sign (metadata c) key)) (ck_data c)).

Definition verify (c : Chunk) (writer : Hash160) : result StackerDbError.t bool := SlotMetadata.verify (metadata c) writer.

Definition encode (c : Chunk) : result StackerDbError.t (list byte) :=
  if MAX_CHUNK_SIZE <? len (ck_data c) then Err StackerDbError.ChunkTooLarge else
  let? length := or_err (try_from U32_MAX (len (ck_data c))) StackerDbError.ChunkTooLarge in
  Ok (to_be_bytes 4 (ck_slot_id c) ++ to_be_bytes 4 (ck_slot_version c) ++ ck_signature c ++ to_be_bytes 4 length ++ ck_data c).

Definition read : ReaderE StackerDbError.t Chunk :=
  slot_id ← Reader.u32;
  slot_version ← Reader.u32;
  signature ← Reader.signature;
  length ← Reader.u32;
  length ← lift (or_err (try_from USIZE_MAX length) StackerDbError.ChunkTooLarge);
  if MAX_CHUNK_SIZE <? length then fail StackerDbError.ChunkTooLarge else
  data ← Reader.take length;
  mret (mkChunk slot_id slot_version signature data).

Definition decode (bytes : list byte) : result StackerDbError.t Chunk :=
  let? (chunk, r) := read (Reader.new bytes) in
  if negb (Reader.position r =? len bytes) then Err StackerDbError.TrailingBytes else Ok chunk.

End Ops.
End Chunk.

(** ** Signer messages *)

Definition LATEST_SIGNER_PROTOCOL_VERSION : Z := 2.
Definition BLOCK_RESPONSE_DATA_VERSION : byte := 5%u8.
Definition NOT_REJECTED : byte := 255%u8.

Record BlockProposal : Type := mkProposal { bp_block : NakamotoBlock; bp_bitcoin_height : Z; bp_reward_cycle : Z; bp_data : list byte }.

Definition empty_data : list byte := [1; 0; 0; 0; 4; 0; 0; 0; 0]%u8.

Record BlockAcceptance : Type := mkAcceptance {
  ba_signer_signature_hash : Sha256Sum;
  ba_signature : list byte;
  ba_server_version : list byte;
  ba_full_extend_timestamp : Z;
  ba_read_count_extend_timestamp : Z;
}.

(** [format!("nano-stacks/{}", env!("CARGO_PKG_VERSION"))]. *)
Definition SERVER_VERSION : list byte := list_byte_of_string "nano-stacks/0.1.0".

Definition with_extend_timestamp (hash : Sha256Sum) (signature : list byte) (timestamp : Z) : BlockAcceptance :=
  mkAcceptance hash signature SERVER_VERSION timestamp timestamp.

Definition acceptance_new (hash : Sha256Sum) (signature : list byte) : BlockAcceptance := with_extend_timestamp hash signature U64_MAX.

Record BlockRejection : Type := mkRejection {
  br_reason : list byte;
  br_reason_code : list byte;
  br_signer_signature_hash : Sha256Sum;
  br_chain_id : Z;
  br_signature : list byte;
  br_server_version : list byte;
  br_data : list byte;
}.

Inductive CurrentMiner : Type :=
| NoMiner
| ActiveMiner (public_key_hash : Hash160) (tenure_consensus_hash parent_tenure_consensus_hash : ConsensusHash)
    (parent_tenure_last_block : StacksBlockId) (parent_tenure_last_block_height : Z).

Record StateMachineUpdate : Type := mkUpdate {
  su_active_protocol_version : Z;
  su_local_supported_protocol_version : Z;
  su_bitcoin_consensus_hash : ConsensusHash;
  su_bitcoin_height : Z;
  su_current_miner : CurrentMiner;
  su_replay_transactions : list Transaction;
}.

Inductive BlockResponse : Type := Accepted (acceptance : BlockAcceptance) | Rejected (rejection : BlockRejection).

Module SignerMessageError.
Inductive t : Type :=
| Truncated
| TrailingBytes
| Oversized
| InvalidMessageType (kind : byte)
| InvalidResponseType (kind : byte)
| InvalidText
| InvalidProposalData
| InvalidMinerState (variant : byte)
| UnsupportedProtocolVersion (version : Z)
| Block (e : NakamotoCodecError)
| ReplayTransaction (e : CodecError).
End SignerMessageError.

#[export] Instance SignerMessageError_read : ReadError (option SignerMessageError.t) :=
  {| length_error := Some SignerMessageError.Truncated; end_error := Some SignerMessageError.Truncated |}.

Abbreviation SignerM := (ReaderE (option SignerMessageError.t)).

Module SignerMessage.
Section Ops.
Context `{HS : Hashes} `{ED : Edwards}.

Inductive t : Type :=
| Proposal (proposal : BlockProposal)
| Response (response : BlockResponse)
| Pushed (block : NakamotoBlock)
| Update (update : StateMachineUpdate)
| PreCommit (signer_signature_hash : Sha256Sum).

(** ** Writing *)

(** [Writer::bytes]. *)
Definition write_bytes (value : list byte) : result SignerMessageError.t (list byte) :=
  let? length := or_err (try_from U32_MAX (len value)) SignerMessageError.Oversized in Ok (to_be_bytes 4 length ++ value).

Definition write_response_data (response : BlockAcceptance) : result SignerMessageError.t (list byte) :=
  let inner := to_be_bytes 8 (ba_full_extend_timestamp response) ++ [NOT_REJECTED] ++ to_be_bytes 8 (ba_read_count_extend_timestamp response) ++ [0%u8] in
  let? inner := write_bytes inner in Ok (BLOCK_RESPONSE_DATA_VERSION :: inner).

Definition write_current_miner (miner : CurrentMiner) : list byte :=
  match miner with
  | NoMiner => [0%u8]
  | ActiveMiner key tenure parent_tenure last_block last_height => [1%u8] ++ key ++ tenure ++ parent_tenure ++ last_block ++ to_be_bytes 8 last_height
  end.

Definition update_version (update : StateMachineUpdate) : Z := Z.min (su_active_protocol_version update) (su_local_supported_protocol_version update).

Definition write_state_machine_update (update : StateMachineUpdate) : result SignerMessageError.t (list byte) :=
  let version := update_version update in
  if LATEST_SIGNER_PROTOCOL_VERSION <? version then Err (SignerMessageError.UnsupportedProtocolVersion version) else
  let? replay := if 1 <=? version then
                   let? count := or_err (try_from U32_MAX (len (su_replay_transactions update))) SignerMessageError.Oversized in
                   Ok (to_be_bytes 4 count ++ List.concat (map tx_bytes (su_replay_transactions update)))
                 else Ok [] in
  let? content := write_bytes (su_bitcoin_consensus_hash update ++ to_be_bytes 8 (su_bitcoin_height update) ++ write_current_miner (su_current_miner update) ++ replay) in
  Ok (to_be_bytes 8 (su_active_protocol_version update) ++ to_be_bytes 8 (su_local_supported_protocol_version update) ++ content).

Definition write_response (response : BlockResponse) : result SignerMessageError.t (list byte) :=
  match response with
  | Accepted a =>
      let? server_version := write_bytes (ba_server_version a) in
      let? data := write_response_data a in
      Ok ([1; 0]%u8 ++ ba_signer_signature_hash a ++ ba_signature a ++ server_version ++ data)
  | Rejected r =>
      let? reason := write_bytes (br_reason r) in
      let? server_version := write_bytes (br_server_version r) in
      Ok ([1; 1]%u8 ++ reason ++ br_reason_code r ++ br_signer_signature_hash r ++ to_be_bytes 4 (br_chain_id r) ++ br_signature r ++ server_version ++ br_data r)
  end.

(** A block that cannot be encoded panics. *)
Definition encode (message : t) : option (result SignerMessageError.t (list byte)) :=
  bytes ← match message with
          | Proposal p =>
              match bp_data p with
              | [] => Some (Err SignerMessageError.InvalidProposalData)
              | data => block ← encode_block (bp_block p);
                        Some (Ok ([0%u8] ++ block ++ to_be_bytes 8 (bp_bitcoin_height p) ++ to_be_bytes 8 (bp_reward_cycle p) ++ data))
              end
          | Response r => Some (write_response r)
          | Pushed b => block ← encode_block b; Some (Ok ([2%u8] ++ block))
          | PreCommit hash => Some (Ok ([7%u8] ++ hash))
          | Update u => Some (let? content := write_state_machine_update u in Ok ([6%u8] ++ content))
          end;
  Some (let? bytes := bytes in if MAX_CHUNK_SIZE <? len bytes then Err SignerMessageError.Oversized else Ok bytes).

(** ** Reading *)

(** [Reader::bytes]. *)
Definition read_bytes : SignerM (list byte) :=
  n ← Reader.u32;
  length ← lift (or_err (try_from USIZE_MAX n) (Some SignerMessageError.Oversized));
  if MAX_CHUNK_SIZE <? length then fail (Some SignerMessageError.Oversized) else Reader.take length.

Definition read_text : SignerM (list byte) :=
  s ← read_bytes; if negb (utf8_valid s) then fail (Some SignerMessageError.InvalidText) else mret s.

(** [&self.bytes[self.offset..]] panics past the end. *)
Definition rest_of (r : Reader) : option (list byte) := if rd_offset r <=? len (rd_bytes r) then Some (drop (Z.to_nat (rd_offset r)) (rd_bytes r)) else None.

Definition read_block_prefix : SignerM NakamotoBlock := fun r =>
  match rest_of r with
  | None => Err None
  | Some rest =>
      match decode_prefix rest with
      | None => Err None
      | Some (Err e) => Err (Some (SignerMessageError.Block e))
      | Some (Ok (block, consumed)) =>
          match checked_add USIZE_MAX (rd_offset r) consumed with
          | None => Err (Some SignerMessageError.Truncated)
          | Some offset => Ok (block, mkReader (rd_bytes r) offset)
          end
      end
  end.

(** [if !reader.is_empty() { return Err(TrailingBytes) }]. *)
Definition expect_empty : SignerM unit := fun r => if rd_offset r =? len (rd_bytes r) then Ok (tt, r) else Err (Some SignerMessageError.TrailingBytes).

(** A reading of a slice of its own. *)
Definition within {A} (slice : list byte) (rd : SignerM A) : SignerM A := fun r => let? (x, _) := rd (Reader.new slice) in Ok (x, r).

Definition read_response_content (version : byte) : SignerM (Z * Z) :=
  timestamp ← Reader.u64;
  marker ← Reader.byte;
  if negb (bool_decide (marker = NOT_REJECTED)) then fail (Some (SignerMessageError.InvalidResponseType 1%u8)) else
  if u8 version <? 4 then _ ← expect_empty; mret (timestamp, U64_MAX) else
  read_count ← Reader.u64;
  _ ← (if 5 <=? u8 version then
         flag ← Reader.byte; if negb (bool_decide (flag = 0%u8)) then _ ← Reader.take 32; mret tt else mret tt
       else mret tt);
  _ ← expect_empty;
  mret (timestamp, read_count).

Definition read_response_data : SignerM (Z * Z) :=
  version ← Reader.byte; bytes ← read_bytes; within bytes (read_response_content version).

Definition read_rejection_code : SignerM (list byte) :=
  code ← Reader.byte;
  if 5 <? u8 code then fail (Some (SignerMessageError.InvalidResponseType code)) else
  if bool_decide (code = 0%u8) then detail ← Reader.byte; mret [code; detail] else mret [code].

(** [self.bytes[start..self.offset].to_vec()] after the two reads. *)
Definition read_rejection_data : SignerM (list byte) := fun r =>
  match (_ ← Reader.byte; read_bytes) r with
  | Err e => Err e
  | Ok (_, r') => match get_range (rd_bytes r') (rd_offset r) (rd_offset r') with Some data => Ok (data, r') | None => Err None end
  end.

Definition read_current_miner : SignerM CurrentMiner :=
  variant ← Reader.byte;
  if bool_decide (variant = 0%u8) then mret NoMiner else
  if bool_decide (variant = 1%u8) then
    key ← Reader.take 20;
    tenure ← Reader.take 20;
    parent_tenure ← Reader.take 20;
    last_block ← Reader.take 32;
    last_height ← Reader.u64;
    mret (ActiveMiner key tenure parent_tenure last_block last_height)
  else fail (Some (SignerMessageError.InvalidMinerState variant)).

Definition read_replay_transaction : SignerM Transaction := Reader.prefix SignerMessageError.ReplayTransaction (fun bytes => Some (decode_transaction bytes)).

Definition read_update_content (active local version : Z) : SignerM StateMachineUpdate :=
  consensus_hash ← Reader.take 20;
  height ← Reader.u64;
  miner ← read_current_miner;
  transactions ← (if 1 <=? version then count ← Reader.u32; Reader.many (Z.to_nat count) read_replay_transaction else mret []);
  _ ← expect_empty;
  mret (mkUpdate active local consensus_hash height miner transactions).

Definition read_state_machine_update : SignerM StateMachineUpdate :=
  active ← Reader.u64;
  local ← Reader.u64;
  let version := Z.min active local in
  if LATEST_SIGNER_PROTOCOL_VERSION <? version then fail (Some (SignerMessageError.UnsupportedProtocolVersion version)) else
  n ← Reader.u32;
  length ← lift (or_err (try_from USIZE_MAX n) (Some SignerMessageError.Oversized));
  content ← Reader.take length;
  within content (read_update_content active local version).

Definition read_acceptance : SignerM BlockAcceptance :=
  hash ← Reader.take 32;
  signature ← Reader.signature;
  server_version ← read_text;
  timestamps ← read_response_data;
  mret (mkAcceptance hash signature server_version timestamps.1 timestamps.2).

Definition read_rejection : SignerM BlockRejection :=
  reason ← read_text;
  reason_code ← read_rejection_code;
  hash ← Reader.take 32;
  chain_id ← Reader.u32;
  signature ← Reader.signature;
  server_version ← read_text;
  data ← read_rejection_data;
  mret (mkRejection reason reason_code hash chain_id signature server_version data).

Definition read_response : SignerM BlockResponse :=
  kind ← Reader.byte;
  if bool_decide (kind = 0%u8) then a ← read_acceptance; mret (Accepted a)
  else if bool_decide (kind = 1%u8) then r ← read_rejection; mret (Rejected r)
  else fail (Some (SignerMessageError.InvalidResponseType kind)).

(** What is left of the input, [reader.take(reader.remaining().len())?]. *)
Definition read_rest : SignerM (list byte) := fun r =>
  match rest_of r with None => Err None | Some rest => Reader.take (len rest) r end.

Definition read_proposal : SignerM BlockProposal :=
  block ← read_block_prefix;
  height ← Reader.u64;
  cycle ← Reader.u64;
  data ← read_rest;
  mret (mkProposal block height cycle data).

Definition read_message : SignerM t :=
  kind ← Reader.byte;
  if bool_decide (kind = 0%u8) then p ← read_proposal; mret (Proposal p)
  else if bool_decide (kind = 1%u8) then r ← read_response; mret (Response r)
  else if bool_decide (kind = 2%u8) then b ← read_block_prefix; mret (Pushed b)
  else if bool_decide (kind = 6%u8) then u ← read_state_machine_update; mret (Update u)
  else if bool_decide (kind = 7%u8) then h ← Reader.take 32; mret (PreCommit h)
  else fail (Some (SignerMessageError.InvalidMessageType kind)).

Definition decode (bytes : list byte) : option (result SignerMessageError.t t) :=
  if MAX_CHUNK_SIZE <? len bytes then Some (Err SignerMessageError.Oversized)
  else settle (let? (x, _) := (m ← read_message; _ ← expect_empty; mret m) (Reader.new bytes) in Ok x).

End Ops.
End SignerMessage.
