(* ===== verification/StackerDbTheorems.v ===== *)
(** * Chunks and signer messages survive their encodings *)

From S2P Require Import Prelude Primitives CodecIO Crypto TxData TxCodec TxTheorems.
From S2P Require Import Nakamoto NakamotoTheorems PeerWire StackerDb.

(** ** Parsing *)

(** [rd] reads [x] from the bytes [bs], wherever they lie. *)
Definition parses {Er A} (rd : ReaderE Er A) (bs : list byte) (x : A) : Prop := forall r r', fits r -> reads r bs r' -> rd r = Ok (x, r').

Section Parses.
Context {Er : Type} `{RE : ReadError Er}.

Lemma parses_bind {A B} (m : ReaderE Er A) (k : A -> ReaderE Er B) b1 b2 x y : parses m b1 x -> parses (k x) b2 y -> parses (m ≫= k) (b1 ++ b2) y.
Proof. intros Hm Hk r r' Hf (r1 & R1 & R2)%reads_split. rewrite (bind_run _ _ _ x r1) by (by apply Hm). apply Hk; [by eapply reads_fits|done]. Qed.

Lemma parses_last {A B} (m : ReaderE Er A) (f : A -> B) bs x : parses m bs x -> parses (y ← m; mret (f y)) bs (f x).
Proof. intros Hm r r' Hf R. by rewrite (bind_run _ _ _ x r') by (by apply Hm). Qed.

Lemma parses_done {A B} (m : ReaderE Er A) (k : A -> ReaderE Er B) bs x y : parses m bs x -> (forall r, k x r = Ok (y, r)) -> parses (m ≫= k) bs y.
Proof. intros Hm Hk r r' Hf R. by rewrite (bind_run _ _ _ x r') by (by apply Hm). Qed.

Lemma parses_then {A B} (m : ReaderE Er A) (k : A -> ReaderE Er B) bs x y : parses m bs x -> parses (k x) [] y -> parses (m ≫= k) bs y.
Proof. intros Hm Hk. rewrite <- (app_nil_r bs). by eapply parses_bind. Qed.

Lemma parses_ret {A} (x : A) : parses (mret x : ReaderE Er A) [] x.
Proof. by intros r r' _ ->%reads_nil_inv. Qed.

Lemma parses_take n s : len s = n -> parses (Reader.take n : ReaderE Er _) s s.
Proof. intros Hn r r' Hf R. by apply take_reads. Qed.

Lemma parses_wire {A} (rd : ReaderE Er A) wr valid `{!Wire rd wr valid} x bs : valid x -> emits (wr x) bs -> parses rd bs x.
Proof. intros Hv E r r' Hf R. destruct (wire_complete (rd := rd) x Hv) as (b & E' & C). rewrite (emits_det _ _ _ E E') in R. by apply C. Qed.

Lemma parses_u32 z : is_u32 z -> parses (Reader.u32 : ReaderE Er Z) (to_be_bytes 4 z) z.
Proof. intros Hz. apply (parses_wire Reader.u32 Writer.u32 is_u32); [done|apply emits_raw]. Qed.

Lemma parses_u64 z : is_u64 z -> parses (Reader.u64 : ReaderE Er Z) (to_be_bytes 8 z) z.
Proof. intros Hz. apply (parses_wire Reader.u64 Writer.u64 is_u64); [done|apply emits_raw]. Qed.

Lemma parses_byte b : parses (Reader.byte : ReaderE Er byte) [b] b.
Proof. apply (parses_wire Reader.byte Writer.byte (fun _ => True)); [done|apply emits_raw]. Qed.

Lemma parses_lift {A} (n max : Z) (e : Er) (k : Z -> ReaderE Er A) bs x : 0 <= n <= max -> parses (k n) bs x -> parses (lift (or_err (try_from max n) e) ≫= k) bs x.
Proof. intros Hn Hk r r' Hf R. rewrite (proj2 (try_from_Some max _ _)) by (split; [done|lia]). cbn [or_err]. rewrite (bind_run _ _ _ n r) by done. by apply Hk. Qed.

End Parses.

#[export] Hint Resolve parses_u32 parses_u64 parses_byte parses_ret : parses.

(** ** Chunks *)

Definition chunk_ok (c : Chunk) : Prop := is_u32 (ck_slot_id c) /\ is_u32 (ck_slot_version c) /\ len (ck_signature c) = 65 /\ len (ck_data c) <= MAX_CHUNK_SIZE.

Lemma chunk_size_u32 n : 0 <= n <= MAX_CHUNK_SIZE -> is_u32 n /\ n <= USIZE_MAX.
Proof. unfold MAX_CHUNK_SIZE, is_u32, U32_MAX, USIZE_MAX, U64_MAX. lia. Qed.

Definition chunk_bytes (c : Chunk) : list byte :=
  to_be_bytes 4 (ck_slot_id c) ++ to_be_bytes 4 (ck_slot_version c) ++ ck_signature c ++ to_be_bytes 4 (len (ck_data c)) ++ ck_data c.

Lemma chunk_encode c : Chunk.encode c = if MAX_CHUNK_SIZE <? len (ck_data c) then Err StackerDbError.ChunkTooLarge else Ok (chunk_bytes c).
Proof.
  unfold Chunk.encode. destruct (Z.ltb_spec MAX_CHUNK_SIZE (len (ck_data c))) as [|Hle]; [done|]. destruct (chunk_size_u32 (len (ck_data c)) ltac:(lia)) as [[_ Hu] _].
  rewrite (proj2 (try_from_Some U32_MAX _ _)) by (split; [done|lia]). done.
Qed.

Lemma chunk_read_ok r c r' : reader_ok r -> Chunk.read r = Ok (c, r') -> chunk_ok c /\ reads r (chunk_bytes c) r'.
Proof.
  intros Hok H. unfold Chunk.read in H. apply bind_ok in H as (slot & r1 & H1 & H). apply bind_ok in H as (version & r2 & H2 & H). apply bind_ok in H as (sig & r3 & H3 & H).
  apply bind_ok in H as (n & r4 & H4 & H). wire_steps. apply bind_ok in H as (n' & r5 & H5 & H). unfold lift, or_err in H5. destruct (try_from USIZE_MAX n) as [m|] eqn:Ht; [|done].
  apply try_from_Some in Ht as [-> _]. injection H5 as <- <-. destruct (Z.ltb_spec MAX_CHUNK_SIZE n) as [|Hle]; [done|]. apply bind_ok in H as (data & r6 & H6 & H). injection H as <- <-.
  apply take_ok in H6 as (R6 & Hl & _); [|word_lia]. split; [split_and!; cbn; try done; lia|]. unfold chunk_bytes. cbn [ck_slot_id ck_slot_version ck_signature ck_data].
  repeat match goal with E : emits ?w ?b |- _ => pose proof (emits_det _ _ _ E (emits_raw _)); clear E end. rewrite Hl. subst. reads_tac.
Qed.

Lemma chunk_parses c : chunk_ok c -> parses Chunk.read (chunk_bytes c) c.
Proof.
  intros (Hs & Hv & Hsig & Hd). destruct (chunk_size_u32 (len (ck_data c)) ltac:(lia)) as [Hu Hus]. unfold Chunk.read, chunk_bytes.
  do 2 (eapply parses_bind; [by apply parses_u32|]). eapply parses_bind; [by apply parses_take|]. eapply parses_bind; [by apply parses_u32|].
  apply parses_lift; [lia|]. rewrite (proj2 (Z.ltb_ge _ _)) by lia. destruct c. by apply parses_last, parses_take.
Qed.

(** Decoding accepts exactly the encodings of chunks whose data is within the limit. *)
Theorem chunk_codec (bytes : list byte) (c : Chunk) : len bytes <= USIZE_MAX -> (Chunk.decode bytes = Ok c <-> chunk_ok c /\ Chunk.encode c = Ok bytes).
Proof.
  intros Hlen. rewrite chunk_encode. unfold Chunk.decode. split.
  - destruct (Chunk.read (Reader.new bytes)) as [[c' r]|e] eqn:Hr; [|done]. apply chunk_read_ok in Hr as [Hok R]; [|unfold reader_ok; cbn; lia].
    apply reads_new_inv in R as (rest & Hb & ->). cbn. destruct (Z.eqb_spec (len (chunk_bytes c')) (len bytes)) as [He|]; [|done]. intros [= <-]. split; [done|].
    rewrite (proj2 (Z.ltb_ge _ _)) by apply Hok. f_equal. rewrite Hb, length_app in He. destruct rest; [by rewrite app_nil_r in Hb|cbn in He; lia].
  - intros [Hok He]. rewrite (proj2 (Z.ltb_ge _ _)) in He by apply Hok. injection He as <-. rewrite (chunk_parses c Hok (Reader.new (chunk_bytes c)) (mkReader (chunk_bytes c) (len (chunk_bytes c)))); [|done|apply (reads_new _ _ []); by rewrite app_nil_r].
    cbn. by rewrite Z.eqb_refl.
Qed.

(** ** Signatures of chunks *)

Section Signed.
Context `{HS : Hashes} `{HO : !HashesOk} `{SE : Secp256k1} `{SO : !Secp256k1Ok}.

Definition key_writer (key : secp_sk) : Hash160 := hash160 (StacksPublicKey.to_bytes_compressed (StacksPrivateKey.public_key key)).

Lemma chunk_sign_spec c key c' : Chunk.sign c key = Ok c' ->
  ck_slot_id c' = ck_slot_id c /\ ck_slot_version c' = ck_slot_version c /\ ck_data c' = ck_data c /\ len (ck_data c) <= MAX_CHUNK_SIZE /\ len (ck_signature c') = 65 /\
  forall writer, Chunk.verify c' writer = Ok (bool_decide (key_writer key = writer)).
Proof.
  unfold Chunk.sign. destruct (Z.ltb_spec MAX_CHUNK_SIZE (len (ck_data c))) as [|Hle]; [done|]. intros [= <-]. cbn. split_and!; try done; [pose proof (sign_length key (SlotMetadata.digest (Chunk.metadata c))); lia|].
  intros writer. unfold Chunk.verify, SlotMetadata.verify, SlotMetadata.writer, Chunk.metadata. cbn. unfold SlotMetadata.digest. cbn. by rewrite recover_sign.
Qed.

(** What a chunk's signature covers. *)
Theorem chunk_digest_binds (a b : SlotMetadata) : is_u32 (sm_slot_id a) -> is_u32 (sm_slot_version a) -> is_u32 (sm_slot_id b) -> is_u32 (sm_slot_version b) ->
  SlotMetadata.digest a = SlotMetadata.digest b ->
  (forall x y, x = to_be_bytes 4 (sm_slot_id a) ++ to_be_bytes 4 (sm_slot_version a) ++ sm_data_hash a ->
     y = to_be_bytes 4 (sm_slot_id b) ++ to_be_bytes 4 (sm_slot_version b) ++ sm_data_hash b -> sha512_256 x = sha512_256 y -> x = y) ->
  sm_slot_id a = sm_slot_id b /\ sm_slot_version a = sm_slot_version b /\ sm_data_hash a = sm_data_hash b.
Proof.
  intros Ha Hva Hb Hvb Hd Hcoll. specialize (Hcoll _ _ eq_refl eq_refl Hd). apply app_inj_1 in Hcoll as [H1 Hcoll]; [|by rewrite !length_to_be_bytes]. apply app_inj_1 in Hcoll as [H2 H3]; [|by rewrite !length_to_be_bytes].
  apply (f_equal from_be_bytes) in H1, H2. unfold is_u32, U32_MAX in *. rewrite !from_to_be_bytes in H1, H2 by (cbn; lia). done.
Qed.

End Signed.

#[export] Instance SignerMessage_safe : SafeErrors SignerMessageError.t.
Proof. by split. Qed.

(** ** Messages *)

Section Messages.
Context `{HS : Hashes} `{HO : !HashesOk} `{ED : Edwards}.
Import SignerMessage.

Definition acceptance_ok (a : BlockAcceptance) : Prop :=
  len (ba_signer_signature_hash a) = 32 /\ len (ba_signature a) = 65 /\ utf8_valid (ba_server_version a) = true /\
  is_u64 (ba_full_extend_timestamp a) /\ is_u64 (ba_read_count_extend_timestamp a).

(** A code of one byte, or zero and a detail. *)
Definition reason_code_ok (code : list byte) : Prop := (exists d, code = [0%u8; d]) \/ exists c, code = [c] /\ c <> 0%u8 /\ u8 c <= 5.

(** A version, and bytes of a stated length. *)
Definition rejection_data_ok (data : list byte) : Prop := exists v d, data = v :: to_be_bytes 4 (len d) ++ d.

Definition rejection_ok (r : BlockRejection) : Prop :=
  utf8_valid (br_reason r) = true /\ reason_code_ok (br_reason_code r) /\ len (br_signer_signature_hash r) = 32 /\ is_u32 (br_chain_id r) /\
  len (br_signature r) = 65 /\ utf8_valid (br_server_version r) = true /\ rejection_data_ok (br_data r).

Definition miner_ok (m : CurrentMiner) : Prop :=
  match m with
  | NoMiner => True
  | ActiveMiner key tenure parent_tenure last_block last_height => len key = 20 /\ len tenure = 20 /\ len parent_tenure = 20 /\ len last_block = 32 /\ is_u64 last_height
  end.

Definition update_ok (u : StateMachineUpdate) : Prop :=
  is_u64 (su_active_protocol_version u) /\ is_u64 (su_local_supported_protocol_version u) /\ len (su_bitcoin_consensus_hash u) = 20 /\ is_u64 (su_bitcoin_height u) /\
  miner_ok (su_current_miner u) /\ Forall (fun tx => block_transaction_ok tx /\ no_pox tx = true) (su_replay_transactions u) /\
  (update_version u < 1 -> su_replay_transactions u = []).

Definition plain_block (b : NakamotoBlock) : Prop := block_ok b /\ Forall (fun tx => no_pox tx = true) (bl_transactions b).

Definition message_ok (m : t) : Prop :=
  match m with
  | Proposal p => plain_block (bp_block p) /\ is_u64 (bp_bitcoin_height p) /\ is_u64 (bp_reward_cycle p)
  | Response (Accepted a) => acceptance_ok a
  | Response (Rejected r) => rejection_ok r
  | Pushed b => plain_block b
  | Update u => update_ok u
  | PreCommit hash => len hash = 32
  end.

(** ** Reading to the end of a slice *)

Definition end_of (r : Reader) : Reader := mkReader (rd_bytes r) (len (rd_bytes r)).

Definition finishes {A} (rd : SignerM A) (bs : list byte) (x : A) : Prop := forall r, fits r -> reads r bs (end_of r) -> rd r = Ok (x, end_of r).

Lemma parses_finishes {A} (rd : SignerM A) bs x : parses rd bs x -> finishes rd bs x.
Proof. intros Hp r Hf R. by apply Hp. Qed.

Lemma finishes_bind {A B} (m : SignerM A) (k : A -> SignerM B) b1 b2 x y : parses m b1 x -> finishes (k x) b2 y -> finishes (m ≫= k) (b1 ++ b2) y.
Proof.
  intros Hm Hk r Hf R. apply reads_split in R as (r1 & R1 & R2). rewrite (bind_run _ _ _ x r1) by (by apply Hm). pose proof (reads_position _ _ _ R1) as [_ Hb].
  assert (end_of r1 = end_of r) as E by (unfold end_of; by rewrite Hb). rewrite <- E in R2 |- *. apply Hk; [by eapply reads_fits|done].
Qed.

Lemma finishes_last {A B} (m : SignerM A) (f : A -> B) bs x : finishes m bs x -> finishes (y ← m; mret (f y)) bs (f x).
Proof. intros Hm r Hf R. by rewrite (bind_run _ _ _ x (end_of r)) by (by apply Hm). Qed.

Lemma finishes_empty {A} (x : A) : finishes (_ ← expect_empty; mret x) [] x.
Proof. intros r _ R. apply reads_nil_inv in R. unfold mbind, ReaderE_bind, expect_empty. rewrite <- R. cbn. by rewrite Z.eqb_refl. Qed.

Lemma finishes_new {A} (rd : SignerM A) bs x : finishes rd bs x -> len bs <= USIZE_MAX -> rd (Reader.new bs) = Ok (x, mkReader bs (len bs)).
Proof. intros Hf Hl. apply (Hf (Reader.new bs)); [done|]. apply (reads_new bs bs []). by rewrite app_nil_r. Qed.

Lemma parses_within {A} slice (rd : SignerM A) x : finishes rd slice x -> len slice <= USIZE_MAX -> parses (within slice rd) [] x.
Proof. intros Hf Hl r r' _ ->%reads_nil_inv. unfold within. by rewrite (finishes_new _ _ _ Hf Hl). Qed.

(** ** The parts *)

Lemma write_bytes_Ok value out : write_bytes value = Ok out <-> len value <= U32_MAX /\ out = to_be_bytes 4 (len value) ++ value.
Proof.
  unfold write_bytes. destruct (try_from U32_MAX (len value)) as [n|] eqn:Ht; cbn [or_err].
  - apply try_from_Some in Ht as [-> Hr]. split; [intros [= <-]; split; [lia|done]|intros [_ ->]; done].
  - split; [done|]. intros [Hle _]. rewrite (proj2 (try_from_Some U32_MAX _ _)) in Ht by (split; [done|lia]). done.
Qed.

Lemma read_bytes_parses value : len value <= MAX_CHUNK_SIZE -> parses read_bytes (to_be_bytes 4 (len value) ++ value) value.
Proof.
  intros Hl. destruct (chunk_size_u32 (len value) ltac:(lia)) as [Hu Hus]. unfold read_bytes. eapply parses_bind; [by apply parses_u32|]. apply parses_lift; [lia|].
  rewrite (proj2 (Z.ltb_ge _ _)) by lia. by apply parses_take.
Qed.

Lemma read_text_parses value : utf8_valid value = true -> len value <= MAX_CHUNK_SIZE -> parses read_text (to_be_bytes 4 (len value) ++ value) value.
Proof.
  intros Hu Hl. unfold read_text. eapply parses_then; [by apply read_bytes_parses|]. rewrite Hu. apply parses_ret.
Qed.

Lemma read_block_parses b bs : plain_block b -> encode_block b = Some bs -> parses read_block_prefix bs b.
Proof.
  intros [Hb Hp] He. destruct (decode_prefix_complete b Hb Hp) as (bs' & He' & Hd). assert (bs' = bs) as -> by congruence. intros r r' Hf R. unfold read_block_prefix, rest_of.
  pose proof (reads_ok _ _ _ R) as [[H0 Hok] [_ Hok']]. rewrite (proj2 (Z.leb_le _ _)) by lia. pose proof (reads_drop _ _ _ R) as R'. apply reads_new_inv in R' as (rest & Heq & _).
  rewrite Heq, Hd by (rewrite <- Heq, length_drop; unfold fits in Hf; lia). pose proof (reads_position _ _ _ R) as [Hpos Hbytes]. unfold fits in Hf.
  rewrite (proj2 (checked_add_Some USIZE_MAX _ _ (rd_offset r'))); [|split; [done|]; rewrite Hbytes in Hok'; lia]. destruct r'. cbn in *. by rewrite Hbytes.
Qed.

Lemma response_data_parses a out : acceptance_ok a -> write_response_data a = Ok out -> parses read_response_data out (ba_full_extend_timestamp a, ba_read_count_extend_timestamp a).
Proof.
  intros (_ & _ & _ & Hf & Hr) Hw. unfold write_response_data in Hw. set (inner := _ ++ _ ++ _ ++ _) in Hw. destruct (write_bytes inner) as [w|] eqn:Hb; [|done]. injection Hw as <-.
  apply write_bytes_Ok in Hb as [Hl ->]. assert (Hi : len inner = 18) by (unfold inner; rewrite !length_app, !length_to_be_bytes; cbn; lia).
  unfold read_response_data. eapply (parses_bind _ _ [BLOCK_RESPONSE_DATA_VERSION]); [apply parses_byte|]. 
  eapply parses_then; [apply read_bytes_parses; rewrite Hi; done|]. apply parses_within; [|rewrite Hi; done]. unfold read_response_content, inner.
  eapply finishes_bind; [by apply parses_u64|]. eapply finishes_bind; [apply parses_byte|]. rewrite bool_decide_true by done. cbn [negb]. change (u8 BLOCK_RESPONSE_DATA_VERSION <? 4) with false. cbn iota.
  eapply finishes_bind; [by apply parses_u64|]. change (5 <=? u8 BLOCK_RESPONSE_DATA_VERSION) with true. cbn iota. apply (finishes_bind _ _ [0%u8] [] tt); [|apply finishes_empty].
  apply (parses_bind _ _ [0%u8] [] 0%u8); [apply parses_byte|]. rewrite bool_decide_true by done. apply parses_ret.
Qed.

Lemma Ok_inj {E A} (x y : A) : Ok x = (Ok y : result E A) -> x = y.
Proof. by intros [= ->]. Qed.

(** A length that leaves room in a message. *)
Ltac part_lia := repeat first [rewrite length_app in * | progress cbn [length] in *]; lia.

Lemma acceptance_parses a out : acceptance_ok a -> write_response (Accepted a) = Ok out -> len out <= MAX_CHUNK_SIZE ->
  exists body, out = [1; 0]%u8 ++ body /\ parses read_acceptance body a.
Proof.
  intros Ha Hw Hl. cbn [write_response] in Hw. destruct (write_bytes (ba_server_version a)) as [v|] eqn:Hv; [|done]. destruct (write_response_data a) as [d|] eqn:Hd; [|done]. apply Ok_inj in Hw as <-.
  eexists. split; [done|]. apply write_bytes_Ok in Hv as [_ ->]. pose proof Ha as (Hh & Hs & Hu & _). unfold read_acceptance. do 2 (eapply parses_bind; [by apply parses_take|]).
  eapply parses_bind; [apply read_text_parses; [done|part_lia]|]. pose proof (response_data_parses a d Ha Hd) as Hp. eapply parses_done; [exact Hp|]. by destruct a.
Qed.

Lemma rejection_code_parses code : reason_code_ok code -> parses read_rejection_code code code.
Proof.
  unfold read_rejection_code. intros [[d ->]|(c & -> & Hc & Hle)].
  - apply (parses_bind _ _ [0%u8] [d] 0%u8); [apply parses_byte|]. cbn -[mbind]. by apply (parses_last Reader.byte (fun d => [0%u8; d]) [d] d), parses_byte.
  - apply (parses_bind _ _ [c] [] c); [apply parses_byte|]. rewrite (proj2 (Z.ltb_ge _ _)) by lia. rewrite bool_decide_false by done. apply parses_ret.
Qed.

Lemma rejection_data_parses v d : len d <= MAX_CHUNK_SIZE -> parses read_rejection_data (v :: to_be_bytes 4 (len d) ++ d) (v :: to_be_bytes 4 (len d) ++ d).
Proof.
  intros Hl r r' Hf R. unfold read_rejection_data. assert (Hp : parses (_ ← Reader.byte; read_bytes : SignerM _) ([v] ++ to_be_bytes 4 (len d) ++ d) d) by (eapply parses_bind; [apply parses_byte|by apply read_bytes_parses]).
  rewrite (Hp r r' Hf R). by rewrite (reads_range _ _ _ R).
Qed.

Lemma rejection_parses j out : rejection_ok j -> write_response (Rejected j) = Ok out -> len out <= MAX_CHUNK_SIZE ->
  exists body, out = [1; 1]%u8 ++ body /\ parses read_rejection body j.
Proof.
  intros (Hr & Hc & Hh & Hi & Hs & Hv & (ver & d & Hd)) Hw Hl. cbn [write_response] in Hw. destruct (write_bytes (br_reason j)) as [wr|] eqn:Hwr; [|done]. destruct (write_bytes (br_server_version j)) as [wv|] eqn:Hwv; [|done].
  apply Ok_inj in Hw as <-. eexists. split; [done|]. apply write_bytes_Ok in Hwr as [_ ->]. apply write_bytes_Ok in Hwv as [_ ->]. unfold read_rejection.
  rewrite Hd in *. eapply parses_bind; [apply read_text_parses; [done|part_lia]|]. eapply parses_bind; [by apply rejection_code_parses|]. eapply parses_bind; [by apply parses_take|]. eapply parses_bind; [by apply parses_u32|].
  eapply parses_bind; [by apply parses_take|]. eapply parses_bind; [apply read_text_parses; [done|part_lia]|].
  assert (Hp : parses read_rejection_data (ver :: to_be_bytes 4 (len d) ++ d) (ver :: to_be_bytes 4 (len d) ++ d)) by (apply rejection_data_parses; part_lia).
  eapply parses_done; [exact Hp|]. rewrite <- Hd. by destruct j.
Qed.

Lemma miner_parses m : miner_ok m -> parses read_current_miner (write_current_miner m) m.
Proof.
  unfold read_current_miner. destruct m as [|key tenure parent_tenure last_block last_height]; cbn [write_current_miner]; intros Hm.
  - apply (parses_bind _ _ [0%u8] [] 0%u8); [apply parses_byte|]. apply parses_ret.
  - destruct Hm as (Hk & Ht & Hp & Hb & Hh). eapply (parses_bind _ _ [1%u8]); [apply parses_byte|]. rewrite bool_decide_false, bool_decide_true by done.
    do 4 (eapply parses_bind; [by apply parses_take|]). by eapply parses_done; [apply parses_u64|].
Qed.

Lemma replay_parses tx : block_transaction_ok tx /\ no_pox tx = true -> parses read_replay_transaction (tx_bytes tx) tx.
Proof.
  intros [[Htx He] Hp]. destruct (decode_no_pox tx Htx Hp) as (bs & He' & Hd). assert (bs = tx_bytes tx) as -> by congruence.
  assert (Hc : codec_at (Writer.raw (tx_bytes tx)) read_replay_transaction tx) by (apply (prefix_codec _ _ _ (tx_bytes tx)); [apply emits_raw|]; intros rest Hl; rewrite Hd by done; by destruct tx).
  destruct Hc as (b & E & C). rewrite (emits_det _ _ _ E (emits_raw _)) in C. exact C.
Qed.

Lemma many_parses {A} (rd : SignerM A) (wr : A -> list byte) xs : Forall (fun x => parses rd (wr x) x) xs -> parses (Reader.many (length xs) rd) (concat (map wr xs)) xs.
Proof.
  induction 1 as [|x xs Hx _ IH]; cbn [length Reader.many map concat]; [apply parses_ret|]. eapply parses_bind; [done|]. by eapply parses_done; [exact IH|].
Qed.

Lemma update_parses u out : update_ok u -> write_state_machine_update u = Ok out -> len out <= MAX_CHUNK_SIZE -> parses read_state_machine_update out u.
Proof.
  intros (Ha & Hlv & Hh & Hb & Hm & HF & Hempty) Hw Hlen. unfold write_state_machine_update in Hw. destruct (Z.ltb_spec LATEST_SIGNER_PROTOCOL_VERSION (update_version u)) as [|Hver]; [done|].
  set (replay := if 1 <=? update_version u then _ else _) in Hw. destruct replay as [rp|] eqn:Hrp; [|done]. set (content := _ ++ _ ++ _ ++ rp) in Hw.
  destruct (write_bytes content) as [wc|] eqn:Hwc; [|done]. apply Ok_inj in Hw as <-. apply write_bytes_Ok in Hwc as [Hcl ->]. unfold read_state_machine_update.
  do 2 (eapply parses_bind; [by apply parses_u64|]). fold (update_version u). rewrite (proj2 (Z.ltb_ge _ _)) by lia.
  assert (Hcm : len content <= MAX_CHUNK_SIZE) by part_lia. destruct (chunk_size_u32 (len content) ltac:(lia)) as [Hcu Hcs].
  eapply parses_bind; [by apply parses_u32|]. apply parses_lift; [lia|]. eapply parses_then; [by apply parses_take|]. apply parses_within; [|done].
  unfold read_update_content, content. eapply finishes_bind; [by apply parses_take|]. eapply finishes_bind; [by apply parses_u64|]. eapply finishes_bind; [by apply miner_parses|].
  rewrite <- (app_nil_r rp). apply (finishes_bind _ _ rp [] (su_replay_transactions u)); [|destruct u; apply finishes_empty]. unfold replay in Hrp. destruct (Z.leb_spec 1 (update_version u)) as [Hle|Hgt].
  - destruct (try_from U32_MAX (len (su_replay_transactions u))) as [n|] eqn:Ht; [|done]. apply try_from_Some in Ht as [-> Hn]. apply Ok_inj in Hrp as <-.
    eapply parses_bind; [apply parses_u32; split; lia|]. rewrite Nat2Z.id. apply many_parses. eapply Forall_impl; [exact HF|]. intros tx Htx. by apply replay_parses.
  - apply Ok_inj in Hrp as <-. rewrite (Hempty ltac:(lia)). apply parses_ret.
Qed.

Lemma proposal_finishes p bs : plain_block (bp_block p) -> is_u64 (bp_bitcoin_height p) -> is_u64 (bp_reward_cycle p) -> encode_block (bp_block p) = Some bs ->
  finishes read_proposal (bs ++ to_be_bytes 8 (bp_bitcoin_height p) ++ to_be_bytes 8 (bp_reward_cycle p) ++ bp_data p) p.
Proof.
  intros Hb Hh Hc He. unfold read_proposal. eapply finishes_bind; [by eapply read_block_parses|]. do 2 (eapply finishes_bind; [by apply parses_u64|]).
  assert (Hr : finishes read_rest (bp_data p) (bp_data p)).
  { intros r Hf R. unfold read_rest, rest_of. pose proof (reads_ok _ _ _ R) as [[H0 Hok] _]. rewrite (proj2 (Z.leb_le _ _)) by lia. pose proof (reads_drop _ _ _ R) as R'. apply reads_new_inv in R' as (rest & Heq & _).
    pose proof (reads_position _ _ _ R) as [Hp _]. cbn in Hp. assert (Hl : len (drop (Z.to_nat (rd_offset r)) (rd_bytes r)) = len (bp_data p)) by (rewrite length_drop; lia).
    rewrite Hl. by apply take_reads. }
  destruct p. by apply (finishes_last read_rest (mkProposal _ _ _)).
Qed.

Lemma message_decode_encode (m : t) (bytes : list byte) : message_ok m -> encode m = Some (Ok bytes) -> decode bytes = Some (Ok m).
Proof.
  intros Hm He. unfold encode in He. destruct (match m with Proposal _ => _ | _ => _ end) as [r|] eqn:Hr; [|done]. cbn [mbind option_bind] in He. destruct r as [out|]; [|done].
  destruct (Z.ltb_spec MAX_CHUNK_SIZE (len out)) as [|Hl]; [done|]. assert (out = bytes) as -> by congruence. clear He. unfold decode. rewrite (proj2 (Z.ltb_ge _ _)) by lia. destruct (chunk_size_u32 (len bytes) ltac:(lia)) as [_ Hus].
  assert (Hf : finishes (m ← read_message; _ ← expect_empty; mret m) bytes m); [|by rewrite (finishes_new _ _ _ Hf Hus)].
  assert (Hgen : finishes read_message bytes m -> finishes (m ← read_message; _ ← expect_empty; mret m) bytes m).
  { intros Hrm r0 Hfit R. rewrite (bind_run _ _ _ m (end_of r0)) by (by apply Hrm). unfold mbind, ReaderE_bind, expect_empty. cbn. by rewrite Z.eqb_refl. }
  apply Hgen. clear Hgen. destruct m as [p|[a|j]|b|u|hash]; cbn [message_ok] in Hm; unfold read_message.
  - destruct Hm as (Hb & Hh & Hc). destruct (bp_data p) as [|x data] eqn:Hdata; [done|]. destruct (encode_block (bp_block p)) as [bs|] eqn:He; [|done]. apply (inj Some), Ok_inj in Hr as <-.
    eapply (finishes_bind _ _ [0%u8]); [apply parses_byte|]. rewrite <- Hdata. by apply (finishes_last read_proposal Proposal), proposal_finishes.
  - apply (inj Some) in Hr. destruct (acceptance_parses a bytes Hm Hr Hl) as (body & -> & Hp). apply parses_finishes. eapply (parses_bind _ _ [1%u8] ([0%u8] ++ body)); [apply parses_byte|].
    cbn -[mbind mret app]. apply (parses_last read_response Response). unfold read_response. eapply (parses_bind _ _ [0%u8]); [apply parses_byte|]. by apply (parses_last read_acceptance Accepted).
  - apply (inj Some) in Hr. destruct (rejection_parses j bytes Hm Hr Hl) as (body & -> & Hp). apply parses_finishes. eapply (parses_bind _ _ [1%u8] ([1%u8] ++ body)); [apply parses_byte|].
    cbn -[mbind mret app]. apply (parses_last read_response Response). unfold read_response. eapply (parses_bind _ _ [1%u8]); [apply parses_byte|]. by apply (parses_last read_rejection Rejected).
  - destruct (encode_block b) as [bs|] eqn:He; [|done]. apply (inj Some), Ok_inj in Hr as <-. apply parses_finishes. eapply (parses_bind _ _ [2%u8]); [apply parses_byte|]. by apply (parses_last read_block_prefix Pushed), read_block_parses.
  - apply (inj Some) in Hr. destruct (write_state_machine_update u) as [w|] eqn:Hw; [|done]. apply Ok_inj in Hr as <-. apply parses_finishes. eapply (parses_bind _ _ [6%u8]); [apply parses_byte|].
    apply (parses_last read_state_machine_update Update), update_parses; [done|done|part_lia].
  - apply (inj Some), Ok_inj in Hr as <-. apply parses_finishes. eapply (parses_bind _ _ [7%u8]); [apply parses_byte|]. by apply (parses_last (Reader.take 32) PreCommit), parses_take.
Qed.

(** A signer message that the encoder accepts is decoded to itself, for the five
    kinds of message, responses of both sorts and updates with transactions to replay. *)
Theorem signer_message_roundtrip (m : t) (bytes : list byte) : message_ok m -> encode m = Some (Ok bytes) -> decode bytes = Some (Ok m).
Proof. apply message_decode_encode. Qed.

(** ** No message panics the decoder *)

Lemma safe_within {A} slice (rd : SignerM A) : safe rd -> safe (within slice rd).
Proof.
  intros Hrd r Hok. unfold within. assert (Hn : reader_ok (Reader.new slice)) by (unfold reader_ok; cbn; lia). specialize (Hrd _ Hn). by destruct (rd (Reader.new slice)) as [[x r']|].
Qed.

Lemma safe_empty : safe expect_empty.
Proof. intros r Hok. unfold expect_empty. by destruct (_ =? _). Qed.

Lemma safe_usize n e : safe (lift (or_err (try_from USIZE_MAX n) (Some e)) : SignerM Z).
Proof. intros r Hok. unfold lift, or_err. by destruct (try_from USIZE_MAX n). Qed.

Lemma usize_nonneg n e r x r' : 0 <= n -> (lift (or_err (try_from USIZE_MAX n) (Some e)) : SignerM Z) r = Ok (x, r') -> 0 <= x.
Proof. unfold lift, or_err. intros Hn. destruct (try_from USIZE_MAX n) as [m|] eqn:Ht; [|done]. apply try_from_Some in Ht as [-> Hm]. by intros [= <- _]. Qed.

Lemma safe_number n : 0 <= n -> safe (b ← Reader.take n; mret (from_be_bytes b) : SignerM Z).
Proof. intros Hn. apply safe_bind; [by apply safe_take|]. intros b. apply safe_ret. Qed.

Lemma number_nonneg n r x r' : (b ← Reader.take n; mret (from_be_bytes b) : SignerM Z) r = Ok (x, r') -> 0 <= x.
Proof. intros H. apply bind_ok in H as (b & r1 & _ & H). injection H as <- _. apply from_be_bytes_range. Qed.

(** A length prefix of [n] bytes, as the [usize] it gives. *)
Lemma safe_sized {A} n e (k : Z -> SignerM A) : 0 <= n -> (forall x, 0 <= x -> safe (k x)) ->
  safe (v ← (b ← Reader.take n; mret (from_be_bytes b) : SignerM Z); length ← lift (or_err (try_from USIZE_MAX v) (Some e)); k length).
Proof.
  intros Hn Hk. apply (safe_bind_post (fun v => 0 <= v)); [by apply safe_number|intros r v r' _; apply number_nonneg|]. intros v Hv.
  apply (safe_bind_post (fun x => 0 <= x)); [apply safe_usize|intros r x r' _; by apply usize_nonneg|done].
Qed.

Lemma safe_read_bytes : safe read_bytes.
Proof.
  unfold read_bytes. apply safe_sized; [done|]. intros x Hx. case_match; [apply safe_fail|by apply safe_take].
Qed.

Lemma safe_read_text : safe read_text.
Proof. unfold read_text. apply safe_bind; [apply safe_read_bytes|]. intros s. case_match; [apply safe_fail|apply safe_ret]. Qed.

Lemma safe_block_prefix : safe read_block_prefix.
Proof.
  intros r [H0 Hok]. unfold read_block_prefix, rest_of. rewrite (proj2 (Z.leb_le _ _)) by lia. destruct (decode_prefix_spec (drop (Z.to_nat (rd_offset r)) (rd_bytes r))) as (o & Ho & Hs). rewrite Ho.
  destruct o as [[b n]|e]; [|done]. destruct (Hs b n eq_refl) as (raw & rest & _ & Hd & ->). destruct (checked_add USIZE_MAX (rd_offset r) (len raw)) as [off|] eqn:Hc; [|done].
  apply checked_add_Some in Hc as [-> _]. apply (f_equal length) in Hd. rewrite length_drop, length_app in Hd. unfold reader_ok. cbn.  lia.
Qed.

Lemma safe_rest : safe read_rest.
Proof. intros r [H0 Hok]. unfold read_rest, rest_of. rewrite (proj2 (Z.leb_le _ _)) by lia. apply safe_take; [lia|done]. Qed.

Lemma safe_rejection_data : safe read_rejection_data.
Proof.
  intros r Hok. unfold read_rejection_data. destruct ((_ ← Reader.byte; read_bytes) r) as [[d r']|e] eqn:Hr.
  - apply bind_ok in Hr as (v & r1 & H1 & Hr). wire_steps. unfold read_bytes in Hr. apply bind_ok in Hr as (n & r2 & H2 & Hr). pose proof (number_nonneg _ _ _ _ H2) as Hn. wire_steps. apply bind_ok in Hr as (m & r3 & H3 & Hr). pose proof (usize_nonneg _ _ _ _ _ Hn H3) as Hm.
    assert (r3 = r2) as -> by (unfold lift, or_err in H3; destruct (try_from USIZE_MAX n); [congruence|done]). destruct (_ <? _); [done|]. apply take_ok in Hr as (R3 & _); [|done].
    assert (Hall : exists bs, reads r bs r') by (eexists; reads_tac). destruct Hall as [bs Hall]. rewrite (reads_range _ _ _ Hall). by apply reads_ok in Hall as [_ ?].
  - assert (Hs : safe (_ ← Reader.byte; read_bytes : SignerM _)) by (apply safe_bind; [apply safe_byte|intros; apply safe_read_bytes]). specialize (Hs r Hok). by rewrite Hr in Hs.
Qed.

#[local] Hint Resolve safe_within safe_empty safe_usize safe_read_bytes safe_read_text safe_block_prefix safe_rest safe_rejection_data safe_byte : safe.

(** Follow the shape of a reading. *)
Ltac safe_tac1 :=
  first
    [ apply safe_ret | apply safe_fail | apply safe_byte | apply safe_empty | apply safe_read_bytes | apply safe_read_text | apply safe_block_prefix | apply safe_rest | apply safe_rejection_data
    | apply safe_within | apply safe_number; done | apply safe_take; done | apply safe_bind; [|intros ?] | case_match ].
Ltac safe_tac := repeat safe_tac1.

Lemma safe_response : safe read_response.
Proof. unfold read_response, read_acceptance, read_rejection, read_rejection_code, read_response_data, read_response_content, Reader.signature, Reader.u64, Reader.u32. safe_tac. Qed.

Lemma safe_replay : safe read_replay_transaction.
Proof. apply safe_prefix, decode_transaction_safe. Qed.

Lemma safe_update : safe read_state_machine_update.
Proof.
  unfold read_state_machine_update. apply safe_bind; [by apply safe_number|]. intros active. apply safe_bind; [by apply safe_number|]. intros local. cbn zeta. case_match; [apply safe_fail|].
  apply safe_sized; [done|]. intros x Hx. apply safe_bind; [by apply safe_take|]. intros content.
  apply safe_within. unfold read_update_content, read_current_miner, Reader.u64. safe_tac; by apply safe_many, safe_replay.
Qed.

Lemma message_decode_total (bytes : list byte) : is_Some (decode bytes).
Proof.
  unfold decode. destruct (_ <? _); [by eexists|]. assert (Hs : safe (m ← read_message; _ ← expect_empty; mret m)).
  { apply safe_bind; [|intros m; apply safe_bind; [apply safe_empty|intros; apply safe_ret]]. unfold read_message, read_proposal, Reader.u64. pose proof safe_response as S1. pose proof safe_update as S2. repeat (first [exact S1|exact S2|progress safe_tac1]). }
  specialize (Hs (Reader.new bytes)). destruct ((m ← read_message; _ ← expect_empty; mret m) (Reader.new bytes)) as [[m r]|[e|]]; cbn; [by eexists|by eexists|].
  by destruct Hs; [unfold reader_ok; cbn; lia|].
Qed.

(** No input panics the decoder of signer messages. *)
Theorem signer_message_decode_total (bytes : list byte) : is_Some (decode bytes).
Proof. apply message_decode_total. Qed.

End Messages.
