(* ===== verification/Effects.v ===== *)
(** * Operations that change a state, can fail and can panic

    [Eff S E A] is a Rust method on [&mut S] that returns [Result<A, E>]: it gives
    the result beside the state it leaves, an error included, and [None] where the
    code panics. *)

From S2P Require Import Prelude.

Definition Eff (S E A : Type) : Type := S -> option (result E A * S).

#[global] Instance Eff_ret {S E} : MRet (Eff S E) := fun A x s => Some (Ok x, s).

#[global] Instance Eff_bind {S E} : MBind (Eff S E) := fun A B k m s =>
  match m s with
  | None => None
  | Some (Ok x, s') => k x s'
  | Some (Err e, s') => Some (Err e, s')
  end.

(** [Result::map_err]. *)
Definition map_err {E F A} (f : E -> F) (r : result E A) : result F A := match r with Ok x => Ok x | Err e => Err (f e) end.

(** [return Err(e)]. *)
Definition throw {S E A} (e : E) : Eff S E A := fun s => Some (Err e, s).

(** The fields of [self]. *)
Definition ask {S E A} (f : S -> A) : Eff S E A := fun s => Some (Ok (f s), s).

Definition modify {S E} (f : S -> S) : Eff S E unit := fun s => Some (Ok tt, f s).

(** A value whose computation may panic. *)
Definition unwrap {S E A} (o : option A) : Eff S E A := fun s => match o with Some x => Some (Ok x, s) | None => None end.

(** The [?] on a [Result] of another error type. *)
Definition try_with {S E F A} (f : F -> E) (r : result F A) : Eff S E A := fun s => match r with Ok x => Some (Ok x, s) | Err e => Some (Err (f e), s) end.

(** A method of a part of the state; [f] is the [map_err]. *)
Definition zoom {S P E F A} (get : S -> P) (set : P -> S -> S) (f : F -> E) (m : Eff P F A) : Eff S E A := fun s =>
  match m (get s) with
  | None => None
  | Some (Ok x, p) => Some (Ok x, set p s)
  | Some (Err e, p) => Some (Err (f e), set p s)
  end.

Section Laws.
Context {S E : Type}.

Lemma eff_bind_inv {A B} (m : Eff S E A) (k : A -> Eff S E B) s r s' : (m ≫= k) s = Some (r, s') ->
  (exists x s1, m s = Some (Ok x, s1) /\ k x s1 = Some (r, s')) \/ (exists e, m s = Some (Err e, s') /\ r = Err e).
Proof. unfold mbind, Eff_bind. destruct (m s) as [[[x|e] s1]|]; [|intros [= <- <-]; right|done]; eauto. Qed.

Lemma eff_bind_ok {A B} (m : Eff S E A) (k : A -> Eff S E B) s y s' : (m ≫= k) s = Some (Ok y, s') -> exists x s1, m s = Some (Ok x, s1) /\ k x s1 = Some (Ok y, s').
Proof. intros [?|(e & _ & ?)]%eff_bind_inv; [done|done]. Qed.

Lemma eff_bind_run {A B} (m : Eff S E A) (k : A -> Eff S E B) s x s1 : m s = Some (Ok x, s1) -> (m ≫= k) s = k x s1.
Proof. intros H. unfold mbind, Eff_bind. by rewrite H. Qed.

(** [keeps P m]: whatever [m] returns, it leaves a state that satisfies [P]. *)
Definition keeps (P : S -> Prop) {A} (m : Eff S E A) : Prop := forall s r s', P s -> m s = Some (r, s') -> P s'.

Lemma keeps_bind P {A B} (m : Eff S E A) (k : A -> Eff S E B) : keeps P m -> (forall x, keeps P (k x)) -> keeps P (m ≫= k).
Proof. intros Hm Hk s r s' Hs [(x & s1 & H1 & H2)|(e & H1 & _)]%eff_bind_inv; [eapply Hk, H2; by eapply Hm|by eapply Hm]. Qed.

Lemma keeps_same P {A} (m : Eff S E A) : (forall s r s', m s = Some (r, s') -> s' = s) -> keeps P m.
Proof. intros H s r s' Hs ->%H. done. Qed.

Lemma ask_same {A} (f : S -> A) s (r : result E A) s' : ask f s = Some (r, s') -> s' = s.
Proof. by intros [= _ <-]. Qed.

Lemma unwrap_same {A} (o : option A) (s : S) (r : result E A) s' : unwrap o s = Some (r, s') -> s' = s.
Proof. unfold unwrap. destruct o; [|done]. by intros [= _ <-]. Qed.

Lemma try_with_same {F A} (f : F -> E) (o : result F A) (s : S) (r : result E A) s' : try_with f o s = Some (r, s') -> s' = s.
Proof. unfold try_with. by destruct o; intros [= _ <-]. Qed.

Lemma eff_bind_total {A B} (m : Eff S E A) (k : A -> Eff S E B) (s : S) : is_Some (m s) -> (forall x s', is_Some (k x s')) -> is_Some ((m ≫= k) s).
Proof. intros [[[x|e] s'] H] Hk; unfold mbind, Eff_bind; rewrite H; [apply Hk|by eexists]. Qed.

End Laws.
