(* ===== verification/EmbeddedSigner.v ===== *)
(** * The embedded signer: [crates/nano-signer/src/lib.rs]

    What a miner's proposal must satisfy before it is signed, the journal of the
    blocks signed so far, and the signer that answers proposals. The clock and the
    disk answer from a list of outcomes that the model is given; the [hex] and
    [serde_json] crates are parameters. The text of an error is a constructor. *)

From stdpp Require Import gmap sorting.
From S2P Require Import Prelude Primitives CodecIO Crypto TxData TxCodec.
From S2P Require Import Nakamoto Effects PeerWire StackerDb.

(** ** Proposals *)

(** What [SyncClient] reports of a sortition, without its diagnostics. *)
Record SortitionInfo : Type := mkSortitionInfo {
  si_bitcoin_block_hash : list byte;
  si_bitcoin_height : Z;
  si_bitcoin_timestamp : Z;
  si_sortition_id : list byte;
  si_parent_sortition_id : list byte;
  si_consensus_hash : ConsensusHash;
  si_was_sortition : bool;
  si_miner_public_key_hash : option Hash160;
  si_stacks_parent_consensus_hash : option ConsensusHash;
  si_last_sortition_consensus_hash : option ConsensusHash;
  si_committed_block_hash : option (list byte);
  si_vrf_seed : option (list byte);
}.

(** The reasons a proposal is refused for. *)
Inductive Refusal : Type :=
| WrongRewardCycle
| WrongBitcoinHeight
| WrongConsensusHash
| NoSortition
| NoMinerKey
| AlreadySigned
| BadMinerSignature (e : CryptoError)
| WrongMiner
| ContextNotRefreshed
| ChainRefusal (text : list byte).

(** The trait [ProposalValidator]. *)
Class ProposalValidator (V : Type) : Type := validate_proposal : BlockProposal -> Eff V Refusal unit.

Record SortitionProposalValidator : Type := mkSortitionValidator { sv_sortition : SortitionInfo; sv_reward_cycle : Z }.

Section Validators.
Context `{HS : Hashes} `{SE : Secp256k1}.

Definition validate_sortition (v : SortitionProposalValidator) (p : BlockProposal) : option (result Refusal unit) :=
  let header := bl_header (bp_block p) in
  if negb (bp_reward_cycle p =? sv_reward_cycle v) then Some (Err WrongRewardCycle) else
  if negb (bp_bitcoin_height p =? si_bitcoin_height (sv_sortition v)) then Some (Err WrongBitcoinHeight) else
  if negb (bool_decide (hd_consensus_hash header = si_consensus_hash (sv_sortition v))) then Some (Err WrongConsensusHash) else
  if negb (si_was_sortition (sv_sortition v)) then Some (Err NoSortition) else
  match si_miner_public_key_hash (sv_sortition v) with
  | None => Some (Err NoMinerKey)
  | Some expected_key =>
      if negb (bool_decide (hd_signer_signatures header = [])) then Some (Err AlreadySigned) else
      digest ← miner_signature_hash header;
      match MessageSignature.recover (hd_miner_signature header) digest with
      | Err e => Some (Err (BadMinerSignature e))
      | Ok miner_key =>
          if negb (bool_decide (hash160 (StacksPublicKey.to_bytes_compressed miner_key) = expected_key)) then Some (Err WrongMiner) else Some (Ok tt)
      end
  end.

#[global] Instance SortitionProposalValidator_validator : ProposalValidator SortitionProposalValidator := fun p v =>
  r ← validate_sortition v p; Some (r, v).

(** A validator behind the context of the active sortition. *)
Record ActiveSortitionValidator (V : Type) : Type := mkActiveValidator { av_context : option SortitionProposalValidator; av_validator : V }.
#[global] Arguments mkActiveValidator {V}.
#[global] Arguments av_context {V}.
#[global] Arguments av_validator {V}.

Definition active_new {V} (validator : V) : ActiveSortitionValidator V := mkActiveValidator None validator.

Definition set_context {V} (sortition : SortitionInfo) (reward_cycle : Z) (v : ActiveSortitionValidator V) : ActiveSortitionValidator V :=
  mkActiveValidator (Some (mkSortitionValidator sortition reward_cycle)) (av_validator v).

Definition clear_context {V} (v : ActiveSortitionValidator V) : ActiveSortitionValidator V := mkActiveValidator None (av_validator v).

Definition set_av_validator {V} (inner : V) (v : ActiveSortitionValidator V) : ActiveSortitionValidator V := mkActiveValidator (av_context v) inner.

#[global] Instance ActiveSortitionValidator_validator {V} `{ProposalValidator V} : ProposalValidator (ActiveSortitionValidator V) := fun p =>
  context ← ask av_context;
  match context with
  | None => throw ContextNotRefreshed
  | Some c =>
      r ← unwrap (validate_sortition c p);
      _ ← try_with id r;
      zoom av_validator set_av_validator id (validate_proposal p)
  end.

(** [ProposalValidators]: the first, then the second. *)
#[global] Instance ProposalValidators_validator {A B} `{ProposalValidator A} `{ProposalValidator B} : ProposalValidator (A * B) := fun p =>
  _ ← zoom fst (fun a v => (a, v.2)) id (validate_proposal p);
  zoom snd (fun b v => (v.1, b)) id (validate_proposal p).

End Validators.

(** ** The clock, the disk and the encodings *)

(** The outcomes of the calls to the operating system, in their order. *)
Class Host : Type := {
  IoError : Type;
  (** [SystemTime::now().duration_since(UNIX_EPOCH)] in seconds. *)
  system_time : nat -> option Z;
  (** A call that fails; an atomic write that fails may have replaced the file. *)
  io_fault : nat -> option IoError;
  io_applied : nat -> bool;
  not_found : IoError;
  (** Asking whether a path exists fails. *)
  stat_fault : nat -> bool;
  (** The journal's path names a directory to create. *)
  has_parent : bool;
}.

(** What the calls so far leave: how many there were, and the journal's bytes. *)
Record World : Type := mkWorld { w_readings : nat; w_calls : nat; w_file : option (list byte) }.

Record PersistedSignedBlock : Type := mkPersistedBlock {
  pb_consensus_hash : list byte;
  pb_chain_length : Z;
  pb_signature_hash : list byte;
  pb_chunk : list byte;
  pb_signed_at_unix : Z;
}.

Record PersistedSignerState : Type := mkPersisted {
  ps_version : Z;
  ps_writer_public_key_hash : list byte;
  ps_writer_slot : Z;
  ps_next_slot_version : Z;
  ps_signed : list PersistedSignedBlock;
}.

(** The [hex] and [serde_json] crates. *)
Class Encodings : Type := {
  JsonError : Type;
  hex_encode : list byte -> list byte;
  hex_decode : list byte -> option (list byte);
  to_vec_pretty : PersistedSignerState -> option (list byte);
  from_slice : list byte -> result JsonError PersistedSignerState;
}.

Definition persisted_block_typed (b : PersistedSignedBlock) : Prop := is_u64 (pb_chain_length b) /\ is_u64 (pb_signed_at_unix b).
Definition persisted_typed (s : PersistedSignerState) : Prop :=
  is_u8 (ps_version s) /\ is_u32 (ps_writer_slot s) /\ is_u32 (ps_next_slot_version s) /\ Forall persisted_block_typed (ps_signed s).

Class EncodingsOk `{Encodings} : Prop := {
  hex_roundtrip : forall b, hex_decode (hex_encode b) = Some b;
  json_roundtrip : forall s bytes, persisted_typed s -> to_vec_pretty s = Some bytes -> from_slice bytes = Ok s;
}.

Section HostOps.
Context `{HT : Host}.

Definition now_unix (w : World) : Z * World :=
  (default 0 (system_time (w_readings w)), mkWorld (S (w_readings w)) (w_calls w) (w_file w)).

(** One call to the file system that changes nothing of the journal. *)
Definition io_call (w : World) : result IoError unit * World :=
  (match io_fault (w_calls w) with Some e => Err e | None => Ok tt end, mkWorld (w_readings w) (S (w_calls w)) (w_file w)).

(** [AtomicFile::write]. *)
Definition atomic_write (bytes : list byte) (w : World) : result IoError unit * World :=
  match io_fault (w_calls w) with
  | None => (Ok tt, mkWorld (w_readings w) (S (w_calls w)) (Some bytes))
  | Some e => (Err e, mkWorld (w_readings w) (S (w_calls w)) (if io_applied (w_calls w) then Some bytes else w_file w))
  end.

(** [Path::exists], which is [false] when the call fails. *)
Definition path_exists (w : World) : bool * World :=
  (negb (stat_fault (w_calls w)) && bool_decide (is_Some (w_file w)), mkWorld (w_readings w) (S (w_calls w)) (w_file w)).

(** [fs::read]. *)
Definition read_file (w : World) : result IoError (list byte) * World :=
  let '(r, w) := io_call w in (let? _ := r in or_err (w_file w) not_found, w).

End HostOps.

(** ** The journal *)

Abbreviation Position := (list byte * Z)%type.

Record SignedBlock : Type := mkSignedBlock { sb_signature_hash : Sha256Sum; sb_chunk : Chunk; sb_signed_at_unix : Z }.

Abbreviation SignedBlocks := (gmap Position SignedBlock).

Definition SIGNER_STATE_VERSION : Z := 1.
Definition DEFAULT_CONFLICT_TIMEOUT_SECS : Z := 30.
Definition TENURE_IDLE_TIMEOUT_SECS : Z := 122.

(** What makes a journal invalid. *)
Inductive InvalidState : Type :=
| UnsupportedVersion (version : Z)
| WrongWriterKey
| WrongWriterSlot
| BadHex
| WrongLength (expected found : Z)
| ChunkWrongSlot
| ChunkNotReserved
| ChunkNotOurs
| NotBlockResponse
| ResponseWrongHash
| BadResponseSignature (e : CryptoError)
| ResponseNotOurs
| DuplicatePosition
| CouldNotEncode.

Section Signer.
Context `{HS : Hashes} `{SE : Secp256k1} `{ED : Edwards} `{HT : Host} `{EN : Encodings}.

Inductive SignerStateError : Type :=
| StateIo (e : IoError)
| StateDecode (e : JsonError)
| StateInvalid (reason : InvalidState)
| StateChunk (e : StackerDbError.t)
| StateMessage (e : SignerMessageError.t).

Record SignerConfig : Type := mkConfig { sc_private_key : secp_sk; sc_writer_slot : Z; sc_next_slot_version : Z; sc_conflict_timeout_secs : Z }.

Definition writer_identity (private_key : secp_sk) : Hash160 := hash160 (StacksPublicKey.to_bytes_compressed (StacksPrivateKey.public_key private_key)).

Definition decode_hex (n : Z) (value : list byte) : result SignerStateError (list byte) :=
  let? bytes := or_err (hex_decode value) (StateInvalid BadHex) in
  if len bytes =? n then Ok bytes else Err (StateInvalid (WrongLength n (len bytes))).

(** One entry of the journal, checked and inserted. *)
Definition validate_entry (persisted : PersistedSignerState) (config : SignerConfig) (signed : SignedBlocks) (entry : PersistedSignedBlock) : option (result SignerStateError SignedBlocks) :=
  let writer := writer_identity (sc_private_key config) in
  match
    let? consensus_hash := decode_hex 20 (pb_consensus_hash entry) in
    let? signature_hash := decode_hex 32 (pb_signature_hash entry) in
    let? bytes := or_err (hex_decode (pb_chunk entry)) (StateInvalid BadHex) in
    let? chunk := map_err StateChunk (Chunk.decode bytes) in
    if negb (ck_slot_id chunk =? ps_writer_slot persisted) then Err (StateInvalid ChunkWrongSlot) else
    if ps_next_slot_version persisted <=? ck_slot_version chunk then Err (StateInvalid ChunkNotReserved) else
    let? verified := map_err StateChunk (Chunk.verify chunk writer) in
    if negb verified then Err (StateInvalid ChunkNotOurs) else
    Ok (consensus_hash, signature_hash, chunk)
  with
  | Err e => Some (Err e)
  | Ok (consensus_hash, signature_hash, chunk) =>
      message ← SignerMessage.decode (ck_data chunk);
      Some (
        let? message := map_err StateMessage message in
        match message with
        | SignerMessage.Response (Accepted response) =>
            if negb (bool_decide (ba_signer_signature_hash response = signature_hash)) then Err (StateInvalid ResponseWrongHash) else
            let? response_key := map_err (fun e => StateInvalid (BadResponseSignature e)) (MessageSignature.recover (ba_signature response) signature_hash) in
            if negb (bool_decide (hash160 (StacksPublicKey.to_bytes_compressed response_key) = writer)) then Err (StateInvalid ResponseNotOurs) else
            let position := (consensus_hash, pb_chain_length entry) in
            match signed !! position with
            | Some _ => Err (StateInvalid DuplicatePosition)
            | None => Ok (<[position := mkSignedBlock signature_hash chunk (pb_signed_at_unix entry)]> signed)
            end
        | _ => Err (StateInvalid NotBlockResponse)
        end)
  end.

Fixpoint validate_entries (persisted : PersistedSignerState) (config : SignerConfig) (entries : list PersistedSignedBlock) (signed : SignedBlocks) : option (result SignerStateError SignedBlocks) :=
  match entries with
  | [] => Some (Ok signed)
  | entry :: rest =>
      r ← validate_entry persisted config signed entry;
      match r with Err e => Some (Err e) | Ok signed => validate_entries persisted config rest signed end
  end.

(** [SignerStateStore::validate]. *)
Definition validate_state (persisted : PersistedSignerState) (config : SignerConfig) : option (result SignerStateError (Z * SignedBlocks)) :=
  if negb (ps_version persisted =? SIGNER_STATE_VERSION) then Some (Err (StateInvalid (UnsupportedVersion (ps_version persisted)))) else
  if negb (bool_decide (ps_writer_public_key_hash persisted = hex_encode (writer_identity (sc_private_key config)))) then Some (Err (StateInvalid WrongWriterKey)) else
  if negb (ps_writer_slot persisted =? sc_writer_slot config) then Some (Err (StateInvalid WrongWriterSlot)) else
  r ← validate_entries persisted config (ps_signed persisted) ∅;
  Some (let? signed := r in Ok (ps_next_slot_version persisted, signed)).

(** The order of a [BTreeMap]'s keys. *)
Definition position_le (a b : Position * SignedBlock) : Prop :=
  compare_bytes a.1.1 b.1.1 = Lt \/ (a.1.1 = b.1.1 /\ a.1.2 <= b.1.2).
#[global] Instance position_le_dec a b : Decision (position_le a b).
Proof. unfold position_le. apply _. Defined.

Definition signed_in_order (signed : SignedBlocks) : list (Position * SignedBlock) := merge_sort position_le (map_to_list signed).

Definition persisted_block (entry : Position * SignedBlock) : result StackerDbError.t PersistedSignedBlock :=
  let '((consensus_hash, chain_length), block) := entry in
  let? chunk := Chunk.encode (sb_chunk block) in
  Ok (mkPersistedBlock (hex_encode consensus_hash) chain_length (hex_encode (sb_signature_hash block)) (hex_encode chunk) (sb_signed_at_unix block)).

Definition persist (private_key : secp_sk) (writer_slot next_slot_version : Z) (signed : SignedBlocks) (w : World) : result SignerStateError unit * World :=
  match
    let? signed := map_err StateChunk (collect persisted_block (signed_in_order signed)) in
    or_err (to_vec_pretty (mkPersisted SIGNER_STATE_VERSION (hex_encode (writer_identity private_key)) writer_slot next_slot_version signed)) (StateInvalid CouldNotEncode)
  with
  | Err e => (Err e, w)
  | Ok bytes => let '(r, w) := atomic_write bytes w in (map_err StateIo r, w)
  end.

(** A call whose [io::Error] is the caller's. *)
Definition with_io {A} (call : World -> result IoError A * World) : Eff World SignerStateError A := fun w => let '(r, w) := call w in Some (map_err StateIo r, w).

(** [SignerStateStore::open]: the directory, the lock file and the lock, then the journal. *)
Definition open (config : SignerConfig) : Eff World SignerStateError (Z * SignedBlocks) :=
  _ ← (if has_parent then with_io io_call else mret tt);
  _ ← with_io io_call;
  _ ← with_io io_call;
  exists_ ← (fun w => let '(b, w) := path_exists w in Some (Ok b, w));
  if negb exists_ then mret (sc_next_slot_version config, ∅) else
  bytes ← with_io read_file;
  persisted ← try_with StateDecode (from_slice bytes);
  signed ← unwrap (validate_state persisted config);
  try_with id signed.

(** ** The signer *)

Inductive SignerError : Type :=
| Validation (e : Refusal)
| Equivocation
| SlotVersionOverflow
| MessageFailed (e : SignerMessageError.t)
| ChunkFailed (e : StackerDbError.t)
| StateFailed (e : SignerStateError).

Record EmbeddedSigner (V : Type) : Type := mkSigner {
  es_private_key : secp_sk;
  es_validator : V;
  es_writer_slot : Z;
  es_next_slot_version : Z;
  es_conflict_timeout_secs : Z;
  es_signed : SignedBlocks;
  es_state : bool;
  es_tenures_seen : gmap (list byte) Z;
}.
#[global] Arguments mkSigner {V}.
#[global] Arguments es_private_key {V}.
#[global] Arguments es_validator {V}.
#[global] Arguments es_writer_slot {V}.
#[global] Arguments es_next_slot_version {V}.
#[global] Arguments es_conflict_timeout_secs {V}.
#[global] Arguments es_signed {V}.
#[global] Arguments es_state {V}.
#[global] Arguments es_tenures_seen {V}.

Section Operations.
Context {V : Type} `{PV : ProposalValidator V}.

Definition set_es_validator (v : V) (s : EmbeddedSigner V) : EmbeddedSigner V :=
  mkSigner (es_private_key s) v (es_writer_slot s) (es_next_slot_version s) (es_conflict_timeout_secs s) (es_signed s) (es_state s) (es_tenures_seen s).
Definition set_es_signed (m : SignedBlocks) (s : EmbeddedSigner V) : EmbeddedSigner V :=
  mkSigner (es_private_key s) (es_validator s) (es_writer_slot s) (es_next_slot_version s) (es_conflict_timeout_secs s) m (es_state s) (es_tenures_seen s).
Definition set_es_next_slot_version (n : Z) (s : EmbeddedSigner V) : EmbeddedSigner V :=
  mkSigner (es_private_key s) (es_validator s) (es_writer_slot s) n (es_conflict_timeout_secs s) (es_signed s) (es_state s) (es_tenures_seen s).
Definition set_es_tenures_seen (t : gmap (list byte) Z) (s : EmbeddedSigner V) : EmbeddedSigner V :=
  mkSigner (es_private_key s) (es_validator s) (es_writer_slot s) (es_next_slot_version s) (es_conflict_timeout_secs s) (es_signed s) (es_state s) t.

(** A signer and the world it runs in. *)
Record Host_signer : Type := mkHosted { hs_signer : EmbeddedSigner V; hs_world : World }.
Definition set_hs_signer (s : EmbeddedSigner V) (h : Host_signer) : Host_signer := mkHosted s (hs_world h).
Definition on_signer (f : EmbeddedSigner V -> EmbeddedSigner V) (h : Host_signer) : Host_signer := mkHosted (f (hs_signer h)) (hs_world h).

Abbreviation SignerEff := (Eff Host_signer SignerError).

Definition signer_new (config : SignerConfig) (validator : V) : EmbeddedSigner V :=
  mkSigner (sc_private_key config) validator (sc_writer_slot config) (sc_next_slot_version config) (sc_conflict_timeout_secs config) ∅ false ∅.

Definition from_state_file (config : SignerConfig) (validator : V) : Eff World SignerStateError (EmbeddedSigner V) :=
  loaded ← open config;
  mret (mkSigner (sc_private_key config) validator (sc_writer_slot config) loaded.1 (sc_conflict_timeout_secs config) loaded.2 true ∅).

(** [now_unix()]. *)
Definition read_clock : SignerEff Z := fun h => let '(t, w) := now_unix (hs_world h) in Some (Ok t, mkHosted (hs_signer h) w).

(** [if let Some(state) = &self.state { state.persist(..)?; }]. *)
Definition persist_state (next_slot_version : Z) (signed : SignedBlocks) : SignerEff unit := fun h =>
  let s := hs_signer h in
  if es_state s then
    let '(r, w) := persist (es_private_key s) (es_writer_slot s) next_slot_version signed (hs_world h) in
    Some (map_err StateFailed r, mkHosted s w)
  else Some (Ok tt, h).

Definition starts_or_extends_tenure (b : NakamotoBlock) : bool :=
  existsb (fun tx => match pl_data (tx_payload tx) with
                     | TenureChange payload => bool_decide (cause payload = TenureChangeCause.BlockFound) || bool_decide (cause payload = TenureChangeCause.Extended)
                     | _ => false
                     end) (bl_transactions b).

Definition extend_timestamp (b : NakamotoBlock) : SignerEff Z :=
  now ← read_clock;
  seen ← ask (fun h => es_tenures_seen (hs_signer h));
  let tenure := hd_consensus_hash (bl_header b) in
  let started := if starts_or_extends_tenure b then now else default now (seen !! tenure) in
  _ ← modify (on_signer (set_es_tenures_seen (<[tenure := started]> seen)));
  mret (saturating_add U64_MAX started TENURE_IDLE_TIMEOUT_SECS).

Definition record (position : Position) (signature_hash : Sha256Sum) (data : list byte) (slot_version : Z) : SignerEff Chunk :=
  s ← ask hs_signer;
  next_slot_version ← try_with id (or_err (checked_add U32_MAX slot_version 1) SlotVersionOverflow);
  chunk ← try_with ChunkFailed (Chunk.sign (Chunk.new (es_writer_slot s) slot_version data) (es_private_key s));
  now ← read_clock;
  let next_signed := <[position := mkSignedBlock signature_hash chunk now]> (es_signed s) in
  _ ← persist_state next_slot_version next_signed;
  _ ← modify (on_signer (set_es_signed next_signed));
  _ ← modify (on_signer (set_es_next_slot_version next_slot_version));
  mret chunk.

(** The position a proposal is for. *)
Definition position_of (p : BlockProposal) : Position := (hd_consensus_hash (bl_header (bp_block p)), hd_chain_length (bl_header (bp_block p))).

(** [validate]: the promise that precedes a signature. *)
Definition validate (p : BlockProposal) : SignerEff unit :=
  zoom hs_signer set_hs_signer id (zoom es_validator set_es_validator Validation (validate_proposal p)).

(** [sign] where the position holds no block. *)
Definition sign_new (p : BlockProposal) (signature_hash : Sha256Sum) : SignerEff Chunk :=
  _ ← validate p;
  s ← ask hs_signer;
  let signature := StacksPrivateKey.sign (es_private_key s) signature_hash in
  timestamp ← extend_timestamp (bp_block p);
  encoded ← unwrap (SignerMessage.encode (SignerMessage.Response (Accepted (with_extend_timestamp signature_hash signature timestamp))));
  data ← try_with MessageFailed encoded;
  record (position_of p) signature_hash data (es_next_slot_version s).

(** A different block is protected until the timeout; the recursive call finds the
    position free. *)
Definition sign (p : BlockProposal) : SignerEff Chunk :=
  signature_hash ← unwrap (signer_signature_hash (bl_header (bp_block p)));
  s ← ask hs_signer;
  match es_signed s !! position_of p with
  | None => sign_new p signature_hash
  | Some signed =>
      if bool_decide (sb_signature_hash signed = signature_hash) then mret (sb_chunk signed) else
      now ← read_clock;
      if saturating_sub now (sb_signed_at_unix signed) <? es_conflict_timeout_secs s then throw Equivocation else
      _ ← modify (on_signer (set_es_signed (delete (position_of p) (es_signed s))));
      sign_new p signature_hash
  end.

Definition sign_after_slot_version (p : BlockProposal) (remote_slot_version : Z) : SignerEff Chunk :=
  signature_hash ← unwrap (signer_signature_hash (bl_header (bp_block p)));
  s ← ask hs_signer;
  match es_signed s !! position_of p with
  | None => sign p
  | Some signed =>
      if negb (bool_decide (sb_signature_hash signed = signature_hash)) then
        now ← read_clock;
        if saturating_sub now (sb_signed_at_unix signed) <? es_conflict_timeout_secs s then throw Equivocation else sign p
      else if remote_slot_version <? ck_slot_version (sb_chunk signed) then mret (sb_chunk signed)
      else record (position_of p) signature_hash (ck_data (sb_chunk signed)) (es_next_slot_version s)
  end.

Definition set_writer_slot (writer_slot : Z) (s : EmbeddedSigner V) : EmbeddedSigner V :=
  if es_writer_slot s =? writer_slot then s else
  mkSigner (es_private_key s) (es_validator s) writer_slot 1 (es_conflict_timeout_secs s) ∅ (es_state s) (es_tenures_seen s).

Definition advance_next_slot_version (next_slot_version : Z) : SignerEff unit :=
  s ← ask hs_signer;
  if next_slot_version <=? es_next_slot_version s then mret tt else
  _ ← persist_state next_slot_version (es_signed s);
  modify (on_signer (set_es_next_slot_version next_slot_version)).

End Operations.
End Signer.
