(* ===== verification/ProposalExecution.v ===== *)
(** * Proposals executed from a trusted state: [ChainstateProposalValidator] of
      [crates/nano-signer/src/lib.rs]

    Which headers a validator trusts and under which Bitcoin block a proposal is
    executed. The chain state of [nano-chainstate] and the Bitcoin source are
    interfaces here; [BitcoinBlockContext] is the record of
    [crates/nano-vm/src/lib.rs]. *)

From stdpp Require Import gmap.
From S2P Require Import Prelude Primitives Address CodecIO Crypto TxData TxCodec.
From S2P Require Import Nakamoto Signers Effects PeerWire StackerDb EmbeddedSigner.

Record BitcoinBlockContext : Type := mkContext {
  cx_height : Z;
  cx_tenure_bitcoin_height : Z;
  cx_first_height : Z;
  cx_prepare_phase_length : Z;
  cx_reward_phase_length : Z;
  cx_rejection_fraction : Z;
  cx_v1_unlock_height : Z;
  cx_v2_unlock_height : Z;
  cx_v3_unlock_height : Z;
  cx_pox_5_activation_height : Z;
  cx_accumulated_coinbase : Z;
  cx_burn_header_hash : list byte;
  cx_burn_block_time : Z;
  cx_vrf_seed : list byte;
  cx_burn_spend_total : Z;
  cx_burn_spend_winner : Z;
  cx_sortition_hash : list byte;
  cx_winner_vrf_public_key : option (list byte);
  cx_winner_signing_key_hash : option (list byte);
}.

Module BitcoinBlockContext.

Definition as_burn_height (height : Z) : Z := if 0xffffffff <? height then U32_MAX else height.

Definition set_heights (height tenure : Z) (c : BitcoinBlockContext) : BitcoinBlockContext :=
  mkContext height tenure (cx_first_height c) (cx_prepare_phase_length c) (cx_reward_phase_length c) (cx_rejection_fraction c) (cx_v1_unlock_height c) (cx_v2_unlock_height c)
    (cx_v3_unlock_height c) (cx_pox_5_activation_height c) (cx_accumulated_coinbase c) (cx_burn_header_hash c) (cx_burn_block_time c) (cx_vrf_seed c) (cx_burn_spend_total c)
    (cx_burn_spend_winner c) (cx_sortition_hash c) (cx_winner_vrf_public_key c) (cx_winner_signing_key_hash c).

Definition set_accumulated (coinbase : Z) (c : BitcoinBlockContext) : BitcoinBlockContext :=
  mkContext (cx_height c) (cx_tenure_bitcoin_height c) (cx_first_height c) (cx_prepare_phase_length c) (cx_reward_phase_length c) (cx_rejection_fraction c) (cx_v1_unlock_height c) (cx_v2_unlock_height c)
    (cx_v3_unlock_height c) (cx_pox_5_activation_height c) coinbase (cx_burn_header_hash c) (cx_burn_block_time c) (cx_vrf_seed c) (cx_burn_spend_total c)
    (cx_burn_spend_winner c) (cx_sortition_hash c) (cx_winner_vrf_public_key c) (cx_winner_signing_key_hash c).

Definition move_to_burn_block (height : Z) (c : BitcoinBlockContext) : BitcoinBlockContext := set_heights height (as_burn_height height) c.

Definition extend_view_to (view : Z) (c : BitcoinBlockContext) : BitcoinBlockContext := set_heights view (cx_tenure_bitcoin_height c) c.

Definition tenure_burn_height (c : BitcoinBlockContext) : Z := cx_tenure_bitcoin_height c.

Definition at_height (height : Z) : BitcoinBlockContext :=
  mkContext height (as_burn_height height) 0 0 0 0 U32_MAX U32_MAX U32_MAX U32_MAX 0 (replicate 32 0%u8) 0 (replicate 32 0%u8) 0 0 (replicate 32 0%u8) None None.

End BitcoinBlockContext.

#[global] Instance ProblematicTransaction_eq_dec : EqDecision ProblematicTransaction. Proof. solve_decision. Defined.
#[global] Instance BitVec_eq_dec : EqDecision BitVec.t. Proof. solve_decision. Defined.
#[global] Instance NakamotoBlockHeader_eq_dec : EqDecision NakamotoBlockHeader. Proof. solve_decision. Defined.

Definition starts_new_tenure (b : NakamotoBlock) : bool :=
  existsb (fun tx => match pl_data (tx_payload tx) with TenureChange payload => bool_decide (cause payload = TenureChangeCause.BlockFound) | _ => false end) (bl_transactions b).

(** What the validator reads of an applied block. *)
Record AppliedBlock : Type := mkApplied { ap_reward_cycle : option Z; ap_waterfall_payout : option PoxAddress.t }.

(** The chain state a validator drives, and the source of Bitcoin operations. *)
Class ChainStates : Type := {
  ChainState : Type;
  ChainStateError : Type;
  Operations : Type;
  BtcSource : Type;
  BtcError : Type;
  has_block_state : list byte -> ChainState -> result ChainStateError bool;
  has_schedule : ChainState -> bool;
  recorded_signer_set : BitcoinBlockContext -> ChainState -> result ChainStateError SignerWeights.t * ChainState;
  append_nakamoto_block : BitcoinBlockContext -> Operations -> option (list byte) -> NakamotoBlock -> option (list byte) -> ChainState -> result ChainStateError AppliedBlock * ChainState;
  validate_nakamoto_proposal : BitcoinBlockContext -> Operations -> option (list byte) -> NakamotoBlock -> option (list byte) -> ChainState -> result ChainStateError AppliedBlock * ChainState;
  block_at : Z -> BtcSource -> result BtcError Operations * BtcSource;
}.

Section Execution.
Context `{HS : Hashes} `{CS : ChainStates}.

Record ChainstateProposalValidator : Type := mkChainValidator {
  cv_chainstate : ChainState;
  cv_bitcoin_context : BitcoinBlockContext;
  cv_bitcoin : BtcSource;
  cv_trusted : gmap (list byte) NakamotoBlockHeader;
  cv_candidates : gmap (list byte) NakamotoBlockHeader;
  cv_accumulated : gmap Z Z;
  cv_waterfall_registry : option (list byte);
}.

Inductive ExecutionError : Type :=
| StateFailedWith (e : ChainStateError)
| NoAccumulatedCoinbase (height : Z)
| ParentNotTrusted
| DoesNotExtend (e : TenureError)
| NoOperations (e : BtcError)
| ExecutionFailed (e : ChainStateError)
| DiffersFromCandidate.

Inductive ValidationTarget : Type := Observed | ProposalTarget.

Abbreviation CV := ChainstateProposalValidator.

Definition set_chainstate (s : ChainState) (v : CV) : CV := mkChainValidator s (cv_bitcoin_context v) (cv_bitcoin v) (cv_trusted v) (cv_candidates v) (cv_accumulated v) (cv_waterfall_registry v).
Definition set_bitcoin (b : BtcSource) (v : CV) : CV := mkChainValidator (cv_chainstate v) (cv_bitcoin_context v) b (cv_trusted v) (cv_candidates v) (cv_accumulated v) (cv_waterfall_registry v).
Definition set_trusted (t : gmap (list byte) NakamotoBlockHeader) (v : CV) : CV := mkChainValidator (cv_chainstate v) (cv_bitcoin_context v) (cv_bitcoin v) t (cv_candidates v) (cv_accumulated v) (cv_waterfall_registry v).
Definition set_candidates (c : gmap (list byte) NakamotoBlockHeader) (v : CV) : CV := mkChainValidator (cv_chainstate v) (cv_bitcoin_context v) (cv_bitcoin v) (cv_trusted v) c (cv_accumulated v) (cv_waterfall_registry v).

Definition chain_validator_new (chainstate : ChainState) (anchor : NakamotoBlock) (context : BitcoinBlockContext) (bitcoin : BtcSource) : option CV :=
  id ← block_id anchor; Some (mkChainValidator chainstate context bitcoin {[id := bl_header anchor]} ∅ ∅ None).

Definition using_waterfall_registry (registry : option (list byte)) (v : CV) : CV := mkChainValidator (cv_chainstate v) (cv_bitcoin_context v) (cv_bitcoin v) (cv_trusted v) (cv_candidates v) (cv_accumulated v) registry.

Definition set_accumulated_coinbase (bitcoin_height accumulated : Z) (v : CV) : CV :=
  mkChainValidator (cv_chainstate v) (cv_bitcoin_context v) (cv_bitcoin v) (cv_trusted v) (cv_candidates v) (<[bitcoin_height := accumulated]> (cv_accumulated v)) (cv_waterfall_registry v).

Definition set_bitcoin_context (context : BitcoinBlockContext) (v : CV) : CV := mkChainValidator (cv_chainstate v) context (cv_bitcoin v) (cv_trusted v) (cv_candidates v) (cv_accumulated v) (cv_waterfall_registry v).

Definition has_trusted_block (id : list byte) (v : CV) : bool := bool_decide (is_Some (cv_trusted v !! id)).

Definition context_at (bitcoin_height : Z) (v : CV) : BitcoinBlockContext :=
  let context := cv_bitcoin_context v in
  let context := if BitcoinBlockContext.tenure_burn_height context =? bitcoin_height then context else BitcoinBlockContext.move_to_burn_block bitcoin_height context in
  BitcoinBlockContext.set_accumulated (default 0 (cv_accumulated v !! bitcoin_height)) context.

Definition load_operations (height : Z) : Eff CV ExecutionError Operations := fun v =>
  let '(r, b) := block_at height (cv_bitcoin v) in Some (map_err NoOperations r, set_bitcoin b v).

Definition execute_block (target : ValidationTarget) (context : BitcoinBlockContext) (operations : Operations) (block : NakamotoBlock) : Eff CV ExecutionError AppliedBlock := fun v =>
  let run := match target with Observed => append_nakamoto_block | ProposalTarget => validate_nakamoto_proposal end in
  let '(r, s) := run context operations (Some (hd_parent_block_id (bl_header block))) block (cv_waterfall_registry v) (cv_chainstate v) in
  Some (map_err ExecutionFailed r, set_chainstate s v).

Definition check_block (block : NakamotoBlock) (context : BitcoinBlockContext) (target : ValidationTarget) : Eff CV ExecutionError (option (Z * PoxAddress.t)) :=
  id ← unwrap (block_id block);
  v ← ask (fun v => v);
  sealed ← try_with StateFailedWith (has_block_state id (cv_chainstate v));
  if (sealed : bool) then mret None else
  if starts_new_tenure block && has_schedule (cv_chainstate v) && negb (bool_decide (is_Some (cv_accumulated v !! cx_height context)))
  then throw (NoAccumulatedCoinbase (cx_height context)) else
  parent ← try_with (fun e => e) (or_err (cv_trusted v !! hd_parent_block_id (bl_header block)) ParentNotTrusted);
  linked ← unwrap (validate_successor block parent);
  _ ← try_with DoesNotExtend linked;
  operations ← load_operations (cx_height context);
  applied ← execute_block target context operations block;
  mret (match ap_reward_cycle applied, ap_waterfall_payout applied with Some cycle, Some address => Some (cycle, address) | _, _ => None end).

Definition observe (block : NakamotoBlock) (bitcoin_height : Z) : Eff CV ExecutionError (option (Z * PoxAddress.t)) :=
  id ← unwrap (block_id block);
  v ← ask (fun v => v);
  _ ← modify (fun v => set_candidates (delete id (cv_candidates v)) v);
  _ ← (match cv_candidates v !! id with
       | None => mret tt
       | Some candidate =>
           a ← unwrap (miner_signature_hash candidate);
           b ← unwrap (miner_signature_hash (bl_header block));
           if bool_decide (a = b) then mret tt else throw DiffersFromCandidate
       end);
  v ← ask (fun v => v);
  payout ← check_block block (context_at bitcoin_height v) Observed;
  _ ← modify (fun v => set_trusted (<[id := bl_header block]> (cv_trusted v)) v);
  mret payout.

Definition adopt_sealed_block (block : NakamotoBlock) : Eff CV ExecutionError bool :=
  id ← unwrap (block_id block);
  v ← ask (fun v => v);
  sealed ← try_with StateFailedWith (has_block_state id (cv_chainstate v));
  _ ← modify (fun v => if (sealed : bool) then set_trusted (<[id := bl_header block]> (cv_trusted v)) v else v);
  mret sealed.

Definition validate_executed (p : BlockProposal) : Eff CV ExecutionError unit :=
  id ← unwrap (block_id (bp_block p));
  v ← ask (fun v => v);
  if bool_decide (is_Some (cv_trusted v !! id)) || bool_decide (cv_candidates v !! id = Some (bl_header (bp_block p))) then mret tt else
  _ ← check_block (bp_block p) (context_at (bp_bitcoin_height p) v) ProposalTarget;
  modify (fun v => set_candidates (<[id := bl_header (bp_block p)]> (cv_candidates v)) v).

Definition recorded_signer_weights_at (bitcoin_height : Z) : Eff CV ExecutionError SignerWeights.t := fun v =>
  let '(r, s) := recorded_signer_set (context_at bitcoin_height v) (cv_chainstate v) in Some (map_err StateFailedWith r, set_chainstate s v).

Definition recorded_signer_weights : Eff CV ExecutionError SignerWeights.t := fun v =>
  let '(r, s) := recorded_signer_set (cv_bitcoin_context v) (cv_chainstate v) in Some (map_err StateFailedWith r, set_chainstate s v).

End Execution.

(** ** What is trusted and what is accepted *)

Section Trust.
Context `{HS : Hashes} `{CS : ChainStates}.

(** The parent is trusted, the block extends it, and it executed in this context. *)
Definition executes (v : ChainstateProposalValidator) (target : ValidationTarget) (context : BitcoinBlockContext) (block : NakamotoBlock) : Prop :=
  (starts_new_tenure block = true -> has_schedule (cv_chainstate v) = true -> is_Some (cv_accumulated v !! cx_height context)) /\
  exists parent operations b applied s, cv_trusted v !! hd_parent_block_id (bl_header block) = Some parent /\ validate_successor block parent = Some (Ok tt) /\
    block_at (cx_height context) (cv_bitcoin v) = (Ok operations, b) /\
    (match target with Observed => append_nakamoto_block | ProposalTarget => validate_nakamoto_proposal end) context operations (Some (hd_parent_block_id (bl_header block))) block
      (cv_waterfall_registry v) (cv_chainstate v) = (Ok applied, s).

(** Nothing but the state and the source moved. *)
Definition same_view (v v' : ChainstateProposalValidator) : Prop :=
  cv_trusted v' = cv_trusted v /\ cv_candidates v' = cv_candidates v /\ cv_accumulated v' = cv_accumulated v /\ cv_bitcoin_context v' = cv_bitcoin_context v /\ cv_waterfall_registry v' = cv_waterfall_registry v.

Lemma check_block_spec block context target v r v' : check_block block context target v = Some (r, v') ->
  same_view v v' /\ (is_ok r = true -> exists id, block_id block = Some id /\ (has_block_state id (cv_chainstate v) = Ok true \/ executes v target context block)).
Proof.
  intros H. unfold check_block in H. apply eff_bind_inv in H as [(id & v1 & H1 & H)|(e & H1 & ->)]; unfold unwrap in H1; destruct (block_id block) as [id'|]; try done. injection H1 as <- <-.
  rewrite (eff_bind_run _ _ _ v v) in H by done. apply eff_bind_inv in H as [(sealed & v1 & H1 & H)|(e & H1 & ->)]; pose proof (try_with_same _ _ _ _ _ H1) as ->; [|by split].
  unfold try_with in H1. destruct (has_block_state id' (cv_chainstate v)) as [b|e] eqn:Hs; [|done]. injection H1 as <-. destruct b; [injection H as <- <-; split; [by split_and!|]; intros _; exists id'; by split; [|left]|].
  destruct (starts_new_tenure block && has_schedule (cv_chainstate v) && negb (bool_decide (is_Some (cv_accumulated v !! cx_height context)))) eqn:Hguard; [injection H as <- <-; by split|].
  apply eff_bind_inv in H as [(parent & v1 & H1 & H)|(e & H1 & ->)]; pose proof (try_with_same _ _ _ _ _ H1) as ->; [|by split]. unfold try_with, or_err in H1. destruct (cv_trusted v !! _) as [p|] eqn:Hp; [|done]. injection H1 as ->.
  apply eff_bind_inv in H as [(linked & v1 & H1 & H)|(e & H1 & ->)]; pose proof (unwrap_same _ _ _ _ H1) as ->; [|by split]. unfold unwrap in H1. destruct (validate_successor block parent) as [l|] eqn:Hl; [|done]. injection H1 as ->.
  apply eff_bind_inv in H as [([] & v1 & H1 & H)|(e & H1 & ->)]; pose proof (try_with_same _ _ _ _ _ H1) as ->; [|by split]. destruct linked as [[]|]; [|done]. clear H1.
  apply eff_bind_inv in H as [(operations & v1 & H1 & H)|(e & H1 & ->)]; unfold load_operations in H1; destruct (block_at (cx_height context) (cv_bitcoin v)) as [ro b] eqn:Hb; injection H1 as Hro <-; [|by split].
  destruct ro as [ops|]; [|done]. injection Hro as ->. apply eff_bind_inv in H as [(applied & v2 & H2 & H)|(e & H2 & ->)]; unfold execute_block in H2; cbn in H2;
    match type of H2 with context[let '(_, _) := ?x in _] => destruct x as [ra s] eqn:Hrun end; injection H2 as Hra <-; [|by split].
  destruct ra as [ap|]; [|done]. injection Hra as ->. injection H as <- <-. split; [by split_and!|]. intros _. exists id'. split; [done|]. right. split.
  { intros Ht Hsch. rewrite Ht, Hsch in Hguard. cbn in Hguard. by destruct (bool_decide_reflect (is_Some (cv_accumulated v !! cx_height context))). }
  exists parent, operations, b, applied, s. by split_and!.
Qed.

Lemma validate_executed_spec (p : BlockProposal) (v v' : ChainstateProposalValidator) (r : result ExecutionError unit) : validate_executed p v = Some (r, v') ->
  cv_trusted v' = cv_trusted v /\
  exists id, block_id (bp_block p) = Some id /\
    match r with
    | Err _ => cv_candidates v' = cv_candidates v /\ cv_trusted v !! id = None
    | Ok _ => is_Some (cv_trusted v !! id) \/
        (cv_candidates v' !! id = Some (bl_header (bp_block p)) /\
         (cv_candidates v !! id = Some (bl_header (bp_block p)) \/ has_block_state id (cv_chainstate v) = Ok true \/ executes v ProposalTarget (context_at (bp_bitcoin_height p) v) (bp_block p)))
    end.
Proof.
  intros H. unfold validate_executed in H. apply eff_bind_inv in H as [(id & v1 & H1 & H)|(e & H1 & ->)]; unfold unwrap in H1; destruct (block_id (bp_block p)) as [id'|] eqn:Hid; try done. injection H1 as <- <-.
  rewrite (eff_bind_run _ _ _ v v) in H by done. destruct (bool_decide_reflect (is_Some (cv_trusted v !! id'))) as [Ht|Hnt]; cbn [orb] in H; [injection H as <- <-; split; [done|]; exists id'; split; [done|by left]|].
  destruct (bool_decide_reflect (cv_candidates v !! id' = Some (bl_header (bp_block p)))) as [Hc|Hnc]; [injection H as <- <-; split; [done|]; exists id'; split; [done|]; right; split; [done|by left]|].
  apply eff_bind_inv in H as [(x & v1 & H1 & H)|(e & H1 & ->)]; apply check_block_spec in H1 as [(Ht & Hcand & _) Hex].
  - injection H as <- <-. split; [done|]. exists id'. split; [done|]. right. cbn. rewrite lookup_insert_eq. split; [done|]. destruct (Hex eq_refl) as (id2 & Hid2 & Hcase). rewrite Hid in Hid2. injection Hid2 as <-. by right.
  - split; [done|]. exists id'. split; [done|]. split; [done|]. by apply eq_None_not_Some.
Qed.

(** A proposal is accepted only when its block is trusted already, was accepted
    before, is sealed in the state, or extends a trusted header and executes under the
    context of its Bitcoin height with a known coinbase; it never enters the trusted
    view, and a refusal leaves the candidates as they were. *)
Theorem proposal_execution_spec (p : BlockProposal) (v v' : ChainstateProposalValidator) (r : result ExecutionError unit) : validate_executed p v = Some (r, v') ->
  cv_trusted v' = cv_trusted v /\
  exists id, block_id (bp_block p) = Some id /\
    match r with
    | Err _ => cv_candidates v' = cv_candidates v /\ cv_trusted v !! id = None
    | Ok _ => is_Some (cv_trusted v !! id) \/
        (cv_candidates v' !! id = Some (bl_header (bp_block p)) /\
         (cv_candidates v !! id = Some (bl_header (bp_block p)) \/ has_block_state id (cv_chainstate v) = Ok true \/ executes v ProposalTarget (context_at (bp_bitcoin_height p) v) (bp_block p)))
    end.
Proof. apply validate_executed_spec. Qed.

(** The operations that change what is trusted. *)
Inductive TrustOp : Type := TObserve (block : NakamotoBlock) (bitcoin_height : Z) | TAdopt (block : NakamotoBlock) | TValidate (p : BlockProposal).

Definition trust_step (op : TrustOp) (v : ChainstateProposalValidator) : option ChainstateProposalValidator :=
  match op with
  | TObserve b h => snd <$> observe b h v
  | TAdopt b => snd <$> adopt_sealed_block b v
  | TValidate p => snd <$> validate_executed p v
  end.

(** What may enter the trusted view: a block the state has sealed, or one whose
    parent was trusted and that executed. *)
Definition may_trust (v : ChainstateProposalValidator) (id : list byte) (header : NakamotoBlockHeader) : Prop :=
  exists block, block_id block = Some id /\ header = bl_header block /\ (has_block_state id (cv_chainstate v) = Ok true \/ exists height, executes v Observed (context_at height v) block).

Lemma observe_spec block height v r v' : observe block height v = Some (r, v') -> cv_trusted v' = cv_trusted v \/ exists id, cv_trusted v' = <[id := bl_header block]> (cv_trusted v) /\ may_trust v id (bl_header block).
Proof.
  intros H. unfold observe in H. apply eff_bind_inv in H as [(id & v1 & H1 & H)|(e & H1 & ->)]; unfold unwrap in H1; destruct (block_id block) as [id'|] eqn:Hid; try done. injection H1 as <- <-.
  rewrite (eff_bind_run _ _ _ v v) in H by done. set (v0 := set_candidates (delete id' (cv_candidates v)) v) in *. rewrite (eff_bind_run _ _ _ tt v0) in H by done.
  apply eff_bind_inv in H as [([] & v1 & H1 & H)|(e & H1 & ->)].
  2:{ left. destruct (cv_candidates v !! id') as [c|]; [|done]. apply eff_bind_inv in H1 as [(a & v2 & H2 & H1)|(? & H2 & _)]; pose proof (unwrap_same _ _ _ _ H2) as ->; [|done]. apply eff_bind_inv in H1 as [(b & v2 & H3 & H1)|(? & H3 & _)]; pose proof (unwrap_same _ _ _ _ H3) as ->; [|done].
      destruct (bool_decide (a = b)); by injection H1 as _ <-. }
  assert (v1 = v0) as ->. { destruct (cv_candidates v !! id') as [c|]; [|by injection H1 as <-]. apply eff_bind_inv in H1 as [(a & v2 & H2 & H1)|(? & _ & ?)]; [|done]. pose proof (unwrap_same _ _ _ _ H2) as ->.
    apply eff_bind_inv in H1 as [(b & v2 & H3 & H1)|(? & _ & ?)]; [|done]. pose proof (unwrap_same _ _ _ _ H3) as ->. destruct (bool_decide (a = b)); [by injection H1 as <-|done]. }
  rewrite (eff_bind_run _ _ _ v0 v0) in H by done. apply eff_bind_inv in H as [(payout & v2 & H2 & H)|(e & H2 & ->)]; apply check_block_spec in H2 as [(Ht & _) Hex]; [|by left].
  injection H as <- <-. right. exists id'. cbn. rewrite Ht. split; [done|]. destruct (Hex eq_refl) as (id2 & Hid2 & Hcase). rewrite Hid in Hid2. injection Hid2 as <-. exists block. split_and!; [done|done|].
  destruct Hcase as [?|Hcase]; [by left|right]. exists height. exact Hcase.
Qed.

(** A header enters the trusted view only when its block is sealed in the state, or its parent was trusted and it executed. *)
Theorem trusted_view_extends (op : TrustOp) (v v' : ChainstateProposalValidator) : trust_step op v = Some v' ->
  forall id header, cv_trusted v' !! id = Some header -> cv_trusted v !! id = Some header \/ may_trust v id header.
Proof.
  intros H id header Hin. destruct op as [b h|b|p]; cbn in H.
  - destruct (observe b h v) as [[r w]|] eqn:Ho; [|done]. injection H as <-. apply observe_spec in Ho as [Ho|(id' & Ho & Hm)]; rewrite Ho in Hin; [by left|]. apply lookup_insert_Some in Hin as [[<- <-]|[_ ?]]; [by right|by left].
  - destruct (adopt_sealed_block b v) as [[r w]|] eqn:Ho; [|done]. injection H as <-. unfold adopt_sealed_block in Ho. apply eff_bind_inv in Ho as [(i & v1 & H1 & Ho)|(e & H1 & ->)]; unfold unwrap in H1; destruct (block_id b) as [i'|] eqn:Hid; try done. injection H1 as <- <-.
    rewrite (eff_bind_run _ _ _ v v) in Ho by done. apply eff_bind_inv in Ho as [(sealed & v1 & H1 & Ho)|(e & H1 & ->)]; pose proof (try_with_same _ _ _ _ _ H1) as ->; [|by left]. unfold try_with in H1. destruct (has_block_state i' (cv_chainstate v)) as [s|] eqn:Hs; [|done]. injection H1 as <-.
    injection Ho as _ <-. destruct s; [|by left]. cbn in Hin. apply lookup_insert_Some in Hin as [[<- <-]|[_ ?]]; [right|by left]. exists b. by split_and!; [| |left].
  - destruct (validate_executed p v) as [[r w]|] eqn:Ho; [|done]. injection H as <-. apply validate_executed_spec in Ho as [Ho _]. rewrite Ho in Hin. by left.
Qed.

End Trust.
