(* ===== verification/SignerSafety.v ===== *)
(** * What the signer writes to its journal it reads back

    A journal is sound when every entry is a chunk of this signer's slot that
    carries its acceptance; the signer writes only such journals, and reopening one
    gives exactly what was written.

    And the signer does not equivocate. *)

From stdpp Require Import gmap sorting.
From S2P Require Import Prelude Primitives CodecIO Crypto TxData TxCodec Nakamoto PeerWire StackerDb StackerDbTheorems Effects EmbeddedSigner.

Section Journal.
Context `{HS : Hashes} `{HO : !HashesOk} `{SE : Secp256k1} `{SO : !Secp256k1Ok} `{ED : Edwards} `{HT : Host} `{EN : Encodings} `{EO : !EncodingsOk}.

(** The message accepts the block of this hash, signed by [key]. *)
Definition accepts (key : secp_sk) (hash : Sha256Sum) (data : list byte) : Prop :=
  exists response, SignerMessage.decode data = Some (Ok (SignerMessage.Response (Accepted response))) /\ ba_signer_signature_hash response = hash /\
    MessageSignature.recover (ba_signature response) hash = Ok (StacksPrivateKey.public_key key).

Record entry_ok (key : secp_sk) (slot next : Z) (pos : Position) (b : SignedBlock) : Prop := {
  eo_consensus : len pos.1 = 20;
  eo_length : is_u64 pos.2;
  eo_hash : len (sb_signature_hash b) = 32;
  eo_chunk : chunk_ok (sb_chunk b);
  eo_slot : ck_slot_id (sb_chunk b) = slot;
  eo_version : ck_slot_version (sb_chunk b) < next;
  eo_writer : Chunk.verify (sb_chunk b) (writer_identity key) = Ok true;
  eo_accepts : accepts key (sb_signature_hash b) (ck_data (sb_chunk b));
  eo_time : is_u64 (sb_signed_at_unix b);
}.

Definition signed_ok (key : secp_sk) (slot next : Z) (m : SignedBlocks) : Prop := map_Forall (entry_ok key slot next) m.

Definition block_entry (pos : Position) (b : SignedBlock) : PersistedSignedBlock :=
  mkPersistedBlock (hex_encode pos.1) pos.2 (hex_encode (sb_signature_hash b)) (hex_encode (chunk_bytes (sb_chunk b))) (sb_signed_at_unix b).

Lemma persisted_block_ok pos b : chunk_ok (sb_chunk b) -> persisted_block (pos, b) = Ok (block_entry pos b).
Proof. intros (_ & _ & _ & Hl). unfold persisted_block. destruct pos as [c n]. rewrite chunk_encode, (proj2 (Z.ltb_ge _ _)) by lia. done. Qed.

Lemma decode_hex_encode n b : len b = n -> decode_hex n (hex_encode b) = Ok b.
Proof. intros <-. unfold decode_hex. rewrite hex_roundtrip. cbn. by rewrite Z.eqb_refl. Qed.

Lemma chunk_bytes_fit c : chunk_ok c -> len (chunk_bytes c) <= USIZE_MAX.
Proof. intros (_ & _ & Hs & Hd). unfold chunk_bytes. rewrite !length_app, !length_to_be_bytes. unfold MAX_CHUNK_SIZE, USIZE_MAX, U64_MAX in *. lia. Qed.

Lemma chunk_decode_bytes c : chunk_ok c -> Chunk.decode (chunk_bytes c) = Ok c.
Proof. intros Hc. unfold Chunk.decode. rewrite (chunk_parses c Hc (Reader.new (chunk_bytes c)) (mkReader (chunk_bytes c) (len (chunk_bytes c)))); [cbn; by rewrite Z.eqb_refl|by apply chunk_bytes_fit|]. apply (reads_new _ _ []). by rewrite app_nil_r. Qed.

Lemma validate_entry_ok persisted config signed pos b : entry_ok (sc_private_key config) (ps_writer_slot persisted) (ps_next_slot_version persisted) pos b -> signed !! pos = None ->
  validate_entry persisted config signed (block_entry pos b) = Some (Ok (<[pos := b]> signed)).
Proof.
  intros [Hc Hn Hh Hk Hs Hv Hw (resp & Hd & Hrh & Hrec) Ht] Hnone. unfold validate_entry, block_entry. cbn [pb_consensus_hash pb_signature_hash pb_chunk pb_chain_length pb_signed_at_unix].
  rewrite !decode_hex_encode, hex_roundtrip by done. cbn [or_err]. rewrite chunk_decode_bytes by done. cbn [map_err]. rewrite Hs, Z.eqb_refl. cbn [negb].
  rewrite (proj2 (Z.leb_gt _ _)), Hw by done. cbn [map_err negb]. rewrite Hd. cbn [mbind option_bind map_err]. rewrite Hrh, bool_decide_true, Hrec by done. cbn [negb map_err].
  rewrite bool_decide_true by done. cbn [negb]. destruct pos as [c n]. cbn [fst snd] in *. rewrite Hnone. by destruct b.
Qed.

Lemma validate_entries_ok persisted config (l : list (Position * SignedBlock)) signed :
  Forall (fun e => entry_ok (sc_private_key config) (ps_writer_slot persisted) (ps_next_slot_version persisted) e.1 e.2) l -> NoDup l.*1 -> (forall pos, pos ∈ l.*1 -> signed !! pos = None) ->
  validate_entries persisted config (map (fun e => block_entry e.1 e.2) l) signed = Some (Ok (list_to_map l ∪ signed)).
Proof.
  revert signed. induction l as [|[pos b] l IH]; intros signed HF Hnd Hnone; cbn [map validate_entries]; [cbn; by rewrite (left_id_L ∅ (∪))|].
  apply Forall_cons in HF as [He HF]. cbn in Hnd. apply NoDup_cons in Hnd as [Hni Hnd]. cbn [fst snd] in *. rewrite validate_entry_ok by (done || apply Hnone; cbn; set_solver). cbn [mbind option_bind].
  rewrite IH; [|done|done|]. { cbn. by rewrite <- insert_union_r, insert_union_l by (by apply not_elem_of_list_to_map_1). }
  intros p Hp. rewrite lookup_insert_ne by (intros <-; done). apply Hnone. cbn. set_solver.
Qed.

Lemma collect_map {E A B} (f : A -> result E B) (g : A -> B) l : Forall (fun x => f x = Ok (g x)) l -> collect f l = Ok (map g l).
Proof. induction 1 as [|x l Hx HF IH]; [done|]. cbn. by rewrite Hx, IH. Qed.

Definition state_of (key : secp_sk) (slot next : Z) (m : SignedBlocks) : PersistedSignerState :=
  mkPersisted SIGNER_STATE_VERSION (hex_encode (writer_identity key)) slot next (map (fun e => block_entry e.1 e.2) (signed_in_order m)).

Lemma in_key_order_Forall m (P : Position * SignedBlock -> Prop) : map_Forall (fun k b => P (k, b)) m -> Forall P (signed_in_order m).
Proof. intros Hm. unfold signed_in_order. rewrite merge_sort_Permutation. apply Forall_forall. intros [k b] Hin%elem_of_map_to_list. by apply Hm. Qed.

Lemma in_key_order_map m : list_to_map (signed_in_order m) = m /\ NoDup (signed_in_order m).*1.
Proof.
  assert (Hp : signed_in_order m ≡ₚ map_to_list m) by apply merge_sort_Permutation.
  assert (Hnd : NoDup (signed_in_order m).*1) by (rewrite Hp; apply NoDup_fst_map_to_list). split; [|done]. rewrite (list_to_map_proper _ _ Hnd Hp). apply list_to_map_to_list.
Qed.

(** A sound journal is accepted, and gives back the map it was written from. *)
Lemma validate_state_of config next m : signed_ok (sc_private_key config) (sc_writer_slot config) next m ->
  validate_state (state_of (sc_private_key config) (sc_writer_slot config) next m) config = Some (Ok (next, m)).
Proof.
  intros Hm. unfold validate_state. cbn [ps_version ps_writer_public_key_hash ps_writer_slot ps_signed ps_next_slot_version state_of]. rewrite bool_decide_true, Z.eqb_refl by done. cbn [negb].
  rewrite Z.eqb_refl. cbn [negb]. destruct (in_key_order_map m) as [Hl Hnd]. rewrite validate_entries_ok; [|by apply in_key_order_Forall|done|done]. cbn. by rewrite Hl, (right_id_L ∅ (∪)).
Qed.

Lemma persist_encodes key slot next m : signed_ok key slot next m -> collect persisted_block (signed_in_order m) = Ok (ps_signed (state_of key slot next m)).
Proof. intros Hm. cbn. apply collect_map, in_key_order_Forall. intros pos b Hb. apply persisted_block_ok. by destruct (Hm _ _ Hb). Qed.

Lemma state_of_typed key slot next m : is_u32 slot -> is_u32 next -> signed_ok key slot next m -> persisted_typed (state_of key slot next m).
Proof.
  intros Hs Hn Hm. split_and!; [done..|]. cbn. apply Forall_map, in_key_order_Forall. intros pos b Hb. destruct (Hm _ _ Hb). done.
Qed.

(** The journal's file holds the map [m], with [next] the first version not used. *)
Definition holds (config : SignerConfig) (w : World) (next : Z) (m : SignedBlocks) : Prop :=
  is_u32 next /\ signed_ok (sc_private_key config) (sc_writer_slot config) next m /\
  match w_file w with
  | None => m = ∅ /\ next = sc_next_slot_version config
  | Some bytes => to_vec_pretty (state_of (sc_private_key config) (sc_writer_slot config) next m) = Some bytes
  end.

(** [persist] leaves the old journal or the new one, and the new one when it succeeds. *)
Lemma persist_spec config next m w r w' : is_u32 next -> signed_ok (sc_private_key config) (sc_writer_slot config) next m ->
  persist (sc_private_key config) (sc_writer_slot config) next m w = (r, w') ->
  w_readings w' = w_readings w /\ (w_file w' = w_file w /\ is_ok r = false \/ holds config w' next m).
Proof.
  intros Hn Hm. unfold persist. rewrite (persist_encodes _ _ _ _ Hm). cbn [map_err]. change (mkPersisted _ _ _ _ _) with (state_of (sc_private_key config) (sc_writer_slot config) next m).
  destruct (to_vec_pretty _) as [bytes|] eqn:Hj; cbn [or_err]; [|intros [= <- <-]; by split; [|left]]. unfold atomic_write. destruct (io_fault (w_calls w)) as [e|]; [destruct (io_applied (w_calls w))|].
  - intros [= <- <-]. split; [done|]. right. by split_and!.
  - intros [= <- <-]. split; [done|by left].
  - intros [= <- <-]. split; [done|]. right. by split_and!.
Qed.

(** [calm file m Q]: with this journal file, [m] leaves the clock and the journal
    alone, fails only at a call to the file system, and gives a value in [Q]. *)
Definition calm (file : option (list byte)) {A} (m : Eff World SignerStateError A) (Q : A -> Prop) : Prop := forall w r w', w_file w = file -> m w = Some (r, w') ->
  w_readings w' = w_readings w /\ w_file w' = w_file w /\ ((exists x, r = Ok x /\ Q x) \/ exists e, r = Err (StateIo e)).

Lemma calm_bind file {A B} (m : Eff World SignerStateError A) (k : A -> Eff World SignerStateError B) Q R : calm file m Q -> (forall x, Q x -> calm file (k x) R) -> calm file (m ≫= k) R.
Proof.
  intros Hm Hk w r w' Hf [(x & w1 & H1 & H2)|(e & H1 & ->)]%eff_bind_inv; apply (Hm _ _ _ Hf) in H1 as (Hr & Hw & [(y & Hy & HQ)|(e' & He)]); try done.
  - apply Ok_inj in Hy as ->. apply (Hk _ HQ) in H2 as (Hr2 & Hw2 & H2); [|congruence]. split_and!; [congruence|congruence|done].
  - split_and!; [done|done|]. right. exists e'. congruence.
Qed.

Lemma calm_ret file {A} (x : A) (Q : A -> Prop) : Q x -> calm file (mret x) Q.
Proof. intros HQ w r w' _ [= <- <-]. split_and!; [done|done|left; by exists x]. Qed.

Lemma calm_call file : calm file (with_io io_call) (fun _ => True).
Proof. intros w r w' _. unfold with_io, io_call. destruct (io_fault (w_calls w)) as [e|]; intros [= <- <-]; split_and!; try done; [right; by eexists|left; by exists tt]. Qed.

Lemma calm_read bytes : calm (Some bytes) (with_io read_file) (eq bytes).
Proof. intros w r w' Hf. unfold with_io, read_file, io_call. destruct (io_fault (w_calls w)) as [e|]; intros [= <- <-]; split_and!; try done; [right; by eexists|left; cbn; rewrite Hf; by exists bytes]. Qed.

Definition stats_succeed : Prop := forall n, stat_fault n = false.

(** Opening a journal that holds [m] gives [m], unless a call to the file system fails. *)
Lemma open_calm config (w : World) next m : is_u32 (sc_writer_slot config) -> holds config w next m -> stats_succeed -> calm (w_file w) (open config) (eq (next, m)).
Proof.
  intros Hslot (Hn & Hm & Hf) Hstat. unfold open. eapply (calm_bind _ _ _ (fun _ => True)); [destruct has_parent; [apply calm_call|by apply calm_ret]|]. intros _ _.
  do 2 (eapply (calm_bind _ _ _ (fun _ => True)); [apply calm_call|]; intros _ _). apply (calm_bind _ _ _ (fun b => b = bool_decide (is_Some (w_file w)))).
  { intros w0 r w' Hw0 [= <- <-]. split_and!; [done|done|left]. eexists. split; [done|]. by rewrite Hstat, Hw0. }
  intros b ->. destruct (w_file w) as [bytes|]; cbn [bool_decide].
  - rewrite bool_decide_true by done. cbn [negb]. apply (calm_bind _ _ _ (eq bytes)); [apply calm_read|]. intros ? <-. intros w0 r w' Hw0.
    unfold mbind, Eff_bind, try_with. rewrite (json_roundtrip _ _ (state_of_typed _ _ _ _ Hslot Hn Hm) Hf), (validate_state_of _ _ _ Hm). cbn. intros [= <- <-]. split_and!; [done|done|left]. by eexists.
  - rewrite bool_decide_false by by intros []. cbn [negb]. destruct Hf as [-> ->]. by apply calm_ret.
Qed.

(** No journal panics the signer. *)
Lemma validate_entries_total persisted config entries signed : is_Some (validate_entries persisted config entries signed).
Proof.
  revert signed. induction entries as [|e rest IH]; intros signed; cbn [validate_entries]; [by eexists|]. assert (Hs : is_Some (validate_entry persisted config signed e)).
  { unfold validate_entry. destruct (let? _ := decode_hex 20 _ in _) as [[[c h] ch]|]; [|by eexists]. destruct (message_decode_total (ck_data ch)) as [r ->]. by eexists. }
  destruct Hs as [[m|] ->]; cbn; [apply IH|by eexists].
Qed.

Lemma validate_state_total persisted config : is_Some (validate_state persisted config).
Proof. unfold validate_state. repeat (destruct (negb _); [by eexists|]). destruct (validate_entries_total persisted config (ps_signed persisted) ∅) as [r ->]. by eexists. Qed.

Lemma open_total config (w : World) : is_Some (open config w).
Proof.
  assert (Hio : forall A (call : World -> result IoError A * World) w0, is_Some (with_io call w0)) by (intros A call w0; unfold with_io; destruct (call w0); by eexists).
  unfold open. repeat (apply eff_bind_total; [try done|intros ? ?]); try (by eexists).
  - destruct has_parent; [apply Hio|by eexists].
  - destruct (negb _); [by eexists|]. repeat (apply eff_bind_total; [try done|intros ? ?]); try (unfold try_with; case_match; by eexists).
    destruct (validate_state_total x4 config) as [r Hr]. unfold unwrap. rewrite Hr. by eexists.
Qed.
End Journal.

(** * The signer does not equivocate

    Runs of the signer over proposals, faults of the disk and restarts from the
    journal: what it releases for one position never conflicts within the timeout,
    and one slot version never carries two chunks. *)

(** ** Records of signed blocks *)

Abbreviation Event := (Position * SignedBlock)%type.

Definition version_of (e : Event) : Z := ck_slot_version (sb_chunk e.2).

Section Records.
Context (timeout : Z).

(** [earlier e b]: [b] may follow [e] at its position. *)
Definition follows (e : Event) (b : SignedBlock) : Prop :=
  (sb_signature_hash b = sb_signature_hash e.2 /\ sb_signed_at_unix e.2 <= sb_signed_at_unix b) \/ sb_signed_at_unix e.2 + timeout <= sb_signed_at_unix b.

(** The map [m] accounts for [e] at the time [now]. *)
Record covered (next now : Z) (m : SignedBlocks) (e : Event) : Prop := {
  cv_position : match m !! e.1 with Some b => follows e b | None => sb_signed_at_unix e.2 + timeout <= now end;
  cv_version : forall pos b, m !! pos = Some b -> version_of (pos, b) = version_of e -> sb_chunk b = sb_chunk e.2;
  cv_reserved : version_of e < next;
  cv_past : sb_signed_at_unix e.2 <= now;
}.

(** The map accounts for [L] and for its own entries. *)
Definition closed (L : Event -> Prop) (next now : Z) (m : SignedBlocks) : Prop := forall e, L e \/ m !! e.1 = Some e.2 -> covered next now m e.

Lemma closed_weaken (L L' : Event -> Prop) next next' now now' m : closed L next now m -> (forall e, L' e -> L e \/ m !! e.1 = Some e.2) -> next <= next' -> now <= now' -> closed L' next' now' m.
Proof.
  intros H HL Hn Ht e He. destruct (H e) as [Hp Hv Hr Hp']; [destruct He; auto|]. split; [|done|lia|lia]. destruct (m !! e.1); [done|lia].
Qed.

Lemma closed_insert L next now m pos b next' now' : 0 <= timeout -> closed L next now m ->
  (forall b0, m !! pos = Some b0 -> sb_signature_hash b0 = sb_signature_hash b) -> now <= sb_signed_at_unix b <= now' -> next <= version_of (pos, b) < next' ->
  closed (fun e => L e \/ m !! e.1 = Some e.2) next' now' (<[pos := b]> m).
Proof.
  intros HT H Hh Ht Hv e He. assert (Hcase : (L e \/ m !! e.1 = Some e.2) \/ e = (pos, b)).
  { destruct He as [?|He]; [by left|]. destruct e as [p b']. cbn in *. apply lookup_insert_Some in He as [[<- <-]|[_ ?]]; auto. }
  clear He. destruct Hcase as [He| ->].
  - pose proof (H e He) as [Hp Hver Hr Hpast]. split; [| |lia|lia].
    + destruct (decide (e.1 = pos)) as [<-|Hne]; [|rewrite lookup_insert_ne by done; destruct (m !! e.1); [done|lia]].
      rewrite lookup_insert_eq. unfold follows in *. destruct (m !! e.1) as [b0|] eqn:Hb0; [|right; lia]. destruct (H (e.1, b0)) as [_ _ _ Hpb]; [by right|]. cbn in Hpb.
      specialize (Hh b0 eq_refl). destruct Hp as [[Hp ?]|?]; [left; split; [congruence|lia]|right; lia].
    + intros p b' [[<- <-]|[_ Hb']]%lookup_insert_Some; [lia|]. by apply Hver.
  - split; [rewrite lookup_insert_eq; by left| |cbn in *; lia|cbn in *; lia]. intros p b' [[<- <-]|[_ Hb']]%lookup_insert_Some; [done|]. intros He.
    destruct (H (p, b')) as [_ _ Hr _]; [by right|]. lia.
Qed.

Lemma closed_delete L next now m pos b : 0 <= timeout -> closed L next now m -> m !! pos = Some b -> sb_signed_at_unix b + timeout <= now -> closed L next now (delete pos m).
Proof.
  intros HT H Hb Ht e He. assert (He' : L e \/ m !! e.1 = Some e.2) by (destruct He as [|He]; [by left|right; by apply lookup_delete_Some in He as [_ ?]]).
  pose proof (H e He') as [Hp Hver Hr Hpast]. split; [| |done|done].
  - destruct (decide (e.1 = pos)) as [<-|Hne]; [|by rewrite lookup_delete_ne by done]. rewrite lookup_delete_eq. rewrite Hb in Hp. unfold follows in Hp. lia.
  - intros p b' [_ Hb']%lookup_delete_Some. by apply Hver.
Qed.

End Records.

(** ** The clock *)

Section Safety.
Context `{HS : Hashes} `{HO : !HashesOk} `{SE : Secp256k1} `{SO : !Secp256k1Ok} `{ED : Edwards} `{HT : Host} `{EN : Encodings} `{EO : !EncodingsOk}.
Context {V : Type} `{PV : ProposalValidator V}.
Context (config : SignerConfig).

Definition reading (n : nat) : Z := default 0 (system_time n).

(** The clock gives 64-bit values that do not decrease. *)
Definition clock_ok : Prop := (forall n, is_u64 (reading n)) /\ forall n, reading n <= reading (S n).

Record config_ok : Prop := {
  co_slot : is_u32 (sc_writer_slot config);
  co_next : is_u32 (sc_next_slot_version config);
  co_timeout : is_u64 (sc_conflict_timeout_secs config);
}.

Context (Hclock : clock_ok) (Hconfig : config_ok).
Local Abbreviation key := (sc_private_key config).
Local Abbreviation slot := (sc_writer_slot config).
Local Abbreviation timeout := (sc_conflict_timeout_secs config).

Lemma reading_mono n m : (n <= m)%nat -> reading n <= reading m.
Proof. induction 1 as [|m _ IH]; [done|]. destruct Hclock as [_ Hm]. specialize (Hm m). lia. Qed.

(** ** The invariant *)

Definition journal_ok (L : Event -> Prop) (w : World) : Prop :=
  exists next m, holds config w next m /\ closed timeout L next (reading (w_readings w)) m.

Definition in_map (m : SignedBlocks) (e : Event) : Prop := m !! e.1 = Some e.2.

Record signer_ok (L : Event -> Prop) (h : Host_signer (V := V)) : Prop := {
  so_key : es_private_key (hs_signer h) = key;
  so_slot : es_writer_slot (hs_signer h) = slot;
  so_timeout : es_conflict_timeout_secs (hs_signer h) = timeout;
  so_state : es_state (hs_signer h) = true;
  so_next : is_u32 (es_next_slot_version (hs_signer h));
  so_seen : map_Forall (fun _ t => is_u64 t) (es_tenures_seen (hs_signer h));
  so_signed : signed_ok key slot (es_next_slot_version (hs_signer h)) (es_signed (hs_signer h));
  so_closed : closed timeout L (es_next_slot_version (hs_signer h)) (reading (w_readings (hs_world h))) (es_signed (hs_signer h));
  so_journal : journal_ok (fun e => L e \/ in_map (es_signed (hs_signer h)) e) (hs_world h);
}.

Lemma journal_later L L' w w' : journal_ok L w -> (forall e, L' e -> L e) -> w_file w' = w_file w -> (w_readings w <= w_readings w')%nat -> journal_ok L' w'.
Proof.
  intros (next & m & Hh & Hc) HL Hf Hr. exists next, m. unfold holds in *. rewrite Hf. split; [done|]. eapply closed_weaken; [exact Hc|by auto|done|by apply reading_mono].
Qed.

(** Nothing but the clock, the validator and the tenures moved. *)
Record frame (h h' : Host_signer (V := V)) : Prop := {
  fr_key : es_private_key (hs_signer h') = es_private_key (hs_signer h);
  fr_slot : es_writer_slot (hs_signer h') = es_writer_slot (hs_signer h);
  fr_timeout : es_conflict_timeout_secs (hs_signer h') = es_conflict_timeout_secs (hs_signer h);
  fr_state : es_state (hs_signer h') = es_state (hs_signer h);
  fr_next : es_next_slot_version (hs_signer h') = es_next_slot_version (hs_signer h);
  fr_signed : es_signed (hs_signer h') = es_signed (hs_signer h);
  fr_seen : map_Forall (fun _ t => is_u64 t) (es_tenures_seen (hs_signer h)) -> map_Forall (fun _ t => is_u64 t) (es_tenures_seen (hs_signer h'));
  fr_file : w_file (hs_world h') = w_file (hs_world h);
  fr_readings : (w_readings (hs_world h) <= w_readings (hs_world h'))%nat;
}.

Lemma frame_ok L h h' : signer_ok L h -> frame h h' -> signer_ok L h'.
Proof.
  intros [Hk Hs Ht Hst Hn Hse Hsi Hc Hj] []. split; rewrite ?fr_key0, ?fr_slot0, ?fr_timeout0, ?fr_state0, ?fr_next0, ?fr_signed0; auto.
  - eapply closed_weaken; [exact Hc|by auto|done|by apply reading_mono].
  - eapply journal_later; [exact Hj|by auto|done|done].
Qed.

Lemma frame_refl h : frame h h.
Proof. by split. Qed.

Lemma frame_trans a b c : frame a b -> frame b c -> frame a c.
Proof. intros [] []. split; try congruence; [auto|lia]. Qed.

Lemma signer_later L h w' : signer_ok L h -> w_file w' = w_file (hs_world h) -> (w_readings (hs_world h) <= w_readings w')%nat -> signer_ok L (mkHosted (hs_signer h) w').
Proof. intros Hok Hf Hr. eapply frame_ok; [exact Hok|]. by split. Qed.

Lemma frame_clock h t h' : read_clock h = Some (Ok t, h') -> frame h h' /\ t = reading (w_readings (hs_world h)) /\ w_readings (hs_world h') = S (w_readings (hs_world h)) /\ hs_signer h' = hs_signer h.
Proof. unfold read_clock. cbn. intros [= <- <-]. split_and!; try done. split; cbn; try done. lia. Qed.

Lemma frame_validate p h r h' : validate p h = Some (r, h') -> frame h h'.
Proof. unfold validate, zoom. destruct (validate_proposal p _) as [[[u|e] v]|]; [| |done]; intros [= _ <-]; by split. Qed.

Lemma frame_extend b h t h' : map_Forall (fun _ t => is_u64 t) (es_tenures_seen (hs_signer h)) -> extend_timestamp b h = Some (Ok t, h') -> frame h h' /\ is_u64 t.
Proof.
  intros Hseen. unfold extend_timestamp, mbind, Eff_bind, read_clock, ask, modify, mret, Eff_ret. cbn. set (now := default 0 _). set (started := if starts_or_extends_tenure b then now else _).
  assert (Hs : is_u64 started).
  { assert (is_u64 now) by (subst now; apply Hclock). unfold started. destruct (starts_or_extends_tenure b); [done|]. destruct (_ !! _) as [x|] eqn:Hx; [|done]. by apply (Hseen _ _ Hx). }
  intros [= <- <-]. split; [|unfold is_u64, saturating_add, TENURE_IDLE_TIMEOUT_SECS, U64_MAX in *; lia]. split; cbn; try done; [|lia]. intros _. by apply map_Forall_insert_2.
Qed.

(** ** Persisting, recording, signing *)

Lemma persist_state_ok L h next m r h' : signer_ok L h -> is_u32 next -> signed_ok key slot next m ->
  closed timeout (fun e => L e \/ in_map (es_signed (hs_signer h)) e) next (reading (w_readings (hs_world h))) m -> persist_state next m h = Some (r, h') ->
  signer_ok L h' /\ hs_signer h' = hs_signer h /\ w_readings (hs_world h') = w_readings (hs_world h) /\ (r = Ok tt -> holds config (hs_world h') next m).
Proof.
  intros Hok Hn Hm Hc. pose proof Hok as [Hk Hs Ht Hst _ _ _ _ Hj]. unfold persist_state. rewrite Hst, Hk, Hs. destruct (persist _ _ _ _ _) as [pr w'] eqn:Hp. intros [= <- <-].
  apply (persist_spec config) in Hp as [Hr Hf]; [|done|done]. cbn. split; [|split_and!; [done|done|]].
  - destruct Hok. split; try done; cbn.
    + by rewrite Hr.
    + destruct Hf as [[Hf _]|Hf]; [eapply journal_later; [exact Hj|by auto|done|lia]|]. exists next, m. split; [done|]. by rewrite Hr.
  - intros Hpr. destruct Hf as [[_ Hf]|Hf]; [by destruct pr|done].
Qed.

Lemma signed_ok_insert next next' m pos b : signed_ok key slot next m -> next <= next' -> entry_ok key slot next' pos b -> signed_ok key slot next' (<[pos := b]> m).
Proof.
  intros Hm Hn Hb. apply map_Forall_insert_2; [done|]. eapply map_Forall_impl; [exact Hm|]. intros p b' []. split; try done. lia.
Qed.

(** What a recorded block is made of. *)
Definition acceptable (pos : Position) (hash : Sha256Sum) (data : list byte) : Prop :=
  len pos.1 = 20 /\ is_u64 pos.2 /\ len hash = 32 /\ accepts key hash data.

Lemma record_ok L h pos hash data r h' : signer_ok L h -> acceptable pos hash data -> (forall b, es_signed (hs_signer h) !! pos = Some b -> sb_signature_hash b = hash) ->
  record pos hash data (es_next_slot_version (hs_signer h)) h = Some (r, h') ->
  signer_ok L h' /\ forall chunk, r = Ok chunk -> exists t, es_signed (hs_signer h') !! pos = Some (mkSignedBlock hash chunk t).
Proof.
  intros Hok (Hc & Hl & Hh & Ha) Hsame. unfold record. intros H. pose proof Hok as [Hk Hs Ht Hst Hn Hse Hsi Hcl Hj].
  apply eff_bind_inv in H as [(s & h0 & [= <- <-] & H)|(e & [=] & _)].
  destruct (checked_add U32_MAX (es_next_slot_version (hs_signer h)) 1) as [next|] eqn:Hadd; cbn [or_err] in H; [|injection H as <- <-; by split].
  apply checked_add_Some in Hadd as [-> Hmax]. rewrite (eff_bind_run _ _ _ (es_next_slot_version (hs_signer h) + 1) h) in H by done.
  destruct (Chunk.sign _ _) as [chunk|e] eqn:Hsign; [|injection H as <- <-; by split]. rewrite (eff_bind_run _ _ _ chunk h) in H by done.
  apply eff_bind_inv in H as [(now & h1 & Hclk & H)|(e & Hclk & _)]; [|by unfold read_clock, now_unix in Hclk; simplify_eq]. apply frame_clock in Hclk as (Hfr & -> & Hrd & Hsg).
  pose proof (frame_ok _ _ _ Hok Hfr) as Hok1. set (b := mkSignedBlock hash chunk (reading (w_readings (hs_world h)))) in *. set (next := es_next_slot_version (hs_signer h) + 1) in *.
  pose proof (reading_mono (w_readings (hs_world h)) (w_readings (hs_world h1)) ltac:(lia)) as Hle. pose proof (proj1 Hclock (w_readings (hs_world h))) as Hu.
  apply chunk_sign_spec in Hsign as (Hsl & Hver & Hdata & Hlen & Hsiglen & Hwr). cbn in Hsl, Hver, Hdata, Hlen.
  assert (He : entry_ok key slot next pos b).
  { split; cbn; rewrite ?Hdata; try done; [|by rewrite Hsl|unfold next; lia|by rewrite Hwr, Hk, bool_decide_true].
    split_and!; rewrite ?Hsl, ?Hver, ?Hdata, ?Hs; try done; apply Hconfig. }
  assert (Hsn : signed_ok key slot next (<[pos := b]> (es_signed (hs_signer h)))) by (eapply signed_ok_insert; [exact Hsi|unfold next; lia|done]).
  assert (Hcn : closed timeout (fun e => L e \/ in_map (es_signed (hs_signer h)) e) next (reading (w_readings (hs_world h1))) (<[pos := b]> (es_signed (hs_signer h)))).
  { eapply closed_insert; [apply Hconfig|exact Hcl|by intros b0 Hb0; apply Hsame|cbn; lia|]. unfold version_of. cbn. rewrite Hver. unfold next. lia. }
  apply eff_bind_inv in H as [([] & h2 & Hp & H)|(e & Hp & ->)].
  2:{ apply (persist_state_ok L) in Hp as (Hok2 & _); [by split|done|unfold is_u32 in *; unfold next; lia|done|by rewrite Hsg]. }
  apply (persist_state_ok L) in Hp as (Hok2 & Hsg2 & Hrd2 & Hholds); [|done|unfold is_u32 in *; unfold next; lia|done|by rewrite Hsg]. specialize (Hholds eq_refl).
  assert (Hr : r = Ok chunk) by (unfold mbind, Eff_bind, modify, mret, Eff_ret in H; congruence). assert (Hh' : h' = on_signer (set_es_next_slot_version next) (on_signer (set_es_signed (<[pos := b]> (es_signed (hs_signer h)))) h2)) by (unfold mbind, Eff_bind, modify, mret, Eff_ret in H; congruence). subst r h'. clear H.
  split; [|intros ? [= <-]; cbn; eexists; apply lookup_insert_eq]. destruct Hok2 as [? ? ? ? ? ? ? ? ?]. split; cbn; try done; [unfold is_u32 in *; unfold next; lia| |].
  - rewrite Hrd2. eapply closed_weaken; [exact Hcn|by auto|done|done].
  - exists next, (<[pos := b]> (es_signed (hs_signer h))). split; [done|]. rewrite Hrd2. eapply closed_weaken; [exact Hcn| |done|done]. intros e [?|?]; auto.
Qed.

Definition proposal_typed (p : BlockProposal) : Prop := len (hd_consensus_hash (bl_header (bp_block p))) = 20 /\ is_u64 (hd_chain_length (bl_header (bp_block p))).

Lemma signature_hash_length h hash : signer_signature_hash h = Some hash -> len hash = 32.
Proof. unfold signer_signature_hash. intros (b & _ & ->)%fmap_Some. by rewrite sha512_256_length. Qed.

Lemma acceptance_accepts hash timestamp data : len hash = 32 -> is_u64 timestamp ->
  SignerMessage.encode (SignerMessage.Response (Accepted (with_extend_timestamp hash (StacksPrivateKey.sign key hash) timestamp))) = Some (Ok data) -> accepts key hash data.
Proof.
  intros Hh Ht He. assert (Hok : message_ok (SignerMessage.Response (Accepted (with_extend_timestamp hash (StacksPrivateKey.sign key hash) timestamp)))).
  { unfold message_ok, acceptance_ok, with_extend_timestamp. cbn [ba_signer_signature_hash ba_signature ba_server_version ba_full_extend_timestamp ba_read_count_extend_timestamp]. rewrite sign_length. split_and!; [exact Hh|reflexivity|vm_compute; reflexivity|exact Ht|exact Ht]. }
  apply (message_decode_encode _ _ Hok) in He. eexists. split; [exact He|]. split; [done|]. cbn. apply recover_sign.
Qed.

Definition answered (L : Event -> Prop) (p : BlockProposal) (h' : Host_signer (V := V)) (r : result SignerError Chunk) : Prop :=
  signer_ok L h' /\ forall chunk, r = Ok chunk -> exists b, es_signed (hs_signer h') !! position_of p = Some b /\ sb_chunk b = chunk /\ Some (sb_signature_hash b) = signer_signature_hash (bl_header (bp_block p)).

Lemma sign_new_ok L h p hash r h' : signer_ok L h -> proposal_typed p -> signer_signature_hash (bl_header (bp_block p)) = Some hash -> es_signed (hs_signer h) !! position_of p = None ->
  sign_new p hash h = Some (r, h') -> answered L p h' r.
Proof.
  intros Hok [Hp1 Hp2] Hhash Hnone H. unfold sign_new in H. apply eff_bind_inv in H as [([] & h1 & H1 & H)|(e & H1 & ->)]; apply frame_validate in H1 as Hf; [|split; [by eapply frame_ok|done]].
  pose proof (frame_ok _ _ _ Hok Hf) as Hok1. rewrite (eff_bind_run _ _ _ (hs_signer h1) h1) in H by done. cbn zeta in H.
  apply eff_bind_inv in H as [(ts & h2 & H2 & H)|(e & H2 & _)]; [|done]. apply frame_extend in H2 as [Hf2 Hts]; [|apply Hok1]. pose proof (frame_ok _ _ _ Hok1 Hf2) as Hok2.
  rewrite (so_key _ _ Hok1) in H. apply eff_bind_inv in H as [(enc & h3 & H3 & H)|(e & H3 & _)]; [|by unfold unwrap in H3; destruct (SignerMessage.encode _)].
  unfold unwrap in H3. destruct (SignerMessage.encode _) as [enc'|] eqn:He; [|done]. injection H3 as <- <-. destruct enc' as [data|em]; [|injection H as <- <-; by split].
  rewrite (eff_bind_run _ _ _ data h2) in H by done. rewrite <- (fr_next _ _ Hf2) in H. apply (record_ok L) in H as [Hok3 Hch]; [|done| |].
  - split; [done|]. intros chunk Hc. destruct (Hch chunk Hc) as [t Hb]. eexists. split; [exact Hb|]. split; [done|]. by rewrite Hhash.
  - split_and!; [done|done|by eapply signature_hash_length|]. eapply acceptance_accepts; [by eapply signature_hash_length|exact Hts|exact He].
  - intros b. by rewrite (fr_signed _ _ Hf2), (fr_signed _ _ Hf), Hnone.
Qed.

Lemma delete_ok L h pos b : signer_ok L h -> es_signed (hs_signer h) !! pos = Some b -> sb_signed_at_unix b + timeout <= reading (w_readings (hs_world h)) ->
  signer_ok L (on_signer (set_es_signed (delete pos (es_signed (hs_signer h)))) h).
Proof.
  intros [Hk Hs Ht Hst Hn Hse Hsi Hc Hj] Hb Hlate. split; cbn; try done.
  - by apply map_Forall_delete.
  - eapply closed_delete; [apply Hconfig|exact Hc|exact Hb|exact Hlate].
  - eapply journal_later; [exact Hj| |done|done]. intros e [?|Hd]; [by left|right]. unfold in_map in *. by apply lookup_delete_Some in Hd as [_ ?].
Qed.

(** A block is past its protection only when the clock says so. *)
Lemma timeout_passed L h b pos h' now : signer_ok L h -> es_signed (hs_signer h) !! pos = Some b -> read_clock h = Some (Ok now, h') ->
  (saturating_sub now (sb_signed_at_unix b) <? es_conflict_timeout_secs (hs_signer h)) = false -> sb_signed_at_unix b + timeout <= reading (w_readings (hs_world h')).
Proof.
  intros Hok Hb (Hf & -> & Hr & _)%frame_clock Hlt. apply Z.ltb_ge in Hlt. rewrite (so_timeout _ _ Hok) in Hlt. unfold saturating_sub in Hlt.
  assert (Hpast : sb_signed_at_unix b <= reading (w_readings (hs_world h))) by (apply (so_closed _ _ Hok (pos, b)); by right). pose proof (reading_mono (w_readings (hs_world h)) (w_readings (hs_world h')) ltac:(lia)). lia.
Qed.

Lemma sign_ok L h p r h' : signer_ok L h -> proposal_typed p -> sign p h = Some (r, h') -> answered L p h' r.
Proof.
  intros Hok Hp H. unfold sign in H. apply eff_bind_inv in H as [(hash & h1 & H1 & H)|(e & H1 & _)]; unfold unwrap in H1; destruct (signer_signature_hash _) as [hash'|] eqn:Hhash; try done.
  injection H1 as <- <-. rewrite (eff_bind_run _ _ _ (hs_signer h) h) in H by done. destruct (es_signed (hs_signer h) !! position_of p) as [b|] eqn:Hb; [|by eapply sign_new_ok].
  destruct (bool_decide_reflect (sb_signature_hash b = hash')) as [Heq|Hne].
  { injection H as <- <-. split; [done|]. intros chunk [= <-]. exists b. split_and!; [done|done|]. by rewrite Heq, Hhash. }
  apply eff_bind_inv in H as [(now & h2 & H2 & H)|(e & H2 & _)]; [|by unfold read_clock, now_unix in H2; simplify_eq]. pose proof (frame_clock _ _ _ H2) as (Hf & _ & _ & Hsg). pose proof (frame_ok _ _ _ Hok Hf) as Hok2.
  destruct (_ <? _) eqn:Hlt; [injection H as <- <-; by split|]. pose proof (timeout_passed _ _ _ _ _ _ Hok Hb H2 Hlt) as Hlate. rewrite (eff_bind_run _ _ _ tt (on_signer (set_es_signed (delete (position_of p) (es_signed (hs_signer h)))) h2)) in H by done.
  eapply sign_new_ok; [|exact Hp|exact Hhash| |exact H]; [|cbn; apply lookup_delete_eq]. rewrite <- Hsg. eapply delete_ok; [done|by rewrite Hsg|done].
Qed.

Lemma sign_after_ok L h p remote r h' : signer_ok L h -> proposal_typed p -> sign_after_slot_version p remote h = Some (r, h') -> answered L p h' r.
Proof.
  intros Hok Hp H. unfold sign_after_slot_version in H. apply eff_bind_inv in H as [(hash & h1 & H1 & H)|(e & H1 & _)]; unfold unwrap in H1; destruct (signer_signature_hash _) as [hash'|] eqn:Hhash; try done.
  injection H1 as <- <-. rewrite (eff_bind_run _ _ _ (hs_signer h) h) in H by done. destruct (es_signed (hs_signer h) !! position_of p) as [b|] eqn:Hb; [|by eapply sign_ok].
  destruct (bool_decide_reflect (sb_signature_hash b = hash')) as [Heq|Hne]; cbn [negb] in H.
  - destruct (_ <? _); [injection H as <- <-; split; [done|]; intros chunk [= <-]; exists b; split_and!; [done|done|by rewrite Heq, Hhash]|]. destruct (so_signed _ _ Hok _ _ Hb).
    apply (record_ok L) in H as [Hok3 Hch]; [|done|by rewrite Heq in *|intros b' Hb'; congruence]. split; [done|]. intros chunk Hc. destruct (Hch chunk Hc) as [t Hb']. eexists. split; [exact Hb'|]. split; [done|]. by rewrite Hhash.
  - apply eff_bind_inv in H as [(now & h2 & H2 & H)|(e & H2 & _)]; [|by unfold read_clock, now_unix in H2; simplify_eq]. pose proof (frame_clock _ _ _ H2) as (Hf & _). pose proof (frame_ok _ _ _ Hok Hf) as Hok2.
    destruct (_ <? _); [injection H as <- <-; by split|by eapply sign_ok].
Qed.

Lemma advance_ok L h next r h' : signer_ok L h -> is_u32 next -> advance_next_slot_version next h = Some (r, h') -> signer_ok L h'.
Proof.
  intros Hok Hn H. unfold advance_next_slot_version in H. rewrite (eff_bind_run _ _ _ (hs_signer h) h) in H by done. destruct (Z.leb_spec next (es_next_slot_version (hs_signer h))) as [|Hgt]; [by injection H as <- <-|].
  pose proof Hok as [Hk Hs Ht Hst _ Hse Hsi Hc Hj].
  assert (Hm : signed_ok key slot next (es_signed (hs_signer h))) by (eapply map_Forall_impl; [exact Hsi|]; intros ? ? []; split; try done; lia).
  assert (Hcn : closed timeout (fun e => L e \/ in_map (es_signed (hs_signer h)) e) next (reading (w_readings (hs_world h))) (es_signed (hs_signer h))).
  { eapply closed_weaken; [exact Hc|by intros e [?|?]; [left|right]|lia|done]. }
  apply eff_bind_inv in H as [([] & h1 & H1 & H)|(e & H1 & ->)]; apply (persist_state_ok L) in H1 as (Hok1 & Hsg & Hrd & Hholds); try done. specialize (Hholds eq_refl). injection H as <- <-.
  destruct Hok1. split; cbn; rewrite ?Hsg in *; try done.
  rewrite Hrd. eapply closed_weaken; [exact Hcn|by auto|done|done].
Qed.

(** ** Runs *)

(** What a signer is asked, and what happens to its process. *)
Inductive Op : Type :=
| OpSign (p : BlockProposal)
| OpSignAfter (p : BlockProposal) (remote_slot_version : Z)
| OpValidate (p : BlockProposal)
| OpAdvance (next_slot_version : Z)
| OpConfigure (f : V -> V)
| OpStop
| OpStart (validator : V).

Definition op_typed (op : Op) : Prop :=
  match op with OpSign p | OpSignAfter p _ => proposal_typed p | OpAdvance n => is_u32 n | _ => True end.

Record Machine : Type := mkMachine { mc_signer : option (EmbeddedSigner V); mc_world : World }.

Definition machine_of (h : Host_signer (V := V)) : Machine := mkMachine (Some (hs_signer h)) (hs_world h).

(** The block a released chunk answers for. *)
Definition released (p : BlockProposal) (r : result SignerError Chunk) (h : Host_signer (V := V)) : option Event :=
  match r with Ok _ => b ← es_signed (hs_signer h) !! position_of p; Some (position_of p, b) | Err _ => None end.

(** One step; a signer that panics has stopped, and one that runs holds the lock. *)
Definition step (op : Op) (m : Machine) : option Event * Machine :=
  match mc_signer m, op with
  | None, OpStart v =>
      match from_state_file config v (mc_world m) with
      | Some (Ok s, w) => (None, mkMachine (Some s) w)
      | Some (Err _, w) => (None, mkMachine None w)
      | None => (None, m)
      end
  | None, _ => (None, m)
  | Some s, op =>
      let h := mkHosted s (mc_world m) in
      match op with
      | OpSign p => match sign p h with Some (r, h') => (released p r h', machine_of h') | None => (None, mkMachine None (mc_world m)) end
      | OpSignAfter p v => match sign_after_slot_version p v h with Some (r, h') => (released p r h', machine_of h') | None => (None, mkMachine None (mc_world m)) end
      | OpValidate p => match validate p h with Some (_, h') => (None, machine_of h') | None => (None, mkMachine None (mc_world m)) end
      | OpAdvance n => match advance_next_slot_version n h with Some (_, h') => (None, machine_of h') | None => (None, mkMachine None (mc_world m)) end
      | OpConfigure f => (None, machine_of (on_signer (fun s => set_es_validator (f (es_validator s)) s) h))
      | OpStop => (None, mkMachine None (mc_world m))
      | OpStart _ => (None, m)
      end
  end.

(** The blocks released by a run, in order. *)
Fixpoint run (ops : list Op) (m : Machine) : list Event * Machine :=
  match ops with
  | [] => ([], m)
  | op :: rest => let '(e, m) := step op m in let '(es, m) := run rest m in (option_list e ++ es, m)
  end.

Definition machine_ok (log : list Event) (m : Machine) : Prop :=
  match mc_signer m with
  | Some s => signer_ok (.∈ log) (mkHosted s (mc_world m))
  | None => journal_ok (.∈ log) (mc_world m)
  end.

Lemma signer_ok_log log h e : signer_ok (.∈ log) h -> in_map (es_signed (hs_signer h)) e -> signer_ok (.∈ log ++ [e]) h.
Proof.
  intros [Hk Hs Ht Hst Hn Hse Hsi Hc Hj] He. split; try done.
  - eapply closed_weaken; [exact Hc| |done|done]. intros e' [?| ->%list_elem_of_singleton]%elem_of_app; [by left|by right].
  - eapply journal_later; [exact Hj| |done|done]. intros e' [[?| ->%list_elem_of_singleton]%elem_of_app|?]; auto.
Qed.

Lemma released_ok log p r h : answered (.∈ log) p h r -> machine_ok (log ++ option_list (released p r h)) (machine_of h).
Proof.
  intros [Hok Hch]. destruct h as [s w]. unfold machine_ok, released. cbn. destruct r as [chunk|]; cbn; [|by rewrite app_nil_r]. destruct (Hch chunk eq_refl) as (b & Hb & _). cbn in Hb. rewrite Hb. cbn. by apply signer_ok_log.
Qed.

Lemma stopped_ok (log : list Event) s w : signer_ok (.∈ log) (mkHosted s w) -> journal_ok (.∈ log) w.
Proof. intros Hok. eapply journal_later; [apply (so_journal _ _ Hok)|intros e ?; by left|done|done]. Qed.

Lemma start_ok (log : list Event) v w s w' : stats_succeed -> journal_ok (.∈ log) w -> from_state_file config v w = Some (s, w') -> machine_ok log (mkMachine (match s with Ok s => Some s | Err _ => None end) w').
Proof.
  intros Hst Hj. assert (Hj' := Hj). destruct Hj' as (next & m & Hh & Hc). intros H. unfold from_state_file in H. pose proof (open_calm config w next m (co_slot Hconfig) Hh Hst) as Hcalm.
  apply eff_bind_inv in H as [(l & w1 & H1 & H)|(e & H1 & ->)]; apply (Hcalm _ _ _ eq_refl) in H1 as (Hr & Hf & H1).
  - destruct H1 as [(x & Hx & <-)|(e & ?)]; [|done]. apply Ok_inj in Hx as ->. injection H as <- <-. unfold machine_ok. cbn. destruct Hh as (Hn & Hm & Hbytes).
    split; cbn; try done; [rewrite Hr; exact Hc|]. exists next, m. unfold holds. rewrite Hf, Hr. split; [done|]. eapply closed_weaken; [exact Hc|by intros e [?|?]; auto|done|done].
  - unfold machine_ok. cbn. eapply journal_later; [exact Hj|by auto|done|lia].
Qed.

Lemma signer_step_ok (log : list Event) op m : stats_succeed -> op_typed op -> machine_ok log m -> machine_ok (log ++ option_list (step op m).1) (step op m).2.
Proof.
  intros Hst Hop Hm. destruct m as [[s|] w]; unfold machine_ok in Hm; cbn in Hm.
  - assert (Hstop : machine_ok (log ++ []) (mkMachine None w)) by (rewrite app_nil_r; by eapply stopped_ok). destruct op as [p|p v|p|n|f| |v]; cbn.
    + destruct (sign p _) as [[r h']|] eqn:H; [|done]. by apply released_ok, (sign_ok (.∈ log) _ _ _ _ Hm Hop).
    + destruct (sign_after_slot_version p v _) as [[r h']|] eqn:H; [|done]. by apply released_ok, (sign_after_ok (.∈ log) _ _ _ _ _ Hm Hop H).
    + destruct (validate p _) as [[r h']|] eqn:H; [|done]. cbn. rewrite app_nil_r. apply frame_validate in H. destruct h'. by eapply frame_ok in H.
    + destruct (advance_next_slot_version n _) as [[r h']|] eqn:H; [|done]. cbn. rewrite app_nil_r. destruct h'. by apply (advance_ok (.∈ log) _ _ _ _ Hm Hop) in H.
    + rewrite app_nil_r. unfold machine_ok. cbn. eapply frame_ok; [exact Hm|by split].
    + done.
    + by rewrite app_nil_r.
  - destruct op as [p|p v|p|n|f| |v]; cbn; rewrite ?app_nil_r; try done. destruct (from_state_file config v w) as [[r w']|] eqn:H; [|cbn; by rewrite app_nil_r]. pose proof (start_ok log v w r w' Hst Hm H) as Hok. destruct r; cbn; by rewrite app_nil_r.
Qed.

(** [e] and a later [e'] do not conflict. *)
Definition compatible (e e' : Event) : Prop :=
  (e'.1 = e.1 -> follows timeout e e'.2) /\ (version_of e' = version_of e -> sb_chunk e'.2 = sb_chunk e.2).

Lemma compatible_released log op m e : stats_succeed -> op_typed op -> machine_ok log m -> (step op m).1 = Some e -> Forall (fun e0 => compatible e0 e) log.
Proof.
  intros Hst Hop Hm He. pose proof (signer_step_ok log op m Hst Hop Hm) as Hok. rewrite He in Hok. cbn in Hok.
  assert (Hin : exists s w, (step op m).2 = mkMachine (Some s) w /\ in_map (es_signed s) e).
  { destruct m as [[s|] w]; destruct op as [p|p v|p|n|f| |v]; cbn in He |- *; try done; repeat case_match; cbn in He |- *; try done; unfold released in He; case_match; try done;
      match type of He with context[?a !! ?b] => destruct (a !! b) as [b0|] eqn:Hb end; simplify_eq/=; by eexists _, _. }
  destruct Hin as (s & w & Hs & Hin). rewrite Hs in Hok. unfold machine_ok in Hok. cbn in Hok. apply Forall_forall. intros e0 He0.
  destruct (so_closed _ _ Hok e0) as [Hp Hv _ _]; [left; cbn; set_solver|]. cbn in Hp, Hv. unfold in_map in Hin. split.
  - intros Heq. rewrite <- Heq, Hin in Hp. done.
  - intros Hver. by eapply Hv.
Qed.

Lemma run_ok ops log m es m' : stats_succeed -> Forall op_typed ops -> machine_ok log m -> run ops m = (es, m') ->
  machine_ok (log ++ es) m' /\ forall i j e e', (i < j)%nat -> (log ++ es) !! i = Some e -> (log ++ es) !! j = Some e' -> (length log <= j)%nat -> compatible e e'.
Proof.
  intros Hst. revert log m es m'. induction ops as [|op ops IH]; intros log m es m' HF Hm H; cbn in H.
  { injection H as <- <-. rewrite app_nil_r. split; [done|]. intros i j e e' _ _ Hj%lookup_lt_Some Hge. lia. }
  apply Forall_cons in HF as [Hop HF]. destruct (step op m) as [o m1] eqn:Hs. destruct (run ops m1) as [es1 m2] eqn:Hr. injection H as <- <-.
  pose proof (signer_step_ok log op m Hst Hop Hm) as Hm1. rewrite Hs in Hm1. cbn in Hm1. destruct (IH _ _ _ _ HF Hm1 Hr) as [Hok Hpairs]. rewrite app_assoc. split; [done|].
  intros i j e e' Hij Hi Hj Hge. destruct (decide (length (log ++ option_list o) <= j)%nat) as [Hl|Hl]; [by eapply Hpairs|].
  destruct o as [eo|]; cbn in *; rewrite length_app in Hl; cbn in Hl; [|lia]. assert (j = length log) as -> by lia.
  rewrite lookup_app_l in Hi by (rewrite length_app; cbn; lia). rewrite lookup_app_l in Hi by lia. rewrite lookup_app_l in Hj by (rewrite length_app; cbn; lia). rewrite lookup_app_r, Nat.sub_diag in Hj by lia. cbn in Hj. injection Hj as <-.
  pose proof (compatible_released log op m eo Hst Hop Hm) as HF'. rewrite Hs in HF'. specialize (HF' eq_refl). rewrite Forall_lookup in HF'. by eapply HF'.
Qed.

(** A machine that never ran: no journal yet. *)
Definition fresh_machine : Machine := mkMachine None (mkWorld 0 0 None).

Lemma fresh_ok : machine_ok [] fresh_machine.
Proof.
  exists (sc_next_slot_version config), ∅. split; [split; [apply Hconfig|split; [apply map_Forall_empty|done]]|]. intros e [?%elem_of_nil|He]; [done|]. by rewrite lookup_empty in He.
Qed.

(** C4: Over every run of the signer - proposals signed or signed again after a slot
    version, versions advanced, the validator reconfigured, the process stopped and
    restarted from its journal, and writes to the journal that fail with or without
    having replaced it - two blocks released for one position with different signature
    hashes are at least the conflict timeout apart, and one slot version never carries
    two chunks. The clock does not go back and asking whether the journal exists does
    not fail. *)
Theorem signer_never_equivocates (ops : list Op) : stats_succeed -> Forall op_typed ops ->
  forall i j e e', (i < j)%nat -> (run ops fresh_machine).1 !! i = Some e -> (run ops fresh_machine).1 !! j = Some e' ->
    (e'.1 = e.1 -> sb_signature_hash e'.2 <> sb_signature_hash e.2 -> sb_signed_at_unix e.2 + timeout <= sb_signed_at_unix e'.2) /\
    (ck_slot_version (sb_chunk e'.2) = ck_slot_version (sb_chunk e.2) -> sb_chunk e'.2 = sb_chunk e.2).
Proof.
  intros Hst HF i j e e' Hij Hi Hj. destruct (run ops fresh_machine) as [es m] eqn:Hr. destruct (run_ok ops [] _ _ _ Hst HF fresh_ok Hr) as [_ Hp].
  destruct (Hp i j e e' Hij Hi Hj ltac:(cbn; lia)) as [Hf Hv]. split; [|done]. intros Hpos Hne. by destruct (Hf Hpos) as [[? _]|?].
Qed.

(** ** What is released *)

Lemma step_released (log : list Event) op m e : stats_succeed -> op_typed op -> machine_ok log m -> (step op m).1 = Some e -> exists next, is_u32 next /\ entry_ok key slot next e.1 e.2.
Proof.
  intros Hst Hop Hm He. pose proof (signer_step_ok log op m Hst Hop Hm) as Hok. destruct m as [[s|] w]; [|destruct op; cbn in He; repeat case_match; done].
  assert (Hans : exists p r h', (step op (mkMachine (Some s) w)).2 = machine_of h' /\ released p r h' = Some e).
  { destruct op as [p|p v|p|n|f| |v]; cbn in He |- *; try done; repeat case_match; try done; cbn in He |- *; eauto 6. }
  destruct Hans as (p & r & h' & Hs & Hr). rewrite Hs in Hok. unfold released in Hr. destruct r; [|done]. destruct (es_signed (hs_signer h') !! position_of p) as [b|] eqn:Hb; [|done]. injection Hr as <-.
  destruct h' as [s' w']. unfold machine_ok in Hok. cbn in *. eexists. split; [apply (so_next _ _ Hok)|]. exact (so_signed _ _ Hok _ _ Hb).
Qed.

(** Every chunk a run releases is for the signer's slot, verifies under its key,
    and decodes to an acceptance of the block of its signature hash whose signature
    recovers to the signer's key; its version is below the largest. *)
Theorem released_chunks_are_acceptances (ops : list Op) (e : Event) : stats_succeed -> Forall op_typed ops -> e ∈ (run ops fresh_machine).1 ->
  Chunk.verify (sb_chunk e.2) (writer_identity key) = Ok true /\ ck_slot_id (sb_chunk e.2) = slot /\ ck_slot_version (sb_chunk e.2) < U32_MAX /\
  exists response, SignerMessage.decode (ck_data (sb_chunk e.2)) = Some (Ok (SignerMessage.Response (Accepted response))) /\
    ba_signer_signature_hash response = sb_signature_hash e.2 /\ MessageSignature.recover (ba_signature response) (sb_signature_hash e.2) = Ok (StacksPrivateKey.public_key key).
Proof.
  intros Hst HF. assert (Hgen : forall log m, machine_ok log m -> e ∈ (run ops m).1 -> exists next, is_u32 next /\ entry_ok key slot next e.1 e.2).
  { induction ops as [|op rest IH]; intros log m Hm He; cbn in He; [by apply elem_of_nil in He|]. apply Forall_cons in HF as [Hop HF]. pose proof (step_released log op m) as Hrel. pose proof (signer_step_ok log op m Hst Hop Hm) as Hok.
    destruct (step op m) as [o m1]. cbn in Hrel, Hok. specialize (IH HF _ m1 Hok). destruct (run rest m1) as [es m2]. cbn in He, IH. apply elem_of_app in He as [He|He]; [|auto].
    destruct o as [e'|]; [|by apply elem_of_nil in He]. apply list_elem_of_singleton in He as ->. by apply Hrel. }
  intros He. destruct (Hgen [] _ fresh_ok He) as (next & Hn & []). split_and!; try done. unfold is_u32 in Hn. lia.
Qed.

(** C12: The journal that any run leaves, at any point and after any failed write, is
    accepted when the signer restarts: reopening never panics and fails only with an
    error of the file system. *)
Theorem journal_always_reopens (ops : list Op) (v : V) : stats_succeed -> Forall op_typed ops ->
  exists r w, from_state_file config v (mc_world (run ops fresh_machine).2) = Some (r, w) /\ match r with Ok s => es_state s = true | Err e => exists io, e = StateIo io end.
Proof.
  intros Hst HF. destruct (run ops fresh_machine) as [es m] eqn:Hr. destruct (run_ok ops [] _ _ _ Hst HF fresh_ok Hr) as [Hok _].
  assert (Hj : exists next j, holds config (mc_world m) next j).
  { destruct m as [[s|] w]; unfold machine_ok in Hok; cbn in *; [apply so_journal in Hok|]; destruct Hok as (next & j & Hh & _); eauto. }
  destruct Hj as (next & j & Hh). cbn. unfold from_state_file. destruct (open_total config (mc_world m)) as [[r w] Ho]. pose proof (open_calm config _ next j (co_slot Hconfig) Hh Hst _ _ _ eq_refl Ho) as (_ & _ & Hres).
  destruct Hres as [(x & -> & <-)|(e & ->)]; unfold mbind, Eff_bind; rewrite Ho; cbn; eexists _, _; (split; [done|]); [done|by eexists].
Qed.

(** The validator sees every block before it is signed for the first time. *)
Definition validated (p : BlockProposal) (h : Host_signer (V := V)) : Prop := exists v, validate_proposal p (es_validator (hs_signer h)) = Some (Ok tt, v).

(** What signing a new block leaves: the block at its position and the version used,
    or nothing at the position. *)
Definition fresh_outcome (h : Host_signer (V := V)) (p : BlockProposal) (hash : Sha256Sum) (r : result SignerError Chunk) (h' : Host_signer (V := V)) : Prop :=
  match r with
  | Ok chunk => validated p h /\ ck_slot_version chunk = es_next_slot_version (hs_signer h) /\ es_next_slot_version (hs_signer h') = es_next_slot_version (hs_signer h) + 1 /\
      exists t, es_signed (hs_signer h') = <[position_of p := mkSignedBlock hash chunk t]> (es_signed (hs_signer h))
  | Err e => e <> Equivocation /\ es_next_slot_version (hs_signer h') = es_next_slot_version (hs_signer h) /\ es_signed (hs_signer h') = delete (position_of p) (es_signed (hs_signer h))
  end.

Lemma record_outcome h pos hash data version (r : result SignerError Chunk) (h' : Host_signer (V := V)) : record pos hash data version h = Some (r, h') ->
  match r with
  | Ok chunk => ck_slot_version chunk = version /\ es_next_slot_version (hs_signer h') = version + 1 /\ exists t, es_signed (hs_signer h') = <[pos := mkSignedBlock hash chunk t]> (es_signed (hs_signer h))
  | Err e => e <> Equivocation /\ hs_signer h' = hs_signer h
  end.
Proof.
  unfold record. rewrite (eff_bind_run _ _ _ (hs_signer h) h) by done. destruct (checked_add U32_MAX version 1) as [next|] eqn:Ha; cbn [or_err]; [|by intros [= <- <-]]. apply checked_add_Some in Ha as [-> _].
  rewrite (eff_bind_run _ _ _ (version + 1) h) by done. destruct (Chunk.sign _ _) as [chunk|e] eqn:Hs; [|by intros [= <- <-]]. apply chunk_sign_spec in Hs as (_ & Hv & _). cbn in Hv.
  rewrite (eff_bind_run _ _ _ chunk h) by done. intros [(now & h1 & Hc & H)|(e & Hc & _)]%eff_bind_inv; [|by unfold read_clock, now_unix in Hc; simplify_eq]. apply frame_clock in Hc as (_ & _ & _ & Hsg).
  cbn zeta in H. apply eff_bind_inv in H as [([] & h2 & Hp & H)|(e & Hp & ->)].
  - assert (hs_signer h2 = hs_signer h1) as Hs2 by (unfold persist_state in Hp; destruct (es_state _); [|congruence]; destruct (persist _ _ _ _ _); by injection Hp as _ <-). injection H as <- <-. cbn. split_and!; [done|done|]. by eexists.
  - unfold persist_state in Hp. destruct (es_state _); [|done]. destruct (persist _ _ _ _ _) as [pr w]. injection Hp as Hpr <-. split; [by destruct pr; simplify_eq/=|done].
Qed.

Lemma sign_new_outcome L p hash h (r : result SignerError Chunk) h' : signer_ok L h -> es_signed (hs_signer h) !! position_of p = None -> sign_new p hash h = Some (r, h') -> fresh_outcome h p hash r h'.
Proof.
  intros Hok Hnone H. unfold sign_new in H. apply eff_bind_inv in H as [([] & h1 & H1 & H)|(e & H1 & ->)]; apply frame_validate in H1 as Hf.
  2:{ split_and!; [|apply Hf|rewrite delete_id by done; apply Hf]. unfold validate, zoom in H1. destruct (validate_proposal p _) as [[[u|e'] v]|]; try done. by injection H1 as <- <-. }
  pose proof (frame_ok _ _ _ Hok Hf) as Hok1. assert (Hv : validated p h) by (unfold validate, zoom in H1; destruct (validate_proposal p _) as [[[[]|e'] v]|] eqn:Hv; try done; by exists v). clear H1.
  rewrite (eff_bind_run _ _ _ (hs_signer h1) h1) in H by done. cbn zeta in H. apply eff_bind_inv in H as [(ts & h2 & H2 & H)|(e & H2 & _)]; [|done]. apply frame_extend in H2 as [Hf2 _]; [|apply Hok1].
  pose proof (frame_trans _ _ _ Hf Hf2) as Hf3. assert (Herr : forall e, e <> Equivocation -> fresh_outcome h p hash (Err e) h2) by (intros e He; split_and!; [done|apply Hf3|rewrite delete_id by done; apply Hf3]).
  apply eff_bind_inv in H as [(enc & h3 & H3 & H)|(e & H3 & _)]; unfold unwrap in H3; destruct (SignerMessage.encode _) as [enc'|]; try done. injection H3 as <- <-.
  apply eff_bind_inv in H as [(data & h4 & H4 & H)|(e & H4 & ->)]; unfold try_with in H4; destruct enc' as [d|em]; try done; [|injection H4 as <- <-; by apply Herr]. injection H4 as <- <-.
  apply record_outcome in H. rewrite (fr_next _ _ Hf) in H. destruct r as [chunk|e]; unfold fresh_outcome; rewrite <- (fr_signed _ _ Hf3).
  - destruct H as (? & ? & ?). by split_and!.
  - destruct H as (? & ->). split_and!; [done|apply Hf3|]. rewrite delete_id; [done|]. by rewrite (fr_signed _ _ Hf3).
Qed.

(** What sign does with a proposal, on every branch: the chunk of the same block
    is returned as it was, a different block within the timeout is an equivocation
    that changes nothing, and otherwise the proposal is validated first and the chunk
    takes the next slot version and is recorded, or the error leaves nothing at the
    position and the version unused. *)
Theorem sign_spec (log : list Event) (h : Host_signer (V := V)) (p : BlockProposal) (hash : Sha256Sum) (r : result SignerError Chunk) (h' : Host_signer (V := V)) :
  signer_ok (.∈ log) h -> signer_signature_hash (bl_header (bp_block p)) = Some hash -> sign p h = Some (r, h') ->
  match es_signed (hs_signer h) !! position_of p with
  | None => fresh_outcome h p hash r h'
  | Some b =>
      if bool_decide (sb_signature_hash b = hash) then r = Ok (sb_chunk b) /\ h' = h
      else if reading (w_readings (hs_world h)) - sb_signed_at_unix b <? timeout then r = Err Equivocation /\ hs_signer h' = hs_signer h /\ w_file (hs_world h') = w_file (hs_world h)
      else fresh_outcome h p hash r h'
  end.
Proof.
  intros Hok Hhash H. unfold sign in H. rewrite Hhash in H. rewrite (eff_bind_run _ _ _ hash h), (eff_bind_run _ _ _ (hs_signer h) h) in H by done.
  destruct (es_signed (hs_signer h) !! position_of p) as [b|] eqn:Hb; [|by eapply sign_new_outcome]. destruct (bool_decide (sb_signature_hash b = hash)); [by injection H as <- <-|].
  apply eff_bind_inv in H as [(now & h2 & H2 & H)|(e & H2 & _)]; [|by unfold read_clock, now_unix in H2; simplify_eq]. pose proof (frame_clock _ _ _ H2) as (Hf & Hnow & Hrd & Hsg). pose proof (frame_ok _ _ _ Hok Hf) as Hok2.
  assert (Hpast : sb_signed_at_unix b <= now) by (rewrite Hnow; apply (so_closed _ _ Hok (position_of p, b)); by right). assert (Hcmp : (saturating_sub now (sb_signed_at_unix b) <? es_conflict_timeout_secs (hs_signer h)) = (reading (w_readings (hs_world h)) - sb_signed_at_unix b <? timeout)).
  { rewrite (so_timeout _ _ Hok), <- Hnow. unfold saturating_sub. by rewrite Z.max_r by lia. }
  destruct (saturating_sub _ _ <? _) eqn:Hlt in H; rewrite Hcmp in Hlt; rewrite Hlt; [injection H as <- <-; split_and!; [done|done|apply Hf]|]. rewrite <- Hcmp in Hlt.
  pose proof (timeout_passed _ _ _ _ _ _ Hok Hb H2 Hlt) as Hlate. rewrite (eff_bind_run _ _ _ tt (on_signer (set_es_signed (delete (position_of p) (es_signed (hs_signer h)))) h2)) in H by done.
  apply (sign_new_outcome (.∈ log)) in H; [|rewrite <- Hsg; eapply delete_ok; [done|by rewrite Hsg|done]|cbn; apply lookup_delete_eq]. unfold fresh_outcome in *. cbn in H. rewrite Hsg in H. destruct r as [chunk|e].
  - destruct H as (Hv & ? & ? & t & Ht). split_and!; [|done|done|exists t; by rewrite Ht, insert_delete_eq]. destruct Hv as [v Hv]. cbn in Hv. rewrite Hsg in Hv. by exists v.
  - destruct H as (? & ? & Hd). split_and!; [done|done|]. by rewrite Hd, delete_delete_eq.
Qed.

End Safety.
