(* ===== verification/SignerService.v ===== *)
(** * The signer's service: [SignerService], [StateAnnouncer] and [LiveSigner] of
      [crates/nano-signer/src/lib.rs]

    How a signer picks the proposal to answer, promises to sign it, reads the
    promises of the others and uploads its answer. The HTTP clients of StackerDB
    and of the peer are classes over the state of the network; an [async] call is a
    step of it. *)

From stdpp Require Import gmap.
From S2P Require Import Prelude Primitives Address CodecIO Crypto TxData TxCodec.
From S2P Require Import Nakamoto Signers Effects PeerWire StackerDb EmbeddedSigner.

(** ** Equality of updates *)

#[global] Instance AuthField_eq_dec : EqDecision AuthField. Proof. solve_decision. Defined.
#[global] Instance SinglesigCondition_eq_dec : EqDecision SinglesigCondition. Proof. solve_decision. Defined.
#[global] Instance MultisigCondition_eq_dec : EqDecision MultisigCondition. Proof. solve_decision. Defined.
#[global] Instance OrderIndependent_eq_dec : EqDecision OrderIndependentMultisigCondition. Proof. solve_decision. Defined.
#[global] Instance SpendingCondition_eq_dec : EqDecision SpendingCondition. Proof. solve_decision. Defined.
#[global] Instance TransactionAuth_eq_dec : EqDecision TransactionAuth. Proof. solve_decision. Defined.
#[global] Instance Principal_eq_dec : EqDecision Principal. Proof. solve_decision. Defined.
#[global] Instance PostConditionPrincipal_eq_dec : EqDecision PostConditionPrincipal. Proof. solve_decision. Defined.
#[global] Instance AssetInfo_eq_dec : EqDecision AssetInfo. Proof. solve_decision. Defined.
#[global] Instance FungibleCondition_eq_dec : EqDecision FungibleCondition. Proof. solve_decision. Defined.
#[global] Instance NonFungibleCondition_eq_dec : EqDecision NonFungibleCondition. Proof. solve_decision. Defined.
#[global] Instance PoxCondition_eq_dec : EqDecision PoxCondition. Proof. solve_decision. Defined.
#[global] Instance PostConditionData_eq_dec : EqDecision PostConditionData. Proof. solve_decision. Defined.
#[global] Instance PostCondition_eq_dec : EqDecision PostCondition. Proof. solve_decision. Defined.
#[global] Instance MicroblockHeader_eq_dec : EqDecision MicroblockHeader. Proof. solve_decision. Defined.
#[global] Instance TenureChangePayload_eq_dec : EqDecision TenureChangePayload. Proof. solve_decision. Defined.
#[global] Instance TransactionPayloadData_eq_dec : EqDecision TransactionPayloadData. Proof. solve_decision. Defined.
#[global] Instance TransactionPayload_eq_dec : EqDecision TransactionPayload. Proof. solve_decision. Defined.
#[global] Instance Transaction_eq_dec : EqDecision Transaction. Proof. solve_decision. Defined.
#[global] Instance CurrentMiner_eq_dec : EqDecision CurrentMiner. Proof. solve_decision. Defined.
#[global] Instance StateMachineUpdate_eq_dec : EqDecision StateMachineUpdate. Proof. solve_decision. Defined.

(** ** The clients *)

Record StackerDbContract : Type := mkContract { ct_address : StacksAddress.t; ct_name : list byte }.
Record SlotVersion : Type := mkSlotVersion { sl_slot_id : Z; sl_slot_version : Z }.
Record ChunkAck : Type := mkAck { ack_accepted : bool; ack_reason : option (list byte); ack_code : option Z; ack_metadata : option SlotVersion }.

(** [StackerDbClient] over the state of the network. *)
Class StackerDbClients : Type := {
  Network : Type;
  DbClient : Type;
  DbClientError : Type;
  slot_versions : DbClient -> StackerDbContract -> Network -> result DbClientError (list SlotVersion) * Network;
  latest_chunk : DbClient -> StackerDbContract -> Z -> Network -> result DbClientError (option (list byte)) * Network;
  put_chunk : DbClient -> StackerDbContract -> Chunk -> Network -> result DbClientError ChunkAck * Network;
}.

Record TenureInfo : Type := mkTenureInfo {
  ti_consensus_hash : ConsensusHash;
  ti_tenure_start_block_id : StacksBlockId;
  ti_parent_consensus_hash : ConsensusHash;
  ti_parent_tenure_start_block_id : StacksBlockId;
  ti_tip_block_id : StacksBlockId;
  ti_tip_height : Z;
  ti_reward_cycle : Z;
}.

(** What the announcer asks [SyncClient] for. *)
Class SyncClients `{StackerDbClients} : Type := {
  NodeClient : Type;
  SyncError : Type;
  sortition_tip : NodeClient -> Network -> result SyncError SortitionInfo * Network;
  tenure_info : NodeClient -> Network -> result SyncError TenureInfo * Network;
  node_block : NodeClient -> StacksBlockId -> Network -> result SyncError NakamotoBlock * Network;
}.

(** ** The proposal to answer *)

Record PendingProposal : Type := mkPending { pp_hash : Sha256Sum; pp_proposal : BlockProposal }.
Record ProposalCursor : Type := mkCursor { pc_position : Z * Z; pc_answered : gset (list byte) }.

Definition proposal_position (p : PendingProposal) : Z * Z := (bp_bitcoin_height (pp_proposal p), hd_chain_length (bl_header (bp_block (pp_proposal p)))).

(** The order of pairs. *)
Definition position_ltb (a b : Z * Z) : bool := (a.1 <? b.1) || ((a.1 =? b.1) && (a.2 <? b.2)).

(** [Iterator::max]. *)
Definition max_position (l : list (Z * Z)) : option (Z * Z) :=
  foldl (fun best p => match best with None => Some p | Some b => if position_ltb p b then Some b else Some p end) None l.

(** [Iterator::max_by_key] on the hash: the last of the greatest. *)
Definition max_by_hash (l : list PendingProposal) : option PendingProposal :=
  foldl (fun best p => match best with None => Some p | Some b => match compare_bytes (pp_hash p) (pp_hash b) with Lt => Some b | _ => Some p end end) None l.

Definition of_cycle (reward_cycle : Z) (p : PendingProposal) : bool := bp_reward_cycle (pp_proposal p) =? reward_cycle.

Definition unanswered (cursor : option ProposalCursor) (newest : Z * Z) (p : PendingProposal) : bool :=
  match cursor with None => true | Some c => negb (bool_decide (pc_position c = newest)) || negb (bool_decide (pp_hash p ∈ pc_answered c)) end.

Definition newest_proposal_for_cycle (proposals : list PendingProposal) (reward_cycle : Z) (cursor : option ProposalCursor) : option PendingProposal :=
  newest_position ← max_position (map proposal_position (List.filter (of_cycle reward_cycle) proposals));
  if match cursor with None => false | Some c => position_ltb newest_position (pc_position c) end then None else
  max_by_hash (List.filter (unanswered cursor newest_position)
    (List.filter (fun p => bool_decide (proposal_position p = newest_position)) (List.filter (of_cycle reward_cycle) proposals))).

Definition record_answered (pending : PendingProposal) (cursor : option ProposalCursor) : option ProposalCursor :=
  let position := proposal_position pending in
  let restart := Some (mkCursor position {[pp_hash pending]}) in
  match cursor with
  | None => restart
  | Some c =>
      if bool_decide (pc_position c = position) then Some (mkCursor (pc_position c) ({[pp_hash pending]} ∪ pc_answered c))
      else if position_ltb position (pc_position c) then Some c else restart
  end.

(** ** The service *)

Section Service.
Context `{HS : Hashes} `{SE : Secp256k1} `{ED : Edwards} `{HT : Host} `{EN : Encodings} `{CL : StackerDbClients}.
Context {V : Type} `{PV : ProposalValidator V}.

Inductive SignerServiceError : Type :=
| Client (e : DbClientError)
| ServiceMessage (e : SignerMessageError.t)
| ServiceSigner (e : SignerError)
| UnexpectedMessage
| AckRejected (reason : option (list byte)) (code : option Z).

Record SignerService : Type := mkService {
  ss_client : DbClient;
  ss_miner_contract : StackerDbContract;
  ss_signer_contract : StackerDbContract;
  ss_pre_commit_contract : StackerDbContract;
  ss_signer : EmbeddedSigner V;
  ss_cursor : option ProposalCursor;
}.

(** The service, the calls to the system and the network. *)
Record Deployed : Type := mkDeployed { dp_service : SignerService; dp_world : World; dp_network : Network }.

Abbreviation ServiceEff := (Eff Deployed SignerServiceError).

Definition on_service (f : SignerService -> SignerService) (d : Deployed) : Deployed := mkDeployed (f (dp_service d)) (dp_world d) (dp_network d).
Definition set_ss_signer (s : EmbeddedSigner V) (v : SignerService) : SignerService :=
  mkService (ss_client v) (ss_miner_contract v) (ss_signer_contract v) (ss_pre_commit_contract v) s (ss_cursor v).
Definition set_ss_cursor (c : option ProposalCursor) (v : SignerService) : SignerService :=
  mkService (ss_client v) (ss_miner_contract v) (ss_signer_contract v) (ss_pre_commit_contract v) (ss_signer v) c.

(** A request to a peer. *)
Definition request {F A} (f : F -> SignerServiceError) (call : Network -> result F A * Network) : ServiceEff A := fun d =>
  let '(r, n) := call (dp_network d) in Some (map_err f r, mkDeployed (dp_service d) (dp_world d) n).

(** A call to the embedded signer. *)
Definition with_signer {A} (m : Eff Host_signer SignerError A) : ServiceEff A :=
  zoom (fun d => mkHosted (ss_signer (dp_service d)) (dp_world d)) (fun h d => mkDeployed (set_ss_signer (hs_signer h) (dp_service d)) (hs_world h) (dp_network d)) ServiceSigner m.

Definition service_new (client : DbClient) (miner_contract signer_contract pre_commit_contract : StackerDbContract) (signer : EmbeddedSigner V) : SignerService :=
  mkService client miner_contract signer_contract pre_commit_contract signer None.

(** The loop over the slots of the miners. *)
Fixpoint fetch_proposals (client : DbClient) (contract : StackerDbContract) (slots : list SlotVersion) : ServiceEff (list PendingProposal) :=
  match slots with
  | [] => mret []
  | slot :: rest =>
      chunk ← request Client (latest_chunk client contract (sl_slot_id slot));
      match chunk with
      | None => fetch_proposals client contract rest
      | Some bytes =>
          message ← unwrap (SignerMessage.decode bytes);
          proposals ← fetch_proposals client contract rest;
          mret (match message with Ok (SignerMessage.Proposal p) => mkPending (sha512_256 bytes) p :: proposals | _ => proposals end)
      end
  end.

Definition next_proposal_for_cycle (reward_cycle : Z) : ServiceEff (option PendingProposal) :=
  s ← ask dp_service;
  slots ← request Client (slot_versions (ss_client s) (ss_miner_contract s));
  proposals ← fetch_proposals (ss_client s) (ss_miner_contract s) slots;
  mret (newest_proposal_for_cycle proposals reward_cycle (ss_cursor s)).

(** [find(|slot| slot.slot_id == writer_slot).map_or(0, |slot| slot.slot_version)]. *)
Definition version_held (writer_slot : Z) (slots : list SlotVersion) : Z :=
  match List.find (fun slot => sl_slot_id slot =? writer_slot) slots with Some slot => sl_slot_version slot | None => 0 end.

(** [if !acknowledgement.accepted { return Err(Rejected { .. }) }]. *)
Definition expect_accepted (ack : ChunkAck) : ServiceEff unit := if ack_accepted ack then mret tt else throw (AckRejected (ack_reason ack) (ack_code ack)).

Definition pre_commit (p : BlockProposal) : ServiceEff Sha256Sum :=
  signature_hash ← unwrap (signer_signature_hash (bl_header (bp_block p)));
  s ← ask dp_service;
  let writer_slot := es_writer_slot (ss_signer s) in
  slots ← request Client (slot_versions (ss_client s) (ss_pre_commit_contract s));
  version ← try_with id (or_err (checked_add U32_MAX (version_held writer_slot slots) 1) (ServiceSigner SlotVersionOverflow));
  encoded ← unwrap (SignerMessage.encode (SignerMessage.PreCommit signature_hash));
  data ← try_with ServiceMessage encoded;
  chunk ← try_with (fun e => ServiceSigner (ChunkFailed e)) (Chunk.sign (Chunk.new writer_slot version data) (es_private_key (ss_signer s)));
  ack ← request Client (put_chunk (ss_client s) (ss_pre_commit_contract s) chunk);
  _ ← expect_accepted ack;
  mret signature_hash.

Definition reconcile_writer_slot : ServiceEff Z :=
  s ← ask dp_service;
  slots ← request Client (slot_versions (ss_client s) (ss_signer_contract s));
  let version := version_held (es_writer_slot (ss_signer s)) slots in
  next ← try_with id (or_err (checked_add U32_MAX version 1) (ServiceSigner SlotVersionOverflow));
  _ ← with_signer (advance_next_slot_version next);
  mret version.

Definition respond (pending : PendingProposal) : ServiceEff ChunkAck :=
  remote_slot_version ← reconcile_writer_slot;
  chunk ← with_signer (sign_after_slot_version (pp_proposal pending) remote_slot_version);
  s ← ask dp_service;
  ack ← request Client (put_chunk (ss_client s) (ss_signer_contract s) chunk);
  _ ← expect_accepted ack;
  _ ← modify (on_service (fun s => set_ss_cursor (record_answered pending (ss_cursor s)) s));
  mret ack.

Definition poll (reward_cycle : Z) : ServiceEff (option ChunkAck) :=
  pending ← next_proposal_for_cycle reward_cycle;
  match pending with
  | None => mret None
  | Some pending => ack ← respond pending; mret (Some ack)
  end.

Definition rebind (signer_contract pre_commit_contract : StackerDbContract) (writer_slot : Z) (s : SignerService) : SignerService :=
  mkService (ss_client s) (ss_miner_contract s) signer_contract pre_commit_contract (set_writer_slot writer_slot (ss_signer s)) None.

Definition use_client (client : DbClient) (s : SignerService) : SignerService :=
  mkService client (ss_miner_contract s) (ss_signer_contract s) (ss_pre_commit_contract s) (ss_signer s) (ss_cursor s).

(** ** The promises of the others *)

Fixpoint fetch_promises (client : DbClient) (contract : StackerDbContract) (slots : list SlotVersion) : ServiceEff (list (Z * list byte)) :=
  match slots with
  | [] => mret []
  | slot :: rest =>
      chunk ← request Client (latest_chunk client contract (sl_slot_id slot));
      promised ← fetch_promises client contract rest;
      mret (match chunk with Some bytes => (sl_slot_id slot, bytes) :: promised | None => promised end)
  end.

(** [signers.signers().get(slot_id as usize)]. *)
Definition slot_weight (signers : list Signer) (slot_id : Z) : option Z := sg_weight <$> signers !! Z.to_nat slot_id.

Definition promises (signature_hash : Sha256Sum) (bytes : list byte) : bool :=
  match SignerMessage.decode bytes with Some (Ok (SignerMessage.PreCommit hash)) => bool_decide (hash = signature_hash) | _ => false end.

(** The fold of the weights. *)
Definition promised_weight (signature_hash : Sha256Sum) (signers : list Signer) (promised : list (Z * list byte)) : Z :=
  foldl (saturating_add U32_MAX) 0 (omap (fun '(slot_id, _) => slot_weight signers slot_id) (List.filter (fun '(_, bytes) => promises signature_hash bytes) promised)).

Definition pre_commit_weight (client : DbClient) (contract : StackerDbContract) (signature_hash : Sha256Sum) (signers : list Signer) : ServiceEff Z :=
  slots ← request Client (slot_versions client contract);
  promised ← fetch_promises client contract slots;
  mret (promised_weight signature_hash signers promised).

(** [LiveSigner::answer]: promise, then sign once the promises carry the weight. *)
Definition answer (pending : PendingProposal) (signers : list Signer) : ServiceEff (option ChunkAck) :=
  _ ← with_signer (validate (pp_proposal pending));
  signature_hash ← pre_commit (pp_proposal pending);
  s ← ask dp_service;
  promised ← pre_commit_weight (ss_client s) (ss_pre_commit_contract s) signature_hash signers;
  threshold ← try_with (fun _ => ServiceSigner (Validation (ChainRefusal []))) (set_approval_threshold signers);
  if promised <? threshold then mret None else
  ack ← respond pending;
  mret (Some ack).

End Service.

(** ** The announcer of this signer's view *)

Section Announcer.
Context `{HS : Hashes} `{SE : Secp256k1} `{ED : Edwards} `{CL : StackerDbClients} `{SY : !SyncClients}.

Inductive AnnounceError : Type :=
| Sync (e : SyncError)
| DbFailed (e : DbClientError)
| BadThreshold (e : SignerSetError)
| AnnounceVersionOverflow
| AnnounceMessage (e : SignerMessageError.t)
| AnnounceChunk (e : StackerDbError.t)
| AnnounceRejected (reason : option (list byte)) (code : option Z).

Record StateAnnouncer : Type := mkAnnouncer {
  an_client : DbClient;
  an_contract : StackerDbContract;
  an_writer_slot : Z;
  an_private_key : secp_sk;
  an_announced : option StateMachineUpdate;
}.

Abbreviation AnnounceEff := (Eff (StateAnnouncer * Network) AnnounceError).

Definition announcer_new (client : DbClient) (contract : StackerDbContract) (writer_slot : Z) (private_key : secp_sk) : StateAnnouncer := mkAnnouncer client contract writer_slot private_key None.
Definition announcer_rebind (contract : StackerDbContract) (writer_slot : Z) (a : StateAnnouncer) : StateAnnouncer := mkAnnouncer (an_client a) contract writer_slot (an_private_key a) None.
Definition announcer_use_client (client : DbClient) (a : StateAnnouncer) : StateAnnouncer := mkAnnouncer client (an_contract a) (an_writer_slot a) (an_private_key a) None.
Definition set_announced (update : StateMachineUpdate) (s : StateAnnouncer * Network) : StateAnnouncer * Network :=
  (mkAnnouncer (an_client s.1) (an_contract s.1) (an_writer_slot s.1) (an_private_key s.1) (Some update), s.2).

Definition ask_network {F A} (f : F -> AnnounceError) (call : Network -> result F A * Network) : AnnounceEff A := fun s => let '(r, n) := call s.2 in Some (map_err f r, (s.1, n)).

(** The weight behind each view, in the order the views are first seen. *)
Fixpoint add_weight (update : StateMachineUpdate) (weight : Z) (weights : list (StateMachineUpdate * Z)) : list (StateMachineUpdate * Z) :=
  match weights with
  | [] => [(update, weight)]
  | (seen, total) :: rest => if decide (seen = update) then (seen, saturating_add U32_MAX total weight) :: rest else (seen, total) :: add_weight update weight rest
  end.

(** The loop of [agreed_view]. *)
Fixpoint gather_views (a : StateAnnouncer) (signers : list Signer) (slots : list SlotVersion) (weights : list (StateMachineUpdate * Z)) : AnnounceEff (list (StateMachineUpdate * Z)) :=
  match slots with
  | [] => mret weights
  | slot :: rest =>
      if sl_slot_id slot =? an_writer_slot a then gather_views a signers rest weights else
      match slot_weight signers (sl_slot_id slot) with
      | None => gather_views a signers rest weights
      | Some weight =>
          chunk ← ask_network DbFailed (latest_chunk (an_client a) (an_contract a) (sl_slot_id slot));
          match chunk with
          | None => gather_views a signers rest weights
          | Some bytes =>
              message ← unwrap (SignerMessage.decode bytes);
              match message with
              | Ok (SignerMessage.Update update) => gather_views a signers rest (add_weight update weight weights)
              | _ => gather_views a signers rest weights
              end
          end
      end
  end.

Definition own_weight (a : StateAnnouncer) (signers : list Signer) : Z := default 0 (slot_weight signers (an_writer_slot a)).

(** [max_by_key(|(_, weight)| *weight)]: the last of the heaviest. *)
Definition heaviest (l : list (StateMachineUpdate * Z)) : option (StateMachineUpdate * Z) :=
  foldl (fun best v => match best with None => Some v | Some b => if v.2 <? b.2 then Some b else Some v end) None l.

Definition choose_view (own threshold : Z) (weights : list (StateMachineUpdate * Z)) : option StateMachineUpdate :=
  fst <$> heaviest (List.filter (fun v => saturating_sub threshold own <=? v.2) weights).

Definition agreed_view (signers : list Signer) : AnnounceEff (option StateMachineUpdate) :=
  threshold ← try_with BadThreshold (set_approval_threshold signers);
  a ← ask fst;
  slots ← ask_network DbFailed (slot_versions (an_client a) (an_contract a));
  weights ← gather_views a signers slots [];
  mret (choose_view (own_weight a signers) threshold weights).

Definition current_miner (node : NodeClient) (bitcoin_tip : SortitionInfo) : AnnounceEff CurrentMiner :=
  match si_miner_public_key_hash bitcoin_tip, si_stacks_parent_consensus_hash bitcoin_tip with
  | Some public_key_hash, Some parent_tenure_consensus_hash =>
      tenure ← ask_network Sync (tenure_info node);
      last ← (if bool_decide (ti_consensus_hash tenure = si_consensus_hash bitcoin_tip) then
                start ← ask_network Sync (node_block node (ti_tenure_start_block_id tenure));
                mret (hd_parent_block_id (bl_header start), saturating_sub (hd_chain_length (bl_header start)) 1)
              else mret (ti_tip_block_id tenure, ti_tip_height tenure));
      mret (ActiveMiner public_key_hash (si_consensus_hash bitcoin_tip) parent_tenure_consensus_hash last.1 last.2)
  | _, _ => mret NoMiner
  end.

Definition derive (node : NodeClient) : AnnounceEff StateMachineUpdate :=
  bitcoin_tip ← ask_network Sync (sortition_tip node);
  current_miner ← current_miner node bitcoin_tip;
  mret (mkUpdate LATEST_SIGNER_PROTOCOL_VERSION LATEST_SIGNER_PROTOCOL_VERSION (si_consensus_hash bitcoin_tip) (si_bitcoin_height bitcoin_tip) current_miner []).

Definition announce_state (node : NodeClient) (signers : list Signer) : AnnounceEff (option ChunkAck) :=
  agreed ← agreed_view signers;
  update ← (match agreed with Some agreed => mret agreed | None => derive node end);
  a ← ask fst;
  if bool_decide (an_announced a = Some update) then mret None else
  slots ← ask_network DbFailed (slot_versions (an_client a) (an_contract a));
  slot_version ← try_with id (or_err (checked_add U32_MAX (version_held (an_writer_slot a) slots) 1) AnnounceVersionOverflow);
  encoded ← unwrap (SignerMessage.encode (SignerMessage.Update update));
  data ← try_with AnnounceMessage encoded;
  chunk ← try_with AnnounceChunk (Chunk.sign (Chunk.new (an_writer_slot a) slot_version data) (an_private_key a));
  ack ← ask_network DbFailed (put_chunk (an_client a) (an_contract a) chunk);
  _ ← (if ack_accepted ack then mret tt else throw (AnnounceRejected (ack_reason ack) (ack_code ack)));
  _ ← modify (set_announced update);
  mret (Some ack).

End Announcer.
