(* ===== verification/SignerServiceTheorems.v ===== *)
(** * The signer's service: which proposal it answers and when it signs *)

From stdpp Require Import gmap.
From S2P Require Import Prelude Primitives Address CodecIO Crypto TxData TxCodec.
From S2P Require Import Nakamoto Signers Effects PeerWire StackerDb StackerDbTheorems EmbeddedSigner SignerService.

(** ** Positions *)

Lemma position_ltb_spec a b : position_ltb a b = true <-> a.1 < b.1 \/ (a.1 = b.1 /\ a.2 < b.2).
Proof. unfold position_ltb. destruct a, b. cbn. lia. Qed.

Lemma position_not_lt a b : position_ltb a b = false <-> b.1 < a.1 \/ (a.1 = b.1 /\ b.2 <= a.2).
Proof. unfold position_ltb. destruct a, b. cbn. lia. Qed.

Lemma position_total a b : position_ltb a b = false -> position_ltb b a = false -> a = b.
Proof. rewrite !position_not_lt. destruct a, b. cbn. intros. f_equal; lia. Qed.

(** The value a fold that keeps the later of the greatest ends with. *)
Section Best.
Context {A : Type} (keep : A -> A -> bool) (Htrans : forall a b c, keep a b = false -> keep b c = false -> keep a c = false) (Htot : forall a b, keep a b = true -> keep b a = false).

Definition best_of (l : list A) : option A := foldl (fun best x => match best with None => Some x | Some b => if keep x b then Some b else Some x end) None l.

Lemma best_of_spec l : match best_of l with
  | None => l = []
  | Some b => b ∈ l /\ forall x, x ∈ l -> keep b x = false
  end.
Proof using Htrans Htot.
  unfold best_of. induction l as [|x l IH] using rev_ind; [done|]. rewrite foldl_app. cbn. destruct (foldl _ None l) as [b|].
  - destruct IH as [Hb Hmax]. assert (Hrefl : forall a, keep a a = false) by (intros a; destruct (keep a a) eqn:Ha; [|done]; by rewrite <- Ha; apply Htot).
    destruct (keep x b) eqn:Hk; (split; [set_solver|]); intros y [Hy| ->%list_elem_of_singleton]%elem_of_app; auto. eapply Htrans; [exact Hk|by apply Hmax].
  - subst l. split; [set_solver|]. intros y [Hy%elem_of_nil| ->%list_elem_of_singleton]%elem_of_app; [done|]. destruct (keep x x) eqn:Ha; [|done]. by rewrite <- Ha; apply Htot.
Qed.
End Best.

Lemma max_position_spec l : match max_position l with
  | None => l = []
  | Some b => b ∈ l /\ forall x, x ∈ l -> position_ltb b x = false
  end.
Proof.
  apply (best_of_spec position_ltb); intros *; rewrite ?position_not_lt, ?position_ltb_spec; destruct a, b; try destruct c; cbn; lia.
Qed.

Definition hash_ltb (a b : PendingProposal) : bool := match compare_bytes (pp_hash a) (pp_hash b) with Lt => true | _ => false end.

Lemma max_by_hash_spec l : match max_by_hash l with
  | None => l = []
  | Some b => b ∈ l /\ forall x, x ∈ l -> bytes_le (pp_hash x) (pp_hash b)
  end.
Proof.
  assert (Heq : max_by_hash l = best_of hash_ltb l).
  { unfold max_by_hash, best_of. generalize (@None PendingProposal). induction l as [|x l IH]; intros o; [done|]. cbn. rewrite IH. f_equal. destruct o; [|done]. unfold hash_ltb. by destruct (compare_bytes _ _). }
  assert (Hle : forall a b, hash_ltb a b = false <-> bytes_le (pp_hash b) (pp_hash a)).
  { intros a b. unfold hash_ltb, bytes_le. rewrite (compare_bytes_antisym (pp_hash a)). destruct (compare_bytes (pp_hash a) (pp_hash b)); cbn; split; done. }
  rewrite Heq. pose proof (best_of_spec hash_ltb) as HB. specialize (HB ltac:(intros a b c; rewrite !Hle; intros; by etrans)).
  specialize (HB ltac:(intros a b Hab; destruct (hash_ltb b a) eqn:Hba; [|done]; unfold hash_ltb in *; rewrite compare_bytes_antisym in Hba; by destruct (compare_bytes (pp_hash a) (pp_hash b))) l).
  destruct (best_of hash_ltb l); [|done]. destruct HB as [Hb HB]. split; [done|]. intros x Hx. by apply Hle, HB.
Qed.

(** ** The proposal to answer *)

(** [p] is of the cycle and nothing of the cycle is at a later position. *)
Definition newest_in (proposals : list PendingProposal) (cycle : Z) (p : PendingProposal) : Prop :=
  p ∈ proposals /\ bp_reward_cycle (pp_proposal p) = cycle /\ forall q, q ∈ proposals -> bp_reward_cycle (pp_proposal q) = cycle -> position_ltb (proposal_position p) (proposal_position q) = false.

(** Not at or before the last position answered, unless at it with another hash. *)
Definition open_to (cursor : option ProposalCursor) (p : PendingProposal) : Prop :=
  match cursor with
  | None => True
  | Some c => position_ltb (pc_position c) (proposal_position p) = true \/ (pc_position c = proposal_position p /\ pp_hash p ∉ pc_answered c)
  end.

Lemma unanswered_open cursor p : match cursor with None => false | Some c => position_ltb (proposal_position p) (pc_position c) end = false ->
  unanswered cursor (proposal_position p) p = true <-> open_to cursor p.
Proof.
  destruct cursor as [c|]; cbn; [|done]. intros Hlt. destruct (bool_decide_reflect (pc_position c = proposal_position p)) as [Heq|Hne]; cbn [negb orb].
  - destruct (bool_decide_reflect (pp_hash p ∈ pc_answered c)); cbn; split; try done; [|tauto]. intros [Hb|[_ ?]]; [|done]. rewrite Heq, position_ltb_spec in Hb. lia.
  - split; [|done]. intros _. left. destruct (position_ltb (pc_position c) (proposal_position p)) eqn:Hb; [done|]. by destruct Hne; apply position_total.
Qed.

Lemma elem_of_List_filter {A} (f : A -> bool) l x : x ∈ List.filter f l <-> f x = true /\ x ∈ l.
Proof. rewrite !list_elem_of_In, List.filter_In. tauto. Qed.

(** The proposal picked for a cycle is one of that cycle at its greatest
    position, is not one the cursor has passed, and has the greatest hash among those;
    when none is picked there is none. *)
Theorem newest_proposal_spec (proposals : list PendingProposal) (cycle : Z) (cursor : option ProposalCursor) :
  match newest_proposal_for_cycle proposals cycle cursor with
  | Some p => newest_in proposals cycle p /\ open_to cursor p /\ forall q, newest_in proposals cycle q -> open_to cursor q -> bytes_le (pp_hash q) (pp_hash p)
  | None => forall p, newest_in proposals cycle p -> ~ open_to cursor p
  end.
Proof.
  unfold newest_proposal_for_cycle. pose proof (max_position_spec (map proposal_position (List.filter (of_cycle cycle) proposals))) as Hmax.
  assert (Hcyc : forall q, q ∈ List.filter (of_cycle cycle) proposals <-> q ∈ proposals /\ bp_reward_cycle (pp_proposal q) = cycle) by (intros q; rewrite elem_of_List_filter; unfold of_cycle; rewrite Z.eqb_eq; tauto).
  destruct (max_position _) as [newest|]; cbn [mbind option_bind].
  2:{ intros p (Hp & Hc & _) _. assert (Hin : p ∈ List.filter (of_cycle cycle) proposals) by by apply Hcyc. apply map_eq_nil in Hmax. rewrite Hmax in Hin. by apply elem_of_nil in Hin. }
  destruct Hmax as [Hin Hmax]. assert (Hge : forall q, q ∈ proposals -> bp_reward_cycle (pp_proposal q) = cycle -> position_ltb newest (proposal_position q) = false).
  { intros q Hq Hc. apply Hmax, list_elem_of_fmap. exists q. split; [done|by apply Hcyc]. }
  assert (Hnew : forall q, newest_in proposals cycle q <-> q ∈ proposals /\ bp_reward_cycle (pp_proposal q) = cycle /\ proposal_position q = newest).
  { intros q. split; intros (Hq & Hc & Hn); (split; [done|split; [done|]]); [|subst newest; exact Hge]. apply list_elem_of_fmap in Hin as (q0 & Hq0 & Hin0). apply Hcyc in Hin0 as [Hin0 Hc0]. apply position_total; [rewrite Hq0; by apply Hn|by apply Hge]. }
  set (late := match cursor with None => false | Some c => position_ltb newest (pc_position c) end).
  assert (Hopen : late = false -> forall q, proposal_position q = newest -> unanswered cursor newest q = true <-> open_to cursor q) by (intros Hl q <-; by apply unanswered_open).
  destruct late eqn:Hlate.
  { intros p (Hp & Hc & Hn)%Hnew Hop. unfold late in Hlate. destruct cursor as [c|]; [|done]. apply position_ltb_spec in Hlate. unfold open_to in Hop. rewrite Hn in Hop. rewrite position_ltb_spec in Hop. destruct Hop as [?|[Hop _]]; [lia|]. rewrite Hop in Hlate. lia. }
  specialize (Hopen eq_refl). assert (Hel : forall q, q ∈ List.filter (unanswered cursor newest) (List.filter (fun p => bool_decide (proposal_position p = newest)) (List.filter (of_cycle cycle) proposals)) <-> newest_in proposals cycle q /\ open_to cursor q).
  { intros q. rewrite !elem_of_List_filter, bool_decide_eq_true, Hnew. unfold of_cycle. rewrite Z.eqb_eq. split; [intros (Hu & Hpos & Hc & Hq); by rewrite <- Hopen|intros ((Hq & Hc & Hpos) & Ho); by rewrite Hopen]. }
  match goal with |- context[max_by_hash ?l] => pose proof (max_by_hash_spec l) as Hm; destruct (max_by_hash l) as [p|] end.
  - destruct Hm as [Hp Hm]. apply Hel in Hp as [Hp Hop]. split_and!; [done|done|]. intros q Hq Ho. by apply Hm, Hel.
  - intros p Hp Hop. assert (Hin' : p ∈ @nil PendingProposal) by (rewrite <- Hm; by apply Hel). by apply elem_of_nil in Hin'.
Qed.

(** The cursor accounts for everything answered. *)
Definition accounts (answered : list PendingProposal) (cursor : option ProposalCursor) : Prop :=
  match cursor with
  | None => answered = []
  | Some c => forall q, q ∈ answered -> position_ltb (pc_position c) (proposal_position q) = false /\ (proposal_position q = pc_position c -> pp_hash q ∈ pc_answered c)
  end.

Lemma record_accounts answered cursor p : accounts answered cursor -> accounts (answered ++ [p]) (record_answered p cursor).
Proof.
  unfold record_answered. intros H. destruct cursor as [c|]; cbn in H.
  2:{ subst answered. intros q [Hq%elem_of_nil| ->%list_elem_of_singleton]%elem_of_app; [done|]. cbn. split; [rewrite position_not_lt; lia|set_solver]. }
  destruct (bool_decide_reflect (pc_position c = proposal_position p)) as [Heq|Hne].
  - intros q [Hq| ->%list_elem_of_singleton]%elem_of_app; cbn; [destruct (H q Hq); split; [done|set_solver]|]. split; [rewrite Heq, position_not_lt; lia|set_solver].
  - destruct (position_ltb (proposal_position p) (pc_position c)) eqn:Hlt.
    + intros q [Hq| ->%list_elem_of_singleton]%elem_of_app; cbn; [by apply H|]. split; [rewrite position_not_lt; apply position_ltb_spec in Hlt; lia|]. intros Heq. by destruct Hne.
    + intros q [Hq| ->%list_elem_of_singleton]%elem_of_app; cbn; [|split; [rewrite position_not_lt; lia|set_solver]]. destruct (H q Hq) as [Hq1 _]. rewrite position_not_lt in *.
      assert (Hpp : proposal_position p <> pc_position c) by congruence. destruct (proposal_position p) as [a b], (proposal_position q) as [a' b'], (pc_position c) as [a'' b'']. cbn in *. assert (a <> a'' \/ b <> b'') by (destruct (decide (a = a'')), (decide (b = b'')); [congruence|auto..]).
      split; [lia|]. intros [= -> ->]. lia.
Qed.

(** A proposal that was answered is not picked again, nor is one at an earlier position. *)
Theorem answered_never_again (answered proposals : list PendingProposal) (cycle : Z) (p q : PendingProposal) :
  newest_proposal_for_cycle proposals cycle (foldl (fun cursor pending => record_answered pending cursor) None answered) = Some p -> q ∈ answered ->
  position_ltb (proposal_position p) (proposal_position q) = false /\ (proposal_position q = proposal_position p -> pp_hash q <> pp_hash p).
Proof.
  intros Hp Hq. assert (Ha : accounts answered (foldl (fun cursor pending => record_answered pending cursor) None answered)).
  { clear Hq Hp. induction answered as [|x l IH] using rev_ind; [done|]. rewrite foldl_app. cbn. by apply record_accounts. }
  pose proof (newest_proposal_spec proposals cycle (foldl (fun cursor pending => record_answered pending cursor) None answered)) as Hspec. rewrite Hp in Hspec. destruct Hspec as (_ & Hopen & _).
  destruct (foldl _ None answered) as [c|]; cbn in Ha; [|subst answered; by apply elem_of_nil in Hq]. destruct (Ha q Hq) as [Hnot Hin]. cbn in Hopen. rewrite position_not_lt in *. rewrite position_ltb_spec in Hopen.
  destruct Hopen as [Hlt|[Heq Hno]]; [|split; [rewrite <- Heq; lia|]; intros Hpos Hh; apply Hno; rewrite <- Hh; apply Hin; congruence].
  split; [|intros Heq; rewrite Heq in *]; destruct (pc_position c), (proposal_position p), (proposal_position q); cbn in *; lia.
Qed.

(** ** The weight of the promises *)

Lemma saturating_fold max l acc : Forall (fun x => 0 <= x) l -> 0 <= acc <= max -> foldl (saturating_add max) acc l = Z.min max (acc + zsum l).
Proof.
  intros HF. revert acc. induction HF as [|x l Hx HF IH]; intros acc Ha; cbn; [lia|]. pose proof (zsum_nonneg l HF). rewrite IH by (unfold saturating_add; lia). unfold saturating_add. lia.
Qed.

Section Weights.
Context `{HS : Hashes} `{SE : Secp256k1} `{ED : Edwards}.

Definition weights_ok (signers : list Signer) : Prop := Forall (fun s => 0 <= sg_weight s) signers.

(** The weight of the signers whose own slot holds the promise. *)
Definition weight_at (signers : list Signer) (slots : list Z) (i : nat) : Z := if decide (Z.of_nat i ∈ slots) then default 0 (sg_weight <$> signers !! i) else 0.
Definition weight_of_slots (signers : list Signer) (slots : list Z) : Z := zsum (map (weight_at signers slots) (seq 0 (length signers))).

Lemma zsum_map_ext {A} (f g : A -> Z) l : (forall x, x ∈ l -> f x = g x) -> zsum (map f l) = zsum (map g l).
Proof. induction l as [|x l IH]; intros H; [done|]. cbn. rewrite H, IH by set_solver. done. Qed.

Lemma zsum_one (f : nat -> Z) start n k : (forall i, i <> k -> f i = 0) -> zsum (map f (seq start n)) = if decide (start <= k < start + n)%nat then f k else 0.
Proof.
  intros Hf. revert start. induction n as [|n IH]; intros start; cbn [seq map zsum]; [by rewrite decide_False by lia|]. rewrite IH. destruct (decide (start = k)) as [->|Hne].
  - rewrite decide_False, decide_True by lia. lia.
  - rewrite (Hf start Hne). destruct (decide (S start <= k < S start + n)%nat); [rewrite decide_True by lia|rewrite decide_False by lia]; lia.
Qed.

Lemma zsum_add (f g : nat -> Z) l : zsum (map (fun i => f i + g i) l) = zsum (map f l) + zsum (map g l).
Proof. induction l as [|x l IH]; cbn; lia. Qed.

Lemma weight_of_slots_cons signers k slots : 0 <= k -> k ∉ slots -> weight_of_slots signers (k :: slots) = default 0 (slot_weight signers k) + weight_of_slots signers slots.
Proof.
  intros Hk Hni. unfold weight_of_slots. set (one := fun i => if decide (i = Z.to_nat k) then default 0 (sg_weight <$> signers !! i) else 0).
  rewrite (zsum_map_ext (weight_at signers (k :: slots)) (fun i => one i + weight_at signers slots i)).
  - rewrite zsum_add. f_equal. rewrite (zsum_one _ _ _ (Z.to_nat k)) by (intros i Hi; unfold one; by rewrite decide_False). unfold one, slot_weight. rewrite (decide_True (P := Z.to_nat k = Z.to_nat k)) by done.
    case_decide as Hd; [done|]. rewrite lookup_ge_None_2 by lia. done.
  - intros i _. unfold weight_at, one. destruct (decide (i = Z.to_nat k)) as [->|Hne].
    + rewrite Z2Nat.id by done. rewrite decide_True by set_solver. rewrite decide_False by done. lia.
    + assert (Hik : Z.of_nat i <> k) by lia. destruct (decide (Z.of_nat i ∈ slots)); [rewrite decide_True by set_solver|rewrite decide_False by set_solver]; lia.
Qed.

Lemma weight_of_slots_nil signers : weight_of_slots signers [] = 0.
Proof. unfold weight_of_slots. rewrite (zsum_map_ext _ (fun _ => 0)); [induction (seq _ _); cbn; lia|]. intros i _. unfold weight_at. rewrite decide_False by set_solver. done. Qed.

Lemma slot_weight_nonneg signers k w : weights_ok signers -> slot_weight signers k = Some w -> 0 <= w.
Proof. intros HF. unfold slot_weight. intros (s & Hs & ->)%fmap_Some. unfold weights_ok in HF. rewrite Forall_lookup in HF. by eapply HF. Qed.

Lemma omap_weights signers (l : list (Z * list byte)) : NoDup l.*1 -> Forall (fun s => 0 <= s) l.*1 -> zsum (omap (fun '(slot_id, _) => slot_weight signers slot_id) l) = weight_of_slots signers l.*1.
Proof.
  induction l as [|[k b] l IH]; intros Hnd Hpos; [by rewrite weight_of_slots_nil|]. rewrite !fmap_cons in *. cbn [fst] in *. apply NoDup_cons in Hnd as [Hni Hnd]. apply Forall_cons in Hpos as [Hk Hpos]. rewrite weight_of_slots_cons by done. rewrite <- IH by done.
  simpl. by destruct (slot_weight signers k).
Qed.

Lemma NoDup_filter_fst {A B} (f : A * B -> bool) (l : list (A * B)) : NoDup l.*1 -> NoDup (List.filter f l).*1.
Proof.
  induction l as [|x l IH]; intros Hnd; cbn in *; [done|]. apply NoDup_cons in Hnd as [Hni Hnd]. destruct (f x); [|by apply IH]. cbn. apply NoDup_cons. split; [|by apply IH].
  intros (y & Heq & Hin)%list_elem_of_fmap. apply elem_of_List_filter in Hin as [_ Hin]. apply Hni. rewrite Heq. apply list_elem_of_fmap. by exists y.
Qed.

(** When a replica lists no slot twice, the weight counted is that of the signers whose slots hold the promise, at most the largest [u32]. *)
Theorem promised_weight_spec (hash : Sha256Sum) (signers : list Signer) (promised : list (Z * list byte)) :
  weights_ok signers -> NoDup promised.*1 -> Forall (fun slot => 0 <= slot) promised.*1 ->
  promised_weight hash signers promised = Z.min U32_MAX (weight_of_slots signers (List.filter (fun p => promises hash p.2) promised).*1).
Proof.
  intros Hw Hnd Hpos. unfold promised_weight. assert (Hf : List.filter (fun '(_, bytes) => promises hash bytes) promised = List.filter (fun p => promises hash p.2) promised) by (apply List.filter_ext; by intros []). rewrite Hf.
  rewrite saturating_fold; [|apply Forall_forall; intros x ([k b] & _ & Hx)%list_elem_of_omap; by eapply slot_weight_nonneg|unfold U32_MAX; lia]. rewrite omap_weights; [done|by apply NoDup_filter_fst|].
  apply Forall_forall. intros k (y & -> & Hin)%list_elem_of_fmap. apply elem_of_List_filter in Hin as [_ Hin]. rewrite Forall_forall in Hpos. apply Hpos, list_elem_of_fmap. by exists y.
Qed.

(** A slot that the replica lists twice counts twice. *)
Theorem promise_listed_twice (hash : Sha256Sum) (signers : list Signer) (slot weight : Z) (bytes : list byte) :
  promises hash bytes = true -> slot_weight signers slot = Some weight -> 0 <= weight <= U32_MAX ->
  promised_weight hash signers [(slot, bytes); (slot, bytes)] = Z.min U32_MAX (weight + weight).
Proof. intros Hp Hs Hw. unfold promised_weight. cbn. rewrite Hp. cbn. rewrite Hs. cbn. unfold saturating_add. lia. Qed.

(** ** The view of the others *)

Definition weight_behind (u : StateMachineUpdate) (views : list (StateMachineUpdate * Z)) : Z := Z.min U32_MAX (zsum (omap (fun v => if decide (v.1 = u) then Some v.2 else None) views)).

Lemma gather_views_fold `{CL : StackerDbClients} `{SY : !SyncClients} (a : StateAnnouncer) signers slots weights s weights' s' : gather_views a signers slots weights s = Some (Ok weights', s') ->
  exists views, weights' = foldl (fun w v => add_weight v.1 v.2 w) weights views /\ Forall (fun v => exists slot, slot ∈ slots /\ sl_slot_id slot <> an_writer_slot a /\ slot_weight signers (sl_slot_id slot) = Some v.2) views.
Proof.
  revert weights s. induction slots as [|slot rest IH]; intros weights s H; cbn [gather_views] in H.
  { injection H as <- <-. by exists []. }
  assert (Hskip : forall w t, gather_views a signers rest w t = Some (Ok weights', s') -> exists views, weights' = foldl (fun w v => add_weight v.1 v.2 w) w views /\ Forall (fun v => exists s0, s0 ∈ slot :: rest /\ sl_slot_id s0 <> an_writer_slot a /\ slot_weight signers (sl_slot_id s0) = Some v.2) views).
  { intros w t Ht. apply IH in Ht as (views & -> & HF). exists views. split; [done|]. eapply Forall_impl; [exact HF|]. intros v (s0 & ? & ? & ?). exists s0. split; [set_solver|done]. }
  destruct (Z.eqb_spec (sl_slot_id slot) (an_writer_slot a)) as [|Hne]; [by eapply Hskip|]. destruct (slot_weight signers (sl_slot_id slot)) as [weight|] eqn:Hw; [|by eapply Hskip].
  apply eff_bind_ok in H as (chunk & s1 & _ & H). destruct chunk as [bytes|]; [|by eapply Hskip]. apply eff_bind_ok in H as (message & s2 & _ & H).
  destruct message as [[| | |update|]|]; try by eapply Hskip. apply Hskip in H as (views & -> & HF). exists ((update, weight) :: views). split; [done|]. constructor; [|done]. exists slot. split; [set_solver|done].
Qed.

Definition total_of (u : StateMachineUpdate) (weights : list (StateMachineUpdate * Z)) : option Z := snd <$> List.find (fun v => bool_decide (v.1 = u)) weights.

Lemma add_weight_total u v w weights : total_of u (add_weight v w weights) = if decide (v = u) then Some (match total_of u weights with Some t => saturating_add U32_MAX t w | None => w end) else total_of u weights.
Proof.
  induction weights as [|[seen total] rest IH]; cbn; unfold total_of in *; cbn.
  - destruct (decide (v = u)); [by rewrite bool_decide_true|by rewrite bool_decide_false].
  - destruct (decide (seen = v)) as [->|Hne]; cbn.
    + destruct (decide (v = u)); [by rewrite !bool_decide_true|by rewrite !bool_decide_false].
    + destruct (bool_decide_reflect (seen = u)) as [->|Hsu]; cbn; [by rewrite decide_False by congruence|]. exact IH.
Qed.

Lemma add_weight_keys v w weights : NoDup weights.*1 -> NoDup (add_weight v w weights).*1.
Proof.
  assert (Hk : forall u, u ∈ (add_weight v w weights).*1 -> u = v \/ u ∈ weights.*1).
  { intros u. induction weights as [|[seen total] rest IH]; cbn; [set_solver|]. destruct (decide (seen = v)); cbn; set_solver. }
  induction weights as [|[seen total] rest IH]; cbn; [intros _; apply NoDup_singleton|]. intros [Hni Hnd]%NoDup_cons. destruct (decide (seen = v)) as [->|Hne]; cbn; [by apply NoDup_cons|].
  assert (Hk' : forall u, u ∈ (add_weight v w rest).*1 -> u = v \/ u ∈ rest.*1) by (intros u; clear; induction rest as [|[s t] r IH]; cbn; [set_solver|]; destruct (decide (s = v)); cbn; set_solver).
  apply NoDup_cons. split; [|apply IH; [exact Hk'|done]]. intros [->|?]%Hk'; done.
Qed.

Lemma total_of_elem u t weights : NoDup weights.*1 -> (u, t) ∈ weights <-> total_of u weights = Some t.
Proof.
  induction weights as [|[seen total] rest IH]; cbn; unfold total_of in *; cbn; intros Hnd; [split; [by intros ?%elem_of_nil|done]|]. apply NoDup_cons in Hnd as [Hni Hnd]. destruct (bool_decide_reflect (seen = u)) as [->|Hne]; cbn.
  - rewrite elem_of_cons. split; [intros [[= ->]|Hin]; [done|]|by intros [= ->]; left]. destruct Hni. apply list_elem_of_fmap. by exists (u, t).
  - rewrite elem_of_cons, <- IH by done. split; [intros [[= -> ->]|?]; done|auto].
Qed.

Lemma fold_totals views u : Forall (fun v => 0 <= v.2 <= U32_MAX) views -> let weights := foldl (fun w v => add_weight v.1 v.2 w) [] views in
  NoDup weights.*1 /\ total_of u weights = if decide (u ∈ views.*1) then Some (weight_behind u views) else None.
Proof.
  intros HF. cbn zeta. induction views as [|[v w] views IH] using rev_ind; [split; [apply NoDup_nil_2|by rewrite decide_False by set_solver]|]. apply Forall_app in HF as [HF [Hw _]%Forall_cons]. specialize (IH HF) as [Hnd IH].
  rewrite foldl_app. cbn [foldl]. split; [by apply add_weight_keys|]. rewrite add_weight_total, IH. cbn [fst snd] in *. unfold weight_behind. rewrite omap_app, zsum_app. cbn. rewrite fmap_app. cbn.
  destruct (decide (v = u)) as [->|Hne]; cbn.
  - rewrite (decide_True (P := u ∈ views.*1 ++ [u])) by set_solver. assert (H0 : 0 <= zsum (omap (fun v => if decide (v.1 = u) then Some v.2 else None) views)).
    { apply zsum_nonneg, Forall_forall. intros x ([v' w'] & Hin & Hx)%list_elem_of_omap. rewrite Forall_forall in HF. specialize (HF _ Hin). cbn in *. destruct (decide (v' = u)); [|done]. injection Hx as <-. lia. }
    destruct (decide (u ∈ views.*1)) as [Hin|Hni]; f_equal; unfold saturating_add; [lia|]. assert (omap (fun v => if decide (v.1 = u) then Some v.2 else None) views = []) as ->; [|cbn; lia].
    clear -Hni. induction views as [|[v' w'] views IH]; [done|]. cbn in *. rewrite decide_False by set_solver. apply IH. set_solver.
  - rewrite Z.add_0_r. destruct (decide (u ∈ views.*1)); [rewrite decide_True by set_solver|rewrite decide_False by set_solver]; done.
Qed.

Definition lighter (a b : StateMachineUpdate * Z) : bool := a.2 <? b.2.

(** The view chosen carries, with this signer's weight, the threshold, and no view carries more; when none is chosen none carries it. *)
Theorem chosen_view_spec (own threshold : Z) (views : list (StateMachineUpdate * Z)) : Forall (fun v => 0 <= v.2 <= U32_MAX) views ->
  match choose_view own threshold (foldl (fun w v => add_weight v.1 v.2 w) [] views) with
  | Some u => u ∈ views.*1 /\ threshold - own <= weight_behind u views /\ forall u', u' ∈ views.*1 -> weight_behind u' views <= weight_behind u views
  | None => forall u, u ∈ views.*1 -> weight_behind u views < Z.max 0 (threshold - own)
  end.
Proof.
  intros HF. set (weights := foldl _ [] views). assert (Hel : forall u t, (u, t) ∈ weights <-> u ∈ views.*1 /\ t = weight_behind u views).
  { intros u t. destruct (fold_totals views u HF) as [Hnd Ht]. rewrite total_of_elem by done. fold weights in Ht. rewrite Ht. destruct (decide (u ∈ views.*1)); split; [by intros [= <-]|by intros [_ ->]|done|by intros []]. }
  unfold choose_view. pose proof (best_of_spec lighter ltac:(unfold lighter; intros; lia) ltac:(unfold lighter; intros; lia) (List.filter (fun v => saturating_sub threshold own <=? v.2) weights)) as Hb.
  change (heaviest ?l) with (best_of lighter l). destruct (best_of lighter _) as [[u t]|]; cbn.
  - destruct Hb as [Hin Hmax]. apply elem_of_List_filter in Hin as [Hge Hin]. apply Hel in Hin as [Hu ->]. cbn in Hge. unfold saturating_sub in Hge. split_and!; [done|lia|]. intros u' Hu'. destruct (Z.leb_spec (saturating_sub threshold own) (weight_behind u' views)) as [Hle|Hlt].
    + specialize (Hmax (u', weight_behind u' views)). unfold lighter in Hmax. cbn in Hmax. enough ((weight_behind u views <? weight_behind u' views) = false) by lia. apply Hmax, elem_of_List_filter. split; [by apply Z.leb_le|by apply Hel].
    + unfold saturating_sub in Hlt. lia.
  - intros u Hu. destruct (Z.ltb_spec (weight_behind u views) (Z.max 0 (threshold - own))) as [|Hge]; [done|]. assert (Hin : (u, weight_behind u views) ∈ List.filter (fun v => saturating_sub threshold own <=? v.2) weights).
    { apply elem_of_List_filter. split; [cbn; unfold saturating_sub; lia|by apply Hel]. } rewrite Hb in Hin. by apply elem_of_nil in Hin.
Qed.

End Weights.

(** ** Signing only after the promises *)

Section Answers.
Context `{HS : Hashes} `{SE : Secp256k1} `{ED : Edwards} `{HT : Host} `{EN : Encodings} `{CL : StackerDbClients}.
Context {V : Type} `{PV : ProposalValidator V}.

Definition signed_of (d : Deployed (V := V)) : SignedBlocks := es_signed (ss_signer (dp_service d)).

(** [m] signs nothing. *)
Definition unsigning {A} (m : Eff (Deployed (V := V)) SignerServiceError A) : Prop := forall d r d', m d = Some (r, d') -> signed_of d' = signed_of d.

Lemma unsigning_bind {A B} (m : Eff Deployed SignerServiceError A) (k : A -> Eff Deployed SignerServiceError B) : unsigning m -> (forall x, unsigning (k x)) -> unsigning (m ≫= k).
Proof. intros Hm Hk d r d' [(x & d1 & H1 & H2)|(e & H1 & _)]%eff_bind_inv; [rewrite (Hk _ _ _ _ H2)|]; by eapply Hm. Qed.

Lemma unsigning_request {F A} (f : F -> SignerServiceError) (call : Network -> result F A * Network) : unsigning (request f call).
Proof. intros d r d'. unfold request. destruct (call (dp_network d)). by intros [= _ <-]. Qed.

Lemma unsigning_same {A} (m : Eff (Deployed (V := V)) SignerServiceError A) : (forall d r d', m d = Some (r, d') -> d' = d) -> unsigning m.
Proof. intros H d r d' ->%H. done. Qed.

Lemma unsigning_ask {A} (f : Deployed -> A) : unsigning (ask f).
Proof. apply unsigning_same. intros d r d'. apply ask_same. Qed.

Lemma unsigning_unwrap {A} (o : option A) : unsigning (unwrap o).
Proof. apply unsigning_same. intros d r d'. apply unwrap_same. Qed.

Lemma unsigning_try {F A} (f : F -> SignerServiceError) (o : result F A) : unsigning (try_with f o).
Proof. apply unsigning_same. intros d r d'. apply try_with_same. Qed.

Lemma unsigning_ret {A} (x : A) : unsigning (mret x).
Proof. by intros d r d' [= _ <-]. Qed.

Lemma unsigning_accepted ack : unsigning (expect_accepted ack).
Proof. intros d r d'. unfold expect_accepted. destruct (ack_accepted ack); by intros [= _ <-]. Qed.

Lemma unsigning_validate p : unsigning (with_signer (validate p)).
Proof. intros d r d'. unfold with_signer, validate, zoom. cbn. destruct (validate_proposal p _) as [[[u|e] v]|]; [| |done]; by intros [= _ <-]. Qed.

Ltac unsign := repeat first [apply unsigning_bind; [|intros ?] | apply unsigning_request | apply unsigning_ask | apply unsigning_unwrap | apply unsigning_try | apply unsigning_ret | apply unsigning_accepted].

Lemma unsigning_pre_commit p : unsigning (pre_commit (V := V) p).
Proof. unfold pre_commit. unsign. Qed.

Lemma unsigning_weight client contract hash signers : unsigning (pre_commit_weight (V := V) client contract hash signers).
Proof.
  unfold pre_commit_weight. unsign. match goal with |- unsigning (fetch_promises _ _ ?l) => induction l as [|slot rest IH] end; cbn [fetch_promises]; unsign. exact IH.
Qed.

Lemma pre_commit_hash p d hash d' : pre_commit (V := V) p d = Some (Ok hash, d') -> signer_signature_hash (bl_header (bp_block p)) = Some hash.
Proof.
  intros H. unfold pre_commit in H. apply eff_bind_ok in H as (h & d1 & H1 & H). unfold unwrap in H1. destruct (signer_signature_hash _) as [h'|]; [|done]. injection H1 as -> _.
  repeat (let y := fresh "y" in let e := fresh "e" in apply eff_bind_ok in H as (y & ? & e & H); clear e). by injection H as ->.
Qed.

(** ** What a response can sign *)

(** The blocks signed are those of [base], or are signed at one position with one hash. *)
Definition signs_at_most (base : SignedBlocks) (position : Position) (hash : Sha256Sum) (signed : SignedBlocks) : Prop :=
  forall q b, signed !! q = Some b -> base !! q = Some b \/ q = position /\ sb_signature_hash b = hash.

Definition hosted_at_most (base : SignedBlocks) (position : Position) (hash : Sha256Sum) (h : Host_signer (V := V)) : Prop := signs_at_most base position hash (es_signed (hs_signer h)).

(** [m] leaves the signed blocks as they are. *)
Definition leaves_signed {A} (m : Eff (Host_signer (V := V)) SignerError A) : Prop := forall h r h', m h = Some (r, h') -> es_signed (hs_signer h') = es_signed (hs_signer h).

Lemma leaves_bind {A B} (m : Eff Host_signer SignerError A) (k : A -> Eff Host_signer SignerError B) : leaves_signed m -> (forall x, leaves_signed (k x)) -> leaves_signed (m ≫= k).
Proof. intros Hm Hk h r h' [(x & h1 & H1 & H2)|(e & H1 & _)]%eff_bind_inv; [rewrite (Hk _ _ _ _ H2)|]; by eapply Hm. Qed.

Lemma leaves_same {A} (m : Eff (Host_signer (V := V)) SignerError A) : (forall h r h', m h = Some (r, h') -> h' = h) -> leaves_signed m.
Proof. intros H h r h' ->%H. done. Qed.

Lemma leaves_clock : leaves_signed (read_clock (V := V)).
Proof. intros h r h'. unfold read_clock. destruct (now_unix _). by intros [= _ <-]. Qed.

Lemma leaves_persist n signed : leaves_signed (persist_state (V := V) n signed).
Proof. intros h r h'. unfold persist_state. destruct (es_state _); [destruct (persist _ _ _ _ _)|]; by intros [= _ <-]. Qed.

Lemma leaves_validate p : leaves_signed (validate (V := V) p).
Proof. intros h r h'. unfold validate, zoom. cbn. destruct (validate_proposal p _) as [[[u|e] v]|]; [| |done]; by intros [= _ <-]. Qed.

Lemma leaves_timestamp b : leaves_signed (extend_timestamp (V := V) b).
Proof.
  unfold extend_timestamp. apply leaves_bind; [apply leaves_clock|intros now]. apply leaves_bind; [apply leaves_same; intros *; apply ask_same|intros seen].
  apply leaves_bind; [by intros h r h' [= _ <-]|intros _ h r h' [= _ <-]]. done.
Qed.

Lemma leaves_advance n : leaves_signed (advance_next_slot_version (V := V) n).
Proof.
  unfold advance_next_slot_version. apply leaves_bind; [apply leaves_same; intros *; apply ask_same|intros s]. case_match; [by intros h r h' [= _ <-]|].
  apply leaves_bind; [apply leaves_persist|by intros _ h r h' [= _ <-]].
Qed.

Lemma leaves_keeps {A} base position hash (m : Eff (Host_signer (V := V)) SignerError A) : leaves_signed m -> keeps (hosted_at_most base position hash) m.
Proof. intros Hm h r h' Hh E. unfold hosted_at_most. by rewrite (Hm _ _ _ E). Qed.

Lemma record_at_most base position hash data v : keeps (hosted_at_most base position hash) (record (V := V) position hash data v).
Proof.
  intros h r h' Hh H. unfold record in H. rewrite (eff_bind_run _ _ h (hs_signer h) h) in H by done.
  apply eff_bind_inv in H as [(n & h1 & E & H)|(e & E & _)]; pose proof (try_with_same _ _ _ _ _ E) as ->; [|done].
  apply eff_bind_inv in H as [(chunk & h1 & E1 & H)|(e & E1 & _)]; pose proof (try_with_same _ _ _ _ _ E1) as ->; [|done].
  apply eff_bind_inv in H as [(now & h1 & E2 & H)|(e & E2 & _)]; pose proof (leaves_keeps base position hash _ leaves_clock _ _ _ Hh E2) as H1; [|done].
  apply eff_bind_inv in H as [([] & h2 & E3 & H)|(e & E3 & _)]; pose proof (leaves_keeps base position hash _ (leaves_persist _ _) _ _ _ H1 E3) as H2; [|done].
  injection H as _ <-. unfold hosted_at_most. cbn. intros q b [[<- <-]|[Hne Hq]]%lookup_insert_Some; [by right|by apply Hh].
Qed.

Lemma sign_new_at_most base p hash : keeps (hosted_at_most base (position_of p) hash) (sign_new (V := V) p hash).
Proof.
  unfold sign_new. apply keeps_bind; [apply leaves_keeps, leaves_validate|intros _]. apply keeps_bind; [apply keeps_same; intros *; apply ask_same|intros s].
  apply keeps_bind; [apply leaves_keeps, leaves_timestamp|intros t]. apply keeps_bind; [apply keeps_same; intros *; apply unwrap_same|intros encoded].
  apply keeps_bind; [apply keeps_same; intros *; apply try_with_same|intros data]. apply record_at_most.
Qed.

Lemma sign_at_most base p hash : signer_signature_hash (bl_header (bp_block p)) = Some hash -> keeps (hosted_at_most base (position_of p) hash) (sign (V := V) p).
Proof.
  intros Hhash h r h' Hh H. unfold sign in H. rewrite Hhash in H. rewrite (eff_bind_run _ _ _ hash h), (eff_bind_run _ _ _ (hs_signer h) h) in H by done.
  destruct (es_signed (hs_signer h) !! position_of p) as [b|]; [|by eapply sign_new_at_most]. destruct (bool_decide _); [by injection H as _ <-|].
  apply eff_bind_inv in H as [(now & h1 & E & H)|(e & E & _)]; pose proof (leaves_keeps base (position_of p) hash _ leaves_clock _ _ _ Hh E) as H1; [|done].
  destruct (_ <? _); [by injection H as _ <-|]. apply eff_bind_inv in H as [([] & h2 & [= <-] & H)|(e & E2 & _)]; [|done].
  eapply sign_new_at_most; [|exact H]. unfold hosted_at_most. cbn. intros q b' [_ Hq]%lookup_delete_Some. by apply Hh.
Qed.

Lemma sign_after_at_most base p hash remote : signer_signature_hash (bl_header (bp_block p)) = Some hash -> keeps (hosted_at_most base (position_of p) hash) (sign_after_slot_version (V := V) p remote).
Proof.
  intros Hhash h r h' Hh H. unfold sign_after_slot_version in H. rewrite Hhash in H. rewrite (eff_bind_run _ _ _ hash h), (eff_bind_run _ _ _ (hs_signer h) h) in H by done.
  destruct (es_signed (hs_signer h) !! position_of p) as [b|]; [|by eapply sign_at_most]. destruct (negb _).
  - apply eff_bind_inv in H as [(now & h1 & E & H)|(e & E & _)]; pose proof (leaves_keeps base (position_of p) hash _ leaves_clock _ _ _ Hh E) as H1; [|done].
    destruct (_ <? _); [by injection H as _ <-|by eapply sign_at_most].
  - destruct (_ <? _); [by injection H as _ <-|by eapply record_at_most].
Qed.

(** A response signs nothing but the block of its proposal. *)
Lemma respond_at_most pending d r d' hash : signer_signature_hash (bl_header (bp_block (pp_proposal pending))) = Some hash -> respond pending d = Some (r, d') ->
  signs_at_most (signed_of d) (position_of (pp_proposal pending)) hash (signed_of d').
Proof.
  intros Hhash H. unfold respond in H. assert (Hin : forall (m : Eff Host_signer SignerError Chunk) d1 x d2, keeps (hosted_at_most (signed_of d) (position_of (pp_proposal pending)) hash) m -> signed_of d1 = signed_of d ->
    with_signer m d1 = Some (x, d2) -> signs_at_most (signed_of d) (position_of (pp_proposal pending)) hash (signed_of d2)).
  { intros m d1 x d2 Hm Hd. unfold with_signer, zoom. destruct (m _) as [[y h]|] eqn:E; [|done]. assert (Hh : hosted_at_most (signed_of d) (position_of (pp_proposal pending)) hash h).
    { eapply Hm; [|exact E]. unfold hosted_at_most. cbn. fold (signed_of d1). rewrite Hd. intros q b Hq. by left. } destruct y; by intros [= _ <-]. }
  assert (Hrec : unsigning (reconcile_writer_slot (V := V))).
  { unfold reconcile_writer_slot. unsign. intros d1 o d2. unfold with_signer, zoom. destruct (advance_next_slot_version _ _) as [[y h]|] eqn:E; [|done]. pose proof (leaves_advance _ _ _ _ E) as Hl. destruct y; intros [= _ <-]; exact Hl. }
  apply eff_bind_inv in H as [(remote & d1 & E1 & H)|(e & E1 & _)]; pose proof (Hrec _ _ _ E1) as H1; [|rewrite H1; intros q b Hq; by left].
  apply eff_bind_inv in H as [(chunk & d2 & E2 & H)|(e & E2 & _)]; (pose proof (Hin _ _ _ _ (sign_after_at_most (signed_of d) _ hash remote Hhash) H1 E2) as H2); [|done].
  assert (Hlast : signed_of d' = signed_of d2); [|by rewrite Hlast]. revert H. generalize d2 r d'. change (unsigning (s ← ask dp_service; ack ← request Client (put_chunk (ss_client s) (ss_signer_contract s) chunk); _ ← expect_accepted ack;
    _ ← modify (on_service (fun s => set_ss_cursor (record_answered pending (ss_cursor s)) s)); mret (M := Eff Deployed SignerServiceError) ack)). unsign. by intros d3 o d4 [= _ <-].
Qed.

(** ** The promises read *)

(** The chunks that a replica answers for slots, one request after the other. *)
Fixpoint chunks_read (client : DbClient) (contract : StackerDbContract) (slots : list SlotVersion) (chunks : list (option (list byte))) (n n' : Network) : Prop :=
  match slots, chunks with
  | [], [] => n' = n
  | slot :: slots, chunk :: chunks => exists n1, latest_chunk client contract (sl_slot_id slot) n = (Ok chunk, n1) /\ chunks_read client contract slots chunks n1 n'
  | _, _ => False
  end.

(** The slots that held the promise to sign a block. *)
Definition holds_promise (hash : Sha256Sum) (chunk : option (list byte)) : Prop := exists bytes, chunk = Some bytes /\ SignerMessage.decode bytes = Some (Ok (SignerMessage.PreCommit hash)).

Lemma promises_holds hash bytes : promises hash bytes = true <-> holds_promise hash (Some bytes).
Proof.
  unfold promises, holds_promise. split.
  - intros H. exists bytes. split; [done|]. destruct (SignerMessage.decode bytes) as [[[]|]|]; try done. apply bool_decide_eq_true in H. by subst.
  - intros (b & [= <-] & ->). by apply bool_decide_eq_true.
Qed.

#[local] Instance holds_promise_dec hash chunk : Decision (holds_promise hash chunk).
Proof.
  destruct chunk as [bytes|]; [|right; by intros (b & ? & _)]. destruct (promises hash bytes) eqn:E; [left; by apply promises_holds|right].
  intros Hp%promises_holds. congruence.
Defined.

Definition promised_slots (hash : Sha256Sum) (slots : list SlotVersion) (chunks : list (option (list byte))) : list Z :=
  omap (fun '(slot, chunk) => if decide (holds_promise hash chunk) then Some (sl_slot_id slot) else None) (zip slots chunks).

Lemma fetch_promises_read client contract slots d promised d' : fetch_promises (V := V) client contract slots d = Some (Ok promised, d') ->
  exists chunks, chunks_read client contract slots chunks (dp_network d) (dp_network d') /\ promised = omap (fun '(slot, chunk) => (fun bytes => (sl_slot_id slot, bytes)) <$> chunk) (zip slots chunks).
Proof.
  revert d promised. induction slots as [|slot slots IH]; intros d promised; cbn [fetch_promises]; [intros [= <- <-]; by exists []|]. intros H.
  apply eff_bind_ok in H as (chunk & d1 & E & H). apply eff_bind_ok in H as (rest & d2 & E2 & [= <- <-]). apply IH in E2 as (chunks & Hc & ->).
  unfold request in E. destruct (latest_chunk client contract (sl_slot_id slot) (dp_network d)) as [o n] eqn:El. injection E as Eo <-. destruct o as [o|]; [|done]. injection Eo as ->.
  exists (chunk :: chunks). split; [by exists n|]. cbn. by destruct chunk.
Qed.

Lemma promised_slots_of hash slots chunks : (List.filter (fun p => promises hash p.2) (omap (fun '(slot, chunk) => (fun bytes => (sl_slot_id slot, bytes)) <$> chunk) (zip slots chunks))).*1 = promised_slots hash slots chunks.
Proof.
  unfold promised_slots. induction (zip slots chunks) as [|[slot chunk] l IH]; [done|]. destruct chunk as [bytes|].
  - destruct (decide (holds_promise hash (Some bytes))) as [Hp|Hp] eqn:E; cbn [omap list_omap fmap option_fmap option_map List.filter snd]; rewrite E.
    + rewrite (proj2 (promises_holds hash bytes) Hp). cbn [fmap list_fmap fst]. by rewrite IH.
    + destruct (promises hash bytes) eqn:Eb; [by destruct Hp; apply promises_holds|]. exact IH.
  - cbn [omap list_omap fmap option_fmap option_map]. rewrite decide_False by (by intros (b & ? & _)). exact IH.
Qed.

Lemma promised_weight_read hash signers slots chunks : weights_ok signers ->
  let w := promised_weight hash signers (omap (fun '(slot, chunk) => (fun bytes => (sl_slot_id slot, bytes)) <$> chunk) (zip slots chunks)) in
  w <= zsum (omap (slot_weight signers) (promised_slots hash slots chunks)) /\
  (NoDup (map sl_slot_id slots) -> Forall (fun i => 0 <= i) (map sl_slot_id slots) -> w <= weight_of_slots signers (promised_slots hash slots chunks)).
Proof.
  intros Hw. cbv zeta. set (promised := omap _ (zip slots chunks)). pose proof (promised_slots_of hash slots chunks) as Hp. fold promised in Hp. split.
  - unfold promised_weight. rewrite saturating_fold; [|apply Forall_forall; intros x ([k b] & _ & Hx)%list_elem_of_omap; by eapply slot_weight_nonneg|unfold U32_MAX; lia].
    rewrite <- Hp. etrans; [apply Z.le_min_r|]. rewrite Z.add_0_l. apply Z.eq_le_incl. f_equal. clear. induction promised as [|[k b] l IH]; [done|]. cbn. destruct (promises hash b); cbn; [|exact IH]. by rewrite IH.
  - intros Hnd Hpos. assert (Hsub : sublist promised.*1 (map sl_slot_id slots)).
    { unfold promised. clear. revert chunks. induction slots as [|slot slots IH]; intros [|chunk chunks]; cbn; [done|apply sublist_nil_l..|]. destruct chunk; cbn; [apply sublist_skip, IH|apply sublist_cons, IH]. }
    rewrite promised_weight_spec; [|done|by eapply sublist_NoDup|]; [rewrite Hp; apply Z.le_min_r|].
    apply Forall_forall. intros i Hi. rewrite Forall_forall in Hpos. apply Hpos. eapply elem_of_submseteq; [exact Hi|]. by apply sublist_submseteq.
Qed.

(** The service whose replica and whose contract of promises are these. *)
Definition reads_from (client : DbClient) (contract : StackerDbContract) (d : Deployed (V := V)) : Prop := ss_client (dp_service d) = client /\ ss_pre_commit_contract (dp_service d) = contract.

Lemma validate_reads_from client contract p : keeps (reads_from client contract) (with_signer (V := V) (validate p)).
Proof. intros d r d' Hd. unfold with_signer, zoom. destruct (validate p _) as [[[]]|]; [| |done]; by intros [= _ <-]. Qed.

Lemma request_reads_from {F A} client contract (f : F -> SignerServiceError) (call : Network -> result F A * Network) : keeps (reads_from client contract) (request f call).
Proof. intros d r d' Hd. unfold request. destruct (call _). by intros [= _ <-]. Qed.

Lemma pre_commit_reads_from client contract p : keeps (reads_from client contract) (pre_commit (V := V) p).
Proof.
  unfold pre_commit. repeat first [apply keeps_bind; [|intros ?] | apply request_reads_from | apply keeps_same; intros *; first [apply ask_same|apply unwrap_same|apply try_with_same]].
  - unfold expect_accepted. intros d r d' Hd. case_match; by intros [= _ <-].
  - by intros d r d' Hd [= _ <-].
Qed.

(** C19: LiveSigner's answer signs nothing, or the validator accepted the proposal
    first, and the chunks it then read from the slots that the replica listed are
    promises of this very block whose slots weigh at least the approval threshold;
    nothing but this block is signed. A slot that is listed twice counts twice; where
    each is listed once the signers whose own slots hold the promise weigh the
    threshold. *)
Theorem answer_signs_after_promises (pending : PendingProposal) (signers : list Signer) (d : Deployed (V := V)) (r : result SignerServiceError (option ChunkAck)) (d' : Deployed (V := V))
  (Hweights : weights_ok signers) (H : answer pending signers d = Some (r, d')) :
  let client := ss_client (dp_service d) in
  let contract := ss_pre_commit_contract (dp_service d) in
  signed_of d' = signed_of d \/
  exists hash threshold d1 slots chunks n n1 n2, signer_signature_hash (bl_header (bp_block (pp_proposal pending))) = Some hash /\
    with_signer (validate (pp_proposal pending)) d = Some (Ok tt, d1) /\ set_approval_threshold signers = Ok threshold /\
    slot_versions client contract n = (Ok slots, n1) /\ chunks_read client contract slots chunks n1 n2 /\
    threshold <= zsum (omap (slot_weight signers) (promised_slots hash slots chunks)) /\
    (NoDup (map sl_slot_id slots) -> Forall (fun i => 0 <= i) (map sl_slot_id slots) -> threshold <= weight_of_slots signers (promised_slots hash slots chunks)) /\
    signs_at_most (signed_of d) (position_of (pp_proposal pending)) hash (signed_of d').
Proof.
  intros client contract. unfold answer in H. apply eff_bind_inv in H as [([] & d1 & H1 & H)|(e & H1 & ->)]; [|left; by eapply unsigning_validate]. pose proof (unsigning_validate _ _ _ _ H1) as Hs1.
  assert (Hr : reads_from client contract d) by done. pose proof (validate_reads_from _ _ _ _ _ _ Hr H1) as Hr1.
  apply eff_bind_inv in H as [(hash & d2 & H2 & H)|(e & H2 & ->)]; pose proof (unsigning_pre_commit _ _ _ _ H2) as Hs2; [|left; congruence]. destruct (pre_commit_reads_from _ _ _ _ _ _ Hr1 H2) as [Hcl Hct].
  rewrite (eff_bind_run _ _ _ (dp_service d2) d2) in H by done. rewrite Hcl, Hct in H. apply eff_bind_inv in H as [(w & d3 & H3 & H)|(e & H3 & ->)]; pose proof (unsigning_weight _ _ _ _ _ _ _ H3) as Hs3; [|left; congruence].
  apply eff_bind_inv in H as [(t & d4 & H4 & H)|(e & H4 & ->)]; pose proof (try_with_same _ _ _ _ _ H4) as ->; [|left; congruence].
  destruct (Z.ltb_spec w t) as [|Hle]; [left; injection H as _ <-; congruence|]. right. pose proof (pre_commit_hash _ _ _ _ H2) as Hhash.
  apply eff_bind_ok in H3 as (slots & d4 & H5 & H3). apply eff_bind_ok in H3 as (promised & d5 & (chunks & Hread & ->)%fetch_promises_read & [= Hw <-]).
  destruct (promised_weight_read hash signers slots chunks Hweights) as [Hsum Hdistinct]. rewrite Hw in Hsum, Hdistinct.
  unfold request in H5. destruct (slot_versions client contract (dp_network d2)) as [o n1] eqn:El. injection H5 as Eo <-. destruct o as [o|]; [|done]. injection Eo as ->.
  exists hash, t, d1, slots, chunks, (dp_network d2), n1, (dp_network d5). split; [done|]. split; [done|]. split; [unfold try_with in H4; destruct (set_approval_threshold signers); congruence|]. split; [done|]. split; [exact Hread|].
  split; [lia|]. split; [intros ? ?; etrans; [exact Hle|by apply Hdistinct]|]. assert (Hbase : signed_of d = signed_of d5) by congruence. rewrite Hbase.
  apply eff_bind_inv in H as [(ack & d6 & H6 & [= _ <-])|(e & H6 & ->)]; by eapply respond_at_most.
Qed.

End Answers.

(** ** The sortition validator *)

Section Validator.
Context `{HS : Hashes} `{SE : Secp256k1}.

(** What the sortition validator accepts. *)
Theorem sortition_validator_spec (v : SortitionProposalValidator) (p : BlockProposal) : let h := bl_header (bp_block p) in
  validate_sortition v p = Some (Ok tt) <->
    bp_reward_cycle p = sv_reward_cycle v /\ bp_bitcoin_height p = si_bitcoin_height (sv_sortition v) /\ hd_consensus_hash h = si_consensus_hash (sv_sortition v) /\
    si_was_sortition (sv_sortition v) = true /\ hd_signer_signatures h = [] /\
    exists digest key, miner_signature_hash h = Some digest /\ MessageSignature.recover (hd_miner_signature h) digest = Ok key /\
      si_miner_public_key_hash (sv_sortition v) = Some (hash160 (StacksPublicKey.to_bytes_compressed key)).
Proof.
  cbn zeta. unfold validate_sortition. split.
  - destruct (Z.eqb_spec (bp_reward_cycle p) (sv_reward_cycle v)); [|done]. destruct (Z.eqb_spec (bp_bitcoin_height p) (si_bitcoin_height (sv_sortition v))); [|done]. cbn [negb].
    destruct (bool_decide_reflect (hd_consensus_hash (bl_header (bp_block p)) = si_consensus_hash (sv_sortition v))); [|done]. cbn [negb]. destruct (si_was_sortition _); [|done]. cbn [negb].
    destruct (si_miner_public_key_hash _) as [key|]; [|done]. destruct (bool_decide_reflect (hd_signer_signatures (bl_header (bp_block p)) = [])); [|done]. cbn [negb].
    destruct (miner_signature_hash _) as [digest|] eqn:Hd; [|done]. cbn [mbind option_bind]. destruct (MessageSignature.recover _ _) as [k|] eqn:Hk; [|done].
    destruct (bool_decide_reflect (hash160 (StacksPublicKey.to_bytes_compressed k) = key)) as [<-|]; [|done]. intros _. split_and!; try done. by exists digest, k.
  - intros (-> & -> & -> & -> & -> & digest & key & -> & Hk & ->). rewrite !Z.eqb_refl, !bool_decide_true by done. cbn. by rewrite Hk, bool_decide_true.
Qed.

End Validator.
