(* ===== verification/Miner.v ===== *)
(** * The miner: [crates/nano-miner]

    [src/commitment.rs], the commitment a miner publishes for the next Bitcoin
    block; [src/tenure.rs], the blocks of a tenure it won; and [src/lib.rs], the
    wallet that funds its Bitcoin transactions and the coordinator that proposes
    blocks and gathers signatures. The wallet's RPC and the clients are classes over
    the state of the network. *)

From Stdlib Require Import String.
From stdpp Require Import gmap.
From S2P Require Import Prelude Primitives Address CodecIO Crypto TxData TxCodec TxAuth.
From S2P Require Import Nakamoto Signers SortitionRules BitcoinScript Effects PeerWire StackerDb EmbeddedSigner SignerService.

(** ** The commitment for the next Bitcoin block *)

Definition EPOCH_4_MARKER : byte := 0x11%u8.
Definition MINED_AT_MODULUS : Z := 5.

Record RegisteredLeaderKey : Type := mkRegisteredKey { rk_bitcoin_height : Z; rk_transaction_index : Z }.

Record CommitmentPlan : Type := mkPlan {
  cp_commitment : LeaderBlockCommitment;
  cp_sbtc_address : PoxAddress.t;
  cp_target_bitcoin_height : Z;
  cp_reward_cycle : Z;
}.

Record CommitmentParent : Type := mkCommitmentParent {
  cm_bitcoin_tip_height : Z;
  cm_tenure_start_block_id : StacksBlockId;
  cm_sortition : SortitionInfo;
  cm_tenure_vrf_proof : list byte;
  cm_sbtc_address : PoxAddress.t;
  cm_reward_cycle : Z;
}.

(** The trait [BitcoinSource], whose errors the caller turns into its own. *)
Class BitcoinSources (S E : Type) : Type := source_block_at : Z -> S -> result E BitcoinBlock * S.

Inductive CommitmentPlanError (E : Type) : Type :=
| PlanBitcoin (e : E)
| NoParentSortition
| ParentCommitmentNotFound
| AmbiguousParentCommitment
| HeightOverflow.
#[global] Arguments PlanBitcoin {E}.
#[global] Arguments NoParentSortition {E}.
#[global] Arguments ParentCommitmentNotFound {E}.
#[global] Arguments AmbiguousParentCommitment {E}.
#[global] Arguments HeightOverflow {E}.

Section Commitments.
Context `{HS : Hashes} {S E : Type} `{BS : BitcoinSources S E}.

Abbreviation PlanEff := (Eff S (CommitmentPlanError E)).

Definition block_of (height : Z) : PlanEff BitcoinBlock := fun s => let '(r, s) := source_block_at height s in Some (map_err PlanBitcoin r, s).

Definition commitment_index (operation : BitcoinOperation) : result (CommitmentPlanError E) Z := or_err (try_from U16_MAX (op_transaction_index operation)) HeightOverflow.

(** A commitment to this block with this seed. *)
Definition commits_to (committed_block_hash vrf_seed : list byte) (operation : BitcoinOperation) : bool :=
  match op_kind operation with
  | LeaderBlockCommit block_header_hash new_seed _ _ _ _ _ _ => bool_decide (block_header_hash = committed_block_hash) && bool_decide (new_seed = vrf_seed)
  | _ => false
  end.

(** A failing source reads as no key. *)
Definition signing_key_hash (operation : BitcoinOperation) : PlanEff (option Hash160) := fun s =>
  match op_kind operation with
  | LeaderBlockCommit _ _ _ _ key_block_height key_transaction_index _ _ =>
      let '(r, s) := source_block_at key_block_height s in
      Some (Ok (match r with
                | Err _ => None
                | Ok block =>
                    candidate ← List.find (fun candidate => op_transaction_index candidate =? key_transaction_index) (bb_operations block);
                    match op_kind candidate with LeaderKeyRegistrationOp _ _ block_signing_key_hash _ => block_signing_key_hash | _ => None end
                end), s)
  | _ => Some (Ok None, s)
  end.

(** [filter(|operation| signing_key_hash(..) == Some(miner_key_hash)).next()]: the
    first that matches and what follows it. *)
Fixpoint next_signed_by (miner_key_hash : Hash160) (operations : list BitcoinOperation) : PlanEff (option (BitcoinOperation * list BitcoinOperation)) :=
  match operations with
  | [] => mret None
  | operation :: rest =>
      key ← signing_key_hash operation;
      if bool_decide (key = Some miner_key_hash) then mret (Some (operation, rest)) else next_signed_by miner_key_hash rest
  end.

Definition parent_transaction_index (parent : SortitionInfo) : PlanEff Z :=
  match si_committed_block_hash parent, si_vrf_seed parent, si_miner_public_key_hash parent with
  | Some committed_block_hash, Some vrf_seed, Some miner_key_hash =>
      block ← block_of (si_bitcoin_height parent);
      let operations := bb_operations block in
      match List.filter (commits_to committed_block_hash vrf_seed) operations with
      | [] => throw ParentCommitmentNotFound
      | [first] => try_with id (commitment_index first)
      | _ =>
          winner ← next_signed_by miner_key_hash operations;
          match winner with
          | None => throw ParentCommitmentNotFound
          | Some (winner, rest) =>
              another ← next_signed_by miner_key_hash rest;
              match another with Some _ => throw AmbiguousParentCommitment | None => try_with id (commitment_index winner) end
          end
      end
  | _, _, _ => throw NoParentSortition
  end.

Definition plan_local_commitment (key : RegisteredLeaderKey) (parent : CommitmentParent) : PlanEff CommitmentPlan :=
  target_bitcoin_height ← try_with id (or_err (checked_add U64_MAX (cm_bitcoin_tip_height parent) 1) HeightOverflow);
  parent_block_height ← try_with id (or_err (try_from U32_MAX (si_bitcoin_height (cm_sortition parent))) HeightOverflow);
  parent_transaction_index ← parent_transaction_index (cm_sortition parent);
  mret (mkPlan
    (mkLeaderBlockCommitment (cm_tenure_start_block_id parent) (sha512_256 (cm_tenure_vrf_proof parent)) parent_block_height parent_transaction_index
       (rk_bitcoin_height key) (rk_transaction_index key) EPOCH_4_MARKER (byte_of (cm_bitcoin_tip_height parent mod MINED_AT_MODULUS)))
    (cm_sbtc_address parent) target_bitcoin_height (cm_reward_cycle parent)).

End Commitments.

(** ** The blocks of a tenure *)

Record BitcoinTenureView : Type := mkTenureView { tv_total_burn : Z; tv_sortition_hash : list byte }.

Record TenureTip : Type := mkTenureTip {
  tt_consensus_hash : ConsensusHash;
  tt_block_id : StacksBlockId;
  tt_height : Z;
  tt_bitcoin_spent : Z;
  tt_timestamp : Z;
}.

Record ParentTenure : Type := mkParentTenure { pt_tip : TenureTip; pt_start_block_id : StacksBlockId; pt_blocks : Z; pt_miner_nonce : Z }.

Record TenureExtension : Type := mkExtension { te_burn_view_consensus_hash : ConsensusHash; te_blocks_in_tenure : Z; te_nonce : Z; te_now : Z }.

Inductive TenureStartError (E : Type) : Type :=
| TenureCodec (e : CodecError)
| TenureVrf (e : VrfError)
| TenureBitcoin (e : E)
| NotWon
| EmptyTenure
| SortitionHashGap (expected found : Z).
#[global] Arguments TenureCodec {E}.
#[global] Arguments TenureVrf {E}.
#[global] Arguments TenureBitcoin {E}.
#[global] Arguments NotWon {E}.
#[global] Arguments EmptyTenure {E}.
#[global] Arguments SortitionHashGap {E}.

Record SortitionHashPoint : Type := mkHashPoint { hp_bitcoin_height : Z; hp_sortition_hash : list byte }.
Record SortitionHashBlock : Type := mkHashBlock { hb_bitcoin_height : Z; hb_bitcoin_header_hash : list byte; hb_winner_vrf_seed : option (list byte) }.

Definition NAKAMOTO_BLOCK_VERSION_EPOCH_4 : byte := 1%u8.
Definition WATERFALL_POX_TREATMENT_LEN : Z := 1.

Section Tenures.
Context `{HS : Hashes} `{SE : Secp256k1} `{ED : Edwards} {S E : Type} `{BS : BitcoinSources S E}.

Definition hash_genesis (first_bitcoin_height : Z) : SortitionHashPoint := mkHashPoint first_bitcoin_height SortitionHash.initial.

Fixpoint extend_sortition_hash (from : SortitionHashPoint) (blocks : list SortitionHashBlock) : result (TenureStartError E) SortitionHashPoint :=
  match blocks with
  | [] => Ok from
  | block :: rest =>
      let expected := saturating_add U64_MAX (hp_bitcoin_height from) 1 in
      if negb (hb_bitcoin_height block =? expected) then Err (SortitionHashGap expected (hb_bitcoin_height block)) else
      let hash := SortitionHash.mix_bitcoin_header (hp_sortition_hash from) (hb_bitcoin_header_hash block) in
      let hash := match hb_winner_vrf_seed block with Some seed => SortitionHash.mix_vrf_seed hash seed | None => hash end in
      extend_sortition_hash (mkHashPoint (hb_bitcoin_height block) hash) rest
  end.

(** The burn of the commitments that name the block they landed in. *)
Fixpoint add_burn (expected_modulus : Z) (operations : list BitcoinOperation) (total : Z) : result (TenureStartError E) Z :=
  match operations with
  | [] => Ok total
  | operation :: rest =>
      match op_kind operation with
      | LeaderBlockCommit _ _ _ _ _ _ _ parent_modulus =>
          if negb (u8 parent_modulus =? expected_modulus) then add_burn expected_modulus rest total else
          let paid := match op_outputs operation with output :: _ => out_amount_sats output | [] => 0 end in
          let? total := or_err (checked_add U64_MAX total paid) EmptyTenure in
          add_burn expected_modulus rest total
      | _ => add_burn expected_modulus rest total
      end
  end.

Fixpoint total_burn_after (total : Z) (sortition_heights : list Z) : Eff S (TenureStartError E) Z :=
  match sortition_heights with
  | [] => mret total
  | height :: rest =>
      previous ← try_with id (or_err (checked_sub height 1) EmptyTenure);
      block ← (fun s => let '(r, s) := source_block_at height s in Some (map_err TenureBitcoin r, s));
      total ← try_with id (add_burn (previous mod MINED_AT_MODULUS) (bb_operations block) total);
      total_burn_after total rest
  end.

Definition miner_key_hash (miner_key : secp_sk) : Hash160 := hash160 (StacksPublicKey.to_bytes_compressed (StacksPrivateKey.public_key miner_key)).

(** The header of an unexecuted block: no state root, no signature. *)
Definition unsealed_block (chain_length bitcoin_spent : Z) (consensus_hash : ConsensusHash) (parent_block_id : StacksBlockId) (timestamp : Z) (transactions : list Transaction) : option NakamotoBlock :=
  root ← transaction_merkle_root transactions;
  treatment ← BitVec.ones 4000 WATERFALL_POX_TREATMENT_LEN;
  match treatment with
  | Err _ => None
  | Ok treatment =>
      Some (mkBlock (mkHeader NAKAMOTO_BLOCK_VERSION_EPOCH_4 chain_length bitcoin_spent consensus_hash parent_block_id root (replicate 32 0%u8) timestamp (replicate 65 0%u8) [] treatment []) transactions)
  end.

Definition sign_miner_transaction (network : Network.t) (miner_key : secp_sk) (nonce : Z) (payload : TransactionPayloadData) : option (result (TenureStartError E) Transaction) :=
  r ← sign_standard (TransactionVersion.for_network network) (Network.chain_id network) AnchorMode.OnChainOnly miner_key nonce 0 payload;
  Some (map_err TenureCodec r).

(** [fuel] bounds the search of the curve point the VRF proof is over. *)
Definition build_tenure_start_block (fuel : nat) (won : SortitionInfo) (parent_tenure : ParentTenure) (view : BitcoinTenureView) (network : Network.t)
  (miner_key : secp_sk) (vrf_key : list byte) (timestamp : Z) : option (result (TenureStartError E) NakamotoBlock) :=
  let miner_hash := miner_key_hash miner_key in
  let tip := pt_tip parent_tenure in
  if negb (si_was_sortition won) || negb (bool_decide (si_miner_public_key_hash won = Some miner_hash)) then Some (Err NotWon) else
  if pt_blocks parent_tenure =? 0 then Some (Err EmptyTenure) else
  change ← sign_miner_transaction network miner_key (pt_miner_nonce parent_tenure)
    (TenureChange (mkTenureChange (si_consensus_hash won) (tt_consensus_hash tip) (si_consensus_hash won) (tt_block_id tip) (pt_blocks parent_tenure) TenureChangeCause.BlockFound miner_hash));
  match change with
  | Err e => Some (Err e)
  | Ok change =>
      proof ← Vrf.prove fuel vrf_key (tv_sortition_hash view);
      match proof with
      | Err e => Some (Err (TenureVrf e))
      | Ok proof =>
          coinbase ← sign_miner_transaction network miner_key (saturating_add U64_MAX (pt_miner_nonce parent_tenure) 1) (NakamotoCoinbase (replicate 32 0%u8) None (VrfProof.to_bytes proof));
          match coinbase with
          | Err e => Some (Err e)
          | Ok coinbase =>
              block ← unsealed_block (saturating_add U64_MAX (tt_height tip) 1) (tv_total_burn view) (si_consensus_hash won) (tt_block_id tip)
                        (Z.max timestamp (saturating_add U64_MAX (tt_timestamp tip) 1)) [change; coinbase];
              Some (Ok block)
          end
      end
  end.

Definition build_tenure_continuation_block (tenure : TenureTip) (transactions : list Transaction) (now : Z) : option NakamotoBlock :=
  unsealed_block (saturating_add U64_MAX (tt_height tenure) 1) (tt_bitcoin_spent tenure) (tt_consensus_hash tenure) (tt_block_id tenure)
    (Z.max now (saturating_add U64_MAX (tt_timestamp tenure) 1)) transactions.

Definition build_tenure_extend_block (tenure : TenureTip) (extension : TenureExtension) (network : Network.t) (miner_key : secp_sk) (transactions : list Transaction)
  : option (result (TenureStartError E) NakamotoBlock) :=
  change ← sign_miner_transaction network miner_key (te_nonce extension)
    (TenureChange (mkTenureChange (tt_consensus_hash tenure) (tt_consensus_hash tenure) (te_burn_view_consensus_hash extension) (tt_block_id tenure) (te_blocks_in_tenure extension)
       TenureChangeCause.Extended (miner_key_hash miner_key)));
  match change with
  | Err e => Some (Err e)
  | Ok change => block ← build_tenure_continuation_block tenure (change :: transactions) (te_now extension); Some (Ok block)
  end.

End Tenures.

(** ** The wallet *)

#[global] Instance TxIn_eq_dec : EqDecision TxIn. Proof. solve_decision. Defined.
#[global] Instance TxOut_eq_dec : EqDecision TxOut. Proof. solve_decision. Defined.

Record FundedTransaction : Type := mkFunded { ft_transaction : result unit BtcTransaction; ft_change_position : Z; ft_fee : Z }.
Record SignedTransaction : Type := mkSignedTx { st_complete : bool; st_transaction : result unit BtcTransaction }.
Record Unspent : Type := mkUnspent { us_txid : list byte; us_vout : Z; us_amount : Z }.
Record Acceptance : Type := mkAcceptanceResult { ac_allowed : bool; ac_reject_reason : option (list byte) }.

(** Bitcoin Core's wallet and node over RPC. *)
Class BitcoinCore : Type := {
  Core : Type;
  RpcError : Type;
  fund_raw_transaction : BtcTransaction -> Z -> option Z -> Core -> result RpcError FundedTransaction * Core;
  sign_raw_transaction_with_wallet : BtcTransaction -> Core -> result RpcError SignedTransaction * Core;
  test_mempool_accept : BtcTransaction -> Core -> result RpcError (list Acceptance) * Core;
  send_raw_transaction : BtcTransaction -> Core -> result RpcError (list byte) * Core;
  list_unspent : Core -> result RpcError (list Unspent) * Core;
  (** [get_raw_transaction_info]: the block that contains the transaction. *)
  transaction_block : list byte -> Core -> result RpcError (option (list byte)) * Core;
  (** [get_block_info]: the height and the transactions of a block. *)
  block_info : list byte -> Core -> result RpcError (Z * list (list byte)) * Core;
  get_block_count : Core -> result RpcError Z * Core;
  (** The call [bumpfee] with [replaceable], at a fee rate: the transaction's successor. *)
  bump_fee : list byte -> Z -> Core -> result RpcError (list byte) * Core;
}.

Section Wallet.
Context `{HS : Hashes} `{ED : Edwards} `{BL : BitcoinLib} `{CO : BitcoinCore}.

Inductive MinerError : Type :=
| BitcoinRpcFailed (e : RpcError)
| CommitmentFailed (e : LeaderCommitmentTransactionError)
| RegistrationFailed (e : LeaderKeyRegistrationTransactionError)
| TransactionDecode
| MissingInputs
| AlteredProtocolOutputs
| UnexpectedChangePosition (position : Z)
| IncompleteSignature
| MempoolRejected (reason : list byte)
| Unconfirmed.

Record WalletSubmission : Type := mkSubmission { ws_transaction_id : list byte; ws_transaction : BtcTransaction; ws_fee : Z; ws_change_output : Z }.

Abbreviation WalletEff := (Eff Core MinerError).

Definition rpc {A} (call : Core -> result RpcError A * Core) : WalletEff A := fun c => let '(r, c) := call c in Some (map_err BitcoinRpcFailed r, c).

Definition I32_MAX : Z := 2147483647.

Definition validate_funded_transaction (template funded : BtcTransaction) (change_position expected_change_position : Z) : result MinerError Z :=
  if bool_decide (bt_input funded = []) then Err MissingInputs else
  if negb (bool_decide (length (bt_output template) <= length (bt_output funded))%nat && bool_decide (take (length (bt_output template)) (bt_output funded) = bt_output template)) then Err AlteredProtocolOutputs else
  if negb (change_position =? expected_change_position) || negb (len (bt_output funded) =? len (bt_output template) + 1) then Err (UnexpectedChangePosition change_position) else
  if change_position <? 0 then Err (UnexpectedChangePosition change_position) else Ok change_position.

Definition submit_protocol_transaction (template : BtcTransaction) (protocol_output_count : Z) (fee_rate : option Z) : WalletEff WalletSubmission :=
  change_position ← try_with id (or_err (try_from I32_MAX protocol_output_count) (UnexpectedChangePosition I32_MAX));
  funded ← rpc (fund_raw_transaction template change_position fee_rate);
  funded_transaction ← try_with (fun _ => TransactionDecode) (ft_transaction funded);
  change_output ← try_with id (validate_funded_transaction template funded_transaction (ft_change_position funded) change_position);
  signed ← rpc (sign_raw_transaction_with_wallet funded_transaction);
  if negb (st_complete signed) then throw IncompleteSignature else
  transaction ← try_with (fun _ => TransactionDecode) (st_transaction signed);
  acceptance ← rpc (test_mempool_accept transaction);
  match acceptance with
  | [] => throw (MempoolRejected (list_byte_of_string "Bitcoin Core returned no acceptance result"))
  | result :: _ =>
      if negb (ac_allowed result) then throw (MempoolRejected (default (list_byte_of_string "unknown rejection") (ac_reject_reason result))) else
      transaction_id ← rpc (send_raw_transaction transaction);
      mret (mkSubmission transaction_id transaction (ft_fee funded) change_output)
  end.

(** [max_by_key(|output| output.amount)]: the last of the largest. *)
Definition largest_output (outputs : list Unspent) : option Unspent :=
  foldl (fun best o => match best with None => Some o | Some b => if us_amount o <? us_amount b then Some b else Some o end) None outputs.

Definition funding_input : WalletEff TxIn :=
  outputs ← rpc list_unspent;
  largest ← try_with id (or_err (largest_output outputs) MissingInputs);
  mret (mkTxIn (us_txid largest) (us_vout largest)).

Definition submit_leader_commitment (magic : list byte) (commitment : LeaderBlockCommitment) (sbtc_address : PoxAddress.t) (commitment_amount : Z) (fee_rate : option Z)
  (previous_change : option TxIn) : WalletEff WalletSubmission :=
  input ← (match previous_change with Some previous_output => mret previous_output | None => funding_input end);
  template ← try_with CommitmentFailed (build_leader_commitment_transaction magic commitment [input] sbtc_address commitment_amount None);
  submit_protocol_transaction template 2 fee_rate.

Definition submit_leader_key_registration (magic : list byte) (registration : LeaderKeyPayload) (fee_rate : option Z) : WalletEff WalletSubmission :=
  input ← funding_input;
  template ← try_with RegistrationFailed (build_leader_key_registration_transaction magic registration [input]);
  submit_protocol_transaction template 1 fee_rate.

(** The sum of the amounts, which panics where it overflows. *)
Definition spendable_sats : WalletEff Z :=
  outputs ← rpc list_unspent;
  match outputs with
  | [] => throw MissingInputs
  | _ => unwrap (match checked_sum U64_MAX tt 0 (map us_amount outputs) with Ok n => Some n | Err _ => None end)
  end.

Definition confirmed_position (transaction_id : list byte) : WalletEff (Z * Z) :=
  block_hash ← rpc (transaction_block transaction_id);
  block_hash ← try_with id (or_err block_hash Unconfirmed);
  block ← rpc (block_info block_hash);
  index ← try_with id (or_err (fst <$> list_find (fun candidate => candidate = transaction_id) block.2) Unconfirmed);
  height ← try_with id (or_err (try_from U64_MAX block.1) Unconfirmed);
  index ← try_with id (or_err (try_from U32_MAX (Z.of_nat index)) Unconfirmed);
  mret (height, index).

Definition block_count : WalletEff Z := rpc get_block_count.

Definition bump_commitment_fee (transaction_id : list byte) (fee_rate : Z) : WalletEff (list byte) := rpc (bump_fee transaction_id fee_rate).

End Wallet.

(** ** Proposing blocks and gathering signatures *)

(** What the coordinator asks [SyncClient] for. *)
Class BlockUpload `{StackerDbClients} : Type := { UploadClient : Type; UploadError : Type; upload_block : UploadClient -> NakamotoBlock -> Network -> result UploadError unit * Network }.

Record SignerReadiness : Type := mkReadiness { sr_weight : Z; sr_parent_tenure_last_block : StacksBlockId; sr_parent_tenure_last_block_height : Z }.

Definition MINER_SLOTS_PER_WRITER : Z := 2.
Definition MINER_PROPOSAL_SLOT : Z := 0.
Definition MINER_PUSHED_BLOCK_SLOT : Z := 1.

Section Coordinator.
Context `{HS : Hashes} `{SE : Secp256k1} `{ED : Edwards} `{CL : StackerDbClients} `{UP : !BlockUpload}.

Inductive ProposalError : Type :=
| ProposalClient (e : DbClientError)
| ProposalChunk (e : StackerDbError.t)
| ProposalMessage (e : SignerMessageError.t)
| ProposalSignerSet (e : SignerSetError)
| ProposalSync (e : UploadError)
| ProposalVersionOverflow
| ProposalRejected (reason : option (list byte)) (code : option Z)
| SignerParentMismatch (announced_parent : StacksBlockId) (announced_parent_height : Z) (proposal_parent : StacksBlockId) (proposal_height : Z).

Record ProposalCoordinator : Type := mkCoordinator {
  pc_client : DbClient;
  pc_miner_contract : StackerDbContract;
  pc_signer_contract : StackerDbContract;
  pc_state_contract : StackerDbContract;
  pc_miner_key : secp_sk;
}.

Abbreviation MinerEff := (Eff Network ProposalError).

Definition db {A} (call : Network -> result DbClientError A * Network) : MinerEff A := fun n => let '(r, n) := call n in Some (map_err ProposalClient r, n).

Definition admit_tenure_start (readiness : SignerReadiness) (block : NakamotoBlock) : result ProposalError unit :=
  let height_matches := bool_decide (checked_add U64_MAX (sr_parent_tenure_last_block_height readiness) 1 = Some (hd_chain_length (bl_header block))) in
  if bool_decide (hd_parent_block_id (bl_header block) = sr_parent_tenure_last_block readiness) && height_matches then Ok tt else
  Err (SignerParentMismatch (sr_parent_tenure_last_block readiness) (sr_parent_tenure_last_block_height readiness) (hd_parent_block_id (bl_header block)) (hd_chain_length (bl_header block))).

Fixpoint announce_weight (miner : CurrentMiner) (weight : Z) (announcements : list (CurrentMiner * Z)) : result ProposalError (list (CurrentMiner * Z)) :=
  match announcements with
  | [] => Ok [(miner, weight)]
  | (seen, total) :: rest =>
      if decide (seen = miner) then let? total := or_err (checked_add U32_MAX total weight) (ProposalSignerSet WeightOverflow) in Ok ((seen, total) :: rest)
      else let? rest := announce_weight miner weight rest in Ok ((seen, total) :: rest)
  end.

(** The loop of [announced_signer_state]: a slot counts once. *)
Fixpoint count_announcements (expected : ConsensusHash) (expected_miner : Hash160) (signer_set : SignerWeights.t) (messages : list (Z * list byte)) (counted : gset Z)
  (announcements : list (CurrentMiner * Z)) : option (result ProposalError (list (CurrentMiner * Z))) :=
  match messages with
  | [] => Some (Ok announcements)
  | (slot_id, bytes) :: rest =>
      match signer_set !! Z.to_nat slot_id with
      | None => count_announcements expected expected_miner signer_set rest counted announcements
      | Some (_, signer_weight) =>
          if bool_decide (slot_id ∈ counted) then count_announcements expected expected_miner signer_set rest counted announcements else
          let counted := {[slot_id]} ∪ counted in
          message ← SignerMessage.decode bytes;
          match message with
          | Ok (SignerMessage.Update update) =>
              match su_current_miner update with
              | ActiveMiner public_key_hash tenure _ _ _ =>
                  if negb (bool_decide (tenure = expected)) || negb (bool_decide (public_key_hash = expected_miner)) then count_announcements expected expected_miner signer_set rest counted announcements else
                  match announce_weight (su_current_miner update) signer_weight announcements with
                  | Err e => Some (Err e)
                  | Ok announcements => count_announcements expected expected_miner signer_set rest counted announcements
                  end
              | NoMiner => count_announcements expected expected_miner signer_set rest counted announcements
              end
          | _ => count_announcements expected expected_miner signer_set rest counted announcements
          end
      end
  end.

(** [max_by_key(|(_, weight)| *weight)]. *)
Definition heaviest_miner (l : list (CurrentMiner * Z)) : option (CurrentMiner * Z) :=
  foldl (fun best v => match best with None => Some v | Some b => if v.2 <? b.2 then Some b else Some v end) None l.

Definition announced_signer_state (expected : ConsensusHash) (expected_miner : Hash160) (signer_set : SignerWeights.t) (messages : list (Z * list byte))
  : option (result ProposalError (option SignerReadiness)) :=
  announcements ← count_announcements expected expected_miner signer_set messages ∅ [];
  Some (let? announcements := announcements in
        Ok (match heaviest_miner announcements with
            | Some (ActiveMiner _ _ _ last_block last_height, weight) => Some (mkReadiness weight last_block last_height)
            | _ => None
            end)).

(** The messages of the slots that hold one, with their slots. *)
Fixpoint read_slots (client : DbClient) (contract : StackerDbContract) (slots : list SlotVersion) : MinerEff (list (Z * list byte)) :=
  match slots with
  | [] => mret []
  | slot :: rest =>
      chunk ← db (latest_chunk client contract (sl_slot_id slot));
      messages ← read_slots client contract rest;
      mret (match chunk with Some bytes => (sl_slot_id slot, bytes) :: messages | None => messages end)
  end.

Definition signer_readiness (c : ProposalCoordinator) (expected : ConsensusHash) (signer_set : SignerWeights.t) : MinerEff (option SignerReadiness) :=
  slots ← db (slot_versions (pc_client c) (pc_state_contract c));
  messages ← read_slots (pc_client c) (pc_state_contract c) slots;
  r ← unwrap (announced_signer_state expected (miner_key_hash (pc_miner_key c)) signer_set messages);
  try_with id r.

(** The loop of [response_signatures]. *)
Fixpoint accepted_signatures (expected_hash : Sha256Sum) (messages : list (list byte)) : option (result ProposalError (list (list byte))) :=
  match messages with
  | [] => Some (Ok [])
  | bytes :: rest =>
      message ← SignerMessage.decode bytes;
      match message with
      | Err e => Some (Err (ProposalMessage e))
      | Ok message =>
          rest ← accepted_signatures expected_hash rest;
          Some (let? signatures := rest in
                Ok (match message with
                    | SignerMessage.Response (Accepted response) => if bool_decide (ba_signer_signature_hash response = expected_hash) then ba_signature response :: signatures else signatures
                    | _ => signatures
                    end))
      end
  end.

Definition response_signatures (p : BlockProposal) (signer_set : SignerWeights.t) (messages : list (list byte)) : option (result ProposalError (list (list byte))) :=
  expected_hash ← signer_signature_hash (bl_header (bp_block p));
  signatures ← accepted_signatures expected_hash messages;
  match signatures with
  | Err e => Some (Err e)
  | Ok signatures => ordered ← SignerWeights.order_responses signer_set (bl_header (bp_block p)) signatures; Some (map_err ProposalSignerSet ordered)
  end.

Definition finalize_block (p : BlockProposal) (signatures : list (list byte)) : NakamotoBlock :=
  mkBlock (set_signer_signatures signatures (bl_header (bp_block p))) (bl_transactions (bp_block p)).

Definition collect_signatures (c : ProposalCoordinator) (p : BlockProposal) (signer_set : SignerWeights.t) : MinerEff (list (list byte)) :=
  slots ← db (slot_versions (pc_client c) (pc_signer_contract c));
  messages ← read_slots (pc_client c) (pc_signer_contract c) slots;
  r ← unwrap (response_signatures p signer_set (map snd messages));
  try_with id r.

(** The loop of [write_miner_message] over the two parities. *)
Fixpoint write_parities (c : ProposalCoordinator) (message_slot : Z) (data : list byte) (versions : list SlotVersion) (parities : list Z) (accepted : option ChunkAck) (rejection : option ProposalError) : MinerEff ChunkAck :=
  match parities with
  | [] => try_with id (or_err accepted (default ProposalVersionOverflow rejection))
  | parity :: rest =>
      let slot_id := parity * MINER_SLOTS_PER_WRITER + message_slot in
      slot_version ← try_with id (or_err (checked_add U32_MAX (version_held slot_id versions) 1) ProposalVersionOverflow);
      chunk ← try_with ProposalChunk (Chunk.sign (Chunk.new slot_id slot_version data) (pc_miner_key c));
      ack ← db (put_chunk (pc_client c) (pc_miner_contract c) chunk);
      if ack_accepted ack then write_parities c message_slot data versions rest (Some (mkAck true (ack_reason ack) (ack_code ack) (Some (mkSlotVersion slot_id slot_version)))) rejection
      else write_parities c message_slot data versions rest accepted (Some (ProposalRejected (ack_reason ack) (ack_code ack)))
  end.

Definition write_miner_message (c : ProposalCoordinator) (message_slot : Z) (message : SignerMessage.t) : MinerEff ChunkAck :=
  encoded ← unwrap (SignerMessage.encode message);
  data ← try_with ProposalMessage encoded;
  versions ← db (slot_versions (pc_client c) (pc_miner_contract c));
  write_parities c message_slot data versions [0; 1] None None.

Definition publish_proposal (c : ProposalCoordinator) (p : BlockProposal) : MinerEff ChunkAck := write_miner_message c MINER_PROPOSAL_SLOT (SignerMessage.Proposal p).

Definition publish_block (c : ProposalCoordinator) (block : NakamotoBlock) : MinerEff ChunkAck := write_miner_message c MINER_PUSHED_BLOCK_SLOT (SignerMessage.Pushed block).

Definition finalize_and_submit (c : ProposalCoordinator) (p : BlockProposal) (signer_set : SignerWeights.t) (node : UploadClient) : MinerEff NakamotoBlock :=
  signatures ← collect_signatures c p signer_set;
  let block := finalize_block p signatures in
  _ ← (fun n => let '(r, n) := upload_block node block n in Some (map_err ProposalSync r, n));
  _ ← publish_block c block;
  mret block.

End Coordinator.
