(* ===== verification/MinerTheorems.v ===== *)
(** * What the miner builds

    The blocks the miner proposes succeed the tip they were built on and every
    transaction in them verifies; the signatures it orders make the block it
    publishes one that its signer set approves; a slot is counted once in the
    signers' announcements; the commitment it plans is for the block after the
    tip; and the wallet's transaction pays what the protocol's template pays. *)

From stdpp Require Import gmap.
From S2P Require Import Prelude Primitives Address CodecIO Crypto TxData TxCodec TxWire TxTheorems TxAuth TxAuthTheorems.
From S2P Require Import Nakamoto Signers SignerTheorems SortitionRules BitcoinScript SnapshotChain Effects PeerWire StackerDb EmbeddedSigner ProposalExecution SignerService Miner.

(** ** The blocks of a tenure *)

Section Blocks.
Context `{HO : HashesOk} `{SO : Secp256k1Ok} `{ED : Edwards} `{EO : !EdwardsOk}.

Lemma unsealed_block_inv length spent consensus parent timestamp txs block : unsealed_block length spent consensus parent timestamp txs = Some block ->
  let h := bl_header block in
  bl_transactions block = txs /\ hd_chain_length h = length /\ hd_bitcoin_spent h = spent /\ hd_consensus_hash h = consensus /\ hd_parent_block_id h = parent /\
  hd_timestamp h = timestamp /\ transaction_merkle_root txs = Some (hd_transaction_merkle_root h) /\ hd_signer_signatures h = [].
Proof.
  unfold unsealed_block. destruct (transaction_merkle_root txs) as [root|]; [|done]. cbn [mbind option_bind].
  destruct (BitVec.ones _ _) as [[treatment|]|]; [|done..]. cbn [mbind option_bind]. by intros [= <-].
Qed.

Lemma unsealed_block_total length spent consensus parent timestamp txs : Forall (fun tx => is_Some (txid tx)) txs ->
  is_Some (unsealed_block length spent consensus parent timestamp txs).
Proof. intros (root & Hr & _)%root_total. unfold unsealed_block. rewrite Hr. by eexists. Qed.

(** The header after the tip a block was built on. *)
Definition is_header_of (tip : TenureTip) (h : NakamotoBlockHeader) : Prop :=
  header_block_id h = Some (tt_block_id tip) /\ hd_chain_length h = tt_height tip /\ hd_timestamp h = tt_timestamp tip /\ hd_consensus_hash h = tt_consensus_hash tip.

(** A block made for the length, the parent and a time after those of its tip. *)
Lemma unsealed_successor spent consensus tip now txs parent block :
  unsealed_block (saturating_add U64_MAX (tt_height tip) 1) spent consensus (tt_block_id tip) (Z.max now (saturating_add U64_MAX (tt_timestamp tip) 1)) txs = Some block ->
  is_header_of tip parent -> tt_timestamp tip < U64_MAX ->
  consensus = tt_consensus_hash tip \/ existsb is_tenure_change txs = true -> validate_successor block parent = Some (Ok tt).
Proof.
  intros (Htx & Hl & _ & Hc & Hp & Ht & _)%unsealed_block_inv (Hid & Hlen & Htime & Hcons) Hroom Hchange. unfold validate_successor. rewrite Hid. cbn [mbind option_bind].
  rewrite Hp, Hl, Ht, Hc, Hlen, Htime, Hcons, Htx. rewrite bool_decide_eq_true_2, Z.eqb_refl by done. cbn [negb].
  rewrite (proj2 (Z.leb_gt _ _)) by (unfold saturating_add; lia). destruct Hchange as [->| ->].
  - by rewrite bool_decide_eq_true_2.
  - by rewrite andb_false_r.
Qed.

(** What [sign_miner_transaction] returns for a payload that fits. *)
Lemma miner_transaction {E} network key nonce payload : is_u32 (Network.chain_id network) -> is_u64 nonce -> payload_ok payload ->
  exists tx, sign_miner_transaction (E := E) network key nonce payload = Some (Ok tx) /\ verify_authorization tx = Some (Ok tt) /\
    pl_data (tx_payload tx) = payload /\ condition_nonce (auth_origin (tx_auth tx)) = nonce /\ is_Some (txid tx).
Proof.
  intros Hc Hn Hp. destruct (sign_standard_verifies (TransactionVersion.for_network network) (Network.chain_id network) AnchorMode.OnChainOnly key nonce 0 payload)
    as (tx & Hs & Hv & _ & Hno & _ & Hd & He & _); [done..|]. exists tx. unfold sign_miner_transaction. rewrite Hs. split; [done|]. split_and!; [done..|].
  unfold txid. rewrite He. by destruct (tx_bytes tx).
Qed.

Lemma starts_first tx txs : (forall p, pl_data (tx_payload tx) = TenureChange p -> cause p = TenureChangeCause.BlockFound) ->
  (exists p, pl_data (tx_payload tx) = TenureChange p) -> existsb (fun tx => match pl_data (tx_payload tx) with TenureChange payload => bool_decide (cause payload = TenureChangeCause.BlockFound) | _ => false end) (tx :: txs) = true.
Proof. intros Hc [p Hp]. cbn [existsb]. rewrite Hp, bool_decide_eq_true_2 by by apply Hc. done. Qed.

Lemma changes_first tx txs p : pl_data (tx_payload tx) = TenureChange p -> existsb is_tenure_change (tx :: txs) = true.
Proof. intros Hp. cbn [existsb]. unfold is_tenure_change at 1. by rewrite Hp. Qed.

Lemma plain_starts_nothing txs : existsb is_tenure_change txs = false ->
  existsb (fun tx => match pl_data (tx_payload tx) with TenureChange payload => bool_decide (cause payload = TenureChangeCause.BlockFound) | _ => false end) txs = false.
Proof.
  induction txs as [|tx txs IH]; [done|]. cbn [existsb]. intros [Hx Ht]%orb_false_iff. rewrite IH by done. rewrite orb_false_r.
  unfold is_tenure_change in Hx. by destruct (pl_data (tx_payload tx)).
Qed.

(** C14: build_tenure_start_block returns a block exactly for a sortition the miner's
    key won and a tenure with blocks, given a proof found within the fuel: two
    transactions that verify, at consecutive nonces, the tenure change and the
    coinbase with the proof; it starts a tenure in the won sortition, states the root
    of its transactions and is a valid successor of its tip. *)
Theorem tenure_start_extends_parent {E} fuel won pt view network key vrf_key timestamp proof parent
  (Hchain : is_u32 (Network.chain_id network)) (Hnonce : 0 <= pt_miner_nonce pt < U64_MAX) (Hblocks : is_u32 (pt_blocks pt))
  (Hcons : len (si_consensus_hash won) = 20 /\ len (tt_consensus_hash (pt_tip pt)) = 20 /\ len (tt_block_id (pt_tip pt)) = 32)
  (Hproof : Vrf.prove fuel vrf_key (tv_sortition_hash view) = Some (Ok proof)) (Horder : is_small_order (VrfProof.gamma proof) = false)
  (Hparent : is_header_of (pt_tip pt) parent) (Hroom : tt_timestamp (pt_tip pt) < U64_MAX) :
  let miner := miner_key_hash key in
  let built := build_tenure_start_block (E := E) fuel won pt view network key vrf_key timestamp in
  if si_was_sortition won && bool_decide (si_miner_public_key_hash won = Some miner) then
    if pt_blocks pt =? 0 then built = Some (Err EmptyTenure) else
    exists block change coinbase, built = Some (Ok block) /\ bl_transactions block = [change; coinbase] /\
      validate_successor block parent = Some (Ok tt) /\ starts_new_tenure block = true /\
      hd_consensus_hash (bl_header block) = si_consensus_hash won /\ transaction_merkle_root [change; coinbase] = Some (hd_transaction_merkle_root (bl_header block)) /\
      verify_authorization change = Some (Ok tt) /\ verify_authorization coinbase = Some (Ok tt) /\
      condition_nonce (auth_origin (tx_auth change)) = pt_miner_nonce pt /\ condition_nonce (auth_origin (tx_auth coinbase)) = pt_miner_nonce pt + 1 /\
      pl_data (tx_payload coinbase) = NakamotoCoinbase (replicate 32 0%u8) None (VrfProof.to_bytes proof)
  else built = Some (Err NotWon).
Proof.
  cbn zeta. unfold build_tenure_start_block. destruct (si_was_sortition won); cbn [negb orb andb]; [|done].
  destruct (bool_decide (si_miner_public_key_hash won = Some (miner_key_hash key))); cbn [negb]; [|done].
  destruct (pt_blocks pt =? 0); [done|]. destruct Hcons as (H1 & H2 & H3). set (payload := TenureChange _).
  destruct (miner_transaction (E := E) network key (pt_miner_nonce pt) payload Hchain) as (change & Hc & Vc & Dc & Nc & Ic).
  { unfold is_u64. lia. } { cbn. unfold tenure_change_ok; cbn. split_and!; try done; try apply Hblocks. unfold miner_key_hash. by rewrite hash160_length. }
  rewrite Hc, Hproof. cbn [mbind option_bind]. assert (saturating_add U64_MAX (pt_miner_nonce pt) 1 = pt_miner_nonce pt + 1) as -> by (unfold saturating_add; lia).
  destruct (vrf_proved_bytes_roundtrip _ _ _ _ Hproof Horder) as [Hl Hf].
  destruct (miner_transaction (E := E) network key (pt_miner_nonce pt + 1) (NakamotoCoinbase (replicate 32 0%u8) None (VrfProof.to_bytes proof)) Hchain)
    as (coinbase & Hb & Vb & Db & Nb & Ib).
  { unfold is_u64. lia. } { cbn. unfold vrf_proof_ok. rewrite Hl, Hf. done. }
  rewrite Hb. cbn [mbind option_bind].
  destruct (unsealed_block_total (saturating_add U64_MAX (tt_height (pt_tip pt)) 1) (tv_total_burn view) (si_consensus_hash won) (tt_block_id (pt_tip pt))
    (Z.max timestamp (saturating_add U64_MAX (tt_timestamp (pt_tip pt)) 1)) [change; coinbase]) as [block Hblock]; [by repeat constructor|].
  rewrite Hblock. cbn [mbind option_bind]. exists block, change, coinbase. pose proof (unsealed_block_inv _ _ _ _ _ _ _ Hblock) as (Htx & _ & _ & Hco & _ & _ & Hr & _).
  split_and!; try done.
  - eapply unsealed_successor; [exact Hblock|done..|]. right. by eapply changes_first.
  - unfold starts_new_tenure. rewrite Htx. apply starts_first; [|by eexists]. intros p. rewrite Dc. by intros [= <-].
Qed.

(** A continuation is a valid successor of its tip in the same tenure: it is returned for every
    list of transactions, which it holds under their root. *)
Theorem continuation_extends_tip tip transactions now parent
  (Hids : Forall (fun tx => is_Some (txid tx)) transactions) (Hparent : is_header_of tip parent) (Hroom : tt_timestamp tip < U64_MAX) :
  exists block, build_tenure_continuation_block tip transactions now = Some block /\ bl_transactions block = transactions /\
    validate_successor block parent = Some (Ok tt) /\ hd_consensus_hash (bl_header block) = tt_consensus_hash tip /\
    transaction_merkle_root transactions = Some (hd_transaction_merkle_root (bl_header block)) /\ now <= hd_timestamp (bl_header block).
Proof.
  unfold build_tenure_continuation_block. edestruct (unsealed_block_total) as [block Hb]; [exact Hids|]. rewrite Hb. exists block.
  pose proof (unsealed_block_inv _ _ _ _ _ _ _ Hb) as (Htx & _ & _ & Hco & _ & Ht & Hr & _). split_and!; try done; [|rewrite Ht; lia].
  eapply unsealed_successor; [exact Hb|done..|by left].
Qed.

(** An extension is a continuation whose first transaction renews the budget of the tenure: it
    verifies, changes the Bitcoin view and does not start a tenure. *)
Theorem extension_extends_tip {E} tip extension network key transactions parent
  (Hchain : is_u32 (Network.chain_id network)) (Hnonce : is_u64 (te_nonce extension)) (Hblocks : is_u32 (te_blocks_in_tenure extension))
  (Hcons : len (tt_consensus_hash tip) = 20 /\ len (te_burn_view_consensus_hash extension) = 20 /\ len (tt_block_id tip) = 32)
  (Hids : Forall (fun tx => is_Some (txid tx)) transactions) (Hparent : is_header_of tip parent) (Hroom : tt_timestamp tip < U64_MAX)
  (Hplain : existsb is_tenure_change transactions = false) :
  exists block change, build_tenure_extend_block (E := E) tip extension network key transactions = Some (Ok block) /\ bl_transactions block = change :: transactions /\
    verify_authorization change = Some (Ok tt) /\ validate_successor block parent = Some (Ok tt) /\ starts_new_tenure block = false /\
    bitcoin_view (bl_transactions block) = Some (te_burn_view_consensus_hash extension).
Proof.
  destruct Hcons as (H1 & H2 & H3). unfold build_tenure_extend_block. set (payload := TenureChange _).
  destruct (miner_transaction (E := E) network key (te_nonce extension) payload Hchain Hnonce) as (change & Hc & Vc & Dc & _ & Ic).
  { cbn. unfold tenure_change_ok; cbn. split_and!; try done; try apply Hblocks. unfold miner_key_hash. by rewrite hash160_length. }
  rewrite Hc. cbn [mbind option_bind]. unfold build_tenure_continuation_block.
  edestruct (unsealed_block_total) as [block Hb]; [constructor; [exact Ic|exact Hids]|]. rewrite Hb. cbn [mbind option_bind]. exists block, change.
  pose proof (unsealed_block_inv _ _ _ _ _ _ _ Hb) as (Htx & _). split_and!; try done.
  - eapply unsealed_successor; [exact Hb|done..|by left].
  - unfold starts_new_tenure. rewrite Htx. cbn [existsb]. rewrite Dc. cbn [payload cause]. rewrite bool_decide_eq_false_2 by done. by apply plain_starts_nothing.
  - rewrite Htx. cbn [bitcoin_view]. by rewrite Dc.
Qed.

End Blocks.

(** ** The sortition hash of a tenure *)

Section HashChain.
Context `{HS : Hashes} {E : Type}.
Notation extend := (extend_sortition_hash (E := E)).

(** A snapshot the chain makes after another. *)
Definition follows (parent s : SortitionSnapshot) : Prop :=
  exists previous block txids total_burn pox_id winner, s = SnapshotChain.next_snapshot parent previous block txids total_burn pox_id winner /\
    bb_height block = sn_bitcoin_height parent + 1.

Fixpoint follow (parent : SortitionSnapshot) (chain : list SortitionSnapshot) : Prop :=
  match chain with [] => True | s :: rest => follows parent s /\ follow s rest end.

Definition hash_point_of (s : SortitionSnapshot) : SortitionHashPoint := mkHashPoint (sn_bitcoin_height s) (sn_sortition_hash s).
Definition hash_block_of (s : SortitionSnapshot) : SortitionHashBlock := mkHashBlock (sn_bitcoin_height s) (sn_bitcoin_header_hash s) (sn_winner_vrf_seed s).

(** The miner's extension of a sortition hash over the blocks of a run of snapshots is the
    hash of the last of them, as the sortition chain computes it. *)
Theorem extended_hash_is_chains chain : forall parent, follow parent chain -> sn_bitcoin_height parent + len chain <= U64_MAX ->
  extend (hash_point_of parent) (map hash_block_of chain) = Ok (hash_point_of (default parent (last chain))).
Proof.
  induction chain as [|s rest IH]; intros parent; [done|]. cbn [follow map length]. intros [(previous & block & txids & burn & pox & winner & -> & Hh) Hrest] Hroom.
  rewrite last_cons. cbn [extend_sortition_hash]. set (s := SnapshotChain.next_snapshot _ _ _ _ _ _ _) in *.
  assert (Hs : hb_bitcoin_height (hash_block_of s) = sn_bitcoin_height parent + 1) by done. rewrite Hs. cbn [hash_point_of hp_bitcoin_height].
  assert (saturating_add U64_MAX (sn_bitcoin_height parent) 1 = sn_bitcoin_height parent + 1) as -> by (unfold saturating_add; lia). rewrite Z.eqb_refl. cbn [negb].
  rewrite <- Hs. specialize (IH s Hrest). change (hb_bitcoin_height (hash_block_of s)) with (sn_bitcoin_height s) in *.
  replace (mkHashPoint _ _) with (hash_point_of s) by (unfold hash_point_of, s, hash_block_of; by destruct winner). rewrite IH by lia. by destruct (last rest).
Qed.

(** Extending over a run that does not continue the point reports the gap. *)
Lemma extended_hash_gap point block rest : hb_bitcoin_height block <> saturating_add U64_MAX (hp_bitcoin_height point) 1 ->
  extend point (block :: rest) = Err (SortitionHashGap (saturating_add U64_MAX (hp_bitcoin_height point) 1) (hb_bitcoin_height block)).
Proof. intros Hne. cbn [extend_sortition_hash]. by rewrite (proj2 (Z.eqb_neq _ _) Hne). Qed.

Lemma extend_app blocks more : forall point, extend point (blocks ++ more) = (let? point := extend point blocks in extend point more).
Proof. induction blocks as [|b blocks IH]; intros point; [done|]. cbn [app extend_sortition_hash]. destruct (negb _); [done|]. apply IH. Qed.

End HashChain.

Lemma try_with_ok {S E F A} (f : F -> E) (r : result F A) (s : S) x s' : try_with f r s = Some (Ok x, s') -> r = Ok x /\ s' = s.
Proof. unfold try_with. destruct r; [by intros [= <- <-]|done]. Qed.

(** ** The plan of a commitment *)

Section Plan.
Context `{HS : Hashes} {S E : Type} `{BS : BitcoinSources S E}.

Lemma next_signed_found key ops : forall (s : S) winner rest s', next_signed_by (E := E) key ops s = Some (Ok (Some (winner, rest)), s') -> exists before, ops = before ++ winner :: rest.
Proof.
  induction ops as [|op ops IH]; intros s winner rest s' H; [done|]. cbn [next_signed_by] in H. apply eff_bind_ok in H as (k & s1 & _ & H).
  case_bool_decide; [injection H as <- <- _; by exists []|]. apply IH in H as [before ->]. by exists (op :: before).
Qed.

(** The operation whose index a plan names is of the parent's Bitcoin block: the only one that
    commits to the tenure with its seed, or one that [signing_key_hash] attributes to the winner. *)
Lemma parent_index_inv parent s i s' : parent_transaction_index (E := E) parent s = Some (Ok i, s') ->
  exists block s1 op committed seed miner, source_block_at (si_bitcoin_height parent) s = (Ok block, s1) /\ op ∈ bb_operations block /\
    si_committed_block_hash parent = Some committed /\ si_vrf_seed parent = Some seed /\ si_miner_public_key_hash parent = Some miner /\
    i = op_transaction_index op /\ i <= U16_MAX /\ List.filter (commits_to committed seed) (bb_operations block) <> [] /\
    (forall only, List.filter (commits_to committed seed) (bb_operations block) = [only] -> op = only).
Proof.
  unfold parent_transaction_index. destruct (si_committed_block_hash parent) as [committed|]; [|done]. destruct (si_vrf_seed parent) as [seed|]; [|done].
  destruct (si_miner_public_key_hash parent) as [miner|]; [|done]. intros H. apply eff_bind_ok in H as (block & s1 & Hb & H).
  unfold block_of in Hb. destruct (source_block_at _ s) as [[b|] s2]; [|done]. injection Hb as <- <-.
  assert (Hindex : forall op, commitment_index (E := E) op = Ok i -> i = op_transaction_index op /\ i <= U16_MAX).
  { intros op. unfold commitment_index. destruct (try_from _ _) as [j|] eqn:Hj; [|done]. apply try_from_Some in Hj as [-> ?]. by intros [= <-]. }
  destruct (List.filter _ (bb_operations b)) as [|first [|second others]] eqn:Hf; [done|..].
  - apply try_with_ok in H as [Hc ->]. destruct (Hindex _ Hc) as [Hi Hle].
    exists b, s2, first, committed, seed, miner. assert (Hin : first ∈ bb_operations b).
    { apply list_elem_of_In. eapply proj1, List.filter_In. rewrite Hf. by left. }
    split_and!; try done; rewrite Hf; [done|by intros only [= <-]].
  - apply eff_bind_ok in H as ([[winner rest]|] & s3 & Hw & H); [|done]. apply eff_bind_ok in H as ([another|] & s4 & _ & H); [done|].
    apply try_with_ok in H as [Hc ->]. destruct (Hindex _ Hc) as [Hi Hle].
    exists b, s2, winner, committed, seed, miner. apply next_signed_found in Hw as [before Hops]. split_and!; try done; rewrite ?Hf; try done. rewrite Hops. set_solver.
Qed.

(** A plan is for the Bitcoin block after the tip: its parent pointers are the height and the
    index of an operation in the parent's block, the only commitment to the parent's tenure
    where there is one; its seed is the hash of the parent's proof; and its modulus makes it
    count in the burn when it lands where it is meant to. *)
Theorem local_plan_spec key parent s plan s' : plan_local_commitment (E := E) key parent s = Some (Ok plan, s') ->
  let target := cp_target_bitcoin_height plan in
  let c := cp_commitment plan in
  target = cm_bitcoin_tip_height parent + 1 /\ target <= U64_MAX /\
  lc_new_seed c = sha512_256 (cm_tenure_vrf_proof parent) /\ lc_block_header_hash c = cm_tenure_start_block_id parent /\
  lc_parent_block_height c = si_bitcoin_height (cm_sortition parent) /\ lc_parent_block_height c <= U32_MAX /\ lc_parent_transaction_index c <= U16_MAX /\
  u8 (lc_parent_modulus c) = (target - 1) mod MINED_AT_MODULUS /\
  exists block s1 op, source_block_at (si_bitcoin_height (cm_sortition parent)) s = (Ok block, s1) /\ op ∈ bb_operations block /\
    lc_parent_transaction_index c = op_transaction_index op /\
    forall committed seed only, si_committed_block_hash (cm_sortition parent) = Some committed -> si_vrf_seed (cm_sortition parent) = Some seed ->
      List.filter (commits_to committed seed) (bb_operations block) = [only] -> op = only.
Proof.
  unfold plan_local_commitment. intros H. apply eff_bind_ok in H as (target & s1 & H1 & H). apply eff_bind_ok in H as (height & s2 & H2 & H).
  apply eff_bind_ok in H as (index & s3 & H3 & H). injection H as <- <-. apply try_with_ok in H1 as [H1 ->]. apply try_with_ok in H2 as [H2 ->].
  destruct (checked_add _ _ _) as [t|] eqn:Ht; [|done]. injection H1 as <-. apply checked_add_Some in Ht as [-> Hle].
  destruct (try_from _ _) as [h|] eqn:Hh; [|done]. injection H2 as <-. apply try_from_Some in Hh as [-> Hh].
  apply parent_index_inv in H3 as (block & s4 & op & committed & seed & miner & Hb & Hin & Hc & Hs & Hm & -> & Hu & _ & Honly). cbn.
  split_and!; try done.
  - rewrite u8_byte_of. replace (cm_bitcoin_tip_height parent + 1 - 1) with (cm_bitcoin_tip_height parent) by lia.
    unfold MINED_AT_MODULUS. pose proof (Z.mod_pos_bound (cm_bitcoin_tip_height parent) 5 ltac:(lia)). apply Z.mod_small. lia.
  - exists block, s4, op. split_and!; try done. intros committed' seed' only Hc' Hs' Hf. rewrite Hc in Hc'. rewrite Hs in Hs'. injection Hc' as <-. injection Hs' as <-. by apply Honly.
Qed.

End Plan.

(** ** The wallet *)

Section WalletTheorems.
Context `{HS : Hashes} `{ED : Edwards} `{BL : BitcoinLib} `{CO : BitcoinCore}.

Lemma rpc_ok {A} (call : Core -> result RpcError A * Core) c x c' : rpc call c = Some (Ok x, c') -> call c = (Ok x, c').
Proof. unfold rpc. destruct (call c) as [[y|e] d]; [by intros [= <- <-]|done]. Qed.

Lemma validate_funded_ok template funded position expected out : validate_funded_transaction template funded position expected = Ok out ->
  out = position /\ position = expected /\ 0 <= position /\ bt_input funded <> [] /\ exists change, bt_output funded = bt_output template ++ [change].
Proof.
  unfold validate_funded_transaction. case_bool_decide as Hin; [done|]. destruct (bool_decide _ && bool_decide _) eqn:Hpre; cbn [negb]; [|done].
  apply andb_true_iff in Hpre as [Hlen%bool_decide_eq_true Htake%bool_decide_eq_true].
  destruct (Z.eqb_spec position expected) as [->|]; cbn [negb orb]; [|done]. destruct (Z.eqb_spec (len (bt_output funded)) (len (bt_output template) + 1)) as [Hl|]; cbn [negb]; [|done].
  destruct (Z.ltb_spec expected 0); [done|]. intros [= <-]. split_and!; try done.
  assert (Hd : length (drop (length (bt_output template)) (bt_output funded)) = 1%nat) by (rewrite length_drop; lia).
  destruct (drop _ _) as [|change [|]] eqn:Hdrop; [done| |done]. exists change. rewrite <- Htake at 1. rewrite <- Hdrop. by rewrite take_drop.
Qed.

(** A transaction is sent only after the wallet funded the template with one output after the
    template's own, which it kept as they were, signed what it funded completely and the node
    admitted what it signed; the change of the submission is at the position after the
    protocol's outputs. *)
Theorem submitted_keeps_protocol_outputs template count fee_rate c submission c' :
  submit_protocol_transaction template count fee_rate c = Some (Ok submission, c') ->
  exists funded_tx fee c1 c2 c3 rest result change, 
    fund_raw_transaction template count fee_rate c = (Ok (mkFunded (Ok funded_tx) count fee), c1) /\
    bt_input funded_tx <> [] /\ bt_output funded_tx = bt_output template ++ [change] /\
    sign_raw_transaction_with_wallet funded_tx c1 = (Ok (mkSignedTx true (Ok (ws_transaction submission))), c2) /\
    test_mempool_accept (ws_transaction submission) c2 = (Ok (result :: rest), c3) /\ ac_allowed result = true /\
    send_raw_transaction (ws_transaction submission) c3 = (Ok (ws_transaction_id submission), c') /\
    ws_change_output submission = count /\ ws_fee submission = fee /\ 0 <= count <= I32_MAX.
Proof.
  unfold submit_protocol_transaction. intros H. apply eff_bind_ok in H as (position & c0 & H0 & H). apply try_with_ok in H0 as [H0 ->].
  destruct (try_from _ _) as [n|] eqn:Hn; [|done]. injection H0 as ->. apply try_from_Some in Hn as [-> Hn].
  apply eff_bind_ok in H as ([ft fpos fee] & c1 & H1 & H). apply rpc_ok in H1. cbn [ft_transaction ft_change_position ft_fee] in H.
  apply eff_bind_ok in H as (funded & c1' & H2 & H). apply try_with_ok in H2 as [-> ->]. apply eff_bind_ok in H as (out & c1' & H3 & H). apply try_with_ok in H3 as [H3 ->].
  apply validate_funded_ok in H3 as (-> & -> & Hp & Hin & change & Hout). apply eff_bind_ok in H as ([complete st] & c2 & H4 & H). apply rpc_ok in H4. cbn [st_complete st_transaction] in H.
  destruct complete; cbn [negb] in H; [|done]. apply eff_bind_ok in H as (tx & c2' & H5 & H). apply try_with_ok in H5 as [-> ->].
  apply eff_bind_ok in H as ([|result rest] & c3 & H6 & H); [done|]. apply rpc_ok in H6. destruct (ac_allowed result) eqn:Ha; cbn [negb] in H; [|done].
  apply eff_bind_ok in H as (id & c4 & H7 & H). apply rpc_ok in H7. injection H as <- <-. exists funded, fee, c1, c2, c3, rest, result, change. by split_and!.
Qed.

End WalletTheorems.

(** ** Proposals *)

Section Proposals.
Context `{HS : Hashes} `{SE : Secp256k1} `{ED : Edwards} `{CL : StackerDbClients} `{UP : !BlockUpload}.
Context (signer_set : list (Hash160 * Z)).

(** The accepted responses over a hash. *)
Definition accepts (hash : Sha256Sum) (bytes signature : list byte) : Prop :=
  exists response, SignerMessage.decode bytes = Some (Ok (SignerMessage.Response (Accepted response))) /\
    ba_signer_signature_hash response = hash /\ ba_signature response = signature.

Lemma accepted_signatures_from hash messages : forall signatures, accepted_signatures hash messages = Some (Ok signatures) ->
  Forall (fun signature => exists bytes, bytes ∈ messages /\ accepts hash bytes signature) signatures.
Proof.
  induction messages as [|bytes rest IH]; intros signatures; cbn [accepted_signatures]; [intros [= <-]; constructor|].
  destruct (SignerMessage.decode bytes) as [[message|]|] eqn:Hd; cbn [mbind option_bind]; [|done..].
  destruct (accepted_signatures hash rest) as [[others|]|]; cbn [mbind option_bind]; [|done..]. intros [= <-].
  assert (Hrest : Forall (fun signature => exists b, b ∈ bytes :: rest /\ accepts hash b signature) others).
  { eapply Forall_impl; [by apply IH|]. intros signature (b & Hb & Ha). exists b. split; [by right|done]. }
  destruct message as [|[response|]| | |]; try done. case_bool_decide as Hh; [|done]. constructor; [|done].
  exists bytes. split; [by left|]. by exists response.
Qed.

Hypothesis Hunique : NoDup signer_set.*1.
Hypothesis Hweights : Forall (fun w => is_u32 w) signer_set.*2.

(** The signatures [response_signatures] returns are of messages that accept the proposed
    block, and the block [finalize_block] makes of them is the proposed block with a
    signer set's approval: its identifier and transactions are the proposal's and its
    signatures verify against the set. *)
Lemma finalized_approved p messages signatures : response_signatures p signer_set messages = Some (Ok signatures) ->
  let block := finalize_block p signatures in
  (exists weight, SignerWeights.verify signer_set (bl_header block) = Some (Ok weight)) /\
  block_id block = block_id (bp_block p) /\ bl_transactions block = bl_transactions (bp_block p) /\
  exists hash, signer_signature_hash (bl_header (bp_block p)) = Some hash /\
    Forall (fun signature => exists bytes, bytes ∈ messages /\ accepts hash bytes signature) signatures.
Proof.
  unfold response_signatures. destruct (signer_signature_hash _) as [hash|]; cbn [mbind option_bind]; [|done].
  destruct (accepted_signatures hash messages) as [[accepted|]|] eqn:Ha; cbn [mbind option_bind]; [|done..].
  destruct (SignerWeights.order_responses _ _ _) as [[ordered|]|] eqn:Ho; cbn [mbind option_bind map_err]; [|done..]. intros [= ->].
  apply (order_responses_spec signer_set Hunique Hweights) in Ho as (Hp & w & Hv). split_and!; [by exists w|done..|].
  exists hash. split; [done|]. apply accepted_signatures_from in Ha. by rewrite Hp.
Qed.

(** One message that does not decode, in whatever slot, leaves the miner without the
    signatures of all the others. *)
Theorem undecodable_response_blocks p messages bytes e signatures : bytes ∈ messages -> SignerMessage.decode bytes = Some (Err e) ->
  response_signatures p signer_set messages <> Some (Ok signatures).
Proof.
  intros Hin Hd. unfold response_signatures. destruct (signer_signature_hash _) as [hash|]; cbn [mbind option_bind]; [|done].
  assert (Hbad : forall accepted, accepted_signatures hash messages <> Some (Ok accepted)).
  { clear Hunique Hweights. induction messages as [|b rest IH]; intros accepted; [by apply not_elem_of_nil in Hin|]. cbn [accepted_signatures].
    apply elem_of_cons in Hin as [<-|Hin]; [by rewrite Hd|]. destruct (SignerMessage.decode b) as [[m|]|]; cbn [mbind option_bind]; [|done..].
    destruct (accepted_signatures hash rest) as [[others|]|] eqn:Hr; cbn [mbind option_bind]; [|done..]. by destruct (IH Hin others). }
  destruct (accepted_signatures hash messages) as [[accepted|]|] eqn:Ha; cbn [mbind option_bind]; [|done..]. by destruct (Hbad accepted).
Qed.

(** C13: finalize_and_submit uploads a block only with an approval: the block it
    returns is the one it uploaded, the proposed block with its identifier and
    transactions, under signatures of messages the signers' slots held that accept its
    hash, and its signer set's verification accepts them. *)
Theorem submitted_block_approved c p node n block n' : finalize_and_submit c p signer_set node n = Some (Ok block, n') ->
  block_id block = block_id (bp_block p) /\ bl_transactions block = bl_transactions (bp_block p) /\
  (exists weight, SignerWeights.verify signer_set (bl_header block) = Some (Ok weight)) /\
  exists slots messages n0 n1 n2 n3 hash, slot_versions (pc_client c) (pc_signer_contract c) n = (Ok slots, n0) /\
    read_slots (pc_client c) (pc_signer_contract c) slots n0 = Some (Ok messages, n1) /\ upload_block node block n1 = (Ok tt, n2) /\
    signer_signature_hash (bl_header (bp_block p)) = Some hash /\
    Forall (fun signature => exists bytes, bytes ∈ messages.*2 /\ accepts hash bytes signature) (hd_signer_signatures (bl_header block)) /\
    exists ack, publish_block c block n2 = Some (Ok ack, n3).
Proof.
  unfold finalize_and_submit. intros H. apply eff_bind_ok in H as (signatures & n1 & Hc & H). unfold collect_signatures in Hc.
  apply eff_bind_ok in Hc as (slots & n0 & H0 & Hc). apply eff_bind_ok in Hc as (messages & n1' & H1 & Hc). apply eff_bind_ok in Hc as (r & n1'' & Hr & Hc).
  apply try_with_ok in Hc as [-> ->]. unfold unwrap in Hr. destruct (response_signatures _ _ _) as [r|] eqn:Hs; [|done]. injection Hr as -> <-.
  apply finalized_approved in Hs as (Hw & Hid & Htx & hash & Hh & Hall). apply eff_bind_ok in H as ([] & n2 & Hu & H). apply eff_bind_ok in H as (ack & n3 & Hp & H). injection H as <- <-.
  unfold db in H0. destruct (slot_versions _ _ _) as [[s|] d] eqn:Hsl; [|done]. injection H0 as -> ->.
  destruct (upload_block _ _ _) as [[[]|] d'] eqn:Hup; [|done]. injection Hu as ->.
  split_and!; [done..|]. exists slots, messages, n0, n1', n2, n3, hash. split_and!; [done..|by exists ack].
Qed.

End Proposals.

(** ** What the signers announce *)

Section Announcements.
Context `{HS : Hashes} `{SE : Secp256k1} `{ED : Edwards} `{CL : StackerDbClients} `{UP : !BlockUpload}.
Context (expected : ConsensusHash) (miner_hash : Hash160) (signer_set : SignerWeights.t) (all : list (Z * list byte)).

(** The message of the slot announces this miner. *)
Definition announced (miner : CurrentMiner) (slot : Z) : Prop :=
  exists bytes update, (slot, bytes) ∈ all /\ SignerMessage.decode bytes = Some (Ok (SignerMessage.Update update)) /\ su_current_miner update = miner.

Definition weight_of_slot (slot : Z) : Z := default 0 (snd <$> signer_set !! Z.to_nat slot).

(** Every total is of distinct slots that were counted. *)
Definition counts (counted : gset Z) (announcement : CurrentMiner * Z) : Prop :=
  (exists parent last height, announcement.1 = ActiveMiner miner_hash expected parent last height) /\
  exists slots, NoDup slots /\ Forall (fun slot => slot ∈ counted /\ announced announcement.1 slot) slots /\ announcement.2 = zsum (map weight_of_slot slots).

Lemma counts_more counted counted' announcement : counted ⊆ counted' -> counts counted announcement -> counts counted' announcement.
Proof. intros Hsub (Hm & slots & Hn & Hall & Hw). split; [done|]. exists slots. split_and!; [done| |done]. eapply Forall_impl; [exact Hall|]. intros slot [? ?]. split; [set_solver|done]. Qed.

Lemma announce_weight_counts counted slot miner announcements announcements' : Forall (counts counted) announcements -> slot ∉ counted -> announced miner slot ->
  (exists parent last height, miner = ActiveMiner miner_hash expected parent last height) ->
  announce_weight (UP := UP) miner (weight_of_slot slot) announcements = Ok announcements' -> Forall (counts ({[slot]} ∪ counted)) announcements'.
Proof.
  intros Hc Hs Ha Hm. assert (Hmore : Forall (counts ({[slot]} ∪ counted)) announcements) by (eapply Forall_impl; [exact Hc|]; intros ?; apply counts_more; set_solver).
  revert announcements'. induction Hc as [|[seen total] rest Hx Hrest IH]; intros announcements'; cbn [announce_weight].
  - intros [= <-]. repeat constructor; [done|]. exists [slot]. split_and!; [apply NoDup_singleton| |cbn; lia]. repeat constructor; [set_solver|done].
  - apply Forall_cons in Hmore as [Hx' Hmore]. destruct (decide (seen = miner)) as [->|].
    + destruct (checked_add _ _ _) as [sum|] eqn:Hsum; [|done]. apply checked_add_Some in Hsum as [-> _]. intros [= <-]. constructor; [|done].
      destruct Hx as (_ & slots & Hn & Hall & Hw). split; [done|]. exists (slot :: slots). cbn in Hw. split_and!.
      * constructor; [|done]. intros Hin. rewrite Forall_forall in Hall. by destruct (Hall _ Hin).
      * constructor; [split; [set_solver|done]|]. eapply Forall_impl; [exact Hall|]. intros ? [? ?]. split; [set_solver|done].
      * cbn. rewrite Hw. lia.
    + destruct (announce_weight miner _ rest) as [others|]; [|done]. intros [= <-]. constructor; [done|]. by apply IH.
Qed.

Lemma count_announcements_counts messages : forall counted announcements r, Forall (fun m => m ∈ all) messages -> Forall (counts counted) announcements ->
  count_announcements (UP := UP) expected miner_hash signer_set messages counted announcements = Some (Ok r) -> exists counted', Forall (counts counted') r.
Proof.
  induction messages as [|[slot bytes] rest IH]; intros counted announcements r Hall Hc; cbn [count_announcements]; [intros [= <-]; by exists counted|].
  apply Forall_cons in Hall as [Hin Hall]. destruct (signer_set !! Z.to_nat slot) as [[signer w]|] eqn:Hw; [|by apply IH]. case_bool_decide as Hs; [by apply IH|].
  assert (Hmore : Forall (counts ({[slot]} ∪ counted)) announcements) by (eapply Forall_impl; [exact Hc|]; intros ?; apply counts_more; set_solver).
  destruct (SignerMessage.decode bytes) as [[message|]|] eqn:Hd; cbn [mbind option_bind]; [|by apply IH|done].
  destruct message as [| | |update|]; try by apply IH. destruct (su_current_miner update) as [|key tenure parent last height] eqn:Hm; [by apply IH|].
  destruct (negb _ || negb _) eqn:Hg; [by apply IH|]. apply orb_false_iff in Hg as [H1%negb_false_iff%bool_decide_eq_true H2%negb_false_iff%bool_decide_eq_true]. subst tenure key.
  destruct (announce_weight _ _ _) as [announcements'|] eqn:Ha; [|done]. apply IH; [done|].
  assert (Hsw : w = weight_of_slot slot) by (unfold weight_of_slot; by rewrite Hw). rewrite Hsw in Ha.
  eapply (announce_weight_counts _ _ (ActiveMiner miner_hash expected parent last height)); [exact Hc|done| |by do 3 eexists|exact Ha].
  by exists bytes, update.
Qed.

Lemma heaviest_in l v : heaviest_miner l = Some v -> v ∈ l /\ Forall (fun x => x.2 <= v.2) l.
Proof.
  revert v. unfold heaviest_miner. induction l as [|x l IH] using rev_ind; intros v; [done|]. rewrite foldl_snoc. destruct (foldl _ None l) as [b|] eqn:Hb.
  - destruct (IH b eq_refl) as [Hin Hall]. destruct (Z.ltb_spec x.2 b.2); intros [= <-]; rewrite elem_of_app, Forall_app.
    + split; [by left|]. split; [done|]. constructor; [lia|done].
    + split; [right; by apply list_elem_of_singleton|]. split; [|constructor; [lia|done]]. eapply Forall_impl; [exact Hall|]. cbn. lia.
  - intros [= <-]. destruct l as [|y l] using rev_ind; [|clear IHl; rewrite foldl_snoc in Hb; destruct (foldl _ None l) as [b'|]; [destruct (_ <? _) in Hb|]; discriminate Hb].
    split; [by apply list_elem_of_singleton|]. repeat constructor. lia.
Qed.

(** The readiness the miner waits for is announced by distinct slots, whose signers weigh
    exactly what it says: each announces this miner in the expected tenure, on the same last
    block of the parent tenure. *)
Theorem readiness_is_announced readiness : announced_signer_state (UP := UP) expected miner_hash signer_set all = Some (Ok (Some readiness)) ->
  exists slots parent, NoDup slots /\ sr_weight readiness = zsum (map weight_of_slot slots) /\
    Forall (announced (ActiveMiner miner_hash expected parent (sr_parent_tenure_last_block readiness) (sr_parent_tenure_last_block_height readiness))) slots.
Proof.
  unfold announced_signer_state. destruct (count_announcements _ _ _ _ _ _) as [[announcements|]|] eqn:Hc; cbn [mbind option_bind]; [|done..]. intros [= H].
  apply count_announcements_counts in Hc as [counted Hcounts]; [|by apply Forall_forall|constructor].
  destruct (heaviest_miner announcements) as [[[|key tenure parent last height] w]|] eqn:Hh; [done| |done]. injection H as <-. apply heaviest_in in Hh as [Hin _].
  rewrite Forall_forall in Hcounts. destruct (Hcounts _ Hin) as ((p & l & h & [= -> -> -> -> ->]) & slots & Hn & Hall & Hw). exists slots, p. cbn in *. split_and!; [done..|].
  eapply Forall_impl; [exact Hall|]. by intros ? [_ ?].
Qed.

End Announcements.
