(* ===== verification/BlockRules.v ===== *)
(** * What a block says about itself: [crates/nano-chainstate/src/authenticate.rs]

    The rules a block satisfies before any of it runs, from the block and the
    chain's identity alone; the miner's key against the sortition's winner; and
    the kind of a refusal ([src/decision.rs], [consensus_kind]). *)

From S2P Require Import Prelude Primitives CodecIO Crypto TxData TxCodec TxAuth Nakamoto Signers SortitionRules.

Module ConsensusError.

Inductive t : Type :=
| HeaderVersion (version : byte)
| EmptyBlock
| TransactionNetwork (txid : Sha256Sum)
| TransactionChainId (txid : Sha256Sum) (chain_id : Z)
| TransactionAnchorMode (txid : Sha256Sum)
| CoinbaseWithoutVrfProof (txid : Sha256Sum)
| TenureTransactionCount (coinbases tenure_changes : nat)
| CoinbaseWithoutTenureChange
| TenureTransactionPosition (tenure_change : nat) (coinbase : option nat)
| TenureChangeCause (cause : TenureChangeCause.t)
| TenureChangeParent
| TenureChangeConsensusHash
| TenureChangePreviousTenure
| TenureChangeParentTenure
| TenureChangeParentUnavailable
| TenureChangeLengthUnavailable
| TenureChangeBlockCount (claimed executed : Z)
| MinerSignatureUnrecoverable
| TenureChangeMinerKey
| MinerIsNotTheSortitionWinner (registered signed : Hash160)
| WinnerVrfKeyUnavailable
| WinnerSigningKeyUnavailable
| ProblematicMarkerCount (markers : Z)
| ProblematicMarkerOrder (index : Z)
| ProblematicMarkerOutOfBounds (index : Z)
| ProblematicMarkerTarget (index : Z)
| SignerWeight (e : SignerSetError)
| SignerSetUnavailable (cycle : Z)
| BitcoinSpent (header derived : Z).

End ConsensusError.

(** [crates/nano-consensus-profile]. *)
Definition NAKAMOTO_BLOCK_VERSION : Z := 1.
Definition admits_nakamoto_block_version (version : byte) : bool := Z.land (u8 version) 0x7f =? NAKAMOTO_BLOCK_VERSION.

Definition MAX_PROBLEMATIC_TRANSACTION_MARKERS : Z := (2 * 1024 * 1024) / 180.

Inductive Signatures : Type := Present | Pending.

#[global] Instance Signatures_eq_dec : EqDecision Signatures. Proof. solve_decision. Defined.

Definition any_coinbase (payload : TransactionPayloadData) : bool :=
  match payload with Coinbase _ | CoinbaseToAltRecipient _ _ | NakamotoCoinbase _ _ _ => true | _ => false end.

Definition a_tenure_change (payload : TransactionPayloadData) : bool := match payload with TenureChange _ => true | _ => false end.

Definition tx_data (transaction : Transaction) : TransactionPayloadData := pl_data (tx_payload transaction).

(** [Iterator::find_map]. *)
Definition find_map {A B} (f : A -> option B) (l : list A) : option B := head (omap f l).

Definition tenure_change_payload (block : NakamotoBlock) : option TenureChangePayload :=
  find_map (fun transaction => match tx_data transaction with TenureChange payload => Some payload | _ => None end) (bl_transactions block).

Section Rules.
Context `{HS : Hashes} `{SE : Secp256k1}.

Definition recovered_miner_key_hash (header : NakamotoBlockHeader) : option (result ConsensusError.t Hash160) :=
  digest ← miner_signature_hash header;
  Some (match MessageSignature.recover (hd_miner_signature header) digest with
        | Err _ => Err ConsensusError.MinerSignatureUnrecoverable
        | Ok public_key => Ok (hash160 (StacksPublicKey.to_bytes_compressed public_key))
        end).

Definition check_tenure_change_miner (block : NakamotoBlock) : option (result ConsensusError.t unit) :=
  match tenure_change_payload block with
  | None => Some (Ok tt)
  | Some payload =>
      signed ← recovered_miner_key_hash (bl_header block);
      Some (let? signed := signed in if bool_decide (public_key_hash payload = signed) then Ok tt else Err ConsensusError.TenureChangeMinerKey)
  end.

(** The identifier is computed where the check fails. *)
Definition check_transaction (transaction : Transaction) (network : Network.t) : option (result ConsensusError.t unit) :=
  let refuse (error : Sha256Sum -> ConsensusError.t) : option (result ConsensusError.t unit) := txid ← txid transaction; Some (Err (error txid)) in
  let mainnet := match tx_version transaction with TransactionVersion.Mainnet => true | TransactionVersion.Testnet => false end in
  if negb (Bool.eqb mainnet (Network.is_mainnet network)) then refuse ConsensusError.TransactionNetwork else
  if negb (tx_chain_id transaction =? Network.chain_id network) then refuse (fun txid => ConsensusError.TransactionChainId txid (tx_chain_id transaction)) else
  if match tx_anchor_mode transaction with AnchorMode.OffChainOnly => true | _ => false end then refuse ConsensusError.TransactionAnchorMode else
  match tx_data transaction with
  | Coinbase _ | CoinbaseToAltRecipient _ _ => refuse ConsensusError.CoinbaseWithoutVrfProof
  | _ => Some (Ok tt)
  end.

Fixpoint check_transactions (transactions : list Transaction) (network : Network.t) : option (result ConsensusError.t unit) :=
  match transactions with
  | [] => Some (Ok tt)
  | transaction :: rest =>
      r ← check_transaction transaction network;
      match r with Err e => Some (Err e) | Ok _ => check_transactions rest network end
  end.

(** The closure [position]: the indices, counted from the first, that are wanted. *)
Fixpoint positions (wanted : TransactionPayloadData -> bool) (index : nat) (transactions : list Transaction) : list nat :=
  match transactions with
  | [] => []
  | transaction :: rest => (if wanted (tx_data transaction) then [index] else []) ++ positions wanted (S index) rest
  end.

Definition check_tenure_transactions (block : NakamotoBlock) : result ConsensusError.t unit :=
  let coinbases := positions any_coinbase 0 (bl_transactions block) in
  let tenure_changes := positions a_tenure_change 0 (bl_transactions block) in
  if (1 <? length coinbases)%nat || (1 <? length tenure_changes)%nat then Err (ConsensusError.TenureTransactionCount (length coinbases) (length tenure_changes)) else
  let coinbase := head coinbases in
  match head tenure_changes with
  | None => if bool_decide (is_Some coinbase) then Err ConsensusError.CoinbaseWithoutTenureChange else Ok tt
  | Some tenure_change =>
      let? payload := or_err (tenure_change_payload block) (ConsensusError.TenureTransactionPosition tenure_change coinbase) in
      let expected_coinbase := if bool_decide (cause payload = TenureChangeCause.BlockFound) then Some 1%nat else None in
      if negb (tenure_change =? 0)%nat || negb (bool_decide (coinbase = expected_coinbase)) then
        if Bool.eqb (bool_decide (is_Some coinbase)) (bool_decide (is_Some expected_coinbase)) then Err (ConsensusError.TenureTransactionPosition tenure_change coinbase)
        else Err (ConsensusError.TenureChangeCause (cause payload))
      else
      if negb (bool_decide (previous_tenure_end payload = hd_parent_block_id (bl_header block))) then Err ConsensusError.TenureChangeParent else
      if negb (bool_decide (tenure_consensus_hash payload = hd_consensus_hash (bl_header block))) then Err ConsensusError.TenureChangeConsensusHash else
      let extends := bool_decide (previous_tenure_consensus_hash payload = tenure_consensus_hash payload) in
      if negb (Bool.eqb extends (negb (bool_decide (cause payload = TenureChangeCause.BlockFound)))) then Err ConsensusError.TenureChangePreviousTenure else
      Ok tt
  end.

(** The loop of [check_problematic_markers]. *)
Fixpoint check_markers (transactions : list Transaction) (markers : list ProblematicTransaction) (previous : option Z) : result ConsensusError.t unit :=
  match markers with
  | [] => Ok tt
  | marker :: rest =>
      let index := pt_index marker in
      if match previous with Some previous => index <=? previous | None => false end then Err (ConsensusError.ProblematicMarkerOrder index) else
      let? transaction := or_err (transactions !! Z.to_nat index) (ConsensusError.ProblematicMarkerOutOfBounds index) in
      if any_coinbase (tx_data transaction) || a_tenure_change (tx_data transaction) then Err (ConsensusError.ProblematicMarkerTarget index) else
      check_markers transactions rest (Some index)
  end.

Definition check_problematic_markers (block : NakamotoBlock) : result ConsensusError.t unit :=
  let markers := hd_problematic_transactions (bl_header block) in
  if MAX_PROBLEMATIC_TRANSACTION_MARKERS <? len markers then Err (ConsensusError.ProblematicMarkerCount (len markers)) else
  check_markers (bl_transactions block) markers None.

Definition authenticate_block (block : NakamotoBlock) (network : Network.t) (signatures : Signatures) : option (result ConsensusError.t unit) :=
  if negb (admits_nakamoto_block_version (hd_version (bl_header block))) then Some (Err (ConsensusError.HeaderVersion (hd_version (bl_header block)))) else
  if bool_decide (signatures = Present) && bool_decide (bl_transactions block = []) then Some (Err ConsensusError.EmptyBlock) else
  transactions ← check_transactions (bl_transactions block) network;
  match (let? _ := transactions in let? _ := check_problematic_markers block in check_tenure_transactions block) with
  | Err e => Some (Err e)
  | Ok _ => if bool_decide (signatures = Present) then check_tenure_change_miner block else Some (Ok tt)
  end.

Definition verify_miner_signature (header : NakamotoBlockHeader) (signing_key_hash : Hash160) : option (result ConsensusError.t unit) :=
  signed ← recovered_miner_key_hash header;
  Some (let? signed := signed in
        if bool_decide (signed = signing_key_hash) then Ok tt else Err (ConsensusError.MinerIsNotTheSortitionWinner signing_key_hash signed)).

(** [find_map]: the first registration of the key that names a signing key. *)
Definition registered_signing_key_hash (operations : list BitcoinOperation) (vrf_public_key : list byte) : option (list byte) :=
  find_map (fun operation => match op_kind operation with
    | LeaderKeyRegistrationOp _ registered block_signing_key_hash _ => if bool_decide (registered = vrf_public_key) then block_signing_key_hash else None
    | _ => None end) operations.

End Rules.

(** ** The kind of a refusal *)

Inductive RefusalKind : Type :=
| Envelope | TenureContinuity | MinerAuthentication | SignerWeightKind | SignerSetKind | VrfProofKind | TransactionKind | ExecutionKind
| StateRootMismatchKind | StorageKind | ParentMismatchKind.

#[global] Instance RefusalKind_eq_dec : EqDecision RefusalKind. Proof. solve_decision. Defined.

Definition consensus_kind (error : ConsensusError.t) : RefusalKind :=
  match error with
  | ConsensusError.HeaderVersion _ | ConsensusError.EmptyBlock | ConsensusError.TransactionNetwork _ | ConsensusError.TransactionChainId _ _
  | ConsensusError.TransactionAnchorMode _ | ConsensusError.CoinbaseWithoutVrfProof _ | ConsensusError.TenureTransactionCount _ _
  | ConsensusError.CoinbaseWithoutTenureChange | ConsensusError.TenureTransactionPosition _ _ | ConsensusError.ProblematicMarkerCount _
  | ConsensusError.ProblematicMarkerOrder _ | ConsensusError.ProblematicMarkerOutOfBounds _ | ConsensusError.ProblematicMarkerTarget _
  | ConsensusError.BitcoinSpent _ _ => Envelope
  | ConsensusError.TenureChangeCause _ | ConsensusError.TenureChangeParent | ConsensusError.TenureChangeConsensusHash | ConsensusError.TenureChangePreviousTenure
  | ConsensusError.TenureChangeParentTenure | ConsensusError.TenureChangeParentUnavailable | ConsensusError.TenureChangeLengthUnavailable
  | ConsensusError.TenureChangeBlockCount _ _ => TenureContinuity
  | ConsensusError.MinerSignatureUnrecoverable | ConsensusError.TenureChangeMinerKey | ConsensusError.MinerIsNotTheSortitionWinner _ _
  | ConsensusError.WinnerVrfKeyUnavailable | ConsensusError.WinnerSigningKeyUnavailable => MinerAuthentication
  | ConsensusError.SignerWeight _ => SignerWeightKind
  | ConsensusError.SignerSetUnavailable _ => SignerSetKind
  end.
