(* ===== verification/BlockRulesTheorems.v ===== *)
(** * Which blocks the rules accept

    [authenticate_block] accepts exactly the blocks a declarative description says:
    of the epoch's version, whose transactions are all of this chain, whose markers
    point forward at transactions a replay may skip, and whose tenure change and
    coinbase, where they are present, come first and agree with the header. *)

From stdpp Require Import sorting.
From S2P Require Import Prelude Primitives CodecIO Crypto TxData TxCodec TxAuth Nakamoto Signers SortitionRules Effects EmbeddedSigner Miner BlockRules.

(** ** Positions *)

Lemma positions_nil wanted txs : forall i, positions wanted i txs = [] <-> Forall (fun tx => wanted (tx_data tx) = false) txs.
Proof.
  induction txs as [|tx txs IH]; intros i; cbn [positions]; [by split|]. rewrite Forall_cons, <- (IH (S i)).
  destruct (wanted (tx_data tx)); cbn; [split; [done|by intros [? _]]|tauto].
Qed.

(** One transaction is wanted, and where it is. *)
Lemma positions_one wanted txs : forall i j, positions wanted i txs = [j] <->
  exists before tx after, txs = before ++ tx :: after /\ j = (i + length before)%nat /\ wanted (tx_data tx) = true /\
    Forall (fun tx => wanted (tx_data tx) = false) before /\ Forall (fun tx => wanted (tx_data tx) = false) after.
Proof.
  induction txs as [|tx txs IH]; intros i j; cbn [positions].
  - split; [done|]. intros ([|? ?] & ? & ? & ? & _); discriminate.
  - destruct (wanted (tx_data tx)) eqn:Hw; cbn [app].
    + split.
      * intros [= <- Hn]. apply positions_nil in Hn. exists [], tx, txs. rewrite Nat.add_0_r. by split_and!.
      * intros ([|b before] & x & after & Heq & -> & Hx & Hb & Ha); [|injection Heq as <- _; apply Forall_cons in Hb as [Hb _]; congruence].
        injection Heq as <- <-. rewrite Nat.add_0_r. f_equal. by apply positions_nil.
    + rewrite IH. split.
      * intros (before & x & after & -> & -> & Hx & Hb & Ha). exists (tx :: before), x, after. cbn. split_and!; [done|lia|done|by constructor|done].
      * intros ([|b before] & x & after & Heq & -> & Hx & Hb & Ha); [injection Heq as <- _; congruence|]. injection Heq as <- ->. apply Forall_cons in Hb as [_ Hb].
        exists before, x, after. cbn. split_and!; [done|lia|done..].
Qed.

(** ** The shape of a tenure's transactions *)

(** Neither a coinbase nor a tenure change. *)
Definition plain (tx : Transaction) : Prop := any_coinbase (tx_data tx) = false /\ a_tenure_change (tx_data tx) = false.

(** The tenure change agrees with the header it came with. *)
Definition change_matches (h : NakamotoBlockHeader) (payload : TenureChangePayload) : Prop :=
  previous_tenure_end payload = hd_parent_block_id h /\ tenure_consensus_hash payload = hd_consensus_hash h.

Inductive tenure_shape (h : NakamotoBlockHeader) : list Transaction -> Prop :=
| shape_within txs : Forall plain txs -> tenure_shape h txs
| shape_start change coinbase rest payload : tx_data change = TenureChange payload -> cause payload = TenureChangeCause.BlockFound ->
    any_coinbase (tx_data coinbase) = true -> Forall plain rest -> change_matches h payload ->
    previous_tenure_consensus_hash payload <> tenure_consensus_hash payload -> tenure_shape h (change :: coinbase :: rest)
| shape_extend change rest payload : tx_data change = TenureChange payload -> cause payload <> TenureChangeCause.BlockFound ->
    Forall plain rest -> change_matches h payload ->
    previous_tenure_consensus_hash payload = tenure_consensus_hash payload -> tenure_shape h (change :: rest).

Lemma coinbase_not_change data : any_coinbase data = true -> a_tenure_change data = false.
Proof. by destruct data. Qed.

Lemma change_payload data : a_tenure_change data = true <-> exists payload, data = TenureChange payload.
Proof. split; [destruct data; try discriminate; by eexists|by intros [? ->]]. Qed.

Lemma payload_first change rest payload : tx_data change = TenureChange payload ->
  head (omap (fun tx => match tx_data tx with TenureChange payload => Some payload | _ => None end) (change :: rest)) = Some payload.
Proof. intros H. cbn. by rewrite H. Qed.

Lemma Forall_plain txs : Forall plain txs <-> Forall (fun tx => any_coinbase (tx_data tx) = false) txs /\ Forall (fun tx => a_tenure_change (tx_data tx) = false) txs.
Proof. unfold plain. by rewrite Forall_and. Qed.

Lemma shape_positions h txs : tenure_shape h txs ->
  (positions any_coinbase 0 txs = [] /\ positions a_tenure_change 0 txs = []) \/
  (exists change payload rest, txs = change :: rest /\ tx_data change = TenureChange payload /\ positions a_tenure_change 0 txs = [0%nat] /\
    positions any_coinbase 0 txs = (if bool_decide (cause payload = TenureChangeCause.BlockFound) then [1%nat] else []) /\ change_matches h payload /\
    (previous_tenure_consensus_hash payload = tenure_consensus_hash payload <-> cause payload <> TenureChangeCause.BlockFound)).
Proof.
  intros [txs' Hp|change coinbase rest payload Hc Hb Hk Hp Hm Hne|change rest payload Hc Hb Hp Hm He].
  - left. apply Forall_plain in Hp as [H1 H2]. by split; apply positions_nil.
  - right. apply Forall_plain in Hp as [H1 H2]. exists change, payload, (coinbase :: rest). split_and!; try done.
    + apply positions_one. exists [], change, (coinbase :: rest). rewrite Hc. split_and!; try done. constructor; [by apply coinbase_not_change|done].
    + rewrite bool_decide_eq_true_2 by done. apply positions_one. exists [change], coinbase, rest. split_and!; try done. repeat constructor. by rewrite Hc.
  - right. apply Forall_plain in Hp as [H1 H2]. exists change, payload, rest. split_and!; try done.
    + apply positions_one. exists [], change, rest. rewrite Hc. by split_and!.
    + rewrite bool_decide_eq_false_2 by done. apply positions_nil. constructor; [by rewrite Hc|done].
Qed.

Lemma check_tenure_complete block : tenure_shape (bl_header block) (bl_transactions block) -> check_tenure_transactions block = Ok tt.
Proof.
  intros Hs%shape_positions. unfold check_tenure_transactions. destruct Hs as [[-> ->]|(change & payload & rest & Htx & Hd & -> & -> & [He Hch] & Hiff)]; [done|].
  unfold tenure_change_payload, find_map. rewrite Htx, (payload_first _ _ _ Hd). cbn [or_err head]. rewrite He, Hch in *.
  rewrite (bool_decide_eq_true_2 (hd_parent_block_id _ = _)), (bool_decide_eq_true_2 (hd_consensus_hash _ = hd_consensus_hash _)) by done.
  destruct (decide (cause payload = TenureChangeCause.BlockFound)) as [Hb|Hb].
  - rewrite (bool_decide_eq_true_2 (cause _ = _)) by done. repeat (case_bool_decide || cbn || done); tauto.
  - rewrite (bool_decide_eq_false_2 (cause _ = _)) by done. repeat (case_bool_decide || cbn || done); tauto.
Qed.

Lemma positions_below wanted txs i j : j ∈ positions wanted i txs -> (i <= j)%nat.
Proof.
  revert i. induction txs as [|tx txs IH]; intros i; cbn [positions]; [by intros ?%not_elem_of_nil|]. rewrite elem_of_app. intros [H|H%IH]; [|lia].
  destruct (wanted _); [apply list_elem_of_singleton in H; lia|by apply not_elem_of_nil in H].
Qed.

Lemma check_tenure_sound block : check_tenure_transactions block = Ok tt -> tenure_shape (bl_header block) (bl_transactions block).
Proof.
  unfold check_tenure_transactions. destruct (positions any_coinbase 0 (bl_transactions block)) as [|c [|]] eqn:Hcb; cbn [length Nat.ltb Nat.leb orb head]; [| |done].
  - destruct (positions a_tenure_change 0 (bl_transactions block)) as [|t [|]] eqn:Htc; cbn [length Nat.ltb Nat.leb orb head]; [| |done].
    + intros _. apply shape_within, Forall_plain. split; by eapply positions_nil.
    + apply positions_one in Htc as ([|? before] & change & after & Htx & -> & Hd & Hbefore & Hafter);
        [|destruct (tenure_change_payload block); cbn; repeat case_match; done].
      apply change_payload in Hd as [payload Hd]. cbn [app] in Htx. unfold tenure_change_payload, find_map. rewrite Htx, (payload_first _ _ _ Hd). cbn [or_err length Nat.add Nat.eqb negb orb].
      destruct (bool_decide (cause payload = _)) eqn:Hb; [repeat case_match; done|]. apply bool_decide_eq_false in Hb. rewrite bool_decide_eq_true_2 by done. cbn [negb].
      case_bool_decide as H1; [|done]. cbn [negb]. case_bool_decide as H2; [|done]. cbn [negb]. case_bool_decide as H3; [|done]. intros _.
      apply (shape_extend _ _ _ payload); [done..| |by split|done]. apply Forall_plain. split; [|done]. rewrite Htx in Hcb. cbn [positions app] in Hcb. rewrite Hd in Hcb. cbn in Hcb. by eapply positions_nil.
  - destruct (positions a_tenure_change 0 (bl_transactions block)) as [|t [|]] eqn:Htc; cbn [length Nat.ltb Nat.leb orb head]; [| |done]; [done|].
    destruct (tenure_change_payload block) as [payload|] eqn:Hpay; cbn [or_err]; [|done].
    destruct (bool_decide (cause payload = _)) eqn:Hb; [|rewrite (bool_decide_eq_false_2 (Some c = None)), orb_true_r by done; repeat case_match; done]. apply bool_decide_eq_true in Hb.
    destruct (Nat.eqb_spec t 0) as [->|]; cbn [negb orb]; [|repeat case_match; done]. case_bool_decide as Hc; cbn [negb]; [|repeat case_match; done]. injection Hc as ->.
    apply positions_one in Htc as ([|? before] & change & after & Htx & Hj & Hd & _ & Hafter); [|cbn in Hj; lia].
    apply change_payload in Hd as [payload' Hd]. unfold tenure_change_payload, find_map in Hpay. cbn [app] in Htx. rewrite Htx, (payload_first _ _ _ Hd) in Hpay. injection Hpay as ->.
    case_bool_decide as H1; [|done]. cbn [negb]. case_bool_decide as H2; [|done]. cbn [negb]. case_bool_decide as H3; [done|]. intros _.
    apply positions_one in Hcb as ([|? [|]] & coinbase & rest & Htx' & Hj' & Hk & _ & Hrest); try (cbn in Hj'; lia).
    rewrite Htx in Htx'. injection Htx' as <- ->. rewrite Htx. apply Forall_cons in Hafter as [_ Hafter]. apply (shape_start _ _ _ _ payload); [done..|by apply Forall_plain|by split|done].
Qed.

(** ** Markers and transactions *)

(** The markers point forward, each at a transaction a replay may skip. *)
Definition markers_ok (txs : list Transaction) (markers : list ProblematicTransaction) : Prop :=
  StronglySorted Z.lt (map pt_index markers) /\
  Forall (fun marker => exists tx, txs !! Z.to_nat (pt_index marker) = Some tx /\ plain tx) markers.

Lemma check_markers_ok txs markers : forall previous, check_markers txs markers previous = Ok tt <->
  markers_ok txs markers /\ match previous with Some p => Forall (fun marker => p < pt_index marker) markers | None => True end.
Proof.
  induction markers as [|marker rest IH]; intros previous; cbn [check_markers map].
  - split; [|done]. intros _. split; [split; constructor|]. destruct previous; [constructor|done].
  - unfold markers_ok in *. cbn [map]. rewrite Forall_cons. split.
    + destruct (match previous with Some p => pt_index marker <=? p | None => false end) eqn:Hp; [done|].
      destruct (txs !! Z.to_nat (pt_index marker)) as [tx|] eqn:Htx; cbn [or_err]; [|done].
      destruct (any_coinbase _ || a_tenure_change _) eqn:Hk; [done|]. apply orb_false_iff in Hk as [H1 H2]. intros [[Hs Hall] Hlt]%IH. split; [split|].
      * constructor; [done|]. apply Forall_map. eapply Forall_impl; [exact Hlt|done].
      * split; [by exists tx|done].
      * destruct previous as [p|]; [|done]. apply Z.leb_gt in Hp. constructor; [done|]. eapply Forall_impl; [exact Hlt|]. cbn. lia.
    + intros [[Hs [(tx & Htx & H1 & H2) Hall]] Hp]. apply StronglySorted_inv in Hs as [Hs Hlt].
      assert (match previous with Some p => pt_index marker <=? p | None => false end = false) as ->.
      { destruct previous as [p|]; [|done]. apply Forall_cons in Hp as [Hp _]. by apply Z.leb_gt. }
      rewrite Htx. cbn [or_err]. rewrite H1, H2. cbn [orb]. apply IH. split; [done|]. rewrite List.Forall_map in Hlt. exact Hlt.
Qed.

(** The transaction is of this chain, and has a place in an epoch-4 block. *)
Definition on_chain (network : Network.t) (tx : Transaction) : Prop :=
  (tx_version tx = TransactionVersion.Mainnet <-> Network.is_mainnet network = true) /\ tx_chain_id tx = Network.chain_id network /\
  tx_anchor_mode tx <> AnchorMode.OffChainOnly /\ (any_coinbase (tx_data tx) = true -> exists payload recipient proof, tx_data tx = NakamotoCoinbase payload recipient proof).

Section Accepted.
Context `{HS : Hashes} `{SE : Secp256k1}.

Lemma check_transaction_ok tx network : check_transaction tx network = Some (Ok tt) <-> on_chain network tx.
Proof.
  unfold check_transaction, on_chain. split.
  - destruct (tx_version tx), (Network.is_mainnet network); cbn [Bool.eqb negb]; try (by destruct (txid tx));
      (destruct (Z.eqb_spec (tx_chain_id tx) (Network.chain_id network)); cbn [negb]; [|by destruct (txid tx)]);
      destruct (tx_anchor_mode tx); try (by destruct (txid tx)); destruct (tx_data tx); try (by destruct (txid tx)); intros _; split_and!; try done; intros _; by eauto.
  - intros (Hv & -> & Ha & Hc). rewrite Z.eqb_refl. destruct (tx_version tx), (Network.is_mainnet network); cbn [Bool.eqb negb];
      try (by destruct Hv as [Hv _]; specialize (Hv eq_refl)); try (by destruct Hv as [_ Hv]; specialize (Hv eq_refl));
      destruct (tx_anchor_mode tx); try done; destruct (tx_data tx); try done; by destruct Hc as (? & ? & ? & ?).
Qed.

Lemma check_transactions_ok txs network : check_transactions txs network = Some (Ok tt) <-> Forall (on_chain network) txs.
Proof.
  induction txs as [|tx txs IH]; cbn [check_transactions]; [by split|]. rewrite Forall_cons, <- check_transaction_ok, <- IH.
  destruct (check_transaction tx network) as [[[]|]|]; cbn [mbind option_bind]; [tauto|..]; split; try done; by intros [? _].
Qed.

(** The key that signed the header is the one the tenure change names. *)
Definition miner_signed (block : NakamotoBlock) : Prop :=
  forall payload, tenure_change_payload block = Some payload ->
  exists digest key, miner_signature_hash (bl_header block) = Some digest /\ MessageSignature.recover (hd_miner_signature (bl_header block)) digest = Ok key /\
    public_key_hash payload = hash160 (StacksPublicKey.to_bytes_compressed key).

Lemma check_miner_ok block : check_tenure_change_miner block = Some (Ok tt) <-> miner_signed block.
Proof.
  unfold check_tenure_change_miner, miner_signed, recovered_miner_key_hash. destruct (tenure_change_payload block) as [payload|]; [|by split].
  split.
  - destruct (miner_signature_hash _) as [digest|]; cbn [mbind option_bind]; [|done]. destruct (MessageSignature.recover _ _) as [key|] eqn:Hr; [|done].
    case_bool_decide as Hk; [|done]. intros _ ? [= <-]. by exists digest, key.
  - intros H. destruct (H payload eq_refl) as (digest & key & -> & Hr & Hk). cbn [mbind option_bind]. rewrite Hr. by rewrite bool_decide_eq_true_2.
Qed.

(** The blocks the rules accept: of the epoch's version, not empty where they are signed,
    all of whose transactions are of this chain, whose markers point forward at what a replay
    may skip, whose tenure transactions have one of the three shapes, and, where they are
    signed, by the miner their tenure change names. *)
Definition acceptable (block : NakamotoBlock) (network : Network.t) (signatures : Signatures) : Prop :=
  let h := bl_header block in
  admits_nakamoto_block_version (hd_version h) = true /\ (signatures = Present -> bl_transactions block <> []) /\
  Forall (on_chain network) (bl_transactions block) /\
  (len (hd_problematic_transactions h) <= MAX_PROBLEMATIC_TRANSACTION_MARKERS /\ markers_ok (bl_transactions block) (hd_problematic_transactions h)) /\
  tenure_shape h (bl_transactions block) /\ (signatures = Present -> miner_signed block).

Lemma authenticated_acceptable block network signatures : authenticate_block block network signatures = Some (Ok tt) <-> acceptable block network signatures.
Proof.
  unfold authenticate_block, acceptable. cbn zeta. destruct (admits_nakamoto_block_version _); cbn [negb]; [|split; [done|by intros [? _]]].
  assert (Hmark : check_problematic_markers block = Ok tt <-> len (hd_problematic_transactions (bl_header block)) <= MAX_PROBLEMATIC_TRANSACTION_MARKERS /\
                    markers_ok (bl_transactions block) (hd_problematic_transactions (bl_header block))).
  { unfold check_problematic_markers. destruct (Z.ltb_spec MAX_PROBLEMATIC_TRANSACTION_MARKERS (len (hd_problematic_transactions (bl_header block)))).
    - split; [done|]. intros [? _]. lia.
    - rewrite check_markers_ok. split; [by intros [? _]|by intros [_ ?]]. }
  rewrite <- check_transactions_ok, <- Hmark, <- check_miner_ok.
  assert (Hshape : check_tenure_transactions block = Ok tt <-> tenure_shape (bl_header block) (bl_transactions block)) by (split; [apply check_tenure_sound|apply check_tenure_complete]).
  rewrite <- Hshape. clear Hmark Hshape.
  destruct (decide (signatures = Present)) as [->|Hsig]; [rewrite (bool_decide_eq_true_2 (Present = Present)) by done|rewrite (bool_decide_eq_false_2 (signatures = Present)) by done]; cbn [andb].
  - case_bool_decide as He; [split; [done|]; intros (_ & H & _); by destruct (H eq_refl)|].
    destruct (check_transactions _ _) as [[[]|]|]; cbn [mbind option_bind]; try (split; [done|]; by intros (_ & _ & ? & _)).
    destruct (check_problematic_markers block) as [[]|]; [|split; [done|]; by intros (_ & _ & _ & ? & _)].
    destruct (check_tenure_transactions block) as [[]|]; [|split; [done|]; by intros (_ & _ & _ & _ & ? & _)].
    split; [|by intros (_ & _ & _ & _ & _ & H); apply H]. intros H. by split_and!.
  - destruct (check_transactions _ _) as [[[]|]|]; cbn [mbind option_bind]; try (split; [done|]; by intros (_ & _ & ? & _)).
    destruct (check_problematic_markers block) as [[]|]; [|split; [done|]; by intros (_ & _ & _ & ? & _)].
    destruct (check_tenure_transactions block) as [[]|]; [|split; [done|]; by intros (_ & _ & _ & _ & ? & _)].
    split; [|done]. intros _. by split_and!.
Qed.

(** C34: authenticate_block accepts exactly the blocks of the declarative rules: the
    epoch's version, not empty where signed, every transaction of the chain and
    admissible on it, markers in increasing order that point at transactions a replay
    may skip, tenure transactions of one of the three shapes, and a signed tenure
    change that names the miner's key. *)
Theorem authenticate_block_spec block network signatures : authenticate_block block network signatures = Some (Ok tt) <-> acceptable block network signatures.
Proof. apply authenticated_acceptable. Qed.

End Accepted.

(** ** The blocks the miner starts a tenure with *)

Section Miner.
Context `{HS : Hashes} `{SE : Secp256k1} `{ED : Edwards} {E : Type}.

Lemma sign_standard_fields version chain_id anchor_mode key nonce fee payload tx : sign_standard version chain_id anchor_mode key nonce fee payload = Some (Ok tx) ->
  tx_version tx = version /\ tx_chain_id tx = chain_id /\ tx_anchor_mode tx = anchor_mode /\ tx_data tx = payload.
Proof.
  unfold sign_standard. destruct (address_hash _ _ _) as [signer|]; [|done]. destruct (payload_new payload) as [p|] eqn:Hp; cbn [mbind option_bind]; [|done].
  destruct (txid _) as [cleared|]; cbn [mbind option_bind]; [|done]. destruct (encode_transaction _) as [encoded|]; cbn [mbind option_bind]; [|done].
  destruct (verify_authorization _) as [[[]|]|]; cbn [mbind option_bind]; [|done..]. intros [= <-]. split_and!; [done..|]. unfold payload_new in Hp. destruct (Writer.finish _); [|done]. by injection Hp as <-.
Qed.

Lemma miner_transaction_on_chain network key nonce payload tx : sign_miner_transaction (E := E) network key nonce payload = Some (Ok tx) ->
  (any_coinbase payload = true -> exists coinbase recipient proof, payload = NakamotoCoinbase coinbase recipient proof) -> on_chain network tx /\ tx_data tx = payload.
Proof.
  unfold sign_miner_transaction. destruct (sign_standard _ _ _ _ _ _ _) as [[tx'|]|] eqn:Hs; cbn [mbind option_bind map_err]; [|done..]. intros [= ->] Hp.
  apply sign_standard_fields in Hs as (Hv & Hc & Ha & Hd). split; [|done]. unfold on_chain. rewrite Hv, Hc, Ha, Hd. split_and!; [|done..].
  unfold TransactionVersion.for_network, Network.is_mainnet. by destruct (Network.mainnet network).
Qed.

(** A block the miner starts a tenure with is one the rules accept of a candidate, where the
    tip's tenure is not the one it won. *)
Theorem started_tenure_acceptable fuel won pt view network key vrf_key timestamp block :
  build_tenure_start_block (E := E) fuel won pt view network key vrf_key timestamp = Some (Ok block) ->
  tt_consensus_hash (pt_tip pt) <> si_consensus_hash won -> authenticate_block block network Pending = Some (Ok tt).
Proof.
  unfold build_tenure_start_block. intros H Hne. apply authenticated_acceptable. destruct (_ || _); [done|]. destruct (pt_blocks pt =? 0); [done|].
  destruct (sign_miner_transaction network key (pt_miner_nonce pt) _) as [[change|]|] eqn:Hc; cbn [mbind option_bind] in H; [|done..].
  destruct (Vrf.prove _ _ _) as [[proof|]|]; cbn [mbind option_bind] in H; [|done..].
  destruct (sign_miner_transaction network key _ (NakamotoCoinbase _ _ _)) as [[coinbase|]|] eqn:Hb; cbn [mbind option_bind] in H; [|done..].
  destruct (unsealed_block _ _ _ _ _ _) as [b|] eqn:Hu; cbn [mbind option_bind] in H; [|done]. injection H as ->.
  apply miner_transaction_on_chain in Hc as [Hc Dc]; [|done]. apply miner_transaction_on_chain in Hb as [Hb Db]; [|by eauto].
  unfold unsealed_block in Hu. destruct (transaction_merkle_root _) as [root|]; [|done]. cbn [mbind option_bind] in Hu. destruct (BitVec.ones _ _) as [[treatment|]|]; [|done..].
  cbn [mbind option_bind] in Hu. injection Hu as <-. unfold acceptable. cbn. split_and!; try done.
  - by apply Forall_cons_2, Forall_cons_2, Forall_nil_2.
  - split; constructor.
  - eapply shape_start; [exact Dc|done|by rewrite Db|constructor|done|exact Hne].
Qed.

End Miner.
