(* ===== verification/Clarity.v ===== *)
(** * The Clarity types the chain's rules read: the [clarity] crate

    Principals, asset identifiers and the map of the assets a transaction moved, as
    [crates/nano-chainstate] uses them. The crate is not part of the repository; what
    it parses and prints are parameters. *)

From stdpp Require Import gmap countable.
From Stdlib Require Import Strings.String.
From S2P Require Import Prelude Primitives Address TxData.

Class Clarity : Type := {
  PrincipalData : Type;
  #[global] PrincipalData_eq_dec :: EqDecision PrincipalData;
  #[global] PrincipalData_countable :: Countable PrincipalData;
  (** [PrincipalData::parse] and its [Display]. *)
  principal_parse : list byte -> option PrincipalData;
  principal_display : PrincipalData -> list byte;
  QualifiedContractIdentifier : Type;
  #[global] Contract_eq_dec :: EqDecision QualifiedContractIdentifier;
  #[global] Contract_countable :: Countable QualifiedContractIdentifier;
  (** [QualifiedContractIdentifier::parse]. *)
  contract_parse : list byte -> option QualifiedContractIdentifier;
  (** [PrincipalData::parse(&address.to_string())], and the contract of an address with
      a name, which [parse] reads from both with a dot between them: the c32 text of an
      address is another crate's. *)
  parse_address : StacksAddress.t -> option PrincipalData;
  parse_contract : StacksAddress.t -> list byte -> option QualifiedContractIdentifier;
  (** [PrincipalData::Contract] and [PrincipalData::Standard]: the version and hash of a standard principal. *)
  contract_principal : QualifiedContractIdentifier -> PrincipalData;
  standard_principal : PrincipalData -> option (Z * list byte);
  (** [ClarityName::try_from]. *)
  clarity_name : list byte -> option (list byte);
  Value : Type;
  #[global] Value_eq_dec :: EqDecision Value;
  (** [Value::deserialize_read]: the value and the bytes after it. *)
  deserialize_read : list byte -> option (Value * list byte);
}.

Class ClarityOk `{Clarity} : Prop := {
  principal_roundtrip : forall p, principal_parse (principal_display p) = Some p;
}.

Section Identifiers.
Context `{CL : Clarity}.

(** [clarity::vm::types::AssetIdentifier]; [STX] and [STX_burned] are of no contract. *)
Inductive AssetIdentifier : Type :=
| AssetStx
| AssetStxBurned
| AssetOf (contract : QualifiedContractIdentifier) (name : list byte).

#[global] Instance AssetIdentifier_eq_dec : EqDecision AssetIdentifier.
Proof. solve_decision. Defined.

#[global] Instance AssetIdentifier_countable : Countable AssetIdentifier.
Proof.
  refine (inj_countable' (fun a => match a with AssetStx => None | AssetStxBurned => Some None | AssetOf c n => Some (Some (c, n)) end)
    (fun o => match o with None => AssetStx | Some None => AssetStxBurned | Some (Some (c, n)) => AssetOf c n end) _).
  by intros [].
Defined.

(** The conversions of [crates/nano-chainstate/src/lib.rs]; a failure is an invalid transaction. *)
Definition principal_from_address (address : StacksAddress.t) : option PrincipalData := parse_address address.

Definition contract_identifier (address : StacksAddress.t) (contract_name : list byte) : option QualifiedContractIdentifier := parse_contract address contract_name.

Definition principal_from_codec (principal : Principal) : option PrincipalData :=
  match principal with
  | PrincipalStandard address => principal_from_address address
  | PrincipalContract address contract_name => contract_principal <$> contract_identifier address contract_name
  end.

End Identifiers.

(** [Network::boot_address] and [Network::boot_contract_id] of [crates/nano-primitives]. *)
Definition boot_address (network : Network.t) : list byte :=
  list_byte_of_string (if Network.is_mainnet network then "SP000000000000000000002Q6VF78" else "ST000000000000000000002AMW42H").

Definition boot_contract_id (network : Network.t) (name : string) : list byte := boot_address network ++ list_byte_of_string "." ++ list_byte_of_string name.
