(* ===== verification/TenureRewards.v ===== *)
(** * What tenures earn: the accounting of [crates/nano-chainstate/src/lib.rs]

    The emission schedules, and [TenureAccounting], which records what each tenure
    earned and answers what matures at a tenure start. A [BTreeMap] is a [gmap], and
    [keys] its keys in order. *)

From stdpp Require Import gmap sorting.
From S2P Require Import Prelude Primitives Address CodecIO Crypto TxData TxCodec TxAuth Nakamoto BlockRules ProposalExecution Clarity.

(** ** Emissions *)

Definition MAINNET_GENESIS_BURN_HEIGHT : Z := 666050.
Definition MAINNET_STACKS_40_BURN_HEIGHT : Z := 960230.
Definition TESTNET_GENESIS_BURN_HEIGHT : Z := 2000000.
Definition TESTNET_STACKS_40_BURN_HEIGHT : Z := 40000000.

Definition TESTNET_EMISSIONS : list (Z * Z) :=
  [(0, 1000000000); (77777, 500000000); (77777 * 7, 250000000); (77777 * 14, 125000000); (77777 * 21, 62500000);
   (TESTNET_STACKS_40_BURN_HEIGHT - TESTNET_GENESIS_BURN_HEIGHT, 1000000000)].
Definition MAINNET_EMISSIONS : list (Z * Z) :=
  [(0, 1000000000); (278950, 500000000); (MAINNET_STACKS_40_BURN_HEIGHT - MAINNET_GENESIS_BURN_HEIGHT, 1000000000)].

Record CoinbaseSchedule : Type := mkSchedule { cs_mainnet : bool; cs_first_bitcoin_height : Z; cs_initial_mining_bonus : Z }.

#[global] Instance CoinbaseSchedule_eq_dec : EqDecision CoinbaseSchedule. Proof. solve_decision. Defined.

(** [intervals.iter().rev().find(|(start, _)| height >= start).map_or(0, ..)]. *)
Definition emission_of (intervals : list (Z * Z)) (height : Z) : Z :=
  match List.find (fun '(start, _) => start <=? height) (rev intervals) with Some (_, emission) => emission | None => 0 end.

Definition emission_at (s : CoinbaseSchedule) (bitcoin_height : Z) : Z :=
  emission_of (if cs_mainnet s then MAINNET_EMISSIONS else TESTNET_EMISSIONS) (saturating_sub bitcoin_height (cs_first_bitcoin_height s)).

(** The loop of [accumulated_at], whose height falls by one a round. *)
Fixpoint accumulate (s : CoinbaseSchedule) (fuel : nat) (height previous accumulated : Z) : Z :=
  match fuel with
  | O => accumulated
  | S fuel =>
      if height <=? previous then accumulated else
      let accumulated := saturating_add U128_MAX accumulated (cs_initial_mining_bonus s) in
      let height := height - 1 in
      let accumulated := if previous <? height then saturating_add U128_MAX accumulated (emission_at s height) else accumulated in
      accumulate s fuel height previous accumulated
  end.

Definition accumulated_at (s : CoinbaseSchedule) (bitcoin_height : Z) (previous_sortition : option Z) : Z :=
  match previous_sortition with
  | None => 0
  | Some previous => accumulate s (Z.to_nat (bitcoin_height - previous)) bitcoin_height previous 0
  end.

Definition TESTNET_SIP_031_EMISSIONS : list (Z * Z) :=
  [(71525 + 360, 1000); (71525 + 360 * 2, 2000); (71525 + 360 * 3, 3000); (71525 + 360 * 4, 4000); (71525 + 360 * 5, 5000); (71525 + 360 * 6, 0)].
Definition MAINNET_SIP_031_EMISSIONS : list (Z * Z) :=
  [(907740, 475000000); (960300, 1140000000); (1012860, 1705000000); (1065420, 1305000000); (1117980, 1155000000); (1170540, 0)].

Definition sip_031_emission (network : Network.t) (bitcoin_height : Z) : Z :=
  emission_of (if Network.is_mainnet network then MAINNET_SIP_031_EMISSIONS else TESTNET_SIP_031_EMISSIONS) bitcoin_height.

(** ** Maps with ordered keys *)

Definition keys {A} (m : gmap Z A) : list Z := merge_sort Z.le (map fst (map_to_list m)).
Definition first_key {A} (m : gmap Z A) : option Z := head (keys m).
Definition last_key {A} (m : gmap Z A) : option Z := last (keys m).

(** [retain(|key, _| key < bound)]. *)
Definition below {A} (bound : Z) (m : gmap Z A) : gmap Z A := filter (fun '(k, _) => k < bound) m.

(** [map.iter()]. *)
Definition entries {A} (m : gmap Z A) : list (Z * A) := omap (fun k => pair k <$> m !! k) (keys m).

(** ** Accounting *)

Definition MINER_REWARD_MATURITY : Z := 100.
Definition EARNINGS_KEPT : Z := 2 * MINER_REWARD_MATURITY + 1.

Inductive TenureAccountingError : Type := DuplicateCoinbaseHeight | InvalidCheckpoint | UnknownTenure (height : Z).

Section Accounting.
Context `{HS : Hashes} `{CL : Clarity}.

Record NativeStxCredit : Type := mkCredit { cr_recipient : PrincipalData; cr_amount : Z }.
Record NativeBlockEffects : Type := mkEffects { ef_credits : list NativeStxCredit; ef_liquid_supply_increase : Z }.

Definition no_effects : NativeBlockEffects := mkEffects [] 0.

(** The amount of the first credit less the coinbase; the error is an invalid transaction. *)
Definition matured_reward_amounts (effects : NativeBlockEffects) : option (Z * Z) :=
  let coinbase := ef_liquid_supply_increase effects in
  anchored_fees ← checked_sub (match ef_credits effects with credit :: _ => cr_amount credit | [] => 0 end) coinbase;
  Some (coinbase, anchored_fees).

Record TenureEarnings : Type := mkEarnings { ea_recipient : PrincipalData; ea_coinbase : Z; ea_fees : Z }.

#[global] Instance NativeStxCredit_eq_dec : EqDecision NativeStxCredit. Proof. solve_decision. Defined.
#[global] Instance NativeBlockEffects_eq_dec : EqDecision NativeBlockEffects. Proof. solve_decision. Defined.
#[global] Instance TenureEarnings_eq_dec : EqDecision TenureEarnings. Proof. solve_decision. Defined.

Definition tenure_coinbase (block : NakamotoBlock) : option Transaction := List.find (fun tx => any_coinbase (tx_data tx)) (bl_transactions block).

(** [None] inside where the block has no coinbase, or no recipient. *)
Definition from_tenure_start (block : NakamotoBlock) (coinbase : Z) : option TenureEarnings :=
  transaction ← tenure_coinbase block;
  let named := match tx_data transaction with
               | NakamotoCoinbase _ recipient _ => recipient
               | CoinbaseToAltRecipient _ recipient => Some recipient
               | _ => None
               end in
  recipient ← match named with
              | Some recipient => principal_from_codec recipient
              | None => address ← origin_address transaction; principal_from_address address
              end;
  Some (mkEarnings recipient coinbase 0).

Definition tenure_miner_address (block : NakamotoBlock) : option StacksAddress.t := transaction ← tenure_coinbase block; origin_address transaction.

Record TenureAccounting : Type := mkAccounting {
  ta_matured_effects : gmap Z NativeBlockEffects;
  ta_earnings : gmap Z TenureEarnings;
  ta_schedule : option CoinbaseSchedule;
  ta_started : option Z;
}.

#[global] Instance TenureAccounting_eq_dec : EqDecision TenureAccounting. Proof. solve_decision. Defined.

Definition set_earnings (m : gmap Z TenureEarnings) (a : TenureAccounting) : TenureAccounting := mkAccounting (ta_matured_effects a) m (ta_schedule a) (ta_started a).
Definition set_started (started : option Z) (a : TenureAccounting) : TenureAccounting := mkAccounting (ta_matured_effects a) (ta_earnings a) (ta_schedule a) started.

(** The loop of [forget_earnings_nothing_can_read]; each round removes a tenure. *)
Fixpoint forget_oldest (fuel : nat) (m : gmap Z TenureEarnings) : gmap Z TenureEarnings :=
  match fuel with
  | O => m
  | S fuel =>
      if EARNINGS_KEPT <? Z.of_nat (size m) then match first_key m with Some oldest => forget_oldest fuel (delete oldest m) | None => m end else m
  end.

Definition forget_earnings_nothing_can_read (a : TenureAccounting) : TenureAccounting := set_earnings (forget_oldest (size (ta_earnings a)) (ta_earnings a)) a.

Definition seed_earnings (coinbase_height : Z) (earnings : TenureEarnings) (a : TenureAccounting) : TenureAccounting :=
  forget_earnings_nothing_can_read (set_earnings (<[coinbase_height := earnings]> (ta_earnings a)) a).

Definition record_earnings (coinbase_height : Z) (earnings : TenureEarnings) (a : TenureAccounting) : TenureAccounting :=
  forget_earnings_nothing_can_read (set_started (Some coinbase_height) (set_earnings (<[coinbase_height := earnings]> (ta_earnings a)) a)).

(** The effects are replaced before a duplicate is reported. *)
Definition record_matured_effects (coinbase_height : Z) (effects : NativeBlockEffects) (a : TenureAccounting) : result TenureAccountingError unit * TenureAccounting :=
  let r := match ta_matured_effects a !! coinbase_height with Some _ => Err DuplicateCoinbaseHeight | None => Ok tt end in
  (r, mkAccounting (<[coinbase_height := effects]> (ta_matured_effects a)) (ta_earnings a) (ta_schedule a) (ta_started a)).

Definition retract_from (coinbase_height : Z) (a : TenureAccounting) : TenureAccounting :=
  let earnings := below coinbase_height (ta_earnings a) in
  mkAccounting (below coinbase_height (ta_matured_effects a)) earnings (ta_schedule a)
    (match ta_started a with Some started => if coinbase_height <=? started then last_key earnings else Some started | None => None end).

(** The loop of [known_earnings_span] over the keys below the last, highest first. *)
Fixpoint span_down (first : Z) (heights : list Z) : Z :=
  match heights with
  | [] => first
  | height :: rest => if height =? saturating_sub first 1 then span_down height rest else first
  end.

Definition known_earnings_span (a : TenureAccounting) : option (Z * Z) :=
  last ← last_key (ta_earnings a);
  Some (span_down last (tail (rev (keys (ta_earnings a)))), last).

Definition earnings_at (a : TenureAccounting) (coinbase_height : Z) : option TenureEarnings := ta_earnings a !! coinbase_height.

Definition reward_for_tenure (a : TenureAccounting) (coinbase_height : Z) : Z :=
  match ta_earnings a !! coinbase_height with Some earnings => saturating_add U128_MAX (ea_coinbase earnings) (ea_fees earnings) | None => 0 end.

Definition add_fees (coinbase_height fees : Z) (a : TenureAccounting) : TenureAccounting :=
  if negb (bool_decide (ta_started a = Some coinbase_height)) then a else
  set_earnings (alter (fun earnings => mkEarnings (ea_recipient earnings) (ea_coinbase earnings) (saturating_add U128_MAX (ea_fees earnings) fees)) coinbase_height (ta_earnings a)) a.

(** The boot address is parsed where the tenure before is unknown; it panics where it does not parse. *)
Definition effects_for_tenure (a : TenureAccounting) (network : Network.t) (coinbase_height : Z) : option (result TenureAccountingError NativeBlockEffects) :=
  match ta_matured_effects a !! coinbase_height with
  | Some effects => Some (Ok effects)
  | None =>
      if coinbase_height <=? MINER_REWARD_MATURITY then Some (Ok no_effects) else
      let matured := coinbase_height - MINER_REWARD_MATURITY in
      match ta_earnings a !! matured with
      | None => Some (Err (UnknownTenure matured))
      | Some earned =>
          let previous := ta_earnings a !! saturating_sub matured 1 in
          recipient ← match previous with Some previous => Some (ea_recipient previous) | None => principal_parse (boot_address network) end;
          Some (Ok (mkEffects [mkCredit (ea_recipient earned) (ea_coinbase earned); mkCredit recipient (match previous with Some previous => ea_fees previous | None => 0 end)] (ea_coinbase earned)))
      end
  end.

(** ** The checkpoint's form *)

Record CheckpointEntry : Type := mkEntry { ce_coinbase_height : Z; ce_credits : list (list byte * Z); ce_liquid_supply_increase : Z }.
Record CheckpointTenure : Type := mkCheckpointTenure { ct_coinbase_height : Z; ct_recipient : list byte; ct_coinbase : Z; ct_fees : Z }.
Record TenureAccountingCheckpoint : Type := mkAccountingCheckpoint {
  tc_matured_effects : list CheckpointEntry;
  tc_tenures : list CheckpointTenure;
  tc_coinbase_schedule : option CoinbaseSchedule;
  tc_started : option Z;
}.

Fixpoint load_tenures (tenures : list CheckpointTenure) (a : TenureAccounting) : result TenureAccountingError TenureAccounting :=
  match tenures with
  | [] => Ok a
  | tenure :: rest =>
      let? recipient := or_err (principal_parse (ct_recipient tenure)) InvalidCheckpoint in
      load_tenures rest (seed_earnings (ct_coinbase_height tenure) (mkEarnings recipient (ct_coinbase tenure) (ct_fees tenure)) a)
  end.

Fixpoint load_credits (credits : list (list byte * Z)) : result TenureAccountingError (list NativeStxCredit) :=
  match credits with
  | [] => Ok []
  | (recipient, amount) :: rest =>
      let? recipient := or_err (principal_parse recipient) InvalidCheckpoint in
      let? rest := load_credits rest in
      Ok (mkCredit recipient amount :: rest)
  end.

Fixpoint load_effects (l : list CheckpointEntry) (a : TenureAccounting) : result TenureAccountingError TenureAccounting :=
  match l with
  | [] => Ok a
  | entry :: rest =>
      let? credits := load_credits (ce_credits entry) in
      let '(r, a) := record_matured_effects (ce_coinbase_height entry) (mkEffects credits (ce_liquid_supply_increase entry)) a in
      let? _ := r in
      load_effects rest a
  end.

Definition from_checkpoint (c : TenureAccountingCheckpoint) : result TenureAccountingError TenureAccounting :=
  let? a := load_tenures (tc_tenures c) (mkAccounting ∅ ∅ (tc_coinbase_schedule c) None) in
  let? a := load_effects (tc_matured_effects c) a in
  Ok (set_started (tc_started c) a).

Definition to_checkpoint (a : TenureAccounting) : TenureAccountingCheckpoint :=
  mkAccountingCheckpoint
    (map (fun '(height, effects) => mkEntry height (map (fun credit => (principal_display (cr_recipient credit), cr_amount credit)) (ef_credits effects)) (ef_liquid_supply_increase effects))
       (entries (ta_matured_effects a)))
    (map (fun '(height, earnings) => mkCheckpointTenure height (principal_display (ea_recipient earnings)) (ea_coinbase earnings) (ea_fees earnings)) (entries (ta_earnings a)))
    (ta_schedule a) (ta_started a).

(** [block_fees]: a sum that panics where it overflows. *)
Definition block_fees (block : NakamotoBlock) : option Z :=
  match checked_sum U128_MAX tt 0 (map (fun tx => condition_fee (auth_payer (tx_auth tx))) (bl_transactions block)) with Ok n => Some n | Err _ => None end.

End Accounting.
