(* ===== verification/RewardsTheorems.v ===== *)
(** * The accounting pays what was earned

    The earnings kept are bounded and the latest; a window of a maturity and one
    tenures, extended a tenure at a time, always derives the next payout; a span
    says which tenures it covers; and the accounting survives its checkpoint. *)

From stdpp Require Import gmap sorting.
From S2P Require Import Prelude Primitives CodecIO TxData TxCodec Nakamoto BlockRules Clarity TenureRewards.

(** ** Maps with ordered keys *)

Lemma sorted_lt_NoDup (l : list Z) : StronglySorted Z.lt l -> NoDup l.
Proof.
  induction 1 as [|k l Hs IH Hk]; constructor; [|done]. intros Hin. rewrite Forall_forall in Hk. specialize (Hk k Hin). lia.
Qed.

#[local] Instance lt_antisymm : AntiSymm (=) Z.lt.
Proof. intros ? ? ? ?. lia. Qed.

Section Keys.
Context {A : Type}.
Implicit Types m : gmap Z A.

Lemma elem_of_keys m k : k ∈ keys m <-> is_Some (m !! k).
Proof.
  unfold keys. rewrite merge_sort_Permutation. rewrite list_elem_of_fmap. split.
  - intros ([k' x] & -> & Hin%elem_of_map_to_list). by exists x.
  - intros [x Hx]. exists (k, x). split; [done|]. by apply elem_of_map_to_list.
Qed.

Lemma keys_NoDup m : NoDup (keys m).
Proof. unfold keys. rewrite merge_sort_Permutation. apply NoDup_fst_map_to_list. Qed.

Lemma keys_length m : length (keys m) = size m.
Proof. unfold keys. rewrite merge_sort_Permutation. rewrite length_map. apply length_map_to_list. Qed.

Lemma sorted_le_lt l : StronglySorted Z.le l -> NoDup l -> StronglySorted Z.lt l.
Proof.
  induction 1 as [|k l Hs IH Hk]; [constructor|]. intros [Hni Hnd]%NoDup_cons. constructor; [by apply IH|].
  rewrite Forall_forall in Hk |- *. intros x Hx. specialize (Hk x Hx). assert (k <> x) by (intros ->; done). lia.
Qed.

Lemma keys_sorted m : StronglySorted Z.lt (keys m).
Proof. apply sorted_le_lt; [unfold keys; apply StronglySorted_merge_sort; apply _|apply keys_NoDup]. Qed.

Lemma first_key_Some m k : first_key m = Some k -> is_Some (m !! k) /\ forall j, is_Some (m !! j) -> k <= j.
Proof.
  unfold first_key. intros Hh. pose proof (keys_sorted m) as Hs. destruct (keys m) as [|k' rest] eqn:Hk; [done|]. injection Hh as ->. split.
  - apply elem_of_keys. rewrite Hk. by left.
  - intros j Hj%elem_of_keys. rewrite Hk in Hj. apply StronglySorted_inv in Hs as [_ Hall]. rewrite Forall_forall in Hall. apply elem_of_cons in Hj as [->|Hj]; [lia|]. specialize (Hall j Hj). lia.
Qed.

Lemma last_key_Some m k : last_key m = Some k -> is_Some (m !! k) /\ forall j, is_Some (m !! j) -> j <= k.
Proof.
  unfold last_key. intros [before Hk]%last_Some. pose proof (keys_sorted m) as Hs. rewrite Hk in Hs. split.
  - apply elem_of_keys. rewrite Hk. set_solver.
  - intros j Hj%elem_of_keys. rewrite Hk in Hj. apply elem_of_app in Hj as [Hj|Hj]; [|apply list_elem_of_singleton in Hj; lia].
    assert (j < k); [|lia]. apply (StronglySorted_app_1_elem_of Z.lt before [k] j k Hs); [done|by left].
Qed.

Lemma first_key_None m : first_key m = None <-> m = ∅.
Proof. unfold first_key. rewrite <- map_size_empty_iff, <- keys_length. by destruct (keys m). Qed.

Lemma keys_of m : forall l, StronglySorted Z.lt l -> (forall k, k ∈ l <-> is_Some (m !! k)) -> keys m = l.
Proof.
  intros l Hl Hin. assert (Hp : keys m ≡ₚ l).
  { apply NoDup_Permutation; [apply keys_NoDup|by apply sorted_lt_NoDup|intros k; by rewrite elem_of_keys, Hin]. }
  by apply (StronglySorted_unique Z.lt); [apply keys_sorted|..].
Qed.

End Keys.

Lemma size_alter {A} (f : A -> A) k (m : gmap Z A) : size (alter f k m) = size m.
Proof.
  destruct (m !! k) as [x|] eqn:Hx.
  - replace (alter f k m) with (<[k := f x]> m); [by apply map_size_insert_Some; eexists|].
    apply map_eq. intros i. destruct (decide (k = i)) as [->|]; [by rewrite lookup_insert_eq, lookup_alter_eq, Hx|by rewrite lookup_insert_ne, lookup_alter_ne].
  - replace (alter f k m) with m; [done|]. apply map_eq. intros i. destruct (decide (k = i)) as [->|]; [by rewrite lookup_alter_eq, Hx|by rewrite lookup_alter_ne].
Qed.

Section Accounts.
Context `{CL : Clarity}.
Implicit Types a : TenureAccounting.

(** ** Forgetting *)

(** [kept m m']: [m'] is the part of [m] from some height on, of at most the kept size, and all of it where it fits. *)
Definition kept (m m' : gmap Z TenureEarnings) : Prop :=
  (exists bound, forall k, m' !! k = if bound <=? k then m !! k else None) /\ Z.of_nat (size m') <= EARNINGS_KEPT /\
  (Z.of_nat (size m) <= EARNINGS_KEPT -> m' = m) /\ (EARNINGS_KEPT <= Z.of_nat (size m) -> Z.of_nat (size m') = EARNINGS_KEPT).

Lemma forget_kept fuel m : (size m <= fuel)%nat -> kept m (forget_oldest fuel m).
Proof.
  assert (Hlow : forall m, exists bound, forall k, (m : gmap Z TenureEarnings) !! k = if bound <=? k then m !! k else None).
  { intros m'. exists (default 0 (first_key m')). intros k. destruct (Z.leb_spec (default 0 (first_key m')) k) as [|Hk]; [done|]. destruct (m' !! k) as [x|] eqn:Hx; [|done].
    destruct (first_key m') as [low|] eqn:Hlow; [apply first_key_Some in Hlow as [_ Hlow]; specialize (Hlow k (ex_intro _ x Hx)); cbn in Hk; lia|].
    apply first_key_None in Hlow. by rewrite Hlow, lookup_empty in Hx. }
  revert m. induction fuel as [|fuel IH]; intros m Hf; cbn [forget_oldest].
  - split; [apply Hlow|]. unfold EARNINGS_KEPT, MINER_REWARD_MATURITY. split_and!; [lia|done|lia].
  - destruct (Z.ltb_spec EARNINGS_KEPT (Z.of_nat (size m))) as [Hs|Hs]; [|split; [apply Hlow|]; split_and!; [lia|done|lia]].
    destruct (first_key m) as [oldest|] eqn:Ho; [|apply first_key_None in Ho as ->; rewrite map_size_empty in Hs; unfold EARNINGS_KEPT, MINER_REWARD_MATURITY in Hs; lia].
    apply first_key_Some in Ho as [Hin Hleast]. pose proof (map_size_delete_Some oldest m Hin) as Hd. destruct (size m) as [|n] eqn:Hn; [cbn in Hs; unfold EARNINGS_KEPT, MINER_REWARD_MATURITY in Hs; lia|].
    destruct (IH (delete oldest m)) as ([bound Hb] & Hsize & _ & Hfull); [rewrite Hd; cbn; lia|]. split_and!; [|done|lia|intros _; apply Hfull; rewrite Hd; cbn; lia].
    exists (Z.max bound (oldest + 1)). intros k. rewrite Hb. destruct (Z.leb_spec bound k) as [Hbk|Hbk], (Z.leb_spec (Z.max bound (oldest + 1)) k) as [Hmk|Hmk]; try lia; [..|done].
    + by rewrite lookup_delete_ne by lia.
    + destruct (decide (oldest = k)) as [->|Hne]; [by rewrite lookup_delete_eq|]. rewrite lookup_delete_ne by done. destruct (m !! k) as [x|] eqn:Hx; [|done].
      specialize (Hleast k (ex_intro _ x Hx)). lia.
Qed.

Lemma forget_all_kept a : kept (ta_earnings a) (ta_earnings (forget_earnings_nothing_can_read a)).
Proof. by apply forget_kept. Qed.

(** The earnings are at most two maturities and one. *)
Definition bounded a : Prop := Z.of_nat (size (ta_earnings a)) <= EARNINGS_KEPT.

Lemma below_subseteq {B} bound (m : gmap Z B) : below bound m ⊆ m.
Proof. apply map_filter_subseteq. Qed.

(** Every operation that changes the earnings leaves them bounded. *)
Theorem earnings_stay_bounded a : bounded a ->
  (forall h e, bounded (seed_earnings h e a)) /\ (forall h e, bounded (record_earnings h e a)) /\ (forall h, bounded (retract_from h a)) /\
  (forall h fees, bounded (add_fees h fees a)) /\ (forall h ef, bounded (record_matured_effects h ef a).2).
Proof.
  intros Ha. split_and!; intros; unfold bounded.
  - apply forget_all_kept.
  - apply forget_all_kept.
  - cbn. etransitivity; [|exact Ha]. apply inj_le, map_subseteq_size, below_subseteq.
  - unfold add_fees. destruct (negb _); [done|]. cbn. by rewrite size_alter.
  - done.
Qed.

(** ** The window *)

Lemma size_within {B} (m : gmap Z B) lo hi : lo <= hi -> (forall k, is_Some (m !! k) -> lo < k <= hi) -> Z.of_nat (size m) <= hi - lo.
Proof.
  intros Hle Hin. rewrite <- keys_length. assert (Hsub : keys m ⊆+ seqZ (lo + 1) (hi - lo)).
  { apply NoDup_submseteq; [apply keys_NoDup|]. intros k Hk%elem_of_keys%Hin. apply elem_of_seqZ. lia. }
  apply submseteq_length in Hsub. rewrite length_seqZ in Hsub. lia.
Qed.

(** Every tenure of the last maturity and one is known, and none is later. *)
Definition covers a (height : Z) : Prop :=
  (forall k, height - MINER_REWARD_MATURITY <= k <= height -> is_Some (ta_earnings a !! k)) /\ (forall k, is_Some (ta_earnings a !! k) -> k <= height).

Lemma record_lookup a h e k : (forall j, is_Some (ta_earnings a !! j) -> j <= h) -> h - EARNINGS_KEPT + 2 < k -> k <= h + 1 ->
  ta_earnings (record_earnings (h + 1) e a) !! k = (<[h + 1 := e]> (ta_earnings a)) !! k.
Proof.
  intros Hle Hlo Hhi. unfold record_earnings. set (a1 := set_started _ _). destruct (forget_all_kept a1) as ([bound Hb] & _ & Hsmall & Hfull).
  change (ta_earnings a1) with (<[h + 1 := e]> (ta_earnings a)) in *. set (m := <[h + 1 := e]> (ta_earnings a)) in *. rewrite Hb.
  destruct (Z.leb_spec bound k) as [|Hbk]; [done|]. destruct (m !! k) as [x|] eqn:Hx; [|done]. exfalso.
  destruct (Z.leb_spec (Z.of_nat (size m)) EARNINGS_KEPT) as [Hs|Hs].
  - specialize (Hsmall Hs). specialize (Hb k). rewrite Hsmall, Hx in Hb. destruct (Z.leb_spec bound k); [lia|done].
  - specialize (Hfull ltac:(lia)). assert (Hc : Z.of_nat (size (ta_earnings (forget_earnings_nothing_can_read a1))) <= h + 1 - k); [|lia].
    apply size_within; [lia|]. intros j [y Hj]. rewrite Hb in Hj. destruct (Z.leb_spec bound j) as [|]; [|done]. split; [lia|].
    destruct (decide (j = h + 1)) as [->|Hne]; [lia|]. unfold m in Hj. rewrite lookup_insert_ne in Hj by done. specialize (Hle j (ex_intro _ y Hj)). lia.
Qed.

(** Recording the next tenure keeps the window of earnings a maturity and one
    long, and derives what matures at it: the coinbase of the tenure a maturity
    before, to that tenure's recipient, and the fees of the one before that, to its
    own; an effect the checkpoint carries is paid instead. *)
Theorem window_advances a h e network (Hw : covers a h) (Hh : MINER_REWARD_MATURITY <= h) :
  let a' := record_earnings (h + 1) e a in
  covers a' (h + 1) /\
  match ta_matured_effects a !! (h + 1) with
  | Some effects => effects_for_tenure a' network (h + 1) = Some (Ok effects)
  | None => exists earned previous, ta_earnings a !! (h + 1 - MINER_REWARD_MATURITY) = Some earned /\ ta_earnings a !! (h - MINER_REWARD_MATURITY) = Some previous /\
      effects_for_tenure a' network (h + 1) = Some (Ok (mkEffects [mkCredit (ea_recipient earned) (ea_coinbase earned); mkCredit (ea_recipient previous) (ea_fees previous)] (ea_coinbase earned)))
  end.
Proof.
  destruct Hw as [Hin Hle]. unfold covers, MINER_REWARD_MATURITY in *. cbn zeta.
  assert (Hl : forall k, h - 100 <= k <= h + 1 -> ta_earnings (record_earnings (h + 1) e a) !! k = (<[h + 1 := e]> (ta_earnings a)) !! k).
  { intros k Hk. apply record_lookup; [done|unfold EARNINGS_KEPT, MINER_REWARD_MATURITY; lia|lia]. }
  split; [split|].
  - intros k Hk. rewrite Hl by lia. destruct (decide (k = h + 1)) as [->|]; [rewrite lookup_insert_eq; by eexists|]. rewrite lookup_insert_ne by done. apply Hin. lia.
  - intros k [x Hx]. unfold record_earnings in Hx. destruct (forget_all_kept (set_started (Some (h + 1)) (set_earnings (<[h + 1 := e]> (ta_earnings a)) a))) as ([bound Hb] & _).
    rewrite Hb in Hx. destruct (bound <=? k); [|done]. cbn in Hx. destruct (decide (k = h + 1)) as [->|]; [lia|]. rewrite lookup_insert_ne in Hx by done. specialize (Hle k (ex_intro _ x Hx)). lia.
  - unfold effects_for_tenure. change (ta_matured_effects (record_earnings (h + 1) e a)) with (ta_matured_effects a). destruct (ta_matured_effects a !! (h + 1)) as [effects|]; [done|].
    destruct (Hin (h + 1 - 100) ltac:(lia)) as [earned Hearned]. destruct (Hin (h - 100) ltac:(lia)) as [previous Hprev]. exists earned, previous. split_and!; [done..|].
    unfold MINER_REWARD_MATURITY. rewrite (proj2 (Z.leb_gt (h + 1) 100)) by lia. rewrite Hl by lia. rewrite lookup_insert_ne by lia. rewrite Hearned.
    replace (saturating_sub (h + 1 - 100) 1) with (h - 100) by (unfold saturating_sub; lia). rewrite Hl by lia. rewrite lookup_insert_ne by lia. rewrite Hprev. done.
Qed.

(** ** The span *)

Lemma span_down_spec (rest : list Z) : forall first, StronglySorted Z.gt (first :: rest) -> Forall (fun k => 0 <= k) rest ->
  let low := span_down first rest in
  low <= first /\ (forall k, low <= k <= first -> k ∈ first :: rest) /\ (0 < low -> low - 1 ∉ first :: rest).
Proof.
  induction rest as [|h rest IH]; intros first Hs Hn; cbn [span_down].
  - split_and!; [lia|intros k ?; assert (k = first) as -> by lia; by left|]. intros _ ?%list_elem_of_singleton. lia.
  - apply StronglySorted_inv in Hs as [Hs Hgt]. apply Forall_cons in Hn as [Hh Hn]. apply Forall_cons in Hgt as [Hg Hgt].
    destruct (Z.eqb_spec h (saturating_sub first 1)) as [Heq|Hne].
    + assert (h = first - 1) by (unfold saturating_sub in Heq; lia). destruct (IH h Hs Hn) as (H1 & H2 & H3). split_and!; [lia|..].
      * intros k Hk. destruct (decide (k = first)) as [->|]; [by left|]. right. apply H2. lia.
      * intros Hpos. rewrite not_elem_of_cons. split; [lia|by apply H3].
    + split_and!; [lia|intros k ?; assert (k = first) as -> by lia; by left|]. intros Hpos. rewrite !not_elem_of_cons.
      unfold saturating_sub in Hne. split_and!; [lia..|]. intros Hin. apply StronglySorted_inv in Hs as [_ Hlt]. rewrite Forall_forall in Hlt. specialize (Hlt _ Hin). lia.
Qed.

Lemma elem_of_rev (l : list Z) x : x ∈ rev l <-> x ∈ l.
Proof. by rewrite !list_elem_of_In, <- in_rev. Qed.

Lemma rev_sorted_gt (l : list Z) : StronglySorted Z.lt l -> StronglySorted Z.gt (rev l).
Proof.
  induction 1 as [|k l Hs IH Hk]; [constructor|]. cbn [rev]. apply StronglySorted_app_2; [|done|repeat constructor].
  intros x y Hx ->%list_elem_of_singleton. rewrite elem_of_rev in Hx. rewrite Forall_forall in Hk. specialize (Hk x Hx). lia.
Qed.

(** The span ends at the highest tenure known; every tenure of it is known and the one below it,
    where there is one, is not. *)
Theorem known_span_spec a (Hn : forall k, is_Some (ta_earnings a !! k) -> 0 <= k) :
  match known_earnings_span a with
  | None => ta_earnings a = ∅
  | Some (low, high) => low <= high /\ (forall k, low <= k <= high -> is_Some (ta_earnings a !! k)) /\ (0 < low -> ta_earnings a !! (low - 1) = None) /\
      (forall k, is_Some (ta_earnings a !! k) -> k <= high)
  end.
Proof.
  unfold known_earnings_span. destruct (last_key (ta_earnings a)) as [high|] eqn:Hlast; cbn [mbind option_bind].
  - pose proof (last_key_Some _ _ Hlast) as [Hhigh Hmax]. unfold last_key in Hlast. apply last_Some in Hlast as [before Hk].
    assert (Hrev : rev (keys (ta_earnings a)) = high :: rev before) by (rewrite Hk, rev_app_distr; done). rewrite Hrev. cbn [tail].
    pose proof (rev_sorted_gt _ (keys_sorted (ta_earnings a))) as Hs. rewrite Hrev in Hs.
    assert (Hmem : forall k, k ∈ high :: rev before <-> is_Some (ta_earnings a !! k)) by (intros k; rewrite <- Hrev, <- elem_of_keys; apply elem_of_rev).
    destruct (span_down_spec (rev before) high Hs) as (H1 & H2 & H3).
    { apply Forall_forall. intros k Hin. apply Hn, Hmem. by right. }
    split_and!; [done|intros k ?; by apply Hmem, H2| |done]. intros Hpos. specialize (H3 Hpos). rewrite Hmem in H3. by apply eq_None_not_Some.
  - unfold last_key in Hlast. apply last_None in Hlast. apply map_size_empty_inv. rewrite <- keys_length, Hlast. done.
Qed.

(** ** The checkpoint *)

Lemma set_earnings_same a : set_earnings (ta_earnings a) a = a.
Proof. by destruct a. Qed.

Lemma forget_fits a : bounded a -> forget_earnings_nothing_can_read a = a.
Proof.
  intros Ha. destruct (forget_all_kept a) as (_ & _ & Hsame & _). unfold forget_earnings_nothing_can_read in *. cbn in Hsame. rewrite (Hsame Ha). apply set_earnings_same.
Qed.

Lemma entries_keys {B} (m : gmap Z B) : (entries m).*1 = keys m.
Proof.
  unfold entries. assert (Hall : Forall (fun k => is_Some (m !! k)) (keys m)) by (apply Forall_forall; intros k; apply elem_of_keys).
  induction Hall as [|k l [x Hx] _ IH]; [done|]. cbn. rewrite Hx. cbn. by rewrite IH.
Qed.

Lemma elem_of_entries {B} (m : gmap Z B) k x : (k, x) ∈ entries m <-> m !! k = Some x.
Proof.
  unfold entries. rewrite list_elem_of_omap. split.
  - intros (j & _ & H). destruct (m !! j) eqn:Hj; [|done]. by injection H as -> ->.
  - intros H. exists k. split; [apply elem_of_keys; by eexists|by rewrite H].
Qed.

Lemma list_to_map_entries {B} (m : gmap Z B) : list_to_map (entries m) = m.
Proof.
  apply map_eq. intros k. destruct (m !! k) as [x|] eqn:Hx.
  - apply elem_of_list_to_map_1; [rewrite entries_keys; apply keys_NoDup|by apply elem_of_entries].
  - apply not_elem_of_list_to_map_1. rewrite entries_keys, elem_of_keys, Hx. by intros [? ?].
Qed.

Lemma union_insert {B} (l : list (Z * B)) k x (m : gmap Z B) : k ∉ l.*1 -> list_to_map l ∪ <[k := x]> m = list_to_map ((k, x) :: l) ∪ m.
Proof.
  intros Hni. change (list_to_map ((k, x) :: l)) with (<[k := x]> (list_to_map l : gmap Z B)). rewrite <- insert_union_l, insert_union_r; [done|by apply not_elem_of_list_to_map_1].
Qed.

Definition tenure_entry (p : Z * TenureEarnings) : CheckpointTenure := mkCheckpointTenure p.1 (principal_display (ea_recipient p.2)) (ea_coinbase p.2) (ea_fees p.2).
Definition effects_entry (p : Z * NativeBlockEffects) : CheckpointEntry :=
  mkEntry p.1 (map (fun credit => (principal_display (cr_recipient credit), cr_amount credit)) (ef_credits p.2)) (ef_liquid_supply_increase p.2).

Lemma load_tenures_ok `{!ClarityOk} l : forall a, NoDup l.*1 -> Forall (fun p => ta_earnings a !! p.1 = None) l -> Z.of_nat (size (ta_earnings a)) + len l <= EARNINGS_KEPT ->
  load_tenures (map tenure_entry l) a = Ok (set_earnings (list_to_map l ∪ ta_earnings a) a).
Proof.
  induction l as [|[k e] l IH]; intros a Hnd Hfresh Hsize; cbn [map load_tenures].
  - rewrite list_to_map_nil, map_empty_union, set_earnings_same. done.
  - cbn [fmap list_fmap fst] in Hnd. apply NoDup_cons in Hnd as [Hni Hnd]. apply Forall_cons in Hfresh as [Hk Hfresh]. cbn [fst snd tenure_entry ct_recipient ct_coinbase_height ct_coinbase ct_fees] in *.
    rewrite principal_roundtrip. cbn [or_err]. cbn [length] in Hsize.
    assert (Hb : bounded (set_earnings (<[k := e]> (ta_earnings a)) a)) by (unfold bounded; cbn; rewrite map_size_insert_None by done; lia).
    replace (mkEarnings (ea_recipient e) (ea_coinbase e) (ea_fees e)) with e by by destruct e. unfold seed_earnings. rewrite forget_fits by done.
    rewrite IH; [|done| |].
    + f_equal. unfold set_earnings. cbn [ta_earnings ta_matured_effects ta_schedule ta_started]. f_equal. by apply union_insert.
    + cbn. apply Forall_forall. intros [j x] Hin. rewrite Forall_forall in Hfresh. rewrite lookup_insert_ne; [by apply (Hfresh (j, x))|]. intros ->. apply Hni, list_elem_of_fmap. by exists (j, x).
    + cbn. rewrite map_size_insert_None by done. lia.
Qed.

Lemma load_credits_ok `{!ClarityOk} credits : load_credits (map (fun credit => (principal_display (cr_recipient credit), cr_amount credit)) credits) = Ok credits.
Proof. induction credits as [|[r n] l IH]; [done|]. cbn. rewrite principal_roundtrip. cbn. by rewrite IH. Qed.

Lemma load_effects_ok `{!ClarityOk} l : forall a, NoDup l.*1 -> Forall (fun p => ta_matured_effects a !! p.1 = None) l ->
  load_effects (map effects_entry l) a = Ok (mkAccounting (list_to_map l ∪ ta_matured_effects a) (ta_earnings a) (ta_schedule a) (ta_started a)).
Proof.
  induction l as [|[k e] l IH]; intros a Hnd Hfresh; cbn [map load_effects].
  - rewrite list_to_map_nil, map_empty_union. by destruct a.
  - cbn [fmap list_fmap fst] in Hnd. apply NoDup_cons in Hnd as [Hni Hnd]. apply Forall_cons in Hfresh as [Hk Hfresh]. cbn [fst snd effects_entry ce_credits ce_coinbase_height ce_liquid_supply_increase] in *.
    rewrite load_credits_ok. unfold record_matured_effects. rewrite Hk. replace (mkEffects (ef_credits e) (ef_liquid_supply_increase e)) with e by by destruct e.
    rewrite IH; [|done|].
    + cbn [ta_earnings ta_matured_effects ta_schedule ta_started]. f_equal. f_equal. by apply union_insert.
    + cbn. apply Forall_forall. intros [j x] Hin. rewrite Forall_forall in Hfresh. rewrite lookup_insert_ne; [by apply (Hfresh (j, x))|]. intros ->. apply Hni, list_elem_of_fmap. by exists (j, x).
Qed.

Lemma checkpoint_restores `{!ClarityOk} a : bounded a -> from_checkpoint (to_checkpoint a) = Ok a.
Proof.
  intros Ha. unfold from_checkpoint, to_checkpoint. cbn [tc_tenures tc_matured_effects tc_coinbase_schedule tc_started].
  replace (map _ (entries (ta_earnings a))) with (map tenure_entry (entries (ta_earnings a))) by (apply map_ext; by intros [? ?]).
  replace (map _ (entries (ta_matured_effects a))) with (map effects_entry (entries (ta_matured_effects a))) by (apply map_ext; by intros [? ?]).
  rewrite load_tenures_ok; [|rewrite entries_keys; apply keys_NoDup|by apply Forall_forall|].
  - cbn [set_earnings ta_earnings ta_matured_effects ta_schedule ta_started]. rewrite load_effects_ok; [|rewrite entries_keys; apply keys_NoDup|by apply Forall_forall].
    cbn. rewrite !list_to_map_entries, !map_union_empty. by destruct a.
  - cbn. rewrite map_size_empty. replace (length (entries (ta_earnings a))) with (size (ta_earnings a)); [exact Ha|]. by rewrite <- keys_length, <- entries_keys, length_fmap.
Qed.

(** The accounting survives its checkpoint: what [to_checkpoint] writes, [from_checkpoint]
    reads back as it was, where no more earnings are held than are kept. *)
Theorem accounting_roundtrip `{!ClarityOk} a : bounded a -> from_checkpoint (to_checkpoint a) = Ok a.
Proof. apply checkpoint_restores. Qed.

(** ** Payouts and schedules *)

(** What is derived for a tenure leaves no anchored fees in its first credit. *)
Theorem derived_payout_amounts a network h effects : ta_matured_effects a !! h = None -> effects_for_tenure a network h = Some (Ok effects) ->
  matured_reward_amounts effects = Some (ef_liquid_supply_increase effects, 0).
Proof.
  intros Hn. unfold effects_for_tenure. rewrite Hn. destruct (h <=? MINER_REWARD_MATURITY); [by intros [= <-]|]. destruct (ta_earnings a !! _) as [earned|]; [|done].
  assert (Hamounts : forall r n, matured_reward_amounts (mkEffects [mkCredit (ea_recipient earned) (ea_coinbase earned); mkCredit r n] (ea_coinbase earned)) = Some (ea_coinbase earned, 0)).
  { intros r n. unfold matured_reward_amounts, checked_sub. cbn. rewrite Z.leb_refl. cbn. by rewrite Z.sub_diag. }
  destruct (ta_earnings a !! saturating_sub _ 1) as [previous|]; cbn [mbind option_bind]; [intros [= <-]; apply Hamounts|].
  destruct (principal_parse _) as [boot|]; cbn [mbind option_bind]; [intros [= <-]; apply Hamounts|done].
Qed.

(** Fees are added to a tenure exactly where it is the one that was started last and is known. *)
Lemma add_fees_spec a h fees k : ta_earnings (add_fees h fees a) !! k =
  if decide (ta_started a = Some h /\ k = h) then (fun e => mkEarnings (ea_recipient e) (ea_coinbase e) (saturating_add U128_MAX (ea_fees e) fees)) <$> ta_earnings a !! k else ta_earnings a !! k.
Proof.
  unfold add_fees. case_bool_decide as Hs; cbn [negb].
  - cbn. destruct (decide (k = h)) as [->|Hne]; [rewrite decide_True by done; by rewrite lookup_alter_eq|]. rewrite decide_False by (by intros [_ ?]). by rewrite lookup_alter_ne.
  - by rewrite decide_False by (by intros [? _]).
Qed.

End Accounts.

(** The emission of a height is that of the last interval that has started. *)
Lemma emission_of_spec intervals height : StronglySorted (fun a b => a.1 <= b.1) intervals ->
  match List.find (fun '(start, _) => start <=? height) (rev intervals) with
  | Some (start, emission) => emission_of intervals height = emission /\ start <= height /\ (start, emission) ∈ intervals /\ forall s e, (s, e) ∈ intervals -> s <= height -> s <= start
  | None => emission_of intervals height = 0 /\ forall s e, (s, e) ∈ intervals -> height < s
  end.
Proof.
  intros Hs. unfold emission_of. induction intervals as [|[s e] l IH] using rev_ind; [cbn; split; [done|by intros ? ? ?%not_elem_of_nil]|]. rewrite rev_app_distr. cbn [rev app List.find].
  assert (Hl : StronglySorted (fun a b : Z * Z => a.1 <= b.1) l) by (by eapply StronglySorted_app_1_l). specialize (IH Hl).
  assert (Hle : forall x, x ∈ l -> x.1 <= s) by (intros x Hx; apply (StronglySorted_app_1_elem_of _ l [(s, e)] x (s, e) Hs); [done|by left]).
  destruct (Z.leb_spec s height) as [Hsh|Hsh].
  - split_and!; [done..|set_solver|]. intros s' e' Hin Hh. apply elem_of_app in Hin as [Hin|Hin]; [exact (Hle _ Hin)|]. apply list_elem_of_singleton in Hin. injection Hin as -> ->. lia.
  - destruct (List.find _ (rev l)) as [[start emission]|].
    + destruct IH as (H1 & H2 & H3 & H4). split_and!; [done..|set_solver|]. intros s' e' Hin Hh. apply elem_of_app in Hin as [Hin|Hin]; [by eapply H4|].
      apply list_elem_of_singleton in Hin. injection Hin as -> ->. lia.
    + destruct IH as [H1 H2]. split; [done|]. intros s' e' Hin. apply elem_of_app in Hin as [Hin|Hin]; [by eapply H2|]. apply list_elem_of_singleton in Hin. injection Hin as -> ->. lia.
Qed.

(** What a sortition collects is the bonus of every block since the last one and the emissions
    of the blocks between them, where the sum fits. *)
Theorem accumulated_sum (s : CoinbaseSchedule) height previous : 0 <= cs_initial_mining_bonus s -> previous <= height ->
  let total := (height - previous) * cs_initial_mining_bonus s + zsum (map (emission_at s) (seqZ (previous + 1) (height - previous - 1))) in
  total <= U128_MAX -> accumulated_at s height (Some previous) = total.
Proof.
  intros Hb Hle. cbn zeta. unfold accumulated_at.
  assert (Hpos : forall h, 0 <= emission_at s h).
  { intros h. unfold emission_at, emission_of. destruct (List.find _ _) as [[start emission]|] eqn:Hf; [|done]. apply List.find_some in Hf as [Hin _]. apply in_rev in Hin.
    destruct (cs_mainnet s); cbn in Hin; naive_solver lia. }
  assert (Hz : forall l, 0 <= zsum (map (emission_at s) l)) by (intros l; apply zsum_nonneg, Forall_forall; intros x Hx; apply list_elem_of_fmap in Hx as (h & -> & _); apply Hpos).
  assert (Hloop : forall n h acc, Z.to_nat (h - previous) = n -> previous <= h -> 0 <= acc ->
            acc + ((h - previous) * cs_initial_mining_bonus s + zsum (map (emission_at s) (seqZ (previous + 1) (h - previous - 1)))) <= U128_MAX ->
            accumulate s n h previous acc = acc + ((h - previous) * cs_initial_mining_bonus s + zsum (map (emission_at s) (seqZ (previous + 1) (h - previous - 1))))).
  { induction n as [|n IH]; intros h acc Hn Hh Hacc Hfit; cbn [accumulate].
    - assert (h = previous) as -> by lia. rewrite Z.sub_diag, seqZ_nil by lia. cbn [map]. change (zsum []) with 0. lia.
    - rewrite (proj2 (Z.leb_gt h previous)) by lia. destruct (Z.ltb_spec previous (h - 1)) as [Hlt|Hlt].
      + assert (Hseq : seqZ (previous + 1) (h - previous - 1) = seqZ (previous + 1) (h - 1 - previous - 1) ++ [h - 1]).
        { replace (h - previous - 1) with ((h - 1 - previous - 1) + 1) by lia. rewrite seqZ_app by lia. f_equal. rewrite seqZ_cons, seqZ_nil by lia. f_equal. lia. }
        rewrite Hseq, map_app, zsum_app in Hfit |- *. cbn [map zsum foldr] in Hfit |- *. pose proof (Hpos (h - 1)). pose proof (Hz (seqZ (previous + 1) (h - 1 - previous - 1))).
        replace ((h - previous) * cs_initial_mining_bonus s) with (cs_initial_mining_bonus s + (h - 1 - previous) * cs_initial_mining_bonus s) in Hfit |- * by ring.
        assert (0 <= (h - 1 - previous) * cs_initial_mining_bonus s) by nia. unfold saturating_add. rewrite (Z.min_r _ (acc + _)) by lia. rewrite Z.min_r by lia. rewrite IH by lia. lia.
      + assert (h = previous + 1) as -> by lia. replace (previous + 1 - previous) with 1 in Hfit |- * by lia. rewrite seqZ_nil in Hfit |- * by lia. cbn [map] in Hfit |- *.
        change (zsum []) with 0 in Hfit |- *. unfold saturating_add. rewrite Z.min_r by lia. destruct n; [cbn [accumulate]; lia|lia]. }
  intros Hfit. rewrite Hloop; [lia|done|done|lia|lia].
Qed.
