(* ===== verification/PostConditions.v ===== *)
(** * Post-conditions: [check_postconditions] of [crates/nano-chainstate/src/lib.rs]

    What a transaction's post-conditions say of the assets it moved, and which moves
    they leave uncovered. [AssetMap] is a type of the [clarity] crate. *)

From stdpp Require Import gmap.
From S2P Require Import Prelude Primitives Address TxData Clarity.

Section Assets.
Context `{CL : Clarity}.

(** [clarity::vm::contexts::AssetMapEntry]. *)
Inductive AssetMapEntry : Type :=
| EntryStx (amount : Z)
| EntryBurn (amount : Z)
| EntryToken (amount : Z)
| EntryAsset (values : list Value).

(** Why a transaction is aborted; the text is left out. *)
Inductive PostConditionFailure : Type :=
| StxFailed (principal : PrincipalData)
| FungibleFailed (principal : PrincipalData) (asset : AssetIdentifier)
| NonFungibleFailed (principal : PrincipalData) (asset : AssetIdentifier)
| StakingFailed (principal : PrincipalData)
| PoxFailed (principal : PrincipalData)
| NonFungibleUncovered (principal : PrincipalData) (asset : AssetIdentifier)
| FungibleUncovered (principal : PrincipalData) (asset : AssetIdentifier)
| StakingUncovered
| PoxUncovered.

(** [clarity::vm::contexts::AssetMap]. *)
Class AssetMaps : Type := {
  AssetMap : Type;
  get_stx : AssetMap -> PrincipalData -> option Z;
  get_stx_burned : AssetMap -> PrincipalData -> option Z;
  get_fungible_tokens : AssetMap -> PrincipalData -> AssetIdentifier -> option Z;
  get_nonfungible_tokens : AssetMap -> PrincipalData -> AssetIdentifier -> option (list Value);
  get_stacking : AssetMap -> PrincipalData -> option Z;
  did_pox_action : AssetMap -> PrincipalData -> bool;
  get_all_stacking : AssetMap -> list PrincipalData;
  get_all_pox_actions : AssetMap -> list PrincipalData;
  to_table : AssetMap -> list (PrincipalData * list (AssetIdentifier * AssetMapEntry));
}.

End Assets.

Section PostConditions.
Context `{CL : Clarity} `{AM : !AssetMaps}.

Definition matches_fungible_condition (condition : FungibleCondition) (expected actual : Z) : bool :=
  match condition with
  | SentEqual => actual =? expected
  | SentGreater => expected <? actual
  | SentGreaterEqual => expected <=? actual
  | SentLess => actual <? expected
  | SentLessEqual => actual <=? expected
  end.

Definition matches_nonfungible_condition (condition : NonFungibleCondition) (moved : bool) : bool :=
  match condition with DoesSend => moved | DoesNotSend => negb moved | MaySend => true end.

Definition matches_pox_condition (condition : PoxCondition) (performed : bool) : bool :=
  match condition with NotPerformed => negb performed | MaybePerformed => true | Performed => performed end.

Definition postcondition_principal (principal : PostConditionPrincipal) (origin : PrincipalData) : option PrincipalData :=
  match principal with
  | PcOrigin => Some origin
  | PcStandard address => principal_from_address address
  | PcContract address contract_name => principal_from_codec (PrincipalContract address contract_name)
  end.

(** The name is converted before the contract. *)
Definition asset_identifier (asset : AssetInfo) : option AssetIdentifier :=
  name ← clarity_name (asset_name asset);
  contract ← contract_identifier (asset_address asset) (asset_contract_name asset);
  Some (AssetOf contract name).

Definition deserialize_clarity_value (bytes : list byte) : option Value :=
  '(value, rest) ← deserialize_read bytes;
  if bool_decide (rest = []) then Some value else None.

(** What the conditions have named so far. *)
Record Checked : Type := mkChecked {
  ck_fungible : gmap PrincipalData (gset AssetIdentifier);
  ck_nonfungible : gmap PrincipalData (gmap AssetIdentifier (list Value));
  ck_staking : gset PrincipalData;
  ck_pox : gset PrincipalData;
}.

Definition nothing_checked : Checked := mkChecked ∅ ∅ ∅ ∅.

(** [checked_fungible.entry(principal).or_default()] and what is inserted. *)
Definition cover_fungible (principal : PrincipalData) (assets : gset AssetIdentifier) (c : Checked) : Checked :=
  mkChecked (<[principal := default ∅ (ck_fungible c !! principal) ∪ assets]> (ck_fungible c)) (ck_nonfungible c) (ck_staking c) (ck_pox c).

Definition cover_nonfungible (principal : PrincipalData) (asset : AssetIdentifier) (value : Value) (c : Checked) : Checked :=
  let of_principal := default ∅ (ck_nonfungible c !! principal) in
  mkChecked (ck_fungible c) (<[principal := <[asset := default [] (of_principal !! asset) ++ [value]]> of_principal]> (ck_nonfungible c)) (ck_staking c) (ck_pox c).

(** One round of the loop: an invalid transaction, a failed condition, or what is covered now. *)
Definition check_postcondition (origin : PrincipalData) (assets : AssetMap) (postcondition : PostConditionData) (c : Checked) : result unit (PostConditionFailure + Checked) :=
  match postcondition with
  | PcStx principal condition amount =>
      let? principal := or_err (postcondition_principal principal origin) tt in
      let transferred := default 0 (get_stx assets principal) in
      let burned := default 0 (get_stx_burned assets principal) in
      let? sent := or_err (checked_add U128_MAX transferred burned) tt in
      if negb (matches_fungible_condition condition amount sent) then Ok (inl (StxFailed principal)) else
      Ok (inr (cover_fungible principal ((if 0 <? transferred then {[AssetStx]} else ∅) ∪ (if 0 <? burned then {[AssetStxBurned]} else ∅)) c))
  | PcFungible principal asset condition amount =>
      let? principal := or_err (postcondition_principal principal origin) tt in
      let? asset := or_err (asset_identifier asset) tt in
      let sent := default 0 (get_fungible_tokens assets principal asset) in
      if negb (matches_fungible_condition condition amount sent) then Ok (inl (FungibleFailed principal asset)) else
      Ok (inr (cover_fungible principal {[asset]} c))
  | PcNonFungible principal asset asset_value condition =>
      let? principal := or_err (postcondition_principal principal origin) tt in
      let? asset := or_err (asset_identifier asset) tt in
      let? value := or_err (deserialize_clarity_value asset_value) tt in
      let sent := default [] (get_nonfungible_tokens assets principal asset) in
      if negb (matches_nonfungible_condition condition (bool_decide (value ∈ sent))) then Ok (inl (NonFungibleFailed principal asset)) else
      Ok (inr (cover_nonfungible principal asset value c))
  | PcStaking principal condition amount =>
      let? principal := or_err (postcondition_principal principal origin) tt in
      let staked := default 0 (get_stacking assets principal) in
      if negb (matches_fungible_condition condition amount staked) then Ok (inl (StakingFailed principal)) else
      Ok (inr (mkChecked (ck_fungible c) (ck_nonfungible c) ({[principal]} ∪ ck_staking c) (ck_pox c)))
  | PcPox principal condition =>
      let? principal := or_err (postcondition_principal principal origin) tt in
      if negb (matches_pox_condition condition (did_pox_action assets principal)) then Ok (inl (PoxFailed principal)) else
      Ok (inr (mkChecked (ck_fungible c) (ck_nonfungible c) (ck_staking c) ({[principal]} ∪ ck_pox c)))
  end.

Fixpoint check_each (origin : PrincipalData) (assets : AssetMap) (postconditions : list PostCondition) (c : Checked) : result unit (PostConditionFailure + Checked) :=
  match postconditions with
  | [] => Ok (inr c)
  | postcondition :: rest =>
      let? r := check_postcondition origin assets (pc_data postcondition) c in
      match r with inl failure => Ok (inl failure) | inr c => check_each origin assets rest c end
  end.

(** The inner loop of [check_unchecked_assets]. *)
Definition uncovered_entry (c : Checked) (principal : PrincipalData) (entry : AssetIdentifier * AssetMapEntry) : option PostConditionFailure :=
  let '(asset, entry) := entry in
  match entry with
  | EntryAsset values =>
      let covered : option (list Value) := ck_nonfungible c !! principal ≫= fun assets => assets !! asset in
      if existsb (fun value => negb (match covered with Some covered => bool_decide (value ∈ covered) | None => false end)) values then Some (NonFungibleUncovered principal asset) else None
  | _ => if negb (match ck_fungible c !! principal with Some covered => bool_decide (asset ∈ covered) | None => false end) then Some (FungibleUncovered principal asset) else None
  end.

Definition check_unchecked_assets (mode : PostConditionMode.t) (origin : PrincipalData) (assets : AssetMap) (c : Checked) : option PostConditionFailure :=
  if bool_decide (mode = PostConditionMode.Allow) then None else
  head (omap (fun '(principal, moved) =>
    if bool_decide (mode = PostConditionMode.Originator) && negb (bool_decide (principal = origin)) then None else head (omap (uncovered_entry c principal) moved)) (to_table assets)).

Definition check_unchecked_pox_actions (mode : PostConditionMode.t) (origin : PrincipalData) (assets : AssetMap) (c : Checked) : option PostConditionFailure :=
  if bool_decide (mode = PostConditionMode.Allow) then None else
  let requires_check principal := bool_decide (mode = PostConditionMode.Deny) || bool_decide (principal = origin) in
  if existsb (fun principal => requires_check principal && negb (bool_decide (principal ∈ ck_staking c))) (get_all_stacking assets) then Some StakingUncovered else
  if existsb (fun principal => requires_check principal && negb (bool_decide (principal ∈ ck_pox c))) (get_all_pox_actions assets) then Some PoxUncovered else
  None.

Definition finish_postconditions (mode : PostConditionMode.t) (origin : PrincipalData) (assets : AssetMap) (c : Checked) : option PostConditionFailure :=
  match check_unchecked_assets mode origin assets c with
  | Some failure => Some failure
  | None => check_unchecked_pox_actions mode origin assets c
  end.

Definition check_postconditions (transaction : Transaction) (origin : PrincipalData) (assets : AssetMap) : result unit (option PostConditionFailure) :=
  let? r := check_each origin assets (tx_post_conditions transaction) nothing_checked in
  Ok (match r with inl failure => Some failure | inr c => finish_postconditions (tx_post_condition_mode transaction) origin assets c end).

End PostConditions.
