(* ===== verification/PostConditionTheorems.v ===== *)
(** * What the post-conditions guarantee

    A transaction passes [check_postconditions] exactly when each condition holds of
    the assets it moved and, unless the mode allows more, every move that the mode asks
    about is named by a condition. *)

From stdpp Require Import gmap ssreflect.
From S2P Require Import Prelude Primitives Address TxData Clarity PostConditions.

Section Coverage.
Context `{CL : Clarity} `{AM : !AssetMaps}.

(** ** What a condition says, and what it names *)

Definition transferred_by (assets : AssetMap) (p : PrincipalData) : Z := default 0 (get_stx assets p).
Definition burned_by (assets : AssetMap) (p : PrincipalData) : Z := default 0 (get_stx_burned assets p).

Definition condition_holds (origin : PrincipalData) (assets : AssetMap) (pc : PostConditionData) : Prop :=
  match pc with
  | PcStx principal condition amount =>
      exists p, postcondition_principal principal origin = Some p /\ transferred_by assets p + burned_by assets p <= U128_MAX /\
        matches_fungible_condition condition amount (transferred_by assets p + burned_by assets p) = true
  | PcFungible principal asset condition amount =>
      exists p a, postcondition_principal principal origin = Some p /\ asset_identifier asset = Some a /\
        matches_fungible_condition condition amount (default 0 (get_fungible_tokens assets p a)) = true
  | PcNonFungible principal asset bytes condition =>
      exists p a v, postcondition_principal principal origin = Some p /\ asset_identifier asset = Some a /\ deserialize_clarity_value bytes = Some v /\
        matches_nonfungible_condition condition (bool_decide (v ∈ default [] (get_nonfungible_tokens assets p a))) = true
  | PcStaking principal condition amount =>
      exists p, postcondition_principal principal origin = Some p /\ matches_fungible_condition condition amount (default 0 (get_stacking assets p)) = true
  | PcPox principal condition => exists p, postcondition_principal principal origin = Some p /\ matches_pox_condition condition (did_pox_action assets p) = true
  end.

Definition names_fungible (origin : PrincipalData) (assets : AssetMap) (p : PrincipalData) (a : AssetIdentifier) (pc : PostConditionData) : Prop :=
  match pc with
  | PcStx principal _ _ => postcondition_principal principal origin = Some p /\ (a = AssetStx /\ 0 < transferred_by assets p \/ a = AssetStxBurned /\ 0 < burned_by assets p)
  | PcFungible principal asset _ _ => postcondition_principal principal origin = Some p /\ asset_identifier asset = Some a
  | _ => False
  end.

Definition names_nonfungible (origin : PrincipalData) (p : PrincipalData) (a : AssetIdentifier) (v : Value) (pc : PostConditionData) : Prop :=
  match pc with
  | PcNonFungible principal asset bytes _ => postcondition_principal principal origin = Some p /\ asset_identifier asset = Some a /\ deserialize_clarity_value bytes = Some v
  | _ => False
  end.

Definition names_staking (origin p : PrincipalData) (pc : PostConditionData) : Prop :=
  match pc with PcStaking principal _ _ => postcondition_principal principal origin = Some p | _ => False end.

Definition names_pox (origin p : PrincipalData) (pc : PostConditionData) : Prop :=
  match pc with PcPox principal _ => postcondition_principal principal origin = Some p | _ => False end.

(** Whose moves the mode asks about. *)
Definition asked (mode : PostConditionMode.t) (origin p : PrincipalData) : Prop :=
  mode = PostConditionMode.Deny \/ mode = PostConditionMode.Originator /\ p = origin.

Definition entry_named (origin : PrincipalData) (assets : AssetMap) (pcs : list PostConditionData) (p : PrincipalData) (entry : AssetIdentifier * AssetMapEntry) : Prop :=
  match entry.2 with
  | EntryAsset values => forall v, v ∈ values -> Exists (names_nonfungible origin p entry.1 v) pcs
  | _ => Exists (names_fungible origin assets p entry.1) pcs
  end.

Definition moves_named (mode : PostConditionMode.t) (origin : PrincipalData) (assets : AssetMap) (pcs : list PostConditionData) : Prop :=
  (forall p moved entry, (p, moved) ∈ to_table assets -> asked mode origin p -> entry ∈ moved -> entry_named origin assets pcs p entry) /\
  (forall p, p ∈ get_all_stacking assets -> asked mode origin p -> Exists (names_staking origin p) pcs) /\
  (forall p, p ∈ get_all_pox_actions assets -> asked mode origin p -> Exists (names_pox origin p) pcs).

(** ** What is recorded as checked *)

Definition has_fungible (c : Checked) (p : PrincipalData) (a : AssetIdentifier) : Prop := a ∈ default ∅ (ck_fungible c !! p).
Definition has_nonfungible (c : Checked) (p : PrincipalData) (a : AssetIdentifier) (v : Value) : Prop := v ∈ default [] (default ∅ (ck_nonfungible c !! p) !! a).

(** [c'] records what [c] does and what the condition of [named] names. *)
Record grows (c c' : Checked) (F : PrincipalData -> AssetIdentifier -> Prop) (N : PrincipalData -> AssetIdentifier -> Value -> Prop) (K P : PrincipalData -> Prop) : Prop := {
  grows_fungible : forall p a, has_fungible c' p a <-> has_fungible c p a \/ F p a;
  grows_nonfungible : forall p a v, has_nonfungible c' p a v <-> has_nonfungible c p a v \/ N p a v;
  grows_staking : forall p, p ∈ ck_staking c' <-> p ∈ ck_staking c \/ K p;
  grows_pox : forall p, p ∈ ck_pox c' <-> p ∈ ck_pox c \/ P p;
}.

Lemma has_fungible_cover p a q s c : has_fungible (cover_fungible q s c) p a <-> has_fungible c p a \/ (q = p /\ a ∈ s).
Proof.
  rewrite /has_fungible /cover_fungible /=. destruct (decide (q = p)) as [->|Hne].
  - rewrite lookup_insert_eq /=. set_solver.
  - rewrite lookup_insert_ne //. naive_solver.
Qed.

Lemma has_nonfungible_cover p a v q b w c : has_nonfungible (cover_nonfungible q b w c) p a v <-> has_nonfungible c p a v \/ (q = p /\ b = a /\ w = v).
Proof.
  rewrite /has_nonfungible /cover_nonfungible /=. destruct (decide (q = p)) as [->|Hne]; last first.
  { rewrite lookup_insert_ne //. naive_solver. }
  rewrite lookup_insert_eq /=. destruct (decide (b = a)) as [->|Hne].
  - rewrite lookup_insert_eq /= elem_of_app list_elem_of_singleton. naive_solver.
  - rewrite lookup_insert_ne //. naive_solver.
Qed.

Definition step_grows (origin : PrincipalData) (assets : AssetMap) (pc : PostConditionData) (c c' : Checked) : Prop :=
  grows c c' (fun p a => names_fungible origin assets p a pc) (fun p a v => names_nonfungible origin p a v pc) (fun p => names_staking origin p pc) (fun p => names_pox origin p pc).

Lemma elem_of_if_singleton {A} `{Countable A} (b : bool) (x y : A) : x ∈ (if b then {[y]} else ∅ : gset A) <-> b = true /\ x = y.
Proof. destruct b; set_solver. Qed.

(** A condition that holds is recorded. *)
Lemma check_postcondition_holds origin assets pc c : condition_holds origin assets pc -> exists c', check_postcondition origin assets pc c = Ok (inr c') /\ step_grows origin assets pc c c'.
Proof.
  destruct pc as [pr cond amount|pr asset cond amount|pr asset bytes cond|pr cond amount|pr cond]; cbn [condition_holds check_postcondition].
  - intros (p & Hp & Hle & Hm). rewrite /transferred_by /burned_by in Hle Hm. rewrite Hp. cbn [or_err]. rewrite /checked_add (proj2 (Z.leb_le _ _) Hle). cbn [or_err].
    rewrite Hm /=. eexists. split; [done|].
    split; cbn; intros; rewrite ?Hp /has_nonfungible /=; try tauto.
    rewrite has_fungible_cover elem_of_union !elem_of_if_singleton /transferred_by /burned_by !Z.ltb_lt. pose proof (inj_iff Some p p0). split; intros; destruct_or!; destruct_and?; simplify_eq; tauto.
  - intros (p & a & Hp & Ha & Hm). rewrite Hp Ha. cbn [or_err]. rewrite Hm /=. eexists. split; [done|].
    split; cbn; intros; rewrite ?Hp ?Ha /has_nonfungible /=; try tauto. rewrite has_fungible_cover elem_of_singleton. naive_solver.
  - intros (p & a & v & Hp & Ha & Hv & Hm). rewrite Hp Ha Hv. cbn [or_err]. rewrite Hm /=. eexists. split; [done|].
    split; cbn; intros; rewrite ?Hp ?Ha ?Hv /has_fungible /=; try tauto. rewrite has_nonfungible_cover. naive_solver.
  - intros (p & Hp & Hm). rewrite Hp. cbn [or_err]. rewrite Hm /=. eexists. split; [done|].
    split; cbn; intros; rewrite ?Hp /has_fungible /has_nonfungible /=; try tauto. rewrite elem_of_union elem_of_singleton. naive_solver.
  - intros (p & Hp & Hm). rewrite Hp. cbn [or_err]. rewrite Hm /=. eexists. split; [done|].
    split; cbn; intros; rewrite ?Hp /has_fungible /has_nonfungible /=; try tauto. rewrite elem_of_union elem_of_singleton. naive_solver.
Qed.

Lemma check_postcondition_ok origin assets pc c c' : check_postcondition origin assets pc c = Ok (inr c') -> condition_holds origin assets pc.
Proof.
  destruct pc as [pr cond amount|pr asset cond amount|pr asset bytes cond|pr cond amount|pr cond]; cbn [condition_holds check_postcondition].
  all: destruct (postcondition_principal pr origin) as [p|]; cbn [or_err]; [|done].
  - rewrite /checked_add. destruct (_ <=? _) eqn:Hle; cbn [or_err]; [|done]. destruct (matches_fungible_condition _ _ _) eqn:Hm; [|done]. intros _.
    exists p. split; [done|]. split; [|done]. rewrite /transferred_by /burned_by. lia.
  - destruct (asset_identifier asset) as [a|]; cbn [or_err]; [|done]. destruct (matches_fungible_condition _ _ _) eqn:Hm; [|done]. intros _. by exists p, a.
  - destruct (asset_identifier asset) as [a|]; cbn [or_err]; [|done]. destruct (deserialize_clarity_value bytes) as [v|]; cbn [or_err]; [|done].
    destruct (matches_nonfungible_condition _ _) eqn:Hm; [|done]. intros _. by exists p, a, v.
  - destruct (matches_fungible_condition _ _ _) eqn:Hm; [|done]. intros _. by exists p.
  - destruct (matches_pox_condition _ _) eqn:Hm; [|done]. intros _. by exists p.
Qed.

Definition all_grow (origin : PrincipalData) (assets : AssetMap) (pcs : list PostConditionData) (c c' : Checked) : Prop :=
  grows c c' (fun p a => Exists (names_fungible origin assets p a) pcs) (fun p a v => Exists (names_nonfungible origin p a v) pcs) (fun p => Exists (names_staking origin p) pcs)
    (fun p => Exists (names_pox origin p) pcs).

Lemma all_grow_cons origin assets pc pcs c c' c'' : step_grows origin assets pc c c' -> all_grow origin assets pcs c' c'' -> all_grow origin assets (pc :: pcs) c c''.
Proof.
  intros [F N K P] [F' N' K' P']. split; intros; rewrite Exists_cons.
  - rewrite F' F. tauto.
  - rewrite N' N. tauto.
  - rewrite K' K. tauto.
  - rewrite P' P. tauto.
Qed.

Lemma check_each_holds origin assets pcs c : Forall (condition_holds origin assets) (map pc_data pcs) ->
  exists c', check_each origin assets pcs c = Ok (inr c') /\ all_grow origin assets (map pc_data pcs) c c'.
Proof.
  induction pcs as [|pc pcs IH] in c |- *; cbn [map check_each].
  - intros _. exists c. split; [done|]. split; intros; rewrite Exists_nil; tauto.
  - intros [H Hs]%Forall_cons. destruct (check_postcondition_holds origin assets _ c H) as (c' & -> & Hg).
    destruct (IH c' Hs) as (c'' & -> & Hgs). exists c''. split; [done|]. by eapply all_grow_cons.
Qed.

Lemma check_each_ok origin assets pcs c c' : check_each origin assets pcs c = Ok (inr c') -> Forall (condition_holds origin assets) (map pc_data pcs).
Proof.
  induction pcs as [|pc pcs IH] in c |- *; cbn [map check_each]; [by constructor|].
  destruct (check_postcondition origin assets (pc_data pc) c) as [[f|c1]|] eqn:E; [done| |done]. intros H.
  constructor; [by eapply check_postcondition_ok|by eapply IH].
Qed.

(** ** What is left uncovered *)

Lemma head_omap_none {A B} (f : A -> option B) l : head (omap f l) = None <-> forall x, x ∈ l -> f x = None.
Proof.
  induction l as [|x l IH]; cbn [omap list_omap]; [set_solver|]. destruct (f x) as [y|] eqn:E; cbn.
  - split; [done|]. intros H. specialize (H x ltac:(set_solver)). congruence.
  - rewrite IH. set_solver.
Qed.

Lemma existsb_negb_none {A} (f : A -> bool) l : existsb f l = false <-> forall x, x ∈ l -> f x = false.
Proof. induction l as [|x l IH]; cbn; [set_solver|]. rewrite orb_false_iff IH. set_solver. Qed.

Lemma default_lookup {K V} `{Countable K} (o : option (gmap K (list V))) (a : K) : default [] (o ≫= (fun m => m !! a)) = default [] (default ∅ o !! a).
Proof. by destruct o as [m|]; [|rewrite /= lookup_empty]. Qed.

Lemma uncovered_entry_none c p entry :
  uncovered_entry c p entry = None <-> match entry.2 with EntryAsset values => forall v, v ∈ values -> has_nonfungible c p entry.1 v | _ => has_fungible c p entry.1 end.
Proof.
  destruct entry as [a e]. cbn [uncovered_entry fst snd].
  assert (Hf : (if negb match ck_fungible c !! p with Some covered => bool_decide (a ∈ covered) | None => false end then Some (FungibleUncovered p a) else None) = None <-> has_fungible c p a).
  { rewrite /has_fungible. destruct (ck_fungible c !! p) as [s|]; cbn; [case_bool_decide; cbn; naive_solver|set_solver]. }
  destruct e as [| | |values]; try exact Hf. clear Hf.
  transitivity (existsb (fun value => negb match ck_nonfungible c !! p ≫= (fun assets => assets !! a) with Some covered => bool_decide (value ∈ (covered : list Value)) | None => false end) values = false).
  { cbv zeta. destruct (existsb _ _); naive_solver. }
  rewrite existsb_negb_none. apply forall_proper. intros v. apply forall_proper. intros _. rewrite /has_nonfungible.
  rewrite negb_false_iff -default_lookup. destruct (ck_nonfungible c !! p ≫= _) as [vs|]; [apply bool_decide_eq_true|split; [done|by intros ?%elem_of_nil]].
Qed.

Lemma asked_not_allow mode origin p : asked mode origin p -> mode <> PostConditionMode.Allow.
Proof. intros [->|[-> _]]; done. Qed.

Lemma requires_check_spec mode origin p : mode <> PostConditionMode.Allow -> bool_decide (mode = PostConditionMode.Deny) || bool_decide (p = origin) = true <-> asked mode origin p.
Proof. intros Hm. rewrite orb_true_iff !bool_decide_eq_true /asked. destruct mode; naive_solver. Qed.

Lemma check_unchecked_assets_none mode origin assets c :
  check_unchecked_assets mode origin assets c = None <->
  forall p moved entry, (p, moved) ∈ to_table assets -> asked mode origin p -> entry ∈ moved -> uncovered_entry c p entry = None.
Proof.
  rewrite /check_unchecked_assets. case_bool_decide as Hm.
  { split; [|done]. intros _ p moved entry _ Ha _. by destruct (asked_not_allow _ _ _ Ha). }
  rewrite head_omap_none. split.
  - intros H p moved entry Hin Ha. specialize (H _ Hin). cbn in H. revert H.
    destruct Ha as [->|[-> ->]]; [rewrite /= head_omap_none; eauto|]. rewrite bool_decide_eq_true_2 //= bool_decide_eq_true_2 //= head_omap_none. eauto.
  - intros H [p moved] Hin. destruct (_ && _) eqn:E; [done|]. apply head_omap_none. intros entry He. eapply H; [done| |done].
    apply not_true_iff_false in E. revert E. rewrite andb_true_iff negb_true_iff bool_decide_eq_true bool_decide_eq_false /asked. destruct (decide (p = origin)), mode; tauto.
Qed.

Lemma uncovered_none mode origin (s : gset PrincipalData) (l : list PrincipalData) : mode <> PostConditionMode.Allow ->
  existsb (fun p => (bool_decide (mode = PostConditionMode.Deny) || bool_decide (p = origin)) && negb (bool_decide (p ∈ s))) l = false <-> forall p, p ∈ l -> asked mode origin p -> p ∈ s.
Proof.
  intros Hm. rewrite existsb_negb_none. apply forall_proper. intros p. apply forall_proper. intros _.
  rewrite andb_false_iff negb_false_iff bool_decide_eq_true -(requires_check_spec _ _ p Hm). destruct (_ || _); naive_solver.
Qed.

Lemma check_unchecked_pox_actions_none mode origin assets c :
  check_unchecked_pox_actions mode origin assets c = None <->
  (forall p, p ∈ get_all_stacking assets -> asked mode origin p -> p ∈ ck_staking c) /\ (forall p, p ∈ get_all_pox_actions assets -> asked mode origin p -> p ∈ ck_pox c).
Proof.
  rewrite /check_unchecked_pox_actions. case_bool_decide as Hm.
  { split; [|done]. intros _. split; intros p _ Ha; by destruct (asked_not_allow _ _ _ Ha). }
  rewrite -!(uncovered_none _ _ _ _ Hm). destruct (existsb _ _); [naive_solver|]. destruct (existsb _ _); naive_solver.
Qed.

Lemma finish_postconditions_none mode origin assets pcs c : all_grow origin assets pcs nothing_checked c ->
  finish_postconditions mode origin assets c = None <-> moves_named mode origin assets pcs.
Proof.
  intros [F N K P].
  assert (HF : forall p a, has_fungible c p a <-> Exists (names_fungible origin assets p a) pcs) by (intros; rewrite F /has_fungible /= lookup_empty /=; set_solver).
  assert (HN : forall p a v, has_nonfungible c p a v <-> Exists (names_nonfungible origin p a v) pcs).
  { intros; rewrite N /has_nonfungible /= lookup_empty /= lookup_empty /=. set_solver. }
  transitivity (check_unchecked_assets mode origin assets c = None /\ check_unchecked_pox_actions mode origin assets c = None).
  { rewrite /finish_postconditions. destruct (check_unchecked_assets _ _ _ _); naive_solver. }
  rewrite check_unchecked_assets_none check_unchecked_pox_actions_none /moves_named. f_equiv; [|f_equiv; apply forall_proper; intros p].
  - do 3 (apply forall_proper; intros ?). do 3 (apply forall_proper; intros _). rewrite uncovered_entry_none /entry_named.
    destruct (x1.2); try apply HF. apply forall_proper. intros v. by rewrite HN.
  - by rewrite K /= elem_of_empty left_id.
  - by rewrite P /= elem_of_empty left_id.
Qed.

(** C35: check_postconditions passes a transaction exactly when every condition it
    carries holds of the assets it moved and every move its mode asks about is named
    by a condition: in Allow mode none, in Deny mode every move of every principal, in
    Originator mode those of the origin. *)
Theorem check_postconditions_spec transaction origin assets :
  check_postconditions transaction origin assets = Ok None <->
  let conditions := map pc_data (tx_post_conditions transaction) in
  Forall (condition_holds origin assets) conditions /\ moves_named (tx_post_condition_mode transaction) origin assets conditions.
Proof.
  rewrite /check_postconditions. cbv zeta. split.
  - destruct (check_each _ _ _ _) as [[f|c]|] eqn:E; [done| |done]. intros [= H]. pose proof (check_each_ok _ _ _ _ _ E) as Hs. split; [done|].
    destruct (check_each_holds _ _ _ nothing_checked Hs) as (c' & E' & Hg). rewrite E in E'. injection E' as ->. by apply (finish_postconditions_none _ _ _ _ _ Hg).
  - intros [Hs Hm]. destruct (check_each_holds _ _ _ nothing_checked Hs) as (c' & -> & Hg). f_equal. by apply (finish_postconditions_none _ _ _ _ _ Hg).
Qed.

End Coverage.
