(* ===== verification/ChainLedger.v ===== *)
(** * The virtual machine as the chain state drives it

    [Vm] of [crates/nano-vm/src/lib.rs] runs Clarity over the MARF. The chain state
    opens a block on it, runs transactions that commit or roll back, and seals or
    aborts the block; it is an interface here, with the records both crates exchange
    and the table of its side store that holds the rows of sealed ledgers. The values
    and costs of the [clarity] crate are parameters.

    And the ledger beside the MARF: [ChainLedger] and the checks that read it, of [crates/nano-chainstate/src/lib.rs]. *)

From stdpp Require Import gmap sorting.
From Stdlib Require Import Strings.String.
From S2P Require Import Prelude Primitives Address CodecIO Crypto TxData TxCodec TxAuth Nakamoto Signers SortitionRules Effects ProposalExecution BlockRules.
From S2P Require Import Clarity TenureRewards PostConditions.

(** ** The rows of sealed ledgers *)

(** The table [chain_ledger] of the side store: under a block's identifier its sequence
    and its data. *)
Abbreviation LedgerTable := (gmap (list byte) (Z * list byte)).

Definition LEDGER_HISTORY : Z := 256.

(** [MAX(sequence)], which is [NULL] over no row. *)
Definition max_sequence (rows : LedgerTable) : option Z := map_fold (fun _ row m => Some (default row.1 (Z.max row.1 <$> m))) None rows.

(** The two statements of [write_ledger]: a block keeps the sequence it was first written
    at, and rows out of the window go. *)
Definition upsert_ledger (block ledger : list byte) (rows : LedgerTable) : LedgerTable :=
  match rows !! block with
  | Some (sequence, _) => <[block := (sequence, ledger)]> rows
  | None => <[block := (default 0 (max_sequence rows) + 1, ledger)]> rows
  end.

Definition prune_ledgers (rows : LedgerTable) : LedgerTable :=
  match max_sequence rows with
  | Some newest => filter (fun entry => newest - LEDGER_HISTORY < entry.2.1) rows
  | None => rows
  end.

Definition write_ledger (block ledger : list byte) (rows : LedgerTable) : LedgerTable := prune_ledgers (upsert_ledger block ledger rows).

(** [clarity::vm::costs::ExecutionCost]. *)
Record ExecutionCost : Type := mkCost { co_write_length : Z; co_write_count : Z; co_read_length : Z; co_read_count : Z; co_runtime : Z }.

Definition cost_zero : ExecutionCost := mkCost 0 0 0 0 0.

Definition EPOCH_4_BLOCK_LIMIT : ExecutionCost := mkCost 15000000 15000 200000000 30000 5000000000.

(** What the code builds and reads of Clarity values beside [Clarity]. *)
Class ClarityValues `{CL : Clarity} : Type := {
  UInt : Z -> Value;
  PrincipalValue : PrincipalData -> Value;
  okay_true : Value;
  err_none : Value;
  value_none : Value;
  (** [Value::some], [Value::buff_from], [TupleData::from_data] and a list can be refused. *)
  value_some : Value -> option Value;
  buff_from : list byte -> option Value;
  buff_from_byte : byte -> Value;
  tuple_from_data : list (string * Value) -> option Value;
  cons_list_unsanitized : list Value -> option Value;
  serialize_to_vec : Value -> option (list byte);
  (** A committed response's data. *)
  committed_response : Value -> option Value;
  expect_u128 : Value -> option Z;
  expect_principal : Value -> option PrincipalData;
  expect_optional : Value -> option (option Value);
  expect_list : Value -> option (list Value);
  expect_buff : Z -> Value -> option (list byte);
  expect_tuple : Value -> option (list (string * Value));
  (** The issuer and the name of a contract; [boot_code_id]; the issuer as a principal. *)
  contract_issuer : QualifiedContractIdentifier -> Z * list byte;
  contract_name_bytes : QualifiedContractIdentifier -> list byte;
  boot_code_id : string -> bool -> QualifiedContractIdentifier;
  standard_of : Z * list byte -> PrincipalData;
}.

Section Types.
Context `{CL : Clarity} `{AM : !AssetMaps}.

Class VmTypes : Type := {
  Vm : Type;
  MarfStoreError : Type;
  VmExecutionError : Type;
  ClarityEvalError : Type;
  StacksTransactionEvent : Type;
  stx_mint_event : PrincipalData -> Z -> StacksTransactionEvent;
  no_assets : AssetMap;
  CostTracker : Type;
  free_tracker : CostTracker;
  (** [ExecutionCost::add] and [sub] change the cost and say whether they could; [exceeds]. *)
  cost_add : ExecutionCost -> ExecutionCost -> bool * ExecutionCost;
  cost_sub : ExecutionCost -> ExecutionCost -> bool * ExecutionCost;
  cost_exceeds : ExecutionCost -> ExecutionCost -> bool;
  (** [nano_vm::is_contract_analysis_failure], and its question of a call's error, asked of texts. *)
  analysis_failure : ClarityEvalError -> bool;
  call_analysis_failure : VmExecutionError -> bool;
}.

End Types.

Section Vm.
Context `{CL : Clarity} `{AM : !AssetMaps} `{VT : !VmTypes}.

Record TransactionResult : Type := mkResult {
  tr_value : option Value;
  tr_cost : ExecutionCost;
  tr_assets : AssetMap;
  tr_events : list StacksTransactionEvent;
}.

Definition set_cost (cost : ExecutionCost) (r : TransactionResult) : TransactionResult := mkResult (tr_value r) cost (tr_assets r) (tr_events r).
Definition add_events (events : list StacksTransactionEvent) (r : TransactionResult) : TransactionResult := mkResult (tr_value r) (tr_cost r) (tr_assets r) (tr_events r ++ events).

Inductive ContractCallOutcome : Type :=
| CallSuccess (result : TransactionResult)
| CallAbortedByResponse (result : TransactionResult)
| CallRuntimeFailure (cost : ExecutionCost) (error : VmExecutionError).

Inductive DeploymentOutcome : Type :=
| DeploymentSuccess (result : TransactionResult)
| AnalysisFailure (cost : ExecutionCost) (error : ClarityEvalError).

(** What Clarity may later read about a block. *)
Record BlockHeader : Type := mkBlockHeader {
  bh_burn_header_hash : list byte;
  bh_burn_block_height : Z;
  bh_burn_block_time : Z;
  bh_stacks_block_time : Z;
  bh_block_header_hash : list byte;
  bh_consensus_hash : list byte;
  bh_vrf_seed : list byte;
  bh_miner_address : Z * list byte;
  bh_burn_spend_total : Z;
  bh_burn_spend_winner : Z;
  bh_block_reward : Z;
  bh_tenure_height : Z;
  bh_tenure_start_height : Z;
}.

Record SealedDecision : Type := mkSealedDecision { sd_content_hash : list byte; sd_record : list byte }.

Record BlockCommit : Type := mkCommit { bc_header : BlockHeader; bc_ledger : list byte; bc_decision : option SealedDecision }.

(** A method of the [Vm]. *)
Definition VmOp (E A : Type) : Type := Vm -> result E A * Vm.

Class Vms : Type := {
  (** The network it was opened for. *)
  vm_network : Network.t;
  (** The store. *)
  vm_tip : Vm -> result MarfStoreError (option (list byte));
  set_checkpoint_height : list byte -> Z -> VmOp MarfStoreError unit;
  begin_block_execution : option (list byte) -> list byte -> BitcoinBlockContext -> VmOp MarfStoreError unit;
  abort_block : VmOp MarfStoreError unit;
  begin_transaction : VmOp MarfStoreError unit;
  commit_transaction : VmOp MarfStoreError unit;
  rollback_transaction : VmOp MarfStoreError unit;
  pending_state_root : Vm -> result MarfStoreError (list byte);
  commit_block : list byte -> BlockCommit -> VmOp MarfStoreError (list byte);
  chain_ledger : Vm -> LedgerTable;
  stand_on_tenure_starts : list (Z * Z) -> Vm -> Vm;
  recorded_header : list byte -> Vm -> option BlockHeader;
  record_block_header : list byte -> BlockHeader -> VmOp MarfStoreError unit;
  (** The block's Clarity state. *)
  setup_block_metadata : Z -> VmOp VmExecutionError unit;
  tenure_height : VmOp VmExecutionError Z;
  set_tenure_height : Z -> VmOp VmExecutionError unit;
  process_scheduled_unlocks : VmOp VmExecutionError (Z * list StacksTransactionEvent);
  increment_liquid_stx_supply : Z -> VmOp VmExecutionError unit;
  (** Accounts. *)
  account_nonce : PrincipalData -> VmOp VmExecutionError Z;
  set_account_nonce : PrincipalData -> Z -> VmOp VmExecutionError unit;
  debit_fee : PrincipalData -> Z -> VmOp VmExecutionError unit;
  touch_stx_balance : PrincipalData -> VmOp VmExecutionError unit;
  credit_stx : PrincipalData -> Z -> VmOp VmExecutionError unit;
  (** Payloads. *)
  transaction_cost_tracker_with_total : ExecutionCost -> VmOp VmExecutionError CostTracker;
  transfer_stx : PrincipalData -> PrincipalData -> Z -> list byte -> CostTracker -> VmOp VmExecutionError TransactionResult;
  deploy_contract_outcome : QualifiedContractIdentifier -> ClarityVersion.t -> list byte -> CostTracker -> VmOp ClarityEvalError DeploymentOutcome;
  execute_contract_call_outcome : PrincipalData -> option PrincipalData -> QualifiedContractIdentifier -> list byte -> list (list byte) -> CostTracker -> VmOp VmExecutionError ContractCallOutcome;
  call_contract_values : PrincipalData -> QualifiedContractIdentifier -> string -> list Value -> VmOp VmExecutionError Value;
}.

(** [ledger_at] of the store. *)
Definition recorded_ledger `{VM : !Vms} (block : list byte) (vm : Vm) : option (list byte) := snd <$> chain_ledger vm !! block.

(** ** Receipts and errors *)

Inductive TransactionStatus : Type :=
| Success
| AbortedByResponse
| PostConditionAborted (reason : PostConditionFailure)
| RuntimeFailure (error : ClarityEvalError + VmExecutionError).

Record TransactionReceipt : Type := mkReceipt {
  rc_txid : Sha256Sum;
  rc_status : TransactionStatus;
  rc_committed : bool;
  rc_result : TransactionResult;
}.

End Vm.

(** * The ledger beside the MARF: [ChainLedger] and the checks that read it, of
      [crates/nano-chainstate/src/lib.rs]

    What a block changes outside the virtual machine's state: the tenure accounting,
    where tenures started, the blocks executed last and the proof of the last tenure;
    its encoding for the row a seal commits; the rules that hold a block against it;
    and how a retraction goes back to what an earlier block sealed. *)

Definition REORG_REACH : Z := 256.

(** ** The rules of a tenure's proof *)

Inductive TenureVrfError : Type := MissingLeaderKey | MissingParentProof | MissingProof | MalformedProof | ProofNotFromLeaderKey | SeedNotFromParentProof.

Definition coinbase_vrf_proof (block : NakamotoBlock) : option (list byte) :=
  find_map (fun transaction => match tx_data transaction with NakamotoCoinbase _ _ vrf_proof => Some vrf_proof | _ => None end) (bl_transactions block).

Section Proofs.
Context `{HS : Hashes} `{ED : Edwards}.

Definition vrf_seed_from_proof (proof : list byte) : list byte := sha512_256 proof.

(** [fuel] bounds the search of the hash to the curve, which panics beyond it. *)
Definition verify_vrf_proof (fuel : nat) (proof leader_vrf_public_key sortition_hash : list byte) : option (result TenureVrfError unit) :=
  match VrfPublicKey.from_bytes leader_vrf_public_key with
  | Err _ => Some (Err MalformedProof)
  | Ok public_key =>
      match VrfProof.from_bytes proof with
      | Err _ => Some (Err MalformedProof)
      | Ok proof =>
          verified ← Vrf.verify fuel public_key proof sortition_hash;
          Some (match verified with Ok true => Ok tt | _ => Err ProofNotFromLeaderKey end)
      end
  end.

Definition verify_coinbase_vrf_proof (fuel : nat) (block : NakamotoBlock) (leader_vrf_public_key sortition_hash : list byte) : option (result TenureVrfError unit) :=
  match coinbase_vrf_proof block with
  | None => Some (Err MissingProof)
  | Some proof => verify_vrf_proof fuel proof leader_vrf_public_key sortition_hash
  end.

Definition verify_committed_vrf_seed (committed_seed parent_tenure_proof : list byte) : result TenureVrfError unit :=
  if bool_decide (vrf_seed_from_proof parent_tenure_proof = committed_seed) then Ok tt else Err SeedNotFromParentProof.

End Proofs.

(** ** The ledger *)

Record ExecutedHeader : Type := mkExecuted { eh_block_id : list byte; eh_consensus_hash : list byte; eh_tenure_height : Z }.

#[global] Instance ExecutedHeader_eq_dec : EqDecision ExecutedHeader. Proof. solve_decision. Defined.

Section Ledger.
Context `{HS : Hashes} `{CL : Clarity}.

Record ChainLedger : Type := mkLedger {
  cl_accounting : TenureAccounting;
  cl_tenure_start_heights : gmap Z Z;
  cl_tenure_start_blocks : gmap Z (list byte);
  cl_executed : list ExecutedHeader;
  cl_parent_tenure_proof : option (list byte);
}.

Definition ledger_default : ChainLedger := mkLedger (mkAccounting ∅ ∅ None None) ∅ ∅ [] None.

Definition set_accounting (a : TenureAccounting) (l : ChainLedger) : ChainLedger := mkLedger a (cl_tenure_start_heights l) (cl_tenure_start_blocks l) (cl_executed l) (cl_parent_tenure_proof l).
Definition set_starts (heights : gmap Z Z) (blocks : gmap Z (list byte)) (l : ChainLedger) : ChainLedger := mkLedger (cl_accounting l) heights blocks (cl_executed l) (cl_parent_tenure_proof l).
Definition set_executed (executed : list ExecutedHeader) (l : ChainLedger) : ChainLedger := mkLedger (cl_accounting l) (cl_tenure_start_heights l) (cl_tenure_start_blocks l) executed (cl_parent_tenure_proof l).
Definition set_parent_tenure_proof (proof : option (list byte)) (l : ChainLedger) : ChainLedger := mkLedger (cl_accounting l) (cl_tenure_start_heights l) (cl_tenure_start_blocks l) (cl_executed l) proof.

(** The row's form; [hex] and JSON are of their crates. *)
Record ExecutedBlockRecord : Type := mkExecutedRecord { er_block_id : list byte; er_consensus_hash : list byte; er_tenure_height : Z }.

Record ChainLedgerRecord : Type := mkLedgerRecord {
  lr_accounting : TenureAccountingCheckpoint;
  lr_tenure_start_heights : list (Z * Z);
  lr_tenure_start_blocks : list (Z * list byte);
  lr_executed : list ExecutedBlockRecord;
  lr_parent_tenure_proof : option (list byte);
}.

Class LedgerCodec : Type := {
  to_hex : list byte -> list byte;
  of_hex : list byte -> option (list byte);
  ledger_to_vec : ChainLedgerRecord -> option (list byte);
  ledger_from_slice : list byte -> option ChainLedgerRecord;
}.

Class LedgerCodecOk `{LedgerCodec} : Prop := {
  of_to_hex : forall b, of_hex (to_hex b) = Some b;
  ledger_written : forall r, is_Some (ledger_to_vec r);
  ledger_read_back : forall r bytes, ledger_to_vec r = Some bytes -> ledger_from_slice bytes = Some r;
}.

Context `{LC : LedgerCodec}.

(** [None] is the [Ledger] error of [encode] and [decode]; [decode_hex] is the fixed-width reading of a field. *)
Definition ledger_hex (width : nat) (value : list byte) : option (list byte) :=
  bytes ← of_hex value; if bool_decide (length bytes = width) then Some bytes else None.

Definition executed_record (block : ExecutedHeader) : ExecutedBlockRecord := mkExecutedRecord (to_hex (eh_block_id block)) (to_hex (eh_consensus_hash block)) (eh_tenure_height block).

Definition ledger_record (l : ChainLedger) : ChainLedgerRecord :=
  mkLedgerRecord (to_checkpoint (cl_accounting l)) (entries (cl_tenure_start_heights l)) (map (fun '(tenure, block) => (tenure, to_hex block)) (entries (cl_tenure_start_blocks l)))
    (map executed_record (cl_executed l)) (to_hex <$> cl_parent_tenure_proof l).

Definition ledger_encode (l : ChainLedger) : option (list byte) := ledger_to_vec (ledger_record l).

Definition executed_of_record (block : ExecutedBlockRecord) : option ExecutedHeader :=
  block_id ← ledger_hex 32 (er_block_id block); consensus_hash ← ledger_hex 20 (er_consensus_hash block); Some (mkExecuted block_id consensus_hash (er_tenure_height block)).

(** [collect] into a [BTreeMap]: of two entries with one key the later stays. *)
Definition from_entries {A} (l : list (Z * A)) : gmap Z A := foldl (fun m '(k, v) => <[k := v]> m) ∅ l.

Definition ledger_decode (bytes : list byte) : option ChainLedger :=
  record ← ledger_from_slice bytes;
  executed ← mapM executed_of_record (lr_executed record);
  proof ← match lr_parent_tenure_proof record with Some proof => Some <$> ledger_hex 80 proof | None => Some None end;
  blocks ← mapM (fun '(tenure, block) => pair tenure <$> ledger_hex 32 block) (lr_tenure_start_blocks record);
  match from_checkpoint (lr_accounting record) with
  | Err _ => None
  | Ok accounting => Some (mkLedger accounting (from_entries (lr_tenure_start_heights record)) (from_entries blocks) executed proof)
  end.

(** ** What a block's tenure change says of the tenure before *)

Definition check_tenure_continuity (ledger : ChainLedger) (block : NakamotoBlock) (parent : option (list byte)) : result ConsensusError.t unit :=
  match tenure_change_payload block with
  | None => Ok tt
  | Some payload =>
      let? parent := or_err parent ConsensusError.TenureChangeParentUnavailable in
      let? executed := or_err (List.find (fun executed => bool_decide (eh_block_id executed = parent)) (rev (cl_executed ledger))) ConsensusError.TenureChangeParentUnavailable in
      if negb (bool_decide (previous_tenure_consensus_hash payload = eh_consensus_hash executed)) then Err ConsensusError.TenureChangeParentTenure else
      let? start := or_err (cl_tenure_start_heights ledger !! eh_tenure_height executed) ConsensusError.TenureChangeLengthUnavailable in
      let? parent_height := or_err (checked_sub (hd_chain_length (bl_header block)) 1) ConsensusError.TenureChangeLengthUnavailable in
      let? blocks := or_err (distance ← checked_sub parent_height start; count ← checked_add U64_MAX distance 1; try_from U32_MAX count) ConsensusError.TenureChangeLengthUnavailable in
      if negb (blocks =? previous_tenure_blocks payload) then Err (ConsensusError.TenureChangeBlockCount (previous_tenure_blocks payload) blocks) else
      Ok tt
  end.

End Ledger.
