(* ===== verification/ChainState.v ===== *)
(** * The chain state: [ChainState] of [crates/nano-chainstate/src/lib.rs]

    The virtual machine and the ledger beside it; what a block must satisfy before any of
    it runs; what sealing it notes; and the retractions that take blocks off the executed
    chain. A text in an error is left out. *)

From stdpp Require Import gmap.
From Stdlib Require Import Strings.String.
From S2P Require Import Prelude Primitives Address CodecIO Crypto TxData TxCodec TxAuth Nakamoto Signers SortitionRules SnapshotChain Effects ProposalExecution.
From S2P Require Import Clarity BlockRules TenureRewards PostConditions ChainLedger.

Section Errors.
Context `{CL : Clarity} `{AM : !AssetMaps} `{VT : !VmTypes}.

Inductive ChainStateError : Type :=
| Storage (e : MarfStoreError)
| Evaluation (e : ClarityEvalError)
| Execution (e : VmExecutionError)
| TransactionExecution (txid : Sha256Sum) (height : Z) (e : VmExecutionError)
| InvalidTransaction
| Consensus (e : ConsensusError.t)
| TransactionFailure (result : TransactionResult) (status : TransactionStatus)
| UnsupportedPayload
| NoSignerSet (cycle : Z)
| StateRootMismatch (expected actual : list byte)
| FixtureExtensionParentTip (expected : list byte) (actual : option (list byte))
| FixtureExtensionParentHeader (block : list byte)
| LedgerError.

(** [refusal_kind] of [src/decision.rs]. *)
Definition refusal_kind (error : ChainStateError) : RefusalKind :=
  match error with
  | Consensus consensus => consensus_kind consensus
  | Storage _ | LedgerError => StorageKind
  | StateRootMismatch _ _ => StateRootMismatchKind
  | NoSignerSet _ => SignerSetKind
  | Evaluation _ | Execution _ | TransactionExecution _ _ _ | TransactionFailure _ _ => ExecutionKind
  | FixtureExtensionParentTip _ _ | FixtureExtensionParentHeader _ => ParentMismatchKind
  | InvalidTransaction | UnsupportedPayload => TransactionKind
  end.

End Errors.

(** What a reorganization took off the executed chain. *)
Record ChainRetraction : Type := mkRetraction { rt_resume_from : option (list byte); rt_discarded : list (list byte) }.

Section State.
Context `{HS : Hashes} `{SE : Secp256k1} `{ED : Edwards} `{CL : Clarity} `{AM : !AssetMaps} `{VT : !VmTypes} `{VM : !Vms} `{LC : !LedgerCodec}.

Record ChainState : Type := mkChainState { cs_vm : Vm; cs_ledger : ChainLedger }.

Abbreviation M := (Eff ChainState ChainStateError).

Definition set_ledger (l : ChainLedger) (s : ChainState) : ChainState := mkChainState (cs_vm s) l.
Definition set_vm (vm : Vm) (s : ChainState) : ChainState := mkChainState vm (cs_ledger s).
Definition change_ledger (f : ChainLedger -> ChainLedger) : M unit := modify (fun s => set_ledger (f (cs_ledger s)) s).

(** The three [From] conversions of an error of the virtual machine. *)
Definition vm_op {E A} (f : E -> ChainStateError) (op : VmOp E A) : M A := fun s => let '(r, vm) := op (cs_vm s) in Some (map_err f r, set_vm vm s).
Definition store {A} (op : VmOp MarfStoreError A) : M A := vm_op Storage op.
Definition run {A} (op : VmOp VmExecutionError A) : M A := vm_op Execution op.
Definition query {A} (f : Vm -> result MarfStoreError A) : M A := fun s => Some (map_err Storage (f (cs_vm s)), s).

(** [ok_or_else] of an invalid transaction, and a check that may panic. *)
Definition valid {A} (o : option A) : M A := try_with (fun _ => InvalidTransaction) (or_err o tt).
Definition checked {E A} (f : E -> ChainStateError) (o : option (result E A)) : M A := fun s => match o with Some r => Some (map_err f r, s) | None => None end.

(** A call whose error the code keeps as a value. *)
Definition attempt {A} (m : M A) : M (result ChainStateError A) := fun s => match m s with Some (r, s) => Some (Ok r, s) | None => None end.

Definition network_of (s : ChainState) : Network.t := vm_network.

Definition execution_tip : M (option (list byte)) := fun s =>
  match last (cl_executed (cs_ledger s)) with Some block => Some (Ok (Some (eh_block_id block)), s) | None => query vm_tip s end.

Definition heights_of (l : ChainLedger) : list (Z * Z) := entries (cl_tenure_start_heights l).

Definition adopt (sealed : ChainLedger) : M unit := change_ledger (fun _ => sealed).

Definition recover_ledger_at (block : list byte) : M bool := fun s =>
  match recorded_ledger block (cs_vm s) with
  | None => Some (Ok false, s)
  | Some encoded =>
      match ledger_decode encoded with
      | None => Some (Err LedgerError, s)
      | Some ledger => Some (Ok true, mkChainState (stand_on_tenure_starts (heights_of ledger) (cs_vm s)) ledger)
      end
  end.

(** The parent as the last block executed, from its recorded header. *)
Definition extend_fixture (parent : list byte) (header : BlockHeader) : M unit := fun s =>
  let l := cs_ledger s in
  let ledger := mkLedger (cl_accounting l) (<[bh_tenure_height header := bh_tenure_start_height header]> (cl_tenure_start_heights l)) (cl_tenure_start_blocks l)
    (cl_executed l ++ [mkExecuted parent (bh_consensus_hash header) (bh_tenure_height header)]) (cl_parent_tenure_proof l) in
  Some (Ok tt, mkChainState (stand_on_tenure_starts (heights_of ledger) (cs_vm s)) ledger).

Definition seed_unauthenticated_fixture_extension_from_parent_header (parent : list byte) : M unit :=
  actual ← query vm_tip;
  if negb (bool_decide (actual = Some parent)) then throw (FixtureExtensionParentTip parent actual) else
  header ← ask (fun s => recorded_header parent (cs_vm s));
  match header with
  | None => throw (FixtureExtensionParentHeader parent)
  | Some header => extend_fixture parent header
  end.

Definition tenure_start_height (s : ChainState) (tenure_height : Z) : option Z := cl_tenure_start_heights (cs_ledger s) !! tenure_height.

Definition tenure_start (s : ChainState) (consensus_hash : list byte) : option (list byte * Z) :=
  block ← List.find (fun block => bool_decide (eh_consensus_hash block = consensus_hash)) (rev (cl_executed (cs_ledger s)));
  start ← cl_tenure_start_blocks (cs_ledger s) !! eh_tenure_height block;
  height ← cl_tenure_start_heights (cs_ledger s) !! eh_tenure_height block;
  Some (start, height).

(** ** Before a block runs *)

Definition check_miner_won_the_sortition (block : NakamotoBlock) (context : BitcoinBlockContext) (operations : list BitcoinOperation) : option (result ConsensusError.t unit) :=
  match cx_winner_vrf_public_key context with
  | None => Some (Err ConsensusError.WinnerVrfKeyUnavailable)
  | Some vrf_public_key =>
      match (match registered_signing_key_hash operations vrf_public_key with Some hash => Some hash | None => cx_winner_signing_key_hash context end) with
      | None => Some (Err ConsensusError.WinnerSigningKeyUnavailable)
      | Some signing_key_hash => verify_miner_signature (bl_header block) signing_key_hash
      end
  end.

Definition check_tenure_vrf (fuel : nat) (ledger : ChainLedger) (block : NakamotoBlock) (context : BitcoinBlockContext) : option (result TenureVrfError unit) :=
  match cx_winner_vrf_public_key context with
  | None => Some (Err MissingLeaderKey)
  | Some key =>
      verified ← verify_coinbase_vrf_proof fuel block key (cx_sortition_hash context);
      Some (
        let? _ := verified in
        let? parent_proof := or_err (cl_parent_tenure_proof ledger) MissingParentProof in
        verify_committed_vrf_seed (cx_vrf_seed context) parent_proof)
  end.

Definition check_tenure_vrf_if_starting (fuel : nat) (block : NakamotoBlock) (context : BitcoinBlockContext) : M unit :=
  if negb (starts_new_tenure block) then mret tt else
  ledger ← ask cs_ledger;
  checked (fun _ => InvalidTransaction) (check_tenure_vrf fuel ledger block context).

Definition check_before_executing (fuel : nat) (block : NakamotoBlock) (parent : option (list byte)) (context : BitcoinBlockContext) (operations : list BitcoinOperation) (assembled : bool) : M unit :=
  _ ← match parent with
      | Some parent =>
          parent_height ← valid (checked_sub (hd_chain_length (bl_header block)) 2);
          height ← valid (try_from U32_MAX parent_height);
          store (set_checkpoint_height parent height)
      | None => mret tt
      end;
  network ← ask network_of;
  _ ← checked Consensus (authenticate_block block network (if assembled then Pending else Present));
  ledger ← ask cs_ledger;
  _ ← try_with Consensus (check_tenure_continuity ledger block parent);
  _ ← (if assembled then mret tt else checked Consensus (check_miner_won_the_sortition block context operations));
  check_tenure_vrf_if_starting fuel block context.

(** ** What sealing a block notes *)

Definition note_executed_block (block : NakamotoBlock) (context : BitcoinBlockContext) : M BlockHeader :=
  tenure ← run tenure_height;
  stacks_height ← valid (try_from U32_MAX (hd_chain_length (bl_header block)));
  id ← unwrap (block_id block);
  _ ← change_ledger (fun l =>
        let heights := cl_tenure_start_heights l in
        let blocks := cl_tenure_start_blocks l in
        let first_seen := negb (bool_decide (is_Some (heights !! tenure))) in
        let blocks := if starts_new_tenure block then match blocks !! tenure with Some _ => blocks | None => <[tenure := id]> blocks end
                      else if first_seen then delete tenure blocks else blocks in
        let executed := cl_executed l ++ [mkExecuted id (hd_consensus_hash (bl_header block)) tenure] in
        set_executed (drop (Z.to_nat (len executed - REORG_REACH)) executed) (set_starts (if first_seen then <[tenure := stacks_height]> heights else heights) blocks l));
  ledger ← ask cs_ledger;
  burn_height ← valid (try_from U32_MAX (cx_height context));
  hash ← unwrap (block_hash (bl_header block));
  let miner := match earnings_at (cl_accounting ledger) tenure with Some earnings => default (0, replicate 20 0%u8) (standard_principal (ea_recipient earnings)) | None => (0, replicate 20 0%u8) end in
  mret (mkBlockHeader (cx_burn_header_hash context) burn_height (cx_burn_block_time context) (hd_timestamp (bl_header block)) hash (hd_consensus_hash (bl_header block)) (cx_vrf_seed context) miner
          (cx_burn_spend_total context) (cx_burn_spend_winner context) (reward_for_tenure (cl_accounting ledger) tenure) tenure (default stacks_height (cl_tenure_start_heights ledger !! tenure))).

Definition backfill_block_header (block : NakamotoBlock) (context : BitcoinBlockContext) : M unit :=
  header ← note_executed_block block context;
  id ← unwrap (block_id block);
  store (record_block_header id header).

(** ** Retractions *)

(** What [stand_on] rewinds where the block's ledger cannot be read back. *)
Definition rewind_ledger (discarded_from_tenure : Z) (l : ChainLedger) : ChainLedger :=
  mkLedger (retract_from discarded_from_tenure (cl_accounting l)) (below discarded_from_tenure (cl_tenure_start_heights l)) (below discarded_from_tenure (cl_tenure_start_blocks l)) (cl_executed l) None.

Definition rewind (discarded_from_tenure : Z) (s : ChainState) : ChainState :=
  let ledger := rewind_ledger discarded_from_tenure (cs_ledger s) in
  mkChainState (stand_on_tenure_starts (heights_of ledger) (cs_vm s)) ledger.

Definition stand_on (resume_from : option (list byte)) (discarded_from_tenure : Z) (s : ChainState) : ChainState :=
  match resume_from with
  | Some block => match recover_ledger_at block s with Some (Ok true, s) => s | _ => rewind discarded_from_tenure s end
  | None => rewind discarded_from_tenure s
  end.

(** The blocks from a position on leave the chain. *)
Definition split_off (position : nat) (s : ChainState) : list ExecutedHeader * ChainState :=
  let executed := cl_executed (cs_ledger s) in
  (drop position executed, set_ledger (set_executed (take position executed) (cs_ledger s)) s).

Definition last_executed (s : ChainState) : option (list byte) := eh_block_id <$> last (cl_executed (cs_ledger s)).

Definition retract_at (position : nat) (resume_from : option (list byte)) (s : ChainState) : ChainRetraction * ChainState :=
  let '(discarded, s) := split_off position s in
  (mkRetraction resume_from (map eh_block_id discarded), match discarded with first :: _ => stand_on resume_from (eh_tenure_height first) s | [] => s end).

Definition position_of_block (wanted : ExecutedHeader -> bool) (s : ChainState) : option nat := fst <$> list_find wanted (cl_executed (cs_ledger s)).

Definition retract (reorg : SortitionReorg) (s : ChainState) : ChainRetraction * ChainState :=
  let invalidated := invalidated_consensus_hashes reorg in
  match position_of_block (fun block => bool_decide (eh_consensus_hash block ∈ invalidated)) s with
  | None => (mkRetraction (last_executed s) [], s)
  | Some fork => retract_at fork (last_executed (split_off fork s).2) s
  end.

Definition retract_to (block_id : list byte) (s : ChainState) : ChainRetraction * ChainState :=
  match position_of_block (fun block => bool_decide (eh_block_id block = block_id)) s with
  | None => (mkRetraction (last_executed s) [], s)
  | Some position => retract_at (S position) (Some block_id) s
  end.

(** ** What was executed *)

(** The loop of [executed_tenures], newest first; [tenures] is built backwards. *)
Definition push_tenure (tenures : list (list byte)) (block : ExecutedHeader) : list (list byte) :=
  if bool_decide (last tenures = Some (eh_consensus_hash block)) then tenures else tenures ++ [eh_consensus_hash block].

Definition executed_tenures (s : ChainState) : list (list byte) := foldl push_tenure [] (rev (cl_executed (cs_ledger s))).

Definition last_block_of_tenure (s : ChainState) (consensus_hash : list byte) : option (list byte) :=
  eh_block_id <$> List.find (fun block => bool_decide (eh_consensus_hash block = consensus_hash)) (rev (cl_executed (cs_ledger s))).

Definition has_executed (s : ChainState) (block_id : list byte) : bool := existsb (fun block => bool_decide (eh_block_id block = block_id)) (cl_executed (cs_ledger s)).

Definition executed_blocks (s : ChainState) : list (list byte) := map eh_block_id (cl_executed (cs_ledger s)).

End State.
