(* ===== verification/SignerElection.v ===== *)
(** * The signer set of a reward cycle: [crates/nano-chainstate/src/signers.rs]

    Which cycle a prepare phase sets up, the walk over the [pox-5] positions stacked for
    it, their apportionment, the set that is written to and read from [.signers], and the
    output a waterfall cycle pays. *)

From stdpp Require Import gmap.
From Stdlib Require Import Strings.String.
From S2P Require Import Prelude Primitives Address CodecIO Crypto TxData TxCodec Nakamoto Signers SortitionRules Sbtc Effects ProposalExecution.
From S2P Require Import Clarity TenureRewards PostConditions ChainLedger ChainState.
Local Open Scope string_scope.
Local Open Scope Z_scope.

Definition REWARD_OUTPUTS_PER_COMMIT : Z := 2.
Definition SBTC_REGISTRY_MAINNET : string := "SM3VDXK3WZZSA84XXFKAFAF15NNZX32CTSG82JFQ4.sbtc-registry".
Definition CONTRACT_PRINCIPAL_PREFIX : byte := 6%u8.
Definition MAINNET_SINGLE_SIGNATURE_VERSION : Z := 22.
Definition TESTNET_SINGLE_SIGNATURE_VERSION : Z := 26.

(** The sum of the phases is of [u32]s and panics where it overflows. *)
Definition prepare_phase_reward_cycle (context : BitcoinBlockContext) : option (option Z) :=
  length ← checked_add U32_MAX (cx_prepare_phase_length context) (cx_reward_phase_length context);
  let height := BitcoinBlockContext.tenure_burn_height context in
  if (height <=? cx_first_height context) || (length =? 0) then Some None else
  let effective := height - cx_first_height context in
  let index := effective mod length in
  if negb (index =? 0) && (index <=? length - cx_prepare_phase_length context) then Some None else
  let cycle := effective / length in
  Some (Some (if index =? 0 then cycle else cycle + 1)).

Definition reward_cycle_at (context : BitcoinBlockContext) : option Z :=
  let length := cx_prepare_phase_length context + cx_reward_phase_length context in
  if (cx_height context <=? cx_first_height context) || (length =? 0) then None else
  Some ((cx_height context - cx_first_height context) / length).

Section Election.
Context `{HS : Hashes} `{SE : Secp256k1} `{ED : Edwards} `{CL : Clarity} `{CV : !ClarityValues} `{AM : !AssetMaps} `{VT : !VmTypes} `{VM : !Vms} `{LC : !LedgerCodec} `{XO : Sbtc.XOnly}.

Abbreviation M := (Eff ChainState ChainStateError).

Record DerivedRewardSet : Type := mkDerived { dr_reward_cycle : Z; dr_signers : list Signer; dr_stacked : list Z; dr_pox_ustx_threshold : Z }.

Definition boot_contract (network : Network.t) (name : string) : QualifiedContractIdentifier := boot_code_id name (Network.is_mainnet network).
Definition boot_sender (network : Network.t) : PrincipalData := standard_of (contract_issuer (boot_contract network "signers")).

Definition signing_principal (network : Network.t) (public_key : secp_pk) : PrincipalData :=
  standard_of (if Network.is_mainnet network then MAINNET_SINGLE_SIGNATURE_VERSION else TESTNET_SINGLE_SIGNATURE_VERSION, hash160 (StacksPublicKey.to_bytes_compressed public_key)).

(** ** Reads of the boot contracts *)

Definition call_as_boot (contract : QualifiedContractIdentifier) (function : string) (arguments : list Value) : M Value :=
  network ← ask network_of;
  run (call_contract_values (boot_sender network) contract function arguments).

Definition response_data (value : Value) : Value := default value (committed_response value).

Definition read_u128 (contract : QualifiedContractIdentifier) (function : string) (arguments : list Value) : M Z :=
  value ← call_as_boot contract function arguments;
  valid (expect_u128 (response_data value)).

Definition read_optional (contract : QualifiedContractIdentifier) (function : string) (arguments : list Value) : M (option Value) :=
  value ← call_as_boot contract function arguments;
  valid (expect_optional value).

(** [.map(expect_principal).transpose()?]. *)
Definition optional_principal (value : option Value) : M (option PrincipalData) :=
  match value with Some value => principal ← valid (expect_principal value); mret (Some principal) | None => mret None end.

Definition expect_buffer (value : Value) : option (list byte) := expect_buff 33 value.

(** ** The positions of a cycle *)

(** What one signer of the list adds: nothing where an entry is malformed. *)
Definition stake_entry (pox : QualifiedContractIdentifier) (lookup cycle : Value) : M (option (secp_pk * Z)) :=
  info ← attempt (read_optional pox "get-signer-info" [lookup]);
  match info with
  | Ok (Some key) =>
      match (bytes ← expect_buffer key; match StacksPublicKey.from_bytes bytes with Ok key => Some key | Err _ => None end) with
      | None => mret None
      | Some key =>
          amount ← attempt (read_u128 pox "get-amount-delegated-for-signer" [lookup; cycle]);
          mret (match amount with Ok amount => if amount =? 0 then None else Some (key, amount) | Err _ => None end)
      end
  | _ => mret None
  end.

(** The loop of [stake_entries]: it does not end on a list that returns to a signer, and
    [fuel] is the number of signers it visits at most. *)
Fixpoint walk_stakers (fuel : nat) (pox : QualifiedContractIdentifier) (cycle : Value) (current : option PrincipalData) (entries : list (secp_pk * Z)) : M (list (secp_pk * Z)) :=
  match current with
  | None => mret entries
  | Some signer =>
      match fuel with
      | O => unwrap None
      | S fuel =>
          let lookup := PrincipalValue signer in
          next ← read_optional pox "get-signer-set-next-item-for-cycle" [lookup; cycle];
          next ← optional_principal next;
          entry ← stake_entry pox lookup cycle;
          walk_stakers fuel pox cycle next (entries ++ option_list entry)
      end
  end.

Definition stake_entries (fuel : nat) (reward_cycle : Z) : M (list (secp_pk * Z)) :=
  network ← ask network_of;
  let pox := boot_contract network "pox-5" in
  let cycle := UInt reward_cycle in
  current ← read_optional pox "get-signer-set-first-item-for-cycle" [cycle];
  current ← optional_principal current;
  walk_stakers fuel pox cycle current [].

Definition add_amount (amounts : gmap (list byte) Z) (staker : secp_pk * Z) : gmap (list byte) Z :=
  let key := StacksPublicKey.to_bytes_compressed staker.1 in
  <[key := saturating_add U128_MAX (default 0 (amounts !! key)) staker.2]> amounts.

Definition derive_signer_set (fuel : nat) (reward_cycle reward_slots : Z) : M DerivedRewardSet :=
  stakers ← stake_entries fuel reward_cycle;
  if bool_decide (stakers = []) then throw (NoSignerSet reward_cycle) else
  let amounts := foldl add_amount ∅ stakers in
  apportioned ← try_with (fun _ => InvalidTransaction) (from_reward_slots stakers reward_slots);
  let '(signers, threshold) := apportioned in
  mret (mkDerived reward_cycle signers (map (fun signer => default 0 (amounts !! StacksPublicKey.to_bytes_compressed (sg_public_key signer))) signers) threshold).

(** [reward_phase_length * REWARD_OUTPUTS_PER_COMMIT], of [u32]s. *)
Definition reward_slots (context : BitcoinBlockContext) : option Z := try_from U32_MAX (cx_reward_phase_length context * REWARD_OUTPUTS_PER_COMMIT).

Definition active_signer_set (fuel : nat) (context : BitcoinBlockContext) : M DerivedRewardSet :=
  match reward_cycle_at context with
  | None => throw (NoSignerSet 0)
  | Some cycle => slots ← unwrap (reward_slots context); derive_signer_set fuel cycle slots
  end.

(** ** The set that is recorded *)

Definition signer_entry (value : Value) : option (Hash160 * Z) :=
  tuple ← expect_tuple value;
  signer ← snd <$> List.find (fun '(name, _) => String.eqb name "signer") tuple;
  signer ← expect_principal signer;
  weight ← snd <$> List.find (fun '(name, _) => String.eqb name "weight") tuple;
  weight ← expect_u128 weight;
  address ← standard_principal signer;
  weight ← try_from U32_MAX weight;
  Some (address.2, weight).

Definition recorded_signer_set (context : BitcoinBlockContext) : M SignerWeights.t :=
  match reward_cycle_at context with
  | None => throw (NoSignerSet 0)
  | Some cycle =>
      network ← ask network_of;
      recorded ← attempt (read_optional (boot_contract network "signers") "get-signers" [UInt cycle]);
      match recorded with
      | Ok (Some recorded) =>
          recorded ← valid (expect_list recorded);
          entries ← valid (mapM signer_entry recorded);
          if bool_decide (entries = []) then throw (NoSignerSet cycle) else
          try_with (fun _ => InvalidTransaction) (SignerWeights.new entries)
      | _ => throw (NoSignerSet cycle)
      end
  end.

Definition tuple_list (principals : list PrincipalData) (set : list Signer) (field : string) (value : Z -> Value) : M Value :=
  entries ← valid (mapM (fun '(principal, signer) => tuple_from_data [("signer", PrincipalValue principal); (field, value (sg_weight signer))]) (zip principals set));
  valid (cons_list_unsanitized entries).

Definition update_signer_set (fuel : nat) (context : BitcoinBlockContext) (coinbase_height : Z) : M (option DerivedRewardSet) :=
  cycle ← unwrap (prepare_phase_reward_cycle context);
  match cycle with
  | None => mret None
  | Some reward_cycle =>
      network ← ask network_of;
      let signers := boot_contract network "signers" in
      last_set_cycle ← attempt (read_u128 signers "get-last-set-cycle" []);
      match last_set_cycle with
      | Err _ => mret None
      | Ok last_set_cycle =>
          if reward_cycle <=? last_set_cycle then mret None else
          slots ← unwrap (reward_slots context);
          derived ← derive_signer_set fuel reward_cycle slots;
          let set := dr_signers derived in
          let principals := map (fun signer => signing_principal network (sg_public_key signer)) set in
          slots ← tuple_list principals set "num-slots" (fun _ => UInt 1);
          weights ← tuple_list principals set "weight" UInt;
          _ ← call_as_boot signers "stackerdb-set-signer-slots" [slots; UInt reward_cycle; UInt coinbase_height];
          _ ← call_as_boot signers "set-signers" [UInt reward_cycle; weights];
          mret (Some derived)
      end
  end.

(** ** The waterfall's output *)

Definition sbtc_registry_contract (network : Network.t) (configured : option (list byte)) : option QualifiedContractIdentifier :=
  name ← (if Network.is_mainnet network then Some (list_byte_of_string SBTC_REGISTRY_MAINNET) else configured);
  contract_parse name.

Definition contract_principal_bytes (contract : QualifiedContractIdentifier) : list byte :=
  let name := contract_name_bytes contract in
  let '(version, hash) := contract_issuer contract in
  CONTRACT_PRINCIPAL_PREFIX :: byte_of version :: hash ++ byte_of (if len name <=? 255 then len name else 255) :: name.

Definition sbtc_payout_address (configured : option (list byte)) : M PoxAddress.t :=
  network ← ask network_of;
  registry ← valid (sbtc_registry_contract network configured);
  value ← run (call_contract_values (standard_of (contract_issuer registry)) registry "get-current-aggregate-pubkey" []);
  key ← valid (expect_buffer (response_data value));
  if negb (bool_decide (length key = 33%nat)) then throw InvalidTransaction else
  output ← try_with (fun _ => InvalidTransaction) (Sbtc.sbtc_pox5_deposit_taproot_output_key key (contract_principal_bytes (boot_contract network "pox-5")));
  mret (PoxAddress.Addr32 (Network.is_mainnet network) PoxAddress.Type32_P2tr output).

End Election.
