(* ===== verification/TransactionExecution.v ===== *)
(** * Executing one transaction, of [crates/nano-chainstate/src/lib.rs]

    A transaction runs inside a transaction of the store, which commits with its receipt,
    or rolls back: wholly where the transaction has no place in a block, and to charge its
    fee again where it ran and failed. The operations a Bitcoin block carries for a tenure
    run the same way. *)

From stdpp Require Import gmap.
From Stdlib Require Import Strings.String.
From S2P Require Import Prelude Primitives Address CodecIO Crypto TxData TxCodec TxAuth Nakamoto Signers SortitionRules Sbtc Effects ProposalExecution.
From S2P Require Import Clarity BlockRules TenureRewards PostConditions ChainLedger ChainState SignerElection.
Local Open Scope string_scope.
Local Open Scope Z_scope.

Section Transactions.
Context `{HS : Hashes} `{SE : Secp256k1} `{ED : Edwards} `{CL : Clarity} `{CV : !ClarityValues} `{AM : !AssetMaps} `{VT : !VmTypes} `{VM : !Vms} `{LC : !LedgerCodec}.

Abbreviation M := (Eff ChainState ChainStateError).

Inductive PayloadOutcome : Type :=
| PayloadSuccess (result : TransactionResult)
| PayloadAborted (result : TransactionResult)
| PayloadFailure (result : TransactionResult) (error : ClarityEvalError + VmExecutionError).

Definition increment_nonce (nonce : Z) : option Z := checked_add U64_MAX nonce 1.

Definition is_coinbase (transaction : Transaction) : bool := any_coinbase (tx_data transaction).

(** The result of a transaction that is no user's: [okay_true] at no cost. *)
Definition no_result (value : Value) (cost : ExecutionCost) : TransactionResult := mkResult (Some value) cost no_assets [].

Definition system_transaction (transaction : Transaction) : bool := is_coinbase transaction || a_tenure_change (tx_data transaction).

Definition system_receipt (transaction : Transaction) (id : Sha256Sum) : TransactionReceipt := mkReceipt id Success true (no_result okay_true cost_zero).

Definition failed_deployment (error : ClarityEvalError) (cost : ExecutionCost) : M (TransactionResult * option (ClarityEvalError + VmExecutionError)) :=
  if negb (analysis_failure error) then throw (Evaluation error) else mret (no_result err_none cost, Some (inl error)).

Definition deploy (origin : StacksAddress.t) (version : ClarityVersion.t) (contract_name source : list byte) (tracker : CostTracker) : M (TransactionResult * option (ClarityEvalError + VmExecutionError)) :=
  contract ← valid (contract_identifier origin contract_name);
  outcome ← vm_op Evaluation (deploy_contract_outcome contract version source tracker);
  match outcome with
  | DeploymentSuccess result => mret (result, None)
  | AnalysisFailure cost error => failed_deployment error cost
  end.

Definition update_transaction_nonces (sender payer : PrincipalData) (sponsored : bool) (transaction : Transaction) : M unit :=
  origin_nonce ← valid (increment_nonce (condition_nonce (auth_origin (tx_auth transaction))));
  _ ← run (set_account_nonce sender origin_nonce);
  if sponsored then
    payer_nonce ← valid (increment_nonce (condition_nonce (auth_payer (tx_auth transaction))));
    run (set_account_nonce payer payer_nonce)
  else mret tt.

(** What the payload did, whether its call was aborted by its response, and whether it failed. *)
Definition run_payload (transaction : Transaction) (origin : StacksAddress.t) (sender : PrincipalData) (sponsor : option PrincipalData) (tracker : CostTracker)
  : M (TransactionResult * bool * option (ClarityEvalError + VmExecutionError)) :=
  match tx_data transaction with
  | TokenTransfer recipient amount memo =>
      recipient ← valid (principal_from_codec recipient);
      result ← run (transfer_stx sender recipient amount memo tracker);
      mret (result, false, None)
  | SmartContract contract_name source => r ← deploy origin ClarityVersion.Clarity6 contract_name source tracker; mret (r.1, false, r.2)
  | VersionedSmartContract clarity_version contract_name source => r ← deploy origin clarity_version contract_name source tracker; mret (r.1, false, r.2)
  | ContractCall address contract_name function_name arguments =>
      contract ← valid (contract_identifier address contract_name);
      outcome ← run (execute_contract_call_outcome sender sponsor contract function_name arguments tracker);
      match outcome with
      | CallSuccess result => mret (result, false, None)
      | CallAbortedByResponse result => mret (result, true, None)
      | CallRuntimeFailure cost error =>
          if call_analysis_failure error then throw InvalidTransaction else mret (no_result err_none cost, false, Some (inr error))
      end
  | _ => throw UnsupportedPayload
  end.

Definition execute_payload (transaction : Transaction) (origin : StacksAddress.t) (sender : PrincipalData) (sponsor : option PrincipalData) (execution_cost : ExecutionCost) : M PayloadOutcome :=
  tracker ← run (transaction_cost_tracker_with_total execution_cost);
  outcome ← run_payload transaction origin sender sponsor tracker;
  let '(result, aborted_by_response, runtime_error) := (outcome : TransactionResult * bool * option (ClarityEvalError + VmExecutionError)) in
  let '(possible, cost) := cost_sub (tr_cost result) execution_cost in
  if negb possible then throw InvalidTransaction else
  let result := set_cost cost result in
  mret (match runtime_error with
        | Some error => PayloadFailure result error
        | None => if aborted_by_response then PayloadAborted result else PayloadSuccess result
        end).

(** [.map(principal_from_address).transpose()?]. *)
Definition optional_sponsor (transaction : Transaction) : M (option PrincipalData) :=
  match sponsor_address transaction with Some address => sponsor ← valid (principal_from_address address); mret (Some sponsor) | None => mret None end.

Definition prepare_user_transaction (transaction : Transaction) (sender : PrincipalData) : M (option PrincipalData) :=
  sponsor ← optional_sponsor transaction;
  nonce ← run (account_nonce sender);
  if negb (nonce =? condition_nonce (auth_origin (tx_auth transaction))) then throw InvalidTransaction else
  let payer := default sender sponsor in
  nonce ← run (account_nonce payer);
  if negb (nonce =? condition_nonce (auth_payer (tx_auth transaction))) then throw InvalidTransaction else
  _ ← run (debit_fee payer (condition_fee (auth_payer (tx_auth transaction))));
  mret sponsor.

Definition execute_system_transaction (transaction : Transaction) (sender : PrincipalData) (receipt : TransactionReceipt) : M TransactionReceipt :=
  let fee := condition_fee (auth_payer (tx_auth transaction)) in
  _ ← run (if fee =? 0 then touch_stx_balance sender else debit_fee sender fee);
  nonce ← valid (increment_nonce (condition_nonce (auth_origin (tx_auth transaction))));
  _ ← run (set_account_nonce sender nonce);
  mret receipt.

Definition is_token_transfer (transaction : Transaction) : bool := match tx_data transaction with TokenTransfer _ _ _ => true | _ => false end.

(** The check of the post-conditions of a payload that succeeded. *)
Definition settle_post_conditions (transaction : Transaction) (sender : PrincipalData) (result : TransactionResult) : M unit :=
  if is_token_transfer transaction then
    if bool_decide (tx_post_conditions transaction = []) then mret tt else throw InvalidTransaction
  else
    failed ← try_with (fun _ => InvalidTransaction) (check_postconditions transaction sender (tr_assets result));
    match failed with Some reason => throw (TransactionFailure result (PostConditionAborted reason)) | None => mret tt end.

Definition execute_user_transaction (transaction : Transaction) (origin : StacksAddress.t) (sender : PrincipalData) (execution_cost : ExecutionCost) : M TransactionReceipt :=
  sponsor ← prepare_user_transaction transaction sender;
  let payer := default sender sponsor in
  let sponsored := bool_decide (is_Some sponsor) in
  outcome ← execute_payload transaction origin sender sponsor execution_cost;
  match outcome with
  | PayloadAborted result =>
      _ ← update_transaction_nonces sender payer sponsored transaction;
      id ← unwrap (txid transaction);
      mret (mkReceipt id AbortedByResponse false result)
  | PayloadFailure result error => throw (TransactionFailure result (RuntimeFailure error))
  | PayloadSuccess result =>
      _ ← settle_post_conditions transaction sender result;
      _ ← update_transaction_nonces sender payer sponsored transaction;
      id ← unwrap (txid transaction);
      mret (mkReceipt id Success true result)
  end.

Definition execute_transaction_in_transaction (transaction : Transaction) (execution_cost : ExecutionCost) : M TransactionReceipt :=
  origin ← valid (origin_address transaction);
  sender ← valid (principal_from_address origin);
  if system_transaction transaction then
    id ← unwrap (txid transaction);
    execute_system_transaction transaction sender (system_receipt transaction id)
  else execute_user_transaction transaction origin sender execution_cost.

Definition apply_transaction_failure (transaction : Transaction) (result : TransactionResult) (status : TransactionStatus) : M TransactionReceipt :=
  origin ← valid (origin_address transaction);
  sender ← valid (principal_from_address origin);
  sponsor ← optional_sponsor transaction;
  let payer := default sender sponsor in
  _ ← run (debit_fee payer (condition_fee (auth_payer (tx_auth transaction))));
  _ ← update_transaction_nonces sender payer (bool_decide (is_Some sponsor)) transaction;
  id ← unwrap (txid transaction);
  mret (mkReceipt id status false result).

(** The end of the store's transaction: committed with a value, rolled back with an error. *)
Definition settle_transaction {A} (r : result ChainStateError A) : M A :=
  match r with
  | Ok x => _ ← store commit_transaction; mret x
  | Err e => _ ← store rollback_transaction; throw e
  end.

Definition execute_transaction (transaction : Transaction) (execution_cost : ExecutionCost) : M TransactionReceipt :=
  _ ← store begin_transaction;
  r ← attempt (execute_transaction_in_transaction transaction execution_cost);
  match r with
  | Err (TransactionFailure result status) =>
      _ ← store rollback_transaction;
      _ ← store begin_transaction;
      r ← attempt (apply_transaction_failure transaction result status);
      settle_transaction r
  | r => settle_transaction r
  end.

(** ** The operations of a Bitcoin block *)

Inductive BitcoinOperationClass : Type := StackClass | TransferClass | DelegateClass | VoteClass.

Definition class_matches (class : BitcoinOperationClass) (operation : BitcoinOperation) : bool :=
  match class, op_kind operation with
  | StackClass, StackStx _ _ _ _ _ _ _ | TransferClass, TransferStx _ _ _ _ | DelegateClass, DelegateStx _ _ _ _ _ _ | VoteClass, VoteForAggregateKey _ _ _ _ _ => true
  | _, _ => false
  end.

(** [hash_mode as u8]. *)
Definition hash_mode_byte (mode : AddressHashMode) : byte := match mode with P2pkh => 0%u8 | P2sh => 1%u8 | P2wpkh => 2%u8 | P2wsh => 3%u8 end.

Definition optional_uint (height : option Z) : option Value := match height with Some height => value_some (UInt height) | None => Some value_none end.

(** The transaction of a native operation commits only where it succeeded; neither outcome stops the block. *)
Definition finalize_native (succeeded : bool) : M unit := if succeeded then store commit_transaction else store rollback_transaction.

Definition execute_native_contract_call (sender : PrincipalData) (contract : list byte) (function : string) (arguments : list Value) : M unit :=
  arguments ← valid (mapM serialize_to_vec arguments);
  _ ← store begin_transaction;
  contract ← valid (contract_parse contract);
  r ← attempt (run (execute_contract_call_outcome sender None contract (list_byte_of_string function) arguments free_tracker));
  finalize_native (match r with Ok (CallSuccess _) => true | _ => false end).

(** A pox address as the tuple a contract reads. *)
Definition pox_address_value (address : PoxAddress.t) : option Value :=
  '(version, hashbytes) ← match address with
    | PoxAddress.Standard address hash_mode => hash_mode ← hash_mode; Some (hash_mode_byte hash_mode, StacksAddress.hash160 address)
    | PoxAddress.Addr20 _ PoxAddress.Type20_P2wpkh bytes => Some (4%u8, bytes)
    | PoxAddress.Addr32 _ PoxAddress.Type32_P2wsh bytes => Some (5%u8, bytes)
    | PoxAddress.Addr32 _ PoxAddress.Type32_P2tr bytes => Some (6%u8, bytes)
    end;
  hashbytes ← buff_from hashbytes;
  tuple_from_data [("version", buff_from_byte version); ("hashbytes", hashbytes)].

Definition optional_pox_address (address : option PoxAddress.t) : option Value :=
  match address with Some address => value ← pox_address_value address; value_some value | None => Some value_none end.

Definition execute_bitcoin_operation (operation : BitcoinOperation) (bitcoin_height : Z) : M unit :=
  network ← ask network_of;
  match op_kind operation with
  | StackStx sender reward_address amount cycles _ _ _ =>
      sender ← valid (principal_from_address sender);
      reward_address ← valid (pox_address_value reward_address);
      execute_native_contract_call sender (boot_contract_id network "pox-5") "stack-stx" [UInt amount; reward_address; UInt bitcoin_height; UInt (u8 cycles)]
  | TransferStx sender recipient amount memo =>
      _ ← store begin_transaction;
      sender ← valid (principal_from_address sender);
      recipient ← valid (principal_from_address recipient);
      r ← attempt (run (transfer_stx sender recipient amount memo free_tracker));
      finalize_native (match r with Ok _ => true | Err _ => false end)
  | DelegateStx sender delegate amount reward_address _ until_bitcoin_height =>
      sender ← valid (principal_from_address sender);
      delegate ← valid (principal_from_address delegate);
      until ← valid (optional_uint until_bitcoin_height);
      reward_address ← valid (optional_pox_address reward_address);
      execute_native_contract_call sender (boot_contract_id network "pox-5") "delegate-stx" [UInt amount; PrincipalValue delegate; until; reward_address]
  | VoteForAggregateKey sender signer_index aggregate_key round reward_cycle =>
      sender ← valid (principal_from_address sender);
      aggregate_key ← valid (buff_from aggregate_key);
      execute_native_contract_call sender (boot_contract_id network "signers-voting") "vote-for-aggregate-public-key" [UInt signer_index; aggregate_key; UInt round; UInt reward_cycle]
  | LeaderBlockCommit _ _ _ _ _ _ _ _ | LeaderKeyRegistrationOp _ _ _ _ | PreStx _ => mret tt
  end.

Fixpoint execute_each (operations : list BitcoinOperation) (bitcoin_height : Z) : M unit :=
  match operations with
  | [] => mret tt
  | operation :: rest => _ ← execute_bitcoin_operation operation bitcoin_height; execute_each rest bitcoin_height
  end.

(** By kind: the stacks, then the transfers, the delegations and the votes. *)
Definition in_execution_order (operations : list BitcoinOperation) : list BitcoinOperation :=
  concat (map (fun class => List.filter (class_matches class) operations) [StackClass; TransferClass; DelegateClass; VoteClass]).

Definition execute_bitcoin_operations (operations : list BitcoinOperation) (bitcoin_height : Z) : M unit := execute_each (in_execution_order operations) bitcoin_height.

End Transactions.
