(* ===== verification/BlockExecution.v ===== *)
(** * What a sealed block is recorded to have done: [src/receipts.rs] and
      [src/decision.rs] of [crates/nano-chainstate]

    The digest over a block's receipts and events, and the decision record a seal commits
    with the block. JSON and the texts of Clarity values are of their crates.

    And executing and sealing a block, of [crates/nano-chainstate/src/lib.rs]. *)

From stdpp Require Import gmap.
From Stdlib Require Import Strings.String.
From S2P Require Import Prelude Primitives Address CodecIO Crypto TxData TxCodec TxAuth Nakamoto Signers SortitionRules Sbtc MarfVersions Effects.
From S2P Require Import ProposalExecution BlockRules Clarity TenureRewards PostConditions ChainLedger ChainState SignerElection TransactionExecution.

Local Open Scope string_scope.
Local Open Scope list_scope.
Local Open Scope Z_scope.

Record ReceiptCommitment : Type := mkReceiptCommitment { rm_height : Z; rm_block : list byte; rm_transactions : Z; rm_events : Z; rm_digest : list byte }.

Inductive Verdict : Type := Accepted | RefusedWith (kind : RefusalKind).

Record CostSummary : Type := mkCostSummary { su_runtime : Z; su_read_count : Z; su_read_length : Z; su_write_count : Z; su_write_length : Z }.

Definition DECISION_SCHEMA : string := "nano-stacks/epoch4-decision/v1".

Record DecisionRecord : Type := mkDecision {
  de_schema : list byte;
  de_block_id : list byte;
  de_parent_block_id : list byte;
  de_height : Z;
  de_burn_view_height : Z;
  de_verdict : Verdict;
  de_state_root : option (list byte);
  de_cost : option CostSummary;
  de_receipts : option ReceiptCommitment;
  de_compiler_identity : list byte;
  de_profile_fingerprint : list byte;
}.

(** The decimal digits of a [u64]. *)
Definition decimal_text (z : Z) : list byte := decimal 20 z [].

(** [trim_start_matches("0x")]. *)
Fixpoint trim_prefix (text : list byte) : list byte :=
  match text with
  | 0x30%u8 :: 0x78%u8 :: rest => trim_prefix rest
  | _ => text
  end.

Section Receipts.
Context `{HS : Hashes} `{CL : Clarity} `{AM : !AssetMaps} `{VT : !VmTypes} `{LC : !LedgerCodec}.

(** A transaction told to observers that no block carries. *)
Record ObservedTransaction : Type := mkObserved { ob_transaction : Transaction; ob_receipt : TransactionReceipt }.

Class RecordJson : Type := {
  Json : Type;
  serialize_to_hex : Value -> option (list byte);
  event_json : Z -> Sha256Sum -> bool -> StacksTransactionEvent -> option Json;
  (** A member that is a string, and a member's text. *)
  json_string : Json -> string -> option (list byte);
  json_member : Json -> string -> list byte;
  json_to_vec : Json -> option (list byte);
  decision_to_vec : DecisionRecord -> option (list byte);
  COMPILER_IDENTITY : list byte;
  profile_fingerprint : list byte;
  (** [str::parse] into a Stacks address. *)
  parse_stacks_address : list byte -> option StacksAddress.t;
}.

Context `{RJ : RecordJson}.

Definition receipt_status (receipt : TransactionReceipt) : list byte :=
  list_byte_of_string
    match rc_status receipt with
    | Success => "success"
    | PostConditionAborted _ => "abort_by_post_condition"
    | AbortedByResponse | RuntimeFailure _ => "abort_by_response"
    end.

Definition cost_preimage (cost : ExecutionCost) : list byte :=
  concat (map decimal_text [co_runtime cost; co_read_count cost; co_read_length cost; co_write_count cost; co_write_length cost]).

Definition receipt_preimage (receipt : TransactionReceipt) : option (list byte) :=
  value ← match tr_value (rc_result receipt) with Some value => serialize_to_hex value | None => Some [] end;
  Some (to_hex (rc_txid receipt) ++ receipt_status receipt ++ value ++ cost_preimage (tr_cost (rc_result receipt))).

Definition event_preimage (event : Json) : option (list byte) :=
  txid ← json_string event "txid";
  type ← json_string event "type";
  bytes ← json_to_vec event;
  Some (trim_prefix txid ++ trim_prefix type ++ json_member event "committed" ++ bytes).

(** The events of all receipts, numbered in order. *)
Definition ordered_events (receipts : list TransactionReceipt) : list (Z * (StacksTransactionEvent * Sha256Sum * bool)) :=
  let events := concat (map (fun receipt => map (fun event => (event, rc_txid receipt, rc_committed receipt)) (tr_events (rc_result receipt))) receipts) in
  zip (map Z.of_nat (seq 0 (length events))) events.

(** [None] inside is the error of the commitment; outside, a header whose hash panics. *)
Definition receipt_commitment_parts (block : NakamotoBlock) (block_receipts : list TransactionReceipt) (observer_transactions : list ObservedTransaction) : option (option ReceiptCommitment) :=
  let receipts := block_receipts ++ map ob_receipt observer_transactions in
  match (preimages ← mapM receipt_preimage receipts;
         events ← mapM (fun '(index, (event, id, committed)) => event_json index id committed event) (ordered_events receipts);
         event_bytes ← mapM event_preimage events;
         Some (concat preimages ++ concat event_bytes, len events)) with
  | None => Some None
  | Some (preimage, events) =>
      hash ← block_hash (bl_header block);
      Some (Some (mkReceiptCommitment (hd_chain_length (bl_header block)) (to_hex hash) (len receipts) events (to_hex (sha512_256 preimage))))
  end.

(** ** The decision record *)

Definition record_scaffold (block : NakamotoBlock) (context : BitcoinBlockContext) : option DecisionRecord :=
  id ← block_id block;
  Some (mkDecision (list_byte_of_string DECISION_SCHEMA) (to_hex id) (to_hex (hd_parent_block_id (bl_header block))) (hd_chain_length (bl_header block)) (cx_height context)
          Accepted None None None COMPILER_IDENTITY profile_fingerprint).

Definition accepted_record_parts (block : NakamotoBlock) (context : BitcoinBlockContext) (cost : ExecutionCost) (receipts : ReceiptCommitment) : option DecisionRecord :=
  r ← record_scaffold block context;
  Some (mkDecision (de_schema r) (de_block_id r) (de_parent_block_id r) (de_height r) (de_burn_view_height r) (de_verdict r) (Some (to_hex (hd_state_index_root (bl_header block))))
          (Some (mkCostSummary (co_runtime cost) (co_read_count cost) (co_read_length cost) (co_write_count cost) (co_write_length cost))) (Some receipts) (de_compiler_identity r) (de_profile_fingerprint r)).

(** [record.verdict = Verdict::Refused]; the detail's text is left out. *)
Definition refused_as (kind : RefusalKind) (r : DecisionRecord) : DecisionRecord :=
  mkDecision (de_schema r) (de_block_id r) (de_parent_block_id r) (de_height r) (de_burn_view_height r) (RefusedWith kind) (de_state_root r) (de_cost r) (de_receipts r)
    (de_compiler_identity r) (de_profile_fingerprint r).

Definition refused_record (block : NakamotoBlock) (context : BitcoinBlockContext) (error : ChainStateError) : option DecisionRecord :=
  refused_as (refusal_kind error) <$> record_scaffold block context.

(** [sealed]: the record's JSON under its content hash. *)
Definition seal_decision (record : DecisionRecord) : option SealedDecision :=
  bytes ← decision_to_vec record;
  Some (mkSealedDecision (sha512_256 bytes) bytes).

End Receipts.

(** * Executing and sealing a block, of [crates/nano-chainstate/src/lib.rs]

    [execute_nakamoto_block] and what calls it: following a block, judging a proposal and
    assembling a candidate. The block runs against a copy of the ledger, which is the
    ledger of the state here while it runs; the copy stays only where the block seals. *)

Local Open Scope string_scope.
Local Open Scope list_scope.
Local Open Scope Z_scope.

Inductive BlockAuthentication : Type := Required | Authenticated | ProposalOnly | UnauthenticatedFixture.

Definition checks_before_execution (a : BlockAuthentication) : bool := match a with Required | ProposalOnly => true | _ => false end.
Definition checks_signer_signatures (a : BlockAuthentication) : bool := match a with Required => true | _ => false end.

Inductive BlockPersistence : Type := Seal | Discard.

#[global] Instance BlockPersistence_eq_dec : EqDecision BlockPersistence. Proof. solve_decision. Defined.

Definition set_merkle_root (root : Sha256Sum) (h : NakamotoBlockHeader) : NakamotoBlockHeader :=
  mkHeader (hd_version h) (hd_chain_length h) (hd_bitcoin_spent h) (hd_consensus_hash h) (hd_parent_block_id h) root (hd_state_index_root h) (hd_timestamp h) (hd_miner_signature h)
    (hd_signer_signatures h) (hd_pox_treatment h) (hd_problematic_transactions h).
Definition set_state_root (root : list byte) (h : NakamotoBlockHeader) : NakamotoBlockHeader :=
  mkHeader (hd_version h) (hd_chain_length h) (hd_bitcoin_spent h) (hd_consensus_hash h) (hd_parent_block_id h) (hd_transaction_merkle_root h) root (hd_timestamp h) (hd_miner_signature h)
    (hd_signer_signatures h) (hd_pox_treatment h) (hd_problematic_transactions h).
Definition set_miner_signature (signature : list byte) (h : NakamotoBlockHeader) : NakamotoBlockHeader :=
  mkHeader (hd_version h) (hd_chain_length h) (hd_bitcoin_spent h) (hd_consensus_hash h) (hd_parent_block_id h) (hd_transaction_merkle_root h) (hd_state_index_root h) (hd_timestamp h) signature
    (hd_signer_signatures h) (hd_pox_treatment h) (hd_problematic_transactions h).

Section Blocks.
Context `{HS : Hashes} `{SE : Secp256k1} `{ED : Edwards} `{CL : Clarity} `{CV : !ClarityValues} `{AM : !AssetMaps} `{VT : !VmTypes} `{VM : !Vms} `{LC : !LedgerCodec} `{RJ : !RecordJson} `{XO : Sbtc.XOnly}.
(** The rounds of a hash to the curve, and the signers of a cycle, at most. *)
Variables vrf_fuel staker_fuel : nat.

Abbreviation M := (Eff ChainState ChainStateError).

Inductive RootPolicy : Type := Mine (miner_key : secp_sk) | Verify | Trust.

Record BlockExecution : Type := mkExecution {
  ex_bitcoin_context : BitcoinBlockContext;
  ex_waterfall_registry : option (list byte);
  ex_operations : list BitcoinOperation;
  ex_parent : option (list byte);
  ex_root : RootPolicy;
  ex_effects : NativeBlockEffects;
  ex_candidates : list Transaction;
  ex_authentication : BlockAuthentication;
  ex_persistence : BlockPersistence;
}.

Record ExecutedBlockResult : Type := mkExecutedResult {
  ap_bitcoin_height : Z;
  ap_state_root : list byte;
  ap_execution_cost : ExecutionCost;
  ap_receipts : list TransactionReceipt;
  ap_observer_transactions : list ObservedTransaction;
  ap_matured_rewards : list NativeStxCredit;
  ap_matured_coinbase : Z;
  ap_matured_anchored_fees : Z;
  ap_reward_set : option DerivedRewardSet;
  ap_payout : option PoxAddress.t;
}.

Definition temporary_state_id : list byte := sha512_256 (replicate 52 1%u8).

Definition map_error {A} (f : ChainStateError -> ChainStateError) (m : M A) : M A := fun s => match m s with Some (r, s) => Some (map_err f r, s) | None => None end.

(** ** Transactions *)

Definition verified (transaction : Transaction) : M unit :=
  r ← unwrap (verify_authorization transaction);
  try_with (fun _ => InvalidTransaction) r.

(** Candidates the block has room for; the first that does not fit ends the filling. *)
Fixpoint admit_each (candidates transactions : list Transaction) (cost : ExecutionCost) (receipts : list TransactionReceipt) : M (list Transaction * ExecutionCost * list TransactionReceipt) :=
  match candidates with
  | [] => mret (transactions, cost, receipts)
  | candidate :: rest =>
      authorized ← attempt (verified candidate);
      match authorized with
      | Err _ => admit_each rest transactions cost receipts
      | Ok _ =>
          executed ← attempt (execute_transaction candidate cost);
          match executed with
          | Err _ => admit_each rest transactions cost receipts
          | Ok receipt =>
              let '(possible, cost) := cost_add cost (tr_cost (rc_result receipt)) in
              if negb possible || cost_exceeds cost EPOCH_4_BLOCK_LIMIT then mret (transactions, cost, receipts)
              else admit_each rest (transactions ++ [candidate]) cost (receipts ++ [receipt])
          end
      end
  end.

Definition admit_candidates (block : NakamotoBlock) (candidates : list Transaction) (cost : ExecutionCost) (receipts : list TransactionReceipt) : M (NakamotoBlock * ExecutionCost * list TransactionReceipt) :=
  match candidates with
  | [] => mret (block, cost, receipts)
  | _ =>
      admitted ← admit_each candidates (bl_transactions block) cost receipts;
      let '(transactions, cost, receipts) := (admitted : list Transaction * ExecutionCost * list TransactionReceipt) in
      root ← unwrap (transaction_merkle_root transactions);
      mret (mkBlock (set_merkle_root root (bl_header block)) transactions, cost, receipts)
  end.

(** The transactions the block carries, each of which has to have a receipt. *)
Fixpoint run_each (height : Z) (transactions : list Transaction) (cost : ExecutionCost) (receipts : list TransactionReceipt) : M (ExecutionCost * list TransactionReceipt) :=
  match transactions with
  | [] => mret (cost, receipts)
  | transaction :: rest =>
      _ ← verified transaction;
      id ← unwrap (txid transaction);
      receipt ← map_error (fun e => match e with Execution e => TransactionExecution id height e | e => e end) (execute_transaction transaction cost);
      let '(possible, cost) := cost_add cost (tr_cost (rc_result receipt)) in
      if negb possible then throw InvalidTransaction else run_each height rest cost (receipts ++ [receipt])
  end.

Definition run_transactions (block : NakamotoBlock) (candidates : list Transaction) (assembled : bool) : M (NakamotoBlock * ExecutionCost * list TransactionReceipt) :=
  done ← run_each (hd_chain_length (bl_header block)) (bl_transactions block) cost_zero [];
  filled ← admit_candidates block candidates done.1 done.2;
  if assembled && bool_decide (bl_transactions filled.1.1 = []) then throw (Consensus ConsensusError.EmptyBlock) else mret filled.

(** ** The start of a tenure *)

Definition start_tenure (context : BitcoinBlockContext) (operations : list BitcoinOperation) (block : NakamotoBlock) : M NativeBlockEffects :=
  height ← run tenure_height;
  next_height ← valid (checked_add U32_MAX height 1);
  _ ← run (set_tenure_height next_height);
  _ ← execute_bitcoin_operations operations (cx_height context);
  ledger ← ask cs_ledger;
  _ ← match ta_schedule (cl_accounting ledger) with
      | Some schedule =>
          let coinbase := saturating_add U128_MAX (emission_at schedule (cx_height context)) (cx_accumulated_coinbase context) in
          earnings ← valid (from_tenure_start block coinbase);
          change_ledger (fun l => set_accounting (record_earnings next_height earnings (cl_accounting l)) l)
      | None => mret tt
      end;
  network ← ask network_of;
  ledger ← ask cs_ledger;
  checked (fun _ => InvalidTransaction) (effects_for_tenure (cl_accounting ledger) network next_height).

(** The effects with what matured, the credits that matured, and their coinbase and fees. *)
Definition apply_tenure_start (context : BitcoinBlockContext) (operations : list BitcoinOperation) (block : NakamotoBlock) (effects : NativeBlockEffects) : M (NativeBlockEffects * list NativeStxCredit * (Z * Z)) :=
  matured ← start_tenure context operations block;
  amounts ← valid (matured_reward_amounts matured);
  supply ← valid (checked_add U128_MAX (ef_liquid_supply_increase effects) (ef_liquid_supply_increase matured));
  mret (mkEffects (ef_credits effects ++ ef_credits matured) supply, ef_credits matured, amounts).

Definition waterfall_payout (reward_set : option DerivedRewardSet) (registry : option (list byte)) : M (option PoxAddress.t) :=
  network ← ask network_of;
  if bool_decide (is_Some reward_set) && (Network.is_mainnet network || bool_decide (is_Some registry)) then
    address ← sbtc_payout_address registry; mret (Some address)
  else mret None.

Definition check_signer_signatures (block : NakamotoBlock) (context : BitcoinBlockContext) : M unit :=
  recorded ← attempt (recorded_signer_set context);
  match recorded with
  | Ok set => _ ← checked (fun _ => InvalidTransaction) (SignerWeights.verify set (bl_header block)); mret tt
  | Err (NoSignerSet cycle) => throw (Consensus (ConsensusError.SignerSetUnavailable cycle))
  | Err e => throw e
  end.

(** ** The end of a block *)

Fixpoint credit_each (credits : list NativeStxCredit) : M unit :=
  match credits with
  | [] => mret tt
  | credit :: rest => _ ← run (credit_stx (cr_recipient credit) (cr_amount credit)); credit_each rest
  end.

(** The liquid supply is written only where something is credited. *)
Definition apply_credits (effects : NativeBlockEffects) : M unit :=
  if bool_decide (ef_credits effects = []) then mret tt else
  _ ← credit_each (ef_credits effects);
  run (increment_liquid_stx_supply (ef_liquid_supply_increase effects)).

Definition add_receipt_events (events : list StacksTransactionEvent) (receipt : TransactionReceipt) : TransactionReceipt :=
  mkReceipt (rc_txid receipt) (rc_status receipt) (rc_committed receipt) (add_events events (rc_result receipt)).

(** The receipts with the events, and the events no receipt took. *)
Definition attach_unlock_events (block : NakamotoBlock) (receipts : list TransactionReceipt) (events : list StacksTransactionEvent) : list TransactionReceipt * list StacksTransactionEvent :=
  match bl_transactions block, receipts with
  | first :: _, receipt :: rest => if is_coinbase first then (add_receipt_events events receipt :: rest, []) else (receipts, events)
  | _, _ => (receipts, events)
  end.

Definition finalize_scheduled_unlocks (block : NakamotoBlock) (receipts : list TransactionReceipt) : M (list TransactionReceipt * list StacksTransactionEvent) :=
  unlocks ← run process_scheduled_unlocks;
  _ ← run (increment_liquid_stx_supply unlocks.1);
  mret (attach_unlock_events block receipts unlocks.2).

(** [iter_mut().find(..)] and the change of what it finds. *)
Fixpoint update_first {A} (wanted : A -> bool) (f : A -> A) (l : list A) : list A :=
  match l with
  | [] => []
  | x :: l => if wanted x then f x :: l else x :: update_first wanted f l
  end.

(** What was minted, and the receipts with the event on the coinbase's. *)
Definition mint_sip_031 (bitcoin_height : Z) (block : NakamotoBlock) (receipts : list TransactionReceipt) : M (Z * list TransactionReceipt) :=
  network ← ask network_of;
  let amount := sip_031_emission network bitcoin_height in
  if amount =? 0 then mret (0, receipts) else
  contract ← valid (contract_parse (boot_contract_id network "sip-031"));
  let recipient := contract_principal contract in
  _ ← run (increment_liquid_stx_supply amount);
  _ ← run (credit_stx recipient amount);
  match List.find is_coinbase (bl_transactions block) with
  | None => mret (amount, receipts)
  | Some coinbase =>
      id ← unwrap (txid coinbase);
      mret (amount, update_first (fun receipt => bool_decide (rc_txid receipt = id)) (add_receipt_events [stx_mint_event recipient amount]) receipts)
  end.

Definition mint_sip_031_on_new_tenure (bitcoin_height : Z) (block : NakamotoBlock) (receipts : list TransactionReceipt) : M (Z * list TransactionReceipt) :=
  if starts_new_tenure block then mint_sip_031 bitcoin_height block receipts else mret (0, receipts).

(** The block with its root written and signed where it is mined here. *)
Definition settle_state_root (block : NakamotoBlock) (root : RootPolicy) : M NakamotoBlock :=
  sealed ← query pending_state_root;
  match root with
  | Mine miner_key =>
      let header := set_state_root sealed (bl_header block) in
      hash ← unwrap (miner_signature_hash header);
      mret (mkBlock (set_miner_signature (StacksPrivateKey.sign miner_key hash) header) (bl_transactions block))
  | Verify => if bool_decide (sealed = hd_state_index_root (bl_header block)) then mret block else throw (StateRootMismatch (hd_state_index_root (bl_header block)) sealed)
  | Trust => mret block
  end.

(** The memo of a phantom unlock: at most 34 bytes of its message. *)
Definition unlock_memo (stacks_block_height : Z) : list byte :=
  let message := list_byte_of_string "Block " ++ decimal_text stacks_block_height ++ list_byte_of_string " token unlocks" in
  take 34 (message ++ replicate 34 0%u8).

Definition phantom_unlock_transaction (network : Network.t) (stacks_block_height : Z) (events : list StacksTransactionEvent) : option (option ObservedTransaction) :=
  match events with
  | [] => Some None
  | _ =>
      recipient ← parse_stacks_address (boot_address network);
      transaction ← transaction_new (TransactionVersion.for_network network)
        (AuthStandard (Singlesig (mkSinglesig SinglesigHashMode.P2pkh (replicate 20 0%u8) 0 0 KeyEncoding.Uncompressed (replicate 65 0%u8))))
        (TokenTransfer (PrincipalStandard recipient) 0 (unlock_memo stacks_block_height));
      id ← txid transaction;
      Some (Some (mkObserved transaction (mkReceipt id Success true (mkResult (Some okay_true) cost_zero no_assets events))))
  end.

Definition finish_block_execution (block : NakamotoBlock) (context : BitcoinBlockContext) (persistence : BlockPersistence) (decision : SealedDecision) : M (list byte) :=
  match persistence with
  | Discard =>
      state_root ← query pending_state_root;
      _ ← store abort_block;
      mret state_root
  | Seal =>
      header ← note_executed_block block context;
      _ ← match coinbase_vrf_proof block with Some proof => change_ledger (set_parent_tenure_proof (Some proof)) | None => mret tt end;
      ledger ← ask cs_ledger;
      encoded ← try_with (fun _ => LedgerError) (or_err (ledger_encode ledger) tt);
      id ← unwrap (block_id block);
      store (commit_block id (mkCommit header encoded (Some decision)))
  end.

Definition seal_and_finish (block : NakamotoBlock) (context : BitcoinBlockContext) (persistence : BlockPersistence) (cost : ExecutionCost) (receipts : list TransactionReceipt) (unlock_events : list StacksTransactionEvent)
  : M (list ObservedTransaction * list byte) :=
  network ← ask network_of;
  phantom ← unwrap (phantom_unlock_transaction network (hd_chain_length (bl_header block)) unlock_events);
  let observers := option_list phantom in
  commitment ← unwrap (receipt_commitment_parts block receipts observers);
  commitment ← try_with (fun _ => LedgerError) (or_err commitment tt);
  record ← unwrap (accepted_record_parts block context cost commitment);
  sealed ← try_with (fun _ => LedgerError) (or_err (seal_decision record) tt);
  state_root ← finish_block_execution block context persistence sealed;
  mret (observers, state_root).

(** ** One block *)

Definition is_mined (root : RootPolicy) : bool := match root with Mine _ => true | _ => false end.

(** What runs between the opening of the block and its seal, over the copy of the ledger. *)
Definition execute_opened (block : NakamotoBlock) (x : BlockExecution) : M (NakamotoBlock * ExecutedBlockResult) :=
  let context := ex_bitcoin_context x in
  let assembled := is_mined (ex_root x) in
  _ ← (if negb assembled && checks_signer_signatures (ex_authentication x) then check_signer_signatures block context else mret tt);
  _ ← run (setup_block_metadata (hd_timestamp (bl_header block)));
  started ← (if starts_new_tenure block then apply_tenure_start context (ex_operations x) block (ex_effects x) else mret (ex_effects x, [], (0, 0)));
  let '(effects, matured_rewards, amounts) := (started : NativeBlockEffects * list NativeStxCredit * (Z * Z)) in
  coinbase_height ← run tenure_height;
  reward_set ← update_signer_set staker_fuel context coinbase_height;
  payout ← waterfall_payout reward_set (ex_waterfall_registry x);
  filled ← run_transactions block (ex_candidates x) assembled;
  let '(block, cost, receipts) := (filled : NakamotoBlock * ExecutionCost * list TransactionReceipt) in
  tenure ← run tenure_height;
  fees ← unwrap (block_fees block);
  _ ← change_ledger (fun l => set_accounting (add_fees tenure fees (cl_accounting l)) l);
  _ ← apply_credits effects;
  unlocked ← finalize_scheduled_unlocks block receipts;
  minted ← mint_sip_031_on_new_tenure (cx_height context) block unlocked.1;
  _ ← attempt (run tenure_height);
  block ← settle_state_root block (ex_root x);
  finished ← seal_and_finish block context (ex_persistence x) cost minted.2 unlocked.2;
  mret (block, mkExecutedResult (cx_height context) finished.2 cost minted.2 finished.1 matured_rewards amounts.1 amounts.2 reward_set payout).

Definition execute_nakamoto_block (block : NakamotoBlock) (x : BlockExecution) : M (NakamotoBlock * ExecutedBlockResult) :=
  _ ← (if checks_before_execution (ex_authentication x) then check_before_executing vrf_fuel block (ex_parent x) (ex_bitcoin_context x) (ex_operations x) (is_mined (ex_root x)) else mret tt);
  _ ← store (begin_block_execution (ex_parent x) temporary_state_id (ex_bitcoin_context x));
  ledger ← ask cs_ledger;
  r ← attempt (execute_opened block x);
  match r with
  | Ok applied => _ ← (if bool_decide (ex_persistence x = Seal) then mret tt else adopt ledger); mret applied
  | Err e => _ ← attempt (store abort_block); _ ← adopt ledger; throw e
  end.

(** ** Following, judging and assembling *)

Record AuthenticatedBlock : Type := mkAuthenticated { ab_block : NakamotoBlock; ab_bitcoin_context : BitcoinBlockContext; ab_operations : list BitcoinOperation; ab_parent : option (list byte) }.

Definition authenticate_nakamoto_block_with_bitcoin_operations (context : BitcoinBlockContext) (operations : list BitcoinOperation) (parent : option (list byte)) (block : NakamotoBlock) : M AuthenticatedBlock :=
  _ ← check_before_executing vrf_fuel block parent context operations false;
  _ ← store (begin_block_execution parent temporary_state_id context);
  authenticated ← attempt (check_signer_signatures block context);
  _ ← store abort_block;
  _ ← try_with id authenticated;
  mret (mkAuthenticated block context operations parent).

(** A block whose receipts cannot be committed to is recorded as refused, whatever the seal said. *)
Definition accepted_record (block : NakamotoBlock) (context : BitcoinBlockContext) (applied : ExecutedBlockResult) : option DecisionRecord :=
  commitment ← receipt_commitment_parts block (ap_receipts applied) (ap_observer_transactions applied);
  match commitment with
  | Some receipts => accepted_record_parts block context (ap_execution_cost applied) receipts
  | None => refused_as ExecutionKind <$> record_scaffold block context
  end.

Record CommittedBlock : Type := mkCommitted { cm_block : AuthenticatedBlock; cm_applied : ExecutedBlockResult; cm_record : DecisionRecord }.

Definition commit_authenticated_nakamoto_block (authenticated : AuthenticatedBlock) (waterfall_registry : option (list byte)) : M CommittedBlock :=
  let context := ab_bitcoin_context authenticated in
  let parent := ab_parent authenticated in
  current ← execution_tip;
  if negb (bool_decide (parent = current)) then throw InvalidTransaction else
  executed ← execute_nakamoto_block (ab_block authenticated) (mkExecution context waterfall_registry (ab_operations authenticated) parent Verify no_effects [] Authenticated Seal);
  record ← unwrap (accepted_record executed.1 context executed.2);
  mret (mkCommitted (mkAuthenticated executed.1 context (ab_operations authenticated) parent) executed.2 record).

Definition append_nakamoto_block (context : BitcoinBlockContext) (operations : list BitcoinOperation) (parent : option (list byte)) (block : NakamotoBlock) (waterfall_registry : option (list byte)) : M ExecutedBlockResult :=
  authenticated ← authenticate_nakamoto_block_with_bitcoin_operations context operations parent block;
  committed ← commit_authenticated_nakamoto_block authenticated waterfall_registry;
  mret (cm_applied committed).

Definition proposed_block (block : NakamotoBlock) : M NakamotoBlock :=
  network ← ask network_of;
  _ ← checked Consensus (authenticate_block block network Present);
  mret block.

Definition execute_proposed_nakamoto_block (proposed : NakamotoBlock) (context : BitcoinBlockContext) (operations : list BitcoinOperation) (parent : option (list byte)) (waterfall_registry : option (list byte)) : M ExecutedBlockResult :=
  applied ← execute_nakamoto_block proposed (mkExecution context waterfall_registry operations parent Verify no_effects [] ProposalOnly Discard);
  mret applied.2.

Definition validate_nakamoto_proposal (context : BitcoinBlockContext) (operations : list BitcoinOperation) (parent : option (list byte)) (block : NakamotoBlock) (waterfall_registry : option (list byte)) : M ExecutedBlockResult :=
  proposed ← map_error (fun _ => InvalidTransaction) (proposed_block block);
  execute_proposed_nakamoto_block proposed context operations parent waterfall_registry.

Definition append_nakamoto_block_with_effects (context : BitcoinBlockContext) (parent : option (list byte)) (block : NakamotoBlock) (effects : NativeBlockEffects) : M ExecutedBlockResult :=
  applied ← execute_nakamoto_block block (mkExecution context None [] parent Verify effects [] Required Seal);
  mret applied.2.

Definition append_unauthenticated_fixture_block (context : BitcoinBlockContext) (operations : list BitcoinOperation) (parent : option (list byte)) (block : NakamotoBlock) : M ExecutedBlockResult :=
  applied ← execute_nakamoto_block block (mkExecution context None operations parent Verify no_effects [] UnauthenticatedFixture Seal);
  mret applied.2.

Definition execute_nakamoto_block_with_bitcoin_operations (context : BitcoinBlockContext) (operations : list BitcoinOperation) (parent : option (list byte)) (block : NakamotoBlock) : M ExecutedBlockResult :=
  applied ← execute_nakamoto_block block (mkExecution context None operations parent Trust no_effects [] Required Seal);
  mret applied.2.

Definition execute_nakamoto_block_with_effects (context : BitcoinBlockContext) (parent : option (list byte)) (block : NakamotoBlock) (effects : NativeBlockEffects) : M ExecutedBlockResult :=
  applied ← execute_nakamoto_block block (mkExecution context None [] parent Trust effects [] Required Seal);
  mret applied.2.

(** [prepare_nakamoto_block] under a miner's key, sealed or only looked at. *)
Definition assemble_nakamoto_block_selecting (context : BitcoinBlockContext) (operations : list BitcoinOperation) (parent : option (list byte)) (block : NakamotoBlock) (candidates : list Transaction) (miner_key : secp_sk) : M (NakamotoBlock * ExecutedBlockResult) :=
  execute_nakamoto_block block (mkExecution context None operations parent (Mine miner_key) no_effects candidates Required Seal).

Definition preview_nakamoto_block_selecting (context : BitcoinBlockContext) (operations : list BitcoinOperation) (parent : option (list byte)) (block : NakamotoBlock) (candidates : list Transaction) (miner_key : secp_sk) : M (NakamotoBlock * ExecutedBlockResult) :=
  execute_nakamoto_block block (mkExecution context None operations parent (Mine miner_key) no_effects candidates Required Discard).

End Blocks.
