(* ===== verification/ChainSteps.v ===== *)
(** * What the steps of a block leave alone

    The window of rows that the side store keeps of sealed ledgers: a row stays until 256
    other blocks were written after it, however often each of them was.

    A relation between the state before and after that the virtual machine's operations
    and the changes of the ledger stay in holds of every computation built from them, up
    to the commit of a block.

    And the computations of a block stay in every frame. *)

From stdpp Require Import gmap.
From Stdlib Require Import Strings.String.
From S2P Require Import Prelude Primitives Address CodecIO Crypto TxData TxCodec TxAuth Nakamoto Signers SortitionRules Sbtc Effects ProposalExecution.
From S2P Require Import BlockRules Clarity TenureRewards RewardsTheorems PostConditions ChainLedger ChainState SignerElection TransactionExecution BlockExecution.

(** ** The window of sealed ledgers *)

Section Window.
Implicit Types (rows : LedgerTable) (block id : list byte) (others : gset (list byte)).

Definition newest_sequence rows : Z := default 0 (max_sequence rows).

(** [n] is the greatest sequence of [rows]. *)
Definition is_newest rows (n : Z) : Prop := (exists block data, rows !! block = Some (n, data)) /\ forall block sequence data, rows !! block = Some (sequence, data) -> sequence <= n.

Lemma max_sequence_spec rows : match max_sequence rows with Some n => is_newest rows n | None => rows = ∅ end.
Proof.
  apply (map_fold_weak_ind (fun m rows => match m with Some n => is_newest rows n | None => rows = ∅ end)); [done|].
  intros block [sequence data] m r Hb Hm. cbn [fst]. destruct r as [n|]; cbn.
  - destruct Hm as [(b & d & Hn) Hle]. split.
    + destruct (Z.max_spec sequence n) as [[_ ->]|[_ ->]]; [exists b, d|exists block, data]; [|by simplify_map_eq]. rewrite lookup_insert_ne; [done|]. intros ->. by rewrite Hb in Hn.
    + intros b' s' d' [[_ [= <- _]]|[_ H%Hle]]%lookup_insert_Some; lia.
  - subst m. split; [exists block, data; by simplify_map_eq|]. intros b' s' d' [[_ [= <- _]]|[_ H]]%lookup_insert_Some; [lia|]. by rewrite lookup_empty in H.
Qed.

Lemma max_sequence_is rows n : is_newest rows n -> max_sequence rows = Some n.
Proof.
  intros [(b & d & Hb) Hle]. pose proof (max_sequence_spec rows) as H. destruct (max_sequence rows) as [n'|]; [|by subst rows; rewrite lookup_empty in Hb].
  destruct H as [(b' & d' & Hb') Hle']. f_equal. apply Hle in Hb'. apply Hle' in Hb. lia.
Qed.

Lemma below_newest rows block sequence data : rows !! block = Some (sequence, data) -> sequence <= newest_sequence rows.
Proof. intros H. unfold newest_sequence. pose proof (max_sequence_spec rows) as Hm. destruct (max_sequence rows); [by eapply Hm|]. subst rows. by rewrite lookup_empty in H. Qed.

(** A row that is there keeps its sequence, and one that is not becomes the newest. *)
Lemma upsert_newest block ledger rows : is_newest (upsert_ledger block ledger rows) (match rows !! block with Some _ => newest_sequence rows | None => newest_sequence rows + 1 end).
Proof.
  unfold upsert_ledger. destruct (rows !! block) as [[sequence data]|] eqn:Hb.
  - pose proof (max_sequence_spec rows) as Hm. unfold newest_sequence. destruct (max_sequence rows) as [n|]; [|by subst rows; rewrite lookup_empty in Hb]. destruct Hm as [(b & d & Hn) Hle]. split.
    + destruct (decide (b = block)) as [->|]; [exists block, ledger|exists b, d]; simplify_map_eq; done.
    + intros b' s' d' [[_ [= <- _]]|[_ H]]%lookup_insert_Some; cbn; by eapply Hle.
  - split; [exists block, ledger; by simplify_map_eq|]. intros b' s' d' [[_ [= <- _]]|[_ H%below_newest]]%lookup_insert_Some; unfold newest_sequence in *; lia.
Qed.

Lemma write_rows block ledger rows : exists n, is_newest (upsert_ledger block ledger rows) n /\ n = (match rows !! block with Some _ => newest_sequence rows | None => newest_sequence rows + 1 end) /\
  write_ledger block ledger rows = filter (fun entry => n - LEDGER_HISTORY < entry.2.1) (upsert_ledger block ledger rows).
Proof. pose proof (upsert_newest block ledger rows) as H. eexists. split; [exact H|]. split; [done|]. unfold write_ledger, prune_ledgers. by rewrite (max_sequence_is _ _ H). Qed.

Lemma write_newest block ledger rows : newest_sequence (write_ledger block ledger rows) = match rows !! block with Some _ => newest_sequence rows | None => newest_sequence rows + 1 end.
Proof.
  destruct (write_rows block ledger rows) as (n & [(b & d & Hb) Hle] & <- & ->). unfold newest_sequence. rewrite (max_sequence_is _ n); [done|]. split.
  - exists b, d. apply map_lookup_filter_Some. split; [done|]. cbn. unfold LEDGER_HISTORY. lia.
  - intros b' s' d' [H _]%map_lookup_filter_Some. by eapply Hle.
Qed.

Lemma write_lookup block ledger rows id : write_ledger block ledger rows !! id =
  (row ← upsert_ledger block ledger rows !! id; if bool_decide (newest_sequence (write_ledger block ledger rows) - LEDGER_HISTORY < row.1) then Some row else None).
Proof.
  rewrite write_newest. destruct (write_rows block ledger rows) as (n & _ & <- & ->). rewrite map_lookup_filter. destruct (upsert_ledger block ledger rows !! id) as [[q d]|]; cbn; [|done].
  case_guard; case_bool_decide; done.
Qed.

(** The tables [write_ledger] leaves, and the row it writes into one. *)
Definition windowed rows : Prop := forall block sequence data, rows !! block = Some (sequence, data) -> newest_sequence rows - LEDGER_HISTORY < sequence.

Lemma write_windowed block ledger rows : windowed (write_ledger block ledger rows).
Proof. intros b s d H. rewrite write_lookup in H. destruct (upsert_ledger _ _ _ !! b) as [[q e]|]; [|done]. cbn in H. case_bool_decide; [|done]. by injection H as <- <-. Qed.

Lemma write_holds block ledger rows : windowed rows -> snd <$> write_ledger block ledger rows !! block = Some ledger.
Proof.
  intros Hw. rewrite write_lookup, write_newest. unfold upsert_ledger. destruct (rows !! block) as [[q d]|] eqn:Hb; rewrite lookup_insert_eq; cbn; (rewrite bool_decide_eq_true_2; [done|]).
  - by apply Hw in Hb.
  - unfold newest_sequence, LEDGER_HISTORY. lia.
Qed.

(** Writes of the rows of other blocks. *)
Definition writes others rows rows' : Prop := exists block ledger, block ∈ others /\ rows' = write_ledger block ledger rows.

(** How many sequences are newer than the row of a block. *)
Definition ledger_age id rows : option Z := (fun row => newest_sequence rows - row.1) <$> rows !! id.

Lemma write_kept block ledger rows id q d : block <> id -> rows !! id = Some (q, d) -> newest_sequence (write_ledger block ledger rows) < q + LEDGER_HISTORY -> write_ledger block ledger rows !! id = Some (q, d).
Proof.
  intros Hne Hid Hq. rewrite write_lookup. assert (upsert_ledger block ledger rows !! id = Some (q, d)) as ->.
  { unfold upsert_ledger. destruct (rows !! block) as [[]|]; by rewrite lookup_insert_ne. }
  cbn. rewrite bool_decide_eq_true_2; [done|lia].
Qed.

(** A row is kept while the blocks written after it are fewer than the window has left,
    however often each of them was written. *)
Lemma window_keeps others rows rows' id q d : rtc (writes others) rows rows' -> id ∉ others -> rows !! id = Some (q, d) ->
  newest_sequence rows - q + Z.of_nat (size others) < LEDGER_HISTORY -> rows' !! id = Some (q, d).
Proof.
  intros Hw Hid Hrow Hage.
  enough (exists fresh, fresh ⊆ others /\ newest_sequence rows' = newest_sequence rows + Z.of_nat (size fresh) /\
    (forall block, block ∈ fresh -> exists s e, rows' !! block = Some (s, e) /\ newest_sequence rows < s) /\ rows' !! id = Some (q, d)) as (_ & _ & _ & _ & ?) by done.
  revert rows' Hw. apply rtc_ind_r; [|intros r r' _ (block & ledger & Hb & ->) (fresh & Hsub & Hnew & Hfresh & Hr)].
  { exists ∅. rewrite size_empty. split_and!; [set_solver|lia|set_solver|done]. }
  pose proof (below_newest _ _ _ _ Hrow) as Hq. assert (Hne : block <> id) by (by intros ->).
  set (fresh' := match r !! block with Some _ => fresh | None => {[block]} ∪ fresh end).
  assert (Hsub' : fresh' ⊆ others) by (unfold fresh'; destruct (r !! block); set_solver).
  assert (Hnew' : newest_sequence (write_ledger block ledger r) = newest_sequence rows + Z.of_nat (size fresh')).
  { rewrite write_newest, Hnew. unfold fresh'. destruct (r !! block) eqn:Hin; [done|]. rewrite size_union, size_singleton; [lia|].
    intros b Hb1 Hb2. apply elem_of_singleton in Hb1 as ->. apply Hfresh in Hb2 as (? & ? & Hb2 & _). by rewrite Hin in Hb2. }
  assert (Hsize : newest_sequence (write_ledger block ledger r) < q + LEDGER_HISTORY) by (apply subseteq_size in Hsub'; lia).
  exists fresh'. split_and!; [done|done| |by apply write_kept].
  intros b Hbf. rewrite write_lookup, Hnew'. unfold upsert_ledger. destruct (decide (b = block)) as [->|Hbne].
  - destruct (r !! block) as [[s e]|] eqn:Hin; rewrite lookup_insert_eq; cbn.
    + apply Hfresh in Hbf as (s1 & e1 & Hs1 & Hlt). rewrite Hin in Hs1. injection Hs1 as <- <-. exists s, ledger. rewrite bool_decide_eq_true_2; [done|lia].
    + exists (default 0 (max_sequence r) + 1), ledger. fold (newest_sequence r). rewrite Hnew. rewrite bool_decide_eq_true_2; [split; [done|lia]|lia].
  - assert (Hbf' : b ∈ fresh) by (unfold fresh' in Hbf; destruct (r !! block); set_solver). apply Hfresh in Hbf' as (s1 & e1 & Hs1 & Hlt).
    exists s1, e1. split; [|done]. destruct (r !! block) as [[]|]; rewrite lookup_insert_ne, Hs1 by done; cbn; (rewrite bool_decide_eq_true_2; [done|lia]).
Qed.

(** The writes of a block that had no row leave its row the newest. *)
Lemma first_write_newest id rows rows' : rtc (writes {[id]}) rows rows' -> rows !! id = None -> rows' = rows \/ ledger_age id rows' = Some 0.
Proof.
  intros Hw Hid. revert rows' Hw. apply rtc_ind_r; [by left|]. intros r r' _ (block & ledger & Hb & ->) IH. right. apply elem_of_singleton in Hb as ->.
  assert (Hseq : forall s e, r !! id = Some (s, e) -> s = newest_sequence r).
  { intros s e Hs. destruct IH as [->|IH]; [by rewrite Hid in Hs|]. unfold ledger_age in IH. rewrite Hs in IH. cbn in IH. injection IH as IH. lia. }
  unfold ledger_age. rewrite write_lookup, write_newest. unfold upsert_ledger. destruct (r !! id) as [[s e]|]; rewrite lookup_insert_eq; cbn.
  - rewrite (Hseq s e) by done. rewrite bool_decide_eq_true_2 by (unfold LEDGER_HISTORY; lia). cbn. f_equal. lia.
  - fold (newest_sequence r). rewrite bool_decide_eq_true_2 by (unfold LEDGER_HISTORY; lia). cbn. f_equal. lia.
Qed.

End Window.

Section Frames.
Context `{HS : Hashes} `{SE : Secp256k1} `{ED : Edwards} `{CL : Clarity} `{CV : !ClarityValues} `{AM : !AssetMaps} `{VT : !VmTypes} `{VM : !Vms} `{LC : !LedgerCodec} `{RJ : !RecordJson} `{XO : Sbtc.XOnly}.

Abbreviation M := (Eff ChainState ChainStateError).

(** The rows of sealed ledgers are written by the commit of a block alone. *)
Definition keeps_rows {E A} (op : VmOp E A) : Prop := forall vm, chain_ledger (op vm).2 = chain_ledger vm.

Class VmLaws : Prop := {
  rows_set_checkpoint_height : forall b h, keeps_rows (set_checkpoint_height b h);
  rows_begin_block_execution : forall p b c, keeps_rows (begin_block_execution p b c);
  rows_abort_block : keeps_rows abort_block;
  rows_begin_transaction : keeps_rows begin_transaction;
  rows_commit_transaction : keeps_rows commit_transaction;
  rows_rollback_transaction : keeps_rows rollback_transaction;
  rows_record_block_header : forall b h, keeps_rows (record_block_header b h);
  rows_setup_block_metadata : forall t, keeps_rows (setup_block_metadata t);
  rows_tenure_height : keeps_rows tenure_height;
  rows_set_tenure_height : forall h, keeps_rows (set_tenure_height h);
  rows_process_scheduled_unlocks : keeps_rows process_scheduled_unlocks;
  rows_increment_liquid_stx_supply : forall n, keeps_rows (increment_liquid_stx_supply n);
  rows_account_nonce : forall p, keeps_rows (account_nonce p);
  rows_set_account_nonce : forall p n, keeps_rows (set_account_nonce p n);
  rows_debit_fee : forall p n, keeps_rows (debit_fee p n);
  rows_touch_stx_balance : forall p, keeps_rows (touch_stx_balance p);
  rows_credit_stx : forall p n, keeps_rows (credit_stx p n);
  rows_tracker : forall c, keeps_rows (transaction_cost_tracker_with_total c);
  rows_transfer_stx : forall a b n m t, keeps_rows (transfer_stx a b n m t);
  rows_deploy : forall c v s t, keeps_rows (deploy_contract_outcome c v s t);
  rows_call : forall a b c f l t, keeps_rows (execute_contract_call_outcome a b c f l t);
  rows_call_values : forall a c f l, keeps_rows (call_contract_values a c f l);
  rows_stand_on : forall l vm, chain_ledger (stand_on_tenure_starts l vm) = chain_ledger vm;
  (** A commit writes the row of its block before it seals, and where it fails may not have come to it. *)
  rows_commit : forall b c vm, let rows := chain_ledger (commit_block b c vm).2 in rows = chain_ledger vm \/ rows = write_ledger b (bc_ledger c) (chain_ledger vm);
  (** The row is there where the commit succeeds ([write_holds]: a store holds the tables [write_ledger] leaves). *)
  rows_commit_ok : forall b c vm root vm', commit_block b c vm = (Ok root, vm') -> recorded_ledger b vm' = Some (bc_ledger c);
  (** The root a commit seals is the one that was pending, and a read leaves it. *)
  roots_tenure_height : forall vm, pending_state_root (tenure_height vm).2 = pending_state_root vm;
  roots_commit : forall b c vm root vm', commit_block b c vm = (Ok root, vm') -> pending_state_root vm = Ok root;
}.

(** ** Ledgers whose fields have their widths *)

Definition ledger_ok (l : ChainLedger) : Prop :=
  bounded (cl_accounting l) /\ Forall (fun e => length (eh_block_id e) = 32%nat /\ length (eh_consensus_hash e) = 20%nat) (cl_executed l) /\
  map_Forall (fun _ block => length block = 32%nat) (cl_tenure_start_blocks l) /\ (forall proof, cl_parent_tenure_proof l = Some proof -> length proof = 80%nat).

(** A block as it is decoded: its consensus hash and the proofs of coinbases have their widths. *)
Definition tx_typed (tx : Transaction) : Prop := forall payload recipient proof, tx_data tx = NakamotoCoinbase payload recipient proof -> length proof = 80%nat.
Definition block_typed (b : NakamotoBlock) : Prop := length (hd_consensus_hash (bl_header b)) = 20%nat /\ Forall tx_typed (bl_transactions b).

Lemma coinbase_proof_length b proof : block_typed b -> coinbase_vrf_proof b = Some proof -> length proof = 80%nat.
Proof.
  intros [_ Ht]. unfold coinbase_vrf_proof, find_map. induction Ht as [|tx txs Htx _ IH]; cbn [omap list_omap]; [done|].
  destruct (tx_data tx) eqn:E; try exact IH. cbn. intros [= <-]. by eapply Htx.
Qed.

(** ** Frames *)

Class VmFrame (R : ChainState -> ChainState -> Prop) : Prop := {
  frame_refl : forall s, R s s;
  frame_trans : forall s1 s2 s3, R s1 s2 -> R s2 s3 -> R s1 s3;
  frame_vm : forall s vm, chain_ledger vm = chain_ledger (cs_vm s) -> R s (set_vm vm s);
}.

Class Frame (R : ChainState -> ChainState -> Prop) : Prop := {
  #[global] frame_vm_frame :: VmFrame R;
  frame_ledger : forall s f, (forall l, ledger_ok l -> ledger_ok (f l)) -> R s (set_ledger (f (cs_ledger s)) s);
}.

(** The rows of [others] alone are written. *)
Definition rows_written (others : gset (list byte)) (s s' : ChainState) : Prop := rtc (writes others) (chain_ledger (cs_vm s)) (chain_ledger (cs_vm s')).
Definition ledger_stays_ok (s s' : ChainState) : Prop := ledger_ok (cs_ledger s) -> ledger_ok (cs_ledger s').

Definition same_ledger (s s' : ChainState) : Prop := cs_ledger s' = cs_ledger s.

#[export] Instance rows_frame others : Frame (rows_written others).
Proof. split; [split|]; unfold rows_written; intros; cbn; [done|by etrans|by rewrite H|done]. Qed.

#[export] Instance ledger_frame : Frame ledger_stays_ok.
Proof. split; [split|]; unfold ledger_stays_ok; cbn; auto. Qed.

#[export] Instance same_ledger_frame : VmFrame same_ledger.
Proof. split; unfold same_ledger; intros; cbn; congruence || done. Qed.

(** [m] stays in [R], and its value satisfies [Q]. *)
Definition steps (R : ChainState -> ChainState -> Prop) {A} (Q : A -> Prop) (m : M A) : Prop :=
  forall s r s', m s = Some (r, s') -> R s s' /\ forall x, r = Ok x -> Q x.

Context (R : ChainState -> ChainState -> Prop) `{FR : !VmFrame R}.

Lemma steps_bind {A B} (P : A -> Prop) (Q : B -> Prop) (m : M A) (k : A -> M B) : steps R P m -> (forall x, P x -> steps R Q (k x)) -> steps R Q (m ≫= k).
Proof.
  intros Hm Hk s r s' [(x & s1 & H1 & H2)|(e & H1 & ->)]%eff_bind_inv.
  - destruct (Hm _ _ _ H1) as [R1 P1]. destruct (Hk x (P1 _ eq_refl) _ _ _ H2) as [R2 Q2]. split; [by eapply frame_trans|done].
  - destruct (Hm _ _ _ H1) as [R1 _]. by split.
Qed.

Lemma steps_weaken {A} (P Q : A -> Prop) (m : M A) : steps R P m -> (forall x, P x -> Q x) -> steps R Q m.
Proof. intros Hm HQ s r s' H. destruct (Hm _ _ _ H) as [HR HP]. split; [done|]. intros x ->. by apply HQ, HP. Qed.

Lemma steps_true {A} (P : A -> Prop) (m : M A) : steps R P m -> steps R (fun _ => True) m.
Proof. intros H. by eapply steps_weaken. Qed.

Lemma steps_then {A B} (Q : B -> Prop) (m : M A) (k : A -> M B) : steps R (fun _ => True) m -> (forall x, steps R Q (k x)) -> steps R Q (m ≫= k).
Proof. intros Hm Hk. eapply steps_bind; [done|]. auto. Qed.

(** Computations that leave the state as it is. *)
Lemma steps_same {A} (Q : A -> Prop) (m : M A) : (forall s r s', m s = Some (r, s') -> s' = s /\ forall x, r = Ok x -> Q x) -> steps R Q m.
Proof. intros H s r s' Hm. destruct (H _ _ _ Hm) as [-> HQ]. split; [apply frame_refl|done]. Qed.

Lemma steps_ret {A} (Q : A -> Prop) (x : A) : Q x -> steps R Q (mret x).
Proof. intros HQ. apply steps_same. intros s r s' [= <- <-]. split; [done|]. by intros y [= ->]. Qed.

Lemma steps_throw {A} (Q : A -> Prop) e : steps R Q (throw e).
Proof. apply steps_same. by intros s r s' [= <- <-]. Qed.

Lemma steps_ask {A} (f : ChainState -> A) : steps R (fun _ => True) (ask f).
Proof. apply steps_same. by intros s r s' [= <- <-]. Qed.

Lemma steps_query {A} (f : Vm -> result MarfStoreError A) : steps R (fun _ => True) (query f).
Proof. apply steps_same. by intros s r s' [= <- <-]. Qed.

Lemma steps_unwrap {A} (o : option A) : steps R (fun x => o = Some x) (unwrap o).
Proof. apply steps_same. unfold unwrap. intros s r s' H. destruct o; [|done]. injection H as <- <-. split; [done|]. by intros x [= ->]. Qed.

Lemma steps_try {F A} (f : F -> ChainStateError) (o : result F A) : steps R (fun _ => True) (try_with f o).
Proof. apply steps_same. unfold try_with. intros s r s' H. by destruct o; injection H as <- <-. Qed.

Lemma steps_checked {F A} (f : F -> ChainStateError) (o : option (result F A)) : steps R (fun _ => True) (checked f o).
Proof. apply steps_same. unfold checked. intros s r s' H. destruct o; [|done]. by injection H as <- <-. Qed.

Lemma steps_attempt {A} (Q : A -> Prop) (m : M A) : steps R Q m -> steps R (fun r => forall x, r = Ok x -> Q x) (attempt m).
Proof. intros Hm s r s'. unfold attempt. destruct (m s) as [[r1 s1]|] eqn:H; [|done]. intros [= <- <-]. destruct (Hm _ _ _ H) as [HR HQ]. split; [done|]. by intros x [= ->]. Qed.

Lemma steps_map_error {A} (Q : A -> Prop) f (m : M A) : steps R Q m -> steps R Q (map_error f m).
Proof. intros Hm s r s'. unfold map_error. destruct (m s) as [[r1 s1]|] eqn:H; [|done]. intros [= <- <-]. destruct (Hm _ _ _ H) as [HR HQ]. split; [done|]. intros x. destruct r1; [|done]. intros [= ->]. by apply HQ. Qed.

Lemma steps_op {E A} (f : E -> ChainStateError) (op : VmOp E A) : keeps_rows op -> steps R (fun _ => True) (vm_op f op).
Proof. intros Hop s r s'. unfold vm_op. specialize (Hop (cs_vm s)). destruct (op (cs_vm s)) as [r1 vm]. intros [= <- <-]. split; [|done]. by apply frame_vm. Qed.

End Frames.

Lemma steps_change `{CL : Clarity} `{AM : !AssetMaps} `{VT : !VmTypes} `{VM : !Vms} `{LC : !LedgerCodec} (R : ChainState -> ChainState -> Prop) `{FR : !Frame R} f :
  (forall l, ledger_ok l -> ledger_ok (f l)) -> steps R (fun _ => True) (change_ledger f).
Proof. intros Hf s r s' [= <- <-]. split; [|done]. by apply frame_ledger. Qed.

Create HintDb steps.
#[export] Hint Extern 0 (VmFrame _) => exact _ : steps.
#[export] Hint Extern 0 (Frame _) => exact _ : steps.
#[export] Hint Resolve rows_set_checkpoint_height rows_begin_block_execution rows_abort_block rows_begin_transaction rows_commit_transaction rows_rollback_transaction rows_record_block_header
  rows_setup_block_metadata rows_tenure_height rows_set_tenure_height rows_process_scheduled_unlocks rows_increment_liquid_stx_supply rows_account_nonce rows_set_account_nonce rows_debit_fee
  rows_touch_stx_balance rows_credit_stx rows_tracker rows_transfer_stx rows_deploy rows_call rows_call_values : steps.

(** One layer of a computation, and all the layers whose parts the hints know. *)
Ltac steps_layer :=
  match goal with
  | |- VmFrame _ => exact _
  | |- Frame _ => exact _
  | |- steps _ _ (_ ≫= _) => apply steps_then; [exact _| |intros ?]
  | |- steps _ _ (mret _) => apply steps_ret; [exact _|done]
  | |- steps _ _ (throw _) => apply steps_throw
  | |- steps _ _ (ask _) => apply steps_ask
  | |- steps _ _ (query _) => apply steps_query
  | |- steps _ _ (unwrap _) => eapply steps_true, steps_unwrap
  | |- steps _ _ (try_with _ _) => apply steps_try
  | |- steps _ _ (valid _) => apply steps_try
  | |- steps _ _ (checked _ _) => apply steps_checked
  | |- steps _ _ (attempt _) => eapply steps_true, steps_attempt
  | |- steps _ _ (map_error _ _) => apply steps_map_error
  | |- steps _ _ (store _) => apply steps_op; [exact _|solve [auto with steps]]
  | |- steps _ _ (run _) => apply steps_op; [exact _|solve [repeat case_match; auto with steps]]
  | |- steps _ _ (vm_op _ _) => apply steps_op; [exact _|solve [auto with steps]]
  | |- steps _ _ (match ?x with _ => _ end) => destruct x
  | |- steps _ _ _ => solve [eauto with steps]
  end.
Ltac steps_all := repeat steps_layer.

(** * The computations of a block stay in every frame

    Each operation of the chain state, up to the commit of a block, stays in a relation
    the virtual machine's operations and the ledger's changes stay in. *)

Section Steps.
Context `{HS : Hashes} `{HO : !HashesOk} `{SE : Secp256k1} `{ED : Edwards} `{CL : Clarity} `{CV : !ClarityValues} `{AM : !AssetMaps} `{VT : !VmTypes} `{VM : !Vms} `{LC : !LedgerCodec} `{RJ : !RecordJson}.
Context `{XO : Sbtc.XOnly} `{RO : !VmLaws}.
Context (R : ChainState -> ChainState -> Prop) `{FR : !VmFrame R}.

(** ** Reads of the boot contracts *)

Lemma steps_call_as_boot c f l : steps R (fun _ => True) (call_as_boot c f l).
Proof. unfold call_as_boot. steps_all. Qed.
Hint Resolve steps_call_as_boot : steps.

Lemma steps_read_u128 c f l : steps R (fun _ => True) (read_u128 c f l).
Proof. unfold read_u128. steps_all. Qed.
Lemma steps_read_optional c f l : steps R (fun _ => True) (read_optional c f l).
Proof. unfold read_optional. steps_all. Qed.
Lemma steps_optional_principal v : steps R (fun _ => True) (optional_principal v).
Proof. unfold optional_principal. steps_all. Qed.
Hint Resolve steps_read_u128 steps_read_optional steps_optional_principal : steps.

Lemma steps_stake_entry pox lookup cycle : steps R (fun _ => True) (stake_entry pox lookup cycle).
Proof. unfold stake_entry. steps_all. Qed.
Hint Resolve steps_stake_entry : steps.

Lemma steps_walk fuel : forall pox cycle current entries, steps R (fun _ => True) (walk_stakers fuel pox cycle current entries).
Proof. induction fuel as [|fuel IH]; intros; cbn [walk_stakers]; steps_all. Qed.
Hint Resolve steps_walk : steps.

Lemma steps_stake_entries fuel cycle : steps R (fun _ => True) (stake_entries fuel cycle).
Proof. unfold stake_entries. steps_all. Qed.
Hint Resolve steps_stake_entries : steps.

Lemma steps_derive fuel cycle slots : steps R (fun _ => True) (derive_signer_set fuel cycle slots).
Proof. unfold derive_signer_set. steps_all. Qed.
Lemma steps_recorded context : steps R (fun _ => True) (recorded_signer_set context).
Proof. unfold recorded_signer_set. steps_all. Qed.
Lemma steps_tuple_list principals set field value : steps R (fun _ => True) (tuple_list principals set field value).
Proof. unfold tuple_list. steps_all. Qed.
Hint Resolve steps_derive steps_recorded steps_tuple_list : steps.

Lemma steps_update fuel context height : steps R (fun _ => True) (update_signer_set fuel context height).
Proof. unfold update_signer_set. steps_all. Qed.
Lemma steps_sbtc configured : steps R (fun _ => True) (sbtc_payout_address configured).
Proof. unfold sbtc_payout_address. steps_all. Qed.
Hint Resolve steps_update steps_sbtc : steps.

(** ** Transactions *)

Lemma steps_failed_deployment e c : steps R (fun _ => True) (failed_deployment e c).
Proof. unfold failed_deployment. steps_all. Qed.
Hint Resolve steps_failed_deployment : steps.
Lemma steps_deploy o v n s t : steps R (fun _ => True) (deploy o v n s t).
Proof. unfold deploy. steps_all. Qed.
Lemma steps_nonces s p b t : steps R (fun _ => True) (update_transaction_nonces s p b t).
Proof. unfold update_transaction_nonces. steps_all. Qed.
Hint Resolve steps_deploy steps_nonces : steps.

Lemma steps_payload t o s p k : steps R (fun _ => True) (run_payload t o s p k).
Proof. unfold run_payload. steps_all. Qed.
Hint Resolve steps_payload : steps.
Lemma steps_execute_payload t o s p c : steps R (fun _ => True) (execute_payload t o s p c).
Proof. unfold execute_payload. steps_all. Qed.
Lemma steps_optional_sponsor t : steps R (fun _ => True) (optional_sponsor t).
Proof. unfold optional_sponsor. steps_all. Qed.
Hint Resolve steps_execute_payload steps_optional_sponsor : steps.

Lemma steps_prepare t s : steps R (fun _ => True) (prepare_user_transaction t s).
Proof. unfold prepare_user_transaction. steps_all. Qed.
Lemma steps_system t s r : steps R (fun _ => True) (execute_system_transaction t s r).
Proof. unfold execute_system_transaction. steps_all. Qed.
Lemma steps_settle_post t s r : steps R (fun _ => True) (settle_post_conditions t s r).
Proof. unfold settle_post_conditions. steps_all. Qed.
Hint Resolve steps_prepare steps_system steps_settle_post : steps.

Lemma steps_user t o s c : steps R (fun _ => True) (execute_user_transaction t o s c).
Proof. unfold execute_user_transaction. steps_all. Qed.
Hint Resolve steps_user : steps.
Lemma steps_in_transaction t c : steps R (fun _ => True) (execute_transaction_in_transaction t c).
Proof. unfold execute_transaction_in_transaction. steps_all. Qed.
Lemma steps_failure t r s : steps R (fun _ => True) (apply_transaction_failure t r s).
Proof. unfold apply_transaction_failure. steps_all. Qed.
Lemma steps_settle {A} (r : result ChainStateError A) : steps R (fun _ => True) (settle_transaction r).
Proof. unfold settle_transaction. steps_all. Qed.
Hint Resolve steps_in_transaction steps_failure steps_settle : steps.

Lemma steps_execute_transaction t c : steps R (fun _ => True) (execute_transaction t c).
Proof. unfold execute_transaction. steps_all. Qed.
Hint Resolve steps_execute_transaction : steps.

Lemma steps_native s c f l : steps R (fun _ => True) (execute_native_contract_call s c f l).
Proof. unfold execute_native_contract_call, finalize_native. steps_all. Qed.
Hint Resolve steps_native : steps.
Lemma steps_operation o h : steps R (fun _ => True) (execute_bitcoin_operation o h).
Proof. unfold execute_bitcoin_operation, finalize_native. steps_all. Qed.
Hint Resolve steps_operation : steps.
Lemma steps_operations l h : steps R (fun _ => True) (execute_bitcoin_operations l h).
Proof. unfold execute_bitcoin_operations. induction (in_execution_order l); cbn [execute_each]; steps_all. Qed.
Hint Resolve steps_operations : steps.

(** ** The parts of a block *)

Lemma steps_verified t : steps R (fun _ => True) (verified t).
Proof. unfold verified. steps_all. Qed.
Hint Resolve steps_verified : steps.

Lemma steps_admit candidates : forall txs cost receipts, steps R (fun _ => True) (admit_each candidates txs cost receipts).
Proof. induction candidates; intros; cbn [admit_each]; steps_all. Qed.
Hint Resolve steps_admit : steps.
Lemma steps_admit_candidates b l c r : steps R (fun _ => True) (admit_candidates b l c r).
Proof. unfold admit_candidates. steps_all. Qed.
Lemma steps_run_each h txs : forall cost receipts, steps R (fun _ => True) (run_each h txs cost receipts).
Proof. induction txs; intros; cbn [run_each]; steps_all. Qed.
Hint Resolve steps_admit_candidates steps_run_each : steps.
Lemma steps_run_transactions b l a : steps R (fun _ => True) (run_transactions b l a).
Proof. unfold run_transactions. steps_all. Qed.
Hint Resolve steps_run_transactions : steps.

Lemma steps_before fuel b p c o a : steps R (fun _ => True) (check_before_executing fuel b p c o a).
Proof. unfold check_before_executing, check_tenure_vrf_if_starting. steps_all. Qed.
Hint Resolve steps_before : steps.

Lemma steps_signatures b c : steps R (fun _ => True) (check_signer_signatures b c).
Proof. unfold check_signer_signatures. steps_all. Qed.

End Steps.
#[export] Hint Resolve steps_update steps_sbtc steps_operations steps_verified steps_run_each steps_run_transactions steps_before steps_signatures : steps.

Section Seal.
Context `{HS : Hashes} `{HO : !HashesOk} `{SE : Secp256k1} `{ED : Edwards} `{CL : Clarity} `{CV : !ClarityValues} `{AM : !AssetMaps} `{VT : !VmTypes} `{VM : !Vms} `{LC : !LedgerCodec} `{RJ : !RecordJson}.
Context `{XO : Sbtc.XOnly} `{RO : !VmLaws}.
Context (R : ChainState -> ChainState -> Prop) `{FR : !Frame R}.

Lemma record_earnings_ok h e l : ledger_ok l -> ledger_ok (set_accounting (record_earnings h e (cl_accounting l)) l).
Proof. intros (Hb & He & Hs & Hp). split_and!; try done. by apply earnings_stay_bounded. Qed.
Lemma add_fees_ok h f l : ledger_ok l -> ledger_ok (set_accounting (add_fees h f (cl_accounting l)) l).
Proof. intros (Hb & He & Hs & Hp). split_and!; try done. by apply earnings_stay_bounded. Qed.

Lemma steps_start_tenure c o b : steps R (fun _ => True) (start_tenure c o b).
Proof. unfold start_tenure. steps_all. apply steps_change; [exact _|]. intros l. apply record_earnings_ok. Qed.
Hint Resolve steps_start_tenure : steps.
Lemma steps_apply_start c o b e : steps R (fun _ => True) (apply_tenure_start c o b e).
Proof. unfold apply_tenure_start. steps_all. Qed.
Lemma steps_waterfall s r : steps R (fun _ => True) (waterfall_payout s r).
Proof. unfold waterfall_payout. steps_all. Qed.
Lemma steps_credit_each l : steps R (fun _ => True) (credit_each l).
Proof. induction l; cbn [credit_each]; steps_all. Qed.
Hint Resolve steps_apply_start steps_waterfall steps_credit_each : steps.
Lemma steps_credits e : steps R (fun _ => True) (apply_credits e).
Proof. unfold apply_credits. steps_all. Qed.
Lemma steps_unlocks b r : steps R (fun _ => True) (finalize_scheduled_unlocks b r).
Proof. unfold finalize_scheduled_unlocks. steps_all. Qed.
Lemma steps_mint h b r : steps R (fun _ => True) (mint_sip_031_on_new_tenure h b r).
Proof. unfold mint_sip_031_on_new_tenure, mint_sip_031. steps_all. Qed.
Lemma steps_root b p : steps R (fun _ => True) (settle_state_root b p).
Proof. unfold settle_state_root. steps_all. Qed.
Hint Resolve steps_credits steps_unlocks steps_mint steps_root : steps.

Lemma steps_fees tenure fees : steps R (fun _ => True) (change_ledger (fun l => set_accounting (add_fees tenure fees (cl_accounting l)) l)).
Proof. apply steps_change; [exact _|]. intros l. apply add_fees_ok. Qed.
Hint Resolve steps_fees : steps.

(** ** What sealing notes *)

Lemma block_id_length b id : block_id b = Some id -> length id = 32%nat.
Proof. unfold block_id, header_block_id. destruct (block_hash _); [|done]. cbn. intros [= <-]. apply sha512_256_length. Qed.

Lemma steps_note b c : block_typed b -> steps R (fun _ => True) (note_executed_block b c).
Proof.
  intros [Hc _]. unfold note_executed_block. apply steps_then; [exact _|steps_all|]. intros tenure. apply steps_then; [exact _|steps_all|]. intros height.
  eapply steps_bind; [exact _|apply steps_unwrap; exact _|]. intros id Hid%block_id_length. apply steps_then; [exact _| |intros; steps_all].
  apply steps_change; [exact _|]. intros l (Hb & He & Hs & Hpr). split_and!; try done; cbn.
  - apply Forall_drop, Forall_app. split; [done|]. by repeat constructor.
  - destruct (starts_new_tenure b).
    + destruct (cl_tenure_start_blocks l !! tenure); [done|]. by apply map_Forall_insert_2.
    + case_match; [|done]. by apply map_Forall_delete.
Qed.

Lemma steps_proof b : block_typed b -> steps R (fun _ => True) (match coinbase_vrf_proof b with Some proof => change_ledger (set_parent_tenure_proof (Some proof)) | None => mret tt end).
Proof.
  intros Hb. destruct (coinbase_vrf_proof b) as [proof|] eqn:E; [|steps_all]. apply steps_change; [exact _|].
  intros l (Hl & He & Hs & _). split_and!; try done. intros ? [= <-]. by eapply coinbase_proof_length.
Qed.

End Seal.

#[export] Hint Resolve steps_call_as_boot steps_read_u128 steps_read_optional steps_optional_principal steps_stake_entry steps_walk steps_stake_entries steps_derive steps_recorded steps_tuple_list steps_update steps_sbtc steps_failed_deployment steps_deploy steps_nonces steps_payload steps_execute_payload steps_optional_sponsor steps_prepare steps_system steps_settle_post steps_user steps_in_transaction steps_failure steps_settle steps_execute_transaction steps_native steps_operation steps_operations steps_verified steps_admit steps_admit_candidates steps_run_each steps_run_transactions steps_before steps_signatures steps_start_tenure steps_apply_start steps_waterfall steps_credit_each steps_credits steps_unlocks steps_mint steps_root steps_fees : steps.
