(* ===== verification/ChainStateTheorems.v ===== *)
(** * The chain state changes by whole blocks

    The ledger a block sealed is read back from its row as it was; a block that is refused,
    or only looked at, leaves the ledger as it was, and one that seals leaves the ledger its
    row holds; a sealed block satisfies every rule; and a retraction stands on the ledger
    the surviving block sealed. *)

From stdpp Require Import gmap sorting.
From S2P Require Import Prelude Primitives Address CodecIO Crypto TxData TxCodec TxAuth Nakamoto Signers SortitionRules SnapshotChain Sbtc Effects ProposalExecution.
From S2P Require Import Clarity BlockRules BlockRulesTheorems TenureRewards RewardsTheorems PostConditions ChainLedger ChainState SignerElection TransactionExecution BlockExecution.
From S2P Require Import ChainSteps.

(** ** The row of a ledger *)

Section Rows.
Context `{HS : Hashes} `{CL : Clarity} `{CO : !ClarityOk} `{LC : !LedgerCodec} `{LO : !LedgerCodecOk}.

Lemma collect_entries {A} (m : gmap Z A) : from_entries (entries m) = m.
Proof.
  assert (H : forall (l : list (Z * A)) (m0 : gmap Z A), NoDup l.*1 -> foldl (fun (m : gmap Z A) '(k, v) => <[k := v]> m) m0 l = list_to_map l ∪ m0).
  { induction l as [|[k v] l IH]; intros m0 Hnd; cbn [foldl]; [by rewrite list_to_map_nil, map_empty_union|].
    cbn [fmap list_fmap fst] in Hnd. apply NoDup_cons in Hnd as [Hk Hnd]. rewrite IH by done. by apply union_insert. }
  unfold from_entries. rewrite H by (rewrite entries_keys; apply keys_NoDup). by rewrite list_to_map_entries, map_union_empty.
Qed.

Lemma ledger_hex_inverse n b : length b = n -> ledger_hex n (to_hex b) = Some b.
Proof. intros <-. unfold ledger_hex. rewrite of_to_hex. cbn. by rewrite bool_decide_eq_true_2. Qed.

Lemma mapM_inverse {A B} (f : B -> option A) (g : A -> B) l : Forall (fun x => f (g x) = Some x) l -> mapM f (map g l) = Some l.
Proof. induction 1 as [|x l Hx _ IH]; cbn; [done|]. rewrite Hx. cbn. rewrite IH. done. Qed.

(** The row that is written for a ledger. *)
Lemma row_restores l : ledger_ok l -> exists bytes, ledger_encode l = Some bytes /\ ledger_decode bytes = Some l.
Proof.
  intros (Hb & He & Hs & Hp). unfold ledger_encode. destruct (ledger_written (ledger_record l)) as [bytes Hw]. exists bytes. split; [done|].
  unfold ledger_decode. rewrite (ledger_read_back _ _ Hw). cbn [mbind option_bind ledger_record lr_executed lr_parent_tenure_proof lr_tenure_start_blocks lr_accounting lr_tenure_start_heights].
  rewrite (mapM_inverse executed_of_record executed_record); [cbn|].
  2: { eapply Forall_impl; [exact He|]. intros [b c t] [H1 H2]. cbn in *. unfold executed_of_record. cbn. by rewrite !ledger_hex_inverse. }
  assert (match to_hex <$> cl_parent_tenure_proof l with Some proof => Some <$> ledger_hex 80 proof | None => Some None end = Some (cl_parent_tenure_proof l)) as ->.
  { destruct (cl_parent_tenure_proof l) as [proof|] eqn:E; [|done]. cbn. by rewrite ledger_hex_inverse by by apply Hp. }
  cbn [mbind option_bind]. replace (map _ (entries (cl_tenure_start_blocks l))) with (map (fun p => (p.1, to_hex p.2)) (entries (cl_tenure_start_blocks l))) by (apply map_ext; by intros [? ?]).
  rewrite mapM_inverse; [cbn|].
  2: { apply Forall_forall. intros [k b] Hin%elem_of_entries. cbn. rewrite ledger_hex_inverse; [done|]. by eapply (map_Forall_lookup_1 _ _ _ _ Hs). }
  rewrite checkpoint_restores by done. rewrite !collect_entries. by destruct l.
Qed.

(** What a seal writes of the ledger is read back as it was. *)
Theorem ledger_roundtrip l (Hl : ledger_ok l) : exists bytes, ledger_encode l = Some bytes /\ ledger_decode bytes = Some l.
Proof. by apply row_restores. Qed.

End Rows.

(** ** Blocks take effect whole *)

(** The first computation of a sequence that returned a value. *)
Ltac run_inv H := let x := fresh "x" in let s := fresh "s" in let E := fresh "E" in apply eff_bind_ok in H as (x & s & E & H); cbn beta in H.

Ltac destruct_units := repeat match goal with x : unit |- _ => destruct x end.

Section Execution.
Context `{HS : Hashes} `{HO : !HashesOk} `{SE : Secp256k1} `{ED : Edwards} `{CL : Clarity} `{CV : !ClarityValues} `{AM : !AssetMaps} `{VT : !VmTypes} `{VM : !Vms} `{LC : !LedgerCodec} `{RJ : !RecordJson}.
Context `{XO : Sbtc.XOnly} `{RO : !VmLaws} `{CO : !ClarityOk} `{LO : !LedgerCodecOk} (vrf_fuel staker_fuel : nat).

Abbreviation execute := (execute_nakamoto_block vrf_fuel staker_fuel).

(** The state stands on the sealed block, and its row holds the ledger. *)
Record sealed (block : NakamotoBlock) (s : ChainState) : Prop := {
  sealed_tip : exists tenure id, block_id block = Some id /\ last (cl_executed (cs_ledger s)) = Some (mkExecuted id (hd_consensus_hash (bl_header block)) tenure);
  sealed_reach : len (cl_executed (cs_ledger s)) <= REORG_REACH;
  sealed_proof : forall proof, coinbase_vrf_proof block = Some proof -> cl_parent_tenure_proof (cs_ledger s) = Some proof;
  sealed_row : exists id bytes, block_id block = Some id /\ ledger_encode (cs_ledger s) = Some bytes /\ recorded_ledger id (cs_vm s) = Some bytes;
}.

Lemma drop_reach (l : list ExecutedHeader) x : last (drop (Z.to_nat (len (l ++ [x]) - REORG_REACH)) (l ++ [x])) = Some x /\ len (drop (Z.to_nat (len (l ++ [x]) - REORG_REACH)) (l ++ [x])) <= REORG_REACH.
Proof.
  rewrite length_drop, !length_app. cbn [length]. unfold REORG_REACH. split; [|lia].
  rewrite drop_app_le by lia. by rewrite last_snoc.
Qed.

Lemma note_ok block context s header s' : note_executed_block block context s = Some (Ok header, s') -> exists tenure id, block_id block = Some id /\
  last (cl_executed (cs_ledger s')) = Some (mkExecuted id (hd_consensus_hash (bl_header block)) tenure) /\ len (cl_executed (cs_ledger s')) <= REORG_REACH.
Proof.
  unfold note_executed_block. intros H. run_inv H. run_inv H. run_inv H. run_inv H. run_inv H. run_inv H. run_inv H. injection H as _ <-.
  unfold unwrap in E1. destruct (block_id block) as [id|] eqn:Hid; [|done]. injection E1 as <- <-. injection E2 as _ <-.
  apply ask_same in E3 as ->. apply try_with_same in E4 as ->. apply unwrap_same in E5 as ->.
  exists x, id. split; [done|]. apply drop_reach.
Qed.

Lemma finish_seals block context decision s root s' : finish_block_execution block context Seal decision s = Some (Ok root, s') -> sealed block s'.
Proof.
  cbn [finish_block_execution]. intros H. run_inv H. run_inv H. run_inv H. run_inv H. run_inv H.
  apply note_ok in E as (tenure & id & Hid & Hlast & Hlen). injection E1 as <- <-. unfold try_with in E2.
  destruct (ledger_encode (cs_ledger s1)) as [bytes|] eqn:Henc; [|done]. injection E2 as <- <-. unfold unwrap in E3. rewrite Hid in E3. injection E3 as <- <-.
  unfold store, vm_op in H. destruct (commit_block _ _ _) as [[root'|] vm] eqn:Hc; [|done]. injection H as _ <-. apply rows_commit_ok in Hc.
  assert (Hs1 : cl_executed (cs_ledger s1) = cl_executed (cs_ledger s0) /\ forall proof, coinbase_vrf_proof block = Some proof -> cl_parent_tenure_proof (cs_ledger s1) = Some proof).
  { destruct (coinbase_vrf_proof block); injection E0 as _ <-; [|done]. split; [done|]. by intros ? [= <-]. }
  destruct Hs1 as [Hs1 Hproof]. split; cbn [cs_ledger set_vm]; rewrite ?Hs1; eauto.
Qed.

(** What [execute_opened] returns from is the end of the block. *)
Lemma opened_finishes block x s block' applied s' : execute_opened staker_fuel block x s = Some (Ok (block', applied), s') ->
  exists s1 cost receipts events out, seal_and_finish block' (ex_bitcoin_context x) (ex_persistence x) cost receipts events s1 = Some (Ok out, s') /\ ap_state_root applied = out.2.
Proof.
  unfold execute_opened. cbv zeta. intros H. run_inv H. run_inv H. run_inv H. destruct x2 as [[effects rewards] amounts]. run_inv H. run_inv H. run_inv H. run_inv H.
  destruct x5 as [[filled cost] receipts]. run_inv H. run_inv H. run_inv H. run_inv H. run_inv H. run_inv H. run_inv H. run_inv H. run_inv H. injection H as <- <- <-.
  repeat eexists. exact E14.
Qed.

Lemma seal_and_finish_ok block context persistence cost receipts events s out s' : seal_and_finish block context persistence cost receipts events s = Some (Ok out, s') ->
  exists decision, finish_block_execution block context persistence decision s = Some (Ok out.2, s').
Proof.
  unfold seal_and_finish. intros H. run_inv H. run_inv H. run_inv H. run_inv H. run_inv H. run_inv H. run_inv H. injection H as <- <-.
  apply ask_same in E as ->. apply unwrap_same in E0 as ->. apply unwrap_same in E1 as ->. apply try_with_same in E2 as ->. apply unwrap_same in E3 as ->. apply try_with_same in E4 as ->.
  by exists x4.
Qed.

(** The checks before a block keep the ledger, and so does the opening of the block. *)
Lemma begun_ledger {A} (m : Eff ChainState ChainStateError A) s r s' : steps same_ledger (fun _ => True) m -> m s = Some (r, s') -> cs_ledger s' = cs_ledger s.
Proof. intros Hm H. by destruct (Hm _ _ _ H). Qed.

Definition before_opening block x : Eff ChainState ChainStateError unit :=
  _ ← (if checks_before_execution (ex_authentication x) then check_before_executing vrf_fuel block (ex_parent x) (ex_bitcoin_context x) (ex_operations x) (is_mined (ex_root x)) else mret tt);
  store (begin_block_execution (ex_parent x) temporary_state_id (ex_bitcoin_context x)).

Lemma steps_before_opening (R : ChainState -> ChainState -> Prop) `{FR : !VmFrame R} block x : steps R (fun _ => True) (before_opening block x).
Proof. unfold before_opening. steps_all. Qed.

(** The whole of [execute_nakamoto_block] after the checks. *)
Lemma execute_cases block x s r s' : execute block x s = Some (r, s') ->
  (exists e, before_opening block x s = Some (Err e, s') /\ r = Err e) \/
  (exists s1 r1 s2, before_opening block x s = Some (Ok tt, s1) /\ execute_opened staker_fuel block x s1 = Some (r1, s2) /\
     match r1 with
     | Ok applied => r = Ok applied /\ s' = if bool_decide (ex_persistence x = Seal) then s2 else set_ledger (cs_ledger s1) s2
     | Err e => r = Err e /\ s' = set_ledger (cs_ledger s1) (set_vm (abort_block (cs_vm s2)).2 s2)
     end).
Proof.
  unfold execute_nakamoto_block, before_opening. intros [(u & s0 & H0 & H)|(e & H0 & ->)]%eff_bind_inv.
  2: { left. exists e. split; [|done]. unfold mbind, Eff_bind. by rewrite H0. }
  apply eff_bind_inv in H as [(u1 & s1 & H1 & H)|(e & H1 & ->)].
  2: { left. exists e. split; [|done]. by rewrite (eff_bind_run _ _ _ _ _ H0). }
  right. apply eff_bind_inv in H as [(l & s1' & Hl & H)|(e & Hl & _)]; [|done]. injection Hl as <- <-.
  apply eff_bind_inv in H as [(r1 & s2 & Ho & H)|(e & Ho & _)]; unfold attempt in Ho; destruct (execute_opened staker_fuel block x s1) as [[r1' s2']|] eqn:Hop; try done. injection Ho as <- <-.
  destruct u1. exists s1, r1', s2'. split_and!; [by rewrite (eff_bind_run _ _ _ _ _ H0)|done|]. destruct r1' as [applied|e].
  - case_bool_decide; [injection H as <- <-|injection H as <- <-]; done.
  - unfold store, vm_op in H. unfold mbind, Eff_bind, attempt in H. destruct (abort_block (cs_vm s2')) as [ra vm]. injection H as <- <-. done.
Qed.

(** C31: A block takes effect whole or not at all: when execute_nakamoto_block refuses
    a block, or only looks at it, the ledger beside the MARF is what it was before;
    when it seals one, the block is the last executed one, the executed list stays
    within the reach of a reorganization, the proof kept is the block's own where it
    carries one, and the row committed under the block's identifier holds exactly the
    ledger the chain now stands on. *)
Theorem execution_atomic block x s r s' (H : execute block x s = Some (r, s')) :
  match r with
  | Err _ => cs_ledger s' = cs_ledger s
  | Ok (block', _) => if bool_decide (ex_persistence x = Seal) then sealed block' s' else cs_ledger s' = cs_ledger s
  end.
Proof.
  apply execute_cases in H as [(e & H & ->)|(s1 & r1 & s2 & Hb & Ho & H)]; [by apply begun_ledger in H; [|apply steps_before_opening; exact _]|].
  apply begun_ledger in Hb; [|apply steps_before_opening; exact _]. destruct r1 as [[block' applied]|e]; destruct H as [-> ->]; [|done].
  case_bool_decide as Hp; [|done]. apply opened_finishes in Ho as (s3 & cost & receipts & events & out & Hf & _). rewrite Hp in Hf.
  apply seal_and_finish_ok in Hf as [decision Hf]. by apply finish_seals in Hf.
Qed.

(** ** Followed blocks *)

Section Frame.
Context (R : ChainState -> ChainState -> Prop) `{FR : !Frame R}.

(** The commit of [block] stays in the frame. *)
Definition commits_in (block : NakamotoBlock) : Prop := forall id commit, block_id block = Some id -> steps R (fun _ => True) (store (commit_block id commit)).

Lemma steps_finish block context persistence decision : block_typed block -> commits_in block -> steps R (fun _ => True) (finish_block_execution block context persistence decision).
Proof.
  intros Ht Hc. destruct persistence; cbn [finish_block_execution]; [|steps_all]. apply steps_then; [exact _|by apply steps_note|]. intros header.
  apply steps_then; [exact _|by apply steps_proof|]. intros []. apply steps_then; [exact _|steps_all|]. intros ledger. apply steps_then; [exact _|steps_all|]. intros encoded.
  eapply steps_bind; [exact _|apply steps_unwrap; exact _|]. cbn. intros id Hid. by apply Hc.
Qed.

Lemma steps_seal block context persistence cost receipts events : block_typed block -> commits_in block -> steps R (fun _ => True) (seal_and_finish block context persistence cost receipts events).
Proof.
  intros Ht Hc. unfold seal_and_finish. cbv zeta.
  apply steps_then; [exact _|steps_all|]. intros network. apply steps_then; [exact _|steps_all|]. intros phantom. apply steps_then; [exact _|steps_all|]. intros c1.
  apply steps_then; [exact _|steps_all|]. intros c2. apply steps_then; [exact _|steps_all|]. intros record. apply steps_then; [exact _|steps_all|]. intros sealed_record.
  apply steps_then; [exact _|by apply steps_finish|]. intros root. steps_all.
Qed.

(** A block that is followed is sealed as it came. *)
Lemma run_transactions_block block assembled s filled s' : run_transactions block [] assembled s = Some (Ok filled, s') -> filled.1.1 = block.
Proof.
  unfold run_transactions. intros H. run_inv H. run_inv H. injection E0 as <- _. cbn [fst] in *. destruct (_ && _); [done|]. by injection H as <- _.
Qed.

Lemma settled_block block root s block' s' : is_mined root = false -> settle_state_root block root s = Some (Ok block', s') -> block' = block /\ s' = s /\ (root = Verify -> pending_state_root (cs_vm s) = Ok (hd_state_index_root (bl_header block))).
Proof.
  intros Hm. unfold settle_state_root. intros H. run_inv H. unfold query in E. injection E as E <-.
  destruct root; [done| |injection H as <- <-; done]. destruct (pending_state_root (cs_vm s)) as [p|]; [|done]. injection E as <-. case_bool_decide as Hr; [|done].
  injection H as <- <-. by rewrite Hr.
Qed.

Lemma steps_strong {A} (Q : A -> Prop) (m : Eff ChainState ChainStateError A) : steps R (fun _ => True) m -> (forall s x s', m s = Some (Ok x, s') -> Q x) -> steps R Q m.
Proof. intros Hm HQ s r s' H. destruct (Hm _ _ _ H) as [HR _]. split; [done|]. intros x ->. by eapply HQ. Qed.

Lemma steps_opened block x : block_typed block -> commits_in block -> is_mined (ex_root x) = false -> ex_candidates x = [] ->
  steps R (fun applied => applied.1 = block) (execute_opened staker_fuel block x).
Proof.
  intros Ht Hc Hm Hx. unfold execute_opened. cbv zeta. rewrite Hm, Hx. cbn [negb].
  apply steps_then; [exact _|steps_all|]. intros []. apply steps_then; [exact _|steps_all|]. intros [].
  apply steps_then; [exact _|steps_all|]. intros [[effects rewards] amounts].
  apply steps_then; [exact _|steps_all|]. intros height. apply steps_then; [exact _|steps_all|]. intros reward_set. apply steps_then; [exact _|steps_all|]. intros payout.
  eapply steps_bind; [exact _|apply steps_strong; [steps_all|intros ? ?; apply run_transactions_block]|]. intros [[filled cost] receipts]. cbn. intros ->.
  apply steps_then; [exact _|steps_all|]. intros tenure. apply steps_then; [exact _|steps_all|]. intros fees. apply steps_then; [exact _|steps_all|]. intros [].
  apply steps_then; [exact _|steps_all|]. intros []. apply steps_then; [exact _|steps_all|]. intros unlocked. apply steps_then; [exact _|steps_all|]. intros minted.
  apply steps_then; [exact _|steps_all|]. intros ?.
  eapply steps_bind with (P := fun b => b = block); [exact _|apply steps_strong; [steps_all|]|]. { intros s b s' H. by apply settled_block in H as [-> _]. }
  intros ? ->. apply steps_then; [exact _|by apply steps_seal|]. intros out. by apply steps_ret; [exact _|].
Qed.

End Frame.

(** The identifier of [block] is one of [others]. *)
Definition block_in (others : gset (list byte)) (block : NakamotoBlock) : Prop := forall id, block_id block = Some id -> id ∈ others.

Lemma rows_commits others block : block_in others block -> commits_in (rows_written others) block.
Proof.
  intros Hin id commit Hid s r s'. unfold store, vm_op. pose proof (rows_commit id commit (cs_vm s)) as Hrow. destruct (commit_block _ _ _) as [r1 vm]. intros [= <- <-].
  split; [|done]. unfold rows_written. cbn in *. destruct Hrow as [->| ->]; [done|]. apply rtc_once. exists id, (bc_ledger commit). split; [by apply Hin|done].
Qed.

Lemma ledger_commits block : commits_in ledger_stays_ok block.
Proof. intros id commit _ s r s'. unfold store, vm_op. destruct (commit_block _ _ _) as [r1 vm]. intros [= <- <-]. split; [intros H; exact H|done]. Qed.

(** Blocks that are followed, not mined here. *)
Definition followed (x : BlockExecution) : Prop := is_mined (ex_root x) = false /\ ex_candidates x = [].

Lemma execute_rows others block x s r s' : block_typed block -> followed x -> block_in others block -> execute block x s = Some (r, s') -> rows_written others s s'.
Proof.
  intros Ht [Hm Hx] Hin [(e & H & ->)|(s1 & r1 & s2 & Hb & Ho & H)]%execute_cases; [by eapply (steps_before_opening (rows_written others)) in H as [? _]|].
  eapply (steps_before_opening (rows_written others)) in Hb as [Hb _]. eapply (steps_opened (rows_written others)) in Ho as [Ho _]; [|done|by apply rows_commits|done..].
  assert (Hs2 : rows_written others s s2) by (unfold rows_written in *; by etrans). destruct r1 as [applied|e]; destruct H as [_ ->].
  - by case_bool_decide.
  - unfold rows_written. cbn. rewrite rows_abort_block. exact Hs2.
Qed.

Lemma execute_ok block x s applied s' : block_typed block -> followed x -> ledger_ok (cs_ledger s) -> execute block x s = Some (Ok applied, s') -> ledger_ok (cs_ledger s') /\ applied.1 = block.
Proof.
  intros Ht [Hm Hx] Hl [(e & H & ?)|(s1 & r1 & s2 & Hb & Ho & H)]%execute_cases; [done|].
  eapply (steps_before_opening ledger_stays_ok) in Hb as [Hb _]. specialize (Hb Hl). eapply (steps_opened ledger_stays_ok) in Ho as [Ho Hr]; [|done|apply ledger_commits|done..].
  specialize (Ho Hb). destruct r1 as [applied1|e]; destruct H as [Happ ->]; [|done]. injection Happ as <-. split; [by case_bool_decide|by apply Hr].
Qed.

Lemma steps_authenticate (R : ChainState -> ChainState -> Prop) `{FR : !VmFrame R} context operations parent block :
  steps R (fun _ => True) (authenticate_nakamoto_block_with_bitcoin_operations vrf_fuel context operations parent block).
Proof. unfold authenticate_nakamoto_block_with_bitcoin_operations. steps_all. Qed.

(** [append_nakamoto_block]: the checks, and the execution that seals. *)
Lemma append_executes context operations parent block registry s applied s' :
  append_nakamoto_block vrf_fuel staker_fuel context operations parent block registry s = Some (Ok applied, s') ->
  exists s1 s2 executed, authenticate_nakamoto_block_with_bitcoin_operations vrf_fuel context operations parent block s = Some (Ok (mkAuthenticated block context operations parent), s1) /\
    execution_tip s1 = Some (Ok parent, s2) /\
    execute block (mkExecution context registry operations parent Verify no_effects [] Authenticated Seal) s2 = Some (Ok (executed, applied), s').
Proof.
  unfold append_nakamoto_block. intros H. run_inv H. run_inv H. injection H as <- <-.
  assert (x = mkAuthenticated block context operations parent) as ->.
  { unfold authenticate_nakamoto_block_with_bitcoin_operations in E. repeat run_inv E. by injection E as <-. }
  unfold commit_authenticated_nakamoto_block in E0. cbn [ab_block ab_bitcoin_context ab_operations ab_parent] in E0. cbv zeta in E0. run_inv E0. case_bool_decide as Hp; [|done]. subst x. cbn [negb] in E0. run_inv E0. run_inv E0.
  injection E0 as <- <-. apply unwrap_same in E3 as ->. destruct x as [executed applied]. by exists s0, s2, executed.
Qed.

Lemma checked_inv {F A} (f : F -> ChainStateError) (o : option (result F A)) (s : ChainState) x s' : checked f o s = Some (Ok x, s') -> o = Some (Ok x) /\ s' = s.
Proof. unfold checked. destruct o as [[y|e]|]; [|done|done]. by intros [= <- <-]. Qed.

Lemma try_with_inv {F A} (f : F -> ChainStateError) (o : result F A) (s : ChainState) x s' : try_with f o s = Some (Ok x, s') -> o = Ok x /\ s' = s.
Proof. unfold try_with. destruct o as [y|e]; [|done]. by intros [= <- <-]. Qed.

Lemma tip_same s r s' : execution_tip s = Some (r, s') -> s' = s.
Proof. unfold execution_tip, query. destruct (last _); by intros [= _ <-]. Qed.

(** What a block that passed the checks satisfies. *)
Lemma checked_rules block parent context operations s s' : check_before_executing vrf_fuel block parent context operations false s = Some (Ok tt, s') ->
  cs_ledger s' = cs_ledger s /\ acceptable block vm_network Present /\ check_tenure_continuity (cs_ledger s) block parent = Ok tt /\
  check_miner_won_the_sortition block context operations = Some (Ok tt) /\ (starts_new_tenure block = true -> check_tenure_vrf vrf_fuel (cs_ledger s) block context = Some (Ok tt)).
Proof.
  unfold check_before_executing. cbn [is_mined]. intros H. run_inv H. apply begun_ledger in E; [|steps_all]. run_inv H. injection E0 as <- <-. run_inv H. apply checked_inv in E0 as [Ha ->].
  run_inv H. injection E0 as <- <-. run_inv H. apply try_with_inv in E0 as [Hc ->]. run_inv H. apply checked_inv in E0 as [Hm ->]. destruct_units.
  assert (Hv : cs_ledger s' = cs_ledger s0 /\ (starts_new_tenure block = true -> check_tenure_vrf vrf_fuel (cs_ledger s0) block context = Some (Ok tt))).
  { unfold check_tenure_vrf_if_starting in H. destruct (starts_new_tenure block); cbn [negb] in H; [|by injection H as <-]. run_inv H. injection E0 as <- <-. by apply checked_inv in H as [Hv ->]. }
  destruct Hv as [Hs Hv]. rewrite E in *. split_and!; try done. by apply authenticated_acceptable.
Qed.

Lemma signatures_ok block context s s' : check_signer_signatures block context s = Some (Ok tt, s') ->
  exists set weight, recorded_signer_set context s = Some (Ok set, s') /\ SignerWeights.verify set (bl_header block) = Some (Ok weight).
Proof.
  unfold check_signer_signatures. intros H. run_inv H. unfold attempt in E. destruct (recorded_signer_set context s) as [[r s1]|] eqn:Hr; [|done]. injection E as <- <-.
  destruct r as [set|[]]; try done. run_inv H. apply checked_inv in E as [Hv ->]. injection H as <-. by eexists _, _.
Qed.

(** After the checks the block is opened on its parent, and the signers that its state
    records there have signed it with enough weight. *)
Definition signed_on_parent block context operations parent s : Prop := exists before opened set after weight,
  check_before_executing vrf_fuel block parent context operations false s = Some (Ok tt, before) /\
  store (begin_block_execution parent temporary_state_id context) before = Some (Ok tt, opened) /\ cs_ledger opened = cs_ledger s /\
  recorded_signer_set context opened = Some (Ok set, after) /\ SignerWeights.verify set (bl_header block) = Some (Ok weight).

Lemma authenticated_rules context operations parent block s a s' : authenticate_nakamoto_block_with_bitcoin_operations vrf_fuel context operations parent block s = Some (Ok a, s') ->
  cs_ledger s' = cs_ledger s /\ acceptable block vm_network Present /\ check_tenure_continuity (cs_ledger s) block parent = Ok tt /\
  check_miner_won_the_sortition block context operations = Some (Ok tt) /\ (starts_new_tenure block = true -> check_tenure_vrf vrf_fuel (cs_ledger s) block context = Some (Ok tt)) /\
  signed_on_parent block context operations parent s.
Proof.
  unfold authenticate_nakamoto_block_with_bitcoin_operations. intros H. run_inv H. run_inv H. run_inv H. run_inv H. run_inv H. injection H as _ <-. destruct_units.
  pose proof E as Ebefore. pose proof E0 as Eopened. apply checked_rules in E as (El & ? & ? & ? & ?). apply begun_ledger in E0; [|steps_all]. apply begun_ledger in E2; [|steps_all]. apply try_with_inv in E3 as [-> ->].
  unfold attempt in E1. destruct (check_signer_signatures block context s1) as [[r s5]|] eqn:Hs; [|done]. injection E1 as -> <-. destruct_units.
  assert (Hl : cs_ledger s5 = cs_ledger s1) by (eapply begun_ledger; [|exact Hs]; steps_all). apply signatures_ok in Hs as (set & weight & Hr & Hw).
  split_and!; try done; [congruence|]. exists s0, s1, set, s5, weight. split_and!; try done. congruence.
Qed.

(** The root that is sealed is the one that was pending when the block ended. *)
Lemma note_root block context s r s' : note_executed_block block context s = Some (Ok r, s') -> pending_state_root (cs_vm s') = pending_state_root (cs_vm s).
Proof.
  unfold note_executed_block. intros H. run_inv H. unfold run, vm_op in E. pose proof (roots_tenure_height (cs_vm s)) as Ht. destruct (tenure_height (cs_vm s)) as [r1 vm]. injection E as _ <-. cbn [snd] in Ht.
  run_inv H. apply try_with_same in E as ->. run_inv H. apply unwrap_same in E as ->. run_inv H. injection E as _ <-. run_inv H. apply ask_same in E as ->. run_inv H. apply try_with_same in E as ->.
  run_inv H. apply unwrap_same in E as ->. by injection H as _ <-.
Qed.

Lemma finish_root block context persistence decision s root s' : finish_block_execution block context persistence decision s = Some (Ok root, s') -> pending_state_root (cs_vm s) = Ok root.
Proof.
  destruct persistence; cbn [finish_block_execution]; intros H; run_inv H.
  - apply note_root in E as <-. run_inv H. run_inv H. apply ask_same in E0 as ->. run_inv H. apply try_with_same in E0 as ->. run_inv H. apply unwrap_same in E0 as ->.
    assert (cs_vm s1 = cs_vm s0) as <- by (destruct (coinbase_vrf_proof block); by injection E as _ <-). unfold store, vm_op in H. destruct (commit_block _ _ _) as [[?|] vm] eqn:Hc; [|done]. injection H as -> _. by eapply roots_commit.
  - unfold query in E. injection E as E <-. run_inv H. injection H as <- _. by destruct (pending_state_root _); [injection E as ->|].
Qed.

Lemma opened_root block x s applied s' : is_mined (ex_root x) = false -> ex_candidates x = [] -> ex_root x = Verify -> execute_opened staker_fuel block x s = Some (Ok applied, s') ->
  ap_state_root applied.2 = hd_state_index_root (bl_header block).
Proof.
  intros Hm Hx Hr. unfold execute_opened. cbv zeta. rewrite Hm, Hx. intros H. run_inv H. run_inv H. run_inv H. destruct x2 as [[effects rewards] amounts]. run_inv H. run_inv H. run_inv H. run_inv H.
  apply run_transactions_block in E5. destruct x5 as [[filled cost] receipts]. cbn in E5. subst filled. do 9 run_inv H. injection H as <- _. cbn [snd ap_state_root].
  match goal with E : settle_state_root _ _ _ = Some _, F : seal_and_finish _ _ _ _ _ _ _ = Some _ |- _ => apply settled_block in E as (-> & -> & He); [|done]; apply seal_and_finish_ok in F as [decision F]; apply finish_root in F end.
  specialize (He Hr). congruence.
Qed.

(** C32: A block that append_nakamoto_block adds satisfies every rule: those of its
    own fields, the continuity of its tenure with the ledger, a miner signature by the
    key the sortition's winner registered, a VRF proof and a committed seed where it
    starts a tenure, signatures of enough weight by the signers recorded in the state
    that it opens on its parent; its parent is the execution tip; the root it seals is
    the one its header commits to; and it is then sealed. *)
Theorem appended_block_rules context operations parent block registry s applied s' (Ht : block_typed block)
  (H : append_nakamoto_block vrf_fuel staker_fuel context operations parent block registry s = Some (Ok applied, s')) :
  acceptable block vm_network Present /\ check_tenure_continuity (cs_ledger s) block parent = Ok tt /\ check_miner_won_the_sortition block context operations = Some (Ok tt) /\
  (starts_new_tenure block = true -> check_tenure_vrf vrf_fuel (cs_ledger s) block context = Some (Ok tt)) /\
  signed_on_parent block context operations parent s /\
  ap_state_root applied = hd_state_index_root (bl_header block) /\
  (forall b, last (cl_executed (cs_ledger s)) = Some b -> parent = Some (eh_block_id b)) /\ sealed block s'.
Proof.
  apply append_executes in H as (s1 & s2 & executed & Ha & Htip & He). apply authenticated_rules in Ha as (Hl & ? & ? & ? & ? & ?).
  pose proof (tip_same _ _ _ Htip) as ->. pose proof He as Hs. apply execution_atomic in Hs. rewrite bool_decide_eq_true_2 in Hs by done.
  apply execute_cases in He as [(e & _ & ?)|(s2 & r1 & s3 & _ & Ho & Hr)]; [done|]. destruct r1 as [applied1|]; destruct Hr as [Hr _]; [|done]. injection Hr as <-.
  pose proof Ho as Hroot. apply opened_root in Hroot; [|done..].
  assert (executed = block) as -> by (eapply (steps_opened ledger_stays_ok) in Ho as [_ Ho]; [by apply (Ho _ eq_refl)|done|apply ledger_commits|done..]).
  split_and!; eauto. intros b Hb. unfold execution_tip in Htip. rewrite Hl, Hb in Htip. by injection Htip as <-.
Qed.

(** ** Retractions *)

(** States the chain reaches by following blocks of [others], any number of times, and by
    retractions. *)
Inductive later (others : gset (list byte)) (s : ChainState) : ChainState -> Prop :=
| later_here : later others s s
| later_block s1 block x r s2 : later others s s1 -> block_typed block -> followed x -> block_in others block -> execute block x s1 = Some (r, s2) -> later others s s2
| later_reorg s1 reorg : later others s s1 -> later others s (retract reorg s1).2
| later_retract s1 block : later others s s1 -> later others s (retract_to block s1).2.

Definition same_rows (s s' : ChainState) : Prop := chain_ledger (cs_vm s') = chain_ledger (cs_vm s).

Lemma stand_on_rows resume from s : same_rows s (stand_on resume from s).
Proof.
  assert (Hr : same_rows s (rewind from s)) by (unfold same_rows, rewind; cbn; by rewrite rows_stand_on).
  destruct resume as [block|]; cbn [stand_on]; [|done]. unfold recover_ledger_at. destruct (recorded_ledger block _); [|done]. destruct (ledger_decode _); [|done].
  unfold same_rows. cbn. by rewrite rows_stand_on.
Qed.

Lemma retract_at_rows position resume s : same_rows s (retract_at position resume s).2.
Proof. unfold retract_at, split_off. destruct (drop _ _); [done|]. cbn [snd]. etrans; [apply stand_on_rows|]. done. Qed.

Lemma later_rows others s t : later others s t -> rows_written others s t.
Proof.
  induction 1 as [|s1 block x r s2 _ IH Ht Hf Hin He|s1 reorg _ IH|s1 block _ IH]; unfold rows_written in *; [done| | |].
  - etrans; [exact IH|]. by eapply execute_rows in He.
  - unfold retract. case_match; [|done]. by rewrite retract_at_rows.
  - unfold retract_to. case_match; [|done]. by rewrite retract_at_rows.
Qed.

(** The row of a block stays in the window. *)
Lemma later_keeps others s t id age : later others s t -> id ∉ others -> ledger_age id (chain_ledger (cs_vm s)) = Some age -> age + Z.of_nat (size others) < LEDGER_HISTORY ->
  recorded_ledger id (cs_vm t) = recorded_ledger id (cs_vm s).
Proof.
  intros Hlater%later_rows Hid Hage Hwindow. unfold ledger_age in Hage. unfold recorded_ledger. destruct (chain_ledger (cs_vm s) !! id) as [[q d]|] eqn:Hrow; [|done]. injection Hage as <-. cbn in Hwindow.
  by rewrite (window_keeps _ _ _ _ _ _ Hlater Hid Hrow Hwindow).
Qed.

Lemma stand_on_restores id l from s bytes : recorded_ledger id (cs_vm s) = Some bytes -> ledger_decode bytes = Some l -> cs_ledger (stand_on (Some id) from s) = l.
Proof. intros Hrow Hl. cbn [stand_on]. unfold recover_ledger_at. by rewrite Hrow, Hl. Qed.

Lemma sealed_restores block id s t from : sealed block s -> ledger_ok (cs_ledger s) -> block_id block = Some id -> recorded_ledger id (cs_vm t) = recorded_ledger id (cs_vm s) -> cs_ledger (stand_on (Some id) from t) = cs_ledger s.
Proof.
  intros Hs Hl Hid Hrow. destruct (sealed_row _ _ Hs) as (id' & bytes & Hid' & Henc & Hbytes). rewrite Hid in Hid'. injection Hid' as <-.
  destruct (row_restores _ Hl) as (bytes' & Henc' & Hdec). rewrite Henc in Henc'. injection Henc' as <-. eapply stand_on_restores; [by rewrite Hrow|done].
Qed.

Lemma drop_cut {A} (l : list A) p x rest : drop p l = x :: rest -> (p < length l)%nat.
Proof. intros H. apply (f_equal length) in H. rewrite length_drop in H. cbn in H. lia. Qed.

(** What a retraction to a sealed block leaves. *)
Lemma retract_at_restores block id p s t : sealed block s -> ledger_ok (cs_ledger s) -> block_id block = Some id -> recorded_ledger id (cs_vm t) = recorded_ledger id (cs_vm s) -> drop p (cl_executed (cs_ledger t)) <> [] ->
  (retract_at p (Some id) t).1 = mkRetraction (Some id) (map eh_block_id (drop p (cl_executed (cs_ledger t)))) /\ cs_ledger (retract_at p (Some id) t).2 = cs_ledger s.
Proof.
  intros Hs Hl Hid Hrow Hp. unfold retract_at, split_off. destruct (drop p _) as [|first rest]; [done|]. split; [done|]. cbn [snd]. by eapply sealed_restores.
Qed.

(** An appended block writes its own row, which is the newest where it had none. *)
Lemma append_row context operations parent block registry s applied s' id : block_typed block -> block_id block = Some id ->
  append_nakamoto_block vrf_fuel staker_fuel context operations parent block registry s = Some (Ok applied, s') -> sealed block s' ->
  exists age, ledger_age id (chain_ledger (cs_vm s')) = Some age /\ (chain_ledger (cs_vm s) !! id = None -> age = 0).
Proof.
  intros Ht Hid H Hs. apply append_executes in H as (s1 & s2 & executed & Ha & Htip%tip_same & He). subst s2.
  assert (Hw : rows_written {[id]} s s').
  { assert (Hb : rows_written {[id]} s s1) by (eapply (steps_authenticate (rows_written {[id]})), Ha).
    eapply (execute_rows {[id]}) in He; [|done|done|intros ? ?; set_solver]. unfold rows_written in *. by etrans. }
  destruct (sealed_row _ _ Hs) as (id' & bytes & Hid' & _ & Hrow). simplify_eq. unfold recorded_ledger in Hrow.
  destruct (chain_ledger (cs_vm s') !! id) as [row|] eqn:Hr; [|done]. eexists. split; [unfold ledger_age; by rewrite Hr|]. cbn. intros Hnone.
  destruct (first_write_newest _ _ _ Hw Hnone) as [Heq|Hage].
  - by rewrite Heq, Hnone in Hr.
  - unfold ledger_age in Hage. rewrite Hr in Hage. by injection Hage.
Qed.

(** C33: The row of an appended block is the newest of the side store's where it had
    none, and of some age else; whatever other blocks are then followed, refused or
    retracted, and however often, as long as they are fewer than that age leaves of
    the 256 rows that are kept, retract_to to the block, and a reorganization whose
    first invalidated block is the one after it, resume from it, report exactly the
    later blocks as discarded, oldest first, and leave the very ledger the block
    sealed: its accounting, tenure starts, executed blocks and proof. *)
Theorem retraction_restores block context operations parent registry s applied s' id (Hl : ledger_ok (cs_ledger s)) (Ht : block_typed block)
  (H : append_nakamoto_block vrf_fuel staker_fuel context operations parent block registry s = Some (Ok applied, s')) (Hid : block_id block = Some id) :
  exists age, ledger_age id (chain_ledger (cs_vm s')) = Some age /\ (chain_ledger (cs_vm s) !! id = None -> age = 0) /\
  forall others t p, later others s' t -> id ∉ others -> age + Z.of_nat (size others) < LEDGER_HISTORY ->
  eh_block_id <$> cl_executed (cs_ledger t) !! p = Some id -> drop (S p) (cl_executed (cs_ledger t)) <> [] ->
  (position_of_block (fun b => bool_decide (eh_block_id b = id)) t = Some p ->
     (retract_to id t).1 = mkRetraction (Some id) (map eh_block_id (drop (S p) (cl_executed (cs_ledger t)))) /\ cs_ledger (retract_to id t).2 = cs_ledger s') /\
  (forall reorg, position_of_block (fun b => bool_decide (eh_consensus_hash b ∈ invalidated_consensus_hashes reorg)) t = Some (S p) ->
     (retract reorg t).1 = mkRetraction (Some id) (map eh_block_id (drop (S p) (cl_executed (cs_ledger t)))) /\ cs_ledger (retract reorg t).2 = cs_ledger s').
Proof.
  pose proof H as Happ. apply append_executes in H as (s1 & s2 & executed & Ha & Htip & He). apply authenticated_rules in Ha as (Hl1 & _). apply tip_same in Htip as ->.
  pose proof He as Hs. apply execution_atomic in Hs. rewrite bool_decide_eq_true_2 in Hs by done.
  apply execute_ok in He as [Hok Heq]; [|done|done|by rewrite Hl1]. cbn in Heq. subst executed. destruct (append_row _ _ _ _ _ _ _ _ _ Ht Hid Happ Hs) as (age & Hage & Hnew).
  exists age. split; [done|]. split; [done|]. intros others t p Hlater Hin Hwindow Hp Hne. eapply later_keeps in Hlater; [|done..]. split.
  - intros Hpos. unfold retract_to. rewrite Hpos. by eapply retract_at_restores.
  - intros reorg Hpos. unfold retract. rewrite Hpos. assert (last_executed (split_off (S p) t).2 = Some id) as ->; [|by eapply retract_at_restores].
    unfold last_executed, split_off. cbn. destruct (cl_executed (cs_ledger t) !! p) as [b|] eqn:Hb; [|done]. by rewrite (take_S_r _ _ _ Hb), last_snoc.
Qed.

End Execution.
