(* ===== verification/CheckpointHistory.v ===== *)
(** * The history behind a checkpoint, of [crates/nano-chainstate/src/lib.rs]

    [authenticate_checkpoint_history]: the blocks before an imported state are not executed;
    their chain, miners, proofs and signers are checked, and the ledger is built from them. *)

From stdpp Require Import gmap.
From S2P Require Import Prelude Primitives Address CodecIO Crypto TxData TxCodec TxAuth Nakamoto Signers SortitionRules Sbtc Effects ProposalExecution.
From S2P Require Import Clarity BlockRules TenureRewards PostConditions ChainLedger ChainState SignerElection TransactionExecution BlockExecution.
From S2P Require Import BlockRulesTheorems ChainSteps ChainStateTheorems.

Definition CHECKPOINT_HISTORY_LIMIT : Z := 4096.

Record CheckpointHistoryBlock : Type := mkHistoryBlock { ch_block : NakamotoBlock; ch_bitcoin_context : BitcoinBlockContext; ch_operations : list BitcoinOperation }.

Record CheckpointBoundaryProof : Type := mkBoundary {
  bp_parent_tenure_consensus_hash : list byte;
  bp_coinbase_vrf_proof : list byte;
  bp_sortition_hash : list byte;
  bp_winner_vrf_public_key : list byte;
}.

Section History.
Context `{HS : Hashes} `{SE : Secp256k1} `{ED : Edwards} `{CL : Clarity} `{CV : !ClarityValues} `{AM : !AssetMaps} `{VT : !VmTypes} `{VM : !Vms} `{LC : !LedgerCodec}.
Variable vrf_fuel : nat.

(** Why a history cannot authenticate its state. *)
Inductive CheckpointHistoryError : Type :=
| HistoryEmpty
| HistoryTooLong (blocks : Z)
| HistorySource (expected actual : list byte)
| HistoryStateRoot (expected actual : list byte)
| HistoryLink (height : Z)
| HistoryHeight (previous next : Z)
| FirstBlockIsNotTenureStart
| BoundaryTenure
| BoundaryProof (e : TenureVrfError)
| HistoryVrf (height : Z) (e : TenureVrfError)
| HistoryBlock (height : Z) (e : ChainStateError)
| HistoryTenureHeight.

Abbreviation H := (Eff ChainState CheckpointHistoryError).

(** A check of the chain state under the history's error, and a check that may panic. *)
Definition under {A} (f : ChainStateError -> CheckpointHistoryError) (m : Eff ChainState ChainStateError A) : H A := fun s => match m s with Some (r, s) => Some (map_err f r, s) | None => None end.
Definition tested {E A} (f : E -> CheckpointHistoryError) (o : option (result E A)) : H A := fun s => match o with Some r => Some (map_err f r, s) | None => None end.

(** [history_consensus]: the text of the refusal is left out. *)
Definition history_consensus (height : Z) (e : ConsensusError.t) : CheckpointHistoryError := HistoryBlock height InvalidTransaction.

(** The loop over [history.windows(2)]. *)
Fixpoint check_links (previous : NakamotoBlock) (history : list CheckpointHistoryBlock) : H unit :=
  match history with
  | [] => mret tt
  | next :: rest =>
      let next := ch_block next in
      id ← unwrap (block_id previous);
      if negb (bool_decide (hd_parent_block_id (bl_header next) = id)) then throw (HistoryLink (hd_chain_length (bl_header next))) else
      let height := hd_chain_length (bl_header previous) in
      if negb (hd_chain_length (bl_header next) =? saturating_add U64_MAX height 1) then throw (HistoryHeight height (hd_chain_length (bl_header next))) else
      check_links next rest
  end.

(** The last block of a history that has the shape of one, and its first. *)
Definition validate_checkpoint_history_shape (source state_root : list byte) (history : list CheckpointHistoryBlock) : H (NakamotoBlock * NakamotoBlock) :=
  match history, last history with
  | first :: rest, Some entry =>
      let last := ch_block entry in
      if CHECKPOINT_HISTORY_LIMIT <? len history then throw (HistoryTooLong (len history)) else
      actual_source ← unwrap (block_id last);
      tip ← (if bool_decide (actual_source = source) then under (HistoryBlock 0) (query vm_tip) else mret None);
      if negb (bool_decide (actual_source = source)) || negb (bool_decide (tip = Some source)) then throw (HistorySource source actual_source) else
      if negb (bool_decide (hd_state_index_root (bl_header last) = state_root)) then throw (HistoryStateRoot state_root (hd_state_index_root (bl_header last))) else
      if negb (starts_new_tenure (ch_block first)) then throw FirstBlockIsNotTenureStart else
      _ ← check_links (ch_block first) rest;
      mret (last, ch_block first)
  | _, _ => throw HistoryEmpty
  end.

(** What the loop carries: the ledger that is built, the tenure's height and the last proof. *)
Record HistoryProgress : Type := mkProgress { hp_ledger : ChainLedger; hp_tenure : Z; hp_proof : list byte }.

(** The checks of the tenure a block starts, and what they note. *)
Definition start_history_tenure (entry : CheckpointHistoryBlock) (p : HistoryProgress) : H HistoryProgress :=
  let block := ch_block entry in
  let height := hd_chain_length (bl_header block) in
  let context := ch_bitcoin_context entry in
  key ← try_with (HistoryVrf height) (or_err (cx_winner_vrf_public_key context) MissingLeaderKey);
  _ ← tested (HistoryVrf height) (verify_coinbase_vrf_proof vrf_fuel block key (cx_sortition_hash context));
  _ ← try_with (HistoryVrf height) (verify_committed_vrf_seed (cx_vrf_seed context) (hp_proof p));
  proof ← try_with (HistoryVrf height) (or_err (coinbase_vrf_proof block) MissingProof);
  stacks_height ← try_with (fun _ => HistoryTenureHeight) (or_err (try_from U32_MAX height) tt);
  id ← unwrap (block_id block);
  let l := hp_ledger p in
  mret (mkProgress (set_starts (<[hp_tenure p := stacks_height]> (cl_tenure_start_heights l)) (<[hp_tenure p := id]> (cl_tenure_start_blocks l)) l) (hp_tenure p) proof).

Definition authenticate_checkpoint_history_block (entry : CheckpointHistoryBlock) (first : bool) (p : HistoryProgress) : H HistoryProgress :=
  let block := ch_block entry in
  let height := hd_chain_length (bl_header block) in
  network ← ask network_of;
  _ ← tested (history_consensus height) (authenticate_block block network Present);
  _ ← (if first then mret tt else try_with (history_consensus height) (check_tenure_continuity (hp_ledger p) block (Some (hd_parent_block_id (bl_header block)))));
  _ ← tested (history_consensus height) (check_miner_won_the_sortition block (ch_bitcoin_context entry) (ch_operations entry));
  p ← (if starts_new_tenure block then start_history_tenure entry p else mret p);
  _ ← under (HistoryBlock height) (check_signer_signatures block (ch_bitcoin_context entry));
  id ← unwrap (block_id block);
  let l := hp_ledger p in
  mret (mkProgress (set_executed (cl_executed l ++ [mkExecuted id (hd_consensus_hash (bl_header block)) (hp_tenure p)]) l) (hp_tenure p) (hp_proof p)).

Definition advance_tenure (entry : CheckpointHistoryBlock) (p : HistoryProgress) : H HistoryProgress :=
  if starts_new_tenure (ch_block entry) then
    tenure ← try_with (fun _ => HistoryTenureHeight) (or_err (checked_add U32_MAX (hp_tenure p) 1) tt);
    mret (mkProgress (hp_ledger p) tenure (hp_proof p))
  else mret p.

(** The blocks after the first. *)
Fixpoint authenticate_later_blocks (history : list CheckpointHistoryBlock) (p : HistoryProgress) : H HistoryProgress :=
  match history with
  | [] => mret p
  | entry :: rest => p ← advance_tenure entry p; p ← authenticate_checkpoint_history_block entry false p; authenticate_later_blocks rest p
  end.

Definition authenticate_history_blocks (history : list CheckpointHistoryBlock) (p : HistoryProgress) : H HistoryProgress :=
  match history with
  | [] => mret p
  | first :: rest => p ← authenticate_checkpoint_history_block first true p; authenticate_later_blocks rest p
  end.

(** The ledger of the last [REORG_REACH] blocks, with the last tenure's proof. *)
Definition adopt_history (p : HistoryProgress) : H unit := modify (fun s =>
  let executed := cl_executed (hp_ledger p) in
  let ledger := set_parent_tenure_proof (Some (hp_proof p)) (set_executed (drop (Z.to_nat (len executed - REORG_REACH)) executed) (hp_ledger p)) in
  mkChainState (stand_on_tenure_starts (heights_of ledger) (cs_vm s)) ledger).

Definition count_starts (history : list CheckpointHistoryBlock) : Z := len (List.filter (fun entry => starts_new_tenure (ch_block entry)) history).

Definition authenticate_checkpoint_history (source state_root : list byte) (boundary : CheckpointBoundaryProof) (history : list CheckpointHistoryBlock) : H unit :=
  ends ← validate_checkpoint_history_shape source state_root history;
  _ ← tested BoundaryProof (verify_vrf_proof vrf_fuel (bp_coinbase_vrf_proof boundary) (bp_winner_vrf_public_key boundary) (bp_sortition_hash boundary));
  payload ← try_with id (or_err (tenure_change_payload ends.2) FirstBlockIsNotTenureStart);
  if negb (bool_decide (previous_tenure_consensus_hash payload = bp_parent_tenure_consensus_hash boundary)) then throw BoundaryTenure else
  current_tenure ← under (HistoryBlock (hd_chain_length (bl_header ends.1))) (run tenure_height);
  earlier ← try_with (fun _ => HistoryTenureHeight) (or_err (try_from U32_MAX (saturating_sub (count_starts history) 1)) tt);
  tenure_height ← try_with (fun _ => HistoryTenureHeight) (or_err (checked_sub current_tenure earlier) tt);
  accounting ← ask (fun s => cl_accounting (cs_ledger s));
  p ← authenticate_history_blocks history (mkProgress (set_accounting accounting ledger_default) tenure_height (bp_coinbase_vrf_proof boundary));
  if negb (hp_tenure p =? current_tenure) then throw HistoryTenureHeight else adopt_history p.

End History.

(** ** What an authenticated history is

    A history that is accepted is a chain that ends at the imported state, each of whose
    blocks satisfies its rules, and the ledger that is adopted is the one it describes. *)

(** Each block names the one before it and is one higher. *)
Inductive linked `{HS : Hashes} : list NakamotoBlock -> Prop :=
| linked_one b : linked [b]
| linked_next previous next rest : block_id previous = Some (hd_parent_block_id (bl_header next)) ->
    hd_chain_length (bl_header next) = saturating_add U64_MAX (hd_chain_length (bl_header previous)) 1 -> linked (next :: rest) -> linked (previous :: next :: rest).

(** The tenures of the blocks, each start being of the next. *)
Fixpoint tenure_numbers (tenure : Z) (history : list CheckpointHistoryBlock) : list Z :=
  match history with
  | [] => []
  | entry :: rest => let tenure := if starts_new_tenure (ch_block entry) then tenure + 1 else tenure in tenure :: tenure_numbers tenure rest
  end.

Section HistoryRules.
Context `{HS : Hashes} `{HO : !HashesOk} `{SE : Secp256k1} `{ED : Edwards} `{CL : Clarity} `{CV : !ClarityValues} `{AM : !AssetMaps} `{VT : !VmTypes} `{VM : !Vms} `{LC : !LedgerCodec} `{RO : !VmLaws}.
Variable vrf_fuel : nat.

(** Each tenure's seed is the hash of the proof before it, and its own proof is its leader's. *)
Inductive proofs_chain : list byte -> list CheckpointHistoryBlock -> list byte -> Prop :=
| proofs_end proof : proofs_chain proof [] proof
| proofs_start proof entry rest key next final : starts_new_tenure (ch_block entry) = true ->
    cx_winner_vrf_public_key (ch_bitcoin_context entry) = Some key -> verify_vrf_proof vrf_fuel next key (cx_sortition_hash (ch_bitcoin_context entry)) = Some (Ok tt) ->
    vrf_seed_from_proof proof = cx_vrf_seed (ch_bitcoin_context entry) -> coinbase_vrf_proof (ch_block entry) = Some next -> proofs_chain next rest final ->
    proofs_chain proof (entry :: rest) final
| proofs_same proof entry rest final : starts_new_tenure (ch_block entry) = false -> proofs_chain proof rest final -> proofs_chain proof (entry :: rest) final.

(** What is checked of a block in a state: its own rules, its miner, and its signers, whose
    set the state records; reading the set leaves the state of the next block. *)
Definition block_checked (entry : CheckpointHistoryBlock) (s s' : ChainState) : Prop :=
  acceptable (ch_block entry) vm_network Present /\ check_miner_won_the_sortition (ch_block entry) (ch_bitcoin_context entry) (ch_operations entry) = Some (Ok tt) /\
  exists set weight, recorded_signer_set (ch_bitcoin_context entry) s = Some (Ok set, s') /\ SignerWeights.verify set (bl_header (ch_block entry)) = Some (Ok weight).

Inductive history_checked : list CheckpointHistoryBlock -> ChainState -> ChainState -> Prop :=
| checked_end s : history_checked [] s s
| checked_next entry rest s s1 s2 : block_checked entry s s1 -> history_checked rest s1 s2 -> history_checked (entry :: rest) s s2.

Definition header_of (entry : CheckpointHistoryBlock) (header : ExecutedHeader) : Prop :=
  block_id (ch_block entry) = Some (eh_block_id header) /\ eh_consensus_hash header = hd_consensus_hash (bl_header (ch_block entry)).

Section Inversions.
Context {A : Type}.

Lemma under_inv (f : ChainStateError -> CheckpointHistoryError) (m : Eff ChainState ChainStateError A) s x s' : under f m s = Some (Ok x, s') -> m s = Some (Ok x, s').
Proof. unfold under. destruct (m s) as [[[y|e] s1]|]; [|done|done]. by intros [= <- <-]. Qed.

Lemma tested_inv {E} (f : E -> CheckpointHistoryError) (o : option (result E A)) s x s' : tested f o s = Some (Ok x, s') -> o = Some (Ok x) /\ s' = s.
Proof. unfold tested. destruct o as [[y|e]|]; [|done|done]. by intros [= <- <-]. Qed.

Lemma tried_inv {E} (f : E -> CheckpointHistoryError) (o : result E A) (s : ChainState) x s' : try_with f o s = Some (Ok x, s') -> o = Ok x /\ s' = s.
Proof. unfold try_with. destruct o as [y|e]; [|done]. by intros [= <- <-]. Qed.

Lemma unwrapped_inv (o : option A) (s : ChainState) (x : A) s' : unwrap o s = Some (Ok x : result CheckpointHistoryError A, s') -> o = Some x /\ s' = s.
Proof. unfold unwrap. destruct o; [|done]. by intros [= <- <-]. Qed.

Lemma or_err_inv {E} (o : option A) (e : E) x : or_err o e = Ok x -> o = Some x.
Proof. unfold or_err. destruct o; [|done]. by intros [= ->]. Qed.

End Inversions.

(** The checks of a history, without the states they run in. *)
Ltac history_inv H :=
  let x := fresh "x" in let s := fresh "s" in let E := fresh "E" in
  apply eff_bind_ok in H as (x & s & E & H); cbn beta in H;
  first [apply tested_inv in E as [E ->] | apply tried_inv in E as [E ->]; try apply or_err_inv in E | apply unwrapped_inv in E as [E ->] | idtac].

Lemma links_linked previous history s s' : check_links previous history s = Some (Ok tt, s') -> linked (previous :: map ch_block history) /\ s' = s.
Proof.
  revert previous. induction history as [|next rest IH]; intros previous; cbn [check_links map]; [intros [= <-]; split; [constructor|done]|].
  intros H. history_inv H. case_bool_decide as Hp; [|done]. cbn [negb] in H. destruct (_ =? _) eqn:Hh; [|done]. cbn [negb] in H. apply Z.eqb_eq in Hh.
  apply IH in H as [H ->]. split; [|done]. by constructor; [rewrite E, Hp|..].
Qed.

Lemma shape_ok source root history s ends s' : validate_checkpoint_history_shape source root history s = Some (Ok ends, s') ->
  exists first rest entry, history = first :: rest /\ last history = Some entry /\ ends = (ch_block entry, ch_block first) /\ s' = s /\ len history <= CHECKPOINT_HISTORY_LIMIT /\
    block_id (ch_block entry) = Some source /\ vm_tip (cs_vm s) = Ok (Some source) /\ hd_state_index_root (bl_header (ch_block entry)) = root /\
    starts_new_tenure (ch_block first) = true /\ linked (map ch_block history).
Proof.
  unfold validate_checkpoint_history_shape. destruct history as [|first rest]; [done|]. destruct (last (first :: rest)) as [entry|] eqn:Hlast; [|done]. cbv zeta.
  destruct (CHECKPOINT_HISTORY_LIMIT <? _) eqn:Hlen; [done|]. apply Z.ltb_ge in Hlen. intros H. history_inv H. rename x into id.
  case_bool_decide as Hid; [|by history_inv H]. subst id. cbn [negb orb] in H. apply eff_bind_ok in H as (tip & s1 & Ht & H). apply under_inv in Ht.
  unfold query in Ht. destruct (vm_tip (cs_vm s)) as [t|] eqn:Htip; [|done]. injection Ht as <- <-. case_bool_decide as Hs; [|done]. subst t. cbn [negb] in H.
  case_bool_decide as Hr; [|done]. cbn [negb] in H. destruct (starts_new_tenure (ch_block first)) eqn:Hf; [|done]. cbn [negb] in H. history_inv H.
  destruct_units. apply links_linked in E0 as [Hl ->]. injection H as <- <-. by exists first, rest, entry.
Qed.

(** What one block adds to the progress. *)
Record adds (entry : CheckpointHistoryBlock) (p p' : HistoryProgress) (header : ExecutedHeader) : Prop := {
  adds_header : header_of entry header;
  adds_tenure : hp_tenure p' = hp_tenure p /\ eh_tenure_height header = hp_tenure p;
  adds_executed : cl_executed (hp_ledger p') = cl_executed (hp_ledger p) ++ [header];
  adds_accounting : cl_accounting (hp_ledger p') = cl_accounting (hp_ledger p);
  adds_start : cl_tenure_start_blocks (hp_ledger p') =
    if starts_new_tenure (ch_block entry) then <[hp_tenure p := eh_block_id header]> (cl_tenure_start_blocks (hp_ledger p)) else cl_tenure_start_blocks (hp_ledger p);
  adds_proof : forall rest final, proofs_chain (hp_proof p') rest final -> proofs_chain (hp_proof p) (entry :: rest) final;
}.

Lemma start_adds entry p s p' s' : starts_new_tenure (ch_block entry) = true -> start_history_tenure vrf_fuel entry p s = Some (Ok p', s') ->
  s' = s /\ hp_tenure p' = hp_tenure p /\ cl_executed (hp_ledger p') = cl_executed (hp_ledger p) /\ cl_accounting (hp_ledger p') = cl_accounting (hp_ledger p) /\
  (exists id, block_id (ch_block entry) = Some id /\ cl_tenure_start_blocks (hp_ledger p') = <[hp_tenure p := id]> (cl_tenure_start_blocks (hp_ledger p))) /\
  forall rest final, proofs_chain (hp_proof p') rest final -> proofs_chain (hp_proof p) (entry :: rest) final.
Proof.
  intros Hstart. unfold start_history_tenure. cbv zeta. intros H. history_inv H. rename x into key. history_inv H. history_inv H. destruct_units. history_inv H. rename x into next. history_inv H. history_inv H.
  injection H as <- <-. cbn [hp_tenure hp_ledger hp_proof]. split_and!; try done; [by eexists|]. intros rest final Hrest.
  unfold verify_coinbase_vrf_proof in E0. rewrite E2 in E0. unfold verify_committed_vrf_seed in E1. case_bool_decide as Hseed; [|done]. by eapply proofs_start.
Qed.

Lemma block_adds entry first p s p' s' : authenticate_checkpoint_history_block vrf_fuel entry first p s = Some (Ok p', s') -> block_checked entry s s' /\ exists header, adds entry p p' header.
Proof.
  unfold authenticate_checkpoint_history_block. cbv zeta. intros H.
  apply eff_bind_ok in H as (network & s1 & [= <- <-] & H). apply eff_bind_ok in H as ([] & s2 & Ha & H). apply tested_inv in Ha as [Ha ->].
  apply eff_bind_ok in H as (u & s3 & Hc & H).
  assert (s3 = s) as -> by (destruct first; [by injection Hc|by apply tried_inv in Hc as [_ ->]]). apply eff_bind_ok in H as ([] & s4 & Hm & H). apply tested_inv in Hm as [Hm ->].
  apply eff_bind_ok in H as (p1 & s5 & Hp & H). apply eff_bind_ok in H as ([] & s6 & Hs & H). apply under_inv in Hs.
  apply eff_bind_ok in H as (id & s7 & Hid & H). apply unwrapped_inv in Hid as [Hid ->]. injection H as <- <-.
  assert (s5 = s) as -> by (destruct (starts_new_tenure _) eqn:Hst; [by apply start_adds in Hp as [-> _]|by injection Hp]).
  split; [split_and!; [by apply authenticated_acceptable|done|by apply signatures_ok]|]. eexists (mkExecuted id _ _). destruct (starts_new_tenure (ch_block entry)) eqn:Hstart.
  - apply start_adds in Hp as (_ & Ht & Hex & Hacc & (id' & Hid' & Hst) & Hproof); [|done]. simplify_eq. split; cbn; rewrite ?Hstart; [by split|by rewrite Ht|by rewrite Hex|done|done|done].
  - injection Hp as <-. split; cbn; rewrite ?Hstart; [by split|done|done|done|done|]. intros rest final. by apply proofs_same.
Qed.

Definition recorded_starts (history : list CheckpointHistoryBlock) (headers : list ExecutedHeader) (blocks : gmap Z (list byte)) : Prop :=
  forall i entry header, history !! i = Some entry -> headers !! i = Some header -> starts_new_tenure (ch_block entry) = true -> blocks !! eh_tenure_height header = Some (eh_block_id header).

(** What the blocks of a history add. *)
Record adds_all (history : list CheckpointHistoryBlock) (p p' : HistoryProgress) (headers : list ExecutedHeader) : Prop := {
  all_headers : Forall2 header_of history headers;
  all_tenures : map eh_tenure_height headers = tenure_numbers (hp_tenure p) history;
  all_tenure : hp_tenure p' = default (hp_tenure p) (last (map eh_tenure_height headers));
  all_executed : cl_executed (hp_ledger p') = cl_executed (hp_ledger p) ++ headers;
  all_accounting : cl_accounting (hp_ledger p') = cl_accounting (hp_ledger p);
  all_earlier : forall t, t <= hp_tenure p -> cl_tenure_start_blocks (hp_ledger p') !! t = cl_tenure_start_blocks (hp_ledger p) !! t;
  all_starts : recorded_starts history headers (cl_tenure_start_blocks (hp_ledger p'));
  all_proofs : proofs_chain (hp_proof p) history (hp_proof p');
}.

Lemma advanced entry p s p' s' : advance_tenure entry p s = Some (Ok p', s') ->
  s' = s /\ hp_ledger p' = hp_ledger p /\ hp_proof p' = hp_proof p /\ hp_tenure p' = (if starts_new_tenure (ch_block entry) then hp_tenure p + 1 else hp_tenure p).
Proof.
  unfold advance_tenure. destruct (starts_new_tenure _); [|by intros [= <- <-]]. intros H. history_inv H. injection H as <- <-. cbn. split_and!; try done.
  unfold checked_add in E. by destruct (_ <=? _); [injection E|].
Qed.

Lemma later_blocks_add history p s p' s' : authenticate_later_blocks vrf_fuel history p s = Some (Ok p', s') -> history_checked history s s' /\ exists headers, adds_all history p p' headers.
Proof.
  revert p s. induction history as [|entry rest IH]; intros p s; cbn [authenticate_later_blocks].
  { intros [= <- <-]. split; [constructor|]. exists []. split; cbn; rewrite ?app_nil_r; try done; constructor. }
  intros H. apply eff_bind_ok in H as (p1 & s1 & H1 & H). apply advanced in H1 as (-> & Hl & Hp & Ht).
  apply eff_bind_ok in H as (p2 & s2 & H2 & H). apply block_adds in H2 as [Hc [header H2]]. apply IH in H as [Hrest [headers H]].
  split; [by econstructor|]. exists (header :: headers). destruct H2 as [B1 [B2 B3] B4 B5 B6 B7], H as [A1 A2 A3 A4 A5 A6 A7 A8]. rewrite Hl in *. rewrite Hp in B7.
  assert (Hle : hp_tenure p <= hp_tenure p1) by (rewrite Ht; destruct (starts_new_tenure _); lia).
  split.
  - by constructor.
  - cbn [map tenure_numbers]. cbv zeta. rewrite A2, B2, B3, Ht. done.
  - rewrite A3, B2, B3 || rewrite A3, B2. cbn [map]. rewrite last_cons. destruct (last (map _ headers)); cbn; [done|by rewrite B3].
  - by rewrite A4, B4, <- app_assoc.
  - by rewrite A5, B5.
  - intros t Hle2. rewrite A6 by lia. rewrite B6. destruct (starts_new_tenure (ch_block entry)); [|done]. rewrite lookup_insert_ne by lia. done.
  - intros [|i] e h He Hh Hs; cbn in He, Hh; [|by eapply A7]. simplify_eq. rewrite A6 by (rewrite B3, B2; done). rewrite B6, Hs, B3. apply lookup_insert_eq.
  - by apply B7.
Qed.

(** The blocks of a history whose first starts a tenure. *)
Lemma history_blocks_add first rest p s p' s' : starts_new_tenure (ch_block first) = true -> authenticate_history_blocks vrf_fuel (first :: rest) p s = Some (Ok p', s') ->
  history_checked (first :: rest) s s' /\ exists headers, Forall2 header_of (first :: rest) headers /\ map eh_tenure_height headers = tenure_numbers (hp_tenure p - 1) (first :: rest) /\
    last (map eh_tenure_height headers) = Some (hp_tenure p') /\ cl_executed (hp_ledger p') = cl_executed (hp_ledger p) ++ headers /\ cl_accounting (hp_ledger p') = cl_accounting (hp_ledger p) /\
    recorded_starts (first :: rest) headers (cl_tenure_start_blocks (hp_ledger p')) /\ proofs_chain (hp_proof p) (first :: rest) (hp_proof p').
Proof.
  intros Hs. cbn [authenticate_history_blocks]. intros H. apply eff_bind_ok in H as (p1 & s1 & H1 & H). apply block_adds in H1 as [Hc [header H1]]. apply later_blocks_add in H as [Hrest [headers H]].
  split; [by econstructor|]. exists (header :: headers). destruct H1 as [B1 [B2 B3] B4 B5 B6 B7], H as [A1 A2 A3 A4 A5 A6 A7 A8]. split_and!.
  - by constructor.
  - cbn [map tenure_numbers]. cbv zeta. rewrite A2, B2, B3, Hs. by replace (hp_tenure p - 1 + 1) with (hp_tenure p) by lia.
  - rewrite A3. cbn [map]. rewrite last_cons. destruct (last (map _ headers)); cbn; [done|by rewrite B2, B3].
  - by rewrite A4, B4, <- app_assoc.
  - by rewrite A5, B5.
  - intros [|i] e h He Hh Hse; cbn in He, Hh; [|by eapply A7]. simplify_eq. rewrite A6 by (rewrite B3, B2; done). rewrite B6, Hs, B3. apply lookup_insert_eq.
  - by apply B7.
Qed.

Lemma count_starts_first first rest : starts_new_tenure (ch_block first) = true -> 1 <= count_starts (first :: rest).
Proof. unfold count_starts. cbn [List.filter]. intros ->. cbn [length]. lia. Qed.

(** C36: A history that authenticate_checkpoint_history accepts is a chain of bounded
    length that ends at the imported state; each of its blocks satisfies the rules of
    its fields, was mined by its sortition's winner and is signed by enough weight of
    the signers that the imported state records; each tenure's seed is the hash of the
    proof before it, down to the boundary's verified proof; and the ledger that is
    adopted executed the last of these blocks, in tenures that count up to the one the
    state is in, with the last proof. *)
Theorem history_authenticated source root boundary history s s' (H : authenticate_checkpoint_history vrf_fuel source root boundary history s = Some (Ok tt, s')) :
  exists first rest entry headers proof tenure, history = first :: rest /\ last history = Some entry /\ len history <= CHECKPOINT_HISTORY_LIMIT /\
    vm_tip (cs_vm s) = Ok (Some source) /\ block_id (ch_block entry) = Some source /\ hd_state_index_root (bl_header (ch_block entry)) = root /\
    linked (map ch_block history) /\ (exists checked, history_checked history (set_vm (tenure_height (cs_vm s)).2 s) checked) /\
    verify_vrf_proof vrf_fuel (bp_coinbase_vrf_proof boundary) (bp_winner_vrf_public_key boundary) (bp_sortition_hash boundary) = Some (Ok tt) /\
    previous_tenure_consensus_hash <$> tenure_change_payload (ch_block first) = Some (bp_parent_tenure_consensus_hash boundary) /\ proofs_chain (bp_coinbase_vrf_proof boundary) history proof /\
    (tenure_height (cs_vm s)).1 = Ok tenure /\ Forall2 header_of history headers /\ map eh_tenure_height headers = tenure_numbers (tenure - count_starts history) history /\
    last (map eh_tenure_height headers) = Some tenure /\ cl_executed (cs_ledger s') = drop (Z.to_nat (len headers - REORG_REACH)) headers /\
    cl_accounting (cs_ledger s') = cl_accounting (cs_ledger s) /\ cl_parent_tenure_proof (cs_ledger s') = Some proof /\ recorded_starts history headers (cl_tenure_start_blocks (cs_ledger s')).
Proof.
  unfold authenticate_checkpoint_history in H. apply eff_bind_ok in H as (ends & s1 & He & H). apply shape_ok in He as (first & rest & entry & -> & Hlast & -> & -> & Hlen & Hid & Htip & Hroot & Hstart & Hlinked).
  cbn [fst snd] in H. apply eff_bind_ok in H as ([] & s2 & Hb & H). apply tested_inv in Hb as [Hb ->]. apply eff_bind_ok in H as (payload & s3 & Hp & H). apply tried_inv in Hp as [Hp ->]. apply or_err_inv in Hp.
  case_bool_decide as Hprev; [|done]. cbn [negb] in H. apply eff_bind_ok in H as (tenure & s4 & Ht & H). apply under_inv in Ht. unfold run, vm_op in Ht.
  destruct (tenure_height (cs_vm s)) as [[t|] vm] eqn:Hvm; [|done]. injection Ht as <- <-. apply eff_bind_ok in H as (earlier & s5 & Hea & H). apply tried_inv in Hea as [Hea ->]. apply or_err_inv in Hea.
  apply eff_bind_ok in H as (t0 & s6 & H0 & H). apply tried_inv in H0 as [H0 ->]. apply or_err_inv in H0. apply eff_bind_ok in H as (accounting & s7 & Hacc & H). injection Hacc as <- <-.
  apply eff_bind_ok in H as (p & s8 & Hh & H). apply history_blocks_add in Hh as [Hchecked (headers & A1 & A2 & A3 & A4 & A5 & A6 & A7)]; [|done]. cbn [hp_tenure hp_ledger hp_proof cl_executed cl_accounting set_accounting ledger_default] in A2, A4, A5, A7.
  destruct (hp_tenure p =? t) eqn:Hpt; [|done]. apply Z.eqb_eq in Hpt. cbn [negb] in H. injection H as <-. cbn [cs_ledger cl_executed cl_accounting cl_parent_tenure_proof set_parent_tenure_proof set_executed cl_tenure_start_blocks].
  pose proof (count_starts_first first rest Hstart) as Hc. exists first, rest, entry, headers, (hp_proof p), t. rewrite A4, app_nil_l. split_and!; try done.
  - eexists. exact Hchecked.
  - rewrite Hp. cbn. by rewrite Hprev.
  - rewrite A2. f_equal. unfold try_from in Hea. case_match; [|done]. injection Hea as <-. unfold checked_sub in H0. case_match; [|done]. injection H0 as <-. unfold saturating_sub in *. lia.
  - by rewrite A3, Hpt.
Qed.

End HistoryRules.
