(* ===== verification/SyncClient.v ===== *)
(** * The HTTP client of a peer: [crates/nano-sync/src/lib.rs], first part

    The bounded caches of what peers answered, the responses and their limits, the JSON a
    peer answers and its parsing, and the requests of [SyncClient]. [reqwest], [serde_json],
    [lru] and [c32] are classes; a method is an [Eff] over the network and the two caches of
    the process. The lock of a cache is poisoned only by a panic that holds it, and is left
    out with the texts of errors; other tasks use the caches only through these methods. *)

From stdpp Require Import gmap sorting.
From Stdlib Require Import Strings.String.
From S2P Require Import Prelude Primitives Address CodecIO Crypto TxData TxCodec TxAuth Nakamoto Signers BitcoinSource Mempool.
From S2P Require Import MarfVersions Effects EmbeddedSigner ProposalExecution SignerService BlockExecution.

(** ** Constants *)

Definition TENURE_WALK : Z := 32.
Definition BRIDGE_WALK : Z := 1024.
Definition FORK_INFO_PAGES : nat := 32.
(** Waits are in milliseconds. *)
Definition RATE_LIMIT_WAIT : Z := 400.
Definition RATE_LIMIT_RETRIES : nat := 3.
Definition RATE_LIMIT_CEILING : Z := 2 * 1000.
Definition RETRY_AFTER_CEILING : Z := 2 * 60 * 1000.
Definition MIB : Z := 1024 * 1024.
Definition MAX_JSON_RESPONSE_BYTES : Z := 4 * MIB.
Definition MAX_BLOCK_RESPONSE_BYTES : Z := 4 * MIB.
Definition MAX_TENURE_RESPONSE_BYTES : Z := 64 * MIB.
Definition MAX_TENURE_JSON_RESPONSE_BYTES : Z := 2 * MAX_TENURE_RESPONSE_BYTES + MIB.
Definition MAX_MEMPOOL_RESPONSE_BYTES : Z := 8 * MIB + 32.
Definition MAX_MEMPOOL_PAGES : nat := 64.
Definition MAX_UPLOAD_RESPONSE_BYTES : Z := 64 * 1024.
Definition PEER_BLOCK_CACHE_ITEMS : Z := 4096.
Definition PEER_BLOCK_CACHE_BYTES : Z := 64 * MIB.
Definition PEER_SORTITION_CACHE_ITEMS : Z := 4096.
Definition PEER_SORTITION_CACHE_BYTES : Z := 4 * MIB.
Definition TOO_MANY_REQUESTS : Z := 429.

(** ** The cache of bounded bytes *)

(** The [lru] crate. *)
Class LruCrate : Type := {
  Lru : Type -> Type -> Type;
  lru_new : forall K V, Z -> Lru K V;
  lru_len : forall {K V}, Lru K V -> Z;
  lru_cap : forall {K V}, Lru K V -> Z;
  lru_get : forall {K V} `{!EqDecision K}, K -> Lru K V -> option V * Lru K V;
  lru_pop : forall {K V} `{!EqDecision K}, K -> Lru K V -> option V * Lru K V;
  lru_pop_lru : forall {K V}, Lru K V -> option (K * V) * Lru K V;
  lru_put : forall {K V} `{!EqDecision K}, K -> V -> Lru K V -> Lru K V;
}.

(** What its documentation says, of the entries from the most recently used one on. *)
Class LruCrateOk `{LruCrate} : Type := {
  lru_entries : forall {K V}, Lru K V -> list (K * V);
  lru_new_ok : forall K V n, 0 < n -> lru_entries (lru_new K V n) = [] /\ lru_cap (lru_new K V n) = n;
  lru_len_ok : forall {K V} (c : Lru K V), lru_len c = len (lru_entries c);
  lru_get_ok : forall {K V} `{!EqDecision K} k (c : Lru K V), let (v, c') := lru_get k c in
    lru_cap c' = lru_cap c /\ match v with
    | Some v => exists before after, lru_entries c = before ++ (k, v) :: after /\ lru_entries c' = (k, v) :: before ++ after
    | None => (k ∉ (lru_entries c).*1) /\ lru_entries c' = lru_entries c
    end;
  lru_pop_ok : forall {K V} `{!EqDecision K} k (c : Lru K V), let (v, c') := lru_pop k c in
    lru_cap c' = lru_cap c /\ match v with
    | Some v => exists before after, lru_entries c = before ++ (k, v) :: after /\ lru_entries c' = before ++ after
    | None => (k ∉ (lru_entries c).*1) /\ lru_entries c' = lru_entries c
    end;
  lru_pop_lru_ok : forall {K V} (c : Lru K V), let (e, c') := lru_pop_lru c in
    lru_cap c' = lru_cap c /\ match e with
    | Some e => lru_entries c = lru_entries c' ++ [e]
    | None => lru_entries c = [] /\ lru_entries c' = []
    end;
  lru_put_ok : forall {K V} `{!EqDecision K} k v (c : Lru K V), k ∉ (lru_entries c).*1 -> len (lru_entries c) < lru_cap c ->
    lru_entries (lru_put k v c) = (k, v) :: lru_entries c /\ lru_cap (lru_put k v c) = lru_cap c;
}.

Record CacheStats : Type := mkCacheStats { cst_items : Z; cst_bytes : Z; cst_item_limit : Z; cst_byte_limit : Z }.

Module ByteCache.

Record t `{LruCrate} (K V : Type) : Type := mk { entries : Lru K (V * Z); bytes : Z; byte_limit : Z }.
Arguments mk {_ _ _} _ _ _.
Arguments entries {_ _ _} _.
Arguments bytes {_ _ _} _.
Arguments byte_limit {_ _ _} _.

Section Ops.
Context `{LC : LruCrate} {K V : Type} `{!EqDecision K}.

(** [None] is the failed [expect]. *)
Definition new (item_limit limit : Z) : option (t K V) := if item_limit =? 0 then None else Some (mk (lru_new K (V * Z) item_limit) 0 limit).

Definition get (key : K) (c : t K V) : option V * t K V :=
  let (found, entries) := lru_get key (entries c) in (fst <$> found, mk entries (bytes c) (byte_limit c)).

(** The loop that makes room. [None] is a subtraction below zero; one more round than there
    are entries is enough. *)
Fixpoint evict (fuel : nat) (size : Z) (c : t K V) : option (t K V) :=
  match fuel with
  | O => Some c
  | S fuel =>
      full ← (if lru_len (entries c) =? lru_cap (entries c) then Some true else free ← checked_sub (byte_limit c) (bytes c); Some (free <? size));
      if negb full then Some c else
      match lru_pop_lru (entries c) with
      | (None, _) => Some c
      | (Some (_, (_, evicted)), entries) => bytes ← checked_sub (bytes c) evicted; evict fuel size (mk entries bytes (byte_limit c))
      end
  end.

(** The [pop] of the entry that [key] has. *)
Definition displace (key : K) (c : t K V) : option (t K V) :=
  match lru_pop key (entries c) with
  | (Some (_, previous), entries) => bytes ← checked_sub (bytes c) previous; Some (mk entries bytes (byte_limit c))
  | (None, entries) => Some (mk entries (bytes c) (byte_limit c))
  end.

Definition insert (key : K) (value : V) (size : Z) (c : t K V) : option (bool * t K V) :=
  if byte_limit c <? size then Some (false, c) else
  c ← displace key c;
  c ← evict (S (Z.to_nat (lru_len (entries c)))) size c;
  bytes ← checked_add USIZE_MAX (bytes c) size;
  Some (true, mk (lru_put key (value, size) (entries c)) bytes (byte_limit c)).

Definition stats (c : t K V) : CacheStats := mkCacheStats (lru_len (entries c)) (bytes c) (lru_cap (entries c)) (byte_limit c).

End Ops.
End ByteCache.

(** ** The network *)

(** A response: its status, the headers the client reads, and the chunks of its body, which
    end when the peer ends it or the request runs out of time. *)
Record Response (E : Type) : Type := mkResponse {
  rs_status : Z;
  rs_retry_after : option (list byte);
  rs_content_length : option Z;
  rs_chunks : list (result E (list byte));
}.
Arguments mkResponse {_} _ _ _ _.
Arguments rs_status {_} _.
Arguments rs_retry_after {_} _.
Arguments rs_content_length {_} _.
Arguments rs_chunks {_} _.

(** The [reqwest] crate and the clock. *)
Class HttpStack : Type := {
  Internet : Type;
  HttpUrl : Type;
  HttpUrl_eq_dec : EqDecision HttpUrl;
  url_parse : list byte -> option HttpUrl;
  url_join : HttpUrl -> list byte -> option HttpUrl;
  url_text : HttpUrl -> list byte;
  cannot_be_a_base : HttpUrl -> bool;
  HttpError : Type;
  is_connect : HttpError -> bool;
  is_timeout : HttpError -> bool;
  error_status : HttpError -> option Z;
  status_error : Z -> HttpError;
  HttpClient : Type;
  client_build : Z -> Z -> result HttpError HttpClient;
  http_get : HttpClient -> HttpUrl -> Internet -> result HttpError (Response HttpError) * Internet;
  http_post : HttpClient -> HttpUrl -> list byte -> list byte -> Internet -> result HttpError (Response HttpError) * Internet;
  sleep : Z -> Internet -> Internet;
  instant_nanos : Internet -> Z;
}.
#[global] Existing Instance HttpUrl_eq_dec.

(** [Response::error_for_status]: a client or server error is an [Err]. *)
Definition error_for_status `{HttpStack} (r : Response HttpError) : result HttpError (Response HttpError) :=
  if (400 <=? rs_status r) && (rs_status r <? 600) then Err (status_error (rs_status r)) else Ok r.

(** ** What a peer answers *)

Record NodeInfoWire : Type := mkNodeInfoWire { nw_burn_block_height : Z; nw_stacks_tip_height : Z; nw_stacks_tip : list byte; nw_stacks_tip_consensus_hash : list byte; nw_network_id : Z }.

Record TenureInfoWire : Type := mkTenureInfoWire {
  tw_consensus_hash : list byte;
  tw_tenure_start_block_id : list byte;
  tw_parent_consensus_hash : list byte;
  tw_parent_tenure_start_block_id : list byte;
  tw_tip_block_id : list byte;
  tw_tip_height : Z;
  tw_reward_cycle : Z;
}.

Record PoxContractVersionWire : Type := mkVersionWire { pv_activation_burnchain_block_height : Z; pv_contract_id : list byte }.
Record PoxEpochWire : Type := mkEpochWire { pe_epoch_id : list byte; pe_start_height : Z }.

Record PoxInfoWire : Type := mkPoxInfoWire {
  pw_first_burnchain_block_height : Z;
  pw_current_burnchain_block_height : Z;
  pw_prepare_phase_block_length : Z;
  pw_reward_phase_block_length : Z;
  pw_reward_slots : Z;
  pw_rejection_fraction : option Z;
  pw_contract_versions : list PoxContractVersionWire;
  pw_epochs : list PoxEpochWire;
}.

(** [PoxInfoWire::unlock_height_after]. *)
Definition unlock_height_after (w : PoxInfoWire) (epoch_id : string) : option Z :=
  epoch ← List.find (fun epoch => bool_decide (pe_epoch_id epoch = list_byte_of_string epoch_id)) (pw_epochs w);
  height ← try_from U32_MAX (pe_start_height epoch);
  Some (saturating_add U32_MAX height 1).

Record BlockUploadWire : Type := mkUploadWire { uw_accepted : bool; uw_stacks_block_id : list byte }.
Record AccountWire : Type := mkAccountWire { aw_nonce : Z; aw_balance : list byte }.

Record SortitionInfoWire : Type := mkSortitionWire {
  sw_burn_block_hash : list byte;
  sw_burn_block_height : Z;
  sw_burn_header_timestamp : Z;
  sw_sortition_id : list byte;
  sw_parent_sortition_id : list byte;
  sw_consensus_hash : list byte;
  sw_was_sortition : bool;
  sw_miner_pk_hash160 : option (list byte);
  sw_stacks_parent_ch : option (list byte);
  sw_last_sortition_ch : option (list byte);
  sw_committed_block_hash : option (list byte);
  sw_vrf_seed : option (list byte);
}.

Record ForkInfoWire : Type := mkForkWire {
  fw_burn_block_height : Z;
  fw_consensus_hash : list byte;
  fw_was_sortition : bool;
  fw_first_block_mined : option (list byte);
  fw_nakamoto_blocks : option (list byte);
}.

Record StackerWire : Type := mkStackerWire { kw_signing_key : list byte; kw_weight : Z }.
Record StackerSetWire (J : Type) : Type := mkSetWire { zw_pox_ustx_threshold : Z; zw_sbtc_address : option J; zw_signers : list StackerWire }.
Arguments mkSetWire {_} _ _ _.
Arguments zw_pox_ustx_threshold {_} _.
Arguments zw_sbtc_address {_} _.
Arguments zw_signers {_} _.

(** The [serde_json] crate: the reader of each record, the field of an object, and the
    reading of a network, a type and 32 bytes. *)
Class JsonReader : Type := {
  JsonFault : Type;
  JsonValue : Type;
  node_info_json : list byte -> result JsonFault NodeInfoWire;
  tenure_info_json : list byte -> result JsonFault TenureInfoWire;
  pox_info_json : list byte -> result JsonFault PoxInfoWire;
  stacker_set_json : list byte -> result JsonFault (StackerSetWire JsonValue);
  upload_json : list byte -> result JsonFault BlockUploadWire;
  account_json : list byte -> result JsonFault AccountWire;
  sortitions_json : list byte -> result JsonFault (list SortitionInfoWire);
  fork_infos_json : list byte -> result JsonFault (list ForkInfoWire);
  value_field : JsonValue -> list byte -> option JsonValue;
  address_of_value : JsonValue -> option (bool * list byte * list byte);
}.

(** The text of an address, of the [c32] crate; [None] is [fmt::Error]. *)
Class AddressText : Type := c32_check_text : list byte -> byte -> option (list byte).

(** ** Values *)

Record NodeInfo : Type := mkNodeInfo { ni_bitcoin_height : Z; ni_stacks_height : Z; ni_stacks_tip : list byte; ni_consensus_hash : ConsensusHash; ni_network_id : Z }.

Record ForkInfo : Type := mkForkInfo { fi_bitcoin_height : Z; fi_consensus_hash : ConsensusHash; fi_was_sortition : bool; fi_first_block_mined : option StacksBlockId }.

Record PoxInfo : Type := mkPoxInfo {
  px_first_bitcoin_height : Z;
  px_bitcoin_height : Z;
  px_prepare_phase_length : Z;
  px_reward_phase_length : Z;
  px_reward_slots : Z;
  px_rejection_fraction : option Z;
  px_pox_5_activation_height : option Z;
  px_v1_unlock_height : option Z;
  px_v2_unlock_height : option Z;
  px_v3_unlock_height : option Z;
}.

Record BlockUploaded : Type := mkUpload { up_accepted : bool; up_block_id : StacksBlockId }.

Module PoxInfo.

Definition reward_cycle (p : PoxInfo) (bitcoin_height : Z) : Z :=
  let length := px_prepare_phase_length p + px_reward_phase_length p in
  saturating_sub bitcoin_height (px_first_bitcoin_height p) / Z.max length 1.

Definition inventory_cycle_start (p : PoxInfo) (bitcoin_height : Z) : option Z :=
  length ← checked_add U64_MAX (px_prepare_phase_length p) (px_reward_phase_length p);
  if length =? 0 then None else
  offset ← checked_sub bitcoin_height (px_first_bitcoin_height p);
  offset ← checked_sub offset 1;
  rounds ← try_from U64_MAX (offset / length * length);
  start ← checked_add U64_MAX (px_first_bitcoin_height p) rounds;
  checked_add U64_MAX start 1.

Definition bitcoin_context (p : PoxInfo) : BitcoinBlockContext :=
  let c := BitcoinBlockContext.at_height (px_bitcoin_height p) in
  mkContext (cx_height c) (cx_tenure_bitcoin_height c) (px_first_bitcoin_height p) (px_prepare_phase_length p) (px_reward_phase_length p) (default 0 (px_rejection_fraction p))
    (default U32_MAX (px_v1_unlock_height p)) (default U32_MAX (px_v2_unlock_height p)) (default U32_MAX (px_v3_unlock_height p)) (default U32_MAX (px_pox_5_activation_height p)) 0
    (cx_burn_header_hash c) (cx_burn_block_time c) (cx_vrf_seed c) (cx_burn_spend_total c) (cx_burn_spend_winner c) (cx_sortition_hash c) (cx_winner_vrf_public_key c) (cx_winner_signing_key_hash c).

End PoxInfo.

(** ** Errors *)

Module SyncError.

Inductive t `{HttpStack} `{JsonReader} : Type :=
| TenureGap (tenure : StacksBlockId) (have want : Z)
| InvalidBaseUrl
| ResponseTooLarge (limit : Z)
| Http (e : HttpError)
| Json (e : JsonFault)
| Block (e : NakamotoCodecError)
| EmptyTenure
| TenureStart
| TenureLink (e : TenureError)
| InvalidHash
| EmptySortition
| InvalidSortition
| InvalidRewardSet
| Crypto (e : CryptoError)
| SignerSet (e : SignerSetError)
| BlockUploadRejected
| UnstableTip
| Fork
| InvalidMempool
| InvalidAccount
| NoPeer
| Throttled
| UnexpectedBlock (expected found : StacksBlockId)
| UnexpectedSortition (asked answered : ConsensusHash)
| UnexpectedTenure (asked answered : ConsensusHash).

Section Kinds.
Context `{HT : HttpStack} `{JR : JsonReader}.

Definition is_unreachable (e : t) : bool := match e with Http e => is_connect e || is_timeout e | _ => false end.

Definition is_rate_limited (e : t) : bool := match e with Http e => bool_decide (error_status e = Some TOO_MANY_REQUESTS) | Throttled => true | _ => false end.

End Kinds.
End SyncError.

(** ** Parsing *)

(** A computation that may panic and may fail. *)
Definition settled {S E A} (o : option (result E A)) : Eff S E A := fun s => match o with Some r => Some (r, s) | None => None end.

(** [Option::map(f).transpose()?]. *)
Definition transposed {S E A B} (f : A -> Eff S E B) (o : option A) : Eff S E (option B) :=
  match o with Some x => y ← f x; mret (Some y) | None => mret None end.

(** [map(f).collect::<Result<Vec<_>, _>>()?]. *)
Fixpoint collected {S E A B} (f : A -> Eff S E B) (l : list A) : Eff S E (list B) :=
  match l with [] => mret [] | x :: l => y ← f x; ys ← collected f l; mret (y :: ys) end.

(** A byte inside a character: a string cannot be sliced before it. *)
Definition continues (b : byte) : bool := (128 <=? u8 b) && (u8 b <=? 191).

(** [str::strip_prefix("0x")]. *)
Definition strip_0x (value : list byte) : option (list byte) :=
  match value with a :: b :: rest => if bool_decide (a = 48%u8) && bool_decide (b = 120%u8) then Some rest else None | _ => None end.

(** [str::trim_start_matches("0x")]. *)
Fixpoint trim_0x (value : list byte) : list byte :=
  match value with
  | a :: ((b :: rest) as tail) => if bool_decide (a = 48%u8) && bool_decide (b = 120%u8) then trim_0x rest else value
  | _ => value
  end.

(** [u128::from_str_radix(.., 16)]: one leading plus sign and at least one digit. *)
Fixpoint hex_digits (text : list byte) (value : Z) : option Z :=
  match text with
  | [] => Some value
  | b :: rest => digit ← hex_digit b; value ← try_from U128_MAX (value * 16 + digit); hex_digits rest value
  end.

Definition parse_u128_hex (text : list byte) : option Z :=
  let text := match text with b :: rest => if bool_decide (b = 43%u8) then rest else text | [] => [] end in
  match text with [] => None | _ => hex_digits text 0 end.

Section Parse.
Context `{HS : Hashes} `{SE : Secp256k1} `{ED : Edwards} `{HT : HttpStack} `{JR : JsonReader}.

(** The loop over the pairs of characters; [None] is a slice inside a character. *)
Fixpoint hex_slices (text : list byte) : option (result SyncError.t (list byte)) :=
  match text with
  | a :: b :: rest =>
      if continues a || match rest with c :: _ => continues c | [] => false end then None else
      match hex_pair a b with
      | None => Some (Err SyncError.InvalidHash)
      | Some x => bytes ← hex_slices rest; Some (let? bytes := bytes in Ok (x :: bytes))
      end
  | [] => Some (Ok [])
  | [_] => Some (Err SyncError.InvalidHash)
  end.

Definition parse_hex (LENGTH : Z) (value : list byte) : option (result SyncError.t (list byte)) :=
  let value := default value (strip_0x value) in
  if negb (len value =? LENGTH * 2) then Some (Err SyncError.InvalidHash) else hex_slices value.

Definition parse_prefixed_hex (LENGTH : Z) (value : list byte) : option (result SyncError.t (list byte)) :=
  match strip_0x value with Some value => parse_hex LENGTH value | None => Some (Err SyncError.InvalidHash) end.

Definition decode_any_hex (value : list byte) : option (result SyncError.t (list byte)) :=
  if negb (len value mod 2 =? 0) then Some (Err SyncError.InvalidHash) else hex_slices value.

Context {S : Type}.
Abbreviation P := (Eff S SyncError.t).

Definition parse_block_id (value : list byte) : P StacksBlockId := settled (parse_hex 32 value).
Definition parse_block_hash (value : list byte) : P (list byte) := settled (parse_hex 32 value).
Definition parse_consensus_hash (value : list byte) : P ConsensusHash := settled (parse_hex 20 value).
Definition parse_prefixed_block_hash (value : list byte) : P (list byte) := settled (parse_prefixed_hex 32 value).
Definition parse_prefixed_bitcoin_block_hash (value : list byte) : P (list byte) := settled (parse_prefixed_hex 32 value).
Definition parse_prefixed_sortition_id (value : list byte) : P (list byte) := settled (parse_prefixed_hex 32 value).
Definition parse_prefixed_consensus_hash (value : list byte) : P ConsensusHash := settled (parse_prefixed_hex 20 value).
Definition parse_prefixed_hash160 (value : list byte) : P Hash160 := settled (parse_prefixed_hex 20 value).

Definition parse_sortition_info (w : SortitionInfoWire) : P SortitionInfo :=
  bitcoin_block_hash ← parse_prefixed_bitcoin_block_hash (sw_burn_block_hash w);
  sortition_id ← parse_prefixed_sortition_id (sw_sortition_id w);
  parent_sortition_id ← parse_prefixed_sortition_id (sw_parent_sortition_id w);
  consensus_hash ← parse_prefixed_consensus_hash (sw_consensus_hash w);
  miner ← transposed parse_prefixed_hash160 (sw_miner_pk_hash160 w);
  stacks_parent ← transposed parse_prefixed_consensus_hash (sw_stacks_parent_ch w);
  last_sortition ← transposed parse_prefixed_consensus_hash (sw_last_sortition_ch w);
  committed ← transposed parse_prefixed_block_hash (sw_committed_block_hash w);
  vrf_seed ← transposed (fun value => settled (parse_prefixed_hex 32 value)) (sw_vrf_seed w);
  mret (mkSortitionInfo bitcoin_block_hash (sw_burn_block_height w) (sw_burn_header_timestamp w) sortition_id parent_sortition_id consensus_hash (sw_was_sortition w) miner
    stacks_parent last_sortition committed vrf_seed).

(** The field of the record is an array of 32 bytes. *)
Definition parse_waterfall_address (value : JsonValue) : P PoxAddress.t :=
  address ← try_with id (or_err (value_field value (list_byte_of_string "Addr32")) SyncError.InvalidRewardSet);
  parts ← try_with id (or_err (address_of_value address) SyncError.InvalidRewardSet);
  let '(mainnet, address_type, bytes) := parts in
  if negb (bool_decide (address_type = list_byte_of_string "P2TR")) then throw SyncError.InvalidRewardSet else
  mret (PoxAddress.Addr32 mainnet PoxAddress.Type32_P2tr bytes).

Record StackerSet : Type := mkStackerSet { zs_pox_ustx_threshold : Z; zs_sbtc_address : option PoxAddress.t; zs_signer_set : list Signer }.

Definition parse_signer (w : StackerWire) : P Signer :=
  bytes ← settled (parse_hex 33 (kw_signing_key w));
  key ← try_with SyncError.Crypto (StacksPublicKey.from_bytes bytes);
  mret (Signers.mkSigner key (kw_weight w)).

Definition parse_stacker_set (w : StackerSetWire JsonValue) : P StackerSet :=
  sbtc_address ← transposed parse_waterfall_address (zw_sbtc_address w);
  signers ← collected parse_signer (zw_signers w);
  signer_set ← try_with SyncError.SignerSet (signer_set_new (merge_sort (fun a b => bytes_le (signer_key a) (signer_key b)) signers));
  mret (mkStackerSet (zw_pox_ustx_threshold w) sbtc_address signer_set).

(** A vector of [count] blocks at the front of [bytes]. *)
Fixpoint counted_blocks (count : nat) (bytes : list byte) (offset : Z) : P (list NakamotoBlock) :=
  match count with
  | O => mret []
  | Datatypes.S count =>
      tail ← try_with id (or_err (get_range bytes offset (len bytes)) SyncError.InvalidHash);
      decoded ← unwrap (decode_prefix tail);
      found ← try_with SyncError.Block decoded;
      offset ← try_with id (or_err (checked_add USIZE_MAX offset found.2) SyncError.InvalidHash);
      blocks ← counted_blocks count bytes offset;
      mret (found.1 :: blocks)
  end.

Definition decode_tenure_blocks (encoded : list byte) : P (list NakamotoBlock) :=
  bytes ← settled (decode_any_hex (default encoded (strip_0x encoded)));
  prefix ← try_with id (or_err (get_range bytes 0 4) SyncError.InvalidHash);
  counted_blocks (Z.to_nat (from_be_bytes prefix)) bytes 4.

(** The blocks a body is made of, back to back. A block takes at least a byte, so as many
    rounds as there are bytes are enough. *)
Fixpoint streamed_blocks (fuel : nat) (bytes : list byte) (offset : Z) : P (list NakamotoBlock) :=
  if len bytes <=? offset then mret [] else
  match fuel with
  | O => mret []
  | Datatypes.S fuel =>
      tail ← unwrap (get_range bytes offset (len bytes));
      decoded ← unwrap (decode_prefix tail);
      found ← try_with SyncError.Block decoded;
      offset ← try_with id (or_err (checked_add USIZE_MAX offset found.2) SyncError.InvalidHash);
      blocks ← streamed_blocks fuel bytes offset;
      mret (found.1 :: blocks)
  end.

Definition MEMPOOL_QUERY_TX_TAGS : byte := 2%u8.

(** The loop over the transactions of a page; each takes at least a byte. *)
Fixpoint page_transactions (fuel : nat) (stream : list byte) : P (list Transaction * option Sha256Sum) :=
  match stream, fuel with
  | [], _ | _, O => mret ([], None)
  | _, Datatypes.S fuel =>
      match decode_transaction stream with
      | Err _ => if negb (len stream =? 32) then throw SyncError.InvalidMempool else mret ([], Some stream)
      | Ok (transaction, consumed) =>
          stream ← try_with id (or_err (get_range stream consumed (len stream)) SyncError.InvalidMempool);
          rest ← page_transactions fuel stream;
          mret (transaction :: rest.1, rest.2)
      end
  end.

Definition decode_mempool_page (body : list byte) : P (list Transaction * option Sha256Sum) := page_transactions (length body) body.

Definition validate_successors (blocks : list NakamotoBlock) : P unit :=
  foldr (fun pair k => checked ← unwrap (validate_successor pair.1 (bl_header pair.2)); _ ← try_with SyncError.TenureLink checked; k) (mret tt) (zip blocks (drop 1 blocks)).

Definition validate_tenure (start_block_id : StacksBlockId) (blocks : list NakamotoBlock) : P unit :=
  match blocks with
  | [] => throw SyncError.EmptyTenure
  | first :: _ =>
      id ← unwrap (block_id first);
      if negb (bool_decide (id = start_block_id)) then throw SyncError.TenureStart else validate_successors blocks
  end.

End Parse.

(** [validate_tenure_transition]. *)
Definition validate_tenure_transition `{HttpStack} `{JsonReader} (previous next : TenureInfo) : result SyncError.t unit :=
  if bool_decide (ti_tenure_start_block_id previous = ti_tenure_start_block_id next) then Ok tt else
  if bool_decide (ti_parent_consensus_hash next = ti_consensus_hash previous) && bool_decide (ti_parent_tenure_start_block_id next = ti_tenure_start_block_id previous)
  then Ok tt else Err SyncError.Fork.

(** ** The state of the process *)

Record SyncState `{LruCrate} `{HttpStack} : Type := mkSync {
  sy_internet : Internet;
  sy_requests : Z;
  sy_request_nanos : Z;
  sy_blocks : ByteCache.t (HttpUrl * StacksBlockId) NakamotoBlock;
  sy_sortitions : ByteCache.t (HttpUrl * ConsensusHash) SortitionInfo;
}.
Arguments mkSync {_ _} _ _ _ _ _.

Record PeerCacheStats : Type := mkPeerCacheStats { pcs_blocks : CacheStats; pcs_sortitions : CacheStats }.

Section State.
Context `{LC : LruCrate} `{HT : HttpStack}.

(** The process as it starts. *)
Definition sync_start (i : Internet) : option SyncState :=
  blocks ← ByteCache.new PEER_BLOCK_CACHE_ITEMS PEER_BLOCK_CACHE_BYTES;
  sortitions ← ByteCache.new PEER_SORTITION_CACHE_ITEMS PEER_SORTITION_CACHE_BYTES;
  Some (mkSync i 0 0 blocks sortitions).

Definition peer_cache_stats (s : SyncState) : PeerCacheStats := mkPeerCacheStats (ByteCache.stats (sy_blocks s)) (ByteCache.stats (sy_sortitions s)).

(** In nanoseconds. *)
Definition request_stats (s : SyncState) : Z * Z := (sy_requests s, sy_request_nanos s).

Definition with_internet (i : Internet) (s : SyncState) : SyncState := mkSync i (sy_requests s) (sy_request_nanos s) (sy_blocks s) (sy_sortitions s).
Definition with_blocks (c : ByteCache.t (HttpUrl * StacksBlockId) NakamotoBlock) (s : SyncState) : SyncState := mkSync (sy_internet s) (sy_requests s) (sy_request_nanos s) c (sy_sortitions s).
Definition with_sortitions (c : ByteCache.t (HttpUrl * ConsensusHash) SortitionInfo) (s : SyncState) : SyncState := mkSync (sy_internet s) (sy_requests s) (sy_request_nanos s) (sy_blocks s) c.

(** The two counters of requests, which wrap. *)
Definition count_request (started : Z) (s : SyncState) : SyncState :=
  let elapsed := default U64_MAX (try_from U64_MAX (saturating_sub (instant_nanos (sy_internet s)) started)) in
  mkSync (sy_internet s) (wrapping_add U64_MAX (sy_requests s) 1) (wrapping_add U64_MAX (sy_request_nanos s) elapsed) (sy_blocks s) (sy_sortitions s).

(** What a cache answers, and the order of use it leaves. *)
Definition cached_value {E A} (get : SyncState -> option A * SyncState) : Eff SyncState E (option A) := fun s => let (found, s) := get s in Some (Ok found, s).

(** An insertion whose result is not used. *)
Definition retain {E} (insert : SyncState -> option SyncState) : Eff SyncState E unit := fun s => s ← insert s; Some (Ok tt, s).

End State.

(** ** Responses *)

Section Responses.
Context `{HT : HttpStack} `{JR : JsonReader}.

(** [HeaderValue::to_str]. *)
Definition visible (b : byte) : bool := ((32 <=? u8 b) && (u8 b <? 127)) || (u8 b =? 9).

Definition retry_after {E} (response : Response E) : option Z :=
  value ← rs_retry_after response;
  if negb (forallb visible value) then None else
  secs ← parse_u64 (trim value);
  Some (Z.min (secs * 1000) RETRY_AFTER_CEILING).

Fixpoint read_chunks (limit : Z) (chunks : list (result HttpError (list byte))) (body : list byte) : result SyncError.t (list byte) :=
  match chunks with
  | [] => Ok body
  | Err e :: _ => Err (SyncError.Http e)
  | Ok chunk :: chunks => if saturating_sub limit (len body) <? len chunk then Err (SyncError.ResponseTooLarge limit) else read_chunks limit chunks (body ++ chunk)
  end.

(** A [u64] is a [usize] here. *)
Definition bounded_response (response : Response HttpError) (limit : Z) : result SyncError.t (list byte) :=
  match rs_content_length response with
  | Some declared => if limit <? declared then Err (SyncError.ResponseTooLarge limit) else read_chunks limit (rs_chunks response) []
  | None => read_chunks limit (rs_chunks response) []
  end.

Definition bounded_json {A} (from_slice : list byte -> result JsonFault A) (response : Response HttpError) (limit : Z) : result SyncError.t A :=
  let? body := bounded_response response limit in map_err SyncError.Json (from_slice body).

End Responses.

(** ** The client *)

Record SyncClient `{HttpStack} : Type := mkSyncClient { sc_client : HttpClient; sc_base_url : HttpUrl }.
Arguments mkSyncClient {_} _ _.

Abbreviation path := list_byte_of_string.

Module SyncClient.
Section Ops.
Context `{HS : Hashes} `{SE : Secp256k1} `{ED : Edwards} `{LC : LruCrate} `{HT : HttpStack} `{JR : JsonReader} `{AT : AddressText}.
Abbreviation M := (Eff SyncState SyncError.t).

(** The time limits are in seconds. *)
Definition new (base_url : HttpUrl) : result SyncError.t SyncClient :=
  if cannot_be_a_base base_url then Err SyncError.InvalidBaseUrl else
  let? client := map_err SyncError.Http (client_build 30 4) in Ok (mkSyncClient client base_url).

Definition join (c : SyncClient) (p : list byte) : M HttpUrl := try_with id (or_err (url_join (sc_base_url c) p) SyncError.InvalidBaseUrl).

Definition request (c : SyncClient) (url : HttpUrl) : M (Response HttpError) := fun s =>
  let (r, i) := http_get (sc_client c) url (sy_internet s) in Some (map_err SyncError.Http r, with_internet i s).

Definition post (c : SyncClient) (url : HttpUrl) (body : list byte) : M (Response HttpError) := fun s =>
  let (r, i) := http_post (sc_client c) url (path "application/octet-stream") body (sy_internet s) in Some (map_err SyncError.Http r, with_internet i s).

Definition rest (millis : Z) : M unit := modify (fun s => with_internet (sleep millis (sy_internet s)) s).

Fixpoint send_retries (retries : nat) (wait : Z) (c : SyncClient) (url : HttpUrl) : M (Response HttpError) :=
  response ← request c url;
  match retries with
  | O => try_with SyncError.Http (error_for_status response)
  | S retries =>
      if negb (rs_status response =? TOO_MANY_REQUESTS) then try_with SyncError.Http (error_for_status response) else
      _ ← rest (default wait (retry_after response));
      send_retries retries (Z.min (wait * 2) RATE_LIMIT_CEILING) c url
  end.

Definition send_inner (c : SyncClient) (url : HttpUrl) : M (Response HttpError) := send_retries RATE_LIMIT_RETRIES RATE_LIMIT_WAIT c url.

Definition send (c : SyncClient) (url : HttpUrl) : M (Response HttpError) := fun s =>
  match send_inner c url s with Some (r, s') => Some (r, count_request (instant_nanos (sy_internet s)) s') | None => None end.

Definition bytes (c : SyncClient) (p : list byte) (limit : Z) : M (list byte) :=
  url ← join c p; response ← send c url; try_with id (bounded_response response limit).

Definition get_with_limit {A} (from_slice : list byte -> result JsonFault A) (c : SyncClient) (p : list byte) (limit : Z) : M A :=
  url ← join c p; response ← send c url; try_with id (bounded_json from_slice response limit).

Definition get_json {A} (from_slice : list byte -> result JsonFault A) (c : SyncClient) (p : list byte) : M A := get_with_limit from_slice c p MAX_JSON_RESPONSE_BYTES.

Definition node_info (c : SyncClient) : M NodeInfo :=
  w ← get_json node_info_json c (path "v2/info");
  stacks_tip ← parse_block_hash (nw_stacks_tip w);
  consensus_hash ← parse_consensus_hash (nw_stacks_tip_consensus_hash w);
  mret (mkNodeInfo (nw_burn_block_height w) (nw_stacks_tip_height w) stacks_tip consensus_hash (nw_network_id w)).

Definition tenure_info (c : SyncClient) : M TenureInfo :=
  w ← get_json tenure_info_json c (path "v3/tenures/info");
  consensus_hash ← parse_consensus_hash (tw_consensus_hash w);
  start ← parse_block_id (tw_tenure_start_block_id w);
  parent_consensus_hash ← parse_consensus_hash (tw_parent_consensus_hash w);
  parent_start ← parse_block_id (tw_parent_tenure_start_block_id w);
  tip ← parse_block_id (tw_tip_block_id w);
  mret (mkTenureInfo consensus_hash start parent_consensus_hash parent_start tip (tw_tip_height w) (tw_reward_cycle w)).

(** [str::ends_with]. *)
Definition ends_with (suffix text : list byte) : bool := bool_decide (drop (length text - length suffix) text = suffix).

Definition pox_info (c : SyncClient) : M PoxInfo :=
  w ← get_json pox_info_json c (path "v2/pox");
  mret (mkPoxInfo (pw_first_burnchain_block_height w) (pw_current_burnchain_block_height w) (pw_prepare_phase_block_length w) (pw_reward_phase_block_length w)
    (pw_reward_slots w) (pw_rejection_fraction w)
    (pv_activation_burnchain_block_height <$> List.find (fun version => ends_with (path ".pox-5") (pv_contract_id version)) (pw_contract_versions w))
    (unlock_height_after w "Epoch21") (unlock_height_after w "Epoch22") (unlock_height_after w "Epoch25")).

Definition account (c : SyncClient) (address : StacksAddress.t) : M Account :=
  text ← unwrap (StacksAddress.to_string c32_check_text address);
  w ← get_json account_json c (path "v2/accounts/" ++ text ++ path "?proof=0");
  balance ← try_with id (or_err (parse_u128_hex (trim_0x (aw_balance w))) SyncError.InvalidAccount);
  mret (mkAccount (aw_nonce w) (Some balance)).

Definition account_nonce (c : SyncClient) (address : StacksAddress.t) : M Z := a ← account c address; mret (acct_nonce a).

(** The accounts not known yet. *)
Fixpoint learn_accounts (c : SyncClient) (addresses : list StacksAddress.t) (accounts : gmap StacksAddress.t Account) : M (gmap StacksAddress.t Account) :=
  match addresses with
  | [] => mret accounts
  | address :: addresses =>
      accounts ← match accounts !! address with Some _ => mret accounts | None => found ← account c address; mret (<[address := found]> accounts) end;
      learn_accounts c addresses accounts
  end.

(** [accounts_for], over the pool's addresses in the order of its hash set. *)
Definition accounts_for (c : SyncClient) (addresses : list StacksAddress.t) : M (gmap StacksAddress.t Account) := learn_accounts c addresses ∅.

Definition mempool_page (c : SyncClient) (page : option Sha256Sum) : M (list Transaction * option Sha256Sum) :=
  url ← join c (match page with None => path "v2/mempool/query" | Some page => path "v2/mempool/query?page_id=" ++ block_hex page end);
  response ← post c url (MEMPOOL_QUERY_TX_TAGS :: replicate 32 0%u8 ++ to_be_bytes 4 0);
  response ← try_with SyncError.Http (error_for_status response);
  body ← try_with id (bounded_response response MAX_MEMPOOL_RESPONSE_BYTES);
  decode_mempool_page body.

(** Whether the pool was full, and how many transactions it took. *)
Fixpoint offer (transactions : list Transaction) (accounts : gmap StacksAddress.t Account) (now admitted : Z) (pool : Mempool) : option ((bool * Z) * Mempool) :=
  match transactions with
  | [] => Some ((false, admitted), pool)
  | transaction :: transactions =>
      submitted ← submit pool transaction accounts now;
      match submitted with
      | (Ok (Added | Replaced _), pool) => offer transactions accounts now (admitted + 1) pool
      | (Err (Rejection.MempoolFull _ _), pool) => Some ((true, admitted), pool)
      | (_, pool) => offer transactions accounts now admitted pool
      end
  end.

Abbreviation F := (Eff (Mempool * SyncState) SyncError.t).
Definition remotely {A} (m : M A) : F A := zoom snd (fun s p => (p.1, s)) id m.

Definition offering (transactions : list Transaction) (accounts : gmap StacksAddress.t Account) (now admitted : Z) : F (bool * Z) := fun s =>
  match offer transactions accounts now admitted s.1 with Some (offered, pool) => Some (Ok offered, (pool, s.2)) | None => None end.

Fixpoint fill_pages (pages : nat) (c : SyncClient) (now : Z) (page : option Sha256Sum) (cursors : list Sha256Sum) (accounts : gmap StacksAddress.t Account) (admitted : Z) : F Z :=
  match pages with
  | O => mret admitted
  | S pages =>
      answer ← remotely (mempool_page c page);
      accounts ← remotely (learn_accounts c (concat (map (fun tx => omap id [origin_address tx; sponsor_address tx]) answer.1)) accounts);
      offered ← offering answer.1 accounts now admitted;
      if (offered.1 : bool) then mret offered.2 else
      match answer.2 with
      | None => mret offered.2
      | Some next => if bool_decide (next ∈ cursors) then throw SyncError.InvalidMempool else fill_pages pages c now (Some next) (next :: cursors) accounts offered.2
      end
  end.

Definition fill_mempool (c : SyncClient) (now : Z) : F Z := fill_pages MAX_MEMPOOL_PAGES c now None [] ∅ 0.

Definition stacker_set (c : SyncClient) (reward_cycle : Z) : M StackerSet :=
  w ← get_json stacker_set_json c (path "v3/stacker_set/" ++ decimal_text reward_cycle); parse_stacker_set w.

Definition single_sortition_with_size (c : SyncClient) (p : list byte) : M (SortitionInfo * Z) :=
  body ← bytes c p MAX_JSON_RESPONSE_BYTES;
  sortitions ← try_with SyncError.Json (sortitions_json body);
  match sortitions with
  | [] => throw SyncError.EmptySortition
  | [sortition] => info ← parse_sortition_info sortition; mret (info, len body)
  | _ => throw SyncError.InvalidSortition
  end.

Definition single_sortition (c : SyncClient) (p : list byte) : M SortitionInfo := found ← single_sortition_with_size c p; mret found.1.

Definition sortition (c : SyncClient) (consensus_hash : ConsensusHash) : M SortitionInfo :=
  let key := (sc_base_url c, consensus_hash) in
  found ← cached_value (fun s => let (v, cache) := ByteCache.get key (sy_sortitions s) in (v, with_sortitions cache s));
  match found with
  | Some sortition => mret sortition
  | None =>
      answer ← single_sortition_with_size c (path "v3/sortitions/consensus/" ++ block_hex consensus_hash);
      if negb (bool_decide (si_consensus_hash answer.1 = consensus_hash)) then throw SyncError.InvalidSortition else
      _ ← retain (fun s => cache ← ByteCache.insert key answer.1 answer.2 (sy_sortitions s); Some (with_sortitions cache.2 s));
      mret answer.1
  end.

Definition sortition_tip (c : SyncClient) : M SortitionInfo := single_sortition c (path "v3/sortitions").

Definition sortition_at_height (c : SyncClient) (height : Z) : M SortitionInfo :=
  sortition ← single_sortition c (path "v3/sortitions/burn_height/" ++ decimal_text height);
  if negb (si_bitcoin_height sortition =? height) then throw SyncError.InvalidSortition else mret sortition.

Definition cached (c : SyncClient) (id : StacksBlockId) : M (option NakamotoBlock) :=
  cached_value (fun s => let (v, cache) := ByteCache.get (sc_base_url c, id) (sy_blocks s) in (v, with_blocks cache s)).

Definition block (c : SyncClient) (id : StacksBlockId) : M NakamotoBlock :=
  found ← cached c id;
  match found with
  | Some block => mret block
  | None =>
      body ← bytes c (path "v3/blocks/" ++ block_hex id) MAX_BLOCK_RESPONSE_BYTES;
      decoded ← unwrap (decode_block body);
      block ← try_with SyncError.Block decoded;
      answered ← unwrap (block_id block);
      if negb (bool_decide (answered = id)) then throw (SyncError.UnexpectedBlock id answered) else
      _ ← retain (fun s => cache ← ByteCache.insert (sc_base_url c, id) block (len body) (sy_blocks s); Some (with_blocks cache.2 s));
      mret block
  end.

Definition upload_block (c : SyncClient) (block : NakamotoBlock) : M BlockUploaded :=
  url ← join c (path "v3/blocks/upload");
  body ← unwrap (encode_block block);
  response ← post c url body;
  response ← try_with SyncError.Http (error_for_status response);
  w ← try_with id (bounded_json upload_json response MAX_UPLOAD_RESPONSE_BYTES);
  answered ← parse_block_id (uw_stacks_block_id w);
  id ← unwrap (block_id block);
  if negb (bool_decide (answered = id)) then throw SyncError.BlockUploadRejected else mret (mkUpload (uw_accepted w) answered).

Definition parse_fork_info (w : ForkInfoWire) : M ForkInfo :=
  consensus_hash ← parse_consensus_hash (fw_consensus_hash w);
  first_block_mined ← transposed parse_block_id (fw_first_block_mined w);
  mret (mkForkInfo (fw_burn_block_height w) consensus_hash (fw_was_sortition w) first_block_mined).

Definition fork_info_page (c : SyncClient) (start stop : ConsensusHash) : M (list ForkInfo) :=
  w ← get_with_limit fork_infos_json c (path "v3/tenures/fork_info/" ++ block_hex stop ++ path "/" ++ block_hex start) MAX_TENURE_JSON_RESPONSE_BYTES;
  collected parse_fork_info w.

Fixpoint fork_info_pages (pages : nat) (c : SyncClient) (cursor stop : ConsensusHash) (walked : list ForkInfo) : M (list ForkInfo) :=
  match pages with
  | O => mret walked
  | S pages =>
      page ← fork_info_page c cursor stop;
      match last page with
      | None => mret walked
      | Some oldest =>
          let oldest := fi_consensus_hash oldest in
          if bool_decide (oldest = stop) || bool_decide (oldest = cursor) then mret (walked ++ page) else fork_info_pages pages c oldest stop (walked ++ page)
      end
  end.

Definition tenure_fork_info (c : SyncClient) (start stop : ConsensusHash) : M (list ForkInfo) := fork_info_pages FORK_INFO_PAGES c start stop [].

(** The first entry of a view; an entry whose hash does not parse is passed over. *)
Fixpoint entry_of_view (consensus_hash : ConsensusHash) (l : list ForkInfoWire) : option (option ForkInfoWire) :=
  match l with
  | [] => Some None
  | w :: l =>
      parsed ← parse_hex 20 (fw_consensus_hash w);
      match parsed with Ok hash => if bool_decide (hash = consensus_hash) then Some (Some w) else entry_of_view consensus_hash l | Err _ => entry_of_view consensus_hash l end
  end.

Definition tenure_at (c : SyncClient) (consensus_hash : ConsensusHash) : M (list NakamotoBlock) :=
  w ← get_with_limit fork_infos_json c (path "v3/tenures/fork_info/" ++ block_hex consensus_hash ++ path "/" ++ block_hex consensus_hash) MAX_TENURE_JSON_RESPONSE_BYTES;
  entry ← unwrap (entry_of_view consensus_hash w);
  encoded ← try_with id (or_err (entry ≫= fw_nakamoto_blocks) SyncError.EmptyTenure);
  blocks ← decode_tenure_blocks encoded;
  match blocks with
  | [] => throw SyncError.EmptyTenure
  | _ =>
      match List.find (fun block => negb (bool_decide (hd_consensus_hash (bl_header block) = consensus_hash))) blocks with
      | Some block => throw (SyncError.UnexpectedTenure consensus_hash (hd_consensus_hash (bl_header block)))
      | None => mret blocks
      end
  end.

Definition tenure (c : SyncClient) (start_block_id : StacksBlockId) (stop_block_id : option StacksBlockId) : M (list NakamotoBlock) :=
  body ← bytes c (path "v3/tenures/" ++ block_hex start_block_id ++ match stop_block_id with Some stop => path "?stop=" ++ block_hex stop | None => [] end) MAX_TENURE_RESPONSE_BYTES;
  blocks ← streamed_blocks (length body) body 0;
  _ ← validate_tenure start_block_id blocks;
  mret blocks.

(** [blocks.iter().any(..)]. *)
Fixpoint any_block (id : StacksBlockId) (blocks : list NakamotoBlock) : option bool :=
  match blocks with [] => Some false | block :: blocks => found ← block_id block; if bool_decide (found = id) then Some true else any_block id blocks end.

Definition blocks_of_tenure (c : SyncClient) (id : StacksBlockId) : M (list NakamotoBlock) :=
  body ← bytes c (path "v3/tenures/" ++ block_hex id) MAX_TENURE_RESPONSE_BYTES;
  blocks ← streamed_blocks (length body) body 0;
  among ← unwrap (any_block id blocks);
  if negb among then throw SyncError.TenureStart else mret blocks.

Definition height_of (block : option NakamotoBlock) : Z := match block with Some block => hd_chain_length (bl_header block) | None => 0 end.

(** The loop of [walk_back]; [limit] blocks may still be fetched. *)
Fixpoint walk_loop (limit : nat) (c : SyncClient) (blocks walked : list NakamotoBlock) (cursor known : StacksBlockId) : M (list NakamotoBlock) :=
  if bool_decide (cursor = known) then mret walked else
  match limit with
  | O => throw (SyncError.TenureGap known (height_of (last blocks)) (height_of (last walked)))
  | S limit => found ← block c cursor; walk_loop limit c blocks (walked ++ [found]) (hd_parent_block_id (bl_header found)) known
  end.

(** The blocks extended; an error leaves them as they were. *)
Definition walk_back (c : SyncClient) (blocks : list NakamotoBlock) (tip known : StacksBlockId) (limit : Z) : M (list NakamotoBlock) :=
  walked ← walk_loop (Z.to_nat limit) c blocks [] tip known; mret (blocks ++ reverse walked).

Definition extend_to_tenure_tip (c : SyncClient) (blocks : list NakamotoBlock) (tip : StacksBlockId) : M (list NakamotoBlock) :=
  match last blocks with
  | None => throw SyncError.EmptyTenure
  | Some block => known ← unwrap (block_id block); if bool_decide (known = tip) then mret blocks else walk_back c blocks tip known TENURE_WALK
  end.

End Ops.
End SyncClient.
