(* ===== verification/Sync.v ===== *)
(** * Following peers: [crates/nano-sync/src/lib.rs], second part

    Which tip is followed, the pool of peers that history is fetched from, and the follower
    of one peer's tenures. *)

From stdpp Require Import gmap sorting.
From Stdlib Require Import Strings.String.
From S2P Require Import Prelude Primitives Address CodecIO Crypto TxData TxCodec TxAuth Nakamoto Signers Mempool.
From S2P Require Import MarfVersions Effects EmbeddedSigner ProposalExecution SignerService TenureRewards SyncClient.

(** ** Where two views part *)

Definition fork_point_of (ours : list ConsensusHash) (theirs : list ForkInfo) : option ConsensusHash :=
  List.find (fun hash => bool_decide (hash ∈ map fi_consensus_hash theirs)) ours.

Definition fork_point (ours theirs : list ForkInfo) : option ConsensusHash := fork_point_of (map fi_consensus_hash ours) theirs.

(** ** The tip to follow *)

Record CandidateTip : Type := mkTip { ct_peer : nat; ct_info : TenureInfo; ct_header : NakamotoBlockHeader }.

Module TipRejection.
Inductive t : Type := InsufficientWeight | UnknownOrUnorderedSigner | UnrecoverableSignature | ForeignBurnView.
End TipRejection.

(** The trait [BurnView]. *)
Record BurnView : Type := mkBurnView { height_of_view : ConsensusHash -> option Z; derived_view : ConsensusHash -> Z -> option bool }.

Section Tips.
Context `{HS : Hashes} `{SE : Secp256k1}.

Definition tip_rejection (e : SignerSetError) : TipRejection.t :=
  match e with
  | InsufficientWeight => TipRejection.InsufficientWeight
  | BadSignature _ => TipRejection.UnrecoverableSignature
  | _ => TipRejection.UnknownOrUnorderedSigner
  end.

Definition weigh_tip (header : NakamotoBlockHeader) (signers : SignerWeights.t) : option (result TipRejection.t Z) :=
  weighed ← SignerWeights.verify signers header; Some (map_err tip_rejection weighed).

(** [signers.and_then(|signers| weigh_tip(..).err())]. *)
Definition weight_refusal (header : NakamotoBlockHeader) (signers : option SignerWeights.t) : option (option TipRejection.t) :=
  match signers with
  | None => Some None
  | Some signers => weighed ← weigh_tip header signers; Some (match weighed with Ok _ => None | Err e => Some e end)
  end.

(** The outer [option] is a panic, the inner one the refusal. *)
Definition refuse_tip (candidate : CandidateTip) (signers : option SignerWeights.t) (burn : option BurnView) : option (option TipRejection.t) :=
  match burn with
  | Some burn =>
      match derived_view burn (ti_consensus_hash (ct_info candidate)) (hd_bitcoin_spent (ct_header candidate)) with
      | Some true => weight_refusal (ct_header candidate) signers
      | Some false => Some (Some TipRejection.ForeignBurnView)
      | None => Some None
      end
  | None => weight_refusal (ct_header candidate) signers
  end.

(** [Option]'s order. *)
Definition compare_option (a b : option Z) : comparison :=
  match a, b with None, None => Eq | None, Some _ => Lt | Some _, None => Gt | Some a, Some b => a ?= b end.

Definition sortition_height (burn : option BurnView) (candidate : CandidateTip) : option Z :=
  burn ← burn; height_of_view burn (hd_consensus_hash (ct_header candidate)).

Definition compare_tips (burn : option BurnView) (left right : CandidateTip) : option comparison :=
  match hd_chain_length (ct_header left) ?= hd_chain_length (ct_header right) with
  | Eq =>
      match compare_option (sortition_height burn left) (sortition_height burn right) with
      | Eq => right_id ← header_block_id (ct_header right); left_id ← header_block_id (ct_header left); Some (compare_bytes right_id left_id)
      | c => Some c
      end
  | c => Some c
  end.

(** The candidates that are not refused. *)
Fixpoint willing_tips (candidates : list CandidateTip) (signers : option SignerWeights.t) (burn : option BurnView) : option (list CandidateTip) :=
  match candidates with
  | [] => Some []
  | candidate :: rest =>
      refusal ← refuse_tip candidate signers burn;
      rest ← willing_tips rest signers burn;
      Some (match refusal with None => candidate :: rest | Some _ => rest end)
  end.

(** [Iterator::max_by]: the later of two equal ones. *)
Fixpoint best_tip (burn : option BurnView) (best : CandidateTip) (rest : list CandidateTip) : option CandidateTip :=
  match rest with
  | [] => Some best
  | candidate :: rest => c ← compare_tips burn best candidate; best_tip burn (match c with Gt => best | _ => candidate end) rest
  end.

Definition choose_canonical_tip (candidates : list CandidateTip) (signers : option SignerWeights.t) (burn : option BurnView) : option (option CandidateTip) :=
  tips ← willing_tips candidates signers burn;
  match tips with [] => Some None | first :: rest => best ← best_tip burn first rest; Some (Some best) end.

End Tips.

(** A result whose error is passed over. *)
Definition attempt {S E F A} (m : Eff S E A) : Eff S F (option A) := fun s =>
  match m s with Some (Ok x, s) => Some (Ok (Some x), s) | Some (Err _, s) => Some (Ok None, s) | None => None end.

(** ** Bulk history from several peers *)

Record TenureSource `{HttpStack} : Type := mkSource {
  ts_peers : list SyncClient;
  ts_next : nat;
  ts_throttled : gset nat;
  ts_failed : gset nat;
  ts_served : gset nat;
  ts_last_served : option nat;
}.
Arguments mkSource {_} _ _ _ _ _ _.

Module TenureSource.
Section Ops.
Context `{HS : Hashes} `{SE : Secp256k1} `{ED : Edwards} `{LC : LruCrate} `{HT : HttpStack} `{JR : JsonReader} `{AT : AddressText}.
Abbreviation M := (Eff SyncState SyncError.t).
Abbreviation T := (Eff (TenureSource * SyncState) SyncError.t).

Definition new (peers : list SyncClient) : TenureSource := mkSource peers 0 ∅ ∅ ∅ None.
Definition only (peer : SyncClient) : TenureSource := new [peer].

Definition served_by (t : TenureSource) : nat := size (ts_served t).
Definition last_served (t : TenureSource) : option (list byte) := index ← ts_last_served t; peer ← ts_peers t !! index; Some (url_text (sc_base_url peer)).
Definition set_aside (t : TenureSource) : gset nat := ts_throttled t ∪ ts_failed t.
Definition exhausted (t : TenureSource) : bool := bool_decide (ts_peers t = []) || (length (ts_peers t) <=? size (set_aside t))%nat.
Definition throttled (t : TenureSource) : nat := size (ts_throttled t).
Definition endpoints (t : TenureSource) : list (list byte) := map (fun peer => url_text (sc_base_url peer)) (ts_peers t).

Definition forgive_throttles (t : TenureSource) : TenureSource := mkSource (ts_peers t) (ts_next t) ∅ ∅ (ts_served t) (ts_last_served t).

(** The stable sort by whether a peer is named: the named ones first. *)
Definition prefer (names : list (list byte)) (t : TenureSource) : TenureSource :=
  let preferred := omap url_parse names in
  let named peer := bool_decide (sc_base_url peer ∈ preferred) in
  mkSource (List.filter named (ts_peers t) ++ List.filter (fun peer => negb (named peer)) (ts_peers t)) 0 ∅ ∅ (ts_served t) (ts_last_served t).

Definition nobody_left (t : TenureSource) : SyncError.t := if bool_decide (ts_throttled t = ∅) then SyncError.NoPeer else SyncError.Throttled.

Definition note_served (index : nat) (t : TenureSource) : TenureSource :=
  mkSource (ts_peers t) (S index) (ts_throttled t) (ts_failed t) ({[index]} ∪ ts_served t) (Some index).
Definition note_throttled (index : nat) (t : TenureSource) : TenureSource :=
  mkSource (ts_peers t) (ts_next t) ({[index]} ∪ ts_throttled t) (ts_failed t) (ts_served t) (ts_last_served t).
Definition note_failed (index : nat) (t : TenureSource) : TenureSource :=
  mkSource (ts_peers t) (ts_next t) (ts_throttled t) ({[index]} ∪ ts_failed t) (ts_served t) (ts_last_served t).

(** What an error says of the peer at [index]. *)
Definition note_error (index : nat) (e : SyncError.t) (t : TenureSource) : TenureSource :=
  if SyncError.is_rate_limited e then note_throttled index t else if SyncError.is_unreachable e then note_failed index t else t.

(** The loop over the offsets; [lasterr] is the last error. *)
Fixpoint spread_loop {A} (offsets : list nat) (start : nat) (ask : SyncClient -> M A) (lasterr : option SyncError.t) : T A := fun s =>
  match offsets with
  | [] => Some (Err (default (nobody_left s.1) lasterr), s)
  | offset :: offsets =>
      let index := ((start + offset) mod length (ts_peers s.1))%nat in
      if bool_decide (index ∈ ts_throttled s.1) || bool_decide (index ∈ ts_failed s.1) then spread_loop offsets start ask lasterr s else
      match ts_peers s.1 !! index with
      | None => spread_loop offsets start ask lasterr s
      | Some peer =>
          match ask peer s.2 with
          | None => None
          | Some (Ok answer, w) => Some (Ok answer, (note_served index s.1, w))
          | Some (Err e, w) => spread_loop offsets start ask (Some e) (note_error index e s.1, w)
          end
      end
  end.

(** [iter().position(..)]. *)
Fixpoint position_of_url (url : HttpUrl) (peers : list SyncClient) : option nat :=
  match peers with [] => None | peer :: peers => if bool_decide (sc_base_url peer = url) then Some 0%nat else S <$> position_of_url url peers end.

Definition spread_from {A} (first : option (list byte)) (ask : SyncClient -> M A) : T A := fun s =>
  let start := default (ts_next s.1) (endpoint ← first; url ← url_parse endpoint; position_of_url url (ts_peers s.1)) in
  spread_loop (seq 0 (length (ts_peers s.1))) start ask None s.

Definition spread {A} (ask : SyncClient -> M A) : T A := spread_from None ask.

Definition blocks_of_tenure (tip : StacksBlockId) : T (list NakamotoBlock) := spread (fun peer => SyncClient.blocks_of_tenure peer tip).
Definition tenure_at (from : option (list byte)) (consensus_hash : ConsensusHash) : T (list NakamotoBlock) := spread_from from (fun peer => SyncClient.tenure_at peer consensus_hash).
Definition block (id : StacksBlockId) : T NakamotoBlock := spread (fun peer => SyncClient.block peer id).

Definition sortition (view : ConsensusHash) : T SortitionInfo :=
  sortition ← spread (fun peer => SyncClient.sortition peer view);
  if negb (bool_decide (si_consensus_hash sortition = view)) then throw (SyncError.UnexpectedSortition view (si_consensus_hash sortition)) else mret sortition.

Definition sortition_at_height (height : Z) : T SortitionInfo := spread (fun peer => SyncClient.sortition_at_height peer height).

Definition previous_sortition_height (bitcoin_height : Z) : T (option Z) :=
  match checked_sub bitcoin_height 1 with
  | None => mret None
  | Some parent_height =>
      parent ← sortition_at_height parent_height;
      if (si_was_sortition parent : bool) then mret (Some (si_bitcoin_height parent)) else
      match si_last_sortition_consensus_hash parent with
      | Some consensus_hash => sortition ← sortition consensus_hash; mret (Some (si_bitcoin_height sortition))
      | None => mret None
      end
  end.

Definition accumulated_coinbase (block : NakamotoBlock) (schedule : option CoinbaseSchedule) (bitcoin_height : Z) : T (option Z) :=
  match schedule with
  | Some schedule =>
      if starts_new_tenure block then previous ← previous_sortition_height bitcoin_height; mret (Some (accumulated_at schedule bitcoin_height previous)) else mret None
  | None => mret None
  end.

Definition tenure_coinbase_context (block : NakamotoBlock) (schedule : option CoinbaseSchedule) (context : BitcoinBlockContext) : T BitcoinBlockContext :=
  accumulated ← accumulated_coinbase block schedule (cx_height context);
  mret (match accumulated with Some accumulated => BitcoinBlockContext.set_accumulated accumulated context | None => context end).

Definition tenure_info : T TenureInfo := spread SyncClient.tenure_info.
Definition stacker_set (cycle : Z) : T StackerSet := spread (fun peer => SyncClient.stacker_set peer cycle).

(** The same of one client, through a pool of one. *)
Definition alone {A} (m : T A) (peer : SyncClient) : M A := fun s =>
  match m (only peer, s) with Some (r, (_, s)) => Some (r, s) | None => None end.

End Ops.
End TenureSource.

(** ** The pool that tips are chosen from *)

Record PeerPool `{HttpStack} : Type := mkPool { pp_peers : list SyncClient; pp_distrusted : gset nat }.
Arguments mkPool {_} _ _.

Module PeerPool.
Section Ops.
Context `{HS : Hashes} `{SE : Secp256k1} `{ED : Edwards} `{LC : LruCrate} `{HT : HttpStack} `{JR : JsonReader} `{AT : AddressText}.
Abbreviation M := (Eff SyncState SyncError.t).

Definition new (peers : list SyncClient) : PeerPool := mkPool peers ∅.
Definition trusted (p : PeerPool) : list (nat * SyncClient) := List.filter (fun entry => negb (bool_decide (entry.1 ∈ pp_distrusted p))) (imap pair (pp_peers p)).
Definition distrust (peer : nat) (p : PeerPool) : PeerPool := mkPool (pp_peers p) ({[peer]} ∪ pp_distrusted p).
Definition is_trusted (peer : nat) (p : PeerPool) : bool := negb (bool_decide (peer ∈ pp_distrusted p)) && (peer <? length (pp_peers p))%nat.
Definition peer (index : nat) (p : PeerPool) : option SyncClient := pp_peers p !! index.
Definition endpoints (p : PeerPool) : list (list byte) := map (fun peer => url_text (sc_base_url peer)) (pp_peers p).

(** The URLs seen for the first time. *)
Fixpoint unseen (seen urls : list HttpUrl) : list HttpUrl :=
  match urls with [] => [] | url :: urls => if bool_decide (url ∈ seen) then unseen seen urls else url :: unseen (url :: seen) urls end.

Definition from_endpoints (names : list (list byte)) : PeerPool :=
  new (omap (fun url => match SyncClient.new url with Ok client => Some client | Err _ => None end) (unseen [] (omap url_parse names))).

Fixpoint tips_of (clients : list (nat * SyncClient)) : M (list CandidateTip) :=
  match clients with
  | [] => mret []
  | (index, client) :: clients =>
      offered ← attempt (info ← SyncClient.tenure_info client; tip ← SyncClient.block client (ti_tip_block_id info); mret (mkTip index info (bl_header tip)));
      rest ← tips_of clients;
      mret (option_list offered ++ rest)
  end.

Definition candidate_tips (p : PeerPool) : M (list CandidateTip) := tips_of (trusted p).

Definition choose_source (p : PeerPool) (signers : option SignerWeights.t) (burn : option BurnView) : M (option (nat * SyncClient)) :=
  candidates ← candidate_tips p;
  chosen ← unwrap (choose_canonical_tip candidates signers burn);
  mret (tip ← chosen; client ← peer (ct_peer tip) p; Some (ct_peer tip, client)).

End Ops.
End PeerPool.

(** ** The follower of one peer *)

#[global] Instance NakamotoBlock_eq_dec : EqDecision NakamotoBlock. Proof. solve_decision. Defined.

Record FollowedTenure : Type := mkFollowed { fo_info : TenureInfo; fo_sortition : SortitionInfo; fo_blocks : list NakamotoBlock; fo_wire_bytes : Z }.

Definition FOLLOWED_TENURE_HISTORY_ITEMS : Z := 16.
Definition FOLLOWED_TENURE_HISTORY_BYTES : Z := 10 * MAX_TENURE_RESPONSE_BYTES.

Record TenureFollower `{HttpStack} : Type := mkFollower { tf_client : SyncClient; tf_latest : option TenureInfo; tf_history : list FollowedTenure; tf_history_bytes : Z }.
Arguments mkFollower {_} _ _ _ _.

Module TenureFollower.
Section Ops.
Context `{HS : Hashes} `{SE : Secp256k1} `{ED : Edwards} `{LC : LruCrate} `{HT : HttpStack} `{JR : JsonReader} `{AT : AddressText}.
Abbreviation M := (Eff SyncState SyncError.t).
Abbreviation F := (Eff (TenureFollower * SyncState) SyncError.t).

(** A method of the client. *)
Definition remote {A} (m : SyncClient -> M A) : F A := fun s => match m (tf_client s.1) s.2 with Some (r, w) => Some (r, (s.1, w)) | None => None end.

Definition add_tenure_wire_bytes (total bytes : Z) : result SyncError.t Z :=
  if saturating_sub MAX_TENURE_RESPONSE_BYTES total <? bytes then Err (SyncError.ResponseTooLarge MAX_TENURE_RESPONSE_BYTES) else Ok (total + bytes).

Fixpoint sum_wire_bytes (blocks : list NakamotoBlock) (total : Z) : option (result SyncError.t Z) :=
  match blocks with
  | [] => Some (Ok total)
  | block :: blocks =>
      encoded ← encode_block block;
      match add_tenure_wire_bytes total (len encoded) with Ok total => sum_wire_bytes blocks total | Err e => Some (Err e) end
  end.

Definition tenure_wire_bytes (blocks : list NakamotoBlock) : option (result SyncError.t Z) := sum_wire_bytes blocks 0.

(** [FollowedTenure::new]. *)
Definition followed_tenure (info : TenureInfo) (sortition : SortitionInfo) (blocks : list NakamotoBlock) : F FollowedTenure :=
  wire_bytes ← settled (tenure_wire_bytes blocks); mret (mkFollowed info sortition blocks wire_bytes).

Definition new (client : SyncClient) : TenureFollower := mkFollower client None [] 0.

(** The block the next tenure has to extend. *)
Definition held_tip (latest : TenureInfo) (t : TenureFollower) : option StacksBlockId :=
  match previous ← last (tf_history t); last (fo_blocks previous) with Some block => block_id block | None => Some (ti_tip_block_id latest) end.

(** The blocks, behind those between them and [held] where these can be fetched. *)
Definition bridge_gap (blocks : list NakamotoBlock) (held : StacksBlockId) : F (list NakamotoBlock) :=
  match blocks with
  | [] => mret blocks
  | first :: _ =>
      if bool_decide (hd_parent_block_id (bl_header first) = held) then mret blocks else
      id ← unwrap (block_id first);
      bridge ← attempt (remote (fun client => SyncClient.walk_back client [] id held BRIDGE_WALK));
      mret (match bridge with Some bridge => bridge ++ blocks | None => blocks end)
  end.

(** The loop that drops the oldest tenures. [None] is a subtraction below zero. *)
Fixpoint make_room (history : list FollowedTenure) (bytes wire_bytes : Z) : option (list FollowedTenure * Z) :=
  match history with
  | [] => Some ([], bytes)
  | oldest :: rest =>
      if (FOLLOWED_TENURE_HISTORY_ITEMS <=? len history) || (saturating_sub FOLLOWED_TENURE_HISTORY_BYTES bytes <? wire_bytes) then
        bytes ← checked_sub bytes (fo_wire_bytes oldest); make_room rest bytes wire_bytes
      else Some (history, bytes)
  end.

(** [pop_if]: the history without its last tenure where that has this start, and the bytes. *)
Definition pop_same_start (start : StacksBlockId) (history : list FollowedTenure) (bytes : Z) : option (list FollowedTenure * Z) :=
  match last history with
  | Some latest =>
      if bool_decide (ti_tenure_start_block_id (fo_info latest) = start) then bytes ← checked_sub bytes (fo_wire_bytes latest); Some (removelast history, bytes) else Some (history, bytes)
  | None => Some (history, bytes)
  end.

Definition record (followed : FollowedTenure) (t : TenureFollower) : option TenureFollower :=
  popped ← pop_same_start (ti_tenure_start_block_id (fo_info followed)) (tf_history t) (tf_history_bytes t);
  room ← make_room popped.1 popped.2 (fo_wire_bytes followed);
  bytes ← checked_add USIZE_MAX room.2 (fo_wire_bytes followed);
  Some (mkFollower (tf_client t) (Some (fo_info followed)) (room.1 ++ [followed]) bytes).

Definition recorded (followed : FollowedTenure) : F unit := fun s => t ← record followed s.1; Some (Ok tt, (t, s.2)).

(** Whether each block is a successor of the one before it. *)
Fixpoint all_successors (pairs : list (NakamotoBlock * NakamotoBlock)) : option bool :=
  match pairs with
  | [] => Some true
  | (parent, block) :: pairs => checked ← validate_successor block (bl_header parent); match checked with Ok _ => all_successors pairs | Err _ => Some false end
  end.

Definition chosen_sortition (blocks : list NakamotoBlock) : F SortitionInfo :=
  last ← try_with id (or_err (last blocks) SyncError.EmptyTenure);
  sortition ← remote (fun client => SyncClient.sortition client (hd_consensus_hash (bl_header last)));
  if negb (si_was_sortition sortition) then throw SyncError.InvalidSortition else mret sortition.

(** What the ends of [extend_held_tenure] and [poll] share. *)
Definition follow (info : TenureInfo) (blocks : list NakamotoBlock) : F FollowedTenure :=
  sortition ← chosen_sortition blocks;
  followed ← followed_tenure info sortition blocks;
  _ ← recorded followed;
  mret followed.

Definition extend_held_tenure (info : TenureInfo) : F (option FollowedTenure) :=
  previous ← ask (fun s => last (tf_history s.1));
  previous ← try_with id (or_err previous SyncError.Fork);
  let held := length (fo_blocks previous) in
  extended ← attempt (remote (fun client => SyncClient.extend_to_tenure_tip client (fo_blocks previous) (ti_tip_block_id info)));
  match extended with
  | None => mret None
  | Some blocks =>
      linked ← unwrap (all_successors (drop (held - 1) (zip blocks (drop 1 blocks))));
      if negb linked then mret None else followed ← follow info blocks; mret (Some followed)
  end.

(** [<[T]>::starts_with]. *)
Definition starts_with (prefix blocks : list NakamotoBlock) : bool := bool_decide (take (length prefix) blocks = prefix).

(** The peer's tip, where the blocks stop short of it and it succeeds the last of them. *)
Definition append_tip (info : TenureInfo) (blocks : list NakamotoBlock) : F (list NakamotoBlock) :=
  id ← match last blocks with None => mret None | Some block => id ← unwrap (block_id block); mret (Some id) end;
  if bool_decide (id = Some (ti_tip_block_id info)) then mret blocks else
  tip ← remote (fun client => SyncClient.block client (ti_tip_block_id info));
  parent ← try_with (fun e => e) (or_err (last blocks) SyncError.EmptyTenure);
  checked ← unwrap (validate_successor tip (bl_header parent));
  mret (match checked with Ok _ => blocks ++ [tip] | Err _ => blocks end).

(** The blocks against the tenure held: of the same tenure the longer of the two, of another
    one those that extend it. *)
Definition continue_history (latest info : TenureInfo) (blocks : list NakamotoBlock) : F (list NakamotoBlock) :=
  _ ← try_with id (validate_tenure_transition latest info);
  if bool_decide (ti_tenure_start_block_id latest = ti_tenure_start_block_id info) then
    previous ← ask (fun s => last (tf_history s.1));
    previous ← try_with id (or_err previous SyncError.Fork);
    if negb (starts_with (fo_blocks previous) blocks) && negb (starts_with blocks (fo_blocks previous)) then throw SyncError.Fork else
    mret (if (length blocks <? length (fo_blocks previous))%nat then fo_blocks previous else blocks)
  else
    held ← ask (fun s => held_tip latest s.1);
    held ← unwrap held;
    blocks ← bridge_gap blocks held;
    if match blocks with first :: _ => negb (bool_decide (hd_parent_block_id (bl_header first) = held)) | [] => true end then throw SyncError.Fork else mret blocks.

(** The rounds of [poll]. *)
Fixpoint poll_rounds (rounds : nat) : F (option FollowedTenure) :=
  match rounds with
  | O => throw SyncError.UnstableTip
  | S rounds =>
      requested ← remote SyncClient.tenure_info;
      latest ← ask (fun s => tf_latest s.1);
      if match latest with Some latest => bool_decide (ti_tip_block_id latest = ti_tip_block_id requested) | None => false end then mret None else
      carried ← (if match latest with Some latest => bool_decide (ti_tenure_start_block_id latest = ti_tenure_start_block_id requested) | None => false end
                 then extend_held_tenure requested else mret None);
      match carried with
      | Some followed => mret (Some followed)
      | None =>
          blocks ← remote (fun client => SyncClient.tenure client (ti_tenure_start_block_id requested) None);
          info ← remote SyncClient.tenure_info;
          if negb (bool_decide (ti_tenure_start_block_id info = ti_tenure_start_block_id requested)) then poll_rounds rounds else
          extended ← attempt (remote (fun client => SyncClient.extend_to_tenure_tip client blocks (ti_tip_block_id info)));
          blocks ← append_tip info (default blocks extended);
          blocks ← match latest with Some latest => continue_history latest info blocks | None => mret blocks end;
          followed ← follow info blocks;
          mret (Some followed)
      end
  end.

Definition poll : F (option FollowedTenure) := poll_rounds 3.

End Ops.
End TenureFollower.

(** ** The node that follows a peer *)

Record Node `{HttpStack} : Type := mkNode { no_client : SyncClient; no_follower : TenureFollower; no_peer_info : option NodeInfo; no_pox_info : option PoxInfo }.
Arguments mkNode {_} _ _ _ _.

Record NodeView : Type := mkNodeView { vw_node_info : NodeInfo; vw_pox_info : PoxInfo; vw_tenures : list FollowedTenure }.

Module Node.
Section Ops.
Context `{HS : Hashes} `{SE : Secp256k1} `{ED : Edwards} `{LC : LruCrate} `{HT : HttpStack} `{JR : JsonReader} `{AT : AddressText}.
Abbreviation N := (Eff (Node * SyncState) SyncError.t).

Definition new (client : SyncClient) : Node := mkNode client (TenureFollower.new client) None None.
Definition latest_tenure (n : Node) : option TenureInfo := tf_latest (no_follower n).
Definition tenures (n : Node) : list FollowedTenure := tf_history (no_follower n).

Definition view (n : Node) : option NodeView := info ← no_peer_info n; pox ← no_pox_info n; Some (mkNodeView info pox (tenures n)).

Definition followed : N (option FollowedTenure) :=
  zoom (fun s => (no_follower s.1, s.2)) (fun p s => (mkNode (no_client s.1) p.1 (no_peer_info s.1) (no_pox_info s.1), p.2)) id TenureFollower.poll.

Definition learned {A} (m : SyncClient -> Eff SyncState SyncError.t A) (keep : A -> Node -> Node) : N unit := fun s =>
  match m (no_client s.1) s.2 with Some (Ok x, w) => Some (Ok tt, (keep x s.1, w)) | Some (Err e, w) => Some (Err e, (s.1, w)) | None => None end.

Definition poll : N (option FollowedTenure) :=
  followed ← followed;
  _ ← learned SyncClient.node_info (fun info n => mkNode (no_client n) (no_follower n) (Some info) (no_pox_info n));
  _ ← learned SyncClient.pox_info (fun pox n => mkNode (no_client n) (no_follower n) (no_peer_info n) (Some pox));
  mret followed.

End Ops.
End Node.
