(* ===== verification/SyncTheorems.v ===== *)
(** * What following peers promises

    The caches of the process stay within their limits and hold what was asked for; a block
    or a walk fetched from strangers is the one named; a request goes once to each peer that
    is not set aside; the tip chosen is the greatest of those not refused; and the history
    of a follower is a chain within its limits. *)

From stdpp Require Import gmap sorting.
From S2P Require Import Prelude Primitives Address CodecIO Crypto TxData TxCodec TxAuth Nakamoto Signers Mempool.
From S2P Require Import MarfVersions Effects EmbeddedSigner ProposalExecution SignerService TenureRewards SyncClient Sync.

(** ** The caches *)

Section Caches.
Context `{LC : LruCrate} `{LO : !LruCrateOk} {K V : Type} `{!EqDecision K}.
Abbreviation cache := (ByteCache.t K V).

Definition held (c : cache) : list (K * (V * Z)) := lru_entries (ByteCache.entries c).
Definition weight (l : list (K * (V * Z))) : Z := foldr (fun e w => e.2.2 + w) 0 l.

Record cache_ok (c : cache) : Prop := {
  co_keys : NoDup (held c).*1;
  co_sizes : Forall (fun e => 0 <= e.2.2) (held c);
  co_bytes : ByteCache.bytes c = weight (held c);
  co_limit : weight (held c) <= ByteCache.byte_limit c <= USIZE_MAX;
  co_cap : len (held c) <= lru_cap (ByteCache.entries c);
  co_room : 0 < lru_cap (ByteCache.entries c);
}.

Lemma weight_app l l' : weight (l ++ l') = weight l + weight l'.
Proof. induction l as [|e l IH]; cbn; [done|]. unfold weight in *. cbn in *. lia. Qed.

Lemma weight_cons e l : weight (e :: l) = e.2.2 + weight l.
Proof. done. Qed.

Lemma weight_nonneg l : Forall (fun e => 0 <= e.2.2) l -> 0 <= weight l.
Proof. induction 1; cbn; [lia|]. unfold weight in *. cbn in *. lia. Qed.

Lemma new_cache_ok items limit : 0 < items -> 0 <= limit <= USIZE_MAX -> exists c : cache, ByteCache.new items limit = Some c /\ cache_ok c /\ held c = [].
Proof.
  intros Hi Hl. unfold ByteCache.new. rewrite (proj2 (Z.eqb_neq items 0)) by lia. eexists. split; [done|]. destruct (lru_new_ok K (V * Z) items Hi) as [He Hc].
  unfold held. cbn. rewrite He. split; [|done]. split; unfold held; cbn; rewrite ?He, ?Hc; cbn; try lia; constructor.
Qed.

Lemma get_cache_ok k (c : cache) : cache_ok c -> cache_ok (ByteCache.get k c).2 /\ (forall e, e ∈ held (ByteCache.get k c).2 <-> e ∈ held c) /\
  match (ByteCache.get k c).1 with Some v => exists size, (k, (v, size)) ∈ held c | None => k ∉ (held c).*1 end.
Proof.
  intros [H1 H2 H3 H4 H5 H6]. unfold ByteCache.get. pose proof (lru_get_ok k (ByteCache.entries c)) as Hg. destruct (lru_get k (ByteCache.entries c)) as [[[v size]|] entries] eqn:E; cbn [fst snd fmap option_fmap option_map].
  - destruct Hg as (Hcap & before & after & He & He'). unfold held in *. rewrite He in *. assert (Hp : (k, (v, size)) :: before ++ after ≡ₚ before ++ (k, (v, size)) :: after) by (by rewrite Permutation_middle).
    assert (Hw : weight (lru_entries entries) = weight (lru_entries (ByteCache.entries c))) by (rewrite He', He, weight_app; unfold weight; cbn; fold (weight (before ++ after)); rewrite weight_app; unfold weight; cbn; lia).
    rewrite He in Hw. split; [|split].
    + split; cbn; unfold held; cbn; rewrite ?Hw, ?Hcap; try done; rewrite He', Hp; done.
    + intros e. cbn. by rewrite He', Hp.
    + exists size. rewrite elem_of_app, elem_of_cons. auto.
  - destruct Hg as (Hcap & Hk & He'). unfold held in *. split; [|split].
    + split; cbn; unfold held; cbn; rewrite ?He', ?Hcap; done.
    + intros e. cbn. by rewrite He'.
    + done.
Qed.

Lemma get_cache_limits k (c : cache) : ByteCache.byte_limit (ByteCache.get k c).2 = ByteCache.byte_limit c /\ lru_cap (ByteCache.entries (ByteCache.get k c).2) = lru_cap (ByteCache.entries c).
Proof. unfold ByteCache.get. pose proof (lru_get_ok k (ByteCache.entries c)) as Hg. destruct (lru_get _ _) as [o l]. cbn. by destruct Hg. Qed.

(** The entries an insertion leaves room for. *)
Definition fits (c : cache) (size : Z) (l : list (K * (V * Z))) : Prop := len l < lru_cap (ByteCache.entries c) /\ size + weight l <= ByteCache.byte_limit c.

Lemma evict_ok size fuel (c : cache) : cache_ok c -> size <= ByteCache.byte_limit c -> len (held c) < Z.of_nat fuel ->
  exists n c', ByteCache.evict fuel size c = Some c' /\ cache_ok c' /\ held c' = take n (held c) /\ (n <= length (held c))%nat /\ lru_cap (ByteCache.entries c') = lru_cap (ByteCache.entries c) /\
    ByteCache.byte_limit c' = ByteCache.byte_limit c /\ fits c size (take n (held c)) /\ forall m, (n < m <= length (held c))%nat -> ~ fits c size (take m (held c)).
Proof.
  intros Hc Hs. revert c Hc Hs. induction fuel as [|fuel IH]; [lia|]. intros c Hc Hs Hf. cbn [ByteCache.evict]. pose proof Hc as [H1 H2 H3 H4 H5 H6]. rewrite lru_len_ok. fold (held c).
  assert (Hfree : checked_sub (ByteCache.byte_limit c) (ByteCache.bytes c) = Some (ByteCache.byte_limit c - weight (held c))) by (unfold checked_sub; rewrite H3; destruct (Z.leb_spec (weight (held c)) (ByteCache.byte_limit c)); [done|lia]).
  set (full := if len (held c) =? lru_cap (ByteCache.entries c) then Some true else free ← checked_sub (ByteCache.byte_limit c) (ByteCache.bytes c); Some (free <? size)).
  assert (full = Some (bool_decide (~ fits c size (held c)))) as ->.
  { unfold full, fits. rewrite Hfree. cbn. destruct (Z.eqb_spec (len (held c)) (lru_cap (ByteCache.entries c))); [rewrite bool_decide_eq_true_2; [done|lia]|].
    f_equal. destruct (Z.ltb_spec (ByteCache.byte_limit c - weight (held c)) size); symmetry; [apply bool_decide_eq_true_2; lia|apply bool_decide_eq_false_2; intros Hn; apply Hn; lia]. }
  cbn [mbind option_bind]. case_bool_decide as Hfits; cbn [negb].
  - pose proof (lru_pop_lru_ok (ByteCache.entries c)) as Hp. destruct (lru_pop_lru (ByteCache.entries c)) as [[[k [v evicted]]|] entries].
    + destruct Hp as [Hcap He]. fold (held c) in He. assert (Hw : weight (held c) = weight (lru_entries entries) + evicted) by (rewrite He, weight_app; unfold weight; cbn; lia).
      rewrite He in H1, H2. rewrite fmap_app, NoDup_app in H1. apply Forall_app in H2 as [H2 H2']. apply Forall_cons in H2' as [H2' _]. cbn in H2'. pose proof (weight_nonneg _ H2) as Hnn.
      assert (checked_sub (ByteCache.bytes c) evicted = Some (weight (lru_entries entries))) as -> by (unfold checked_sub; rewrite H3, Hw; destruct (Z.leb_spec evicted (weight (lru_entries entries) + evicted)); [f_equal; lia|lia]).
      cbn [mbind option_bind]. set (c1 := ByteCache.mk entries _ _). assert (Hlen : length (held c) = S (length (held c1))) by (change (held c1) with (lru_entries entries); rewrite He, length_app; cbn; lia).
      assert (Hc1 : cache_ok c1) by (split; unfold held; cbn; [tauto|done|done|lia|change (lru_entries entries) with (held c1); lia|lia]).
      destruct (IH c1 Hc1) as (n & c' & A1 & A2 & A3 & A4 & A5 & A6 & A7 & A8); [cbn; lia|lia|]. exists n, c'. cbn in A5, A6.
      assert (Ht : forall m, (m <= length (held c1))%nat -> take m (held c) = take m (held c1)) by (intros m Hm; rewrite He; by rewrite take_app_le).
      assert (Hfit : forall l, fits c1 size l <-> fits c size l) by (intros l; unfold fits; cbn; by rewrite Hcap).
      rewrite Ht by done. split_and!; [done|done|done|lia|congruence|done|by apply Hfit|].
      intros m [Hm1 Hm2]. destruct (decide (m = length (held c))) as [->|]; [by rewrite firstn_all|]. rewrite Ht, <- Hfit by lia. apply A8. lia.
    + destruct Hp as (Hcap & He & _). fold (held c) in He. exfalso. apply Hfits. unfold fits. rewrite He. cbn. lia.
  - exists (length (held c)), c. split_and!; [done|done|by rewrite firstn_all|lia|done|done| |intros m Hm; lia].
    rewrite firstn_all. unfold fits in *. lia.
Qed.

Definition others (k : K) (c : cache) : list (K * (V * Z)) := List.filter (fun e => negb (bool_decide (e.1 = k))) (held c).

Lemma filter_absent k (l : list (K * (V * Z))) : k ∉ l.*1 -> List.filter (fun e => negb (bool_decide (e.1 = k))) l = l.
Proof.
  induction l as [|[k' e] l IH]; [done|]. cbn. intros [Hk Hl]%not_elem_of_cons. rewrite bool_decide_eq_false_2 by congruence. cbn. by rewrite IH.
Qed.

(** The cache without the entry of a key. *)
Lemma pop_cache_ok k (c : cache) : cache_ok c ->
  exists c1, ByteCache.displace k c = Some c1 /\
    cache_ok c1 /\ held c1 = others k c /\ k ∉ (held c1).*1 /\ lru_cap (ByteCache.entries c1) = lru_cap (ByteCache.entries c) /\ ByteCache.byte_limit c1 = ByteCache.byte_limit c.
Proof.
  intros [H1 H2 H3 H4 H5 H6]. unfold others, ByteCache.displace. pose proof (lru_pop_ok k (ByteCache.entries c)) as Hp. destruct (lru_pop k (ByteCache.entries c)) as [[[v previous]|] entries].
  - destruct Hp as (Hcap & before & after & He & He'). fold (held c) in He. rewrite He in *. rewrite fmap_app, fmap_cons in H1. cbn [fst] in H1.
    apply NoDup_app in H1 as (Hb & Hba & Ha%NoDup_cons). destruct Ha as [Hka Ha]. apply Forall_app in H2 as [H2 H2']. apply Forall_cons in H2' as [H2' H2'']. cbn in H2'.
    pose proof (weight_nonneg _ H2). pose proof (weight_nonneg _ H2''). assert (Hw : weight (before ++ (k, (v, previous)) :: after) = weight (before ++ after) + previous) by (rewrite !weight_app; unfold weight; cbn; lia).
    pose proof (weight_app before after) as Hwa. rewrite length_app in H5. cbn in H5. rewrite H3. unfold checked_sub. rewrite Hw. destruct (Z.leb_spec previous (weight (before ++ after) + previous)); [|lia]. cbn.
    assert (Hkb : k ∉ before.*1) by (intros Hk; apply (Hba k Hk); left). eexists. split; [done|]. unfold held. cbn. rewrite He'. rewrite List.filter_app. cbn. rewrite bool_decide_eq_true_2 by done. cbn. rewrite !filter_absent by done.
    split; [|split_and!; [done| |done|done]]; [|rewrite fmap_app, elem_of_app; tauto].
    split; unfold held; cbn; rewrite ?He', ?Hcap, ?length_app, ?weight_app; [|by apply Forall_app|lia|lia|lia|done].
    rewrite fmap_app. apply NoDup_app. split_and!; [done| |done]. intros x Hx Hxa. apply (Hba x Hx). by right.
  - destruct Hp as (Hcap & Hk & He'). fold (held c) in Hk, He'. eexists. split; [done|]. unfold held. cbn. fold (held c). rewrite filter_absent by done. rewrite He'. split_and!; try done. split; unfold held; cbn; by rewrite ?He', ?Hcap.
Qed.

(** What an insertion leaves: the value first, then the most recently used entries under
    other keys that fit beside it. *)
Lemma insert_cache_spec k v size (c : cache) : cache_ok c -> 0 <= size ->
  exists inserted c', ByteCache.insert k v size c = Some (inserted, c') /\ cache_ok c' /\ ByteCache.byte_limit c' = ByteCache.byte_limit c /\ lru_cap (ByteCache.entries c') = lru_cap (ByteCache.entries c) /\
    if inserted then size <= ByteCache.byte_limit c /\ exists n, held c' = (k, (v, size)) :: take n (others k c) /\ (n <= length (others k c))%nat /\
      forall m, (n < m <= length (others k c))%nat -> ~ fits c size (take m (others k c))
    else ByteCache.byte_limit c < size /\ c' = c.
Proof.
  intros Hc Hsize. unfold ByteCache.insert. destruct (Z.ltb_spec (ByteCache.byte_limit c) size) as [Hl|Hl]; [by exists false, c|].
  destruct (pop_cache_ok k c Hc) as (c1 & -> & Hc1 & He1 & Hk & Hcap1 & Hlim1). cbn [mbind option_bind].
  destruct (evict_ok size (S (Z.to_nat (lru_len (ByteCache.entries c1)))) c1 Hc1) as (n & c2 & -> & Hc2 & He2 & Hn & Hcap2 & Hlim2 & [Hroom Hw] & Hmax);
    [lia|rewrite lru_len_ok; fold (held c1); lia|]. cbn [mbind option_bind]. rewrite <- He2 in Hroom, Hw. destruct Hc2 as [A1 A2 A3 A4 A5 A6]. pose proof (weight_nonneg _ A2).
  unfold checked_add. rewrite A3. destruct (Z.leb_spec (weight (held c2) + size) USIZE_MAX); [|lia]. cbn.
  assert (Hk2 : k ∉ (held c2).*1) by (rewrite He2; intros Hin; apply Hk; rewrite <- (take_drop n (held c1)), fmap_app, elem_of_app; by left).
  destruct (lru_put_ok k (v, size) (ByteCache.entries c2)) as [He3 Hcap3]; [done|fold (held c2); lia|]. fold (held c2) in He3.
  exists true. eexists. split; [done|]. cbn. split_and!; [|congruence|congruence|lia|].
  - split; unfold held; cbn; rewrite ?He3, ?Hcap3, ?weight_cons; cbn -[weight]; try fold (held c2); [by constructor|by constructor|lia|lia|lia|lia].
  - exists n. rewrite <- He1. split_and!; [unfold held at 1; cbn; by rewrite He3, He2|done|]. intros m Hm. specialize (Hmax m Hm). unfold fits in *. by rewrite <- Hcap1, <- Hlim1.
Qed.

End Caches.

(** ** The state of the process *)

Section Process.
Context `{HS : Hashes} `{SE : Secp256k1} `{ED : Edwards} `{LC : LruCrate} `{LO : !LruCrateOk} `{HT : HttpStack} `{JR : JsonReader} `{AT : AddressText}.

(** The caches are within their limits and hold what is asked for under each key. *)
Record sync_ok (s : SyncState) : Prop := {
  so_blocks : cache_ok (sy_blocks s);
  so_sortitions : cache_ok (sy_sortitions s);
  so_block_limits : ByteCache.byte_limit (sy_blocks s) = PEER_BLOCK_CACHE_BYTES /\ lru_cap (ByteCache.entries (sy_blocks s)) = PEER_BLOCK_CACHE_ITEMS;
  so_sortition_limits : ByteCache.byte_limit (sy_sortitions s) = PEER_SORTITION_CACHE_BYTES /\ lru_cap (ByteCache.entries (sy_sortitions s)) = PEER_SORTITION_CACHE_ITEMS;
  so_named : forall e, e ∈ held (sy_blocks s) -> block_id e.2.1 = Some e.1.2;
  so_view : forall e, e ∈ held (sy_sortitions s) -> si_consensus_hash e.2.1 = e.1.2;
}.

Lemma sync_start_ok i : exists s, sync_start i = Some s /\ sync_ok s /\ sy_internet s = i.
Proof.
  unfold sync_start. destruct (new_cache_ok (K := HttpUrl * StacksBlockId) (V := NakamotoBlock) PEER_BLOCK_CACHE_ITEMS PEER_BLOCK_CACHE_BYTES) as (c1 & E1 & H1 & L1); [done|done|].
  destruct (new_cache_ok (K := HttpUrl * ConsensusHash) (V := SortitionInfo) PEER_SORTITION_CACHE_ITEMS PEER_SORTITION_CACHE_BYTES) as (c2 & E2 & H2 & L2); [done|done|].
  rewrite E1, E2. cbn. eexists. split; [done|]. split; [|done]. unfold ByteCache.new in E1, E2. cbn in E1, E2. injection E1 as <-. injection E2 as <-.
  pose proof (lru_new_ok (HttpUrl * StacksBlockId) (NakamotoBlock * Z) PEER_BLOCK_CACHE_ITEMS) as [_ Hc1]; [done|].
  pose proof (lru_new_ok (HttpUrl * ConsensusHash) (SortitionInfo * Z) PEER_SORTITION_CACHE_ITEMS) as [_ Hc2]; [done|].
  split; cbn; try done; intros e; [rewrite L1|rewrite L2]; by intros ?%elem_of_nil.
Qed.

Lemma internet_ok i s : sync_ok s -> sync_ok (with_internet i s).
Proof. by intros []. Qed.

Lemma counted_ok started s : sync_ok s -> sync_ok (count_request started s).
Proof. by intros []. Qed.

Abbreviation M := (Eff SyncState SyncError.t).

Lemma keeps_ret {A} (x : A) : keeps sync_ok (mret x : M A).
Proof. by intros s r s' Hs [= _ <-]. Qed.

Lemma keeps_throw {A} (e : SyncError.t) : keeps sync_ok (throw e : M A).
Proof. by intros s r s' Hs [= _ <-]. Qed.

Lemma keeps_unwrap {A} (o : option A) : keeps sync_ok (unwrap o : M A).
Proof. apply keeps_same, unwrap_same. Qed.

Lemma keeps_try {F A} (f : F -> SyncError.t) (r : result F A) : keeps sync_ok (try_with f r : M A).
Proof. apply keeps_same, try_with_same. Qed.

Lemma keeps_settled {A} (o : option (result SyncError.t A)) : keeps sync_ok (settled o : M A).
Proof. intros s r s' Hs. unfold settled. destruct o; [|done]. by intros [= _ <-]. Qed.

Lemma keeps_attempt {A} (m : M A) : keeps sync_ok m -> keeps sync_ok (attempt m : M (option A)).
Proof. intros Hm s r s' Hs. unfold attempt. destruct (m s) as [[[x|e] s1]|] eqn:E; [| |done]; intros [= <- <-]; by eapply Hm. Qed.

Lemma keeps_transposed {A B} (f : A -> M B) o : (forall x, keeps sync_ok (f x)) -> keeps sync_ok (transposed f o).
Proof. intros Hf. destruct o; cbn; [apply keeps_bind; [apply Hf|intros; apply keeps_ret]|apply keeps_ret]. Qed.

Lemma keeps_collected {A B} (f : A -> M B) l : (forall x, keeps sync_ok (f x)) -> keeps sync_ok (collected f l).
Proof. intros Hf. induction l as [|x l IH]; cbn; [apply keeps_ret|]. repeat (apply keeps_bind; [by apply Hf || apply IH|intros]). apply keeps_ret. Qed.

Lemma keeps_request c url : keeps sync_ok (SyncClient.request c url).
Proof. intros s r s' Hs. unfold SyncClient.request. destruct (http_get _ _ _). intros [= _ <-]. by apply internet_ok. Qed.

Lemma keeps_post c url body : keeps sync_ok (SyncClient.post c url body).
Proof. intros s r s' Hs. unfold SyncClient.post. destruct (http_post _ _ _ _ _). intros [= _ <-]. by apply internet_ok. Qed.

Lemma keeps_rest millis : keeps sync_ok (SyncClient.rest millis).
Proof. intros s r s' Hs [= _ <-]. by apply internet_ok. Qed.

End Process.

#[export] Hint Resolve keeps_ret keeps_throw keeps_unwrap keeps_try keeps_settled keeps_request keeps_post keeps_rest : keeps.

(** Each part of an operation keeps the state in order. *)
Ltac keep := repeat first [solve [eauto with keeps] | apply keeps_transposed; intros | apply keeps_collected; intros | apply keeps_attempt | apply keeps_bind; [|intros] | progress cbv zeta | case_match].

Section Operations.
Context `{HS : Hashes} `{SE : Secp256k1} `{ED : Edwards} `{LC : LruCrate} `{LO : !LruCrateOk} `{HT : HttpStack} `{JR : JsonReader} `{AT : AddressText}.
Abbreviation M := (Eff SyncState SyncError.t).

Lemma keeps_send c url : keeps sync_ok (SyncClient.send c url).
Proof.
  assert (Hk : forall retries wait, keeps sync_ok (SyncClient.send_retries retries wait c url)) by (induction retries; intros; cbn [SyncClient.send_retries]; keep).
  intros s r s' Hs. unfold SyncClient.send. destruct (SyncClient.send_inner c url s) as [[r1 s1]|] eqn:E; [|done]. intros [= _ <-]. apply counted_ok. by eapply Hk.
Qed.

Lemma keeps_bytes c p limit : keeps sync_ok (SyncClient.bytes c p limit).
Proof. pose proof keeps_send. unfold SyncClient.bytes, SyncClient.join. keep. Qed.

Lemma keeps_get {A} (from : list byte -> result JsonFault A) c p limit : keeps sync_ok (SyncClient.get_with_limit from c p limit).
Proof. pose proof keeps_send. unfold SyncClient.get_with_limit, SyncClient.join. keep. Qed.

Lemma keeps_tenure_info c : keeps sync_ok (SyncClient.tenure_info c).
Proof. pose proof @keeps_get. unfold SyncClient.tenure_info, SyncClient.get_json, parse_consensus_hash, parse_block_id. keep. Qed.

Lemma keeps_node_info c : keeps sync_ok (SyncClient.node_info c).
Proof. pose proof @keeps_get. unfold SyncClient.node_info, SyncClient.get_json, parse_consensus_hash, parse_block_hash. keep. Qed.

Lemma keeps_pox_info c : keeps sync_ok (SyncClient.pox_info c).
Proof. pose proof @keeps_get. unfold SyncClient.pox_info, SyncClient.get_json. keep. Qed.

Lemma keeps_streamed fuel body offset : keeps sync_ok (streamed_blocks fuel body offset : M _).
Proof. revert offset. induction fuel; intros; cbn [streamed_blocks]; keep. Qed.

Lemma keeps_validate start blocks : keeps sync_ok (validate_tenure start blocks : M _).
Proof.
  assert (Hk : forall pairs, keeps sync_ok (foldr (fun pair (k : M unit) => checked ← unwrap (validate_successor pair.1 (bl_header pair.2)); _ ← try_with SyncError.TenureLink checked; k) (mret tt) pairs))
    by (induction pairs; cbn; keep).
  unfold validate_tenure. destruct blocks; [keep|]. apply keeps_bind; [keep|intros]. case_match; [keep|]. apply Hk.
Qed.

Lemma keeps_tenure c start stop : keeps sync_ok (SyncClient.tenure c start stop).
Proof. pose proof keeps_bytes. pose proof keeps_streamed. pose proof keeps_validate. unfold SyncClient.tenure. keep. Qed.

(** What the cache of blocks answers is the block asked for, and so is what it takes in. *)
Lemma cached_block c id s found s' : sync_ok s -> SyncClient.cached c id s = Some (Ok found, s') -> sync_ok s' /\ forall b, found = Some b -> block_id b = Some id.
Proof.
  intros [H1 H2 H3 H4 H5 H6]. unfold SyncClient.cached, cached_value. pose proof (get_cache_ok (sc_base_url c, id) _ H1) as (Hok & Hin & Hfound).
  destruct (get_cache_limits (sc_base_url c, id) (sy_blocks s)) as [L1 L2]. destruct (ByteCache.get _ (sy_blocks s)) as [v cache]. cbn [fst snd] in *. intros [= <- <-]. split.
  - split; cbn; rewrite ?L1, ?L2; try done. intros e He%Hin. by apply H5.
  - intros b ->. destruct Hfound as [size Hs]. exact (H5 _ Hs).
Qed.

(** What an insertion leaves was there or is what is inserted. *)
Lemma inserted_from {K V} `{!EqDecision K} k (v : V) size (c : ByteCache.t K V) : cache_ok c -> 0 <= size ->
  exists inserted c', ByteCache.insert k v size c = Some (inserted, c') /\ cache_ok c' /\ ByteCache.byte_limit c' = ByteCache.byte_limit c /\ lru_cap (ByteCache.entries c') = lru_cap (ByteCache.entries c) /\
    forall e, e ∈ held c' -> e = (k, (v, size)) \/ e ∈ held c.
Proof.
  intros Hc Hs. destruct (insert_cache_spec k v size c Hc Hs) as (inserted & c' & Hi & Hc' & Hl & Hcap & H). exists inserted, c'. split_and!; try done. intros e.
  destruct inserted; [|destruct H as [_ ->]; by right]. destruct H as (_ & n & -> & _). intros [->|He]%elem_of_cons; [by left|right].
  assert (Ho : e ∈ others k c) by (rewrite <- (take_drop n (others k c)), elem_of_app; by left). by apply list_elem_of_In, List.filter_In in Ho as [Ho%list_elem_of_In _].
Qed.

Lemma block_step c id s r s' : sync_ok s -> SyncClient.block c id s = Some (r, s') -> sync_ok s' /\ forall b, r = Ok b -> block_id b = Some id.
Proof.
  intros Hs. unfold SyncClient.block. intros [(found & s1 & H1 & H)|(e & H & ->)]%eff_bind_inv; [|unfold SyncClient.cached, cached_value in H; by destruct (ByteCache.get (sc_base_url c, id) (sy_blocks s))].
  apply cached_block in H1 as [H1 Hfound]; [|done]. destruct found as [b|]; [injection H as <- <-; split; [done|intros ? [= <-]; by apply Hfound]|].
  apply eff_bind_inv in H as [(body & s2 & H2 & H)|(e & H & ->)]; [|split; [by eapply keeps_bytes|done]]. apply keeps_bytes in H2; [|done].
  apply eff_bind_inv in H as [(decoded & s3 & H3 & H)|(e & H & ->)]; [|split; [by eapply keeps_unwrap|done]]. apply unwrap_same in H3 as ->.
  apply eff_bind_inv in H as [(b & s3 & H3 & H)|(e & H & ->)]; [|split; [by eapply keeps_try|done]]. apply try_with_same in H3 as ->.
  apply eff_bind_inv in H as [(answered & s3 & H3 & H)|(e & H & ->)]; [|split; [by eapply keeps_unwrap|done]]. unfold unwrap in H3. destruct (block_id b) as [x|] eqn:Hid; [|done]. injection H3 as -> <-.
  case_bool_decide as Heq; cbn [negb] in H; [subst answered|by injection H as <- <-]. unfold mbind, Eff_bind, retain in H.
  destruct H2 as [A1 A2 A3 A4 A5 A6]. destruct (inserted_from (sc_base_url c, id) b (len body) (sy_blocks s2)) as (inserted & cache & Hi & Hc & Hl & Hcap & Hin); [done|lia|].
  rewrite Hi in H. cbn in H. injection H as <- <-. split; [|intros ? [= <-]; done]. split; cbn; rewrite ?Hl, ?Hcap; try done. intros e [->|He]%Hin; [done|by apply A5].
Qed.

Lemma keeps_block c id : keeps sync_ok (SyncClient.block c id).
Proof. intros s r s' Hs H. by eapply block_step. Qed.

Lemma keeps_sized c p : keeps sync_ok (SyncClient.single_sortition_with_size c p).
Proof.
  pose proof keeps_bytes. unfold SyncClient.single_sortition_with_size, parse_sortition_info, parse_prefixed_bitcoin_block_hash, parse_prefixed_sortition_id, parse_prefixed_consensus_hash,
    parse_prefixed_hash160, parse_prefixed_block_hash. keep.
Qed.

Lemma sized_nonneg c p s x s' : SyncClient.single_sortition_with_size c p s = Some (Ok x, s') -> 0 <= x.2.
Proof.
  unfold SyncClient.single_sortition_with_size. intros (body & s1 & _ & H)%eff_bind_ok. apply eff_bind_ok in H as (l & s2 & _ & H). destruct l as [|w [|? ?]]; [done| |done].
  apply eff_bind_ok in H as (info & s3 & _ & H). injection H as <- _. cbn. lia.
Qed.

Lemma sortition_step c view s r s' : sync_ok s -> SyncClient.sortition c view s = Some (r, s') -> sync_ok s' /\ forall i, r = Ok i -> si_consensus_hash i = view.
Proof.
  intros Hs. unfold SyncClient.sortition. cbv zeta. pose proof Hs as [H1 H2 H3 H4 H5 H6].
  pose proof (get_cache_ok (sc_base_url c, view) _ H2) as (Hok & Hin & Hfound). destruct (get_cache_limits (sc_base_url c, view) (sy_sortitions s)) as [L1 L2].
  unfold cached_value at 1, mbind at 1, Eff_bind at 1. destruct (ByteCache.get _ (sy_sortitions s)) as [v cache]. cbn [fst snd] in *.
  assert (Hs1 : sync_ok (with_sortitions cache s)) by (split; cbn; rewrite ?L1, ?L2; try done; intros e He%Hin; by apply H6).
  destruct v as [i|]; [intros [= <- <-]; split; [done|]; intros ? [= <-]; destruct Hfound as [size Hf]; exact (H6 _ Hf)|]. intros H.
  apply eff_bind_inv in H as [(answer & s2 & Ha & H)|(e & H & ->)]; [|split; [by eapply keeps_sized|done]]. apply sized_nonneg in Ha as Hsize. apply keeps_sized in Ha; [|done].
  case_bool_decide as Heq; cbn [negb] in H; [|by injection H as <- <-]. unfold mbind, Eff_bind, retain in H. destruct Ha as [A1 A2 A3 A4 A5 A6].
  destruct (inserted_from (sc_base_url c, view) answer.1 answer.2 (sy_sortitions s2)) as (inserted & cache' & Hi & Hc & Hl & Hcap & Hin'); [done|lia|].
  rewrite Hi in H. cbn in H. injection H as <- <-. split; [|intros ? [= <-]; done]. split; cbn; rewrite ?Hl, ?Hcap; try done. intros e [->|He]%Hin'; [done|by apply A6].
Qed.

Lemma keeps_sortition c view : keeps sync_ok (SyncClient.sortition c view).
Proof. intros s r s' Hs H. by eapply sortition_step. Qed.

(** ** Walks *)

(** A chain of blocks above [known] whose last is [tip]. *)
Fixpoint parent_chain (known : StacksBlockId) (chain : list NakamotoBlock) (tip : StacksBlockId) : Prop :=
  match chain with
  | [] => tip = known
  | b :: rest => hd_parent_block_id (bl_header b) = known /\ exists id, block_id b = Some id /\ parent_chain id rest tip
  end.

Lemma parent_chain_snoc known chain middle b tip : parent_chain known chain middle -> hd_parent_block_id (bl_header b) = middle -> block_id b = Some tip -> parent_chain known (chain ++ [b]) tip.
Proof. revert known. induction chain as [|x chain IH]; intros known; cbn; [intros -> -> Hb; by eauto|]. intros (Hx & id & Hid & Hc) Hm Hb. split; [done|]. exists id. split; [done|]. by apply IH. Qed.

Lemma walk_loop_step limit c blocks walked cursor known s r s' : sync_ok s -> SyncClient.walk_loop limit c blocks walked cursor known s = Some (r, s') ->
  sync_ok s' /\ forall all, r = Ok all -> exists chain, all = walked ++ reverse chain /\ (length chain <= limit)%nat /\ parent_chain known chain cursor.
Proof.
  revert walked cursor s. induction limit as [|limit IH]; intros walked cursor s Hs; cbn [SyncClient.walk_loop]; case_bool_decide as Hk.
  1, 3: intros [= <- <-]; split; [done|]; intros all [= <-]; exists []; rewrite reverse_nil, app_nil_r; by split_and!; [|cbn; lia|].
  - by intros [= <- <-].
  - intros [(b & s1 & H1 & H)|(e & H & ->)]%eff_bind_inv; [|split; [by eapply keeps_block|done]]. apply block_step in H1 as [H1 Hb]; [|done]. specialize (Hb _ eq_refl).
    apply IH in H as [H Hall]; [|done]. split; [done|]. intros all ->. destruct (Hall _ eq_refl) as (chain & -> & Hlen & Hc). exists (chain ++ [b]). split_and!.
    + by rewrite reverse_app, <- app_assoc.
    + rewrite length_app. cbn. lia.
    + by eapply parent_chain_snoc.
Qed.

Lemma walk_back_step c blocks tip known limit s r s' : sync_ok s -> SyncClient.walk_back c blocks tip known limit s = Some (r, s') ->
  sync_ok s' /\ forall all, r = Ok all -> exists chain, all = blocks ++ chain /\ (length chain <= Z.to_nat limit)%nat /\ parent_chain known chain tip.
Proof.
  intros Hs. unfold SyncClient.walk_back. intros [(walked & s1 & H1 & H)|(e & H & ->)]%eff_bind_inv.
  - apply walk_loop_step in H1 as [H1 Hw]; [|done]. injection H as <- <-. split; [done|]. intros all [= <-]. destruct (Hw _ eq_refl) as (chain & -> & Hl & Hc). exists chain. by rewrite app_nil_l, reverse_involutive.
  - by apply walk_loop_step in H as [H _].
Qed.

End Operations.

(** ** Requests spread over a pool *)

Lemma filter_iff_in {A} (P Q : A -> Prop) `{!forall x, Decision (P x), !forall x, Decision (Q x)} (l : list A) : (forall x, x ∈ l -> P x <-> Q x) -> filter P l = filter Q l.
Proof.
  induction l as [|x l IH]; intros HPQ; [done|]. rewrite !filter_cons. assert (IHl : filter P l = filter Q l) by (apply IH; intros y Hy; apply HPQ; by right).
  assert (Hx : P x <-> Q x) by (apply HPQ; left). destruct (decide (P x)), (decide (Q x)); rewrite IHl; tauto.
Qed.

Section Spread.
Context `{HS : Hashes} `{SE : Secp256k1} `{ED : Edwards} `{LC : LruCrate} `{LO : !LruCrateOk} `{HT : HttpStack} `{JR : JsonReader} `{AT : AddressText} {A : Type}.
Abbreviation M := (Eff SyncState SyncError.t).

(** The peers that refused, in the order they were asked, and what that left. *)
Inductive refused_by (ask : SyncClient -> M A) (peers : list SyncClient) : list (nat * SyncError.t) -> SyncState -> SyncState -> Prop :=
| refused_nobody s : refused_by ask peers [] s s
| refused_one i e rest peer s s1 s2 : peers !! i = Some peer -> ask peer s = Some (Err e, s1) -> refused_by ask peers rest s1 s2 -> refused_by ask peers ((i, e) :: rest) s s2.

(** The peers not set aside, around the pool from [start]. *)
Definition turns (t : TenureSource) (start : nat) (offsets : list nat) : list nat := map (fun offset => ((start + offset) mod length (ts_peers t))%nat) offsets.
Definition rota (t : TenureSource) (start : nat) (offsets : list nat) : list nat := filter (fun i => i ∉ ts_throttled t ∪ ts_failed t) (turns t start offsets).

Lemma turn_inj n start a b : (a < n)%nat -> (b < n)%nat -> ((start + a) mod n)%nat = ((start + b) mod n)%nat -> a = b.
Proof.
  intros Ha Hb H. pose proof (Nat.div_mod_eq (start + a) n) as E1. pose proof (Nat.div_mod_eq (start + b) n) as E2. rewrite H in E1.
  destruct (lt_eq_lt_dec ((start + a) / n) ((start + b) / n)) as [[Hl|Hl]|Hl]; nia.
Qed.

Lemma turns_nodup t start : NoDup (turns t start (seq 0 (length (ts_peers t)))).
Proof.
  unfold turns. apply (NoDup_fmap_2_strong (fun offset => ((start + offset) mod length (ts_peers t))%nat)); [|apply NoDup_seq].
  intros a b Ha%elem_of_seq Hb%elem_of_seq. apply turn_inj; lia.
Qed.

Lemma elem_of_turns t start i : i ∈ turns t start (seq 0 (length (ts_peers t))) <-> (i < length (ts_peers t))%nat.
Proof.
  split.
  - intros (o & -> & Ho%elem_of_seq)%list_elem_of_fmap. apply Nat.mod_upper_bound. lia.
  - intros Hi. set (l := turns _ _ _). assert (Hp : l ⊆+ seq 0 (length (ts_peers t))).
    { apply NoDup_submseteq; [apply turns_nodup|]. intros x (o & -> & Ho%elem_of_seq)%list_elem_of_fmap. apply elem_of_seq. split; [lia|]. apply Nat.mod_upper_bound. lia. }
    apply submseteq_length_Permutation in Hp; [|unfold l, turns; by rewrite length_map]. rewrite Hp. apply elem_of_seq. lia.
Qed.

Lemma noted_peers i e t : ts_peers (TenureSource.note_error i e t) = ts_peers t.
Proof. unfold TenureSource.note_error. by repeat case_match. Qed.

Lemma noted_aside i e t : forall j, j <> i -> j ∉ ts_throttled (TenureSource.note_error i e t) ∪ ts_failed (TenureSource.note_error i e t) <-> j ∉ ts_throttled t ∪ ts_failed t.
Proof. intros j Hj. unfold TenureSource.note_error, TenureSource.note_throttled, TenureSource.note_failed. repeat case_match; cbn; set_solver. Qed.

Lemma rota_noted i e t start offsets : i ∉ turns t start offsets -> rota (TenureSource.note_error i e t) start offsets = rota t start offsets.
Proof.
  unfold rota, turns. rewrite noted_peers. intros Hi. apply filter_iff_in. intros j Hj. apply noted_aside. by intros ->.
Qed.

Definition note_all (refusals : list (nat * SyncError.t)) (t : TenureSource) : TenureSource := foldl (fun t r => TenureSource.note_error r.1 r.2 t) t refusals.

(** How a run over the offsets ends: with an answer after the refusals, or refused by all. *)
Definition spread_ends (ask : SyncClient -> M A) (t : TenureSource) (rota : list nat) (earlier : option SyncError.t) (w : SyncState) (r : result SyncError.t A) (t' : TenureSource) (w' : SyncState) : Prop :=
  exists refusals w1, refused_by ask (ts_peers t) refusals w w1 /\
    match r with
    | Ok answer => exists index after peer, rota = map fst refusals ++ index :: after /\ ts_peers t !! index = Some peer /\ ask peer w1 = Some (Ok answer, w') /\
        t' = TenureSource.note_served index (note_all refusals t)
    | Err e => map fst refusals = rota /\ w' = w1 /\ t' = note_all refusals t /\ e = default (default (TenureSource.nobody_left t) earlier) (snd <$> last refusals)
    end.

Lemma spread_loop_ends ask offsets start earlier t w r t' w' : NoDup (turns t start offsets) -> (0 < length (ts_peers t) \/ offsets = [])%nat ->
  TenureSource.spread_loop offsets start ask earlier (t, w) = Some (r, (t', w')) -> spread_ends ask t (rota t start offsets) earlier w r t' w'.
Proof.
  revert earlier t w. induction offsets as [|o offsets IH]; intros earlier t w Hnd Hlen; cbn [TenureSource.spread_loop fst snd].
  { intros [= <- <- <-]. exists [], w. split; [constructor|]. done. }
  cbv zeta. set (index := ((start + o) mod length (ts_peers t))%nat). change (turns t start (o :: offsets)) with (index :: turns t start offsets) in Hnd. apply NoDup_cons in Hnd as [Hi Hnd].
  assert (Hr : rota t start (o :: offsets) = if decide (index ∉ ts_throttled t ∪ ts_failed t) then index :: rota t start offsets else rota t start offsets)
    by (unfold rota; change (turns t start (o :: offsets)) with (index :: turns t start offsets); by rewrite filter_cons).
  assert (Hlen' : (0 < length (ts_peers t))%nat) by (by destruct Hlen). assert (Hpeer : is_Some (ts_peers t !! index)) by (apply lookup_lt_is_Some_2, Nat.mod_upper_bound; lia).
  destruct (bool_decide (index ∈ ts_throttled t) || bool_decide (index ∈ ts_failed t)) eqn:Hskip.
  { rewrite Hr, decide_False by (apply orb_true_iff in Hskip as [H%bool_decide_eq_true|H%bool_decide_eq_true]; set_solver). apply IH; [done|by left]. }
  apply orb_false_iff in Hskip as [H1%bool_decide_eq_false H2%bool_decide_eq_false]. rewrite decide_True in Hr by set_solver.
  destruct Hpeer as [peer Hpeer]. rewrite Hpeer. destruct (ask peer w) as [[[answer|e] w1]|] eqn:Hask; [| |done].
  - intros [= <- <- <-]. exists [], w. split; [constructor|]. exists index, (rota t start offsets), peer. by rewrite Hr.
  - intros H. apply IH in H as (refusals & w2 & Href & H); [|unfold turns in *; by rewrite noted_peers|rewrite noted_peers; by left]. rewrite noted_peers in Href.
    rewrite rota_noted in H by done. exists ((index, e) :: refusals), w2. split; [by econstructor|]. rewrite Hr. destruct r as [answer|e'].
    + destruct H as (j & after & peer' & -> & Hp & Ha & ->). exists j, after, peer'. by rewrite noted_peers in Hp.
    + destruct H as (H & -> & -> & ->). split_and!; [cbn; by rewrite H|done|done|]. rewrite last_cons. by destruct (last refusals).
Qed.

(** Spread_from asks each peer that is not set aside at most once, around the
    pool from where it starts, until one answers; it notes who answered, who throttled
    and who is out of reach; and only when all these peers refused does it answer with
    the last refusal. *)
Theorem spread_spec first ask t w r t' w' (H : TenureSource.spread_from first ask (t, w) = Some (r, (t', w'))) :
  exists start, let rota := rota t start (seq 0 (length (ts_peers t))) in
    NoDup rota /\ (forall i, i ∈ rota <-> (i < length (ts_peers t))%nat /\ i ∉ TenureSource.set_aside t) /\ spread_ends ask t rota None w r t' w'.
Proof.
  unfold TenureSource.spread_from in H. eexists. cbv zeta. split_and!; [| |eapply spread_loop_ends, H].
  - apply NoDup_filter, turns_nodup.
  - intros i. unfold rota, TenureSource.set_aside. rewrite list_elem_of_filter, elem_of_turns. tauto.
  - apply turns_nodup.
  - cbn. destruct (ts_peers t); [by right|left; cbn; lia].
Qed.

(** A pool one of whose peers is not set aside and always answers does answer, whatever the
    other peers do. *)
Theorem willing_peer_serves first (ask : SyncClient -> M A) t w index peer (Hask : forall p v, is_Some (ask p v)) (Hpeer : ts_peers t !! index = Some peer) (Haside : index ∉ TenureSource.set_aside t)
  (Hserves : forall v, exists x v', ask peer v = Some (Ok x, v')) : exists answer s', TenureSource.spread_from first ask (t, w) = Some (Ok answer, s').
Proof.
  assert (Htotal : forall offsets start earlier t w, is_Some (TenureSource.spread_loop offsets start ask earlier (t, w))).
  { induction offsets as [|o offsets IH]; intros start earlier t1 w1; cbn [TenureSource.spread_loop]; [by eexists|]. cbv zeta. cbn [fst snd]. destruct (_ || _); [apply IH|]. destruct (ts_peers t1 !! _); [|apply IH].
    destruct (Hask s w1) as [[[x|e] w2] ->]; [by eexists|apply IH]. }
  destruct (TenureSource.spread_from first ask (t, w)) as [[[answer|e] [t' w']]|] eqn:E; [by eauto| |by destruct (Htotal (seq 0 (length (ts_peers t))) (default (ts_next t) (endpoint ← first; url ← url_parse endpoint; TenureSource.position_of_url url (ts_peers t))) None t w) as [? Hn]; unfold TenureSource.spread_from in E; cbn in E; rewrite E in Hn].
  exfalso. apply spread_spec in E as (start & _ & Hin & refusals & w1 & Href & Hr & _). assert (Hi : index ∈ map fst refusals) by (rewrite Hr; apply Hin; split; [by eapply lookup_lt_Some|done]).
  clear -Href Hi Hpeer Hserves. induction Href as [|j e rest p s s1 s2 Hp Ha _ IH]; [by apply elem_of_nil in Hi|]. cbn in Hi. apply elem_of_cons in Hi as [->|Hi]; [|by apply IH].
  rewrite Hpeer in Hp. injection Hp as <-. destruct (Hserves s) as (x & v & Hx). by rewrite Hx in Ha.
Qed.

Lemma refused_keeps (ask : SyncClient -> M A) peers refusals w w1 : (forall peer, keeps sync_ok (ask peer)) -> sync_ok w -> refused_by ask peers refusals w w1 -> sync_ok w1.
Proof. intros Hk Hw H. induction H as [|i e rest peer s s1 s2 _ Ha _ IH]; [done|]. apply IH. by eapply Hk. Qed.

(** What a pool answers is what one of its peers answers in such a state. *)
Lemma spread_keeps first (ask : SyncClient -> M A) (Q : A -> Prop) t w r t' w' : (forall peer w r w', sync_ok w -> ask peer w = Some (r, w') -> sync_ok w' /\ forall x, r = Ok x -> Q x) -> sync_ok w ->
  TenureSource.spread_from first ask (t, w) = Some (r, (t', w')) -> sync_ok w' /\ forall x, r = Ok x -> Q x.
Proof.
  intros Hq Hw H. apply spread_spec in H as (start & _ & _ & refusals & w1 & Href & H). apply refused_keeps in Href as Hw1; [|by intros peer s r1 s1 Hs [Hs1 _]%Hq|done].
  destruct r as [answer|e]; [|by destruct H as (_ & -> & _)]. destruct H as (index & after & peer & _ & _ & Ha & _). by apply Hq in Ha.
Qed.

End Spread.

Section Pool.
Context `{HS : Hashes} `{SE : Secp256k1} `{ED : Edwards} `{LC : LruCrate} `{LO : !LruCrateOk} `{HT : HttpStack} `{JR : JsonReader} `{AT : AddressText}.
Abbreviation M := (Eff SyncState SyncError.t).

Lemma keeps_tenure_blocks encoded : keeps sync_ok (decode_tenure_blocks encoded : M _).
Proof.
  assert (Hk : forall count body offset, keeps sync_ok (counted_blocks count body offset : M _)) by (induction count; intros; cbn [counted_blocks]; keep).
  unfold decode_tenure_blocks. keep.
Qed.

Lemma tenure_at_step c view s r s' : sync_ok s -> SyncClient.tenure_at c view s = Some (r, s') ->
  sync_ok s' /\ forall blocks, r = Ok blocks -> blocks <> [] /\ Forall (fun b => hd_consensus_hash (bl_header b) = view) blocks.
Proof.
  intros Hs H. pose proof @keeps_get. pose proof keeps_tenure_blocks. split; [revert H; assert (Hk : keeps sync_ok (SyncClient.tenure_at c view)) by (unfold SyncClient.tenure_at; keep); by apply Hk|].
  intros blocks ->. unfold SyncClient.tenure_at in H. do 3 (apply eff_bind_ok in H as (? & ? & _ & H)). apply eff_bind_ok in H as (found & s4 & _ & H). destruct found as [|b rest]; [done|]. destruct (List.find _ _) as [b'|] eqn:Hf; [done|].
  injection H as <- _. split; [done|]. apply Forall_forall. intros y Hy%list_elem_of_In. pose proof (List.find_none _ _ Hf y Hy) as Hn. by apply negb_false_iff, bool_decide_eq_true in Hn.
Qed.

(** C37: Whatever the peers of a pool answer, a block that TenureSource::block returns
    is the one asked for, a sortition is of the view asked for, the blocks of
    tenure_at are of the view asked for, and walk_back returns a chain of at most its
    limit of blocks, each the parent of the next, from the block known to the tip; and
    the caches of the process stay within their limits and hold under each key what it
    names. *)
Theorem fetched_is_named w (Hw : sync_ok w) :
  (forall t id r t' w', TenureSource.block id (t, w) = Some (r, (t', w')) -> sync_ok w' /\ forall b, r = Ok b -> block_id b = Some id) /\
  (forall t view r t' w', TenureSource.sortition view (t, w) = Some (r, (t', w')) -> sync_ok w' /\ forall i, r = Ok i -> si_consensus_hash i = view) /\
  (forall t first view r t' w', TenureSource.tenure_at first view (t, w) = Some (r, (t', w')) ->
    sync_ok w' /\ forall blocks, r = Ok blocks -> blocks <> [] /\ Forall (fun b => hd_consensus_hash (bl_header b) = view) blocks) /\
  (forall c blocks tip known limit r w', SyncClient.walk_back c blocks tip known limit w = Some (r, w') ->
    sync_ok w' /\ forall all, r = Ok all -> exists chain, all = blocks ++ chain /\ (length chain <= Z.to_nat limit)%nat /\ parent_chain known chain tip).
Proof.
  split_and!.
  - intros t id r t' w'. apply spread_keeps; [|done]. intros peer. apply block_step.
  - intros t view r t' w'. unfold TenureSource.sortition. intros [(i & [t1 w1] & H1 & H)|(e & H & ->)]%eff_bind_inv.
    + apply (spread_keeps None _ (fun i => si_consensus_hash i = view)) in H1 as [H1 Hi]; [|intros peer; apply sortition_step|done]. specialize (Hi _ eq_refl). rewrite bool_decide_eq_true_2 in H by done. injection H as <- <- <-.
      split; [done|]. by intros ? [= <-].
    + split; [|done]. by apply (spread_keeps None _ (fun i => si_consensus_hash i = view)) in H as [H _]; [|intros peer; apply sortition_step|].
  - intros t first view r t' w'. apply spread_keeps; [|done]. intros peer. apply tenure_at_step.
  - intros. by eapply walk_back_step.
Qed.

End Pool.

(** ** The history of a follower *)

Section History.
Context `{HS : Hashes} `{SE : Secp256k1} `{ED : Edwards} `{LC : LruCrate} `{LO : !LruCrateOk} `{HT : HttpStack} `{JR : JsonReader} `{AT : AddressText}.
Abbreviation F := (Eff (TenureFollower * SyncState) SyncError.t).

(** A tenure that was recorded: its size is that of its blocks, and its sortition is that
    of the view its last block stands on. *)
Record followed_ok (f : FollowedTenure) : Prop := {
  fo_some : fo_blocks f <> [];
  fo_size : TenureFollower.tenure_wire_bytes (fo_blocks f) = Some (Ok (fo_wire_bytes f));
  fo_elected : si_was_sortition (fo_sortition f) = true;
  fo_view : forall b, last (fo_blocks f) = Some b -> si_consensus_hash (fo_sortition f) = hd_consensus_hash (bl_header b);
}.

(** The first of these blocks has the last block of that tenure as its parent. *)
Definition extends (f : FollowedTenure) (blocks : list NakamotoBlock) : Prop :=
  exists first final, head blocks = Some first /\ last (fo_blocks f) = Some final /\ block_id final = Some (hd_parent_block_id (bl_header first)).

Definition history_weight (h : list FollowedTenure) : Z := foldr (fun f w => fo_wire_bytes f + w) 0 h.

Definition connected (h : list FollowedTenure) : Prop := forall i f g, h !! i = Some f -> h !! S i = Some g -> extends f (fo_blocks g).

Record follower_ok (t : TenureFollower) : Prop := {
  fw_tenures : Forall followed_ok (tf_history t);
  fw_latest : tf_latest t = fo_info <$> last (tf_history t);
  fw_items : len (tf_history t) <= FOLLOWED_TENURE_HISTORY_ITEMS;
  fw_bytes : tf_history_bytes t = history_weight (tf_history t);
  fw_limit : history_weight (tf_history t) <= FOLLOWED_TENURE_HISTORY_BYTES;
  fw_connected : connected (tf_history t);
}.

Lemma sum_wire_bound blocks total n : 0 <= total -> TenureFollower.sum_wire_bytes blocks total = Some (Ok n) -> 0 <= n /\ (total <= MAX_TENURE_RESPONSE_BYTES -> n <= MAX_TENURE_RESPONSE_BYTES).
Proof.
  revert total. induction blocks as [|b blocks IH]; intros total Ht; cbn [TenureFollower.sum_wire_bytes]; [by intros [= <-]|]. destruct (encode_block b) as [encoded|]; [|done]. cbn [mbind option_bind].
  unfold TenureFollower.add_tenure_wire_bytes. destruct (Z.ltb_spec (saturating_sub MAX_TENURE_RESPONSE_BYTES total) (len encoded)) as [|Hl]; [done|]. unfold saturating_sub in Hl. intros H%IH; lia.
Qed.

Lemma followed_size f : followed_ok f -> 0 <= fo_wire_bytes f <= MAX_TENURE_RESPONSE_BYTES.
Proof. intros [_ Hs _ _]. apply sum_wire_bound in Hs as [H1 H2]; [|done]. split; [done|]. by apply H2. Qed.

Lemma history_weight_app h h' : history_weight (h ++ h') = history_weight h + history_weight h'.
Proof. induction h as [|f h IH]; cbn; [done|]. unfold history_weight in *. cbn in *. lia. Qed.

Lemma history_weight_nonneg h : Forall followed_ok h -> 0 <= history_weight h.
Proof. induction 1 as [|f h Hf _ IH]; cbn; [lia|]. apply followed_size in Hf. unfold history_weight in *. cbn in *. lia. Qed.

Lemma make_room_ok h wire : Forall followed_ok h -> history_weight h <= FOLLOWED_TENURE_HISTORY_BYTES -> 0 <= wire <= FOLLOWED_TENURE_HISTORY_BYTES ->
  exists n, TenureFollower.make_room h (history_weight h) wire = Some (drop n h, history_weight (drop n h)) /\ len (drop n h) < FOLLOWED_TENURE_HISTORY_ITEMS /\ history_weight (drop n h) + wire <= FOLLOWED_TENURE_HISTORY_BYTES.
Proof.
  intros Hh. induction Hh as [|f h Hf Hh IH]; intros Hl Hw; cbn [TenureFollower.make_room]; [exists 0%nat; split_and!; [done|cbn; unfold FOLLOWED_TENURE_HISTORY_ITEMS; lia|cbn; lia]|].
  pose proof (followed_size f Hf). pose proof (history_weight_nonneg h Hh). assert (Hc : history_weight (f :: h) = fo_wire_bytes f + history_weight h) by done.
  destruct (_ || _) eqn:E.
  - unfold checked_sub. destruct (Z.leb_spec (fo_wire_bytes f) (history_weight (f :: h))); [|lia]. cbn [mbind option_bind]. rewrite Hc. replace (fo_wire_bytes f + history_weight h - fo_wire_bytes f) with (history_weight h) by lia.
    destruct IH as (n & B1 & B2 & B3); [lia|done|]. by exists (S n).
  - apply orb_false_iff in E as [E1%Z.leb_gt E2%Z.ltb_ge]. unfold saturating_sub in E2. exists 0%nat. split_and!; [done|done|]. change (drop 0 (f :: h)) with (f :: h). lia.
Qed.

Lemma connected_drop n h : connected h -> connected (drop n h).
Proof. intros Hc i f g. rewrite !lookup_drop. replace (n + S i)%nat with (S (n + i)) by lia. apply Hc. Qed.

Lemma connected_snoc h f : connected h -> (forall l, last h = Some l -> extends l (fo_blocks f)) -> connected (h ++ [f]).
Proof.
  intros Hc Hl i a b Ha Hb. destruct (decide (S i < length h)%nat) as [Hi|Hi].
  - rewrite lookup_app_l in Ha, Hb by lia. by eapply Hc.
  - apply lookup_lt_Some in Hb as Hb'. rewrite length_app in Hb'. cbn in Hb'. rewrite lookup_app_l in Ha by lia. rewrite lookup_app_r in Hb by lia. replace (S i - length h)%nat with 0%nat in Hb by lia. injection Hb as <-.
    apply Hl. rewrite last_lookup. by replace (pred (length h)) with i by lia.
Qed.

(** The blocks may stand as the last tenure of the history. *)
Definition ready (t : TenureFollower) (info : TenureInfo) (blocks : list NakamotoBlock) : Prop :=
  forall l, last (tf_history t) = Some l ->
    if decide (ti_tenure_start_block_id (fo_info l) = ti_tenure_start_block_id info) then head blocks = head (fo_blocks l) else extends l blocks.

Lemma history_record_ok t f : follower_ok t -> followed_ok f -> ready t (fo_info f) (fo_blocks f) -> exists t', TenureFollower.record f t = Some t' /\ follower_ok t' /\ tf_client t' = tf_client t.
Proof.
  intros [H1 H2 H3 H4 H5 H6] Hf Hready. unfold TenureFollower.record. pose proof (followed_size f Hf) as Hsize.
  assert (exists h, TenureFollower.pop_same_start (ti_tenure_start_block_id (fo_info f)) (tf_history t) (tf_history_bytes t) = Some (h, history_weight h) /\
    Forall followed_ok h /\ history_weight h <= FOLLOWED_TENURE_HISTORY_BYTES /\ connected h /\ forall l, last h = Some l -> extends l (fo_blocks f)) as (h & -> & A1 & A2 & A3 & A4).
  { unfold TenureFollower.pop_same_start. destruct (last (tf_history t)) as [l|] eqn:El.
    - apply last_Some in El as (h & E). specialize (Hready l). rewrite E, last_snoc in Hready. specialize (Hready eq_refl). rewrite E in *. rewrite history_weight_app in *. apply Forall_app in H1 as [H1 [Hl _]%Forall_cons].
      assert (Hw : history_weight [l] = fo_wire_bytes l) by (unfold history_weight; cbn; lia). pose proof (history_weight_nonneg h H1). pose proof (followed_size l Hl).
      case_bool_decide as Hs.
      + rewrite decide_True in Hready by done. exists h. rewrite removelast_last, H4. unfold checked_sub. destruct (Z.leb_spec (fo_wire_bytes l) (history_weight h + history_weight [l])); [|lia]. cbn [mbind option_bind].
        split_and!; [do 2 f_equal; lia|done|lia|intros i a b Ha Hb; eapply H6; by apply lookup_app_l_Some|].
        intros p Hp. apply last_Some in Hp as (h' & ->). rewrite <- app_assoc in H6. destruct (H6 (length h') p l) as (first & final & B1 & B2 & B3).
        * by apply list_lookup_middle.
        * rewrite lookup_app_r by lia. by replace (S (length h') - length h')%nat with 1%nat by lia.
        * exists first, final. by rewrite Hready.
      + rewrite decide_False in Hready by done. exists (h ++ [l]). rewrite H4, history_weight_app. split_and!; [done|by apply Forall_app; split; [done|constructor]|lia|done|]. rewrite last_snoc. by intros ? [= <-].
    - apply last_None in El. rewrite El in *. exists []. rewrite H4. by split_and!. }
  cbn [mbind option_bind fst snd]. destruct (make_room_ok h (fo_wire_bytes f) A1 A2) as (n & -> & Hi & Hb); [unfold FOLLOWED_TENURE_HISTORY_BYTES in *; lia|]. cbn [mbind option_bind fst snd].
  unfold checked_add. destruct (Z.leb_spec (history_weight (drop n h) + fo_wire_bytes f) USIZE_MAX) as [|Hbad]; [|exfalso; revert Hb Hbad; unfold USIZE_MAX, U64_MAX, FOLLOWED_TENURE_HISTORY_BYTES, MAX_TENURE_RESPONSE_BYTES, MIB; lia].
  cbn [mbind option_bind]. eexists. split; [done|]. split; [|done]. assert (Hw : history_weight (drop n h ++ [f]) = history_weight (drop n h) + fo_wire_bytes f) by (rewrite history_weight_app; unfold history_weight at 2; cbn; lia).
  split; cbn [tf_history tf_latest tf_history_bytes].
  - apply Forall_app. split; [by apply Forall_drop|by constructor].
  - by rewrite last_snoc.
  - rewrite length_app. cbn. lia.
  - done.
  - lia.
  - apply connected_snoc; [by apply connected_drop|]. intros l Hl. apply A4. rewrite last_lookup in *. rewrite lookup_drop, length_drop in Hl. apply lookup_lt_Some in Hl as Hlt. rewrite <- Hl. f_equal. lia.
Qed.

(** The follower [t], in a process in order. *)
Definition steady (t : TenureFollower) (s : TenureFollower * SyncState) : Prop := s.1 = t /\ sync_ok s.2.
Definition settled_ok (s : TenureFollower * SyncState) : Prop := follower_ok s.1 /\ sync_ok s.2.

Lemma remote_step {A} (m : SyncClient -> Eff SyncState SyncError.t A) (Q : A -> Prop) t s r s' :
  (forall c w r w', sync_ok w -> m c w = Some (r, w') -> sync_ok w' /\ forall x, r = Ok x -> Q x) -> steady t s -> TenureFollower.remote m s = Some (r, s') -> steady t s' /\ forall x, r = Ok x -> Q x.
Proof.
  intros Hm [<- Hw]. unfold TenureFollower.remote. destruct (m _ _) as [[r1 w1]|] eqn:E; [|done]. intros [= <- <-]. apply Hm in E as [Hw1 HQ]; [|done]. done.
Qed.

Lemma keeps_remote {A} (m : SyncClient -> Eff SyncState SyncError.t A) t : (forall c, keeps sync_ok (m c)) -> keeps (steady t) (TenureFollower.remote m).
Proof. intros Hm s r s' Hs H. eapply (remote_step m (fun _ => True)) in H as [H _]; [done| |done]. intros c w r1 w1 Hw Hr. split; [by eapply Hm|done]. Qed.

Lemma attempt_step {S E G A} (P : S -> Prop) (Q : A -> Prop) (m : Eff S E A) s (r : result G (option A)) s' : (forall s r s', P s -> m s = Some (r, s') -> P s' /\ forall x, r = Ok x -> Q x) -> P s -> attempt m s = Some (r, s') ->
  P s' /\ exists o, r = Ok o /\ forall x, o = Some x -> Q x.
Proof.
  intros Hm Hs. unfold attempt. destruct (m s) as [[[x|e] s1]|] eqn:Em; [| |done]; intros [= <- <-]; apply Hm in Em as [Hs1 Hx]; [|done| |done]; split; try done; eexists; (split; [done|]); [|done].
  intros y [= <-]. by apply Hx.
Qed.

(** What is left of a follower that only looked. *)
Lemma steady_settled t s : follower_ok t -> steady t s -> settled_ok s.
Proof. by intros Ht [<- Hs]. Qed.

Lemma extended_step c blocks tip w r w' : sync_ok w -> SyncClient.extend_to_tenure_tip c blocks tip w = Some (r, w') -> sync_ok w' /\ forall all, r = Ok all -> blocks <> [] /\ exists chain, all = blocks ++ chain.
Proof.
  intros Hw. unfold SyncClient.extend_to_tenure_tip. destruct (last blocks) as [b|] eqn:Hb; [|by intros [= <- <-]]. assert (Hne : blocks <> []) by (by intros ->).
  intros [(known & w1 & H1 & H)|(e & H & ->)]%eff_bind_inv; [|apply unwrap_same in H as ->; done]. apply unwrap_same in H1 as ->. case_bool_decide.
  - injection H as <- <-. split; [done|]. intros all [= <-]. split; [done|]. exists []. by rewrite app_nil_r.
  - apply walk_back_step in H as [H Hc]; [|done]. split; [done|]. intros all Hr. split; [done|]. destruct (Hc all Hr) as (chain & -> & _). by exists chain.
Qed.

Lemma follow_step t info blocks s r s' : follower_ok t -> ready t info blocks -> steady t s -> TenureFollower.follow info blocks s = Some (r, s') -> settled_ok s'.
Proof.
  intros Ht Hready Hs. unfold TenureFollower.follow. intros [(sortition & s1 & H1 & H)|(e & H & _)]%eff_bind_inv.
  - unfold TenureFollower.chosen_sortition in H1. apply eff_bind_ok in H1 as (final & s2 & H2 & H1). assert (last blocks = Some final /\ s2 = s) as [Hlast ->].
    { unfold try_with, or_err in H2. destruct (last blocks); [by injection H2 as -> ->|done]. }
    apply eff_bind_ok in H1 as (i & s2 & Hi & H1). eapply (remote_step _ (fun i => si_consensus_hash i = hd_consensus_hash (bl_header final))) in Hi as [Hs2 Hview]; [|intros c w r1 w1; apply sortition_step|done]. specialize (Hview _ eq_refl).
    destruct (si_was_sortition i) eqn:Hwas; [|done]. injection H1 as -> ->. apply eff_bind_inv in H as [(f & s2 & H2' & H)|(e & H & _)].
    + unfold TenureFollower.followed_tenure in H2'. apply eff_bind_ok in H2' as (size & s3 & H3 & H2'). injection H2' as <- <-. unfold settled in H3. destruct (TenureFollower.tenure_wire_bytes blocks) as [o|] eqn:Hsize; [|done]. injection H3 as -> <-.
      assert (Hf : followed_ok (mkFollowed info sortition blocks size)) by (split; [by intros E; cbn in E; subst blocks|done|done|intros b; cbn; rewrite Hlast; by intros [= <-]]).
      destruct Hs2 as [E2 Hw]. destruct (history_record_ok t _ Ht Hf Hready) as (t' & Hr & Ht' & _).
      assert (Hrec : TenureFollower.recorded (mkFollowed info sortition blocks size) s1 = Some (Ok tt, (t', s1.2))) by (unfold TenureFollower.recorded; by rewrite E2, Hr). rewrite (eff_bind_run _ _ _ _ _ Hrec) in H. injection H as <- <-. by split.
    + unfold TenureFollower.followed_tenure in H. apply (steady_settled t); [done|]. apply eff_bind_inv in H as [(size & s3 & H3 & H)|(e' & H3 & _)]; [injection H as _ <-|]; unfold settled in H3; destruct (TenureFollower.tenure_wire_bytes blocks); try done; by injection H3 as _ <-.
  - apply (steady_settled t); [done|]. revert H. assert (Hk : keeps (steady t) (TenureFollower.chosen_sortition blocks)); [|by apply Hk].
    unfold TenureFollower.chosen_sortition. apply keeps_bind; [apply keeps_same, try_with_same|intros final]. apply keeps_bind; [apply keeps_remote; intros; apply keeps_sortition|intros i].
    destruct (negb _); intros s2 r2 s3 Hs2; by intros [= _ <-].
Qed.

Lemma ask_inv {S E A} (f : S -> A) s (x : A) s' : ask f s = Some (Ok x : result E A, s') -> x = f s /\ s' = s.
Proof. by intros [= -> ->]. Qed.

Lemma try_inv {S E G A} (f : G -> E) (o : result G A) (s : S) (x : A) s' : try_with f o s = Some (Ok x : result E A, s') -> o = Ok x /\ s' = s.
Proof. unfold try_with. destruct o; [|done]. by intros [= -> ->]. Qed.

Lemma unwrap_inv {S E A} (o : option A) (s : S) (x : A) s' : unwrap o s = Some (Ok x : result E A, s') -> o = Some x /\ s' = s.
Proof. unfold unwrap. destruct o; [|done]. by intros [= -> ->]. Qed.

(** The tenure in hand is carried on, or nothing changes. *)
Lemma extend_held_step t info s r s' : follower_ok t -> (forall l, last (tf_history t) = Some l -> ti_tenure_start_block_id (fo_info l) = ti_tenure_start_block_id info) ->
  steady t s -> TenureFollower.extend_held_tenure info s = Some (r, s') -> settled_ok s' /\ (r = Ok None -> steady t s').
Proof.
  intros Ht Hsame Hs. unfold TenureFollower.extend_held_tenure. intros [(previous & s1 & H1 & H)|(e & H & _)]%eff_bind_inv; [|done]. apply ask_inv in H1 as [-> ->].
  apply eff_bind_inv in H as [(l & s1 & H1 & H)|(e & H & ->)]; [|apply try_with_same in H as ->; split; [by eapply steady_settled|done]]. apply try_inv in H1 as [Hl ->].
  assert (Hlast : last (tf_history t) = Some l) by (destruct Hs as [<- _]; unfold or_err in Hl; destruct (last _); [by injection Hl as ->|done]). cbv zeta in H.
  apply eff_bind_inv in H as [(extended & s1 & H1 & H)|(e & H & ->)].
  - apply (attempt_step (steady t) (fun all => fo_blocks l <> [] /\ exists chain, all = fo_blocks l ++ chain)) in H1 as [Hs1 (o & Ho & Hx)]; [|intros; eapply remote_step; [|done|done]; intros c w0 r1 w1 Hw0 Hr1; by apply extended_step in Hr1|done].
    injection Ho as <-. destruct extended as [blocks|]; [|injection H as <- <-; split; [by eapply steady_settled|done]]. destruct (Hx _ eq_refl) as (Hne & chain & ->).
    apply eff_bind_inv in H as [(linked & s2 & H2 & H)|(e & H & ->)]; [|apply unwrap_same in H as ->; split; [by eapply steady_settled|done]]. apply unwrap_same in H2 as ->.
    destruct linked; cbn [negb] in H; [|injection H as <- <-; split; [by eapply steady_settled|done]].
    assert (Hready : ready t info (fo_blocks l ++ chain)).
    { intros l' Hl'. rewrite Hlast in Hl'. injection Hl' as <-. rewrite decide_True by by apply Hsame. by destruct (fo_blocks l). }
    apply eff_bind_inv in H as [(f & s2 & H2 & H)|(e & H & ->)]; [|split; [by eapply follow_step|done]]. injection H as <- <-. split; [by eapply follow_step|done].
  - by apply (attempt_step (steady t) (fun _ => True)) in H as [_ (o & ? & _)]; [|intros; eapply remote_step; [|done|done]; intros c w0 r1 w1 Hw0 Hr1; apply extended_step in Hr1 as [? _]|].
Qed.

Lemma append_tip_steady t info blocks : keeps (steady t) (TenureFollower.append_tip info blocks).
Proof.
  assert (Hu : forall A (o : option A), keeps (steady t) (unwrap o : F A)) by (intros; apply keeps_same, unwrap_same). assert (Hr : forall A (x : A), keeps (steady t) (mret x : F A)) by (intros A x s r s' Hs; by intros [= _ <-]).
  unfold TenureFollower.append_tip. apply keeps_bind; [destruct (last blocks); [apply keeps_bind; [apply Hu|intros; apply Hr]|apply Hr]|intros id]. case_bool_decide; [apply Hr|].
  apply keeps_bind; [apply keeps_remote; intros; apply keeps_block|intros tip]. apply keeps_bind; [apply keeps_same, try_with_same|intros parent]. apply keeps_bind; [apply Hu|intros]. apply Hr.
Qed.

Lemma bridge_steady t blocks held : keeps (steady t) (TenureFollower.bridge_gap blocks held).
Proof.
  assert (Hr : forall A (x : A), keeps (steady t) (mret x : F A)) by (intros A x s r s' Hs; by intros [= _ <-]). unfold TenureFollower.bridge_gap. destruct blocks as [|first rest]; [apply Hr|]. case_bool_decide; [apply Hr|].
  apply keeps_bind; [apply keeps_same, unwrap_same|intros id]. apply keeps_bind; [|intros; apply Hr]. intros s r s' Hs H'.
  by apply (attempt_step (steady t) (fun _ => True)) in H' as [? _]; [|intros; eapply remote_step; [|done|done]; intros c w0 r1 w1 Hw0 Hr1; apply walk_back_step in Hr1 as [? _]|].
Qed.

(** Blocks that pass the check against the tenure held may stand behind it. *)
Lemma continue_step t latest info blocks s r s' : follower_ok t -> tf_latest t = Some latest -> steady t s -> TenureFollower.continue_history latest info blocks s = Some (r, s') ->
  steady t s' /\ forall all, r = Ok all -> ready t info all.
Proof.
  intros Ht Hlatest Hs. destruct (fw_latest t Ht). rewrite (fw_latest t Ht) in Hlatest. destruct (last (tf_history t)) as [l|] eqn:Hl; [|done]. injection Hlatest as <-.
  assert (Hlo : followed_ok l) by (eapply Forall_forall; [apply (fw_tenures t Ht)|]; apply last_Some in Hl as (h & ->); apply elem_of_app; right; by left). pose proof (fo_some l Hlo) as Hne.
  unfold TenureFollower.continue_history. intros [(u & s1 & H1 & H)|(e & H & ->)]%eff_bind_inv; [|apply try_with_same in H as ->; done]. apply try_inv in H1 as [_ ->]. unfold ready. rewrite Hl. case_bool_decide as Hstart.
  - apply eff_bind_inv in H as [(previous & s1 & H1 & H)|(e & H & ->)]; [|done]. apply ask_inv in H1 as [-> ->]. apply eff_bind_inv in H as [(p & s1 & H1 & H)|(e & H & ->)]; [|apply try_with_same in H as ->; done].
    apply try_inv in H1 as [Hp ->]. assert (p = l) as -> by (destruct Hs as [E _]; rewrite E, Hl in Hp; by injection Hp). destruct (negb _ && negb _) eqn:Hsw; [by injection H as <- <-|]. injection H as <- <-. split; [done|].
    intros all [= <-] l' [= <-]. rewrite decide_True by done. unfold TenureFollower.starts_with in Hsw. destruct (Nat.ltb_spec (length blocks) (length (fo_blocks l))) as [|Hlen]; [done|].
    assert (take (length (fo_blocks l)) blocks = fo_blocks l \/ take (length blocks) (fo_blocks l) = blocks) as [E|E].
    { apply andb_false_iff in Hsw as [Hsw%negb_false_iff%bool_decide_eq_true|Hsw%negb_false_iff%bool_decide_eq_true]; [by left|by right]. }
    + rewrite <- E at 1. by destruct blocks, (fo_blocks l).
    + rewrite take_ge in E by lia. by rewrite E.
  - apply eff_bind_inv in H as [(held & s1 & H1 & H)|(e & H & ->)]; [|done]. apply ask_inv in H1 as [-> ->]. apply eff_bind_inv in H as [(h & s1 & H1 & H)|(e & H & ->)]; [|apply unwrap_same in H as ->; done].
    apply unwrap_inv in H1 as [Hheld ->]. apply eff_bind_inv in H as [(all & s1 & H1 & H)|(e & H & ->)]; [|split; [by eapply bridge_steady|done]]. apply bridge_steady with (t := t) in H1; [|done].
    destruct all as [|first rest]; [by injection H as <- <-|]. case_bool_decide as Hpar; cbn [negb] in H; [|by injection H as <- <-]. injection H as <- <-. split; [done|]. intros all' [= <-] l' [= <-]. rewrite decide_False by done.
    destruct (last (fo_blocks l)) as [final|] eqn:Hf; [|by apply last_None in Hf]. exists first, final. split_and!; [done|done|]. destruct Hs as [E _]. unfold TenureFollower.held_tip in Hheld. rewrite E, Hl in Hheld. cbn in Hheld. rewrite Hf in Hheld. by rewrite Hpar.
Qed.

Lemma poll_rounds_step rounds t s r s' : follower_ok t -> steady t s -> TenureFollower.poll_rounds rounds s = Some (r, s') -> settled_ok s'.
Proof.
  intros Ht. revert s. induction rounds as [|rounds IH]; intros s Hs; cbn [TenureFollower.poll_rounds]; [intros [= _ <-]; by eapply steady_settled|]. pose proof (fun s => steady_settled t s Ht) as Hsettle.
  assert (Hinfo : keeps (steady t) (TenureFollower.remote SyncClient.tenure_info)) by (apply keeps_remote; apply keeps_tenure_info).
  intros [(requested & s1 & H1 & H)|(e & H & _)]%eff_bind_inv; [|by apply Hsettle; eapply Hinfo]. apply Hinfo in H1; [|done].
  apply eff_bind_inv in H as [(latest & s2 & H2 & H)|(e & H & _)]; [|done]. apply ask_inv in H2 as [-> ->]. destruct H1 as [E1 Hw1]. rewrite E1 in H. assert (H1 : steady t s1) by done.
  destruct (match tf_latest t with Some latest => bool_decide (ti_tip_block_id latest = ti_tip_block_id requested) | None => false end); [injection H as _ <-; by apply Hsettle|].
  apply eff_bind_inv in H as [(carried & s2 & H2 & H)|(e & H & _)].
  - assert (settled_ok s2 /\ (carried = None -> steady t s2)) as [Hs2 Hc].
    { destruct (tf_latest t) as [latest|] eqn:Hl; [|injection H2 as <- <-; split; [by apply Hsettle|done]]. case_bool_decide as Hstart; [|injection H2 as <- <-; split; [by apply Hsettle|done]].
      apply extend_held_step with (t := t) in H2 as [? Hn]; [|done| |done]; [split; [done|]; intros ->; by apply Hn|]. intros l Hlast. rewrite (fw_latest t Ht), Hlast in Hl. by injection Hl as <-. }
    destruct carried as [f|]; [by injection H as _ <-|]. specialize (Hc eq_refl).
    apply eff_bind_inv in H as [(blocks & s3 & H3 & H)|(e & H & _)]; [|apply Hsettle; eapply keeps_remote, H; [intros; apply keeps_tenure|done]]. apply keeps_remote with (t := t) in H3; [|intros; apply keeps_tenure|done].
    apply eff_bind_inv in H as [(info & s4 & H4 & H)|(e & H & _)]; [|by apply Hsettle; eapply Hinfo, H]. apply Hinfo in H4; [|done].
    case_bool_decide as Hi; cbn [negb] in H; [|by eapply IH, H].
    assert (Hatt : keeps (steady t) (attempt (TenureFollower.remote (fun client => SyncClient.extend_to_tenure_tip client blocks (ti_tip_block_id info))) : F _)).
    { intros s0 r0 s0' Hs0 H0. by apply (attempt_step (steady t) (fun _ => True)) in H0 as [? _]; [|intros; eapply remote_step; [|done|done]; intros c0 v0 rr v1 Hv0 Hrr; apply extended_step in Hrr as [? _]|]. }
    apply eff_bind_inv in H as [(extended & s5 & H5 & H)|(e & H & _)]; [|by apply Hsettle; eapply Hatt, H]. apply Hatt in H5; [|done].
    apply eff_bind_inv in H as [(blocks2 & s6 & H6 & H)|(e & H & _)]; [|by apply Hsettle; eapply append_tip_steady, H]. apply append_tip_steady with (t := t) in H6; [|done].
    assert (forall r0 s0, match tf_latest t with Some latest => TenureFollower.continue_history latest info blocks2 | None => mret blocks2 end s6 = Some (r0, s0) -> steady t s0 /\ forall all, r0 = Ok all -> ready t info all) as Hcont.
    { intros r0 s0 H0. destruct (tf_latest t) as [latest|] eqn:Hl; [by eapply continue_step, H0|]. injection H0 as <- <-. split; [done|]. intros all _ l Hlast. by rewrite (fw_latest t Ht), Hlast in Hl. }
    apply eff_bind_inv in H as [(blocks3 & s7 & H7 & H)|(e & H & _)]; apply Hcont in H as [? _] || apply Hcont in H7 as [Hs7 Hready]; [|by apply Hsettle].
    specialize (Hready _ eq_refl). apply eff_bind_inv in H as [(f & s8 & H8 & H)|(e & H8 & _)]; [injection H as _ <-|]; by eapply follow_step, H8.
  - destruct (tf_latest t) as [latest|] eqn:Hl; [|done]. case_bool_decide as Hstart; [|done]. apply extend_held_step with (t := t) in H as [? _]; [done|done| |done]. intros l Hlast. rewrite (fw_latest t Ht), Hlast in Hl. by injection Hl as <-.
Qed.

Lemma poll_step t w r t' w' : follower_ok t -> sync_ok w -> TenureFollower.poll (t, w) = Some (r, (t', w')) -> follower_ok t' /\ sync_ok w'.
Proof. intros Ht Hw H. by apply (poll_rounds_step 3 t (t, w) r (t', w')) in H. Qed.

Lemma new_follower_ok client : follower_ok (TenureFollower.new client).
Proof. by split. Qed.

(** The followers of a client, polled any number of times. *)
Inductive polled (client : SyncClient) : TenureFollower -> Prop :=
| polled_new : polled client (TenureFollower.new client)
| polled_again t w r t' w' : polled client t -> sync_ok w -> TenureFollower.poll (t, w) = Some (r, (t', w')) -> polled client t'.

(** C40: However often a TenureFollower polls, whatever the peer answers and whether
    or not a poll fails, its history has at most 16 tenures and 640 MiB, counted as
    the encodings of the blocks; the first block of each tenure has the last block of
    the one before as its parent; each stands on the sortition of its last block's
    view, which elected a miner; and the latest tenure is the last. *)
Theorem follower_history client t (H : polled client t) : follower_ok t.
Proof.
  induction H as [|t w r t' w' _ IH Hw Hp]; [apply new_follower_ok|]. by eapply poll_step in Hp as [? _].
Qed.

(** A bridge that is built ends in the block it was built from, which then stands twice. *)
Theorem bridge_repeats_first first rest held t w bridged t' w' (Hw : sync_ok w) (Hb : TenureFollower.bridge_gap (first :: rest) held (t, w) = Some (Ok bridged, (t', w'))) (Hne : bridged <> first :: rest) :
  exists chain copy, bridged = chain ++ copy :: first :: rest /\ block_id copy = block_id first.
Proof.
  unfold TenureFollower.bridge_gap in Hb. case_bool_decide as Hp; [by injection Hb as <-|]. apply eff_bind_ok in Hb as (id & s1 & Hid & Hb). apply unwrap_inv in Hid as [Hid ->].
  apply eff_bind_ok in Hb as (bridge & s2 & Hbr & Hb). injection Hb as <- _. apply (attempt_step (fun s => sync_ok s.2) (fun all => exists chain, all = chain /\ parent_chain held chain id)) in Hbr as [_ (o & Ho & Hx)]; [| |done].
  - injection Ho as <-. destruct bridge as [bridge|]; [|done]. destruct (Hx _ eq_refl) as (chain & -> & Hc). destruct (last chain) as [copy|] eqn:Hlast.
    + apply last_Some in Hlast as (before & ->). exists before, copy. split; [by rewrite <- app_assoc|]. rewrite Hid. clear -Hc. revert held Hc. induction before as [|b before IH]; intros held; cbn; [by intros (_ & i & Hi & ->)|intros (_ & i & _ & Hc); by eapply IH].
    + apply last_None in Hlast as ->. done.
  - intros s r s' Hs Hr. unfold TenureFollower.remote in Hr. destruct (SyncClient.walk_back _ _ _ _ _ _) as [[r1 w1]|] eqn:E; [|done]. injection Hr as <- <-. apply walk_back_step in E as [? Hall]; [|done]. split; [done|]. intros all Hr. destruct (Hall all Hr) as (chain & -> & _ & Hc). by exists chain.
Qed.

End History.

(** ** The tip that is chosen *)

Section Choice.
Context `{HS : Hashes} `{SE : Secp256k1}.
Variable burn : option BurnView.

(** An unknown view is below a known one. *)
Definition option_lt (a b : option Z) : Prop := match a, b with None, Some _ => True | Some a, Some b => a < b | _, None => False end.

(** The first tip gives way to the second: it is shorter, or as long with an earlier
    sortition, or as late with an identifier that is not the lower one. *)
Definition gives_way (a b : CandidateTip) : Prop :=
  hd_chain_length (ct_header a) < hd_chain_length (ct_header b) \/
  hd_chain_length (ct_header a) = hd_chain_length (ct_header b) /\
    (option_lt (sortition_height burn a) (sortition_height burn b) \/
     sortition_height burn a = sortition_height burn b /\
       exists ida idb, header_block_id (ct_header a) = Some ida /\ header_block_id (ct_header b) = Some idb /\ bytes_le idb ida).

Lemma option_lt_trans a b c : option_lt a b -> option_lt b c -> option_lt a c.
Proof. destruct a, b, c; cbn; try done. lia. Qed.

Lemma gives_way_trans a b c : gives_way a b -> gives_way b c -> gives_way a c.
Proof.
  unfold gives_way. intros [H1|[H1 [H2|(H2 & ia & ib & Ha & Hb & Hab)]]] [H3|[H3 [H4|(H4 & ib' & ic & Hb' & Hc & Hbc)]]]; try (left; lia); right; (split; [lia|]).
  - left. by eapply option_lt_trans.
  - left. by rewrite <- H4.
  - left. by rewrite H2.
  - right. split; [congruence|]. exists ia, ic. split_and!; [done|done|]. assert (ib' = ib) as -> by congruence. by etrans.
Qed.

Lemma compare_option_spec a b : match compare_option a b with Lt => option_lt a b | Gt => option_lt b a | Eq => a = b end.
Proof. destruct a as [x|], b as [y|]; cbn; try done. destruct (Z.compare_spec x y); cbn; congruence || done. Qed.

Lemma compare_tips_spec a b c : compare_tips burn a b = Some c -> match c with Gt => gives_way b a | _ => gives_way a b end.
Proof.
  unfold compare_tips, gives_way. destruct (Z.compare_spec (hd_chain_length (ct_header a)) (hd_chain_length (ct_header b))) as [He|Hl|Hg]; [|intros [= <-]; by left|intros [= <-]; by left].
  pose proof (compare_option_spec (sortition_height burn a) (sortition_height burn b)) as Ho. destruct (compare_option _ _); [|intros [= <-]; right; split; [done|by left]|intros [= <-]; right; split; [done|by left]].
  destruct (header_block_id (ct_header b)) as [idb|] eqn:Hb; [|done]. destruct (header_block_id (ct_header a)) as [ida|] eqn:Ha; [|done]. cbn [mbind option_bind]. intros [= <-].
  pose proof (compare_bytes_antisym ida idb) as Hs. assert (H1 : compare_bytes idb ida <> Gt -> bytes_le idb ida) by done. assert (H2 : compare_bytes idb ida = Gt -> bytes_le ida idb) by (intros E; unfold bytes_le; rewrite E in Hs; destruct (compare_bytes ida idb); done).
  destruct (compare_bytes idb ida) eqn:E; right; (split; [done|]); right; (split; [done|]); [exists ida, idb|exists ida, idb|exists idb, ida]; split_and!; try done; by (apply H1 || apply H2).
Qed.

Lemma best_tip_spec best rest chosen : best_tip burn best rest = Some chosen -> chosen ∈ best :: rest /\ forall other, other ∈ best :: rest -> other = chosen \/ gives_way other chosen.
Proof.
  revert best. induction rest as [|candidate rest IH]; intros best; cbn [best_tip]; [intros [= <-]; split; [by left|]; intros other [->|?%elem_of_nil]%elem_of_cons; [by left|done]|].
  destruct (compare_tips burn best candidate) as [c|] eqn:Hc; [|done]. cbn [mbind option_bind]. apply compare_tips_spec in Hc. intros H.
  assert (exists kept lost, (match c with Gt => best | _ => candidate end) = kept /\ gives_way lost kept /\ (forall x, x ∈ best :: candidate :: rest <-> x = lost \/ x ∈ kept :: rest)) as (kept & lost & Hk & Hw & Hin).
  { destruct c; [exists candidate, best|exists candidate, best|exists best, candidate]; (split_and!; [done|done|]); intros x; rewrite !elem_of_cons; tauto. }
  rewrite Hk in H. apply IH in H as [Hmem Hall]. split; [apply Hin; by right|]. intros other [->|Ho]%Hin; [|by apply Hall]. right. destruct (Hall kept) as [->|Hkc]; [by left|done|by eapply gives_way_trans].
Qed.

Lemma willing_spec candidates signers tips : willing_tips candidates signers burn = Some tips -> forall c, c ∈ tips <-> c ∈ candidates /\ refuse_tip c signers burn = Some None.
Proof.
  revert tips. induction candidates as [|x rest IH]; intros tips; cbn [willing_tips]; [intros [= <-] c; split; [by intros ?%elem_of_nil|by intros [?%elem_of_nil _]]|].
  destruct (refuse_tip x signers burn) as [refusal|] eqn:Hr; [|done]. cbn [mbind option_bind]. destruct (willing_tips rest signers burn) as [others|]; [|done]. cbn [mbind option_bind]. specialize (IH others eq_refl).
  destruct refusal as [e|]; intros [= <-] c; rewrite ?elem_of_cons, IH; [|naive_solver]. split; [tauto|]. intros [[->|Hc] Hn]; [by rewrite Hr in Hn|done].
Qed.

Lemma chosen_spec candidates signers chosen : choose_canonical_tip candidates signers burn = Some chosen ->
  match chosen with
  | None => forall c, c ∈ candidates -> refuse_tip c signers burn <> Some None
  | Some best => best ∈ candidates /\ refuse_tip best signers burn = Some None /\ forall c, c ∈ candidates -> refuse_tip c signers burn = Some None -> c = best \/ gives_way c best
  end.
Proof.
  unfold choose_canonical_tip. destruct (willing_tips candidates signers burn) as [tips|] eqn:Hw; [|done]. cbn [mbind option_bind]. pose proof (willing_spec _ _ _ Hw) as Hin. destruct tips as [|first rest].
  - intros [= <-] c Hc Hn. by apply (elem_of_nil c), Hin.
  - destruct (best_tip burn first rest) as [best|] eqn:Hb; [|done]. cbn [mbind option_bind]. intros [= <-]. apply best_tip_spec in Hb as [Hmem Hall]. apply Hin in Hmem as [H1 H2]. split_and!; [done|done|]. intros c Hc Hn. by apply Hall, Hin.
Qed.

(** Tips of which each gives way to the other are of one block. *)
Lemma gives_way_both a b : gives_way a b -> gives_way b a -> header_block_id (ct_header a) = header_block_id (ct_header b).
Proof.
  unfold gives_way. intros [H1|[H1 [H2|(H2 & ia & ib & Ha & Hb & Hab)]]] [H3|[H3 [H4|(H4 & ib' & ia' & Hb' & Ha' & Hba)]]]; try lia.
  - exfalso. revert H2 H4. destruct (sortition_height burn a), (sortition_height burn b); cbn; lia || done.
  - exfalso. rewrite H4 in H2. revert H2. destruct (sortition_height burn a); cbn; lia || done.
  - exfalso. rewrite H2 in H4. revert H4. destruct (sortition_height burn b); cbn; lia || done.
  - rewrite Ha, Hb. f_equal. simplify_eq. by apply (anti_symm bytes_le).
Qed.

(** The same blocks are offered under the same claims, by whichever peers. *)
Definition same_offers (l l' : list CandidateTip) : Prop := forall info header, (exists p, mkTip p info header ∈ l) <-> (exists p, mkTip p info header ∈ l').

Lemma refused_alike p p' info header signers : refuse_tip (mkTip p info header) signers burn = refuse_tip (mkTip p' info header) signers burn.
Proof. done. Qed.

Lemma gives_way_alike p p' q q' info header info' header' : gives_way (mkTip p info header) (mkTip q info' header') <-> gives_way (mkTip p' info header) (mkTip q' info' header').
Proof. done. Qed.

(** C39: The tip choose_canonical_tip chooses is one of those offered that are not
    refused, and every other one of these is shorter, or of an earlier sortition, or
    has no lower identifier; where it can be judged it carries the threshold weight of
    the recorded signers; none is chosen only where all are refused; and nodes that
    are offered the same by any peers in any order choose the same block. *)
Theorem canonical_tip_spec candidates signers chosen (H : choose_canonical_tip candidates signers burn = Some chosen) :
  match chosen with
  | None => forall c, c ∈ candidates -> refuse_tip c signers burn <> Some None
  | Some best => best ∈ candidates /\ refuse_tip best signers burn = Some None /\ (forall c, c ∈ candidates -> refuse_tip c signers burn = Some None -> c = best \/ gives_way c best) /\
      (forall set, signers = Some set -> match burn with Some view => derived_view view (ti_consensus_hash (ct_info best)) (hd_bitcoin_spent (ct_header best)) = Some true | None => True end ->
        exists weight, SignerWeights.verify set (ct_header best) = Some (Ok weight))
  end /\
  forall candidates' chosen', same_offers candidates candidates' -> choose_canonical_tip candidates' signers burn = Some chosen' ->
    (fun tip => header_block_id (ct_header tip)) <$> chosen' = (fun tip => header_block_id (ct_header tip)) <$> chosen.
Proof.
  apply chosen_spec in H as Hc. split.
  - destruct chosen as [best|]; [|done]. destruct Hc as (H1 & H2 & H3). split_and!; [done|done|done|]. intros set -> Hj. unfold refuse_tip in H2.
    assert (Hw : weight_refusal (ct_header best) (Some set) = Some None) by (destruct burn; [rewrite Hj in H2|]; done). unfold weight_refusal, weigh_tip in Hw. destruct (SignerWeights.verify set (ct_header best)) as [[weight|e]|]; [by exists weight|done|done].
  - intros candidates' chosen' Hsame H'. apply chosen_spec in H' as Hc'. destruct chosen as [[p info header]|], chosen' as [[p' info' header']|]; [|exfalso..|done].
    + destruct Hc as (H1 & H2 & H3), Hc' as (H1' & H2' & H3'). cbn. f_equal. destruct (proj1 (Hsame info header)) as [q Hq]; [by exists p|]. destruct (proj2 (Hsame info' header')) as [q' Hq']; [by exists p'|].
      destruct (H3 _ Hq' (eq_trans (refused_alike _ _ _ _ _) H2')) as [[= _ -> ->]|Hw]; [done|]. destruct (H3' _ Hq (eq_trans (refused_alike _ _ _ _ _) H2)) as [[= _ -> ->]|Hw']; [done|].
      apply (gives_way_both (mkTip p' info' header') (mkTip p info header)); [by eapply gives_way_alike|by eapply gives_way_alike].
    + destruct Hc as (H1 & H2 & _). destruct (proj1 (Hsame info header)) as [q Hq]; [by exists p|]. by apply (Hc' _ Hq).
    + destruct Hc' as (H1 & H2 & _). destruct (proj2 (Hsame info' header')) as [q Hq]; [by exists p'|]. by apply (Hc _ Hq).
Qed.

(** Where the node derived the view a peer claims to be in, the tip's own view is not asked
    about. *)
Theorem claimed_view_decides p info header header' signers view (Hb : burn = Some view) (Hspent : hd_bitcoin_spent header = hd_bitcoin_spent header')
  (Hd : derived_view view (ti_consensus_hash info) (hd_bitcoin_spent header) = None) : refuse_tip (mkTip p info header) signers burn = Some None /\ refuse_tip (mkTip p info header') signers burn = Some None.
Proof. unfold refuse_tip. cbn. by rewrite Hb, <- Hspent, Hd. Qed.

End Choice.

(** ** Where the code and what is said of it part *)

Section Divergences.
Context `{HS : Hashes} `{SE : Secp256k1} `{ED : Edwards} `{LC : LruCrate} `{HT : HttpStack} `{JR : JsonReader} `{AT : AddressText}.

(** A hash of the right length with a character of two bytes in it is sliced inside that
    character. *)
Theorem multibyte_hash_panics : parse_hex 32 (97%u8 :: 195%u8 :: 169%u8 :: replicate 61 48%u8) = None.
Proof. vm_compute. reflexivity. Qed.

(** A plus sign is taken for a digit. *)
Theorem signed_hash_parses : parse_hex 1 (43%u8 :: 102%u8 :: []) = Some (Ok [15%u8]).
Proof. vm_compute. reflexivity. Qed.

(** Of two blocks a tenure is answered with, the first is the start and the second its
    parent. *)
Theorem tenure_stream_descends {S} start a b rest (s s' : S) (H : validate_tenure start (a :: b :: rest) s = Some (Ok tt, s')) :
  block_id a = Some start /\ block_id b = Some (hd_parent_block_id (bl_header a)).
Proof.
  unfold validate_tenure in H. apply eff_bind_ok in H as (id & s1 & Hid & H). apply unwrap_inv in Hid as [Hid ->]. case_bool_decide as Heq; [|done]. subst id. split; [done|].
  unfold validate_successors in H. cbn -[validate_successor] in H. apply eff_bind_ok in H as (checked & s2 & Hc & H). apply unwrap_inv in Hc as [Hc ->]. apply eff_bind_ok in H as (u & s3 & Hu & _). apply try_inv in Hu as [-> _].
  unfold validate_successor in Hc. unfold block_id. destruct (header_block_id (bl_header b)) as [id|]; cbn [mbind option_bind] in Hc; [|done]. injection Hc as Hc. case_bool_decide as Hp; [|done]. by rewrite Hp.
Qed.

(** When the peer that served last is moved to the front, another is named. *)
Theorem prefer_misattributes a b name next throttled failed served (Hname : url_parse name = Some (sc_base_url b)) (Hab : sc_base_url a <> sc_base_url b) :
  let before := mkSource [a; b] next throttled failed served (Some 1%nat) in
  TenureSource.last_served before = Some (url_text (sc_base_url b)) /\ TenureSource.last_served (TenureSource.prefer [name] before) = Some (url_text (sc_base_url a)).
Proof.
  cbv zeta. split; [done|]. assert (omap url_parse [name] = [sc_base_url b]) as Ho by (cbn; by rewrite Hname). unfold TenureSource.prefer, TenureSource.last_served. cbn -[bool_decide omap]. rewrite Ho.
  rewrite (bool_decide_eq_false_2 (sc_base_url a ∈ [sc_base_url b])) by (by intros ?%list_elem_of_singleton). by rewrite (bool_decide_eq_true_2 (sc_base_url b ∈ [sc_base_url b])) by left.
Qed.

End Divergences.
