(* ===== verification/StagedBlocks.v ===== *)
(** * Blocks fetched and not yet executed: [crates/nano-follower/src/staging.rs]

    A store of two tables, blocks that the chain state authenticated and downloads that it
    has not, and the branch of them that is selected for execution. SQLite executes each
    statement or fails, which a list of faults says; a transaction that fails leaves the
    tables as they were; the rows a query answers come in an order that SQL leaves open, and
    here in that of the map. A mutex is poisoned only by a panic and is left out, and the text of
    a refused row is a constructor. *)

From stdpp Require Import gmap sorting.
From S2P Require Import Prelude Primitives CodecIO Crypto TxData TxCodec Nakamoto Effects.

Definition I64_MAX : Z := 9223372036854775807.
Definition SCHEMA_VERSION : Z := 2.

(** The [rusqlite] crate: its errors, of which the code makes two. *)
Class Sqlite : Type := {
  SqliteError : Type;
  out_of_range : SqliteError;
  no_such_table : SqliteError;
}.

Inductive LegacyReason : Type := AlreadyQuarantined | UndecodableBlock (e : NakamotoCodecError) | RowDisagrees (id : list byte) | NoSignerCertificate (id : StacksBlockId) | RepresentationHash.

Module StagingError.
Inductive t `{Sqlite} : Type :=
| Storage (e : SqliteError)
| Block (e : NakamotoCodecError)
| RepresentationConflict (id : StacksBlockId)
| UnsupportedSchema (version : Z)
| LegacyRow (reason : LegacyReason)
| Incoherent.
End StagingError.

Inductive StagingInsert : Type := Inserted | Identical | AdditionalCertificate.

Record StagedLink : Type := mkLink { ln_block_id : list byte; ln_parent : list byte; ln_height : Z }.

#[global] Instance StagedLink_eq_dec : EqDecision StagedLink. Proof. solve_decision. Defined.

(** ** The tables *)

(** The columns of a row beside its key. *)
Record StagedRow : Type := mkStagedRow { sr_parent : list byte; sr_height : Z; sr_bytes : list byte }.
Record DownloadedRow : Type := mkDownloadedRow { dr_block_id : list byte; dr_row : StagedRow }.

Record Tables : Type := mkTables { tb_staged : gmap (list byte) StagedRow; tb_downloaded : gmap (list byte) DownloadedRow }.

(** A database file: a table that was not created is [None]. *)
Record StagingFile : Type := mkFile {
  sf_version : Z;
  sf_staged : option (gmap (list byte) StagedRow);
  sf_downloaded : option (gmap (list byte) DownloadedRow);
  sf_quarantined : option (gmap (list byte) StagedRow);
}.

(** The open store, and the faults of the statements to come. *)
Record Staging `{Sqlite} : Type := mkStaging { sg_tables : Tables; sg_selected : option (list StagedLink); sg_quarantined : Z; sg_faults : list (option SqliteError) }.
Arguments mkStaging {_} _ _ _ _.

Definition row_link (id : list byte) (row : StagedRow) : StagedLink := mkLink id (sr_parent row) (sr_height row).

(** The rows of both tables with the identifier of their block, the staged ones first. *)
Definition all_rows (t : Tables) : list (list byte * StagedRow) := map_to_list (tb_staged t) ++ map (fun entry => (dr_block_id entry.2, dr_row entry.2)) (map_to_list (tb_downloaded t)).
Definition rows_of (id : list byte) (t : Tables) : list StagedRow := map snd (List.filter (fun entry => bool_decide (entry.1 = id)) (all_rows t)).

(** ** The selected branch *)

(** The links by block. *)
Definition links (t : Tables) : gmap (list byte) StagedLink := foldl (fun m entry => <[entry.1 := row_link entry.1 entry.2]> m) ∅ (all_rows t).

(** [max_by_key] on the height and the identifier, over the links in the order of their
    identifiers. *)
Definition link_before (a b : StagedLink) : bool := (ln_height a <? ln_height b) || ((ln_height a =? ln_height b) && bool_decide (bytes_le (ln_block_id a) (ln_block_id b))).
Definition later_link (best : option StagedLink) (candidate : StagedLink) : option StagedLink :=
  match best with None => Some candidate | Some b => if link_before b candidate then Some candidate else Some b end.

Definition is_leaf (t : Tables) (link : StagedLink) : bool := negb (existsb (fun entry => bool_decide (sr_parent entry.2 = ln_block_id link)) (all_rows t)).
Definition selected_tip (t : Tables) : option StagedLink := foldl later_link None (List.filter (is_leaf t) (map snd (map_to_list (links t)))).

(** The walk down from the tip: [None] is a block met twice. [branch] is its lowest part
    first; as many rounds as there are blocks are enough. *)
Fixpoint walk_down (fuel : nat) (blocks : gmap (list byte) StagedLink) (visited : list (list byte)) (lowest : StagedLink) (branch : list StagedLink) : option (list StagedLink) :=
  match blocks !! ln_parent lowest with
  | None => Some branch
  | Some parent =>
      if bool_decide (ln_block_id parent ∈ visited) then None else
      match fuel with
      | O => None
      | S fuel => walk_down fuel blocks (ln_block_id parent :: visited) parent (parent :: branch)
      end
  end.

Section Selection.
Context `{SQ : Sqlite}.

(** The branch of the tables, and whether it is kept. *)
Definition select_branch (t : Tables) : result StagingError.t (list StagedLink) :=
  if negb (forallb (fun entry => (len entry.1 =? 32) && (len (sr_parent entry.2) =? 32)) (all_rows t)) then Err StagingError.Incoherent else
  let blocks := links t in
  match selected_tip t with
  | None => if bool_decide (blocks = ∅) then Ok [] else Err StagingError.Incoherent
  | Some tip => or_err (walk_down (size blocks) blocks [ln_block_id tip] tip [tip]) StagingError.Incoherent
  end.

End Selection.

Module Staging.
Section Ops.
Context `{HS : Hashes} `{ED : Edwards} `{SQ : Sqlite}.
Abbreviation M := (Eff Staging StagingError.t).

(** One statement. *)
Definition statement : M unit := fun s =>
  match sg_faults s with
  | Some e :: rest => Some (Err (StagingError.Storage e), mkStaging (sg_tables s) (sg_selected s) (sg_quarantined s) rest)
  | None :: rest => Some (Ok tt, mkStaging (sg_tables s) (sg_selected s) (sg_quarantined s) rest)
  | [] => Some (Ok tt, s)
  end.

(** The [u64] of a parameter is stored as an [i64]. *)
Definition to_sql (height : Z) : M unit := if I64_MAX <? height then throw (StagingError.Storage out_of_range) else mret tt.

Definition tables : M Tables := ask sg_tables.
Definition set_tables (t : Tables) : M unit := modify (fun s => mkStaging t (sg_selected s) (sg_quarantined s) (sg_faults s)).
Definition set_selected (selected : option (list StagedLink)) : M unit := modify (fun s => mkStaging (sg_tables s) selected (sg_quarantined s) (sg_faults s)).

(** A transaction: its [BEGIN], its body and its [COMMIT]; where one fails the tables are as
    they were. *)
Definition transaction {A} (body : M A) : M A := fun s =>
  match (_ ← statement; x ← body; _ ← statement; mret x) s with
  | Some (Err e, s') => Some (Err e, mkStaging (sg_tables s) (sg_selected s') (sg_quarantined s') (sg_faults s'))
  | r => r
  end.

Definition invalidate_selection : M unit := set_selected None.

Definition keep_selection_unless_new (link : StagedLink) : M unit :=
  selected ← ask sg_selected;
  if match selected with Some branch => bool_decide (link ∈ branch) | None => false end then mret tt else set_selected None.

Definition forget_selected_head (id : StacksBlockId) : M unit :=
  selected ← ask sg_selected;
  match selected with
  | Some (head :: branch) => if bool_decide (ln_block_id head = id) then set_selected (match branch with [] => None | _ => Some branch end) else set_selected None
  | _ => set_selected None
  end.

Definition block_core (block : NakamotoBlock) : option (list byte) := encode_block (mkBlock (set_signer_signatures [] (bl_header block)) (bl_transactions block)).
Definition block_core_digest (block : NakamotoBlock) : option Sha256Sum := core ← block_core block; Some (sha512_256 core).

(** The loop over the rows that are stored of a block. *)
Fixpoint check_rows (id : StacksBlockId) (expected_core : Sha256Sum) (rows : list StagedRow) : M unit :=
  match rows with
  | [] => mret tt
  | row :: rows =>
      decoded ← unwrap (decode_block (sr_bytes row));
      stored ← try_with StagingError.Block decoded;
      if negb (bool_decide (sr_parent row = hd_parent_block_id (bl_header stored))) || negb (sr_height row =? hd_chain_length (bl_header stored)) then throw (StagingError.RepresentationConflict id) else
      core ← unwrap (block_core_digest stored);
      if negb (bool_decide (core = expected_core)) then throw (StagingError.RepresentationConflict id) else check_rows id expected_core rows
  end.

Definition check_stored_representations (id : StacksBlockId) (block : NakamotoBlock) : M bool :=
  _ ← statement;
  t ← tables;
  expected_core ← unwrap (block_core_digest block);
  _ ← check_rows id expected_core (rows_of id t);
  mret (match rows_of id t with [] => false | _ => true end).

Definition link_of (id : StacksBlockId) (block : NakamotoBlock) : StagedLink := mkLink id (hd_parent_block_id (bl_header block)) (hd_chain_length (bl_header block)).
Definition row_of (block : NakamotoBlock) (bytes : list byte) : StagedRow := mkStagedRow (hd_parent_block_id (bl_header block)) (hd_chain_length (bl_header block)) bytes.

Definition stage_row (id : StacksBlockId) (row : StagedRow) : M unit :=
  _ ← to_sql (sr_height row); _ ← statement; t ← tables; set_tables (mkTables (<[id := row]> (tb_staged t)) (tb_downloaded t)).

(** The body of the transaction of [put]. *)
Definition put_row (id : StacksBlockId) (bytes : list byte) (block : NakamotoBlock) : M StagingInsert :=
  _ ← check_stored_representations id block;
  _ ← statement;
  t ← tables;
  match tb_staged t !! id with
  | Some existing =>
      match compare_bytes bytes (sr_bytes existing) with
      | Eq => mret Identical
      | Lt => _ ← stage_row id (row_of block bytes); mret AdditionalCertificate
      | Gt => mret AdditionalCertificate
      end
  | None => _ ← stage_row id (row_of block bytes); mret Inserted
  end.

(** [put] of an authenticated block. *)
Definition put (block : NakamotoBlock) : M StagingInsert :=
  id ← unwrap (block_id block);
  bytes ← unwrap (encode_block block);
  outcome ← transaction (put_row id bytes block);
  _ ← keep_selection_unless_new (link_of id block);
  mret outcome.

(** The body of the transaction of [download]. *)
Definition download_row (id : StacksBlockId) (bytes : list byte) (block : NakamotoBlock) : M StagingInsert :=
  had_representation ← check_stored_representations id block;
  _ ← statement;
  t ← tables;
  match tb_downloaded t !! sha512_256 bytes with
  | Some existing => if negb (bool_decide (sr_bytes (dr_row existing) = bytes)) then throw (StagingError.RepresentationConflict id) else mret Identical
  | None =>
      _ ← to_sql (hd_chain_length (bl_header block));
      _ ← statement;
      _ ← set_tables (mkTables (tb_staged t) (<[sha512_256 bytes := mkDownloadedRow id (row_of block bytes)]> (tb_downloaded t)));
      mret (if (had_representation : bool) then AdditionalCertificate else Inserted)
  end.

Definition download (block : NakamotoBlock) : M StagingInsert :=
  id ← unwrap (block_id block);
  bytes ← unwrap (encode_block block);
  outcome ← transaction (download_row id bytes block);
  _ ← keep_selection_unless_new (link_of id block);
  mret outcome.

Definition has_representation (id : StacksBlockId) : M bool := _ ← statement; t ← tables; mret (match rows_of id t with [] => false | _ => true end).

Definition is_authenticated (id : StacksBlockId) : M bool := _ ← statement; t ← tables; mret (bool_decide (is_Some (tb_staged t !! id))).

Definition selected_branch : M (list StagedLink) :=
  selected ← ask sg_selected;
  match selected with
  | Some branch => mret branch
  | None =>
      _ ← statement;
      t ← tables;
      branch ← try_with id (select_branch t);
      match branch with [] => mret [] | _ => _ ← set_selected (Some branch); mret branch end
  end.

(** The distinct bytes of a block, the authenticated ones first. *)
Definition stored_bytes (id : StacksBlockId) (t : Tables) : list (list byte) :=
  let staged := match tb_staged t !! id with Some row => [sr_bytes row] | None => [] end in
  let downloaded := map (fun entry => sr_bytes (dr_row entry.2)) (List.filter (fun entry => bool_decide (dr_block_id entry.2 = id)) (map_to_list (tb_downloaded t))) in
  staged ++ merge_sort bytes_le (remove_dups (List.filter (fun bytes => negb (bool_decide (bytes ∈ staged))) downloaded)).

Fixpoint decode_all (l : list (list byte)) : M (list NakamotoBlock) :=
  match l with
  | [] => mret []
  | bytes :: l => decoded ← unwrap (decode_block bytes); block ← try_with StagingError.Block decoded; blocks ← decode_all l; mret (block :: blocks)
  end.

Definition blocks (id : StacksBlockId) : M (list NakamotoBlock) := _ ← statement; t ← tables; decode_all (stored_bytes id t).

Definition block (id : StacksBlockId) : M (option NakamotoBlock) := found ← blocks id; mret (head found).

Definition descent_resumes_at : M (option (StacksBlockId * Z)) := branch ← selected_branch; mret ((fun link => (ln_parent link, ln_height link)) <$> head branch).

Definition highest : M (option NakamotoBlock) :=
  branch ← selected_branch;
  match last branch with None => mret None | Some link => block (ln_block_id link) end.

Definition child_representations (parent : StacksBlockId) : M (list NakamotoBlock) :=
  branch ← selected_branch;
  match List.find (fun link => bool_decide (ln_parent link = parent)) branch with None => mret [] | Some link => blocks (ln_block_id link) end.

Definition child_of (parent : StacksBlockId) : M (option NakamotoBlock) := found ← child_representations parent; mret (head found).

(** The tables without the blocks that [gone] holds of. *)
Definition without (gone : list byte -> StagedRow -> bool) (t : Tables) : Tables :=
  mkTables (filter (fun entry => gone entry.1 entry.2 = false) (tb_staged t)) (filter (fun entry => gone (dr_block_id entry.2) (dr_row entry.2) = false) (tb_downloaded t)).

(** [DELETE] from the one table and the other. *)
Definition delete_rows (gone : list byte -> StagedRow -> bool) : M unit :=
  _ ← statement; t ← tables; _ ← set_tables (mkTables (tb_staged (without gone t)) (tb_downloaded t));
  _ ← statement; t ← tables; set_tables (mkTables (tb_staged t) (tb_downloaded (without gone t))).

Definition remove (id : StacksBlockId) : M unit :=
  _ ← transaction (delete_rows (fun key _ => bool_decide (key = id)));
  forget_selected_head id.

Fixpoint delete_each (ids : list (list byte)) : M unit :=
  match ids with [] => mret tt | id :: ids => _ ← delete_rows (fun key _ => bool_decide (key = id)); delete_each ids end.

Definition remove_all (ids : list StacksBlockId) : M unit :=
  match ids with [] => mret tt | _ => _ ← transaction (delete_each ids); invalidate_selection end.

(** The recursive query: the blocks whose parent is found already are added until there are
    no more; as many rounds as there are rows are enough. *)
Fixpoint descendants (rounds : nat) (rows : list (list byte * StagedRow)) (found : gset (list byte)) : gset (list byte) :=
  match rounds with
  | O => found
  | S rounds => descendants rounds rows (found ∪ list_to_set (map fst (List.filter (fun entry => bool_decide (sr_parent entry.2 ∈ found)) rows)))
  end.

Definition branch_of (root : StacksBlockId) (t : Tables) : gset (list byte) :=
  let rows := all_rows t in
  if existsb (fun entry => bool_decide (entry.1 = root)) rows then descendants (length rows) rows {[root]} else ∅.

Definition remove_branch (root : StacksBlockId) : M Z :=
  removed ← transaction (_ ← statement; t ← tables; let ids := branch_of root t in _ ← delete_each (elements ids); mret (Z.of_nat (size ids)));
  _ ← invalidate_selection;
  mret removed.

(** The blocks a condition holds of, counted once each. *)
Definition count_blocks (chosen : list byte -> StagedRow -> bool) (t : Tables) : Z :=
  Z.of_nat (size (list_to_set (map fst (List.filter (fun entry => chosen entry.1 entry.2) (all_rows t))) : gset (list byte))).

Definition remove_to (height : Z) : M Z :=
  removed ← transaction (
    _ ← to_sql height;
    _ ← statement;
    t ← tables;
    let below := fun (_ : list byte) row => sr_height row <=? height in
    let removed := count_blocks below t in
    _ ← delete_rows below;
    mret removed);
  _ ← invalidate_selection;
  mret removed.

Definition clear : M unit :=
  _ ← transaction (delete_rows (fun _ _ => true));
  invalidate_selection.

Definition len : M Z := _ ← statement; t ← tables; mret (count_blocks (fun _ _ => true) t).
Definition is_empty : M bool := n ← len; mret (n =? 0).

(** ** Opening a file *)

(** A block read back from a row, with its core. *)
Definition check_file_row (staged : bool) (id : list byte) (row : StagedRow) (cores : gmap (list byte) Sha256Sum) : option (result StagingError.t (gmap (list byte) Sha256Sum)) :=
  decoded ← decode_block (sr_bytes row);
  match decoded with
  | Err e => Some (Err (StagingError.LegacyRow (UndecodableBlock e)))
  | Ok block =>
      found ← block_id block;
      if negb (bool_decide (id = found)) || negb (bool_decide (sr_parent row = hd_parent_block_id (bl_header block))) || negb (sr_height row =? hd_chain_length (bl_header block))
      then Some (Err (StagingError.LegacyRow (RowDisagrees id))) else
      if staged && bool_decide (hd_signer_signatures (bl_header block) = []) then Some (Err (StagingError.LegacyRow (NoSignerCertificate found))) else
      core ← block_core_digest block;
      match cores !! found with
      | None => Some (Ok (<[found := core]> cores))
      | Some known => if bool_decide (known = core) then Some (Ok cores) else Some (Err (StagingError.RepresentationConflict found))
      end
  end.

Fixpoint check_file_rows (staged : bool) (rows : list (list byte * StagedRow)) (cores : gmap (list byte) Sha256Sum) : option (result StagingError.t (gmap (list byte) Sha256Sum)) :=
  match rows with
  | [] => Some (Ok cores)
  | (id, row) :: rows => checked ← check_file_row staged id row cores; match checked with Ok cores => check_file_rows staged rows cores | Err e => Some (Err e) end
  end.

Definition validate_schema (f : StagingFile) : option (result StagingError.t Tables) :=
  match sf_staged f with
  | None => Some (Err (StagingError.Storage no_such_table))
  | Some staged =>
      checked ← check_file_rows true (map_to_list staged) ∅;
      match checked, sf_downloaded f with
      | Err e, _ => Some (Err e)
      | Ok _, None => Some (Err (StagingError.Storage no_such_table))
      | Ok cores, Some downloaded =>
          checked ← check_file_rows false (map (fun entry => (dr_block_id entry.2, dr_row entry.2)) (map_to_list downloaded)) cores;
          match checked with
          | Err e => Some (Err e)
          | Ok _ =>
              Some (if forallb (fun entry => bool_decide (entry.1 = sha512_256 (sr_bytes (dr_row entry.2)))) (map_to_list downloaded) then Ok (mkTables staged downloaded)
                    else Err (StagingError.LegacyRow RepresentationHash))
          end
      end
  end.

(** [CREATE TABLE IF NOT EXISTS] of both tables, and the version. *)
Definition create_schema (f : StagingFile) : StagingFile := mkFile SCHEMA_VERSION (Some (default ∅ (sf_staged f))) (Some (default ∅ (sf_downloaded f))) (sf_quarantined f).

Definition migrate_legacy_staging (f : StagingFile) : result StagingError.t StagingFile :=
  match sf_quarantined f with
  | Some _ => Err (StagingError.LegacyRow AlreadyQuarantined)
  | None => Ok (create_schema (mkFile (sf_version f) None (sf_downloaded f) (sf_staged f)))
  end.

Definition quarantined_rows (f : StagingFile) : Z := match sf_quarantined f with Some rows => Z.of_nat (size rows) | None => 0 end.

(** The store of a file, and the file as it is left; a file that is refused is left as it
    was. The statements that open it do not fail here. *)
Definition open (f : StagingFile) (faults : list (option SqliteError)) : option (result StagingError.t (Staging * StagingFile)) :=
  if negb ((sf_version f =? 0) || (sf_version f =? SCHEMA_VERSION)) then Some (Err (StagingError.UnsupportedSchema (sf_version f))) else
  match (if sf_version f =? 0 then match sf_staged f with Some _ => migrate_legacy_staging f | None => Ok (create_schema f) end else Ok f) with
  | Err e => Some (Err e)
  | Ok f =>
      checked ← validate_schema f;
      Some (let? t := checked in Ok (mkStaging t None (quarantined_rows f) faults, f))
  end.

End Ops.
End Staging.
