(* ===== verification/StagingTheorems.v ===== *)
(** * The branch of staged blocks that is executed next

    The branch [Staging] selects ends in the highest block without a child, each of its
    blocks has the one before as its parent, and the parent of the first is not held. What
    the store keeps of the selection between calls is what it would select again, through
    every operation. *)

From stdpp Require Import gmap sorting.
From S2P Require Import Prelude Primitives CodecIO Crypto TxData TxCodec TxWire TxAuth TxAuthTheorems Nakamoto SignerTheorems NakamotoTheorems Effects StagedBlocks.

(** ** Links *)

Definition link_in (t : Tables) (l : StagedLink) : Prop := exists entry, entry ∈ all_rows t /\ l = row_link entry.1 entry.2.

(** Rows of one block agree on its parent and its height. *)
Definition coherent (t : Tables) : Prop := forall l1 l2, link_in t l1 -> link_in t l2 -> ln_block_id l1 = ln_block_id l2 -> l1 = l2.

Definition insert_link (m : gmap (list byte) StagedLink) (entry : list byte * StagedRow) : gmap (list byte) StagedLink := <[entry.1 := row_link entry.1 entry.2]> m.

Lemma fold_links_sound rows m id l : foldl insert_link m rows !! id = Some l -> m !! id = Some l \/ exists e, e ∈ rows /\ e.1 = id /\ l = row_link e.1 e.2.
Proof.
  revert m. induction rows as [|e rows IH]; intros m; [by left|]. intros [H|(e' & ? & ?)]%IH; [|right; exists e'; split; [by right|done]].
  unfold insert_link in H. apply lookup_insert_Some in H as [[H1 H2]|[_ H]]; [|by left]. right. exists e. split; [left|done].
Qed.

Lemma fold_links_total rows m id : is_Some (m !! id) \/ id ∈ rows.*1 -> is_Some (foldl insert_link m rows !! id).
Proof.
  revert m. induction rows as [|e rows IH]; intros m; [by intros [?|?%elem_of_nil]|]. rewrite fmap_cons, elem_of_cons. intros H. apply IH. unfold insert_link.
  destruct (decide (e.1 = id)) as [<-|]; [left; by rewrite lookup_insert_eq|]. rewrite lookup_insert_ne by done. destruct H as [?|[?|?]]; [by left|done|by right].
Qed.

Lemma links_lookup t id l : coherent t -> links t !! id = Some l <-> link_in t l /\ ln_block_id l = id.
Proof.
  intros Hc. assert (Hs : forall l, links t !! id = Some l -> link_in t l /\ ln_block_id l = id).
  { intros l' [?|(e & He & <- & ->)]%fold_links_sound; [done|]. split; [by exists e|done]. }
  split; [apply Hs|]. intros [Hl Hid]. destruct (fold_links_total (all_rows t) ∅ id) as [l' Hl'].
  - right. destruct Hl as (e & He & ->). rewrite <- Hid. cbn. by apply list_elem_of_fmap_2.
  - change (links t !! id = Some l') in Hl'. rewrite Hl'. f_equal. apply Hs in Hl' as [H1 H2]. apply Hc; [done..|congruence].
Qed.

Lemma links_self t id l : links t !! id = Some l -> ln_block_id l = id.
Proof. intros [?|(e & _ & <- & ->)]%fold_links_sound; done. Qed.

Lemma link_in_lookup t l : coherent t -> link_in t l <-> links t !! ln_block_id l = Some l.
Proof. intros Hc. rewrite links_lookup by done. naive_solver. Qed.

(** A block without a child. *)
Definition leaf (t : Tables) (l : StagedLink) : Prop := link_in t l /\ forall child, link_in t child -> ln_parent child <> ln_block_id l.

Lemma is_leaf_true t l : is_leaf t l = true <-> forall child, link_in t child -> ln_parent child <> ln_block_id l.
Proof.
  unfold is_leaf. rewrite negb_true_iff, <- not_true_iff_false, existsb_exists. split.
  - intros H child (e & He & ->) Hp. apply H. exists e. split; [by apply list_elem_of_In|]. by apply bool_decide_eq_true_2.
  - intros H (e & He & Hp%bool_decide_eq_true_1). apply (H (row_link e.1 e.2)); [|done]. exists e. split; [by apply list_elem_of_In|done].
Qed.

Lemma leaves_in t l : coherent t -> In l (List.filter (is_leaf t) (map snd (map_to_list (links t)))) <-> leaf t l.
Proof.
  intros Hc. rewrite filter_In, is_leaf_true, in_map_iff. unfold leaf. split.
  - intros [((id & l') & <- & Hl%list_elem_of_In%elem_of_map_to_list) H]. split; [|done]. by apply links_lookup in Hl as [? _].
  - intros [Hl H]. split; [|done]. exists (ln_block_id l, l). split; [done|]. apply list_elem_of_In, elem_of_map_to_list. by apply link_in_lookup.
Qed.

(** ** The highest leaf *)

Lemma link_before_spec a b : link_before a b = true <-> ln_height a < ln_height b \/ ln_height a = ln_height b /\ bytes_le (ln_block_id a) (ln_block_id b).
Proof. unfold link_before. rewrite orb_true_iff, andb_true_iff, Z.ltb_lt, Z.eqb_eq, bool_decide_eq_true. done. Qed.

Lemma link_before_refl a : link_before a a = true.
Proof. apply link_before_spec. right. split; [done|]. by destruct (total bytes_le (ln_block_id a) (ln_block_id a)). Qed.

Lemma link_before_trans a b c : link_before a b = true -> link_before b c = true -> link_before a c = true.
Proof. rewrite !link_before_spec. intros [?|[? H1]] [?|[? H2]]; [left; lia..|]. right. split; [lia|]. by etrans. Qed.

Lemma link_before_total a b : link_before a b = false -> link_before b a = true.
Proof.
  rewrite <- not_true_iff_false, !link_before_spec. intros H. destruct (Z.lt_trichotomy (ln_height a) (ln_height b)) as [?|[Heq|?]]; [tauto| |lia].
  right. split; [done|]. destruct (total bytes_le (ln_block_id a) (ln_block_id b)); [tauto|done].
Qed.

Lemma link_before_anti a b : link_before a b = true -> link_before b a = true -> ln_block_id a = ln_block_id b.
Proof. rewrite !link_before_spec. intros [?|[? H1]] [?|[? H2]]; [lia..|]. by apply (anti_symm bytes_le). Qed.

Lemma later_links l b tip : foldl later_link (Some b) l = Some tip -> (tip = b \/ In tip l) /\ link_before b tip = true /\ forall x, In x l -> link_before x tip = true.
Proof.
  revert b. induction l as [|y l IH]; intros b; cbn [foldl later_link].
  - intros [= <-]. split; [by left|]. split; [apply link_before_refl|done].
  - destruct (link_before b y) eqn:E; intros (H1 & H2 & H3)%IH.
    + split; [destruct H1 as [->|]; [right; by left|right; by right]|]. split; [by eapply link_before_trans|]. by intros x [->|?]; [|apply H3].
    + split; [destruct H1; [by left|right; by right]|]. split; [done|]. intros x [->|?]; [|by apply H3]. eapply link_before_trans; [by apply link_before_total|done].
Qed.

Lemma later_links_some l b : is_Some (foldl later_link (Some b) l).
Proof. revert b. induction l as [|y l IH]; intros b; [by eexists|]. cbn. by destruct (link_before b y). Qed.

Lemma selected_tip_none t : coherent t -> selected_tip t = None <-> forall l, ~ leaf t l.
Proof.
  intros Hc. unfold selected_tip. pose proof (fun l => leaves_in t l Hc) as Hl. destruct (List.filter _ _) as [|b l] eqn:E; cbn.
  - split; [|done]. intros _ l ?%Hl. done.
  - destruct (later_links_some l b) as [x ->]. split; [done|]. intros H. destruct (H b). apply Hl. by left.
Qed.

Lemma selected_tip_some t tip : coherent t -> selected_tip t = Some tip <-> leaf t tip /\ forall l, leaf t l -> link_before l tip = true.
Proof.
  intros Hc. assert (Hs : forall tip, selected_tip t = Some tip -> leaf t tip /\ forall l, leaf t l -> link_before l tip = true).
  { intros tip'. unfold selected_tip. pose proof (fun l => leaves_in t l Hc) as Hl. destruct (List.filter _ _) as [|b l]; [done|]. cbn. intros (H1 & H2 & H3)%later_links.
    split; [apply Hl; destruct H1 as [->|]; [by left|by right]|]. by intros x [<-|?]%Hl; [|apply H3]. }
  split; [apply Hs|]. intros [H1 H2]. pose proof (proj1 (selected_tip_none t Hc)) as Hn. specialize (Hs (default tip (selected_tip t))). destruct (selected_tip t) as [tip'|]; [|by destruct (Hn eq_refl tip)].
  destruct (Hs eq_refl) as [H1' H2']. f_equal. apply Hc; [by destruct H1'|by destruct H1|]. apply link_before_anti; auto.
Qed.

(** ** The walk to the lowest block *)

(** The blocks from one down to the lowest that is held. *)
Inductive descent (m : gmap (list byte) StagedLink) : StagedLink -> list StagedLink -> Prop :=
| descent_end l : m !! ln_parent l = None -> descent m l [l]
| descent_step l parent r : m !! ln_parent l = Some parent -> descent m parent r -> descent m l (l :: r).

Section Walk.
Variable m : gmap (list byte) StagedLink.
Hypothesis Hself : forall id l, m !! id = Some l -> ln_block_id l = id.

Lemma descent_head l r : descent m l r -> exists r', r = l :: r'.
Proof. destruct 1; eauto. Qed.

Lemma descent_det l r1 r2 : descent m l r1 -> descent m l r2 -> r1 = r2.
Proof. intros H. revert r2. induction H as [l E|l p r E H IH]; intros r2 H2; inversion H2; subst; try congruence. assert (parent = p) as -> by congruence. f_equal. auto. Qed.

(** Each block of a descent starts one of its own. *)
Lemma descent_suffix l r x : descent m l r -> x ∈ r -> exists r1 r2, r = r1 ++ r2 /\ descent m x r2.
Proof.
  induction 1 as [l E|l p r E H IH]; [intros ->%list_elem_of_singleton; exists [], [l]; split; [done|by constructor]|].
  intros [->|Hx]%elem_of_cons; [exists [], (l :: r); split; [done|by econstructor]|]. destruct (IH Hx) as (r1 & r2 & -> & ?). by exists (l :: r1), r2.
Qed.

Lemma descent_tail_in l r x : descent m l (l :: r) -> x ∈ r -> m !! ln_block_id x = Some x.
Proof.
  intros H. remember (l :: r) as r0 eqn:E. revert r E. induction H as [l' E|l' p r E H IH]; intros r' [= <-]; [by intros ?%elem_of_nil|].
  pose proof (descent_head _ _ H) as (r1 & ->). intros [->|Hx]%elem_of_cons; [by rewrite (Hself _ _ E)|]. by apply (IH r1).
Qed.

Lemma descent_NoDup l r : m !! ln_block_id l = Some l -> descent m l r -> NoDup (ln_block_id <$> r).
Proof.
  intros Hl H. induction H as [l E|l p r E H IH]; [cbn; apply NoDup_singleton|]. cbn. apply NoDup_cons. split; [|apply IH; by rewrite (Hself _ _ E)].
  intros (x & Hx & Hin)%list_elem_of_fmap. assert (x = l) as ->.
  { pose proof (descent_tail_in l r x ltac:(by econstructor) Hin). congruence. }
  destruct (descent_suffix _ _ _ H Hin) as (r1 & r2 & -> & H2). assert (l :: r1 ++ r2 = r2) as Hr by (eapply descent_det; [by econstructor|done]).
  apply (f_equal length) in Hr. cbn in Hr. rewrite length_app in Hr. lia.
Qed.

Lemma walk_down_sound fuel visited l branch br : walk_down fuel m visited l branch = Some br -> exists r, descent m l (l :: r) /\ br = rev r ++ branch.
Proof.
  revert visited l branch. induction fuel as [|fuel IH]; intros visited l branch; cbn [walk_down]; destruct (m !! ln_parent l) as [p|] eqn:E.
  - by case_bool_decide.
  - intros [= <-]. exists []. split; [by constructor|done].
  - case_bool_decide; [done|]. intros (r & H1 & ->)%IH. exists (p :: r). split; [by econstructor|]. cbn. by rewrite <- app_assoc.
  - intros [= <-]. exists []. split; [by constructor|done].
Qed.

Lemma walk_down_complete fuel visited l r branch : descent m l (l :: r) -> (forall x, x ∈ r -> ln_block_id x ∉ visited) -> NoDup (ln_block_id <$> r) -> (length r <= fuel)%nat -> walk_down fuel m visited l branch = Some (rev r ++ branch).
Proof.
  revert visited l r branch. induction fuel as [|fuel IH]; intros visited l r branch H Hv Hnd Hf; inversion H as [? E|? p r' E Hp]; subst; cbn [walk_down]; rewrite E; try done.
  - destruct (descent_head _ _ Hp) as (r1 & ->). cbn in Hf. lia.
  - destruct (descent_head _ _ Hp) as (r1 & ->). cbn in Hnd. apply NoDup_cons in Hnd as [Hn Hnd]. rewrite bool_decide_eq_false_2 by (apply Hv; left).
    rewrite (IH _ _ r1); [cbn; by rewrite <- app_assoc|done| |done|cbn in Hf; lia]. intros x Hx [Heq|Hin]%elem_of_cons; [|by apply (Hv x); [right|]].
    apply Hn. apply list_elem_of_fmap. by exists x.
Qed.

(** As many rounds as there are blocks are enough. *)
Lemma walk_down_spec tip br : m !! ln_block_id tip = Some tip -> walk_down (size m) m [ln_block_id tip] tip [tip] = Some br <-> exists r, descent m tip r /\ br = rev r.
Proof.
  intros Ht. split; [intros (r & H & ->)%walk_down_sound; by exists (tip :: r)|]. intros (r0 & H & ->). destruct (descent_head _ _ H) as (r & ->).
  pose proof (descent_NoDup _ _ Ht H) as Hnd. cbn in Hnd. apply NoDup_cons in Hnd as [Hn Hnd]. apply walk_down_complete; [done| |done|].
  - intros x Hx Heq%list_elem_of_singleton. apply Hn. apply list_elem_of_fmap. by exists x.
  - rewrite <- (length_fmap ln_block_id r), <- (size_list_to_set (C := gset (list byte)) _ Hnd), <- (size_dom m). apply subseteq_size.
    intros id (x & -> & Hx)%elem_of_list_to_set%list_elem_of_fmap. apply elem_of_dom. eexists. by eapply descent_tail_in.
Qed.

End Walk.

Lemma reverse_of_rev {A} (l : list A) : rev l = reverse l.
Proof. apply rev_alt. Qed.

(** ** The branch selected *)

Section Selected.
Context `{SQ : Sqlite}.

(** The identifiers of the tables have 32 bytes. *)
Definition sized (t : Tables) : Prop := forall l, link_in t l -> len (ln_block_id l) = 32 /\ len (ln_parent l) = 32.

(** What is selected: the descent from the highest block without a child, lowest first. *)
Definition selection (t : Tables) (br : list StagedLink) : Prop :=
  (br = [] /\ forall l, ~ link_in t l) \/ exists tip r, (leaf t tip /\ forall l, leaf t l -> link_before l tip = true) /\ descent (links t) tip r /\ br = rev r.

Lemma sized_true t : forallb (fun entry => (len entry.1 =? 32) && (len (sr_parent entry.2) =? 32)) (all_rows t) = true <-> sized t.
Proof.
  rewrite forallb_forall. unfold sized. split.
  - intros H l (e & He%list_elem_of_In & ->). specialize (H e He). apply andb_true_iff in H as [?%Z.eqb_eq ?%Z.eqb_eq]. done.
  - intros H e He%list_elem_of_In. destruct (H (row_link e.1 e.2)) as [H1 H2]; [by exists e|]. apply andb_true_iff. split; by apply Z.eqb_eq.
Qed.

Lemma links_empty t : coherent t -> links t = ∅ <-> forall l, ~ link_in t l.
Proof.
  intros Hc. split.
  - intros E l Hl%(link_in_lookup t l Hc). by rewrite E, lookup_empty in Hl.
  - intros H. apply map_eq. intros id. rewrite lookup_empty. destruct (links t !! id) eqn:E; [|done]. apply links_lookup in E as [E _]; [by destruct (H _ E)|done].
Qed.

Lemma select_branch_spec t br : coherent t -> select_branch t = Ok br <-> sized t /\ selection t br.
Proof.
  intros Hc. unfold select_branch, selection. rewrite <- sized_true. destruct (forallb _ _); cbn [negb]; [|naive_solver].
  pose proof (selected_tip_none t Hc) as Hn. pose proof (fun tip => selected_tip_some t tip Hc) as Hs. destruct (selected_tip t) as [tip|].
  - destruct (proj1 (Hs tip) eq_refl) as [Hl Hmax]. pose proof (proj1 (link_in_lookup t tip Hc) (proj1 Hl)) as Ht. pose proof (fun br => walk_down_spec (links t) (links_self t) tip br Ht) as Hw.
    destruct (walk_down _ _ _ _ _) as [br'|]; cbn; (split; [|intros [_ [[_ He]|(tip' & r & Ht' & Hd & ->)]]; [destruct (He tip); apply Hl|apply Hs in Ht' as [= <-]]]).
    + intros [= ->]. split; [done|]. right. destruct (proj1 (Hw br) eq_refl) as (r & ? & ->). by exists tip, r.
    + f_equal. enough (Some br' = Some (rev r)) by congruence. apply Hw. by exists r.
    + done.
    + enough (None = Some (rev r)) by done. apply Hw. by exists r.
  - case_bool_decide as He; (split; [|intros [_ [[-> He']|(tip & r & [Hl _] & _)]]; [|by destruct (proj1 Hn eq_refl tip)]]); try done.
    + intros [= <-]. split; [done|]. left. split; [done|]. by apply links_empty.
    + destruct He. by apply links_empty.
Qed.

Lemma leaf_ext t1 t2 : (forall l, link_in t1 l <-> link_in t2 l) -> forall l, leaf t1 l <-> leaf t2 l.
Proof. intros H l. unfold leaf. setoid_rewrite H. done. Qed.

Lemma coherent_ext t1 t2 : (forall l, link_in t1 l <-> link_in t2 l) -> coherent t1 -> coherent t2.
Proof. intros H Hc l1 l2 ?%H ?%H. by apply Hc. Qed.

Lemma select_ext t1 t2 br : (forall l, link_in t1 l <-> link_in t2 l) -> coherent t1 -> select_branch t1 = Ok br -> select_branch t2 = Ok br.
Proof.
  intros H Hc. pose proof (coherent_ext _ _ H Hc) as Hc2. rewrite !select_branch_spec by done. pose proof (leaf_ext _ _ H) as Hl.
  assert (links t2 = links t1) as E.
  { apply map_eq. intros id. apply option_eq. intros l. rewrite !links_lookup by done. by rewrite H. }
  unfold sized, selection. rewrite E. intros [Hs [[-> He]|(tip & r & [Ht Hm] & Hd & ->)]].
  - split; [intros l ?%H; auto|]. left. split; [done|]. intros l ?%H. by eapply He.
  - split; [intros l ?%H; auto|]. right. exists tip, r. split_and!; [by apply Hl|intros l ?%Hl; auto|done|done].
Qed.

Lemma select_no_storage t e : select_branch t <> Err (StagingError.Storage e).
Proof. unfold select_branch, or_err. repeat case_match; done. Qed.

(** Every block of the branch is held, once. *)
Lemma selection_in t br : coherent t -> selection t br -> NoDup (ln_block_id <$> br) /\ forall l, l ∈ br -> link_in t l.
Proof.
  intros Hc [[-> _]|(tip & r & [[Ht _] _] & Hd & ->)]; [split; [constructor|by intros l ?%elem_of_nil]|].
  pose proof (proj1 (link_in_lookup t tip Hc) Ht) as Hl. split.
  - rewrite reverse_of_rev, fmap_reverse, reverse_Permutation. by eapply (descent_NoDup (links t) (links_self t)).
  - intros l. rewrite reverse_of_rev, elem_of_reverse. destruct (descent_head _ _ _ Hd) as (r' & ->). intros [->|Hin]%elem_of_cons; [done|].
    apply link_in_lookup; [done|]. by eapply (descent_tail_in (links t) (links_self t)).
Qed.

(** ** Without a block *)

Lemma link_in_without gone t l : link_in (Staging.without gone t) l <-> exists entry, entry ∈ all_rows t /\ gone entry.1 entry.2 = false /\ l = row_link entry.1 entry.2.
Proof.
  unfold link_in, all_rows, Staging.without. cbn. setoid_rewrite elem_of_app. setoid_rewrite list_elem_of_fmap. split.
  - intros ([id row] & [H|([rep row'] & E & H)] & ->).
    + apply elem_of_map_to_list, map_lookup_filter_Some in H as [H Hg]. exists (id, row). split; [left; by apply elem_of_map_to_list|done].
    + cbn in *. injection E as -> ->. apply elem_of_map_to_list, map_lookup_filter_Some in H as [H Hg]. eexists. split; [right; exists (rep, row'); split; [done|by apply elem_of_map_to_list]|done].
  - intros ([id row] & [H%elem_of_map_to_list|([rep row'] & E & H%elem_of_map_to_list)] & Hg & ->).
    + exists (id, row). split; [left|done]. apply elem_of_map_to_list, map_lookup_filter_Some. done.
    + cbn in *. injection E as -> ->. eexists. split; [right; exists (rep, row'); split; [done|]|done]. apply elem_of_map_to_list, map_lookup_filter_Some. done.
Qed.

Definition without_block (id : list byte) : Tables -> Tables := Staging.without (fun key _ => bool_decide (key = id)).

Lemma link_in_without_block id t l : link_in (without_block id t) l <-> link_in t l /\ ln_block_id l <> id.
Proof.
  unfold without_block. rewrite link_in_without. unfold link_in. split.
  - intros (e & He & Hg%bool_decide_eq_false & ->). split; [by exists e|done].
  - intros [(e & He & ->) Hn]. exists e. split_and!; [done|by apply bool_decide_eq_false|done].
Qed.

Lemma coherent_without gone t : coherent t -> coherent (Staging.without gone t).
Proof. intros Hc l1 l2 (e1 & ? & _ & ->)%link_in_without (e2 & ? & _ & ->)%link_in_without. apply Hc; [by exists e1|by exists e2]. Qed.

Lemma descent_delete m l r h : (forall id l, m !! id = Some l -> ln_block_id l = id) -> descent m l (r ++ [h]) -> r <> [] -> NoDup (ln_block_id <$> r ++ [h]) -> descent (delete (ln_block_id h) m) l r.
Proof.
  intros Hself. revert l. induction r as [|a r IH]; intros l H Hr Hnd; [done|]. inversion H as [|? p ? E Hd]; subst; [by destruct r|].
  destruct r as [|b r].
  - inversion Hd; subst; [|by destruct (descent_head _ _ _ H4)]. constructor. rewrite <- (Hself _ _ E). by rewrite lookup_delete_eq.
  - destruct (descent_head _ _ _ Hd) as (? & [= <- _]). cbn in Hnd. apply NoDup_cons in Hnd as [_ Hnd]. econstructor; [|by apply IH].
    rewrite lookup_delete_ne; [done|]. intros Hh. apply NoDup_cons in Hnd as [Hn _]. apply Hn. rewrite <- (Hself _ _ E) in Hh. rewrite fmap_app, elem_of_app. right. cbn. rewrite Hh. left.
Qed.

(** Without its lowest block the branch is the rest of it. *)
Lemma select_without_head t h rest : coherent t -> rest <> [] -> select_branch t = Ok (h :: rest) -> select_branch (without_block (ln_block_id h) t) = Ok rest.
Proof.
  intros Hc Hr. pose proof (coherent_without (fun key _ => bool_decide (key = ln_block_id h)) t Hc) as Hc'. fold (without_block (ln_block_id h) t) in Hc'.
  rewrite !select_branch_spec by done. intros [Hs Hsel]. split; [intros l [Hl _]%link_in_without_block; by apply Hs|].
  destruct (selection_in t _ Hc Hsel) as [Hnd Hin]. destruct Hsel as [[? _]|(tip & r & [[Ht Hleaf] Hmax] & Hd & Hbr)]; [done|].
  assert (r = rev rest ++ [h]) as -> by (rewrite <- (rev_involutive r), <- Hbr; done).
  assert (Hnd' : NoDup (ln_block_id <$> rev rest ++ [h])) by (change (rev rest ++ [h]) with (rev (h :: rest)); by rewrite reverse_of_rev, fmap_reverse, reverse_Permutation).
  assert (Hr' : rev rest <> []) by (intros E; apply Hr; by rewrite <- (rev_involutive rest), E).
  assert (links (without_block (ln_block_id h) t) = delete (ln_block_id h) (links t)) as El.
  { apply map_eq. intros id. apply option_eq. intros l. rewrite links_lookup by done. rewrite lookup_delete_Some, links_lookup, link_in_without_block by done. naive_solver. }
  assert (Hlow : links t !! ln_parent h = None).
  { clear -Hd. revert tip Hd. induction (rev rest) as [|a r IH]; intros tip Hd; cbn in Hd; inversion Hd; subst; [done|by destruct (descent_head _ _ _ H3)|by destruct r|by eapply IH]. }
  assert (Htip : ln_block_id tip <> ln_block_id h).
  { destruct (rev rest) as [|a r]; [done|]. destruct (descent_head _ _ _ Hd) as (? & [= -> _]). cbn in Hnd'. apply NoDup_cons in Hnd' as [Hn _]. intros E. apply Hn. rewrite E, fmap_app, elem_of_app. right. left. }
  right. exists tip, (rev rest). split; [|split; [rewrite El; apply descent_delete; [apply links_self|done..]|by rewrite rev_involutive]]. split.
  - split; [by apply link_in_without_block|]. intros child [Hch _]%link_in_without_block. by apply Hleaf.
  - intros l [[Hl Hne]%link_in_without_block Hlf]. apply Hmax. split; [done|]. intros child Hch Hp. destruct (decide (ln_block_id child = ln_block_id h)) as [Hid|Hid].
    + assert (child = h) as -> by (apply Hc; [done|apply Hin; left|done]). rewrite Hp in Hlow. apply link_in_lookup in Hl; [congruence|done].
    + apply (Hlf child); [by apply link_in_without_block|done].
Qed.

End Selected.

(** ** The descendants of a block *)

Definition child_in (rows : list (list byte * StagedRow)) (parent child : list byte) : Prop := exists row, (child, row) ∈ rows /\ sr_parent row = parent.

(** One round of the recursive query. *)
Definition with_children (rows : list (list byte * StagedRow)) (found : gset (list byte)) : gset (list byte) :=
  found ∪ list_to_set (map fst (List.filter (fun entry => bool_decide (sr_parent entry.2 ∈ found)) rows)).

Lemma with_children_in rows found id : id ∈ with_children rows found <-> id ∈ found \/ exists parent, parent ∈ found /\ child_in rows parent id.
Proof.
  unfold with_children, child_in. rewrite elem_of_union, elem_of_list_to_set, list_elem_of_fmap. apply or_iff_compat_l. split.
  - intros ([id' row] & -> & [Hin%list_elem_of_In Hp%bool_decide_eq_true]%list_elem_of_In%filter_In). cbn in *. by exists (sr_parent row); eauto.
  - intros (parent & Hp & row & Hin & <-). exists (id, row). split; [done|]. apply list_elem_of_In, filter_In. split; [by apply list_elem_of_In|by apply bool_decide_eq_true].
Qed.

Lemma descendants_closed rows found rounds : with_children rows found = found -> Staging.descendants rounds rows found = found.
Proof. intros Hc. induction rounds as [|rounds IH]; [done|]. cbn [Staging.descendants]. fold (with_children rows found). by rewrite Hc. Qed.

(** A round that is not the last that changes anything finds a block. *)
Lemma descendants_grow rows rounds found : with_children rows (Staging.descendants rounds rows found) = Staging.descendants rounds rows found \/ (size found + rounds <= size (Staging.descendants rounds rows found))%nat.
Proof.
  revert found. induction rounds as [|rounds IH]; intros found; [right; cbn; lia|]. cbn [Staging.descendants]. fold (with_children rows found).
  destruct (decide (with_children rows found = found)) as [Hc|Hc]; [left; rewrite Hc; by rewrite descendants_closed|]. destruct (IH (with_children rows found)) as [H|H]; [by left|right].
  assert (size found < size (with_children rows found))%nat; [|lia]. apply subset_size. split; [intros id Hid; apply with_children_in; by left|].
  intros Hsub. apply Hc. apply set_eq. intros id. split; [apply Hsub|]. intros ?. apply with_children_in. by left.
Qed.

Lemma descendants_sound rows root rounds found : (forall id, id ∈ found -> rtc (child_in rows) root id) -> forall id, id ∈ Staging.descendants rounds rows found -> rtc (child_in rows) root id.
Proof.
  revert found. induction rounds as [|rounds IH]; intros found Hf; [done|]. cbn [Staging.descendants]. apply IH. fold (with_children rows found).
  intros id [?|(parent & Hp & Hch)]%with_children_in; [auto|]. eapply rtc_r; [by apply Hf|done].
Qed.

Lemma descendants_keep rows rounds found : found ⊆ Staging.descendants rounds rows found.
Proof. revert found. induction rounds as [|rounds IH]; intros found; [done|]. cbn [Staging.descendants]. etrans; [|apply IH]. set_solver. Qed.

Lemma descendants_spec rows root id : root ∈ rows.*1 -> id ∈ Staging.descendants (length rows) rows {[root]} <-> rtc (child_in rows) root id.
Proof.
  intros Hroot. set (found := Staging.descendants (length rows) rows {[root]}). assert (Hs : forall id, id ∈ found -> rtc (child_in rows) root id) by (apply descendants_sound; by intros ? ->%elem_of_singleton).
  assert (Hin : forall id, rtc (child_in rows) root id -> id ∈ rows.*1).
  { intros id' H. apply rtc_inv_r in H as [->|(p & _ & row & H & _)]; [done|]. apply list_elem_of_fmap. by exists (id', row). }
  assert (Hsize : (size found <= length rows)%nat).
  { etrans; [apply (subseteq_size _ (list_to_set rows.*1)); intros id' ?%Hs%Hin; by apply elem_of_list_to_set|]. rewrite <- (length_fmap fst rows). apply size_list_to_set_le. }
  assert (Hc : with_children rows found = found).
  { destruct (descendants_grow rows (length rows) {[root]}) as [?|Hg]; [done|]. fold found in Hg. rewrite size_singleton in Hg. lia. }
  split; [apply Hs|]. intros H. revert id H. apply rtc_ind_r; [apply (descendants_keep rows (length rows) {[root]}); by apply elem_of_singleton|].
  intros p c _ Hch Hp. rewrite <- Hc. apply with_children_in. right. by exists p.
Qed.

(** ** The store *)

Section Store.
Context `{HS : Hashes} `{HO : !HashesOk} `{ED : Edwards} `{SQ : Sqlite}.
Abbreviation M := (Eff Staging StagingError.t).

(** What a block's types say of it. *)
Definition encodable (b : NakamotoBlock) : Prop := header_ok (bl_header b) /\ is_u32 (len (bl_transactions b)) /\ Forall block_transaction_ok (bl_transactions b).

Lemma block_core_binds b1 b2 core : encodable b1 -> encodable b2 -> len core <= USIZE_MAX -> Staging.block_core b1 = Some core -> Staging.block_core b2 = Some core -> set_signer_signatures [] (bl_header b1) = set_signer_signatures [] (bl_header b2).
Proof.
  assert (Hc : forall b, encodable b -> Staging.block_core b = Some core -> len core <= USIZE_MAX -> exists hb, reads (Reader.new core) hb (mkReader core (len hb)) /\ read_header (Reader.new core) = Ok (set_signer_signatures [] (bl_header b), mkReader core (len hb))).
  { intros b (Hh & Hu & Ht) Hb Hl. assert (Hh' : header_ok (set_signer_signatures [] (bl_header b))).
    { unfold header_ok in *. cbn -[len]. destruct Hh as (H1 & H2 & H3 & H4 & H5 & H6 & H7 & H8 & [H9 _] & H10 & H11). split_and!; done. }
    destruct (wire_complete (Wire := header_wire) _ Hh') as (hb & E & C). unfold Staging.block_core in Hb. rewrite (emits_block _ hb) in Hb by done. injection Hb as Hb.
    assert (R : reads (Reader.new core) hb (mkReader core (len hb))) by (eapply reads_new; by rewrite <- Hb). exists hb. split; [done|]. by apply C. }
  intros H1 H2 Hl E1 E2. destruct (Hc b1 H1 E1 Hl) as (hb1 & _ & R1), (Hc b2 H2 E2 Hl) as (hb2 & _ & R2). congruence.
Qed.

Lemma decode_block_encodable bytes b : decode_block bytes = Some (Ok b) -> encodable b.
Proof.
  unfold decode_block. destruct (decode_prefix_spec bytes) as (r & -> & Hr). cbn. destruct r as [[b' n]|]; [|done]. cbn. destruct (negb _); [done|]. intros [= ->].
  destruct (Hr b n eq_refl) as (raw & rest & [Hb _] & _). unfold block_ok in Hb. unfold encodable. tauto.
Qed.

Definition stored_core (row : StagedRow) : option (list byte) := decoded ← decode_block (sr_bytes row); match decoded with Ok b => Staging.block_core b | Err _ => None end.

(** The cores of one block have distinct digests, and fit in memory. *)
Definition cores_bind (cores : list (list byte)) : Prop := collision_free cores /\ Forall (fun core => len core <= USIZE_MAX) cores.

(** A row that was checked against the digest of a core. *)
Definition checked_row (digest : Sha256Sum) (row : StagedRow) : Prop :=
  exists stored, decode_block (sr_bytes row) = Some (Ok stored) /\ sr_parent row = hd_parent_block_id (bl_header stored) /\ sr_height row = hd_chain_length (bl_header stored) /\ Staging.block_core_digest stored = Some digest.

Lemma checked_row_core digest row : checked_row digest row -> exists core, stored_core row = Some core /\ sha512_256 core = digest.
Proof. intros (b & Hd & _ & _ & Hc). unfold Staging.block_core_digest in Hc. unfold stored_core. rewrite Hd. cbn [mbind option_bind]. destruct (Staging.block_core b) as [core|]; cbn [mbind option_bind] in Hc; [|done]. injection Hc as <-. exists core. done. Qed.

Lemma digest_names_parent cores digest b1 b2 core1 core2 : cores_bind cores -> encodable b1 -> encodable b2 -> Staging.block_core b1 = Some core1 -> Staging.block_core b2 = Some core2 -> core1 ∈ cores -> core2 ∈ cores ->
  Staging.block_core_digest b1 = Some digest -> Staging.block_core_digest b2 = Some digest -> hd_parent_block_id (bl_header b1) = hd_parent_block_id (bl_header b2) /\ hd_chain_length (bl_header b1) = hd_chain_length (bl_header b2).
Proof.
  intros [Hfree Hfits] W1 W2 E1 E2 Hin1 Hin2. unfold Staging.block_core_digest. rewrite E1, E2. intros [= Hd1] [= Hd2].
  assert (core1 = core2) as <- by (apply Hfree; [done..|congruence]). pose proof (proj1 (Forall_forall _ _) Hfits core1 Hin1) as Hl.
  pose proof (block_core_binds b1 b2 core1 W1 W2 Hl E1 E2) as Hh. split; [by apply (f_equal hd_parent_block_id) in Hh|by apply (f_equal hd_chain_length) in Hh].
Qed.

Lemma checked_rows_agree cores digest row1 row2 : cores_bind cores -> (forall core, stored_core row1 = Some core -> core ∈ cores) -> (forall core, stored_core row2 = Some core -> core ∈ cores) ->
  checked_row digest row1 -> checked_row digest row2 -> sr_parent row1 = sr_parent row2 /\ sr_height row1 = sr_height row2.
Proof.
  intros Hb Hin1 Hin2 H1 H2. destruct (checked_row_core _ _ H1) as (c1 & E1 & _), (checked_row_core _ _ H2) as (c2 & E2 & _). specialize (Hin1 _ E1). specialize (Hin2 _ E2).
  destruct H1 as (b1 & D1 & -> & -> & Hd1), H2 as (b2 & D2 & -> & -> & Hd2). unfold stored_core in E1, E2. rewrite D1 in E1. rewrite D2 in E2.
  eapply (digest_names_parent cores digest b1 b2 c1 c2); eauto using decode_block_encodable.
Qed.

(** ** Tables with a row more *)

Definition grown (t : Tables) (link : StagedLink) (t' : Tables) : Prop := forall l, link_in t' l <-> link_in t l \/ l = link.

(** The rows of a block in the table are those of a link. *)
Definition agrees (t : Tables) (link : StagedLink) : Prop := forall l, link_in t l -> ln_block_id l = ln_block_id link -> l = link.

Lemma grown_coherent t link t' : coherent t -> agrees t link -> grown t link t' -> coherent t'.
Proof. intros Hc Ha Hg l1 l2 [H1| ->]%Hg [H2| ->]%Hg Hid; [by apply Hc|by apply Ha|symmetry; by apply Ha|done]. Qed.

Lemma link_in_staged t l : link_in t l <-> (exists id row, tb_staged t !! id = Some row /\ l = row_link id row) \/ exists key entry, tb_downloaded t !! key = Some entry /\ l = row_link (dr_block_id entry) (dr_row entry).
Proof.
  unfold link_in, all_rows. setoid_rewrite elem_of_app. setoid_rewrite list_elem_of_fmap. split.
  - intros ([id row] & [H%elem_of_map_to_list|([key entry] & E & H%elem_of_map_to_list)] & ->); [left; by exists id, row|]. cbn in *. injection E as -> ->. right. by exists key, entry.
  - intros [(id & row & H & ->)|(key & entry & H & ->)].
    + exists (id, row). split; [left; by apply elem_of_map_to_list|done].
    + eexists (_, _). split; [right; exists (key, entry); split; [done|by apply elem_of_map_to_list]|done].
Qed.

Lemma grown_staged t id row : agrees t (row_link id row) -> grown t (row_link id row) (mkTables (<[id := row]> (tb_staged t)) (tb_downloaded t)).
Proof.
  intros Ha l. rewrite (link_in_staged t), link_in_staged. cbn [tb_staged tb_downloaded]. split.
  - intros [(id' & row' & [[<- <-]|[Hne H]]%lookup_insert_Some & ->)|H]; [by right|left; left; by exists id', row'|left; by right].
  - intros [[(id' & row' & H & ->)|H]| ->]; [|by right|left; exists id, row; split; [by rewrite lookup_insert_eq|done]]. left. destruct (decide (id' = id)) as [->|].
    + exists id, row. split; [by rewrite lookup_insert_eq|]. apply Ha; [|done]. apply link_in_staged. left. by exists id, row'.
    + exists id', row'. by rewrite lookup_insert_ne.
Qed.

Lemma grown_downloaded t key id row : tb_downloaded t !! key = None -> grown t (row_link id row) (mkTables (tb_staged t) (<[key := mkDownloadedRow id row]> (tb_downloaded t))).
Proof.
  intros Hn l. rewrite (link_in_staged t), link_in_staged. cbn [tb_staged tb_downloaded]. split.
  - intros [H|(key' & e & [[<- <-]|[Hne H]]%lookup_insert_Some & ->)]; [left; by left|by right|left; right; by exists key', e].
  - intros [[H|(key' & e & H & ->)]| ->]; [by left| |right; eexists key, _; split; [by rewrite lookup_insert_eq|done]]. right. exists key', e. rewrite lookup_insert_ne by congruence. done.
Qed.

Lemma rows_of_in id t row : row ∈ rows_of id t <-> (id, row) ∈ all_rows t.
Proof.
  unfold rows_of. rewrite list_elem_of_fmap. split.
  - intros ([id' row'] & -> & [Hin%list_elem_of_In Hid%bool_decide_eq_true]%list_elem_of_In%filter_In). cbn in Hid. by subst.
  - intros H. exists (id, row). split; [done|]. apply list_elem_of_In, filter_In. split; [by apply list_elem_of_In|by apply bool_decide_eq_true].
Qed.

(** The cores of a block that is kept and of what is held of it. *)
Definition cores_beside (id : list byte) (block : NakamotoBlock) (t : Tables) : list (list byte) := option_list (Staging.block_core block) ++ omap stored_core (rows_of id t).

Lemma checked_agrees t id block digest : encodable block -> cores_bind (cores_beside id block t) -> Staging.block_core_digest block = Some digest -> Forall (checked_row digest) (rows_of id t) ->
  agrees t (Staging.link_of id block).
Proof.
  intros Hb Hc Hd HF l (e & He & ->) Hid. cbn in Hid. subst id. assert (Hrow : e.2 ∈ rows_of e.1 t) by (apply rows_of_in; by destruct e).
  pose proof (proj1 (Forall_forall _ _) HF _ Hrow) as Hck. destruct (checked_row_core _ _ Hck) as (c2 & E2 & _). destruct Hck as (b2 & D2 & Hp & Hh & Hd2).
  assert (is_Some (Staging.block_core block)) as [c1 E1] by (unfold Staging.block_core_digest in Hd; destruct (Staging.block_core block); [by eexists|done]).
  unfold row_link, Staging.link_of. rewrite Hp, Hh. pose proof E2 as E2'. unfold stored_core in E2'. rewrite D2 in E2'.
  destruct (digest_names_parent _ digest b2 block c2 c1 Hc (decode_block_encodable _ _ D2) Hb E2' E1) as [-> ->]; [| |done..|done].
  - unfold cores_beside. apply elem_of_app. right. apply list_elem_of_omap. by exists e.2.
  - unfold cores_beside. rewrite E1. left.
Qed.

(** ** What the statements leave alone *)

Definition selected_is (selected : option (list StagedLink)) (s : Staging) : Prop := sg_selected s = selected.
Definition still (t : Tables) (selected : option (list StagedLink)) (s : Staging) : Prop := sg_tables s = t /\ sg_selected s = selected.

(** A change of neither. *)
Definition reads_only {A} (m : M A) : Prop := forall t selected, keeps (still t selected) m.

Lemma keeps_mret {A} (P : Staging -> Prop) (x : A) : keeps P (mret x : M A).
Proof. by intros s r s' Hs [= _ <-]. Qed.

Lemma reads_mret {A} (x : A) : reads_only (mret x).
Proof. intros t sel. apply keeps_mret. Qed.

Lemma reads_bind {A B} (m : M A) (k : A -> M B) : reads_only m -> (forall x, reads_only (k x)) -> reads_only (m ≫= k).
Proof. intros Hm Hk t sel. apply keeps_bind; [apply Hm|intros x; apply Hk]. Qed.

Lemma reads_same {A} (m : M A) : (forall s r s', m s = Some (r, s') -> s' = s) -> reads_only m.
Proof. intros H t sel. by apply keeps_same. Qed.

Lemma reads_statement : reads_only Staging.statement.
Proof. intros t sel s r s' Hs. unfold Staging.statement. destruct (sg_faults s) as [|[e|] rest]; by intros [= _ <-]. Qed.

Lemma throw_same {A} e (s : Staging) r s' : (throw e : M A) s = Some (r, s') -> s' = s.
Proof. by intros [= _ <-]. Qed.

Lemma reads_to_sql height : reads_only (Staging.to_sql height).
Proof. unfold Staging.to_sql. destruct (_ <? _); [apply reads_same, throw_same|apply reads_mret]. Qed.

Lemma reads_check_rows id digest rows : reads_only (Staging.check_rows id digest rows).
Proof.
  induction rows as [|row rows IH]; cbn [Staging.check_rows]; [apply reads_mret|]. do 2 (apply reads_bind; [apply reads_same; first [apply unwrap_same|apply try_with_same]|intros]).
  case_match; [apply reads_same, throw_same|]. apply reads_bind; [apply reads_same, unwrap_same|intros]. case_match; [apply reads_same, throw_same|done].
Qed.

Create HintDb staging.
#[local] Hint Resolve reads_mret reads_statement reads_to_sql reads_check_rows : staging.
#[local] Hint Extern 1 (reads_only (throw _)) => apply reads_same, throw_same : staging.
#[local] Hint Extern 1 (reads_only (unwrap _)) => apply reads_same, unwrap_same : staging.
#[local] Hint Extern 1 (reads_only (try_with _ _)) => apply reads_same, try_with_same : staging.
#[local] Hint Extern 1 (reads_only (ask _)) => apply reads_same, ask_same : staging.
#[local] Hint Extern 1 (reads_only Staging.tables) => apply reads_same, ask_same : staging.
#[local] Hint Extern 2 (reads_only (_ ≫= _)) => apply reads_bind; [|intros] : staging.
#[local] Hint Extern 3 (reads_only (match _ with _ => _ end)) => case_match : staging.

Lemma reads_check_stored id block : reads_only (Staging.check_stored_representations id block).
Proof. unfold Staging.check_stored_representations. auto 10 with staging. Qed.

Lemma reads_decode_all l : reads_only (Staging.decode_all l).
Proof. induction l; cbn [Staging.decode_all]; auto 10 with staging. Qed.

Lemma reads_blocks id : reads_only (Staging.blocks id).
Proof. pose proof reads_decode_all. unfold Staging.blocks. auto with staging. Qed.

Lemma reads_block id : reads_only (Staging.block id).
Proof. pose proof reads_blocks. unfold Staging.block. auto with staging. Qed.

Lemma reads_queries : (forall id, reads_only (Staging.has_representation id)) /\ (forall id, reads_only (Staging.is_authenticated id)) /\ reads_only Staging.len /\ reads_only Staging.is_empty.
Proof. unfold Staging.has_representation, Staging.is_authenticated, Staging.is_empty, Staging.len. split_and!; auto 10 with staging. Qed.

(** Statements write tables and not the selection. *)
Definition writes_tables {A} (m : M A) : Prop := forall selected, keeps (selected_is selected) m.

Lemma writes_bind {A B} (m : M A) (k : A -> M B) : writes_tables m -> (forall x, writes_tables (k x)) -> writes_tables (m ≫= k).
Proof. intros Hm Hk sel. apply keeps_bind; [apply Hm|intros x; apply Hk]. Qed.

Lemma reads_writes {A} (m : M A) : reads_only m -> writes_tables m.
Proof. intros H sel s r s' Hs E. by destruct (H (sg_tables s) sel s r s' (conj eq_refl Hs) E). Qed.

Lemma writes_set_tables t : writes_tables (Staging.set_tables t).
Proof. by intros sel s r s' Hs [= _ <-]. Qed.

#[local] Hint Resolve reads_check_stored writes_set_tables : staging.
#[local] Hint Extern 4 (writes_tables _) => apply reads_writes; solve [auto with staging] : staging.
#[local] Hint Extern 2 (writes_tables (_ ≫= _)) => apply writes_bind; [|intros] : staging.
#[local] Hint Extern 3 (writes_tables (match _ with _ => _ end)) => case_match : staging.

Lemma writes_put_row id bytes block : writes_tables (Staging.put_row id bytes block).
Proof. unfold Staging.put_row, Staging.stage_row. auto 20 with staging. Qed.

Lemma writes_download_row id bytes block : writes_tables (Staging.download_row id bytes block).
Proof. unfold Staging.download_row. auto 20 with staging. Qed.

Lemma writes_delete_rows gone : writes_tables (Staging.delete_rows gone).
Proof. unfold Staging.delete_rows. auto 20 with staging. Qed.

Lemma writes_delete_each ids : writes_tables (Staging.delete_each ids).
Proof. pose proof writes_delete_rows. induction ids; cbn [Staging.delete_each]; auto with staging. Qed.

(** A transaction is all of its body or none. *)
Lemma transaction_inv {A} (body : M A) s r s' : writes_tables body -> Staging.transaction body s = Some (r, s') ->
  (exists e, r = Err e /\ still (sg_tables s) (sg_selected s) s') \/
  exists x s1 s2, r = Ok x /\ still (sg_tables s) (sg_selected s) s1 /\ body s1 = Some (Ok x, s2) /\ still (sg_tables s2) (sg_selected s) s'.
Proof.
  intros Hw. unfold Staging.transaction. set (whole := Staging.statement ≫= _). assert (Hwhole : writes_tables whole) by (unfold whole; auto with staging).
  destruct (whole s) as [[[x|e] s3]|] eqn:E; [| |done]; intros [= <- <-].
  - right. unfold whole in E. apply eff_bind_ok in E as ([] & s1 & E1 & E). apply eff_bind_ok in E as (x' & s2 & E2 & E). apply eff_bind_ok in E as ([] & s4 & E4 & [= -> ->]).
    pose proof (reads_statement _ _ _ _ _ (conj eq_refl eq_refl) E1) as H1. exists x, s1, s2. split; [done|]. split; [done|]. split; [done|].
    pose proof (reads_statement _ _ _ _ _ (conj eq_refl eq_refl) E4) as [H4 H4']. destruct H1 as [_ H1]. split; [done|]. rewrite H4', <- H1. by apply (Hw (sg_selected s1) s1 (Ok x)).
  - left. exists e. split; [done|]. split; [done|]. cbn. by apply (Hwhole (sg_selected s) s (Err e)).
Qed.

(** ** What insertions do *)

Lemma check_rows_ok id digest rows s s' : Staging.check_rows id digest rows s = Some (Ok tt, s') -> s' = s /\ Forall (checked_row digest) rows.
Proof.
  revert s. induction rows as [|row rows IH]; intros s; cbn [Staging.check_rows]; [by intros [= <-]|]. intros H.
  apply eff_bind_ok in H as (decoded & s1 & E1 & H). pose proof (unwrap_same _ _ _ _ E1) as ->. apply eff_bind_ok in H as (stored & s1 & E2 & H). pose proof (try_with_same _ _ _ _ _ E2) as ->.
  destruct (bool_decide (sr_parent row = _)) eqn:H1; [|done]. destruct (Z.eqb_spec (sr_height row) (hd_chain_length (bl_header stored))); [|done]. cbn [negb orb] in H.
  apply eff_bind_ok in H as (core & s1 & E3 & H). pose proof (unwrap_same _ _ _ _ E3) as ->. destruct (bool_decide (core = digest)) eqn:H3; [|done].
  apply bool_decide_eq_true in H1, H3. subst core. apply IH in H as [-> HF]. split; [done|]. constructor; [|done]. exists stored.
  unfold unwrap in E1, E3. destruct (decode_block _) as [d|]; [|done]. injection E1 as ->. unfold try_with in E2. destruct decoded; [|done]. injection E2 as ->.
  destruct (Staging.block_core_digest stored); [|done]. by injection E3 as ->.
Qed.

Lemma check_stored_ok id block s found s' : Staging.check_stored_representations id block s = Some (Ok found, s') ->
  still (sg_tables s) (sg_selected s) s' /\ exists digest, Staging.block_core_digest block = Some digest /\ Forall (checked_row digest) (rows_of id (sg_tables s)).
Proof.
  intros H. split; [by apply (reads_check_stored id block _ _ s _ _ (conj eq_refl eq_refl) H)|]. unfold Staging.check_stored_representations in H.
  apply eff_bind_ok in H as ([] & s1 & E1 & H). destruct (reads_statement _ _ _ _ _ (conj eq_refl eq_refl) E1) as [Ht _].
  apply eff_bind_ok in H as (t & s2 & [= <- <-] & H). apply eff_bind_ok in H as (digest & s2 & E2 & H). apply eff_bind_ok in H as ([] & s3 & [_ HF]%check_rows_ok & _).
  exists digest. rewrite <- Ht. split; [|done]. unfold unwrap in E2. destruct (Staging.block_core_digest block); [|done]. by injection E2 as ->.
Qed.

(** The tables an insertion leaves: the same, or with the row of the block. *)
Definition with_row (t : Tables) (link : StagedLink) (t' : Tables) : Prop := t' = t \/ grown t link t'.

Lemma stage_row_ok id row s s' : Staging.stage_row id row s = Some (Ok tt, s') -> sg_tables s' = mkTables (<[id := row]> (tb_staged (sg_tables s))) (tb_downloaded (sg_tables s)).
Proof.
  intros H. apply eff_bind_ok in H as ([] & s1 & E1 & H). destruct (reads_to_sql _ _ _ _ _ _ (conj eq_refl eq_refl) E1) as [H1 _].
  apply eff_bind_ok in H as ([] & s2 & E2 & H). destruct (reads_statement _ _ _ _ _ (conj eq_refl eq_refl) E2) as [H2 _]. apply eff_bind_ok in H as (t & s3 & [= <- <-] & H). injection H as <-. cbn. congruence.
Qed.

Lemma put_row_ok id bytes block s outcome s' : encodable block -> cores_bind (cores_beside id block (sg_tables s)) -> Staging.put_row id bytes block s = Some (Ok outcome, s') ->
  agrees (sg_tables s) (Staging.link_of id block) /\ with_row (sg_tables s) (Staging.link_of id block) (sg_tables s').
Proof.
  intros Hb Hc H. apply eff_bind_ok in H as (found & s1 & E1 & H). apply check_stored_ok in E1 as [[H1 _] (digest & Hd & HF)]. pose proof (checked_agrees _ _ _ _ Hb Hc Hd HF) as Ha. split; [done|].
  apply eff_bind_ok in H as ([] & s2 & E2 & H). destruct (reads_statement _ _ _ _ _ (conj eq_refl eq_refl) E2) as [H2 _]. apply eff_bind_ok in H as (t & s3 & [= <- <-] & H). rewrite H1 in H2. rewrite H2 in H.
  assert (Hstage : forall s3, Staging.stage_row id (Staging.row_of block bytes) s2 = Some (Ok tt, s3) -> grown (sg_tables s) (Staging.link_of id block) (sg_tables s3)).
  { intros s3 ->%stage_row_ok. rewrite H2. by apply (grown_staged (sg_tables s) id (Staging.row_of block bytes)). }
  destruct (tb_staged (sg_tables s) !! id) as [existing|]; [destruct (compare_bytes _ _)|]; try (injection H as _ <-; by left);
    apply eff_bind_ok in H as ([] & s3 & E3%Hstage & [= _ <-]); by right.
Qed.

Lemma download_row_ok id bytes block s outcome s' : encodable block -> cores_bind (cores_beside id block (sg_tables s)) -> Staging.download_row id bytes block s = Some (Ok outcome, s') ->
  agrees (sg_tables s) (Staging.link_of id block) /\ with_row (sg_tables s) (Staging.link_of id block) (sg_tables s').
Proof.
  intros Hb Hc H. apply eff_bind_ok in H as (found & s1 & E1 & H). apply check_stored_ok in E1 as [[H1 _] (digest & Hd & HF)]. pose proof (checked_agrees _ _ _ _ Hb Hc Hd HF) as Ha. split; [done|].
  apply eff_bind_ok in H as ([] & s2 & E2 & H). destruct (reads_statement _ _ _ _ _ (conj eq_refl eq_refl) E2) as [H2 _]. apply eff_bind_ok in H as (t & s3 & [= <- <-] & H). rewrite H1 in H2. rewrite H2 in H.
  destruct (tb_downloaded (sg_tables s) !! sha512_256 bytes) as [existing|] eqn:El; [destruct (negb _); [done|]; injection H as _ <-; by left|].
  apply eff_bind_ok in H as ([] & s3 & E3 & H). destruct (reads_to_sql _ _ _ _ _ _ (conj eq_refl eq_refl) E3) as [_ _]. apply eff_bind_ok in H as ([] & s4 & E4 & H).
  apply eff_bind_ok in H as ([] & s5 & [= <-] & [= _ <-]). right. by apply (grown_downloaded _ _ id (Staging.row_of block bytes)).
Qed.

(** ** The invariant *)

Record store_ok (s : Staging) : Prop := {
  so_coherent : coherent (sg_tables s);
  so_selected : forall br, sg_selected s = Some br -> select_branch (sg_tables s) = Ok br /\ br <> [];
}.

Lemma still_ok s s' : still (sg_tables s) (sg_selected s) s' -> store_ok s -> store_ok s'.
Proof. intros [E1 E2] [H1 H2]. split; rewrite ?E1, ?E2; done. Qed.

Lemma reads_ok_store {A} (m : M A) : reads_only m -> keeps store_ok m.
Proof. intros H s r s' Hs E. eapply still_ok; [|done]. by eapply H. Qed.

(** A block that the kept branch names changes nothing that it says. *)
Lemma kept_selection_ok s s1 link s' : store_ok s -> agrees (sg_tables s) link -> with_row (sg_tables s) link (sg_tables s1) -> sg_selected s1 = sg_selected s ->
  Staging.keep_selection_unless_new link s1 = Some (Ok tt, s') -> store_ok s'.
Proof.
  intros [Hc Hsel] Ha Hw Es H. assert (Hc1 : coherent (sg_tables s1)) by (destruct Hw as [->|Hw]; [done|by eapply grown_coherent]).
  unfold Staging.keep_selection_unless_new in H. apply eff_bind_ok in H as (sel & s2 & [= <- <-] & H). rewrite Es in H.
  destruct (match sg_selected s with Some _ => _ | None => false end) eqn:E; injection H as <-; [|by split].
  split; [done|]. rewrite Es. intros br Hbr. destruct (Hsel br Hbr) as [Hs Hne]. split; [|done]. rewrite Hbr in E. apply bool_decide_eq_true in E.
  destruct Hw as [->|Hw]; [done|]. eapply select_ext; [|exact Hc|exact Hs]. intros l. rewrite (Hw l). apply select_branch_spec in Hs as [_ Hs]; [|done].
  destruct (selection_in _ _ Hc Hs) as [_ Hin]. split; [by left|]. intros [?| ->]; auto.
Qed.

(** ** Every operation keeps it *)

Lemma staging_insertion_ok {A} link (body : M A) s r s' : store_ok s -> writes_tables body ->
  (forall s1 x s2, sg_tables s1 = sg_tables s -> body s1 = Some (Ok x, s2) -> agrees (sg_tables s1) link /\ with_row (sg_tables s1) link (sg_tables s2)) ->
  (outcome ← Staging.transaction body; _ ← Staging.keep_selection_unless_new link; mret outcome) s = Some (r, s') -> store_ok s'.
Proof.
  intros Hs Hw Hbody [(x & s1 & E1 & H)|(e & E1 & _)]%eff_bind_inv.
  - apply transaction_inv in E1 as [(? & ? & _)|(x' & s2 & s3 & [= <-] & [H2 _] & E2 & [H3 H3'])]; [done| |done]. destruct (Hbody _ _ _ H2 E2) as [Ha Hr]. rewrite H2 in Ha, Hr. rewrite <- H3 in Hr.
    apply eff_bind_inv in H as [([] & s4 & E4 & [= _ <-])|(e & E4 & _)]; [by eapply kept_selection_ok|].
    unfold Staging.keep_selection_unless_new in E4. apply eff_bind_inv in E4 as [(sel & s5 & [= <- <-] & E4)|(? & ? & _)]; [|done]. by destruct (match sg_selected s1 with Some _ => _ | None => false end).
  - apply transaction_inv in E1 as [(e' & _ & H)|(? & ? & ? & ? & _)]; [|done..]. by eapply still_ok.
Qed.

(** The inputs of an insertion are of the types the code gives them, and bind their cores. *)
Definition admitted_block (block : NakamotoBlock) (s : Staging) : Prop := encodable block /\ forall id, block_id block = Some id -> cores_bind (cores_beside id block (sg_tables s)).

Lemma staging_put_ok block s r s' : store_ok s -> admitted_block block s -> Staging.put block s = Some (r, s') -> store_ok s'.
Proof.
  intros Hs [Hb Hc] [(id & s1 & E1 & H)|(e & E1 & _)]%eff_bind_inv; pose proof (unwrap_same _ _ _ _ E1) as ->; [|done].
  apply eff_bind_inv in H as [(bytes & s1 & E2 & H)|(e & E2 & _)]; pose proof (unwrap_same _ _ _ _ E2) as ->; [|done].
  eapply staging_insertion_ok; [done|apply (writes_put_row id bytes block)| |exact H]. intros s1 x s2 Ht. apply put_row_ok; [done|]. rewrite Ht. apply Hc. unfold unwrap in E1. destruct (block_id block); [|done]. by injection E1 as ->.
Qed.

Lemma staging_download_ok block s r s' : store_ok s -> admitted_block block s -> Staging.download block s = Some (r, s') -> store_ok s'.
Proof.
  intros Hs [Hb Hc] [(id & s1 & E1 & H)|(e & E1 & _)]%eff_bind_inv; pose proof (unwrap_same _ _ _ _ E1) as ->; [|done].
  apply eff_bind_inv in H as [(bytes & s1 & E2 & H)|(e & E2 & _)]; pose proof (unwrap_same _ _ _ _ E2) as ->; [|done].
  eapply staging_insertion_ok; [done|apply (writes_download_row id bytes block)| |exact H]. intros s1 x s2 Ht. apply download_row_ok; [done|]. rewrite Ht. apply Hc. unfold unwrap in E1. destruct (block_id block); [|done]. by injection E1 as ->.
Qed.

Lemma without_both gone t : mkTables (tb_staged (mkTables (tb_staged (Staging.without gone t)) (tb_downloaded t))) (tb_downloaded (Staging.without gone (mkTables (tb_staged (Staging.without gone t)) (tb_downloaded t)))) = Staging.without gone t.
Proof. done. Qed.

Lemma delete_rows_ok gone s x s' : Staging.delete_rows gone s = Some (Ok x, s') -> sg_tables s' = Staging.without gone (sg_tables s).
Proof.
  intros H. apply eff_bind_ok in H as ([] & s1 & E1 & H). destruct (reads_statement _ _ _ _ _ (conj eq_refl eq_refl) E1) as [H1 _]. apply eff_bind_ok in H as (t & s2 & [= <- <-] & H).
  apply eff_bind_ok in H as ([] & s2 & [= <-] & H). apply eff_bind_ok in H as ([] & s3 & E3 & H). destruct (reads_statement _ _ _ _ _ (conj eq_refl eq_refl) E3) as [H3 _]. cbn in H3.
  apply eff_bind_ok in H as (t & s4 & [= <- <-] & H). injection H as _ <-. cbn. rewrite H3, H1. apply without_both.
Qed.

Lemma delete_each_coherent ids s x s' : Staging.delete_each ids s = Some (Ok x, s') -> coherent (sg_tables s) -> coherent (sg_tables s').
Proof.
  revert s. induction ids as [|id ids IH]; intros s; cbn [Staging.delete_each]; [by intros [= _ <-]|]. intros ([] & s1 & E1%delete_rows_ok & E2)%eff_bind_ok Hc.
  eapply IH; [done|]. rewrite E1. by apply coherent_without.
Qed.

(** A transaction after which nothing is kept. *)
Lemma staging_removal_ok {A} (body : M A) s r s' : store_ok s -> writes_tables body -> (forall s1 x s2, body s1 = Some (Ok x, s2) -> coherent (sg_tables s1) -> coherent (sg_tables s2)) ->
  (removed ← Staging.transaction body; _ ← Staging.invalidate_selection; mret removed) s = Some (r, s') -> store_ok s'.
Proof.
  intros Hs Hw Hbody [(x & s1 & E1 & H)|(e & E1 & _)]%eff_bind_inv.
  - apply transaction_inv in E1 as [(? & ? & _)|(x' & s2 & s3 & [= <-] & [H2 _] & E2 & [H3 H3'])]; [done| |done]. injection H as _ <-. split; [|done]. cbn. rewrite H3. eapply Hbody; [done|]. rewrite H2. apply Hs.
  - apply transaction_inv in E1 as [(e' & _ & H)|(? & ? & ? & ? & _)]; [|done..]. by eapply still_ok.
Qed.

Lemma staging_remove_ok id s r s' : store_ok s -> Staging.remove id s = Some (r, s') -> store_ok s'.
Proof.
  intros Hs [([] & s1 & E1 & H)|(e & E1 & _)]%eff_bind_inv.
  - apply transaction_inv in E1 as [(? & ? & _)|(x' & s2 & s3 & _ & [H2 _] & E2%delete_rows_ok & [H3 H3'])]; [done| |apply writes_delete_rows]. rewrite H2 in E2. rewrite E2 in H3. destruct Hs as [Hc Hsel].
    assert (Hc1 : coherent (sg_tables s1)) by (rewrite H3; by apply coherent_without). unfold Staging.forget_selected_head in H. apply eff_bind_inv in H as [(sel & s4 & [= <- <-] & H)|(? & ? & _)]; [|done]. rewrite H3' in H.
    destruct (sg_selected s) as [[|h rest]|] eqn:Es; [injection H as _ <-; by split| |injection H as _ <-; by split]. case_bool_decide as Hid; injection H as _ <-; (split; [done|]); [|done]. cbn.
    destruct rest as [|a rest]; [done|]. intros br [= <-]. split; [|done]. rewrite H3. destruct (Hsel _ eq_refl) as [Hs _]. rewrite <- Hid. by apply select_without_head.
  - apply transaction_inv in E1 as [(e' & _ & H)|(? & ? & ? & ? & _)]; [by eapply still_ok|done|apply writes_delete_rows].
Qed.

Lemma staging_remove_all_ok ids s r s' : store_ok s -> Staging.remove_all ids s = Some (r, s') -> store_ok s'.
Proof.
  intros Hs. unfold Staging.remove_all. destruct ids as [|id ids]; [by intros [= _ <-]|]. intros H. eapply (staging_removal_ok (Staging.delete_each (id :: ids)) s); [done|apply writes_delete_each|apply delete_each_coherent|].
  revert H. unfold mbind, Eff_bind. destruct (Staging.transaction _ s) as [[[[]|e] s1]|]; intros [= <- <-]; done.
Qed.

Lemma staging_remove_branch_ok root s r s' : store_ok s -> Staging.remove_branch root s = Some (r, s') -> store_ok s'.
Proof.
  intros Hs. apply staging_removal_ok; [done| |].
  - apply writes_bind; [auto with staging|intros _]. apply writes_bind; [auto with staging|intros t; cbv zeta]. apply writes_bind; [apply writes_delete_each|auto with staging].
  - intros s1 x s2 H Hc. apply eff_bind_ok in H as ([] & s3 & E3 & H). destruct (reads_statement _ _ _ _ _ (conj eq_refl eq_refl) E3) as [H3 _]. apply eff_bind_ok in H as (t & s4 & [= <- <-] & H).
    apply eff_bind_ok in H as ([] & s5 & E5 & [= _ <-]). eapply delete_each_coherent; [done|]. by rewrite H3.
Qed.

Lemma delete_each_links ids s x s' : Staging.delete_each ids s = Some (Ok x, s') -> forall l, link_in (sg_tables s') l <-> link_in (sg_tables s) l /\ ln_block_id l ∉ ids.
Proof.
  revert s. induction ids as [|id ids IH]; intros s; cbn [Staging.delete_each]; [intros [= _ <-] l; rewrite elem_of_nil; tauto|]. intros ([] & s1 & E1%delete_rows_ok & E2)%eff_bind_ok l.
  rewrite (IH _ E2), E1, not_elem_of_cons. fold (without_block id (sg_tables s)). rewrite link_in_without_block. tauto.
Qed.

(** A removed branch is the block, where it is held, and all that descends from it; and
    nothing else is removed. *)
Lemma remove_branch_spec root s n s' : Staging.remove_branch root s = Some (Ok n, s') ->
  let rows := all_rows (sg_tables s) in
  (forall l, link_in (sg_tables s') l <-> link_in (sg_tables s) l /\ ~ (root ∈ rows.*1 /\ rtc (child_in rows) root (ln_block_id l))) /\
  exists gone : gset (list byte), n = Z.of_nat (size gone) /\ forall id, id ∈ gone <-> root ∈ rows.*1 /\ rtc (child_in rows) root id.
Proof.
  intros H rows. apply eff_bind_ok in H as (n' & s1 & E1 & H). injection H as -> <-. apply transaction_inv in E1 as [(? & ? & _)|(x & s2 & s3 & [= <-] & [H2 _] & E & [H3 _])]; [done| |].
  - apply eff_bind_ok in E as ([] & s4 & E4 & E). destruct (reads_statement _ _ _ _ _ (conj eq_refl eq_refl) E4) as [H4 _]. apply eff_bind_ok in E as (t & s5 & [= <- <-] & E). cbv zeta in E.
    apply eff_bind_ok in E as ([] & s6 & E6 & [= <- <-]). rewrite H4, H2 in E6.
    assert (Hb : forall id, id ∈ Staging.branch_of root (sg_tables s) <-> root ∈ rows.*1 /\ rtc (child_in rows) root id).
    { intros id. unfold Staging.branch_of. fold rows. destruct (existsb _ rows) eqn:E.
      - apply existsb_exists in E as (e & He%list_elem_of_In & Hr%bool_decide_eq_true). assert (Hroot : root ∈ rows.*1) by (rewrite <- Hr; by apply list_elem_of_fmap_2). rewrite descendants_spec by done. tauto.
      - rewrite elem_of_empty. split; [done|]. intros [(e & -> & He)%list_elem_of_fmap _]. apply not_true_iff_false in E. apply E, existsb_exists. exists e. split; [by apply list_elem_of_In|by apply bool_decide_eq_true]. }
    split; [|exists (Staging.branch_of root (sg_tables s)); split; [by rewrite H4, H2|done]]. intros l. cbn. rewrite H3, (delete_each_links _ _ _ _ E6), H4, H2, elem_of_elements, Hb. done.
  - apply writes_bind; [auto with staging|intros _]. apply writes_bind; [auto with staging|intros t; cbv zeta]. apply writes_bind; [apply writes_delete_each|auto with staging].
Qed.

Lemma staging_remove_to_ok height s r s' : store_ok s -> Staging.remove_to height s = Some (r, s') -> store_ok s'.
Proof.
  intros Hs. apply staging_removal_ok; [done| |].
  - apply writes_bind; [auto with staging|intros _]. apply writes_bind; [auto with staging|intros _]. apply writes_bind; [auto with staging|intros t; cbv zeta]. apply writes_bind; [apply writes_delete_rows|auto with staging].
  - intros s1 x s2 H Hc. apply eff_bind_ok in H as ([] & s3 & E3 & H). destruct (reads_to_sql _ _ _ _ _ _ (conj eq_refl eq_refl) E3) as [H3 _]. apply eff_bind_ok in H as ([] & s4 & E4 & H).
    destruct (reads_statement _ _ _ _ _ (conj eq_refl eq_refl) E4) as [H4 _]. apply eff_bind_ok in H as (t & s5 & [= <- <-] & H). apply eff_bind_ok in H as ([] & s6 & E6%delete_rows_ok & [= _ <-]).
    rewrite E6, H4, H3. by apply coherent_without.
Qed.

Lemma staging_clear_ok s r s' : store_ok s -> Staging.clear s = Some (r, s') -> store_ok s'.
Proof.
  intros Hs H. eapply (staging_removal_ok (Staging.delete_rows (fun _ _ => true)) s); [done|apply writes_delete_rows|intros s1 x s2 ->%delete_rows_ok; apply coherent_without|].
  revert H. unfold Staging.clear, mbind, Eff_bind. destruct (Staging.transaction _ s) as [[[[]|e] s1]|]; intros [= <- <-]; done.
Qed.

Lemma selected_branch_kept s br : sg_selected s = Some br -> Staging.selected_branch s = Some (Ok br, s).
Proof. intros Hs. unfold Staging.selected_branch. rewrite (eff_bind_run _ _ s (Some br) s); [done|]. unfold ask. by rewrite Hs. Qed.

(** The branch that is answered, and what is kept. *)
Lemma selected_branch_run s : store_ok s -> exists r s', Staging.selected_branch s = Some (r, s') /\ store_ok s' /\ sg_tables s' = sg_tables s /\
  match r with
  | Ok br => select_branch (sg_tables s) = Ok br
  | Err (StagingError.Storage e) => exists rest, sg_faults s = Some e :: rest
  | Err e => select_branch (sg_tables s) = Err e
  end.
Proof.
  intros Hs. destruct (sg_selected s) as [br|] eqn:Es.
  - rewrite (selected_branch_kept _ _ Es). do 2 eexists. split; [done|]. split; [done|]. split; [done|]. by apply so_selected in Es as [-> _].
  - unfold Staging.selected_branch. rewrite (eff_bind_run _ _ s None s) by (unfold ask; by rewrite Es). unfold mbind at 1, Eff_bind at 1. assert (Hrun : forall s1, sg_tables s1 = sg_tables s -> sg_selected s1 = None -> exists r s', (t ← Staging.tables; branch ← try_with id (select_branch t); match branch with [] => mret [] | _ => _ ← Staging.set_selected (Some branch); mret branch end) s1 = Some (r, s') /\ store_ok s' /\ sg_tables s' = sg_tables s /\ r = select_branch (sg_tables s)).
    { intros s1 Ht H1. destruct Hs as [Hc _]. rewrite (eff_bind_run _ _ s1 (sg_tables s) s1) by (unfold Staging.tables, ask; by rewrite Ht). destruct (select_branch (sg_tables s)) as [[|l br]|e] eqn:E.
      - rewrite (eff_bind_run _ _ s1 [] s1) by done. do 2 eexists. split; [done|]. split; [|done]. split; [by rewrite Ht|]. by rewrite H1.
      - rewrite (eff_bind_run _ _ s1 (l :: br) s1) by done. do 2 eexists. split; [done|]. split; [|done]. split; cbn; rewrite Ht; [done|]. by intros br' [= <-].
      - do 2 eexists. split; [done|]. split; [|done]. split; [by rewrite Ht|]. by rewrite H1. }
    unfold Staging.statement. destruct (sg_faults s) as [|[e|] rest] eqn:Ef.
    + destruct (Hrun s eq_refl Es) as (r & s' & -> & ? & ? & ->). do 2 eexists. split; [done|]. split; [done|]. split; [done|]. destruct (select_branch _) as [|[]] eqn:E; try done. by apply select_no_storage in E.
    + do 2 eexists. split; [done|]. split; [|split; [done|by exists rest]]. destruct Hs as [Hc _]. split; [done|]. cbn. by rewrite Es.
    + edestruct Hrun as (r & s' & -> & ? & ? & ->); [|by apply Es|]; [done|]. do 2 eexists. split; [done|]. split; [done|]. split; [done|]. destruct (select_branch _) as [|[]] eqn:E; try done. by apply select_no_storage in E.
Qed.

(** ** Opening a file *)

Lemma check_file_row_ok staged id row cores cores' : Staging.check_file_row staged id row cores = Some (Ok cores') -> cores ⊆ cores' /\ exists digest, cores' !! id = Some digest /\ checked_row digest row.
Proof.
  unfold Staging.check_file_row. destruct (decode_block (sr_bytes row)) as [[b|]|] eqn:Ed; [|done..]. cbn [mbind option_bind]. destruct (block_id b) as [found|]; [|done]. cbn [mbind option_bind].
  destruct (bool_decide (id = found)) eqn:H1; [|done]. destruct (bool_decide (sr_parent row = _)) eqn:H2; [|done]. destruct (Z.eqb_spec (sr_height row) (hd_chain_length (bl_header b))) as [H3|]; [|done]. cbn [negb orb].
  apply bool_decide_eq_true in H1, H2. subst found. destruct (_ && _); [done|]. destruct (Staging.block_core_digest b) as [core|] eqn:Ec; [|done]. cbn [mbind option_bind]. assert (Hck : checked_row core row) by (by exists b).
  destruct (cores !! id) as [known|] eqn:El.
  - case_bool_decide as Hk; [|done]. intros [= <-]. split; [done|]. exists core. by rewrite El, Hk.
  - intros [= <-]. split; [by apply insert_subseteq|]. exists core. by rewrite lookup_insert_eq.
Qed.

Lemma check_file_rows_ok staged rows cores cores' : Staging.check_file_rows staged rows cores = Some (Ok cores') -> cores ⊆ cores' /\ forall e, e ∈ rows -> exists digest, cores' !! e.1 = Some digest /\ checked_row digest e.2.
Proof.
  revert cores. induction rows as [|[id row] rows IH]; intros cores; cbn [Staging.check_file_rows]; [intros [= <-]; split; [done|]; by intros e ?%elem_of_nil|].
  destruct (Staging.check_file_row staged id row cores) as [[cores1|]|] eqn:E; [|done..]. cbn [mbind option_bind]. apply check_file_row_ok in E as (H1 & digest & H2 & H3). intros [H4 H5]%IH.
  split; [by etrans|]. intros e [->|He]%elem_of_cons; [|by apply H5]. exists digest. split; [by eapply lookup_weaken|done].
Qed.

Definition table_cores (t : Tables) : list (list byte) := omap (fun entry => stored_core entry.2) (all_rows t).

Lemma validate_coherent f t : Staging.validate_schema f = Some (Ok t) -> cores_bind (table_cores t) -> coherent t.
Proof.
  unfold Staging.validate_schema. destruct (sf_staged f) as [staged|]; [|done]. destruct (Staging.check_file_rows true _ _) as [[cores|]|] eqn:E1; [|done..]. cbn [mbind option_bind].
  destruct (sf_downloaded f) as [downloaded|]; [|done]. destruct (Staging.check_file_rows false _ _) as [[cores'|]|] eqn:E2; [|done..]. cbn [mbind option_bind]. destruct (forallb _ _); [|done]. intros [= <-] Hb.
  apply check_file_rows_ok in E1 as [_ H1], E2 as [Hsub H2].
  assert (Hrow : forall e, e ∈ all_rows (mkTables staged downloaded) -> exists digest, cores' !! e.1 = Some digest /\ checked_row digest e.2).
  { intros e [He|He]%elem_of_app; [|by apply H2]. destruct (H1 e He) as (digest & ? & ?). exists digest. split; [by eapply lookup_weaken|done]. }
  intros l1 l2 (e1 & He1 & ->) (e2 & He2 & ->) Hid. cbn in Hid. destruct (Hrow _ He1) as (d1 & L1 & C1), (Hrow _ He2) as (d2 & L2 & C2). rewrite Hid, L2 in L1. injection L1 as ->.
  assert (Hin : forall e, e ∈ all_rows (mkTables staged downloaded) -> forall core, stored_core e.2 = Some core -> core ∈ table_cores (mkTables staged downloaded)) by (intros e He core Hcore; apply list_elem_of_omap; by exists e).
  unfold row_link. rewrite Hid. destruct (checked_rows_agree _ d1 e1.2 e2.2 Hb (Hin _ He1) (Hin _ He2) C1 C2) as [-> ->]. done.
Qed.

Lemma open_ok f faults s f' : Staging.open f faults = Some (Ok (s, f')) -> cores_bind (table_cores (sg_tables s)) -> store_ok s.
Proof.
  unfold Staging.open. destruct (negb _); [done|]. destruct (if _ =? _ then _ else _) as [f1|]; [|done]. destruct (Staging.validate_schema f1) as [[t|]|] eqn:E; [|done..]. intros [= <- _] Hb. split; [|done]. by eapply validate_coherent.
Qed.

(** ** Runs of a store *)

(** The calls its users make. *)
Inductive StagingRequest : Type :=
| Put (block : NakamotoBlock) | Download (block : NakamotoBlock) | Remove (id : StacksBlockId) | RemoveAll (ids : list StacksBlockId) | RemoveBranch (root : StacksBlockId) | RemoveTo (height : Z) | Clear
| HasRepresentation (id : StacksBlockId) | IsAuthenticated (id : StacksBlockId) | Length | IsEmpty
| ResumesAt | Highest | ChildRepresentations (parent : StacksBlockId) | ChildOf (parent : StacksBlockId).

Definition run_request (q : StagingRequest) : M unit :=
  match q with
  | Put block => _ ← Staging.put block; mret tt
  | Download block => _ ← Staging.download block; mret tt
  | Remove id => Staging.remove id
  | RemoveAll ids => Staging.remove_all ids
  | RemoveBranch root => _ ← Staging.remove_branch root; mret tt
  | RemoveTo height => _ ← Staging.remove_to height; mret tt
  | Clear => Staging.clear
  | HasRepresentation id => _ ← Staging.has_representation id; mret tt
  | IsAuthenticated id => _ ← Staging.is_authenticated id; mret tt
  | Length => _ ← Staging.len; mret tt
  | IsEmpty => _ ← Staging.is_empty; mret tt
  | ResumesAt => _ ← Staging.descent_resumes_at; mret tt
  | Highest => _ ← Staging.highest; mret tt
  | ChildRepresentations parent => _ ← Staging.child_representations parent; mret tt
  | ChildOf parent => _ ← Staging.child_of parent; mret tt
  end.

Definition admitted_request (q : StagingRequest) (s : Staging) : Prop := match q with Put block | Download block => admitted_block block s | _ => True end.

Inductive reachable : Staging -> Prop :=
| reachable_open f faults s f' : Staging.open f faults = Some (Ok (s, f')) -> cores_bind (table_cores (sg_tables s)) -> reachable s
| reachable_run q s r s' : reachable s -> admitted_request q s -> run_request q s = Some (r, s') -> reachable s'.

Lemma keeps_then {A} (m : M A) s r s' : (forall r s', m s = Some (r, s') -> store_ok s') -> (_ ← m; mret tt) s = Some (r, s') -> store_ok s'.
Proof. intros H [(x & s1 & E & [= _ <-])|(e & E & _)]%eff_bind_inv; by eapply H. Qed.

Lemma keeps_selected_branch : keeps store_ok Staging.selected_branch.
Proof. intros s r s' Hs E. destruct (selected_branch_run s Hs) as (r1 & s1 & E1 & H1 & _). rewrite E in E1. by injection E1 as _ ->. Qed.

Lemma keeps_children parent : keeps store_ok (Staging.child_representations parent).
Proof.
  unfold Staging.child_representations. apply keeps_bind; [apply keeps_selected_branch|]. intros br. destruct (List.find _ _); [apply reads_ok_store, reads_blocks|apply keeps_mret].
Qed.

Lemma staging_run_ok q s r s' : store_ok s -> admitted_request q s -> run_request q s = Some (r, s') -> store_ok s'.
Proof.
  intros Hs Hq. destruct reads_queries as (Q1 & Q2 & Q3 & Q4). destruct q; cbn [run_request].
  - apply keeps_then. intros; by eapply staging_put_ok.
  - apply keeps_then. intros; by eapply staging_download_ok.
  - by apply staging_remove_ok.
  - by apply staging_remove_all_ok.
  - apply keeps_then. intros; by eapply staging_remove_branch_ok.
  - apply keeps_then. intros; by eapply staging_remove_to_ok.
  - by apply staging_clear_ok.
  - apply keeps_then. intros; by eapply (reads_ok_store _ (Q1 _)).
  - apply keeps_then. intros; by eapply (reads_ok_store _ (Q2 _)).
  - apply keeps_then. intros; by eapply (reads_ok_store _ Q3).
  - apply keeps_then. intros; by eapply (reads_ok_store _ Q4).
  - apply keeps_then. intros r1 s1. apply (keeps_bind store_ok); [apply keeps_selected_branch|intros; apply keeps_mret|done].
  - apply keeps_then. intros r1 s1. apply (keeps_bind store_ok); [apply keeps_selected_branch| |done]. intros br. destruct (last br); [apply reads_ok_store, reads_block|apply keeps_mret].
  - apply keeps_then. intros; by eapply keeps_children.
  - apply keeps_then. intros r1 s1. apply (keeps_bind store_ok); [apply keeps_children|intros; apply keeps_mret|done].
Qed.

Lemma staging_reachable_ok s : reachable s -> store_ok s.
Proof. induction 1; [by eapply open_ok|by eapply staging_run_ok]. Qed.

(** C38: In every store of staged blocks that calls lead to from a file that was
    opened, the branch selected_branch answers, kept or not, is the one selected from
    the tables as they are: the descent from the highest block without a child to the
    lowest block that is held; an answer is missing only where a statement failed or
    the tables have no such branch. *)
Theorem selection_is_current (s : Staging) (Hs : reachable s) :
  exists r s', Staging.selected_branch s = Some (r, s') /\ sg_tables s' = sg_tables s /\
    match r with
    | Ok br => select_branch (sg_tables s) = Ok br /\ sized (sg_tables s) /\ selection (sg_tables s) br
    | Err (StagingError.Storage e) => exists rest, sg_faults s = Some e :: rest
    | Err e => select_branch (sg_tables s) = Err e
    end.
Proof.
  apply staging_reachable_ok in Hs. destruct (selected_branch_run s Hs) as (r & s' & E & _ & Ht & Hr). exists r, s'. split; [done|]. split; [done|]. destruct r as [br|]; [|done].
  split; [done|]. by apply select_branch_spec; [apply Hs|].
Qed.

End Store.
