(* ===== verification/Instances.v ===== *)
(** * Concrete instances of the third-party interfaces

    Small executable models of the hash and curve classes of [Crypto]. They are
    not secure; they satisfy every law the classes state, so the theorems that
    assume those laws can be applied and the code models evaluated. *)

From S2P Require Import Prelude Primitives Crypto.

(** The length, then the data, padded or cut to [n] bytes. *)
Definition fingerprint (n : nat) (data : list byte) : list byte :=
  take n (byte_of (len data) :: data ++ replicate n 0%u8).

Lemma length_fingerprint n b : length (fingerprint n b) = n.
Proof. unfold fingerprint. rewrite length_take. cbn [length]. rewrite length_app, length_replicate. lia. Qed.

#[export] Instance demo_hashes : Hashes := {
  sha512_256 := fingerprint 32;
  sha256 := fingerprint 32;
  sha512 := fun _ => replicate 64 0%u8;
  ripemd160 := fingerprint 20;
}.

#[export] Instance demo_hashes_ok : HashesOk.
Proof. split; intros; apply length_fingerprint || apply length_replicate. Qed.

(** A key is one byte; a signature carries the signer's key. *)
#[export] Instance demo_secp : Secp256k1 := {|
  secp_pk := byte;
  secp_pk_eq_dec := byte_eq_dec;
  secp_sk := byte;
  secp_sig := byte;
  secp_std := byte;
  secp_std_eq_dec := byte_eq_dec;
  pk_from_slice := fun b => match b with _ :: k :: _ => Some k | _ => None end;
  pk_serialize := fun k => 2%u8 :: k :: replicate 31 0%u8;
  pk_serialize_uncompressed := fun k => 4%u8 :: k :: replicate 63 0%u8;
  pk_from_secret_key := fun k => k;
  sig_from_compact := fun b _ => head b;
  sig_serialize_compact := fun s => (0, s :: replicate 63 0%u8);
  sig_to_standard := fun s => s;
  std_normalize_s := fun s => s;
  recover_ecdsa := fun _ s => Some s;
  sign_ecdsa_recoverable := fun _ k => k;
|}.

#[export] Instance demo_secp_ok : Secp256k1Ok.
Proof. by split. Qed.

(** The group of two elements, over the field of two elements. *)
Definition demo_compress (p : bool) : list byte := (if p then 0%u8 else 1%u8) :: replicate 31 0%u8.
Definition demo_decompress (b : list byte) : option bool :=
  match b with 0%u8 :: _ => Some true | 1%u8 :: _ => Some false | _ => None end.
Definition demo_scalar_bytes (s : bool) : list byte := (if s then 1%u8 else 0%u8) :: replicate 31 0%u8.
Definition demo_scalar (b : list byte) : option bool :=
  if decide (b = demo_scalar_bytes true) then Some true
  else if decide (b = demo_scalar_bytes false) then Some false else None.

#[export] Instance demo_edwards : Edwards := {|
  point := bool;
  scalar := bool;
  scalar_eq_dec := bool_eq_dec;
  basepoint := true;
  padd := xorb;
  psub := xorb;
  smul := andb;
  sadd := xorb;
  smult := andb;
  compress := demo_compress;
  decompress := demo_decompress;
  is_small_order := negb;
  mul_by_cofactor := fun p => p;
  is_torsion_free := fun _ => true;
  scalar_from_canonical_bytes := demo_scalar;
  scalar_to_bytes := demo_scalar_bytes;
  scalar_from_bytes_mod_order := fun _ => true;
  scalar_from_bytes_mod_order_wide := fun _ => false;
  clamp_integer := Vrf.clamp;
  verifying_key_ok := fun _ => true;
  verifying_key_of := fun _ => demo_compress true;
|}.

#[export] Instance demo_edwards_ok : EdwardsOk.
Proof.
  split; try done; try (by intros [] [] []); try (by intros [] []); try (by intros []).
  intros b s. cbn. unfold demo_scalar. repeat case_decide; intros; by simplify_eq.
Qed.
