(* ===== verification/Witnesses.v ===== *)
(** * Concrete runs

    Sample transactions under the instances of [Instances], and for each theorem
    with hypotheses an application of it at a concrete input.

    And concrete runs of the peer-to-peer messages and the relay. *)

From stdpp Require Import gmap fin_maps.
From S2P Require Import Prelude Primitives Address CodecIO Crypto TxData TxCodec TxWire TxTheorems TxAuth TxAuthTheorems Nakamoto Signers SignerTheorems.
From S2P Require Import NakamotoTheorems Queue FrameBudget PeerWire PeerWireTheorems Relay Mempool MempoolTheorems MempoolCandidates Instances.

(** ** Sample transactions *)

(** The condition of the account with key [k], signed by it. *)
Definition account_condition (k : byte) (nonce fee : Z) : SpendingCondition :=
  Singlesig (mkSinglesig SinglesigHashMode.P2pkh (hash160 (pk_serialize k)) nonce fee KeyEncoding.Compressed
    (0%u8 :: k :: replicate 63 0%u8)).

Definition unsigned_transfer (auth : TransactionAuth) : Transaction :=
  mkTransaction [] TransactionVersion.Testnet 0x80000000 auth AnchorMode.Any PostConditionMode.Deny []
    (mkPayload sample_transfer sample_transfer_bytes).

(** The transfer with its encoding attached. *)
Definition transfer (auth : TransactionAuth) : Transaction :=
  set_bytes (default [] (encode_transaction (unsigned_transfer auth))) (unsigned_transfer auth).

(** Account 2 spends its nonce 0; account 2 sponsors account 1 with the same nonce. *)
Definition own_transfer : Transaction := transfer (AuthStandard (account_condition 2 0 1000)).
Definition sponsored_transfer : Transaction :=
  transfer (AuthSponsored (account_condition 1 0 0) (account_condition 2 0 2000)).

Lemma transfer_ok auth : auth_ok auth -> transaction_ok (transfer auth).
Proof.
  intros Ha. split; [done|]. split; [done|]. split; [|split; [apply sample_transfer_emits|done]].
  cbn. split; [done|constructor].
Qed.

Lemma account_condition_ok k nonce fee : is_u64 nonce -> is_u64 fee -> condition_ok (account_condition k nonce fee).
Proof. intros Hn Hf. unfold account_condition, condition_ok, singlesig_ok. cbn. by split_and!. Qed.

Definition empty_pool : Mempool := with_limits Network.TESTNET (mkMempoolLimits 10 10000).
Definition empty_tip : gmap StacksAddress.t Account := ∅.

Definition pool_after (m : Mempool) (tx : Transaction) : Mempool :=
  match submit m tx empty_tip 0 with Some (_, m') => m' | None => m end.
Definition pool1 : Mempool := pool_after empty_pool own_transfer.
Definition pool2 : Mempool := pool_after pool1 sponsored_transfer.

Lemma own_transfer_ok : transaction_ok own_transfer.
Proof. by apply transfer_ok, account_condition_ok. Qed.

Lemma sponsored_transfer_ok : transaction_ok sponsored_transfer.
Proof. apply transfer_ok. split; by apply account_condition_ok. Qed.

Lemma submit1 : submit empty_pool own_transfer empty_tip 0 = Some (Ok Added, pool1).
Proof. vm_compute. reflexivity. Qed.

Lemma submit2 : submit pool1 sponsored_transfer empty_tip 0 = Some (Ok Added, pool2).
Proof. vm_compute. reflexivity. Qed.

Definition own_id : Sha256Sum := default [] (txid own_transfer).
Definition sponsored_id : Sha256Sum := default [] (txid sponsored_transfer).

Lemma own_id_eq : txid own_transfer = Some own_id.
Proof. vm_compute. reflexivity. Qed.

Lemma sponsored_id_eq : txid sponsored_transfer = Some sponsored_id.
Proof. vm_compute. reflexivity. Qed.

Lemma own_fits : len (tx_bytes own_transfer) <= USIZE_MAX.
Proof. vm_compute. discriminate. Qed.

Lemma sponsored_fits : len (tx_bytes sponsored_transfer) <= USIZE_MAX.
Proof. vm_compute. discriminate. Qed.

Lemma pool1_reachable : pool_reachable (T := gmap StacksAddress.t Account) Network.TESTNET (mkMempoolLimits 10 10000) pool1.
Proof.
  apply (pool_next _ _ empty_pool); [apply pool_start|].
  exact (pool_submit _ _ _ _ _ _ own_transfer_ok (mk_is_Some _ _ own_id_eq) own_fits submit1).
Qed.

Lemma pool2_reachable : pool_reachable (T := gmap StacksAddress.t Account) Network.TESTNET (mkMempoolLimits 10 10000) pool2.
Proof.
  apply (pool_next _ _ pool1); [exact pool1_reachable|].
  exact (pool_submit _ _ _ _ _ _ sponsored_transfer_ok (mk_is_Some _ _ sponsored_id_eq) sponsored_fits submit2).
Qed.

Definition selected2 : list Entry := default [] (candidates_in empty_tip pool2 (map_to_list (mp_entries pool2)).*2).

Lemma selected2_eq : candidates_in empty_tip pool2 (map_to_list (mp_entries pool2)).*2 = Some selected2.
Proof. vm_compute. reflexivity. Qed.

Lemma selected2_transactions : map en_transaction selected2 = [sponsored_transfer; own_transfer].
Proof. vm_compute. reflexivity. Qed.

Lemma selected2_not_executable : ~ executes (fun a => acct_nonce (account empty_tip a)) selected2.
Proof. vm_compute. intros (_ & _ & Hn & _). discriminate Hn. Qed.

(** The pool can offer a block two transactions that spend the same nonce.
    Account 2 has a transaction of its own at nonce 0 and sponsors account 1's with
    the same nonce; both are admitted, and [candidates] selects both, the sponsored
    one first, after which the other is no longer at its account's next nonce. *)
Theorem candidates_spend_nonce_twice :
  exists m selected,
    pool_reachable (T := gmap StacksAddress.t Account) Network.TESTNET (mkMempoolLimits 10 10000) m /\
    candidates_in empty_tip m (map_to_list (mp_entries m)).*2 = Some selected /\
    map en_transaction selected = [sponsored_transfer; own_transfer] /\
    ~ executes (fun a => acct_nonce (account empty_tip a)) selected.
Proof.
  exists pool2, selected2. split; [exact pool2_reachable|]. split; [exact selected2_eq|].
  split; [exact selected2_transactions|]. exact selected2_not_executable.
Qed.

(** ** Transactions *)

Lemma decode_own : decode_transaction (tx_bytes own_transfer) = Ok (own_transfer, len (tx_bytes own_transfer)).
Proof. vm_compute. reflexivity. Qed.

Lemma decode_transaction_sound_witness :
  encode_transaction own_transfer = Some (tx_bytes own_transfer) /\ transaction_ok own_transfer.
Proof.
  pose proof (decode_transaction_sound (tx_bytes own_transfer) own_transfer _ decode_own) as (H1 & H2 & _).
  exact (conj H1 H2).
Defined.

Lemma decode_transaction_roundtrip_witness : exists bs, encode_transaction own_transfer = Some bs /\
  forall rest, len (bs ++ rest) <= USIZE_MAX ->
    decode_transaction (bs ++ rest) = Ok (set_bytes bs own_transfer, len bs).
Proof. apply (decode_transaction_roundtrip own_transfer); [exact own_transfer_ok|reflexivity]. Defined.

Lemma read_clarity_value_spec_witness :
  read_clarity_value (Reader.new ([10; 3]%u8 ++ [7]%u8)) = Ok ([10; 3]%u8, mkReader ([10; 3]%u8 ++ [7]%u8) 2) <->
  clarity_wire 0 [10; 3]%u8.
Proof. apply (read_clarity_value_spec [10; 3]%u8 [7]%u8). vm_compute. discriminate. Defined.

Lemma sign_standard_verifies_witness : exists tx,
  sign_standard TransactionVersion.Testnet 0x80000000 AnchorMode.Any (9%u8 : @secp_sk demo_secp) 3 500 sample_transfer = Some (Ok tx) /\
  verify_authorization tx = Some (Ok tt).
Proof.
  destruct (sign_standard_verifies TransactionVersion.Testnet 0x80000000 AnchorMode.Any (9%u8 : @secp_sk demo_secp) 3 500 sample_transfer)
    as (tx & H1 & H2 & _); [done..|apply sample_transfer_emits|done|]. exact (ex_intro _ tx (conj H1 H2)).
Defined.

(** [collision_free], decided. *)
Definition collision_freeb (inputs : list (list byte)) : bool :=
  forallb (fun x => forallb (fun y => implb (bool_decide (sha512_256 x = sha512_256 y)) (bool_decide (x = y))) inputs) inputs.

Lemma collision_freeb_sound inputs : collision_freeb inputs = true -> collision_free inputs.
Proof.
  unfold collision_freeb. rewrite List.forallb_forall. intros H x y Hx Hy Heq.
  apply list_elem_of_In in Hx, Hy. specialize (H x Hx). rewrite List.forallb_forall in H. specialize (H y Hy).
  rewrite bool_decide_eq_true_2 in H by done. by apply bool_decide_eq_true in H.
Qed.

(** The same origin under two sponsors. *)
Definition responsored_transfer : Transaction :=
  transfer (AuthSponsored (account_condition 1 0 0) (account_condition 3 7 9000)).

Lemma origin_digest_binds_witness :
  origin_digest sponsored_transfer = origin_digest responsored_transfer /\
  tx_payload sponsored_transfer = tx_payload responsored_transfer.
Proof.
  split; [vm_compute; reflexivity|].
  destruct (origin_digest_binds sponsored_transfer responsored_transfer (default [] (origin_digest sponsored_transfer)))
    as (_ & _ & _ & _ & _ & H & _).
  - exact sponsored_transfer_ok.
  - apply transfer_ok. split; by apply account_condition_ok.
  - vm_compute. reflexivity.
  - vm_compute. reflexivity.
  - apply (bool_decide_unpack _). vm_compute. exact I.
  - apply collision_freeb_sound. vm_compute. reflexivity.
  - exact H.
Defined.

Lemma verified_condition_bounds_witness :
  1 <= condition_required (account_condition 2 0 1000) <= signature_count (condition_fields (account_condition 2 0 1000)) /\
  len (condition_fields (account_condition 2 0 1000)) <= 16.
Proof.
  apply (verified_condition_bounds (account_condition 2 0 1000) (zero_hash 32) ORIGIN_AUTH_FLAG
    (match verify_condition (account_condition 2 0 1000) (zero_hash 32) ORIGIN_AUTH_FLAG with Ok h => h | Err _ => [] end)).
  - vm_compute. discriminate.
  - vm_compute. reflexivity.
Defined.

Lemma multisig_script_injective_witness : 1 = 1 /\ [replicate 33 2%u8; replicate 33 3%u8] = [replicate 33 2%u8; replicate 33 3%u8].
Proof.
  apply (multisig_script_injective 1 1 [replicate 33 2%u8; replicate 33 3%u8] [replicate 33 2%u8; replicate 33 3%u8]
    (match multisig_script 1 [replicate 33 2%u8; replicate 33 3%u8] with Ok s => s | Err _ => [] end)); vm_compute; reflexivity.
Defined.

Lemma merkle_root_total_witness : exists root,
  transaction_merkle_root [own_transfer; sponsored_transfer; own_transfer] = Some root /\ is_hash 32 root.
Proof.
  apply (merkle_root_total [own_transfer; sponsored_transfer; own_transfer]).
  repeat constructor; [exists own_id|exists sponsored_id|exists own_id]; vm_compute; reflexivity.
Defined.

Lemma merkle_root_binds_witness :
  mapM txid_input [own_transfer; sponsored_transfer] = mapM txid_input [own_transfer; sponsored_transfer].
Proof.
  apply (merkle_root_binds [own_transfer; sponsored_transfer] [own_transfer; sponsored_transfer]
    (default [] (transaction_merkle_root [own_transfer; sponsored_transfer]))).
  - reflexivity.
  - vm_compute. reflexivity.
  - vm_compute. reflexivity.
  - apply collision_freeb_sound. vm_compute. reflexivity.
Defined.

Lemma merkle_root_odd_duplicate_witness :
  transaction_merkle_root [own_transfer; own_transfer] = transaction_merkle_root [own_transfer].
Proof. apply (merkle_root_odd_duplicate [own_transfer] own_transfer); reflexivity. Defined.

(** ** The pool *)

Lemma pool1_ok : pool_ok pool1.
Proof. by apply (pool_reachable_ok (T := gmap StacksAddress.t Account) Network.TESTNET (mkMempoolLimits 10 10000)), pool1_reachable. Qed.

Lemma pool2_ok : pool_ok pool2.
Proof. by apply (pool_reachable_ok (T := gmap StacksAddress.t Account) Network.TESTNET (mkMempoolLimits 10 10000)), pool2_reachable. Qed.

Lemma some_pair_inj {A B} (a c : A) (b d : B) : Some (a, b) = Some (c, d) -> a = c /\ b = d.
Proof. by intros [= -> ->]. Qed.

Lemma submit_spec_witness : exists r m', submit pool1 sponsored_transfer empty_tip 0 = Some (r, m') /\
  r = Ok Added /\ mp_entries m' !! sponsored_id <> None.
Proof.
  destruct (submit_spec pool1 sponsored_transfer empty_tip 0 sponsored_id pool1_ok sponsored_transfer_ok
    sponsored_id_eq sponsored_fits) as (r & m' & Hs & Hr).
  pose proof submit2 as H2. rewrite Hs in H2. apply some_pair_inj in H2 as [-> Hm].
  destruct Hr as (e & replaced & _ & _ & _ & _ & (He & _) & _).
  exists (Ok Added), m'. split; [exact Hs|]. split; [reflexivity|]. rewrite He, lookup_insert_eq. discriminate.
Defined.

Lemma pool_invariant_witness : mp_bytes pool2 = pool_total (mp_entries pool2) /\ mp_bytes pool2 <= 10000.
Proof.
  destruct (pool_invariant Network.TESTNET (mkMempoolLimits 10 10000) pool2 ltac:(done) ltac:(done) pool2_reachable)
    as (H1 & H2 & _). exact (conj H1 H2).
Defined.

(** A tip at which account 2 has spent nonce 0. *)
Definition later_tip : gmap StacksAddress.t Account :=
  {[ StacksAddress.mk 26%u8 (hash160 (pk_serialize (2%u8 : @secp_pk demo_secp))) := mkAccount 1 None ]}.

Lemma advance_drops_stale_witness : exists dropped m', advance pool2 later_tip 0 = Some (dropped, m') /\
  pool_ok m' /\ mp_entries m' !! own_id = None.
Proof.
  destruct (advance_drops_stale pool2 later_tip 0 pool2_ok) as (dropped & m' & Ha & Hok & _ & _ & He).
  exists dropped, m'. split; [exact Ha|]. split; [exact Hok|]. rewrite He. vm_compute. reflexivity.
Defined.

(** A sponsor ahead of its nonce, over an origin whose nonce is spent. *)
Definition stale_origin : NonceCheck :=
  mkNonceCheck (StacksAddress.mk 26%u8 (hash160 (pk_serialize (2%u8 : @secp_pk demo_secp)))) 0
    (Some (StacksAddress.mk 26%u8 (zero_hash 20))) 1.

Lemma check_nonces_spec_witness : acct_nonce (account later_tip (nc_origin stale_origin)) = 1 /\
  nc_origin_nonce stale_origin = 0 /\ check_nonces later_tip stale_origin = Ok tt.
Proof.
  split; [vm_compute; reflexivity|]. split; [reflexivity|].
  apply (check_nonces_spec later_tip stale_origin).
  - vm_compute. split; discriminate.
  - vm_compute. split; discriminate.
  - vm_compute. repeat split; discriminate.
Defined.

Lemma candidates_within_block_witness : exists selected,
  candidates_in empty_tip pool2 (map_to_list (mp_entries pool2)).*2 = Some selected /\ lengths selected <= MAX_BLOCK_LEN.
Proof.
  destruct (candidates_within_block empty_tip pool2 pool2_ok (map_to_list (mp_entries pool2)).*2) as (sel & H1 & H2 & _);
    [apply Permutation_refl|]. exact (ex_intro _ sel (conj H1 H2)).
Defined.

Lemma candidates_order_independent_witness :
  candidates_in empty_tip pool2 (map_to_list (mp_entries pool2)).*2 =
  candidates_in empty_tip pool2 (reverse (map_to_list (mp_entries pool2)).*2).
Proof.
  apply (candidates_order_independent empty_tip pool2 pool2_ok); [apply Permutation_refl|]. apply reverse_Permutation.
Defined.

Lemma pool1_entries e : held pool1 e -> e ∈ (map_to_list (mp_entries pool1)).*2.
Proof. intros He. apply list_elem_of_fmap. exists (en_txid e, e). split; [done|]. by apply elem_of_map_to_list. Qed.

Lemma candidates_execute_in_order_witness : exists selected,
  candidates_in empty_tip pool1 (map_to_list (mp_entries pool1)).*2 = Some selected /\
  executes (fun a => acct_nonce (account empty_tip a)) selected.
Proof.
  exists (default [] (candidates_in empty_tip pool1 (map_to_list (mp_entries pool1)).*2)).
  split; [vm_compute; reflexivity|].
  assert (Hl : (map_to_list (mp_entries pool1)).*2 = [default (mkEntry own_transfer [] (StacksAddress.mk 0 []) 0 None (StacksAddress.mk 0 []) 0 0 0)
    (mp_entries pool1 !! own_id)]) by (vm_compute; reflexivity).
  apply (candidates_execute_in_order empty_tip pool1 pool1_ok) with (order := (map_to_list (mp_entries pool1)).*2).
  - intros e1 e2 s n H1%pool1_entries _ Hs. rewrite Hl in H1. apply list_elem_of_singleton in H1 as ->. discriminate Hs.
  - intros e H1%pool1_entries. rewrite Hl in H1. apply list_elem_of_singleton in H1 as ->. split; [reflexivity|]. intros s n Hs. discriminate Hs.
  - apply Permutation_refl.
  - vm_compute. reflexivity.
Defined.

Lemma pool2_ids : map_Forall (fun id e => txid (en_transaction e) = Some id) (mp_entries pool2).
Proof. apply (bool_decide_unpack _). vm_compute. exact I. Qed.

Lemma pages_complete_witness : exists txs,
  all_pages pool2 1 10000 (fun _ => true) 3 None = Some txs /\ length txs = 2%nat.
Proof.
  exists (omap (get pool2) (to_send pool2 10000 (fun _ => true) None)). split; [|vm_compute; reflexivity].
  apply (pages_complete pool2 1 10000 (fun _ => true)).
  - reflexivity.
  - vm_compute. split; discriminate.
  - exact pool2_ids.
  - apply Nat.ltb_lt. vm_compute. reflexivity.
Defined.

(** ** Blocks and signers *)

Definition sample_root : Sha256Sum := Eval vm_compute in
  default [] (transaction_merkle_root [own_transfer; sponsored_transfer]).

(** A block of two transactions, with the given signer signatures. *)
Definition sample_header (signatures : list (list byte)) : NakamotoBlockHeader :=
  mkHeader 1%u8 7 100 (replicate 20 1%u8) (replicate 32 2%u8) sample_root (replicate 32 4%u8) 5
    (0%u8 :: 9%u8 :: replicate 63 0%u8) signatures (BitVec.mk [1]%u8 1) [mkProblematic 3 1%u8].
Definition sample_block : NakamotoBlock := mkBlock (sample_header []) [own_transfer; sponsored_transfer].

Lemma sample_header_ok signatures : is_u32 (len signatures) -> Forall (fun s => len s = 65) signatures ->
  header_ok (sample_header signatures).
Proof.
  intros Hu HF. unfold header_ok. cbn [sample_header hd_chain_length hd_bitcoin_spent hd_consensus_hash hd_parent_block_id
    hd_transaction_merkle_root hd_state_index_root hd_timestamp hd_miner_signature hd_signer_signatures hd_pox_treatment
    hd_problematic_transactions hd_version].
  split; [split; discriminate|]. split; [split; discriminate|]. split; [reflexivity|]. split; [reflexivity|].
  split; [vm_compute; reflexivity|]. split; [reflexivity|]. split; [split; discriminate|]. split; [reflexivity|].
  split; [exact (conj Hu HF)|]. split; [vm_compute; repeat split; discriminate|].
  change (is_u32 1 /\ Forall (fun t => is_u32 (pt_index t)) [mkProblematic 3 1%u8]).
  split; [split; discriminate|]. apply Forall_singleton. split; discriminate.
Qed.

Lemma sample_block_ok : block_ok sample_block.
Proof.
  split; [apply sample_header_ok; [vm_compute; split; discriminate|constructor]|]. split; [vm_compute; split; discriminate|].
  split; [repeat constructor; apply own_transfer_ok || apply sponsored_transfer_ok || (vm_compute; reflexivity)|].
  split; [|vm_compute; reflexivity]. exists [own_id; sponsored_id]. split; [vm_compute; reflexivity|].
  apply (bool_decide_unpack _). vm_compute. exact I.
Qed.

Lemma block_roundtrip_witness : exists bs, encode_block sample_block = Some bs /\
  (len bs <= USIZE_MAX -> decode_block bs = Some (Ok sample_block)).
Proof.
  destruct (block_roundtrip sample_block sample_block_ok) as (bs & H1 & H2 & _).
  - repeat constructor.
  - exact (ex_intro _ bs (conj H1 H2)).
Defined.

Lemma block_decode_sound_witness : exists b n, decode_prefix (default [] (encode_block sample_block)) = Some (Ok (b, n)) /\ block_ok b.
Proof.
  exists sample_block, (len (default [] (encode_block sample_block))).
  assert (Hd : decode_prefix (default [] (encode_block sample_block)) =
    Some (Ok (sample_block, len (default [] (encode_block sample_block))))) by (vm_compute; reflexivity).
  split; [exact Hd|]. destruct (block_decode_sound (default [] (encode_block sample_block))) as (r & Hr & H).
  rewrite Hd in Hr. injection Hr as <-. exact (proj1 (H _ _ eq_refl)).
Defined.

Definition signature_by (k : byte) : list byte := 0%u8 :: k :: replicate 63 0%u8.

Lemma block_id_binds_witness :
  set_signer_signatures [] (sample_header [signature_by 1]) = set_signer_signatures [] (sample_header [signature_by 2]).
Proof.
  apply (block_id_binds (sample_header [signature_by 1]) (sample_header [signature_by 2])
    (default [] (header_block_id (sample_header [signature_by 1])))).
  - apply sample_header_ok; [vm_compute; split; discriminate|repeat constructor].
  - apply sample_header_ok; [vm_compute; split; discriminate|repeat constructor].
  - vm_compute. reflexivity.
  - vm_compute. reflexivity.
  - apply (bool_decide_unpack _). vm_compute. exact I.
  - apply collision_freeb_sound. vm_compute. reflexivity.
Defined.

(** Three signers of weights 3, 4 and 3. *)
Definition sample_signers : list Signer :=
  [mkSigner (1%u8 : @secp_pk demo_secp) 3; mkSigner (2%u8 : @secp_pk demo_secp) 4; mkSigner (3%u8 : @secp_pk demo_secp) 3].

Lemma sample_weights_u32 : Forall (fun w => is_u32 w) (recorded sample_signers).*2.
Proof.
  assert ((recorded sample_signers).*2 = [3; 4; 3]) as -> by (vm_compute; reflexivity).
  repeat first [apply Forall_nil_2 | apply Forall_cons_2]; split; discriminate.
Qed.

Lemma signer_set_verify_spec_witness : exists digest,
  approves (recorded sample_signers) digest [signature_by 1; signature_by 2] 7.
Proof.
  destruct (proj1 (signer_set_verify_spec sample_signers (sample_header [signature_by 1; signature_by 2]) 7
    sample_weights_u32)) as (_ & _ & digest & _ & H & _).
  - vm_compute. reflexivity.
  - exact (ex_intro _ digest H).
Defined.

Lemma order_responses_spec_witness :
  SignerWeights.order_responses (recorded sample_signers) (sample_header []) [signature_by 2; signature_by 1] =
    Some (Ok [signature_by 1; signature_by 2]) /\
  [signature_by 1; signature_by 2] ≡ₚ [signature_by 2; signature_by 1].
Proof.
  split; [vm_compute; reflexivity|].
  apply (order_responses_spec (recorded sample_signers) ltac:(apply (bool_decide_unpack _); vm_compute; exact I) sample_weights_u32
    (sample_header [])).
  vm_compute. reflexivity.
Defined.

(** Keys 1 and 2 share four slots. *)
Definition sample_stakes : list (@secp_pk demo_secp * Z) := [(1%u8, 5); (2%u8, 3); (1%u8, 2)].

Lemma reward_slots_spec_witness : exists ss, from_reward_slots sample_stakes 4 = Ok (ss, 3) /\
  map sg_weight ss = [3; 1] /\ zsum (map sg_weight ss) <= 4.
Proof.
  exists [mkSigner (1%u8 : @secp_pk demo_secp) 3; mkSigner (2%u8 : @secp_pk demo_secp) 1].
  split; [vm_compute; reflexivity|]. split; [reflexivity|].
  destruct (reward_slots_spec sample_stakes 4 3 [mkSigner (1%u8 : @secp_pk demo_secp) 3; mkSigner (2%u8 : @secp_pk demo_secp) 1])
    as (_ & _ & _ & _ & _ & _ & H & _).
  - vm_compute. split; discriminate.
  - repeat constructor; discriminate.
  - vm_compute. reflexivity.
  - exact H.
Defined.

(** ** Queues and budgets *)

Definition small_limits : Limits := mkLimits 2 10.
Lemma small_limits_ok : limits_ok small_limits.
Proof. vm_compute. repeat split; discriminate. Qed.

(** Two entries of 4 and 5 bytes. *)
Definition full_buffer : Buffer.t nat :=
  Buffer.mk small_limits [Buffer.mkBuffered 1%nat 4 0; Buffer.mkBuffered 2%nat 5 0] 9 0 0.

Lemma buffer_push_spec_witness : exists kept b', Buffer.push full_buffer 3%nat 6 1 = Some (kept, b') /\ kept = true.
Proof.
  destruct (Buffer.buffer_push_spec full_buffer 3%nat 6 1) as (kept & b' & H1 & H2 & _).
  - unfold Buffer.inv. split; [exact small_limits_ok|]. split; [repeat constructor; discriminate|].
    repeat split; vm_compute; discriminate || reflexivity.
  - vm_compute. repeat split; discriminate.
  - discriminate.
  - exists kept, b'. split; [exact H1|]. apply H2. vm_compute. discriminate.
Defined.

Lemma buffer_runs_witness : exists b : Buffer.t nat,
  Buffer.run (Buffer.new small_limits) [Buffer.Push 1%nat 4 0; Buffer.Push 2%nat 5 0; Buffer.Push 3%nat 6 1; Buffer.Take] = Some b /\
  Buffer.bytes b <= 10.
Proof.
  destruct (Buffer.buffer_runs small_limits
    [Buffer.Push 1%nat 4 0; Buffer.Push 2%nat 5 0; Buffer.Push 3%nat 6 1; Buffer.Take] small_limits_ok) as (b & H1 & _ & H2 & _).
  - repeat constructor; discriminate.
  - exact (ex_intro _ b (conj H1 H2)).
Defined.

(** A channel with one permit of 7 bytes out. *)
Definition one_permit : Channel.State nat :=
  Channel.mkState (Channel.mk small_limits {[0 := Channel.mkReservation 0 7]} 7 1 0 0) [0] [] [] [] Channel.Receiving.

Lemma one_permit_reachable : Channel.reachable small_limits 1 one_permit.
Proof.
  eapply Channel.reachable_step; [apply Channel.reachable_init|].
  apply (Channel.step_reserve _ _ [] [] [] [] Channel.Receiving Channel.Granted 7 0 0); [vm_compute; split; discriminate|reflexivity].
Qed.

Lemma channel_accounting_witness : Channel.bytes (Channel.acc one_permit) = Channel.total (Channel.entries (Channel.acc one_permit)) /\
  Channel.bytes (Channel.acc one_permit) <= 10.
Proof.
  destruct (Channel.channel_accounting small_limits 1 one_permit small_limits_ok ltac:(vm_compute; discriminate) one_permit_reachable)
    as (H1 & H2 & _). exact (conj H1 H2).
Defined.

Lemma step_never_panics_witness : is_Some (Channel.release (Channel.acc one_permit) 0).
Proof.
  destruct (Channel.step_never_panics small_limits 1 one_permit 0 3 0 Channel.Granted small_limits_ok
    ltac:(vm_compute; reflexivity) one_permit_reachable ltac:(vm_compute; split; discriminate)) as [H _]. exact H.
Defined.

Definition frame_limits : FrameLimits := mkFrameLimits 10 6.
Lemma frame_limits_ok : FrameBudget.limits_ok frame_limits.
Proof. vm_compute. repeat split; discriminate. Qed.

Definition one_frame : FrameBudget.Accounting Z := FrameBudget.mk frame_limits 6 {[1 := 6]} 0.

Lemma one_frame_reachable : FrameBudget.reachable frame_limits (one_frame, [FrameBudget.mkPermit 1 6]).
Proof.
  eapply FrameBudget.reachable_step; [apply FrameBudget.reachable_new|].
  apply (FrameBudget.step_reserve _ _ _ 1 6); [vm_compute; split; [reflexivity|discriminate]|reflexivity].
Qed.

Lemma frame_budget_bounds_witness : FrameBudget.bytes one_frame = 6 /\ FrameBudget.bytes_for one_frame 1 <= 6.
Proof.
  destruct (FrameBudget.frame_budget_bounds frame_limits one_frame _ frame_limits_ok one_frame_reachable) as (H1 & _ & H2 & _).
  split; [exact H1|]. apply (H2 1).
Defined.

Lemma frame_budget_total_witness : exists r a', FrameBudget.try_reserve one_frame 1 1 = Some (r, a') /\ is_ok r = false.
Proof.
  destruct (FrameBudget.frame_budget_total frame_limits one_frame _ frame_limits_ok one_frame_reachable) as [_ H].
  destruct (H 1 1) as (r & a' & H1 & H2); [vm_compute; split; [reflexivity|discriminate]|].
  exists r, a'. split; [exact H1|]. destruct (is_ok r); [|reflexivity].
  destruct (proj1 H2 eq_refl) as [_ Hb]. vm_compute in Hb. contradiction.
Defined.

(** ** Keys, bit vectors, addresses *)

Definition vrf_key : list byte := replicate 32 5%u8.
Definition vrf_message : list byte := [1; 2]%u8.
Definition vrf_proof : VrfProof.t := VrfProof.mk true false false.

Lemma vrf_prove_verify_witness : Vrf.verify 256 (verifying_key_of vrf_key) vrf_proof vrf_message = Some (Ok true).
Proof. apply (vrf_prove_verify 256 vrf_key vrf_message vrf_proof); vm_compute; reflexivity. Defined.

Lemma vrf_proved_bytes_roundtrip_witness : VrfProof.from_bytes (VrfProof.to_bytes vrf_proof) = Ok vrf_proof.
Proof. apply (vrf_proved_bytes_roundtrip 256 vrf_key vrf_message vrf_proof); vm_compute; reflexivity. Defined.

Lemma bitvec_new_spec_witness : match BitVec.new 4000 9 true with
  | Some (Ok v) => 0 < 9 <= 4000 /\ BitVec.wf 4000 v /\ BitVec.bits v = 9 /\
      forall i, 0 <= i < 9 -> BitVec.get v i = Some (Some true)
  | Some (Err e) => (9 = 0 /\ e = BitVec.Empty) \/ (4000 < 9 /\ e = BitVec.TooLong 9 4000)
  | None => False
  end.
Proof. apply (bitvec_new_spec 4000); vm_compute; split; discriminate. Defined.

Lemma bitvec_wire_canonical_witness :
  BitVec.from_wire_bytes 4000 [0; 9; 0; 0; 0; 2; 5; 1]%u8 = Some (Ok (BitVec.mk [5; 1]%u8 9)).
Proof.
  apply (bitvec_wire_canonical 4000 ltac:(vm_compute; split; discriminate) [0; 9; 0; 0; 0; 2; 5; 1]%u8).
  split; [vm_compute; repeat split; discriminate|vm_compute; reflexivity].
Defined.

(** Base58 replaced by the identity on bytes. *)
Lemma base58_roundtrip_witness :
  StacksAddress.from_bitcoin_base58 Some (StacksAddress.to_bitcoin_base58 (fun b => b) (StacksAddress.mk 22%u8 (zero_hash 20))) =
  Ok (StacksAddress.mk 22%u8 (zero_hash 20)).
Proof.
  apply (base58_roundtrip (fun b : list byte => b) Some (fun b => eq_refl) (StacksAddress.mk 22%u8 (zero_hash 20))).
  vm_compute. split; [discriminate|reflexivity].
Defined.

(** * Concrete runs of the peer-to-peer messages and the relay *)

Definition sample_view : ChainView := mkView 100 (replicate 32 1%u8) 93 (replicate 32 2%u8).
Lemma sample_view_ok : view_ok sample_view.
Proof. unfold view_ok, is_u64. cbn. split_and!; done. Qed.

Definition sample_relayer : RelayData := mkRelayData (mkNeighbor (replicate 16 0%u8) 20444 (replicate 20 7%u8)) 3.
Lemma sample_relayer_ok : relay_data_ok sample_relayer.
Proof. split; [split; [reflexivity|split; [split; discriminate|reflexivity]]|split; discriminate]. Qed.

(** A relayed ping, signed by key 5. *)
Definition ping : Payload.t := Payload.Ping 9.
Definition ping_relay : option (result WireError Message.t) :=
  Message.relay 0x18000000 1 sample_view 4 [sample_relayer] ping (5%u8 : @secp_sk demo_secp).
Definition ping_frame : list byte := Eval vm_compute in
  match encode_frame [sample_relayer] ping with Some (Ok f) => f | _ => [] end.
Definition ping_preamble (signature : list byte) : Preamble.t :=
  Preamble.mk 0x18000000 1 4 100 (replicate 32 1%u8) 93 (replicate 32 2%u8) 0 signature (len ping_frame).
Definition ping_message (signature : list byte) : Message.t :=
  Message.mk (ping_preamble signature) [sample_relayer] ping ping_frame None.

Lemma ping_preamble_ok signature : len signature = 65 -> preamble_ok (ping_preamble signature).
Proof. intros Hs. unfold preamble_ok, is_u32, is_u64. cbn -[len ping_frame]. split_and!; done. Qed.

Lemma message_roundtrip_witness : exists m bytes,
  ping_relay = Some (Ok m) /\ Message.encode m = Some bytes /\ Message.verify m (5%u8 : @secp_pk demo_secp) = Some (Ok tt).
Proof.
  destruct (message_roundtrip 0x18000000 1 4 sample_view [sample_relayer] ping (5%u8 : @secp_sk demo_secp)) as (frame & Hf & _ & H).
  - split_and!; done.
  - exact sample_view_ok.
  - split; [discriminate|]. apply Forall_singleton. exact sample_relayer_ok.
  - split; discriminate.
  - exact I.
  - exact I.
  - assert (Hl : len frame <= MAX_PAYLOAD_LEN).
    { assert (He : encode_frame [sample_relayer] ping = Some (Ok ping_frame)) by (vm_compute; reflexivity).
      rewrite He in Hf. injection Hf as <-. discriminate. }
    destruct (H Hl) as (m & bytes & H1 & H2 & _ & _ & _ & H3 & _). exact (ex_intro _ m (ex_intro _ bytes (conj H1 (conj H2 H3)))).
Defined.

Lemma message_decode_sound_witness : exists m,
  Message.decode (ping_preamble (signature_by 5)) (ping_frame ++ [1%u8]) = Some (Ok m) /\ len (Message.relayers m) <= MAX_RELAYERS.
Proof.
  destruct (message_decode_sound (ping_preamble (signature_by 5)) (ping_frame ++ [1%u8])) as (r & Hr & H).
  destruct r as [m|e].
  - exists m. split; [exact Hr|]. exact (proj1 (proj2 (proj2 (H m eq_refl)))).
  - exfalso. vm_compute in Hr. discriminate Hr.
Defined.

Lemma message_digest_binds_witness :
  Preamble.set_signature [] (ping_preamble (signature_by 5)) = Preamble.set_signature [] (ping_preamble (signature_by 6)).
Proof.
  apply (message_digest_binds (ping_preamble (signature_by 5)) (ping_preamble (signature_by 6)) ping_frame ping_frame
    (ping_message (signature_by 5)) (ping_message (signature_by 6))
    (default [] (Preamble.digest (ping_preamble (signature_by 5)) ping_frame))).
  - apply ping_preamble_ok. reflexivity.
  - apply ping_preamble_ok. reflexivity.
  - vm_compute. reflexivity.
  - vm_compute. reflexivity.
  - vm_compute. reflexivity.
  - vm_compute. reflexivity.
  - apply collision_freeb_sound. vm_compute. reflexivity.
Defined.

(** ** The relay *)

Definition relay_limits : Limits := mkLimits 2 100000.
Lemma relay_limits_ok : limits_ok relay_limits.
Proof. vm_compute. repeat split; discriminate. Qed.

(** A transaction is offered by a peer, taken, announced twice and sent out; it is
    then offered again. *)
Definition own_offer : Offer := offer_transaction (Some (replicate 20 7%u8)) own_transfer.
Definition block_offer : Offer := offer_block None sample_block.
Definition relay_ops : list relay_op :=
  [OpOffer own_offer 0; OpTakeOffered; OpAnnounce own_offer 1; OpAnnounce own_offer 2; OpAnnounce block_offer 3;
   OpTakeAnnouncing; OpOffer own_offer 4; OpTakeOffered].

Lemma own_offer_ok : item_ok (of_data own_offer).
Proof. split; [exact own_transfer_ok|]. vm_compute. reflexivity. Qed.

Lemma relay_ops_ok : Forall relay_op_ok relay_ops.
Proof.
  repeat first [apply Forall_nil_2 | apply Forall_cons_2]; first [exact own_offer_ok | exact sample_block_ok | exact I].
Qed.

Lemma relay_refines_witness : exists events r s,
  perform_all (Relay.Open (queues_new relay_limits)) relay_ops = Some (events, r) /\
  RelaySpec.steps relay_limits RelaySpec.init events s.
Proof.
  destruct (relay_refines relay_limits relay_ops relay_limits_ok relay_ops_ok) as (events & r & s & H1 & H2 & _).
  exact (ex_intro _ events (ex_intro _ r (ex_intro _ s (conj H1 H2)))).
Defined.

(** What was observed of that run. *)
Definition relay_events : list RelaySpec.event :=
  [RelaySpec.Offered own_offer; RelaySpec.TookOffered [own_offer]; RelaySpec.Announced own_offer; RelaySpec.Announced own_offer;
   RelaySpec.Announced block_offer; RelaySpec.TookAnnouncing [own_offer; block_offer]; RelaySpec.Offered own_offer;
   RelaySpec.TookOffered []].

Lemma relay_once_witness : exists sent, spaced sent /\ ids_of [own_offer; block_offer] `sublist_of` map Some sent.
Proof.
  destruct (perform_all (Relay.Open (queues_new relay_limits)) relay_ops) as [[events r]|] eqn:Hrun.
  - apply (relay_once relay_limits relay_ops relay_events r relay_limits_ok relay_ops_ok).
    rewrite Hrun. f_equal. f_equal. apply (f_equal (fun o => match o with Some (e, _) => e | None => [] end)) in Hrun.
    rewrite <- Hrun. vm_compute. reflexivity.
  - exfalso. apply (f_equal (fun o => match o with Some _ => true | None => false end)) in Hrun. vm_compute in Hrun. discriminate Hrun.
Defined.
