(* ===== verification/SortitionWitnesses.v ===== *)
(** * Applications of the sortition theorems at concrete inputs

    Each lemma applies one theorem of the development to data on which its
    hypotheses hold, checked by evaluation. *)

From stdpp Require Import gmap sorting.
From S2P Require Import Prelude Primitives Address Crypto Instances SortitionRules SortitionDraw SortitionTheorems.
From S2P Require Import SnapshotChain SortitionEngine ChainTheorems EngineTheorems.

#[export] Instance demo_carryover : CarryoverTable := {| CARRYOVER_ADVANTAGE := replicate 1024 5 |}.
#[export] Instance demo_carryover_ok : CarryoverTableOk.
Proof. split; [reflexivity|]. apply Forall_replicate. by split; vm_compute. Qed.

(** ** The draw *)

Definition demo_id (n : Z) : list byte := replicate 32 (byte_of n).
Definition demo_commitment (id spent : Z) (burn : Z) : MiningCommitment :=
  mkCommitment (demo_id id) (demo_id spent) 3 burn (demo_id (id + 100)) None None (demo_id 9) 99.

(** Two miners over three blocks; the second misses one. *)
Definition demo_window : list CommitmentWindowBlock :=
  [mkWindowBlock [demo_commitment 1 0 500; demo_commitment 2 0 300] [] false;
   mkWindowBlock [demo_commitment 3 1 500] [mkMissed (demo_id 4) (demo_id 2) 3] false;
   mkWindowBlock [demo_commitment 5 3 600; demo_commitment 6 4 900] [] false].
Definition demo_latest : CommitmentWindowBlock := mkWindowBlock [demo_commitment 5 3 600; demo_commitment 6 4 900] [] false.

Lemma burn_ok_1 c : (1 <=? mc_burn_sats c) && (mc_burn_sats c <=? U64_MAX) = true -> commitment_burn_ok c.
Proof. unfold commitment_burn_ok. lia. Qed.

Lemma demo_window_ok : window_ok demo_window.
Proof. repeat constructor; by apply burn_ok_1. Qed.

Lemma distribution_spec_witness : exists chains samples,
  Forall2 (chain_of (earlier_slots demo_window)) (wb_commitments demo_latest) chains /\ columns_once chains /\ Forall2 sample_of chains samples /\
  commitment_distribution demo_window = Some (
    let total := zsum (map sa_burn_sats samples) in if U64_MAX <? total then Err BurnOverflow else Ok (with_ranges total 0 samples)).
Proof. apply (distribution_spec demo_window demo_latest); [reflexivity|by vm_compute|apply demo_window_ok]. Defined.

Definition demo_samples : list BurnSample :=
  match commitment_distribution demo_window with Some (Ok l) => l | _ => [] end.

Lemma winner_spec_witness : exists i, select_winner demo_samples (demo_id 1) (demo_id 2) = Some i /\
  exists s, demo_samples !! i = Some s /\ (length demo_samples = 1%nat \/ in_sample (draw_point (demo_id 1) (demo_id 2)) s = true).
Proof.
  exists 0%nat. split; [by vm_compute|].
  destruct (winner_spec demo_window demo_latest demo_samples (demo_id 1) (demo_id 2)) as [Hw _];
    [reflexivity|by vm_compute|apply demo_window_ok|by vm_compute|]. apply Hw. by vm_compute.
Defined.

Lemma epoch4_winner_spec_witness : exists o, select_epoch4_winner demo_samples 3 (demo_id 1) (demo_id 2) 1500 800 = Some o.
Proof.
  destruct (epoch4_winner_spec demo_samples 3 (demo_id 1) (demo_id 2) 1500 800) as (o & Ho & _); [by split; vm_compute|by split; vm_compute|].
  by exists o.
Defined.

(** ** Commitments of a block, and the PoX history *)

Definition demo_cycles : RewardCycleSchedule.t := RewardCycleSchedule.mk 0 50 None.
Definition demo_payouts : PayoutSchedule.t := PayoutSchedule.mk demo_cycles 10 None None.
Definition demo_recipient : PoxAddress.t := PoxAddress.Standard (StacksAddress.mk 22 (replicate 20 1%u8)) None.
Definition demo_operation : BitcoinOperation :=
  mkOperation (demo_id 1) 1 [mkInput (demo_id 2) 3] [mkOutput 400 demo_recipient; mkOutput 400 demo_recipient]
    (LeaderBlockCommit (demo_id 3) (demo_id 4) 99 1 98 0 0%u8 0%u8).
Definition demo_bitcoin_block : BitcoinBlock := mkBitcoinBlock 121 (demo_id 8) 1000 [demo_operation].

Lemma window_block_spec_witness : exists b, commitment_window_block demo_bitcoin_block demo_payouts LeaderKeys.new = Some b /\
  map mc_burn_sats (wb_commitments b) = [800] /\ Forall commitment_burn_ok (wb_commitments b).
Proof.
  destruct (window_block_spec demo_bitcoin_block demo_payouts LeaderKeys.new) as (b & Hb & _ & _ & Hok & _).
  { repeat constructor; by vm_compute. }
  exists b. split; [done|]. split; [|done]. vm_compute in Hb. injection Hb as <-. reflexivity.
Defined.

Definition demo_tracker : PoxIdTracker.t := PoxIdTracker.mk demo_cycles [true; false] 40.

Lemma pox_tracker_roundtrip_witness : exists p, advance_all demo_tracker (replicate 20 true) = Ok p /\
  PoxIdTracker.retract_to p 40 = Ok demo_tracker.
Proof. apply (pox_tracker_roundtrip demo_tracker (replicate 20 true)); by vm_compute. Defined.

(** ** Chains *)

Definition demo_root : SortitionSnapshot := genesis 100 (demo_id 100).
Definition demo_history : list ConsensusHash := [replicate 20 7%u8; replicate 20 0%u8].
Definition demo_chain : SnapshotChain.t := SnapshotChain.mk [demo_root] demo_history [88; 95] None.
Definition demo_block (height : Z) : BitcoinBlock := mkBitcoinBlock height (demo_id height) height [].
Definition demo_winner : SortitionWinner := mkWinner (demo_id 1) (demo_id 2) None None (demo_id 3) 99.

Lemma demo_start : start_chain demo_root demo_history [95; 88; 95] = Some demo_chain.
Proof. reflexivity. Qed.
Lemma demo_root_ok : root_ok demo_root [95; 88; 95].
Proof. split; [by split; vm_compute|]. repeat constructor; by vm_compute. Qed.

Definition demo_append (winner : option SortitionWinner) (height : Z) : chain_op := ChainAppend (demo_block height) [demo_id 1] 50 PoxId.initial winner.
Definition demo_ops : list chain_op :=
  [demo_append (Some demo_winner) 101; demo_append None 102; demo_append None 104; ChainRetract 101; demo_append None 102; ChainKeep 100].

Definition run_outs (c : SnapshotChain.t) (ops : list chain_op) : list chain_out :=
  match run_chain c ops with Some (outs, _) => outs | None => [] end.
Definition run_state (c : SnapshotChain.t) (ops : list chain_op) : SnapshotChain.t :=
  match run_chain c ops with Some (_, c) => c | None => c end.
Lemma demo_run : run_chain demo_chain demo_ops = Some (run_outs demo_chain demo_ops, run_state demo_chain demo_ops).
Proof. vm_compute. reflexivity. Qed.

Lemma chain_refines_witness : exists outs c' s', run_chain demo_chain demo_ops = Some (outs, c') /\
  ArchiveChain.steps (start_archive demo_root demo_history [95; 88; 95]) demo_ops outs s' /\
  SnapshotChain.tip c' = last (ArchiveChain.archive s') /\ SnapshotChain.consensus_hashes c' = ArchiveChain.hashes s' /\
  exists forgotten, ArchiveChain.archive s' = forgotten ++ SnapshotChain.snapshots c'.
Proof. apply (chain_refines demo_root demo_history [95; 88; 95]); [apply demo_start|apply demo_root_ok]. Defined.

Lemma chain_answers_witness : SnapshotChain.last_sortition_at_or_below (run_state demo_chain demo_ops) 102 = Some 101 /\
  exists s, ArchiveChain.steps (start_archive demo_root demo_history [95; 88; 95]) demo_ops (run_outs demo_chain demo_ops) s /\ ArchiveChain.elected s 101.
Proof.
  assert (H : SnapshotChain.last_sortition_at_or_below (run_state demo_chain demo_ops) 102 = Some 101) by (vm_compute; reflexivity). split; [exact H|].
  destruct (chain_answers demo_root demo_history [95; 88; 95] demo_chain (run_state demo_chain demo_ops) demo_ops (run_outs demo_chain demo_ops) 102
    demo_start demo_root_ok demo_run) as (s & Hs & _ & _ & Hx). exists s. split; [exact Hs|]. by apply (Hx 101).
Defined.

Lemma window_reaches_floor_witness : exists x c2,
  SnapshotChain.append_with_operations (run_state demo_chain demo_ops) (demo_block 103) [] 50 PoxId.initial None = Some (Ok x, c2) /\
  demo_root ∈ SnapshotChain.snapshots c2.
Proof.
  destruct (SnapshotChain.append_with_operations (run_state demo_chain demo_ops) (demo_block 103) [] 50 PoxId.initial None) as [[[x|] c2]|] eqn:Happ;
    [|vm_compute in Happ; discriminate..].
  exists x, c2. split; [reflexivity|].
  apply (window_reaches_floor demo_root demo_history [95; 88; 95] demo_chain (run_state demo_chain demo_ops) c2 demo_ops (run_outs demo_chain demo_ops)
    (demo_block 103) [] 50 PoxId.initial None x demo_start demo_root_ok demo_run Happ).
  - apply (list_elem_of_lookup_2 _ 0). vm_compute. reflexivity.
  - right. exists 100. split; [vm_compute; reflexivity|by split; vm_compute].
Defined.

Lemma fork_recovery_witness : exists height reorg c2,
  SnapshotChain.find_fork (E := Empty_set) (run_state demo_chain demo_ops) (fun h => Ok (if h =? 102 then demo_id 55 else demo_id h)) = Some (Ok (Above height)) /\
  SnapshotChain.retract_above (run_state demo_chain demo_ops) height = Some (Ok reorg, c2) /\
  agrees (fun h => if h =? 102 then demo_id 55 else demo_id h) (ro_valid_ancestor reorg).
Proof.
  destruct (fork_recovery demo_root demo_history [95; 88; 95] demo_chain (run_state demo_chain demo_ops) demo_ops (run_outs demo_chain demo_ops)
    (fun h => if h =? 102 then demo_id 55 else demo_id h) demo_start demo_root_ok demo_run) as (fork & Hf & Hcase).
  assert (Hv : SnapshotChain.find_fork (E := Empty_set) (run_state demo_chain demo_ops) (fun h => Ok (if h =? 102 then demo_id 55 else demo_id h)) = Some (Ok (Above 101)))
    by (vm_compute; reflexivity).
  rewrite Hv in Hf. injection Hf as <-. destruct Hcase as (reorg & c2 & Hr & _ & _ & Ha & _). exists 101, reorg, c2. split; [exact Hv|]. split; [exact Hr|exact Ha].
Defined.

(** ** Engines *)

Definition demo_engine : SortitionEngine.t := SortitionEngine.mk (SnapshotChain.mk [demo_root] demo_history [] None) [].
Definition empty_commitments : CommitmentWindowBlock := mkWindowBlock [] [] false.
Definition demo_engine_append (commitments : CommitmentWindowBlock) (height : Z) : engine_op :=
  EngineAppend (demo_block height) [demo_id 1] commitments PoxId.initial 6.

Lemma demo_engine_ok : engine_ok demo_engine.
Proof. by apply (engine_start_ok demo_root demo_history). Qed.

Lemma demo_latest_ok : Forall commitment_burn_ok (wb_commitments demo_latest).
Proof. repeat constructor; by apply burn_ok_1. Qed.

Definition append_outcome (e : SortitionEngine.t) (height : Z) : option (result SortitionError SortitionSnapshot * SortitionEngine.t) :=
  SortitionEngine.append e (demo_block height) [demo_id 1] demo_latest PoxId.initial 6.

Lemma engine_append_spec_witness : exists x e', append_outcome demo_engine 101 = Some (Ok x, e') /\ engine_ok e' /\
  SnapshotChain.tip (SortitionEngine.snapshots e') = Some x.
Proof.
  destruct (engine_append_spec demo_engine (demo_block 101) [demo_id 1] demo_latest PoxId.initial 6 demo_engine_ok demo_latest_ok)
    as (tip & r & e' & _ & Ha & He & Hr). destruct r as [x|err].
  - exists x, e'. destruct Hr as (d & _ & _ & Hx & _). split; [exact Ha|]. split; [exact He|exact Hx].
  - vm_compute in Ha. discriminate.
Defined.

Lemma engine_never_panics_witness : exists e',
  run_engine demo_engine [demo_engine_append demo_latest 101; demo_engine_append demo_latest 103; EngineRetract 100] = Some e' /\ engine_ok e'.
Proof.
  apply (engine_never_panics demo_root demo_history); [reflexivity|by split; vm_compute|].
  repeat constructor; by apply burn_ok_1.
Defined.

Definition demo_long : SortitionEngine.t :=
  default demo_engine (run_engine demo_engine (map (demo_engine_append empty_commitments) (seqZ 101 12))).

Lemma demo_long_ok : engine_ok demo_long.
Proof.
  unfold demo_long. destruct (run_engine_ok demo_engine (map (demo_engine_append empty_commitments) (seqZ 101 12)) demo_engine_ok) as (e & -> & He); [|exact He].
  repeat constructor.
Qed.

Lemma retractions_drain_window_witness : exists tip r1 e1 r2 e2, SnapshotChain.tip (SortitionEngine.snapshots demo_long) = Some tip /\
  SortitionEngine.retract_above demo_long (sn_bitcoin_height tip - MINING_COMMITMENT_WINDOW) = Some (Ok r1, e1) /\
  SortitionEngine.retract_above e1 (sn_bitcoin_height tip - RETAINED_COMMITMENT_BLOCKS) = Some (Ok r2, e2) /\ SortitionEngine.commitment_window e2 = [].
Proof.
  destruct (SnapshotChain.tip (SortitionEngine.snapshots demo_long)) as [tip|] eqn:Htip; [|vm_compute in Htip; discriminate].
  destruct (retractions_drain_window demo_long tip demo_long_ok Htip) as (r1 & e1 & r2 & e2 & H); [vm_compute; reflexivity|vm_compute; reflexivity|].
  exists tip, r1, e1, r2, e2. split; [reflexivity|exact H].
Defined.

Lemma append_retract_roundtrip_witness : exists x e1, append_outcome demo_engine 101 = Some (Ok x, e1) /\
  SortitionEngine.retract_above e1 100 = Some (Ok (mkReorg demo_root [x]), demo_engine).
Proof.
  destruct (append_outcome demo_engine 101) as [[[x|] e1]|] eqn:Happ; [|vm_compute in Happ; discriminate..]. exists x, e1. split; [reflexivity|].
  apply (append_retract_roundtrip demo_engine e1 demo_root x (demo_block 101) [demo_id 1] demo_latest PoxId.initial 6 demo_engine_ok demo_latest_ok);
    [reflexivity|vm_compute; reflexivity|vm_compute; reflexivity|exact Happ].
Defined.

(** ** Consensus hashes *)

Definition demo_input (height : Z) (winner : option SortitionWinner) : ChainInput := mkChainInput (demo_block height) [demo_id 1] 50 PoxId.initial winner.
Definition demo_inputs (winner : option SortitionWinner) : list ChainInput := [demo_input 101 winner; demo_input 102 None].

Lemma demo_inputs_ok winner : Forall chain_input_ok (demo_inputs winner).
Proof. repeat constructor; by vm_compute. Qed.

Definition append_state (winner : option SortitionWinner) : SnapshotChain.t :=
  match append_all demo_chain (demo_inputs winner) with Some (Ok c) => c | _ => demo_chain end.

Lemma default_of_some {A} (d x : A) : default d (Some x) = x.
Proof. reflexivity. Qed.

(** The skip list, as the code computes it. *)
Lemma skips_eval hs : ArchiveChain.skips hs = default [] (SnapshotChain.skip_hashes hs (len hs - 1) 0 64).
Proof. rewrite skip_hashes_all. symmetry. apply default_of_some. Qed.

Lemma digests_distinct (l : list (list byte)) :
  forallb (fun x => forallb (fun y => implb (bool_decide (hash160 x = hash160 y)) (bool_decide (x = y))) l) l = true ->
  forall x y, x ∈ l -> y ∈ l -> hash160 x = hash160 y -> x = y.
Proof.
  intros H x y Hx%list_elem_of_In Hy%list_elem_of_In Heq. rewrite forallb_forall in H. specialize (H x Hx). rewrite forallb_forall in H. specialize (H y Hy).
  rewrite (bool_decide_eq_true_2 _ Heq) in H. by apply bool_decide_eq_true in H.
Qed.

Lemma consensus_hash_commits_witness : map committed (demo_inputs None) = map committed (demo_inputs (Some demo_winner)).
Proof.
  apply (consensus_hash_commits demo_root demo_history [95; 88; 95] demo_chain (append_state None) (append_state (Some demo_winner)));
    [apply demo_start|apply demo_root_ok|repeat constructor|apply demo_inputs_ok|apply demo_inputs_ok|reflexivity|vm_compute; reflexivity|vm_compute; reflexivity|vm_compute; reflexivity|].
  assert (Hd : digested demo_history (demo_inputs (Some demo_winner)) = digested demo_history (demo_inputs None)) by reflexivity. rewrite Hd.
  apply digests_distinct. unfold demo_inputs, digested, next_bytes. rewrite !skips_eval. vm_compute. reflexivity.
Defined.
