(* ===== verification/BitcoinWitnesses.v ===== *)
(** * The Bitcoin theorems at concrete inputs

    A small model of the [bitcoin] crate, two chains that part at a height, the
    servers of both, and the theorems of [BitcoinTheorems] and [SourceTheorems]
    applied to them. *)

From stdpp Require Import gmap.
From S2P Require Import Prelude Primitives Address CodecIO Crypto Instances SortitionRules Sbtc BitcoinScript BitcoinSource SortitionTheorems BitcoinTheorems SourceTheorems.

(** ** A model of the [bitcoin] crate *)

Definition demo_magic : list byte := [88; 50]%u8.
Definition demo_op_return (data : list byte) : list byte := OP_RETURN :: data.
Definition demo_txid (tx : BtcTransaction) : list byte := replicate 32 (byte_of (bt_version tx)).
Definition demo_payee : PoxAddress.t := PoxAddress.Standard (StacksAddress.mk 26 (replicate 20 7%u8)) (Some P2pkh).
Definition demo_spendable (value : Z) : TxOut := mkTxOut value (PoxAddress.script_pubkey demo_payee).

(** [PreStx], and the transfer its second output authenticates. *)
Definition demo_pre_stx : BtcTransaction :=
  mkBtcTransaction 1 0 [mkTxIn (replicate 32 9%u8) 0] [mkTxOut 0 (demo_op_return (demo_magic ++ [112%u8])); demo_spendable 500].
Definition demo_transfer : BtcTransaction :=
  mkBtcTransaction 2 0 [mkTxIn (demo_txid demo_pre_stx) 1] [mkTxOut 0 (demo_op_return (demo_magic ++ [36%u8] ++ to_be_bytes 16 1000)); demo_spendable 500].

Definition demo_commit : LeaderBlockCommitment := mkLeaderBlockCommitment (replicate 32 3%u8) (replicate 32 4%u8) 150 1 149 2 17%u8 0%u8.
Definition demo_commit_tx : BtcTransaction :=
  mkBtcTransaction 2 0 [mkTxIn (replicate 32 5%u8) 2]
    [mkTxOut 0 (demo_op_return (demo_magic ++ [91%u8] ++ match encode_commitment demo_commit with Ok b => b | Err _ => [] end)); demo_spendable 700].

(** The block with the hash of thirty-two bytes [v]. *)
Definition demo_btc_block (v : byte) : BtcBlock :=
  mkBtcBlock (replicate 32 v) 0
    (if u8 v =? 1 then [demo_pre_stx] else if u8 v =? 2 then [demo_transfer] else if u8 v =? 3 then [demo_commit_tx] else []).

#[export] Instance demo_bitcoin : BitcoinLib := {|
  deserialize_block := fun bytes => match bytes with [v] => Some (demo_btc_block v) | _ => None end;
  compute_txid := demo_txid;
  instructions_minimal := fun script => match script with b :: data => [Some (Op b); Some (PushBytes data)] | [] => [] end;
  push_bytes_ok := fun data => len data <=? U32_MAX;
  new_op_return := demo_op_return;
|}.

#[export] Instance demo_bitcoin_ok : BitcoinLibOk.
Proof. split; [done|]. intros data H. by apply Z.leb_le. Qed.

(** ** Two chains and their servers *)

(** A [PreStx] output at height 10; after the fork at 16, a transfer spends it. *)
Definition demo_before (h : Z) : byte := if h =? 10 then 1%u8 else 0%u8.
Definition demo_after (h : Z) : byte := if h =? 10 then 1%u8 else if h =? 16 then 2%u8 else 0%u8.
Definition demo_chain_of (variant : Z -> byte) (h : Z) : BtcBlock := demo_btc_block (variant h).

Definition demo_client (variant : Z -> byte) : @BitcoinRpcSource.Client unit :=
  BitcoinRpcSource.mkClient (fun h => Ok (replicate 32 (variant h))) (fun hash => Ok (take 1 hash)).

(** The digits, and the line end the server sends with them. *)
Definition demo_hex (v : byte) : list byte := concat (replicate 32 [48%u8; byte_of (48 + u8 v)]) ++ [10%u8].

Definition demo_server (variant : Z -> byte) : @BitcoinRestSource.Server unit := fun path =>
  match path with
  | BitcoinRestSource.BlockHeight h => Ok (demo_hex (variant h))
  | BitcoinRestSource.BlockRaw hash => match decode_block_hash hash with Some bytes => Ok (take 1 bytes) | None => Err tt end
  | BitcoinRestSource.TipHeight => Ok [49; 54]%u8
  end.

Definition small_variant (variant : Z -> byte) : Prop := forall h, variant h ∈ [0; 1; 2; 3]%u8.

Lemma demo_before_small : small_variant demo_before.
Proof. intros h. unfold demo_before. case_match; set_solver. Qed.

Lemma demo_after_small : small_variant demo_after.
Proof. intros h. unfold demo_after. repeat case_match; set_solver. Qed.

Lemma client_serves variant : small_variant variant -> serves (BitcoinRpcSource.remote (demo_client variant)) (demo_chain_of variant).
Proof.
  intros Hv h _. split; [done|]. split; [|by exists [variant h]]. unfold demo_chain_of. specialize (Hv h). generalize dependent (variant h). intros v Hv.
  repeat (apply elem_of_cons in Hv as [->|Hv]; [done|]). by apply elem_of_nil in Hv.
Qed.

Lemma server_serves variant : small_variant variant -> serves (BitcoinRestSource.remote (demo_server variant)) (demo_chain_of variant).
Proof.
  intros Hv h _. cbn. unfold BitcoinRestSource.block_hash_at, BitcoinRestSource.raw_at, BitcoinRestSource.get_text, BitcoinRestSource.get, demo_server, demo_chain_of.
  specialize (Hv h). generalize dependent (variant h). intros v Hv.
  repeat (apply elem_of_cons in Hv as [->|Hv]; [split; [by vm_compute|split; [done|eexists; split; [by vm_compute|done]]]|]). by apply elem_of_nil in Hv.
Qed.

Lemma demo_fork j : j < 16 -> demo_chain_of demo_after j = demo_chain_of demo_before j.
Proof. intros Hj. unfold demo_chain_of, demo_after, demo_before. case_match; [done|]. by rewrite (proj2 (Z.eqb_neq j 16)) by lia. Qed.

Lemma source_reads_canonical_witness :
  Forall2 (fun h r => exists b, r = Ok b /\ canonical_block demo_magic (demo_chain_of demo_after) h = Some b) [16; 12; 12; 30]
    (read_all BitcoinRpcSource.invalidate_from (BitcoinRpcSource.remote (demo_client demo_after)) (source_new demo_magic) [16; 12; 12; 30]).1.
Proof. apply source_reads_canonical; [apply client_serves, demo_after_small|]. repeat constructor; done. Defined.

(** The block the source returns holds the transfer of the address that signed for it. *)
Lemma pre_stx_authentic_witness : exists b op s input j tx, canonical_block demo_magic (demo_chain_of demo_after) 16 = Some b /\ bb_operations b = [op] /\
  sender_of (op_kind op) = Some s /\ head (op_inputs op) = Some input /\ tx ∈ bk_txdata (demo_chain_of demo_after j) /\ pre_entry demo_magic tx = Some (in_txid input, s).
Proof.
  destruct (canonical_block demo_magic (demo_chain_of demo_after) 16) as [b|] eqn:Hb; [|vm_compute in Hb; discriminate].
  destruct (bb_operations b) as [|op [|]] eqn:Hops; [vm_compute in Hb; injection Hb as <-; discriminate| |vm_compute in Hb; injection Hb as <-; discriminate].
  destruct (sender_of (op_kind op)) as [s|] eqn:Hs; [|vm_compute in Hb; injection Hb as <-; injection Hops as <-; discriminate].
  destruct (pre_stx_authentic demo_magic (demo_chain_of demo_after) 16 b op s ltac:(done) Hb) as (input & j & tx & Hin & _ & _ & _ & Htx & He); [rewrite Hops; by left|done|].
  by exists b, op, s, input, j, tx.
Defined.

Lemma rest_reorg_recovers_witness : exists b, canonical_block demo_magic (demo_chain_of demo_after) 16 = Some b /\
  (BitcoinRestSource.block_at (demo_server demo_after)
     (BitcoinRestSource.invalidate_from (read_all BitcoinRestSource.invalidate_from (BitcoinRestSource.remote (demo_server demo_before)) (source_new demo_magic) [17]).2 16) 16).1 = Ok b.
Proof.
  apply (rest_reorg_recovers demo_magic (demo_server demo_before) (demo_server demo_after) (demo_chain_of demo_before) (demo_chain_of demo_after) [17] 16 16);
    [apply server_serves, demo_before_small|apply server_serves, demo_after_small|apply demo_fork|repeat constructor; done|done|done].
Defined.

(** Two chains that agree below height 16, and an RPC source that read height 17
    of the first and was told of the fork: it returns block 16 of the second without
    the transfer in it, and a new source returns the transfer. The [PreStx] output at
    height 10 had left the window when 17 was read and is not read again. *)
Theorem rpc_reorg_loses_pre_stx : exists (before after : @BitcoinRpcSource.Client unit) (g1 g2 : Z -> BtcBlock) (b b' : BitcoinBlock),
  serves (BitcoinRpcSource.remote before) g1 /\ serves (BitcoinRpcSource.remote after) g2 /\ (forall j, j < 16 -> g2 j = g1 j) /\
  let reorganized := BitcoinRpcSource.invalidate_from (BitcoinRpcSource.block_at before (source_new demo_magic) 17).2 16 in
  (BitcoinRpcSource.block_at after reorganized 16).1 = Ok b' /\ bb_operations b' = [] /\
  (BitcoinRpcSource.block_at after (source_new demo_magic) 16).1 = Ok b /\
  exists op s, bb_operations b = [op] /\ sender_of (op_kind op) = Some s.
Proof.
  exists (demo_client demo_before), (demo_client demo_after), (demo_chain_of demo_before), (demo_chain_of demo_after).
  destruct (BitcoinRpcSource.block_at (demo_client demo_after) (source_new demo_magic) 16).1 as [b|] eqn:Hb; [|vm_compute in Hb; discriminate].
  set (s := BitcoinRpcSource.invalidate_from _ 16). destruct (BitcoinRpcSource.block_at (demo_client demo_after) s 16).1 as [b'|] eqn:Hb'; [|vm_compute in Hb'; discriminate].
  exists b, b'. split; [apply client_serves, demo_before_small|]. split; [apply client_serves, demo_after_small|]. split; [apply demo_fork|]. cbn zeta. split; [done|].
  split; [vm_compute in Hb'; by injection Hb' as <-|]. split; [done|]. vm_compute in Hb. injection Hb as <-. by eexists _, _.
Qed.

(** ** A commitment *)

Definition demo_waterfall_payouts : PayoutSchedule.t := PayoutSchedule.mk (RewardCycleSchedule.mk 0 50 (Some 2)) 10 (Some demo_payee) None.

Lemma amounts_checked ops :
  forallb (fun op => forallb (fun o => (0 <=? out_amount_sats o) && (out_amount_sats o <=? MAX_MONEY)) (op_outputs op)) ops = true -> Forall amounts_ok ops.
Proof.
  rewrite forallb_forall. intros H. apply Forall_forall. intros op Hop%list_elem_of_In. apply Forall_forall. intros o Ho%list_elem_of_In.
  specialize (H op Hop). rewrite forallb_forall in H. specialize (H o Ho). lia.
Qed.

Lemma built_commitment_competes_witness : exists b cache', decode_block_with_pre_stx 151 [3%u8] demo_magic PreStxCache.new = (Ok b, cache') /\
  exists w m, commitment_window_block b demo_waterfall_payouts LeaderKeys.new = Some w /\ m ∈ wb_commitments w /\ mc_burn_sats m = 700.
Proof.
  destruct (built_commitment_competes demo_magic [3%u8] (demo_btc_block 3%u8) 0 demo_commit_tx demo_commit [mkTxIn (replicate 32 5%u8) 2] demo_payee 700 None 151
    demo_waterfall_payouts LeaderKeys.new PreStxCache.new) as (b & c & Hd & Hw); try done.
  - split; [done|]. left. split; [done|]. by right.
  - exists b, c. split; [done|]. destruct Hw as (w & m & Hw & Hin & _ & Hburn & _); [|by exists w, m].
    assert (Hb : bb_operations b = match (decode_block_with_pre_stx 151 [3%u8] demo_magic PreStxCache.new).1 with Ok b => bb_operations b | Err _ => [] end) by (by rewrite Hd).
    rewrite Hb. apply amounts_checked. by vm_compute.
Defined.

(** ** A deposit *)

Definition demo_id_of (n : Z) : list byte := replicate 32 (byte_of n).

Lemma sha256_distinct (l : list (list byte)) :
  forallb (fun x => forallb (fun y => implb (bool_decide (sha256 x = sha256 y)) (bool_decide (x = y))) l) l = true -> Sbtc.collision_free l.
Proof.
  intros H x y Hx%list_elem_of_In Hy%list_elem_of_In Heq. rewrite forallb_forall in H. specialize (H x Hx). rewrite forallb_forall in H. specialize (H y Hy).
  rewrite (bool_decide_eq_true_2 _ Heq) in H. by apply bool_decide_eq_true in H.
Qed.

Definition demo_deposit : list byte := match Sbtc.deposit_script (demo_id_of 2) [5%u8; 22%u8] 80000 with Ok s => s | Err _ => [] end.
Definition demo_reclaim : list byte := Sbtc.reclaim_script 6 [].

Lemma deposit_root_binds_witness : exists root, Sbtc.deposit_root (demo_id_of 2) [5%u8; 22%u8] 80000 6 [] = Ok root /\ demo_id_of 2 = demo_id_of 2.
Proof.
  destruct (Sbtc.deposit_root (demo_id_of 2) [5%u8; 22%u8] 80000 6 []) as [root|] eqn:Hr; [|vm_compute in Hr; discriminate]. exists root. split; [reflexivity|].
  refine (proj1 (Sbtc.deposit_root_binds (demo_id_of 2) [5%u8; 22%u8] [] (demo_id_of 2) [5%u8; 22%u8] [] demo_deposit demo_deposit root 80000 6 80000 6 _ _ _ _ _ _ _ _ Hr Hr));
    [by vm_compute..|by repeat constructor|].
  apply sha256_distinct. vm_compute. reflexivity.
Defined.
