(* ===== verification/MarfWitnesses.v ===== *)
(** * The theorems of the MARF at concrete states

    Two sealed states and one being written, under the instances of [Instances]. *)

From stdpp Require Import gmap sorting.
From S2P Require Import Prelude Primitives Crypto Instances MarfTrie MarfVersions MarfTheorems MarfSealing MarfTables MarfRefinement MarfCache.

Definition demo_block (n : Z) : list byte := replicate 32 (byte_of n).
Definition demo_value (n : Z) : list byte := MarfValue.from_u32 n.

Definition demo_ops : list MarfOp :=
  [Begin None (demo_block 1); InsertPath (demo_block 7) (demo_value 5); Seal;
   Begin (Some (demo_block 1)) (demo_block 2); InsertPath (demo_block 7) (demo_value 6); InsertPath (demo_block 8) (demo_value 9); SealTo (demo_block 3);
   Begin (Some (demo_block 3)) (demo_block 4); Abort; DiscardAbove 5;
   Begin (Some (demo_block 3)) (demo_block 4); InsertPath (demo_block 9) (demo_value 1)].

Lemma demo_typed : Forall op_typed demo_ops.
Proof. unfold demo_ops. repeat apply Forall_cons_2; try apply Forall_nil_2; cbn; try done; (split; [|done]); intros p Hp; congruence || by injection Hp as <-. Qed.

Definition demo_marf : VersionedMarf.t := match marf_run VersionedMarf.new demo_ops with Some (_, m) => m | None => VersionedMarf.new end.
Definition demo_replies : list MarfReply := match marf_run VersionedMarf.new demo_ops with Some (rs, _) => rs | None => [] end.

Lemma demo_marf_run : marf_run VersionedMarf.new demo_ops = Some (demo_replies, demo_marf).
Proof. vm_compute. reflexivity. Qed.

Lemma marf_refines_witness : Forall op_typed demo_ops /\
  exists rs m s, marf_run VersionedMarf.new demo_ops = Some (rs, m) /\ MarfSpec.runs MarfSpec.new demo_ops rs s /\ observes m s.
Proof. split; [apply demo_typed|apply (marf_refines demo_ops), demo_typed]. Defined.

Definition demo_sealed : TrieHash := match VersionedMarf.seal_to demo_marf (demo_block 5) with Some (Ok root, _) => root | _ => [] end.
Definition demo_after : VersionedMarf.t := match VersionedMarf.seal_to demo_marf (demo_block 5) with Some (_, m) => m | _ => demo_marf end.

Lemma seal_returns_pending_root_witness : VersionedMarf.seal_to demo_marf (demo_block 5) = Some (Ok demo_sealed, demo_after) /\
  VersionedMarf.pending_root demo_marf = Some (Ok demo_sealed) /\ VersionedMarf.root demo_after (demo_block 5) = Some demo_sealed.
Proof.
  assert (Hs : VersionedMarf.seal_to demo_marf (demo_block 5) = Some (Ok demo_sealed, demo_after)) by (vm_compute; reflexivity).
  split; [exact Hs|exact (seal_returns_pending_root demo_ops (demo_block 5) demo_replies demo_marf demo_sealed demo_after demo_typed demo_marf_run Hs)].
Defined.

Lemma leaves_are_contents_witness : VersionedMarf.contains demo_marf (demo_block 3) = true /\
  exists l, VersionedMarf.leaves demo_marf (demo_block 3) = Some (Ok (Some l)) /\ NoDup l.*1 /\ Sorted (fun a b => bytes_le a.1 b.1) l /\
    forall path value, (path, value) ∈ l <-> length path = 32%nat /\ VersionedMarf.get_path demo_marf (demo_block 3) path = Some (Ok (Some value)).
Proof.
  assert (Hc : VersionedMarf.contains demo_marf (demo_block 3) = true) by (vm_compute; reflexivity). split; [exact Hc|].
  pose proof (leaves_are_contents demo_ops demo_replies demo_marf (demo_block 3) demo_typed demo_marf_run) as Hl. rewrite Hc in Hl. exact Hl.
Defined.

Lemma tip_is_highest_witness : VersionedMarf.height demo_marf (demo_block 1) = Some 0 /\ VersionedMarf.verify_tip demo_marf = Ok (VersionedMarf.tip demo_marf).
Proof. split; [vm_compute; reflexivity|exact (proj1 (tip_is_highest demo_ops demo_replies demo_marf demo_typed demo_marf_run))]. Defined.

Definition demo_row : BlockRow := match storage_block (VersionedMarf.vm_storage demo_marf) (demo_block 3) with Some r => r | None => mkRow 0 [] None 0 [] [] None [] end.

Lemma demo_row_in : demo_row ∈ st_blocks (VersionedMarf.vm_storage demo_marf).
Proof.
  assert (Hr : storage_block (VersionedMarf.vm_storage demo_marf) (demo_block 3) = Some demo_row) by (vm_compute; reflexivity).
  revert Hr. generalize demo_row. generalize (VersionedMarf.vm_storage demo_marf). intros st r Hr. apply find_some in Hr as [Hr _]. by apply list_elem_of_In.
Qed.

Lemma descent_is_logarithmic_witness : exists block, VersionedMarf.descend_to (VersionedMarf.vm_storage demo_marf) 3 demo_row 0 = Some (Ok (Some block)) /\
  ancestor_at demo_marf (row_hash demo_row) (Z.to_nat (row_height demo_row - 0)) block /\ VersionedMarf.height demo_marf block = Some 0 /\
  VersionedMarf.block_at_height demo_marf (row_hash demo_row) 0 = Some (Ok (Some block)).
Proof.
  apply (descent_is_logarithmic demo_ops demo_replies demo_marf demo_row 0 3 demo_typed demo_marf_run); [exact demo_row_in|vm_compute; split; discriminate|vm_compute; reflexivity].
Defined.

(** ** Caches *)

Definition demo_cache_ops : list (CacheOp Z Z) := [CacheInsert 1 10; CacheInsert 2 20; CacheGet 1; CacheInsert 3 30; CacheInsert 4 40; CacheGet 2; CacheRemove 1; CacheGet 1].

Lemma cache_bounded_and_faithful_witness : exists rs c, cache_run (fun _ : Z => 8) (Cache.new 100) demo_cache_ops = Some (rs, c) /\ Forall2 (fun r t => r = None \/ r = t) rs (written ∅ demo_cache_ops) /\
    (Cache.usage c).2 <= 2 * (100 + ENTRY_OVERHEAD + 8) /\ (Cache.usage c).2 = Cache.bytes_of (fun _ => 8) (Cache.hot c ∪ Cache.cold c) /\
    (Cache.usage c).1 = Z.of_nat (size (Cache.hot c ∪ Cache.cold c)).
Proof. apply (cache_bounded_and_faithful (fun _ : Z => 8) 8); [intros; lia|lia|lia|vm_compute; discriminate]. Defined.

Definition demo_store : TrieStorage := VersionedMarf.vm_storage demo_marf.

Lemma demo_store_ok : store_ok demo_store.
Proof. destruct (run_refines _ _ demo_ops implements_new demo_typed) as (rs & m & s & Hr & _ & R). assert (m = demo_marf) as -> by (pose proof demo_marf_run; congruence). apply R. Qed.

Lemma demo_coherent : coherent (fun _ => 8) (fun _ => 8) (fun _ => 8) 8 (CachedStorage.fresh demo_store).
Proof. apply fresh_coherent; [apply demo_store_ok|intros r Hr; apply (so_row _ demo_store_ok r Hr)|vm_compute; discriminate|lia]. Qed.

Lemma cached_reads_are_reads_witness : answers (fun _ => 8) (fun _ => 8) (fun _ => 8) 8 (CachedStorage.fresh demo_store)
  (CachedStorage.node (fun _ => 8) (CachedStorage.fresh demo_store) 2 0) (storage_node demo_store 2 0).
Proof. refine (proj1 (cached_reads_are_reads (fun _ => 8) (fun _ => 8) (fun _ => 8) 8 _ _ _ (CachedStorage.fresh demo_store) demo_coherent) 2 0); intros; lia. Defined.

Lemma discard_leaves_no_stale_entry_witness : coherent (fun _ => 8) (fun _ => 8) (fun _ => 8) 8 (CachedStorage.discard_above (CachedStorage.fresh demo_store) 0).2.
Proof. apply (discard_leaves_no_stale_entry (fun _ => 8) (fun _ => 8) (fun _ => 8) 8 (CachedStorage.fresh demo_store) 0 demo_coherent demo_store_ok); [vm_compute; discriminate|lia]. Defined.
