(* ===== verification/SignerWitnesses.v ===== *)
(** * The signer on concrete inputs

    An operating system whose clock moves by forty seconds a reading and whose disk
    works, encodings into bytes, and runs of the signer on them.

    And the miner on concrete inputs. *)

From stdpp Require Import gmap countable.
From S2P Require Import Prelude Primitives Address CodecIO Crypto TxData TxCodec TxTheorems TxAuth Nakamoto Signers SignerTheorems NakamotoTheorems PeerWire.
From S2P Require Import SortitionRules BitcoinScript StackerDb StackerDbTheorems Effects EmbeddedSigner ProposalExecution SignerSafety SignerService SignerServiceTheorems Miner MinerTheorems Instances Witnesses.

(** ** The system *)

#[local] Instance demo_host : Host := {|
  IoError := unit;
  system_time := fun n => Some (Z.min U64_MAX (40 * Z.of_nat n));
  io_fault := fun _ => None;
  io_applied := fun _ => false;
  not_found := tt;
  stat_fault := fun _ => false;
  has_parent := true;
|}.

(** The same system, on which asking for the journal fails. *)
Definition blind_host : Host := {|
  IoError := unit;
  system_time := fun n => Some (Z.min U64_MAX (Z.of_nat n));
  io_fault := fun _ => None;
  io_applied := fun _ => false;
  not_found := tt;
  stat_fault := fun _ => true;
  has_parent := true;
|}.

Definition block_tuple (b : PersistedSignedBlock) := (pb_consensus_hash b, pb_chain_length b, pb_signature_hash b, pb_chunk b, pb_signed_at_unix b).
#[local] Instance block_eq_dec : EqDecision PersistedSignedBlock. Proof. solve_decision. Defined.
#[local] Instance block_countable : Countable PersistedSignedBlock.
Proof. refine (inj_countable' block_tuple (fun '(a, b, c, d, e) => mkPersistedBlock a b c d e) _). by intros []. Defined.

Definition state_tuple (s : PersistedSignerState) := (ps_version s, ps_writer_public_key_hash s, ps_writer_slot s, ps_next_slot_version s, ps_signed s).
#[local] Instance state_eq_dec : EqDecision PersistedSignerState. Proof. solve_decision. Defined.
#[local] Instance state_countable : Countable PersistedSignerState.
Proof. refine (inj_countable' state_tuple (fun '(a, b, c, d, e) => mkPersisted a b c d e) _). by intros []. Defined.

Fixpoint bits_of (p : positive) : list byte := match p with xH => [] | xO p => 0%u8 :: bits_of p | xI p => 1%u8 :: bits_of p end.
Fixpoint of_bits (l : list byte) : positive := match l with [] => xH | b :: l => if bool_decide (b = 0%u8) then xO (of_bits l) else xI (of_bits l) end.

Lemma of_bits_of p : of_bits (bits_of p) = p.
Proof. induction p as [p IH|p IH|]; cbn; [| |done]; by rewrite IH. Qed.

#[local] Instance demo_encodings : Encodings := {|
  JsonError := unit;
  hex_encode := fun b => b;
  hex_decode := Some;
  to_vec_pretty := fun s => Some (bits_of (encode s));
  from_slice := fun b => match decode (of_bits b) with Some s => Ok s | None => Err tt end;
|}.

#[local] Instance demo_encodings_ok : EncodingsOk.
Proof. split; [done|]. intros s bytes _ [= <-]. cbn. by rewrite of_bits_of, decode_encode. Qed.

(** A validator that accepts every proposal. *)
#[local] Instance accept_all : ProposalValidator unit := fun _ => mret tt.

(** ** Two blocks for one position *)

Definition rival_header : NakamotoBlockHeader :=
  mkHeader 1%u8 7 101 (replicate 20 1%u8) (replicate 32 2%u8) sample_root (replicate 32 4%u8) 5 (0%u8 :: 9%u8 :: replicate 63 0%u8) [] (BitVec.mk [1]%u8 1) [mkProblematic 3 1%u8].

Definition sample_proposal : BlockProposal := mkProposal sample_block 900 11 empty_data.
Definition rival_proposal : BlockProposal := mkProposal (mkBlock rival_header [own_transfer; sponsored_transfer]) 900 11 empty_data.

Definition demo_config : SignerConfig := mkConfig (5%u8 : @secp_sk demo_secp) 2 1 30.

Lemma demo_clock_ok : clock_ok.
Proof. split; intros n; unfold reading, is_u64, U64_MAX; cbn -[Z.mul]; unfold U64_MAX; lia. Qed.

Lemma demo_config_ok : config_ok demo_config.
Proof. split; split; discriminate. Qed.

Lemma sample_typed : proposal_typed sample_proposal.
Proof. split; [reflexivity|split; discriminate]. Qed.

Lemma rival_typed : proposal_typed rival_proposal.
Proof. split; [reflexivity|split; discriminate]. Qed.

(** Sign, restart, answer the rival after the timeout. *)
Definition demo_ops : list (Op (V := unit)) := [OpStart tt; OpSign sample_proposal; OpStop; OpStart tt; OpSignAfter sample_proposal 0; OpSign rival_proposal].

Lemma demo_ops_typed : Forall op_typed demo_ops.
Proof. repeat (apply Forall_cons_2; [first [exact I|apply sample_typed|apply rival_typed]|]). apply Forall_nil_2. Qed.

Lemma demo_run_length : length (run demo_config demo_ops fresh_machine).1 = 3%nat.
Proof. vm_compute. reflexivity. Qed.

Definition conflicting (l : list Event) : bool :=
  match l with [e; _; e'] => bool_decide (e'.1 = e.1) && negb (bool_decide (sb_signature_hash e'.2 = sb_signature_hash e.2)) | _ => false end.

Lemma demo_conflicting : conflicting (run demo_config demo_ops fresh_machine).1 = true.
Proof. vm_compute. reflexivity. Qed.

Lemma conflicting_inv l : conflicting l = true -> exists e e1 e', l = [e; e1; e'] /\ e'.1 = e.1 /\ sb_signature_hash e'.2 <> sb_signature_hash e.2.
Proof. destruct l as [|e [|e1 [|e' [|]]]]; try done. cbn. intros [H1 H2]%andb_prop. exists e, e1, e'. split; [done|]. split; [by apply bool_decide_eq_true in H1|]. intros H. rewrite bool_decide_true in H2 by done. done. Qed.

Lemma signer_never_equivocates_witness : exists e e', (run demo_config demo_ops fresh_machine).1 !! 0%nat = Some e /\ (run demo_config demo_ops fresh_machine).1 !! 2%nat = Some e' /\
  sb_signature_hash e'.2 <> sb_signature_hash e.2 /\ sb_signed_at_unix e.2 + 30 <= sb_signed_at_unix e'.2.
Proof.
  destruct (conflicting_inv _ demo_conflicting) as (e & e1 & e' & Hl & Hp & Hh). exists e, e'.
  pose proof (signer_never_equivocates demo_config demo_clock_ok demo_config_ok demo_ops (fun _ => eq_refl) demo_ops_typed 0 2 e e') as H. revert H. rewrite Hl. intros H.
  split; [reflexivity|]. split; [reflexivity|]. split; [exact Hh|]. exact (proj1 (H ltac:(lia) eq_refl eq_refl) Hp Hh).
Defined.

Lemma released_chunks_are_acceptances_witness : exists e, e ∈ (run demo_config demo_ops fresh_machine).1 /\ Chunk.verify (sb_chunk e.2) (writer_identity (5%u8 : @secp_sk demo_secp)) = Ok true.
Proof.
  destruct (conflicting_inv _ demo_conflicting) as (e & e1 & e' & Hl & _ & _). exists e. assert (Hin : e ∈ (run demo_config demo_ops fresh_machine).1) by (rewrite Hl; left).
  split; [exact Hin|]. exact (proj1 (released_chunks_are_acceptances demo_config demo_clock_ok demo_config_ok demo_ops e (fun _ => eq_refl) demo_ops_typed Hin)).
Defined.

Lemma journal_always_reopens_witness : exists r w, from_state_file demo_config tt (mc_world (run demo_config demo_ops fresh_machine).2) = Some (r, w) /\
  match r with Ok s => es_state s = true | Err e => exists io, e = StateIo io end.
Proof. exact (journal_always_reopens demo_config demo_clock_ok demo_config_ok demo_ops tt (fun _ => eq_refl) demo_ops_typed). Defined.

(** A signer that has just started. *)
Definition started : Host_signer (V := unit) := mkHosted (mkSigner (5%u8 : @secp_sk demo_secp) tt 2 1 30 ∅ true ∅) (mkWorld 0 0 None).

Lemma started_ok : signer_ok demo_config (.∈ []) started.
Proof.
  assert (Hc : forall L : Event -> Prop, (forall e, ~ L e) -> closed 30 L 1 (reading 0) ∅) by (intros L HL e [He|He]; [by destruct (HL e)|by rewrite lookup_empty in He]).
  split; try done; [refine (Hc (.∈ []) _); intros e; apply not_elem_of_nil|]. exists 1, ∅. split; [split; [split; discriminate|by split]|].
  refine (Hc _ _). intros e [He|He]; [by apply elem_of_nil in He|unfold in_map in He; cbn in He; by rewrite lookup_empty in He].
Qed.

Lemma sign_runs : match sign sample_proposal started with Some (Ok _, h') => es_next_slot_version (hs_signer h') =? 2 | _ => false end = true.
Proof. vm_compute. reflexivity. Qed.

Lemma sign_spec_witness : exists chunk h', sign sample_proposal started = Some (Ok chunk, h') /\ ck_slot_version chunk = 1.
Proof.
  destruct (signer_signature_hash (bl_header (bp_block sample_proposal))) as [hash|] eqn:Hh; [|exfalso; vm_compute in Hh; discriminate Hh].
  pose proof sign_runs as Hr. destruct (sign sample_proposal started) as [[[chunk|] h']|] eqn:Hs; try discriminate Hr. exists chunk, h'. split; [reflexivity|].
  pose proof (sign_spec demo_config demo_clock_ok demo_config_ok [] started sample_proposal hash (Ok chunk) h' started_ok Hh Hs) as H.
  change (es_signed (hs_signer started)) with (∅ : SignedBlocks) in H. rewrite lookup_empty in H. exact (proj1 (proj2 H)).
Defined.

(** A failing [exists] loses the journal: the signer starts as if it had signed
    nothing. *)
Lemma stat_fault_forgets : exists w s w', w_file w <> None /\ from_state_file (HT := blind_host) (EN := demo_encodings) demo_config tt w = Some (Ok s, w') /\ es_signed s = ∅ /\ es_next_slot_version s = 1.
Proof. exists (mkWorld 0 0 (Some [])). eexists _, _. split; [done|]. split; [vm_compute; reflexivity|]. by split. Qed.

(** And so it signs the rival of a block it signed a second ago. *)
Definition blind_run : list Event := (run (HT := blind_host) (EN := demo_encodings) demo_config [OpStart tt; OpSign sample_proposal; OpStop; OpStart tt; OpSign rival_proposal] fresh_machine).1.

Theorem stat_fault_equivocates : match blind_run with
  | [e; e'] => e'.1 = e.1 /\ sb_signature_hash e'.2 <> sb_signature_hash e.2 /\ sb_signed_at_unix e'.2 < sb_signed_at_unix e.2 + 30
  | _ => False
  end.
Proof. vm_compute. split; [reflexivity|]. split; [discriminate|reflexivity]. Qed.

(** ** Messages *)

Definition sample_response : SignerMessage.t := SignerMessage.Response (Accepted (with_extend_timestamp (replicate 32 7%u8) (replicate 65 1%u8) 1000)).

Lemma sample_response_ok : message_ok sample_response.
Proof. repeat split; vm_compute; (reflexivity || discriminate). Qed.

Lemma signer_message_roundtrip_witness : exists bytes, SignerMessage.encode sample_response = Some (Ok bytes) /\ SignerMessage.decode bytes = Some (Ok sample_response).
Proof.
  destruct (SignerMessage.encode sample_response) as [[bytes|]|] eqn:He; [|exfalso; vm_compute in He; discriminate He..]. exists bytes. split; [reflexivity|].
  exact (signer_message_roundtrip sample_response bytes sample_response_ok He).
Defined.

Lemma chunk_codec_witness : exists bytes, Chunk.encode (Chunk.new 3 4 [1; 2; 3]%u8) = Ok bytes /\ Chunk.decode bytes = Ok (Chunk.new 3 4 [1; 2; 3]%u8).
Proof.
  destruct (Chunk.encode (Chunk.new 3 4 [1; 2; 3]%u8)) as [bytes|] eqn:He; [|discriminate He]. exists bytes. split; [reflexivity|]. apply chunk_codec; [|split; [|exact He]].
  - vm_compute in He. injection He as <-. vm_compute. discriminate.
  - repeat split; vm_compute; (reflexivity || discriminate).
Defined.

(** ** The service *)

Definition pending_of (hash : byte) (p : BlockProposal) : PendingProposal := mkPending (replicate 32 hash) p.

Lemma answered_never_again_witness : exists p, newest_proposal_for_cycle [pending_of 1 sample_proposal; pending_of 2 rival_proposal] 11 (foldl (fun cursor pending => record_answered pending cursor) None [pending_of 2 rival_proposal]) = Some p /\
  pp_hash p <> replicate 32 2%u8.
Proof.
  exists (pending_of 1 sample_proposal). assert (Hn : newest_proposal_for_cycle [pending_of 1 sample_proposal; pending_of 2 rival_proposal] 11 (foldl (fun cursor pending => record_answered pending cursor) None [pending_of 2 rival_proposal]) = Some (pending_of 1 sample_proposal)) by (vm_compute; reflexivity).
  split; [exact Hn|]. destruct (answered_never_again _ _ _ _ (pending_of 2 rival_proposal) Hn) as [_ H]; [left|]. intros He. exact (H eq_refl (eq_sym He)).
Defined.

Definition promise_bytes : list byte := 7%u8 :: replicate 32 9%u8.

Lemma sample_signers_weights : weights_ok sample_signers.
Proof. repeat (apply Forall_cons_2; [discriminate|]). apply Forall_nil_2. Qed.

Lemma promised_weight_spec_witness : promised_weight (replicate 32 9%u8) sample_signers [(0, promise_bytes); (1, []); (2, promise_bytes)] = 6.
Proof.
  rewrite (promised_weight_spec (replicate 32 9%u8) sample_signers [(0, promise_bytes); (1, []); (2, promise_bytes)] sample_signers_weights); [vm_compute; reflexivity| |].
  - apply (bool_decide_unpack _). vm_compute. exact I.
  - repeat (apply Forall_cons_2; [discriminate|]). apply Forall_nil_2.
Defined.

(** A replica that lists slot 1 twice carries this set past seven tenths of its
    weight on the promise of four tenths. *)
Theorem listed_twice_reaches_threshold :
  set_approval_threshold sample_signers = Ok 7 /\ promised_weight (replicate 32 9%u8) sample_signers [(1, promise_bytes)] = 4 /\
  promised_weight (replicate 32 9%u8) sample_signers [(1, promise_bytes); (1, promise_bytes)] = 8.
Proof. vm_compute. split; [reflexivity|]. split; reflexivity. Qed.

Definition announced_view : StateMachineUpdate := mkUpdate 2 2 (replicate 20 3%u8) 900 NoMiner [].

Lemma chosen_view_spec_witness : choose_view 3 7 (foldl (fun w v => add_weight v.1 v.2 w) [] [(announced_view, 4)]) = Some announced_view /\ 7 - 3 <= weight_behind announced_view [(announced_view, 4)].
Proof.
  assert (HF : Forall (fun v : StateMachineUpdate * Z => 0 <= v.2 <= U32_MAX) [(announced_view, 4)]) by (apply Forall_singleton; split; discriminate).
  pose proof (chosen_view_spec 3 7 [(announced_view, 4)] HF) as H. destruct (choose_view 3 7 _) as [u|] eqn:Hc; [|exfalso; vm_compute in Hc; discriminate Hc].
  assert (u = announced_view) as -> by (vm_compute in Hc; injection Hc as <-; reflexivity). split; [reflexivity|]. exact (proj1 (proj2 H)).
Defined.

(** A network on which slots 0 and 1 promise every block asked about. *)
#[local] Instance demo_clients : StackerDbClients := {|
  Network := list byte;
  DbClient := unit;
  DbClientError := unit;
  slot_versions := fun _ _ n => (Ok [mkSlotVersion 0 1; mkSlotVersion 1 1], n);
  latest_chunk := fun _ _ _ n => (Ok (Some n), n);
  put_chunk := fun _ _ _ n => (Ok (mkAck true None None None), n);
|}.

Definition demo_contract : StackerDbContract := mkContract (Address.StacksAddress.mk 26 (replicate 20 0%u8)) [].
Definition deployed (promised : list byte) : Deployed (V := unit) := mkDeployed (service_new (tt : @DbClient demo_clients) demo_contract demo_contract demo_contract (hs_signer started)) (mkWorld 0 0 None) (promised : @Network demo_clients).

Definition sample_promise : list byte := default [] (h ← signer_signature_hash (sample_header []); Some (7%u8 :: h)).

Lemma answer_runs : match answer (pending_of 1 sample_proposal) sample_signers (deployed sample_promise) with Some (Ok (Some _), d) => Nat.eqb (size (signed_of d)) 1 | _ => false end = true.
Proof. vm_compute. reflexivity. Qed.

Lemma answer_signs_after_promises_witness : exists ack d', answer (pending_of 1 sample_proposal) sample_signers (deployed sample_promise) = Some (Ok (Some ack), d') /\
  exists hash threshold slots chunks, set_approval_threshold sample_signers = Ok threshold /\ threshold <= zsum (omap (slot_weight sample_signers) (promised_slots hash slots chunks)).
Proof.
  pose proof answer_runs as Hr. destruct (answer (pending_of 1 sample_proposal) sample_signers (deployed sample_promise)) as [[[[ack|]|] d']|] eqn:Ha; try discriminate Hr. exists ack, d'. split; [reflexivity|].
  destruct (answer_signs_after_promises _ _ _ _ _ sample_signers_weights Ha) as [Hs|(hash & t & d1 & slots & chunks & n & n1 & n2 & _ & _ & Ht & _ & _ & Hle & _)];
    [exfalso|exact (ex_intro _ hash (ex_intro _ t (ex_intro _ slots (ex_intro _ chunks (conj Ht Hle)))))].
  rewrite Hs in Hr. vm_compute in Hr. discriminate Hr.
Defined.

(** ** Execution *)

#[local] Instance demo_chain : ChainStates := {|
  ChainState := unit;
  ChainStateError := unit;
  Operations := unit;
  BtcSource := unit;
  BtcError := unit;
  has_block_state := fun _ _ => Ok false;
  has_schedule := fun _ => true;
  recorded_signer_set := fun _ s => (Err tt, s);
  append_nakamoto_block := fun _ _ _ _ _ s => (Ok (mkApplied None None), s);
  validate_nakamoto_proposal := fun _ _ _ _ _ s => (Ok (mkApplied None None), s);
  block_at := fun _ b => (Ok tt, b);
|}.

Definition sample_id : list byte := Eval vm_compute in default [] (block_id sample_block).
Definition child_header : NakamotoBlockHeader :=
  mkHeader 1%u8 8 100 (replicate 20 1%u8) sample_id sample_root (replicate 32 4%u8) 6 (0%u8 :: 9%u8 :: replicate 63 0%u8) [] (BitVec.mk [1]%u8 1) [].
Definition child_block : NakamotoBlock := mkBlock child_header [own_transfer].
Definition chain_validator : ChainstateProposalValidator := mkChainValidator tt (BitcoinBlockContext.at_height 900) tt {[sample_id := sample_header []]} ∅ ∅ None.

Definition child_id : list byte := Eval vm_compute in default [] (block_id child_block).

Lemma child_id_eq : block_id child_block = Some child_id.
Proof. vm_compute. reflexivity. Qed.

Lemma child_untrusted : bool_decide (cv_trusted chain_validator !! child_id = None) = true.
Proof. vm_compute. reflexivity. Qed.

Lemma child_validates : match validate_executed (mkProposal child_block 901 11 empty_data) chain_validator with Some (Ok _, _) => true | _ => false end = true.
Proof. vm_compute. reflexivity. Qed.

Lemma child_observed : match trust_step (TObserve child_block 901) chain_validator with Some v => bool_decide (cv_trusted v !! child_id = Some child_header) | None => false end = true.
Proof. vm_compute. reflexivity. Qed.

Lemma proposal_execution_spec_witness : exists v', validate_executed (mkProposal child_block 901 11 empty_data) chain_validator = Some (Ok tt, v') /\ cv_trusted v' = {[sample_id := sample_header []]} /\
  executes chain_validator ProposalTarget (context_at 901 chain_validator) child_block.
Proof.
  pose proof child_validates as Hr. destruct (validate_executed (mkProposal child_block 901 11 empty_data) chain_validator) as [[[[]|] v']|] eqn:Hv; try discriminate Hr.
  destruct (proposal_execution_spec _ _ _ _ Hv) as (Ht & id & Hid & H). exists v'. split; [reflexivity|]. split; [exact Ht|].
  change (block_id child_block = Some id) in Hid. rewrite child_id_eq in Hid. injection Hid as <-. pose proof child_untrusted as Hu. apply bool_decide_eq_true in Hu.
  destruct H as [Hs|[_ [Hs|[Hs|H]]]]; [exfalso..|exact H]; [rewrite Hu in Hs; destruct Hs as [h Hs]; discriminate Hs|change (cv_candidates chain_validator) with (∅ : gmap (list byte) NakamotoBlockHeader) in Hs; rewrite lookup_empty in Hs; discriminate Hs|discriminate Hs].
Defined.

Lemma trusted_view_extends_witness : exists v', trust_step (TObserve child_block 901) chain_validator = Some v' /\ cv_trusted v' !! child_id = Some child_header /\ may_trust chain_validator child_id child_header.
Proof.
  pose proof child_observed as Hr. destruct (trust_step (TObserve child_block 901) chain_validator) as [v'|] eqn:Ht; [|discriminate Hr]. apply bool_decide_eq_true in Hr. exists v'. split; [reflexivity|]. split; [exact Hr|].
  pose proof child_untrusted as Hu. apply bool_decide_eq_true in Hu. destruct (trusted_view_extends _ _ _ Ht child_id child_header Hr) as [Hs|H]; [exfalso; rewrite Hu in Hs; discriminate Hs|exact H].
Defined.

(** * The miner on concrete inputs

    A network that answers each slot with what it holds, a Bitcoin source with one
    block of competing commitments, and runs of the miner on them. *)

(** ** A tenure start *)

Definition demo_key : @secp_sk demo_secp := 9%u8.
Definition parent_id : list byte := Eval vm_compute in default [] (header_block_id (sample_header [])).
Definition sample_tip : TenureTip := mkTenureTip (replicate 20 1%u8) parent_id 7 100 5.
Definition sample_parent_tenure : ParentTenure := mkParentTenure sample_tip parent_id 3 11.
Definition won_sortition : SortitionInfo :=
  mkSortitionInfo (replicate 32 8%u8) 900 0 (replicate 32 8%u8) (replicate 32 7%u8) (replicate 20 9%u8) true (Some (miner_key_hash demo_key)) None None
    (Some (replicate 32 3%u8)) (Some (replicate 32 4%u8)).
Definition sample_view : BitcoinTenureView := mkTenureView 500 vrf_message.

Lemma tip_is_sample : is_header_of sample_tip (sample_header []).
Proof. split; [vm_compute; reflexivity|]. split; [reflexivity|]. split; reflexivity. Qed.

Lemma tenure_start_extends_parent_witness : exists block change coinbase,
  build_tenure_start_block (E := unit) 256 won_sortition sample_parent_tenure sample_view Network.TESTNET demo_key vrf_key 4 = Some (Ok block) /\
  bl_transactions block = [change; coinbase] /\ validate_successor block (sample_header []) = Some (Ok tt) /\ starts_new_tenure block = true /\
  verify_authorization change = Some (Ok tt) /\ verify_authorization coinbase = Some (Ok tt).
Proof.
  destruct (tenure_start_extends_parent (E := unit) 256 won_sortition sample_parent_tenure sample_view Network.TESTNET demo_key vrf_key 4 vrf_proof (sample_header []))
    as (block & change & coinbase & H1 & H2 & H3 & H4 & _ & _ & H5 & H6 & _).
  - split; discriminate.
  - split; [discriminate|reflexivity].
  - split; discriminate.
  - split; [reflexivity|]. split; reflexivity.
  - vm_compute. reflexivity.
  - reflexivity.
  - exact tip_is_sample.
  - reflexivity.
  - exact (ex_intro _ block (ex_intro _ change (ex_intro _ coinbase (conj H1 (conj H2 (conj H3 (conj H4 (conj H5 H6)))))))).
Defined.

(** ** Signatures gathered from slots *)

#[local] Instance miner_clients : StackerDbClients := {|
  SignerService.Network := list (list byte);
  DbClient := unit;
  DbClientError := unit;
  slot_versions := fun _ _ n => (Ok (map (fun i => mkSlotVersion (Z.of_nat i) 1) (seq 0 (length n))), n);
  latest_chunk := fun _ _ i n => (Ok (n !! Z.to_nat i), n);
  put_chunk := fun _ _ _ n => (Ok (mkAck true None None None), n);
|}.

#[local] Instance miner_upload : BlockUpload := {|
  UploadClient := unit;
  UploadError := unit;
  upload_block := fun _ _ n => (Ok tt, n);
|}.

Definition demo_coordinator : ProposalCoordinator := mkCoordinator (tt : @DbClient miner_clients) demo_contract demo_contract demo_contract demo_key.

Definition response_by (k : byte) : list byte :=
  match hash ← signer_signature_hash (sample_header []); SignerMessage.encode (SignerMessage.Response (Accepted (mkAcceptance hash (signature_by k) [] 0 0))) with
  | Some (Ok bytes) => bytes
  | _ => []
  end.

Definition response_slots : list (list byte) := Eval vm_compute in [response_by 2; response_by 1].

Lemma submission_runs :
  match finalize_and_submit (UP := miner_upload) demo_coordinator sample_proposal (recorded sample_signers) (tt : @UploadClient _ miner_upload) (response_slots : @SignerService.Network miner_clients) with
  | Some (Ok block, _) => bool_decide (hd_signer_signatures (bl_header block) = [signature_by 1; signature_by 2])
  | _ => false
  end = true.
Proof. vm_compute. reflexivity. Qed.

Lemma submitted_block_approved_witness : exists block n',
  finalize_and_submit (UP := miner_upload) demo_coordinator sample_proposal (recorded sample_signers) (tt : @UploadClient _ miner_upload) (response_slots : @SignerService.Network miner_clients) = Some (Ok block, n') /\
  hd_signer_signatures (bl_header block) = [signature_by 1; signature_by 2] /\
  exists weight, SignerWeights.verify (recorded sample_signers) (bl_header block) = Some (Ok weight).
Proof.
  pose proof submission_runs as Hr. destruct (finalize_and_submit _ _ _ _ _) as [[[block|] n']|] eqn:Hf; try discriminate Hr. apply bool_decide_eq_true in Hr.
  exists block, n'. split; [reflexivity|]. split; [exact Hr|].
  refine (proj1 (proj2 (proj2 (submitted_block_approved (recorded sample_signers) _ sample_weights_u32 _ _ _ _ _ _ Hf)))).
  apply (bool_decide_unpack _). vm_compute. exact I.
Defined.

(** ** A winner that committed twice *)

Definition commitment_of (index : Z) (hash : byte) (key_index : Z) : BitcoinOperation :=
  mkOperation [] index [] [] (LeaderBlockCommit (replicate 32 hash) (replicate 32 4%u8) 899 1 800 key_index 0x11%u8 4%u8).
Definition registration_of (index : Z) (key_hash : list byte) : BitcoinOperation :=
  mkOperation [] index [] [] (LeaderKeyRegistrationOp [] [] (Some key_hash) []).

(** The winner's commitment to the parent at 2, a rival's to the same parent at 3, and
    the winner's commitment to another block at 4. *)
Definition rival_block : BitcoinBlock := mkBitcoinBlock 900 (replicate 32 8%u8) 0 [commitment_of 2 3 1; commitment_of 3 3 2; commitment_of 4 6 1].
Definition lone_block : BitcoinBlock := mkBitcoinBlock 900 (replicate 32 8%u8) 0 [commitment_of 2 3 1; commitment_of 4 6 1].
Definition key_block : BitcoinBlock := mkBitcoinBlock 800 (replicate 32 8%u8) 0 [registration_of 1 (miner_key_hash demo_key); registration_of 2 (replicate 20 0%u8)].

#[local] Instance demo_bitcoin : BitcoinSources BitcoinBlock unit := fun height block => (if height =? 900 then Ok block else Ok key_block, block).

(** A rival's commitment and the winner's own commitment to another block make the
    winner's commitment to the parent ambiguous, though of the two that commit to
    the parent only one is the winner's. *)
Theorem rival_makes_parent_ambiguous :
  List.filter (commits_to (replicate 32 3%u8) (replicate 32 4%u8)) (bb_operations rival_block) = [commitment_of 2 3 1; commitment_of 3 3 2] /\
  (forall op, In op [commitment_of 2 3 1; commitment_of 3 3 2] -> fst <$> signing_key_hash (E := unit) op rival_block = Some (Ok (Some (miner_key_hash demo_key))) -> op = commitment_of 2 3 1) /\
  parent_transaction_index (E := unit) won_sortition rival_block = Some (Err AmbiguousParentCommitment, rival_block).
Proof.
  split; [vm_compute; reflexivity|]. split; [|vm_compute; reflexivity]. intros op [<-|[<-|[]]] H; [reflexivity|]. vm_compute in H. discriminate H.
Qed.

Definition sample_commitment_parent : CommitmentParent := mkCommitmentParent 901 (replicate 32 5%u8) won_sortition (replicate 80 6%u8) (PoxAddress.Standard (StacksAddress.mk 26 (replicate 20 0%u8)) None) 11.

Lemma plan_runs : match plan_local_commitment (E := unit) (mkRegisteredKey 800 1) sample_commitment_parent lone_block with Some (Ok plan, _) => cp_target_bitcoin_height plan =? 902 | _ => false end = true.
Proof. vm_compute. reflexivity. Qed.

Lemma local_plan_spec_witness : exists plan s', plan_local_commitment (E := unit) (mkRegisteredKey 800 1) sample_commitment_parent lone_block = Some (Ok plan, s') /\
  u8 (lc_parent_modulus (cp_commitment plan)) = 1.
Proof.
  pose proof plan_runs as Hr. destruct (plan_local_commitment _ _ _) as [[[plan|] s']|] eqn:Hp; try discriminate Hr. exists plan, s'. split; [reflexivity|].
  destruct (local_plan_spec _ _ _ _ _ Hp) as (Ht & _ & _ & _ & _ & _ & _ & Hm & _). rewrite Hm, Ht. reflexivity.
Defined.
