(* ===== verification/ChainWitnesses.v ===== *)
(** * The chain state on concrete blocks

    A virtual machine whose state is the rows of sealed ledgers, small instances of the
    [clarity] crate and of the encodings, and a chain of two blocks on them. *)

From stdpp Require Import gmap countable.
From Stdlib Require Import Strings.String.
From S2P Require Import Prelude Primitives Address CodecIO Crypto TxData TxCodec TxTheorems TxAuth Nakamoto NakamotoTheorems Signers SignerTheorems SortitionRules SnapshotChain Sbtc Effects ProposalExecution.
From S2P Require Import Clarity BlockRules BlockRulesTheorems TenureRewards RewardsTheorems PostConditions ChainLedger ChainState SignerElection TransactionExecution BlockExecution.
From S2P Require Import ChainSteps ChainStateTheorems CheckpointHistory Miner Instances Witnesses BitcoinWitnesses SignerWitnesses.
Local Open Scope string_scope.
Local Open Scope list_scope.
Local Open Scope Z_scope.

(** ** Instances *)

(** A value; a set of signers holds its entries. *)
Inductive DemoValue : Type :=
| VNothing
| VUInt (n : Z)
| VPrincipal (p : Z * list byte)
| VSigner (p : Z * list byte) (weight : Z)
| VSigners (entries : list (list byte * Z)).

#[local] Instance DemoValue_eq_dec : EqDecision DemoValue. Proof. solve_decision. Defined.

#[local] Instance demo_clarity : Clarity := {|
  PrincipalData := Z * list byte;
  principal_parse := fun b => decode (of_bits b);
  principal_display := fun p => bits_of (encode p);
  QualifiedContractIdentifier := list byte;
  contract_parse := Some;
  parse_address := fun a => Some (u8 (StacksAddress.version a), StacksAddress.hash160 a);
  parse_contract := fun _ name => Some name;
  contract_principal := fun c => (0, c);
  standard_principal := Some;
  clarity_name := Some;
  Value := DemoValue;
  deserialize_read := fun b => Some (VNothing, []);
|}.

#[local] Instance demo_clarity_ok : ClarityOk.
Proof. split. intros p. cbn. by rewrite of_bits_of, decode_encode. Qed.

#[local] Instance demo_values : ClarityValues := {|
  UInt := VUInt;
  PrincipalValue := VPrincipal;
  okay_true := VNothing;
  err_none := VNothing;
  value_none := VNothing;
  value_some := Some;
  buff_from := fun _ => Some VNothing;
  buff_from_byte := fun _ => VNothing;
  tuple_from_data := fun _ => Some VNothing;
  cons_list_unsanitized := fun _ => Some VNothing;
  serialize_to_vec := fun _ => Some [];
  committed_response := fun _ => None;
  expect_u128 := fun v => match v with VUInt n => Some n | _ => None end;
  expect_principal := fun v => match v with VPrincipal p => Some p | _ => None end;
  expect_optional := fun v => Some (Some v);
  expect_list := fun v => match v with VSigners l => Some (map (fun e => VSigner (26, e.1) e.2) l) | _ => None end;
  expect_buff := fun _ _ => None;
  expect_tuple := fun v => match v with VSigner p w => Some [("signer", VPrincipal p); ("weight", VUInt w)] | _ => None end;
  contract_issuer := fun _ => (26, []);
  contract_name_bytes := fun c => c;
  boot_code_id := fun name _ => list_byte_of_string name;
  standard_of := fun p => p;
|}.

#[local] Instance demo_assets : AssetMaps := {|
  AssetMap := unit;
  get_stx := fun _ _ => None;
  get_stx_burned := fun _ _ => None;
  get_fungible_tokens := fun _ _ _ => None;
  get_nonfungible_tokens := fun _ _ _ => None;
  get_stacking := fun _ _ => None;
  did_pox_action := fun _ _ => false;
  get_all_stacking := fun _ => [];
  get_all_pox_actions := fun _ => [];
  to_table := fun _ => [];
|}.

(** The rows of sealed ledgers are all the machine keeps; the tip is named under no identifier. *)
Definition demo_rows : Type := LedgerTable.

#[local] Instance demo_types : VmTypes := {|
  Vm := demo_rows;
  MarfStoreError := unit;
  VmExecutionError := unit;
  ClarityEvalError := unit;
  StacksTransactionEvent := unit;
  stx_mint_event := fun _ _ => tt;
  no_assets := tt : @AssetMap demo_clarity demo_assets;
  CostTracker := unit;
  free_tracker := tt;
  cost_add := fun a _ => (true, a);
  cost_sub := fun a _ => (true, a);
  cost_exceeds := fun _ _ => false;
  analysis_failure := fun _ => true;
  call_analysis_failure := fun _ => false;
|}.

Definition works {E A} (x : A) : @VmOp demo_clarity demo_assets demo_types E A := fun rows => (Ok x, rows).
Definition moved : @TransactionResult demo_clarity demo_assets demo_types := mkResult None cost_zero (tt : @AssetMap demo_clarity demo_assets) [].

#[local] Instance demo_vm : Vms := {|
  vm_network := Network.TESTNET;
  vm_tip := fun rows => Ok (snd <$> rows !! []);
  set_checkpoint_height := fun _ _ => works tt;
  begin_block_execution := fun _ _ _ => works tt;
  abort_block := works tt;
  begin_transaction := works tt;
  commit_transaction := works tt;
  rollback_transaction := works tt;
  pending_state_root := fun _ => Ok (replicate 32 4%u8);
  commit_block := fun id commit rows =>
    let written := write_ledger id (bc_ledger commit) rows in
    if bool_decide (snd <$> written !! id = Some (bc_ledger commit)) then (Ok (replicate 32 4%u8), written) else (Err tt, rows);
  chain_ledger := fun rows => rows;
  stand_on_tenure_starts := fun _ rows => rows;
  recorded_header := fun _ _ => None;
  record_block_header := fun _ _ => works tt;
  setup_block_metadata := fun _ => works tt;
  tenure_height := works 5;
  set_tenure_height := fun _ => works tt;
  process_scheduled_unlocks := works (0, []);
  increment_liquid_stx_supply := fun _ => works tt;
  account_nonce := fun _ => works 0;
  set_account_nonce := fun _ _ => works tt;
  debit_fee := fun _ _ => works tt;
  touch_stx_balance := fun _ => works tt;
  credit_stx := fun _ _ => works tt;
  transaction_cost_tracker_with_total := fun _ => works tt;
  transfer_stx := fun _ _ _ _ _ => works moved;
  deploy_contract_outcome := fun _ _ _ _ => works (DeploymentSuccess moved);
  execute_contract_call_outcome := fun _ _ _ _ _ _ => works (CallSuccess moved);
  call_contract_values := fun _ _ _ _ => works (VSigners (recorded sample_signers) : @Value demo_clarity);
|}.

#[local] Instance demo_vm_laws : VmLaws.
Proof.
  split; try done.
  - intros b c vm. cbn. case_bool_decide; [by right|by left].
  - intros b c vm root vm'. cbn. case_bool_decide as Hw; [|done]. by intros [= _ <-].
  - intros b c vm root vm'. cbn. case_bool_decide; [|done]. by intros [= <- _].
Qed.

#[local] Instance demo_json : RecordJson := {|
  Json := unit;
  serialize_to_hex := fun _ => Some [];
  event_json := fun _ _ _ _ => Some tt;
  json_string := fun _ _ => Some [];
  json_member := fun _ _ => [];
  json_to_vec := fun _ => Some [];
  decision_to_vec := fun _ => Some [];
  COMPILER_IDENTITY := [];
  profile_fingerprint := [];
  parse_stacks_address := fun _ => None;
|}.

#[local] Instance demo_xonly : Sbtc.XOnly := {|
  Sbtc.xonly_key := unit;
  Sbtc.xonly_from_slice := fun _ => None;
  Sbtc.xonly_serialize := fun _ => [];
  Sbtc.tweak_ok := fun _ => false;
  Sbtc.xonly_add_tweak := fun _ _ => None;
|}.

(** Rows are the encodings of records as numbers, bit by bit. *)
Definition entry_tuple (e : CheckpointEntry) := (ce_coinbase_height e, ce_credits e, ce_liquid_supply_increase e).
Definition tenure_tuple (e : CheckpointTenure) := (ct_coinbase_height e, ct_recipient e, ct_coinbase e, ct_fees e).
Definition schedule_tuple (s : CoinbaseSchedule) := (cs_mainnet s, cs_first_bitcoin_height s, cs_initial_mining_bonus s).
Definition executed_tuple (e : ExecutedBlockRecord) := (er_block_id e, er_consensus_hash e, er_tenure_height e).

#[local] Instance entry_eq : EqDecision CheckpointEntry. Proof. solve_decision. Defined.
#[local] Instance tenure_eq : EqDecision CheckpointTenure. Proof. solve_decision. Defined.
#[local] Instance executed_eq : EqDecision ExecutedBlockRecord. Proof. solve_decision. Defined.
#[local] Instance entry_countable : Countable CheckpointEntry. Proof. refine (inj_countable' entry_tuple (fun '(a, b, c) => mkEntry a b c) _). by intros []. Defined.
#[local] Instance tenure_countable : Countable CheckpointTenure. Proof. refine (inj_countable' tenure_tuple (fun '(a, b, c, d) => mkCheckpointTenure a b c d) _). by intros []. Defined.
#[local] Instance schedule_countable : Countable CoinbaseSchedule. Proof. refine (inj_countable' schedule_tuple (fun '(a, b, c) => mkSchedule a b c) _). by intros []. Defined.
#[local] Instance executed_countable : Countable ExecutedBlockRecord. Proof. refine (inj_countable' executed_tuple (fun '(a, b, c) => mkExecutedRecord a b c) _). by intros []. Defined.

Definition record_tuple (r : ChainLedgerRecord) :=
  (tc_matured_effects (lr_accounting r), tc_tenures (lr_accounting r), tc_coinbase_schedule (lr_accounting r), tc_started (lr_accounting r),
   (lr_tenure_start_heights r, lr_tenure_start_blocks r, lr_executed r, lr_parent_tenure_proof r)).

#[local] Instance checkpoint_eq : EqDecision TenureAccountingCheckpoint. Proof. solve_decision. Defined.
#[local] Instance record_eq : EqDecision ChainLedgerRecord. Proof. solve_decision. Defined.
#[local] Instance record_countable : Countable ChainLedgerRecord.
Proof. refine (inj_countable' record_tuple (fun '(a, b, c, d, (e, f, g, h)) => mkLedgerRecord (mkAccountingCheckpoint a b c d) e f g h) _). by intros [[] ? ? ? ?]. Defined.

#[local] Instance demo_codec : LedgerCodec := {|
  to_hex := fun b => b;
  of_hex := Some;
  ledger_to_vec := fun r => Some (bits_of (encode r));
  ledger_from_slice := fun b => decode (of_bits b);
|}.

#[local] Instance demo_codec_ok : LedgerCodecOk.
Proof. split; [done|by eexists|]. intros r bytes [= <-]. cbn. by rewrite of_bits_of, decode_encode. Qed.

(** ** Two blocks *)

(** Height 28 is in cycle 1, past its prepare phase. *)
Definition demo_context : BitcoinBlockContext :=
  mkContext 28 28 0 5 15 0 0 0 0 0 0 (replicate 32 8%u8) 900 (replicate 32 7%u8) 10 5 (replicate 32 6%u8) (Some (replicate 32 5%u8)) (Some (hash160 (pk_serialize (9%u8 : @secp_pk demo_secp)))).

Definition chain_header (chain_length : Z) (parent : list byte) : NakamotoBlockHeader :=
  mkHeader 1%u8 chain_length 100 (replicate 20 1%u8) parent sample_root (replicate 32 4%u8) 5 (0%u8 :: 9%u8 :: replicate 63 0%u8) [signature_by 1; signature_by 2] (BitVec.mk [1]%u8 1) [].
Definition first_block : NakamotoBlock := mkBlock (chain_header 7 (replicate 32 2%u8)) [own_transfer].
Definition first_id : list byte := Eval vm_compute in default [] (block_id first_block).
Definition second_block : NakamotoBlock := mkBlock (chain_header 8 first_id) [own_transfer].
Definition second_id : list byte := Eval vm_compute in default [] (block_id second_block).

Definition demo_state : ChainState := mkChainState (∅ : demo_rows) ledger_default.

Abbreviation append_first := (append_nakamoto_block 8 8 demo_context [] None first_block None demo_state).
Definition first_state : ChainState := default demo_state (snd <$> append_first).

Definition second_execution : BlockExecution := mkExecution demo_context None [] (Some first_id) Trust no_effects [] UnauthenticatedFixture Seal.
Abbreviation run_second := (execute_nakamoto_block 8 8 second_block second_execution first_state).
Definition second_state : ChainState := default demo_state (snd <$> run_second).

Lemma ledger_default_ok : ledger_ok (ledger_default : @ChainLedger demo_clarity).
Proof. split; [vm_compute; discriminate|]. split; [apply Forall_nil_2|]. split; [|discriminate]. apply map_Forall_empty. Qed.

Lemma own_transfer_typed : tx_typed own_transfer.
Proof. intros payload recipient proof H. vm_compute in H. discriminate H. Qed.

Lemma chain_blocks_typed chain_length parent : block_typed (mkBlock (chain_header chain_length parent) [own_transfer]).
Proof. split; [reflexivity|]. apply Forall_singleton, own_transfer_typed. Qed.

Lemma first_runs : match append_first with Some (Ok _, _) => true | _ => false end = true.
Proof. vm_compute. reflexivity. Qed.
Lemma second_runs : match run_second with Some (Ok (b, _), _) => bool_decide (block_id b = Some second_id) | _ => false end = true.
Proof. vm_compute. reflexivity. Qed.

Lemma first_state_runs : exists applied, append_first = Some (Ok applied, first_state).
Proof. unfold first_state. pose proof first_runs as H. destruct append_first as [[[applied|] s]|]; try discriminate H. by exists applied. Qed.
Lemma second_state_runs : exists b applied, run_second = Some (Ok (b, applied), second_state).
Proof. unfold second_state. pose proof second_runs as H. destruct run_second as [[[[b applied]|] s]|]; try discriminate H. by exists b, applied. Qed.

Lemma execution_atomic_witness : exists b, sealed b second_state /\ cs_ledger second_state <> cs_ledger first_state.
Proof.
  destruct second_state_runs as (b & applied & H). exists b. split; [exact (execution_atomic 8 8 second_block second_execution first_state _ second_state H)|].
  intros Heq. apply (f_equal (fun l => length (cl_executed l))) in Heq. vm_compute in Heq. discriminate Heq.
Defined.

Lemma appended_block_rules_witness : sealed first_block first_state /\ exists applied, append_first = Some (Ok applied, first_state) /\ ap_state_root applied = replicate 32 4%u8.
Proof.
  destruct first_state_runs as (applied & H). destruct (appended_block_rules 8 8 demo_context [] None first_block None demo_state applied first_state (chain_blocks_typed _ _) H) as (_ & _ & _ & _ & _ & Hroot & _ & Hs).
  exact (conj Hs (ex_intro _ applied (conj H Hroot))).
Defined.

Lemma first_ledger_ok : ledger_ok (cs_ledger first_state).
Proof.
  split; [vm_compute; discriminate|]. split; [|split].
  - assert (cl_executed (cs_ledger first_state) = [mkExecuted first_id (replicate 20 1%u8) 5]) as -> by (vm_compute; reflexivity). apply Forall_singleton. split; reflexivity.
  - assert (cl_tenure_start_blocks (cs_ledger first_state) = ∅) as -> by (vm_compute; reflexivity). apply map_Forall_empty.
  - intros proof H. vm_compute in H. discriminate H.
Qed.

Lemma ledger_roundtrip_witness : exists bytes, ledger_encode (cs_ledger first_state) = Some bytes /\ ledger_decode bytes = Some (cs_ledger first_state).
Proof. exact (ledger_roundtrip (cs_ledger first_state) first_ledger_ok). Defined.

Lemma second_is_later : later 8 8 {[second_id]} first_state second_state.
Proof.
  destruct second_state_runs as (b & applied & H).
  refine (later_block 8 8 {[second_id]} first_state first_state second_block second_execution _ second_state (later_here _ _ _ _) (chain_blocks_typed _ _) (conj eq_refl eq_refl) _ H).
  intros id Hid. apply elem_of_singleton. assert (block_id second_block = Some second_id) as Hs by (vm_compute; reflexivity). congruence.
Qed.

Lemma retraction_restores_witness : (retract_to first_id second_state).1 = mkRetraction (Some first_id) [second_id] /\ cs_ledger (retract_to first_id second_state).2 = cs_ledger first_state.
Proof.
  destruct first_state_runs as (applied & H).
  destruct (retraction_restores 8 8 first_block demo_context [] None None demo_state applied first_state first_id ledger_default_ok (chain_blocks_typed _ _) H eq_refl) as (age & _ & Hnew & Hr).
  rewrite (Hnew eq_refl) in Hr.
  destruct (proj1 (Hr {[second_id]} second_state 0%nat second_is_later ltac:(intros Hin%elem_of_singleton; vm_compute in Hin; discriminate Hin) ltac:(rewrite size_singleton; vm_compute; reflexivity)
    ltac:(vm_compute; reflexivity) ltac:(vm_compute; discriminate)) ltac:(vm_compute; reflexivity)) as [H1 H2].
  split; [|exact H2]. etransitivity; [exact H1|]. vm_compute. reflexivity.
Defined.

(** ** The window of ledgers *)

(** Block 0 and then [n] others, each written once; or one other, [n] times. *)
Definition row_name (n : Z) : list byte := to_be_bytes 4 n.
Definition written_after (n : Z) : LedgerTable := foldl (fun rows k => write_ledger (row_name k) [] rows) (write_ledger (row_name 0) [1%u8] ∅) (seqZ 1 n).
Definition retried (n : Z) : LedgerTable := foldl (fun rows _ => write_ledger (row_name 1) [] rows) (write_ledger (row_name 0) [1%u8] ∅) (seqZ 1 n).

Example row_stays : written_after 255 !! row_name 0 = Some (1, [1%u8]). Proof. vm_compute. reflexivity. Qed.
Example row_leaves : written_after 256 !! row_name 0 = None. Proof. vm_compute. reflexivity. Qed.
Example retries_leave_rows : retried 766 !! row_name 0 = Some (1, [1%u8]) /\ ledger_age (row_name 0) (retried 766) = Some 1. Proof. vm_compute. split; reflexivity. Qed.

(** ** A window of rewards *)

Definition payee (n : Z) : @PrincipalData demo_clarity := (n, []).
Definition demo_accounting : TenureAccounting := mkAccounting ∅ (list_to_map (map (fun k => (k, mkEarnings (payee 26) 1000 k)) (seqZ 0 101))) None None.

Lemma demo_earning k : 0 <= k <= 100 -> ta_earnings demo_accounting !! k = Some (mkEarnings (payee 26) 1000 k).
Proof.
  intros Hk. unfold demo_accounting. cbn [ta_earnings]. apply elem_of_list_to_map_1.
  - rewrite <- list_fmap_compose. change (NoDup (id <$> seqZ 0 101)). rewrite list_fmap_id. apply NoDup_seqZ.
  - apply list_elem_of_fmap. exists k. split; [done|]. apply elem_of_seqZ. lia.
Qed.

Lemma demo_covers : covers demo_accounting 100.
Proof.
  split.
  - intros k Hk. rewrite demo_earning; [by eexists|]. unfold MINER_REWARD_MATURITY in Hk. lia.
  - intros k [e He]. unfold demo_accounting in He. cbn [ta_earnings] in He. apply elem_of_list_to_map_2, list_elem_of_fmap in He as (j & [= -> _] & Hj). apply elem_of_seqZ in Hj. lia.
Qed.

Lemma window_advances_witness :
  let a := record_earnings 101 (mkEarnings (payee 27) 500 0) demo_accounting in
  covers a 101 /\ effects_for_tenure a Network.TESTNET 101 = Some (Ok (mkEffects [mkCredit (payee 26) 1000; mkCredit (payee 26) 0] 1000)).
Proof.
  destruct (window_advances demo_accounting 100 (mkEarnings (payee 27) 500 0) Network.TESTNET demo_covers ltac:(discriminate)) as [H1 H2].
  split; [exact H1|]. rewrite (eq_refl : ta_matured_effects demo_accounting !! (100 + 1) = None) in H2.
  destruct H2 as (earned & previous & He & Hp & H2). rewrite (demo_earning (100 + 1 - MINER_REWARD_MATURITY)) in He by (split; discriminate). rewrite (demo_earning (100 - MINER_REWARD_MATURITY)) in Hp by (split; discriminate).
  injection He as <-. injection Hp as <-. exact H2.
Defined.

(** ** A history of one block *)

(** The tenure the miner starts, sealed with a root and signed by the miner and the signers. *)
Definition started_block : NakamotoBlock := Eval vm_compute in
  match build_tenure_start_block (E := unit) 256 won_sortition sample_parent_tenure sample_view Network.TESTNET demo_key vrf_key 4 with
  | Some (Ok block) =>
      let header := set_state_root (replicate 32 4%u8) (bl_header block) in
      let header := set_miner_signature (StacksPrivateKey.sign demo_key (default [] (miner_signature_hash header))) header in
      mkBlock (set_signer_signatures [signature_by 1; signature_by 2] header) (bl_transactions block)
  | _ => sample_block
  end.
Definition started_id : list byte := Eval vm_compute in default [] (block_id started_block).
Definition boundary_proof : list byte := Eval vm_compute in default [] (coinbase_vrf_proof started_block).
Definition leader_key : list byte := 0%u8 :: replicate 31 0%u8.

Definition history_context : BitcoinBlockContext :=
  mkContext 28 28 0 5 15 0 0 0 0 0 0 (replicate 32 8%u8) 900 (sha512_256 boundary_proof) 10 5 vrf_message (Some leader_key) (Some (hash160 (pk_serialize (9%u8 : @secp_pk demo_secp)))).
Definition demo_history : list CheckpointHistoryBlock := [mkHistoryBlock started_block history_context []].
Definition demo_boundary : CheckpointBoundaryProof :=
  mkBoundary (match tenure_change_payload started_block with Some payload => previous_tenure_consensus_hash payload | None => [] end) boundary_proof vrf_message leader_key.
Definition imported_state : ChainState := mkChainState ({[ [] := (1, started_id) ]} : demo_rows) ledger_default.

Abbreviation adopt_demo := (authenticate_checkpoint_history 256 started_id (replicate 32 4%u8) demo_boundary demo_history imported_state).

Lemma adoption_runs : match adopt_demo with Some (Ok _, _) => true | _ => false end = true.
Proof. vm_compute. reflexivity. Qed.

Lemma history_authenticated_witness : exists s' proof, adopt_demo = Some (Ok tt, s') /\ cl_parent_tenure_proof (cs_ledger s') = Some proof /\ proofs_chain 256 boundary_proof demo_history proof.
Proof.
  pose proof adoption_runs as Hr. destruct adopt_demo as [[[[]|] s']|] eqn:H; try discriminate Hr.
  destruct (history_authenticated 256 started_id (replicate 32 4%u8) demo_boundary demo_history imported_state s' H)
    as (_ & _ & _ & _ & proof & _ & _ & _ & _ & _ & _ & _ & _ & _ & _ & _ & Hp & _ & _ & _ & _ & _ & _ & Hproof & _).
  exact (ex_intro _ s' (ex_intro _ proof (conj eq_refl (conj Hproof Hp)))).
Defined.
