(* ===== verification/SyncWitnesses.v ===== *)
(** * Following peers on concrete networks

    A cache that is a list, a network that is a table of what is answered at each address,
    and the theorems about following peers at runs on them; and blocks that arrive and wait
    for execution. *)

From stdpp Require Import gmap.
From Stdlib Require Import Strings.String.
From S2P Require Import Prelude Primitives Address CodecIO Crypto TxData TxCodec TxAuth TxAuthTheorems Nakamoto NakamotoTheorems Signers Mempool.
From S2P Require Import MarfVersions Effects EmbeddedSigner ProposalExecution SignerService TenureRewards SyncClient Sync SyncTheorems StagedBlocks StagingTheorems.
From S2P Require Import Instances Witnesses.
Local Open Scope Z_scope.

(** ** Instances *)

Fixpoint extract {K V} `{!EqDecision K} (k : K) (l : list (K * V)) : option (V * list (K * V)) :=
  match l with
  | [] => None
  | e :: l => if decide (e.1 = k) then Some (e.2, l) else match extract k l with Some (v, rest) => Some (v, e :: rest) | None => None end
  end.

Lemma extract_spec {K V} `{!EqDecision K} (k : K) (l : list (K * V)) :
  match extract k l with Some (v, rest) => exists before after, l = before ++ (k, v) :: after /\ rest = before ++ after | None => k ∉ l.*1 end.
Proof.
  induction l as [|[k' v'] l IH]; cbn [extract]; [by apply not_elem_of_nil|]. cbn [fst snd]. destruct (decide (k' = k)) as [->|Hk]; [by exists [], l|]. destruct (extract k l) as [[v rest]|].
  - destruct IH as (before & after & -> & ->). by exists ((k', v') :: before), after.
  - cbn. rewrite not_elem_of_cons. by split; [intros ->|].
Qed.

#[local] Instance list_lru : LruCrate := {|
  Lru := fun K V => (list (K * V) * Z)%type;
  lru_new := fun _ _ cap => ([], cap);
  lru_len := fun _ _ c => len c.1;
  lru_cap := fun _ _ c => c.2;
  lru_get := fun _ _ _ k c => match extract k c.1 with Some (v, rest) => (Some v, ((k, v) :: rest, c.2)) | None => (None, c) end;
  lru_pop := fun _ _ _ k c => match extract k c.1 with Some (v, rest) => (Some v, (rest, c.2)) | None => (None, c) end;
  lru_pop_lru := fun _ _ c => match last c.1 with Some e => (Some e, (removelast c.1, c.2)) | None => (None, c) end;
  lru_put := fun _ _ _ k v c => ((k, v) :: c.1, c.2);
|}.

#[local] Instance list_lru_ok : LruCrateOk.
Proof.
  refine {| lru_entries := fun K V (c : @Lru list_lru K V) => c.1 |}.
  - done.
  - done.
  - intros K V ? k [l cap]. cbn. pose proof (extract_spec k l) as H. destruct (extract k l) as [[v rest]|]; cbn; (split; [done|]); [|done]. destruct H as (before & after & -> & ->). by exists before, after.
  - intros K V ? k [l cap]. cbn. pose proof (extract_spec k l) as H. destruct (extract k l) as [[v rest]|]; cbn; (split; [done|]); [|done]. destruct H as (before & after & -> & ->). by exists before, after.
  - intros K V [l cap]. cbn. destruct (last l) as [e|] eqn:E; cbn; (split; [done|]); [|by apply last_None in E]. apply last_Some in E as (l' & ->). by rewrite removelast_last.
  - done.
Defined.

(** What is answered at each address; any other address is not found. An error is a status. *)
#[local] Instance table_http : HttpStack := {|
  Internet := list (list byte * list byte);
  HttpUrl := list byte;
  HttpUrl_eq_dec := _;
  url_parse := Some;
  url_join := fun base p => Some (base ++ p);
  url_text := fun url => url;
  cannot_be_a_base := fun _ => false;
  HttpError := Z;
  is_connect := fun _ => false;
  is_timeout := fun _ => false;
  error_status := Some;
  status_error := fun status => status;
  HttpClient := unit;
  client_build := fun _ _ => Ok tt;
  http_get := fun _ url table => (Ok (match List.find (fun row => bool_decide (row.1 = url)) table with Some row => mkResponse 200 None None [Ok row.2] | None => mkResponse 404 None None [] end), table);
  http_post := fun _ _ _ _ table => (Ok (mkResponse 404 None None []), table);
  sleep := fun _ table => table;
  instant_nanos := fun _ => 0;
|}.

Definition hex_text (hash : list byte) : list byte := block_hex hash.
Definition zeros : list byte := list_byte_of_string "0x" ++ replicate 64 48%u8.

(** A record is its hashes in hex, one after the other; a sortition is its view. *)
#[local] Instance plain_json : JsonReader := {|
  JsonFault := unit;
  JsonValue := unit;
  node_info_json := fun _ => Err tt;
  tenure_info_json := fun b => Ok (mkTenureInfoWire (take 40 b) (take 64 (drop 40 b)) (take 40 (drop 104 b)) (take 64 (drop 144 b)) (take 64 (drop 208 b)) 0 0);
  pox_info_json := fun _ => Err tt;
  stacker_set_json := fun _ => Err tt;
  upload_json := fun _ => Err tt;
  account_json := fun _ => Err tt;
  sortitions_json := fun b => Ok [mkSortitionWire zeros 0 0 zeros zeros (list_byte_of_string "0x" ++ b) true None None None None None];
  fork_infos_json := fun _ => Err tt;
  value_field := fun _ _ => None;
  address_of_value := fun _ => None;
|}.

#[local] Instance no_addresses : AddressText := fun _ _ => None.

(** ** Four blocks of two tenures *)

Definition sync_header (height : Z) (view parent : list byte) : NakamotoBlockHeader :=
  mkHeader 1%u8 height 100 view parent sample_root (replicate 32 4%u8) height (0%u8 :: 9%u8 :: replicate 63 0%u8) [] (BitVec.mk [1]%u8 1) [].
Definition first_view : list byte := replicate 20 1%u8.
Definition second_view : list byte := replicate 20 2%u8.
Definition sync_block (height : Z) (view parent : list byte) : NakamotoBlock := mkBlock (sync_header height view parent) [own_transfer; sponsored_transfer].
Definition id_of (b : NakamotoBlock) : list byte := default [] (block_id b).

Definition block_a : NakamotoBlock := sync_block 7 first_view (replicate 32 2%u8).
Definition id_a : list byte := Eval vm_compute in id_of block_a.
Definition block_b : NakamotoBlock := sync_block 8 first_view id_a.
Definition id_b : list byte := Eval vm_compute in id_of block_b.
Definition block_c : NakamotoBlock := sync_block 9 second_view id_b.
Definition id_c : list byte := Eval vm_compute in id_of block_c.

Definition encoded (b : NakamotoBlock) : list byte := default [] (encode_block b).

Lemma blocks_decode : map (fun b => decode_block (encoded b)) [block_a; block_b; block_c] = map (fun b => Some (Ok b)) [block_a; block_b; block_c].
Proof. vm_compute. reflexivity. Qed.

(** ** Two polls, with a block and a tenure between them *)

Definition at_path (p : string) (rest : list byte) : list byte := list_byte_of_string "http://peer/" ++ list_byte_of_string p ++ rest.
Definition info_body (view start parent_view parent_start tip : list byte) : list byte := hex_text view ++ hex_text start ++ hex_text parent_view ++ hex_text parent_start ++ hex_text tip.

Definition before_table : @Internet table_http :=
  [(at_path "v3/tenures/info" [], info_body first_view id_a (replicate 20 0%u8) (replicate 32 0%u8) id_a);
   (at_path "v3/tenures/" (hex_text id_a), encoded block_a);
   (at_path "v3/sortitions/consensus/" (hex_text first_view), hex_text first_view)].

Definition after_table : @Internet table_http :=
  [(at_path "v3/tenures/info" [], info_body second_view id_c first_view id_a id_c);
   (at_path "v3/tenures/" (hex_text id_c), encoded block_c);
   (at_path "v3/blocks/" (hex_text id_c), encoded block_c);
   (at_path "v3/blocks/" (hex_text id_b), encoded block_b);
   (at_path "v3/sortitions/consensus/" (hex_text second_view), hex_text second_view)].

Definition peer : SyncClient := mkSyncClient tt (list_byte_of_string "http://peer/").
Definition elsewhere : SyncClient := mkSyncClient tt (list_byte_of_string "http://elsewhere/").

Definition started (table : @Internet table_http) : SyncState := mkSync table 0 0 (ByteCache.mk ([], PEER_BLOCK_CACHE_ITEMS) 0 PEER_BLOCK_CACHE_BYTES) (ByteCache.mk ([], PEER_SORTITION_CACHE_ITEMS) 0 PEER_SORTITION_CACHE_BYTES).

Lemma demo_started_ok table : sync_ok (started table).
Proof. destruct (sync_start_ok (table : @Internet table_http)) as (s & Hs & Hok & _). injection Hs as <-. exact Hok. Qed.

Abbreviation outcome := (option (result SyncError.t (option FollowedTenure) * (TenureFollower * SyncState))).
Abbreviation polled_once := (TenureFollower.poll (TenureFollower.new peer, started before_table)).
Definition poll_again (o : outcome) : outcome := match o with Some (_, (t, w)) => TenureFollower.poll (t, with_internet after_table w) | None => None end.
Definition history_ids (o : outcome) : option (list (list (list byte))) :=
  match o with Some (Ok _, (t, _)) => Some (map (fun f => map id_of (fo_blocks f)) (tf_history t)) | _ => None end.

(** The first block of the second tenure stands twice in it. *)
Lemma second_tenure_repeats : history_ids polled_once = Some [[id_a]] /\ history_ids (poll_again polled_once) = Some [[id_a]; [id_b; id_c; id_c]].
Proof. vm_compute. done. Qed.

Lemma follower_history_witness : exists t, polled peer t /\ length (tf_history t) = 2%nat /\ follower_ok t.
Proof.
  pose proof (proj2 second_tenure_repeats) as H1. destruct polled_once as [[r [t w]]|] eqn:E1; [|discriminate H1].
  assert (H2 : history_ids (TenureFollower.poll (t, with_internet after_table w)) = Some [[id_a]; [id_b; id_c; id_c]]) by exact H1. clear H1.
  destruct (TenureFollower.poll (t, with_internet after_table w)) as [[[o|e] [t2 w2]]|] eqn:E2; try discriminate H2.
  destruct (poll_step _ _ _ _ _ (new_follower_ok peer) (demo_started_ok before_table) E1) as [_ Hw].
  assert (Hp : polled peer t2) by exact (polled_again peer t _ _ t2 w2 (polled_again peer _ _ r t w (polled_new peer) (demo_started_ok before_table) E1) (internet_ok _ _ Hw) E2).
  exists t2. split; [exact Hp|]. split; [|exact (follower_history peer t2 Hp)]. cbn in H2. injection H2 as H2. apply (f_equal length) in H2. rewrite length_map in H2. exact H2.
Defined.

(** ** A pool *)

Abbreviation pool := (TenureSource.new [elsewhere; peer]).
Abbreviation fetch_b := (TenureSource.block id_b (pool, started after_table)).

Lemma fetch_b_runs : match fetch_b with Some (Ok b, (t, _)) => bool_decide (ts_last_served t = Some 1%nat) | _ => false end = true.
Proof. vm_compute. reflexivity. Qed.

Lemma fetched_is_named_witness : exists b s', fetch_b = Some (Ok b, s') /\ block_id b = Some id_b.
Proof.
  pose proof fetch_b_runs as Hr. destruct fetch_b as [[[b|e] [t w]]|] eqn:E; try discriminate Hr. exists b, (t, w). split; [reflexivity|].
  destruct (fetched_is_named (started after_table) (demo_started_ok after_table)) as [Hb _]. destruct (Hb _ _ _ _ _ E) as [_ Hid]. exact (Hid b eq_refl).
Defined.

Lemma spread_spec_witness : exists r t' w' start, TenureSource.spread_from None (fun peer => SyncClient.block peer id_b) (pool, started after_table) = Some (r, (t', w')) /\ NoDup (rota pool start (seq 0 2)).
Proof.
  pose proof fetch_b_runs as Hr. unfold TenureSource.block, TenureSource.spread in Hr. destruct (TenureSource.spread_from None _ _) as [[[b|e] [t w]]|] eqn:E; try discriminate Hr. exists (Ok b), t, w.
  destruct (spread_spec None (fun peer => SyncClient.block peer id_b) pool (started after_table) (Ok b) t w E) as (start & Hn & _). exists start. split; [reflexivity|exact Hn].
Defined.

Definition willing (p : SyncClient) : Eff SyncState SyncError.t Z := if bool_decide (sc_base_url p = sc_base_url peer) then mret 5 else throw SyncError.NoPeer.

Lemma willing_peer_serves_witness : exists answer s', TenureSource.spread_from None willing (pool, started ([] : @Internet table_http)) = Some (Ok answer, s').
Proof.
  apply (willing_peer_serves None willing pool (started ([] : @Internet table_http)) 1 peer).
  - intros p v. unfold willing. destruct (bool_decide _); eexists; reflexivity.
  - reflexivity.
  - apply (bool_decide_eq_true_1 _). vm_compute. reflexivity.
  - intros v. eexists _, _. reflexivity.
Defined.

(** ** Three tips *)

Definition signed_tip (height : Z) (view : list byte) : NakamotoBlockHeader :=
  mkHeader 1%u8 height 100 view id_a sample_root (replicate 32 4%u8) height (0%u8 :: 9%u8 :: replicate 63 0%u8) [signature_by 1; signature_by 2] (BitVec.mk [1]%u8 1) [].
Definition info_of (view : list byte) : TenureInfo := mkTenureInfo view id_a first_view id_a id_b 0 0.
Definition two_signers : SignerWeights.t := map (fun k => (hash160 (pk_serialize (k : @secp_pk demo_secp)), 50)) [1; 2]%u8.
(** The node derived two views, the second one later. *)
Definition demo_view : BurnView := mkBurnView (fun view => if bool_decide (view = first_view) then Some 10 else if bool_decide (view = second_view) then Some 11 else None)
  (fun view _ => Some (bool_decide (view = first_view) || bool_decide (view = second_view))).
Definition foreign_tip : CandidateTip := mkTip 0 (info_of (replicate 20 3%u8)) (signed_tip 99 (replicate 20 3%u8)).
Definition unsigned_tip : CandidateTip := mkTip 1 (info_of first_view) (sync_header 50 first_view id_a).
Definition earlier_tip : CandidateTip := mkTip 2 (info_of first_view) (signed_tip 9 first_view).
Definition later_tip : CandidateTip := mkTip 3 (info_of second_view) (signed_tip 9 second_view).

Lemma canonical_tip_spec_witness : exists best, choose_canonical_tip [foreign_tip; unsigned_tip; later_tip; earlier_tip] (Some two_signers) (Some demo_view) = Some (Some best) /\ ct_peer best = 3%nat /\
  exists weight, SignerWeights.verify two_signers (ct_header best) = Some (Ok weight).
Proof.
  assert (H : choose_canonical_tip [foreign_tip; unsigned_tip; later_tip; earlier_tip] (Some two_signers) (Some demo_view) = Some (Some later_tip)) by (vm_compute; reflexivity).
  exists later_tip. split; [exact H|]. split; [reflexivity|]. destruct (canonical_tip_spec (Some demo_view) _ (Some two_signers) (Some later_tip) H) as [(_ & _ & _ & Hw) _]. apply (Hw two_signers eq_refl). vm_compute. reflexivity.
Defined.

(** ** Blocks waiting for execution *)

Definition waiting_block (chain_length : Z) (parent : list byte) (signatures : list (list byte)) : NakamotoBlock :=
  mkBlock (mkHeader 1%u8 chain_length 100 (replicate 20 1%u8) parent sample_root (replicate 32 4%u8) 5 (0%u8 :: 9%u8 :: replicate 63 0%u8) signatures (BitVec.mk [1]%u8 1) [mkProblematic 3 1%u8]) [own_transfer; sponsored_transfer].
Definition lower_block : NakamotoBlock := waiting_block 7 (replicate 32 2%u8) [signature_by 1].
Definition lower_id : list byte := Eval vm_compute in default [] (block_id lower_block).
Definition upper_block : NakamotoBlock := waiting_block 8 lower_id [signature_by 2].
Definition upper_id : list byte := Eval vm_compute in default [] (block_id upper_block).

Lemma waiting_block_encodable chain_length parent signatures : is_u64 chain_length -> len parent = 32 -> is_u32 (len signatures) -> Forall (fun s => len s = 65) signatures -> encodable (waiting_block chain_length parent signatures).
Proof.
  intros Hn Hp Hu HF. pose proof sample_block_ok as (_ & H1 & H2 & _). split; [|by split]. destruct (sample_header_ok signatures Hu HF) as (_ & A2 & A3 & _ & A5 & A6 & A7 & A8 & A9 & A10 & A11).
  unfold header_ok. exact (conj Hn (conj A2 (conj A3 (conj Hp (conj A5 (conj A6 (conj A7 (conj A8 (conj A9 (conj A10 A11)))))))))).
Qed.

#[local] Instance demo_sqlite : Sqlite := {| SqliteError := unit; out_of_range := tt; no_such_table := tt |}.

(** The blocks arrive, the branch is asked for, a certificate arrives for the lower block, and
    the lower block is executed. *)
Definition waiting_requests : list StagingRequest := [Download lower_block; Download upper_block; ResumesAt; Put (waiting_block 7 (replicate 32 2%u8) [signature_by 2]); Remove lower_id].

Definition after (q : StagingRequest) (s : Staging) : Staging := default s (snd <$> run_request q s).
Definition waiting_store (n : nat) : Staging :=
  foldl (fun s q => after q s) (match Staging.open (mkFile 0 None None None) [] with Some (Ok (s, _)) => s | _ => mkStaging (mkTables ∅ ∅) None 0 [] end) (take n waiting_requests).

Definition cores_bindb (cores : list (list byte)) : bool := collision_freeb cores && forallb (fun core => len core <=? USIZE_MAX) cores.
Lemma cores_bindb_sound cores : cores_bindb cores = true -> cores_bind cores.
Proof. intros [H1%collision_freeb_sound H2]%andb_true_iff. split; [done|]. apply Forall_forall. intros core Hin%list_elem_of_In. rewrite forallb_forall in H2. by apply Z.leb_le, H2. Qed.

Lemma admitted_waiting chain_length parent signatures s id : encodable (waiting_block chain_length parent signatures) -> block_id (waiting_block chain_length parent signatures) = Some id ->
  cores_bindb (cores_beside id (waiting_block chain_length parent signatures) (sg_tables s)) = true -> admitted_block (waiting_block chain_length parent signatures) s.
Proof. intros He Hid Hb. split; [done|]. intros id' Hid'. rewrite Hid in Hid'. injection Hid' as <-. by apply cores_bindb_sound. Qed.

Lemma run_after q s : match run_request q s with Some _ => true | None => false end = true -> exists r, run_request q s = Some (r, after q s).
Proof. unfold after. destruct (run_request q s) as [[r s']|]; [|done]. by exists r. Qed.

Lemma waiting_reachable : reachable (waiting_store 5).
Proof.
  assert (H0 : reachable (waiting_store 0)).
  { eapply (reachable_open (mkFile 0 None None None) []); [vm_compute; reflexivity|]. apply cores_bindb_sound. vm_compute. reflexivity. }
  assert (Hstep : forall n q, waiting_requests !! n = Some q -> waiting_store (S n) = after q (waiting_store n)).
  { intros n q Hq. unfold waiting_store. rewrite (take_S_r _ _ _ Hq), foldl_app. reflexivity. }
  assert (Hrun : forall n q, waiting_requests !! n = Some q -> match run_request q (waiting_store n) with Some _ => true | None => false end = true -> admitted_request q (waiting_store n) -> reachable (waiting_store n) -> reachable (waiting_store (S n))).
  { intros n q Hq Hr Ha Hn. destruct (run_after q (waiting_store n) Hr) as [r E]. rewrite (Hstep n q Hq). by eapply reachable_run. }
  assert (Hs : forall n, Forall (fun s => len s = 65) [signature_by n]) by (intros; apply Forall_singleton; reflexivity).
  apply (Hrun 4%nat _ eq_refl); [vm_compute; reflexivity|exact I|]. apply (Hrun 3%nat _ eq_refl); [vm_compute; reflexivity| |].
  { apply (admitted_waiting _ _ _ _ lower_id); [apply waiting_block_encodable; [split; discriminate|reflexivity|split; discriminate|apply Hs]|vm_compute; reflexivity..]. }
  apply (Hrun 2%nat _ eq_refl); [vm_compute; reflexivity|exact I|]. apply (Hrun 1%nat _ eq_refl); [vm_compute; reflexivity| |].
  { apply (admitted_waiting _ _ _ _ upper_id); [apply waiting_block_encodable; [split; discriminate|reflexivity|split; discriminate|apply Hs]|vm_compute; reflexivity..]. }
  apply (Hrun 0%nat _ eq_refl); [vm_compute; reflexivity| |exact H0].
  apply (admitted_waiting _ _ _ _ lower_id); [apply waiting_block_encodable; [split; discriminate|reflexivity|split; discriminate|apply Hs]|vm_compute; reflexivity..].
Qed.

(** The branch was kept through the certificate, and its rest through the execution. *)
Lemma waiting_kept : sg_selected (waiting_store 4) = Some [mkLink lower_id (replicate 32 2%u8) 7; mkLink upper_id lower_id 8] /\ sg_selected (waiting_store 5) = Some [mkLink upper_id lower_id 8].
Proof. split; vm_compute; reflexivity. Qed.

Lemma run_det {A B} (m : option (A * B)) x y x' y' : m = Some (x, y) -> m = Some (x', y') -> x = x'.
Proof. congruence. Qed.

Lemma selection_is_current_witness : exists s', Staging.selected_branch (waiting_store 5) = Some (Ok [mkLink upper_id lower_id 8], s') /\ select_branch (sg_tables (waiting_store 5)) = Ok [mkLink upper_id lower_id 8].
Proof.
  destruct (selection_is_current (waiting_store 5) waiting_reachable) as (r & s' & E & _ & Hr). pose proof (selected_branch_kept _ _ (proj2 waiting_kept)) as Hk.
  rewrite (run_det _ _ _ _ _ E Hk) in Hr. exact (ex_intro _ _ (conj Hk (proj1 Hr))).
Defined.
